(* ===== verification/_CoqProject ===== *)
-Q . S2P
Prelude.v
ProtoBase.v
Varint.v
Envelope.v
ParamsCodec.v
Layout.v
OpenCodec.v
RequestCodec.v
EchoCodec.v
ServerBase.v
Fill.v
Session.v
Negotiate.v
ServerCore.v
ServerIo.v
ServerRuntime.v
ServerSet.v
ClientBase.v
ClientNegotiation.v
Probe.v
ClientEvent.v
Timing.v
Machine.v
MachineInv.v
Client.v
ClientTrace.v
ClientProps.v
ClientBlocking.v
Interop.v
Schedule.v
ManagedBase.v
ManagedTask.v
ManagedTarget.v
ManagedPacing.v
ManagedUpdate.v
Managed.v
ManagedLogic.v
ManagedSpecs.v
ManagedPolls.v
ManagedInv.v
ManagedUpdateSpec.v
ManagedRun.v
ManagedProps.v
Endpoint.v
Socket.v
AsyncClient.v
AsyncInv.v
AsyncProps.v
Demo.v
StatsEvents.v
Ipdv.v
StatsCore.v
Rolling.v
Collector.v
AppTargets.v
AppStdin.v
AppStream.v
AppArgs.v
AppFormat.v
AppOutput.v
AppSummary.v
AppRun.v
AppFloat.v
AppTuiGraph.v
AppTui.v
AppTuiView.v
AppTuiRun.v
AppServer.v
AppEntry.v
