(* ===== verification/Prelude.v ===== *)
(** * irtt-rs: a verification library

    irtt-rs measures round trips over UDP with the IRTT protocol. A client opens
    a session with a server under negotiated parameters, sends echo requests at
    an interval, and turns replies, losses, duplicates and late replies into an
    event stream; the statistics crate aggregates that stream, and the application
    drives it all from the command line, from standard input and on a terminal. This library
    models the crates that carry this logic and proves them correct.

    ** Parts and files

    [irtt-proto] (src/crates/irtt-proto/src), the wire format:
    - ProtoBase: error.rs, flags.rs, the 4-byte header of lib.rs.
    - Varint: varint.rs, LEB128 and zigzag.
    - Envelope: envelope.rs and hmac.rs; HMAC-MD5 itself is the class [HmacMd5].
    - ParamsCodec: params.rs, the tagged parameter payload.
    - Layout: layout.rs, field offsets and packet lengths.
    - OpenCodec, RequestCodec, EchoCodec: open.rs, request.rs, echo.rs.

    [irtt-server] (src/crates/irtt-server/src), the protocol engine and its listeners:
    - ServerBase: clock.rs, token.rs, config.rs, error.rs; the operating system's
      clock and random source are the class [Host].
    - Fill, Negotiate: fill.rs, negotiate.rs.
    - Session: session.rs, the reception window, reply allowance and lifetime.
    - ServerCore: core.rs, [process] and [maintain] over the session table, a
      step function from a datagram to an optional reply.
    - ServerIo: socket_io.rs, socket_io/ancillary.rs and socket_options.rs as built
      on Linux: what a reception takes from a message and its ancillary data, the
      source address and traffic class of a reply, the verdict on a failed send.
    - ServerRuntime: runtime.rs, one listener, a step function from events
      ([run_event]) to a trace of socket effects; [serving] is its runs.
    - ServerSet: set.rs, binding several listeners and supervising them; the steps
      of its tasks are events too ([set_event], [supervising]).

    [irtt-client] (src/crates/irtt-client/src), the session state machine and its
    drivers:
    - ClientBase, ClientEvent: timing.rs, config.rs, error.rs, event.rs.
    - ClientNegotiation: session/negotiation.rs.
    - Probe: probe.rs, the pending map with its intrusive deadline list, the
      timed-out map and the completed window.
    - Timing: the measurements of session/machine.rs.
    - Machine: every method of [SessionMachine]; MachineInv: its invariant.
    - Client: client.rs and send.rs, the blocking adapter. What the socket
      answers is an argument of each operation, so every outcome of the system
      calls is covered; the datagrams sent are the state's outbox.
    - ClientTrace: what each operation does to the ledger of sent, answered and
      lost probes. ClientProps: runs ([reachable]) of the client and its
      properties.
    - ClientBlocking: the socket of client.rs: the reception with its retries of
      interrupted calls, the bounded drain [recv_available], the read timeout and
      the traffic class that a close clears and a failed close restores.
    - Endpoint, Socket: socket.rs, socket_options.rs, receive.rs and receive/linux:
      endpoint texts and their resolution, socket construction, options, receive
      metadata and the error queue. The system calls are the class [Os].
    - AsyncClient: async_client.rs, every poll of the nonblocking adapter over the
      same session machine. AsyncInv: its invariant, and that it meets the driver's
      interface; AsyncProps: its properties.
    - Schedule: managed/schedule.rs and the pure part of managed/task/pacing.rs,
      the send cadence of the managed driver.
    - ManagedBase, ManagedTask: managed/model.rs, the data of task.rs and task/,
      the control channel of task/control.rs, the driver's state and its monad.
    - ManagedTarget, ManagedPacing, ManagedUpdate: task/target.rs, task/pacing.rs
      with task/timeouts.rs, task/update.rs; Managed: the construction of the
      driver in task/control.rs and its poll in task.rs.
    - ManagedLogic, ManagedSpecs: weakest preconditions of driver actions and the
      specification of each; ManagedPolls, ManagedInv, ManagedUpdateSpec,
      ManagedRun: the poll of a target, the driver's invariant, the update
      transaction, the poll of the driver; ManagedProps: reachable drivers and
      their properties.
    - Demo: a toy operating system on which the driver and the real async client
      run, and on which the properties of both are applied.

    [irtt-stats] (src/crates/irtt-stats/src):
    - StatsEvents: normalization.rs and the configuration.
    - Ipdv: ipdv.rs, delay variation between adjacent sequences.
    - StatsCore: core.rs, loss.rs and the data of lib.rs; the accumulators of the
      [measurement-stats] crate are the class [Measurement].
    - Rolling: rolling.rs; the bounded queue of [measurement-stats] is the class
      [CountWindows] with its one law.
    - Collector: [StatsCollector] and retention.rs.

    [irtt-app] (src/crates/irtt-app/src), the frontends:
    - AppTargets: shared/client/targets.rs and shared/hmac.rs, the syntax of target
      declarations, their labels and their expansion into address families; the
      [hex] crate is the class [HexCrate].
    - AppStdin: the reader of cmd/client/run.rs, records of bounded size from a
      stream that comes in pieces, and the memory of reported instances.
    - AppStream: [run_stdin_stream] of cmd/client/run.rs, a step function from a turn
      ([stdin_turn]: what arrived, the driver's status and answers, the branch the
      select takes) to the loop's variables and what it did to the driver.
    - AppArgs: shared/client/args.rs, config.rs and prepare.rs with
      cmd/client/args.rs, from the arguments clap hands out ([clap_ok]) to the
      driver's configuration and targets; the [humantime] crate is a class.
    - AppFormat, AppOutput, AppSummary: cmd/format.rs, cmd/client/output.rs with
      the [StreamOutput] of run.rs, and cmd/client/summary.rs, the text of an event
      in each format and of a target's summary, as bytes.
    - AppRun: [run_stream_output] of cmd/client/run.rs, a run over the targets of
      the command line: [run_turn] is one turn of its loop, [run_finish] its end,
      [finite_run] both; what the writer thread was given is the state's [writer].
    - AppFloat: binary64 as the graph uses it (cmd/tui/ui.rs), on [SpecFloat].
    - AppTuiGraph, AppTui, AppTuiView: cmd/tui/ui.rs. The graph's samples, viewport,
      series and axes; the state ([TuiState.t]) and its handlers of events, outcomes
      and statuses; the texts, tables and layout of [draw_dashboard]. What [ratatui]
      does with an area and how wide a text is are the class [Ratatui]; [chrono]'s
      local calendar is the class [LocalTime].
    - AppTuiRun: cmd/tui/args.rs and cmd/tui/run.rs with [handle_key] of ui.rs: one
      turn of the loop of [run_tui] ([tui_turn]: what its select woke up for, the
      driver's status, the screen drawn on), its end ([tui_finish]), [tui_run] both.
    - AppServer: cmd/server/args.rs and cmd/server/run.rs, from the server's arguments
      to its configuration and the set it starts ([serve]), whose runs are ServerSet's.
    - AppEntry: applet.rs and the dispatcher of entry.rs, which applet a process runs.

    Interop composes client and server, Collector composes client and
    statistics.

    The driver knows its clients only through the class [AsyncSession], whose laws
    [AsyncSessionLaws] (no operation on a well-formed client panics, leaves it ill
    formed or moves the clock back) are all its theorems use; AsyncInv proves them of
    AsyncClient. What the system may answer is bounded by [OsLaws] (the clock does
    not go back, a datagram is bytes) and [SpuriousLaws]. The
    driver shares its control state with handles on other threads: [interfere],
    at every point where the source reads that state, lets any finite sequence of
    handle calls happen first.

    ** Conventions

    A Rust function that can fail is a [Result] with a third outcome [Panic], for
    slices out of range, [expect], [unreachable!] and failed [debug_assert!];
    "cannot panic" is then a theorem. Client operations run in a state monad over
    the machine (ClientBase, Machine); the server's state is passed explicitly.
    Integers are [Z] with their width written out: [wrap_u] and [wrap_i] where a
    release build wraps, [sat_u64] and the like where the source saturates,
    [try_u64] and the like for the checked conversions. [usize] has the width of
    the class [Target]. A [Duration] or [Instant] is its nanoseconds. Hash maps
    are [gmap] or, where the order of traversal shows, lists in that order.
    Loops that wait for the outside (a listener's select, the supervision of a set,
    the reads of a reception) run over the sequence of what the outside answers, so a
    theorem about all sequences is one about all interleavings; a loop that has not
    ended at the end of the sequence is still waiting, and the theorems say which
    answers end it.
    Recursion is structural where the source's loops are; the parameter parser,
    the drain of the pending map and the hexadecimal printer run on fuel (bytes
    left, entries, digits) whose end is [Panic], and the totality theorems
    exclude it. The [loop]s of poll_send_probe and poll_close repeat only when a
    socket takes back a readiness it reported; they run on one more than the number
    of such answers the world has left, and [retries_end] shows more changes
    nothing. The [while] of the timeout pass runs on the budget it counts down.
    The work budgets of the polls are the source's constants.

    ** What the theorems show

    - Wire format: decoders never panic on any bytes and read only what they are
      given; every encodable packet survives encoding and decoding, byte by byte;
      authentication accepts exactly the sealed packets; a parameter payload
      means its entries in order.
    - Server: the table invariant holds in every reachable state; no datagram
      panics it or makes its reply exceed the request's allowance; answered opens
      and echoes decode to what was negotiated and measured; sessions are
      isolated; the sweep removes exactly the expired ones; the reply rate is
      bounded and the advertised cadence is always served; the received window
      is exact.
    - Listener: every reply is the core's answer to the message delivered last, sent
      once, to its sender, from the address it came to, under the traffic class its
      own session asked for; no event panics a listener, and it ends only by
      shutdown or a failure it reports.
    - Set: it never serves with fewer listeners than asked for; the first failure
      shuts the others down, and it returns once all have been joined.
    - Client: in every run the machine's tables are consistent, no operation
      panics, every probe sent in an open session is answered, pending or lost, and
      answered at most once; timeouts fire exactly at the deadline; replies are classified by the
      probe's history; a failed send or open leaves the state it promises.
    - Blocking receive: interruptions do not extend a reception past its timeout, a
      drain is a bounded row of receptions whose events it returns unless one fails,
      and the socket's options follow the client's.
    - Client and server: what the server grants the client accepts, under the strict
      policy only if nothing was restricted, and otherwise closes; and the server's
      answer to a probe is measured by the client.
    - Async client: whatever the system answers and in whatever order it is polled,
      nothing panics and its state stays well formed; a send commits a probe exactly
      when it reports a receipt.
    - Managed driver: no poll panics, under any interference; every generation of a
      target ends up in exactly one outcome; live generations, cursors and backlog
      stay within their bounds; updates are transactions, applied exactly when
      acceptable; commands are answered in order, once; a stop is observed by the
      next poll, after which the driver only winds down, and a stopping target ends
      within a bounded number of polls past its deadlines, once no probe timeout is
      due; reconnect delays double
      up to their cap.
    - Schedule: probes stay on the negotiated grid, missed slots are skipped and
      never sent in a burst, a finite test ends.
    - Statistics: counters and metrics are those of the stream; delay-variation
      pairs are reported once whatever the order; rolling windows hold exactly
      their interval; the totals agree with the client's ledger.
    - Application: any target set can be written down and is read back as it was,
      however standard input cuts it into pieces; a prepared set is its declarations
      expanded, and an unchanged set costs no lookup; the latest set is the one the
      driver ends up with, never an older one after a newer; its loop stops the driver
      once; no turn panics, and every instance promised a summary has its statistics.
    - Command line: what it accepts the driver accepts, but for durations that
      cannot be encoded or scheduled; a run over its targets never panics, prints
      exactly its events and then each target's summary, names every failure once
      and exits as it should; CSV and JSON Lines read back cell by cell; a run that
      is not warned stays within the memory it is not warned about.
    - Terminal interface: no turn panics, whatever events, keys and sizes come; the
      statistics shown of a target are those of its latest generation's own events,
      stragglers left out; the graph is each session clipped to the viewport, and
      joins no two; the loop stops the driver once, and the run exits as its outcome says.
    - Server command: it serves every address asked for, under the policy asked for,
      and gives up one of the default pair only on a host without its family.
    - Dispatch: the applet that runs is the one named, with its arguments.

    ** Not modelled

    - The runtime: task wakers (that a pending poll has arranged to be woken; a poll
      may come at any time), the futures a handle waits on for receipts, events and
      status, and managed/blocking.rs, a thread around the driver. Events and
      statuses are the sequence the driver publishes.
    - Sockets on other systems than Linux, on both sides; the read timeouts that
      [Client::open] sets on the way to restoring the client's own.
    - irtt-app: clap's own parsing, the writer thread and the wait for it around a
      run ([run_stream]), the worker's thread, signal handlers and the version
      banners. That a delivery ends by the grace deadline is tokio's; the deadline
      shared by the summaries is in the model.
    - The terminal: entering and leaving it, and the painting of what a frame is made
      of. The frames of a run ([frames]) are the parts handed to ratatui, in order,
      without their styles and borders.
    - The text of numbers and addresses is executable and checked on examples; what
      a reader of a table sees has no theorem.
    - The floating-point percentages and the graph's coordinates are executable
      ([SpecFloat], binary64); the theorems are about their integer inputs and about
      which values are finite, not about rounding. *)

From stdpp Require Export base gmap list strings numbers list_numbers pretty.
From stdpp Require Import options.
From Stdlib Require Export Lia.

#[global] Open Scope Z_scope.

(** ** Outcomes

    [Ok] and [Err] are Rust's [Result]; [Panic] is the outcome of a slice out
    of range, an [expect]/[unwrap] on the wrong variant, [unreachable!] or a
    failed [debug_assert!].  Keeping it as a value lets "this code cannot
    panic" be a theorem. *)
Inductive Result (E A : Type) : Type :=
  | Ok (a : A)
  | Err (e : E)
  | Panic.
Arguments Ok {E A} a.
Arguments Err {E A} e.
Arguments Panic {E A}.

#[export] Instance Result_ret E : MRet (Result E) := λ A a, Ok a.
#[export] Instance Result_bind E : MBind (Result E) := λ A B f m,
  match m with Ok a => f a | Err e => Err e | Panic => Panic end.
#[export] Instance Result_fmap E : FMap (Result E) := λ A B f m,
  match m with Ok a => Ok (f a) | Err e => Err e | Panic => Panic end.

#[export] Instance Result_eq_dec `{EqDecision E, EqDecision A} : EqDecision (Result E A).
Proof. solve_decision. Defined.

(** [Result::map_err]. *)
Definition map_err {E F A} (f : E → F) (m : Result E A) : Result F A :=
  match m with Ok a => Ok a | Err e => Err (f e) | Panic => Panic end.

(** [Option::ok_or]. *)
Definition ok_or {E A} (o : option A) (e : E) : Result E A :=
  match o with Some a => Ok a | None => Err e end.

(** [Option::expect] and [Option::unwrap]. *)
Definition expect {E A} (o : option A) : Result E A :=
  match o with Some a => Ok a | None => Panic end.

(** [debug_assert!]. *)
Definition debug_assert {E} (b : bool) : Result E unit :=
  if b then Ok tt else Panic.

(** [Result::ok]: [Panic] still propagates in the caller, so this is only
    applied where the argument is matched on directly. *)
Definition is_ok {E A} (m : Result E A) : bool :=
  match m with Ok _ => true | _ => false end.

Lemma Ok_inj {E A} (a b : A) : @Ok E A a = Ok b → a = b.
Proof. by intros [= ->]. Qed.

Definition no_panic {E A} (m : Result E A) : Prop := m ≠ Panic.

Lemma no_panic_bind {E A B} (m : Result E A) (f : A → Result E B) :
  no_panic m → (∀ a, m = Ok a → no_panic (f a)) → no_panic (m ≫= f).
Proof. intros Hm Hf. destruct m as [a|e|]; [by apply Hf | done | done]. Qed.

Lemma bind_ok {E A B} (m : Result E A) (f : A → Result E B) b :
  m ≫= f = Ok b ↔ ∃ a, m = Ok a ∧ f a = Ok b.
Proof. destruct m; naive_solver. Qed.

(** ** Machine integers

    A [w]-bit integer is a [Z] with its range; arithmetic that wraps or
    saturates in the source does so here, explicitly. *)
Definition in_u (w z : Z) : Prop := 0 ≤ z < 2 ^ w.
Definition in_i (w z : Z) : Prop := - 2 ^ (w - 1) ≤ z < 2 ^ (w - 1).

#[export] Instance in_u_dec w z : Decision (in_u w z).
Proof. unfold in_u. apply _. Defined.
#[export] Instance in_i_dec w z : Decision (in_i w z).
Proof. unfold in_i. apply _. Defined.

Definition wrap_u (w z : Z) : Z := z mod 2 ^ w.
Definition wrap_i (w z : Z) : Z := (z + 2 ^ (w - 1)) mod 2 ^ w - 2 ^ (w - 1).

Definition I64_MAX : Z := 2 ^ 63 - 1.
Definition I64_MIN : Z := - 2 ^ 63.
Definition U32_MAX : Z := 2 ^ 32 - 1.
Definition U64_MAX : Z := 2 ^ 64 - 1.
Definition I128_MAX : Z := 2 ^ 127 - 1.
Definition I128_MIN : Z := - 2 ^ 127.

(** [TryFrom] between integer types. *)
Definition try_i64 (z : Z) : option Z := if decide (in_i 64 z) then Some z else None.
Definition try_u64 (z : Z) : option Z := if decide (in_u 64 z) then Some z else None.
Definition try_u32 (z : Z) : option Z := if decide (in_u 32 z) then Some z else None.
Definition try_u8 (z : Z) : option Z := if decide (in_u 8 z) then Some z else None.
Definition try_i128 (z : Z) : option Z := if decide (in_i 128 z) then Some z else None.

(** Saturating arithmetic: the exact result clamped into the type. *)
Definition sat_i64 (z : Z) : Z := Z.max I64_MIN (Z.min I64_MAX z).
Definition sat_u64 (z : Z) : Z := Z.max 0 (Z.min U64_MAX z).
Definition sat_u32 (z : Z) : Z := Z.max 0 (Z.min U32_MAX z).
Definition sat_i128 (z : Z) : Z := Z.max I128_MIN (Z.min I128_MAX z).

(** The width of [usize] is the target's: everything is proved for any target
    from 32 to 64 bits. *)
Class Target := {
  USIZE_MAX : Z;
  USIZE_MAX_lo : 2 ^ 32 - 1 ≤ USIZE_MAX;
  USIZE_MAX_hi : USIZE_MAX ≤ 2 ^ 64 - 1;
}.
Definition try_usize `{Target} (z : Z) : option Z :=
  if decide (0 ≤ z ≤ USIZE_MAX) then Some z else None.

Definition target64 : Target.
Proof. refine {| USIZE_MAX := 2 ^ 64 - 1 |}; lia. Defined.
Definition target32 : Target.
Proof. refine {| USIZE_MAX := 2 ^ 32 - 1 |}; lia. Defined.

(** ** Bytes and slices *)
Abbreviation bytes := (list Z) (only parsing).
Definition bytes_ok (l : bytes) : Prop := Forall (in_u 8) l.
#[export] Instance bytes_ok_dec l : Decision (bytes_ok l).
Proof. unfold bytes_ok. apply _. Defined.

Definition len {A} (l : list A) : Z := Z.of_nat (length l).

(** [&l[a..b]]. *)
Definition slice {E A} (a b : Z) (l : list A) : Result E (list A) :=
  if decide (0 ≤ a ≤ b ∧ b ≤ len l)
  then Ok (take (Z.to_nat (b - a)) (drop (Z.to_nat a) l)) else Panic.

(** [&l[a..]]. *)
Definition slice_from {E A} (a : Z) (l : list A) : Result E (list A) :=
  if decide (0 ≤ a ≤ len l) then Ok (drop (Z.to_nat a) l) else Panic.

(** [l[a..a + src.len()].copy_from_slice(src)]. *)
Definition copy_at {E A} (a : Z) (src l : list A) : Result E (list A) :=
  if decide (0 ≤ a ∧ a + len src ≤ len l)
  then Ok (take (Z.to_nat a) l ++ src ++ drop (Z.to_nat (a + len src)) l) else Panic.

(** [Vec::resize]. *)
Definition vec_resize (n v : Z) (l : bytes) : bytes := resize (Z.to_nat n) v l.

(** [to_le_bytes] and [from_le_bytes], on [n]-byte integers. *)
Definition to_le (n z : Z) : bytes := Z_to_little_endian n 8 z.
Definition from_le_u (l : bytes) : Z := little_endian_to_Z 8 l.
Definition from_le_i (w : Z) (l : bytes) : Z := wrap_i w (from_le_u l).

(** An ASCII literal as the bytes of a Rust [&str] or byte string. *)
Definition str (s : string) : bytes :=
  (λ a, Z.of_N (Ascii.N_of_ascii a)) <$> String.list_ascii_of_string s.

(** [std::net::SocketAddr]. *)
Inductive SocketAddr : Type :=
  | V4 (ip port : Z)
  | V6 (ip port flowinfo scope_id : Z).
#[export] Instance SocketAddr_eq_dec : EqDecision SocketAddr.
Proof. solve_decision. Defined.

Definition is_ipv4 (addr : SocketAddr) : bool := match addr with V4 _ _ => true | V6 _ _ _ _ => false end.
Definition is_ipv6 (addr : SocketAddr) : bool := negb (is_ipv4 addr).

(** [io::Error], as far as the source looks at it. *)
Inductive IoError : Type := WouldBlock | Interrupted | OtherIo (text : string).
Definition io_text (e : IoError) : string :=
  match e with
  | WouldBlock => "operation would block"
  | Interrupted => "operation interrupted"
  | OtherIo text => text
  end.

(** ** Lemmas on integers *)

Lemma in_u_nonneg w z : in_u w z → 0 ≤ z.
Proof. unfold in_u. lia. Qed.

Lemma wrap_u_range w z : 0 ≤ w → in_u w (wrap_u w z).
Proof. intros. unfold in_u, wrap_u. apply Z.mod_pos_bound. lia. Qed.

Lemma wrap_u_small w z : in_u w z → wrap_u w z = z.
Proof. apply Z.mod_small. Qed.

Lemma wrap_i_range w z : 1 ≤ w → in_i w (wrap_i w z).
Proof.
  intros. unfold in_i, wrap_i.
  pose proof (Z.mod_pos_bound (z + 2 ^ (w - 1)) (2 ^ w)) as Hb.
  assert (2 ^ w = 2 * 2 ^ (w - 1)) as Hw.
  { rewrite <- Z.pow_succ_r by lia. f_equal. lia. }
  pose proof (Z.pow_pos_nonneg 2 (w - 1)). lia.
Qed.

Lemma wrap_i_mod w z : 1 ≤ w → in_i w z → wrap_i w (z mod 2 ^ w) = z.
Proof.
  intros Hw Hz. unfold in_i, wrap_i in *.
  assert (2 ^ w = 2 * 2 ^ (w - 1)) as Hp.
  { rewrite <- Z.pow_succ_r by lia. f_equal. lia. }
  rewrite Zplus_mod_idemp_l, Z.mod_small; lia.
Qed.

Lemma try_u8_Some z n : try_u8 z = Some n ↔ z = n ∧ in_u 8 n.
Proof. unfold try_u8. case_decide; naive_solver. Qed.
Lemma try_u32_Some z n : try_u32 z = Some n ↔ z = n ∧ in_u 32 n.
Proof. unfold try_u32. case_decide; naive_solver. Qed.
Lemma try_u64_Some z n : try_u64 z = Some n ↔ z = n ∧ in_u 64 n.
Proof. unfold try_u64. case_decide; naive_solver. Qed.
Lemma try_i64_Some z n : try_i64 z = Some n ↔ z = n ∧ in_i 64 n.
Proof. unfold try_i64. case_decide; naive_solver. Qed.

Lemma sat_i64_range z : in_i 64 (sat_i64 z).
Proof. unfold in_i, sat_i64, I64_MAX, I64_MIN. lia. Qed.
Lemma sat_i64_id z : in_i 64 z → sat_i64 z = z.
Proof. unfold in_i, sat_i64, I64_MAX, I64_MIN. lia. Qed.

(** Single-bit tests are tests of one bit. *)
Lemma land_pow2 z n : 0 ≤ n → Z.land z (2 ^ n) = if Z.testbit z n then 2 ^ n else 0.
Proof.
  intros Hn. apply Z.bits_inj'. intros i Hi. rewrite Z.land_spec, Z.pow2_bits_eqb by lia.
  destruct (Z.eqb_spec n i) as [->|Hne].
  - destruct (Z.testbit z i); [by rewrite Z.pow2_bits_true | by rewrite Z.bits_0].
  - rewrite andb_false_r.
    destruct (Z.testbit z n); [by rewrite Z.pow2_bits_false by lia | by rewrite Z.bits_0].
Qed.

(** A boolean property of every byte, by enumeration. *)
Lemma byte_cases (P : Z → bool) z :
  in_u 8 z → forallb P (seqZ 0 256) = true → P z = true.
Proof.
  intros Hz HP. rewrite forallb_forall in HP. apply HP, list_elem_of_In, elem_of_seqZ.
  unfold in_u in Hz. lia.
Qed.

(** ** Lemmas on slices *)

Lemma len_nonneg {A} (l : list A) : 0 ≤ len l.
Proof. unfold len. lia. Qed.
Lemma len_nil {A} : len (@nil A) = 0.
Proof. done. Qed.
Lemma len_cons {A} (x : A) l : len (x :: l) = 1 + len l.
Proof. unfold len. cbn [length]. lia. Qed.
Lemma len_app {A} (l k : list A) : len (l ++ k) = len l + len k.
Proof. unfold len. rewrite length_app. lia. Qed.
Lemma len_replicate {A} n (x : A) : len (replicate n x) = Z.of_nat n.
Proof. unfold len. by rewrite length_replicate. Qed.
Lemma len_to_le n z : 0 ≤ n → len (to_le n z) = n.
Proof. intros. apply length_Z_to_little_endian. lia. Qed.
Lemma len_fmap {A B} (f : A → B) l : len (f <$> l) = len l.
Proof. unfold len. by rewrite length_fmap. Qed.
Lemma len_take {A} n (l : list A) : len (take n l) = Z.min (Z.of_nat n) (len l).
Proof. unfold len. rewrite length_take. lia. Qed.
Lemma len_drop {A} n (l : list A) : len (drop n l) = Z.max 0 (len l - Z.of_nat n).
Proof. unfold len. rewrite length_drop. lia. Qed.
Lemma len_resize n v (l : bytes) : 0 ≤ n → len (vec_resize n v l) = n.
Proof. intros. unfold len, vec_resize. rewrite length_resize. lia. Qed.

Create HintDb irtt.
Create Rewrite HintDb len.
#[export] Hint Rewrite @len_nil @len_cons @len_app @len_replicate @len_fmap @len_take @len_drop
  : len.
#[export] Hint Rewrite len_to_le len_resize using lia : len.

(** Normalises lengths everywhere, then arithmetic. *)
Ltac len_lia :=
  autorewrite with len in *;
  repeat match goal with
    | |- context [len ?l] => lazymatch goal with
        | _ : 0 ≤ len l |- _ => fail | _ => pose proof (len_nonneg l) end
    | _ : context [len ?l] |- _ => lazymatch goal with
        | _ : 0 ≤ len l |- _ => fail | _ => pose proof (len_nonneg l) end
  end;
  lia.

Lemma slice_ok {E A} a b (l : list A) :
  0 ≤ a ≤ b → b ≤ len l →
  @slice E A a b l = Ok (take (Z.to_nat (b - a)) (drop (Z.to_nat a) l)).
Proof. intros. unfold slice. rewrite decide_True by lia. done. Qed.

Lemma slice_inv {E A} a b (l r : list A) :
  @slice E A a b l = Ok r → 0 ≤ a ≤ b ∧ b ≤ len l ∧ len r = b - a ∧ r ⊆ l.
Proof.
  unfold slice. case_decide; [|done]. intros [= <-]. split; [lia|]. split; [lia|].
  split; [len_lia|]. intros x Hx. rewrite elem_of_take in Hx. destruct Hx as (i & Hi & _).
  rewrite lookup_drop in Hi. by eapply list_elem_of_lookup_2.
Qed.

Lemma slice_app {E A} (l k m : list A) a b :
  a = len l → b = len l + len k → @slice E A a b (l ++ k ++ m) = Ok k.
Proof.
  intros -> ->. rewrite slice_ok by len_lia. f_equal. unfold len.
  rewrite Nat2Z.id, drop_app_length.
  replace (Z.to_nat _) with (length k) by lia. by rewrite take_app_length.
Qed.

Lemma slice_app_0 {E A} (k m : list A) b :
  b = len k → @slice E A 0 b (k ++ m) = Ok k.
Proof. intros ->. by apply (slice_app [] k m). Qed.

Lemma slice_from_ok {E A} a (l : list A) :
  0 ≤ a ≤ len l → @slice_from E A a l = Ok (drop (Z.to_nat a) l).
Proof. intros. unfold slice_from. by rewrite decide_True by lia. Qed.

Lemma slice_from_app {E A} (l k : list A) a :
  a = len l → @slice_from E A a (l ++ k) = Ok k.
Proof.
  intros ->. rewrite slice_from_ok by len_lia. f_equal. unfold len.
  by rewrite Nat2Z.id, drop_app_length.
Qed.

Lemma copy_at_app {E A} (l k m src : list A) a :
  a = len l → len src = len k → @copy_at E A a src (l ++ k ++ m) = Ok (l ++ src ++ m).
Proof.
  intros -> Hk. unfold copy_at. rewrite decide_True by len_lia. f_equal. unfold len in *.
  rewrite Nat2Z.id, take_app_length. f_equal. f_equal.
  rewrite (app_assoc l k m). apply drop_app_length'. rewrite length_app. lia.
Qed.

(** ** Lemmas on bytes *)

Lemma bytes_ok_app l k : bytes_ok (l ++ k) ↔ bytes_ok l ∧ bytes_ok k.
Proof. apply Forall_app. Qed.
Lemma bytes_ok_cons x l : bytes_ok (x :: l) ↔ in_u 8 x ∧ bytes_ok l.
Proof. apply Forall_cons. Qed.
Lemma bytes_ok_nil : bytes_ok [].
Proof. constructor. Qed.
Lemma bytes_ok_subseteq (l k : bytes) : k ⊆ l → bytes_ok l → bytes_ok k.
Proof. unfold bytes_ok. rewrite !Forall_forall. set_solver. Qed.
Lemma bytes_ok_take n l : bytes_ok l → bytes_ok (take n l).
Proof. apply Forall_take. Qed.
Lemma bytes_ok_drop n l : bytes_ok l → bytes_ok (drop n l).
Proof. apply Forall_drop. Qed.
Lemma bytes_ok_replicate n x : in_u 8 x → bytes_ok (replicate n x).
Proof. apply Forall_replicate. Qed.
Lemma bytes_ok_to_le n z : 0 ≤ n → bytes_ok (to_le n z).
Proof. intros. apply Z_to_little_endian_bound; lia. Qed.
#[export] Hint Resolve bytes_ok_nil bytes_ok_take bytes_ok_drop bytes_ok_replicate bytes_ok_to_le
  : irtt.

Lemma slice_bytes_ok {E} a b (l r : bytes) :
  @slice E Z a b l = Ok r → bytes_ok l → bytes_ok r.
Proof. intros (_ & _ & _ & Hs)%slice_inv. by apply bytes_ok_subseteq. Qed.

Lemma from_le_u_to_le n z : 0 ≤ n → in_u (8 * n) z → from_le_u (to_le n z) = z.
Proof.
  intros Hn Hz. unfold from_le_u, to_le.
  rewrite little_endian_to_Z_to_little_endian by lia.
  rewrite (Z.mul_comm n). by apply Z.mod_small.
Qed.

Lemma from_le_i_to_le n z : 1 ≤ n → in_i (8 * n) z → from_le_i (8 * n) (to_le n z) = z.
Proof.
  intros Hn Hz. unfold from_le_i, from_le_u, to_le.
  rewrite little_endian_to_Z_to_little_endian by lia.
  rewrite (Z.mul_comm n). apply wrap_i_mod; [lia|done].
Qed.

Lemma from_le_u_range l : bytes_ok l → in_u (8 * len l) (from_le_u l).
Proof.
  intros Hl. unfold in_u, from_le_u. rewrite Z.mul_comm.
  apply little_endian_to_Z_bound; [lia|done].
Qed.

Lemma to_le_from_le l : bytes_ok l → to_le (len l) (from_le_u l) = l.
Proof. intros Hl. apply Z_to_little_endian_to_Z; [done|lia|done]. Qed.

(** Splits a [bytes_ok] goal along appends and closes the leaves with the hints. *)
Ltac bytes_tac :=
  repeat lazymatch goal with
    | |- bytes_ok (_ ++ _) => apply bytes_ok_app; split
    | |- bytes_ok (_ :: _) => apply bytes_ok_cons; split
  end; eauto with irtt.

(** Evaluates a closed decidable goal. *)
Ltac decide_now :=
  lazymatch goal with |- ?P => apply (bool_decide_unpack P); vm_compute; exact I end.

(** ** UTF-8

    [std::str::from_utf8]: the well-formed byte sequences of the Unicode
    standard (no overlong form, no surrogate, nothing above U+10FFFF). *)
Definition utf8_cont (b : Z) : bool := (0x80 <=? b) && (b <=? 0xBF).

Fixpoint utf8_valid (l : bytes) : bool :=
  match l with
  | [] => true
  | b0 :: l1 =>
      if b0 <? 0x80 then utf8_valid l1
      else if (0xC2 <=? b0) && (b0 <=? 0xDF) then
        match l1 with b1 :: l2 => utf8_cont b1 && utf8_valid l2 | _ => false end
      else if (0xE0 <=? b0) && (b0 <=? 0xEF) then
        match l1 with
        | b1 :: b2 :: l3 =>
            ((if b0 =? 0xE0 then 0xA0 else 0x80) <=? b1) &&
            (b1 <=? (if b0 =? 0xED then 0x9F else 0xBF)) && utf8_cont b2 && utf8_valid l3
        | _ => false end
      else if (0xF0 <=? b0) && (b0 <=? 0xF4) then
        match l1 with
        | b1 :: b2 :: b3 :: l4 =>
            ((if b0 =? 0xF0 then 0x90 else 0x80) <=? b1) &&
            (b1 <=? (if b0 =? 0xF4 then 0x8F else 0xBF)) &&
            utf8_cont b2 && utf8_cont b3 && utf8_valid l4
        | _ => false end
      else false
  end.

(** A [String]: bytes that are UTF-8. *)
Definition string_ok (l : bytes) : Prop := bytes_ok l ∧ utf8_valid l = true.
#[export] Instance string_ok_dec l : Decision (string_ok l).
Proof. unfold string_ok. apply _. Defined.
