(* ===== verification/ProtoBase.v ===== *)
(** * irtt-proto: errors, flags, constants and the 4-byte packet header

    Models [crates/irtt-proto/src/error.rs], [flags.rs] and the constants and
    header functions of [lib.rs]. *)

From S2P Require Import Prelude.

(** [enum ProtoError]. *)
Inductive ProtoError : Type :=
  | PacketTooShort (needed actual : Z)
  | PacketLengthMismatch (expected actual : Z)
  | BadMagic
  | ReservedFlags (bits : Z)
  | MissingFlag (flag : Z)
  | UnexpectedFlag (flag : Z)
  | HmacPresenceMismatch
  | BadHmac
  | InvalidHmacOffset
  | TruncatedVarint
  | VarintOverflow
  | InvalidUtf8
  | InvalidEnum (name : string) (value : Z)
  | PacketLengthUnrepresentable (length : Z)
  | ParameterLengthTooLarge (tag length : Z)
  | ZeroToken
  | MalformedParams
  | PayloadTooLarge (available provided : Z)
  | MissingField (name : string)
  | UnexpectedField (name : string).

#[export] Instance ProtoError_eq_dec : EqDecision ProtoError.
Proof. solve_decision. Defined.

(** [type Result<T>] of the crate. *)
Abbreviation PResult := (Result ProtoError).

Definition FLAG_OPEN : Z := 0x01.
Definition FLAG_REPLY : Z := 0x02.
Definition FLAG_CLOSE : Z := 0x04.
Definition FLAG_HMAC : Z := 0x08.
Definition RESERVED_FLAGS_MASK : Z := 0xF0.

Definition validate_flags (flags : Z) : PResult unit :=
  let reserved := Z.land flags RESERVED_FLAGS_MASK in
  if decide (reserved ≠ 0) then Err (ReservedFlags reserved) else Ok tt.

Definition has (flags flag : Z) : bool := negb (Z.land flags flag =? 0).

Definition MAGIC : bytes := [0x14; 0xA7; 0x5B].
Definition PROTOCOL_VERSION : Z := 1.
Definition HMAC_SIZE : Z := 16.
Definition TOKEN_SIZE : Z := 8.
Definition SEQ_SIZE : Z := 4.
Definition RECV_COUNT_SIZE : Z := 4.
Definition RECV_WINDOW_SIZE : Z := 8.
Definition TIMESTAMP_SIZE : Z := 8.
Definition HEADER_SIZE : Z := 4.

Definition write_header (out : bytes) (flags : Z) : bytes := (out ++ MAGIC) ++ [flags].

#[global] Arguments write_header _ _ : simpl never.

Definition validate_header (packet : bytes) : PResult Z :=
  if decide (len packet < HEADER_SIZE)
  then Err (PacketTooShort HEADER_SIZE (len packet))
  else
    magic ← slice 0 3 packet;
    if decide (magic ≠ MAGIC) then Err BadMagic
    else
      flags ← expect (packet !! 3%nat);
      _ ← validate_flags flags;
      Ok flags.

(** ** Lemmas *)

Lemma has_testbit flags n : 0 ≤ n → has flags (2 ^ n) = Z.testbit flags n.
Proof.
  intros Hn. unfold has. rewrite land_pow2 by done.
  destruct (Z.testbit flags n); [|done].
  pose proof (Z.pow_pos_nonneg 2 n). destruct (Z.eqb_spec (2 ^ n) 0); [lia|done].
Qed.

(** The four flags are bits 0 to 3. *)
Lemma has_open f : has f FLAG_OPEN = Z.testbit f 0.
Proof. by apply (has_testbit f 0). Qed.
Lemma has_reply f : has f FLAG_REPLY = Z.testbit f 1.
Proof. by apply (has_testbit f 1). Qed.
Lemma has_close f : has f FLAG_CLOSE = Z.testbit f 2.
Proof. by apply (has_testbit f 2). Qed.
Lemma has_hmac f : has f FLAG_HMAC = Z.testbit f 3.
Proof. by apply (has_testbit f 3). Qed.

(** The flags byte a packet may carry: four bits, no reserved one. *)
Definition flags_ok (f : Z) : Prop := 0 ≤ f < 16.
#[export] Instance flags_ok_dec f : Decision (flags_ok f).
Proof. unfold flags_ok. apply _. Defined.

Lemma validate_flags_spec f :
  in_u 8 f → validate_flags f = if decide (flags_ok f) then Ok tt
                                else Err (ReservedFlags (Z.land f RESERVED_FLAGS_MASK)).
Proof.
  intros Hf. apply (byte_cases (λ f, bool_decide
    (validate_flags f = if decide (flags_ok f) then Ok tt
                        else Err (ReservedFlags (Z.land f RESERVED_FLAGS_MASK)))))
    in Hf; [by apply bool_decide_eq_true in Hf | by vm_compute].
Qed.

Lemma validate_flags_ok f : flags_ok f → validate_flags f = Ok tt.
Proof.
  intros Hf. rewrite validate_flags_spec by (unfold flags_ok, in_u in *; lia).
  by rewrite decide_True.
Qed.

Lemma validate_flags_inv f : in_u 8 f → validate_flags f = Ok tt → flags_ok f.
Proof. intros Hf. rewrite validate_flags_spec by done. by case_decide. Qed.

Lemma len_write_header out f : len (write_header out f) = len out + HEADER_SIZE.
Proof. unfold write_header, MAGIC, HEADER_SIZE. len_lia. Qed.
#[export] Hint Rewrite len_write_header : len.

(** A written header validates, whatever follows it. *)
Lemma validate_write_header f body :
  flags_ok f → validate_header (write_header [] f ++ body) = Ok f.
Proof.
  intros Hf. unfold validate_header.
  rewrite decide_False by (autorewrite with len; pose proof (len_nonneg body); unfold HEADER_SIZE; lia).
  change (write_header [] f ++ body) with ([] ++ MAGIC ++ (f :: body)).
  rewrite (slice_app [] MAGIC (f :: body)) by done. simpl.
  by rewrite validate_flags_ok.
Qed.

(** The header accepts exactly magic plus a byte with no reserved bit. *)
Lemma validate_header_inv packet f :
  bytes_ok packet → validate_header packet = Ok f →
  ∃ body, packet = write_header [] f ++ body ∧ flags_ok f.
Proof.
  unfold validate_header. intros Hb. case_decide as Hl; [done|].
  destruct packet as [|a [|b [|c [|d body]]]]; try (unfold HEADER_SIZE, len in Hl; simpl in Hl; lia).
  rewrite slice_ok by len_lia. simpl. case_decide as Hm; [done|].
  intros (u & Hv & [= <-])%bind_ok. destruct u. exists body. injection Hm as -> -> ->.
  split; [done|]. apply validate_flags_inv; [|done].
  by repeat (apply bytes_ok_cons in Hb as [? Hb]).
Qed.

Lemma validate_header_no_panic packet : no_panic (validate_header packet).
Proof.
  unfold validate_header. case_decide as Hl; [done|].
  destruct packet as [|a [|b [|c [|d body]]]]; try (unfold HEADER_SIZE, len in Hl; simpl in Hl; lia).
  rewrite slice_ok by len_lia. simpl. case_decide; [done|].
  unfold validate_flags. by case_decide.
Qed.
