(* ===== verification/Varint.v ===== *)
(** * irtt-proto: variable-length integers

    Models [crates/irtt-proto/src/varint.rs]: base-128 [u64] varints and the
    zigzag transform for [i64].  The encoder's [while] loop takes a fuel of 10
    iterations; [encode_uvarint_eq] shows that this satisfies the loop's own
    equation at every [u64], so the fuel never runs out. *)

From S2P Require Import Prelude ProtoBase.

Fixpoint encode_uvarint_loop (fuel : nat) (value : Z) (out : bytes) : bytes :=
  match fuel with
  | O => out
  | S fuel =>
      if decide (0x80 ≤ value) then
        encode_uvarint_loop fuel (Z.shiftr value 7) (out ++ [Z.lor (wrap_u 8 value) 0x80])
      else out ++ [wrap_u 8 value]
  end.

Definition encode_uvarint (value : Z) (out : bytes) : bytes :=
  encode_uvarint_loop 10 value out.

Fixpoint decode_uvarint_loop (idx value : Z) (input : bytes) : PResult (Z * Z) :=
  match input with
  | [] => Err TruncatedVarint
  | byte :: input =>
      if decide (idx = 10) then Err VarintOverflow
      else
        let low := Z.land byte 0x7f in
        let shift := idx * 7 in
        if decide (shift = 63 ∧ 1 < low) then Err VarintOverflow
        else
          let value := Z.lor value (wrap_u 64 (Z.shiftl low shift)) in
          if decide (byte < 0x80) then Ok (value, idx + 1)
          else decode_uvarint_loop (idx + 1) value input
  end.

Definition decode_uvarint (input : bytes) : PResult (Z * Z) := decode_uvarint_loop 0 0 input.

Definition zigzag_encode (value : Z) : Z :=
  wrap_u 64 (Z.lxor (wrap_i 64 (Z.shiftl value 1)) (Z.shiftr value 63)).

Definition zigzag_decode (value : Z) : Z :=
  Z.lxor (wrap_i 64 (Z.shiftr value 1)) (- Z.land value 1).

Definition encode_varint (value : Z) (out : bytes) : bytes :=
  encode_uvarint (zigzag_encode value) out.

Definition decode_varint (input : bytes) : PResult (Z * Z) :=
  '(value, used) ← decode_uvarint input;
  Ok (zigzag_decode value, used).

(** ** Bit-level lemmas *)

Lemma lor_shiftl_add a b k : 0 ≤ k → 0 ≤ a < 2 ^ k → Z.lor a (Z.shiftl b k) = a + b * 2 ^ k.
Proof.
  intros Hk Ha. rewrite <- Z.shiftl_mul_pow2 by done.
  pose proof (Z.add_lor_land a (Z.shiftl b k)) as Hadd.
  assert (Z.land a (Z.shiftl b k) = 0) as H0; [|lia].
  apply Z.bits_inj'. intros i Hi. rewrite Z.land_spec, Z.bits_0.
  destruct (decide (i < k)); [by rewrite Z.shiftl_spec_low, andb_false_r by lia|].
  rewrite <- (Z.mod_small a (2 ^ k)) by lia. by rewrite Z.mod_pow2_bits_high by lia.
Qed.

Lemma continuation_byte b :
  in_u 8 b → 128 ≤ Z.lor b 0x80 < 256 ∧ Z.land (Z.lor b 0x80) 0x7f = b mod 128.
Proof.
  intros Hb. apply (byte_cases (λ b, bool_decide
    (128 ≤ Z.lor b 0x80 < 256 ∧ Z.land (Z.lor b 0x80) 0x7f = b mod 128))) in Hb;
    [by apply bool_decide_eq_true in Hb | by vm_compute].
Qed.

Lemma land_7f b : 0 ≤ b < 128 → Z.land b 0x7f = b.
Proof. intros. change 0x7f with (Z.ones 7). rewrite Z.land_ones by lia. apply Z.mod_small. lia. Qed.

Lemma land_7f_range b : 0 ≤ Z.land b 0x7f < 128.
Proof. change 0x7f with (Z.ones 7). rewrite Z.land_ones by lia. apply Z.mod_pos_bound. lia. Qed.

(** ** The unsigned encoding *)

Lemma encode_uvarint_loop_app fuel value out :
  encode_uvarint_loop fuel value out = out ++ encode_uvarint_loop fuel value [].
Proof.
  revert value out. induction fuel as [|fuel IH]; intros value out; simpl; [by rewrite app_nil_r|].
  case_decide; [|done]. rewrite IH, (IH _ [_]). by rewrite <- app_assoc.
Qed.

Lemma encode_uvarint_app value out : encode_uvarint value out = out ++ encode_uvarint value [].
Proof. apply encode_uvarint_loop_app. Qed.

Lemma encode_uvarint_loop_S fuel value out :
  encode_uvarint_loop (S fuel) value out =
    if decide (0x80 ≤ value)
    then encode_uvarint_loop fuel (Z.shiftr value 7) (out ++ [Z.lor (wrap_u 8 value) 0x80])
    else out ++ [wrap_u 8 value].
Proof. done. Qed.

(** More fuel than the value needs changes nothing. *)
Lemma encode_uvarint_fuel n m value out :
  0 ≤ value < 2 ^ (7 * Z.of_nat n) → (0 < n ≤ m)%nat →
  encode_uvarint_loop n value out = encode_uvarint_loop m value out.
Proof.
  revert m value out. induction n as [|n IH]; intros m value out Hv Hm; [lia|].
  destruct m as [|m]; [lia|]. simpl. case_decide as Hge; [|done].
  destruct (decide (n = 0%nat)) as [->|Hn]; [change (2 ^ (7 * Z.of_nat 1)) with 128 in Hv; lia|].
  apply IH; [|lia]. rewrite Z.shiftr_div_pow2 by lia.
  split; [apply Z.div_pos; lia|]. apply Z.div_lt_upper_bound; [lia|].
  rewrite <- Z.pow_add_r by lia. replace (7 + 7 * Z.of_nat n) with (7 * Z.of_nat (S n)) by lia. lia.
Qed.

Lemma encode_uvarint_eq value out :
  in_u 64 value →
  encode_uvarint value out =
    if decide (0x80 ≤ value)
    then encode_uvarint (Z.shiftr value 7) (out ++ [Z.lor (wrap_u 8 value) 0x80])
    else out ++ [wrap_u 8 value].
Proof.
  unfold in_u, encode_uvarint. intros Hv. rewrite encode_uvarint_loop_S.
  case_decide; [|done]. apply encode_uvarint_fuel; [|lia].
  rewrite Z.shiftr_div_pow2 by lia. split; [apply Z.div_pos; lia|].
  apply Z.div_lt_upper_bound; lia.
Qed.

Lemma encode_uvarint_small value out :
  0 ≤ value < 128 → encode_uvarint value out = out ++ [value].
Proof.
  intros Hv. rewrite encode_uvarint_eq by (unfold in_u; lia).
  rewrite decide_False by lia. by rewrite wrap_u_small by (unfold in_u; lia).
Qed.

Lemma encode_uvarint_loop_bytes fuel value out :
  0 ≤ value → bytes_ok out → bytes_ok (encode_uvarint_loop fuel value out).
Proof.
  revert value out. induction fuel as [|fuel IH]; intros value out Hv Ho; simpl; [done|].
  assert (in_u 8 (wrap_u 8 value)) as Hw by (by apply wrap_u_range).
  case_decide.
  - apply IH; [by apply Z.shiftr_nonneg|]. bytes_tac.
    destruct (continuation_byte _ Hw). unfold in_u. lia.
  - bytes_tac.
Qed.

Lemma encode_uvarint_bytes value out :
  in_u 64 value → bytes_ok out → bytes_ok (encode_uvarint value out).
Proof. intros [? ?]. by apply encode_uvarint_loop_bytes. Qed.

Lemma encode_uvarint_loop_len fuel value :
  (0 < fuel)%nat → 1 ≤ len (encode_uvarint_loop fuel value []) ≤ Z.of_nat fuel.
Proof.
  revert value. induction fuel as [|fuel IH]; intros value Hf; [lia|]. simpl.
  case_decide; [|len_lia]. rewrite encode_uvarint_loop_app.
  destruct fuel; [simpl; len_lia|]. specialize (IH (Z.shiftr value 7)). len_lia.
Qed.

(** Decoding resumes at any index of the encoding, whatever follows it. *)
Lemma decode_encode_loop fuel idx acc value rest :
  0 ≤ idx < 10 → 0 ≤ acc < 2 ^ (7 * idx) → 0 ≤ value < 2 ^ (64 - 7 * idx) →
  value < 2 ^ (7 * Z.of_nat fuel) → (0 < fuel)%nat →
  decode_uvarint_loop idx acc (encode_uvarint_loop fuel value [] ++ rest)
  = Ok (acc + value * 2 ^ (7 * idx), idx + len (encode_uvarint_loop fuel value [])).
Proof.
  revert idx acc value. induction fuel as [|fuel IH]; intros idx acc value Hi Ha Hv Hf Hf0; [lia|].
  cbn [encode_uvarint_loop]. case_decide as Hge.
  - assert (idx < 9) as Hi9.
    { destruct (decide (idx = 9)) as [->|]; [change (2 ^ (64 - 7 * 9)) with 2 in Hv; lia|lia]. }
    assert (0 < fuel)%nat as Hfp.
    { destruct fuel; [change (2 ^ (7 * Z.of_nat 1)) with 128 in Hf; lia|lia]. }
    rewrite encode_uvarint_loop_app. simpl.
    destruct (continuation_byte (wrap_u 8 value)) as [Hc1 Hc2]; [by apply wrap_u_range|].
    rewrite Hc2. rewrite decide_False by lia. rewrite decide_False by lia.
    rewrite (decide_False (P := Z.lor _ _ < 128)) by lia.
    assert (wrap_u 8 value mod 128 = value mod 128) as ->.
    { unfold wrap_u. change (2 ^ 8) with (128 * 2). rewrite Z.rem_mul_r by lia.
      rewrite Z.mul_comm, Z.mod_add by lia. apply Z.mod_mod. lia. }
    pose proof (Z.mod_pos_bound value 128) as Hm.
    pose proof (Z.pow_pos_nonneg 2 (7 * idx)) as Hp.
    assert (2 ^ (7 * (idx + 1)) = 128 * 2 ^ (7 * idx)) as Hs
      by (replace (7 * (idx + 1)) with (7 + 7 * idx) by lia; by rewrite Z.pow_add_r by lia).
    assert (2 ^ (64 - 7 * idx) = 128 * 2 ^ (64 - 7 * (idx + 1))) as Hs'
      by (change 128 with (2 ^ 7); rewrite <- Z.pow_add_r by lia; f_equal; lia).
    rewrite (Z.mul_comm idx 7).
    rewrite wrap_u_small.
    2:{ unfold in_u. rewrite Z.shiftl_mul_pow2 by lia.
        assert (2 ^ (7 * idx) ≤ 2 ^ 56) by (apply Z.pow_le_mono_r; lia). nia. }
    rewrite lor_shiftl_add by lia.
    rewrite Z.shiftr_div_pow2 by lia. change (2 ^ 7) with 128.
    pose proof (Z.div_mod value 128) as Hd.
    rewrite IH; [| lia | nia | split; [apply Z.div_pos; lia|apply Z.div_lt_upper_bound; lia] | | done].
    + f_equal. f_equal; [rewrite Hs; nia|]. len_lia.
    + apply Z.div_lt_upper_bound; [lia|]. change 128 with (2 ^ 7). rewrite <- Z.pow_add_r by lia.
      replace (7 + 7 * Z.of_nat fuel) with (7 * Z.of_nat (S fuel)) by lia. done.
  - rewrite wrap_u_small by (unfold in_u; lia). simpl. rewrite land_7f by lia.
    rewrite decide_False by lia.
    rewrite decide_False.
    2:{ intros [Hs Hl]. assert (idx = 9) as -> by lia. change (2 ^ (64 - 7 * 9)) with 2 in Hv. lia. }
    rewrite decide_True by lia. rewrite (Z.mul_comm idx 7), wrap_u_small.
    2:{ unfold in_u. rewrite Z.shiftl_mul_pow2 by lia.
        replace (2 ^ 64) with (2 ^ (64 - 7 * idx) * 2 ^ (7 * idx))
          by (rewrite <- Z.pow_add_r by lia; f_equal; lia).
        pose proof (Z.pow_pos_nonneg 2 (7 * idx)). nia. }
    rewrite lor_shiftl_add by lia. done.
Qed.

Lemma decode_encode_uvarint value rest :
  in_u 64 value →
  decode_uvarint (encode_uvarint value [] ++ rest) = Ok (value, len (encode_uvarint value [])).
Proof.
  unfold in_u. intros Hv. unfold decode_uvarint, encode_uvarint.
  rewrite (decode_encode_loop 10 0 0); try lia. f_equal. f_equal; lia.
Qed.

(** ** The decoder on arbitrary input *)

Lemma decode_uvarint_loop_sound idx acc input v used :
  bytes_ok input → 0 ≤ idx ≤ 10 → 0 ≤ acc < 2 ^ Z.min 64 (7 * idx) →
  decode_uvarint_loop idx acc input = Ok (v, used) →
  in_u 64 v ∧ idx + 1 ≤ used ≤ 10 ∧ used - idx ≤ len input.
Proof.
  revert idx acc. induction input as [|b input IH]; intros idx acc Hb Hi Ha; simpl; [done|].
  apply bytes_ok_cons in Hb as [Hb8 Hb]. case_decide as H10; [done|]. case_decide as H63; [done|].
  pose proof (land_7f_range b) as Hlow. generalize dependent (Z.land b 127). intros low H63 Hlow.
  rewrite Z.min_r in Ha by lia. rewrite (Z.mul_comm idx 7) in *.
  assert (low * 2 ^ (7 * idx) + 2 ^ (7 * idx) ≤ 2 ^ Z.min 64 (7 * (idx + 1))) as Hbound.
  { destruct (decide (idx = 9)) as [->|].
    - rewrite Z.min_l by lia. change (2 ^ (7 * 9)) with (2 ^ 63). lia.
    - rewrite Z.min_r by lia. replace (7 * (idx + 1)) with (7 + 7 * idx) by lia.
      rewrite Z.pow_add_r by lia. pose proof (Z.pow_pos_nonneg 2 (7 * idx)). nia. }
  assert (low * 2 ^ (7 * idx) + 2 ^ (7 * idx) ≤ 2 ^ 64) as H64
    by (etrans; [exact Hbound|apply Z.pow_le_mono_r; lia]).
  assert (0 ≤ low * 2 ^ (7 * idx)) as Hnn by (apply Z.mul_nonneg_nonneg; lia).
  assert (0 < 2 ^ (7 * idx)) as Hp by (apply Z.pow_pos_nonneg; lia).
  assert (Z.lor acc (wrap_u 64 (Z.shiftl low (7 * idx))) = acc + low * 2 ^ (7 * idx)) as ->.
  { rewrite wrap_u_small; [|unfold in_u; rewrite Z.shiftl_mul_pow2 by lia; clear - H64 Hnn Hp; lia].
    apply lor_shiftl_add; [lia|done]. }
  assert (0 ≤ acc + low * 2 ^ (7 * idx) < 2 ^ Z.min 64 (7 * (idx + 1))) as Hacc
    by (clear - Ha Hnn Hbound; lia).
  case_decide as Hlast.
  - intros [= <- <-]. unfold in_u. rewrite len_cons. pose proof (len_nonneg input).
    split; [clear - Ha Hnn H64; lia|]. clear - H H10 Hi. lia.
  - intros Hd. apply IH in Hd; [|done|clear - Hi H10; lia|done].
    rewrite len_cons. clear - Hd. intuition lia.
Qed.

Lemma decode_uvarint_sound input v used :
  bytes_ok input → decode_uvarint input = Ok (v, used) →
  in_u 64 v ∧ 1 ≤ used ≤ 10 ∧ used ≤ len input.
Proof.
  intros Hb Hd. apply decode_uvarint_loop_sound in Hd as (? & ? & ?); [|done|lia|].
  - split; [done|lia].
  - change (Z.min 64 (7 * 0)) with 0. lia.
Qed.

Lemma decode_uvarint_loop_errors idx acc input :
  (∃ v used, decode_uvarint_loop idx acc input = Ok (v, used))
  ∨ decode_uvarint_loop idx acc input = Err VarintOverflow
  ∨ decode_uvarint_loop idx acc input = Err TruncatedVarint.
Proof.
  revert idx acc. induction input as [|b input IH]; intros idx acc; simpl; [by auto|].
  repeat case_decide; eauto.
Qed.

Lemma decode_uvarint_no_panic input : no_panic (decode_uvarint input).
Proof.
  unfold no_panic, decode_uvarint.
  destruct (decode_uvarint_loop_errors 0 0 input) as [(v & u & ->)|[->| ->]]; done.
Qed.

(** Every success consumes at least one byte of what there is. *)
Lemma decode_uvarint_used input v used :
  decode_uvarint input = Ok (v, used) → 1 ≤ used ≤ len input.
Proof.
  unfold decode_uvarint. intros Hd.
  enough (∀ idx acc, decode_uvarint_loop idx acc input = Ok (v, used) →
    idx + 1 ≤ used ≤ idx + len input) as He by (apply He in Hd; lia).
  clear Hd. induction input as [|b input IH]; intros idx acc; simpl; [done|].
  repeat case_decide; try done.
  - intros [= <- <-]. rewrite len_cons. pose proof (len_nonneg input). lia.
  - intros Hd%IH. rewrite len_cons. lia.
Qed.

(** ** Zigzag *)

Lemma shiftr63_sign v : in_i 64 v → Z.shiftr v 63 = if decide (0 ≤ v) then 0 else -1.
Proof.
  unfold in_i. intros Hv. rewrite Z.shiftr_div_pow2 by lia. case_decide.
  - apply Z.div_small. lia.
  - symmetry. apply Z.div_unique with (r := v + 2 ^ 63); lia.
Qed.

(** The zigzag transform maps 0, -1, 1, -2, ... to 0, 1, 2, 3, ... *)
Lemma zigzag_encode_spec v :
  in_i 64 v → zigzag_encode v = if decide (0 ≤ v) then 2 * v else - 2 * v - 1.
Proof.
  intros Hv. unfold zigzag_encode. rewrite shiftr63_sign by done.
  rewrite Z.shiftl_mul_pow2 by lia. change (2 ^ 1) with 2. unfold in_i in Hv.
  assert (∃ k, wrap_i 64 (v * 2) = v * 2 + k * 2 ^ 64) as [k Hk].
  { unfold wrap_i. exists (- ((v * 2 + 2 ^ (64 - 1)) / 2 ^ 64)).
    pose proof (Z.div_mod (v * 2 + 2 ^ (64 - 1)) (2 ^ 64)). lia. }
  unfold wrap_u. rewrite Hk. case_decide.
  - rewrite Z.lxor_0_r, Z_mod_plus_full. rewrite Z.mod_small; lia.
  - rewrite Z.lxor_m1_r. unfold Z.lnot.
    replace (Z.pred (- (v * 2 + k * 2 ^ 64))) with (- 2 * v - 1 + (- k) * 2 ^ 64) by lia.
    rewrite Z_mod_plus_full. rewrite Z.mod_small; lia.
Qed.

Lemma zigzag_decode_spec n :
  in_u 64 n → zigzag_decode n = if Z.even n then n / 2 else - (n / 2) - 1.
Proof.
  unfold in_u. intros Hn. unfold zigzag_decode.
  rewrite Z.shiftr_div_pow2 by lia. change (2 ^ 1) with 2.
  assert (wrap_i 64 (n / 2) = n / 2) as ->.
  { unfold wrap_i. pose proof (Z.div_mod n 2). pose proof (Z.mod_pos_bound n 2).
    rewrite Z.mod_small; lia. }
  rewrite (Z.land_ones n 1 : _ → Z.land n 1 = n mod 2) by lia.
  rewrite Zmod_even. destruct (Z.even n); [apply Z.lxor_0_r|].
  change (- (1)) with (-1). rewrite Z.lxor_m1_r. unfold Z.lnot. lia.
Qed.

Lemma zigzag_encode_range v : in_i 64 v → in_u 64 (zigzag_encode v).
Proof. intros Hv. rewrite zigzag_encode_spec by done. unfold in_i, in_u in *. case_decide; lia. Qed.

Lemma zigzag_decode_range n : in_u 64 n → in_i 64 (zigzag_decode n).
Proof.
  intros Hn. rewrite zigzag_decode_spec by done. unfold in_i, in_u in *.
  pose proof (Z.div_mod n 2). pose proof (Z.mod_pos_bound n 2). destruct (Z.even n); lia.
Qed.

Lemma zigzag_decode_encode v : in_i 64 v → zigzag_decode (zigzag_encode v) = v.
Proof.
  intros Hv. rewrite zigzag_decode_spec by by apply zigzag_encode_range.
  rewrite zigzag_encode_spec by done. case_decide.
  - rewrite Z.even_mul. simpl. rewrite Z.mul_comm, Z.div_mul; lia.
  - replace (-2 * v - 1) with (1 + 2 * (- v - 1)) by lia.
    rewrite Z.even_add_mul_2. simpl. rewrite Z.mul_comm, Z.div_add by lia.
    change (1 / 2) with 0. lia.
Qed.

Lemma zigzag_encode_decode n : in_u 64 n → zigzag_encode (zigzag_decode n) = n.
Proof.
  intros Hn. rewrite zigzag_encode_spec by by apply zigzag_decode_range.
  rewrite zigzag_decode_spec by done. unfold in_u in Hn.
  pose proof (Z.div_mod n 2) as Hd. rewrite Zmod_even in Hd.
  pose proof (Z.div_pos n 2) as Hp.
  destruct (Z.even n); case_decide; lia.
Qed.

Lemma encode_varint_bytes v out : in_i 64 v → bytes_ok out → bytes_ok (encode_varint v out).
Proof. intros. apply encode_uvarint_bytes; [by apply zigzag_encode_range|done]. Qed.

Lemma encode_varint_app v out : encode_varint v out = out ++ encode_varint v [].
Proof. apply encode_uvarint_app. Qed.

Lemma decode_encode_varint v rest :
  in_i 64 v → decode_varint (encode_varint v [] ++ rest) = Ok (v, len (encode_varint v [])).
Proof.
  intros Hv. unfold decode_varint, encode_varint.
  rewrite decode_encode_uvarint by by apply zigzag_encode_range. simpl.
  by rewrite zigzag_decode_encode.
Qed.

Lemma decode_varint_sound input v used :
  bytes_ok input → decode_varint input = Ok (v, used) →
  in_i 64 v ∧ 1 ≤ used ≤ 10 ∧ used ≤ len input.
Proof.
  unfold decode_varint. intros Hb ([n u] & Hd & [= <- <-])%bind_ok.
  apply decode_uvarint_sound in Hd as [? ?]; [|done]. split; [|done]. by apply zigzag_decode_range.
Qed.

Lemma decode_varint_used input v used :
  decode_varint input = Ok (v, used) → 1 ≤ used ≤ len input.
Proof.
  unfold decode_varint. intros ([n u] & Hd & [= <- <-])%bind_ok. by apply decode_uvarint_used in Hd.
Qed.

Lemma decode_varint_no_panic input : no_panic (decode_varint input).
Proof. apply no_panic_bind; [apply decode_uvarint_no_panic|]. by intros [v u] _. Qed.

#[export] Hint Resolve encode_uvarint_bytes encode_varint_bytes zigzag_encode_range
  decode_uvarint_no_panic decode_varint_no_panic : irtt.

(** ** Properties *)

(** Every [u64] survives the unsigned encoding, whatever bytes follow it;
    the encoding takes one to ten bytes and the decoder consumes exactly them. *)
Theorem uvarint_roundtrip value rest :
  in_u 64 value →
  decode_uvarint (encode_uvarint value [] ++ rest) = Ok (value, len (encode_uvarint value [])) ∧
  1 ≤ len (encode_uvarint value []) ≤ 10 ∧ bytes_ok (encode_uvarint value []).
Proof.
  intros Hv. split; [by apply decode_encode_uvarint|].
  assert (bytes_ok (encode_uvarint value [])) as Hb by auto with irtt. split; [|done].
  pose proof (decode_encode_uvarint value [] Hv) as Hd. rewrite app_nil_r in Hd.
  apply decode_uvarint_sound in Hd; [lia|done].
Qed.

Lemma uvarint_roundtrip_witness :
  decode_uvarint (encode_uvarint (2 ^ 64 - 1) [] ++ [7]) = Ok (2 ^ 64 - 1, 10).
Proof.
  destruct (uvarint_roundtrip (2 ^ 64 - 1) [7]) as [H _]; [unfold in_u; lia|].
  rewrite H. reflexivity.
Defined.

(** Every [i64] survives the zigzag encoding the parameter payload uses. *)
Theorem varint_roundtrip v rest :
  in_i 64 v →
  decode_varint (encode_varint v [] ++ rest) = Ok (v, len (encode_varint v [])).
Proof. apply decode_encode_varint. Qed.

Lemma varint_roundtrip_witness :
  decode_varint (encode_varint (- 2 ^ 63) [] ++ [0]) = Ok (- 2 ^ 63, 10).
Proof. rewrite (varint_roundtrip (- 2 ^ 63) [0]); [reflexivity | unfold in_i; lia]. Defined.

(** On arbitrary bytes the decoder stays in [u64], consumes one to ten of
    the bytes there are, and fails only as truncated or overflowing. *)
Theorem uvarint_decode_safe input :
  bytes_ok input →
  match decode_uvarint input with
  | Ok (v, used) => in_u 64 v ∧ 1 ≤ used ≤ 10 ∧ used ≤ len input
  | Err e => e = TruncatedVarint ∨ e = VarintOverflow
  | Panic => False
  end.
Proof.
  intros Hb. destruct (decode_uvarint input) as [[v used]|e|] eqn:Hd.
  - by apply decode_uvarint_sound.
  - unfold decode_uvarint in Hd.
    destruct (decode_uvarint_loop_errors 0 0 input) as [(v & u & He)|[He|He]]; rewrite He in Hd;
      naive_solver.
  - by apply decode_uvarint_no_panic in Hd.
Qed.

Lemma uvarint_decode_safe_witness :
  decode_uvarint (replicate 9 255 ++ [2]) = Err VarintOverflow ∧
  match decode_uvarint (replicate 9 255 ++ [2]) with
  | Err e => e = TruncatedVarint ∨ e = VarintOverflow | _ => False end.
Proof.
  split; [reflexivity|].
  apply (uvarint_decode_safe (replicate 9 255 ++ [2])). decide_now.
Defined.
