(* ===== verification/Envelope.v ===== *)
(** * irtt-proto: authentication field and packet envelope

    Models [crates/irtt-proto/src/hmac.rs] and [envelope.rs].  HMAC-MD5 itself
    is the [hmac]/[md5] crates: it is the [HmacMd5] interface below, whose laws
    say only that a digest is 16 bytes. *)

From S2P Require Import Prelude ProtoBase.

(** What the code relies on of [Hmac<Md5>]: any key is accepted, feeding the
    message in pieces is feeding their concatenation, and the tag is 16 bytes. *)
Class HmacMd5 := {
  hmac_md5 : bytes → bytes → bytes;
  hmac_md5_len : ∀ key msg, len (hmac_md5 key msg) = HMAC_SIZE;
  hmac_md5_bytes : ∀ key msg, bytes_ok (hmac_md5 key msg);
}.
#[export] Hint Rewrite @hmac_md5_len : len.
#[export] Hint Resolve hmac_md5_bytes : irtt.

(** A concrete instance for witnesses: every byte of the tag is a checksum. *)
Definition toy_hmac : HmacMd5.
Proof.
  refine {| hmac_md5 key msg := replicate 16 (foldr Z.add 0 (key ++ msg) mod 256) |}.
  - by intros.
  - intros. apply bytes_ok_replicate. apply Z.mod_pos_bound. lia.
Defined.

(** ** hmac.rs *)
Module Hmac.
Section hmac.
Context `{!HmacMd5}.

Definition hmac_offset : Z := HEADER_SIZE.

Definition zero_hmac : bytes := replicate (Z.to_nat HMAC_SIZE) 0.

Definition compute_hmac (key packet : bytes) (hmac_offset : Z) : PResult bytes :=
  if decide (Z.max 0 (len packet - hmac_offset) < HMAC_SIZE) then Err InvalidHmacOffset
  else
    let hmac_end := hmac_offset + HMAC_SIZE in
    before ← slice 0 hmac_offset packet;
    after ← slice_from hmac_end packet;
    Ok (hmac_md5 key (before ++ zero_hmac ++ after)).

Definition compute_hmac_in_place (key packet : bytes) (hmac_offset : Z) : PResult bytes :=
  if decide (Z.max 0 (len packet - hmac_offset) < HMAC_SIZE) then Err InvalidHmacOffset
  else
    digest ← compute_hmac key packet hmac_offset;
    copy_at hmac_offset digest packet.

Definition verify_hmac (key packet : bytes) (hmac_offset : Z) : PResult unit :=
  if decide (Z.max 0 (len packet - hmac_offset) < HMAC_SIZE) then Err InvalidHmacOffset
  else
    expected ← compute_hmac key packet hmac_offset;
    actual ← slice hmac_offset (hmac_offset + HMAC_SIZE) packet;
    if decide (expected = actual) then Ok tt else Err BadHmac.

End hmac.
End Hmac.

(** ** envelope.rs *)
Module Envelope.

Inductive FlagRule : Type :=
  | Require (flag : Z)
  | Reject (flag : Z).

Record Envelope : Type := mk_Envelope {
  flags : Z;
  hmac_present : bool;
  body_offset : Z;
}.

Definition decode_structural (packet : bytes) : PResult Envelope :=
  flags ← validate_header packet;
  let hmac_present := has flags FLAG_HMAC in
  Ok {| flags := flags;
        hmac_present := hmac_present;
        body_offset := HEADER_SIZE + (if hmac_present then HMAC_SIZE else 0) |}.

Fixpoint require_flags (flags : Z) (rules : list FlagRule) : PResult unit :=
  match rules with
  | [] => Ok tt
  | Require flag :: rules =>
      if has flags flag then require_flags flags rules else Err (MissingFlag flag)
  | Reject flag :: rules =>
      if has flags flag then Err (UnexpectedFlag flag) else require_flags flags rules
  end.

Definition is_some {A} (o : option A) : bool := match o with Some _ => true | None => false end.

Definition check_hmac_presence (flags : Z) (hmac_key : option bytes) : PResult unit :=
  if decide (has flags FLAG_HMAC = is_some hmac_key) then Ok tt else Err HmacPresenceMismatch.

Definition with_hmac_flag (flags : Z) (authenticated : bool) : Z :=
  if authenticated then Z.lor flags FLAG_HMAC
  else Z.land flags (wrap_u 8 (Z.lnot FLAG_HMAC)).

Definition decode (packet : bytes) (hmac_key : option bytes) (rules : list FlagRule)
    : PResult Envelope :=
  envelope ← decode_structural packet;
  _ ← require_flags (flags envelope) rules;
  _ ← check_hmac_presence (flags envelope) hmac_key;
  Ok envelope.

(** The capacity argument of the source only pre-sizes the vector. *)
Definition begin_checked (flags : Z) (hmac_key : option bytes) (rules : list FlagRule)
    : PResult bytes :=
  let flags := with_hmac_flag flags (is_some hmac_key) in
  _ ← validate_flags flags;
  _ ← require_flags flags rules;
  let out := write_header [] flags in
  Ok (if is_some hmac_key then out ++ replicate (Z.to_nat HMAC_SIZE) 0 else out).

Definition begin (flags : Z) (hmac_key : option bytes) : PResult bytes :=
  begin_checked flags hmac_key [].

Section envelope.
Context `{!HmacMd5}.

Definition verify (packet : bytes) (hmac_key : option bytes) : PResult unit :=
  match hmac_key with
  | Some key => Hmac.verify_hmac key packet Hmac.hmac_offset
  | None => Ok tt
  end.

Definition finish (packet : bytes) (hmac_key : option bytes) : PResult bytes :=
  match hmac_key with
  | Some key => Hmac.compute_hmac_in_place key packet Hmac.hmac_offset
  | None => Ok packet
  end.

End envelope.
End Envelope.
Import Envelope.

(** [verify_packet_hmac] (hmac.rs). *)
Definition verify_packet_hmac `{!HmacMd5} (key packet : bytes) : PResult unit :=
  envelope ← decode_structural packet;
  if hmac_present envelope then Hmac.verify_hmac key packet Hmac.hmac_offset
  else Err (MissingFlag FLAG_HMAC).

(** ** Sealed packets

    What every encoder produces: header, authentication field, body. *)
Definition auth_field `{!HmacMd5} (key : option bytes) (flags : Z) (body : bytes) : bytes :=
  match key with
  | Some key => hmac_md5 key (write_header [] flags ++ Hmac.zero_hmac ++ body)
  | None => []
  end.

Definition sealed `{!HmacMd5} (key : option bytes) (flags : Z) (body : bytes) : bytes :=
  write_header [] flags ++ auth_field key flags body ++ body.

Definition auth_len (key : option bytes) : Z := if is_some key then HMAC_SIZE else 0.

Section lemmas.
Context `{!HmacMd5}.
Implicit Types (key : option bytes) (k body packet : bytes) (f : Z).

Lemma len_auth_field key f body : len (auth_field key f body) = auth_len key.
Proof. destruct key; simpl; [|done]. by autorewrite with len. Qed.

Lemma len_zero_hmac : len Hmac.zero_hmac = HMAC_SIZE.
Proof. done. Qed.

Lemma len_sealed key f body : len (sealed key f body) = HEADER_SIZE + auth_len key + len body.
Proof. unfold sealed. autorewrite with len. rewrite len_auth_field. lia. Qed.

Lemma write_header_bytes out f : bytes_ok out → in_u 8 f → bytes_ok (write_header out f).
Proof. intros. unfold write_header, MAGIC. bytes_tac; by unfold in_u. Qed.

Lemma sealed_bytes key f body : in_u 8 f → bytes_ok body → bytes_ok (sealed key f body).
Proof.
  intros. unfold sealed. bytes_tac; [by apply write_header_bytes; auto with irtt|].
  destruct key; simpl; auto with irtt.
Qed.

(** The flag arithmetic of the encoders, over the sixteen flag values. *)
Lemma with_hmac_flag_spec f a :
  flags_ok f →
  flags_ok (with_hmac_flag f a) ∧ has (with_hmac_flag f a) FLAG_HMAC = a ∧
  (has f FLAG_HMAC = a → with_hmac_flag f a = f) ∧
  (∀ n, 0 ≤ n < 3 → Z.testbit (with_hmac_flag f a) n = Z.testbit f n).
Proof.
  intros Hf.
  assert (f = 0 ∨ f = 1 ∨ f = 2 ∨ f = 3 ∨ f = 4 ∨ f = 5 ∨ f = 6 ∨ f = 7 ∨ f = 8 ∨ f = 9 ∨ f = 10
    ∨ f = 11 ∨ f = 12 ∨ f = 13 ∨ f = 14 ∨ f = 15) as Hc by (unfold flags_ok in Hf; lia).
  assert (∀ P : Z → Prop, P 0 → P 1 → P 2 → ∀ n, 0 ≤ n < 3 → P n) as H3.
  { intros P ??? n Hn. assert (n = 0 ∨ n = 1 ∨ n = 2) as [->|[->| ->]] by lia; done. }
  split; [|split; [|split; [|apply H3]]]; clear H3;
    repeat (destruct Hc as [->|Hc]; [by destruct a|]); subst; by destruct a.
Qed.

Lemma begin_checked_ok f key rules :
  flags_ok f → require_flags (with_hmac_flag f (is_some key)) rules = Ok tt →
  begin_checked f key rules = Ok (write_header [] (with_hmac_flag f (is_some key)) ++
    (if is_some key then Hmac.zero_hmac else [])).
Proof.
  intros Hf Hr. unfold begin_checked.
  rewrite validate_flags_ok by by apply with_hmac_flag_spec. simpl. rewrite Hr. simpl.
  by destruct key.
Qed.

(** Signing fills the reserved field and touches nothing else. *)
Lemma finish_sealed key f body :
  finish ((write_header [] f ++ (if is_some key then Hmac.zero_hmac else [])) ++ body) key
  = Ok (sealed key f body).
Proof.
  unfold finish, sealed. destruct key as [k|]; cbn [is_some auth_field]; [|done].
  unfold Hmac.compute_hmac_in_place, Hmac.compute_hmac, Hmac.hmac_offset.
  rewrite <- app_assoc.
  assert (len (write_header [] f) = HEADER_SIZE) as Hh by done.
  assert (¬ Z.max 0 (len (write_header [] f ++ Hmac.zero_hmac ++ body) - HEADER_SIZE) < HMAC_SIZE).
  { rewrite !len_app, len_zero_hmac, Hh. pose proof (len_nonneg body). unfold HMAC_SIZE. lia. }
  rewrite !decide_False by done.
  rewrite slice_app_0 by done. cbn [mbind Result_bind].
  rewrite (app_assoc (write_header [] f)), slice_from_app
    by (rewrite len_app, len_zero_hmac, Hh; done).
  cbn [mbind Result_bind]. rewrite <- app_assoc.
  apply copy_at_app; [done|]. by rewrite hmac_md5_len.
Qed.

(** The common shape of the encoders: begin, append the body, finish. *)
Lemma seal_ok f key rules body :
  flags_ok f → require_flags (with_hmac_flag f (is_some key)) rules = Ok tt →
  (out ← begin_checked f key rules; finish (out ++ body) key)
  = Ok (sealed key (with_hmac_flag f (is_some key)) body).
Proof. intros. rewrite begin_checked_ok by done. simpl. apply finish_sealed. Qed.

Lemma decode_structural_sealed key f body :
  flags_ok f → has f FLAG_HMAC = is_some key →
  decode_structural (sealed key f body)
  = Ok {| flags := f; hmac_present := is_some key; body_offset := HEADER_SIZE + auth_len key |}.
Proof.
  intros Hf Hk. unfold decode_structural, sealed. rewrite validate_write_header by done. simpl.
  by rewrite Hk.
Qed.

Lemma decode_sealed key f body rules :
  flags_ok f → has f FLAG_HMAC = is_some key → require_flags f rules = Ok tt →
  decode (sealed key f body) key rules
  = Ok {| flags := f; hmac_present := is_some key; body_offset := HEADER_SIZE + auth_len key |}.
Proof.
  intros Hf Hk Hr. unfold decode. rewrite decode_structural_sealed by done. simpl.
  rewrite Hr. simpl. unfold check_hmac_presence. by rewrite Hk, decide_True.
Qed.

Lemma verify_hmac_sealed k f body :
  Hmac.verify_hmac k (sealed (Some k) f body) Hmac.hmac_offset = Ok tt.
Proof.
  unfold Hmac.verify_hmac, Hmac.compute_hmac, Hmac.hmac_offset.
  assert (¬ Z.max 0 (len (sealed (Some k) f body) - HEADER_SIZE) < HMAC_SIZE).
  { rewrite len_sealed. simpl. pose proof (len_nonneg body). unfold auth_len, HMAC_SIZE. simpl. lia. }
  rewrite !decide_False by done. unfold sealed.
  rewrite slice_app_0 by done. cbn [mbind Result_bind].
  rewrite (slice_app (write_header [] f)) by (rewrite ?len_auth_field; done).
  rewrite (app_assoc (write_header [] f)), slice_from_app by (rewrite len_app, len_auth_field; done).
  cbn [mbind Result_bind auth_field].
  by rewrite decide_True.
Qed.

Lemma verify_sealed key f body : verify (sealed key f body) key = Ok tt.
Proof. destruct key; simpl; [apply verify_hmac_sealed|done]. Qed.

Lemma body_of_sealed key f body a :
  a = HEADER_SIZE + auth_len key → slice_from (E := ProtoError) a (sealed key f body) = Ok body.
Proof.
  intros ->. unfold sealed. rewrite app_assoc. apply slice_from_app.
  rewrite len_app, len_auth_field. done.
Qed.

(** Reading inside the body of a sealed packet is reading the body. *)
Lemma slice_of_sealed key f l m n a b :
  a = HEADER_SIZE + auth_len key + len l → b = a + len m →
  slice (E := ProtoError) a b (sealed key f (l ++ m ++ n)) = Ok m.
Proof.
  intros -> ->. unfold sealed.
  replace (write_header [] f ++ auth_field key f (l ++ m ++ n) ++ l ++ m ++ n)
    with ((write_header [] f ++ auth_field key f (l ++ m ++ n) ++ l) ++ m ++ n)
    by by rewrite <- !app_assoc.
  apply slice_app; rewrite !len_app, len_auth_field; unfold write_header, MAGIC, HEADER_SIZE;
    autorewrite with len; lia.
Qed.

Lemma slice_of_sealed_0 key f m n a b :
  a = HEADER_SIZE + auth_len key → b = a + len m →
  slice (E := ProtoError) a b (sealed key f (m ++ n)) = Ok m.
Proof. intros -> ->. apply (slice_of_sealed key f [] m n); [rewrite len_nil; lia|done]. Qed.

Lemma slice_from_of_sealed key f l m a :
  a = HEADER_SIZE + auth_len key + len l →
  slice_from (E := ProtoError) a (sealed key f (l ++ m)) = Ok m.
Proof.
  intros ->. unfold sealed.
  replace (write_header [] f ++ auth_field key f (l ++ m) ++ l ++ m)
    with ((write_header [] f ++ auth_field key f (l ++ m) ++ l) ++ m) by by rewrite <- !app_assoc.
  apply slice_from_app. rewrite !len_app, len_auth_field, len_write_header. rewrite len_nil. lia.
Qed.

(** Verification at the standard offset accepts exactly the sealed packets. *)
Lemma verify_hmac_inv k packet :
  Hmac.verify_hmac k packet Hmac.hmac_offset = Ok tt →
  ∃ h mac body, packet = h ++ mac ++ body ∧ len h = HEADER_SIZE ∧
    mac = hmac_md5 k (h ++ Hmac.zero_hmac ++ body).
Proof.
  unfold Hmac.verify_hmac, Hmac.compute_hmac, Hmac.hmac_offset. case_decide as Hl; [done|].
  pose proof (len_nonneg packet). unfold HMAC_SIZE, HEADER_SIZE in *.
  rewrite !slice_ok, slice_from_ok by lia. cbn [mbind Result_bind].
  case_decide as He; [|done]. intros _.
  eexists _, _, _. split; [|split; [|symmetry; exact He]].
  - change (4 + 16 - 4) with 16. change (drop (Z.to_nat 0) packet) with packet.
    change (drop (Z.to_nat (4 + 16)) packet) with (drop (4 + 16) packet). rewrite <- drop_drop.
    change (Z.to_nat 4) with 4%nat. change (Z.to_nat 16) with 16%nat.
    by rewrite (take_drop 16), (take_drop 4).
  - autorewrite with len. lia.
Qed.

Lemma verify_packet_hmac_iff k packet :
  bytes_ok packet →
  verify_packet_hmac k packet = Ok tt ↔
  ∃ f body, flags_ok f ∧ has f FLAG_HMAC = true ∧ packet = sealed (Some k) f body.
Proof.
  intros Hb. split.
  - intros (e & He & Hv)%bind_ok. unfold decode_structural in He.
    apply bind_ok in He as (f & Hf & [= <-]). simpl in Hv.
    destruct (has f FLAG_HMAC) eqn:Hh; [|done].
    apply validate_header_inv in Hf as (body' & -> & Hf); [|done].
    apply verify_hmac_inv in Hv as (h & mac & body & Heq & Hlh & Hmac).
    apply app_inj_1 in Heq as [<- ->]; [|unfold len, HEADER_SIZE in Hlh; simpl; lia].
    exists f, body. split; [done|]. split; [done|]. unfold sealed. cbn [auth_field].
    by rewrite <- Hmac.
  - intros (f & body & Hf & Hh & ->). unfold verify_packet_hmac.
    rewrite decode_structural_sealed by done. cbn [mbind Result_bind hmac_present is_some].
    apply verify_hmac_sealed.
Qed.

Lemma verify_hmac_no_panic k packet off :
  0 ≤ off → no_panic (Hmac.verify_hmac k packet off).
Proof.
  intros Ho. unfold Hmac.verify_hmac, Hmac.compute_hmac. case_decide as Hl; [done|].
  unfold HMAC_SIZE in *.
  rewrite !slice_ok, slice_from_ok by lia. simpl. by case_decide.
Qed.

Lemma decode_structural_no_panic packet : no_panic (decode_structural packet).
Proof. apply no_panic_bind; [apply validate_header_no_panic|done]. Qed.

Lemma verify_packet_hmac_no_panic k packet : no_panic (verify_packet_hmac k packet).
Proof.
  apply no_panic_bind; [apply decode_structural_no_panic|]. intros e _.
  destruct (hmac_present e); [|done]. by apply verify_hmac_no_panic.
Qed.

Lemma require_flags_no_panic f rules : no_panic (require_flags f rules).
Proof. induction rules as [|[] ? IH]; simpl; [done|by destruct (has _ _)..]. Qed.

Lemma verify_no_panic packet key : no_panic (verify packet key).
Proof. destruct key; [by apply verify_hmac_no_panic|done]. Qed.

Lemma envelope_decode_no_panic packet key rules : no_panic (decode packet key rules).
Proof.
  apply no_panic_bind; [apply decode_structural_no_panic|]. intros e _.
  apply no_panic_bind; [apply require_flags_no_panic|]. intros u _.
  unfold check_hmac_presence. by case_decide.
Qed.

(** The header facts a successful structural decode gives. *)
Lemma decode_structural_inv packet e :
  bytes_ok packet → decode_structural packet = Ok e →
  flags_ok (flags e) ∧ hmac_present e = has (flags e) FLAG_HMAC ∧
  body_offset e = HEADER_SIZE + (if hmac_present e then HMAC_SIZE else 0) ∧
  ∃ body, packet = write_header [] (flags e) ++ body.
Proof.
  intros Hb (f & Hf & [= <-])%bind_ok. simpl.
  apply validate_header_inv in Hf as (body & -> & Hf); [|done]. eauto.
Qed.

Lemma decode_inv packet key rules e :
  decode packet key rules = Ok e →
  decode_structural packet = Ok e ∧ require_flags (flags e) rules = Ok tt ∧
  has (flags e) FLAG_HMAC = is_some key.
Proof.
  intros (e' & He & Hd)%bind_ok. apply bind_ok in Hd as ([] & Hr & Hd).
  unfold check_hmac_presence in Hd. case_decide; [|done]. by injection Hd as <-.
Qed.

End lemmas.

#[export] Hint Rewrite @len_sealed : len.
#[export] Hint Resolve verify_hmac_no_panic verify_packet_hmac_no_panic decode_structural_no_panic
  require_flags_no_panic verify_no_panic envelope_decode_no_panic sealed_bytes : irtt.

(** ** Properties *)

(** Authentication accepts exactly the packets sealed under the key: the
    four header bytes with [FLAG_HMAC], the tag of the packet with its tag field
    zeroed, and the body the tag covers. Any other byte string is refused. *)
Theorem verify_packet_hmac_exact `{!HmacMd5} k packet :
  bytes_ok packet →
  (verify_packet_hmac k packet = Ok tt ↔
   ∃ f body, flags_ok f ∧ has f FLAG_HMAC = true ∧ packet = sealed (Some k) f body) ∧
  no_panic (verify_packet_hmac k packet).
Proof. intros Hb. split; [by apply verify_packet_hmac_iff | auto with irtt]. Qed.

Lemma verify_packet_hmac_exact_witness :
  @verify_packet_hmac toy_hmac [1; 2] (@sealed toy_hmac (Some [1; 2]) 9 [5]) = Ok tt.
Proof.
  apply (@verify_packet_hmac_exact toy_hmac [1; 2]);
    [decide_now | exists 9, [5]; by vm_compute].
Defined.
