(* ===== verification/ParamsCodec.v ===== *)
(** * irtt-proto: session parameters

    Models [crates/irtt-proto/src/params.rs]: the parameter record, its
    tag/value encoding and the parser, with the presence of every known tag.
    The parser's [while] loop runs on fuel; running out is reported as [Panic],
    and [decode_from_eq] is the loop's own equation, so it never happens. *)

From S2P Require Import Prelude ProtoBase Varint.

Definition MAX_SERVER_FILL_BYTES : Z := 32.

(** [enum ReceivedStats]. *)
Module ReceivedStats.
Inductive t : Type := None | Count | Window | Both.

Definition has_count (s : t) : bool := match s with Count | Both => true | _ => false end.
Definition has_window (s : t) : bool := match s with Window | Both => true | _ => false end.

Definition to_i64 (s : t) : Z := match s with None => 0 | Count => 1 | Window => 2 | Both => 3 end.
Definition try_from (value : Z) : PResult t :=
  match value with
  | 0 => Ok None
  | 1 => Ok Count
  | 2 => Ok Window
  | 3 => Ok Both
  | _ => Err (InvalidEnum "ReceivedStats" value)
  end.

#[export] Instance t_eq_dec : EqDecision t.
Proof. solve_decision. Defined.
End ReceivedStats.

(** [enum StampAt]. *)
Module StampAt.
Inductive t : Type := None | Send | Receive | Both | Midpoint.

Definition to_i64 (s : t) : Z :=
  match s with None => 0 | Send => 1 | Receive => 2 | Both => 3 | Midpoint => 4 end.
Definition try_from (value : Z) : PResult t :=
  match value with
  | 0 => Ok None
  | 1 => Ok Send
  | 2 => Ok Receive
  | 3 => Ok Both
  | 4 => Ok Midpoint
  | _ => Err (InvalidEnum "StampAt" value)
  end.

#[export] Instance t_eq_dec : EqDecision t.
Proof. solve_decision. Defined.
End StampAt.

(** [enum Clock]: [Unspecified] is the absent tag, never an encoded value. *)
Module Clock.
Inductive t : Type := Unspecified | Wall | Monotonic | Both.

Definition has_wall (c : t) : bool := match c with Wall | Both => true | _ => false end.
Definition has_mono (c : t) : bool := match c with Monotonic | Both => true | _ => false end.

Definition to_i64 (c : t) : Z :=
  match c with Unspecified => 0 | Wall => 1 | Monotonic => 2 | Both => 3 end.
Definition try_from (value : Z) : PResult t :=
  match value with
  | 1 => Ok Wall
  | 2 => Ok Monotonic
  | 3 => Ok Both
  | _ => Err (InvalidEnum "Clock" value)
  end.

#[export] Instance t_eq_dec : EqDecision t.
Proof. solve_decision. Defined.
End Clock.
#[export] Existing Instances ReceivedStats.t_eq_dec StampAt.t_eq_dec Clock.t_eq_dec.

(** [struct ServerFill]: a string, as its UTF-8 bytes. *)
Record ServerFill : Type := mk_ServerFill { value : bytes }.
#[export] Instance ServerFill_eq_dec : EqDecision ServerFill.
Proof. solve_decision. Defined.

(** [struct Params], with one setter per field. *)
Module Params.
Record t : Type := mk {
  protocol_version : Z;
  duration_ns : Z;
  interval_ns : Z;
  length : Z;
  received_stats : ReceivedStats.t;
  stamp_at : StampAt.t;
  clock : Clock.t;
  dscp : Z;
  server_fill : option ServerFill;
}.
#[export] Instance t_eq_dec : EqDecision t.
Proof. solve_decision. Defined.

Definition default : t := mk 0 0 0 0 ReceivedStats.None StampAt.None Clock.Unspecified 0 None.

Definition set_protocol_version v '(mk _ b c d e f g h i) := mk v b c d e f g h i.
Definition set_duration_ns v '(mk a _ c d e f g h i) := mk a v c d e f g h i.
Definition set_interval_ns v '(mk a b _ d e f g h i) := mk a b v d e f g h i.
Definition set_length v '(mk a b c _ e f g h i) := mk a b c v e f g h i.
Definition set_received_stats v '(mk a b c d _ f g h i) := mk a b c d v f g h i.
Definition set_stamp_at v '(mk a b c d e _ g h i) := mk a b c d e v g h i.
Definition set_clock v '(mk a b c d e f _ h i) := mk a b c d e f v h i.
Definition set_dscp v '(mk a b c d e f g _ i) := mk a b c d e f g v i.
Definition set_server_fill v '(mk a b c d e f g h _) := mk a b c d e f g h v.

Definition with_protocol_defaults : t := set_protocol_version PROTOCOL_VERSION default.
End Params.
#[export] Existing Instance Params.t_eq_dec.

(** [struct ParamPresence]. *)
Module ParamPresence.
Record t : Type := mk {
  protocol_version : bool;
  duration_ns : bool;
  interval_ns : bool;
  length : bool;
  received_stats : bool;
  stamp_at : bool;
  clock : bool;
  dscp : bool;
  server_fill : bool;
}.
Definition default : t := mk false false false false false false false false false.

Definition set_protocol_version '(mk _ b c d e f g h i) := mk true b c d e f g h i.
Definition set_duration_ns '(mk a _ c d e f g h i) := mk a true c d e f g h i.
Definition set_interval_ns '(mk a b _ d e f g h i) := mk a b true d e f g h i.
Definition set_length '(mk a b c _ e f g h i) := mk a b c true e f g h i.
Definition set_received_stats '(mk a b c d _ f g h i) := mk a b c d true f g h i.
Definition set_stamp_at '(mk a b c d e _ g h i) := mk a b c d e true g h i.
Definition set_clock '(mk a b c d e f _ h i) := mk a b c d e f true h i.
Definition set_dscp '(mk a b c d e f g _ i) := mk a b c d e f g true i.
Definition set_server_fill '(mk a b c d e f g h _) := mk a b c d e f g h true.
End ParamPresence.

(** [struct DecodedParams]. *)
Record DecodedParams : Type := mk_DecodedParams {
  params : Params.t;
  presence : ParamPresence.t;
}.

Definition push_int (tag value : Z) (out : bytes) : bytes :=
  if decide (value = 0) then out else encode_varint value (encode_uvarint tag out).

(** [Params::encode]. *)
Definition encode_params (p : Params.t) : bytes :=
  let out := push_int 1 (Params.protocol_version p) [] in
  let out := push_int 2 (Params.duration_ns p) out in
  let out := push_int 3 (Params.interval_ns p) out in
  let out := push_int 4 (Params.length p) out in
  let out := push_int 5 (ReceivedStats.to_i64 (Params.received_stats p)) out in
  let out := push_int 6 (StampAt.to_i64 (Params.stamp_at p)) out in
  let out := push_int 7 (Clock.to_i64 (Params.clock p)) out in
  let out := push_int 8 (Params.dscp p) out in
  match Params.server_fill p with
  | Some fill =>
      let out := encode_uvarint 9 out in
      let out := encode_uvarint (len (value fill)) out in
      out ++ value fill
  | None => out
  end.

(** [read_int]: the value and the advanced position. *)
Definition read_int (input : bytes) (pos : Z) : PResult (Z * Z) :=
  rest ← slice_from pos input;
  '(value, used) ← decode_varint rest;
  Ok (value, pos + used).

Section decode_params.
Context `{Target}.

(** One iteration's [match tag], after the tag itself was read. *)
Definition decode_tag (tag : Z) (input : bytes) (pos : Z) (p : Params.t) (q : ParamPresence.t)
    : PResult (Z * Params.t * ParamPresence.t) :=
  match tag with
  | 1 => '(v, pos) ← read_int input pos;
         Ok (pos, Params.set_protocol_version v p, ParamPresence.set_protocol_version q)
  | 2 => '(v, pos) ← read_int input pos;
         Ok (pos, Params.set_duration_ns v p, ParamPresence.set_duration_ns q)
  | 3 => '(v, pos) ← read_int input pos;
         Ok (pos, Params.set_interval_ns v p, ParamPresence.set_interval_ns q)
  | 4 => '(v, pos) ← read_int input pos;
         Ok (pos, Params.set_length v p, ParamPresence.set_length q)
  | 5 => '(v, pos) ← read_int input pos;
         s ← ReceivedStats.try_from v;
         Ok (pos, Params.set_received_stats s p, ParamPresence.set_received_stats q)
  | 6 => '(v, pos) ← read_int input pos;
         s ← StampAt.try_from v;
         Ok (pos, Params.set_stamp_at s p, ParamPresence.set_stamp_at q)
  | 7 => '(v, pos) ← read_int input pos;
         c ← Clock.try_from v;
         Ok (pos, Params.set_clock c p, ParamPresence.set_clock q)
  | 8 => '(v, pos) ← read_int input pos;
         Ok (pos, Params.set_dscp v p, ParamPresence.set_dscp q)
  | 9 => rest ← slice_from pos input;
         '(l, used) ← decode_uvarint rest;
         let pos := pos + used in
         l ← ok_or (try_usize l) (ParameterLengthTooLarge tag l);
         if decide (MAX_SERVER_FILL_BYTES < l) then Err (ParameterLengthTooLarge tag l)
         else if decide (Z.max 0 (len input - pos) < l) then Err MalformedParams
         else
           v ← slice pos (pos + l) input;
           if utf8_valid v then
             Ok (pos + l, Params.set_server_fill (Some (mk_ServerFill v)) p,
                 ParamPresence.set_server_fill q)
           else Err InvalidUtf8
  | _ => rest ← slice_from pos input;
         '(_, used) ← decode_uvarint rest;
         Ok (pos + used, p, q)
  end.

(** The [while pos < input.len()] loop. *)
Fixpoint decode_loop (fuel : nat) (input : bytes) (pos : Z) (p : Params.t) (q : ParamPresence.t)
    : PResult DecodedParams :=
  match fuel with
  | O => Panic
  | S fuel =>
      if decide (pos < len input) then
        rest ← slice_from pos input;
        '(tag, used) ← decode_uvarint rest;
        '(pos, p, q) ← decode_tag tag input (pos + used) p q;
        decode_loop fuel input pos p q
      else Ok {| params := p; presence := q |}
  end.

(** The loop entered at [pos]: each iteration consumes a byte at least. *)
Definition decode_from (input : bytes) (pos : Z) (p : Params.t) (q : ParamPresence.t)
    : PResult DecodedParams :=
  decode_loop (S (Z.to_nat (len input - pos))) input pos p q.

(** [Params::decode_with_presence]. *)
Definition decode_with_presence (input : bytes) : PResult DecodedParams :=
  decode_from input 0 Params.default ParamPresence.default.

(** [Params::decode]. *)
Definition decode_params (input : bytes) : PResult Params.t :=
  decoded ← decode_with_presence input;
  Ok (params decoded).

End decode_params.

(** ** Well-formed parameters *)

Definition fill_ok (f : option ServerFill) : Prop :=
  match f with
  | Some f => len (value f) ≤ MAX_SERVER_FILL_BYTES ∧ string_ok (value f)
  | None => True
  end.

(** The values of the Rust type, with a [server_fill] the wire can carry. *)
Record params_ok (p : Params.t) : Prop := {
  protocol_version_ok : in_i 64 (Params.protocol_version p);
  duration_ns_ok : in_i 64 (Params.duration_ns p);
  interval_ns_ok : in_i 64 (Params.interval_ns p);
  length_ok : in_i 64 (Params.length p);
  dscp_ok : in_i 64 (Params.dscp p);
  server_fill_ok : fill_ok (Params.server_fill p);
}.

#[export] Instance fill_ok_dec f : Decision (fill_ok f).
Proof. destruct f; simpl; apply _. Defined.

Definition params_okb (p : Params.t) : bool :=
  bool_decide (in_i 64 (Params.protocol_version p)) && bool_decide (in_i 64 (Params.duration_ns p)) &&
  bool_decide (in_i 64 (Params.interval_ns p)) && bool_decide (in_i 64 (Params.length p)) &&
  bool_decide (in_i 64 (Params.dscp p)) && bool_decide (fill_ok (Params.server_fill p)).

Lemma params_okb_spec p : params_okb p = true → params_ok p.
Proof.
  unfold params_okb. rewrite !andb_true_iff, !bool_decide_eq_true. intros [[[[[]]]]]. by split.
Qed.

Lemma params_ok_default : params_ok Params.default.
Proof. by apply params_okb_spec. Qed.

(** Which tags [encode_params] writes: the non-zero integers, and a present fill. *)
Definition presence_of (p : Params.t) : ParamPresence.t :=
  ParamPresence.mk
    (negb (Params.protocol_version p =? 0)) (negb (Params.duration_ns p =? 0))
    (negb (Params.interval_ns p =? 0)) (negb (Params.length p =? 0))
    (negb (ReceivedStats.to_i64 (Params.received_stats p) =? 0))
    (negb (StampAt.to_i64 (Params.stamp_at p) =? 0))
    (negb (Clock.to_i64 (Params.clock p) =? 0))
    (negb (Params.dscp p =? 0))
    (match Params.server_fill p with Some _ => true | None => false end).

Lemma received_stats_try_from s : ReceivedStats.try_from (ReceivedStats.to_i64 s) = Ok s.
Proof. by destruct s. Qed.
Lemma stamp_at_try_from s : StampAt.try_from (StampAt.to_i64 s) = Ok s.
Proof. by destruct s. Qed.
Lemma clock_try_from c : c ≠ Clock.Unspecified → Clock.try_from (Clock.to_i64 c) = Ok c.
Proof. by destruct c. Qed.

(** The enum conversions are total on [i64] and invert the discriminant. *)
Lemma received_stats_try_from_inv v s :
  ReceivedStats.try_from v = Ok s → v = ReceivedStats.to_i64 s.
Proof. unfold ReceivedStats.try_from. repeat case_match; by intros [= <-]. Qed.
Lemma stamp_at_try_from_inv v s : StampAt.try_from v = Ok s → v = StampAt.to_i64 s.
Proof. unfold StampAt.try_from. repeat case_match; by intros [= <-]. Qed.
Lemma clock_try_from_inv v c :
  Clock.try_from v = Ok c → v = Clock.to_i64 c ∧ c ≠ Clock.Unspecified.
Proof. unfold Clock.try_from. repeat case_match; by intros [= <-]. Qed.

Lemma received_stats_no_panic v : no_panic (ReceivedStats.try_from v).
Proof. unfold ReceivedStats.try_from. by repeat case_match. Qed.
Lemma stamp_at_no_panic v : no_panic (StampAt.try_from v).
Proof. unfold StampAt.try_from. by repeat case_match. Qed.
Lemma clock_no_panic v : no_panic (Clock.try_from v).
Proof. unfold Clock.try_from. by repeat case_match. Qed.
#[export] Hint Resolve received_stats_no_panic stamp_at_no_panic clock_no_panic : irtt.

Section decode_lemmas.
Context `{Target}.

Lemma read_int_inv input pos v pos' :
  0 ≤ pos → read_int input pos = Ok (v, pos') →
  pos < pos' ≤ len input ∧ (bytes_ok input → in_i 64 v).
Proof.
  unfold read_int, slice_from. intros Hp. case_decide as Hl; [|done]. simpl.
  intros ([n u] & Hd & [= <- <-])%bind_ok. split.
  - apply decode_varint_used in Hd. rewrite len_drop in Hd. lia.
  - intros Hb. apply decode_varint_sound in Hd as [? _]; auto with irtt.
Qed.

Lemma read_int_no_panic input pos : 0 ≤ pos ≤ len input → no_panic (read_int input pos).
Proof.
  intros Hp. unfold read_int. rewrite slice_from_ok by done. simpl.
  apply no_panic_bind; [auto with irtt|]. by intros [v u] _.
Qed.

(** A tag's handler either applies one of the nine setters to a value of the
    field's type or (unknown tag) changes nothing; it always advances. *)
Inductive field_update (p : Params.t) (q : ParamPresence.t) : Params.t → ParamPresence.t → Prop :=
  | upd_protocol_version v : in_i 64 v →
      field_update p q (Params.set_protocol_version v p) (ParamPresence.set_protocol_version q)
  | upd_duration_ns v : in_i 64 v →
      field_update p q (Params.set_duration_ns v p) (ParamPresence.set_duration_ns q)
  | upd_interval_ns v : in_i 64 v →
      field_update p q (Params.set_interval_ns v p) (ParamPresence.set_interval_ns q)
  | upd_length v : in_i 64 v →
      field_update p q (Params.set_length v p) (ParamPresence.set_length q)
  | upd_received_stats s :
      field_update p q (Params.set_received_stats s p) (ParamPresence.set_received_stats q)
  | upd_stamp_at s :
      field_update p q (Params.set_stamp_at s p) (ParamPresence.set_stamp_at q)
  | upd_clock c : c ≠ Clock.Unspecified →
      field_update p q (Params.set_clock c p) (ParamPresence.set_clock q)
  | upd_dscp v : in_i 64 v →
      field_update p q (Params.set_dscp v p) (ParamPresence.set_dscp q)
  | upd_server_fill f : fill_ok (Some f) →
      field_update p q (Params.set_server_fill (Some f) p) (ParamPresence.set_server_fill q)
  | upd_unknown : field_update p q p q.

(** Case analysis on the tag literal of [decode_tag]. *)
Local Ltac case_tag :=
  repeat match goal with
    | |- context [match ?t with _ => _ end] => is_var t; destruct t
  end.

Local Ltac int_tag Hp :=
  intros ([? ?] & Hr & Hrest)%bind_ok; apply read_int_inv in Hr as [? ?]; [|exact Hp];
  try (apply bind_ok in Hrest as (? & Hc & Hrest); try apply clock_try_from_inv in Hc as [_ Hc]);
  injection Hrest as <- <- <-; split; [lia|eauto using field_update].

(** Reading a varint at [pos], as the string and unknown arms do. *)
Lemma uvarint_at_inv {A} input pos (f : Z * Z → PResult A) r :
  0 ≤ pos → (rest ← slice_from pos input; vu ← decode_uvarint rest; f vu) = Ok r →
  ∃ v used, f (v, used) = Ok r ∧ pos < pos + used ≤ len input.
Proof.
  unfold slice_from. intros Hp. case_decide as Hl; [|done]. simpl.
  intros ([v u] & Hd & Hf)%bind_ok. exists v, u. split; [done|].
  apply decode_uvarint_used in Hd. rewrite len_drop in Hd. lia.
Qed.

Lemma decode_tag_inv tag input pos p q pos' p' q' :
  bytes_ok input → 0 ≤ pos → decode_tag tag input pos p q = Ok (pos', p', q') →
  pos < pos' ≤ len input ∧ field_update p q p' q'.
Proof.
  intros Hb Hp. unfold decode_tag. case_tag; try (int_tag Hp);
    intros (v & used & Hf & Hu)%uvarint_at_inv; try exact Hp;
    try (injection Hf as <- <- <-; split; [exact Hu|apply upd_unknown]).
  apply bind_ok in Hf as (l & Hl & Hf). case_decide as Hmax; [done|]. case_decide as Hrem; [done|].
  apply bind_ok in Hf as (s & Hs & Hf). destruct (utf8_valid s) eqn:Hutf; [|done].
  injection Hf as <- <- <-. pose proof (slice_bytes_ok _ _ _ _ Hs Hb) as Hsb.
  apply slice_inv in Hs as (? & ? & Hlen & _). split; [lia|]. apply upd_server_fill. simpl.
  rewrite Hlen. split; [lia|done].
Qed.

Lemma decode_tag_no_panic tag input pos p q :
  0 ≤ pos ≤ len input → no_panic (decode_tag tag input pos p q).
Proof.
  intros Hp. unfold decode_tag. case_tag; rewrite ?slice_from_ok by done; cbn [mbind Result_bind];
    try (apply no_panic_bind; [by apply read_int_no_panic|]; intros [? ?] _;
         first [done | apply no_panic_bind; [auto with irtt|done]]);
    (apply no_panic_bind; [apply decode_uvarint_no_panic|]; intros [l used] Hd; try done).
  apply decode_uvarint_used in Hd. rewrite len_drop in Hd.
  unfold ok_or, try_usize. case_decide as Hl; simpl; [|done].
  case_decide; [done|]. case_decide; [done|]. rewrite slice_ok by lia. simpl. by case_match.
Qed.

(** ** The loop *)

Lemma decode_loop_S fuel input pos p q :
  decode_loop (S fuel) input pos p q =
    if decide (pos < len input) then
      rest ← slice_from pos input;
      '(tag, used) ← decode_uvarint rest;
      '(pos, p, q) ← decode_tag tag input (pos + used) p q;
      decode_loop fuel input pos p q
    else Ok {| params := p; presence := q |}.
Proof. done. Qed.

Lemma decode_tag_advances tag input pos p q pos' p' q' :
  0 ≤ pos → decode_tag tag input pos p q = Ok (pos', p', q') → pos < pos' ≤ len input.
Proof.
  intros Hp. unfold decode_tag. case_tag;
    try (intros ([? ?] & Hr & Hrest)%bind_ok; apply read_int_inv in Hr as [? _]; [|exact Hp];
         try (apply bind_ok in Hrest as (? & _ & Hrest)); injection Hrest as <- <- <-; lia);
    intros (v & used & Hf & Hu)%uvarint_at_inv; try exact Hp;
    try (injection Hf as <- <- <-; lia).
  apply bind_ok in Hf as (l & Hl & Hf). case_decide as Hmax; [done|]. case_decide as Hrem; [done|].
  apply bind_ok in Hf as (s & Hs & Hf). case_match; [|done]. injection Hf as <- <- <-.
  apply slice_inv in Hs. lia.
Qed.

(** Fuel beyond the bytes left changes nothing. *)
Lemma decode_loop_fuel n m input pos p q :
  0 ≤ pos ≤ len input → len input - pos < Z.of_nat n → (n ≤ m)%nat →
  decode_loop n input pos p q = decode_loop m input pos p q.
Proof.
  revert m pos p q. induction n as [|n IH]; intros m pos p q Hp Hn Hm; [lia|].
  destruct m as [|m]; [lia|]. rewrite !decode_loop_S. case_decide as Hlt; [|done].
  rewrite slice_from_ok by lia. cbn [mbind Result_bind].
  destruct (decode_uvarint _) as [[tag used]| |] eqn:Hd; cbn [mbind Result_bind]; [|done..].
  apply decode_uvarint_used in Hd. rewrite len_drop in Hd.
  destruct (decode_tag _ _ _ _ _) as [[[pos' p'] q']| |] eqn:Ht; cbn [mbind Result_bind]; [|done..].
  apply decode_tag_advances in Ht; [|lia]. apply IH; lia.
Qed.

(** The source's loop, fuel-free. *)
Lemma decode_from_eq input pos p q :
  0 ≤ pos ≤ len input →
  decode_from input pos p q =
    if decide (pos < len input) then
      rest ← slice_from pos input;
      '(tag, used) ← decode_uvarint rest;
      '(pos, p, q) ← decode_tag tag input (pos + used) p q;
      decode_from input pos p q
    else Ok {| params := p; presence := q |}.
Proof.
  intros Hp. unfold decode_from at 1. rewrite decode_loop_S. case_decide as Hlt; [|done].
  rewrite slice_from_ok by lia. cbn [mbind Result_bind].
  destruct (decode_uvarint _) as [[tag used]| |] eqn:Hd; cbn [mbind Result_bind]; [|done..].
  apply decode_uvarint_used in Hd. rewrite len_drop in Hd.
  destruct (decode_tag _ _ _ _ _) as [[[pos' p'] q']| |] eqn:Ht; cbn [mbind Result_bind]; [|done..].
  apply decode_tag_advances in Ht as ?; [|lia]. symmetry. apply decode_loop_fuel; lia.
Qed.

(** Induction over the iterations, for any invariant the setters preserve. *)
Lemma decode_from_ind (I : Params.t → ParamPresence.t → Prop) input :
  bytes_ok input →
  (∀ p q p' q', I p q → field_update p q p' q' → I p' q') →
  ∀ pos p q d, 0 ≤ pos ≤ len input → I p q → decode_from input pos p q = Ok d →
  I (params d) (presence d).
Proof.
  intros Hb HI. assert (∀ n pos p q d, len input - pos ≤ Z.of_nat n → 0 ≤ pos ≤ len input → I p q →
    decode_from input pos p q = Ok d → I (params d) (presence d)) as Hn;
    [|intros pos p q d Hp Hi Hd; apply (Hn (Z.to_nat (len input - pos)) pos p q d); [lia|done..]].
  induction n as [|n IH]; intros pos p q d Hn Hp Hi; rewrite decode_from_eq by done;
    case_decide; try lia; try (by intros [= <-]).
  rewrite slice_from_ok by lia. cbn [mbind Result_bind].
  intros ([tag used] & Hd & Hf)%bind_ok. apply bind_ok in Hf as ([[pos' p'] q'] & Ht & Hf).
  apply decode_uvarint_used in Hd. rewrite len_drop in Hd.
  apply decode_tag_inv in Ht as [Hpos Hup]; [|done|lia].
  eapply IH; [| |by eapply HI|exact Hf]; lia.
Qed.

Lemma decode_from_no_panic input pos p q :
  0 ≤ pos ≤ len input → no_panic (decode_from input pos p q).
Proof.
  assert (∀ n pos p q, len input - pos ≤ Z.of_nat n → 0 ≤ pos ≤ len input →
    no_panic (decode_from input pos p q)) as Hn;
    [|intros Hp; apply (Hn (Z.to_nat (len input - pos))); [lia|done]].
  clear pos p q. induction n as [|n IH]; intros pos p q Hn Hp; rewrite decode_from_eq by done;
    case_decide; try lia; try done.
  rewrite slice_from_ok by lia. cbn [mbind Result_bind].
  apply no_panic_bind; [apply decode_uvarint_no_panic|]. intros [tag used] Hd.
  apply decode_uvarint_used in Hd. rewrite len_drop in Hd.
  apply no_panic_bind; [apply decode_tag_no_panic; lia|]. intros [[pos' p'] q'] Ht.
  apply decode_tag_advances in Ht; [|lia]. apply IH; lia.
Qed.

Lemma decode_with_presence_no_panic input : no_panic (decode_with_presence input).
Proof. apply decode_from_no_panic. pose proof (len_nonneg input). lia. Qed.

Lemma decode_params_no_panic input : no_panic (decode_params input).
Proof. apply no_panic_bind; [apply decode_with_presence_no_panic|done]. Qed.

(** What the presence flags mean of the decoded values. *)
Record presence_ok (p : Params.t) (q : ParamPresence.t) : Prop := {
  pres_protocol_version : ParamPresence.protocol_version q = false → Params.protocol_version p = 0;
  pres_duration_ns : ParamPresence.duration_ns q = false → Params.duration_ns p = 0;
  pres_interval_ns : ParamPresence.interval_ns q = false → Params.interval_ns p = 0;
  pres_length : ParamPresence.length q = false → Params.length p = 0;
  pres_received_stats : ParamPresence.received_stats q = false →
    Params.received_stats p = ReceivedStats.None;
  pres_stamp_at : ParamPresence.stamp_at q = false → Params.stamp_at p = StampAt.None;
  pres_clock : ParamPresence.clock q = true ↔ Params.clock p ≠ Clock.Unspecified;
  pres_dscp : ParamPresence.dscp q = false → Params.dscp p = 0;
  pres_server_fill : ParamPresence.server_fill q = true ↔ is_Some (Params.server_fill p);
}.

Lemma field_update_ok p q p' q' :
  params_ok p ∧ presence_ok p q → field_update p q p' q' → params_ok p' ∧ presence_ok p' q'.
Proof.
  intros [[] []] Hup. destruct p, q.
  destruct Hup; simpl in *; (split; [by constructor|constructor; simpl; naive_solver]).
Qed.

Lemma decode_with_presence_ok input d :
  bytes_ok input → decode_with_presence input = Ok d →
  params_ok (params d) ∧ presence_ok (params d) (presence d).
Proof.
  intros Hb Hd.
  eapply (decode_from_ind (λ p q, params_ok p ∧ presence_ok p q)); [exact Hb| | | |exact Hd].
  - apply field_update_ok.
  - pose proof (len_nonneg input). lia.
  - split; [apply params_ok_default|]. constructor; simpl; unfold is_Some; naive_solver.
Qed.

Lemma decode_ok input p : bytes_ok input → decode_params input = Ok p → params_ok p.
Proof.
  intros Hb (d & Hd & [= <-])%bind_ok. by apply decode_with_presence_ok in Hd as [? _].
Qed.

(** ** What a payload means

    A payload is a sequence of tagged entries, applied left to right: the last
    value of a known tag wins and unknown tags are skipped. *)
Inductive entry : Type :=
  | E_protocol_version (v : Z) | E_duration_ns (v : Z) | E_interval_ns (v : Z) | E_length (v : Z)
  | E_received_stats (s : ReceivedStats.t) | E_stamp_at (s : StampAt.t) | E_clock (c : Clock.t)
  | E_dscp (v : Z) | E_server_fill (f : ServerFill) | E_unknown (tag v : Z).

Definition entry_ok (e : entry) : Prop :=
  match e with
  | E_protocol_version v | E_duration_ns v | E_interval_ns v | E_length v | E_dscp v => in_i 64 v
  | E_received_stats _ | E_stamp_at _ => True
  | E_clock c => c ≠ Clock.Unspecified
  | E_server_fill f => fill_ok (Some f)
  | E_unknown tag v => in_u 64 tag ∧ in_u 64 v ∧ ¬ 1 ≤ tag ≤ 9
  end.

Definition int_bytes (tag v : Z) : bytes := encode_uvarint tag [] ++ encode_varint v [].

Definition entry_bytes (e : entry) : bytes :=
  match e with
  | E_protocol_version v => int_bytes 1 v
  | E_duration_ns v => int_bytes 2 v
  | E_interval_ns v => int_bytes 3 v
  | E_length v => int_bytes 4 v
  | E_received_stats s => int_bytes 5 (ReceivedStats.to_i64 s)
  | E_stamp_at s => int_bytes 6 (StampAt.to_i64 s)
  | E_clock c => int_bytes 7 (Clock.to_i64 c)
  | E_dscp v => int_bytes 8 v
  | E_server_fill f => encode_uvarint 9 [] ++ encode_uvarint (len (value f)) [] ++ value f
  | E_unknown tag v => encode_uvarint tag [] ++ encode_uvarint v []
  end.

Definition apply_entry (pq : Params.t * ParamPresence.t) (e : entry) : Params.t * ParamPresence.t :=
  let '(p, q) := pq in
  match e with
  | E_protocol_version v =>
      (Params.set_protocol_version v p, ParamPresence.set_protocol_version q)
  | E_duration_ns v => (Params.set_duration_ns v p, ParamPresence.set_duration_ns q)
  | E_interval_ns v => (Params.set_interval_ns v p, ParamPresence.set_interval_ns q)
  | E_length v => (Params.set_length v p, ParamPresence.set_length q)
  | E_received_stats s => (Params.set_received_stats s p, ParamPresence.set_received_stats q)
  | E_stamp_at s => (Params.set_stamp_at s p, ParamPresence.set_stamp_at q)
  | E_clock c => (Params.set_clock c p, ParamPresence.set_clock q)
  | E_dscp v => (Params.set_dscp v p, ParamPresence.set_dscp q)
  | E_server_fill f => (Params.set_server_fill (Some f) p, ParamPresence.set_server_fill q)
  | E_unknown _ _ => (p, q)
  end.

Lemma read_int_app pre v rest :
  in_i 64 v →
  read_int (pre ++ encode_varint v [] ++ rest) (len pre) = Ok (v, len pre + len (encode_varint v [])).
Proof.
  intros Hv. unfold read_int. rewrite slice_from_app by done. cbn [mbind Result_bind].
  by rewrite decode_encode_varint.
Qed.

Lemma unknown_tag tag input pos p q :
  ¬ 1 ≤ tag ≤ 9 →
  decode_tag tag input pos p q =
    (rest ← slice_from pos input; '(_, used) ← decode_uvarint rest; Ok (pos + used, p, q)).
Proof. intros Ht. unfold decode_tag. case_tag; try done; exfalso; lia. Qed.

Lemma to_i64_range s : in_i 64 (ReceivedStats.to_i64 s).
Proof. by destruct s. Qed.
Lemma stamp_to_i64_range s : in_i 64 (StampAt.to_i64 s).
Proof. by destruct s. Qed.
Lemma clock_to_i64_range c : in_i 64 (Clock.to_i64 c).
Proof. by destruct c. Qed.

(** A string value after its tag. *)
Lemma fill_tag_app f pre rest p q :
  fill_ok (Some f) →
  decode_tag 9 (pre ++ (encode_uvarint (len (value f)) [] ++ value f) ++ rest) (len pre) p q
  = Ok (len pre + len (encode_uvarint (len (value f)) [] ++ value f),
        Params.set_server_fill (Some f) p, ParamPresence.set_server_fill q).
Proof.
  intros [Hmax [Hb Hutf]]. pose proof (len_nonneg (value f)) as H0.
  unfold MAX_SERVER_FILL_BYTES in *. pose proof USIZE_MAX_lo as Hus.
  unfold decode_tag. rewrite slice_from_app by done. cbn [mbind Result_bind].
  rewrite <- app_assoc, decode_encode_uvarint by (unfold in_u; lia). cbn [mbind Result_bind].
  unfold ok_or, try_usize. rewrite decide_True by lia. cbn [mbind Result_bind].
  unfold MAX_SERVER_FILL_BYTES. rewrite decide_False by lia.
  rewrite decide_False by (rewrite !len_app; pose proof (len_nonneg rest); lia).
  rewrite (app_assoc pre), slice_app by (rewrite ?len_app; lia). cbn [mbind Result_bind].
  rewrite Hutf, len_app. destruct f. f_equal. f_equal. f_equal. lia.
Qed.

(** The tag handler on an entry's bytes. *)
Lemma decode_entry_step e pre rest p q :
  entry_ok e →
  decode_from (pre ++ entry_bytes e ++ rest) (len pre) p q =
  decode_from ((pre ++ entry_bytes e) ++ rest) (len (pre ++ entry_bytes e))
    (apply_entry (p, q) e).1 (apply_entry (p, q) e).2.
Proof.
  intros He.
  assert (∃ tag body, entry_bytes e = encode_uvarint tag [] ++ body ∧ in_u 64 tag ∧
    ∀ l, l = pre ++ encode_uvarint tag [] →
    decode_tag tag (l ++ body ++ rest) (len l) p q
    = Ok (len l + len body, (apply_entry (p, q) e).1, (apply_entry (p, q) e).2))
    as (tag & body & Heq & Htag & Hdec).
  { destruct e; cbn [entry_bytes entry_ok apply_entry fst snd] in He |- *; unfold int_bytes;
      eexists _, _; (split; [reflexivity|]); (split; [done || easy|]);
      intros l _; try (unfold decode_tag; rewrite read_int_app
        by (done || apply to_i64_range || apply stamp_to_i64_range || apply clock_to_i64_range);
        cbn [mbind Result_bind];
        rewrite ?received_stats_try_from, ?stamp_at_try_from, ?clock_try_from by done; done).
    - by apply fill_tag_app.
    - destruct He as (? & ? & ?). rewrite unknown_tag, slice_from_app by done.
      cbn [mbind Result_bind]. by rewrite decode_encode_uvarint. }
  rewrite decode_from_eq by len_lia. rewrite decide_True.
  2:{ rewrite Heq. pose proof (encode_uvarint_loop_len 10 tag). unfold encode_uvarint. len_lia. }
  rewrite slice_from_app by done. cbn [mbind Result_bind].
  rewrite Heq, <- app_assoc, decode_encode_uvarint by done. cbn [mbind Result_bind].
  rewrite (app_assoc pre). rewrite <- len_app, Hdec by done. cbn [mbind Result_bind].
  by rewrite <- !app_assoc, !len_app, Z.add_assoc.
Qed.

Lemma decode_entries_from es pre p q :
  Forall entry_ok es →
  decode_from (pre ++ (es ≫= entry_bytes)) (len pre) p q =
  Ok {| params := (foldl apply_entry (p, q) es).1; presence := (foldl apply_entry (p, q) es).2 |}.
Proof.
  revert pre p q. induction es as [|e es IH]; intros pre p q Hes;
    cbn [mbind list_bind foldl fst snd].
  - rewrite app_nil_r, decode_from_eq by len_lia. rewrite decide_False by lia. done.
  - apply Forall_cons in Hes as [He Hes]. rewrite decode_entry_step by done.
    rewrite IH by done. by rewrite <- surjective_pairing.
Qed.

Lemma decode_entries es :
  Forall entry_ok es →
  decode_with_presence (es ≫= entry_bytes) =
  Ok {| params := (foldl apply_entry (Params.default, ParamPresence.default) es).1;
        presence := (foldl apply_entry (Params.default, ParamPresence.default) es).2 |}.
Proof. apply (decode_entries_from es []). Qed.

(** The entries [encode_params] writes. *)
Definition int_entry (v : Z) (e : entry) : list entry := if decide (v = 0) then [] else [e].

Definition entries_of (p : Params.t) : list entry :=
  int_entry (Params.protocol_version p) (E_protocol_version (Params.protocol_version p)) ++
  int_entry (Params.duration_ns p) (E_duration_ns (Params.duration_ns p)) ++
  int_entry (Params.interval_ns p) (E_interval_ns (Params.interval_ns p)) ++
  int_entry (Params.length p) (E_length (Params.length p)) ++
  int_entry (ReceivedStats.to_i64 (Params.received_stats p))
    (E_received_stats (Params.received_stats p)) ++
  int_entry (StampAt.to_i64 (Params.stamp_at p)) (E_stamp_at (Params.stamp_at p)) ++
  int_entry (Clock.to_i64 (Params.clock p)) (E_clock (Params.clock p)) ++
  int_entry (Params.dscp p) (E_dscp (Params.dscp p)) ++
  match Params.server_fill p with Some f => [E_server_fill f] | None => [] end.

Lemma push_int_entry tag v out e :
  entry_bytes e = int_bytes tag v → push_int tag v out = out ++ (int_entry v e ≫= entry_bytes).
Proof.
  intros He. unfold push_int, int_entry. case_decide; simpl; [by rewrite app_nil_r|].
  by rewrite encode_varint_app, encode_uvarint_app, He, app_nil_r, <- app_assoc.
Qed.

Lemma encode_entries p : encode_params p = entries_of p ≫= entry_bytes.
Proof.
  unfold encode_params, entries_of. rewrite !bind_app.
  rewrite (push_int_entry 1 _ [] (E_protocol_version (Params.protocol_version p))) by done.
  rewrite (push_int_entry 2 _ _ (E_duration_ns (Params.duration_ns p))) by done.
  rewrite (push_int_entry 3 _ _ (E_interval_ns (Params.interval_ns p))) by done.
  rewrite (push_int_entry 4 _ _ (E_length (Params.length p))) by done.
  rewrite (push_int_entry 5 _ _ (E_received_stats (Params.received_stats p))) by done.
  rewrite (push_int_entry 6 _ _ (E_stamp_at (Params.stamp_at p))) by done.
  rewrite (push_int_entry 7 _ _ (E_clock (Params.clock p))) by done.
  rewrite (push_int_entry 8 _ _ (E_dscp (Params.dscp p))) by done.
  rewrite <- !app_assoc. destruct (Params.server_fill p); simpl; [|by rewrite app_nil_r].
  rewrite (encode_uvarint_app (len _)), (encode_uvarint_app 9), app_nil_r.
  by rewrite <- !app_assoc.
Qed.

Lemma entries_of_ok p : params_ok p → Forall entry_ok (entries_of p).
Proof.
  intros []. unfold entries_of, int_entry.
  repeat apply Forall_app_2; try (case_decide; constructor; done || constructor).
  - case_decide as Hc; [constructor|]. constructor; [|constructor]. simpl. intros He.
    by rewrite He in Hc.
  - destruct (Params.server_fill p); constructor; done || constructor.
Qed.

Lemma int_entry_fold v e p q q' :
  (v = 0 → (p, q) = ((apply_entry (p, q) e).1, q')) → (v ≠ 0 → (apply_entry (p, q) e).2 = q') →
  foldl apply_entry (p, q) (int_entry v e) = ((apply_entry (p, q) e).1, q').
Proof.
  intros H0 H1. unfold int_entry. case_decide as Hv; cbn [foldl]; [by apply H0|].
  rewrite <- H1 by done. apply surjective_pairing.
Qed.

Definition nz (z : Z) : bool := negb (z =? 0).

(** An enum's discriminant is zero exactly at the default. *)
Lemma received_stats_zero s : ReceivedStats.to_i64 s = 0 → s = ReceivedStats.None.
Proof. by destruct s. Qed.
Lemma stamp_at_zero s : StampAt.to_i64 s = 0 → s = StampAt.None.
Proof. by destruct s. Qed.
Lemma clock_zero c : Clock.to_i64 c = 0 → c = Clock.Unspecified.
Proof. by destruct c. Qed.

Local Ltac fold_tac := unfold nz; intros Hz;
  first [ apply received_stats_zero in Hz as -> | apply stamp_at_zero in Hz as ->
        | apply clock_zero in Hz as -> | subst; done | apply Z.eqb_neq in Hz; cbn; by rewrite Hz ];
  done.

Local Ltac fold_step q :=
  rewrite (int_entry_fold _ _ _ _ q) by fold_tac;
  cbn [apply_entry fst Params.set_protocol_version Params.set_duration_ns Params.set_interval_ns
    Params.set_length Params.set_received_stats Params.set_stamp_at Params.set_clock Params.set_dscp].

Lemma foldl_entries_of p :
  foldl apply_entry (Params.default, ParamPresence.default) (entries_of p) = (p, presence_of p).
Proof.
  destruct p as [a b c d s t k e f]. unfold entries_of, presence_of, Params.default,
    ParamPresence.default.
  cbn [Params.protocol_version Params.duration_ns Params.interval_ns Params.length
    Params.received_stats Params.stamp_at Params.clock Params.dscp Params.server_fill].
  rewrite !foldl_app.
  fold_step (ParamPresence.mk (nz a) false false false false false false false false).
  fold_step (ParamPresence.mk (nz a) (nz b) false false false false false false false).
  fold_step (ParamPresence.mk (nz a) (nz b) (nz c) false false false false false false).
  fold_step (ParamPresence.mk (nz a) (nz b) (nz c) (nz d) false false false false false).
  fold_step (ParamPresence.mk (nz a) (nz b) (nz c) (nz d) (nz (ReceivedStats.to_i64 s)) false false false false).
  fold_step (ParamPresence.mk (nz a) (nz b) (nz c) (nz d) (nz (ReceivedStats.to_i64 s))
    (nz (StampAt.to_i64 t)) false false false).
  fold_step (ParamPresence.mk (nz a) (nz b) (nz c) (nz d) (nz (ReceivedStats.to_i64 s))
    (nz (StampAt.to_i64 t)) (nz (Clock.to_i64 k)) false false).
  fold_step (ParamPresence.mk (nz a) (nz b) (nz c) (nz d) (nz (ReceivedStats.to_i64 s))
    (nz (StampAt.to_i64 t)) (nz (Clock.to_i64 k)) (nz e) false).
  by destruct f.
Qed.

(** Encoding then parsing gives back the values, and reports present exactly
    the tags that were written. *)
Lemma decode_encode p :
  params_ok p → decode_with_presence (encode_params p) = Ok {| params := p; presence := presence_of p |}.
Proof.
  intros Hp. rewrite encode_entries, decode_entries by by apply entries_of_ok.
  by rewrite foldl_entries_of.
Qed.

Lemma decode_encode_params p : params_ok p → decode_params (encode_params p) = Ok p.
Proof. intros Hp. unfold decode_params. by rewrite decode_encode. Qed.

Lemma int_bytes_ok tag v : in_u 64 tag → in_i 64 v → bytes_ok (int_bytes tag v).
Proof. intros. unfold int_bytes. bytes_tac. Qed.

Lemma entry_bytes_ok e : entry_ok e → bytes_ok (entry_bytes e).
Proof.
  destruct e as [v|v|v|v|s|s|c|v|f|tag v]; cbn [entry_bytes entry_ok]; intros He;
    try (apply int_bytes_ok; [done|];
         done || apply to_i64_range || apply stamp_to_i64_range || apply clock_to_i64_range).
  - destruct He as (Hm & Hb & _). unfold MAX_SERVER_FILL_BYTES in Hm.
    pose proof (len_nonneg (value f)). bytes_tac; apply encode_uvarint_bytes;
      auto with irtt; unfold in_u; lia.
  - destruct He as (? & ? & _). bytes_tac.
Qed.

Lemma encode_bytes p : params_ok p → bytes_ok (encode_params p).
Proof.
  intros Hp%entries_of_ok. rewrite encode_entries.
  induction Hp as [|e es He Hes IH]; simpl; bytes_tac. by apply entry_bytes_ok.
Qed.

End decode_lemmas.

#[export] Hint Resolve decode_with_presence_no_panic decode_params_no_panic encode_bytes : irtt.

(** ** Properties *)

(** A parameter set survives its wire form: decoding returns the same
    values, and reports present exactly the tags the encoder wrote (the non-zero
    scalars and the fill string). *)
Theorem params_roundtrip `{Target} p :
  params_ok p →
  decode_with_presence (encode_params p)
    = Ok {| params := p; presence := presence_of p |} ∧
  bytes_ok (encode_params p).
Proof. intros Hp. split; [by apply decode_encode | auto with irtt]. Qed.

Lemma params_roundtrip_witness :
  @decode_params target64 (encode_params
    (Params.mk 1 10 (-5) 172 ReceivedStats.Both StampAt.Midpoint Clock.Wall 46
       (Some (mk_ServerFill (str "rand")))))
  = Ok (Params.mk 1 10 (-5) 172 ReceivedStats.Both StampAt.Midpoint Clock.Wall 46
       (Some (mk_ServerFill (str "rand")))).
Proof.
  unfold decode_params. edestruct (@params_roundtrip target64) as [H _]; [|rewrite H; reflexivity].
  apply params_okb_spec. reflexivity.
Defined.

(** A payload means its entries applied left to right to the defaults: the
    last value of a repeated tag wins and unknown tags are skipped with their
    value. *)
Theorem params_payload_meaning `{Target} es :
  Forall entry_ok es →
  decode_with_presence (es ≫= entry_bytes) =
  Ok {| params := (foldl apply_entry (Params.default, ParamPresence.default) es).1;
        presence := (foldl apply_entry (Params.default, ParamPresence.default) es).2 |}.
Proof. apply decode_entries. Qed.

Lemma params_payload_meaning_witness :
  @decode_params target32 ([E_length 9; E_unknown 77 3; E_dscp 4; E_length 12] ≫= entry_bytes)
  = Ok (Params.set_dscp 4 (Params.set_length 12 Params.default)).
Proof.
  unfold decode_params. rewrite (@params_payload_meaning target32); [reflexivity|].
  repeat constructor; simpl; unfold in_u; lia.
Defined.

(** On arbitrary bytes the parameter decoder never panics, and a decoded
    set is in the ranges of its types, holds defaults for absent tags and never
    an explicit [Clock::Unspecified]. *)
Theorem params_decode_safe `{Target} input :
  bytes_ok input →
  match decode_with_presence input with
  | Ok d => params_ok (params d) ∧ presence_ok (params d) (presence d)
  | Err _ => True
  | Panic => False
  end.
Proof.
  intros Hb. destruct (decode_with_presence input) eqn:Hd; [|done|].
  - by eapply decode_with_presence_ok.
  - by apply decode_with_presence_no_panic in Hd.
Qed.

Lemma params_decode_safe_witness :
  params_ok (params {| params := Params.set_length 3 Params.default;
    presence := ParamPresence.set_length ParamPresence.default |}).
Proof.
  pose proof (@params_decode_safe target64 (encode_params (Params.set_length 3 Params.default)))
    as Hs.
  vm_compute in Hs. apply Hs. decide_now.
Defined.
