(* ===== verification/Layout.v ===== *)
(** * irtt-proto: packet layout

    Models [crates/irtt-proto/src/layout.rs]: which optional fields a packet
    carries, the header length they add up to, and the datagram length of an
    echo under negotiated parameters. *)

From S2P Require Import Prelude ProtoBase ParamsCodec.

(** [struct PacketLayout]. *)
Record PacketLayout : Type := mk_PacketLayout {
  hmac : bool;
  token : bool;
  sequence : bool;
  recv_count : bool;
  recv_window : bool;
  recv_wall : bool;
  recv_mono : bool;
  midpoint_wall : bool;
  midpoint_mono : bool;
  send_wall : bool;
  send_mono : bool;
}.

Module PacketLayout.

Definition open_request (hmac : bool) : PacketLayout :=
  {| hmac := hmac; token := false; sequence := false; recv_count := false; recv_window := false;
     recv_wall := false; recv_mono := false; midpoint_wall := false; midpoint_mono := false;
     send_wall := false; send_mono := false |}.

Definition open_reply (hmac : bool) : PacketLayout :=
  let '(mk_PacketLayout h _ s rc rw a b c d e f) := open_request hmac in
  mk_PacketLayout h true s rc rw a b c d e f.

Definition receives (s : StampAt.t) : bool :=
  match s with StampAt.Receive | StampAt.Both => true | _ => false end.
Definition is_midpoint (s : StampAt.t) : bool :=
  match s with StampAt.Midpoint => true | _ => false end.
Definition sends (s : StampAt.t) : bool :=
  match s with StampAt.Send | StampAt.Both => true | _ => false end.

Definition echo (hmac : bool) (params : Params.t) : PacketLayout :=
  let clock := Params.clock params in
  let stamp_at := Params.stamp_at params in
  {| hmac := hmac; token := true; sequence := true;
     recv_count := ReceivedStats.has_count (Params.received_stats params);
     recv_window := ReceivedStats.has_window (Params.received_stats params);
     recv_wall := receives stamp_at && Clock.has_wall clock;
     recv_mono := receives stamp_at && Clock.has_mono clock;
     midpoint_wall := is_midpoint stamp_at && Clock.has_wall clock;
     midpoint_mono := is_midpoint stamp_at && Clock.has_mono clock;
     send_wall := sends stamp_at && Clock.has_wall clock;
     send_mono := sends stamp_at && Clock.has_mono clock |}.

Definition close_request (hmac : bool) : PacketLayout :=
  {| hmac := hmac; token := true; sequence := false; recv_count := false; recv_window := false;
     recv_wall := false; recv_mono := false; midpoint_wall := false; midpoint_mono := false;
     send_wall := false; send_mono := false |}.

Definition timestamp_count (l : PacketLayout) : Z :=
  len (filter (λ present : bool, present = true)
    [recv_wall l; recv_mono l; midpoint_wall l; midpoint_mono l; send_wall l; send_mono l]).

Definition header_len (l : PacketLayout) : Z :=
  HEADER_SIZE
  + (if hmac l then HMAC_SIZE else 0)
  + (if token l then TOKEN_SIZE else 0)
  + (if sequence l then SEQ_SIZE else 0)
  + (if recv_count l then RECV_COUNT_SIZE else 0)
  + (if recv_window l then RECV_WINDOW_SIZE else 0)
  + timestamp_count l * TIMESTAMP_SIZE.

End PacketLayout.

Definition echo_header_len (hmac : bool) (params : Params.t) : Z :=
  PacketLayout.header_len (PacketLayout.echo hmac params).

Section layout.
Context `{Target}.

Definition echo_packet_len (hmac : bool) (params : Params.t) : PResult Z :=
  let header_len := echo_header_len hmac params in
  requested ←
    (if decide (Params.length params ≤ 0) then Ok 0
     else ok_or (try_usize (Params.length params))
                (PacketLengthUnrepresentable (Params.length params)));
  Ok (Z.max header_len requested).

(** ** Lemmas *)

(** Bounds of the mandatory field block. *)
Lemma echo_header_len_bounds (h : bool) p :
  16 + (if h then 16 else 0) ≤ echo_header_len h p ≤ 60 + (if h then 16 else 0).
Proof.
  unfold echo_header_len, PacketLayout.header_len, PacketLayout.timestamp_count, PacketLayout.echo.
  simpl.
  destruct h, (Params.received_stats p), (Params.stamp_at p), (Params.clock p); vm_compute; split; congruence.
Qed.

(** The datagram length is the larger of the field block and the requested
    length, and the only failure is a length the target cannot represent. *)
Lemma echo_packet_len_spec h p :
  echo_packet_len h p =
    if decide (Params.length p ≤ USIZE_MAX)
    then Ok (Z.max (echo_header_len h p) (Z.max 0 (Params.length p)))
    else Err (PacketLengthUnrepresentable (Params.length p)).
Proof.
  unfold echo_packet_len, ok_or, try_usize. pose proof USIZE_MAX_lo.
  repeat case_decide; simpl; try lia; f_equal; lia.
Qed.

Lemma echo_packet_len_inv h p l :
  echo_packet_len h p = Ok l →
  Params.length p ≤ USIZE_MAX ∧ l = Z.max (echo_header_len h p) (Z.max 0 (Params.length p)) ∧
  echo_header_len h p ≤ l.
Proof. rewrite echo_packet_len_spec. case_decide; [|done]. intros [= <-]. lia. Qed.

Lemma echo_packet_len_no_panic h p : no_panic (echo_packet_len h p).
Proof. rewrite echo_packet_len_spec. by case_decide. Qed.

End layout.
#[export] Hint Resolve echo_packet_len_no_panic : irtt.

(** On a 64-bit target every [i64] length is representable. *)
Lemma echo_packet_len_64 h p :
  params_ok p →
  @echo_packet_len target64 h p = Ok (Z.max (echo_header_len h p) (Z.max 0 (Params.length p))).
Proof.
  intros Hp. rewrite echo_packet_len_spec. rewrite decide_True; [done|].
  destruct Hp as [_ _ _ Hl _ _]. unfold in_i in Hl. simpl. lia.
Qed.

(** ** Properties *)

(** The negotiated datagram length is the larger of the field block (16 to
    76 bytes) and the requested length; a non-positive request adds nothing, and
    the only failure is a length the target's [usize] cannot hold, which is
    impossible on a 64-bit target. *)
Theorem echo_packet_len_meaning (T : Target) h p :
  params_ok p →
  (@echo_packet_len T h p =
     if decide (Params.length p ≤ @USIZE_MAX T)
     then Ok (Z.max (echo_header_len h p) (Z.max 0 (Params.length p)))
     else Err (PacketLengthUnrepresentable (Params.length p))) ∧
  (@USIZE_MAX T = 2 ^ 64 - 1 → is_ok (@echo_packet_len T h p) = true) ∧
  16 ≤ echo_header_len h p ≤ 76.
Proof.
  intros Hp. split; [apply echo_packet_len_spec|]. split.
  - intros HU. rewrite echo_packet_len_spec, decide_True; [done|].
    destruct Hp as [_ _ _ Hl _ _]. unfold in_i in Hl. lia.
  - pose proof (echo_header_len_bounds h p). destruct h; lia.
Qed.

Lemma echo_packet_len_meaning_witness :
  @echo_packet_len target32 true (Params.set_length (2 ^ 32) Params.default)
  = Err (PacketLengthUnrepresentable (2 ^ 32)).
Proof.
  destruct (echo_packet_len_meaning target32 true (Params.set_length (2 ^ 32) Params.default))
    as [H _]; [by apply params_okb_spec | rewrite H; reflexivity].
Defined.
