(* ===== verification/OpenCodec.v ===== *)
(** * irtt-proto: the open reply codec

    Models [crates/irtt-proto/src/open.rs]. *)

From S2P Require Import Prelude ProtoBase Varint Envelope ParamsCodec.

(** [struct OpenReply]. *)
Module OpenReply.
Record t : Type := mk {
  flags : Z;
  token : Z;
  params : Params.t;
}.
End OpenReply.

Section open.
Context `{Target} `{!HmacMd5}.

Definition open_reply_rules : list Envelope.FlagRule :=
  [Envelope.Require FLAG_OPEN; Envelope.Require FLAG_REPLY].

Definition encode_open_reply (reply : OpenReply.t) (hmac_key : option bytes) : PResult bytes :=
  let params := encode_params (OpenReply.params reply) in
  out ← Envelope.begin_checked (OpenReply.flags reply) hmac_key open_reply_rules;
  if bool_decide (OpenReply.token reply = 0) && negb (has (OpenReply.flags reply) FLAG_CLOSE)
  then Err ZeroToken
  else
    let out := out ++ to_le TOKEN_SIZE (OpenReply.token reply) in
    let out := out ++ params in
    Envelope.finish out hmac_key.

Definition decode_open_reply (packet : bytes) (hmac_key : option bytes) : PResult OpenReply.t :=
  envelope ← Envelope.decode packet hmac_key open_reply_rules;
  _ ← Envelope.verify packet hmac_key;
  let pos := Envelope.body_offset envelope in
  let needed := pos + TOKEN_SIZE in
  if decide (len packet < needed) then Err (PacketTooShort needed (len packet))
  else
    token ← slice pos (pos + TOKEN_SIZE) packet;
    let token := from_le_u token in
    let pos := pos + TOKEN_SIZE in
    if bool_decide (token = 0) && negb (has (Envelope.flags envelope) FLAG_CLOSE) then Err ZeroToken
    else
      rest ← slice_from pos packet;
      params ← decode_params rest;
      Ok (OpenReply.mk (Envelope.flags envelope) token params).

(** A reply an encoder accepts: the packet-type flags, and a token unless the
    open is being refused. *)
Record open_reply_ok (r : OpenReply.t) : Prop := {
  or_flags : flags_ok (OpenReply.flags r);
  or_open : has (OpenReply.flags r) FLAG_OPEN = true;
  or_reply : has (OpenReply.flags r) FLAG_REPLY = true;
  or_token : in_u 64 (OpenReply.token r);
  or_zero : OpenReply.token r = 0 → has (OpenReply.flags r) FLAG_CLOSE = true;
  or_params : params_ok (OpenReply.params r);
}.

Lemma open_rules_hold f a :
  flags_ok f → has f FLAG_OPEN = true → has f FLAG_REPLY = true →
  Envelope.require_flags (Envelope.with_hmac_flag f a) open_reply_rules = Ok tt.
Proof.
  intros Hf Ho Hr. destruct (with_hmac_flag_spec f a Hf) as (_ & _ & _ & Hb). simpl.
  rewrite has_open, has_reply in *. by rewrite !Hb, Ho, Hr by lia.
Qed.

Lemma zero_token_guard r f :
  open_reply_ok r → has f FLAG_CLOSE = has (OpenReply.flags r) FLAG_CLOSE →
  bool_decide (OpenReply.token r = 0) && negb (has f FLAG_CLOSE) = false.
Proof.
  intros Hr ->. case_bool_decide as Hz; [|done]. by rewrite (or_zero r Hr Hz).
Qed.

Lemma encode_open_reply_ok r key :
  open_reply_ok r →
  encode_open_reply r key = Ok (sealed key
    (Envelope.with_hmac_flag (OpenReply.flags r) (Envelope.is_some key))
    (to_le TOKEN_SIZE (OpenReply.token r) ++ encode_params (OpenReply.params r))).
Proof.
  intros Hr. unfold encode_open_reply.
  rewrite begin_checked_ok by (try apply open_rules_hold; apply Hr). cbn [mbind Result_bind].
  rewrite (zero_token_guard r) by done. rewrite <- app_assoc. apply finish_sealed.
Qed.

(** Decoding returns the reply, with [FLAG_HMAC] set by the key. *)
Lemma decode_encode_open_reply r key pkt :
  open_reply_ok r → encode_open_reply r key = Ok pkt →
  decode_open_reply pkt key = Ok (OpenReply.mk
    (Envelope.with_hmac_flag (OpenReply.flags r) (Envelope.is_some key))
    (OpenReply.token r) (OpenReply.params r)).
Proof.
  intros Hr. rewrite encode_open_reply_ok by done. intros <-%Ok_inj.
  destruct (with_hmac_flag_spec (OpenReply.flags r) (Envelope.is_some key) (or_flags r Hr))
    as (Hf & Hh & _ & Hb).
  unfold decode_open_reply.
  rewrite decode_sealed by (done || apply open_rules_hold; apply Hr). cbn [mbind Result_bind].
  rewrite verify_sealed. cbn [mbind Result_bind Envelope.body_offset Envelope.flags].
  rewrite decide_False.
  2:{ rewrite len_sealed, len_app, len_to_le by done. pose proof (len_nonneg
        (encode_params (OpenReply.params r))). lia. }
  rewrite slice_of_sealed_0 by by rewrite ?len_to_le.
  cbn [mbind Result_bind].
  rewrite from_le_u_to_le by (done || apply Hr).
  rewrite (zero_token_guard r) by (done || rewrite !has_close; apply Hb; lia).
  rewrite slice_from_of_sealed by by rewrite len_to_le.
  cbn [mbind Result_bind]. by rewrite decode_encode_params by apply Hr.
Qed.

Lemma decode_open_reply_no_panic packet key : no_panic (decode_open_reply packet key).
Proof.
  apply no_panic_bind; [auto with irtt|]. intros e He.
  apply no_panic_bind; [auto with irtt|]. intros _ _.
  apply decode_inv in He as (He & _ & _). apply bind_ok in He as (f & _ & [= <-]).
  cbn [Envelope.body_offset Envelope.flags].
  case_decide as Hl; [done|]. unfold HEADER_SIZE, HMAC_SIZE, TOKEN_SIZE in *.
  assert (0 ≤ 4 + (if has f FLAG_HMAC then 16 else 0)) by (destruct (has f FLAG_HMAC); lia).
  rewrite slice_ok by lia. cbn [mbind Result_bind]. destruct (bool_decide _ && _); [done|].
  rewrite slice_from_ok by lia. cbn [mbind Result_bind].
  apply no_panic_bind; [auto with irtt|done].
Qed.

(** What a decoded reply is, whatever the bytes. *)
Lemma decode_open_reply_ok packet key r :
  bytes_ok packet → decode_open_reply packet key = Ok r →
  open_reply_ok r ∧ has (OpenReply.flags r) FLAG_HMAC = Envelope.is_some key.
Proof.
  intros Hb (e & He & Hd)%bind_ok. apply bind_ok in Hd as (u & Hv & Hd).
  apply decode_inv in He as (He & Hr & Hk).
  apply decode_structural_inv in He as (Hf & _ & _ & _); [|done].
  cbv zeta in Hd. case_decide as Hl; [done|]. apply bind_ok in Hd as (tk & Htk & Hd).
  destruct (bool_decide (from_le_u tk = 0) && _) eqn:Hz; [done|].
  apply bind_ok in Hd as (rest & Hrest & Hd). apply bind_ok in Hd as (p & Hp & [= <-]).
  simpl. split; [|done].
  simpl in Hr. destruct (has (Envelope.flags e) FLAG_OPEN) eqn:Ho; [|done].
  destruct (has (Envelope.flags e) FLAG_REPLY) eqn:Hre; [|done].
  assert (bytes_ok rest) as Hbr.
  { unfold slice_from in Hrest. case_decide; [|done]. injection Hrest as <-. auto with irtt. }
  constructor; simpl; [done..| | |by eapply decode_ok].
  - assert (len tk = 8) as Hlt by (apply slice_inv in Htk as (_ & _ & -> & _); unfold TOKEN_SIZE; lia).
    apply slice_bytes_ok in Htk; [|done]. apply from_le_u_range in Htk. by rewrite Hlt in Htk.
  - intros Hz0. rewrite bool_decide_true in Hz by done. simpl in Hz. by destruct (has _ FLAG_CLOSE).
Qed.

End open.
#[export] Hint Resolve decode_open_reply_no_panic : irtt.

(** ** Properties *)

(** An admissible open reply encodes, and decodes under the same key to the
    same token and parameters, with [FLAG_HMAC] set by the key and verified. *)
Theorem open_reply_roundtrip `{Target} `{!HmacMd5} r key :
  open_reply_ok r →
  ∃ pkt, encode_open_reply r key = Ok pkt ∧ bytes_ok pkt ∧
    decode_open_reply pkt key = Ok (OpenReply.mk
      (Envelope.with_hmac_flag (OpenReply.flags r) (Envelope.is_some key))
      (OpenReply.token r) (OpenReply.params r)).
Proof.
  intros Hr. pose proof (encode_open_reply_ok r key Hr) as He.
  eexists. split; [exact He|]. split; [|by eapply decode_encode_open_reply].
  destruct Hr. destruct (with_hmac_flag_spec (OpenReply.flags r) (Envelope.is_some key))
    as (Hf & _); [done|].
  apply sealed_bytes; [unfold flags_ok in Hf; unfold in_u; lia|].
  unfold TOKEN_SIZE. bytes_tac. by apply bytes_ok_to_le.
Qed.

Definition example_open_reply : OpenReply.t :=
  OpenReply.mk 3 7 (Params.set_length 64 Params.default).

Lemma open_reply_roundtrip_witness :
  ∃ pkt, @encode_open_reply toy_hmac example_open_reply (Some [1]) = Ok pkt ∧
    @decode_open_reply target64 toy_hmac pkt (Some [1])
    = Ok (OpenReply.mk 11 7 (Params.set_length 64 Params.default)).
Proof.
  destruct (@open_reply_roundtrip target64 toy_hmac example_open_reply (Some [1]))
    as (pkt & He & _ & Hd).
  - split; try done; try (by apply params_okb_spec); simpl; unfold in_u, flags_ok; lia.
  - exists pkt. split; [exact He | exact Hd].
Defined.

(** On arbitrary bytes the open-reply decoder never panics, and whatever it
    accepts carries the open and reply flags, an authentication flag that agrees
    with the key, a tag that verified, a non-zero token unless the open was
    refused, and well-formed parameters. *)
Theorem open_reply_decode_safe `{Target} `{!HmacMd5} packet key :
  bytes_ok packet →
  match decode_open_reply packet key with
  | Ok r => open_reply_ok r ∧ has (OpenReply.flags r) FLAG_HMAC = Envelope.is_some key ∧
            Envelope.verify packet key = Ok tt
  | Err _ => True
  | Panic => False
  end.
Proof.
  intros Hb. destruct (decode_open_reply packet key) as [r|e|] eqn:Hd; [|done|].
  - apply decode_open_reply_ok in Hd as Hr; [|done]. split; [apply Hr|]. split; [apply Hr|].
    apply bind_ok in Hd as (e & _ & Hd). apply bind_ok in Hd as ([] & Hv & _). exact Hv.
  - by apply decode_open_reply_no_panic in Hd.
Qed.

Definition example_open_packet : bytes :=
  match @encode_open_reply toy_hmac example_open_reply None with Ok p => p | _ => [] end.

Lemma open_reply_decode_safe_witness : open_reply_ok example_open_reply.
Proof.
  pose proof (@open_reply_decode_safe target64 toy_hmac example_open_packet None) as Hs.
  vm_compute in Hs. apply Hs. decide_now.
Defined.
