(* ===== verification/RequestCodec.v ===== *)
(** * irtt-proto: the request codecs

    Models [crates/irtt-proto/src/request.rs]: one encoder for the three
    request kinds and the keyless structural decoder. *)

From S2P Require Import Prelude ProtoBase Varint Envelope ParamsCodec Layout.

(** [enum RequestToEncode]. *)
Inductive RequestToEncode : Type :=
  | EncOpen (params : Params.t) (no_test : bool)
  | EncClose (token : Z)
  | EncEcho (token sequence : Z) (params : Params.t) (payload : bytes).

(** [enum DecodedRequestKind]. *)
Inductive DecodedRequestKind : Type :=
  | DecOpen (no_test : bool) (params : bytes)
  | DecClose (token : Z)
  | DecEcho (token sequence : Z) (tail : bytes).

(** [struct DecodedRequest]. *)
Module DecodedRequest.
Record t : Type := mk {
  hmac_present : bool;
  kind : DecodedRequestKind;
}.
End DecodedRequest.

Definition require_len (packet : bytes) (needed : Z) : PResult unit :=
  if decide (len packet < needed) then Err (PacketTooShort needed (len packet)) else Ok tt.

Definition read_token (packet : bytes) (offset : Z) : PResult Z :=
  from_le_u <$> slice offset (offset + TOKEN_SIZE) packet.

Definition read_sequence (packet : bytes) (offset : Z) : PResult Z :=
  from_le_u <$> slice offset (offset + SEQ_SIZE) packet.

Definition decode_request (packet : bytes) : PResult DecodedRequest.t :=
  envelope ← Envelope.decode_structural packet;
  let flags := Envelope.flags envelope in
  if has flags FLAG_REPLY then Err (UnexpectedFlag FLAG_REPLY)
  else
    let body := Envelope.body_offset envelope in
    kind ←
      (if has flags FLAG_OPEN then
         _ ← require_len packet body;
         params ← slice_from body packet;
         Ok (DecOpen (has flags FLAG_CLOSE) params)
       else if has flags FLAG_CLOSE then
         _ ← require_len packet (body + TOKEN_SIZE);
         token ← read_token packet body;
         Ok (DecClose token)
       else
         let tail_offset := body + TOKEN_SIZE + SEQ_SIZE in
         _ ← require_len packet tail_offset;
         token ← read_token packet body;
         sequence ← read_sequence packet (body + TOKEN_SIZE);
         tail ← slice_from tail_offset packet;
         Ok (DecEcho token sequence tail));
    Ok (DecodedRequest.mk (Envelope.hmac_present envelope) kind).

Section encode.
Context `{Target} `{!HmacMd5}.

Definition encode_open (params : Params.t) (no_test : bool) (hmac_key : option bytes)
    : PResult bytes :=
  let flags := if no_test then Z.lor FLAG_OPEN FLAG_CLOSE else FLAG_OPEN in
  let encoded := encode_params params in
  out ← Envelope.begin flags hmac_key;
  Envelope.finish (out ++ encoded) hmac_key.

Definition encode_close (token : Z) (hmac_key : option bytes) : PResult bytes :=
  out ← Envelope.begin FLAG_CLOSE hmac_key;
  Envelope.finish (out ++ to_le TOKEN_SIZE token) hmac_key.

Definition encode_echo (token sequence : Z) (params : Params.t) (payload : bytes)
    (hmac_key : option bytes) : PResult bytes :=
  let layout := PacketLayout.echo (Envelope.is_some hmac_key) params in
  length ← echo_packet_len (Envelope.is_some hmac_key) params;
  let payload_offset := PacketLayout.header_len layout in
  let available_payload_len := Z.max 0 (length - payload_offset) in
  if decide (available_payload_len < len payload)
  then Err (PayloadTooLarge available_payload_len (len payload))
  else
    out ← Envelope.begin 0 hmac_key;
    let out := out ++ to_le TOKEN_SIZE token in
    let out := out ++ to_le SEQ_SIZE sequence in
    let out := vec_resize length 0 out in
    out ← copy_at payload_offset payload out;
    Envelope.finish out hmac_key.

Definition encode_request (request : RequestToEncode) (hmac_key : option bytes) : PResult bytes :=
  match request with
  | EncOpen params no_test => encode_open params no_test hmac_key
  | EncClose token => encode_close token hmac_key
  | EncEcho token sequence params payload => encode_echo token sequence params payload hmac_key
  end.

(** ** What the encoders produce *)

(** A request whose fields are in the ranges of their Rust types. *)
Definition request_ok (r : RequestToEncode) : Prop :=
  match r with
  | EncOpen p _ => params_ok p
  | EncClose token => in_u 64 token
  | EncEcho token sequence p payload =>
      in_u 64 token ∧ in_u 32 sequence ∧ params_ok p ∧ bytes_ok payload
  end.

Definition request_flags (r : RequestToEncode) (a : bool) : Z :=
  (match r with
   | EncOpen _ true => Z.lor FLAG_OPEN FLAG_CLOSE | EncOpen _ false => FLAG_OPEN
   | EncClose _ => FLAG_CLOSE | EncEcho _ _ _ _ => 0 end) + (if a then FLAG_HMAC else 0).

(** An echo's bytes after its sequence number: zeroed reply fields, the
    payload at the negotiated offset, zero padding to the negotiated length. *)
Definition zeros (n : Z) : bytes := replicate (Z.to_nat n) 0.

Definition echo_fixed_len (key : option bytes) : Z :=
  HEADER_SIZE + auth_len key + TOKEN_SIZE + SEQ_SIZE.

Definition echo_tail (key : option bytes) (p : Params.t) (payload : bytes) : bytes :=
  let header := echo_header_len (Envelope.is_some key) p in
  zeros (header - echo_fixed_len key) ++ payload ++
  zeros (Z.max header (Z.max 0 (Params.length p)) - header - len payload).

Definition request_body (r : RequestToEncode) (key : option bytes) : bytes :=
  match r with
  | EncOpen p _ => encode_params p
  | EncClose token => to_le TOKEN_SIZE token
  | EncEcho token sequence p payload =>
      to_le TOKEN_SIZE token ++ to_le SEQ_SIZE sequence ++ echo_tail key p payload
  end.

(** Exactly the requests [encode_request] accepts. *)
Definition encodable (r : RequestToEncode) (key : option bytes) : Prop :=
  match r with
  | EncEcho _ _ p payload =>
      Params.length p ≤ USIZE_MAX ∧
      len payload ≤ Z.max (echo_header_len (Envelope.is_some key) p) (Z.max 0 (Params.length p))
                    - echo_header_len (Envelope.is_some key) p
  | _ => True
  end.

Lemma len_zeros n : 0 ≤ n → len (zeros n) = n.
Proof. intros. unfold zeros. rewrite len_replicate. lia. Qed.

Lemma zeros_bytes n : bytes_ok (zeros n).
Proof. by apply bytes_ok_replicate. Qed.

Lemma echo_fixed_le_header key p :
  echo_fixed_len key ≤ echo_header_len (Envelope.is_some key) p.
Proof.
  pose proof (echo_header_len_bounds (Envelope.is_some key) p).
  unfold echo_fixed_len, auth_len, HEADER_SIZE, HMAC_SIZE, TOKEN_SIZE, SEQ_SIZE in *.
  destruct (Envelope.is_some key); lia.
Qed.

Lemma vec_resize_grow n (l : bytes) : len l ≤ n → vec_resize n 0 l = l ++ zeros (n - len l).
Proof.
  intros Hn. unfold vec_resize, zeros. rewrite resize_ge by (unfold len in Hn; lia).
  f_equal. f_equal. unfold len. lia.
Qed.

Lemma zeros_split n m : 0 ≤ n → 0 ≤ m → zeros (n + m) = zeros n ++ zeros m.
Proof. intros. unfold zeros. rewrite Z2Nat.inj_add by done. apply replicate_add. Qed.

(** Growing a packet to [total] and copying a payload at [offset]. *)
Lemma resize_copy (l payload : bytes) offset total :
  len l ≤ offset → offset + len payload ≤ total →
  copy_at (E := ProtoError) offset payload (vec_resize total 0 l)
  = Ok (l ++ zeros (offset - len l) ++ payload ++ zeros (total - offset - len payload)).
Proof.
  intros Ho Ht. pose proof (len_nonneg payload).
  rewrite vec_resize_grow by lia.
  replace (total - len l) with ((offset - len l) + (len payload + (total - offset - len payload)))
    by lia.
  rewrite !zeros_split by lia. rewrite (app_assoc l).
  rewrite copy_at_app by (rewrite ?len_app, ?len_zeros; lia).
  by rewrite <- app_assoc.
Qed.

Lemma len_begin key f :
  len (write_header [] f ++ (if Envelope.is_some key then Hmac.zero_hmac else []))
  = HEADER_SIZE + auth_len key.
Proof. destruct key; done. Qed.

Lemma encode_request_ok r key :
  encodable r key →
  encode_request r key
  = Ok (sealed key (request_flags r (Envelope.is_some key)) (request_body r key)).
Proof.
  destruct r as [p nt|token|token seq p payload]; cbn [encode_request encodable]; intros Henc.
  - unfold encode_open, Envelope.begin. destruct nt.
    + rewrite (seal_ok (Z.lor FLAG_OPEN FLAG_CLOSE) key) by done. by destruct key.
    + rewrite (seal_ok FLAG_OPEN key) by done. by destruct key.
  - unfold encode_close, Envelope.begin. rewrite seal_ok by done. by destruct key.
  - destruct Henc as [Hu Hp]. unfold encode_echo.
    rewrite echo_packet_len_spec, decide_True by done. cbn [mbind Result_bind].
    change (PacketLayout.header_len (PacketLayout.echo (Envelope.is_some key) p))
      with (echo_header_len (Envelope.is_some key) p).
    pose proof (echo_fixed_le_header key p) as Hfix. pose proof (len_nonneg payload).
    rewrite decide_False by lia. unfold Envelope.begin. rewrite begin_checked_ok by done.
    cbn [mbind Result_bind]. rewrite resize_copy.
    + cbn [mbind Result_bind].
      rewrite !len_app, !len_to_le, <- len_app, len_begin by done.
      rewrite <- !(app_assoc (_ ++ _)).
      rewrite finish_sealed. by destruct key.
    + rewrite !len_app, !len_to_le, <- len_app, len_begin by done. unfold echo_fixed_len in *. lia.
    + lia.
Qed.

Lemma encode_request_err r key :
  ¬ encodable r key → ∃ e, encode_request r key = Err e.
Proof.
  destruct r as [p nt|token|token seq p payload]; simpl; [naive_solver..|]. intros Henc.
  unfold encode_echo. rewrite echo_packet_len_spec. case_decide; simpl; [|eauto].
  rewrite decide_True; [eauto|]. fold (echo_header_len (Envelope.is_some key) p).
  pose proof (len_nonneg payload). lia.
Qed.

(** ** Decoding what was encoded *)

(** What the structural decoder must return for an encoded request. *)
Definition request_kind (r : RequestToEncode) (key : option bytes) : DecodedRequestKind :=
  match r with
  | EncOpen p no_test => DecOpen no_test (encode_params p)
  | EncClose token => DecClose token
  | EncEcho token sequence p payload => DecEcho token sequence (echo_tail key p payload)
  end.

Lemma request_flags_spec r a :
  flags_ok (request_flags r a) ∧ has (request_flags r a) FLAG_HMAC = a ∧
  has (request_flags r a) FLAG_REPLY = false ∧
  has (request_flags r a) FLAG_OPEN = (match r with EncOpen _ _ => true | _ => false end) ∧
  has (request_flags r a) FLAG_CLOSE =
    (match r with EncOpen _ nt => nt | EncClose _ => true | _ => false end).
Proof. destruct r as [? []| |], a; repeat split; vm_compute; congruence. Qed.

Lemma decode_request_sealed r key :
  request_ok r →
  decode_request (sealed key (request_flags r (Envelope.is_some key)) (request_body r key))
  = Ok (DecodedRequest.mk (Envelope.is_some key) (request_kind r key)).
Proof.
  intros Hr. destruct (request_flags_spec r (Envelope.is_some key)) as (Hf & Hh & Hre & Ho & Hc).
  unfold decode_request. rewrite decode_structural_sealed by done.
  cbn [mbind Result_bind Envelope.flags Envelope.body_offset Envelope.hmac_present].
  rewrite Hre, Ho, Hc. pose proof (len_nonneg (request_body r key)).
  destruct r as [p nt|token|token seq p payload];
    cbn [request_body request_kind request_ok] in *; unfold require_len.
  - rewrite decide_False by (rewrite len_sealed; lia). cbn [mbind Result_bind].
    by rewrite body_of_sealed.
  - rewrite decide_False by (rewrite len_sealed, len_to_le; unfold TOKEN_SIZE; lia).
    cbn [mbind Result_bind]. unfold read_token.
    rewrite <- (app_nil_r (to_le TOKEN_SIZE token)), slice_of_sealed_0
      by by rewrite ?len_to_le. simpl. by rewrite from_le_u_to_le.
  - destruct Hr as (Ht & Hs & _ & _). pose proof (len_nonneg (echo_tail key p payload)).
    rewrite decide_False by
      (rewrite len_sealed, !len_app, !len_to_le by done; unfold TOKEN_SIZE, SEQ_SIZE; lia).
    cbn [mbind Result_bind]. unfold read_token, read_sequence.
    rewrite slice_of_sealed by by rewrite ?len_to_le.
    rewrite slice_of_sealed_0 by by rewrite ?len_to_le. cbn [fmap Result_fmap mbind Result_bind].
    rewrite app_assoc, slice_from_of_sealed by (rewrite len_app, !len_to_le by done; lia).
    cbn [mbind Result_bind]. by rewrite !from_le_u_to_le.
Qed.

End encode.

(** ** What the decoder accepts *)

Lemma require_len_ok packet n u : require_len packet n = Ok u → n ≤ len packet.
Proof. unfold require_len. case_decide; [done|]. lia. Qed.

Lemma require_len_no_panic packet n : no_panic (require_len packet n).
Proof. unfold require_len. by case_decide. Qed.

Lemma body_offset_range packet e :
  Envelope.decode_structural packet = Ok e → HEADER_SIZE ≤ Envelope.body_offset e.
Proof.
  intros (f & _ & [= <-])%bind_ok. simpl. unfold HMAC_SIZE. destruct (has f FLAG_HMAC); lia.
Qed.

Lemma decode_request_no_panic packet : no_panic (decode_request packet).
Proof.
  apply no_panic_bind; [auto with irtt|]. intros e He%body_offset_range. unfold HEADER_SIZE in He. cbv zeta.
  destruct (has (Envelope.flags e) FLAG_REPLY); [done|]. apply no_panic_bind; [|done].
  destruct (has (Envelope.flags e) FLAG_OPEN); [|destruct (has (Envelope.flags e) FLAG_CLOSE)];
    (apply no_panic_bind; [apply require_len_no_panic|]); intros [] Hl%require_len_ok;
    unfold read_token, read_sequence, TOKEN_SIZE, SEQ_SIZE in *;
    rewrite ?slice_from_ok, ?slice_ok by lia; simpl; [done..|].
  by rewrite ?slice_from_ok, ?slice_ok by lia.
Qed.

(** A decoded request is the reading of the packet's own bytes at the offsets
    the header's authentication flag selects. *)
Definition request_at (body : bytes) (k : DecodedRequestKind) (f : Z) : Prop :=
  match k with
  | DecOpen no_test params =>
      has f FLAG_OPEN = true ∧ has f FLAG_CLOSE = no_test ∧ body = params
  | DecClose token =>
      has f FLAG_OPEN = false ∧ has f FLAG_CLOSE = true ∧ in_u 64 token ∧
      ∃ rest, body = to_le TOKEN_SIZE token ++ rest
  | DecEcho token sequence tail =>
      has f FLAG_OPEN = false ∧ has f FLAG_CLOSE = false ∧ in_u 64 token ∧ in_u 32 sequence ∧
      body = to_le TOKEN_SIZE token ++ to_le SEQ_SIZE sequence ++ tail
  end.

Lemma drop_split_slices (l : bytes) (a n : Z) :
  0 ≤ a → 0 ≤ n → a + n ≤ len l →
  drop (Z.to_nat a) l = take (Z.to_nat n) (drop (Z.to_nat a) l) ++ drop (Z.to_nat (a + n)) l.
Proof.
  intros. rewrite Z2Nat.inj_add by done. rewrite <- drop_drop. by rewrite take_drop.
Qed.

(** The value read from an in-range field, and the bytes it came from. *)
Lemma read_u_spec packet a n :
  bytes_ok packet → 0 ≤ a → 0 ≤ n → a + n ≤ len packet →
  ∃ v, from_le_u <$> slice (E := ProtoError) a (a + n) packet = Ok v ∧ in_u (8 * n) v ∧
       drop (Z.to_nat a) packet = to_le n v ++ drop (Z.to_nat (a + n)) packet.
Proof.
  intros Hb Ha Hn Hl. rewrite slice_ok by lia. replace (a + n - a) with n by lia.
  set (s := take _ _). assert (len s = n) as Hs by (subst s; len_lia).
  assert (bytes_ok s) as Hbs by (subst s; auto with irtt).
  exists (from_le_u s). split; [done|].
  pose proof (from_le_u_range s Hbs) as Hr. rewrite Hs in Hr. split; [done|].
  rewrite <- Hs at 1. rewrite to_le_from_le by done. by apply (drop_split_slices packet).
Qed.

Lemma decode_request_ok packet r :
  bytes_ok packet → decode_request packet = Ok r →
  ∃ f rest, packet = write_header [] f ++ rest ∧ flags_ok f ∧ has f FLAG_REPLY = false ∧
    DecodedRequest.hmac_present r = has f FLAG_HMAC ∧
    request_at (drop (if has f FLAG_HMAC then 16 else 0)%nat rest) (DecodedRequest.kind r) f.
Proof.
  intros Hb (e & He & Hd)%bind_ok.
  apply decode_structural_inv in He as (Hf & Hh & Hbo & body & Hp); [|done].
  cbv zeta in Hd. destruct (has (Envelope.flags e) FLAG_REPLY) eqn:Hre; [done|].
  apply bind_ok in Hd as (k & Hk & [= <-]). cbn [DecodedRequest.hmac_present DecodedRequest.kind].
  exists (Envelope.flags e), body. do 4 (split; [done|]). rewrite <- Hh.
  assert (drop (if Envelope.hmac_present e then 16 else 0)%nat body
          = drop (Z.to_nat (Envelope.body_offset e)) packet) as ->.
  { rewrite Hbo, Hp. by destruct (Envelope.hmac_present e). }
  assert (0 ≤ Envelope.body_offset e) as H0.
  { rewrite Hbo. unfold HEADER_SIZE, HMAC_SIZE. destruct (Envelope.hmac_present e); lia. }
  clear Hp Hbo Hh. destruct (has (Envelope.flags e) FLAG_OPEN) eqn:Ho; [|destruct (has (Envelope.flags e) FLAG_CLOSE) eqn:Hc];
    apply bind_ok in Hk as ([] & Hl%require_len_ok & Hk).
  - rewrite slice_from_ok in Hk by lia. injection Hk as <-. done.
  - unfold read_token in Hk.
    destruct (read_u_spec packet (Envelope.body_offset e) TOKEN_SIZE) as (v & Hv & Hr & Hd);
      [done|done|by unfold TOKEN_SIZE|done|].
    rewrite Hv in Hk. injection Hk as <-. repeat (split; [done|]). eauto.
  - unfold read_token, read_sequence in Hk. unfold SEQ_SIZE, TOKEN_SIZE in *.
    destruct (read_u_spec packet (Envelope.body_offset e) 8) as (v & Hv & Hr & Hd);
      [done|done|lia|lia|].
    destruct (read_u_spec packet (Envelope.body_offset e + 8) 4) as (w & Hw & Hrw & Hdw);
      [done|lia|lia|lia|].
    rewrite Hv, Hw, slice_from_ok in Hk by lia. injection Hk as <-.
    repeat (split; [done|]). by rewrite Hd, Hdw.
Qed.
#[export] Hint Resolve decode_request_no_panic : irtt.

(** ** Properties *)

Lemma request_packet_bytes `{Target} `{!HmacMd5} r key :
  request_ok r → bytes_ok (sealed key (request_flags r (Envelope.is_some key)) (request_body r key)).
Proof.
  intros Hr. apply sealed_bytes.
  { destruct (request_flags_spec r (Envelope.is_some key)) as [Hf _]. unfold flags_ok, in_u in *. lia. }
  destruct r as [p nt|token|token seq p payload]; cbn [request_body request_ok] in *.
  - by apply encode_bytes.
  - by apply bytes_ok_to_le.
  - destruct Hr as (_ & _ & _ & Hb). unfold echo_tail.
    repeat (apply bytes_ok_app; split); first [by apply bytes_ok_to_le|apply zeros_bytes|done].
Qed.

Lemma verify_request_sealed `{!HmacMd5} r k :
  request_ok r →
  verify_packet_hmac k (sealed (Some k) (request_flags r true) (request_body r (Some k))) = Ok tt.
Proof.
  intros Hr. destruct (request_flags_spec r true) as (Hf & Hh & _). unfold verify_packet_hmac.
  pose proof (decode_structural_sealed (Some k)) as Hd.
  rewrite Hd by done. cbn [mbind Result_bind Envelope.hmac_present Envelope.is_some].
  apply verify_hmac_sealed.
Qed.

(** Every request with in-range fields that fits the negotiated length
    encodes to a packet that decodes to the same request, that is authenticated
    exactly when there is a key, and that verifies under that key. *)
Theorem request_roundtrip `{Target} `{!HmacMd5} r key :
  request_ok r → encodable r key →
  ∃ pkt, encode_request r key = Ok pkt ∧
    decode_request pkt = Ok (DecodedRequest.mk (Envelope.is_some key) (request_kind r key)) ∧
    (∀ k, key = Some k → verify_packet_hmac k pkt = Ok tt).
Proof.
  intros Hr He. eexists. split; [by apply encode_request_ok|].
  split; [by apply decode_request_sealed|]. intros k ->. by apply verify_request_sealed.
Qed.

Definition example_params : Params.t :=
  Params.mk 1 0 0 60 ReceivedStats.Count StampAt.Both Clock.Wall 0 None.

Lemma request_roundtrip_witness :
  match @encode_request target64 toy_hmac (EncEcho 9 5 example_params [1; 2]) (Some [3]) with
  | Ok pkt => len pkt = 60 ∧ decode_request pkt = Ok (DecodedRequest.mk true
      (DecEcho 9 5 (zeros 20 ++ [1; 2] ++ zeros 6)))
  | _ => False end.
Proof.
  destruct (@request_roundtrip target64 toy_hmac (EncEcho 9 5 example_params [1; 2]) (Some [3]))
    as (pkt & He & Hd & _).
  - split; [unfold in_u; lia|]. split; [unfold in_u; lia|].
    split; [by apply params_okb_spec | decide_now].
  - vm_compute. split; congruence.
  - rewrite He. split; [|exact Hd].
    vm_compute in He. injection He as <-. reflexivity.
Defined.

(** The request encoder is total: it succeeds exactly on the requests whose
    payload fits and whose length the target can represent, with a packet of
    exactly the negotiated length for an echo, and otherwise returns an error
    rather than a truncated packet; it never panics. *)
Theorem encode_request_exact `{Target} `{!HmacMd5} r key :
  no_panic (encode_request r key) ∧
  (is_ok (encode_request r key) = true ↔ encodable r key) ∧
  (∀ token sequence p payload pkt,
     r = EncEcho token sequence p payload → encode_request r key = Ok pkt →
     echo_packet_len (Envelope.is_some key) p = Ok (len pkt)).
Proof.
  assert (Decision (encodable r key)) as [He|He] by (destruct r; simpl; apply _).
  - rewrite encode_request_ok by done. repeat split; [done..|].
    intros token sequence p payload pkt -> <-%Ok_inj. destruct He as [Hu Hp].
    rewrite echo_packet_len_spec, decide_True by done. f_equal.
    pose proof (echo_fixed_le_header key p). pose proof (len_nonneg payload).
    rewrite len_sealed. cbn [request_body]. unfold echo_tail.
    rewrite !len_app, !len_to_le, !len_zeros by (done || lia).
    unfold echo_fixed_len in *. lia.
  - destruct (encode_request_err r key He) as [e ->]. repeat split; try done.
Qed.

(** On arbitrary bytes the request decoder never panics; what it accepts is
    a well-formed header without the reply flag, of the kind its open and close
    flags name, whose fields are the packet's own bytes after the
    authentication field. *)
Theorem decode_request_safe packet :
  bytes_ok packet →
  match decode_request packet with
  | Ok r => ∃ f rest, packet = write_header [] f ++ rest ∧ flags_ok f ∧
      has f FLAG_REPLY = false ∧ DecodedRequest.hmac_present r = has f FLAG_HMAC ∧
      request_at (drop (if has f FLAG_HMAC then 16 else 0)%nat rest) (DecodedRequest.kind r) f
  | Err _ => True
  | Panic => False
  end.
Proof.
  intros Hb. destruct (decode_request packet) as [r|e|] eqn:Hd; [|done|].
  - by apply decode_request_ok.
  - by apply decode_request_no_panic in Hd.
Qed.

Lemma decode_request_safe_witness :
  ∃ f rest, MAGIC ++ [4; 9; 0; 0; 0; 0; 0; 0; 0] = write_header [] f ++ rest ∧
    has f FLAG_REPLY = false ∧ request_at rest (DecClose 9) f.
Proof.
  pose proof (decode_request_safe (MAGIC ++ [4; 9; 0; 0; 0; 0; 0; 0; 0])) as Hs.
  destruct Hs as (f & rest & Hp & _ & Hr & Hh & Ha); [decide_now|].
  exists f, rest. split; [exact Hp|]. split; [exact Hr|]. simpl in Hh, Ha. by rewrite <- Hh in Ha.
Defined.
