(* ===== verification/EchoCodec.v ===== *)
(** * irtt-proto: the echo reply codec

    Models [crates/irtt-proto/src/echo.rs]: the reply encoder, the decoder
    and the dual-midpoint form of upstream irtt, told apart by length. *)

From S2P Require Import Prelude ProtoBase Varint Envelope ParamsCodec Layout RequestCodec.

Definition MIDPOINT_COMPAT_EXTRA : Z := TIMESTAMP_SIZE.

Definition is_midpoint_single_clock (params : Params.t) : bool :=
  PacketLayout.is_midpoint (Params.stamp_at params) &&
  (match Params.clock params with Clock.Wall | Clock.Monotonic => true | _ => false end).

Definition midpoint_compat_packet_len (layout : PacketLayout) (normal_len : Z) : Z :=
  Z.max (PacketLayout.header_len layout + MIDPOINT_COMPAT_EXTRA) normal_len.

(** [struct TimestampFields]. *)
Module TimestampFields.
Record t : Type := mk {
  recv_wall : option Z;
  recv_mono : option Z;
  midpoint_wall : option Z;
  midpoint_mono : option Z;
  send_wall : option Z;
  send_mono : option Z;
}.
Definition default : t := mk None None None None None None.
End TimestampFields.

(** [struct EchoReply]. *)
Module EchoReply.
Record t : Type := mk {
  flags : Z;
  token : Z;
  sequence : Z;
  recv_count : option Z;
  recv_window : option Z;
  timestamps : TimestampFields.t;
  payload : bytes;
}.
End EchoReply.

(** A field of the layout is present exactly when the reply has a value. *)
Definition field_value (present : bool) (value : option Z) (name : string)
    : PResult (option Z) :=
  match present, value with
  | true, Some value => Ok (Some value)
  | true, None => Err (MissingField name)
  | false, Some _ => Err (UnexpectedField name)
  | false, None => Ok None
  end.

(** [if let Some(value) = field_value(..)? { out.extend(value.to_le_bytes()) }]
    for a field of [n] bytes. *)
Definition push_field (n : Z) (present : bool) (value : option Z) (name : string) (out : bytes)
    : PResult bytes :=
  v ← field_value present value name;
  Ok (match v with Some value => out ++ to_le n value | None => out end).

(** The [for] loop over the timestamp triples. *)
Fixpoint push_timestamps (fields : list (bool * option Z * string)) (out : bytes)
    : PResult bytes :=
  match fields with
  | [] => Ok out
  | (present, value, name) :: fields =>
      out ← push_field TIMESTAMP_SIZE present value name out;
      push_timestamps fields out
  end.

Definition timestamp_fields (t : TimestampFields.t) (layout : PacketLayout)
    : list (bool * option Z * string) :=
  [ (recv_wall layout, TimestampFields.recv_wall t, "recv_wall");
    (recv_mono layout, TimestampFields.recv_mono t, "recv_mono");
    (midpoint_wall layout, TimestampFields.midpoint_wall t, "midpoint_wall");
    (midpoint_mono layout, TimestampFields.midpoint_mono t, "midpoint_mono");
    (send_wall layout, TimestampFields.send_wall t, "send_wall");
    (send_mono layout, TimestampFields.send_mono t, "send_mono") ]%string.

Definition push_echo_reply_tail (reply : EchoReply.t) (layout : PacketLayout) (out : bytes)
    : PResult bytes :=
  out ← push_field RECV_COUNT_SIZE (recv_count layout) (EchoReply.recv_count reply) "recv_count" out;
  out ← push_field RECV_WINDOW_SIZE (recv_window layout) (EchoReply.recv_window reply)
          "recv_window" out;
  push_timestamps (timestamp_fields (EchoReply.timestamps reply) layout) out.

(** The cursor readers: the value and the advanced position. *)
Definition read_u32 (packet : bytes) (pos : Z) : PResult (Z * Z) :=
  b ← slice pos (pos + SEQ_SIZE) packet; Ok (from_le_u b, pos + SEQ_SIZE).
Definition read_u64 (packet : bytes) (pos : Z) : PResult (Z * Z) :=
  b ← slice pos (pos + TOKEN_SIZE) packet; Ok (from_le_u b, pos + TOKEN_SIZE).
Definition read_i64 (packet : bytes) (pos : Z) : PResult (Z * Z) :=
  b ← slice pos (pos + TIMESTAMP_SIZE) packet; Ok (from_le_i 64 b, pos + TIMESTAMP_SIZE).

(** [present.then(|| read(packet, &mut pos))]. *)
Definition then_read (present : bool) (read : bytes → Z → PResult (Z * Z))
    (packet : bytes) (pos : Z) : PResult (option Z * Z) :=
  if present then '(v, pos) ← read packet pos; Ok (Some v, pos) else Ok (None, pos).

Section codec.
Context `{Target} `{!HmacMd5}.

Definition echo_reply_rules : list Envelope.FlagRule :=
  [Envelope.Reject FLAG_OPEN; Envelope.Require FLAG_REPLY].

Definition encode_echo_reply (reply : EchoReply.t) (params : Params.t) (hmac_key : option bytes)
    : PResult bytes :=
  let layout := PacketLayout.echo (Envelope.is_some hmac_key) params in
  length ← echo_packet_len (Envelope.is_some hmac_key) params;
  let payload_offset := PacketLayout.header_len layout in
  let available_payload_len := Z.max 0 (length - payload_offset) in
  if decide (available_payload_len < len (EchoReply.payload reply))
  then Err (PayloadTooLarge available_payload_len (len (EchoReply.payload reply)))
  else
    out ← Envelope.begin_checked (EchoReply.flags reply) hmac_key echo_reply_rules;
    let out := out ++ to_le TOKEN_SIZE (EchoReply.token reply) in
    let out := out ++ to_le SEQ_SIZE (EchoReply.sequence reply) in
    out ← push_echo_reply_tail reply layout out;
    let out := vec_resize length 0 out in
    out ← copy_at payload_offset (EchoReply.payload reply) out;
    Envelope.finish out hmac_key.

Definition validate_echo_length (packet : bytes) (params : Params.t) (layout : PacketLayout)
    : PResult bool :=
  let header_len := PacketLayout.header_len layout in
  if decide (len packet < header_len) then Err (PacketTooShort header_len (len packet))
  else
    expected_len ← echo_packet_len (hmac layout) params;
    if decide (len packet = expected_len) then Ok false
    else
      let mismatch := Err (PacketLengthMismatch expected_len (len packet)) in
      if is_midpoint_single_clock params then
        let compat_len := midpoint_compat_packet_len layout expected_len in
        if bool_decide (expected_len < compat_len) && bool_decide (len packet = compat_len)
        then Ok true else mismatch
      else mismatch.

(** The midpoint timestamps, in the negotiated or the upstream form. *)
Definition read_midpoints (packet : bytes) (params : Params.t) (layout : PacketLayout)
    (midpoint_compat : bool) (pos : Z) : PResult (option Z * option Z * Z) :=
  if midpoint_compat then
    '(wall, pos) ← read_i64 packet pos;
    '(mono, pos) ← read_i64 packet pos;
    match Params.clock params with
    | Clock.Wall => Ok (Some wall, None, pos)
    | Clock.Monotonic => Ok (None, Some mono, pos)
    | Clock.Unspecified | Clock.Both => Panic
    end
  else
    '(wall, pos) ← then_read (midpoint_wall layout) read_i64 packet pos;
    '(mono, pos) ← then_read (midpoint_mono layout) read_i64 packet pos;
    Ok (wall, mono, pos).

Definition decode_echo_reply (packet : bytes) (params : Params.t) (hmac_key : option bytes)
    : PResult EchoReply.t :=
  envelope ← Envelope.decode packet hmac_key echo_reply_rules;
  let layout := PacketLayout.echo (Envelope.is_some hmac_key) params in
  midpoint_compat ← validate_echo_length packet params layout;
  _ ← Envelope.verify packet hmac_key;
  let header_len := PacketLayout.header_len layout +
                    (if (midpoint_compat : bool) then MIDPOINT_COMPAT_EXTRA else 0) in
  let pos := Envelope.body_offset envelope in
  '(token, pos) ← read_u64 packet pos;
  '(sequence, pos) ← read_u32 packet pos;
  '(rcount, pos) ← then_read (recv_count layout) read_u32 packet pos;
  '(rwindow, pos) ← then_read (recv_window layout) read_u64 packet pos;
  '(rwall, pos) ← then_read (recv_wall layout) read_i64 packet pos;
  '(rmono, pos) ← then_read (recv_mono layout) read_i64 packet pos;
  '(mwall, mmono, pos) ← read_midpoints packet params layout midpoint_compat pos;
  '(swall, pos) ← then_read (send_wall layout) read_i64 packet pos;
  '(smono, pos) ← then_read (send_mono layout) read_i64 packet pos;
  payload ← slice_from header_len packet;
  Ok (EchoReply.mk (Envelope.flags envelope) token sequence rcount rwindow
        (TimestampFields.mk rwall rmono mwall mmono swall smono) payload).

End codec.

(** ** A cursor into a packet *)

(** Position [pos] of [packet] is followed by [rest]. *)
Definition at_pos (packet : bytes) (pos : Z) (rest : bytes) : Prop :=
  0 ≤ pos ≤ len packet ∧ drop (Z.to_nat pos) packet = rest.

Lemma at_pos_slice packet pos a n rest :
  at_pos packet pos (a ++ rest) → n = len a →
  slice (E := ProtoError) pos (pos + n) packet = Ok a ∧ at_pos packet (pos + n) rest.
Proof.
  intros [Hp Hd] ->. assert (len (drop (Z.to_nat pos) packet) = len a + len rest) as Hl
    by (rewrite Hd; apply len_app). rewrite len_drop in Hl.
  pose proof (len_nonneg a). pose proof (len_nonneg rest). split.
  - rewrite slice_ok by lia. replace (pos + len a - pos) with (len a) by lia.
    rewrite Hd. unfold len. by rewrite Nat2Z.id, take_app_length.
  - split; [lia|]. rewrite Z2Nat.inj_add, <- drop_drop, Hd by lia.
    unfold len. by rewrite Nat2Z.id, drop_app_length.
Qed.

(** The bytes of an optional [n]-byte field. *)
Definition opt_field (n : Z) (v : option Z) : bytes :=
  match v with Some v => to_le n v | None => [] end.

(** The layout wants the field exactly when there is a value, in range. *)
Definition fits (ok : Z → Prop) (present : bool) (v : option Z) : Prop :=
  match present, v with true, Some x => ok x | false, None => True | _, _ => False end.

#[export] Instance fits_dec ok `{∀ z, Decision (ok z)} present v : Decision (fits ok present v).
Proof. destruct present, v; simpl; apply _. Defined.

Definition width (n : Z) (present : bool) : Z := if present then n else 0.

Lemma len_opt_field n ok present v :
  0 ≤ n → fits ok present v → len (opt_field n v) = width n present.
Proof. destruct present, v; simpl; try done. intros. by apply len_to_le. Qed.

Lemma opt_field_bytes n v : 0 ≤ n → bytes_ok (opt_field n v).
Proof. intros. destruct v; simpl; auto with irtt. Qed.

Lemma push_field_ok n ok present v name out :
  fits ok present v → push_field n present v name out = Ok (out ++ opt_field n v).
Proof. destruct present, v; simpl; try done. intros _. by rewrite app_nil_r. Qed.

Lemma push_field_err n ok present v name out :
  (∀ z, ok z) → ¬ fits ok present v → ∃ e, push_field n present v name out = Err e.
Proof. intros Hok. destruct present, v; simpl; unfold push_field; simpl; naive_solver. Qed.

Lemma to_le_wrap_i l : bytes_ok l → 1 ≤ len l → to_le (len l) (from_le_i (8 * len l) l) = l.
Proof.
  intros Hb Hl. etrans; [|by apply to_le_from_le].
  assert (∀ z, to_le (len l) z = to_le (len l) (z mod 2 ^ (8 * len l))) as Hmod.
  { intros z. unfold to_le.
    rewrite <- (to_le_from_le (Z_to_little_endian (len l) 8 z)) at 1
      by (apply Z_to_little_endian_bound; lia).
    fold (to_le (len l) z). rewrite len_to_le by lia. unfold to_le, from_le_u. f_equal.
    rewrite little_endian_to_Z_to_little_endian by lia. by rewrite (Z.mul_comm (len l)). }
  rewrite Hmod, (Hmod (from_le_u l)). f_equal. unfold from_le_i, wrap_i.
  assert (2 ^ (8 * len l) ≠ 0) by lia.
  rewrite Zminus_mod_idemp_l. f_equal. lia.
Qed.

Lemma read_u64_at packet pos v rest :
  at_pos packet pos (to_le 8 v ++ rest) → in_u 64 v →
  read_u64 packet pos = Ok (v, pos + 8) ∧ at_pos packet (pos + 8) rest.
Proof.
  intros Ha Hv. unfold read_u64, TOKEN_SIZE.
  destruct (at_pos_slice packet pos (to_le 8 v) 8 rest) as [-> ?]; [done|by rewrite len_to_le|].
  simpl. by rewrite (from_le_u_to_le 8).
Qed.

Lemma read_u32_at packet pos v rest :
  at_pos packet pos (to_le 4 v ++ rest) → in_u 32 v →
  read_u32 packet pos = Ok (v, pos + 4) ∧ at_pos packet (pos + 4) rest.
Proof.
  intros Ha Hv. unfold read_u32, SEQ_SIZE.
  destruct (at_pos_slice packet pos (to_le 4 v) 4 rest) as [-> ?]; [done|by rewrite len_to_le|].
  simpl. by rewrite (from_le_u_to_le 4).
Qed.

Lemma read_i64_at packet pos v rest :
  at_pos packet pos (to_le 8 v ++ rest) → in_i 64 v →
  read_i64 packet pos = Ok (v, pos + 8) ∧ at_pos packet (pos + 8) rest.
Proof.
  intros Ha Hv. unfold read_i64, TIMESTAMP_SIZE.
  destruct (at_pos_slice packet pos (to_le 8 v) 8 rest) as [-> ?]; [done|by rewrite len_to_le|].
  cbn [mbind Result_bind]. change 64 with (8 * 8). by rewrite from_le_i_to_le.
Qed.

(** A reader that reads back [n]-byte fields satisfying [ok]. *)
Definition reads (read : bytes → Z → PResult (Z * Z)) (n : Z) (ok : Z → Prop) : Prop :=
  ∀ packet pos v rest, at_pos packet pos (to_le n v ++ rest) → ok v →
    read packet pos = Ok (v, pos + n) ∧ at_pos packet (pos + n) rest.

Lemma then_read_at read n ok present packet pos v rest :
  reads read n ok → fits ok present v →
  at_pos packet pos (opt_field n v ++ rest) →
  then_read present read packet pos = Ok (v, pos + width n present) ∧
  at_pos packet (pos + width n present) rest.
Proof.
  intros Hr Hf Ha. destruct present, v as [v|]; simpl in *; try done.
  - destruct (Hr packet pos v rest Ha Hf) as [-> ?]. done.
  - by rewrite Z.add_0_r.
Qed.

Lemma reads_u32 : reads read_u32 4 (in_u 32).
Proof. intros ????. apply read_u32_at. Qed.
Lemma reads_u64 : reads read_u64 8 (in_u 64).
Proof. intros ????. apply read_u64_at. Qed.
Lemma reads_i64 : reads read_i64 8 (in_i 64).
Proof. intros ????. apply read_i64_at. Qed.

(** Any bytes are some field: the cursor can always be advanced in range. *)
Lemma at_pos_u packet pos n (present : bool) :
  bytes_ok packet → 0 ≤ pos → 0 ≤ n → pos + width n present ≤ len packet →
  ∃ v, fits (in_u (8 * n)) present v ∧
    drop (Z.to_nat pos) packet = opt_field n v ++ drop (Z.to_nat (pos + width n present)) packet.
Proof.
  intros Hb Hp Hn Hl. destruct present; simpl in *.
  - destruct (read_u_spec packet pos n) as (v & _ & Hv & Hd); [done..|].
    exists (Some v). done.
  - exists None. by rewrite Z.add_0_r.
Qed.

Lemma at_pos_i packet pos n (present : bool) :
  bytes_ok packet → 0 ≤ pos → 1 ≤ n → pos + width n present ≤ len packet →
  ∃ v, fits (in_i (8 * n)) present v ∧
    drop (Z.to_nat pos) packet = opt_field n v ++ drop (Z.to_nat (pos + width n present)) packet.
Proof.
  intros Hb Hp Hn Hl. destruct present; simpl in *.
  - set (s := take (Z.to_nat n) (drop (Z.to_nat pos) packet)).
    assert (len s = n) as Hs by (subst s; len_lia).
    assert (bytes_ok s) as Hbs by (subst s; auto with irtt).
    exists (Some (from_le_i (8 * n) s)). split; [apply wrap_i_range; lia|].
    simpl. pose proof (to_le_wrap_i s Hbs) as Hw. rewrite Hs in Hw. rewrite Hw by lia.
    apply drop_split_slices; lia.
  - exists None. by rewrite Z.add_0_r.
Qed.

Lemma width_nonneg n (present : bool) : 0 ≤ n → 0 ≤ width n present.
Proof. by destruct present. Qed.

Section theory.
Context `{Target} `{!HmacMd5}.
Implicit Types (key : option bytes) (p : Params.t) (r : EchoReply.t).

(** The fields of a reply that fit the negotiated layout. *)
Record tail_fits (l : PacketLayout) r : Prop := {
  tf_token : in_u 64 (EchoReply.token r);
  tf_sequence : in_u 32 (EchoReply.sequence r);
  tf_count : fits (in_u 32) (recv_count l) (EchoReply.recv_count r);
  tf_window : fits (in_u 64) (recv_window l) (EchoReply.recv_window r);
  tf_rw : fits (in_i 64) (recv_wall l) (TimestampFields.recv_wall (EchoReply.timestamps r));
  tf_rm : fits (in_i 64) (recv_mono l) (TimestampFields.recv_mono (EchoReply.timestamps r));
  tf_mw : fits (in_i 64) (midpoint_wall l)
    (TimestampFields.midpoint_wall (EchoReply.timestamps r));
  tf_mm : fits (in_i 64) (midpoint_mono l)
    (TimestampFields.midpoint_mono (EchoReply.timestamps r));
  tf_sw : fits (in_i 64) (send_wall l) (TimestampFields.send_wall (EchoReply.timestamps r));
  tf_sm : fits (in_i 64) (send_mono l) (TimestampFields.send_mono (EchoReply.timestamps r));
}.

(** The bytes of the optional fields, midpoints given by [mids]. *)
Definition echo_fields r (mids : bytes) : bytes :=
  let t := EchoReply.timestamps r in
  opt_field 4 (EchoReply.recv_count r) ++ opt_field 8 (EchoReply.recv_window r) ++
  opt_field 8 (TimestampFields.recv_wall t) ++ opt_field 8 (TimestampFields.recv_mono t) ++
  mids ++
  opt_field 8 (TimestampFields.send_wall t) ++ opt_field 8 (TimestampFields.send_mono t).

Definition midpoints r : bytes :=
  opt_field 8 (TimestampFields.midpoint_wall (EchoReply.timestamps r)) ++
  opt_field 8 (TimestampFields.midpoint_mono (EchoReply.timestamps r)).

Definition echo_body r (mids rest : bytes) : bytes :=
  to_le TOKEN_SIZE (EchoReply.token r) ++ to_le SEQ_SIZE (EchoReply.sequence r) ++
  echo_fields r mids ++ rest.

Definition stamps_len (l : PacketLayout) : Z :=
  width 8 (recv_wall l) + width 8 (recv_mono l) + width 8 (midpoint_wall l) +
  width 8 (midpoint_mono l) + width 8 (send_wall l) + width 8 (send_mono l).

Lemma timestamp_count_stamps l : PacketLayout.timestamp_count l * TIMESTAMP_SIZE = stamps_len l.
Proof.
  destruct l as [? ? ? ? ? [] [] [] [] [] []]; reflexivity.
Qed.

Lemma echo_header_len_sum (h : bool) p :
  let l := PacketLayout.echo h p in
  PacketLayout.header_len l = 16 + width 16 h + width 4 (recv_count l) + width 8 (recv_window l)
                              + stamps_len l.
Proof.
  simpl. unfold PacketLayout.header_len. rewrite timestamp_count_stamps.
  unfold HEADER_SIZE, HMAC_SIZE, TOKEN_SIZE, SEQ_SIZE, RECV_COUNT_SIZE, RECV_WINDOW_SIZE, width.
  simpl. lia.
Qed.

Lemma tail_fits_len l r mids :
  tail_fits l r → len mids = width 8 (midpoint_wall l) + width 8 (midpoint_mono l) →
  len (echo_fields r mids) = width 4 (recv_count l) + width 8 (recv_window l) + stamps_len l.
Proof.
  intros [] Hm. unfold echo_fields, stamps_len. rewrite !len_app, Hm.
  by erewrite !len_opt_field by (done || eassumption); lia.
Qed.

Lemma midpoints_len l r :
  tail_fits l r → len (midpoints r) = width 8 (midpoint_wall l) + width 8 (midpoint_mono l).
Proof. intros []. unfold midpoints. rewrite len_app. by erewrite !len_opt_field. Qed.

Lemma push_tail_ok l r out :
  tail_fits l r → push_echo_reply_tail r l out = Ok (out ++ echo_fields r (midpoints r)).
Proof.
  intros []. unfold push_echo_reply_tail, timestamp_fields, push_timestamps.
  unfold RECV_COUNT_SIZE, RECV_WINDOW_SIZE, TIMESTAMP_SIZE.
  do 8 (erewrite push_field_ok by eassumption; cbn [mbind Result_bind]).
  unfold echo_fields, midpoints. by rewrite <- !app_assoc.
Qed.

(** The midpoint bytes of a packet from which [r] is read. *)
Definition midpoint_bytes (compat : bool) p r (mids : bytes) : Prop :=
  if compat then
    ∃ w m, in_i 64 w ∧ in_i 64 m ∧ mids = to_le 8 w ++ to_le 8 m ∧
      match Params.clock p with
      | Clock.Wall => TimestampFields.midpoint_wall (EchoReply.timestamps r) = Some w ∧
                      TimestampFields.midpoint_mono (EchoReply.timestamps r) = None
      | Clock.Monotonic => TimestampFields.midpoint_wall (EchoReply.timestamps r) = None ∧
                           TimestampFields.midpoint_mono (EchoReply.timestamps r) = Some m
      | _ => False
      end
  else mids = midpoints r.

Definition compat_extra (compat : bool) : Z := if compat then MIDPOINT_COMPAT_EXTRA else 0.

Lemma is_midpoint_single_clock_layout p (h : bool) :
  is_midpoint_single_clock p = true →
  width 8 (midpoint_wall (PacketLayout.echo h p)) +
  width 8 (midpoint_mono (PacketLayout.echo h p)) = 8.
Proof.
  unfold is_midpoint_single_clock. simpl. by destruct (Params.stamp_at p), (Params.clock p).
Qed.

Lemma read_midpoints_at compat p (h : bool) r packet pos mids rest :
  tail_fits (PacketLayout.echo h p) r →
  midpoint_bytes compat p r mids →
  at_pos packet pos (mids ++ rest) →
  read_midpoints packet p (PacketLayout.echo h p) compat pos
  = Ok (TimestampFields.midpoint_wall (EchoReply.timestamps r),
        TimestampFields.midpoint_mono (EchoReply.timestamps r), pos + len mids) ∧
  at_pos packet (pos + len mids) rest.
Proof.
  intros Hf Hm Ha. unfold read_midpoints. destruct compat; cbn [midpoint_bytes] in Hm.
  - destruct Hm as (w & m & Hw & Hmo & -> & Hc). rewrite <- app_assoc in Ha.
    apply read_i64_at in Ha as [-> Ha]; [|done]. cbn [mbind Result_bind].
    apply read_i64_at in Ha as [-> Ha]; [|done]. cbn [mbind Result_bind].
    rewrite len_app, !len_to_le by lia.
    replace (pos + (8 + 8)) with (pos + 8 + 8) by lia.
    by destruct (Params.clock p); try done; destruct Hc as [-> ->].
  - subst mids. pose proof (midpoints_len _ r Hf) as Hl. unfold midpoints in *.
    rewrite <- app_assoc in Ha. destruct Hf.
    eapply then_read_at in Ha as [-> Ha]; [|apply reads_i64|done]. cbn [mbind Result_bind].
    eapply then_read_at in Ha as [-> Ha]; [|apply reads_i64|done]. cbn [mbind Result_bind].
    rewrite Hl. by rewrite Z.add_assoc.
Qed.

Lemma midpoint_bytes_len compat p (h : bool) r mids :
  tail_fits (PacketLayout.echo h p) r → is_midpoint_single_clock p || negb compat = true →
  midpoint_bytes compat p r mids →
  len mids = width 8 (midpoint_wall (PacketLayout.echo h p)) +
             width 8 (midpoint_mono (PacketLayout.echo h p)) + compat_extra compat.
Proof.
  intros Hf Hs Hm. destruct compat; cbn [midpoint_bytes negb compat_extra] in *.
  - destruct Hm as (w & m & _ & _ & -> & _). rewrite orb_false_r in Hs.
    pose proof (is_midpoint_single_clock_layout p h Hs) as ->.
    rewrite len_app, !len_to_le by lia. done.
  - subst mids. rewrite (midpoints_len _ r Hf). lia.
Qed.

(** The decoder reads off exactly the fields the bytes hold. *)
Lemma decode_echo_reply_at packet p key e compat r mids :
  Envelope.decode packet key echo_reply_rules = Ok e →
  validate_echo_length packet p (PacketLayout.echo (Envelope.is_some key) p) = Ok compat →
  Envelope.verify packet key = Ok tt →
  is_midpoint_single_clock p || negb compat = true →
  tail_fits (PacketLayout.echo (Envelope.is_some key) p) r →
  midpoint_bytes compat p r mids →
  EchoReply.flags r = Envelope.flags e →
  at_pos packet (Envelope.body_offset e) (echo_body r mids (EchoReply.payload r)) →
  decode_echo_reply packet p key = Ok r.
Proof.
  intros He Hv Hver Hs Hf Hm Hfl Ha. unfold decode_echo_reply.
  rewrite He. cbn [mbind Result_bind]. cbv zeta. rewrite Hv. cbn [mbind Result_bind].
  rewrite Hver. cbn [mbind Result_bind].
  pose proof (midpoint_bytes_len _ _ _ _ _ Hf Hs Hm) as Hml.
  pose proof (echo_header_len_sum (Envelope.is_some key) p) as Hh. cbv zeta in Hh. rewrite Hh.
  clear Hh. apply decode_inv in He as (He & _ & Hk). apply bind_ok in He as (f & _ & <-%Ok_inj).
  cbn [Envelope.flags Envelope.body_offset] in *. rewrite Hk in Ha |- *.
  pose proof Hf as []. set (l := PacketLayout.echo (Envelope.is_some key) p) in *.
  unfold echo_body, echo_fields in Ha. rewrite <- !(app_assoc _ _ (EchoReply.payload r)) in Ha.
  apply read_u64_at in Ha as [-> Ha]; [|done]. cbn [mbind Result_bind].
  apply read_u32_at in Ha as [-> Ha]; [|done]. cbn [mbind Result_bind].
  eapply then_read_at in Ha as [-> Ha]; [|apply reads_u32|done]. cbn [mbind Result_bind].
  eapply then_read_at in Ha as [-> Ha]; [|apply reads_u64|done]. cbn [mbind Result_bind].
  do 2 (eapply then_read_at in Ha as [-> Ha]; [|apply reads_i64|done]; cbn [mbind Result_bind]).
  apply (read_midpoints_at compat p (Envelope.is_some key) r) in Ha as [Hrm Ha]; [|done|done].
  fold l in Hrm. rewrite Hrm. cbn [mbind Result_bind].
  do 2 (eapply then_read_at in Ha as [-> Ha]; [|apply reads_i64|done]; cbn [mbind Result_bind]).
  destruct Ha as [Hp Hd].
  match goal with |- context [slice_from ?a _] => match type of Hp with _ ≤ ?b ≤ _ =>
    assert (a = b) as -> end end.
  { rewrite Hml. unfold stamps_len, compat_extra, HEADER_SIZE, HMAC_SIZE, width.
    destruct (Envelope.is_some key); lia. }
  rewrite slice_from_ok by done. rewrite Hd. cbn [mbind Result_bind]. rewrite <- Hfl.
  by destruct r as [? ? ? ? ? [] ?].
Qed.

(** ** Encoding, then decoding *)

Record echo_reply_ok p key r : Prop := {
  er_flags : flags_ok (EchoReply.flags r);
  er_open : has (EchoReply.flags r) FLAG_OPEN = false;
  er_reply : has (EchoReply.flags r) FLAG_REPLY = true;
  er_tail : tail_fits (PacketLayout.echo (Envelope.is_some key) p) r;
  er_length : Params.length p ≤ USIZE_MAX;
  er_payload : bytes_ok (EchoReply.payload r);
  er_payload_len :
    len (EchoReply.payload r) ≤
      Z.max (echo_header_len (Envelope.is_some key) p) (Z.max 0 (Params.length p))
      - echo_header_len (Envelope.is_some key) p;
}.

(** The negotiated datagram length. *)
Definition negotiated_len (h : bool) p : Z :=
  Z.max (echo_header_len h p) (Z.max 0 (Params.length p)).

(** A reply's payload as the receiver sees it: padded to the negotiated length. *)
Definition padded_payload p (h : bool) r : bytes :=
  EchoReply.payload r ++
  zeros (negotiated_len h p - echo_header_len h p - len (EchoReply.payload r)).

Definition set_wire r (flags : Z) (payload : bytes) : EchoReply.t :=
  EchoReply.mk flags (EchoReply.token r) (EchoReply.sequence r) (EchoReply.recv_count r)
    (EchoReply.recv_window r) (EchoReply.timestamps r) payload.

Lemma echo_rules_hold f a :
  flags_ok f → has f FLAG_OPEN = false → has f FLAG_REPLY = true →
  Envelope.require_flags (Envelope.with_hmac_flag f a) echo_reply_rules = Ok tt.
Proof.
  intros Hf Ho Hr. destruct (with_hmac_flag_spec f a Hf) as (_ & _ & _ & Hb). simpl.
  rewrite has_open, has_reply in *. by rewrite !Hb, Ho, Hr by lia.
Qed.

Lemma encode_echo_reply_ok p key r :
  echo_reply_ok p key r →
  encode_echo_reply r p key = Ok (sealed key
    (Envelope.with_hmac_flag (EchoReply.flags r) (Envelope.is_some key))
    (echo_body r (midpoints r) (padded_payload p (Envelope.is_some key) r))).
Proof.
  intros []. unfold encode_echo_reply.
  rewrite echo_packet_len_spec, decide_True by done. cbn [mbind Result_bind]. cbv zeta.
  fold (echo_header_len (Envelope.is_some key) p). pose proof (len_nonneg (EchoReply.payload r)).
  rewrite decide_False by lia.
  rewrite begin_checked_ok by (try apply echo_rules_hold; done). cbn [mbind Result_bind].
  erewrite push_tail_ok by done. cbn [mbind Result_bind].
  pose proof (tail_fits_len _ r (midpoints r) er_tail0 (midpoints_len _ r er_tail0)) as Hl.
  pose proof (echo_header_len_sum (Envelope.is_some key) p) as Hs. cbv zeta in Hs.
  fold (echo_header_len (Envelope.is_some key) p) in Hs.
  match goal with |- context [vec_resize _ _ ?o] =>
    assert (len o = echo_header_len (Envelope.is_some key) p) as Ho end.
  { rewrite !len_app, Hl, !len_to_le, <- len_app, len_begin, Hs by done.
    unfold HEADER_SIZE, auth_len, TOKEN_SIZE, SEQ_SIZE, HMAC_SIZE, width.
    destruct (Envelope.is_some key); lia. }
  rewrite resize_copy by (rewrite ?Ho; lia). rewrite Ho, Z.sub_diag. cbn [mbind Result_bind].
  change (zeros 0) with (@nil Z). rewrite app_nil_l.
  unfold echo_body, padded_payload, negotiated_len. rewrite <- !(app_assoc (_ ++ _)).
  apply finish_sealed.
Qed.

Lemma len_echo_body r (l : PacketLayout) mids rest :
  tail_fits l r → len (echo_body r mids rest) =
    12 + width 4 (recv_count l) + width 8 (recv_window l) + stamps_len l +
    (len mids - width 8 (midpoint_wall l) - width 8 (midpoint_mono l)) + len rest.
Proof.
  intros []. unfold echo_body, echo_fields, stamps_len.
  rewrite !len_app, !len_to_le by done.
  erewrite !len_opt_field by (done || eassumption). unfold TOKEN_SIZE, SEQ_SIZE. lia.
Qed.

Lemma len_sealed_echo key f p r mids rest :
  tail_fits (PacketLayout.echo (Envelope.is_some key) p) r →
  len (sealed key f (echo_body r mids rest)) =
    echo_header_len (Envelope.is_some key) p +
    (len mids - width 8 (midpoint_wall (PacketLayout.echo (Envelope.is_some key) p))
              - width 8 (midpoint_mono (PacketLayout.echo (Envelope.is_some key) p))) + len rest.
Proof.
  intros Hf. rewrite len_sealed, (len_echo_body _ _ _ _ Hf).
  pose proof (echo_header_len_sum (Envelope.is_some key) p) as Hs. cbv zeta in Hs.
  fold (echo_header_len (Envelope.is_some key) p) in Hs. rewrite Hs.
  assert (HEADER_SIZE + auth_len key = 4 + width 16 (Envelope.is_some key)) as Ha
    by (unfold auth_len; by destruct (Envelope.is_some key)). lia.
Qed.

Lemma at_pos_sealed key f body :
  at_pos (sealed key f body) (HEADER_SIZE + auth_len key) body.
Proof.
  assert (0 ≤ auth_len key) by (unfold auth_len; by destruct (Envelope.is_some key)).
  pose proof (len_nonneg body). unfold HEADER_SIZE in *. split.
  - rewrite len_sealed. unfold HEADER_SIZE in *. lia.
  - pose proof (body_of_sealed key f body (HEADER_SIZE + auth_len key) eq_refl) as Hb.
    unfold slice_from in Hb. by case_decide; [injection Hb|].
Qed.

(** A sealed echo reply in either form decodes to its fields. *)
Lemma decode_sealed_echo p key f compat r mids :
  flags_ok f → has f FLAG_OPEN = false → has f FLAG_REPLY = true →
  has f FLAG_HMAC = Envelope.is_some key → EchoReply.flags r = f →
  tail_fits (PacketLayout.echo (Envelope.is_some key) p) r →
  midpoint_bytes compat p r mids →
  is_midpoint_single_clock p || negb compat = true →
  Params.length p ≤ USIZE_MAX →
  (let total := len (sealed key f (echo_body r mids (EchoReply.payload r))) in
   if compat then total = Z.max (echo_header_len (Envelope.is_some key) p + 8)
                             (negotiated_len (Envelope.is_some key) p) ∧
                  negotiated_len (Envelope.is_some key) p < total
   else total = negotiated_len (Envelope.is_some key) p) →
  decode_echo_reply (sealed key f (echo_body r mids (EchoReply.payload r))) p key = Ok r.
Proof.
  cbv zeta. intros Hf Ho Hre Hh Hfl Ht Hm Hs Hu Htot. eapply decode_echo_reply_at.
  - apply decode_sealed; [done..|]. simpl. by rewrite Ho, Hre.
  - unfold validate_echo_length.
    pose proof (len_sealed_echo key f p r mids (EchoReply.payload r) Ht) as Hl.
    rewrite (midpoint_bytes_len _ _ _ _ _ Ht Hs Hm) in Hl.
    pose proof (len_nonneg (EchoReply.payload r)).
    fold (echo_header_len (Envelope.is_some key) p).
    change (hmac (PacketLayout.echo (Envelope.is_some key) p)) with (Envelope.is_some key).
    rewrite decide_False.
    2:{ rewrite Hl. destruct compat; unfold compat_extra, MIDPOINT_COMPAT_EXTRA, TIMESTAMP_SIZE;
        lia. }
    rewrite echo_packet_len_spec, decide_True by done. cbn [mbind Result_bind]. cbv zeta.
    fold (negotiated_len (Envelope.is_some key) p). instantiate (1 := compat).
    destruct compat; [|by rewrite decide_True].
    destruct Htot as [Ht1 Ht2]. rewrite decide_False by lia.
    rewrite orb_false_r in Hs. rewrite Hs. unfold midpoint_compat_packet_len.
    fold (echo_header_len (Envelope.is_some key) p).
    rewrite !bool_decide_true; [done|done|].
    unfold MIDPOINT_COMPAT_EXTRA, TIMESTAMP_SIZE. lia.
  - apply verify_sealed.
  - done.
  - done.
  - done.
  - done.
  - apply at_pos_sealed.
Qed.

Lemma decode_encode_echo_reply p key r pkt :
  echo_reply_ok p key r → encode_echo_reply r p key = Ok pkt →
  len pkt = negotiated_len (Envelope.is_some key) p ∧
  decode_echo_reply pkt p key
  = Ok (set_wire r (Envelope.with_hmac_flag (EchoReply.flags r) (Envelope.is_some key))
                   (padded_payload p (Envelope.is_some key) r)).
Proof.
  intros Hr. rewrite encode_echo_reply_ok by done. intros <-%Ok_inj.
  set (h := Envelope.is_some key). set (f := Envelope.with_hmac_flag _ _).
  set (r' := set_wire r f (padded_payload p h r)). pose proof Hr as [].
  destruct (with_hmac_flag_spec (EchoReply.flags r) h) as (Hf & Hh & _ & Hb); [done|].
  change (echo_body r (midpoints r) (padded_payload p h r))
    with (echo_body r' (midpoints r') (EchoReply.payload r')).
  assert (tail_fits (PacketLayout.echo h p) r') as Ht by by destruct er_tail0.
  assert (len (sealed key f (echo_body r' (midpoints r') (EchoReply.payload r')))
          = negotiated_len h p) as Hl.
  { subst h. rewrite (len_sealed_echo _ _ p), (midpoints_len _ _ Ht) by done.
    unfold r', set_wire. simpl EchoReply.payload. unfold padded_payload.
    rewrite len_app, len_zeros; unfold negotiated_len; lia. }
  split; [done|]. apply (decode_sealed_echo p key f false r'); try done; subst f h.
  - rewrite has_open in *. rewrite Hb by lia. done.
  - rewrite has_reply in *. rewrite Hb by lia. done.
  - by rewrite orb_true_r.
Qed.

(** ** What the decoder accepts *)

Lemma validate_echo_length_inv packet p (h : bool) compat :
  validate_echo_length packet p (PacketLayout.echo h p) = Ok compat →
  Params.length p ≤ USIZE_MAX ∧ is_midpoint_single_clock p || negb compat = true ∧
  echo_header_len h p + compat_extra compat ≤ len packet ∧
  len packet = (if compat then Z.max (echo_header_len h p + 8) (negotiated_len h p)
                else negotiated_len h p) ∧
  (compat = true → negotiated_len h p < len packet).
Proof.
  unfold validate_echo_length. fold (echo_header_len h p). case_decide as Hl; [done|].
  change (hmac (PacketLayout.echo h p)) with h. rewrite echo_packet_len_spec.
  case_decide as Hu; [|done]. cbn [mbind Result_bind]. fold (negotiated_len h p).
  case_decide as He.
  - intros [= <-]. rewrite orb_true_r. unfold compat_extra. repeat split; try done; lia.
  - destruct (is_midpoint_single_clock p); [|done]. unfold midpoint_compat_packet_len.
    fold (echo_header_len h p). unfold MIDPOINT_COMPAT_EXTRA, TIMESTAMP_SIZE.
    case_bool_decide; [|done]. case_bool_decide; [|done]. intros [= <-].
    unfold compat_extra, MIDPOINT_COMPAT_EXTRA, TIMESTAMP_SIZE. repeat split; try done; lia.
Qed.

Lemma validate_echo_length_no_panic packet p l : no_panic (validate_echo_length packet p l).
Proof.
  unfold validate_echo_length. case_decide; [done|].
  apply no_panic_bind; [auto with irtt|]. intros n _. case_decide; [done|].
  destruct (is_midpoint_single_clock p); [|done]. cbv zeta. by destruct (_ && _).
Qed.

(** Any long enough byte string is the encoding of some fields. *)
Lemma bytes_are_echo packet p (h compat : bool) :
  bytes_ok packet →
  is_midpoint_single_clock p || negb compat = true →
  echo_header_len h p + compat_extra compat ≤ len packet →
  ∀ f, ∃ r mids, EchoReply.flags r = f ∧ tail_fits (PacketLayout.echo h p) r ∧
    midpoint_bytes compat p r mids ∧ bytes_ok (EchoReply.payload r) ∧
    len (EchoReply.payload r) = len packet - echo_header_len h p - compat_extra compat ∧
    at_pos packet (HEADER_SIZE + width 16 h) (echo_body r mids (EchoReply.payload r)).
Proof.
  intros Hb Hs Hl f. pose proof (echo_header_len_sum h p) as Hh. cbv zeta in Hh.
  fold (echo_header_len h p) in Hh. unfold stamps_len in Hh.
  pose proof (is_midpoint_single_clock_layout p h) as Hmid. set (l := PacketLayout.echo h p) in *.
  pose proof (width_nonneg 16 h ltac:(done)). pose proof (width_nonneg 4 (recv_count l) ltac:(done)).
  pose proof (width_nonneg 8 (recv_window l) ltac:(done)). pose proof (width_nonneg 8 (recv_wall l) ltac:(done)).
  pose proof (width_nonneg 8 (recv_mono l) ltac:(done)). pose proof (width_nonneg 8 (send_wall l) ltac:(done)).
  pose proof (width_nonneg 8 (send_mono l) ltac:(done)). pose proof (width_nonneg 8 (midpoint_wall l) ltac:(done)).
  pose proof (width_nonneg 8 (midpoint_mono l) ltac:(done)). pose proof (width_nonneg 8 compat ltac:(done)).
  assert (16 + width 16 h + width 4 (recv_count l) + width 8 (recv_window l) +
    width 8 (recv_wall l) + width 8 (recv_mono l) + width 8 (midpoint_wall l) +
    width 8 (midpoint_mono l) + width 8 (send_wall l) + width 8 (send_mono l) +
    width 8 compat ≤ len packet) as Hlen.
  { rewrite Hh in Hl. unfold compat_extra, MIDPOINT_COMPAT_EXTRA, TIMESTAMP_SIZE in Hl.
    destruct compat; [change (width 8 true) with 8|change (width 8 false) with 0]; lia. }
  set (p0 := HEADER_SIZE + width 16 h). assert (p0 = 4 + width 16 h) as Hp0 by done.
  clearbody p0.
  destruct (at_pos_u packet p0 8 true) as ([tk|] & Htk & Dtk); [done|lia|lia|change (width 8 true) with 8; lia| |done].
  destruct (at_pos_u packet (p0 + 8) 4 true) as ([sq|] & Hsq & Dsq);
    [done|lia|lia|change (width 4 true) with 4; lia| |done].
  change (width 8 true) with 8 in *. change (width 4 true) with 4 in *. set (p1 := p0 + 8 + 4) in *.
  destruct (at_pos_u packet p1 4 (recv_count l)) as (rc & Hrc & Drc); [done|lia..|].
  set (p2 := p1 + _) in *.
  destruct (at_pos_u packet p2 8 (recv_window l)) as (rw & Hrw & Drw); [done|lia..|].
  set (p3 := p2 + _) in *.
  destruct (at_pos_i packet p3 8 (recv_wall l)) as (a & Ha & Da); [done|lia..|].
  set (p4 := p3 + _) in *.
  destruct (at_pos_i packet p4 8 (recv_mono l)) as (b & Hbm & Db); [done|lia..|].
  set (p5 := p4 + _) in *.
  set (w1 := compat || midpoint_wall l). set (w2 := compat || midpoint_mono l).
  assert (width 8 w1 + width 8 w2 = width 8 (midpoint_wall l) + width 8 (midpoint_mono l)
          + width 8 compat) as Hw12.
  { subst w1 w2. destruct compat; cbn [orb].
    - rewrite orb_false_r in Hs. specialize (Hmid Hs). change (width 8 true) with 8. lia.
    - change (width 8 false) with 0. lia. }
  pose proof (width_nonneg 8 w1 ltac:(done)). pose proof (width_nonneg 8 w2 ltac:(done)).
  destruct (at_pos_i packet p5 8 w1) as (c & Hc & Dc); [done|lia..|].
  set (p6 := p5 + _) in *.
  destruct (at_pos_i packet p6 8 w2) as (d & Hd & Dd); [done|lia..|].
  set (p7 := p6 + _) in *.
  destruct (at_pos_i packet p7 8 (send_wall l)) as (e & He & De); [done|lia..|].
  set (p8 := p7 + _) in *.
  destruct (at_pos_i packet p8 8 (send_mono l)) as (g & Hg & Dg); [done|lia..|].
  set (p9 := p8 + _) in *.
  set (c' := if midpoint_wall l then c else None). set (d' := if midpoint_mono l then d else None).
  exists (EchoReply.mk f tk sq rc rw (TimestampFields.mk a b c' d' e g) (drop (Z.to_nat p9) packet)),
    (opt_field 8 c ++ opt_field 8 d).
  split; [done|]. split; [|split; [|split; [|split; [|split]]]].
  - constructor; try done; subst w1 w2.
    + change (fits (in_i 64) (midpoint_wall l) c'). subst c'. destruct (midpoint_wall l); [|done]. by rewrite orb_true_r in Hc.
    + change (fits (in_i 64) (midpoint_mono l) d'). subst d'. destruct (midpoint_mono l); [|done]. by rewrite orb_true_r in Hd.
  - unfold midpoint_bytes, midpoints. cbn [EchoReply.timestamps TimestampFields.midpoint_wall
      TimestampFields.midpoint_mono]. subst c' d'.
    destruct compat; cbn [orb] in w1, w2; subst w1 w2.
    + destruct c as [c|], d as [d|]; try done. rewrite orb_false_r in Hs.
      exists c, d. do 3 (split; [done|]). unfold is_midpoint_single_clock in Hs.
      subst l. cbn [midpoint_wall midpoint_mono PacketLayout.echo].
      apply andb_prop in Hs as [-> Hs]. by destruct (Params.clock p).
    + clear -Hc Hd. clearbody l. by destruct (midpoint_wall l), (midpoint_mono l), c, d.
  - simpl. auto with irtt.
  - simpl. rewrite len_drop. unfold compat_extra, MIDPOINT_COMPAT_EXTRA, TIMESTAMP_SIZE.
    rewrite Z2Nat.id by lia. rewrite Hh.
    destruct compat; [change (width 8 true) with 8 in *|change (width 8 false) with 0 in *]; lia.
  - lia.
  - unfold echo_body, echo_fields. rewrite Dtk, Dsq, Drc, Drw, Da, Db, Dc, Dd, De, Dg.
    by rewrite <- !app_assoc.
Qed.

Lemma decode_echo_reply_classify packet p key :
  bytes_ok packet →
  match decode_echo_reply packet p key with
  | Ok r =>
      ∃ e compat mids, Envelope.decode packet key echo_reply_rules = Ok e ∧
        EchoReply.flags r = Envelope.flags e ∧
        validate_echo_length packet p (PacketLayout.echo (Envelope.is_some key) p) = Ok compat ∧
        Envelope.verify packet key = Ok tt ∧
        tail_fits (PacketLayout.echo (Envelope.is_some key) p) r ∧
        midpoint_bytes compat p r mids ∧ bytes_ok (EchoReply.payload r) ∧
        len (EchoReply.payload r)
          = len packet - echo_header_len (Envelope.is_some key) p - compat_extra compat ∧
        at_pos packet (Envelope.body_offset e) (echo_body r mids (EchoReply.payload r))
  | Err err =>
      Envelope.decode packet key echo_reply_rules = Err err ∨
      validate_echo_length packet p (PacketLayout.echo (Envelope.is_some key) p) = Err err ∨
      Envelope.verify packet key = Err err
  | Panic => False
  end.
Proof.
  intros Hb.
  destruct (Envelope.decode packet key echo_reply_rules) as [e|err|] eqn:He.
  - destruct (validate_echo_length packet p (PacketLayout.echo (Envelope.is_some key) p))
      as [compat|err|] eqn:Hv.
    + destruct (Envelope.verify packet key) as [[]|err|] eqn:Hver.
      * apply validate_echo_length_inv in Hv as Hv'. destruct Hv' as (_ & Hs & Hl & _ & _).
        destruct (bytes_are_echo packet p (Envelope.is_some key) compat Hb Hs Hl (Envelope.flags e))
          as (r & mids & Hfl & Ht & Hm & Hbp & Hlp & Ha).
        assert (Envelope.body_offset e = HEADER_SIZE + width 16 (Envelope.is_some key)) as Hbo.
        { apply decode_inv in He as (He & _ & Hk). apply bind_ok in He as (f & _ & <-%Ok_inj).
          cbn [Envelope.flags Envelope.body_offset] in *. by rewrite Hk. }
        rewrite <- Hbo in Ha.
        rewrite (decode_echo_reply_at packet p key e compat r mids) by done.
        exists e, compat, mids. done.
      * unfold decode_echo_reply. rewrite He. cbn [mbind Result_bind]. cbv zeta.
        rewrite Hv. cbn [mbind Result_bind]. rewrite Hver. by right; right.
      * by destruct (verify_no_panic packet key).
    + unfold decode_echo_reply. rewrite He. cbn [mbind Result_bind]. cbv zeta.
      rewrite Hv. by right; left.
    + by destruct (validate_echo_length_no_panic packet p
        (PacketLayout.echo (Envelope.is_some key) p)).
  - unfold decode_echo_reply. rewrite He. by left.
  - assert (no_panic (Envelope.decode packet key echo_reply_rules)) as Hn by auto with irtt.
    by destruct Hn.
Qed.

Lemma decode_echo_reply_no_panic packet p key :
  bytes_ok packet → no_panic (decode_echo_reply packet p key).
Proof.
  intros Hb Hn. pose proof (decode_echo_reply_classify packet p key Hb) as Hc. by rewrite Hn in Hc.
Qed.

End theory.
#[export] Hint Resolve decode_echo_reply_no_panic : irtt.

(** ** Properties *)

(** C26: an echo reply whose fields match the negotiated layout encodes to a
    packet of exactly the negotiated length, and decodes under the same key and
    parameters to the same fields, the payload padded with zeros. *)
Theorem echo_reply_roundtrip `{Target} `{!HmacMd5} p key r :
  echo_reply_ok p key r →
  ∃ pkt, encode_echo_reply r p key = Ok pkt ∧
    echo_packet_len (Envelope.is_some key) p = Ok (len pkt) ∧
    decode_echo_reply pkt p key
    = Ok (set_wire r (Envelope.with_hmac_flag (EchoReply.flags r) (Envelope.is_some key))
                     (padded_payload p (Envelope.is_some key) r)).
Proof.
  intros Hr. pose proof (encode_echo_reply_ok p key r Hr) as He.
  destruct (decode_encode_echo_reply p key r _ Hr He) as [Hl Hd].
  eexists. split; [exact He|]. split; [|exact Hd].
  rewrite echo_packet_len_spec, decide_True by apply Hr. by rewrite Hl.
Qed.

Definition example_echo_reply : EchoReply.t :=
  EchoReply.mk 2 9 5 (Some 3) None
    (TimestampFields.mk (Some (-1)) None None None (Some 8) None) [1; 2].

Lemma example_echo_reply_ok : @echo_reply_ok target64 example_params (Some [3]) example_echo_reply.
Proof.
  split; [by unfold flags_ok | reflexivity | reflexivity | | vm_compute; congruence | decide_now
         | vm_compute; congruence].
  split; simpl; unfold in_u, in_i; lia.
Qed.

Lemma echo_reply_roundtrip_witness :
  match @encode_echo_reply target64 toy_hmac example_echo_reply example_params (Some [3]) with
  | Ok pkt => @decode_echo_reply target64 toy_hmac pkt example_params (Some [3])
      = Ok (set_wire example_echo_reply 10 ([1; 2] ++ zeros 6))
  | _ => False end.
Proof.
  destruct (@echo_reply_roundtrip target64 toy_hmac example_params (Some [3]) example_echo_reply
    example_echo_reply_ok) as (pkt & He & _ & Hd).
  rewrite He. exact Hd.
Defined.

(** On arbitrary bytes and any negotiated parameters the echo-reply decoder
    never panics (its [unreachable!] included); what it accepts has the reply
    flag and not the open flag, verifies under the key, has exactly the optional
    fields the negotiated layout asks for, and has the negotiated length or, for
    a single-clock midpoint negotiation, the strictly longer upstream length. *)
Theorem echo_reply_decode_safe `{Target} `{!HmacMd5} packet p key :
  bytes_ok packet →
  match decode_echo_reply packet p key with
  | Ok r =>
      has (EchoReply.flags r) FLAG_OPEN = false ∧ has (EchoReply.flags r) FLAG_REPLY = true ∧
      has (EchoReply.flags r) FLAG_HMAC = Envelope.is_some key ∧
      Envelope.verify packet key = Ok tt ∧
      tail_fits (PacketLayout.echo (Envelope.is_some key) p) r ∧
      (len packet = negotiated_len (Envelope.is_some key) p ∨
       is_midpoint_single_clock p = true ∧
       len packet = echo_header_len (Envelope.is_some key) p + TIMESTAMP_SIZE ∧
       negotiated_len (Envelope.is_some key) p < len packet)
  | Err _ => True
  | Panic => False
  end.
Proof.
  intros Hb. pose proof (decode_echo_reply_classify packet p key Hb) as Hc.
  destruct (decode_echo_reply packet p key) as [r|e|]; [|done|done].
  destruct Hc as (e & compat & mids & He & -> & Hv & Hver & Ht & _).
  apply decode_inv in He as (_ & Hr & Hk). simpl in Hr.
  destruct (has (Envelope.flags e) FLAG_OPEN); [done|].
  destruct (has (Envelope.flags e) FLAG_REPLY); [|done].
  do 5 (split; [done|]).
  apply validate_echo_length_inv in Hv as (_ & Hs & _ & Hl & Hlt). destruct compat; [right|by left].
  specialize (Hlt eq_refl). rewrite orb_false_r in Hs. unfold TIMESTAMP_SIZE.
  split; [done|]. lia.
Qed.

Lemma echo_reply_decode_safe_witness :
  ∃ pkt r, @decode_echo_reply target64 toy_hmac pkt example_params (Some [3]) = Ok r ∧
    has (EchoReply.flags r) FLAG_REPLY = true.
Proof.
  set (o := @encode_echo_reply target64 toy_hmac example_echo_reply example_params (Some [3])).
  vm_compute in o. match eval unfold o in o with Ok ?p => exists p end.
  pose proof (@echo_reply_decode_safe target64 toy_hmac
    (match o with Ok p => p | _ => [] end) example_params (Some [3])) as Hs.
  eexists. split; [reflexivity|]. subst o. vm_compute in Hs. apply Hs. decide_now.
Defined.

(** What a single-clock midpoint negotiation exposes: one stamp, of its clock. *)
Definition midpoint_stamps (p : Params.t) (v : Z) : TimestampFields.t :=
  match Params.clock p with
  | Clock.Wall => TimestampFields.mk None None (Some v) None None None
  | _ => TimestampFields.mk None None None (Some v) None None
  end.

(** The packet an upstream irtt server sends for such a negotiation: both
    midpoint stamps, wall then monotonic, where the layout has one. *)
Definition upstream_packet `{!HmacMd5} (key : option bytes) (r : EchoReply.t)
    (wall mono : Z) (payload : bytes) : bytes :=
  sealed key (EchoReply.flags r) (echo_body r (to_le 8 wall ++ to_le 8 mono) payload).

(** An upstream dual-midpoint reply is understood: when it is longer than
    the negotiated length, both stamps are read and the negotiated clock's one is
    exposed; when the negotiated length hides the extra field it still decodes,
    with the wall stamp standing in the negotiated field and the monotonic one
    heading the payload. *)
Theorem upstream_midpoint_reply `{Target} `{!HmacMd5} p key f tok sq rc rw wall mono payload :
  is_midpoint_single_clock p = true → Params.length p ≤ USIZE_MAX →
  flags_ok f → has f FLAG_OPEN = false → has f FLAG_REPLY = true →
  has f FLAG_HMAC = Envelope.is_some key →
  in_u 64 tok → in_u 32 sq → in_i 64 wall → in_i 64 mono →
  fits (in_u 32) (ReceivedStats.has_count (Params.received_stats p)) rc →
  fits (in_u 64) (ReceivedStats.has_window (Params.received_stats p)) rw →
  let reply v rest := EchoReply.mk f tok sq rc rw (midpoint_stamps p v) rest in
  let pkt := upstream_packet key (reply 0 []) wall mono payload in
  let n := negotiated_len (Envelope.is_some key) p in
  (n < len pkt → payload = [] →
   decode_echo_reply pkt p key
   = Ok (reply (match Params.clock p with Clock.Wall => wall | _ => mono end) [])) ∧
  (len pkt = n → decode_echo_reply pkt p key = Ok (reply wall (to_le 8 mono ++ payload))).
Proof.
  intros Hs Hu Hf Ho Hre Hh Htok Hsq Hw Hm Hrc Hrw reply pkt n.
  assert (∀ v rest, in_i 64 v →
    tail_fits (PacketLayout.echo (Envelope.is_some key) p) (reply v rest)) as Ht.
  { intros v rest Hv. subst reply. unfold is_midpoint_single_clock in Hs.
    apply andb_prop in Hs as [Hs1 Hs2]. unfold midpoint_stamps.
    constructor; simpl; try done; rewrite ?Hs1;
      destruct (Params.stamp_at p), (Params.clock p); done. }
  set (seen := match Params.clock p with Clock.Wall => wall | _ => mono end).
  assert (in_i 64 seen) as Hseen by by subst seen; destruct (Params.clock p).
  split.
  - intros Hn ->. set (r := reply seen []).
    assert (pkt = sealed key f (echo_body r (to_le 8 wall ++ to_le 8 mono) (EchoReply.payload r)))
      as Hpkt.
    { subst pkt r. unfold upstream_packet, echo_body, echo_fields, reply, midpoint_stamps.
      by destruct (Params.clock p). }
    rewrite Hpkt in Hn |- *.
    apply (decode_sealed_echo p key f true r); try done; [by apply Ht| | |].
    + exists wall, mono. do 3 (split; [done|]). unfold r, reply, midpoint_stamps, seen.
      unfold is_midpoint_single_clock in Hs. by destruct (Params.stamp_at p), (Params.clock p).
    + by rewrite Hs.
    + cbv zeta. split; [|done]. rewrite (len_sealed_echo _ _ p) in Hn |- * by by apply Ht.
      rewrite len_app, !len_to_le in Hn |- * by done. change (len (EchoReply.payload r)) with 0 in *.
      pose proof (is_midpoint_single_clock_layout p (Envelope.is_some key) Hs). lia.
  - intros Hn. set (r := reply wall (to_le 8 mono ++ payload)).
    assert (pkt = sealed key f (echo_body r (midpoints r) (EchoReply.payload r))) as Hpkt.
    { subst pkt r. unfold upstream_packet, echo_body, echo_fields, midpoints, midpoint_stamps, reply.
      f_equal. unfold midpoint_stamps.
      cbn [EchoReply.token EchoReply.sequence EchoReply.recv_count EchoReply.recv_window
        EchoReply.timestamps EchoReply.payload].
      destruct (Params.clock p); cbn [TimestampFields.recv_wall TimestampFields.recv_mono
        TimestampFields.midpoint_wall TimestampFields.midpoint_mono TimestampFields.send_wall
        TimestampFields.send_mono opt_field]; by rewrite ?app_nil_l, ?app_nil_r, <- !app_assoc. }
    rewrite Hpkt in Hn |- *.
    apply (decode_sealed_echo p key f false r); try done; [by apply Ht|].
    by rewrite orb_true_r.
Qed.

Definition midpoint_params (length : Z) : Params.t :=
  Params.mk 1 0 0 length ReceivedStats.None StampAt.Midpoint Clock.Monotonic 0 None.

Lemma upstream_midpoint_reply_witness :
  ∃ pkt, len pkt = 32 ∧
    @decode_echo_reply target64 toy_hmac pkt (midpoint_params 0) None
      = Ok (EchoReply.mk 2 7 1 None None (TimestampFields.mk None None None (Some 200) None None) []) ∧
    @decode_echo_reply target64 toy_hmac pkt (midpoint_params 32) None
      = Ok (EchoReply.mk 2 7 1 None None (TimestampFields.mk None None None (Some 100) None None)
              (to_le 8 200)).
Proof.
  exists (@upstream_packet toy_hmac None (EchoReply.mk 2 7 1 None None TimestampFields.default [])
    100 200 []).
  split; [reflexivity|]. split.
  - edestruct (@upstream_midpoint_reply target64 toy_hmac (midpoint_params 0) None 2 7 1 None None
      100 200 []) as [Hc _]; try reflexivity; try done; apply Hc; reflexivity.
  - edestruct (@upstream_midpoint_reply target64 toy_hmac (midpoint_params 32) None 2 7 1 None None
      100 200 []) as [_ Hc]; try reflexivity; try done; apply Hc; reflexivity.
Defined.
