(* ===== verification/ServerBase.v ===== *)
(** * irtt-server: host services, clock arithmetic, configuration, errors

    Models [crates/irtt-server/src/clock.rs], [config.rs], [token.rs] and
    [error.rs].  What the code takes from the operating system (clock readings
    and random bytes) is the [Host] interface; a [Duration] and the distance of
    a [SystemTime] from the epoch are [Z] nanoseconds. *)

From S2P Require Import Prelude ProtoBase Layout.

(** ** The host

    The [n]-th reading of each service, as an arbitrary function of [n]: nothing
    is assumed of the wall clock (it may be stepped) or of the random draws. *)
Class Host := {
  (** [SystemTime::now()], in nanoseconds from the epoch, possibly negative. *)
  system_now : nat → Z;
  (** [Instant::elapsed()]: an [Instant] never runs backwards. *)
  elapsed : nat → Z;
  elapsed_nonneg : ∀ n, 0 ≤ elapsed n;
  elapsed_mono : ∀ n m, (n ≤ m)%nat → elapsed n ≤ elapsed m;
  (** [getrandom::u64()]: a value, or the reason it failed. *)
  getrandom_u64 : nat → string + Z;
  getrandom_u64_range : ∀ n v, getrandom_u64 n = inr v → in_u 64 v;
  (** [getrandom::fill] of a buffer of the given length. *)
  getrandom_fill : nat → Z → option bytes;
  getrandom_fill_len : ∀ n l b, getrandom_fill n l = Some b → len b = l ∧ bytes_ok b;
}.

(** How many times each service was used so far. *)
Record HostState : Type := mk_HostState {
  clock_reads : nat;
  token_draws : nat;
  fill_draws : nat;
}.

(** ** clock.rs *)

Definition saturating_ns (duration : Z) : Z :=
  match try_i64 duration with Some ns => ns | None => I64_MAX end.

(** [SystemTime::duration_since(UNIX_EPOCH)]: after, or before by how much. *)
Definition duration_since_epoch (at_ : Z) : Z + Z := if 0 <=? at_ then inl at_ else inr (- at_).

(** [i64::saturating_neg] and [i64::checked_neg]. *)
Definition saturating_neg (z : Z) : Z := sat_i64 (- z).
Definition checked_neg (z : Z) : option Z := if decide (z = I64_MIN) then None else Some (- z).

Definition wall_ns (now : Z) : Z :=
  match duration_since_epoch now with
  | inl since_epoch => saturating_ns since_epoch
  | inr before_epoch => saturating_neg (saturating_ns before_epoch)
  end.

Definition wall_ns_of (at_ : Z) : option Z :=
  match duration_since_epoch at_ with
  | inl since_epoch => try_i64 since_epoch
  | inr before_epoch => try_i64 before_epoch ≫= checked_neg
  end.

Definition mean_ns (a b : Z) : Z :=
  let mean := Z.quot (a + b) 2 in
  match try_i64 mean with Some m => m | None => if mean <? 0 then I64_MIN else I64_MAX end.

Module ClockSample.
Record t : Type := mk { wall_ns : Z; mono_ns : Z }.

Definition midpoint (self other : t) : t :=
  mk (mean_ns (wall_ns self) (wall_ns other)) (mean_ns (mono_ns self) (mono_ns other)).

Definition not_after (self later : t) : t :=
  mk (Z.min (wall_ns self) (wall_ns later)) (Z.min (mono_ns self) (mono_ns later)).

Definition ok (s : t) : Prop := in_i 64 (wall_ns s) ∧ in_i 64 (mono_ns s).
End ClockSample.

(** [SystemClock::sample]. *)
Definition sample `{Host} (h : HostState) : ClockSample.t * HostState :=
  (ClockSample.mk (wall_ns (system_now (clock_reads h))) (saturating_ns (elapsed (clock_reads h))),
   mk_HostState (S (clock_reads h)) (token_draws h) (fill_draws h)).

(** ** error.rs *)
Inductive ServerError : Type :=
  | RandomSource (reason : string)
  | TokenExhausted (attempts : Z)
  | ReplyEncoding (source : ProtoError).

(** ** token.rs *)
Definition TOKEN_ATTEMPTS : nat := 8.

(** [OsTokenSource::next_token]. *)
Definition next_token `{Host} (h : HostState) : Result ServerError Z * HostState :=
  (match getrandom_u64 (token_draws h) with
   | inr token => Ok token
   | inl reason => Err (RandomSource reason)
   end,
   mk_HostState (clock_reads h) (S (token_draws h)) (fill_draws h)).

(** ** config.rs *)
Inductive TimestampAllowance : Type := AllowNone | AllowSingle | AllowDual.

Definition MILLIS : Z := 1_000_000.
Definition SECS : Z := 1_000_000_000.

Definition DEFAULT_MAX_SESSIONS : Z := 1024.
Definition DEFAULT_MAX_PACKET_LENGTH : Z := 65507.
Definition DEFAULT_MIN_SEND_INTERVAL : Z := 10 * MILLIS.
Definition DEFAULT_BURST_ALLOWANCE : Z := 5.
Definition DEFAULT_IDLE_TIMEOUT : Z := 60 * SECS.

Module ServerConfig.
Record t : Type := mk {
  hmac_key : option bytes;
  max_sessions : Z;
  max_packet_length : Z;
  min_send_interval : Z;
  burst_allowance : Z;
  idle_timeout : Z;
  max_test_duration : option Z;
  timestamp_allowance : TimestampAllowance;
  dscp_allowed : bool;
}.

Definition with_hmac_key (key : bytes) '(mk _ b c d e f g h i) := mk (Some key) b c d e f g h i.
Definition with_max_sessions v '(mk a _ c d e f g h i) := mk a v c d e f g h i.
Definition with_max_packet_length v '(mk a b _ d e f g h i) := mk a b v d e f g h i.
Definition with_min_send_interval v '(mk a b c _ e f g h i) := mk a b c v e f g h i.
Definition with_burst_allowance v '(mk a b c d _ f g h i) := mk a b c d v f g h i.
Definition with_idle_timeout v '(mk a b c d e _ g h i) := mk a b c d e v g h i.
Definition with_max_test_duration v '(mk a b c d e f _ h i) :=
  mk a b c d e f (if v =? 0 then None else Some v) h i.
Definition without_max_test_duration '(mk a b c d e f _ h i) := mk a b c d e f None h i.
Definition with_timestamp_allowance v '(mk a b c d e f g _ i) := mk a b c d e f g v i.
Definition with_dscp_allowed v '(mk a b c d e f g h _) := mk a b c d e f g h v.

Definition default : t :=
  mk None DEFAULT_MAX_SESSIONS DEFAULT_MAX_PACKET_LENGTH DEFAULT_MIN_SEND_INTERVAL
     DEFAULT_BURST_ALLOWANCE DEFAULT_IDLE_TIMEOUT None AllowDual true.

(** The values the Rust types and the builders can produce. *)
Record ok `{Target} (c : t) : Prop := {
  c_max_sessions : 0 ≤ max_sessions c ≤ USIZE_MAX;
  c_max_packet_length : 0 ≤ max_packet_length c ≤ USIZE_MAX;
  c_min_send_interval : 0 ≤ min_send_interval c;
  c_burst_allowance : in_u 32 (burst_allowance c);
  c_idle_timeout : 0 ≤ idle_timeout c;
  c_max_test_duration : ∀ d, max_test_duration c = Some d → 0 < d;
}.
End ServerConfig.

(** ** Lemmas *)

Lemma saturating_ns_spec d : 0 ≤ d → saturating_ns d = Z.min d I64_MAX ∧ in_i 64 (saturating_ns d).
Proof.
  intros Hd. unfold saturating_ns, try_i64, in_i, I64_MAX. case_decide; lia.
Qed.

Lemma saturating_ns_range d : in_i 64 (saturating_ns d).
Proof. unfold saturating_ns, try_i64. case_decide; [done|]. by unfold in_i, I64_MAX. Qed.

Lemma saturating_ns_mono d e : 0 ≤ d ≤ e → saturating_ns d ≤ saturating_ns e.
Proof.
  intros. rewrite (proj1 (saturating_ns_spec d ltac:(lia))), (proj1 (saturating_ns_spec e ltac:(lia))).
  lia.
Qed.

Lemma wall_ns_range now : in_i 64 (wall_ns now).
Proof.
  unfold wall_ns. destruct (duration_since_epoch now); [apply saturating_ns_range|].
  apply sat_i64_range.
Qed.

(** An observed instant is reported exactly or not at all. *)
Lemma wall_ns_of_spec t :
  wall_ns_of t = if decide (I64_MIN < t ≤ I64_MAX) then Some t else None.
Proof.
  unfold wall_ns_of, duration_since_epoch, try_i64, checked_neg, in_i, I64_MAX, I64_MIN.
  destruct (Z.leb_spec 0 t); repeat case_decide; simpl; try lia; try done;
    case_decide; try lia; f_equal; lia.
Qed.

Lemma mean_ns_spec a b :
  in_i 64 a → in_i 64 b → mean_ns a b = Z.quot (a + b) 2 ∧ Z.min a b ≤ mean_ns a b ≤ Z.max a b.
Proof.
  intros Ha Hb. unfold mean_ns.
  assert (Z.min a b ≤ Z.quot (a + b) 2 ≤ Z.max a b) as Hm.
  { destruct (Z.leb_spec 0 (a + b)).
    - rewrite Z.quot_div_nonneg by lia. split; [apply Z.div_le_lower_bound|apply Z.div_le_upper_bound]; lia.
    - replace (a + b) with (- - (a + b)) by lia. rewrite Z.quot_opp_l by lia.
      rewrite Z.quot_div_nonneg by lia.
      pose proof (Z.div_mod (- (a + b)) 2 ltac:(lia)).
      pose proof (Z.mod_pos_bound (- (a + b)) 2 ltac:(lia)). lia. }
  unfold try_i64. rewrite decide_True; [done|]. unfold in_i in *. lia.
Qed.

Lemma mean_ns_range a b : in_i 64 (mean_ns a b).
Proof.
  unfold mean_ns, try_i64. case_decide; [done|].
  destruct (_ <? 0); unfold in_i, I64_MIN, I64_MAX; lia.
Qed.

Lemma sample_ok `{Host} h : ClockSample.ok (sample h).1.
Proof. split; simpl; [apply wall_ns_range | apply saturating_ns_range]. Qed.

Lemma sample_mono_nonneg `{Host} h : 0 ≤ ClockSample.mono_ns (sample h).1.
Proof.
  simpl. rewrite (proj1 (saturating_ns_spec _ (elapsed_nonneg _))).
  pose proof (elapsed_nonneg (clock_reads h)). unfold I64_MAX. lia.
Qed.

(** Monotonic readings never run backwards. *)
Lemma sample_monotone `{Host} h h' :
  (clock_reads h ≤ clock_reads h')%nat →
  ClockSample.mono_ns (sample h).1 ≤ ClockSample.mono_ns (sample h').1.
Proof.
  intros Hh. simpl. apply saturating_ns_mono. split; [apply elapsed_nonneg | by apply elapsed_mono].
Qed.

#[export] Hint Resolve saturating_ns_range wall_ns_range mean_ns_range sample_ok : irtt.

(** A host for witnesses: a wall clock at the epoch plus the reading number, an
    [Instant] advancing 1 ms per reading, tokens counted from 1. *)
Definition example_host : Host.
Proof.
  refine {| system_now n := Z.of_nat n * MILLIS; elapsed n := Z.of_nat n * MILLIS;
            getrandom_u64 n := inr (wrap_u 64 (Z.of_nat n + 1));
            getrandom_fill n l := if decide (0 ≤ l) then Some (replicate (Z.to_nat l) 170) else None |}.
  - intros n. unfold MILLIS. lia.
  - intros n m Hn. unfold MILLIS. lia.
  - intros n v [= <-]. apply wrap_u_range. lia.
  - intros n l b. case_decide; [|done]. intros [= <-]. split; [rewrite len_replicate; lia|].
    apply bytes_ok_replicate. by unfold in_u.
Defined.
