(* ===== verification/Fill.v ===== *)
(** * irtt-server: server fill

    Models [crates/irtt-server/src/fill.rs]: what a ServerFill descriptor means
    and the payload bytes it produces. *)

From S2P Require Import Prelude ProtoBase ParamsCodec Layout ServerBase.

Definition DEFAULT_FILL_PATTERN : bytes := str "irtt".
Definition DEFAULT_FILL_DESCRIPTOR : bytes := str "pattern:69727474".
Definition PATTERN_PREFIX : bytes := str "pattern:".

(** [enum FillMode]. *)
Inductive FillMode : Type :=
  | FillNone
  | FillRandom
  | FillPattern (pattern : bytes).

#[export] Instance FillMode_eq_dec : EqDecision FillMode.
Proof. solve_decision. Defined.

Definition default_fill : FillMode := FillPattern DEFAULT_FILL_PATTERN.

(** The byte ranges of the match: ['0'..='9'], ['a'..='f'], ['A'..='F']. *)
Definition hex_digit (digit : Z) : option Z :=
  if (48 <=? digit) && (digit <=? 57) then Some (digit - 48)
  else if (97 <=? digit) && (digit <=? 102) then Some (digit - 97 + 10)
  else if (65 <=? digit) && (digit <=? 70) then Some (digit - 65 + 10)
  else None.

(** [as_chunks::<2>().0] mapped through the digit pairs and collected. *)
Fixpoint hex_pairs (digits : bytes) : option bytes :=
  match digits with
  | hi :: lo :: rest =>
      h ← hex_digit hi;
      l ← hex_digit lo;
      tail ← hex_pairs rest;
      Some (Z.lor (wrap_u 8 (Z.shiftl h 4)) l :: tail)
  | _ => Some []
  end.

Definition parse_hex_pattern (body : bytes) : option bytes :=
  if bool_decide (body = []) || negb (Z.even (len body)) then None else hex_pairs body.

(** [str::strip_prefix]. *)
Fixpoint strip_prefix (prefix l : bytes) : option bytes :=
  match prefix, l with
  | [], _ => Some l
  | p :: prefix, x :: l => if p =? x then strip_prefix prefix l else None
  | _, [] => None
  end.

Definition parse (descriptor : bytes) : option FillMode :=
  if decide (descriptor = str "none") then Some FillNone
  else if decide (descriptor = str "rand") then Some FillRandom
  else
    body ← strip_prefix PATTERN_PREFIX descriptor;
    pattern ← parse_hex_pattern body;
    Some (FillPattern pattern).

(** [pattern.iter().copied().cycle().take(n)]: an empty pattern yields nothing. *)
Definition cycle_take (pattern : bytes) (n : Z) : bytes :=
  match pattern with
  | [] => []
  | _ => (λ i, nth (i mod length pattern)%nat pattern 0) <$> seq 0 (Z.to_nat n)
  end.

Section fill.
Context `{Host}.

Definition random_payload (n : Z) (h : HostState) : bytes * HostState :=
  if decide (0 < n) then
    (match getrandom_fill (fill_draws h) n with
     | Some payload => payload
     | None => replicate (Z.to_nat n) 0
     end, mk_HostState (clock_reads h) (token_draws h) (S (fill_draws h)))
  else (replicate (Z.to_nat n) 0, h).

(** [FillMode::payload]. *)
Definition payload (mode : FillMode) (n : Z) (h : HostState) : bytes * HostState :=
  match mode with
  | FillNone => ([], h)
  | FillRandom => random_payload n h
  | FillPattern pattern => (cycle_take pattern n, h)
  end.

End fill.

Definition negotiate_server_fill (params : Params.t) : Params.t * FillMode :=
  match Params.server_fill params with
  | Some requested =>
      if decide (value requested = []) then (params, default_fill)
      else
        match parse (value requested) with
        | Some mode => (params, mode)
        | None => (Params.set_server_fill (Some (mk_ServerFill DEFAULT_FILL_DESCRIPTOR)) params,
                   default_fill)
        end
  | None => (params, default_fill)
  end.

Definition echo_payload_len `{Target} (hmac : bool) (params : Params.t) : Z :=
  let header_len := PacketLayout.header_len (PacketLayout.echo hmac params) in
  match echo_packet_len hmac params with Ok n => Z.max 0 (n - header_len) | _ => 0 end.

(** ** Lemmas *)

(** A usable mode: a pattern is a non-empty byte string. *)
Definition fill_mode_ok (m : FillMode) : Prop :=
  match m with FillPattern p => bytes_ok p ∧ p ≠ [] | _ => True end.

Lemma hex_digit_range d v : hex_digit d = Some v → 0 ≤ v < 16.
Proof.
  unfold hex_digit. intros Hv.
  destruct (Z.leb_spec 48 d), (Z.leb_spec d 57), (Z.leb_spec 97 d), (Z.leb_spec d 102),
    (Z.leb_spec 65 d), (Z.leb_spec d 70); simpl in Hv; try done; injection Hv as <-; lia.
Qed.

(** The two digits of a byte. *)
Lemma hex_byte h l : 0 ≤ h < 16 → 0 ≤ l < 16 → Z.lor (wrap_u 8 (Z.shiftl h 4)) l = 16 * h + l.
Proof.
  intros Hh Hl. rewrite Z.shiftl_mul_pow2 by lia. rewrite wrap_u_small by (unfold in_u; lia).
  assert (Z.land (h * 2 ^ 4) l = 0) as Hz.
  { apply Z.bits_inj'. intros i Hi. rewrite Z.land_spec, Z.bits_0, Z.mul_pow2_bits by lia.
    destruct (Z.ltb_spec i 4) as [Hlt|Hge].
    - by rewrite Z.testbit_neg_r by lia.
    - replace (Z.testbit l i) with false; [by rewrite andb_false_r|].
      symmetry. destruct (decide (l = 0)) as [->|]; [apply Z.bits_0|].
      apply Z.bits_above_log2; [lia|]. apply Z.log2_lt_pow2; [lia|].
      assert (2 ^ 4 ≤ 2 ^ i) by (apply Z.pow_le_mono_r; lia). lia. }
  pose proof (Z.add_lor_land (h * 2 ^ 4) l) as Hs. rewrite Hz in Hs. lia.
Qed.

(** What a hexadecimal body denotes, and that decoding inverts writing it. *)
Definition hex_char (v : Z) : Z := if v <? 10 then 48 + v else 87 + v.
Definition hex_body (p : bytes) : bytes := p ≫= λ b, [hex_char (b / 16); hex_char (b mod 16)].

Lemma hex_digit_char v : 0 ≤ v < 16 → hex_digit (hex_char v) = Some v.
Proof.
  intros Hv. unfold hex_char, hex_digit. destruct (Z.ltb_spec v 10).
  - destruct (Z.leb_spec 48 (48 + v)), (Z.leb_spec (48 + v) 57); simpl; try lia. f_equal. lia.
  - destruct (Z.leb_spec 48 (87 + v)), (Z.leb_spec (87 + v) 57), (Z.leb_spec 97 (87 + v)),
      (Z.leb_spec (87 + v) 102); simpl; try lia. f_equal. lia.
Qed.

Lemma hex_pairs_body p : bytes_ok p → hex_pairs (hex_body p) = Some p.
Proof.
  induction p as [|b p IH]; intros Hp; [done|]. apply bytes_ok_cons in Hp as [Hb Hp].
  unfold in_u in Hb. cbn [hex_body mbind list_bind app hex_pairs].
  assert (0 ≤ b / 16 < 16) by (split; [apply Z.div_pos; lia | apply Z.div_lt_upper_bound; lia]).
  pose proof (Z.mod_pos_bound b 16 ltac:(lia)).
  rewrite !hex_digit_char by lia. cbn [mbind option_bind].
  unfold hex_body in IH. cbn [mbind list_bind] in IH. rewrite IH by done. cbn [mbind option_bind].
  rewrite hex_byte by lia. f_equal. f_equal. pose proof (Z.div_mod b 16 ltac:(lia)). lia.
Qed.

Lemma len_hex_body p : len (hex_body p) = 2 * len p.
Proof.
  induction p as [|b p IH]; [done|]. unfold hex_body in *. cbn [mbind list_bind app].
  rewrite !len_cons. cbn [mbind list_bind] in IH. rewrite IH. lia.
Qed.

Lemma hex_pairs_ok n l p : (length l ≤ n)%nat → hex_pairs l = Some p → bytes_ok p.
Proof.
  revert l p. induction n as [|n IH]; intros [|hi [|lo rest]] p Hn; simpl in *;
    try (intros [= <-]; constructor); try lia.
  destruct (hex_digit hi) as [h|] eqn:Hh; simpl; [|done].
  destruct (hex_digit lo) as [lv|] eqn:Hlo; simpl; [|done].
  destruct (hex_pairs rest) as [t|] eqn:Ht; simpl; [|done]. intros [= <-].
  apply hex_digit_range in Hh, Hlo. rewrite hex_byte by done.
  constructor; [unfold in_u; lia | by apply (IH rest); [lia|]].
Qed.

Lemma parse_ok d m : parse d = Some m → fill_mode_ok m.
Proof.
  unfold parse. case_decide; [by intros [= <-]|]. case_decide; [by intros [= <-]|].
  destruct (strip_prefix _ _) as [body|]; simpl; [|done].
  unfold parse_hex_pattern. case_bool_decide as Hb; simpl; [done|].
  destruct (Z.even (len body)) eqn:He; simpl; [|done].
  destruct (hex_pairs body) as [p|] eqn:Hp; simpl; [|done]. intros [= <-]. simpl.
  split; [by eapply hex_pairs_ok|]. intros ->. destruct body as [|a [|b body]]; [done..|].
  simpl in Hp. by destruct (hex_digit a), (hex_digit b), (hex_pairs body).
Qed.

Lemma cycle_take_len p n : p ≠ [] → 0 ≤ n → len (cycle_take p n) = n.
Proof.
  intros Hp Hn. unfold cycle_take. destruct p; [done|]. rewrite len_fmap. unfold len.
  rewrite length_seq. lia.
Qed.

Lemma cycle_take_bytes p n : bytes_ok p → bytes_ok (cycle_take p n).
Proof.
  intros Hp. unfold cycle_take. destruct p as [|a p]; [constructor|]. apply Forall_fmap.
  apply Forall_forall. intros i _. set (l := a :: p) in *.
  unfold bytes_ok in Hp. rewrite Forall_forall in Hp. apply Hp, list_elem_of_In.
  change (In (nth (i mod length l) l 0) l). apply nth_In, Nat.mod_upper_bound. done.
Qed.

(** The payload always fits the region it was generated for. *)
Lemma payload_ok `{Host} m n h :
  fill_mode_ok m → 0 ≤ n →
  bytes_ok (payload m n h).1 ∧ len (payload m n h).1 ≤ n ∧
  (m ≠ FillNone → len (payload m n h).1 = n).
Proof.
  intros Hm Hn. destruct m as [| |p]; simpl.
  - split; [constructor|]. split; [done|naive_solver].
  - unfold random_payload. case_decide; simpl; [destruct (getrandom_fill _ _) as [b|] eqn:Hb|].
    + apply getrandom_fill_len in Hb as [Hl Hb]. split; [done|]. split; [lia|done].
    + rewrite len_replicate, Z2Nat.id by lia. split; [by apply bytes_ok_replicate|done].
    + rewrite len_replicate, Z2Nat.id by lia. split; [by apply bytes_ok_replicate|done].
  - destruct Hm as [Hb Hne]. rewrite cycle_take_len by done.
    split; [by apply cycle_take_bytes|done].
Qed.

Lemma payload_clock `{Host} m n h : clock_reads (payload m n h).2 = clock_reads h.
Proof. destruct m; [done| |done]. simpl. unfold random_payload. by case_decide. Qed.

Lemma negotiate_server_fill_ok params :
  params_ok params →
  params_ok (negotiate_server_fill params).1 ∧ fill_mode_ok (negotiate_server_fill params).2.
Proof.
  intros Hp. unfold negotiate_server_fill.
  assert (fill_mode_ok default_fill) as Hd by (split; [decide_now|done]).
  destruct (Params.server_fill params) as [f|]; [|done]. case_decide; [done|].
  destruct (parse _) as [m|] eqn:Hm; simpl; [split; [done|by eapply parse_ok]|].
  split; [|done]. destruct Hp, params. split; simpl in *; try done. split; decide_now.
Qed.

Lemma negotiate_server_fill_layout params :
  let q := (negotiate_server_fill params).1 in
  Params.length q = Params.length params ∧ Params.received_stats q = Params.received_stats params ∧
  Params.stamp_at q = Params.stamp_at params ∧ Params.clock q = Params.clock params ∧
  Params.dscp q = Params.dscp params ∧ Params.protocol_version q = Params.protocol_version params ∧
  Params.duration_ns q = Params.duration_ns params ∧
  Params.interval_ns q = Params.interval_ns params.
Proof.
  unfold negotiate_server_fill. destruct (Params.server_fill params); [|done].
  case_decide; [done|]. destruct (parse _); [done|]. by destruct params.
Qed.

(** ** Properties *)

(** Fill negotiation is honest. A session is given exactly the fill its
    descriptor names, the descriptor is returned unchanged whenever the server
    honours it or the client expressed no preference, and it is replaced only
    when it cannot be parsed, by the descriptor of the very fill that is used. *)
Theorem server_fill_honest params :
  params_ok params →
  let '(q, mode) := negotiate_server_fill params in
  params_ok q ∧ fill_mode_ok mode ∧
  match Params.server_fill params with
  | None => q = params ∧ mode = default_fill
  | Some f =>
      (value f = [] → q = params ∧ mode = default_fill) ∧
      (value f ≠ [] → ∀ m, parse (value f) = Some m → q = params ∧ mode = m) ∧
      (value f ≠ [] → parse (value f) = None →
         q = Params.set_server_fill (Some (mk_ServerFill DEFAULT_FILL_DESCRIPTOR)) params ∧
         parse DEFAULT_FILL_DESCRIPTOR = Some mode)
  end.
Proof.
  intros Hp. pose proof (negotiate_server_fill_ok params Hp) as Hok.
  destruct (negotiate_server_fill params) as [q m] eqn:Hn. simpl in Hok.
  split; [apply Hok|]. split; [apply Hok|]. unfold negotiate_server_fill in Hn.
  destruct (Params.server_fill params) as [f|]; [|naive_solver].
  split; [|split].
  - intros He. rewrite decide_True in Hn by done. naive_solver.
  - intros He m' Hm. rewrite decide_False in Hn by done. rewrite Hm in Hn. naive_solver.
  - intros He Hm. rewrite decide_False, Hm in Hn by done. injection Hn as <- <-.
    split; [done|]. reflexivity.
Qed.

Definition fill_example (s : bytes) : Params.t :=
  Params.set_server_fill (Some (mk_ServerFill s)) Params.default.

Lemma server_fill_honest_witness :
  negotiate_server_fill (fill_example (str "bogus"))
  = (fill_example DEFAULT_FILL_DESCRIPTOR, default_fill).
Proof.
  pose proof (server_fill_honest (fill_example (str "bogus"))) as Hs.
  destruct Hs as (_ & _ & _ & _ & Hs); [by apply params_okb_spec|].
  destruct Hs as [Hq Hm]; [done|reflexivity|]. reflexivity.
Defined.

(** A [pattern:] descriptor of any non-empty byte pattern parses to that
    pattern, and the payload it produces has exactly the requested length and
    repeats the pattern from its first byte. *)
Theorem pattern_fill_roundtrip `{Host} p n h :
  bytes_ok p → p ≠ [] → 0 ≤ n →
  parse (PATTERN_PREFIX ++ hex_body p) = Some (FillPattern p) ∧
  let out := (payload (FillPattern p) n h).1 in
  len out = n ∧ ∀ i, (i < Z.to_nat n)%nat → out !! i = p !! (i mod length p)%nat.
Proof.
  intros Hb Hp Hn. split.
  - unfold parse, PATTERN_PREFIX. rewrite !decide_False by done.
    simpl. unfold parse_hex_pattern.
    assert (0 < len p) by (destruct p; [done|]; len_lia).
    rewrite bool_decide_false.
    2:{ intros He. pose proof (len_hex_body p) as Hl. rewrite He, len_nil in Hl. lia. }
    rewrite len_hex_body, Z.even_mul. simpl. by rewrite hex_pairs_body.
  - simpl. split; [by apply cycle_take_len|]. intros i Hi. unfold cycle_take.
    assert (length p ≠ 0%nat) as Hl by by destruct p.
    replace (match p with [] => [] | _ => _ end)
      with ((λ i, nth (i mod length p)%nat p 0) <$> seq 0 (Z.to_nat n)) by by destruct p.
    rewrite list_lookup_fmap, lookup_seq_lt by done. simpl fmap.
    destruct (lookup_lt_is_Some_2 p (i mod length p)) as [x Hx]; [by apply Nat.mod_upper_bound|].
    rewrite Hx. f_equal. by apply nth_lookup_Some.
Qed.

Lemma pattern_fill_roundtrip_witness :
  parse (str "pattern:0aff") = Some (FillPattern [10; 255]) ∧
  (@payload example_host (FillPattern [10; 255]) 3 (mk_HostState 0 0 0)).1 = [10; 255; 10].
Proof.
  destruct (@pattern_fill_roundtrip example_host [10; 255] 3 (mk_HostState 0 0 0)) as [H _];
    [decide_now|done|lia|]. split; [exact H | reflexivity].
Defined.
