(* ===== verification/Session.v ===== *)
(** * irtt-server: one session

    Models [crates/irtt-server/src/session.rs]: reception statistics, the reply
    allowance and the lifetime of a session. Times are monotonic nanoseconds. *)

From S2P Require Import Prelude ProtoBase ParamsCodec ServerBase Fill.

Definition MAX_DURATION_CLOSE_GRACE : Z := 2 * SECS.

(** ** ReceiveState *)
Module ReceiveState.
Record t : Type := mk {
  count : Z;
  window : Z;
  last_sequence : option Z;
}.

Definition default : t := mk 0 0 None.

Definition accepted (self : t) (sequence : Z) : t :=
  let window :=
    match last_sequence self with
    | None => 0x1
    | Some last =>
        let distance := wrap_u 32 (sequence - last) in
        if distance =? 0 then Z.lor (window self) 1
        else if (1 <=? distance) && (distance <=? 63)
        then Z.lor (wrap_u 64 (Z.shiftl (window self) distance)) 1
        else 0x1
    end in
  mk (wrap_u 32 (count self + 1)) window (Some sequence).

Definition ok (s : t) : Prop :=
  in_u 32 (count s) ∧ in_u 64 (window s) ∧
  match last_sequence s with Some q => in_u 32 q | None => True end.
End ReceiveState.

(** ** RateState *)
Module RateState.
Record t : Type := mk {
  burst : Z;
  interval_ns : Z;
  allowance : Z;
  refilled_at_ns : Z;
}.

Definition new (config : ServerConfig.t) (params : Params.t) (now_ns : Z) : t :=
  let configured := saturating_ns (ServerConfig.min_send_interval config) in
  let interval_ns :=
    if (configured <=? 0) || (Params.interval_ns params <=? 0) then configured
    else Z.min configured (Params.interval_ns params) in
  mk (ServerConfig.burst_allowance config) interval_ns (ServerConfig.burst_allowance config) now_ns.

Definition replenish (self : t) (now_ns : Z) : t :=
  if burst self <=? allowance self then mk (burst self) (interval_ns self) (burst self) now_ns
  else
    let elapsed := sat_i64 (now_ns - refilled_at_ns self) in
    if elapsed <? interval_ns self then self
    else
      let gained := Z.quot elapsed (interval_ns self) in
      let gained32 := match try_u32 gained with Some g => g | None => U32_MAX end in
      let allowance' := Z.min (sat_u32 (allowance self + gained32)) (burst self) in
      let refilled :=
        if allowance' =? burst self then now_ns
        else sat_i64 (refilled_at_ns self + sat_i64 (gained * interval_ns self)) in
      mk (burst self) (interval_ns self) allowance' refilled.

(** [enum RateDecision]. *)
Inductive RateDecision : Type :=
  | Allowed (next : t)
  | Limited (next : t).

Definition charge (self : t) (now_ns : Z) : RateDecision :=
  if burst self =? 0 then Limited self
  else if interval_ns self =? 0 then Allowed self
  else
    let self := replenish self now_ns in
    if allowance self =? 0 then Limited self
    else Allowed (mk (burst self) (interval_ns self) (allowance self - 1) (refilled_at_ns self)).

Definition decision_state (d : RateDecision) : t := match d with Allowed n | Limited n => n end.
Definition is_allowed (d : RateDecision) : bool := match d with Allowed _ => true | _ => false end.

(** The field ranges, at a time no earlier than the last accounting. *)
Record ok (now : Z) (s : t) : Prop := {
  r_burst : in_u 32 (burst s);
  r_interval : 0 ≤ interval_ns s ∧ in_i 64 (interval_ns s);
  r_allowance : 0 ≤ allowance s ≤ burst s;
  r_refilled : 0 ≤ refilled_at_ns s ≤ now;
}.
End RateState.
Import RateState.

(** ** LifetimeState *)
Module LifetimeState.
Record t : Type := mk {
  last_activity_ns : Z;
  first_served_echo_ns : option Z;
}.

Definition opened_at (now_ns : Z) : t := mk now_ns None.

Definition is_idle_expired (self : t) (now_ns idle_timeout_ns : Z) : bool :=
  idle_timeout_ns <=? sat_i64 (now_ns - last_activity_ns self).

Definition max_duration_reached (self : t) (now_ns max_duration_ns : Z) : bool :=
  match first_served_echo_ns self with
  | Some first =>
      let deadline := sat_i64 (sat_i64 (first + max_duration_ns)
                               + saturating_ns MAX_DURATION_CLOSE_GRACE) in
      deadline <=? now_ns
  | None => false
  end.

Definition refreshed (self : t) (now_ns : Z) : t := mk now_ns (first_served_echo_ns self).

Definition served (self : t) (now_ns : Z) : t :=
  mk now_ns (match first_served_echo_ns self with Some f => Some f | None => Some now_ns end).
End LifetimeState.

(** ** Session *)
Module Session.
Record t : Type := mk {
  peer : SocketAddr;
  params : Params.t;
  fill : FillMode;
  receive : ReceiveState.t;
  rate : RateState.t;
  lifetime : LifetimeState.t;
}.

Definition new (peer : SocketAddr) (params : Params.t) (fill : FillMode) (config : ServerConfig.t)
    (now_ns : Z) : t :=
  mk peer params fill ReceiveState.default (RateState.new config params now_ns)
     (LifetimeState.opened_at now_ns).

Definition commit_receive_state (self : t) (next : ReceiveState.t) : t :=
  mk (peer self) (params self) (fill self) next (rate self) (lifetime self).
Definition commit_rate_state (self : t) (next : RateState.t) : t :=
  mk (peer self) (params self) (fill self) (receive self) next (lifetime self).
Definition commit_lifetime_state (self : t) (next : LifetimeState.t) : t :=
  mk (peer self) (params self) (fill self) (receive self) (rate self) next.

Definition is_idle_expired (self : t) (now_ns idle_timeout_ns : Z) : bool :=
  LifetimeState.is_idle_expired (lifetime self) now_ns idle_timeout_ns.
End Session.

(** ** Reception statistics against the history of accepted requests *)

(** The state after accepting a history, most recent request first. *)
Definition accept_all (history : list Z) : ReceiveState.t :=
  foldr (λ s st, ReceiveState.accepted st s) ReceiveState.default history.

(** How far back the [i]-th most recent request lies, if no accepted request
    since then moved the reference by more than the window can represent. *)
Fixpoint run_distance (history : list Z) (i : nat) : option Z :=
  match history, i with
  | [], _ => None
  | _ :: _, 0%nat => Some 0
  | s :: rest, S i =>
      p ← head rest;
      let d := wrap_u 32 (s - p) in
      if d <=? 63 then (λ k, k + d) <$> run_distance rest i else None
  end.

Lemma run_distance_S s p rest i :
  run_distance (s :: p :: rest) (S i) =
    if wrap_u 32 (s - p) <=? 63
    then (λ k, k + wrap_u 32 (s - p)) <$> run_distance (p :: rest) i else None.
Proof. done. Qed.

Lemma wrap_u32_nonneg z : 0 ≤ wrap_u 32 z < 2 ^ 32.
Proof. apply (wrap_u_range 32). lia. Qed.

Lemma run_distance_nonneg history i k : run_distance history i = Some k → 0 ≤ k.
Proof.
  revert i k. induction history as [|s [|p rest] IH]; intros [|i] k; simpl head; try naive_solver lia.
  rewrite run_distance_S. destruct (Z.leb_spec (wrap_u 32 (s - p)) 63); [|done].
  intros (k' & Hk & ->)%fmap_Some. apply IH in Hk. pose proof (wrap_u32_nonneg (s - p)). lia.
Qed.

(** A representable request is the one its distance names. *)
Lemma run_distance_sequence history i k s :
  Forall (in_u 32) history → head history = Some s →
  run_distance history i = Some k → history !! i = Some (wrap_u 32 (s - k)).
Proof.
  assert (∀ x : Z, in_u 32 x → wrap_u 32 (x - 0) = x) as H0.
  { intros x Hx. rewrite Z.sub_0_r. by apply wrap_u_small. }
  revert i k s. induction history as [|x [|p rest] IH]; intros [|i] k s Hh Hs; simpl in Hs; try done;
    injection Hs as <-.
  - intros [= <-]. rewrite H0; [done|]. by apply Forall_cons in Hh as [? _].
  - intros [= <-]. rewrite H0; [done|]. by apply Forall_cons in Hh as [? _].
  - rewrite run_distance_S. destruct (Z.leb_spec (wrap_u 32 (x - p)) 63); [|done].
    intros (k' & Hk & ->)%fmap_Some. apply Forall_cons in Hh as [_ Hh].
    apply (IH _ _ p) in Hk; [|done..]. change ((x :: p :: rest) !! S i) with ((p :: rest) !! i).
    rewrite Hk. f_equal. unfold wrap_u.
    replace (x - (k' + (x - p) mod 2 ^ 32)) with ((x - k') - (x - p) mod 2 ^ 32) by lia.
    rewrite Zminus_mod_idemp_r. f_equal. lia.
Qed.

Lemma accepted_last st s : ReceiveState.last_sequence (ReceiveState.accepted st s) = Some s.
Proof. done. Qed.

Lemma testbit_one k : 0 ≤ k → Z.testbit 1 k = bool_decide (k = 0).
Proof.
  intros. change 1 with (2 ^ 0). rewrite Z.pow2_bits_eqb by lia.
  rewrite <- (Z.eqb_sym k). case_bool_decide; [by subst|by apply Z.eqb_neq].
Qed.

Lemma testbit_shift_window w d k :
  in_u 64 w → 0 ≤ d → 0 ≤ k < 64 →
  Z.testbit (Z.lor (wrap_u 64 (Z.shiftl w d)) 1) k
  = bool_decide (k = 0) || Z.testbit w (k - d).
Proof.
  intros Hw Hd Hk. unfold wrap_u. rewrite Z.lor_spec, Z.mod_pow2_bits_low by lia.
  rewrite Z.shiftl_spec, testbit_one by lia. apply orb_comm.
Qed.

Lemma receive_ok_accepted st s :
  ReceiveState.ok st → in_u 32 s → ReceiveState.ok (ReceiveState.accepted st s).
Proof.
  intros (Hc & Hw & _) Hs. split; [apply wrap_u_range; lia|]. split; [|done].
  assert (∀ w, in_u 64 w → in_u 64 (Z.lor w 1)) as Hlor.
  { intros w Hww. unfold in_u in *. split; [apply Z.lor_nonneg; lia|].
    destruct (decide (w = 0)) as [->|]; [done|].
    apply Z.log2_lt_pow2; [|rewrite Z.log2_lor by lia].
    - assert (Z.lor w 1 ≠ 0); [|pose proof (proj2 (Z.lor_nonneg w 1)); lia].
      intros He%Z.lor_eq_0_iff. lia.
    - assert (Z.log2 w < 64) by (apply Z.log2_lt_pow2; lia). simpl. lia. }
  unfold ReceiveState.accepted. cbn [ReceiveState.window].
  destruct (ReceiveState.last_sequence st); [|by unfold in_u].
  destruct (_ =? 0); [by apply Hlor|]. destruct (_ && _); [|by unfold in_u].
  apply Hlor, wrap_u_range. lia.
Qed.

Lemma accept_all_ok history : Forall (in_u 32) history → ReceiveState.ok (accept_all history).
Proof.
  induction 1 as [|s h Hs Hh IH]; [by repeat split|]. by apply receive_ok_accepted.
Qed.

(** The window's exact content. *)
Lemma window_spec history k :
  Forall (in_u 32) history → history ≠ [] → 0 ≤ k < 64 →
  Z.testbit (ReceiveState.window (accept_all history)) k = true ↔
  ∃ i, run_distance history i = Some k.
Proof.
  intros Hh Hne Hk. revert k Hk. induction history as [|x [|p rest] IH]; intros k Hk; [done| |].
  - simpl. rewrite testbit_one, bool_decide_eq_true by lia. split; [intros ->; by exists 0%nat|].
    intros [[|i] Hi]; naive_solver.
  - apply Forall_cons in Hh as [Hx Hh]. specialize (IH Hh ltac:(done)).
    assert ((∃ i, run_distance (x :: p :: rest) i = Some k) ↔ k = 0 ∨
      wrap_u 32 (x - p) ≤ 63 ∧ wrap_u 32 (x - p) ≤ k ∧
      ∃ i, run_distance (p :: rest) i = Some (k - wrap_u 32 (x - p))) as ->.
    { split.
      - intros [[|i] Hi]; [left; naive_solver|right]. rewrite run_distance_S in Hi.
        destruct (Z.leb_spec (wrap_u 32 (x - p)) 63); [|done].
        apply fmap_Some in Hi as (k' & Hi & ->). apply run_distance_nonneg in Hi as ?.
        split; [done|]. split; [lia|]. exists i. rewrite Hi. f_equal. lia.
      - intros [->|(Hd & _ & i & Hi)]; [by exists 0%nat|]. exists (S i).
        rewrite run_distance_S, Hi. destruct (Z.leb_spec (wrap_u 32 (x - p)) 63); [|lia].
        simpl. f_equal. lia. }
    change (accept_all (x :: p :: rest))
      with (ReceiveState.accepted (accept_all (p :: rest)) x).
    pose proof (accept_all_ok (p :: rest) Hh) as (_ & Hw & _).
    unfold ReceiveState.accepted. cbn [ReceiveState.window].
    change (ReceiveState.last_sequence (accept_all (p :: rest))) with (Some p). cbv beta iota zeta.
    pose proof (wrap_u32_nonneg (x - p)) as Hd. set (d := wrap_u 32 (x - p)) in *. clearbody d.
    set (w := ReceiveState.window (accept_all (p :: rest))) in *.
    destruct (Z.eqb_spec d 0) as [->|Hd0].
    + rewrite Z.lor_spec, testbit_one, orb_true_iff, bool_decide_eq_true, IH by lia.
      rewrite Z.sub_0_r. naive_solver lia.
    + destruct (Z.leb_spec 1 d), (Z.leb_spec d 63); simpl; try lia.
      * rewrite testbit_shift_window, orb_true_iff, bool_decide_eq_true by (done || lia).
        destruct (decide (d ≤ k)) as [Hdk|Hdk].
        -- rewrite IH by lia. naive_solver.
        -- rewrite Z.testbit_neg_r by lia. naive_solver lia.
      * rewrite testbit_one, bool_decide_eq_true by lia. naive_solver lia.
Qed.

(** The received window is exact. After any sequence of accepted requests
    it fits 64 bits, bit 0 is the request being answered, and bit [k] is set
    exactly when some accepted request lies [k] back along an unbroken run of
    forward steps of at most 63; every set bit [k] therefore names a sequence
    number (current - k) that really was accepted: the window never claims a
    request the session did not accept. *)
Theorem received_window_exact history s :
  Forall (in_u 32) (s :: history) →
  let w := ReceiveState.window (accept_all (s :: history)) in
  in_u 64 w ∧ Z.testbit w 0 = true ∧
  ∀ k, 0 ≤ k < 64 →
    (Z.testbit w k = true ↔ ∃ i, run_distance (s :: history) i = Some k) ∧
    (Z.testbit w k = true → wrap_u 32 (s - k) ∈ s :: history).
Proof.
  intros Hh w. split; [by apply accept_all_ok|]. split.
  - apply window_spec; [done..|lia|]. by exists 0%nat.
  - intros k Hk. pose proof (window_spec (s :: history) k Hh ltac:(done) Hk) as Hw.
    split; [done|]. intros [i Hi]%Hw.
    apply (run_distance_sequence _ _ _ s) in Hi; [|done..]. by eapply list_elem_of_lookup_2.
Qed.

Lemma received_window_exact_witness :
  ReceiveState.window (accept_all [7; 5; 4]) = 13 ∧
  ReceiveState.window (accept_all [2; 7; 5; 4]) = 1 ∧
  wrap_u 32 (7 - 3) ∈ [7; 5; 4].
Proof.
  split; [reflexivity|]. split; [reflexivity|].
  apply (received_window_exact [5; 4] 7); [decide_now|lia|reflexivity].
Defined.

(** ** The reply allowance over a sequence of requests *)

(** The outcome of charging at each of the given times in turn. *)
Fixpoint charge_all (s : RateState.t) (times : list Z) : list bool * RateState.t :=
  match times with
  | [] => ([], s)
  | t :: times =>
      let d := charge s t in
      let '(outcomes, final) := charge_all (decision_state d) times in
      (is_allowed d :: outcomes, final)
  end.

Definition count_allowed (outcomes : list bool) : Z := len (filter (λ b : bool, b = true) outcomes).

Lemma count_allowed_cons b l : count_allowed (b :: l) = (if b then 1 else 0) + count_allowed l.
Proof.
  unfold count_allowed. rewrite filter_cons.
  destruct b; [by rewrite decide_True, len_cons | by rewrite decide_False].
Qed.

(** Request times: non-decreasing from [start], within the monotonic clock. *)
Fixpoint times_from (start : Z) (times : list Z) : Prop :=
  match times with [] => True | t :: times => start ≤ t ≤ I64_MAX ∧ times_from t times end.

#[export] Instance times_from_dec start times : Decision (times_from start times).
Proof. revert start. induction times; simpl; apply _. Defined.

(** What one accounting does, without the saturations, which cannot trigger. *)
Lemma replenish_spec s now :
  RateState.ok now s → 0 < interval_ns s → now ≤ I64_MAX →
  let g := (now - refilled_at_ns s) / interval_ns s in
  replenish s now =
    if decide (allowance s = burst s) then RateState.mk (burst s) (interval_ns s) (burst s) now
    else if decide (burst s ≤ allowance s + g)
         then RateState.mk (burst s) (interval_ns s) (burst s) now
         else RateState.mk (burst s) (interval_ns s) (allowance s + g)
                (refilled_at_ns s + g * interval_ns s).
Proof.
  intros [Hb [_ Hi] Ha Hr] Hi0 Hnow g. unfold in_u, in_i, I64_MAX in *. unfold replenish.
  destruct s as [b i a r]. cbn [burst interval_ns allowance refilled_at_ns] in *.
  destruct (Z.leb_spec b a); [by rewrite decide_True by lia|]. rewrite decide_False by lia.
  rewrite sat_i64_id by (unfold in_i; lia).
  pose proof (Z.div_mod (now - r) i ltac:(lia)) as Hdm.
  pose proof (Z.mod_pos_bound (now - r) i ltac:(lia)) as Hm. fold g in Hdm.
  assert (0 ≤ g) as Hg by (apply Z.div_pos; lia).
  destruct (Z.ltb_spec (now - r) i) as [Hlt|Hge].
  - assert (g = 0) as -> by (apply Z.div_small; lia). rewrite decide_False by lia.
    f_equal; lia.
  - rewrite Z.quot_div_nonneg by lia. fold g. clearbody g.
    assert (0 ≤ i * g ≤ now - r) by lia.
    rewrite (sat_i64_id (g * i)) by (unfold in_i; lia).
    rewrite (sat_i64_id (r + _)) by (unfold in_i; lia).
    unfold try_u32, sat_u32, in_u, U32_MAX.
    destruct (decide (b ≤ a + g)) as [Hcap|Hcap].
    + assert (Z.min (Z.max 0 (Z.min (2 ^ 32 - 1) (a + (match (if decide (0 ≤ g < 2 ^ 32)
        then Some g else None) with Some x => x | None => 2 ^ 32 - 1 end)))) b = b) as ->
        by (case_decide; lia).
      by rewrite Z.eqb_refl.
    + rewrite decide_True by lia.
      replace (Z.min (Z.max 0 (Z.min (2 ^ 32 - 1) (a + g))) b) with (a + g) by lia.
      destruct (Z.eqb_spec (a + g) b); [lia|]. done.
Qed.

Lemma charge_ok s now t :
  RateState.ok now s → now ≤ t ≤ I64_MAX → RateState.ok t (decision_state (charge s t)).
Proof.
  intros Hs Ht. unfold charge.
  assert (RateState.ok t s) as Hst by (destruct Hs; split; try done; lia).
  destruct (burst s =? 0); [done|]. destruct (Z.eqb_spec (interval_ns s) 0); [done|].
  pose proof Hst as [Hb [Hi0 Hi] Ha Hr].
  assert (RateState.ok t (replenish s t)) as Hrep.
  { rewrite replenish_spec by (done || lia).
    pose proof (Z.div_mod (t - refilled_at_ns s) (interval_ns s) ltac:(lia)).
    pose proof (Z.mod_pos_bound (t - refilled_at_ns s) (interval_ns s) ltac:(lia)).
    assert (0 ≤ (t - refilled_at_ns s) / interval_ns s) by (apply Z.div_pos; lia).
    repeat case_decide; split; simpl; try done; unfold in_u in *; first [lia|nia]. }
  cbv zeta. destruct Hrep as [? ? Ha' ?]. destruct (Z.eqb_spec (allowance (replenish s t)) 0);
    [by split|]. split; simpl; try done. lia.
Qed.

Lemma div_add_le a b c : 0 < c → 0 ≤ a → 0 ≤ b → a / c + b / c ≤ (a + b) / c.
Proof.
  intros. apply Z.div_le_lower_bound; [done|].
  pose proof (Z.mul_div_le a c ltac:(lia)). pose proof (Z.mul_div_le b c ltac:(lia)). lia.
Qed.

(** One charge pays for itself out of the elapsed time. *)
Lemma charge_potential s now t T :
  RateState.ok now s → 0 < interval_ns s → now ≤ t → t ≤ T → T ≤ I64_MAX →
  let s' := decision_state (charge s t) in
  (if is_allowed (charge s t) then 1 else 0) + allowance s'
    + (T - refilled_at_ns s') / interval_ns s'
  ≤ allowance s + (T - refilled_at_ns s) / interval_ns s.
Proof.
  intros Hs Hi Ht HT Hmax. unfold charge.
  assert (RateState.ok t s) as Hst by (destruct Hs; split; try done; lia).
  pose proof Hst as [Hb [_ Hi64] Ha Hr].
  destruct (burst s =? 0); simpl; [lia|]. destruct (Z.eqb_spec (interval_ns s) 0); [lia|].
  set (i := interval_ns s) in *. set (r := refilled_at_ns s) in *.
  assert (allowance (replenish s t) + (T - refilled_at_ns (replenish s t)) / i
          ≤ allowance s + (T - r) / i ∧ interval_ns (replenish s t) = i) as [Hrep Hint].
  { rewrite replenish_spec by (done || lia). cbv zeta. fold r i.
    pose proof (div_add_le (t - r) (T - t) i ltac:(lia) ltac:(lia) ltac:(lia)) as Hdiv.
    replace (t - r + (T - t)) with (T - r) in Hdiv by lia.
    assert (0 ≤ (t - r) / i) by (apply Z.div_pos; lia).
    repeat case_decide; cbn [allowance refilled_at_ns interval_ns]; [split; [lia|done]..|].
    split; [|done].
    replace (T - (r + (t - r) / i * i)) with ((T - r) + (- ((t - r) / i)) * i) by lia.
    rewrite Z.div_add by lia. lia. }
  cbv zeta. destruct (Z.eqb_spec (allowance (replenish s t)) 0); simpl; rewrite Hint; lia.
Qed.

Lemma charge_interval s t : interval_ns (decision_state (charge s t)) = interval_ns s.
Proof.
  unfold charge, replenish. repeat case_match; done.
Qed.

Lemma charge_all_bound s now times T :
  RateState.ok now s → 0 < interval_ns s → times_from now times → now ≤ T ≤ I64_MAX →
  Forall (λ t, t ≤ T) times →
  count_allowed (charge_all s times).1 ≤ allowance s + (T - refilled_at_ns s) / interval_ns s.
Proof.
  intros Hs Hi Hts HT Hall. revert s now Hs Hi Hts HT. induction times as [|t times IH];
    intros s now Hs Hi Hts HT.
  - destruct Hs. simpl. change (count_allowed []) with 0.
    assert (0 ≤ (T - refilled_at_ns s) / interval_ns s) by (apply Z.div_pos; lia). lia.
  - destruct Hts as [Ht Hts]. apply Forall_cons in Hall as [HtT Hall].
    pose proof (charge_ok s now t Hs Ht) as Hs'.
    pose proof (charge_potential s now t T Hs Hi ltac:(lia) HtT ltac:(lia)) as Hp. cbv zeta in Hp.
    specialize (IH Hall (decision_state (charge s t)) t Hs').
    rewrite charge_interval in IH, Hp. specialize (IH Hi Hts ltac:(lia)).
    simpl. destruct (charge_all (decision_state (charge s t)) times) as [o f].
    simpl in *. rewrite count_allowed_cons. lia.
Qed.

Lemma new_rate_ok `{Target} config params now :
  ServerConfig.ok config → params_ok params → 0 ≤ now ≤ I64_MAX →
  RateState.ok now (RateState.new config params now).
Proof.
  intros [] [] Hnow. unfold RateState.new.
  pose proof (saturating_ns_spec _ c_min_send_interval) as [Hs Hsr].
  split; simpl; [done| |unfold in_u in *; lia|lia].
  destruct (Z.leb_spec (saturating_ns (ServerConfig.min_send_interval config)) 0); simpl;
    [|destruct (Z.leb_spec (Params.interval_ns params) 0); simpl]; unfold in_i, I64_MAX in *; lia.
Qed.

(** C25: the rate limiter is a token bucket. However requests are timed, the
    ones a session answers between its opening and any later time [T] number at
    most its burst allowance plus one per whole refill interval elapsed. *)
Theorem rate_limit_bound `{Target} config params opened times T :
  ServerConfig.ok config → params_ok params → 0 ≤ opened ≤ T → T ≤ I64_MAX →
  times_from opened times → Forall (λ t, t ≤ T) times →
  let s := RateState.new config params opened in
  0 < interval_ns s →
  count_allowed (charge_all s times).1 ≤ burst s + (T - opened) / interval_ns s.
Proof.
  intros Hc Hp Ho HT Hts Hall s Hi.
  apply (charge_all_bound s opened); try done; [|lia]. by apply new_rate_ok; [..|lia].
Qed.

Lemma rate_limit_bound_witness :
  let s := RateState.new ServerConfig.default Params.default 0 in
  (charge_all s (replicate 7 9_000_000)).1 = [true; true; true; true; true; false; false] ∧
  count_allowed (charge_all s (replicate 7 9_000_000)).1 ≤ 5 + 9_000_000 / 10_000_000.
Proof.
  intros s. split; [reflexivity|].
  apply (@rate_limit_bound target64 ServerConfig.default Params.default 0 (replicate 7 9_000_000)
    9_000_000); try lia.
  - split; simpl; unfold in_u; try lia; try (vm_compute; split; congruence); done.
  - by apply params_okb_spec.
  - unfold I64_MAX. lia.
  - decide_now.
  - decide_now.
  - reflexivity.
Defined.

(** Requests spaced at least [gap] apart. *)
Fixpoint spaced (gap start : Z) (times : list Z) : Prop :=
  match times with [] => True | t :: times => start + gap ≤ t ≤ I64_MAX ∧ spaced gap t times end.
#[export] Instance spaced_dec gap start times : Decision (spaced gap start times).
Proof. revert start. induction times; simpl; apply _. Defined.

Lemma charge_spaced s now t :
  RateState.ok now s → 1 ≤ burst s → now ≤ t ≤ I64_MAX →
  1 ≤ allowance s ∨ refilled_at_ns s + interval_ns s ≤ t →
  is_allowed (charge s t) = true.
Proof.
  intros Hs Hb Ht Hor. unfold charge. destruct (Z.eqb_spec (burst s) 0); [lia|].
  destruct (Z.eqb_spec (interval_ns s) 0); [done|].
  assert (RateState.ok t s) as Hst by (destruct Hs; split; try done; lia).
  pose proof Hst as [? [? ?] ? ?].
  rewrite replenish_spec by (done || lia).
  assert (0 ≤ (t - refilled_at_ns s) / interval_ns s) by (apply Z.div_pos; lia).
  assert (refilled_at_ns s + interval_ns s ≤ t → 1 ≤ (t - refilled_at_ns s) / interval_ns s)
    by (intros; apply Z.div_le_lower_bound; lia).
  cbv zeta. repeat case_decide; cbn [allowance];
    match goal with |- context [?a =? 0] => destruct (Z.eqb_spec a 0) end; try done; lia.
Qed.

Lemma charge_burst s t : burst (decision_state (charge s t)) = burst s.
Proof. unfold charge, replenish. repeat case_match; done. Qed.

Lemma charge_all_spaced s now times gap :
  RateState.ok now s → 1 ≤ burst s → interval_ns s ≤ gap → spaced gap now times →
  Forall (λ b, b = true) (charge_all s times).1.
Proof.
  revert s now. induction times as [|t times IH]; intros s now Hs Hb Hg Hsp; [constructor|].
  destruct Hsp as [Ht Hsp]. pose proof Hs as [_ [Hi _] Ha Hr].
  simpl. pose proof (charge_ok s now t Hs ltac:(lia)) as Hs'.
  specialize (IH (decision_state (charge s t)) t Hs').
  rewrite charge_burst, charge_interval in IH. specialize (IH Hb Hg Hsp).
  destruct (charge_all (decision_state (charge s t)) times). simpl in *.
  constructor; [|done]. apply (charge_spaced s now); [done..|lia|]. right. lia.
Qed.

(** The server never enforces a cadence it did not advertise. A client that
    sends its first request at any time and then keeps at least the negotiated
    interval between requests is never rate-limited, as long as the burst
    allowance is not zero. *)
Theorem advertised_cadence_served `{Target} config params opened first times :
  ServerConfig.ok config → params_ok params → 0 ≤ opened ≤ first → first ≤ I64_MAX →
  1 ≤ ServerConfig.burst_allowance config → 0 < Params.interval_ns params →
  spaced (Params.interval_ns params) first times →
  Forall (λ b, b = true) (charge_all (RateState.new config params opened) (first :: times)).1.
Proof.
  intros Hc Hp Ho Hf Hb Hi Hsp. set (s := RateState.new config params opened).
  assert (RateState.ok opened s) as Hs by (apply (new_rate_ok config params opened Hc Hp); lia).
  assert (is_allowed (charge s first) = true) as Ha.
  { apply (charge_spaced s opened); [done|done|lia|]. left. simpl. done. }
  pose proof (charge_ok s opened first Hs ltac:(lia)) as Hs'.
  assert (interval_ns s ≤ Params.interval_ns params) as Hint.
  { unfold s, RateState.new. cbn [interval_ns].
    destruct (Z.leb_spec (saturating_ns (ServerConfig.min_send_interval config)) 0),
      (Z.leb_spec (Params.interval_ns params) 0); simpl; lia. }
  simpl. pose proof (charge_all_spaced (decision_state (charge s first)) first times
    (Params.interval_ns params) Hs') as Hall.
  rewrite charge_burst, charge_interval in Hall. specialize (Hall Hb Hint Hsp).
  destruct (charge_all (decision_state (charge s first)) times). simpl in *. by constructor.
Qed.

Lemma advertised_cadence_served_witness :
  let config := ServerConfig.with_burst_allowance 1 ServerConfig.default in
  let params := Params.set_interval_ns 2_000_000 Params.default in
  (charge_all (RateState.new config params 0) [0; 2_000_000; 4_000_000]).1 = [true; true; true] ∧
  Forall (λ b, b = true)
    (charge_all (RateState.new config params 0) [0; 2_000_000; 4_000_000]).1.
Proof.
  intros config params. split; [reflexivity|].
  apply (@advertised_cadence_served target64); simpl; try lia.
  - split; simpl; unfold in_u; try lia; try (vm_compute; split; congruence); done.
  - by apply params_okb_spec.
  - unfold I64_MAX. lia.
  - unfold I64_MAX. lia.
Defined.
