(* ===== verification/Negotiate.v ===== *)
(** * irtt-server: parameter negotiation

    Models [crates/irtt-server/src/negotiate.rs] and the admission rules of
    [core.rs] that judge a request and the session it would get. *)

From S2P Require Import Prelude ProtoBase ParamsCodec Layout ServerBase Fill.
Import ServerConfig.

Definition restrict_stamp_at (requested : StampAt.t) (allowance : TimestampAllowance) : StampAt.t :=
  match allowance with
  | AllowDual => requested
  | AllowSingle => match requested with StampAt.Both => StampAt.Midpoint | other => other end
  | AllowNone => StampAt.None
  end.

(** [i64::try_from(max_packet_length).unwrap_or(i64::MAX)]. *)
Definition length_cap (config : ServerConfig.t) : Z :=
  match try_i64 (max_packet_length config) with Some m => m | None => I64_MAX end.

(** [Duration / 4] rounds down to the nanosecond. *)
Definition idle_cap (config : ServerConfig.t) : Z := saturating_ns (idle_timeout config / 4).

Definition negotiate_params (requested : Params.t) (config : ServerConfig.t) : Params.t :=
  let p := Params.set_protocol_version PROTOCOL_VERSION requested in
  let p := if length_cap config <? Params.length p then Params.set_length (length_cap config) p
           else p in
  let p :=
    match max_test_duration config with
    | Some maximum =>
        let maximum := saturating_ns maximum in
        if (Params.duration_ns p =? 0) || (maximum <? Params.duration_ns p)
        then Params.set_duration_ns maximum p else p
    | None => p
    end in
  let minimum := saturating_ns (min_send_interval config) in
  let p := if Params.interval_ns p <? minimum then Params.set_interval_ns minimum p else p in
  let p := if (0 <? idle_cap config) && (idle_cap config <? Params.interval_ns p)
           then Params.set_interval_ns (idle_cap config) p else p in
  let p := Params.set_stamp_at
             (restrict_stamp_at (Params.stamp_at p) (timestamp_allowance config)) p in
  if dscp_allowed config then p else Params.set_dscp 0 p.

(** ** Admission (core.rs) *)

Definition open_params_are_admissible (decoded : DecodedParams) : bool :=
  let admissible (present : bool) (value : Z) := negb present || (0 <? value) in
  admissible (ParamPresence.duration_ns (presence decoded)) (Params.duration_ns (params decoded)) &&
  admissible (ParamPresence.interval_ns (presence decoded)) (Params.interval_ns (params decoded)).

Definition negotiated_params_are_admissible `{Target} (params : Params.t)
    (config : ServerConfig.t) : bool :=
  if negb (match Params.stamp_at params with StampAt.None => true | _ => false end) &&
     (match Params.clock params with Clock.Unspecified => true | _ => false end)
  then false
  else
    match echo_packet_len (match hmac_key config with Some _ => true | None => false end) params with
    | Ok n => n <=? max_packet_length config
    | _ => false
    end.

(** ** Lemmas *)

Section lemmas.
Context `{Target}.
Implicit Types (p : Params.t) (c : ServerConfig.t).

(** The negotiated value of every field, in closed form. *)
Definition negotiated_duration p c : Z :=
  match max_test_duration c with
  | Some m => if (Params.duration_ns p =? 0) || (saturating_ns m <? Params.duration_ns p)
              then saturating_ns m else Params.duration_ns p
  | None => Params.duration_ns p
  end.

Definition negotiated_interval p c : Z :=
  let floored := Z.max (Params.interval_ns p) (saturating_ns (min_send_interval c)) in
  if 0 <? idle_cap c then Z.min floored (idle_cap c) else floored.

Lemma negotiate_params_fields p c :
  negotiate_params p c =
  Params.mk PROTOCOL_VERSION (negotiated_duration p c) (negotiated_interval p c)
    (Z.min (Params.length p) (length_cap c)) (Params.received_stats p)
    (restrict_stamp_at (Params.stamp_at p) (timestamp_allowance c)) (Params.clock p)
    (if dscp_allowed c then Params.dscp p else 0) (Params.server_fill p).
Proof.
  destruct p as [v d i l rs sa ck dscp fill].
  unfold negotiate_params, negotiated_duration, negotiated_interval.
  cbn [Params.set_protocol_version Params.length Params.duration_ns Params.interval_ns].
  replace (Z.min l (length_cap c)) with (if length_cap c <? l then length_cap c else l)
    by (destruct (Z.ltb_spec (length_cap c) l); lia).
  replace (Z.max i (saturating_ns (min_send_interval c)))
    with (if i <? saturating_ns (min_send_interval c) then saturating_ns (min_send_interval c) else i)
    by (destruct (Z.ltb_spec i (saturating_ns (min_send_interval c))); lia).
  set (i' := if i <? _ then _ else i).
  replace (if 0 <? idle_cap c then Z.min i' (idle_cap c) else i')
    with (if (0 <? idle_cap c) && (idle_cap c <? i') then idle_cap c else i')
    by (destruct (Z.ltb_spec 0 (idle_cap c)), (Z.ltb_spec (idle_cap c) i'); simpl; lia).
  subst i'.
  destruct (length_cap c <? l); (destruct (max_test_duration c) as [m|];
    cbn [Params.set_length Params.duration_ns Params.interval_ns];
    [destruct ((d =? 0) || (saturating_ns m <? d))|]);
    cbn [Params.set_length Params.set_duration_ns Params.duration_ns Params.interval_ns];
    (destruct (i <? saturating_ns (min_send_interval c));
     cbn [Params.set_interval_ns Params.interval_ns];
     match goal with |- context [(0 <? ?x) && (?x <? ?y)] =>
       destruct ((0 <? x) && (x <? y)) end);
    by destruct (dscp_allowed c).
Qed.

Lemma length_cap_range c : ServerConfig.ok c →
  length_cap c = Z.min (max_packet_length c) I64_MAX ∧ in_i 64 (length_cap c).
Proof.
  intros []. unfold length_cap, try_i64, in_i, I64_MAX in *. case_decide; lia.
Qed.

Lemma idle_cap_range c : in_i 64 (idle_cap c).
Proof. apply saturating_ns_range. Qed.

Lemma negotiate_params_ok p c :
  ServerConfig.ok c → params_ok p → params_ok (negotiate_params p c).
Proof.
  intros Hc Hp. rewrite negotiate_params_fields. pose proof (length_cap_range c Hc) as [_ Hl].
  pose proof (idle_cap_range c). pose proof (saturating_ns_range (min_send_interval c)).
  destruct Hp. split; simpl.
  - by unfold in_i, PROTOCOL_VERSION.
  - unfold negotiated_duration. destruct (max_test_duration c); [|done].
    destruct (_ || _); auto with irtt.
  - unfold negotiated_interval, in_i in *. destruct (0 <? idle_cap c); lia.
  - unfold in_i in *. lia.
  - destruct (dscp_allowed c); [done|by unfold in_i].
  - done.
Qed.

(** An admissible session is one whose every echo fits the configured maximum. *)
Lemma admissible_spec p c :
  negotiated_params_are_admissible p c = true ↔
  (Params.stamp_at p = StampAt.None ∨ Params.clock p ≠ Clock.Unspecified) ∧
  ∃ n, echo_packet_len (match hmac_key c with Some _ => true | None => false end) p = Ok n ∧
       n ≤ max_packet_length c.
Proof.
  unfold negotiated_params_are_admissible.
  assert (negb (match Params.stamp_at p with StampAt.None => true | _ => false end) &&
     (match Params.clock p with Clock.Unspecified => true | _ => false end) = false ↔
     Params.stamp_at p = StampAt.None ∨ Params.clock p ≠ Clock.Unspecified) as Hg
    by (destruct (Params.stamp_at p), (Params.clock p); simpl; naive_solver).
  destruct (negb _ && _) eqn:Hb; [naive_solver|].
  destruct (echo_packet_len _ p) as [n|e|]; [|naive_solver..].
  rewrite Z.leb_le. naive_solver.
Qed.

End lemmas.

(** ** Properties *)

(** What a server negotiates is what its policy allows: version 1, a
    length, duration and stamp placement within the configured bounds, an
    interval at least the configured minimum unless capped at a quarter of the
    idle timeout, no marking when marking is off, and everything else as asked.
    A maximum duration also turns a continuous request into a finite one. *)
Theorem negotiation_within_policy `{Target} p c :
  ServerConfig.ok c → params_ok p →
  let q := negotiate_params p c in
  params_ok q ∧ Params.protocol_version q = 1 ∧
  Params.length q ≤ max_packet_length c ∧
  (∀ m, max_test_duration c = Some m → 0 ≤ Params.duration_ns p → 0 < Params.duration_ns q ≤ m) ∧
  (0 < idle_cap c → Params.interval_ns q ≤ idle_cap c) ∧
  (saturating_ns (min_send_interval c) ≤ Params.interval_ns q ∨ Params.interval_ns q = idle_cap c) ∧
  (timestamp_allowance c = AllowNone → Params.stamp_at q = StampAt.None) ∧
  (timestamp_allowance c = AllowSingle → Params.stamp_at q ≠ StampAt.Both) ∧
  (dscp_allowed c = false → Params.dscp q = 0) ∧
  Params.clock q = Params.clock p ∧ Params.received_stats q = Params.received_stats p ∧
  Params.server_fill q = Params.server_fill p.
Proof.
  intros Hc Hp q. split; [by apply negotiate_params_ok|]. subst q.
  rewrite negotiate_params_fields. simpl. pose proof (length_cap_range c Hc) as [Hl _].
  destruct Hc as [_ _ _ _ _ Hmax]. split; [done|]. split; [lia|]. split.
  { intros m Hm Hd. unfold negotiated_duration. rewrite Hm. specialize (Hmax m Hm).
    destruct (saturating_ns_spec m ltac:(lia)) as [Hs _]. unfold I64_MAX in Hs.
    destruct (Z.eqb_spec (Params.duration_ns p) 0), (Z.ltb_spec (saturating_ns m) (Params.duration_ns p));
      simpl; lia. }
  unfold negotiated_interval.
  split; [intros Hi; destruct (Z.ltb_spec 0 (idle_cap c)); lia|].
  split; [destruct (Z.ltb_spec 0 (idle_cap c)); lia|].
  repeat split; intros ->; try done. by destruct (Params.stamp_at p).
Qed.

Lemma default_config_ok `{Target} : ServerConfig.ok ServerConfig.default.
Proof.
  pose proof USIZE_MAX_lo. split; simpl; unfold DEFAULT_MAX_SESSIONS, DEFAULT_MAX_PACKET_LENGTH,
    DEFAULT_MIN_SEND_INTERVAL, DEFAULT_BURST_ALLOWANCE, DEFAULT_IDLE_TIMEOUT, MILLIS, SECS, in_u;
    try lia; done.
Qed.

Definition capped_config : ServerConfig.t :=
  ServerConfig.with_max_test_duration (3 * SECS)
    (ServerConfig.with_timestamp_allowance AllowSingle ServerConfig.default).

Lemma capped_config_ok `{Target} : ServerConfig.ok capped_config.
Proof.
  destruct default_config_ok as [H1 H2 H3 H4 H5 _].
  split; [exact H1|exact H2|exact H3|exact H4|exact H5|].
  intros d [= <-]. unfold SECS. lia.
Qed.

Lemma negotiation_within_policy_witness :
  0 < Params.duration_ns (negotiate_params (Params.set_stamp_at StampAt.Both Params.default)
        capped_config) ≤ 3 * SECS ∧
  Params.stamp_at (negotiate_params (Params.set_stamp_at StampAt.Both Params.default) capped_config)
    = StampAt.Midpoint.
Proof.
  split; [|reflexivity].
  apply (@negotiation_within_policy target64 (Params.set_stamp_at StampAt.Both Params.default)
    capped_config); [apply capped_config_ok | by apply params_okb_spec | reflexivity | simpl; lia].
Defined.

(** Negotiation restricts and nothing more: negotiating a negotiated value
    changes nothing, so the returned parameters are a fixed point that a strict
    client can ask for and get. *)
Theorem negotiation_idempotent `{Target} p c :
  ServerConfig.ok c → params_ok p →
  negotiate_params (negotiate_params p c) c = negotiate_params p c.
Proof.
  intros Hc Hp. rewrite !negotiate_params_fields. simpl. f_equal.
  - destruct Hc as [_ _ _ _ _ Hmax]. unfold negotiated_duration.
    cbn [Params.duration_ns]. destruct (max_test_duration c) as [m|]; [|done].
    specialize (Hmax m eq_refl). destruct (saturating_ns_spec m ltac:(lia)) as [Hs _].
    unfold I64_MAX in Hs.
    destruct (Z.eqb_spec (Params.duration_ns p) 0) as [H0|H0]; simpl.
    + rewrite Z.ltb_irrefl, orb_false_r. by destruct (_ =? 0).
    + destruct (Z.ltb_spec (saturating_ns m) (Params.duration_ns p)).
      * rewrite Z.ltb_irrefl, orb_false_r. by destruct (_ =? 0).
      * destruct (Z.eqb_spec (Params.duration_ns p) 0); [done|]. simpl.
        destruct (Z.ltb_spec (saturating_ns m) (Params.duration_ns p)); [lia|done].
  - unfold negotiated_interval. cbn [Params.interval_ns].
    destruct (Z.ltb_spec 0 (idle_cap c)); lia.
  - lia.
  - by destruct (timestamp_allowance c), (Params.stamp_at p).
  - by destruct (dscp_allowed c).
Qed.

Lemma negotiation_idempotent_witness :
  negotiate_params (negotiate_params Params.default capped_config) capped_config
  = negotiate_params Params.default capped_config.
Proof.
  apply (@negotiation_idempotent target64); [apply capped_config_ok | by apply params_okb_spec].
Defined.
