(* ===== verification/ServerCore.v ===== *)
(** * irtt-server: the protocol engine

    Models [crates/irtt-server/src/core.rs]: [ServerCore::process] and the
    handlers it dispatches to, as functions from a state and a datagram to an
    outcome and the next state. *)

From S2P Require Import Prelude ProtoBase Envelope ParamsCodec Layout OpenCodec RequestCodec.
From S2P Require Import EchoCodec ServerBase Fill Session Negotiate.
Import RateState.

(** [struct OutboundDatagram]. *)
Module OutboundDatagram.
Record t : Type := mk { bytes_of : bytes; traffic_class : Z }.
Definition unmarked (b : bytes) : t := mk b 0.
End OutboundDatagram.

(** [struct EchoRequest]. *)
Module EchoRequest.
Record t : Type := mk {
  token : Z;
  sequence : Z;
  datagram_len : Z;
  received_at : ClockSample.t;
  receive_wall_ns : Z;
}.
End EchoRequest.

(** [enum ClassifiedKind]. *)
Inductive ClassifiedKind : Type :=
  | CkOpen (no_test : bool) (params : bytes)
  | CkClose (token : Z)
  | CkEcho (request : EchoRequest.t).

(** [struct ServerCore]: the session table is a map by token; the token source
    and the clock are the host, of which the state is how far it was read. *)
Module ServerCore.
Record t : Type := mk {
  config : ServerConfig.t;
  sessions : gmap Z Session.t;
  host : HostState;
}.
Definition set_sessions (m : gmap Z Session.t) (c : t) : t := mk (config c) m (host c).
Definition set_host (h : HostState) (c : t) : t := mk (config c) (sessions c) h.
Definition session_count (c : t) : Z := Z.of_nat (size (sessions c)).
End ServerCore.
Import ServerCore.

Definition new (config : ServerConfig.t) : ServerCore.t :=
  ServerCore.mk config ∅ (mk_HostState 0 0 0).

Definition transport_traffic_class (params : Params.t) : Z :=
  match try_u8 (Params.dscp params) with Some b => b | None => 0 end.

Definition same_endpoint (session peer : SocketAddr) : bool :=
  match session, peer with
  | V6 ip port _ scope, V6 ip' port' _ scope' =>
      (ip =? ip') && (port =? port') && (scope =? scope')
  | _, _ => bool_decide (session = peer)
  end.

Definition MAX_KERNEL_RX_LAG : Z := 1 * SECS.

Definition preferred_receive_wall_ns (kernel_rx_timestamp : option Z) (received_at : ClockSample.t)
    : Z :=
  let userspace_wall_ns := ClockSample.wall_ns received_at in
  match kernel_rx_timestamp ≫= wall_ns_of with
  | None => userspace_wall_ns
  | Some kernel_wall_ns =>
      let lag_ns := userspace_wall_ns - kernel_wall_ns in
      if (0 <=? lag_ns) && (lag_ns <=? saturating_ns MAX_KERNEL_RX_LAG)
      then kernel_wall_ns else userspace_wall_ns
  end.

(** [bool::then_some]. *)
Definition then_some {A} (b : bool) (a : A) : option A := if b then Some a else None.

Definition timestamp_fields (params : Params.t) (received sent : ClockSample.t)
    (receive_wall_ns : Z) : TimestampFields.t :=
  let received := ClockSample.not_after received sent in
  let receive_wall_ns := Z.min receive_wall_ns (ClockSample.wall_ns sent) in
  let has_wall := Clock.has_wall (Params.clock params) in
  let has_mono := Clock.has_mono (Params.clock params) in
  let per_clock (sample : ClockSample.t) :=
    (then_some has_wall (ClockSample.wall_ns sample),
     then_some has_mono (ClockSample.mono_ns sample)) in
  let arrival := (then_some has_wall receive_wall_ns,
                  then_some has_mono (ClockSample.mono_ns received)) in
  let absent := (None, None) in
  let '(recv, midpoint, send) :=
    match Params.stamp_at params with
    | StampAt.None => (absent, absent, absent)
    | StampAt.Receive => (arrival, absent, absent)
    | StampAt.Send => (absent, absent, per_clock sent)
    | StampAt.Both => (arrival, absent, per_clock sent)
    | StampAt.Midpoint => (absent, per_clock (ClockSample.midpoint received sent), absent)
    end in
  TimestampFields.mk recv.1 recv.2 midpoint.1 midpoint.2 send.1 send.2.

Section core.
Context `{Target} `{!HmacMd5} `{!Host}.
Implicit Types (self : ServerCore.t) (peer : SocketAddr).

Abbreviation outcome := (Result ServerError (option OutboundDatagram.t)).

Definition release_expired_sessions (now_ns : Z) self : ServerCore.t :=
  let idle_timeout_ns := saturating_ns (ServerConfig.idle_timeout (config self)) in
  set_sessions
    (filter (λ '(_, session), Session.is_idle_expired session now_ns idle_timeout_ns = false)
       (sessions self)) self.

Definition maintain self : ServerCore.t :=
  let '(s, host) := sample (host self) in
  release_expired_sessions (ClockSample.mono_ns s) (set_host host self).

Definition classify (kind : DecodedRequestKind) (datagram_len : Z) (kernel_rx_timestamp : option Z)
    self : ClassifiedKind * ServerCore.t :=
  match kind with
  | DecOpen no_test params => (CkOpen no_test params, self)
  | DecClose token => (CkClose token, self)
  | DecEcho token sequence _ =>
      let '(received_at, host) := sample (host self) in
      (CkEcho (EchoRequest.mk token sequence datagram_len received_at
                 (preferred_receive_wall_ns kernel_rx_timestamp received_at)),
       set_host host self)
  end.

(** The reply an admitted echo is answered with. *)
Definition echo_reply (request : EchoRequest.t) (params : Params.t) (closing : bool)
    (next : ReceiveState.t) (sent_at : ClockSample.t) (payload : bytes) : EchoReply.t :=
  EchoReply.mk (Z.lor FLAG_REPLY (if closing then FLAG_CLOSE else 0))
    (EchoRequest.token request) (EchoRequest.sequence request)
    (then_some (ReceivedStats.has_count (Params.received_stats params)) (ReceiveState.count next))
    (then_some (ReceivedStats.has_window (Params.received_stats params)) (ReceiveState.window next))
    (timestamp_fields params (EchoRequest.received_at request) sent_at
       (EchoRequest.receive_wall_ns request))
    payload.

Definition handle_echo peer (request : EchoRequest.t) self : outcome * ServerCore.t :=
  if decide (ServerConfig.max_packet_length (config self) < EchoRequest.datagram_len request)
  then (Ok None, self)
  else
    match sessions self !! EchoRequest.token request with
    | None => (Ok None, self)
    | Some session =>
        if negb (same_endpoint (Session.peer session) peer) then (Ok None, self)
        else
          let now_ns := ClockSample.mono_ns (EchoRequest.received_at request) in
          match charge (Session.rate session) now_ns with
          | Limited next =>
              let next_lifetime := LifetimeState.refreshed (Session.lifetime session) now_ns in
              let session := Session.commit_lifetime_state
                               (Session.commit_rate_state session next) next_lifetime in
              (Ok None,
               set_sessions (<[EchoRequest.token request := session]> (sessions self)) self)
          | Allowed next_rate =>
              let closing :=
                match ServerConfig.max_test_duration (config self) with
                | Some maximum =>
                    LifetimeState.max_duration_reached (Session.lifetime session) now_ns
                      (saturating_ns maximum)
                | None => false
                end in
              let next := ReceiveState.accepted (Session.receive session)
                            (EchoRequest.sequence request) in
              let next_lifetime := LifetimeState.served (Session.lifetime session) now_ns in
              let '(sent_at, host) := sample (host self) in
              let params := Session.params session in
              let key := ServerConfig.hmac_key (config self) in
              let payload_len := echo_payload_len (Envelope.is_some key) params in
              let traffic_class := transport_traffic_class params in
              let '(payload, host) := payload (Session.fill session) payload_len host in
              let reply := echo_reply request params closing next sent_at payload in
              let self := set_host host self in
              match encode_echo_reply reply params key with
              | Panic => (Panic, self)
              | Err source => (Err (ReplyEncoding source), self)
              | Ok packet =>
                  let sessions :=
                    if (closing : bool) then delete (EchoRequest.token request) (sessions self)
                    else
                      <[EchoRequest.token request :=
                          Session.commit_lifetime_state
                            (Session.commit_receive_state
                               (Session.commit_rate_state session next_rate) next)
                            next_lifetime]> (sessions self) in
                  (Ok (Some (OutboundDatagram.mk packet traffic_class)),
                   set_sessions sessions self)
              end
          end
    end.

Fixpoint allocate_token_loop (attempts : nat) self : Result ServerError Z * ServerCore.t :=
  match attempts with
  | O => (Err (TokenExhausted (Z.of_nat TOKEN_ATTEMPTS)), self)
  | S attempts =>
      let '(token, host) := next_token (host self) in
      let self := set_host host self in
      match token with
      | Panic => (Panic, self)
      | Err e => (Err e, self)
      | Ok token =>
          if bool_decide (token ≠ 0) && bool_decide (sessions self !! token = None)
          then (Ok token, self)
          else allocate_token_loop attempts self
      end
  end.

Definition allocate_token self : Result ServerError Z * ServerCore.t :=
  allocate_token_loop TOKEN_ATTEMPTS self.

Definition encode_reply (reply : OpenReply.t) self : Result ServerError bytes :=
  map_err ReplyEncoding (encode_open_reply reply (ServerConfig.hmac_key (config self))).

Definition handle_open peer (no_test : bool) (encoded_params : bytes) (now_ns : Z) self
    : outcome * ServerCore.t :=
  match decode_with_presence encoded_params with
  | Panic => (Panic, self)
  | Err _ => (Ok None, self)
  | Ok decoded =>
      if negb (open_params_are_admissible decoded) then (Ok None, self)
      else
        let params := negotiate_params (params decoded) (config self) in
        let '(params, fill) := negotiate_server_fill params in
        if negb (negotiated_params_are_admissible params (config self)) then (Ok None, self)
        else if no_test then
          let reply := OpenReply.mk (Z.lor (Z.lor FLAG_OPEN FLAG_REPLY) FLAG_CLOSE) 0 params in
          ((λ packet, Some (OutboundDatagram.unmarked packet)) <$> encode_reply reply self, self)
        else if decide (ServerConfig.max_sessions (config self) ≤ session_count self)
        then (Ok None, self)
        else
          let '(token, self) := allocate_token self in
          match token with
          | Panic => (Panic, self)
          | Err e => (Err e, self)
          | Ok token =>
              let reply := OpenReply.mk (Z.lor FLAG_OPEN FLAG_REPLY) token params in
              match encode_reply reply self with
              | Panic => (Panic, self)
              | Err e => (Err e, self)
              | Ok packet =>
                  (Ok (Some (OutboundDatagram.unmarked packet)),
                   set_sessions
                     (<[token := Session.new peer (OpenReply.params reply) fill (config self) now_ns]>
                        (sessions self)) self)
              end
          end
  end.

Definition handle_close peer (token : Z) self : ServerCore.t :=
  match sessions self !! token with
  | Some session =>
      if same_endpoint (Session.peer session) peer
      then set_sessions (delete token (sessions self)) self else self
  | None => self
  end.

Definition process peer (packet : bytes) (kernel_rx_timestamp : option Z) self
    : outcome * ServerCore.t :=
  match decode_request packet with
  | Panic => (Panic, self)
  | Err _ => (Ok None, self)
  | Ok request =>
      let '(kind, self) := classify (DecodedRequest.kind request) (len packet)
                             kernel_rx_timestamp self in
      let key := ServerConfig.hmac_key (config self) in
      if negb (Bool.eqb (DecodedRequest.hmac_present request) (Envelope.is_some key))
      then (Ok None, self)
      else
        let verified :=
          match key with
          | Some key => verify_packet_hmac key packet
          | None => Ok tt
          end in
        match verified with
        | Panic => (Panic, self)
        | Err _ => (Ok None, self)
        | Ok _ =>
            let '(now_ns, self) :=
              match kind with
              | CkEcho echo => (ClockSample.mono_ns (EchoRequest.received_at echo), self)
              | _ => let '(s, host) := sample (host self) in
                     (ClockSample.mono_ns s, set_host host self)
              end in
            let self := release_expired_sessions now_ns self in
            match kind with
            | CkOpen no_test params => handle_open peer no_test params now_ns self
            | CkClose token => (Ok None, handle_close peer token self)
            | CkEcho echo => handle_echo peer echo self
            end
        end
  end.

Definition handle_datagram peer (packet : bytes) self : outcome * ServerCore.t :=
  process peer packet None self.

Definition handle_received_datagram peer (packet : bytes) (kernel_rx_timestamp : option Z) self
    : outcome * ServerCore.t :=
  process peer packet kernel_rx_timestamp self.

End core.

Arguments maintain : simpl never.

(** ** The invariant *)

Section theory.
Context `{Target} `{!HmacMd5} `{!Host}.
Implicit Types (self : ServerCore.t) (peer : SocketAddr) (c : ServerConfig.t).

(** The monotonic instant the next reading will return. *)
Definition next_time self : Z := ClockSample.mono_ns (sample (host self)).1.

Record session_ok c (now : Z) (s : Session.t) : Prop := {
  s_params : params_ok (Session.params s);
  s_version : Params.protocol_version (Session.params s) = 1;
  s_admissible : negotiated_params_are_admissible (Session.params s) c = true;
  s_fill : fill_mode_ok (Session.fill s);
  s_receive : ReceiveState.ok (Session.receive s);
  s_rate : RateState.ok now (Session.rate s);
  s_burst : burst (Session.rate s) = ServerConfig.burst_allowance c;
  s_activity : 0 ≤ LifetimeState.last_activity_ns (Session.lifetime s) ≤ now;
}.

Record core_ok self : Prop := {
  k_config : ServerConfig.ok (config self);
  k_sessions : ∀ token s, sessions self !! token = Some s →
    token ≠ 0 ∧ in_u 64 token ∧ session_ok (config self) (next_time self) s;
  k_count : session_count self ≤ ServerConfig.max_sessions (config self);
}.

Lemma rate_ok_mono now now' s : now ≤ now' → RateState.ok now s → RateState.ok now' s.
Proof. intros ? []. split; try done. lia. Qed.

Lemma session_ok_mono c now now' s : now ≤ now' → session_ok c now s → session_ok c now' s.
Proof. intros ? []. split; try done; [by eapply rate_ok_mono|lia]. Qed.

Lemma next_time_range self : 0 ≤ next_time self ≤ I64_MAX.
Proof.
  unfold next_time. pose proof (sample_mono_nonneg (host self)).
  destruct (sample_ok (host self)) as [_ Hm]. unfold in_i, I64_MAX in *. lia.
Qed.

Lemma next_time_mono self self' :
  (clock_reads (host self) ≤ clock_reads (host self'))%nat → next_time self ≤ next_time self'.
Proof. apply sample_monotone. Qed.

(** Every session of a table obtained by replacing, deleting or adding good
    sessions is good. *)
Lemma core_ok_update self self' token (o : option Session.t) :
  core_ok self → config self' = config self → next_time self ≤ next_time self' →
  sessions self' = partial_alter (λ _, o) token (sessions self) →
  session_count self' ≤ ServerConfig.max_sessions (config self) →
  (∀ s, o = Some s → token ≠ 0 ∧ in_u 64 token ∧ session_ok (config self) (next_time self') s) →
  core_ok self'.
Proof.
  intros [Hc Hs Hn] Hcfg Ht Hm Hcount Ho. split; [by rewrite Hcfg| |by rewrite Hcfg].
  intros t s. rewrite Hm, Hcfg. destruct (decide (t = token)) as [->|Hne].
  - rewrite lookup_partial_alter_eq. apply Ho.
  - rewrite lookup_partial_alter_ne by done. intros (? & ? & ?)%Hs.
    do 2 (split; [done|]). by eapply session_ok_mono.
Qed.

Lemma core_ok_same self self' :
  core_ok self → config self' = config self → next_time self ≤ next_time self' →
  sessions self' = sessions self → core_ok self'.
Proof.
  intros [Hc Hs Hn] Hcfg Ht Hm. split; [by rewrite Hcfg| |].
  - intros t s. rewrite Hm, Hcfg. intros (? & ? & ?)%Hs. do 2 (split; [done|]).
    by eapply session_ok_mono.
  - rewrite Hcfg. unfold session_count in *. by rewrite Hm.
Qed.

(** ** Expiry *)

Lemma lookup_release now self token :
  sessions (release_expired_sessions now self) !! token =
    s ← sessions self !! token;
    if Session.is_idle_expired s now (saturating_ns (ServerConfig.idle_timeout (config self)))
    then None else Some s.
Proof.
  unfold release_expired_sessions. simpl. rewrite map_lookup_filter.
  destruct (sessions self !! token) as [s|]; simpl; [|done].
  destruct (Session.is_idle_expired _ _ _) eqn:He; by case_guard.
Qed.

Lemma release_ok now self : core_ok self → core_ok (release_expired_sessions now self).
Proof.
  intros [Hc Hs Hn]. split; [done| |].
  - intros token s. rewrite lookup_release. destruct (sessions self !! token) as [s'|] eqn:Hl; [|done].
    simpl. destruct (Session.is_idle_expired _ _ _); [done|]. intros [= <-]. by apply Hs in Hl.
  - unfold session_count in *. simpl.
    match goal with |- Z.of_nat (size (filter ?P ?m)) ≤ _ => pose proof (map_size_filter P m) end. lia.
Qed.

Lemma sample_host_ok self :
  core_ok self → core_ok (set_host (sample (host self)).2 self).
Proof. intros Hk. apply (core_ok_same self); [done|done| |done]. apply next_time_mono. simpl. lia. Qed.

Lemma maintain_eq self :
  maintain self = release_expired_sessions (next_time self) (set_host (sample (host self)).2 self).
Proof. unfold maintain, next_time. by destruct (sample (host self)). Qed.

Lemma maintain_ok self : core_ok self → core_ok (maintain self).
Proof. intros. rewrite maintain_eq. by apply release_ok, sample_host_ok. Qed.

Lemma next_time_maintain self : next_time self ≤ next_time (maintain self).
Proof. rewrite maintain_eq. apply next_time_mono. simpl. lia. Qed.

Lemma config_maintain self : config (maintain self) = config self.
Proof. by rewrite maintain_eq. Qed.

Lemma lookup_maintain self token :
  sessions (maintain self) !! token =
    s ← sessions self !! token;
    if Session.is_idle_expired s (next_time self)
         (saturating_ns (ServerConfig.idle_timeout (config self)))
    then None else Some s.
Proof. by rewrite maintain_eq, lookup_release. Qed.

(** ** Admission: one clock reading, one sweep, then one handler *)

(** The request a datagram carries, when it is structurally valid and agrees
    with the server's authentication. *)
Definition authenticated c (packet : bytes) : option DecodedRequest.t :=
  match decode_request packet with
  | Ok r =>
      if Bool.eqb (DecodedRequest.hmac_present r) (Envelope.is_some (ServerConfig.hmac_key c)) then
        match ServerConfig.hmac_key c with
        | Some key => if is_ok (verify_packet_hmac key packet) then Some r else None
        | None => Some r
        end
      else None
  | _ => None
  end.

(** The handlers, on the state after the sweep. *)
Definition dispatch peer (packet : bytes) (kernel : option Z) (now : Z) (received : ClockSample.t)
    (kind : DecodedRequestKind) self : Result ServerError (option OutboundDatagram.t) * ServerCore.t :=
  match kind with
  | DecOpen no_test params => handle_open peer no_test params now self
  | DecClose token => (Ok None, handle_close peer token self)
  | DecEcho token sequence _ =>
      handle_echo peer (EchoRequest.mk token sequence (len packet) received
        (preferred_receive_wall_ns kernel received)) self
  end.

Lemma process_authenticated peer packet kernel self r :
  authenticated (config self) packet = Some r →
  process peer packet kernel self =
    dispatch peer packet kernel (next_time self) (sample (host self)).1 (DecodedRequest.kind r)
      (maintain self).
Proof.
  unfold authenticated, process. destruct (decode_request packet) as [r'|e|]; [|done..].
  intros Ha. destruct (Bool.eqb _ _) eqn:Hb in Ha; [|done].
  assert ((match ServerConfig.hmac_key (config self) with
    | Some key => verify_packet_hmac key packet | None => Ok tt end) = Ok tt ∧ r' = r) as [Hv <-].
  { destruct (ServerConfig.hmac_key (config self)) as [k|]; [|naive_solver].
    destruct (verify_packet_hmac k packet) as [[]|e|]; naive_solver. }
  unfold dispatch. destruct (DecodedRequest.kind r') as [nt ps|tk|tk sq tl]; cbn [classify];
    unfold maintain, next_time; destruct (sample (host self)) as [s h] eqn:Hs;
    cbn [config set_host]; rewrite Hb; cbn [negb]; rewrite Hv; try done; by rewrite Hs.
Qed.

Lemma process_unauthenticated peer packet kernel self :
  authenticated (config self) packet = None →
  (process peer packet kernel self).1 = Ok None ∧
  config (process peer packet kernel self).2 = config self ∧
  sessions (process peer packet kernel self).2 = sessions self ∧
  (clock_reads (host self) ≤ clock_reads (host (process peer packet kernel self).2))%nat.
Proof.
  unfold authenticated, process.
  destruct (decode_request packet) as [r|e|] eqn:Hd; [|done|by apply decode_request_no_panic in Hd].
  intros Ha. destruct (classify (DecodedRequest.kind r) (len packet) kernel self) as [k self'] eqn:Hc.
  assert (config self' = config self ∧ sessions self' = sessions self ∧
    (clock_reads (host self) ≤ clock_reads (host self'))%nat) as (Hcfg & Hs & Hr).
  { unfold classify in Hc. destruct (DecodedRequest.kind r).
    - by injection Hc as <- <-.
    - by injection Hc as <- <-.
    - destruct (sample (host self)) as [s h] eqn:He. injection Hc as <- <-. simpl.
      unfold sample in He. injection He as <- <-. simpl. repeat split; lia. }
  rewrite Hcfg. destruct (Bool.eqb _ _); simpl; [|done].
  destruct (ServerConfig.hmac_key (config self)) as [key|]; [|done].
  destruct (verify_packet_hmac key packet) as [[]|e|] eqn:Hv; simpl in *; [done|done|].
  by apply verify_packet_hmac_no_panic in Hv.
Qed.

(** ** Echo *)

Record echo_request_ok (now : Z) (r : EchoRequest.t) : Prop := {
  q_token : in_u 64 (EchoRequest.token r);
  q_sequence : in_u 32 (EchoRequest.sequence r);
  q_received : ClockSample.ok (EchoRequest.received_at r);
  q_wall : in_i 64 (EchoRequest.receive_wall_ns r);
  q_mono : 0 ≤ ClockSample.mono_ns (EchoRequest.received_at r) ≤ now;
}.

Lemma min_range w a b : in_i w a → in_i w b → in_i w (Z.min a b).
Proof. unfold in_i. lia. Qed.

Lemma fits_then_some (ok : Z → Prop) (b : bool) v : ok v → fits ok b (then_some b v).
Proof. by destruct b. Qed.

Lemma fits_none (ok : Z → Prop) : fits ok false None.
Proof. done. Qed.

Lemma is_some_key c :
  (match ServerConfig.hmac_key c with Some _ => true | None => false end)
  = Envelope.is_some (ServerConfig.hmac_key c).
Proof. done. Qed.

Lemma echo_reply_tail_fits (h : bool) p request closing next sent pl :
  ClockSample.ok (EchoRequest.received_at request) → ClockSample.ok sent →
  in_i 64 (EchoRequest.receive_wall_ns request) → in_u 64 (EchoRequest.token request) →
  in_u 32 (EchoRequest.sequence request) → ReceiveState.ok next →
  tail_fits (PacketLayout.echo h p) (echo_reply request p closing next sent pl).
Proof.
  intros [Hrw Hrm] [Hsw Hsm] Hw Ht Hq (Hc & Hwin & _).
  pose proof (min_range 64 _ _ Hw Hsw). pose proof (min_range 64 _ _ Hrm Hsm).
  constructor; try done; cbn [echo_reply EchoReply.recv_count EchoReply.recv_window
    EchoReply.timestamps PacketLayout.echo recv_count recv_window recv_wall recv_mono midpoint_wall
    midpoint_mono send_wall send_mono]; try by apply fits_then_some.
  all: unfold timestamp_fields; destruct (Params.stamp_at p);
    cbn [PacketLayout.receives PacketLayout.is_midpoint PacketLayout.sends andb fst snd
      TimestampFields.recv_wall TimestampFields.recv_mono TimestampFields.midpoint_wall
      TimestampFields.midpoint_mono TimestampFields.send_wall TimestampFields.send_mono];
    first [apply fits_none | apply fits_then_some]; simpl; auto with irtt.
Qed.

Lemma reply_flags_ok (closing : bool) :
  let f := Z.lor FLAG_REPLY (if closing then FLAG_CLOSE else 0) in
  flags_ok f ∧ has f FLAG_OPEN = false ∧ has f FLAG_REPLY = true ∧ has f FLAG_CLOSE = closing ∧
  has f FLAG_HMAC = false.
Proof. destruct closing; by vm_compute. Qed.

Lemma echo_payload_len_spec (h : bool) p n :
  echo_packet_len h p = Ok n →
  echo_payload_len h p = n - echo_header_len h p ∧ 0 ≤ echo_payload_len h p.
Proof.
  intros Hn. unfold echo_payload_len. rewrite Hn. apply echo_packet_len_inv in Hn as (_ & _ & Hn).
  unfold echo_header_len in *. lia.
Qed.

(** The reply of an admitted echo is always encodable. *)
Lemma echo_reply_is_ok c s request closing next sent h :
  session_ok c (ClockSample.mono_ns (EchoRequest.received_at request)) s ∨
    (∃ now, session_ok c now s) →
  ClockSample.ok (EchoRequest.received_at request) → ClockSample.ok sent →
  in_i 64 (EchoRequest.receive_wall_ns request) → in_u 64 (EchoRequest.token request) →
  in_u 32 (EchoRequest.sequence request) → ReceiveState.ok next →
  let key := ServerConfig.hmac_key c in
  let pl := (payload (Session.fill s)
               (echo_payload_len (Envelope.is_some key) (Session.params s)) h).1 in
  echo_reply_ok (Session.params s) key
    (echo_reply request (Session.params s) closing next sent pl).
Proof.
  intros Hs Hr Hsent Hw Ht Hq Hn key pl.
  assert (∃ now, session_ok c now s) as [now [Hp _ Hadm Hfill _ _ _ _]] by (destruct Hs; eauto).
  apply admissible_spec in Hadm as (_ & n & Hlen & _). rewrite is_some_key in Hlen.
  destruct (echo_payload_len_spec _ _ _ Hlen) as [Hpl Hpl0].
  destruct (reply_flags_ok closing) as (Hf & Ho & Hre & _ & _).
  destruct (payload_ok (Session.fill s) _ h Hfill Hpl0) as (Hpb & Hple & _).
  apply echo_packet_len_inv in Hlen as (Hu & Hnl & _).
  split; [done|done|done|by apply echo_reply_tail_fits|done|done|].
  simpl EchoReply.payload. subst pl key. lia.
Qed.

Definition closing_at c s (now : Z) : bool :=
  match ServerConfig.max_test_duration c with
  | Some maximum => LifetimeState.max_duration_reached (Session.lifetime s) now (saturating_ns maximum)
  | None => false
  end.

Definition limited_session s (next : RateState.t) (now : Z) : Session.t :=
  Session.commit_lifetime_state (Session.commit_rate_state s next)
    (LifetimeState.refreshed (Session.lifetime s) now).

Definition served_session s (next : RateState.t) (sequence now : Z) : Session.t :=
  Session.commit_lifetime_state
    (Session.commit_receive_state (Session.commit_rate_state s next)
       (ReceiveState.accepted (Session.receive s) sequence))
    (LifetimeState.served (Session.lifetime s) now).

(** Everything an echo can do: be dropped without a trace, be rate-limited, or
    be served with a reply that encodes. *)
Inductive echo_case peer (q : EchoRequest.t) self
    : Result ServerError (option OutboundDatagram.t) * ServerCore.t → Prop :=
  | Echo_dropped :
      (∀ s, sessions self !! EchoRequest.token q = Some s →
         ServerConfig.max_packet_length (config self) < EchoRequest.datagram_len q ∨
         same_endpoint (Session.peer s) peer = false) →
      echo_case peer q self (Ok None, self)
  | Echo_limited s next :
      sessions self !! EchoRequest.token q = Some s → same_endpoint (Session.peer s) peer = true →
      charge (Session.rate s) (ClockSample.mono_ns (EchoRequest.received_at q)) = Limited next →
      echo_case peer q self
        (Ok None, set_sessions (<[EchoRequest.token q := limited_session s next
            (ClockSample.mono_ns (EchoRequest.received_at q))]> (sessions self)) self)
  | Echo_served s next h sent pl packet :
      sessions self !! EchoRequest.token q = Some s → same_endpoint (Session.peer s) peer = true →
      charge (Session.rate s) (ClockSample.mono_ns (EchoRequest.received_at q)) = Allowed next →
      (clock_reads (host self) ≤ clock_reads h)%nat → sent = (sample (host self)).1 →
      (let closing := closing_at (config self) s
                        (ClockSample.mono_ns (EchoRequest.received_at q)) in
       let reply := echo_reply q (Session.params s) closing
                      (ReceiveState.accepted (Session.receive s) (EchoRequest.sequence q)) sent pl in
       echo_reply_ok (Session.params s) (ServerConfig.hmac_key (config self)) reply ∧
       encode_echo_reply reply (Session.params s) (ServerConfig.hmac_key (config self)) = Ok packet) →
      echo_case peer q self
        (Ok (Some (OutboundDatagram.mk packet (transport_traffic_class (Session.params s)))),
         set_sessions
           (if closing_at (config self) s (ClockSample.mono_ns (EchoRequest.received_at q))
            then delete (EchoRequest.token q) (sessions self)
            else <[EchoRequest.token q := served_session s next (EchoRequest.sequence q)
                    (ClockSample.mono_ns (EchoRequest.received_at q))]> (sessions self))
           (set_host h self)).

Lemma handle_echo_cases peer q self :
  core_ok self → echo_request_ok (next_time self) q → echo_case peer q self (handle_echo peer q self).
Proof.
  intros [Hc Hs _] [Ht Hq Hr Hw Hm]. unfold handle_echo.
  case_decide as Hlen; [apply Echo_dropped; by left|].
  destruct (sessions self !! EchoRequest.token q) as [s|] eqn:Hl;
    [|apply Echo_dropped; by rewrite Hl].
  destruct (same_endpoint (Session.peer s) peer) eqn:Hsame; simpl negb; cbv iota;
    [|apply Echo_dropped; rewrite Hl; intros s' [= <-]; by right].
  cbv zeta. destruct (charge _ _) as [next|next] eqn:Hch; [|by eapply Echo_limited].
  fold (closing_at (config self) s (ClockSample.mono_ns (EchoRequest.received_at q))).
  destruct (sample (host self)) as [sent h] eqn:Hsam.
  destruct (payload (Session.fill s) _ h) as [pl h'] eqn:Hpay.
  apply Hs in Hl as Hsok. destruct Hsok as (_ & _ & Hsok).
  assert (ClockSample.ok sent) as Hsent by (pose proof (sample_ok (host self)) as Hso;
    by rewrite Hsam in Hso).
  pose proof (receive_ok_accepted (Session.receive s) (EchoRequest.sequence q)
    (s_receive _ _ _ Hsok) Hq) as Hnext.
  pose proof (echo_reply_is_ok (config self) s q (closing_at (config self) s
    (ClockSample.mono_ns (EchoRequest.received_at q))) _ sent h (or_intror (ex_intro _ _ Hsok))
    Hr Hsent Hw Ht Hq Hnext) as Hok.
  cbv zeta in Hok. rewrite Hpay in Hok. simpl fst in Hok.
  rewrite (encode_echo_reply_ok _ _ _ Hok). cbn [set_host config sessions].
  refine (Echo_served peer q self s next h' sent pl _ Hl Hsame Hch _ _ _).
  - apply (f_equal snd) in Hpay. simpl in Hpay. rewrite <- Hpay, payload_clock.
    injection Hsam as _ <-. simpl. lia.
  - by rewrite Hsam.
  - split; [exact Hok|]. by apply encode_echo_reply_ok.
Qed.

Lemma session_new_ok c p fill peer now now' :
  ServerConfig.ok c → params_ok p → Params.protocol_version p = 1 →
  negotiated_params_are_admissible p c = true → fill_mode_ok fill → 0 ≤ now ≤ now' →
  now ≤ I64_MAX → session_ok c now' (Session.new peer p fill c now).
Proof.
  intros Hc Hp Hv Ha Hf Hn Hmax. split; try done.
  apply (rate_ok_mono now); [lia|]. apply (new_rate_ok c p now Hc Hp). lia.
Qed.

Lemma limited_session_ok c now now' s next :
  session_ok c now' s → charge (Session.rate s) now = Limited next → 0 ≤ now ≤ now' →
  now' ≤ I64_MAX → (∃ past, RateState.ok past (Session.rate s) ∧ past ≤ now) →
  session_ok c now' (limited_session s next now).
Proof.
  intros [] Hch Hn Hmax (past & Hpast & Hle).
  pose proof (charge_ok _ past now Hpast ltac:(lia)) as Hr.
  pose proof (charge_burst (Session.rate s) now) as Hb. rewrite Hch in Hr, Hb. simpl in *.
  split; simpl; try done; first [by apply (rate_ok_mono now); [lia|] | by rewrite Hb | lia].
Qed.

Lemma served_session_ok c now now' s next sequence :
  session_ok c now' s → charge (Session.rate s) now = Allowed next → 0 ≤ now ≤ now' →
  now' ≤ I64_MAX → (∃ past, RateState.ok past (Session.rate s) ∧ past ≤ now) →
  in_u 32 sequence → session_ok c now' (served_session s next sequence now).
Proof.
  intros [] Hch Hn Hmax (past & Hpast & Hle) Hq.
  pose proof (charge_ok _ past now Hpast ltac:(lia)) as Hr.
  pose proof (charge_burst (Session.rate s) now) as Hb. rewrite Hch in Hr, Hb. simpl in *.
  split; simpl; try done;
    first [by apply receive_ok_accepted | by apply (rate_ok_mono now); [lia|] | by rewrite Hb | lia].
Qed.

(** The state an echo handler runs in: its request was received at the instant
    the sweep was judged at. *)
Definition swept_at (now : Z) self : Prop :=
  core_ok self ∧ 0 ≤ now ≤ next_time self ∧
  ∀ token s, sessions self !! token = Some s → session_ok (config self) now s.

Lemma maintain_swept self : core_ok self → swept_at (next_time self) (maintain self).
Proof.
  intros Hk. split; [by apply maintain_ok|]. split.
  - pose proof (next_time_range self). pose proof (next_time_maintain self). lia.
  - intros token s. rewrite lookup_maintain, config_maintain.
    destruct (sessions self !! token) as [s'|] eqn:Hl; [|done].
    simpl. destruct (Session.is_idle_expired _ _ _); [done|]. intros [= <-].
    by apply (k_sessions _ Hk) in Hl as (_ & _ & ?).
Qed.

Lemma handle_echo_core_ok peer q self :
  swept_at (ClockSample.mono_ns (EchoRequest.received_at q)) self →
  echo_request_ok (next_time self) q →
  core_ok (handle_echo peer q self).2 ∧ config (handle_echo peer q self).2 = config self ∧
  no_panic (handle_echo peer q self).1 ∧ (∀ e, (handle_echo peer q self).1 ≠ Err e).
Proof.
  intros (Hk & Hnow & Hsw) Hq. pose proof (next_time_range self) as Hmax.
  destruct (handle_echo_cases peer q self Hk Hq) as [|s next Hl _ Hch
    |s next h sent pl packet Hl _ Hch Hh _ _]; simpl; [done|..].
  - split; [|done]. apply (k_sessions _ Hk) in Hl as Hs. destruct Hs as (Hz & Ht & Hs).
    eapply (core_ok_update self _ (EchoRequest.token q)); [done|done| |reflexivity| |].
    + apply next_time_mono. done.
    + pose proof (k_count _ Hk) as Hc. unfold session_count in *. simpl.
      rewrite map_size_insert_Some by eauto. done.
    + intros s' [= <-]. do 2 (split; [done|]).
      change (next_time (set_sessions ?m self)) with (next_time self).
      eapply limited_session_ok; [done|done|lia|lia|].
      exists (ClockSample.mono_ns (EchoRequest.received_at q)). split; [|done].
      by apply Hsw in Hl as [].
  - split; [|done]. apply (k_sessions _ Hk) in Hl as Hs. destruct Hs as (Hz & Ht & Hs).
    set (self' := set_sessions _ _).
    assert (next_time self ≤ next_time self') as Hnt by by apply next_time_mono.
    pose proof (next_time_range self').
    pose proof (k_count _ Hk) as Hc. unfold session_count in *.
    destruct (closing_at _ _ _).
    + eapply (core_ok_update self _ (EchoRequest.token q) None); [done|done|done|reflexivity| |done].
      subst self'. unfold session_count. simpl. rewrite map_size_delete_Some by eauto. lia.
    + eapply (core_ok_update self _ (EchoRequest.token q)); [done|done|done|reflexivity| |].
      * subst self'. unfold session_count. simpl. rewrite map_size_insert_Some by eauto. done.
      * intros s' [= <-]. do 2 (split; [done|]).
        eapply served_session_ok; [by eapply session_ok_mono|done|lia|lia| |apply Hq].
        exists (ClockSample.mono_ns (EchoRequest.received_at q)). split; [|done].
        by apply Hsw in Hl as [].
Qed.

(** ** Open *)

(** Draws until a value is usable, or the draws or the attempts run out. *)
Lemma allocate_token_loop_spec n self :
  let '(r, self') := allocate_token_loop n self in
  config self' = config self ∧ sessions self' = sessions self ∧
  clock_reads (host self') = clock_reads (host self) ∧
  match r with
  | Ok token => token ≠ 0 ∧ in_u 64 token ∧ sessions self !! token = None
  | Err e => (∃ reason, e = RandomSource reason) ∨ e = TokenExhausted (Z.of_nat TOKEN_ATTEMPTS)
  | Panic => False
  end.
Proof.
  revert self. induction n as [|n IH]; intros self; cbn [allocate_token_loop]; [by auto|].
  unfold next_token. destruct (getrandom_u64 (token_draws (host self))) as [reason|token] eqn:Hg.
  - do 3 (split; [done|]). eauto.
  - apply getrandom_u64_range in Hg. cbn [sessions set_host].
    destruct (bool_decide (token ≠ 0) && _) eqn:Hb.
    + apply andb_prop in Hb as [Hz Hn]. apply bool_decide_eq_true in Hz, Hn. done.
    + specialize (IH (set_host (mk_HostState (clock_reads (host self)) (S (token_draws (host self)))
        (fill_draws (host self))) self)).
      destruct (allocate_token_loop n _) as [r self']. simpl in IH. done.
Qed.

Definition open_flags (no_test : bool) : Z :=
  if no_test then Z.lor (Z.lor FLAG_OPEN FLAG_REPLY) FLAG_CLOSE else Z.lor FLAG_OPEN FLAG_REPLY.

(** What an open request asks for and what it is given. *)
Definition open_offer c (encoded : bytes) (p : Params.t) (fill : FillMode) : Prop :=
  ∃ d, decode_with_presence encoded = Ok d ∧ open_params_are_admissible d = true ∧
    negotiate_server_fill (negotiate_params (params d) c) = (p, fill) ∧
    negotiated_params_are_admissible p c = true.

(** Everything an open can do: be refused silently, be answered without a
    session, fail to draw a token, or create a session under a fresh token. *)
Inductive open_case peer (no_test : bool) (encoded : bytes) (now : Z) self
    : Result ServerError (option OutboundDatagram.t) * ServerCore.t → Prop :=
  | Open_refused :
      open_case peer no_test encoded now self (Ok None, self)
  | Open_no_test p fill packet :
      no_test = true → open_offer (config self) encoded p fill →
      encode_open_reply (OpenReply.mk (open_flags true) 0 p) (ServerConfig.hmac_key (config self))
        = Ok packet →
      open_case peer no_test encoded now self
        (Ok (Some (OutboundDatagram.unmarked packet)), self)
  | Open_no_token e self' :
      no_test = false → config self' = config self → sessions self' = sessions self →
      clock_reads (host self') = clock_reads (host self) →
      (∃ reason, e = RandomSource reason) ∨ e = TokenExhausted (Z.of_nat TOKEN_ATTEMPTS) →
      open_case peer no_test encoded now self (Err e, self')
  | Open_accepted p fill token packet self' :
      no_test = false → open_offer (config self) encoded p fill →
      session_count self < ServerConfig.max_sessions (config self) →
      token ≠ 0 → in_u 64 token → sessions self !! token = None →
      config self' = config self → clock_reads (host self') = clock_reads (host self) →
      encode_open_reply (OpenReply.mk (open_flags false) token p)
        (ServerConfig.hmac_key (config self)) = Ok packet →
      sessions self' = <[token := Session.new peer p fill (config self) now]> (sessions self) →
      open_case peer no_test encoded now self
        (Ok (Some (OutboundDatagram.unmarked packet)), self').

(** An offer is well-formed, and the reply carrying it encodes. *)
Lemma open_offer_ok c encoded p fill :
  ServerConfig.ok c → bytes_ok encoded → open_offer c encoded p fill →
  params_ok p ∧ Params.protocol_version p = 1 ∧ fill_mode_ok fill ∧
  negotiated_params_are_admissible p c = true.
Proof.
  intros Hc Hb (d & Hd & _ & Hn & Ha). apply decode_with_presence_ok in Hd as [Hp _]; [|done].
  pose proof (negotiate_params_ok (params d) c Hc Hp) as Hq.
  pose proof (negotiate_server_fill_ok _ Hq) as Hf.
  pose proof (negotiate_server_fill_layout (negotiate_params (params d) c)) as Hl. cbv zeta in Hl.
  rewrite Hn in Hf, Hl. simpl in *. destruct Hl as (_ & _ & _ & _ & _ & -> & _).
  rewrite negotiate_params_fields. split; [apply Hf|]. split; [done|]. split; [apply Hf|done].
Qed.

Lemma open_reply_is_ok (no_test : bool) token p :
  params_ok p → in_u 64 token → (token = 0 → no_test = true) →
  open_reply_ok (OpenReply.mk (open_flags no_test) token p).
Proof.
  intros Hp Ht Hz. split; simpl; try done; by destruct no_test.
Qed.

Lemma encode_open_reply_total (no_test : bool) token p key :
  params_ok p → in_u 64 token → (token = 0 → no_test = true) →
  ∃ packet, encode_open_reply (OpenReply.mk (open_flags no_test) token p) key = Ok packet.
Proof. intros. eexists. by apply encode_open_reply_ok, open_reply_is_ok. Qed.

Lemma handle_open_cases peer no_test encoded now self :
  core_ok self → bytes_ok encoded →
  open_case peer no_test encoded now self (handle_open peer no_test encoded now self).
Proof.
  intros [Hc _ _] Hb. unfold handle_open.
  destruct (decode_with_presence encoded) as [d|e|] eqn:Hd; [|apply Open_refused|].
  2:{ by apply decode_with_presence_no_panic in Hd. }
  destruct (open_params_are_admissible d) eqn:Ha; simpl negb; cbv iota; [|apply Open_refused].
  destruct (negotiate_server_fill (negotiate_params (params d) (config self))) as [p fill] eqn:Hn.
  destruct (negotiated_params_are_admissible p (config self)) eqn:Hadm; simpl negb; cbv iota;
    [|apply Open_refused].
  assert (open_offer (config self) encoded p fill) as Ho by by exists d.
  destruct (open_offer_ok _ _ _ _ Hc Hb Ho) as (Hp & _ & _ & _).
  destruct no_test.
  - destruct (encode_open_reply_total true 0 p (ServerConfig.hmac_key (config self)))
      as [packet He]; [done|by unfold in_u|done|].
    unfold encode_reply. change (Z.lor (Z.lor FLAG_OPEN FLAG_REPLY) FLAG_CLOSE) with (open_flags true).
    rewrite He. simpl. by eapply Open_no_test.
  - case_decide as Hcap; [apply Open_refused|]. unfold allocate_token.
    pose proof (allocate_token_loop_spec TOKEN_ATTEMPTS self) as Hat.
    destruct (allocate_token_loop TOKEN_ATTEMPTS self) as [r self'].
    destruct Hat as (Hcfg & Hs & Hck & Hr). destruct r as [token|e|]; [|by apply Open_no_token|done].
    destruct Hr as (Hz & Ht & Hfresh).
    destruct (encode_open_reply_total false token p (ServerConfig.hmac_key (config self)))
      as [packet He]; [done..|].
    unfold encode_reply. change (Z.lor FLAG_OPEN FLAG_REPLY) with (open_flags false).
    rewrite Hcfg, He. cbn [map_err].
    eapply (Open_accepted _ _ _ _ _ p fill token packet); try done; [lia|].
    simpl. by rewrite Hs.
Qed.

Lemma handle_open_core_ok peer no_test encoded now self :
  core_ok self → bytes_ok encoded → 0 ≤ now ≤ next_time self →
  core_ok (handle_open peer no_test encoded now self).2 ∧
  config (handle_open peer no_test encoded now self).2 = config self ∧
  no_panic (handle_open peer no_test encoded now self).1 ∧
  (∀ e, (handle_open peer no_test encoded now self).1 = Err e →
     ((∃ reason, e = RandomSource reason) ∨ e = TokenExhausted (Z.of_nat TOKEN_ATTEMPTS)) ∧
     sessions (handle_open peer no_test encoded now self).2 = sessions self).
Proof.
  intros Hk Hb Hnow.
  destruct (handle_open_cases peer no_test encoded now self Hk Hb)
    as [|p fill packet _ _ _|e self' _ Hcfg Hs Hck He
       |p fill token packet self' _ Ho Hcap Hz Ht Hfresh Hcfg Hck _ Hs]; simpl; try done.
  - split; [|split; [done|split; [done|by intros e' [= <-]]]].
    apply (core_ok_same self); try done. apply next_time_mono. lia.
  - split; [|done]. destruct (open_offer_ok _ _ _ _ (k_config _ Hk) Hb Ho) as (Hp & Hv & Hf & Ha).
    assert (next_time self ≤ next_time self') as Hnt by (apply next_time_mono; lia).
    pose proof (next_time_range self).
    eapply (core_ok_update self _ token); [done|done|done|exact Hs| |].
    + unfold session_count in *. rewrite Hs, map_size_insert_None by done. lia.
    + intros s [= <-]. do 2 (split; [done|]).
      apply session_new_ok; try done; [apply Hk|lia|lia].
Qed.

(** ** Close *)

Lemma handle_close_core_ok peer token self :
  core_ok self → core_ok (handle_close peer token self) ∧
  config (handle_close peer token self) = config self.
Proof.
  intros Hk. unfold handle_close. destruct (sessions self !! token) as [s|] eqn:Hl; [|done].
  destruct (same_endpoint _ _); [|done]. split; [|done].
  eapply (core_ok_update self _ token None); [done|done| |reflexivity| |done].
  - by apply next_time_mono.
  - pose proof (k_count _ Hk). unfold session_count in *. simpl.
    rewrite map_size_delete_Some by eauto. lia.
Qed.

(** ** One datagram *)

Lemma authenticated_decode c packet r :
  authenticated c packet = Some r → decode_request packet = Ok r.
Proof.
  unfold authenticated. destruct (decode_request packet) as [r'|e|]; [|done..].
  destruct (Bool.eqb _ _); [|done].
  destruct (ServerConfig.hmac_key c) as [k|]; [destruct (is_ok _)|]; naive_solver.
Qed.

(** The field ranges of a decoded request. *)
Lemma authenticated_fields c packet r :
  bytes_ok packet → authenticated c packet = Some r →
  match DecodedRequest.kind r with
  | DecOpen _ encoded => bytes_ok encoded
  | DecClose token => in_u 64 token
  | DecEcho token sequence _ => in_u 64 token ∧ in_u 32 sequence
  end.
Proof.
  intros Hb Ha%authenticated_decode. apply decode_request_ok in Ha as (f & rest & -> & _ & _ & _ & Hr);
    [|done].
  apply bytes_ok_app in Hb as [_ Hb]. destruct (DecodedRequest.kind r); simpl in Hr.
  - destruct Hr as (_ & _ & <-). auto with irtt.
  - by destruct Hr as (_ & _ & ? & _).
  - by destruct Hr as (_ & _ & ? & ? & _).
Qed.

Lemma preferred_receive_wall_range kernel s :
  ClockSample.ok s → in_i 64 (preferred_receive_wall_ns kernel s).
Proof.
  intros [Hw _]. unfold preferred_receive_wall_ns.
  destruct kernel as [t|]; simpl; [|done]. rewrite wall_ns_of_spec. case_decide; simpl; [|done].
  destruct (_ && _); [|done]. unfold in_i, I64_MIN, I64_MAX in *. lia.
Qed.

Definition received_request (token sequence : Z) (packet : bytes) (kernel : option Z) self
    : EchoRequest.t :=
  let received := (sample (host self)).1 in
  EchoRequest.mk token sequence (len packet) received (preferred_receive_wall_ns kernel received).

Lemma received_request_ok token sequence packet kernel self :
  in_u 64 token → in_u 32 sequence →
  echo_request_ok (next_time (maintain self)) (received_request token sequence packet kernel self).
Proof.
  intros Ht Hq. pose proof (sample_ok (host self)) as Hs. split; simpl; try done.
  - by apply preferred_receive_wall_range.
  - pose proof (next_time_range self). pose proof (next_time_maintain self).
    unfold next_time in *. simpl in *. lia.
Qed.

Lemma process_ok peer packet kernel self :
  core_ok self → bytes_ok packet →
  let '(r, self') := process peer packet kernel self in
  core_ok self' ∧ config self' = config self ∧ no_panic r ∧
  (∀ e, r = Err e →
     ((∃ reason, e = RandomSource reason) ∨ e = TokenExhausted (Z.of_nat TOKEN_ATTEMPTS)) ∧
     sessions self' = sessions (maintain self)).
Proof.
  intros Hk Hb. destruct (authenticated (config self) packet) as [r|] eqn:Ha.
  - pose proof (authenticated_fields _ _ _ Hb Ha) as Hf.
    rewrite (process_authenticated _ _ _ _ r) by done. unfold dispatch.
    pose proof (maintain_swept self Hk) as Hsw. pose proof Hsw as (Hm & Hnow & _).
    pose proof (config_maintain self) as Hcm.
    destruct (DecodedRequest.kind r) as [no_test encoded|token|token sequence tail].
    + pose proof (handle_open_core_ok peer no_test encoded (next_time self) (maintain self) Hm Hf Hnow)
        as Ho. destruct (handle_open _ _ _ _ _) as [res self']. cbn [fst snd] in Ho.
      rewrite Hcm in Ho. destruct Ho as (? & ? & ? & ?). done.
    + destruct (handle_close_core_ok peer token (maintain self) Hm) as [? Hc].
      rewrite Hcm in Hc. done.
    + destruct Hf as [Ht Hq].
      pose proof (handle_echo_core_ok peer (received_request token sequence packet kernel self)
        (maintain self) Hsw (received_request_ok _ _ _ _ _ Ht Hq)) as Ho.
      unfold received_request in Ho. cbv zeta in Ho.
      destruct (handle_echo _ _ _) as [res self']. cbn [fst snd] in Ho. rewrite Hcm in Ho.
      destruct Ho as (? & ? & ? & He). do 3 (split; [done|]). intros e ->. by destruct (He e).
  - destruct (process_unauthenticated peer packet kernel self Ha) as (Hr & Hc & Hs & Hck).
    destruct (process peer packet kernel self) as [res self']. simpl in *. subst res.
    split; [|done]. apply (core_ok_same self); try done. by apply next_time_mono.
Qed.

(** ** Runs of the server *)

Inductive event : Type :=
  | Datagram (peer : SocketAddr) (packet : bytes) (kernel : option Z)
  | Maintenance.

Definition run_event (e : event) self : ServerCore.t :=
  match e with
  | Datagram peer packet kernel => (process peer packet kernel self).2
  | Maintenance => maintain self
  end.

Definition event_ok (e : event) : Prop :=
  match e with Datagram _ packet _ => bytes_ok packet | Maintenance => True end.

Inductive reachable c : ServerCore.t → Prop :=
  | reach_new : reachable c (new c)
  | reach_event e self : reachable c self → event_ok e → reachable c (run_event e self).

Lemma new_core_ok c : ServerConfig.ok c → core_ok (new c).
Proof.
  intros Hc. split; [done|by intros|]. unfold session_count. simpl. rewrite map_size_empty.
  destruct Hc. simpl. lia.
Qed.

Lemma reachable_ok c self :
  ServerConfig.ok c → reachable c self → core_ok self ∧ config self = c.
Proof.
  intros Hc. induction 1 as [|e self Hr IH He]; [split; [by apply new_core_ok|done]|].
  destruct IH as [Hk Hcfg]. destruct e as [peer packet kernel|]; simpl.
  - pose proof (process_ok peer packet kernel self Hk He) as Hp.
    destruct (process peer packet kernel self) as [r self']. simpl. destruct Hp as (? & -> & _). done.
  - split; [by apply maintain_ok|done].
Qed.

End theory.

(** ** Properties *)

Section properties.
Context `{Target} `{!HmacMd5} `{!Host}.

(** C3: the server invariant. Whatever datagrams arrive, from whomever and in
    whatever order, and whenever maintenance runs: there are never more sessions
    than configured, no session has token zero, and every session's parameters
    are version 1, well-formed and executable within the packet-length bound,
    its window and counter fit their fields, its reply allowance is within the
    configured burst and its activity instant is in the past. *)
Theorem server_invariant (c : ServerConfig.t) (self : ServerCore.t) :
  ServerConfig.ok c → reachable c self →
  config self = c ∧ session_count self ≤ ServerConfig.max_sessions c ∧
  ∀ token s, sessions self !! token = Some s →
    token ≠ 0 ∧ in_u 64 token ∧ session_ok c (next_time self) s.
Proof.
  intros Hc Hr. destruct (reachable_ok c self Hc Hr) as [[_ Hs Hn] Hcfg].
  rewrite Hcfg in Hs, Hn. done.
Qed.

(** C9: no datagram can crash the server or make it fail on its own reply. From
    any reachable state, every byte string from any peer is handled without a
    panic; the only errors are the operating system's random source failing and
    the token budget running out, and then the session table is what the idle
    sweep left. *)
Theorem server_total (c : ServerConfig.t) (self : ServerCore.t) peer packet kernel :
  ServerConfig.ok c → reachable c self → bytes_ok packet →
  match process peer packet kernel self with
  | (Ok _, _) => True
  | (Err e, self') =>
      ((∃ reason, e = RandomSource reason) ∨ e = TokenExhausted 8) ∧
      sessions self' = sessions (maintain self)
  | (Panic, _) => False
  end.
Proof.
  intros Hc Hr Hb. destruct (reachable_ok c self Hc Hr) as [Hk _].
  pose proof (process_ok peer packet kernel self Hk Hb) as Hp.
  destruct (process peer packet kernel self) as [[o|e|] self']; [done| |by destruct Hp as (_ & _ & [] & _)].
  destruct Hp as (_ & _ & _ & He). by apply He.
Qed.

(** Authentication gates everything. With a key configured, a datagram that
    is not exactly a packet sealed under that key is answered with silence and
    leaves every session as it was, whatever it names. *)
Theorem unauthenticated_ignored (c : ServerConfig.t) (self : ServerCore.t) peer packet kernel key :
  ServerConfig.hmac_key c = Some key → config self = c → bytes_ok packet →
  (∀ f body, packet = sealed (Some key) f body → has f FLAG_HMAC = false) →
  (process peer packet kernel self).1 = Ok None ∧
  sessions (process peer packet kernel self).2 = sessions self.
Proof.
  intros Hkey Hcfg Hb Hno.
  assert (authenticated (config self) packet = None) as Ha.
  { rewrite Hcfg. unfold authenticated. destruct (decode_request packet) as [r|e|]; [|done..].
    destruct (Bool.eqb _ _); [|done]. rewrite Hkey.
    destruct (verify_packet_hmac key packet) as [[]|e|] eqn:Hv; [|done..].
    apply verify_packet_hmac_iff in Hv as (f & body & _ & Hh & ->); [|done].
    by rewrite (Hno f body eq_refl) in Hh. }
  by destruct (process_unauthenticated peer packet kernel self Ha) as (? & _ & ? & _).
Qed.

(** The session a request names. *)
Definition names_session (r : DecodedRequest.t) (token : Z) : Prop :=
  match DecodedRequest.kind r with
  | DecOpen _ _ => False
  | DecClose t | DecEcho t _ _ => t = token
  end.

Definition alive (self : ServerCore.t) (s : Session.t) : Prop :=
  Session.is_idle_expired s (next_time self)
    (saturating_ns (ServerConfig.idle_timeout (config self))) = false.

Lemma lookup_maintain_alive self token s :
  sessions self !! token = Some s → alive self s → sessions (maintain self) !! token = Some s.
Proof. intros Hl Ha. rewrite lookup_maintain, Hl. simpl. by rewrite Ha. Qed.

(** Sessions are isolated. A live session is left exactly as it was by every
    datagram, except an authenticated echo or close that carries its token and
    comes from the very endpoint that opened it. *)
Theorem session_isolation (c : ServerConfig.t) (self : ServerCore.t) peer packet kernel token s :
  ServerConfig.ok c → reachable c self → bytes_ok packet →
  sessions self !! token = Some s → alive self s →
  (∀ r, authenticated c packet = Some r → names_session r token →
     same_endpoint (Session.peer s) peer = false) →
  sessions (process peer packet kernel self).2 !! token = Some s.
Proof.
  intros Hc Hr Hb Hl Hal Hno. destruct (reachable_ok c self Hc Hr) as [Hk Hcfg].
  destruct (authenticated (config self) packet) as [r|] eqn:Ha.
  2:{ destruct (process_unauthenticated peer packet kernel self Ha) as (_ & _ & -> & _). done. }
  rewrite (process_authenticated _ _ _ _ r) by done.
  pose proof (authenticated_fields _ _ _ Hb Ha) as Hf. rewrite Hcfg in Ha. specialize (Hno r Ha).
  unfold names_session in Hno. pose proof (lookup_maintain_alive self token s Hl Hal) as Hlm.
  pose proof (maintain_swept self Hk) as (Hm & Hnow & _). unfold dispatch.
  destruct (DecodedRequest.kind r) as [no_test encoded|t|t sequence tail].
  - destruct (handle_open_cases peer no_test encoded (next_time self) (maintain self) Hm Hf)
      as [|p fill pkt|e self' _ _ Hs _ _|p fill t pkt self' _ _ _ _ _ Hfresh _ _ _ Hs]; simpl;
      [done|done|by rewrite Hs|].
    rewrite Hs, lookup_insert_ne by naive_solver. done.
  - simpl. unfold handle_close. destruct (decide (t = token)) as [->|Hne].
    + rewrite Hlm, Hno by done. done.
    + destruct (sessions (maintain self) !! t) as [s'|]; [|exact Hlm].
      destruct (same_endpoint (Session.peer s') peer); [|exact Hlm]. cbn [sessions set_sessions].
      by rewrite lookup_delete_ne.
  - destruct Hf as [Ht Hq].
    fold (received_request t sequence packet kernel self).
    destruct (handle_echo_cases peer (received_request t sequence packet kernel self) (maintain self)
      Hm (received_request_ok _ _ _ _ _ Ht Hq)) as [|s' next Hl' Hp' _|s' next h sent pl pkt Hl' Hp' _ _ _ _];
      simpl in *; [done|..];
      (destruct (decide (t = token)) as [->|Hne];
       [rewrite Hlm in Hl'; injection Hl' as <-; by rewrite Hno in Hp'|]).
    + by rewrite lookup_insert_ne.
    + destruct (closing_at _ _ _); [by rewrite lookup_delete_ne | by rewrite lookup_insert_ne].
Qed.

(** An echo that is answered found a live session, of which the reply is built. *)
Lemma echo_served_inv (c : ServerConfig.t) (self self' : ServerCore.t) peer packet kernel r token
    sequence tail d :
  ServerConfig.ok c → reachable c self → bytes_ok packet →
  authenticated c packet = Some r → DecodedRequest.kind r = DecEcho token sequence tail →
  process peer packet kernel self = (Ok (Some d), self') →
  ∃ s sent pl closing,
    let reply := echo_reply (received_request token sequence packet kernel self) (Session.params s)
      closing (ReceiveState.accepted (Session.receive s) sequence) sent pl in
    let rep := set_wire reply (Envelope.with_hmac_flag (EchoReply.flags reply)
      (Envelope.is_some (ServerConfig.hmac_key c)))
      (padded_payload (Session.params s) (Envelope.is_some (ServerConfig.hmac_key c)) reply) in
    sessions self !! token = Some s ∧ alive self s ∧ same_endpoint (Session.peer s) peer = true ∧
    len packet ≤ ServerConfig.max_packet_length c ∧
    decode_echo_reply (OutboundDatagram.bytes_of d) (Session.params s) (ServerConfig.hmac_key c)
      = Ok rep ∧
    echo_packet_len (Envelope.is_some (ServerConfig.hmac_key c)) (Session.params s)
      = Ok (len (OutboundDatagram.bytes_of d)) ∧
    has (EchoReply.flags rep) FLAG_CLOSE = closing ∧
    (if closing then sessions self' !! token = None
     else Session.receive <$> sessions self' !! token
          = Some (ReceiveState.accepted (Session.receive s) sequence)).
Proof.
  intros Hc Hr Hb Ha Hkind Hp. destruct (reachable_ok c self Hc Hr) as [Hk Hcfg].
  pose proof (authenticated_fields _ _ _ Hb Ha) as Hf. rewrite Hkind in Hf. destruct Hf as [Ht Hq].
  rewrite (process_authenticated _ _ _ _ r) in Hp by by rewrite Hcfg.
  unfold dispatch in Hp. rewrite Hkind in Hp.
  fold (received_request token sequence packet kernel self) in Hp.
  pose proof (maintain_swept self Hk) as (Hm & _ & _).
  pose proof (handle_echo_cases peer (received_request token sequence packet kernel self)
    (maintain self) Hm (received_request_ok _ _ _ _ _ Ht Hq)) as Hcase.
  assert (¬ ServerConfig.max_packet_length c < len packet) as Hlen.
  { intros Hgt. unfold handle_echo in Hp. rewrite config_maintain, Hcfg in Hp.
    rewrite decide_True in Hp by done. done. }
  rewrite Hp in Hcase. clear Hp. remember (Ok (Some d), self') as res eqn:Hres.
  destruct Hcase as [|s next Hl _ _|s next h sent pl pkt Hl Hpeer Hch _ -> Henc];
    [by injection Hres as ?..|].
  apply pair_equal_spec in Hres as [[= <-] <-]. rewrite config_maintain, Hcfg in *.
  change (EchoRequest.token (received_request token sequence packet kernel self)) with token in *.
  change (EchoRequest.sequence (received_request token sequence packet kernel self))
    with sequence in *.
  set (now := ClockSample.mono_ns
    (EchoRequest.received_at (received_request token sequence packet kernel self))) in *.
  set (closing := closing_at c s now) in *. cbv zeta in Henc. destruct Henc as [Hok Henc].
  set (reply := echo_reply _ _ _ _ _ _) in *.
  destruct (decode_encode_echo_reply _ _ _ _ Hok Henc) as [Hdl Hdec].
  rewrite lookup_maintain in Hl. destruct (sessions self !! token) as [s'|] eqn:Hl0; [|done].
  simpl in Hl. rewrite Hcfg in Hl. destruct (Session.is_idle_expired s' _ _) eqn:Hexp; [done|].
  injection Hl as ->. destruct (reply_flags_ok closing) as (Hfo & _ & _ & Hfc & _).
  assert (has (Envelope.with_hmac_flag (EchoReply.flags reply)
    (Envelope.is_some (ServerConfig.hmac_key c))) FLAG_CLOSE = closing) as Hclose.
  { rewrite has_close in *. destruct (with_hmac_flag_spec (EchoReply.flags reply)
      (Envelope.is_some (ServerConfig.hmac_key c)) Hfo) as (_ & _ & _ & Hbits).
    rewrite Hbits by lia. exact Hfc. }
  eexists s, _, _, closing. cbv zeta. fold reply. cbn [OutboundDatagram.bytes_of].
  split; [done|]. split; [unfold alive; by rewrite Hcfg|]. split; [done|].
  split; [lia|]. split; [exact Hdec|].
  split. { rewrite echo_packet_len_spec, decide_True by apply Hok. by rewrite Hdl. }
  split; [exact Hclose|]. destruct closing; cbn [sessions set_sessions set_host].
  - by rewrite lookup_delete_eq.
  - by rewrite lookup_insert_eq.
Qed.

(** An answered echo is answered correctly. If an authenticated echo gets a
    reply, its token names a live session opened from the same endpoint, and the
    reply decodes under that session's parameters to the request's own token and
    sequence number, the reception statistics that include this request, and
    timestamps in which no receive instant is later than the send instant; it
    has exactly the negotiated length. The session goes away exactly when the
    reply carries the close flag, and otherwise has counted the request. *)
Theorem echo_answered (c : ServerConfig.t) (self self' : ServerCore.t) peer packet kernel r token
    sequence tail d :
  ServerConfig.ok c → reachable c self → bytes_ok packet →
  authenticated c packet = Some r → DecodedRequest.kind r = DecEcho token sequence tail →
  process peer packet kernel self = (Ok (Some d), self') →
  ∃ s rep,
    sessions self !! token = Some s ∧ alive self s ∧ same_endpoint (Session.peer s) peer = true ∧
    len packet ≤ ServerConfig.max_packet_length c ∧
    decode_echo_reply (OutboundDatagram.bytes_of d) (Session.params s) (ServerConfig.hmac_key c)
      = Ok rep ∧
    echo_packet_len (Envelope.is_some (ServerConfig.hmac_key c)) (Session.params s)
      = Ok (len (OutboundDatagram.bytes_of d)) ∧
    EchoReply.token rep = token ∧ EchoReply.sequence rep = sequence ∧
    (let next := ReceiveState.accepted (Session.receive s) sequence in
     EchoReply.recv_count rep = then_some (ReceivedStats.has_count
       (Params.received_stats (Session.params s))) (ReceiveState.count next) ∧
     EchoReply.recv_window rep = then_some (ReceivedStats.has_window
       (Params.received_stats (Session.params s))) (ReceiveState.window next) ∧
     if has (EchoReply.flags rep) FLAG_CLOSE
     then sessions self' !! token = None
     else Session.receive <$> sessions self' !! token = Some next) ∧
    (∀ recv send, TimestampFields.recv_wall (EchoReply.timestamps rep) = Some recv →
       TimestampFields.send_wall (EchoReply.timestamps rep) = Some send → recv ≤ send) ∧
    (∀ recv send, TimestampFields.recv_mono (EchoReply.timestamps rep) = Some recv →
       TimestampFields.send_mono (EchoReply.timestamps rep) = Some send → recv ≤ send).
Proof.
  intros Hc Hr Hb Ha Hkind Hp.
  destruct (echo_served_inv c self self' peer packet kernel r token sequence tail d Hc Hr Hb Ha Hkind Hp)
    as (s & sent & pl & closing & Hl & Hal & Hpeer & Hlen & Hdec & Hdl & Hclose & Hafter).
  eexists s, _. do 4 (split; [done|]). split; [exact Hdec|]. split; [exact Hdl|].
  cbn [set_wire echo_reply EchoReply.token EchoReply.sequence EchoReply.recv_count
    EchoReply.recv_window EchoReply.flags EchoReply.timestamps] in *.
  do 2 (split; [done|]). rewrite Hclose. split; [done|].
  split; unfold timestamp_fields; destruct (Params.stamp_at (Session.params s)); simpl; try done;
    intros recv send; [destruct (Clock.has_wall _)|destruct (Clock.has_mono _)]; simpl; try done;
    intros [= <-] [= <-]; lia.
Qed.

(** An open is answered with what it gets. If an authenticated open is
    answered, its parameters were admissible, and the reply decodes to exactly
    the parameters negotiation settled on. A no-test open gets token zero and
    creates nothing; any other gets a fresh non-zero token, under which a session
    with those very parameters now exists, bound to the sender, within the
    configured bound; no other session moves except by the idle sweep. *)
Theorem open_answered (c : ServerConfig.t) (self self' : ServerCore.t) peer packet kernel r no_test
    encoded d :
  ServerConfig.ok c → reachable c self → bytes_ok packet →
  authenticated c packet = Some r → DecodedRequest.kind r = DecOpen no_test encoded →
  process peer packet kernel self = (Ok (Some d), self') →
  ∃ p fill rep,
    open_offer c encoded p fill ∧ OutboundDatagram.traffic_class d = 0 ∧
    decode_open_reply (OutboundDatagram.bytes_of d) (ServerConfig.hmac_key c) = Ok rep ∧
    OpenReply.params rep = p ∧ has (OpenReply.flags rep) FLAG_CLOSE = no_test ∧
    if no_test then OpenReply.token rep = 0 ∧ sessions self' = sessions (maintain self)
    else OpenReply.token rep ≠ 0 ∧ sessions (maintain self) !! OpenReply.token rep = None ∧
         session_count self' ≤ ServerConfig.max_sessions c ∧
         sessions self' = <[OpenReply.token rep := Session.new peer p fill c (next_time self)]>
                            (sessions (maintain self)).
Proof.
  intros Hc Hr Hb Ha Hkind Hp. destruct (reachable_ok c self Hc Hr) as [Hk Hcfg].
  pose proof (authenticated_fields _ _ _ Hb Ha) as Hf. rewrite Hkind in Hf.
  pose proof (process_ok peer packet kernel self Hk Hb) as Hpo. rewrite Hp in Hpo.
  destruct Hpo as (Hk' & Hcfg' & _).
  rewrite (process_authenticated _ _ _ _ r) in Hp by by rewrite Hcfg.
  unfold dispatch in Hp. rewrite Hkind in Hp.
  pose proof (maintain_swept self Hk) as (Hm & _ & _).
  pose proof (handle_open_cases peer no_test encoded (next_time self) (maintain self) Hm Hf) as Hcase.
  rewrite Hp in Hcase. clear Hp. remember (Ok (Some d), self') as res eqn:Hres.
  assert (∀ (nt : bool) token p pkt, params_ok p → in_u 64 token → (token = 0 → nt = true) →
    encode_open_reply (OpenReply.mk (open_flags nt) token p) (ServerConfig.hmac_key c) = Ok pkt →
    ∃ f, decode_open_reply pkt (ServerConfig.hmac_key c) = Ok (OpenReply.mk f token p) ∧
      has f FLAG_CLOSE = nt) as Hdec.
  { intros nt token p pkt Hpk Ht Hz He.
    pose proof (open_reply_is_ok nt token p Hpk Ht Hz) as Hok.
    rewrite (decode_encode_open_reply _ _ _ Hok He). eexists. split; [reflexivity|].
    destruct (with_hmac_flag_spec (open_flags nt) (Envelope.is_some (ServerConfig.hmac_key c)))
      as (_ & _ & _ & Hbits); [by destruct nt|].
    rewrite has_close, Hbits by lia. by destruct nt. }
  destruct Hcase as [|p fill pkt -> Ho He|e self'' _ _ _ _ _
    |p fill token pkt self'' -> Ho Hcap Hz Ht Hfresh _ _ He Hs]; try discriminate Hres;
    apply pair_equal_spec in Hres as [[= <-] <-]; rewrite config_maintain, Hcfg in *;
    destruct (open_offer_ok c encoded p fill Hc Hf Ho) as (Hpk & _).
  - destruct (Hdec true 0 p pkt Hpk ltac:(by unfold in_u) ltac:(done) He) as (f & Hd & Hfl).
    exists p, fill, (OpenReply.mk f 0 p). do 5 (split; [done|]). done.
  - destruct (Hdec false token p pkt Hpk Ht ltac:(done) He) as (f & Hd & Hfl).
    exists p, fill, (OpenReply.mk f token p). do 5 (split; [done|]). do 2 (split; [done|]).
    split; [|exact Hs]. rewrite <- Hcfg'. apply Hk'.
Qed.

(** Silence moves no statistic. A datagram that gets no reply leaves the
    endpoint, the parameters, the fill and the reception statistics of every
    session that survives it exactly as they were; at most its reply allowance
    and idle deadline move (a rate-limited echo). *)
Theorem silence_keeps_statistics (c : ServerConfig.t) (self self' : ServerCore.t) peer packet kernel
    token s s' :
  ServerConfig.ok c → reachable c self → bytes_ok packet →
  process peer packet kernel self = (Ok None, self') →
  sessions self !! token = Some s → sessions self' !! token = Some s' →
  Session.receive s' = Session.receive s ∧ Session.peer s' = Session.peer s ∧
  Session.params s' = Session.params s ∧ Session.fill s' = Session.fill s.
Proof.
  intros Hc Hr Hb Hp Hl Hl'. destruct (reachable_ok c self Hc Hr) as [Hk Hcfg].
  assert (∀ s1, sessions (maintain self) !! token = Some s1 → s1 = s) as Hmt.
  { intros s1. rewrite lookup_maintain, Hl. simpl.
    destruct (Session.is_idle_expired _ _ _); [done|]. by intros [= <-]. }
  destruct (authenticated (config self) packet) as [r|] eqn:Ha.
  2:{ destruct (process_unauthenticated peer packet kernel self Ha) as (_ & _ & Hs & _).
      rewrite Hp in Hs. simpl in Hs. rewrite Hs, Hl in Hl'. by injection Hl' as <-. }
  rewrite (process_authenticated _ _ _ _ r) in Hp by done.
  pose proof (authenticated_fields _ _ _ Hb Ha) as Hf. unfold dispatch in Hp.
  pose proof (maintain_swept self Hk) as (Hm & _ & _).
  destruct (DecodedRequest.kind r) as [no_test encoded|t|t sequence tail].
  - pose proof (handle_open_cases peer no_test encoded (next_time self) (maintain self) Hm Hf) as Hcase.
    rewrite Hp in Hcase. clear Hp. remember (Ok None, self') as res eqn:Hres.
    destruct Hcase; try discriminate Hres. apply pair_equal_spec in Hres as [_ <-].
    by apply Hmt in Hl' as ->.
  - apply pair_equal_spec in Hp as [_ <-]. unfold handle_close in Hl'.
    destruct (sessions (maintain self) !! t); [|by apply Hmt in Hl' as ->].
    destruct (same_endpoint _ _); [|by apply Hmt in Hl' as ->].
    cbn [sessions set_sessions] in Hl'. apply lookup_delete_Some in Hl' as [_ Hl'].
    by apply Hmt in Hl' as ->.
  - destruct Hf as [Ht Hq]. fold (received_request t sequence packet kernel self) in Hp.
    pose proof (handle_echo_cases peer (received_request t sequence packet kernel self)
      (maintain self) Hm (received_request_ok _ _ _ _ _ Ht Hq)) as Hcase.
    rewrite Hp in Hcase. clear Hp. remember (Ok None, self') as res eqn:Hres.
    destruct Hcase as [|s1 next Hl1 _ _|s1 next h sent pl pkt Hl1 _ _ _ _ _]; try discriminate Hres;
      apply pair_equal_spec in Hres as [_ <-]; [by apply Hmt in Hl' as ->|].
    cbn [sessions set_sessions] in Hl'. apply lookup_insert_Some in Hl' as [[<- <-]|[_ Hl']].
    + by apply Hmt in Hl1 as ->.
    + by apply Hmt in Hl' as ->.
Qed.

(** Expiry is exact. The sweep that precedes every authenticated request,
    and that maintenance runs, keeps a session exactly when less than the idle
    timeout has passed since it was opened or last carried an echo that was
    served or rate-limited; what it keeps it keeps unchanged. *)
Theorem expiry_exact (c : ServerConfig.t) (self : ServerCore.t) token s :
  ServerConfig.ok c → reachable c self →
  sessions (maintain self) !! token = Some s ↔
  sessions self !! token = Some s ∧
  next_time self - LifetimeState.last_activity_ns (Session.lifetime s)
    < saturating_ns (ServerConfig.idle_timeout c).
Proof.
  intros Hc Hr. destruct (reachable_ok c self Hc Hr) as [Hk Hcfg].
  rewrite lookup_maintain, Hcfg. destruct (sessions self !! token) as [s'|] eqn:Hl; [|naive_solver].
  simpl. apply (k_sessions _ Hk) in Hl as (_ & _ & Hs).
  pose proof (s_activity _ _ _ Hs) as Hact. pose proof (next_time_range self) as Hn.
  unfold Session.is_idle_expired, LifetimeState.is_idle_expired.
  rewrite sat_i64_id by (unfold in_i, I64_MAX in *; lia).
  destruct (Z.leb_spec (saturating_ns (ServerConfig.idle_timeout c))
    (next_time self - LifetimeState.last_activity_ns (Session.lifetime s'))).
  - split; [done|]. intros [[= <-] ?]. lia.
  - naive_solver.
Qed.

End properties.

(** ** A concrete run *)

Section example.
#[local] Existing Instances target64 toy_hmac example_host.

Definition example_key : bytes := [42].
Definition example_config : ServerConfig.t :=
  ServerConfig.with_hmac_key example_key ServerConfig.default.
Definition example_peer : SocketAddr := V4 2130706433 40000.
Definition stranger : SocketAddr := V4 2130706433 40001.

Definition request_packet (r : RequestToEncode) : bytes :=
  match encode_request r (Some example_key) with Ok p => p | _ => [] end.

(** An open by [example_peer], then an echo and a close of session 1. *)
Definition open_packet : bytes := request_packet (EncOpen example_params false).
Definition echo_packet : bytes := request_packet (EncEcho 1 7 example_params []).
Definition close_packet : bytes := request_packet (EncClose 1).

Definition example_core : ServerCore.t :=
  run_event (Datagram example_peer open_packet None) (new example_config).

Lemma example_config_ok : ServerConfig.ok example_config.
Proof. destruct default_config_ok. by split. Qed.

Lemma example_core_reachable : reachable example_config example_core.
Proof.
  refine (reach_event example_config (Datagram example_peer open_packet None) _ (reach_new _) _).
  decide_now.
Qed.

Lemma server_invariant_witness :
  session_count example_core = 1 ∧
  ∀ token s, sessions example_core !! token = Some s → token ≠ 0.
Proof.
  split; [by vm_compute|]. intros token s Hl.
  by apply (server_invariant example_config example_core example_config_ok example_core_reachable)
    in Hl as [? _].
Defined.

Lemma server_total_witness :
  (process stranger [20; 167; 91; 255] None example_core).1 = Ok None ∧
  match process stranger [20; 167; 91; 255] None example_core with
  | (Ok _, _) => True
  | (Err e, self') =>
      ((∃ reason, e = RandomSource reason) ∨ e = TokenExhausted 8) ∧
      sessions self' = sessions (maintain example_core)
  | (Panic, _) => False
  end.
Proof.
  split; [vm_compute; reflexivity|].
  exact (server_total example_config example_core stranger [20; 167; 91; 255] None
    example_config_ok example_core_reachable ltac:(decide_now)).
Defined.

Definition forged_close : bytes :=
  match encode_request (EncClose 1) None with Ok p => p | _ => [] end.

Lemma unauthenticated_ignored_witness :
  (process example_peer forged_close None example_core).1 = Ok None ∧
  sessions (process example_peer forged_close None example_core).2 = sessions example_core.
Proof.
  apply (unauthenticated_ignored example_config example_core example_peer forged_close None
    example_key); [reflexivity|by vm_compute|decide_now|].
  intros f body Heq. apply (f_equal (λ l, nth 3 l 0)) in Heq. vm_compute in Heq. by subst f.
Defined.

Definition session_or_blank (self : ServerCore.t) : Session.t :=
  match sessions self !! 1 with
  | Some s => s
  | None => Session.new example_peer Params.default FillNone example_config 0
  end.

Lemma session_isolation_witness :
  sessions (process stranger close_packet None example_core).2 !! 1
  = Some (session_or_blank example_core).
Proof.
  apply (session_isolation example_config example_core stranger close_packet None 1
    (session_or_blank example_core) example_config_ok example_core_reachable).
  - decide_now.
  - vm_compute. reflexivity.
  - vm_compute. reflexivity.
  - intros r _ _. vm_compute. reflexivity.
Defined.

Definition reply_of (o : Result ServerError (option OutboundDatagram.t) * ServerCore.t)
    : OutboundDatagram.t :=
  match o.1 with Ok (Some d) => d | _ => OutboundDatagram.mk [] 0 end.

Lemma echo_answered_witness :
  ∃ s rep, sessions example_core !! 1 = Some s ∧
    decode_echo_reply
      (OutboundDatagram.bytes_of (reply_of (process example_peer echo_packet None example_core)))
      (Session.params s) (Some example_key) = Ok rep ∧
    EchoReply.token rep = 1 ∧ EchoReply.sequence rep = 7.
Proof.
  destruct (echo_answered example_config example_core
    (process example_peer echo_packet None example_core).2 example_peer echo_packet None
    (DecodedRequest.mk true (DecEcho 1 7 (zeros 28))) 1 7 (zeros 28)
    (reply_of (process example_peer echo_packet None example_core)))
    as (s & rep & Hl & _ & _ & _ & Hdec & _ & Ht & Hsq & _).
  - exact example_config_ok.
  - exact example_core_reachable.
  - decide_now.
  - vm_compute. reflexivity.
  - reflexivity.
  - vm_compute. reflexivity.
  - exists s, rep. split; [exact Hl|]. split; [exact Hdec|]. split; [exact Ht|exact Hsq].
Defined.

Lemma open_answered_witness :
  ∃ rep, decode_open_reply (OutboundDatagram.bytes_of
      (reply_of (process example_peer open_packet None (new example_config)))) (Some example_key)
      = Ok rep ∧ OpenReply.token rep ≠ 0.
Proof.
  destruct (open_answered example_config (new example_config)
    (process example_peer open_packet None (new example_config)).2 example_peer open_packet None
    (DecodedRequest.mk true (DecOpen false (encode_params example_params))) false
    (encode_params example_params)
    (reply_of (process example_peer open_packet None (new example_config))))
    as (p & fill & rep & _ & _ & Hdec & _ & _ & Hz & _).
  - exact example_config_ok.
  - apply reach_new.
  - decide_now.
  - vm_compute. reflexivity.
  - reflexivity.
  - vm_compute. reflexivity.
  - exists rep. split; [exact Hdec|exact Hz].
Defined.

Lemma silence_keeps_statistics_witness :
  (process stranger echo_packet None example_core).1 = Ok None ∧
  Session.receive (session_or_blank (process stranger echo_packet None example_core).2)
  = Session.receive (session_or_blank example_core).
Proof.
  split; [vm_compute; reflexivity|].
  apply (silence_keeps_statistics example_config example_core
    (process stranger echo_packet None example_core).2 stranger echo_packet None 1).
  - exact example_config_ok.
  - exact example_core_reachable.
  - decide_now.
  - vm_compute. reflexivity.
  - vm_compute. reflexivity.
  - vm_compute. reflexivity.
Defined.

Lemma expiry_exact_witness :
  sessions (maintain example_core) !! 1 = Some (session_or_blank example_core).
Proof.
  apply (expiry_exact example_config example_core 1 (session_or_blank example_core)
    example_config_ok example_core_reachable).
  split; [vm_compute; reflexivity|]. vm_compute. reflexivity.
Defined.

End example.
