(* ===== verification/ServerIo.v ===== *)
(** * irtt-server: datagrams of a listener

    Models [crates/irtt-server/src/socket_io.rs], [socket_io/ancillary.rs] and
    [socket_options.rs] as built on Linux: which received messages reach the
    protocol core, from where a request is answered, and which socket option
    marks a reply. What [recvmsg], [sendmsg] and [setsockopt] answer is an
    argument. *)

From S2P Require Import Prelude.

(** ** Addresses (core::net) *)
(** An address is its number; [to_ipv4_mapped] recognises [::ffff:a.b.c.d]. *)
Definition to_ipv4_mapped (ip : Z) : option Z :=
  if Z.shiftr ip 32 =? 65535 then Some (Z.land ip (2 ^ 32 - 1)) else None.
Definition to_ipv6_mapped (ip : Z) : Z := Z.lor (Z.shiftl 65535 32) ip.
Definition is_unspecified (ip : Z) : bool := ip =? 0.
(** The prefix fe80::/10. *)
Definition is_unicast_link_local (ip : Z) : bool := Z.shiftr ip 118 =? 1018.

(** ** Replies (socket_io.rs, socket_options.rs) *)
Inductive ReplySource : Type :=
  | Bound
  | SourceV4 (address : Z)
  | SourceV6 (address interface_index : Z).

(** The datagram itself stands for the prefix of the buffer it fills. *)
Module ReceivedDatagram.
Record t : Type := mk {
  bytes_of : bytes;
  peer : SocketAddr;
  reply_source : ReplySource;
  kernel_rx_timestamp : option Z;
}.
End ReceivedDatagram.

(** Linux reads a socket bound to an IPv4-mapped address as an IPv4 one. *)
Definition marks_with_ipv4_option (addr : SocketAddr) : bool :=
  match addr with
  | V4 _ _ => true
  | V6 ip _ _ _ => match to_ipv4_mapped ip with Some _ => true | None => false end
  end.

Inductive ReplyMark : Type := SetTos (traffic_class : Z) | SetTclass (traffic_class : Z).
Definition set_reply_traffic_class (is_ipv4 : bool) (traffic_class : Z) : ReplyMark :=
  if is_ipv4 then SetTos traffic_class else SetTclass traffic_class.

(** ** Receiving (socket_io/ancillary.rs) *)
Inductive ControlMessage : Type :=
  | Ipv4PacketInfo (ipi_addr : Z)
  | Ipv6PacketInfo (ipi6_addr ipi6_ifindex : Z)
  | ScmTimestampns (tv_sec tv_nsec : Z)
  | OtherControl.

Inductive SockaddrStorage : Type := Inet (addr : SocketAddr) | OtherFamily.

(** A [recvmsg]: the payload that fitted, the truncation flags, the sender and
    the control messages. *)
Module RecvMsg.
Record t : Type := mk {
  payload : bytes;
  msg_trunc : bool;
  msg_ctrunc : bool;
  address : option SockaddrStorage;
  control : list ControlMessage;
}.
(** [cmsgs] refuses a control buffer that was truncated. *)
Definition cmsgs (m : t) : option (list ControlMessage) := if msg_ctrunc m then None else Some (control m).
End RecvMsg.

Definition is_unusable (m : RecvMsg.t) (require_destination : bool) : bool :=
  RecvMsg.msg_trunc m || (require_destination && RecvMsg.msg_ctrunc m).

Definition resolved_reply_source (recovered : option ReplySource) (require_destination : bool)
    : option ReplySource :=
  if require_destination then recovered else Some Bound.

Definition peer_endpoint (address : SockaddrStorage) : option SocketAddr :=
  match address with Inet addr => Some addr | OtherFamily => None end.

Definition ipv4_reply_source (address : Z) : option ReplySource :=
  if is_unspecified address then None else Some (SourceV4 address).
Definition ipv6_reply_source (address interface_index : Z) : option ReplySource :=
  if is_unspecified address then None else Some (SourceV6 address interface_index).

Definition system_time_from_timespec (tv_sec tv_nsec : Z) : option Z :=
  if bool_decide (in_u 64 tv_sec) && bool_decide (in_u 32 tv_nsec) then
    if 1_000_000_000 <=? tv_nsec then None else Some (tv_sec * 1_000_000_000 + tv_nsec)
  else None.

Module ReceiveMetadata.
Record t : Type := mk { reply_source : option ReplySource; kernel_rx_timestamp : option Z }.
Definition default : t := mk None None.
End ReceiveMetadata.

Definition metadata_step (metadata : ReceiveMetadata.t) (message : ControlMessage) : ReceiveMetadata.t :=
  match message with
  | Ipv4PacketInfo address =>
      ReceiveMetadata.mk (ipv4_reply_source address) (ReceiveMetadata.kernel_rx_timestamp metadata)
  | Ipv6PacketInfo address interface_index =>
      ReceiveMetadata.mk (ipv6_reply_source address interface_index)
        (ReceiveMetadata.kernel_rx_timestamp metadata)
  | ScmTimestampns tv_sec tv_nsec =>
      ReceiveMetadata.mk (ReceiveMetadata.reply_source metadata) (system_time_from_timespec tv_sec tv_nsec)
  | OtherControl => metadata
  end.
Definition receive_metadata (m : RecvMsg.t) : ReceiveMetadata.t :=
  match RecvMsg.cmsgs m with
  | Some messages => fold_left metadata_step messages ReceiveMetadata.default
  | None => ReceiveMetadata.default
  end.

Definition received_datagram (m : RecvMsg.t) (require_destination : bool) : option ReceivedDatagram.t :=
  if is_unusable m require_destination then None
  else
    let metadata := receive_metadata m in
    address ← RecvMsg.address m;
    peer ← peer_endpoint address;
    reply_source ← resolved_reply_source (ReceiveMetadata.reply_source metadata) require_destination;
    Some (ReceivedDatagram.mk (RecvMsg.payload m) peer reply_source
            (ReceiveMetadata.kernel_rx_timestamp metadata)).

Definition INTERRUPTED_YIELD_THRESHOLD : Z := 64.

(** One turn of the receive future: it goes on, with the interruptions in a row so
    far and having yielded or not, or completes. *)
Inductive Receiving : Type :=
  | ReceiveAgain (consecutive_interrupted : Z) (yielded : bool)
  | ReceiveDone (result : IoError + option ReceivedDatagram.t).

(** What the turn met: an error of [readable], or the outcome of [recvmsg]. *)
Inductive RecvAttempt : Type :=
  | NotReadable (error : IoError)
  | Recvmsg (outcome : IoError + RecvMsg.t).

Definition receive_ancillary (consecutive_interrupted : Z) (attempt : RecvAttempt)
    (require_destination : bool) : Receiving :=
  match attempt with
  | NotReadable error => ReceiveDone (inl error)
  | Recvmsg (inl WouldBlock) => ReceiveAgain 0 false
  | Recvmsg (inl Interrupted) =>
      let consecutive_interrupted := consecutive_interrupted + 1 in
      if INTERRUPTED_YIELD_THRESHOLD <=? consecutive_interrupted then ReceiveAgain 0 true
      else ReceiveAgain consecutive_interrupted false
  | Recvmsg (inl error) => ReceiveDone (inl error)
  | Recvmsg (inr m) => ReceiveDone (inr (received_datagram m require_destination))
  end.

(** [receive]: a datagram that fills the buffer may have been cut down to it. *)
Definition receive (capacity consecutive_interrupted : Z) (attempt : RecvAttempt)
    (select_reply_source : bool) : Receiving :=
  match receive_ancillary consecutive_interrupted attempt select_reply_source with
  | ReceiveDone (inr received) =>
      ReceiveDone (inr (datagram ← received;
        if len (ReceivedDatagram.bytes_of datagram) <? capacity then Some datagram else None))
  | r => r
  end.

(** ** Sending *)
Inductive PacketInfo : Type :=
  | In4 (ipi_ifindex ipi_spec_dst : Z)
  | In6 (ipi6_addr ipi6_ifindex : Z).

(** The arguments of a [sendmsg] (or of [send_to], without packet info). *)
Module Outgoing.
Record t : Type := mk { bytes_of : bytes; destination : SocketAddr; info : option PacketInfo }.
End Outgoing.

Definition egress_interface_index (address interface_index : Z) : Z :=
  if is_unicast_link_local address then interface_index else 0.

Definition as_ipv6_endpoint (peer : SocketAddr) : SocketAddr :=
  match peer with
  | V6 _ _ _ _ => peer
  | V4 ip port => V6 (to_ipv6_mapped ip) port 0 0
  end.

Definition send_once (b : bytes) (peer : SocketAddr) (reply_source : ReplySource) : Outgoing.t :=
  match reply_source with
  | Bound => Outgoing.mk b peer None
  | SourceV4 address => Outgoing.mk b peer (Some (In4 0 address))
  | SourceV6 address interface_index =>
      Outgoing.mk b (as_ipv6_endpoint peer)
        (Some (In6 address (egress_interface_index address interface_index)))
  end.

(** What a turn of the send future comes to: [None] is to wait for writability. *)
Definition send_from_source (outcome : IoError + Z) : option (IoError + Z) :=
  match outcome with inl WouldBlock => None | result => Some result end.

(** ** Lemmas *)

(** The source a message names: the address its request was sent to. *)
Definition named_source (message : ControlMessage) : option ReplySource :=
  match message with
  | Ipv4PacketInfo address => Some (SourceV4 address)
  | Ipv6PacketInfo address interface_index => Some (SourceV6 address interface_index)
  | _ => None
  end.

(** The packet info a message carries: the last, where there are several. *)
Definition is_packet_info (message : ControlMessage) : bool :=
  match message with Ipv4PacketInfo _ | Ipv6PacketInfo _ _ => true | _ => false end.
Definition packet_info (m : RecvMsg.t) : option ControlMessage :=
  last (filter (λ message, is_packet_info message = true) (RecvMsg.control m)).

(** A source a reply can be sent from. *)
Definition specified (source : ReplySource) : Prop :=
  match source with Bound => False | SourceV4 address | SourceV6 address _ => address ≠ 0 end.

Lemma metadata_source messages metadata :
  ReceiveMetadata.reply_source (fold_left metadata_step messages metadata) =
  match last (filter (λ message, is_packet_info message = true) messages) with
  | Some (Ipv4PacketInfo address) => ipv4_reply_source address
  | Some (Ipv6PacketInfo address interface_index) => ipv6_reply_source address interface_index
  | _ => ReceiveMetadata.reply_source metadata
  end.
Proof.
  induction messages as [|message messages IH] using rev_ind; [done|].
  rewrite fold_left_app, filter_app, filter_cons. cbn [fold_left]. destruct message; cbn [metadata_step is_packet_info];
    rewrite ?decide_True, ?decide_False, ?filter_nil, ?last_snoc, ?app_nil_r by done; done.
Qed.

(** What a message that is served says: it came whole, from the sender; and where a
    reply's source is selected, the last packet info names one. *)
Lemma received_inv m require_destination d :
  received_datagram m require_destination = Some d →
  ReceivedDatagram.bytes_of d = RecvMsg.payload m ∧ RecvMsg.msg_trunc m = false ∧
  RecvMsg.address m = Some (Inet (ReceivedDatagram.peer d)) ∧
  ReceivedDatagram.kernel_rx_timestamp d = ReceiveMetadata.kernel_rx_timestamp (receive_metadata m) ∧
  if require_destination
  then RecvMsg.msg_ctrunc m = false ∧ specified (ReceivedDatagram.reply_source d) ∧
       packet_info m ≫= named_source = Some (ReceivedDatagram.reply_source d)
  else ReceivedDatagram.reply_source d = Bound.
Proof.
  unfold received_datagram, is_unusable.
  destruct (RecvMsg.msg_trunc m); simpl; [done|].
  destruct (require_destination && RecvMsg.msg_ctrunc m) eqn:Hct; [done|].
  destruct (RecvMsg.address m) as [[addr|]|]; simpl; try done.
  destruct (resolved_reply_source _ _) as [source|] eqn:Hs; simpl; [|done]. intros [= <-]. simpl.
  do 4 (split; [done|]). destruct require_destination; simpl in *; [|by injection Hs as <-].
  split; [done|]. unfold receive_metadata, RecvMsg.cmsgs in Hs. rewrite Hct, metadata_source in Hs. unfold packet_info.
  destruct (last _) as [[address|address ifindex|sec nsec|]|]; try done;
    unfold ipv4_reply_source, ipv6_reply_source, is_unspecified in Hs; destruct (Z.eqb_spec address 0); try done;
    by injection Hs as <-.
Qed.

Lemma receive_inv capacity n attempt select_reply_source d :
  receive capacity n attempt select_reply_source = ReceiveDone (inr (Some d)) →
  ∃ m, attempt = Recvmsg (inr m) ∧ received_datagram m select_reply_source = Some d ∧
       len (ReceivedDatagram.bytes_of d) < capacity.
Proof.
  unfold receive. destruct attempt as [e|[[]|m]]; simpl; try done; [by destruct (_ <=? _)|].
  destruct (received_datagram m select_reply_source) as [d'|] eqn:Hr; simpl; [|done].
  destruct (Z.ltb_spec (len (ReceivedDatagram.bytes_of d')) capacity); intros [= <-]. by exists m.
Qed.

(** The receive future yields before it has been interrupted 64 times in a row. *)
Lemma receive_interrupted capacity n attempt select_reply_source n' yielded :
  0 <= n < INTERRUPTED_YIELD_THRESHOLD →
  receive capacity n attempt select_reply_source = ReceiveAgain n' yielded →
  0 <= n' < INTERRUPTED_YIELD_THRESHOLD ∧ (yielded = false → n' <= n + 1).
Proof.
  unfold receive, INTERRUPTED_YIELD_THRESHOLD. intros Hn.
  destruct attempt as [e|[[]|m]]; simpl; try done; [intros [= <- <-]; lia|].
  unfold INTERRUPTED_YIELD_THRESHOLD. destruct (Z.leb_spec 64 (n + 1)); intros [= <- <-]; split; [lia|done|lia|lia].
Qed.
