(* ===== verification/ServerRuntime.v ===== *)
(** * irtt-server: one listener

    Models [crates/irtt-server/src/runtime.rs]: a [Server] owns one socket and one
    [ServerCore] and serves until it is asked to stop. Its loop is a [select!]; a
    run is a sequence of the events that complete a branch, in any order, and
    leaves a trace of what it did to the socket. *)

From S2P Require Import Prelude ProtoBase Envelope ParamsCodec Layout RequestCodec.
From S2P Require Import ServerBase Fill Session Negotiate ServerCore ServerIo.
Import ServerCore.ServerCore.

Definition RECEIVE_BUFFER_LEN : Z := 65536.
(** As built on Linux. *)
Definition SUPPORTED : bool := true.

Module Server.
Record t : Type := mk {
  core : ServerCore.t;
  listener_is_ipv4 : bool;
  select_reply_source : bool;
  socket_is_marked : bool;
}.
Definition set_core (c : ServerCore.t) (self : t) : t :=
  mk c (listener_is_ipv4 self) (select_reply_source self) (socket_is_marked self).
Definition set_marked (marked : bool) (self : t) : t :=
  mk (core self) (listener_is_ipv4 self) (select_reply_source self) marked.
End Server.
Import Server.

Inductive ServerRuntimeError : Type :=
  | BindFailed (addr : SocketAddr) (source : string)
  | LocalAddrFailed (source : string)
  | WildcardSourceSelectionUnsupported (addr : SocketAddr)
  | SourceSelectionSetup (addr : SocketAddr) (source : string)
  | ReceiveFailed (source : string)
  | CoreFailed (error : ServerError).

(** Also the mapped wildcard, [::ffff:0.0.0.0]. *)
Definition is_wildcard (addr : SocketAddr) : bool :=
  match addr with
  | V4 ip _ => is_unspecified ip
  | V6 ip _ _ _ =>
      is_unspecified ip || match to_ipv4_mapped ip with Some mapped => is_unspecified mapped | None => false end
  end.

Definition may_send_unappliable (traffic_class : Z) (socket_is_marked : bool) : bool :=
  (traffic_class =? 0) && negb socket_is_marked.

(** ** Construction *)
(** [local_addr] and [destination_metadata] are what the socket answers; whether
    the kernel timestamps receptions makes no difference here. *)
Definition with_core (local_addr : string + SocketAddr) (destination_metadata : option string)
    (core : ServerCore.t) : Result ServerRuntimeError Server.t :=
  match local_addr with
  | inl source => Err (LocalAddrFailed source)
  | inr addr =>
      let select_reply_source := is_wildcard addr in
      _ ← (if select_reply_source then
             if negb SUPPORTED then Err (WildcardSourceSelectionUnsupported addr)
             else match destination_metadata with
                  | Some source => Err (SourceSelectionSetup addr source)
                  | None => Ok tt
                  end
           else Ok tt);
      Ok (Server.mk core (marks_with_ipv4_option addr) select_reply_source false)
  end.

Definition from_socket (local_addr : string + SocketAddr) (destination_metadata : option string)
    (config : ServerConfig.t) : Result ServerRuntimeError Server.t :=
  with_core local_addr destination_metadata (new config).

Definition bind_server (addr : SocketAddr) (bound : option string) (local_addr : string + SocketAddr)
    (destination_metadata : option string) (config : ServerConfig.t) : Result ServerRuntimeError Server.t :=
  match bound with
  | Some source => Err (BindFailed addr source)
  | None => from_socket local_addr destination_metadata config
  end.

(** ** Serving *)
(** [refused] is what the [setsockopt] that marks the reply answers. *)
Definition prepare_reply_traffic_class (traffic_class : Z) (refused : option string) (self : Server.t)
    : bool * Server.t :=
  match refused with
  | None => (true, set_marked (negb (traffic_class =? 0)) self)
  | Some _ => (may_send_unappliable traffic_class (socket_is_marked self), self)
  end.

(** What a run does that can be seen outside: what a [recvmsg] delivered, a datagram
    handed to the core, the socket marked (or not, with the reason), a [sendmsg], a
    yield. *)
Inductive Effect : Type :=
  | Delivered (message : RecvMsg.t)
  | Accepted (datagram : ReceivedDatagram.t)
  | Marked (mark : ReplyMark) (refused : option string)
  | Transmit (reply : OutboundDatagram.t) (message : Outgoing.t) (outcome : IoError + Z)
  | Yielded.

(** Where [run] is suspended: in the outer [select!], with the interruptions of the
    receive future, or in the inner one; or what it has returned. *)
Inductive Phase : Type :=
  | Receiving_ (consecutive_interrupted : Z)
  | Sending (reply : OutboundDatagram.t) (peer : SocketAddr) (reply_source : ReplySource)
  | Returned (result : Result ServerRuntimeError unit).

Module Run.
Record t : Type := mk { server : Server.t; phase : Phase; trace : list Effect }.
End Run.
Import Run.

(** What completes a branch. [refused] answers the marking of the reply, if the
    datagram gets one. *)
Inductive Event : Type :=
  | Shutdown
  | MaintenanceTick
  | ReceiveTurn (attempt : RecvAttempt) (refused : option string)
  | SendTurn (outcome : IoError + Z).

Section runtime.
Context `{Target} `{!HmacMd5} `{!Host}.

(** The core answers the datagram, and the reply is marked. *)
Definition serve_datagram (d : ReceivedDatagram.t) (refused : option string) (s : Run.t) : Run.t :=
  let '(answer, c) :=
    handle_received_datagram (ReceivedDatagram.peer d) (ReceivedDatagram.bytes_of d)
      (ReceivedDatagram.kernel_rx_timestamp d) (core (server s)) in
  let self := set_core c (server s) in
  let trace := trace s ++ [Accepted d] in
  match answer with
  | Err e => Run.mk self (Returned (Err (CoreFailed e))) trace
  | Panic => Run.mk self (Returned Panic) trace
  | Ok None => Run.mk self (Receiving_ 0) trace
  | Ok (Some reply) =>
      let traffic_class := OutboundDatagram.traffic_class reply in
      let '(may_send, self) := prepare_reply_traffic_class traffic_class refused self in
      let trace := trace ++ [Marked (set_reply_traffic_class (listener_is_ipv4 self) traffic_class) refused] in
      Run.mk self
        (if may_send then Sending reply (ReceivedDatagram.peer d) (ReceivedDatagram.reply_source d)
         else Receiving_ 0) trace
  end.

Definition delivered (attempt : RecvAttempt) (s : Run.t) : Run.t :=
  match attempt with
  | Recvmsg (inr message) => Run.mk (server s) (phase s) (trace s ++ [Delivered message])
  | _ => s
  end.

Definition on_receive (n : Z) (attempt : RecvAttempt) (refused : option string) (s : Run.t) : Run.t :=
  match receive RECEIVE_BUFFER_LEN n attempt (select_reply_source (server s)) with
  | ReceiveAgain n yielded =>
      Run.mk (server s) (Receiving_ n) (if yielded then trace s ++ [Yielded] else trace s)
  | ReceiveDone (inr (Some d)) => serve_datagram d refused s
  | ReceiveDone (inr None) => Run.mk (server s) (Receiving_ 0) (trace s)
  | ReceiveDone (inl Interrupted) => Run.mk (server s) (Receiving_ 0) (trace s)
  | ReceiveDone (inl source) => Run.mk (server s) (Returned (Err (ReceiveFailed (io_text source)))) (trace s)
  end.

(** A sent reply, short or failed, is not looked at any more. *)
Definition on_send (reply : OutboundDatagram.t) (peer : SocketAddr) (reply_source : ReplySource)
    (outcome : IoError + Z) (s : Run.t) : Run.t :=
  let message := send_once (OutboundDatagram.bytes_of reply) peer reply_source in
  Run.mk (server s)
    (match send_from_source outcome with Some _ => Receiving_ 0 | None => phase s end)
    (trace s ++ [Transmit reply message outcome]).

Definition on_tick (phase : Phase) (s : Run.t) : Run.t :=
  Run.mk (set_core (maintain (core (server s))) (server s)) phase (trace s).

(** One event. A branch the loop is not waiting on is not polled. *)
Definition run_event (e : Event) (s : Run.t) : Run.t :=
  match phase s with
  | Returned _ => s
  | Receiving_ n =>
      match e with
      | Shutdown => Run.mk (server s) (Returned (Ok tt)) (trace s)
      | MaintenanceTick => on_tick (Receiving_ 0) s
      | ReceiveTurn attempt refused => on_receive n attempt refused (delivered attempt s)
      | SendTurn _ => s
      end
  | Sending reply peer reply_source =>
      match e with
      | Shutdown => Run.mk (server s) (Returned (Ok tt)) (trace s)
      | MaintenanceTick => on_tick (phase s) s
      | ReceiveTurn _ _ => s
      | SendTurn outcome => on_send reply peer reply_source outcome s
      end
  end.

(** [run] on a server that is not running; it can be called again. *)
Definition start (self : Server.t) (trace : list Effect) : Run.t := Run.mk self (Receiving_ 0) trace.

(** A message the kernel can deliver into the buffer. *)
Definition event_ok (e : Event) : Prop :=
  match e with
  | ReceiveTurn (Recvmsg (inr m)) _ => bytes_ok (RecvMsg.payload m)
  | _ => True
  end.

(** The runs of a listener bound to [addr]. *)
Inductive serving (config : ServerConfig.t) (addr : SocketAddr) : Run.t → Prop :=
  | serving_start metadata self :
      from_socket (inr addr) metadata config = Ok self → serving config addr (start self [])
  | serving_again s r :
      serving config addr s → phase s = Returned r → r ≠ Panic → serving config addr (start (server s) (trace s))
  | serving_event e s : serving config addr s → event_ok e → serving config addr (run_event e s).

(** ** The trace *)
Definition class_of (mark : ReplyMark) : Z := match mark with SetTos c | SetTclass c => c end.

(** The traffic class the socket carries: the last one it took; a fresh socket
    carries none. *)
Definition class_step (class : Z) (e : Effect) : Z :=
  match e with Marked mark None => class_of mark | _ => class end.
Definition class_in_force (trace : list Effect) : Z := fold_left class_step trace 0.

Definition accepted_step (last : option ReceivedDatagram.t) (e : Effect) : option ReceivedDatagram.t :=
  match e with Accepted d => Some d | _ => last end.
Definition last_accepted (trace : list Effect) : option ReceivedDatagram.t := fold_left accepted_step trace None.

Definition delivered_step (last : option RecvMsg.t) (e : Effect) : option RecvMsg.t :=
  match e with Delivered m => Some m | _ => last end.
Definition last_delivered (trace : list Effect) : option RecvMsg.t := fold_left delivered_step trace None.

(** How many requests the core was given, and how many sends were completed. *)
Definition accepts (e : Effect) : bool := match e with Accepted _ => true | _ => false end.
Definition completes (e : Effect) : bool :=
  match e with Transmit _ _ (inl WouldBlock) => false | Transmit _ _ _ => true | _ => false end.
(** How many sends were completed since the core was last given a request. *)
Definition completed_step (n : nat) (e : Effect) : nat :=
  match e with Accepted _ => O | e => n + Nat.b2n (completes e) end.
Definition completed_since (trace : list Effect) : nat := fold_left completed_step trace O.
Definition count (p : Effect → bool) (trace : list Effect) : nat := length (filter p trace).
End runtime.

(** ** The invariant of a run *)
Section theory.
Context `{Target} `{!HmacMd5} `{!Host}.
Implicit Types (config : ServerConfig.t) (addr : SocketAddr) (trace : list Effect).

Lemma class_snoc trace e : class_in_force (trace ++ [e]) = class_step (class_in_force trace) e.
Proof. unfold class_in_force. by rewrite fold_left_app. Qed.
Lemma accepted_snoc trace e : last_accepted (trace ++ [e]) = accepted_step (last_accepted trace) e.
Proof. unfold last_accepted. by rewrite fold_left_app. Qed.
Lemma delivered_snoc trace e : last_delivered (trace ++ [e]) = delivered_step (last_delivered trace) e.
Proof. unfold last_delivered. by rewrite fold_left_app. Qed.
Lemma completed_snoc trace e : completed_since (trace ++ [e]) = completed_step (completed_since trace) e.
Proof. unfold completed_since. by rewrite fold_left_app. Qed.
Lemma trace_count_snoc p trace e : count p (trace ++ [e]) = (count p trace + Nat.b2n (p e))%nat.
Proof. unfold count. rewrite filter_app, length_app. f_equal. cbn. by destruct (p e). Qed.
Lemma class_of_mark is_ipv4 class : class_of (set_reply_traffic_class is_ipv4 class) = class.
Proof. by destruct is_ipv4. Qed.

(** A datagram this listener may hand to its core. *)
Definition usable addr (d : ReceivedDatagram.t) : Prop :=
  len (ReceivedDatagram.bytes_of d) < RECEIVE_BUFFER_LEN ∧
  if is_wildcard addr then specified (ReceivedDatagram.reply_source d)
  else ReceivedDatagram.reply_source d = Bound.

(** The reply is what a core of this server made of [d]. *)
Definition answers config (d : ReceivedDatagram.t) (reply : OutboundDatagram.t) : Prop :=
  ∃ c, reachable config c ∧
    (handle_received_datagram (ReceivedDatagram.peer d) (ReceivedDatagram.bytes_of d)
       (ReceivedDatagram.kernel_rx_timestamp d) c).1 = Ok (Some reply).

(** [d] is the request being answered after [trace]. *)
Record in_reply config addr trace (d : ReceivedDatagram.t) (reply : OutboundDatagram.t) : Prop := {
  ir_last : last_accepted trace = Some d;
  ir_usable : usable addr d;
  ir_message : ∃ m, last_delivered trace = Some m ∧ received_datagram m (is_wildcard addr) = Some d;
  ir_once : completed_since trace = O;
  ir_answers : answers config d reply;
  ir_class : class_in_force trace = OutboundDatagram.traffic_class reply;
}.

Definition effect_ok config addr trace (e : Effect) : Prop :=
  match e with
  | Accepted d => usable addr d
  | Marked mark _ => mark = set_reply_traffic_class (marks_with_ipv4_option addr) (class_of mark)
  | Transmit reply message _ =>
      ∃ d, in_reply config addr trace d reply ∧
           message = send_once (OutboundDatagram.bytes_of reply) (ReceivedDatagram.peer d)
                       (ReceivedDatagram.reply_source d)
  | Delivered _ | Yielded => True
  end.
Definition trace_ok config addr trace : Prop :=
  ∀ before e after, trace = before ++ e :: after → effect_ok config addr before e.

Lemma trace_ok_snoc config addr trace e :
  trace_ok config addr trace → effect_ok config addr trace e → trace_ok config addr (trace ++ [e]).
Proof.
  intros Ht He before e' after Heq. destruct (exists_last (l := e' :: after)) as (l & x & Hl); [done|].
  rewrite Hl, app_assoc in Heq. apply app_inj_tail in Heq as [-> ->].
  destruct l as [|y l]; simplify_eq/=; [by rewrite app_nil_r in He|]. by eapply Ht.
Qed.

Definition result_ok config (r : Result ServerRuntimeError unit) : Prop :=
  match r with
  | Ok _ => True
  | Err (ReceiveFailed _) | Err (CoreFailed (RandomSource _)) | Err (CoreFailed (TokenExhausted _)) => True
  | Err _ => False
  | Panic => False
  end.

Record run_ok config addr (s : Run.t) : Prop := {
  ro_core : reachable config (core (server s));
  ro_marked : socket_is_marked (server s) = negb (class_in_force (trace s) =? 0);
  ro_ipv4 : listener_is_ipv4 (server s) = marks_with_ipv4_option addr;
  ro_select : select_reply_source (server s) = is_wildcard addr;
  ro_trace : trace_ok config addr (trace s);
  ro_count : (count completes (trace s) ≤ count accepts (trace s))%nat;
  ro_phase :
    match phase s with
    | Receiving_ n => 0 <= n < INTERRUPTED_YIELD_THRESHOLD
    | Sending reply peer reply_source =>
        (count completes (trace s) < count accepts (trace s))%nat ∧
        ∃ d, in_reply config addr (trace s) d reply ∧ peer = ReceivedDatagram.peer d ∧
             reply_source = ReceivedDatagram.reply_source d
    | Returned r => result_ok config r
    end;
}.

(** Handing a datagram to the core. *)
Lemma accept_ok config addr d tr :
  usable addr d → trace_ok config addr tr → (count completes tr ≤ count accepts tr)%nat →
  trace_ok config addr (tr ++ [Accepted d]) ∧
  class_in_force (tr ++ [Accepted d]) = class_in_force tr ∧
  last_accepted (tr ++ [Accepted d]) = Some d ∧ last_delivered (tr ++ [Accepted d]) = last_delivered tr ∧
  completed_since (tr ++ [Accepted d]) = O ∧
  (count completes (tr ++ [Accepted d]) < count accepts (tr ++ [Accepted d]))%nat.
Proof.
  intros Hu Ht Hc. split; [by apply trace_ok_snoc|]. rewrite class_snoc, accepted_snoc, delivered_snoc, completed_snoc, !trace_count_snoc. simpl.
  do 4 (split; [done|]). lia.
Qed.

(** Marking a reply: what is in force afterwards, and whether it may be sent. *)
Lemma mark_ok class refused self self' may_send tr :
  socket_is_marked self = negb (class_in_force tr =? 0) →
  prepare_reply_traffic_class class refused self = (may_send, self') →
  let tr := tr ++ [Marked (set_reply_traffic_class (listener_is_ipv4 self') class) refused] in
  core self' = core self ∧ listener_is_ipv4 self' = listener_is_ipv4 self ∧
  select_reply_source self' = select_reply_source self ∧
  socket_is_marked self' = negb (class_in_force tr =? 0) ∧
  (may_send = true → class_in_force tr = class).
Proof.
  unfold prepare_reply_traffic_class, may_send_unappliable. intros Hm Hp. rewrite class_snoc.
  destruct refused as [reason|]; simplify_eq/=; [|by rewrite class_of_mark].
  do 4 (split; [done|]). rewrite Hm, negb_involutive. intros [Hc%Z.eqb_eq Hz%Z.eqb_eq]%andb_prop. by rewrite Hc.
Qed.

(** The fields of a run that was just built. *)
Ltac run_fields :=
  split; cbn [server phase trace core listener_is_ipv4 select_reply_source socket_is_marked set_core start on_tick on_send].

Lemma serve_ok config addr d refused s n :
  ServerConfig.ok config → bytes_ok (ReceivedDatagram.bytes_of d) → usable addr d →
  (∃ m, last_delivered (trace s) = Some m ∧ received_datagram m (is_wildcard addr) = Some d) →
  run_ok config addr s → phase s = Receiving_ n → run_ok config addr (serve_datagram d refused s).
Proof.
  intros Hcfg Hb Hu Hmsg [Hr Hm H4' Hs Ht Hc Hp] Hph. unfold serve_datagram, handle_received_datagram.
  destruct (reachable_ok config _ Hcfg Hr) as [Hk _].
  pose proof (process_ok (ReceivedDatagram.peer d) _ (ReceivedDatagram.kernel_rx_timestamp d) _ Hk Hb) as Hpr.
  pose proof (reach_event config (Datagram (ReceivedDatagram.peer d) (ReceivedDatagram.bytes_of d)
    (ReceivedDatagram.kernel_rx_timestamp d)) _ Hr Hb) as Hr'. cbn [ServerCore.run_event] in Hr'.
  destruct (accept_ok config addr d (trace s) Hu Ht Hc) as (Ht' & Hcl & Hla & Hde & Hco' & Hcnt).
  set (tr := trace s ++ [Accepted d]) in *. rewrite <-Hcl in Hm.
  destruct (process _ _ _ _) as [answer c] eqn:Hans. cbn in Hr'. destruct Hpr as (_ & _ & Hnp & He).
  destruct answer as [[reply|]|e|]; [| | |done].
  - destruct (prepare_reply_traffic_class _ refused _) as [may_send self] eqn:Hprep.
    destruct (mark_ok _ _ (set_core c (server s)) _ _ tr Hm Hprep) as (Hco & Hi4 & Hse & Hma & Hcf). cbn in Hco, Hi4, Hse.
    run_fields; [by rewrite Hco|exact Hma|congruence|congruence| |rewrite !trace_count_snoc; cbn [accepts completes Nat.b2n]; lia|].
    + apply trace_ok_snoc; [done|]. cbn. by rewrite class_of_mark, Hi4, H4'.
    + destruct may_send; [|by unfold INTERRUPTED_YIELD_THRESHOLD].
      split; [rewrite !trace_count_snoc; cbn [accepts completes Nat.b2n]; lia|]. exists d. split; [|done].
      split; [by rewrite accepted_snoc|done|by rewrite delivered_snoc, Hde|by rewrite completed_snoc, Hco'| |by apply Hcf].
      exists (core (server s)). split; [done|]. unfold handle_received_datagram. by rewrite Hans.
  - run_fields; [done..|lia|by unfold INTERRUPTED_YIELD_THRESHOLD].
  - run_fields; [done..|lia|]. by destruct (He e eq_refl) as [[[reason ->]| ->] _].
Qed.

Lemma tick_ok config addr p s :
  run_ok config addr s → p = phase s ∨ p = Receiving_ 0 ∧ (∃ n, phase s = Receiving_ n) → run_ok config addr (on_tick p s).
Proof.
  intros [Hr Hm H4' Hs Ht Hc Hp] Hph.
  run_fields; [exact (reach_event config Maintenance _ Hr I)|done..|].
  destruct Hph as [->|[-> _]]; [done|by unfold INTERRUPTED_YIELD_THRESHOLD].
Qed.

(** What a reception delivers is in the trace before anything is made of it. *)
Lemma delivered_ok config addr attempt n s :
  run_ok config addr s → phase s = Receiving_ n →
  run_ok config addr (delivered attempt s) ∧ phase (delivered attempt s) = Receiving_ n ∧
  ∀ m, attempt = Recvmsg (inr m) → last_delivered (trace (delivered attempt s)) = Some m.
Proof.
  intros Hk Hph. destruct attempt as [error|[error|m]]; try (by split; [|split]).
  destruct Hk as [Hr Hm H4' Hs Ht Hc Hp]. rewrite Hph in Hp. cbn [delivered phase]. rewrite Hph.
  split; [|split; [done|]].
  - run_fields; [done| |done|done|by apply trace_ok_snoc| |done].
    + by rewrite class_snoc.
    + rewrite !trace_count_snoc. cbn [accepts completes Nat.b2n]. lia.
  - intros m' [= <-]. cbn [trace]. by rewrite delivered_snoc.
Qed.

Lemma receive_turn_ok config addr n attempt refused s :
  ServerConfig.ok config → event_ok (ReceiveTurn attempt refused) →
  (∀ m, attempt = Recvmsg (inr m) → last_delivered (trace s) = Some m) →
  run_ok config addr s → phase s = Receiving_ n → run_ok config addr (on_receive n attempt refused s).
Proof.
  intros Hcfg He Hde Hk Hph. pose proof Hk as [Hr Hm H4' Hs Ht Hc Hp]. rewrite Hph in Hp. unfold on_receive.
  destruct (receive _ _ _ _) as [n' yielded|[error|[d|]]] eqn:Hrec.
  - apply receive_interrupted in Hrec as [Hn' _]; [|done]. destruct yielded; (run_fields; [done|..]); try done.
    + by rewrite class_snoc.
    + by apply trace_ok_snoc.
    + rewrite !trace_count_snoc. cbn [accepts completes Nat.b2n]. lia.
  - by destruct error; (run_fields; [done..|by unfold INTERRUPTED_YIELD_THRESHOLD]).
  - apply receive_inv in Hrec as (m & -> & Hd & Hlen). pose proof (received_inv _ _ _ Hd) as (Hpay & _ & _ & _ & Hsrc).
    apply (serve_ok config addr d refused s n); [done|by rewrite Hpay| | |done|done].
    2: { exists m. split; [by apply Hde|by rewrite Hs in Hd]. }
    split; [done|]. rewrite Hs in Hsrc. destruct (is_wildcard addr); [apply Hsrc|done].
  - run_fields; [done..|by unfold INTERRUPTED_YIELD_THRESHOLD].
Qed.

Lemma send_event_ok config addr reply peer reply_source outcome s :
  run_ok config addr s → phase s = Sending reply peer reply_source →
  run_ok config addr (on_send reply peer reply_source outcome s).
Proof.
  intros [Hr Hm H4' Hs Ht Hc Hp] Hph. rewrite Hph in Hp. destruct Hp as (Hlt & d & Hd & -> & ->).
  run_fields; [done| |done|done| | |].
  - by rewrite class_snoc.
  - apply trace_ok_snoc; [done|]. by exists d.
  - rewrite !trace_count_snoc. cbn [accepts]. destruct outcome as [[]|]; cbn [completes Nat.b2n]; lia.
  - destruct outcome as [[]|sent]; cbn [send_from_source]; try by unfold INTERRUPTED_YIELD_THRESHOLD.
    rewrite Hph, !trace_count_snoc. cbn [accepts completes Nat.b2n]. split; [lia|]. exists d. split; [|done].
    destruct Hd as [Hla Hu Hme Hon Ha Hcl].
    split; [by rewrite accepted_snoc|done|by rewrite delivered_snoc|by rewrite completed_snoc, Hon|done|by rewrite class_snoc].
Qed.

Lemma serving_ok config addr s : ServerConfig.ok config → serving config addr s → run_ok config addr s.
Proof.
  intros Hcfg. induction 1 as [metadata self Hself|s r _ IH Hph Hr|e s _ IH He].
  - assert (self = Server.mk (new config) (marks_with_ipv4_option addr) (is_wildcard addr) false) as ->.
    { unfold from_socket, with_core in Hself. destruct (is_wildcard addr), metadata; by simplify_eq/=. }
    run_fields; [constructor|done..| | |].
    + intros before e after Heq. by destruct before.
    + done.
    + by unfold INTERRUPTED_YIELD_THRESHOLD.
  - destruct IH as [? ? ? ? ? ? _]. run_fields; [done..|by unfold INTERRUPTED_YIELD_THRESHOLD].
  - unfold run_event. destruct (phase s) as [n|reply peer source|r] eqn:Hph; [| |done]; destruct e as [| |attempt refused|outcome]; try done.
    + destruct IH. by split.
    + apply tick_ok; [done|]. right. eauto.
    + destruct (delivered_ok config addr attempt n s IH Hph) as (Hk & Hph' & Hde). by apply receive_turn_ok.
    + destruct IH. by split.
    + apply tick_ok; [done|]. by left.
    + by apply send_event_ok.
Qed.
End theory.

(** ** Properties *)
Section properties.
Context `{Target} `{!HmacMd5} `{!Host}.

(** C10: No reply leaves under another session's marking: whenever a listener hands
    a reply to the kernel, the traffic class the socket carries, which is the last
    one it accepted, is the one that reply asked for, zero included; and every
    marking uses the option of the listener's own family. *)
Theorem replies_marked (config : ServerConfig.t) addr s before reply message outcome after :
  ServerConfig.ok config → serving config addr s → trace s = before ++ Transmit reply message outcome :: after →
  class_in_force before = OutboundDatagram.traffic_class reply ∧
  ∀ mark refused, Marked mark refused ∈ trace s →
    mark = set_reply_traffic_class (marks_with_ipv4_option addr) (class_of mark).
Proof.
  intros Hc Hs Ht. destruct (serving_ok _ _ _ Hc Hs) as [_ _ _ _ Hok _ _]. split.
  - by destruct (Hok _ _ _ Ht) as (d & [] & _).
  - intros mark refused (before' & after' & Hin)%list_elem_of_split. exact (Hok _ _ _ Hin).
Qed.

(** How a reply to [m], which came from [sender], leaves a listener bound to [addr]:
    without packet info, to the sender; or, bound to all addresses, from the address
    that [m]'s packet info names, as IPv6 if that is how it came, and through the
    interface it came by if that address is link-local. *)
Definition sent_back addr (m : RecvMsg.t) (sender : SocketAddr) (message : Outgoing.t) : Prop :=
  if is_wildcard addr then
    RecvMsg.msg_ctrunc m = false ∧
    match packet_info m with
    | Some (Ipv4PacketInfo address) =>
        address ≠ 0 ∧ Outgoing.destination message = sender ∧ Outgoing.info message = Some (In4 0 address)
    | Some (Ipv6PacketInfo address interface_index) =>
        address ≠ 0 ∧
        Outgoing.destination message
          = match sender with V4 ip port => V6 (Z.lor (Z.shiftl 65535 32) ip) port 0 0 | V6 _ _ _ _ => sender end ∧
        Outgoing.info message = Some (In6 address (if Z.shiftr address 118 =? 1018 then interface_index else 0))
    | _ => False
    end
  else Outgoing.destination message = sender ∧ Outgoing.info message = None.

(** C11: What a listener sends answers the request it received last: the last message
    the kernel delivered came whole and fitted the buffer, the core of this listener
    made the reply of its payload, sender and reception time, and the reply's bytes go
    back to that sender, from the address the message was sent to when the listener is
    bound to all addresses. When it is handed to the kernel no earlier attempt at an
    answer to this request has completed: none is answered twice. *)
Theorem replies_answer_requests (config : ServerConfig.t) addr s before reply message outcome after :
  ServerConfig.ok config → serving config addr s → trace s = before ++ Transmit reply message outcome :: after →
  ∃ m sender, last_delivered before = Some m ∧ RecvMsg.address m = Some (Inet sender) ∧
    RecvMsg.msg_trunc m = false ∧ len (RecvMsg.payload m) < RECEIVE_BUFFER_LEN ∧
    (∃ c, reachable config c ∧
       (process sender (RecvMsg.payload m) (ReceiveMetadata.kernel_rx_timestamp (receive_metadata m)) c).1 = Ok (Some reply)) ∧
    Outgoing.bytes_of message = OutboundDatagram.bytes_of reply ∧ sent_back addr m sender message ∧
    completed_since before = O.
Proof.
  intros Hc Hs Ht. destruct (serving_ok _ _ _ Hc Hs) as [_ _ _ _ Hok _ _].
  destruct (Hok _ _ _ Ht) as (d & [_ [Hlen _] (m & Hm & Hd) Hon Ha _] & ->).
  apply received_inv in Hd as (Hpay & Htr & Hsen & Hkern & Hsrc). exists m, (ReceivedDatagram.peer d).
  split; [done|]. split; [done|]. split; [done|]. split; [by rewrite <- Hpay|]. split.
  { destruct Ha as (c & Hr & Ha). exists c. split; [done|]. unfold handle_received_datagram in Ha. by rewrite <- Hpay, <- Hkern. }
  unfold sent_back. destruct (is_wildcard addr); [|by rewrite Hsrc].
  destruct Hsrc as (Hct & Hsp & Hpi). destruct (packet_info m) as [[address|address ifindex|sec nsec|]|]; try done;
    cbn in Hpi; injection Hpi as Hpi; rewrite <- Hpi in *; repeat split; try done.
Qed.

(** A listener does not panic, and only three things end it: being asked to stop,
    a reception that fails for good, and its core failing for want of randomness or
    of a free token. Asked to stop, it does so at once, even while it is sending; it
    yields before 64 interruptions in a row; and its core is a reachable one, so
    that what holds of every core holds of it. *)
Theorem listener_total (config : ServerConfig.t) addr s :
  ServerConfig.ok config → serving config addr s →
  reachable config (core (server s)) ∧
  match phase s with
  | Returned (Ok _) => True
  | Returned (Err e) =>
      (∃ source, e = ReceiveFailed source) ∨ (∃ reason, e = CoreFailed (RandomSource reason)) ∨
      (∃ attempts, e = CoreFailed (TokenExhausted attempts))
  | Returned Panic => False
  | Receiving_ n => 0 <= n < 64 ∧ phase (run_event Shutdown s) = Returned (Ok tt)
  | Sending _ _ _ => phase (run_event Shutdown s) = Returned (Ok tt)
  end.
Proof.
  intros Hc Hs. destruct (serving_ok _ _ _ Hc Hs) as [Hr _ _ _ _ _ Hp]. split; [done|]. unfold run_event.
  destruct (phase s) as [n| |[|e|]]; [done..| |done]. destruct e as [| | | | |[]]; try done; eauto.
Qed.
End properties.

(** ** A concrete run *)
Section example.
#[local] Existing Instances target64 toy_hmac example_host.

(** A client that asks for traffic class 184 contacts 127.0.0.1 on a listener
    bound to all addresses. *)
Definition marked_params : Params.t := Params.set_dscp 184 example_params.
Definition from_peer (packet : bytes) : Event :=
  ReceiveTurn (Recvmsg (inr (RecvMsg.mk packet false false (Some (Inet example_peer))
    [ScmTimestampns 1 5; Ipv4PacketInfo 2130706433]))) None.
Definition wildcard : SocketAddr := V4 0 2112.
Definition example_events : list Event :=
  [ReceiveTurn (Recvmsg (inl Interrupted)) None; from_peer (request_packet (EncOpen marked_params false));
   SendTurn (inr 64); from_peer echo_packet; SendTurn (inl WouldBlock); MaintenanceTick; SendTurn (inr 64)].
Definition example_server : Server.t :=
  Server.mk (new example_config) (marks_with_ipv4_option wildcard) (is_wildcard wildcard) false.
Definition example_run : Run.t := fold_left (λ s e, run_event e s) example_events (start example_server []).

Lemma events_serving config addr events s :
  serving config addr s → Forall event_ok events → serving config addr (fold_left (λ s e, run_event e s) events s).
Proof.
  revert s. induction events as [|e events IH]; intros s Hs Ho; [done|]. inversion_clear Ho. cbn. apply IH; [|done].
  by constructor.
Qed.

Lemma example_serving : serving example_config wildcard example_run.
Proof.
  apply events_serving; [by apply (serving_start _ _ None)|].
  repeat constructor; unfold event_ok; cbn [from_peer RecvMsg.payload]; try exact I; decide_now.
Qed.

(** The first reply is unmarked and the second is not. *)
Example example_marks :
  omap (λ e, match e with Marked mark _ => Some mark | _ => None end) (trace example_run) = [SetTos 0; SetTos 184] ∧
  count completes (trace example_run) = 2%nat.
Proof. vm_compute. done. Qed.

(** The marked reply, the second time it is tried. *)
Definition marked_reply : OutboundDatagram.t :=
  match last (trace example_run) with Some (Transmit reply _ _) => reply | _ => OutboundDatagram.mk [] 0 end.
Definition marked_message : Outgoing.t :=
  match last (trace example_run) with Some (Transmit _ message _) => message | _ => Outgoing.mk [] wildcard None end.
Lemma example_trace :
  trace example_run = take 8 (trace example_run) ++ Transmit marked_reply marked_message (inr 64) :: [].
Proof. vm_compute. reflexivity. Qed.

Lemma replies_marked_witness :
  class_in_force (take 8 (trace example_run)) = OutboundDatagram.traffic_class marked_reply ∧
  OutboundDatagram.traffic_class marked_reply = 184.
Proof.
  split; [|vm_compute; reflexivity].
  apply (replies_marked example_config wildcard example_run _ _ _ _ _ example_config_ok example_serving example_trace).
Defined.

Lemma replies_answer_requests_witness :
  Outgoing.destination marked_message = example_peer ∧ Outgoing.info marked_message = Some (In4 0 2130706433).
Proof.
  destruct (replies_answer_requests example_config wildcard example_run _ _ _ _ _
    example_config_ok example_serving example_trace) as (m & sender & Hm & Ha & _ & _ & _ & _ & Hs & _).
  vm_compute in Hm. injection Hm as <-. vm_compute in Ha. injection Ha as <-. destruct Hs as (_ & _ & Hd & Hi).
  split; [exact Hd|exact Hi].
Defined.

Lemma listener_total_witness :
  reachable example_config (core (server example_run)) ∧
  phase (run_event Shutdown example_run) = Returned (Ok tt).
Proof.
  pose proof (listener_total example_config wildcard example_run example_config_ok example_serving) as [Hr _].
  split; [exact Hr|vm_compute; reflexivity].
Defined.
End example.
