(* ===== verification/ServerSet.v ===== *)
(** * irtt-server: several listeners as one service

    Models [crates/irtt-server/src/set.rs]: a [ServerSet] binds every listener it is
    asked for or none, runs each in a task of its own, and stops all of them when it
    is asked to or when one of them fails. A run of the set interleaves the events
    of its listeners, in any order, with the supervisor's own. *)

From S2P Require Import Prelude ProtoBase Envelope ParamsCodec Layout RequestCodec.
From S2P Require Import ServerBase Fill Session Negotiate ServerCore ServerIo ServerRuntime.

(** ** Which listeners are IPv6-only *)
Definition port_of (addr : SocketAddr) : Z := match addr with V4 _ port => port | V6 _ port _ _ => port end.
Definition serves_ipv4 (addr : SocketAddr) : bool :=
  match addr with
  | V4 _ _ => true
  | V6 ip _ _ _ => match to_ipv4_mapped ip with Some _ => true | None => false end
  end.
Definition is_genuine_ipv6 (addr : SocketAddr) : bool := is_ipv6 addr && negb (serves_ipv4 addr).
Definition needs_ipv6_only (addr : SocketAddr) (requested : list SocketAddr) : bool :=
  is_genuine_ipv6 addr && negb (port_of addr =? 0)
  && existsb (λ other, (port_of other =? port_of addr) && serves_ipv4 other) requested.

(** ** Binding *)
(** The calls that set a listener's socket up, in the order they are made. *)
Inductive SetupCall : Type :=
  | NewIpv6Socket
  | SetOnlyV6
  | SetNonblocking
  | BindSocket (addr : SocketAddr)
  | FromStd.
Definition bind_ipv6_only (addr : SocketAddr) : list SetupCall :=
  [NewIpv6Socket; SetOnlyV6; SetNonblocking; BindSocket addr; FromStd].

(** What the system answers while one listener is set up. *)
Module SetupAnswers.
Record t : Type := mk {
  call : SetupCall → option string;
  local_addr : string + SocketAddr;
  destination_metadata : option string;
}.
End SetupAnswers.

Fixpoint first_error (call : SetupCall → option string) (calls : list SetupCall) : option string :=
  match calls with
  | [] => None
  | c :: calls => match call c with Some source => Some source | None => first_error call calls end
  end.

Definition bind_listener (addr : SocketAddr) (config : ServerConfig.t) (ipv6_only : bool)
    (a : SetupAnswers.t) : Result ServerRuntimeError Server.t :=
  let calls := if ipv6_only then bind_ipv6_only addr else [BindSocket addr] in
  bind_server addr (first_error (SetupAnswers.call a) calls) (SetupAnswers.local_addr a)
    (SetupAnswers.destination_metadata a) config.

Inductive ServerSetError : Type :=
  | NoListeners
  | ListenerSetup (addr : SocketAddr) (source : ServerRuntimeError)
  | ListenerRun (addr : SocketAddr) (source : ServerRuntimeError)
  | ListenerStopped (addr : SocketAddr)
  | ListenerTask (addr : option SocketAddr).

(** [Server::local_addr], asked again of the same socket once the listener is built. *)
Definition server_local_addr (a : SetupAnswers.t) : Result ServerRuntimeError SocketAddr :=
  match SetupAnswers.local_addr a with inr addr => Ok addr | inl source => Err (LocalAddrFailed source) end.

Fixpoint bind_all (config : ServerConfig.t) (requested : list SocketAddr)
    (pending : list (SocketAddr * SetupAnswers.t)) : Result ServerSetError (list (Server.t * SocketAddr)) :=
  match pending with
  | [] => Ok []
  | (addr, a) :: pending =>
      server ← map_err (ListenerSetup addr) (bind_listener addr config (needs_ipv6_only addr requested) a);
      local_addr ← map_err (ListenerSetup addr) (server_local_addr a);
      rest ← bind_all config requested pending;
      Ok ((server, local_addr) :: rest)
  end.

(** [ServerSet::bind]: the addresses, each with what the system answers for it. *)
Definition bind_set (config : ServerConfig.t) (pending : list (SocketAddr * SetupAnswers.t))
    : Result ServerSetError (list (Server.t * SocketAddr)) :=
  match pending with [] => Err NoListeners | _ => bind_all config pending.*1 pending end.

(** ** Supervision *)
Module Listener.
Record t : Type := mk { addr : SocketAddr; run : Run.t; joined : bool }.
Definition set_run (r : Run.t) (l : t) : t := mk (addr l) r (joined l).
Definition set_joined (l : t) : t := mk (addr l) (run l) true.
End Listener.

Module SetState.
Record t : Type := mk {
  listeners : list Listener.t;
  shutting_down : bool;
  failure : option ServerSetError;
  returned : option (Result ServerSetError unit);
}.
End SetState.
Import SetState.

Definition spawn (servers : list (Server.t * SocketAddr)) : SetState.t :=
  SetState.mk ((λ '(server, addr), Listener.mk addr (start server []) false) <$> servers) false None None.

(** A listener takes a step of its own; or one of the two branches of the loop. *)
Inductive SetEvent : Type :=
  | ListenerTurn (i : nat) (e : Event)
  | ShutdownRequested
  | Joined (i : nat)
  | NoneLeft.

Section set.
Context `{Target} `{!HmacMd5} `{!Host}.

(** What the task of a listener came to, once it is over. *)
Definition listener_failure (shutting_down : bool) (addr : SocketAddr) (r : Result ServerRuntimeError unit)
    : option ServerSetError :=
  match r with
  | Ok _ => if shutting_down then None else Some (ListenerStopped addr)
  | Err source => Some (ListenerRun addr source)
  | Panic => Some (ListenerTask (Some addr))
  end.

Definition join_listener (i : nat) (l : Listener.t) (r : Result ServerRuntimeError unit) (s : SetState.t)
    : SetState.t :=
  let listeners := <[i := Listener.set_joined l]> (listeners s) in
  match listener_failure (shutting_down s) (Listener.addr l) r with
  | Some error =>
      SetState.mk listeners true (match failure s with Some first => Some first | None => Some error end) None
  | None => SetState.mk listeners (shutting_down s) (failure s) None
  end.

(** A listener sees the shutdown once it has been passed on; only a task that is
    over is joined, once; and the loop is left when none is left to join. *)
Definition set_event (e : SetEvent) (s : SetState.t) : SetState.t :=
  match returned s with
  | Some _ => s
  | None =>
      match e with
      | ShutdownRequested => SetState.mk (listeners s) true (failure s) None
      | ListenerTurn i e =>
          match listeners s !! i, e with
          | None, _ => s
          | Some l, Shutdown =>
              if shutting_down s
              then SetState.mk (<[i := Listener.set_run (run_event Shutdown (Listener.run l)) l]> (listeners s))
                     (shutting_down s) (failure s) None
              else s
          | Some l, e =>
              SetState.mk (<[i := Listener.set_run (run_event e (Listener.run l)) l]> (listeners s))
                (shutting_down s) (failure s) None
          end
      | Joined i =>
          match listeners s !! i with
          | Some l =>
              match Run.phase (Listener.run l), Listener.joined l with
              | Returned r, false => join_listener i l r s
              | _, _ => s
              end
          | None => s
          end
      | NoneLeft =>
          if forallb Listener.joined (listeners s)
          then SetState.mk (listeners s) (shutting_down s) (failure s)
                 (Some (match failure s with Some error => Err error | None => Ok tt end))
          else s
      end
  end.

Definition set_event_ok (e : SetEvent) : Prop := match e with ListenerTurn _ e => event_ok e | _ => True end.

(** The runs of a set that was bound. *)
Inductive supervising (config : ServerConfig.t) (pending : list (SocketAddr * SetupAnswers.t)) : SetState.t → Prop :=
  | supervising_start servers : bind_set config pending = Ok servers → supervising config pending (spawn servers)
  | supervising_event e s :
      supervising config pending s → set_event_ok e → supervising config pending (set_event e s).

(** What ends every listener and then the set: each is told to stop, and joined. *)
Definition drain_events (n : nat) : list SetEvent :=
  (seq 0 n ≫= λ i, [ListenerTurn i Shutdown; Joined i]) ++ [NoneLeft].
Definition set_events (events : list SetEvent) (s : SetState.t) : SetState.t :=
  fold_left (λ s e, set_event e s) events s.
End set.

(** ** The invariant of a set *)
Section theory.
Context `{Target} `{!HmacMd5} `{!Host}.

Lemma shutdown_returns (s : Run.t) : ∃ r, Run.phase (run_event Shutdown s) = Returned r.
Proof. unfold run_event. destruct (Run.phase s) eqn:Hp; cbn; eauto. Qed.

(** Only a shutdown makes a listener return with [Ok]. *)
Lemma stops_when_asked e (s : Run.t) u :
  e ≠ Shutdown → Run.phase (run_event e s) = Returned (Ok u) → Run.phase s = Returned (Ok u).
Proof.
  intros He. unfold run_event, on_receive, serve_datagram, on_tick, on_send.
  destruct (Run.phase s) eqn:Hp; destruct e; try done; cbn; try congruence; repeat case_match; cbn; congruence.
Qed.

(** A task that is over does nothing more. *)
Lemma over_event e (s : Run.t) r : Run.phase s = Returned r → run_event e s = s.
Proof. unfold run_event. by intros ->. Qed.

Record listener_ok config (shutting_down : bool) (l : Listener.t) : Prop := {
  lo_serving : serving config (Listener.addr l) (Listener.run l);
  lo_joined : Listener.joined l = true → ∃ r, Run.phase (Listener.run l) = Returned r;
  lo_running : shutting_down = false →
    Listener.joined l = false ∧ ∀ u, Run.phase (Listener.run l) ≠ Returned (Ok u);
}.

Definition failed_with (error : ServerSetError) (l : Listener.t) : Prop :=
  ∃ source, Run.phase (Listener.run l) = Returned (Err source) ∧ error = ListenerRun (Listener.addr l) source.

(** What has been recorded of the listeners that were joined. *)
Definition recorded (shutting_down : bool) (failure : option ServerSetError) (ls : list Listener.t) : Prop :=
  match failure with
  | None => ∀ l, l ∈ ls → Listener.joined l = true → Run.phase (Listener.run l) = Returned (Ok tt)
  | Some error => shutting_down = true ∧ ∃ l, l ∈ ls ∧ Listener.joined l = true ∧ failed_with error l
  end.

Record set_ok config (addrs : list SocketAddr) (s : SetState.t) : Prop := {
  so_addrs : Listener.addr <$> listeners s = addrs;
  so_listeners : ∀ l, l ∈ listeners s → listener_ok config (shutting_down s) l;
  so_recorded : recorded (shutting_down s) (failure s) (listeners s);
  so_returned : ∀ r, returned s = Some r →
    (∀ l, l ∈ listeners s → Listener.joined l = true) ∧
    r = match failure s with Some error => Err error | None => Ok tt end;
}.

Lemma elem_insert {A} (l : list A) i x y z :
  l !! i = Some x → z ∈ <[i := y]> l → z = y ∨ z ∈ l.
Proof.
  intros Hi [j Hj]%list_elem_of_lookup_1. destruct (decide (i = j)) as [<-|Hne].
  - rewrite list_lookup_insert_eq in Hj; [|by eapply lookup_lt_Some]. left. congruence.
  - rewrite list_lookup_insert_ne in Hj by done. right. by eapply list_elem_of_lookup_2.
Qed.

Lemma fmap_insert_same {A B} (f : A → B) (l : list A) i x y :
  l !! i = Some x → f y = f x → f <$> <[i := y]> l = f <$> l.
Proof.
  intros Hi Hf. rewrite list_fmap_insert, Hf. apply list_insert_id. by rewrite list_lookup_fmap, Hi.
Qed.

(** A turn of a listener: what was joined stays as it was. *)
Lemma turn_ok config addrs s i l e :
  set_ok config addrs s → returned s = None → listeners s !! i = Some l → event_ok e →
  (e = Shutdown → shutting_down s = true) →
  set_ok config addrs (SetState.mk (<[i := Listener.set_run (run_event e (Listener.run l)) l]> (listeners s))
    (shutting_down s) (failure s) None).
Proof.
  intros [Ha Hl Hr _] Hret Hi He Hsd. pose proof (Hl l ltac:(by eapply list_elem_of_lookup_2)) as [Hs Hj Hn].
  set (l' := Listener.set_run _ l).
  assert (Listener.joined l = true → l' = l) as Hsame.
  { intros [r Hp]%Hj. unfold l'. rewrite (over_event _ _ _ Hp). by destruct l. }
  assert (listener_ok config (shutting_down s) l') as Hl'.
  { split; cbn; [by constructor| |].
    - intros Hjo. specialize (Hsame Hjo). destruct (Hj Hjo) as [r Hp]. exists r. by rewrite (over_event _ _ _ Hp).
    - intros Hf. destruct (Hn Hf) as [Hjo Hne]. split; [done|]. intros u Hp. apply (Hne u).
      apply (stops_when_asked e); [|done]. intros ->. by rewrite Hsd in Hf. }
  split; cbn; [by rewrite (fmap_insert_same _ _ _ l)| | |done].
  - intros k [->|Hk]%(elem_insert _ _ l); [done|by apply Hl|done].
  - destruct (failure s) as [error|] eqn:Hf; cbn in *.
    + destruct Hr as (Hsh & k & Hk & Hjk & Hfk). split; [done|]. exists k. split; [|done].
      apply list_elem_of_lookup_1 in Hk as [j Hkj]. apply (list_elem_of_lookup_2 _ j).
      destruct (decide (i = j)) as [<-|Hne]; [|by rewrite list_lookup_insert_ne].
      rewrite list_lookup_insert_eq by (by eapply lookup_lt_Some). f_equal. replace k with l in * by congruence. by apply Hsame.
    + intros k [->|Hk]%(elem_insert _ _ l); [|by apply Hr|done]. intros Hjo.
      rewrite (Hsame Hjo). apply Hr; [by eapply list_elem_of_lookup_2|done].
Qed.

Lemma join_ok config addrs s i l r :
  ServerConfig.ok config → set_ok config addrs s → returned s = None → listeners s !! i = Some l →
  Run.phase (Listener.run l) = Returned r → Listener.joined l = false →
  set_ok config addrs (join_listener i l r s).
Proof.
  intros Hcfg [Ha Hl Hr _] Hret Hi Hp Hj. pose proof (Hl l ltac:(by eapply list_elem_of_lookup_2)) as [Hs _ Hn].
  destruct (serving_ok _ _ _ Hcfg Hs) as [_ _ _ _ _ _ Hres]. rewrite Hp in Hres.
  set (l' := Listener.set_joined l). set (ls := <[i := l']> (listeners s)).
  assert (l' ∈ ls) as Hin.
  { apply (list_elem_of_lookup_2 _ i), list_lookup_insert_eq. by eapply lookup_lt_Some. }
  assert (∀ k, k ∈ listeners s → Listener.joined k = true → k ∈ ls) as Hkeep.
  { intros k [j Hkj]%list_elem_of_lookup_1 Hjk. apply (list_elem_of_lookup_2 _ j).
    destruct (decide (i = j)) as [<-|Hne]; [congruence|unfold ls; by rewrite list_lookup_insert_ne]. }
  assert (∀ b, listener_ok config b l' ∧ (∀ k, k ∈ listeners s → listener_ok config b k) →
    ∀ k, k ∈ ls → listener_ok config b k) as Hall.
  { intros b [Hl' Hk] k [->|Hin']%(elem_insert _ _ l); [done|by apply Hk|done]. }
  assert (∀ k, k ∈ listeners s → listener_ok config true k) as Htrue.
  { intros k Hk. destruct (Hl k Hk) as [? ? _]. by split. }
  assert (listener_ok config true l') as Hl'. { split; [done|by exists r|done]. }
  assert (Listener.addr <$> ls = addrs) as Ha' by by rewrite <-Ha; apply (fmap_insert_same _ _ _ l).
  unfold join_listener, listener_failure. fold l' ls. destruct r as [[]|source|]; [| |done].
  - destruct (shutting_down s) eqn:Hsd; [|destruct (Hn eq_refl) as [_ Hne]; by destruct (Hne tt)].
    split; cbn; [done|by apply Hall| |done].
    unfold recorded in *. destruct (failure s) as [error|].
    + destruct Hr as (_ & k & Hk & Hjk & Hfk). split; [done|]. exists k. by split; [apply Hkeep|].
    + intros k [->|Hk]%(elem_insert _ _ l); [done|by apply Hr|done].
  - split; cbn; [done|by apply Hall| |done]. unfold recorded in *. destruct (failure s) as [error|].
    + destruct Hr as (_ & k & Hk & Hjk & Hfk). split; [done|]. exists k. by split; [apply Hkeep|].
    + split; [done|]. exists l'. do 2 (split; [done|]). by exists source.
Qed.

Lemma elem_spawn servers l :
  l ∈ listeners (spawn servers) →
  ∃ self addr, (self, addr) ∈ servers ∧ l = Listener.mk addr (start self []) false.
Proof. cbn. intros ([self addr] & -> & Hin)%list_elem_of_fmap. by exists self, addr. Qed.

Lemma bind_all_ok config requested pending servers :
  bind_all config requested pending = Ok servers →
  length servers = length pending ∧ ∀ self addr, (self, addr) ∈ servers → serving config addr (start self []).
Proof.
  revert servers. induction pending as [|[addr a] pending IH]; intros servers; cbn.
  - intros [= <-]. split; [done|]. intros ? ? []%not_elem_of_nil.
  - unfold bind_listener, bind_server, server_local_addr. destruct (first_error _ _); [done|].
    destruct (from_socket _ _ config) as [self| |] eqn:Hs; try done. cbn.
    destruct (SetupAnswers.local_addr a) as [|local]; [done|]. cbn.
    destruct (bind_all config requested pending) as [rest| |]; try done. intros [= <-].
    destruct (IH rest eq_refl) as [Hlen Hrest]. split; [cbn; by rewrite Hlen|].
    intros self' addr' [[= -> ->]|Hin]%elem_of_cons; [by eapply serving_start|by apply Hrest].
Qed.

Lemma bind_set_ok config pending servers :
  bind_set config pending = Ok servers →
  pending ≠ [] ∧ length servers = length pending ∧
  ∀ self addr, (self, addr) ∈ servers → serving config addr (start self []).
Proof. unfold bind_set. intros Hb. destruct pending; [done|]. split; [done|]. by eapply bind_all_ok. Qed.

Lemma set_event_keeps config addrs e s :
  ServerConfig.ok config → set_event_ok e → set_ok config addrs s → set_ok config addrs (set_event e s).
Proof.
  intros Hcfg He Hk. unfold set_event. destruct (returned s) eqn:Hret; [done|]. destruct e as [i e| |i|].
  - destruct (listeners s !! i) as [l|] eqn:Hi; [|done].
    assert (∀ e, event_ok e → (e = Shutdown → shutting_down s = true) → set_ok config addrs
      (SetState.mk (<[i := Listener.set_run (run_event e (Listener.run l)) l]> (listeners s))
        (shutting_down s) (failure s) None)) as Hturn by by intros; apply turn_ok.
    destruct e; [|by apply Hturn..]. specialize (Hturn Shutdown I).
    destruct (shutting_down s); [by apply Hturn|done].
  - destruct Hk as [Ha Hl Hr _]. split; cbn; [done| | |done].
    + intros l Hin. destruct (Hl l Hin). by split.
    + unfold recorded in *. destruct (failure s); [|done]. by destruct Hr.
  - destruct (listeners s !! i) as [l|] eqn:Hi; [|done]. destruct (Run.phase (Listener.run l)) eqn:Hp; [done..|].
    destruct (Listener.joined l) eqn:Hj; [done|]. by apply join_ok.
  - destruct (forallb Listener.joined (listeners s)) eqn:Hall; [|done]. destruct Hk as [Ha Hl Hr _].
    split; cbn; [done..|]. intros r [= <-]. split; [|done]. intros l Hin.
    rewrite forallb_forall in Hall. apply Hall. by apply list_elem_of_In.
Qed.

(** Every run is one of the servers that were bound, at their addresses. *)
Lemma supervising_servers config pending s :
  ServerConfig.ok config → supervising config pending s →
  ∃ servers, bind_set config pending = Ok servers ∧ set_ok config servers.*2 s.
Proof.
  intros Hcfg. induction 1 as [servers Hb|e s _ (servers & Hb & Hk) He].
  - exists servers. split; [done|]. apply bind_set_ok in Hb as (Hne & Hlen & Hs). split; [| | |done].
    + cbn. rewrite <- list_fmap_compose. by apply list_fmap_ext; intros ? [].
    + intros l (self & addr & Hin & ->)%elem_spawn. split; [by apply Hs|done|by split].
    + intros l (self & addr & _ & ->)%elem_spawn. done.
  - exists servers. split; [done|]. by apply set_event_keeps.
Qed.

Lemma supervising_ok config pending s :
  ServerConfig.ok config → supervising config pending s →
  pending ≠ [] ∧ ∃ addrs, length addrs = length pending ∧ set_ok config addrs s.
Proof.
  intros Hcfg (servers & (Hne & Hlen & _)%bind_set_ok & Hk)%supervising_servers; [|done].
  split; [done|]. exists servers.*2. by rewrite length_fmap.
Qed.

(** ** Draining *)
Lemma returned_final events s r : returned s = Some r → set_events events s = s.
Proof.
  intros Hr. induction events as [|e events IH]; [done|]. cbn. unfold set_event at 2. by rewrite Hr.
Qed.

(** A listener that is told to stop and joined. *)
Lemma drain_one i l s :
  returned s = None → shutting_down s = true → listeners s !! i = Some l →
  ∃ s', set_events [ListenerTurn i Shutdown; Joined i] s = s' ∧ returned s' = None ∧ shutting_down s' = true ∧
    ∃ l', listeners s' = <[i := l']> (listeners s) ∧ Listener.joined l' = true.
Proof.
  intros Hr Hsd Hi. assert (i < length (listeners s))%nat as Hlt by by eapply lookup_lt_Some. cbn.
  unfold set_event at 2. rewrite Hr, Hi, Hsd. unfold set_event. cbn. rewrite list_lookup_insert_eq by done. cbn.
  destruct (shutdown_returns (Listener.run l)) as [r ->]. eexists; split; [reflexivity|].
  destruct (Listener.joined l) eqn:Hj; cbn.
  - do 2 (split; [done|]). eexists; split; [reflexivity|done].
  - unfold join_listener. cbn. destruct (listener_failure _ _ _); cbn;
      (do 2 (split; [done|]); rewrite list_insert_insert_eq; eexists; split; [reflexivity|done]).
Qed.

Lemma failure_kept events s error :
  failure s = Some error → failure (set_events events s) = Some error.
Proof.
  revert s. induction events as [|e events IH]; intros s Hf; [done|]. cbn. apply IH. unfold set_event, join_listener.
  repeat case_match; cbn; congruence.
Qed.

Lemma drain_prefix k s :
  (k ≤ length (listeners s))%nat → returned s = None → shutting_down s = true →
  ∃ s', set_events (seq 0 k ≫= λ i, [ListenerTurn i Shutdown; Joined i]) s = s' ∧ returned s' = None ∧
    shutting_down s' = true ∧ length (listeners s') = length (listeners s) ∧
    ∀ i l, (i < k)%nat → listeners s' !! i = Some l → Listener.joined l = true.
Proof.
  intros Hk Hr Hsd. induction k as [|k IH]; [exists s; cbn; split; [done|]; do 3 (split; [done|]); lia|].
  destruct IH as (s1 & Hs1 & Hr1 & Hsd1 & Hlen & Hj); [lia|].
  destruct (lookup_lt_is_Some_2 (listeners s1) k) as [l Hl]; [lia|].
  destruct (drain_one k l s1 Hr1 Hsd1 Hl) as (s2 & Hs2 & Hr2 & Hsd2 & l' & Hls & Hjl).
  exists s2. rewrite seq_S, bind_app. cbn [mbind list_bind Nat.add app]. unfold set_events in *.
  rewrite fold_left_app, Hs1. split; [exact Hs2|]. do 2 (split; [done|]). split; [by rewrite Hls, length_insert|].
  intros i x Hi. rewrite Hls. destruct (decide (i = k)) as [->|Hne].
  - rewrite list_lookup_insert_eq by lia. by intros [= <-].
  - rewrite list_lookup_insert_ne by done. apply Hj. lia.
Qed.
End theory.

(** ** Properties *)
Section properties.
Context `{Target} `{!HmacMd5} `{!Host}.

(** C12: A set never goes on with fewer listeners than it was asked for: while it is
    not shutting down, every one of them still serves and none has been joined. It
    returns when all have been joined: with [Ok] only when each stopped cleanly after
    being asked to, and otherwise with the failure of one of them. The listeners
    never stop by themselves, and each is a listener run, so that what holds of one
    listener holds of each. *)
Theorem set_supervised (config : ServerConfig.t) pending s :
  ServerConfig.ok config → supervising config pending s →
  length (listeners s) = length pending ∧
  (∀ l, l ∈ listeners s → serving config (Listener.addr l) (Listener.run l)) ∧
  (shutting_down s = false → failure s = None ∧ returned s = None ∧
    ∀ l, l ∈ listeners s → Listener.joined l = false ∧ ∀ u, Run.phase (Listener.run l) ≠ Returned (Ok u)) ∧
  match returned s with
  | None => True
  | Some (Ok _) => ∀ l, l ∈ listeners s → Run.phase (Listener.run l) = Returned (Ok tt)
  | Some (Err error) =>
      (∀ l, l ∈ listeners s → ∃ r, Run.phase (Listener.run l) = Returned r) ∧
      ∃ l, l ∈ listeners s ∧ failed_with error l
  | Some Panic => False
  end.
Proof.
  intros Hc Hs. destruct (supervising_ok _ _ _ Hc Hs) as (Hne & addrs & Hlen & [Ha Hl Hr Hret]).
  assert (length (listeners s) = length pending) as Hlen' by by rewrite <-Hlen, <-Ha, length_fmap.
  split; [done|]. split; [intros l Hin; apply (Hl l Hin)|]. split.
  - intros Hsd. rewrite Hsd in Hr, Hl. destruct (failure s); [by destruct Hr|]. split; [done|]. split.
    + destruct (returned s) as [r|]; [|done]. destruct (Hret r eq_refl) as [Hall _].
      destruct (listeners s) as [|l ls] eqn:Hls; [by destruct pending|].
      destruct (lo_running _ _ _ (Hl l ltac:(left)) eq_refl) as [Hj _]. by rewrite Hall in Hj by left.
    + intros l Hin. by apply (lo_running _ _ _ (Hl l Hin)).
  - destruct (returned s) as [r|]; [|done]. destruct (Hret r eq_refl) as [Hall ->].
    destruct (failure s) as [error|]; cbn in Hr.
    + destruct Hr as (_ & l & Hin & _ & Hf). split; [|by exists l].
      intros k Hk. by apply (lo_joined _ _ _ (Hl k Hk)), Hall.
    + intros l Hin. by apply Hr, Hall.
Qed.

(** A set that is shutting down ends: telling each listener to stop and joining it,
    in any state the listeners are in, leaves the set returned; and a failure that
    has been recorded is the one it returns, whatever happens afterwards. *)
Theorem set_drains (s : SetState.t) :
  shutting_down s = true → returned s = None →
  ∃ r, returned (set_events (drain_events (length (listeners s))) s) = Some r ∧
    ∀ error, failure s = Some error → r = Err error.
Proof.
  intros Hsd Hr. destruct (drain_prefix (length (listeners s)) s) as (s' & Hs' & Hr' & Hsd' & Hlen & Hj); [done..|].
  pose proof (failure_kept (seq 0 (length (listeners s)) ≫= λ i, [ListenerTurn i Shutdown; Joined i]) s) as Hf.
  rewrite Hs' in Hf. unfold set_events, drain_events in *. rewrite fold_left_app, Hs'. cbn. unfold set_event. rewrite Hr'.
  replace (forallb Listener.joined (listeners s')) with true.
  - eexists. split; [reflexivity|]. intros error He. by rewrite (Hf _ He).
  - symmetry. apply forallb_forall. intros l [i Hi]%list_elem_of_In%list_elem_of_lookup_1.
    apply (Hj i); [|done]. rewrite <-Hlen. by eapply lookup_lt_Some.
Qed.
End properties.

(** ** A concrete run *)
Section example.
#[local] Existing Instances target64 toy_hmac example_host.

(** The usual pair on one port; the first listener fails, and the set with it. *)
Definition any_v4 : SocketAddr := V4 0 2112.
Definition any_v6 : SocketAddr := V6 0 2112 0 0.
Definition willing (addr : SocketAddr) : SocketAddr * SetupAnswers.t :=
  (addr, SetupAnswers.mk (λ _, None) (inr addr) None).
Definition pair_requested : list (SocketAddr * SetupAnswers.t) := [willing any_v4; willing any_v6].
Definition pair_servers : list (Server.t * SocketAddr) :=
  match bind_set example_config pair_requested with Ok servers => servers | _ => [] end.
Definition failing : SetState.t :=
  set_events [ListenerTurn 0 (ReceiveTurn (Recvmsg (inl (OtherIo "gone"))) None); ListenerTurn 1 MaintenanceTick; Joined 0]
    (spawn pair_servers).
Definition failed : SetState.t := set_events (drain_events 2) failing.

Lemma events_supervising config pending events s :
  supervising config pending s → Forall set_event_ok events → supervising config pending (set_events events s).
Proof.
  revert s. induction events as [|e events IH]; intros s Hs Ho; [done|]. inversion_clear Ho. cbn. apply IH; [|done].
  by constructor.
Qed.

Lemma failed_supervising : supervising example_config pair_requested failed.
Proof.
  apply events_supervising; [apply events_supervising|]; [|repeat constructor..].
  apply supervising_start. reflexivity.
Qed.

Lemma set_supervised_witness :
  returned failed = Some (Err (ListenerRun any_v4 (ReceiveFailed "gone"))) ∧
  ∀ l, l ∈ listeners failed → ∃ r, Run.phase (Listener.run l) = Returned r.
Proof.
  assert (returned failed = Some (Err (ListenerRun any_v4 (ReceiveFailed "gone")))) as Hr by (vm_compute; reflexivity).
  split; [exact Hr|].
  destruct (set_supervised example_config pair_requested failed example_config_ok failed_supervising) as (_ & _ & _ & Hs).
  rewrite Hr in Hs. apply Hs.
Defined.

Lemma set_drains_witness :
  ∃ r, returned (set_events (drain_events 2) failing) = Some r ∧
    ∀ error, failure failing = Some error → r = Err error.
Proof. apply (set_drains failing); vm_compute; reflexivity. Defined.

(** The IPv6 half of a same-port pair is bound IPv6-only; a mapped address, an
    ephemeral port or a listener of its own is not. *)
Example ipv6_only_pairs :
  (λ '(addr, requested), needs_ipv6_only addr requested) <$>
    [(any_v6, [any_v4; any_v6]); (any_v4, [any_v4; any_v6]); (any_v6, [any_v6]);
     (V6 0 0 0 0, [V4 0 0; V6 0 0 0 0]); (V6 (to_ipv6_mapped 0) 2112 0 0, [any_v4]);
     (any_v6, [V6 (to_ipv6_mapped 0) 2112 0 0])]
  = [true; false; false; false; false; true].
Proof. vm_compute. reflexivity. Qed.
End example.
