(* ===== verification/ClientBase.v ===== *)
(** * irtt-client: timestamps, configuration, errors and events

    Models the data of [crates/irtt-client/src/timing.rs], [metadata.rs],
    [auth.rs], [config.rs], [error.rs] and [event.rs] with their operations. A
    [Duration] is its nanoseconds; an [Instant] is nanoseconds on the monotonic
    clock and a [SystemTime] nanoseconds from the epoch, possibly before it. *)

From S2P Require Import Prelude ProtoBase ParamsCodec.

(** ** Durations and clocks *)

(** [Instant::checked_add] fails past the last instant of the platform. *)
Class Clocks := { INSTANT_MAX : Z }.
Definition instant_checked_add `{Clocks} (t d : Z) : option Z :=
  if t + d <=? INSTANT_MAX then Some (t + d) else None.

(** [SystemTime::duration_since] and [Instant::checked_duration_since]. *)
Definition duration_since (t earlier : Z) : option Z :=
  if earlier <=? t then Some (t - earlier) else None.

(** [Duration::MAX] in nanoseconds. *)
Definition DURATION_MAX : Z := U64_MAX * 1_000_000_000 + 999_999_999.
Definition duration_ok (d : Z) : Prop := 0 ≤ d ≤ DURATION_MAX.

Definition from_secs (s : Z) : Z := s * 1_000_000_000.
Definition from_millis (ms : Z) : Z := ms * 1_000_000.

(** ** timing.rs *)
Module ClientTimestamp.
Record t : Type := mk { wall : Z; mono : Z }.
End ClientTimestamp.

(** ** event.rs: data *)
Module SignedDuration.
Record t : Type := mk { ns : Z }.
Definition from_nanos (ns : Z) : t := mk ns.
Definition from_duration (duration : Z) : t :=
  mk (match try_i128 duration with Some ns => ns | None => I128_MAX end).
Definition as_nanos (self : t) : Z := ns self.
Definition as_micros (self : t) : Z := Z.quot (ns self) 1_000.
Definition as_millis (self : t) : Z := Z.quot (ns self) 1_000_000.
Definition is_negative (self : t) : bool := ns self <? 0.
End SignedDuration.

Module RttSample.
Record t : Type := mk {
  raw : Z;
  adjusted : option SignedDuration.t;
  effective : SignedDuration.t;
}.
End RttSample.

Module ServerTiming.
Record t : Type := mk {
  receive_wall_ns : option Z;
  receive_mono_ns : option Z;
  send_wall_ns : option Z;
  send_mono_ns : option Z;
  midpoint_wall_ns : option Z;
  midpoint_mono_ns : option Z;
  processing : option Z;
}.
End ServerTiming.

Module OneWayDelaySample.
Record t : Type := mk {
  client_to_server : option SignedDuration.t;
  server_to_client : option SignedDuration.t;
}.
End OneWayDelaySample.

Module ReceivedStatsSample.
Record t : Type := mk { count : option Z; window : option Z }.
End ReceivedStatsSample.

Module PacketMeta.
Record t : Type := mk {
  traffic_class : option Z;
  dscp : option Z;
  ecn : option Z;
  kernel_rx_timestamp : option Z;
}.
End PacketMeta.

(** ** metadata.rs *)
Definition MAX_KERNEL_RX_LAG : Z := from_secs 1.

Module ReceiveMeta.
Record t : Type := mk {
  traffic_class : option Z;
  kernel_rx_timestamp : option Z;
}.

Definition preferred_receive_wall (self : t) (userspace_wall : Z) : Z :=
  match kernel_rx_timestamp self with
  | None => userspace_wall
  | Some kernel_wall =>
      match duration_since userspace_wall kernel_wall with
      | Some lag => if lag <=? MAX_KERNEL_RX_LAG then kernel_wall else userspace_wall
      | None => userspace_wall
      end
  end.

(** [impl From<ReceiveMeta> for PacketMeta]. *)
Definition to_packet_meta (meta : t) : PacketMeta.t :=
  PacketMeta.mk (traffic_class meta) ((λ tc, Z.shiftr tc 2) <$> traffic_class meta)
    ((λ tc, Z.land tc 3) <$> traffic_class meta) (kernel_rx_timestamp meta).
End ReceiveMeta.

(** ** auth.rs *)
Inductive Authentication : Type := Unauthenticated | HmacAuth (key : bytes).

Definition hmac_key (self : Authentication) : option bytes :=
  match self with Unauthenticated => None | HmacAuth key => Some key end.

(** ** config.rs *)
Definition DEFAULT_PORT : Z := 2112.
Definition MAX_DSCP_CODEPOINT : Z := 63.
Definition MAX_TTL : Z := 255.
Definition MAX_UDP_PAYLOAD_LENGTH : Z := 65_507.
Definition DEFAULT_DURATION : Z := from_secs 3.
Definition DEFAULT_INTERVAL : Z := from_secs 1.
Definition DEFAULT_OPEN_TIMEOUTS : list Z := [from_secs 1; from_secs 2; from_secs 4; from_secs 8].
Definition MIN_OPEN_TIMEOUT : Z := from_millis 200.
Definition DEFAULT_PROBE_TIMEOUT : Z := from_secs 4.
Definition DEFAULT_MAX_PENDING : Z := 4096.

Inductive AddressFamily : Type := AnyFamily | Ipv4 | Ipv6.
Inductive NegotiationPolicy : Type := Strict | Loose.
Inductive RunMode : Type := NormalMode | NoTest.

Module SessionRequest.
Record t : Type := mk {
  duration : option Z;
  interval : Z;
  length : Z;
  received_stats : ReceivedStats.t;
  stamp_at : StampAt.t;
  clock : Clock.t;
  dscp : Z;
  server_fill : option bytes;
  run_mode : RunMode;
}.
Definition default : t :=
  mk (Some DEFAULT_DURATION) DEFAULT_INTERVAL 0 ReceivedStats.Both StampAt.Both Clock.Both 0 None
    NormalMode.
End SessionRequest.

(** [SocketConfig], with the fields of a Linux target. *)
Module SocketConfig.
Record t : Type := mk {
  bind_addr : option SocketAddr;
  bind_to_device : option bytes;
  mark : option Z;
  ttl : option Z;
}.
Definition default : t := mk None None None None.
End SocketConfig.

(** ** error.rs

    The payload of an operating-system error is its text. *)
Module ClientError.
Inductive t : Type :=
  | NoTokioRuntime
  | Resolve (addr : bytes)
  | Socket (source : string)
  | SocketOption (operation : string) (remote : SocketAddr) (source : string)
  | ReadTimeoutRestore (source : string)
  | Protocol (source : ProtoError)
  | OpenTimeout
  | OpenTimeoutTooSmall (timeout minimum : Z)
  | NoOpenTimeouts
  | ServerRejected
  | UnexpectedNoTestReply
  | NonZeroNoTestToken (token : Z)
  | ProtocolVersionMismatch (requested received : Z)
  | ZeroToken
  | NegotiationRejected (reason : string)
  | NotOpen
  | AlreadyOpen
  | AlreadyCompleted
  | AlreadyClosed
  | DurationOverflow
  | CounterOverflow (counter : string)
  | PendingLimitExceeded (limit : Z)
  | PendingSequenceCollision (seq : Z)
  | StalePreparedProbe (prepared_seq next_wire_seq : Z)
  | AllocationFailed (operation : string)
  | DatagramLengthMismatch (expected actual : Z)
  | InvalidConfig (reason : string).
End ClientError.
Abbreviation CResult := (Result ClientError.t).

Module OpenPolicy.
Record t : Type := mk { timeouts : list Z; negotiation : NegotiationPolicy }.

Fixpoint validate_timeouts (timeouts : list Z) : CResult unit :=
  match timeouts with
  | [] => Ok tt
  | timeout :: rest =>
      if timeout <? MIN_OPEN_TIMEOUT
      then Err (ClientError.OpenTimeoutTooSmall timeout MIN_OPEN_TIMEOUT)
      else validate_timeouts rest
  end.

Definition validate (self : t) : CResult unit :=
  match timeouts self with
  | [] => Err ClientError.NoOpenTimeouts
  | _ :: _ => validate_timeouts (timeouts self)
  end.

Definition default : t := mk DEFAULT_OPEN_TIMEOUTS Strict.
End OpenPolicy.

Module ClientConfig.
Record t : Type := mk {
  address_family : AddressFamily;
  socket : SocketConfig.t;
  request : SessionRequest.t;
  open : OpenPolicy.t;
  auth : Authentication;
  probe_timeout : Z;
  max_pending_probes : Z;
}.
Definition default : t :=
  mk AnyFamily SocketConfig.default SessionRequest.default OpenPolicy.default Unauthenticated
    DEFAULT_PROBE_TIMEOUT DEFAULT_MAX_PENDING.
End ClientConfig.

(** [socket_options.rs]: the one place the codepoint is shifted. *)
Definition dscp_codepoint_to_traffic_class (dscp : Z) : CResult Z :=
  if MAX_DSCP_CODEPOINT <? dscp
  then Err (ClientError.InvalidConfig ("dscp must be <= " +:+ pretty MAX_DSCP_CODEPOINT))
  else Ok (Z.shiftl dscp 2).

(** ** Lemmas *)

Lemma duration_since_Some t e d : duration_since t e = Some d ↔ e ≤ t ∧ d = t - e.
Proof. unfold duration_since. destruct (Z.leb_spec e t); naive_solver lia. Qed.

Lemma validate_timeouts_ok l :
  OpenPolicy.validate_timeouts l = Ok tt ↔ Forall (λ d, MIN_OPEN_TIMEOUT ≤ d) l.
Proof.
  induction l as [|d l IH]; simpl; [done|].
  rewrite Forall_cons. destruct (Z.ltb_spec d MIN_OPEN_TIMEOUT); [naive_solver lia|].
  rewrite IH. naive_solver lia.
Qed.

Lemma signed_from_duration d : duration_ok d → SignedDuration.from_duration d = SignedDuration.mk d.
Proof.
  unfold duration_ok, SignedDuration.from_duration, try_i128. intros Hd.
  rewrite decide_True; [done|]. unfold in_i, DURATION_MAX, U64_MAX in *. lia.
Qed.
