(* ===== verification/ClientNegotiation.v ===== *)
(** * irtt-client: accepting the server's parameters

    Models [crates/irtt-client/src/session/negotiation.rs]: what a client makes
    of the parameters a server returned, under the strict and loose policies. *)

From S2P Require Import Prelude ProtoBase ParamsCodec ClientBase.

(** [struct AcceptedSessionParameters]. *)
Module AcceptedSessionParameters.
Record t : Type := mk {
  duration : option Z;
  interval : Z;
  length : Z;
  received_stats : ReceivedStats.t;
  stamp_at : StampAt.t;
  clock : Clock.t;
  dscp : Z;
  server_fill : option bytes;
}.
End AcceptedSessionParameters.

(** [enum NegotiationChange] with its [Display]. *)
Module NegotiationChange.
Inductive t : Type :=
  | DurationReduced (requested : option Z) (negotiated : Z)
  | IntervalIncreased (requested negotiated : Z)
  | IntervalReduced (requested negotiated : Z)
  | LengthReduced (requested negotiated : Z)
  | ReceivedStatsChanged (requested negotiated : ReceivedStats.t)
  | StampAtChanged (requested negotiated : StampAt.t)
  | ClockChanged (requested negotiated : Clock.t)
  | DscpChanged (requested negotiated : Z)
  | ServerFillChanged (requested negotiated : option bytes).

(** The derived [Debug] of the enumerations that the messages print. *)
Definition debug_stats (s : ReceivedStats.t) : string :=
  match s with
  | ReceivedStats.None => "None" | ReceivedStats.Count => "Count"
  | ReceivedStats.Window => "Window" | ReceivedStats.Both => "Both"
  end.
Definition debug_stamp (s : StampAt.t) : string :=
  match s with
  | StampAt.None => "None" | StampAt.Send => "Send" | StampAt.Receive => "Receive"
  | StampAt.Both => "Both" | StampAt.Midpoint => "Midpoint"
  end.
Definition debug_clock (c : Clock.t) : string :=
  match c with
  | Clock.Unspecified => "Unspecified" | Clock.Wall => "Wall"
  | Clock.Monotonic => "Monotonic" | Clock.Both => "Both"
  end.

Definition message (self : t) : string :=
  match self with
  | DurationReduced None negotiated =>
      "server limited continuous duration to " +:+ pretty negotiated +:+ " ns"
  | DurationReduced (Some requested) negotiated =>
      "server reduced duration from " +:+ pretty requested +:+ " ns to " +:+
      pretty negotiated +:+ " ns"
  | IntervalIncreased requested negotiated =>
      "server increased interval from " +:+ pretty requested +:+ " ns to " +:+
      pretty negotiated +:+ " ns"
  | IntervalReduced requested negotiated =>
      "server reduced interval from " +:+ pretty requested +:+ " ns to " +:+
      pretty negotiated +:+ " ns"
  | LengthReduced requested negotiated =>
      "server reduced packet length from " +:+ pretty requested +:+ " bytes to " +:+
      pretty negotiated +:+ " bytes"
  | ReceivedStatsChanged requested negotiated =>
      "server changed received-stats from " +:+ debug_stats requested +:+ " to " +:+
      debug_stats negotiated
  | StampAtChanged requested negotiated =>
      "server changed stamp-at from " +:+ debug_stamp requested +:+ " to " +:+
      debug_stamp negotiated
  | ClockChanged requested negotiated =>
      "server changed clock from " +:+ debug_clock requested +:+ " to " +:+
      debug_clock negotiated
  | DscpChanged requested negotiated =>
      "server changed DSCP from " +:+ pretty requested +:+ " to " +:+ pretty negotiated
  | ServerFillChanged _ _ => "server changed payload fill behavior"
  end.
End NegotiationChange.

(** [struct NegotiationResult]. *)
Module NegotiationResult.
Record t : Type := mk {
  accepted : AcceptedSessionParameters.t;
  peer_params : Params.t;
  changes : list NegotiationChange.t;
}.
End NegotiationResult.

(** [Duration::from_nanos(u64::try_from(nanos).expect(..))]. *)
Definition positive_duration (nanos : Z) : CResult Z := expect (try_u64 nanos).

Definition finite_duration (nanos : Z) : CResult (option Z) :=
  if bool_decide (nanos ≠ 0) then Some <$> positive_duration nanos else Ok None.

Definition rejected {A} (reason : string) : CResult A :=
  Err (ClientError.NegotiationRejected reason).

Definition validate_duration_restriction (requested returned : Z) : CResult unit :=
  if returned <? 0 then rejected "duration must be non-negative"
  else if (0 <? requested) && (returned =? 0)
  then rejected "server returned continuous duration for finite request"
  else if (0 <? requested) && (requested <? returned) then rejected "duration increased"
  else Ok tt.

Definition validate_dscp_restriction (returned : Z) : CResult unit :=
  if negb ((0 <=? returned) && (returned <=? 255))
  then rejected "dscp must be in range 0..=255" else Ok tt.

Definition record_change (policy : NegotiationPolicy) (changes : list NegotiationChange.t)
    (change : NegotiationChange.t) : CResult (list NegotiationChange.t) :=
  match policy with
  | Strict => rejected (NegotiationChange.message change)
  | Loose => Ok (changes ++ [change])
  end.

Definition fill_value (fill : option ServerFill) : option bytes := value <$> fill.

Definition negotiate_params (requested returned : Params.t) (policy : NegotiationPolicy)
    : CResult NegotiationResult.t :=
  if bool_decide (Params.protocol_version returned ≠ PROTOCOL_VERSION)
  then Err (ClientError.ProtocolVersionMismatch PROTOCOL_VERSION (Params.protocol_version returned))
  else
    _ ← validate_duration_restriction (Params.duration_ns requested) (Params.duration_ns returned);
    if Params.length returned <? 0 then rejected "length must be non-negative"
    else if Params.length requested <? Params.length returned then rejected "length increased"
    else if Params.interval_ns returned <=? 0 then rejected "interval must be positive"
    else
    _ ← validate_dscp_restriction (Params.dscp returned);
    changes ←
      (if (Params.duration_ns returned <? Params.duration_ns requested) ||
          (Params.duration_ns requested =? 0) && (0 <? Params.duration_ns returned)
       then
         from ← finite_duration (Params.duration_ns requested);
         to ← positive_duration (Params.duration_ns returned);
         record_change policy [] (NegotiationChange.DurationReduced from to)
       else Ok []);
    changes ←
      (if Params.interval_ns requested <? Params.interval_ns returned
       then
         from ← positive_duration (Params.interval_ns requested);
         to ← positive_duration (Params.interval_ns returned);
         record_change policy changes (NegotiationChange.IntervalIncreased from to)
       else Ok changes);
    changes ←
      (if Params.interval_ns returned <? Params.interval_ns requested
       then
         from ← positive_duration (Params.interval_ns requested);
         to ← positive_duration (Params.interval_ns returned);
         record_change policy changes (NegotiationChange.IntervalReduced from to)
       else Ok changes);
    changes ←
      (if Params.length returned <? Params.length requested
       then
         from ← expect (try_u32 (Params.length requested));
         to ← expect (try_u32 (Params.length returned));
         record_change policy changes (NegotiationChange.LengthReduced from to)
       else Ok changes);
    changes ←
      (if bool_decide (Params.received_stats returned ≠ Params.received_stats requested)
       then record_change policy changes (NegotiationChange.ReceivedStatsChanged
              (Params.received_stats requested) (Params.received_stats returned))
       else Ok changes);
    changes ←
      (if bool_decide (Params.stamp_at returned ≠ Params.stamp_at requested)
       then record_change policy changes (NegotiationChange.StampAtChanged
              (Params.stamp_at requested) (Params.stamp_at returned))
       else Ok changes);
    changes ←
      (if bool_decide (Params.clock returned ≠ Params.clock requested)
       then record_change policy changes (NegotiationChange.ClockChanged
              (Params.clock requested) (Params.clock returned))
       else Ok changes);
    if bool_decide (Params.dscp returned ≠ Params.dscp requested) &&
       bool_decide (Params.dscp returned ≠ 0)
    then rejected "server returned unsupported DSCP change"
    else
    changes ←
      (if bool_decide (Params.dscp returned = 0) && bool_decide (Params.dscp requested ≠ 0)
       then
         from ← expect (try_u8 (Z.shiftr (Params.dscp requested) 2));
         to ← expect (try_u8 (Z.shiftr (Params.dscp returned) 2));
         record_change policy changes (NegotiationChange.DscpChanged from to)
       else Ok changes);
    changes ←
      (if bool_decide (Params.server_fill returned ≠ Params.server_fill requested)
       then record_change policy changes (NegotiationChange.ServerFillChanged
              (fill_value (Params.server_fill requested)) (fill_value (Params.server_fill returned)))
       else Ok changes);
    duration ← finite_duration (Params.duration_ns returned);
    interval ← positive_duration (Params.interval_ns returned);
    length ← expect (try_u32 (Params.length returned));
    dscp ← expect (try_u8 (Z.shiftr (Params.dscp returned) 2));
    Ok (NegotiationResult.mk
          (AcceptedSessionParameters.mk duration interval length (Params.received_stats returned)
             (Params.stamp_at returned) (Params.clock returned) dscp
             (fill_value (Params.server_fill returned)))
          returned changes).

(** ** Specification *)

(** A request as [params_from_request] builds it. *)
Record requested_ok (p : Params.t) : Prop := {
  rq_version : Params.protocol_version p = PROTOCOL_VERSION;
  rq_duration : 0 ≤ Params.duration_ns p ≤ I64_MAX;
  rq_interval : 0 < Params.interval_ns p ≤ I64_MAX;
  rq_length : 0 ≤ Params.length p ≤ MAX_UDP_PAYLOAD_LENGTH;
  rq_dscp : 0 ≤ Params.dscp p ≤ 252;
}.

(** What a server may return: no field widened, nothing out of its domain. *)
Record acceptable (requested returned : Params.t) : Prop := {
  ac_version : Params.protocol_version returned = PROTOCOL_VERSION;
  ac_duration : 0 ≤ Params.duration_ns returned;
  ac_finite : 0 < Params.duration_ns requested →
    0 < Params.duration_ns returned ≤ Params.duration_ns requested;
  ac_length : 0 ≤ Params.length returned ≤ Params.length requested;
  ac_interval : 0 < Params.interval_ns returned;
  ac_dscp : Params.dscp returned = Params.dscp requested ∨ Params.dscp returned = 0;
}.

Definition duration_of (nanos : Z) : option Z := if nanos =? 0 then None else Some nanos.

(** The values the session then runs with. *)
Definition semantics (p : Params.t) : AcceptedSessionParameters.t :=
  AcceptedSessionParameters.mk (duration_of (Params.duration_ns p)) (Params.interval_ns p)
    (Params.length p) (Params.received_stats p) (Params.stamp_at p) (Params.clock p)
    (Params.dscp p / 4) (fill_value (Params.server_fill p)).

Definition changed {A} `{EqDecision A} (from to : A) (change : NegotiationChange.t)
    : list NegotiationChange.t := if decide (from = to) then [] else [change].

(** One entry per field that differs, in the order of the wire fields. *)
Definition differences (requested returned : Params.t) : list NegotiationChange.t :=
  changed (Params.duration_ns requested) (Params.duration_ns returned)
    (NegotiationChange.DurationReduced (duration_of (Params.duration_ns requested))
       (Params.duration_ns returned)) ++
  changed (Params.interval_ns requested) (Params.interval_ns returned)
    ((if Params.interval_ns requested <? Params.interval_ns returned
      then NegotiationChange.IntervalIncreased else NegotiationChange.IntervalReduced)
       (Params.interval_ns requested) (Params.interval_ns returned)) ++
  changed (Params.length requested) (Params.length returned)
    (NegotiationChange.LengthReduced (Params.length requested) (Params.length returned)) ++
  changed (Params.received_stats requested) (Params.received_stats returned)
    (NegotiationChange.ReceivedStatsChanged (Params.received_stats requested)
       (Params.received_stats returned)) ++
  changed (Params.stamp_at requested) (Params.stamp_at returned)
    (NegotiationChange.StampAtChanged (Params.stamp_at requested) (Params.stamp_at returned)) ++
  changed (Params.clock requested) (Params.clock returned)
    (NegotiationChange.ClockChanged (Params.clock requested) (Params.clock returned)) ++
  changed (Params.dscp requested) (Params.dscp returned)
    (NegotiationChange.DscpChanged (Params.dscp requested / 4) 0) ++
  changed (Params.server_fill requested) (Params.server_fill returned)
    (NegotiationChange.ServerFillChanged (fill_value (Params.server_fill requested))
       (fill_value (Params.server_fill returned))).

(** ** Lemmas *)

(** [record_change] for a difference that may be absent. *)
Definition record (policy : NegotiationPolicy) (changes diff : list NegotiationChange.t)
    : CResult (list NegotiationChange.t) :=
  match diff with [] => Ok changes | change :: _ => record_change policy changes change end.

Fixpoint record_all (policy : NegotiationPolicy) (changes : list NegotiationChange.t)
    (diffs : list (list NegotiationChange.t)) : CResult (list NegotiationChange.t) :=
  match diffs with
  | [] => Ok changes
  | diff :: rest => changes ← record policy changes diff; record_all policy changes rest
  end.

Lemma record_changed {A} `{EqDecision A} policy changes (from to : A) change (c : bool) :
  (c = true ↔ from ≠ to) →
  (if c then record_change policy changes change else Ok changes)
  = record policy changes (changed from to change).
Proof.
  intros Hc. unfold changed.
  destruct c; case_decide as Hd; simpl; try done.
  - destruct (proj1 Hc eq_refl Hd).
  - discriminate (proj2 Hc Hd).
Qed.

Lemma changed_le {A} `{EqDecision A} (from to : A) change : (length (changed from to change) ≤ 1)%nat.
Proof. unfold changed. case_decide; simpl; lia. Qed.

Lemma changed_nil {A} `{EqDecision A} (from to : A) change : changed from to change = [] ↔ from = to.
Proof. unfold changed. by case_decide. Qed.

Lemma record_all_loose changes diffs :
  Forall (λ d, length d ≤ 1)%nat diffs → record_all Loose changes diffs = Ok (changes ++ concat diffs).
Proof.
  intros Hd. revert changes. induction Hd as [|d ds Hd _ IH]; intros changes; simpl.
  - by rewrite app_nil_r.
  - destruct d as [|c [|]]; simpl in *; [apply IH| |lia]. rewrite IH. by rewrite <- app_assoc.
Qed.

Lemma record_all_strict changes diffs :
  match record_all Strict changes diffs with
  | Ok cs => cs = changes ∧ concat diffs = []
  | Err _ => concat diffs ≠ []
  | Panic => False
  end.
Proof.
  induction diffs as [|[|c d] ds IH]; simpl; [done| |done]. exact IH.
Qed.

Lemma positive_duration_ok z : 0 ≤ z ≤ I64_MAX → positive_duration z = Ok z.
Proof.
  intros Hz. unfold positive_duration, try_u64. rewrite decide_True; [done|].
  unfold in_u, I64_MAX in *. lia.
Qed.

Lemma finite_duration_ok z : 0 ≤ z ≤ I64_MAX → finite_duration z = Ok (duration_of z).
Proof.
  intros Hz. unfold finite_duration, duration_of. case_bool_decide as H0.
  - rewrite positive_duration_ok by done. by destruct (Z.eqb_spec z 0).
  - by rewrite H0.
Qed.

Lemma expect_u32_ok {E} z : 0 ≤ z ≤ U32_MAX → @expect E Z (try_u32 z) = Ok z.
Proof.
  intros Hz. unfold try_u32. rewrite decide_True; [done|]. unfold in_u, U32_MAX in *. lia.
Qed.

Lemma codepoint_ok {E} z : 0 ≤ z ≤ 255 → @expect E Z (try_u8 (Z.shiftr z 2)) = Ok (z / 4).
Proof.
  intros Hz. rewrite Z.shiftr_div_pow2 by lia. unfold try_u8. rewrite decide_True; [done|].
  unfold in_u. pose proof (Z.div_lt_upper_bound z (2 ^ 2) 256). pose proof (Z.div_pos z (2 ^ 2)). lia.
Qed.

(** The checks the code makes before it looks for changes. *)
Record domain_ok (requested returned : Params.t) : Prop := {
  dm_version : Params.protocol_version returned = PROTOCOL_VERSION;
  dm_duration : 0 ≤ Params.duration_ns returned;
  dm_finite : 0 < Params.duration_ns requested →
    0 < Params.duration_ns returned ≤ Params.duration_ns requested;
  dm_length : 0 ≤ Params.length returned ≤ Params.length requested;
  dm_interval : 0 < Params.interval_ns returned;
  dm_dscp : 0 ≤ Params.dscp returned ≤ 255;
}.

Definition first_differences (requested returned : Params.t) : list (list NegotiationChange.t) :=
  [changed (Params.duration_ns requested) (Params.duration_ns returned)
    (NegotiationChange.DurationReduced (duration_of (Params.duration_ns requested))
       (Params.duration_ns returned));
  changed (Params.interval_ns requested) (Params.interval_ns returned)
    ((if Params.interval_ns requested <? Params.interval_ns returned
      then NegotiationChange.IntervalIncreased else NegotiationChange.IntervalReduced)
       (Params.interval_ns requested) (Params.interval_ns returned));
  changed (Params.length requested) (Params.length returned)
    (NegotiationChange.LengthReduced (Params.length requested) (Params.length returned));
  changed (Params.received_stats requested) (Params.received_stats returned)
    (NegotiationChange.ReceivedStatsChanged (Params.received_stats requested)
       (Params.received_stats returned));
  changed (Params.stamp_at requested) (Params.stamp_at returned)
    (NegotiationChange.StampAtChanged (Params.stamp_at requested) (Params.stamp_at returned));
  changed (Params.clock requested) (Params.clock returned)
    (NegotiationChange.ClockChanged (Params.clock requested) (Params.clock returned))].

Definition last_differences (requested returned : Params.t) : list (list NegotiationChange.t) :=
  [changed (Params.dscp requested) (Params.dscp returned)
    (NegotiationChange.DscpChanged (Params.dscp requested / 4) 0);
  changed (Params.server_fill requested) (Params.server_fill returned)
    (NegotiationChange.ServerFillChanged (fill_value (Params.server_fill requested))
       (fill_value (Params.server_fill returned)))].

Lemma differences_split req ret :
  differences req ret = concat (first_differences req ret ++ last_differences req ret).
Proof. unfold differences. cbn [first_differences last_differences concat app]. by rewrite app_nil_r. Qed.

Lemma differences_le req ret :
  Forall (λ d, length d ≤ 1)%nat (first_differences req ret ++ last_differences req ret).
Proof. unfold first_differences, last_differences. cbn [app].
  repeat (apply Forall_cons; split; [apply changed_le|]). done.
Qed.

Lemma params_ext p q :
  Params.protocol_version p = Params.protocol_version q → differences p q = [] → p = q.
Proof.
  unfold differences. destruct p, q; simpl. intros ->.
  rewrite !app_nil, !changed_nil. naive_solver.
Qed.

Lemma differences_refl p : differences p p = [].
Proof. unfold differences, changed. by rewrite !decide_True. Qed.

Lemma bind_congr {E A B} (m m' : Result E A) (f f' : A → Result E B) :
  m = m' → (∀ a, f a = f' a) → m ≫= f = m' ≫= f'.
Proof. intros -> Hf. destruct m'; simpl; auto. Qed.

Lemma record_all_bind {B} policy changes diff diffs (f : _ → CResult B) :
  record_all policy changes (diff :: diffs) ≫= f
  = record policy changes diff ≫= λ changes', record_all policy changes' diffs ≫= f.
Proof. simpl. by destruct (record policy changes diff). Qed.

Lemma record_all_nil_bind {B} policy changes (f : _ → CResult B) :
  record_all policy changes [] ≫= f = f changes.
Proof. done. Qed.

Lemma record_intervals policy changes (from to : Z) {B} (f : _ → CResult B) :
  0 < from ≤ I64_MAX → 0 < to ≤ I64_MAX →
  (changes' ←
     (if from <? to
      then from ← positive_duration from; to ← positive_duration to;
        record_change policy changes (NegotiationChange.IntervalIncreased from to)
      else Ok changes);
   changes'' ←
     (if to <? from
      then from ← positive_duration from; to ← positive_duration to;
        record_change policy changes' (NegotiationChange.IntervalReduced from to)
      else Ok changes');
   f changes'')
  = record policy changes (changed from to
      ((if from <? to then NegotiationChange.IntervalIncreased
        else NegotiationChange.IntervalReduced) from to)) ≫= f.
Proof.
  intros Hf Ht. rewrite !positive_duration_ok by lia. cbn [mbind Result_bind]. unfold changed.
  destruct (Z.ltb_spec from to); [|destruct (Z.ltb_spec to from)]; case_decide; try lia; simpl;
    [|done..].
  rewrite (proj2 (Z.ltb_ge _ _)) by lia. by destruct (record_change _ _ _).
Qed.

(** Past the domain checks, the code records the differences in order, with
    the check on the traffic class between the sixth and the seventh. *)
Lemma negotiate_params_eq req ret policy :
  requested_ok req → params_ok ret → domain_ok req ret →
  negotiate_params req ret policy =
  (changes ← record_all policy [] (first_differences req ret);
   if bool_decide (Params.dscp ret ≠ Params.dscp req) && bool_decide (Params.dscp ret ≠ 0)
   then rejected "server returned unsupported DSCP change"
   else
     changes ← record_all policy changes (last_differences req ret);
     Ok (NegotiationResult.mk (semantics ret) ret changes)).
Proof.
  intros [Qv Qd Qi Ql Qs] [_ Pd Pi Pl Ps _] [Dv Dd Df Dl Di Ds]. unfold in_i in *.
  unfold negotiate_params.
  rewrite bool_decide_false by naive_solver.
  assert (validate_duration_restriction (Params.duration_ns req) (Params.duration_ns ret) = Ok tt)
    as ->.
  { unfold validate_duration_restriction. rewrite (proj2 (Z.ltb_ge _ _)) by lia.
    destruct (Z.ltb_spec 0 (Params.duration_ns req)) as [H0|H0]; simpl; [|done].
    specialize (Df H0). rewrite (proj2 (Z.eqb_neq _ _)), (proj2 (Z.ltb_ge _ _)) by lia. done. }
  cbn [mbind Result_bind].
  rewrite !(proj2 (Z.ltb_ge _ _)) by lia. rewrite (proj2 (Z.leb_gt _ _)) by lia.
  assert (validate_dscp_restriction (Params.dscp ret) = Ok tt) as ->.
  { unfold validate_dscp_restriction. by rewrite !(proj2 (Z.leb_le _ _)) by lia. }
  cbn [mbind Result_bind]. rewrite (finite_duration_ok (Params.duration_ns req)) by lia.
  rewrite (positive_duration_ok (Params.duration_ns ret)) by (unfold I64_MAX in *; lia).
  cbn [mbind Result_bind]. unfold first_differences, last_differences.
  rewrite record_all_bind. apply bind_congr.
  { apply record_changed. rewrite orb_true_iff, andb_true_iff, !Z.ltb_lt, Z.eqb_eq. lia. }
  intros changes1. rewrite record_intervals, record_all_bind by (unfold I64_MAX in *; lia).
  apply bind_congr; [done|]. intros changes2. rewrite record_all_bind.
  unfold MAX_UDP_PAYLOAD_LENGTH in *. rewrite !expect_u32_ok by (unfold U32_MAX; lia).
  cbn [mbind Result_bind]. apply bind_congr.
  { apply record_changed. rewrite Z.ltb_lt. lia. }
  intros changes3. rewrite record_all_bind. apply bind_congr.
  { apply record_changed. rewrite bool_decide_eq_true. naive_solver. }
  intros changes4. rewrite record_all_bind. apply bind_congr.
  { apply record_changed. rewrite bool_decide_eq_true. naive_solver. }
  intros changes5. rewrite record_all_bind. apply bind_congr.
  { apply record_changed. rewrite bool_decide_eq_true. naive_solver. }
  intros changes6. rewrite record_all_nil_bind.
  destruct (bool_decide (Params.dscp ret ≠ Params.dscp req) && _) eqn:Hdscp; [done|].
  rewrite andb_false_iff, !bool_decide_eq_false in Hdscp.
  rewrite !codepoint_ok by lia. cbn [mbind Result_bind].
  rewrite record_all_bind. apply bind_congr.
  { rewrite <- (record_changed _ _ _ _ _
      (bool_decide (Params.dscp ret = 0) && bool_decide (Params.dscp req ≠ 0))).
    - case_bool_decide as H0; [by rewrite H0|done].
    - rewrite andb_true_iff, !bool_decide_eq_true. lia. }
  intros changes7. rewrite record_all_bind. apply bind_congr.
  { apply record_changed. rewrite bool_decide_eq_true. naive_solver. }
  intros changes8. rewrite record_all_nil_bind.
  rewrite finite_duration_ok, positive_duration_ok by (unfold I64_MAX in *; lia).
  done.
Qed.

Local Ltac fails := right; split; [intros []; lia || done|by eexists].

(** The checks come first: an answer that fails one is an error. *)
Lemma negotiate_domain req ret policy :
  domain_ok req ret ∨ ¬ domain_ok req ret ∧ ∃ e, negotiate_params req ret policy = Err e.
Proof.
  unfold negotiate_params, validate_duration_restriction, validate_dscp_restriction, rejected.
  case_bool_decide as Hv; [fails|].
  destruct (Z.ltb_spec (Params.duration_ns ret) 0); [fails|].
  destruct (Z.ltb_spec 0 (Params.duration_ns req)); cbn [andb].
  1: destruct (Z.eqb_spec (Params.duration_ns ret) 0); [fails|].
  1: destruct (Z.ltb_spec (Params.duration_ns req) (Params.duration_ns ret)); [fails|].
  all: cbn [mbind Result_bind].
  all: destruct (Z.ltb_spec (Params.length ret) 0); [fails|].
  all: destruct (Z.ltb_spec (Params.length req) (Params.length ret)); [fails|].
  all: destruct (Z.leb_spec (Params.interval_ns ret) 0); [fails|].
  all: destruct (Z.leb_spec 0 (Params.dscp ret)); [|fails].
  all: destruct (Z.leb_spec (Params.dscp ret) 255); [|fails].
  all: left; split; lia.
Qed.

Lemma acceptable_domain req ret :
  requested_ok req →
  acceptable req ret ↔
  domain_ok req ret ∧ (Params.dscp ret = Params.dscp req ∨ Params.dscp ret = 0).
Proof.
  intros [_ _ _ _ Hs]. split.
  - intros [? ? ? ? ? Hd]. split; [split; lia|done].
  - intros [[] ?]. by split.
Qed.

(** The outcome in terms of the specification. *)
Lemma negotiate_outcome req ret policy :
  requested_ok req → params_ok ret →
  match negotiate_params req ret policy with
  | Ok r =>
      acceptable req ret ∧ NegotiationResult.accepted r = semantics ret ∧
      NegotiationResult.peer_params r = ret ∧
      NegotiationResult.changes r = differences req ret ∧ (policy = Strict → ret = req)
  | Err _ => ¬ acceptable req ret ∨ (policy = Strict ∧ ret ≠ req)
  | Panic => False
  end.
Proof.
  intros Hq Hp. pose proof (acceptable_domain req ret Hq) as Hacc.
  pose proof (differences_split req ret) as Hdiff. rewrite concat_app in Hdiff.
  destruct (negotiate_domain req ret policy) as [Hd|[Hd [e ->]]];
    [|left; by intros [? _]%Hacc].
  rewrite negotiate_params_eq by done.
  assert (ret ≠ req ↔ differences req ret ≠ []) as Hne.
  { split; intros Hn Heq; apply Hn.
    - symmetry. apply params_ext; [|done]. rewrite (rq_version req Hq). by rewrite (dm_version _ _ Hd).
    - subst ret. apply differences_refl. }
  pose proof (differences_le req ret) as [Hle1 Hle2]%Forall_app.
  destruct policy.
  - pose proof (record_all_strict [] (first_differences req ret)) as H1.
    destruct (record_all Strict [] (first_differences req ret)) as [c1|e1|]; [|right|done].
    2:{ split; [done|]. apply Hne. rewrite Hdiff. by intros [? _]%app_nil. }
    destruct H1 as [-> Hc1]. cbn [mbind Result_bind].
    destruct (bool_decide _ && _) eqn:Hb.
    { rewrite andb_true_iff, !bool_decide_eq_true in Hb. left. intros [_ []]%Hacc; tauto. }
    rewrite andb_false_iff, !bool_decide_eq_false in Hb.
    pose proof (record_all_strict [] (last_differences req ret)) as H2.
    destruct (record_all Strict [] (last_differences req ret)) as [c2|e2|]; [|right|done].
    2:{ split; [done|]. apply Hne. rewrite Hdiff. by intros [_ ?]%app_nil. }
    destruct H2 as [-> Hc2]. cbn [mbind Result_bind]. simpl.
    rewrite Hdiff, Hc1, Hc2. split_and!; [apply Hacc; split; [done|lia]|done..|].
    intros _. destruct (decide (ret = req)) as [|Hn]; [done|]. apply Hne in Hn.
    by rewrite Hdiff, Hc1, Hc2 in Hn.
  - rewrite record_all_loose by done. cbn [mbind Result_bind app].
    destruct (bool_decide _ && _) eqn:Hb.
    { rewrite andb_true_iff, !bool_decide_eq_true in Hb. left. intros [_ []]%Hacc; tauto. }
    rewrite andb_false_iff, !bool_decide_eq_false in Hb.
    rewrite record_all_loose by done. cbn [mbind Result_bind]. simpl.
    split_and!; [apply Hacc; split; [done|lia]|done..|by rewrite Hdiff|done].
Qed.

(** ** Properties *)

(** Under the strict policy a session opens exactly when the server returned
    the request unchanged, and then runs with the requested values and no
    recorded change; anything else is an error, never a panic. *)
Theorem strict_accepts_only_the_request req ret :
  requested_ok req → params_ok ret →
  match negotiate_params req ret Strict with
  | Ok r => ret = req ∧ r = NegotiationResult.mk (semantics req) req []
  | Err _ => ret ≠ req
  | Panic => False
  end.
Proof.
  intros Hq Hp. pose proof (negotiate_outcome req ret Strict Hq Hp) as Ho.
  destruct (negotiate_params req ret Strict) as [[a p c]|e|]; [|destruct Ho as [Ho|[_ Ho]]|]; [|..|done].
  - simpl in Ho. destruct Ho as (_ & -> & -> & -> & Hs). specialize (Hs eq_refl) as ->.
    by rewrite differences_refl.
  - intros ->. apply Ho. destruct Hq. split; lia || auto.
  - done.
Qed.

(** Under the loose policy a session opens exactly when no field was widened
    or put out of its domain; it then runs with the returned values, and every
    field that differs from the request is reported once, in field order. The
    narrowing conversions in the code never panic. *)
Theorem loose_accepts_restrictions req ret :
  requested_ok req → params_ok ret →
  match negotiate_params req ret Loose with
  | Ok r => acceptable req ret ∧ r = NegotiationResult.mk (semantics ret) ret (differences req ret)
  | Err _ => ¬ acceptable req ret
  | Panic => False
  end.
Proof.
  intros Hq Hp. pose proof (negotiate_outcome req ret Loose Hq Hp) as Ho.
  destruct (negotiate_params req ret Loose) as [[a p c]|e|]; [|by destruct Ho as [Ho|[? _]]|done].
  simpl in Ho. by destruct Ho as (? & -> & -> & -> & _).
Qed.

(** ** Instances *)

Definition example_request : Params.t :=
  Params.mk PROTOCOL_VERSION (3 * 10 ^ 9) (10 ^ 9) 120 ReceivedStats.Both StampAt.Both Clock.Both
    184 None.

(** A server that caps the duration, raises the interval and drops the DSCP. *)
Definition example_restriction : Params.t :=
  Params.mk PROTOCOL_VERSION (2 * 10 ^ 9) (2 * 10 ^ 9) 120 ReceivedStats.Both StampAt.Midpoint
    Clock.Both 0 None.

Lemma example_request_ok : requested_ok example_request.
Proof. split; decide_now. Qed.

Example example_changes :
  NegotiationChange.message <$> differences example_request example_restriction =
  ["server reduced duration from 3000000000 ns to 2000000000 ns";
   "server increased interval from 1000000000 ns to 2000000000 ns";
   "server changed stamp-at from Both to Midpoint";
   "server changed DSCP from 46 to 0"]%string.
Proof. vm_compute. reflexivity. Qed.

Lemma strict_accepts_only_the_request_witness :
  is_ok (negotiate_params example_request example_request Strict) = true ∧
  match negotiate_params example_request example_restriction Strict with
  | Ok r => example_restriction = example_request ∧
            r = NegotiationResult.mk (semantics example_request) example_request []
  | Err _ => example_restriction ≠ example_request
  | Panic => False
  end.
Proof.
  split; [vm_compute; reflexivity|].
  exact (strict_accepts_only_the_request example_request example_restriction example_request_ok
    ltac:(apply params_okb_spec; vm_compute; reflexivity)).
Defined.

Lemma loose_accepts_restrictions_witness :
  is_ok (negotiate_params example_request example_restriction Loose) = true ∧
  match negotiate_params example_request example_restriction Loose with
  | Ok r => acceptable example_request example_restriction ∧
            r = NegotiationResult.mk (semantics example_restriction) example_restriction
                  (differences example_request example_restriction)
  | Err _ => ¬ acceptable example_request example_restriction
  | Panic => False
  end.
Proof.
  split; [vm_compute; reflexivity|].
  exact (loose_accepts_restrictions example_request example_restriction example_request_ok
    ltac:(apply params_okb_spec; vm_compute; reflexivity)).
Defined.
