(* ===== verification/Probe.v ===== *)
(** * irtt-client: probe tracking

    Models [crates/irtt-client/src/probe.rs]: the pending map, a hash map
    threaded by a doubly linked list in deadline order, the retention of
    timed-out probes built on it, and the set of completed sequences. A failed
    [debug_assert!] or [expect] is [Panic]; the lemmas show none can fire. *)

From stdpp Require Import sorting.
From S2P Require Import Prelude ProtoBase ParamsCodec ClientBase.

Module PendingProbe.
Record t : Type := mk {
  wire_seq : Z;
  sent_at : ClientTimestamp.t;
  timeout_at : Z;
  tx_not_before_wall : Z;
  kernel_tx_timestamp : option Z;
}.

Definition set_kernel_tx_timestamp (v : option Z) (p : t) : t :=
  mk (wire_seq p) (sent_at p) (timeout_at p) (tx_not_before_wall p) v.
End PendingProbe.
Import PendingProbe.

Module PendingEntry.
Record t : Type := mk { probe : PendingProbe.t; previous : option Z; next : option Z }.

Definition set_probe (v : PendingProbe.t) (e : t) : t := mk v (previous e) (next e).
Definition set_previous (v : option Z) (e : t) : t := mk (probe e) v (next e).
Definition set_next (v : option Z) (e : t) : t := mk (probe e) (previous e) v.
End PendingEntry.

Module ExpiredBatch.
Record t : Type := mk { probes : list PendingProbe.t; more_due : bool }.
End ExpiredBatch.

Definition is_none {A} (o : option A) : bool := match o with None => true | Some _ => false end.

(** ** PendingMap *)
Module PendingMap.
Record t : Type := mk {
  map : gmap Z PendingEntry.t;
  first : option Z;
  last : option Z;
  max_capacity : Z;
}.

Definition new (max_capacity : Z) : t := mk ∅ None None max_capacity.

Definition set_map (v : gmap Z PendingEntry.t) (s : t) : t := mk v (first s) (last s) (max_capacity s).
Definition set_first (v : option Z) (s : t) : t := mk (map s) v (last s) (max_capacity s).
Definition set_last (v : option Z) (s : t) : t := mk (map s) (first s) v (max_capacity s).

(** [HashMap::len]. *)
Definition count (s : t) : Z := Z.of_nat (size (map s)).

(** [map.get_mut(&key).expect(..)]. *)
Definition entry (key : Z) (s : t) : CResult PendingEntry.t := expect (map s !! key).

(** [room] says whether the hash map has room for one more entry or can be
    grown: its capacity and the allocator are outside the source. *)
Definition preflight_insert (room : bool) (wire_seq : Z) (self : t) : CResult unit :=
  if negb (is_none (map self !! wire_seq))
  then Err (ClientError.PendingSequenceCollision wire_seq)
  else if max_capacity self <=? count self
  then Err (ClientError.PendingLimitExceeded (max_capacity self))
  else if negb room then Err (ClientError.AllocationFailed "pending probe storage")
  else Ok tt.

Definition assert_links_consistent (self : t) : CResult unit :=
  _ ← debug_assert (Bool.eqb (is_none (first self)) (bool_decide (map self = ∅)));
  _ ← debug_assert (Bool.eqb (is_none (last self)) (bool_decide (map self = ∅)));
  _ ← (match first self with
       | Some first => e ← entry first self; debug_assert (is_none (PendingEntry.previous e))
       | None => Ok tt
       end);
  match last self with
  | Some last => e ← entry last self; debug_assert (is_none (PendingEntry.next e))
  | None => Ok tt
  end.

Definition commit_insert (probe : PendingProbe.t) (self : t) : CResult t :=
  let wire_seq := wire_seq probe in
  let previous := last self in
  self ←
    (match previous with
     | Some previous =>
         e ← entry previous self;
         _ ← debug_assert (timeout_at (PendingEntry.probe e) <=? timeout_at probe);
         _ ← debug_assert (is_none (PendingEntry.next e));
         Ok (set_map (<[previous := PendingEntry.set_next (Some wire_seq) e]> (map self)) self)
     | None =>
         _ ← debug_assert (is_none (first self));
         Ok (set_first (Some wire_seq) self)
     end);
  let replaced := map self !! wire_seq in
  let self := set_map (<[wire_seq := PendingEntry.mk probe previous None]> (map self)) self in
  _ ← debug_assert (is_none replaced);
  let self := set_last (Some wire_seq) self in
  _ ← assert_links_consistent self;
  Ok self.

(** The two halves of unlinking: [previous]'s successor, [next]'s predecessor. *)
Definition unlink_previous (wire_seq : Z) (previous next : option Z) (self : t) : CResult t :=
  match previous with
  | Some previous =>
      e ← entry previous self;
      _ ← debug_assert (bool_decide (PendingEntry.next e = Some wire_seq));
      Ok (set_map (<[previous := PendingEntry.set_next next e]> (map self)) self)
  | None =>
      _ ← debug_assert (bool_decide (first self = Some wire_seq));
      Ok (set_first next self)
  end.

Definition unlink_next (wire_seq : Z) (previous next : option Z) (self : t) : CResult t :=
  match next with
  | Some next =>
      e ← entry next self;
      _ ← debug_assert (bool_decide (PendingEntry.previous e = Some wire_seq));
      Ok (set_map (<[next := PendingEntry.set_previous previous e]> (map self)) self)
  | None =>
      _ ← debug_assert (bool_decide (last self = Some wire_seq));
      Ok (set_last previous self)
  end.

Definition remove (wire_seq : Z) (self : t) : CResult (option PendingProbe.t * t) :=
  match map self !! wire_seq with
  | None => Ok (None, self)
  | Some (PendingEntry.mk probe previous next) =>
      let self := set_map (delete wire_seq (map self)) self in
      self ← unlink_previous wire_seq previous next self;
      self ← unlink_next wire_seq previous next self;
      _ ← assert_links_consistent self;
      Ok (Some probe, self)
  end.

(** The [while] loop: each turn removes an entry, so the number of entries at
    entry, plus one, is enough fuel ([drain_loop_ok]). *)
Fixpoint drain_loop (fuel : nat) (now limit : Z) (probes : list PendingProbe.t) (self : t)
    : CResult (list PendingProbe.t * t) :=
  match fuel with
  | O => Panic
  | S fuel =>
      if len probes <? limit then
        match first self with
        | None => Ok (probes, self)
        | Some wire_seq =>
            e ← entry wire_seq self;
            if now <? timeout_at (PendingEntry.probe e) then Ok (probes, self)
            else
              '(removed, self) ← remove wire_seq self;
              probe ← expect removed;
              drain_loop fuel now limit (probes ++ [probe]) self
        end
      else Ok (probes, self)
  end.

Definition next_timeout_deadline (self : t) : option Z :=
  first self ≫= λ wire_seq, map self !! wire_seq ≫= λ e, Some (timeout_at (PendingEntry.probe e)).

Definition drain_expired_bounded (now limit : Z) (self : t) : CResult (ExpiredBatch.t * t) :=
  '(probes, self) ← drain_loop (S (size (map self))) now limit [] self;
  let more_due :=
    match first self ≫= λ wire_seq, map self !! wire_seq with
    | Some e => timeout_at (PendingEntry.probe e) <=? now
    | None => false
    end in
  Ok (ExpiredBatch.mk probes more_due, self).

Definition is_empty (self : t) : bool := bool_decide (map self = ∅).

(** [get_mut] followed by the caller's update of the probe it returns. *)
Definition update (wire_seq : Z) (f : PendingProbe.t → PendingProbe.t) (self : t) : option t :=
  match map self !! wire_seq with
  | Some e => Some (set_map (<[wire_seq := PendingEntry.set_probe (f (PendingEntry.probe e)) e]>
                              (map self)) self)
  | None => None
  end.

Definition latest_timeout_deadline (self : t) : option Z :=
  last self ≫= λ wire_seq, map self !! wire_seq ≫= λ e, Some (timeout_at (PendingEntry.probe e)).
End PendingMap.

(** ** TimedOutMap: a pending map that evicts its head when full *)
Module TimedOutMap.
Record t : Type := mk { probes : PendingMap.t }.

Definition new (max_capacity : Z) : t := mk (PendingMap.new max_capacity).

Definition insert (probe : PendingProbe.t) (self : t) : CResult t :=
  if PendingMap.max_capacity (probes self) =? 0 then Ok self
  else
    _ ← debug_assert (is_none (PendingMap.map (probes self) !! wire_seq probe));
    probes ←
      (if PendingMap.count (probes self) =? PendingMap.max_capacity (probes self)
       then
         head ← expect (PendingMap.first (probes self));
         snd <$> PendingMap.remove head (probes self)
       else Ok (probes self));
    mk <$> PendingMap.commit_insert probe probes.

Definition remove (wire_seq : Z) (self : t) : CResult (option PendingProbe.t * t) :=
  '(removed, probes) ← PendingMap.remove wire_seq (probes self);
  Ok (removed, mk probes).

Definition update (wire_seq : Z) (f : PendingProbe.t → PendingProbe.t) (self : t) : option t :=
  mk <$> PendingMap.update wire_seq f (probes self).

Definition latest_timeout_deadline (self : t) : option Z :=
  PendingMap.latest_timeout_deadline (probes self).
End TimedOutMap.

(** ** CompletedSet *)
Module CompletedSet.
Record t : Type := mk {
  set : gset Z;
  insertion_order : list Z;
  max_capacity : Z;
}.

Definition new (max_capacity : Z) : t := mk ∅ [] max_capacity.

Fixpoint evict_loop (set : gset Z) (order : list Z) : gset Z * list Z :=
  match order with
  | [] => (set, [])
  | oldest_seq :: rest =>
      if bool_decide (oldest_seq ∈ set) then (set ∖ {[oldest_seq]}, rest) else evict_loop set rest
  end.

Definition evict_oldest (self : t) : t :=
  let '(set, order) := evict_loop (set self) (insertion_order self) in
  mk set order (max_capacity self).

Definition contains (seq : Z) (self : t) : bool := bool_decide (seq ∈ set self).

Definition insert (seq : Z) (self : t) : t :=
  if contains seq self then self
  else
    let self := if max_capacity self <=? Z.of_nat (size (set self)) then evict_oldest self else self in
    mk ({[seq]} ∪ set self) (insertion_order self ++ [seq]) (max_capacity self).

Definition remove (seq : Z) (self : t) : bool * t :=
  if contains seq self
  then (true, mk (set self ∖ {[seq]}) (filter (λ entry, entry ≠ seq) (insertion_order self))
                (max_capacity self))
  else (false, self).
End CompletedSet.

(** ** The list a pending map threads

    [links prev l next base] is [base] with the entries of [l] added, linked to
    each other, to [prev] on the left and to [next] on the right. *)
Definition seqs (l : list PendingProbe.t) : list Z := wire_seq <$> l.

Definition head_or (next : option Z) (l : list PendingProbe.t) : option Z :=
  match l with [] => next | p :: _ => Some (wire_seq p) end.
Definition last_or (prev : option Z) (l : list PendingProbe.t) : option Z :=
  match list.last l with Some p => Some (wire_seq p) | None => prev end.

Fixpoint links (prev : option Z) (l : list PendingProbe.t) (next : option Z)
    (base : gmap Z PendingEntry.t) : gmap Z PendingEntry.t :=
  match l with
  | [] => base
  | p :: l' =>
      <[wire_seq p := PendingEntry.mk p prev (head_or next l')]>
        (links (Some (wire_seq p)) l' next base)
  end.

Lemma last_or_snoc prev l p : last_or prev (l ++ [p]) = Some (wire_seq p).
Proof. unfold last_or. by rewrite last_snoc. Qed.
Lemma last_or_cons prev p l : last_or prev (p :: l) = last_or (Some (wire_seq p)) l.
Proof. unfold last_or. destruct l; [done|]. rewrite last_cons_cons. by destruct (list.last (_ :: _)) eqn:H;
  [|apply last_None in H]. Qed.
Lemma last_or_app prev l k : last_or prev (l ++ k) = last_or (last_or prev l) k.
Proof. revert prev. induction l as [|p l IH]; intros prev; [done|]. cbn [app]. by rewrite !last_or_cons. Qed.
Lemma head_or_app next l k : head_or next (l ++ k) = head_or (head_or next k) l.
Proof. by destruct l. Qed.
Lemma seqs_app l k : seqs (l ++ k) = seqs l ++ seqs k.
Proof. apply fmap_app. Qed.

Lemma links_app prev l k next base :
  links prev (l ++ k) next base = links prev l (head_or next k) (links (last_or prev l) k next base).
Proof.
  revert prev. induction l as [|p l IH]; intros prev; [done|].
  cbn [links app]. rewrite IH, head_or_app, last_or_cons. done.
Qed.

Lemma links_insert prev l next base k e :
  k ∉ seqs l → <[k := e]> (links prev l next base) = links prev l next (<[k := e]> base).
Proof.
  revert prev. induction l as [|p l IH]; intros prev Hk; [done|].
  cbn [links]. apply not_elem_of_cons in Hk as [Hk1 Hk2].
  rewrite insert_insert_ne by done. by rewrite IH.
Qed.

Lemma links_delete prev l next base k :
  k ∉ seqs l → delete k (links prev l next base) = links prev l next (delete k base).
Proof.
  revert prev. induction l as [|p l IH]; intros prev Hk; [done|].
  cbn [links]. apply not_elem_of_cons in Hk as [Hk1 Hk2].
  rewrite delete_insert_ne by done. by rewrite IH.
Qed.

Lemma links_lookup_ne prev l next base k :
  k ∉ seqs l → links prev l next base !! k = base !! k.
Proof.
  revert prev. induction l as [|p l IH]; intros prev Hk; [done|].
  cbn [links]. apply not_elem_of_cons in Hk as [Hk1 Hk2].
  rewrite lookup_insert_ne by done. by apply IH.
Qed.

Lemma links_dom prev l next : dom (links prev l next ∅) = list_to_set (seqs l).
Proof.
  revert prev. induction l as [|p l IH]; intros prev; [apply dom_empty_L|].
  cbn [links]. rewrite dom_insert_L, IH. done.
Qed.

Lemma links_size prev l next : NoDup (seqs l) → size (links prev l next ∅) = length l.
Proof.
  intros Hl. rewrite <- size_dom, links_dom, size_list_to_set by done. apply length_fmap.
Qed.

Lemma links_empty prev l next : links prev l next ∅ = ∅ ↔ l = [].
Proof.
  split; [|by intros ->]. destruct l as [|p l]; [done|]. cbn [links].
  intros H. by apply insert_non_empty in H.
Qed.

(** [m] holds exactly the probes of [l], in that order. *)
Record holds (l : list PendingProbe.t) (m : PendingMap.t) : Prop := {
  ho_map : PendingMap.map m = links None l None ∅;
  ho_first : PendingMap.first m = head_or None l;
  ho_last : PendingMap.last m = last_or None l;
  ho_nodup : NoDup (seqs l);
}.

Lemma nodup_middle (l1 l2 : list PendingProbe.t) p :
  NoDup (seqs (l1 ++ p :: l2)) ↔
  (wire_seq p ∉ seqs l1) ∧ (wire_seq p ∉ seqs l2) ∧ NoDup (seqs (l1 ++ l2)).
Proof.
  rewrite !seqs_app. cbn [seqs fmap list_fmap].
  rewrite <- Permutation_middle, NoDup_cons, not_elem_of_app. unfold seqs. tauto.
Qed.

Lemma links_middle_lookup l1 p l2 :
  NoDup (seqs (l1 ++ p :: l2)) →
  links None (l1 ++ p :: l2) None ∅ !! wire_seq p
  = Some (PendingEntry.mk p (last_or None l1) (head_or None l2)).
Proof.
  intros (Hp & _ & _)%nodup_middle. rewrite links_app, links_lookup_ne by done.
  apply lookup_insert_eq.
Qed.

Section holds.
Context (l : list PendingProbe.t) (m : PendingMap.t).
Context (Hm : holds l m).

Lemma holds_count : PendingMap.count m = len l.
Proof. destruct Hm as [H _ _ Hn]. unfold PendingMap.count. by rewrite H, links_size. Qed.

Lemma holds_absent k : k ∉ seqs l → PendingMap.map m !! k = None.
Proof. destruct Hm as [H _ _ _]. intros Hk. by rewrite H, links_lookup_ne. Qed.

Lemma holds_lookup k e :
  PendingMap.map m !! k = Some e → ∃ l1 p l2,
    l = l1 ++ p :: l2 ∧ wire_seq p = k ∧
    e = PendingEntry.mk p (last_or None l1) (head_or None l2).
Proof.
  destruct Hm as [H _ _ Hn]. intros Hk.
  destruct (decide (k ∈ seqs l)) as [Hin|Hin]; [|by rewrite holds_absent in Hk].
  apply list_elem_of_fmap in Hin as (p & -> & Hp).
  apply list_elem_of_split in Hp as (l1 & l2 & ->).
  exists l1, p, l2. split; [done|]. split; [done|].
  rewrite H, links_middle_lookup in Hk by done. congruence.
Qed.

Lemma holds_is_empty : PendingMap.is_empty m = bool_decide (l = []).
Proof.
  destruct Hm as [H _ _ _]. unfold PendingMap.is_empty. rewrite H.
  apply bool_decide_ext, links_empty.
Qed.

Lemma holds_member k : is_none (PendingMap.map m !! k) = negb (bool_decide (k ∈ seqs l)).
Proof.
  case_bool_decide as Hk; [|by rewrite holds_absent].
  destruct (PendingMap.map m !! k) eqn:He; [done|].
  apply list_elem_of_fmap in Hk as (p & -> & Hp).
  apply list_elem_of_split in Hp as (l1 & l2 & ->).
  destruct Hm as [H _ _ Hn]. by rewrite H, links_middle_lookup in He.
Qed.
End holds.

Lemma holds_middle l1 p l2 m :
  holds (l1 ++ p :: l2) m →
  PendingMap.map m !! wire_seq p = Some (PendingEntry.mk p (last_or None l1) (head_or None l2)).
Proof. intros [H _ _ Hn]. rewrite H. by apply links_middle_lookup. Qed.

Lemma holds_new c : holds [] (PendingMap.new c).
Proof. split; done || constructor. Qed.

Lemma assert_links_ok l m : holds l m → PendingMap.assert_links_consistent m = Ok tt.
Proof.
  intros Hm. unfold PendingMap.assert_links_consistent.
  assert (bool_decide (PendingMap.map m = ∅) = bool_decide (l = [])) as -> by by apply holds_is_empty.
  rewrite (ho_first l m Hm), (ho_last l m Hm).
  destruct l as [|p l _] using rev_ind; [done|]. rewrite last_or_snoc.
  rewrite bool_decide_false by by intros []%app_nil.
  assert (PendingMap.entry (wire_seq p) m = Ok (PendingEntry.mk p (last_or None l) None)) as Hlast.
  { unfold PendingMap.entry. by rewrite (holds_middle _ _ _ _ Hm). }
  destruct l as [|q l]; cbn [app head_or is_none Bool.eqb debug_assert mbind Result_bind].
  - by rewrite Hlast.
  - assert (PendingMap.entry (wire_seq q) m = Ok (PendingEntry.mk q None (head_or None (l ++ [p]))))
      as ->.
    { unfold PendingMap.entry. by rewrite (holds_middle [] q (l ++ [p]) m Hm). }
    cbn. by rewrite Hlast.
Qed.

(** What linking a new tail, or a removal's neighbours, does to the map. *)
Lemma links_set_next prev l q next next' base :
  wire_seq q ∉ seqs l →
  <[wire_seq q := PendingEntry.mk q (last_or prev l) next']> (links prev (l ++ [q]) next base)
  = links prev (l ++ [q]) next' base.
Proof.
  intros Hq. rewrite !links_app, links_insert by done. cbn [links head_or].
  by rewrite insert_insert_eq.
Qed.

Lemma links_snoc prev l q p next :
  wire_seq p ∉ seqs (l ++ [q]) →
  <[wire_seq p := PendingEntry.mk p (Some (wire_seq q)) next]>
    (links prev (l ++ [q]) (Some (wire_seq p)) ∅)
  = links prev ((l ++ [q]) ++ [p]) next ∅.
Proof.
  intros Hp. rewrite (links_app prev (l ++ [q]) [p]), links_insert, last_or_snoc by done. done.
Qed.

(** Runs the monadic code up to the next test. *)
Local Ltac run :=
  cbv beta iota zeta delta [PendingMap.set_map PendingMap.set_first PendingMap.set_last
    PendingEntry.set_probe PendingEntry.set_next PendingEntry.set_previous];
  cbn [mbind Result_bind debug_assert expect is_none PendingEntry.probe PendingEntry.previous
       PendingEntry.next PendingMap.map PendingMap.first PendingMap.last PendingMap.max_capacity].

Lemma commit_insert_ok l m p :
  holds l m → wire_seq p ∉ seqs l → Forall (λ q, timeout_at q ≤ timeout_at p) l →
  ∃ m', PendingMap.commit_insert p m = Ok m' ∧ holds (l ++ [p]) m' ∧
        PendingMap.max_capacity m' = PendingMap.max_capacity m.
Proof.
  intros Hm Hp Hsorted. unfold PendingMap.commit_insert. rewrite (ho_last l m Hm).
  destruct l as [|q l _] using rev_ind.
  - assert (holds [p] (PendingMap.mk (<[wire_seq p := PendingEntry.mk p None None]> (PendingMap.map m))
      (Some (wire_seq p)) (Some (wire_seq p)) (PendingMap.max_capacity m))) as Hm'.
    { destruct Hm as [H _ _ _]. split; simpl; [by rewrite H|done..|apply NoDup_singleton]. }
    pose proof (assert_links_ok _ _ Hm') as Ha.
    change (last_or None []) with (@None Z). rewrite (ho_first _ m Hm). cbn [head_or]. run.
    rewrite (holds_absent [] m Hm) by set_solver. run.
    rewrite Ha. run. eauto.
  - rewrite last_or_snoc. cbv beta iota zeta. unfold PendingMap.entry.
    rewrite (holds_middle _ _ _ _ Hm).
    apply Forall_app in Hsorted as [_ Hq]. apply Forall_inv in Hq.
    run. rewrite (proj2 (Z.leb_le _ _)) by exact Hq. cbn [head_or]. run.
    pose proof (ho_nodup _ m Hm) as (Hql & _ & _)%nodup_middle.
    rewrite (ho_map _ m Hm), links_set_next by done.
    rewrite (links_lookup_ne _ _ _ _ (wire_seq p)) by done. run.
    rewrite links_snoc by done.
    match goal with |- context [PendingMap.assert_links_consistent ?x] => set (m' := x) end.
    assert (holds ((l ++ [q]) ++ [p]) m') as Hm'.
    { split; subst m'; simpl; [done| |by rewrite last_or_snoc|].
      - rewrite (ho_first _ m Hm), !head_or_app. by destruct l.
      - apply nodup_middle. rewrite app_nil_r. split; [done|]. split; [apply not_elem_of_nil|].
        apply (ho_nodup _ m Hm). }
    rewrite (assert_links_ok _ _ Hm'). run. eauto.
Qed.

Lemma remove_absent l m k : holds l m → k ∉ seqs l → PendingMap.remove k m = Ok (None, m).
Proof. intros Hm Hk. unfold PendingMap.remove. by rewrite (holds_absent l m Hm). Qed.

Lemma unlink_previous_ok l1 p next rest m :
  wire_seq p ∉ seqs l1 → NoDup (seqs l1) →
  PendingMap.map m = links None l1 (Some (wire_seq p)) rest →
  PendingMap.first m = head_or (Some (wire_seq p)) l1 →
  PendingMap.unlink_previous (wire_seq p) (last_or None l1) next m
  = Ok (PendingMap.mk (links None l1 next rest) (head_or next l1) (PendingMap.last m)
          (PendingMap.max_capacity m)).
Proof.
  intros Hp Hn Hmap Hfirst. unfold PendingMap.unlink_previous, PendingMap.entry.
  destruct l1 as [|q l1 _] using rev_ind.
  - change (last_or None []) with (@None Z). cbv iota. rewrite Hfirst. cbn [head_or].
    rewrite bool_decide_true by done. run. by rewrite Hmap.
  - apply (nodup_middle l1 []) in Hn as (Hq & _ & _).
    rewrite last_or_snoc.
    assert (PendingMap.map m !! wire_seq q
            = Some (PendingEntry.mk q (last_or None l1) (Some (wire_seq p)))) as Hlook.
    { rewrite Hmap, links_app, links_lookup_ne by done. apply lookup_insert_eq. }
    rewrite Hlook. run. rewrite bool_decide_true by done. run.
    rewrite Hmap, links_set_next, Hfirst, !head_or_app by done. done.
Qed.

Lemma unlink_next_ok l1 p l2 m :
  wire_seq p ∉ seqs l2 → NoDup (seqs (l1 ++ l2)) →
  PendingMap.map m = links None l1 (head_or None l2) (links (Some (wire_seq p)) l2 None ∅) →
  PendingMap.last m = last_or (Some (wire_seq p)) l2 →
  PendingMap.unlink_next (wire_seq p) (last_or None l1) (head_or None l2) m
  = Ok (PendingMap.mk (links None (l1 ++ l2) None ∅) (PendingMap.first m) (last_or None (l1 ++ l2))
          (PendingMap.max_capacity m)).
Proof.
  intros Hp Hn Hmap Hlast. unfold PendingMap.unlink_next, PendingMap.entry.
  destruct l2 as [|q l2]; cbn [head_or].
  - rewrite Hlast. change (last_or (Some (wire_seq p)) []) with (Some (wire_seq p)).
    rewrite bool_decide_true by done. run. rewrite Hmap, app_nil_r. done.
  - pose proof (nodup_middle l1 l2 q) as [(Hq1 & Hq2 & _) _]; [done|].
    assert (PendingMap.map m !! wire_seq q
            = Some (PendingEntry.mk q (Some (wire_seq p)) (head_or None l2))) as Hlook.
    { rewrite Hmap, links_lookup_ne by done. apply lookup_insert_eq. }
    rewrite Hlook. run. rewrite bool_decide_true by done. run.
    rewrite Hmap, links_insert by done. cbn [links head_or]. rewrite insert_insert_eq.
    by rewrite links_app, Hlast, last_or_app, !last_or_cons.
Qed.

Lemma remove_ok l1 p l2 m :
  holds (l1 ++ p :: l2) m →
  ∃ m', PendingMap.remove (wire_seq p) m = Ok (Some p, m') ∧ holds (l1 ++ l2) m' ∧
        PendingMap.max_capacity m' = PendingMap.max_capacity m.
Proof.
  intros Hm. unfold PendingMap.remove. rewrite (holds_middle _ _ _ _ Hm). cbv zeta.
  pose proof (ho_nodup _ m Hm) as (Hp1 & Hp2 & Hn)%nodup_middle.
  assert (NoDup (seqs l1)) as Hn1 by (rewrite seqs_app in Hn; by apply NoDup_app in Hn as [? _]).
  rewrite (unlink_previous_ok l1 p _ (links (Some (wire_seq p)) l2 None ∅)); [|done..| |].
  2:{ cbn. rewrite (ho_map _ m Hm), links_app, links_delete by done. cbn [links head_or].
      rewrite delete_insert_id; [done|]. by rewrite links_lookup_ne. }
  2:{ cbn. by rewrite (ho_first _ m Hm), head_or_app. }
  cbn [mbind Result_bind]. rewrite (unlink_next_ok l1); [|done..|].
  2:{ cbn. by rewrite (ho_last _ m Hm), last_or_app, last_or_cons. }
  cbn [mbind Result_bind PendingMap.first PendingMap.max_capacity PendingMap.set_map].
  match goal with |- context [PendingMap.assert_links_consistent ?x] => set (m' := x) end.
  assert (holds (l1 ++ l2) m') as Hm' by (split; subst m'; cbn; rewrite ?head_or_app; done).
  rewrite (assert_links_ok _ _ Hm'). cbn. eauto.
Qed.

Lemma update_absent l m k f : holds l m → k ∉ seqs l → PendingMap.update k f m = None.
Proof. intros Hm Hk. unfold PendingMap.update. by rewrite (holds_absent l m Hm). Qed.

Lemma links_update l1 p p' l2 :
  NoDup (seqs (l1 ++ p :: l2)) → wire_seq p' = wire_seq p →
  <[wire_seq p := PendingEntry.mk p' (last_or None l1) (head_or None l2)]>
    (links None (l1 ++ p :: l2) None ∅) = links None (l1 ++ p' :: l2) None ∅.
Proof.
  intros (Hp1 & _ & _)%nodup_middle Hs. rewrite !links_app, links_insert by done.
  cbn [links head_or]. by rewrite insert_insert_eq, Hs.
Qed.

Lemma update_ok l1 p l2 m f :
  holds (l1 ++ p :: l2) m → wire_seq (f p) = wire_seq p →
  ∃ m', PendingMap.update (wire_seq p) f m = Some m' ∧ holds (l1 ++ f p :: l2) m' ∧
        PendingMap.max_capacity m' = PendingMap.max_capacity m.
Proof.
  intros Hm Hf. unfold PendingMap.update. rewrite (holds_middle _ _ _ _ Hm).
  eexists. split; [done|]. split; [|done]. run.
  pose proof (ho_nodup _ m Hm) as Hn. split; cbn.
  - by rewrite (ho_map _ m Hm), links_update.
  - rewrite (ho_first _ m Hm), !head_or_app. cbn. by rewrite Hf.
  - by rewrite (ho_last _ m Hm), !last_or_app, !last_or_cons, Hf.
  - rewrite seqs_app in *. cbn in *. by rewrite Hf.
Qed.

(** ** Expiry *)

(** The probes at the head of the queue whose deadline has passed. *)
Fixpoint due (now : Z) (l : list PendingProbe.t) : list PendingProbe.t :=
  match l with
  | p :: l' => if timeout_at p <=? now then p :: due now l' else []
  | [] => []
  end.

Lemma head_entry l m p :
  holds (p :: l) m →
  PendingMap.first m = Some (wire_seq p) ∧
  PendingMap.map m !! wire_seq p = Some (PendingEntry.mk p None (head_or None l)).
Proof. intros Hm. split; [by rewrite (ho_first _ m Hm)|]. apply (holds_middle [] p l m Hm). Qed.

Lemma drain_loop_ok fuel now limit acc l m :
  (length l < fuel)%nat → holds l m →
  ∃ m', let out := take (Z.to_nat (limit - len acc)) (due now l) in
    PendingMap.drain_loop fuel now limit acc m = Ok (acc ++ out, m') ∧
    holds (drop (length out) l) m' ∧ PendingMap.max_capacity m' = PendingMap.max_capacity m.
Proof.
  revert acc l m. induction fuel as [|fuel IH]; intros acc l m Hf Hm; [lia|].
  cbn [PendingMap.drain_loop]. destruct (Z.ltb_spec (len acc) limit) as [Hlt|Hge].
  2:{ exists m. replace (Z.to_nat (limit - len acc)) with 0%nat by lia. cbn.
      by rewrite app_nil_r, drop_0. }
  destruct l as [|p l].
  { rewrite (ho_first _ m Hm). exists m. cbn. by rewrite take_nil, app_nil_r. }
  destruct (head_entry l m p Hm) as [-> He]. unfold PendingMap.entry. rewrite He. cbn [due].
  run. rewrite Z.ltb_antisym. destruct (timeout_at p <=? now); cbn [negb].
  2:{ exists m. rewrite take_nil. cbn. by rewrite app_nil_r. }
  destruct (remove_ok [] p l m Hm) as (m1 & -> & Hm1 & Hc). cbn [app] in Hm1. run.
  destruct (IH (acc ++ [p]) l m1) as (m2 & Hd & Hm2 & Hc2); [cbn in Hf; lia|done|].
  exists m2. cbv zeta. rewrite Hd. replace (Z.to_nat (limit - len acc))
    with (S (Z.to_nat (limit - len (acc ++ [p])))) by len_lia.
  cbn [take length drop]. rewrite <- app_assoc. split; [done|]. split; [done|]. congruence.
Qed.

Lemma holds_fuel l m : holds l m → size (PendingMap.map m) = length l.
Proof. intros Hm. pose proof (holds_count l m Hm) as H. unfold PendingMap.count, len in H. lia. Qed.

Lemma drain_ok now limit l m :
  holds l m →
  ∃ m', let out := take (Z.to_nat limit) (due now l) in
        let rest := drop (length out) l in
    PendingMap.drain_expired_bounded now limit m
    = Ok (ExpiredBatch.mk out (negb (bool_decide (due now rest = []))), m') ∧
    holds rest m' ∧ PendingMap.max_capacity m' = PendingMap.max_capacity m.
Proof.
  intros Hm. unfold PendingMap.drain_expired_bounded. rewrite (holds_fuel l m Hm).
  destruct (drain_loop_ok (S (length l)) now limit [] l m) as (m' & Hd & Hm' & Hc); [lia|done|].
  rewrite len_nil, Z.sub_0_r in *. exists m'. cbv zeta in *.
  rewrite Hd. cbn [mbind Result_bind app]. split; [|done]. do 2 f_equal. f_equal.
  destruct (drop _ l) as [|p rest]; [by rewrite (ho_first _ m' Hm')|].
  destruct (head_entry _ _ _ Hm') as [-> He]. cbn. rewrite He. cbn.
  by destruct (timeout_at p <=? now).
Qed.

(** Deadlines in queue order. *)
Definition by_deadline : list PendingProbe.t → Prop :=
  StronglySorted (λ p q, timeout_at p ≤ timeout_at q).

Lemma due_sorted now l : by_deadline l → due now l = filter (λ p, timeout_at p ≤ now) l.
Proof.
  unfold by_deadline. induction 1 as [|p l Hl IH Hp]; [done|]. cbn [due].
  destruct (Z.leb_spec (timeout_at p) now).
  - rewrite filter_cons_True by done. by rewrite IH.
  - rewrite filter_cons_False by lia. clear IH Hl.
    induction Hp as [|q l Hq _ IH]; [done|]. by rewrite filter_cons_False by lia.
Qed.

Lemma rest_not_due now l :
  by_deadline l →
  Forall (λ p, now < timeout_at p) (drop (length (filter (λ p, timeout_at p ≤ now) l)) l).
Proof.
  intros Hs. rewrite <- due_sorted by done. revert Hs. unfold by_deadline.
  induction 1 as [|p l _ IH Hp]; [constructor|]. cbn [due].
  destruct (Z.leb_spec (timeout_at p) now); [exact IH|]. cbn. constructor; [done|].
  eapply Forall_impl; [exact Hp|]. cbn. lia.
Qed.

Lemma due_prefix now l : due now l `prefix_of` l.
Proof.
  induction l as [|p l IH]; [done|]. cbn [due].
  destruct (timeout_at p <=? now); [by apply prefix_cons|apply prefix_nil].
Qed.

Lemma due_drop now n l : (n ≤ length (due now l))%nat → due now (drop n l) = drop n (due now l).
Proof.
  revert l. induction n as [|n IH]; intros [|p l]; [done..|]. cbn [due drop].
  destruct (timeout_at p <=? now); cbn [length drop]; [|lia]. intros Hn. apply IH. lia.
Qed.

(** Removing by sequence number, on the list. *)
Lemma filter_seq_absent k l : k ∉ seqs l → filter (λ p, wire_seq p = k) l = [].
Proof.
  induction l as [|p l IH]; [done|]. intros [Hk Hl]%not_elem_of_cons.
  rewrite filter_cons_False by congruence. by apply IH.
Qed.

Lemma filter_seq_keep k l : k ∉ seqs l → filter (λ p, wire_seq p ≠ k) l = l.
Proof.
  induction l as [|p l IH]; [done|]. intros [Hk Hl]%not_elem_of_cons.
  rewrite filter_cons_True by congruence. by rewrite IH.
Qed.

Lemma filter_seq_middle l1 p l2 :
  NoDup (seqs (l1 ++ p :: l2)) →
  filter (λ q, wire_seq q = wire_seq p) (l1 ++ p :: l2) = [p] ∧
  filter (λ q, wire_seq q ≠ wire_seq p) (l1 ++ p :: l2) = l1 ++ l2.
Proof.
  intros (Hp1 & Hp2 & _)%nodup_middle. rewrite !filter_app, !filter_cons.
  rewrite decide_True, decide_False by naive_solver.
  by rewrite !filter_seq_absent, !filter_seq_keep.
Qed.

Lemma remove_holds k l m :
  holds l m →
  ∃ m', PendingMap.remove k m = Ok (head (filter (λ p, wire_seq p = k) l), m') ∧
        holds (filter (λ p, wire_seq p ≠ k) l) m' ∧
        PendingMap.max_capacity m' = PendingMap.max_capacity m.
Proof.
  intros Hm. destruct (decide (k ∈ seqs l)) as [Hk|Hk].
  - apply list_elem_of_fmap in Hk as (p & -> & Hp).
    apply list_elem_of_split in Hp as (l1 & l2 & ->).
    destruct (filter_seq_middle l1 p l2 (ho_nodup _ m Hm)) as [-> ->].
    by apply remove_ok.
  - rewrite (remove_absent l) by done. rewrite filter_seq_absent, filter_seq_keep by done. eauto.
Qed.

Lemma by_deadline_filter (P : PendingProbe.t → Prop) `{∀ p, Decision (P p)} l :
  by_deadline l → by_deadline (filter P l).
Proof.
  unfold by_deadline. induction 1 as [|p l Hl IH Hp]; [constructor|].
  rewrite filter_cons. case_decide; [|done]. constructor; [done|].
  rewrite Forall_forall in *. intros q [_ Hq]%list_elem_of_filter. by apply Hp.
Qed.

Lemma by_deadline_drop n l : by_deadline l → by_deadline (drop n l).
Proof.
  unfold by_deadline. rewrite <- (take_drop n l) at 1. apply StronglySorted_app_1_r.
Qed.

Lemma by_deadline_snoc l p :
  by_deadline l → Forall (λ q, timeout_at q ≤ timeout_at p) l → by_deadline (l ++ [p]).
Proof.
  intros Hl Hp. apply StronglySorted_app_2; [|done|repeat constructor].
  intros q1 q2 H1 ->%list_elem_of_singleton. rewrite Forall_forall in Hp. by apply Hp.
Qed.

Lemma drain_holds now limit l m :
  holds l m → by_deadline l → 0 ≤ limit →
  ∃ m', let ready := filter (λ p, timeout_at p ≤ now) l in
    PendingMap.drain_expired_bounded now limit m
    = Ok (ExpiredBatch.mk (take (Z.to_nat limit) ready) (limit <? len ready), m') ∧
    holds (drop (Z.to_nat limit `min` length ready) l) m' ∧
    PendingMap.max_capacity m' = PendingMap.max_capacity m.
Proof.
  intros Hm Hs Hl. destruct (drain_ok now limit l m Hm) as (m' & Hd & Hm' & Hc).
  exists m'. rewrite <- due_sorted by done. cbv zeta in *. rewrite length_take in Hm', Hd.
  rewrite due_drop in Hd by lia.
  split; [|done]. rewrite Hd. do 3 f_equal.
  destruct (Z.ltb_spec limit (len (due now l))) as [Hlt|Hge]; unfold len in *.
  - rewrite bool_decide_false; [done|]. intros Hnil%(f_equal length).
    rewrite length_drop in Hnil. cbn in Hnil. lia.
  - rewrite bool_decide_true; [done|]. apply nil_length_inv. rewrite length_drop. lia.
Qed.

(** ** Reading the list back

    The probes of a pending map in list order, by following the links. *)
Fixpoint walk (fuel : nat) (key : option Z) (map : gmap Z PendingEntry.t) : list PendingProbe.t :=
  match fuel, key with
  | S fuel, Some key =>
      match map !! key with
      | Some e => PendingEntry.probe e :: walk fuel (PendingEntry.next e) map
      | None => []
      end
  | _, _ => []
  end.

Definition in_order (m : PendingMap.t) : list PendingProbe.t :=
  walk (size (PendingMap.map m)) (PendingMap.first m) (PendingMap.map m).

Lemma holds_in_order l m : holds l m → in_order m = l.
Proof.
  intros Hm. unfold in_order. rewrite (holds_fuel l m Hm), (ho_first l m Hm).
  assert (∀ l1 l2, l = l1 ++ l2 →
    walk (length l2) (head_or None l2) (PendingMap.map m) = l2) as Hwalk; [|by apply (Hwalk [])].
  intros l1 l2. revert l1. induction l2 as [|p l2 IH]; intros l1 Hl; [done|].
  subst l. cbn [length walk head_or]. rewrite (holds_middle l1 p l2 m Hm).
  cbn [PendingEntry.probe PendingEntry.next]. f_equal. apply (IH (l1 ++ [p])).
  by rewrite <- app_assoc.
Qed.

(** ** The pending map as a queue

    The specification a pending map is meant to satisfy: a list of probes in
    deadline order. *)
Module Queue.
Inductive op : Type :=
  | Insert (probe : PendingProbe.t)
  | Remove (wire_seq : Z)
  | Drain (now limit : Z).

Inductive answer : Type :=
  | Inserted
  | Removed (probe : option PendingProbe.t)
  | Expired (batch : ExpiredBatch.t).

Definition spec (o : op) (l : list PendingProbe.t) : answer * list PendingProbe.t :=
  match o with
  | Insert p => (Inserted, l ++ [p])
  | Remove k => (Removed (head (filter (λ p, wire_seq p = k) l)), filter (λ p, wire_seq p ≠ k) l)
  | Drain now limit =>
      let ready := filter (λ p, timeout_at p ≤ now) l in
      (Expired (ExpiredBatch.mk (take (Z.to_nat limit) ready) (limit <? len ready)),
       drop (Z.to_nat limit `min` length ready) l)
  end.

Definition run (o : op) (m : PendingMap.t) : CResult (answer * PendingMap.t) :=
  match o with
  | Insert p => m ← PendingMap.commit_insert p m; Ok (Inserted, m)
  | Remove k => '(r, m) ← PendingMap.remove k m; Ok (Removed r, m)
  | Drain now limit => '(b, m) ← PendingMap.drain_expired_bounded now limit m; Ok (Expired b, m)
  end.

(** An insertion has passed its preflight, and deadlines do not run backwards. *)
Definition admissible (o : op) (l : list PendingProbe.t) : Prop :=
  match o with
  | Insert p => (wire_seq p ∉ seqs l) ∧ Forall (λ q, timeout_at q ≤ timeout_at p) l
  | Remove _ => True
  | Drain _ limit => 0 ≤ limit
  end.

Fixpoint specs (os : list op) (l : list PendingProbe.t) : list answer * list PendingProbe.t :=
  match os with
  | [] => ([], l)
  | o :: os => let '(a, l) := spec o l in let '(answers, l) := specs os l in (a :: answers, l)
  end.

Fixpoint runs (os : list op) (m : PendingMap.t) : CResult (list answer * PendingMap.t) :=
  match os with
  | [] => Ok ([], m)
  | o :: os => '(a, m) ← run o m; '(answers, m) ← runs os m; Ok (a :: answers, m)
  end.

Fixpoint all_admissible (os : list op) (l : list PendingProbe.t) : Prop :=
  match os with
  | [] => True
  | o :: os => admissible o l ∧ all_admissible os (spec o l).2
  end.

Lemma step_refines o l m :
  holds l m → by_deadline l → admissible o l →
  ∃ m', run o m = Ok ((spec o l).1, m') ∧ holds (spec o l).2 m' ∧ by_deadline (spec o l).2.
Proof.
  intros Hm Hs Ha. destruct o as [p|k|now limit]; cbn [run spec fst snd admissible] in *.
  - destruct Ha as [Hp Hl]. destruct (commit_insert_ok l m p) as (m' & -> & Hm' & _); [done..|].
    exists m'. split; [done|]. split; [done|]. by apply by_deadline_snoc.
  - destruct (remove_holds k l m Hm) as (m' & -> & Hm' & _). exists m'.
    split; [done|]. split; [done|]. by apply by_deadline_filter.
  - destruct (drain_holds now limit l m) as (m' & Hd & Hm' & _); [done..|].
    cbv zeta in Hd, Hm'. rewrite Hd. exists m'. split; [done|]. split; [done|].
    by apply by_deadline_drop.
Qed.

Lemma runs_refine os l m :
  holds l m → by_deadline l → all_admissible os l →
  ∃ m', runs os m = Ok ((specs os l).1, m') ∧ holds (specs os l).2 m'.
Proof.
  revert l m. induction os as [|o os IH]; intros l m Hm Hs Ha; [by exists m|].
  destruct Ha as [Ho Ha]. destruct (step_refines o l m Hm Hs Ho) as (m1 & Hr & Hm1 & Hs1).
  cbn [runs specs]. rewrite Hr. destruct (spec o l) as [a l1]. cbn [fst snd] in *.
  destruct (IH l1 m1 Hm1 Hs1 Ha) as (m2 & Hr2 & Hm2). exists m2. cbn. rewrite Hr2.
  by destruct (specs os l1).
Qed.
End Queue.

(** ** Retention of timed-out probes *)

(** What [TimedOutMap::insert] keeps. *)
Definition retained (capacity : Z) (p : PendingProbe.t) (l : list PendingProbe.t)
    : list PendingProbe.t :=
  if capacity =? 0 then l else (if len l =? capacity then tail l else l) ++ [p].

Lemma timed_out_insert_ok l m p :
  holds l (TimedOutMap.probes m) → wire_seq p ∉ seqs l → 
  Forall (λ q, timeout_at q ≤ timeout_at p) l → 0 ≤ PendingMap.max_capacity (TimedOutMap.probes m) →
  ∃ m', TimedOutMap.insert p m = Ok m' ∧
    holds (retained (PendingMap.max_capacity (TimedOutMap.probes m)) p l) (TimedOutMap.probes m') ∧
    PendingMap.max_capacity (TimedOutMap.probes m') = PendingMap.max_capacity (TimedOutMap.probes m).
Proof.
  intros Hm Hp Hs Hc. destruct m as [m]. cbn in *. unfold TimedOutMap.insert, retained. cbn.
  destruct (Z.eqb_spec (PendingMap.max_capacity m) 0) as [H0|H0]; [by eexists|].
  rewrite (holds_absent l m Hm), (holds_count l m Hm) by done. run.
  destruct (Z.eqb_spec (len l) (PendingMap.max_capacity m)) as [Hfull|_].
  - destruct l as [|q l]; [unfold len in Hfull; cbn in Hfull; lia|].
    rewrite (ho_first _ m Hm). cbn [head_or]. run.
    destruct (remove_ok [] q l m Hm) as (m1 & -> & Hm1 & Hc1). cbn.
    apply not_elem_of_cons in Hp as [_ Hp]. apply Forall_inv_tail in Hs.
    destruct (commit_insert_ok l m1 p) as (m2 & -> & Hm2 & Hc2); [done..|].
    cbn. eexists. split; [done|]. split; [done|]. cbn. congruence.
  - cbn. destruct (commit_insert_ok l m p) as (m1 & -> & Hm1 & Hc1); [done..|]. cbn. eauto.
Qed.

Lemma retained_le capacity p l : 0 ≤ capacity → len l ≤ capacity → len (retained capacity p l) ≤ capacity.
Proof.
  intros Hc Hl. unfold retained. destruct (Z.eqb_spec capacity 0); [done|].
  destruct (Z.eqb_spec (len l) capacity); destruct l; cbn [tail]; len_lia.
Qed.

(** ** Completed sequences *)
Record completed_ok (s : CompletedSet.t) : Prop := {
  co_set : CompletedSet.set s = list_to_set (CompletedSet.insertion_order s);
  co_nodup : NoDup (CompletedSet.insertion_order s);
  co_size : 0 < CompletedSet.max_capacity s →
    len (CompletedSet.insertion_order s) ≤ CompletedSet.max_capacity s;
}.

Lemma completed_new c : completed_ok (CompletedSet.new c).
Proof. split; [done|constructor|cbn; unfold len; cbn; lia]. Qed.

Lemma completed_size s :
  completed_ok s → Z.of_nat (size (CompletedSet.set s)) = len (CompletedSet.insertion_order s).
Proof. intros [-> Hn _]. by rewrite size_list_to_set. Qed.

Lemma completed_contains s k :
  completed_ok s → CompletedSet.contains k s = bool_decide (k ∈ CompletedSet.insertion_order s).
Proof.
  intros Hs. unfold CompletedSet.contains. rewrite (co_set s Hs).
  apply bool_decide_ext. by rewrite elem_of_list_to_set.
Qed.

(** The oldest entries make room: the queue is a sliding window. *)
Definition window (capacity : Z) (k : Z) (order : list Z) : list Z :=
  if bool_decide (k ∈ order) then order
  else (if capacity <=? len order then tail order else order) ++ [k].

Lemma completed_insert s k :
  completed_ok s →
  completed_ok (CompletedSet.insert k s) ∧
  CompletedSet.insertion_order (CompletedSet.insert k s)
  = window (CompletedSet.max_capacity s) k (CompletedSet.insertion_order s) ∧
  CompletedSet.max_capacity (CompletedSet.insert k s) = CompletedSet.max_capacity s.
Proof.
  intros Hs. unfold CompletedSet.insert, window. rewrite completed_contains by done.
  case_bool_decide as Hk; [done|]. rewrite completed_size by done.
  destruct Hs as [Hset Hn Hsz]. destruct s as [set order cap]. cbn in *. subst set.
  destruct (Z.leb_spec cap (len order)) as [Hfull|Hroom].
  - unfold CompletedSet.evict_oldest. cbn. destruct order as [|q order]; cbn.
    + split_and!; [|done..]. split; cbn; [set_solver|apply NoDup_singleton|].
      unfold len in *. cbn in *. lia.
    + rewrite bool_decide_true by set_solver. cbn.
      apply NoDup_cons in Hn as [Hq Hn]. apply not_elem_of_cons in Hk as [_ Hk].
      split_and!; [|done..]. split; cbn.
      * rewrite list_to_set_app_L. cbn.
        assert (q ∉@{gset Z} list_to_set order) by by rewrite elem_of_list_to_set.
        set_solver.
      * apply NoDup_app. split; [done|]. split; [set_solver|apply NoDup_singleton].
      * len_lia.
  - split_and!; [|done..]. split; cbn.
    + rewrite list_to_set_app_L. cbn. set_solver.
    + apply NoDup_app. split; [done|]. split; [set_solver|apply NoDup_singleton].
    + len_lia.
Qed.

Lemma completed_remove s k :
  completed_ok s →
  completed_ok (CompletedSet.remove k s).2 ∧
  CompletedSet.insertion_order (CompletedSet.remove k s).2
  = filter (λ q, q ≠ k) (CompletedSet.insertion_order s) ∧
  CompletedSet.max_capacity (CompletedSet.remove k s).2 = CompletedSet.max_capacity s.
Proof.
  intros Hs. unfold CompletedSet.remove. rewrite completed_contains by done.
  case_bool_decide as Hk; cbn.
  - split_and!; [|done..]. destruct Hs as [Hset Hn Hsz]. split; cbn.
    + rewrite Hset. apply set_eq. intros x.
      rewrite elem_of_difference, !elem_of_list_to_set, list_elem_of_filter. set_solver.
    + by apply NoDup_filter.
    + intros Hc. specialize (Hsz Hc). unfold len in *. pose proof (length_filter (λ q, q ≠ k)
        (CompletedSet.insertion_order s)). lia.
  - split_and!; [done| |done]. induction (CompletedSet.insertion_order s) as [|q l IH]; [done|].
    apply not_elem_of_cons in Hk as [H1 H2]. rewrite filter_cons_True by congruence.
    by rewrite <- IH.
Qed.

(** ** Properties *)

(** The pending map, a hash map threaded by a doubly linked list, behaves
    as a queue of probes in deadline order. Over any sequence of committed
    insertions, removals and bounded expiry drains it returns what the list
    specification returns, and none of its link assertions, [expect]s or the
    drain loop's bound can fail. *)
Theorem pending_map_refines_queue (capacity : Z) (os : list Queue.op) :
  Queue.all_admissible os [] →
  ∃ m, Queue.runs os (PendingMap.new capacity) = Ok ((Queue.specs os []).1, m) ∧
       holds (Queue.specs os []).2 m.
Proof. intros Ha. by apply Queue.runs_refine; [apply holds_new|constructor|]. Qed.

Definition example_probe (seq timeout : Z) : PendingProbe.t :=
  PendingProbe.mk seq (ClientTimestamp.mk 0 0) timeout 0 None.

Definition example_ops : list Queue.op :=
  [Queue.Insert (example_probe 7 40); Queue.Insert (example_probe 8 50);
   Queue.Insert (example_probe 9 50); Queue.Remove 8; Queue.Remove 8;
   Queue.Drain 50 1; Queue.Drain 50 1].

Lemma pending_map_refines_queue_witness :
  (Queue.specs example_ops []).1 =
    [Queue.Inserted; Queue.Inserted; Queue.Inserted; Queue.Removed (Some (example_probe 8 50));
     Queue.Removed None; Queue.Expired (ExpiredBatch.mk [example_probe 7 40] true);
     Queue.Expired (ExpiredBatch.mk [example_probe 9 50] false)] ∧
  ∃ m, Queue.runs example_ops (PendingMap.new 4) = Ok ((Queue.specs example_ops []).1, m) ∧
       holds (Queue.specs example_ops []).2 m.
Proof.
  split; [vm_compute; reflexivity|].
  apply (pending_map_refines_queue 4 example_ops).
  cbn [example_ops Queue.all_admissible Queue.admissible]. split_and!; (exact I || decide_now).
Defined.
