(* ===== verification/ClientEvent.v ===== *)
(** * irtt-client: the event stream

    Models the event types of [crates/irtt-client/src/event.rs]. *)

From S2P Require Import Prelude ClientBase ClientNegotiation.

Module SessionStarted.
Record t : Type := mk {
  remote : SocketAddr;
  token : Z;
  negotiation : NegotiationResult.t;
  at_ : ClientTimestamp.t;
}.
End SessionStarted.

Module NoTestCompleted.
Record t : Type := mk {
  remote : SocketAddr;
  negotiation : NegotiationResult.t;
  at_ : ClientTimestamp.t;
}.
End NoTestCompleted.

Inductive OpenOutcome : Type :=
  | OutcomeStarted (started : SessionStarted.t)
  | OutcomeNoTestCompleted (completed : NoTestCompleted.t).

Inductive WarningKind : Type := MalformedOrUnrelatedPacket | WrongToken | UntrackedReply.

(** [enum ClientEvent]; the fields of a reply that is measured are shared. *)
Module ClientEvent.
Inductive t : Type :=
  | SessionStarted (started : SessionStarted.t)
  | NoTestCompleted (completed : NoTestCompleted.t)
  | SessionClosed (remote : SocketAddr) (token : Z) (at_ : ClientTimestamp.t)
  | EchoSent (seq : Z) (remote : SocketAddr) (scheduled_at : option Z)
      (sent_at : ClientTimestamp.t) (bytes send_call : Z) (timer_error : option Z)
  | EchoReply (seq : Z) (remote : SocketAddr) (sent_at received_at : ClientTimestamp.t)
      (rtt : RttSample.t) (server_timing : option ServerTiming.t)
      (one_way : option OneWayDelaySample.t) (received_stats : option ReceivedStatsSample.t)
      (bytes : Z) (packet_meta : PacketMeta.t)
  | EchoLoss (seq : Z) (sent_at : ClientTimestamp.t) (timeout_at : Z)
  | DuplicateReply (seq : Z) (remote : SocketAddr) (received_at : ClientTimestamp.t) (bytes : Z)
  | LateReply (seq highest_seen : Z) (remote : SocketAddr) (sent_at : option ClientTimestamp.t)
      (received_at : ClientTimestamp.t) (rtt : option RttSample.t)
      (server_timing : option ServerTiming.t) (one_way : option OneWayDelaySample.t)
      (received_stats : option ReceivedStatsSample.t) (bytes : Z) (packet_meta : PacketMeta.t)
  | Warning (kind : WarningKind) (message : string) (at_ : ClientTimestamp.t).
End ClientEvent.
