(* ===== verification/Timing.v ===== *)
(** * irtt-client: measurements

    Models the measurement functions of
    [crates/irtt-client/src/session/machine.rs]: sequence ordering, round-trip
    time, server processing time and one-way delays. *)

From S2P Require Import Prelude ProtoBase ParamsCodec Layout EchoCodec ClientBase.

(** ** Wire sequence order *)
Definition sequence_is_after (candidate current : Z) : bool :=
  negb (candidate =? current) && (wrap_u 32 (candidate - current) <? 2 ^ 31).

Definition sequence_is_before (candidate current : Z) : bool := sequence_is_after current candidate.

Definition update_highest_received (highest_received_seq : option Z) (wire_seq : Z) : option Z :=
  Some (match highest_received_seq with
        | None => wire_seq
        | Some h => if sequence_is_after wire_seq h then wire_seq else h
        end).

(** ** Round trip *)

(** [i64::checked_sub]. *)
Definition checked_sub (a b : Z) : option Z := try_i64 (a - b).

Definition duration_ns_i128 (duration : Z) : Z :=
  match try_i128 duration with Some ns => ns | None => I128_MAX end.

Definition compute_server_processing (ts : TimestampFields.t) : option Z :=
  match TimestampFields.recv_mono ts, TimestampFields.send_mono ts with
  | Some recv_mono, Some send_mono => diff ← checked_sub send_mono recv_mono; try_u64 diff
  | _, _ =>
      match TimestampFields.recv_wall ts, TimestampFields.send_wall ts with
      | Some recv_wall, Some send_wall => diff ← checked_sub send_wall recv_wall; try_u64 diff
      | _, _ => None
      end
  end.

Definition compute_rtt (sent_at received_at : ClientTimestamp.t) (ts : TimestampFields.t)
    : RttSample.t :=
  let raw :=
    match duration_since (ClientTimestamp.mono received_at) (ClientTimestamp.mono sent_at) with
    | Some d => d | None => 0 end in
  let server_processing := compute_server_processing ts in
  let adjusted :=
    (λ sp, SignedDuration.from_nanos (duration_ns_i128 raw - duration_ns_i128 sp))
      <$> server_processing in
  let effective :=
    match adjusted with Some a => a | None => SignedDuration.from_duration raw end in
  RttSample.mk raw adjusted effective.

Definition build_server_timing (ts : TimestampFields.t) : option ServerTiming.t :=
  match ts with
  | TimestampFields.mk None None None None None None => None
  | TimestampFields.mk recv_wall recv_mono midpoint_wall midpoint_mono send_wall send_mono =>
      Some (ServerTiming.mk recv_wall recv_mono send_wall send_mono midpoint_wall midpoint_mono
              (compute_server_processing ts))
  end.

(** ** One way *)
Definition preferred_send_wall (tx_not_before_wall sent_at_wall : Z)
    (kernel_tx_timestamp : option Z) (received_at : Z) : Z :=
  match kernel_tx_timestamp with
  | Some kernel_tx =>
      if (tx_not_before_wall <=? kernel_tx) && (kernel_tx <=? received_at) then kernel_tx
      else sent_at_wall
  | None => sent_at_wall
  end.

Definition unix_epoch_ns_i64 (time : Z) : option Z := duration_since time 0 ≫= try_i64.

(** [Option::or] and [Option::zip]. *)
Definition or_else {A} (a b : option A) : option A := match a with Some _ => a | None => b end.
Definition zip {A B} (a : option A) (b : option B) : option (A * B) :=
  x ← a; y ← b; Some (x, y).

Definition compute_one_way (sent_at : ClientTimestamp.t) (tx_not_before_wall : Z)
    (received_at : ClientTimestamp.t) (kernel_tx_timestamp : option Z) (meta : ReceiveMeta.t)
    (ts : TimestampFields.t) : option OneWayDelaySample.t :=
  let server_recv_wall := or_else (TimestampFields.recv_wall ts) (TimestampFields.midpoint_wall ts) in
  let server_send_wall := or_else (TimestampFields.send_wall ts) (TimestampFields.midpoint_wall ts) in
  let client_send_wall :=
    preferred_send_wall tx_not_before_wall (ClientTimestamp.wall sent_at) kernel_tx_timestamp
      (ClientTimestamp.wall received_at) in
  let client_send_ns := unix_epoch_ns_i64 client_send_wall in
  let client_recv_ns :=
    unix_epoch_ns_i64 (ReceiveMeta.preferred_receive_wall meta (ClientTimestamp.wall received_at)) in
  let c2s := SignedDuration.from_nanos <$>
    ('(srv, cli) ← zip server_recv_wall client_send_ns; checked_sub srv cli) in
  let s2c := SignedDuration.from_nanos <$>
    ('(cli, srv) ← zip client_recv_ns server_send_wall; checked_sub cli srv) in
  match c2s, s2c with
  | None, None => None
  | _, _ => Some (OneWayDelaySample.mk c2s s2c)
  end.

Definition build_received_stats (reply : EchoReply.t) : option ReceivedStatsSample.t :=
  match EchoReply.recv_count reply, EchoReply.recv_window reply with
  | None, None => None
  | count, window => Some (ReceivedStatsSample.mk count window)
  end.

(** ** Lemmas *)

Lemma wrap_sub n m : wrap_u 32 (wrap_u 32 n - wrap_u 32 m) = (n - m) mod 2 ^ 32.
Proof. unfold wrap_u. by rewrite Zminus_mod_idemp_l, Zminus_mod_idemp_r. Qed.

Lemma wrap_eq n m : -2 ^ 31 ≤ n - m < 2 ^ 31 → wrap_u 32 n = wrap_u 32 m → n = m.
Proof.
  intros Hd Heq. assert ((n - m) mod 2 ^ 32 = 0) as H0.
  { rewrite <- wrap_sub, Heq, Z.sub_diag. done. }
  apply Z.mod_divide in H0 as [k Hk]; lia.
Qed.

Lemma unix_epoch_ns_ok t : 0 ≤ t ≤ I64_MAX → unix_epoch_ns_i64 t = Some t.
Proof.
  intros Ht. unfold unix_epoch_ns_i64, duration_since. rewrite (proj2 (Z.leb_le _ _)) by lia.
  cbn. rewrite Z.sub_0_r. apply try_i64_Some. split; [done|]. unfold in_i, I64_MAX in *. lia.
Qed.

Lemma checked_sub_ok a b : 0 ≤ a ≤ I64_MAX → 0 ≤ b ≤ I64_MAX → checked_sub a b = Some (a - b).
Proof.
  intros Ha Hb. apply try_i64_Some. split; [done|]. unfold in_i, I64_MAX in *. lia.
Qed.

Lemma compute_rtt_raw sent_at received_at ts :
  RttSample.raw (compute_rtt sent_at received_at ts)
  = Z.max 0 (ClientTimestamp.mono received_at - ClientTimestamp.mono sent_at).
Proof.
  cbn. unfold duration_since.
  destruct (Z.leb_spec (ClientTimestamp.mono sent_at) (ClientTimestamp.mono received_at)); lia.
Qed.

(** ** Properties *)

(** Comparing wire sequences compares probes. For probe numbers [n] and [m]
    that are less than half the 32-bit space apart, the wrapped order on their
    wire sequences is the order of the numbers, across any number of
    wrap-arounds. *)
Theorem sequence_order_wraps (n m : Z) :
  -2 ^ 31 ≤ n - m < 2 ^ 31 →
  sequence_is_after (wrap_u 32 n) (wrap_u 32 m) = (m <? n) ∧
  update_highest_received (Some (wrap_u 32 m)) (wrap_u 32 n) = Some (wrap_u 32 (Z.max m n)).
Proof.
  intros Hd. assert (sequence_is_after (wrap_u 32 n) (wrap_u 32 m) = (m <? n)) as Ha.
  { unfold sequence_is_after. rewrite wrap_sub.
    destruct (Z.eqb_spec (wrap_u 32 n) (wrap_u 32 m)) as [Heq|Hne].
    - apply wrap_eq in Heq as ->; [|done]. by rewrite Z.ltb_irrefl.
    - assert (n ≠ m) by by intros ->. cbn [negb andb]. destruct (Z.ltb_spec m n).
      + rewrite Z.mod_small by lia. apply Z.ltb_lt. lia.
      + rewrite <- (Z_mod_plus_full _ 1), Z.mod_small by lia. apply Z.ltb_ge. lia. }
  split; [done|]. unfold update_highest_received. rewrite Ha.
  destruct (Z.ltb_spec m n); do 2 f_equal; lia.
Qed.

Lemma sequence_order_wraps_witness :
  sequence_is_after (wrap_u 32 (2 ^ 32 + 1)) (wrap_u 32 (2 ^ 32 - 1)) = true.
Proof.
  pose proof (sequence_order_wraps (2 ^ 32 + 1) (2 ^ 32 - 1) ltac:(lia)) as [H _].
  rewrite H. reflexivity.
Defined.

(** What a measured reply reports. The raw round trip is the monotonic time
    between the two client samples, never negative; the effective one subtracts
    the server's processing time when the server reported a usable pair, and may
    be negative. When the reply carries the server's wall clock, both one-way
    delays are present, and each is the plain difference between a server time
    and a client time: the send time is the kernel's only if it lies between the
    pre-send sample and the reception, the receive time is the kernel's only if
    it is at most a second older than the userspace sample. *)
Theorem measurement_endpoints sent received tx_not_before kernel_tx meta ts sr ss :
  TimestampFields.recv_wall ts = Some sr → TimestampFields.send_wall ts = Some ss →
  0 ≤ sr ≤ I64_MAX → 0 ≤ ss ≤ I64_MAX → 0 ≤ tx_not_before →
  0 ≤ ClientTimestamp.wall sent ≤ I64_MAX →
  MAX_KERNEL_RX_LAG ≤ ClientTimestamp.wall received ≤ I64_MAX →
  duration_ok (Z.max 0 (ClientTimestamp.mono received - ClientTimestamp.mono sent)) →
  (∃ cs cr,
    (cs = ClientTimestamp.wall sent ∨
     kernel_tx = Some cs ∧ tx_not_before ≤ cs ≤ ClientTimestamp.wall received) ∧
    (cr = ClientTimestamp.wall received ∨
     ReceiveMeta.kernel_rx_timestamp meta = Some cr ∧
     ClientTimestamp.wall received - MAX_KERNEL_RX_LAG ≤ cr ≤ ClientTimestamp.wall received) ∧
    compute_one_way sent tx_not_before received kernel_tx meta ts
    = Some (OneWayDelaySample.mk (Some (SignedDuration.mk (sr - cs)))
                                 (Some (SignedDuration.mk (cr - ss))))) ∧
  (let raw := Z.max 0 (ClientTimestamp.mono received - ClientTimestamp.mono sent) in
   RttSample.raw (compute_rtt sent received ts) = raw ∧
   RttSample.effective (compute_rtt sent received ts)
   = SignedDuration.mk (raw - match compute_server_processing ts with Some sp => sp | None => 0 end)).
Proof.
  intros Hsr Hss Br Bs Bt Bw Bv Bd. split.
  - unfold compute_one_way. rewrite Hsr, Hss. cbn [or_else].
    set (cs := preferred_send_wall _ _ _ _). set (cr := ReceiveMeta.preferred_receive_wall _ _).
    assert (cs = ClientTimestamp.wall sent ∨
      kernel_tx = Some cs ∧ tx_not_before ≤ cs ≤ ClientTimestamp.wall received) as Hcs.
    { unfold preferred_send_wall in cs. destruct kernel_tx as [k|]; [|by left].
      destruct (Z.leb_spec tx_not_before k); cbn [andb] in cs; [|by left].
      destruct (Z.leb_spec k (ClientTimestamp.wall received)); [|by left]. by right. }
    assert (cr = ClientTimestamp.wall received ∨ ReceiveMeta.kernel_rx_timestamp meta = Some cr ∧
      ClientTimestamp.wall received - MAX_KERNEL_RX_LAG ≤ cr ≤ ClientTimestamp.wall received) as Hcr.
    { unfold ReceiveMeta.preferred_receive_wall, duration_since in cr.
      destruct (ReceiveMeta.kernel_rx_timestamp meta) as [k|]; [|by left].
      destruct (Z.leb_spec k (ClientTimestamp.wall received)); [|by left].
      destruct (Z.leb_spec (ClientTimestamp.wall received - k) MAX_KERNEL_RX_LAG); [|by left].
      right. split; [done|]. subst cr. lia. }
    clearbody cs cr. assert (0 ≤ MAX_KERNEL_RX_LAG) by done.
    assert (0 ≤ cs ≤ I64_MAX) by (destruct Hcs as [|[_ ?]]; lia).
    assert (0 ≤ cr ≤ I64_MAX) by (destruct Hcr as [|[_ ?]]; lia).
    exists cs, cr. split; [done|]. split; [done|].
    rewrite !unix_epoch_ns_ok by done. cbn. by rewrite !checked_sub_ok.
  - cbv zeta. rewrite compute_rtt_raw. split; [done|]. unfold compute_rtt.
    cbn [RttSample.effective].
    replace (match duration_since _ _ with Some d => d | None => 0 end)
      with (Z.max 0 (ClientTimestamp.mono received - ClientTimestamp.mono sent))
      by (symmetry; exact (compute_rtt_raw sent received ts)).
    destruct (compute_server_processing ts) as [sp|] eqn:Hsp; cbn.
    + unfold SignedDuration.from_nanos, duration_ns_i128, try_i128, duration_ok, DURATION_MAX,
        U64_MAX in *.
      assert (in_u 64 sp) as Hu.
      { unfold compute_server_processing in Hsp. repeat case_match; try done;
          apply bind_Some in Hsp as (d & _ & Hd); by apply try_u64_Some in Hd as [-> ?]. }
      unfold in_u in Hu. rewrite !decide_True by (unfold in_i; lia). done.
    + rewrite signed_from_duration by done. by rewrite Z.sub_0_r.
Qed.

Definition wall_stamps (recv send : Z) : TimestampFields.t :=
  TimestampFields.mk (Some recv) None None None (Some send) None.

Lemma measurement_endpoints_witness :
  let sent := ClientTimestamp.mk (from_secs 100) (from_secs 5) in
  let received := ClientTimestamp.mk (from_secs 103) (from_secs 8) in
  let ts := wall_stamps (from_secs 101) (from_secs 102) in
  RttSample.effective (compute_rtt sent received ts) = SignedDuration.mk (from_secs 2).
Proof.
  intros sent received ts.
  pose proof (measurement_endpoints sent received (from_secs 99) None (ReceiveMeta.mk None None) ts
    (from_secs 101) (from_secs 102) eq_refl eq_refl ltac:(decide_now) ltac:(decide_now)
    ltac:(decide_now) ltac:(decide_now) ltac:(decide_now)
    ltac:(unfold duration_ok; decide_now)) as [_ [_ H]].
  rewrite H. vm_compute. reflexivity.
Defined.
