(* ===== verification/Machine.v ===== *)
(** * irtt-client: the session machine

    Models [SessionMachine] of [crates/irtt-client/src/session/machine.rs]: the
    open exchange, sending, receiving, timeouts and closing, without I/O. A
    mutating method returns the next machine with its result; on an error the
    machine is the one it was given, as every [?] precedes the first mutation. *)

From S2P Require Import Prelude ProtoBase Envelope ParamsCodec Layout OpenCodec RequestCodec.
From S2P Require Import EchoCodec ClientBase ClientNegotiation Probe ClientEvent Timing.

Definition MAX_OPEN_PACKET_SIZE : Z := 512.
Definition MIN_RECV_BUFFER_SIZE : Z := 2048.

(** ** Requests *)

Definition invalid_config {A} (reason : string) : CResult A :=
  Err (ClientError.InvalidConfig reason).

Definition config_duration_to_ns (field : string) (duration : Z) : CResult Z :=
  match try_i64 duration with
  | Some ns => Ok ns
  | None => invalid_config (field +:+ " is too large to encode as nanoseconds")
  end.

Definition validate_request (request : SessionRequest.t) : CResult unit :=
  if bool_decide (SessionRequest.duration request = Some 0)
  then invalid_config "duration must be greater than zero; use None for continuous mode"
  else if SessionRequest.interval request =? 0
  then invalid_config "interval must be greater than zero"
  else if bool_decide (SessionRequest.clock request = Clock.Unspecified)
  then invalid_config "clock must be wall, monotonic, or both"
  else if MAX_DSCP_CODEPOINT <? SessionRequest.dscp request
  then invalid_config ("dscp must be <= " +:+ pretty MAX_DSCP_CODEPOINT)
  else if MAX_UDP_PAYLOAD_LENGTH <? SessionRequest.length request
  then invalid_config ("packet length must be <= " +:+ pretty MAX_UDP_PAYLOAD_LENGTH)
  else
    match SessionRequest.server_fill request with
    | Some fill =>
        if len fill =? 0 then invalid_config "server_fill must not be empty"
        else if MAX_SERVER_FILL_BYTES <? len fill
        then invalid_config ("server_fill must be <= " +:+ pretty MAX_SERVER_FILL_BYTES +:+
               " bytes, got " +:+ pretty (len fill))
        else Ok tt
    | None => Ok tt
    end.

Definition params_from_request (request : SessionRequest.t) : CResult Params.t :=
  _ ← validate_request request;
  duration_ns ←
    (match SessionRequest.duration request with
     | Some duration => config_duration_to_ns "duration" duration
     | None => Ok 0
     end);
  interval_ns ← config_duration_to_ns "interval" (SessionRequest.interval request);
  dscp ← dscp_codepoint_to_traffic_class (SessionRequest.dscp request);
  Ok (Params.mk PROTOCOL_VERSION duration_ns interval_ns (SessionRequest.length request)
        (SessionRequest.received_stats request) (SessionRequest.stamp_at request)
        (SessionRequest.clock request) dscp (mk_ServerFill <$> SessionRequest.server_fill request)).

(** ** State *)

Module ActiveSession.
Record t : Type := mk {
  token : Z;
  negotiated : NegotiationResult.t;
  local_close_packet : bytes;
  next_wire_seq : Z;
  highest_received_seq : option Z;
  packets_sent : Z;
  pending : PendingMap.t;
  timed_out : TimedOutMap.t;
  completed : CompletedSet.t;
  kernel_tx_correlation_valid : bool;
}.

Definition set_highest v (s : t) : t :=
  mk (token s) (negotiated s) (local_close_packet s) (next_wire_seq s) v (packets_sent s) (pending s)
    (timed_out s) (completed s) (kernel_tx_correlation_valid s).
Definition set_counters next sent (s : t) : t :=
  mk (token s) (negotiated s) (local_close_packet s) next (highest_received_seq s) sent (pending s)
    (timed_out s) (completed s) (kernel_tx_correlation_valid s).
Definition set_pending v (s : t) : t :=
  mk (token s) (negotiated s) (local_close_packet s) (next_wire_seq s) (highest_received_seq s)
    (packets_sent s) v (timed_out s) (completed s) (kernel_tx_correlation_valid s).
Definition set_timed_out v (s : t) : t :=
  mk (token s) (negotiated s) (local_close_packet s) (next_wire_seq s) (highest_received_seq s)
    (packets_sent s) (pending s) v (completed s) (kernel_tx_correlation_valid s).
Definition set_completed v (s : t) : t :=
  mk (token s) (negotiated s) (local_close_packet s) (next_wire_seq s) (highest_received_seq s)
    (packets_sent s) (pending s) (timed_out s) v (kernel_tx_correlation_valid s).
Definition set_correlation v (s : t) : t :=
  mk (token s) (negotiated s) (local_close_packet s) (next_wire_seq s) (highest_received_seq s)
    (packets_sent s) (pending s) (timed_out s) (completed s) v.
End ActiveSession.
Import ActiveSession.

Inductive CloseSource : Type := CloseLocal | ClosePeer.

Inductive MachineState : Type :=
  | Connected
  | Open (session : ActiveSession.t)
  | StateNoTestCompleted
  | Closed (source : CloseSource) (packets_sent : Z).

Module SessionMachine.
Record t : Type := mk {
  config : ClientConfig.t;
  remote : SocketAddr;
  requested : Params.t;
  state : MachineState;
}.
Definition set_state (v : MachineState) (m : t) : t := mk (config m) (remote m) (requested m) v.
End SessionMachine.
Import SessionMachine.

Inductive OpenDatagramDisposition : Type := Ignore | Trusted (reply : OpenReply.t).

Module PreparedOpenAcceptance.
Record t : Type := mk { next_state : MachineState; outcome : OpenOutcome }.

Definition normal_negotiated (self : t) : option NegotiationResult.t :=
  match next_state self with Open session => Some (negotiated session) | _ => None end.

Definition cleanup_close_packet (self : t) : option bytes :=
  match next_state self with Open session => Some (local_close_packet session) | _ => None end.
End PreparedOpenAcceptance.

Module CloseCommit.
Record t : Type := mk { packets_sent : Z; token : Z }.
End CloseCommit.
Module PreparedClose.
Record t : Type := mk { bytes_of : bytes; commit : CloseCommit.t }.
End PreparedClose.

Module OpenAcceptanceFailure.
Record t : Type := mk { primary : ClientError.t; cleanup_close : option bytes }.
Definition without_cleanup (primary : ClientError.t) : t := mk primary None.
End OpenAcceptanceFailure.

Module PreparedProbe.
Record t : Type := mk { bytes_of : bytes; seq : Z }.
End PreparedProbe.
Module ProbeCommitPreflight.
Record t : Type := mk { seq : Z; next_wire_seq : Z; next_packets_sent : Z }.
End ProbeCommitPreflight.
Module ProbeCommit.
Record t : Type := mk {
  wire_seq : Z;
  timeout_at : Z;
  tx_not_before_wall : Z;
  next_wire_seq : Z;
  next_packets_sent : Z;
}.
End ProbeCommit.
Module ProbeSent.
Record t : Type := mk { seq : Z; sent_at : ClientTimestamp.t; bytes_sent : Z }.
End ProbeSent.
Module TimeoutBatch.
Record t : Type := mk { events : list ClientEvent.t; more_due : bool }.
End TimeoutBatch.

(** [{:#x}] of a [u64]. *)
Definition hex_digit (d : Z) : Ascii.ascii :=
  Ascii.ascii_of_N (Z.to_N (if d <? 10 then d + 48 else d + 87)).
Fixpoint hex_digits (fuel : nat) (z : Z) (rest : string) : string :=
  match fuel with
  | O => rest
  | S fuel =>
      let rest := String (hex_digit (z mod 16)) rest in
      if z / 16 =? 0 then rest else hex_digits fuel (z / 16) rest
  end.
Definition hex (z : Z) : string := "0x" +:+ hex_digits 16 z "".

Section machine.
Context `{Clocks} `{Target} `{!HmacMd5}.
Implicit Types self : SessionMachine.t.

Definition validate_config (config : ClientConfig.t) : CResult unit :=
  if ClientConfig.max_pending_probes config =? 0
  then invalid_config "max_pending_probes must be greater than zero"
  else if ClientConfig.probe_timeout config =? 0
  then invalid_config "probe_timeout must be greater than zero"
  else _ ← params_from_request (ClientConfig.request config); Ok tt.

Definition new (config : ClientConfig.t) (remote : SocketAddr) : CResult SessionMachine.t :=
  _ ← validate_config config;
  requested ← params_from_request (ClientConfig.request config);
  Ok (SessionMachine.mk config remote requested Connected).

Definition key (self : SessionMachine.t) : option bytes := hmac_key (ClientConfig.auth (config self)).
Definition has_hmac (self : SessionMachine.t) : bool := Envelope.is_some (key self).

Definition open_session (self : SessionMachine.t) : CResult ActiveSession.t :=
  match state self with
  | Open session => Ok session
  | Closed _ _ => Err ClientError.AlreadyClosed
  | Connected => Err ClientError.NotOpen
  | StateNoTestCompleted => Err ClientError.AlreadyCompleted
  end.

Definition ensure_connected (self : SessionMachine.t) : CResult unit :=
  match state self with
  | Connected => Ok tt
  | Open _ => Err ClientError.AlreadyOpen
  | Closed _ _ => Err ClientError.AlreadyClosed
  | StateNoTestCompleted => Err ClientError.AlreadyCompleted
  end.

(** [expect] on a method of the machine: its error would be a panic. *)
Definition must {A} (r : CResult A) : CResult A := match r with Err _ => Panic | other => other end.

(** The [From<ProtoError>] conversion of [?]. *)
Definition protocol {A} (r : PResult A) : CResult A := map_err ClientError.Protocol r.

(** ** Opening *)

Definition prepare_open_request (self : SessionMachine.t) : CResult bytes :=
  _ ← ensure_connected self;
  protocol (encode_request
    (EncOpen (requested self)
       (match SessionRequest.run_mode (ClientConfig.request (config self)) with
        | NoTest => true | NormalMode => false end)) (key self)).

Definition inspect_open_datagram (packet : bytes) (self : SessionMachine.t)
    : CResult OpenDatagramDisposition :=
  _ ← ensure_connected self;
  match decode_open_reply packet (key self) with
  | Ok reply => Ok (Trusted reply)
  | Err ((ProtoBase.ZeroToken | TruncatedVarint | VarintOverflow | InvalidUtf8 | InvalidEnum _ _
         | ParameterLengthTooLarge _ _ | MalformedParams) as error) =>
      Err (ClientError.Protocol error)
  | Err _ => Ok Ignore
  | Panic => Panic
  end.

Definition prepare_normal_open (reply : OpenReply.t) (now : ClientTimestamp.t)
    (cleanup_close : option bytes) (self : SessionMachine.t)
    : Result OpenAcceptanceFailure.t PreparedOpenAcceptance.t :=
  negotiated ← map_err (λ primary, OpenAcceptanceFailure.mk primary cleanup_close)
    (negotiate_params (requested self) (OpenReply.params reply)
       (OpenPolicy.negotiation (ClientConfig.open (config self))));
  local_close_packet ← expect cleanup_close;
  let capacity := ClientConfig.max_pending_probes (config self) in
  Ok (PreparedOpenAcceptance.mk
        (Open (ActiveSession.mk (OpenReply.token reply) negotiated local_close_packet 0 None 0
                 (PendingMap.new capacity) (TimedOutMap.new capacity) (CompletedSet.new capacity) true))
        (OutcomeStarted (SessionStarted.mk (remote self) (OpenReply.token reply) negotiated now))).

Definition prepare_no_test_open (reply : OpenReply.t) (now : ClientTimestamp.t)
    (self : SessionMachine.t) : Result OpenAcceptanceFailure.t PreparedOpenAcceptance.t :=
  negotiated ← map_err OpenAcceptanceFailure.without_cleanup
    (negotiate_params (requested self) (OpenReply.params reply)
       (OpenPolicy.negotiation (ClientConfig.open (config self))));
  Ok (PreparedOpenAcceptance.mk StateNoTestCompleted
        (OutcomeNoTestCompleted (NoTestCompleted.mk (remote self) negotiated now))).

Definition prepare_open_acceptance (reply : OpenReply.t) (now : ClientTimestamp.t)
    (self : SessionMachine.t) : Result OpenAcceptanceFailure.t PreparedOpenAcceptance.t :=
  _ ← map_err OpenAcceptanceFailure.without_cleanup (ensure_connected self);
  let reply_is_close := has (OpenReply.flags reply) FLAG_CLOSE in
  cleanup_close ←
    (if negb reply_is_close && negb (OpenReply.token reply =? 0)
     then
       bytes ← map_err OpenAcceptanceFailure.without_cleanup
         (protocol (encode_request (EncClose (OpenReply.token reply)) (key self)));
       Ok (Some bytes)
     else Ok None);
  if bool_decide (Params.protocol_version (OpenReply.params reply) ≠ PROTOCOL_VERSION)
  then Err (OpenAcceptanceFailure.mk (ClientError.ProtocolVersionMismatch PROTOCOL_VERSION
              (Params.protocol_version (OpenReply.params reply))) cleanup_close)
  else
    match SessionRequest.run_mode (ClientConfig.request (config self)) with
    | NormalMode =>
        if reply_is_close
        then Err (OpenAcceptanceFailure.mk ClientError.ServerRejected cleanup_close)
        else if OpenReply.token reply =? 0
        then Err (OpenAcceptanceFailure.mk ClientError.ZeroToken cleanup_close)
        else prepare_normal_open reply now cleanup_close self
    | NoTest =>
        if negb reply_is_close
        then Err (OpenAcceptanceFailure.mk ClientError.UnexpectedNoTestReply cleanup_close)
        else if negb (OpenReply.token reply =? 0)
        then Err (OpenAcceptanceFailure.mk (ClientError.NonZeroNoTestToken (OpenReply.token reply))
                    cleanup_close)
        else prepare_no_test_open reply now self
    end.

Definition commit_open (prepared : PreparedOpenAcceptance.t) (self : SessionMachine.t)
    : CResult (OpenOutcome * SessionMachine.t) :=
  _ ← debug_assert (match state self with Connected => true | _ => false end);
  Ok (PreparedOpenAcceptance.outcome prepared,
      set_state (PreparedOpenAcceptance.next_state prepared) self).

(** ** Sending *)

Definition prepare_probe (self : SessionMachine.t) : CResult PreparedProbe.t :=
  session ← open_session self;
  bytes ← protocol (encode_request
    (EncEcho (token session) (next_wire_seq session)
       (NegotiationResult.peer_params (negotiated session)) []) (key self));
  Ok (PreparedProbe.mk bytes (next_wire_seq session)).

Definition preflight_probe_commit (room : bool) (prepared : PreparedProbe.t)
    (self : SessionMachine.t) : CResult ProbeCommitPreflight.t :=
  session ← open_session self;
  if bool_decide (PreparedProbe.seq prepared ≠ next_wire_seq session)
  then Err (ClientError.StalePreparedProbe (PreparedProbe.seq prepared) (next_wire_seq session))
  else
    _ ← PendingMap.preflight_insert room (PreparedProbe.seq prepared) (pending session);
    next_packets_sent ← ok_or (try_u64 (packets_sent session + 1))
      (ClientError.CounterOverflow "packets_sent");
    Ok (ProbeCommitPreflight.mk (PreparedProbe.seq prepared)
          (wrap_u 32 (PreparedProbe.seq prepared + 1)) next_packets_sent).

Definition finalize_probe_commit (preflight : ProbeCommitPreflight.t)
    (send_anchor : ClientTimestamp.t) (self : SessionMachine.t) : CResult ProbeCommit.t :=
  timeout_at ← ok_or (instant_checked_add (ClientTimestamp.mono send_anchor)
                        (ClientConfig.probe_timeout (config self))) ClientError.DurationOverflow;
  Ok (ProbeCommit.mk (ProbeCommitPreflight.seq preflight) timeout_at
        (ClientTimestamp.wall send_anchor) (ProbeCommitPreflight.next_wire_seq preflight)
        (ProbeCommitPreflight.next_packets_sent preflight)).

Definition commit_probe_sent (commit : ProbeCommit.t) (sent_at : ClientTimestamp.t) (bytes : Z)
    (self : SessionMachine.t) : CResult (ProbeSent.t * SessionMachine.t) :=
  match state self with
  | Open session =>
      let seq := ProbeCommit.wire_seq commit in
      let probe := PendingProbe.mk seq sent_at (ProbeCommit.timeout_at commit)
                     (ProbeCommit.tx_not_before_wall commit) None in
      '(_, timed_out) ← TimedOutMap.remove seq (timed_out session);
      let '(_, completed) := CompletedSet.remove seq (completed session) in
      pending ← PendingMap.commit_insert probe (pending session);
      let session := set_pending pending (set_completed completed (set_timed_out timed_out session)) in
      let session := set_counters (ProbeCommit.next_wire_seq commit)
                       (ProbeCommit.next_packets_sent commit) session in
      Ok (ProbeSent.mk seq sent_at bytes, set_state (Open session) self)
  | _ => Panic
  end.

Definition invalidate_kernel_tx_correlation (self : SessionMachine.t) : SessionMachine.t :=
  match state self with
  | Open session => set_state (Open (set_correlation false session)) self
  | _ => self
  end.

(** [Option::get_or_insert] on the probe's timestamp. *)
Definition attach (timestamp : Z) (probe : PendingProbe.t) : PendingProbe.t :=
  match PendingProbe.kernel_tx_timestamp probe with
  | Some _ => probe
  | None => PendingProbe.set_kernel_tx_timestamp (Some timestamp) probe
  end.

Definition record_kernel_tx_timestamp (wire_seq timestamp : Z) (self : SessionMachine.t)
    : SessionMachine.t :=
  match state self with
  | Open session =>
      if negb (kernel_tx_correlation_valid session) then self
      else
        match PendingMap.update wire_seq (attach timestamp) (pending session) with
        | Some pending => set_state (Open (set_pending pending session)) self
        | None =>
            match TimedOutMap.update wire_seq (attach timestamp) (timed_out session) with
            | Some timed_out => set_state (Open (set_timed_out timed_out session)) self
            | None => self
            end
        end
  | _ => self
  end.

(** ** Receiving *)

(** [.ok()] on the decoder's result. *)
Definition decode_received_packet (packet : bytes) (self : SessionMachine.t)
    : CResult (option EchoReply.t) :=
  session ← must (open_session self);
  match decode_echo_reply packet (NegotiationResult.peer_params (negotiated session)) (key self) with
  | Ok reply => Ok (Some reply)
  | Err _ => Ok None
  | Panic => Panic
  end.

(** The part of [process_echo_reply] that classifies a reply with the session's
    token: the events, and the session afterwards. *)
Definition classify_reply (remote : SocketAddr) (reply : EchoReply.t) (packet_len : Z)
    (now : ClientTimestamp.t) (meta : ReceiveMeta.t) (session : ActiveSession.t)
    : CResult (list ClientEvent.t * ActiveSession.t) :=
  let wire_seq := EchoReply.sequence reply in
  let ts := EchoReply.timestamps reply in
  let packet_meta := ReceiveMeta.to_packet_meta meta in
  let is_before :=
    match highest_received_seq session with
    | Some h => sequence_is_before wire_seq h
    | None => false
    end in
  let highest_seen :=
    match highest_received_seq session with Some h => h | None => wire_seq end in
  let highest := update_highest_received (highest_received_seq session) wire_seq in
  '(removed, pending) ← PendingMap.remove wire_seq (pending session);
  match removed with
  | Some probe =>
      let rtt := compute_rtt (PendingProbe.sent_at probe) now ts in
      let server_timing := build_server_timing ts in
      let one_way := compute_one_way (PendingProbe.sent_at probe)
        (PendingProbe.tx_not_before_wall probe) now (PendingProbe.kernel_tx_timestamp probe) meta ts in
      let received_stats := build_received_stats reply in
      let session := set_completed (CompletedSet.insert wire_seq (completed session))
        (set_highest highest (set_pending pending session)) in
      Ok ([if is_before
           then ClientEvent.LateReply wire_seq highest_seen remote (Some (PendingProbe.sent_at probe))
                  now (Some rtt) server_timing one_way received_stats packet_len packet_meta
           else ClientEvent.EchoReply wire_seq remote (PendingProbe.sent_at probe) now rtt
                  server_timing one_way received_stats packet_len packet_meta], session)
  | None =>
      if CompletedSet.contains wire_seq (completed session)
      then Ok ([ClientEvent.DuplicateReply wire_seq remote now packet_len],
               set_highest highest session)
      else
        '(removed, timed_out) ← TimedOutMap.remove wire_seq (timed_out session);
        match removed with
        | Some probe =>
            let rtt := compute_rtt (PendingProbe.sent_at probe) now ts in
            let one_way := compute_one_way (PendingProbe.sent_at probe)
              (PendingProbe.tx_not_before_wall probe) now (PendingProbe.kernel_tx_timestamp probe)
              meta ts in
            let session := set_completed (CompletedSet.insert wire_seq (completed session))
              (set_highest highest (set_timed_out timed_out session)) in
            Ok ([ClientEvent.LateReply wire_seq highest_seen remote
                   (Some (PendingProbe.sent_at probe)) now (Some rtt) (build_server_timing ts) one_way
                   (build_received_stats reply) packet_len packet_meta], session)
        | None =>
            if is_before
            then Ok ([ClientEvent.LateReply wire_seq highest_seen remote None now None
                        (build_server_timing ts) None (build_received_stats reply) packet_len
                        packet_meta], session)
            else Ok ([ClientEvent.Warning UntrackedReply
                        ("dropped reply with untracked seq " +:+ pretty wire_seq +:+
                         " (no pending or completed entry)") now], session)
        end
  end.

Definition packets_sent (self : SessionMachine.t) : Z :=
  match state self with
  | Open session => ActiveSession.packets_sent session
  | Closed _ packets_sent => packets_sent
  | Connected | StateNoTestCompleted => 0
  end.

Definition process_echo_reply (reply : EchoReply.t) (packet_len : Z) (now : ClientTimestamp.t)
    (meta : ReceiveMeta.t) (self : SessionMachine.t)
    : CResult (list ClientEvent.t * SessionMachine.t) :=
  session ← must (open_session self);
  let token := token session in
  if bool_decide (EchoReply.token reply ≠ token)
  then Ok ([ClientEvent.Warning WrongToken
              ("dropped reply with wrong token: expected " +:+ hex token +:+ ", got " +:+
               hex (EchoReply.token reply)) now], self)
  else
    let should_close := has (EchoReply.flags reply) FLAG_CLOSE in
    '(events, session) ← classify_reply (remote self) reply packet_len now meta session;
    let self := set_state (Open session) self in
    if should_close
    then Ok (events ++ [ClientEvent.SessionClosed (remote self) token now],
             set_state (Closed ClosePeer (packets_sent self)) self)
    else Ok (events, self).

Definition process_received_echo_packet (packet : bytes) (now : ClientTimestamp.t)
    (meta : ReceiveMeta.t) (self : SessionMachine.t)
    : CResult (list ClientEvent.t * SessionMachine.t) :=
  _ ← open_session self;
  reply ← decode_received_packet packet self;
  match reply with
  | None => Ok ([ClientEvent.Warning MalformedOrUnrelatedPacket
                   "dropped malformed or unrelated packet" now], self)
  | Some reply => process_echo_reply reply (len packet) now meta self
  end.

(** ** Timeouts *)

Definition loss_event (probe : PendingProbe.t) : ClientEvent.t :=
  ClientEvent.EchoLoss (PendingProbe.wire_seq probe) (PendingProbe.sent_at probe)
    (PendingProbe.timeout_at probe).

Fixpoint retain_expired (probes : list PendingProbe.t) (events : list ClientEvent.t)
    (timed_out : TimedOutMap.t) : CResult (list ClientEvent.t * TimedOutMap.t) :=
  match probes with
  | [] => Ok (events, timed_out)
  | probe :: rest =>
      let events := events ++ [loss_event probe] in
      timed_out ← TimedOutMap.insert probe timed_out;
      retain_expired rest events timed_out
  end.

Definition poll_timeouts_bounded_at (now limit : Z) (self : SessionMachine.t)
    : CResult (TimeoutBatch.t * SessionMachine.t) :=
  session ← open_session self;
  '(expired, pending) ← PendingMap.drain_expired_bounded now limit (pending session);
  '(events, timed_out) ← retain_expired (ExpiredBatch.probes expired) [] (timed_out session);
  Ok (TimeoutBatch.mk events (ExpiredBatch.more_due expired),
      set_state (Open (set_timed_out timed_out (set_pending pending session))) self).

Definition poll_timeouts_at (now : Z) (self : SessionMachine.t)
    : CResult (list ClientEvent.t * SessionMachine.t) :=
  '(batch, self) ← poll_timeouts_bounded_at now USIZE_MAX self;
  _ ← debug_assert (negb (TimeoutBatch.more_due batch));
  Ok (TimeoutBatch.events batch, self).

(** ** Closing *)

Definition prepare_close (self : SessionMachine.t) : CResult PreparedClose.t :=
  session ← open_session self;
  Ok (PreparedClose.mk (local_close_packet session)
        (CloseCommit.mk (ActiveSession.packets_sent session) (token session))).

Definition commit_local_close (commit : CloseCommit.t) (sent_at : ClientTimestamp.t)
    (self : SessionMachine.t) : CResult (ClientEvent.t * SessionMachine.t) :=
  _ ← debug_assert (match state self with Open _ => true | _ => false end);
  Ok (ClientEvent.SessionClosed (remote self) (CloseCommit.token commit) sent_at,
      set_state (Closed CloseLocal (CloseCommit.packets_sent commit)) self).

(** ** Observers *)

Definition negotiation (self : SessionMachine.t) : option NegotiationResult.t :=
  match state self with Open session => Some (negotiated session) | _ => None end.

Definition pending_is_empty (self : SessionMachine.t) : bool :=
  match state self with Open session => PendingMap.is_empty (pending session) | _ => true end.

Definition is_peer_closed (self : SessionMachine.t) : bool :=
  match state self with Closed ClosePeer _ => true | _ => false end.

Definition next_probe_timeout_deadline (self : SessionMachine.t) : option Z :=
  match state self with
  | Open session => PendingMap.next_timeout_deadline (pending session)
  | _ => None
  end.

Definition latest_probe_timeout_deadline (self : SessionMachine.t) : option Z :=
  match state self with
  | Open session =>
      match PendingMap.latest_timeout_deadline (pending session),
            TimedOutMap.latest_timeout_deadline (timed_out session) with
      | Some a, Some b => Some (Z.max a b)
      | Some a, None => Some a
      | None, o => o
      end
  | _ => None
  end.

Definition ensure_open (self : SessionMachine.t) : CResult unit := _ ← open_session self; Ok tt.

Definition recv_buffer_size (has_hmac : bool) (negotiated : option NegotiationResult.t)
    : CResult Z :=
  match negotiated with
  | Some negotiated =>
      length ← protocol (echo_packet_len has_hmac (NegotiationResult.peer_params negotiated));
      Ok (Z.max (Z.min (length + 1) USIZE_MAX) MIN_RECV_BUFFER_SIZE)
  | None => Ok MIN_RECV_BUFFER_SIZE
  end.
End machine.
