(* ===== verification/MachineInv.v ===== *)
(** * irtt-client: the invariant of the session machine

    Which probes a session tracks, as lists, and that every operation of
    [Machine] keeps the lists disjoint, bounded and in deadline order. *)

From stdpp Require Import sorting.
From S2P Require Import Prelude ProtoBase Envelope ParamsCodec Layout OpenCodec RequestCodec.
From S2P Require Import EchoCodec ClientBase ClientNegotiation Probe ClientEvent Timing Machine.
Import ActiveSession PendingProbe.

(** ** Configuration *)

(** The values the Rust types of the configuration allow. *)
Record request_types_ok (r : SessionRequest.t) : Prop := {
  rt_duration : ∀ d, SessionRequest.duration r = Some d → duration_ok d;
  rt_interval : duration_ok (SessionRequest.interval r);
  rt_length : in_u 32 (SessionRequest.length r);
  rt_dscp : in_u 8 (SessionRequest.dscp r);
  rt_fill : ∀ f, SessionRequest.server_fill r = Some f → string_ok f;
}.

Record config_ok `{Target} (c : ClientConfig.t) : Prop := {
  cc_request : request_types_ok (ClientConfig.request c);
  cc_timeout : duration_ok (ClientConfig.probe_timeout c);
  cc_pending : 0 ≤ ClientConfig.max_pending_probes c ≤ USIZE_MAX;
}.

Lemma config_duration_ok field d ns :
  config_duration_to_ns field d = Ok ns → ns = d ∧ in_i 64 d.
Proof.
  unfold config_duration_to_ns, try_i64, invalid_config. case_decide; [|done]. by intros [= <-].
Qed.

(** What a client asks for is within the domain its own negotiation assumes. *)
(** Validation never panics. *)
Lemma params_from_request_no_panic r : no_panic (params_from_request r).
Proof.
  unfold params_from_request, config_duration_to_ns, invalid_config.
  apply no_panic_bind; [unfold validate_request, invalid_config; repeat case_match; done|]. intros _ _.
  apply no_panic_bind; [repeat case_match; done|]. intros ? _.
  apply no_panic_bind; [by destruct (try_i64 _)|]. intros ? _.
  apply no_panic_bind; [unfold dscp_codepoint_to_traffic_class; by repeat case_match|done].
Qed.
Lemma open_policy_no_panic policy : no_panic (OpenPolicy.validate policy).
Proof.
  unfold OpenPolicy.validate. destruct (OpenPolicy.timeouts _) as [|x l]; [done|]. generalize (x :: l).
  intros k. induction k as [|y k IH]; [done|]. cbn. by destruct (_ <? _).
Qed.

Lemma params_from_request_ok r p :
  request_types_ok r → params_from_request r = Ok p → requested_ok p ∧ params_ok p.
Proof.
  intros Hr (u & Hv & Hp)%bind_ok. unfold validate_request, invalid_config in Hv.
  case_bool_decide as Hd0; [done|].
  destruct (Z.eqb_spec (SessionRequest.interval r) 0) as [|Hi0]; [done|].
  case_bool_decide; [done|].
  destruct (Z.ltb_spec MAX_DSCP_CODEPOINT (SessionRequest.dscp r)) as [|Hds]; [done|].
  destruct (Z.ltb_spec MAX_UDP_PAYLOAD_LENGTH (SessionRequest.length r)) as [|Hlen]; [done|].
  apply bind_ok in Hp as (dur & Hdur & Hp). apply bind_ok in Hp as (int & Hint & Hp).
  apply bind_ok in Hp as (tc & Htc & <-%Ok_inj).
  apply config_duration_ok in Hint as [-> Hint].
  unfold dscp_codepoint_to_traffic_class in Htc. rewrite (proj2 (Z.ltb_ge _ _)) in Htc by done.
  apply Ok_inj in Htc as <-. rewrite Z.shiftl_mul_pow2 by lia. change (2 ^ 2) with 4.
  destruct Hr as [Rd Ri Rl Rs Rf]. unfold in_u, in_i, duration_ok in *.
  assert (0 ≤ dur ≤ I64_MAX) as Hdr.
  { unfold I64_MAX. destruct (SessionRequest.duration r) as [d|] eqn:Hd.
    - apply config_duration_ok in Hdur as [-> Hdur]. unfold in_i in Hdur.
      specialize (Rd d eq_refl). lia.
    - apply Ok_inj in Hdur as <-. lia. }
  unfold MAX_DSCP_CODEPOINT, MAX_UDP_PAYLOAD_LENGTH, I64_MAX in *.
  split; split; unfold in_i, I64_MAX, MAX_UDP_PAYLOAD_LENGTH; cbn; try lia; try done.
  destruct (SessionRequest.server_fill r) as [f|] eqn:Hf; [|done]. cbn.
  destruct (len f =? 0); [done|].
  destruct (Z.ltb_spec MAX_SERVER_FILL_BYTES (len f)); [done|]. split; [done|]. by apply Rf.
Qed.

(** ** The tracked probes *)

Definition tracked (P T : list PendingProbe.t) (C : list Z) : Prop := NoDup (seqs P ++ seqs T ++ C).

Lemma tracked_sublist P P' T T' C C' :
  tracked P T C → seqs P' `sublist_of` seqs P → seqs T' `sublist_of` seqs T → C' `sublist_of` C →
  tracked P' T' C'.
Proof.
  intros Hn HP HT HC. eapply sublist_NoDup; [exact Hn|].
  apply sublist_app; [done|]. by apply sublist_app.
Qed.

Lemma sublist_filter {A} (Q : A → Prop) `{∀ x, Decision (Q x)} l : filter Q l `sublist_of` l.
Proof.
  induction l as [|x l IH]; [done|]. rewrite filter_cons. case_decide.
  - by apply sublist_skip.
  - by apply sublist_cons.
Qed.

Lemma seqs_sublist l k : l `sublist_of` k → seqs l `sublist_of` seqs k.
Proof. induction 1; cbn; by constructor. Qed.

Lemma tracked_pending_fresh P T C : tracked P T C → NoDup (seqs P).
Proof. by intros [? _]%NoDup_app. Qed.

(** Moving a sequence that is nowhere else between the lists. *)
Lemma tracked_commit P T C p :
  tracked P T C → (wire_seq p ∉ seqs P) →
  tracked (P ++ [p]) (filter (λ q, wire_seq q ≠ wire_seq p) T) (filter (λ q, q ≠ wire_seq p) C).
Proof.
  intros Hn Hp. unfold tracked in *. rewrite seqs_app. cbn [seqs fmap list_fmap].
  rewrite <- app_assoc. cbn [app]. rewrite <- Permutation_middle. apply NoDup_cons.
  split; [|by eapply (tracked_sublist P P T _ C _ Hn); [|apply seqs_sublist, sublist_filter|
    apply sublist_filter]].
  rewrite !not_elem_of_app. split; [done|]. split.
  - intros (q & Hq & [Hne _]%list_elem_of_filter)%list_elem_of_fmap. by rewrite Hq in Hne.
  - by intros [? _]%list_elem_of_filter.
Qed.

Lemma window_sublist capacity k C : k ∉ C → window capacity k C `sublist_of` C ++ [k].
Proof.
  intros Hk. unfold window. rewrite bool_decide_false by done.
  apply sublist_app; [|done]. destruct (capacity <=? len C); [|done]. destruct C; [done|].
  by apply sublist_cons.
Qed.

Lemma tracked_complete_pending capacity l1 p l2 T C :
  tracked (l1 ++ p :: l2) T C → tracked (l1 ++ l2) T (window capacity (wire_seq p) C).
Proof.
  intros Hn. unfold tracked in *. rewrite !seqs_app in *. cbn [seqs fmap list_fmap] in Hn.
  assert (wire_seq p ∉ C) as Hk.
  { rewrite <- app_assoc in Hn. cbn in Hn. rewrite <- Permutation_middle in Hn.
    apply NoDup_cons in Hn as [Hn _]. set_solver. }
  eapply sublist_NoDup; [|apply sublist_app; [done|apply sublist_app;
    [done|by apply window_sublist]]].
  eapply NoDup_Permutation_proper; [|exact Hn]. solve_Permutation.
Qed.

Lemma tracked_complete_timed_out capacity l1 p l2 P C :
  tracked P (l1 ++ p :: l2) C → tracked P (l1 ++ l2) (window capacity (wire_seq p) C).
Proof.
  intros Hn. unfold tracked in *. rewrite !seqs_app in *. cbn [seqs fmap list_fmap] in Hn.
  assert (wire_seq p ∉ C) as Hk.
  { apply NoDup_app in Hn as (_ & _ & Hn). rewrite <- app_assoc in Hn. cbn in Hn.
    rewrite <- Permutation_middle in Hn. apply NoDup_cons in Hn as [Hn _]. set_solver. }
  eapply sublist_NoDup; [|apply sublist_app; [done|apply sublist_app;
    [done|by apply window_sublist]]].
  eapply NoDup_Permutation_proper; [|exact Hn]. solve_Permutation.
Qed.

(** ** Retaining expired probes *)

Definition retain_all (capacity : Z) (expired T : list PendingProbe.t) : list PendingProbe.t :=
  fold_left (λ T p, retained capacity p T) expired T.

Lemma retained_suffix capacity p T : 0 < capacity → retained capacity p T `suffix_of` T ++ [p].
Proof.
  intros Hc. unfold retained. rewrite (proj2 (Z.eqb_neq _ _)) by lia.
  destruct (len T =? capacity); [|done]. destruct T as [|q T]; [done|]. by exists [q].
Qed.

Lemma suffix_app_r {A} (l k m : list A) : l `suffix_of` k → l ++ m `suffix_of` k ++ m.
Proof. intros [x ->]. exists x. by rewrite app_assoc. Qed.

Lemma retain_all_suffix capacity D T : 0 < capacity → retain_all capacity D T `suffix_of` T ++ D.
Proof.
  intros Hc. unfold retain_all. revert T. induction D as [|p D IH]; intros T; cbn [fold_left].
  - by rewrite app_nil_r.
  - etrans; [apply IH|]. replace (T ++ p :: D) with ((T ++ [p]) ++ D) by by rewrite <- app_assoc.
    by apply suffix_app_r, retained_suffix.
Qed.

Lemma suffix_sublist {A} (l k : list A) : l `suffix_of` k → l `sublist_of` k.
Proof. intros [x ->]. by apply sublist_inserts_l. Qed.

Lemma by_deadline_suffix l k : l `suffix_of` k → by_deadline k → by_deadline l.
Proof. intros [x ->]. apply StronglySorted_app_1_r. Qed.

Lemma retain_all_le capacity D T :
  0 < capacity → len T ≤ capacity → len (retain_all capacity D T) ≤ capacity.
Proof.
  intros Hc. unfold retain_all. revert T. induction D as [|p D IH]; intros T HT; [done|].
  cbn [fold_left]. apply IH, retained_le; lia.
Qed.

Lemma sorted_before (l : list PendingProbe.t) p k :
  by_deadline (l ++ p :: k) → Forall (λ q, timeout_at q ≤ timeout_at p) l.
Proof.
  intros Hs. apply Forall_forall. intros q Hq.
  eapply (StronglySorted_app_1_elem_of _ _ _ q p) in Hs; [done|done|set_solver].
Qed.

Lemma retain_expired_ok D T m events :
  holds T (TimedOutMap.probes m) → NoDup (seqs (T ++ D)) → by_deadline (T ++ D) →
  0 < PendingMap.max_capacity (TimedOutMap.probes m) →
  ∃ m', let capacity := PendingMap.max_capacity (TimedOutMap.probes m) in
    retain_expired D events m = Ok (events ++ (loss_event <$> D), m') ∧
    holds (retain_all capacity D T) (TimedOutMap.probes m') ∧
    PendingMap.max_capacity (TimedOutMap.probes m') = capacity.
Proof.
  revert T m events. induction D as [|p D IH]; intros T m events Hm Hn Hs Hc.
  { exists m. cbn. by rewrite app_nil_r. }
  destruct (timed_out_insert_ok T m p Hm) as (m1 & Hi & Hm1 & Hc1).
  { by apply nodup_middle in Hn as (? & _ & _). }
  { by eapply sorted_before. }
  { lia. }
  assert (retained (PendingMap.max_capacity (TimedOutMap.probes m)) p T ++ D `suffix_of` T ++ p :: D)
    as Hsuf.
  { replace (T ++ p :: D) with ((T ++ [p]) ++ D) by by rewrite <- app_assoc.
    by apply suffix_app_r, retained_suffix. }
  destruct (IH _ m1 (events ++ [loss_event p]) Hm1) as (m2 & Hr & Hm2 & Hc2).
  { eapply sublist_NoDup; [exact Hn|]. by apply seqs_sublist, suffix_sublist. }
  { by eapply by_deadline_suffix. }
  { lia. }
  cbv zeta in *. exists m2. cbn [retain_expired]. cbv zeta. rewrite Hi. cbn [mbind Result_bind].
  rewrite Hr, <- app_assoc, Hc1 in *. split; [done|]. split; [done|]. by rewrite Hc2.
Qed.

(** ** The session invariant *)

(** [P] is pending, [T] retained after a timeout, [C] completed. [horizon]
    bounds every deadline. *)
Record tracks (capacity horizon : Z) (P T : list PendingProbe.t) (s : ActiveSession.t) : Prop := {
  tr_pending : holds P (pending s);
  tr_timed_out : holds T (TimedOutMap.probes (timed_out s));
  tr_completed : completed_ok (completed s);
  tr_disjoint : tracked P T (CompletedSet.insertion_order (completed s));
  tr_sorted : by_deadline (T ++ P);
  tr_horizon : Forall (λ p, timeout_at p ≤ horizon) (T ++ P);
  tr_pending_cap : PendingMap.max_capacity (pending s) = capacity ∧ len P ≤ capacity;
  tr_timed_cap : PendingMap.max_capacity (TimedOutMap.probes (timed_out s)) = capacity ∧
                 len T ≤ capacity;
  tr_completed_cap : CompletedSet.max_capacity (completed s) = capacity;
}.

(** Everything a session keeps besides its probes. *)
Record header_ok (requested : Params.t) (key : option bytes) `{Target} `{!HmacMd5}
    (s : ActiveSession.t) : Prop := {
  hd_token : token s ≠ 0 ∧ in_u 64 (token s);
  hd_params : acceptable requested (NegotiationResult.peer_params (negotiated s)) ∧
              params_ok (NegotiationResult.peer_params (negotiated s));
  hd_close : encode_request (EncClose (token s)) key = Ok (local_close_packet s);
  hd_sequence : next_wire_seq s = wrap_u 32 (ActiveSession.packets_sent s);
  hd_sent : in_u 64 (ActiveSession.packets_sent s);
}.

(** What an operation on probes leaves alone. *)
Record same_header (s s' : ActiveSession.t) : Prop := {
  sh_token : token s' = token s;
  sh_negotiated : negotiated s' = negotiated s;
  sh_close : local_close_packet s' = local_close_packet s;
  sh_next : next_wire_seq s' = next_wire_seq s;
  sh_sent : ActiveSession.packets_sent s' = ActiveSession.packets_sent s;
}.

Lemma header_same `{Target} `{!HmacMd5} requested key s s' :
  header_ok requested key s → same_header s s' → header_ok requested key s'.
Proof.
  intros [] [H1 H2 H3 H4 H5]. split; by rewrite ?H1, ?H2, ?H3, ?H4, ?H5.
Qed.

(** ** Classifying a reply *)

Inductive Classified : Type :=
  | FromPending (probe : PendingProbe.t)
  | Duplicate
  | FromTimedOut (probe : PendingProbe.t)
  | Stale
  | Untracked.

Definition find_seq (k : Z) (l : list PendingProbe.t) : option PendingProbe.t :=
  head (filter (λ p, wire_seq p = k) l).
Definition drop_seq (k : Z) (l : list PendingProbe.t) : list PendingProbe.t :=
  filter (λ p, wire_seq p ≠ k) l.

Definition before_highest (highest : option Z) (k : Z) : bool :=
  match highest with Some h => sequence_is_before k h | None => false end.

Definition classified (P T : list PendingProbe.t) (C : list Z) (highest : option Z) (k : Z)
    : Classified :=
  match find_seq k P with
  | Some p => FromPending p
  | None =>
      if bool_decide (k ∈ C) then Duplicate
      else match find_seq k T with
           | Some p => FromTimedOut p
           | None => if before_highest highest k then Stale else Untracked
           end
  end.

(** A reply is measured against the probe it resolves. *)
Definition measured (c : Classified) : option PendingProbe.t :=
  match c with FromPending p | FromTimedOut p => Some p | _ => None end.

Definition reply_event (remote : SocketAddr) (reply : EchoReply.t) (packet_len : Z)
    (now : ClientTimestamp.t) (meta : ReceiveMeta.t) (highest : option Z) (c : Classified)
    : ClientEvent.t :=
  let k := EchoReply.sequence reply in
  let ts := EchoReply.timestamps reply in
  let seen := default k highest in
  let one_way p := compute_one_way (sent_at p) (tx_not_before_wall p) now (kernel_tx_timestamp p)
                     meta ts in
  let late p := ClientEvent.LateReply k seen remote (sent_at <$> p) now
    ((λ p, compute_rtt (sent_at p) now ts) <$> p) (build_server_timing ts) (p ≫= one_way)
    (build_received_stats reply) packet_len (ReceiveMeta.to_packet_meta meta) in
  match c with
  | FromPending p =>
      if before_highest highest k then late (Some p)
      else ClientEvent.EchoReply k remote (sent_at p) now (compute_rtt (sent_at p) now ts)
             (build_server_timing ts) (one_way p) (build_received_stats reply) packet_len
             (ReceiveMeta.to_packet_meta meta)
  | Duplicate => ClientEvent.DuplicateReply k remote now packet_len
  | FromTimedOut p => late (Some p)
  | Stale => late None
  | Untracked =>
      ClientEvent.Warning UntrackedReply
        ("dropped reply with untracked seq " +:+ pretty k +:+
         " (no pending or completed entry)") now
  end.

Lemma find_seq_None k l : find_seq k l = None → k ∉ seqs l.
Proof.
  unfold find_seq. intros Hn Hk. apply list_elem_of_fmap in Hk as (p & -> & Hp).
  assert (p ∈ filter (λ q, wire_seq q = wire_seq p) l) as Hf by by apply list_elem_of_filter.
  destruct (filter _ l); [by apply not_elem_of_nil in Hf|done].
Qed.

Lemma find_seq_Some k l p :
  find_seq k l = Some p → ∃ l1 l2, l = l1 ++ p :: l2 ∧ wire_seq p = k.
Proof.
  unfold find_seq. intros Hp. assert (p ∈ filter (λ q, wire_seq q = k) l) as Hin.
  { destruct (filter _ l); [done|]. injection Hp as ->. set_solver. }
  apply list_elem_of_filter in Hin as [Hk Hin].
  apply list_elem_of_split in Hin as (l1 & l2 & ->). eauto.
Qed.

Lemma drop_seq_absent k l : k ∉ seqs l → drop_seq k l = l.
Proof. apply filter_seq_keep. Qed.

Lemma tracks_absent_timed_out capacity horizon P T s k :
  tracks capacity horizon P T s → k ∈ seqs P → k ∉ seqs T.
Proof.
  intros Ht Hk. pose proof (tr_disjoint _ _ _ _ _ Ht) as (_ & Hd & _)%NoDup_app. set_solver.
Qed.

(** The lists after the probe with sequence [k] is gone. *)
Lemma sorted_drop_seq k P T :
  by_deadline (T ++ P) → by_deadline (drop_seq k T ++ drop_seq k P).
Proof. intros Hs. unfold drop_seq. rewrite <- filter_app. by apply by_deadline_filter. Qed.

Lemma horizon_drop_seq k h P T :
  Forall (λ p, timeout_at p ≤ h) (T ++ P) →
  Forall (λ p, timeout_at p ≤ h) (drop_seq k T ++ drop_seq k P).
Proof.
  intros Hh. unfold drop_seq. rewrite <- filter_app.
  apply Forall_forall. intros q [_ Hq]%list_elem_of_filter. rewrite Forall_forall in Hh. by apply Hh.
Qed.

Lemma len_drop_seq k l : len (drop_seq k l) ≤ len l.
Proof. unfold len, drop_seq. pose proof (length_filter (λ p, wire_seq p ≠ k) l). lia. Qed.

(** The session after the probe with sequence [k] is gone from the lists, with
    [C'] completed. *)
Lemma tracks_drop capacity horizon P T s k s' :
  tracks capacity horizon P T s →
  holds (drop_seq k P) (pending s') → holds (drop_seq k T) (TimedOutMap.probes (timed_out s')) →
  PendingMap.max_capacity (pending s') = capacity →
  PendingMap.max_capacity (TimedOutMap.probes (timed_out s')) = capacity →
  completed_ok (completed s') → CompletedSet.max_capacity (completed s') = capacity →
  tracked (drop_seq k P) (drop_seq k T) (CompletedSet.insertion_order (completed s')) →
  tracks capacity horizon (drop_seq k P) (drop_seq k T) s'.
Proof.
  intros Ht HP HT Hcp Hct Hc Hcc Hd. pose proof (len_drop_seq k P). pose proof (len_drop_seq k T).
  destruct Ht as [_ _ _ _ Hs Hh [_ ?] [_ ?] _]. split; try done; try (split; [done|lia]).
  - by apply sorted_drop_seq.
  - by apply horizon_drop_seq.
Qed.

(** When nothing is removed the session only changes its highest sequence. *)
Lemma tracks_highest capacity horizon P T s v :
  tracks capacity horizon P T s → tracks capacity horizon P T (set_highest v s).
Proof. by intros []. Qed.

Lemma same_header_highest s v : same_header s (set_highest v s).
Proof. done. Qed.

Lemma tracked_window_pending capacity k P T C p :
  tracked P T C → find_seq k P = Some p →
  tracked (drop_seq k P) (drop_seq k T) (window capacity k C).
Proof.
  intros Hn (l1 & l2 & -> & <-)%find_seq_Some.
  assert (wire_seq p ∉ seqs T) as HT.
  { apply NoDup_app in Hn as (_ & Hd & _). rewrite seqs_app in Hd. set_solver. }
  rewrite (drop_seq_absent _ T) by done. unfold drop_seq.
  destruct (filter_seq_middle l1 p l2) as [_ ->]; [by eapply tracked_pending_fresh|].
  by apply tracked_complete_pending.
Qed.

Lemma tracked_window_timed_out capacity k P T C p :
  tracked P T C → find_seq k P = None → find_seq k T = Some p →
  tracked (drop_seq k P) (drop_seq k T) (window capacity k C).
Proof.
  intros Hn HP%find_seq_None (l1 & l2 & -> & <-)%find_seq_Some.
  rewrite (drop_seq_absent _ P) by done. unfold drop_seq.
  destruct (filter_seq_middle l1 p l2) as [_ ->].
  - apply NoDup_app in Hn as (_ & _ & Hn). by apply NoDup_app in Hn as [? _].
  - by apply tracked_complete_timed_out.
Qed.

Lemma classify_reply_ok capacity horizon P T s remote reply plen now meta :
  tracks capacity horizon P T s → 0 < capacity →
  ∃ s', let k := EchoReply.sequence reply in
        let C := CompletedSet.insertion_order (completed s) in
        let c := classified P T C (highest_received_seq s) k in
    classify_reply remote reply plen now meta s
    = Ok ([reply_event remote reply plen now meta (highest_received_seq s) c], s') ∧
    tracks capacity horizon (drop_seq k P) (drop_seq k T) s' ∧ same_header s s' ∧
    CompletedSet.insertion_order (completed s')
    = match measured c with Some _ => window capacity k C | None => C end ∧
    highest_received_seq s'
    = match c with
      | Stale | Untracked => highest_received_seq s
      | _ => update_highest_received (highest_received_seq s) k
      end.
Proof.
  intros Ht Hcap. cbv zeta. set (k := EchoReply.sequence reply).
  unfold classify_reply. fold k. cbv zeta.
  destruct (remove_holds k P (pending s) (tr_pending _ _ _ _ _ Ht)) as (mp & -> & Hmp & Hcp).
  fold (find_seq k P) (drop_seq k P) in *. cbn [mbind Result_bind].
  unfold classified.
  pose proof (tr_disjoint _ _ _ _ _ Ht) as Hd.
  pose proof (tr_completed _ _ _ _ _ Ht) as Hc.
  pose proof (tr_completed_cap _ _ _ _ _ Ht) as Hcc.
  destruct (completed_insert (completed s) k Hc) as (Hci & Hco & Hcx). rewrite Hcc in Hco.
  destruct (tr_pending_cap _ _ _ _ _ Ht) as [HcapP _].
  destruct (tr_timed_cap _ _ _ _ _ Ht) as [HcapT _].
  destruct (find_seq k P) as [p|] eqn:Hp; cbn [measured reply_event].
  { eexists. split; [reflexivity|]. split; [|done].
    assert (k ∉ seqs T) as HkT.
    { apply find_seq_Some in Hp as (l1 & l2 & -> & <-). eapply tracks_absent_timed_out; [done|].
      rewrite seqs_app. set_solver. }
    eapply tracks_drop; [exact Ht|cbn..]; try congruence; try done.
    - rewrite drop_seq_absent by done. apply Ht.
    - rewrite Hco. by eapply tracked_window_pending. }
  rewrite (drop_seq_absent k P) by by apply find_seq_None.
  rewrite completed_contains by done.
  case_bool_decide as HkC.
  { assert (k ∉ seqs T) as HkT.
    { apply NoDup_app in Hd as (_ & _ & Hd). apply NoDup_app in Hd as (_ & Hd & _). set_solver. }
    eexists. split; [reflexivity|]. rewrite drop_seq_absent by done.
    split; [by apply tracks_highest|]. done. }
  unfold TimedOutMap.remove.
  destruct (remove_holds k T _ (tr_timed_out _ _ _ _ _ Ht)) as (mt & -> & Hmt & Hct).
  fold (find_seq k T) (drop_seq k T) in *. cbn [mbind Result_bind].
  destruct (find_seq k T) as [p|] eqn:HpT; cbn [measured].
  - eexists. split; [reflexivity|]. split; [|done].
    rewrite <- (drop_seq_absent k P) by by apply find_seq_None.
    eapply tracks_drop; [exact Ht|cbn..]; try congruence; try done.
    + rewrite drop_seq_absent by by apply find_seq_None. apply Ht.
    + rewrite Hco. by eapply tracked_window_timed_out.
  - rewrite drop_seq_absent by by apply find_seq_None.
    fold (before_highest (highest_received_seq s) k).
    destruct (before_highest (highest_received_seq s) k); cbn [measured];
      (eexists; split; [reflexivity|done]).
Qed.

(** ** Committing a probe *)
Lemma commit_session_ok capacity horizon P T s p next sent :
  tracks capacity horizon P T s → (wire_seq p ∉ seqs P) → len P < capacity →
  horizon ≤ timeout_at p →
  ∃ mt mp, TimedOutMap.remove (wire_seq p) (timed_out s) = Ok (find_seq (wire_seq p) T, mt) ∧
    PendingMap.commit_insert p (pending s) = Ok mp ∧
    let s' := set_counters next sent
      (set_pending mp (set_completed (CompletedSet.remove (wire_seq p) (completed s)).2
                         (set_timed_out mt s))) in
    tracks capacity (timeout_at p) (P ++ [p]) (drop_seq (wire_seq p) T) s'.
Proof.
  intros Ht Hp Hl Hh. set (k := wire_seq p).
  unfold TimedOutMap.remove.
  destruct (remove_holds k T _ (tr_timed_out _ _ _ _ _ Ht)) as (mt & -> & Hmt & Hct).
  fold (find_seq k T) (drop_seq k T) in *. cbn [mbind Result_bind].
  pose proof (tr_horizon _ _ _ _ _ Ht) as [HhT HhP]%Forall_app.
  assert (∀ l, Forall (λ q, timeout_at q ≤ horizon) l →
    Forall (λ q, timeout_at q ≤ timeout_at p) l) as Hlift.
  { intros l Hl'. eapply Forall_impl; [exact Hl'|]. cbn. intros q ?. lia. }
  destruct (commit_insert_ok P (pending s) p (tr_pending _ _ _ _ _ Ht) Hp (Hlift _ HhP))
    as (mp & -> & Hmp & Hcp).
  exists (TimedOutMap.mk mt), mp. split; [done|]. split; [done|]. cbv zeta.
  destruct (completed_remove (completed s) k (tr_completed _ _ _ _ _ Ht)) as (Hci & Hco & Hcx).
  pose proof (tr_sorted _ _ _ _ _ Ht) as Hs. apply (by_deadline_filter (λ q, wire_seq q ≠ k)) in Hs as Hs'.
  assert (drop_seq k P = P) as HkP by by apply drop_seq_absent.
  rewrite filter_app in Hs'. fold (drop_seq k T) (drop_seq k P) in Hs'. rewrite HkP in Hs'.
  assert (Forall (λ q, timeout_at q ≤ timeout_at p) (drop_seq k T ++ P)) as Hall.
  { rewrite <- HkP. apply horizon_drop_seq. apply Forall_app. auto. }
  pose proof (len_drop_seq k T).
  destruct Ht as [_ _ _ Hd _ _ [HcapP ?] [HcapT ?] Hcc].
  split; cbn; try congruence; try done.
  - rewrite Hco. by apply tracked_commit.
  - rewrite app_assoc. by apply by_deadline_snoc.
  - rewrite app_assoc. apply Forall_app. split; [done|]. by apply Forall_singleton.
  - split; [congruence|]. len_lia.
  - split; [congruence|lia].
Qed.

(** ** Expiring probes *)

Lemma tracked_expire D R T C : tracked (D ++ R) T C → tracked R (T ++ D) C.
Proof.
  unfold tracked. rewrite !seqs_app. intros Hn.
  eapply NoDup_Permutation_proper; [|exact Hn]. solve_Permutation.
Qed.

Lemma expire_session_ok capacity horizon P T s now limit :
  tracks capacity horizon P T s → 0 < capacity → 0 ≤ limit →
  ∃ mp mt, let ready := filter (λ p, timeout_at p ≤ now) P in
    let D := take (Z.to_nat limit) ready in
    let R := drop (Z.to_nat limit `min` length ready) P in
    PendingMap.drain_expired_bounded now limit (pending s)
    = Ok (ExpiredBatch.mk D (limit <? len ready), mp) ∧
    retain_expired D [] (timed_out s) = Ok (loss_event <$> D, mt) ∧ P = D ++ R ∧
    tracks capacity horizon R (retain_all capacity D T) (set_timed_out mt (set_pending mp s)).
Proof.
  intros Ht Hcap Hlim. pose proof (tr_sorted _ _ _ _ _ Ht) as Hs.
  assert (by_deadline P) as HsP by (by eapply StronglySorted_app_1_r).
  destruct (drain_holds now limit P _ (tr_pending _ _ _ _ _ Ht) HsP Hlim) as (mp & Hd & Hmp & Hcp).
  cbv zeta in *. set (ready := filter _ P) in *. set (D := take (Z.to_nat limit) ready) in *.
  set (R := drop (Z.to_nat limit `min` length ready) P) in *.
  assert (P = D ++ R) as HP.
  { subst D R. assert (ready `prefix_of` P) as [rest Hrest].
    { subst ready. rewrite <- due_sorted by done. apply due_prefix. }
    clearbody ready. rewrite Hrest at 1. rewrite Hrest.
    rewrite <- (take_drop (Z.to_nat limit) ready) at 1. rewrite <- app_assoc. f_equal.
    rewrite drop_app. f_equal.
    - destruct (decide (Z.to_nat limit ≤ length ready)%nat).
      + by rewrite Nat.min_l.
      + rewrite !drop_ge; [done|lia..].
    - replace (_ - _)%nat with 0%nat by lia. done. }
  destruct (retain_expired_ok D T (timed_out s) [] (tr_timed_out _ _ _ _ _ Ht)) as (mt & Hr & Hmt & Hct);
    clearbody D R.
  - pose proof (tr_disjoint _ _ _ _ _ Ht) as Hn. rewrite HP in Hn.
    apply (tracked_expire D R) in Hn. by apply NoDup_app in Hn as (_ & _ & [? _]%NoDup_app).
  - rewrite HP, app_assoc in Hs. by eapply StronglySorted_app_1_l.
  - rewrite (proj1 (tr_timed_cap _ _ _ _ _ Ht)). done.
  - cbv zeta in *. rewrite (proj1 (tr_timed_cap _ _ _ _ _ Ht)) in *.
    exists mp, mt. do 3 (split; [done|]).
    assert (retain_all capacity D T ++ R `suffix_of` T ++ P) as Hsuf.
    { rewrite HP, app_assoc. by apply suffix_app_r, retain_all_suffix. }
    destruct Ht as [_ _ Hc Hn _ Hh [HcapP HlP] [_ HlT] Hcc]. subst P.
    split; cbn; try congruence; try done.
    + eapply tracked_sublist; [by apply (tracked_expire D R T)|done| |done].
      by apply seqs_sublist, suffix_sublist, retain_all_suffix.
    + by eapply by_deadline_suffix.
    + destruct Hsuf as [x Hx]. rewrite Hx in Hh. by apply Forall_app in Hh as [_ ?].
    + split; [congruence|]. len_lia.
    + split; [congruence|]. by apply retain_all_le.
Qed.

(** ** Attaching a kernel timestamp *)

(** Two lists of probes that differ only in their kernel timestamps. *)
Definition same_probe (p q : PendingProbe.t) : Prop :=
  wire_seq q = wire_seq p ∧ sent_at q = sent_at p ∧ timeout_at q = timeout_at p ∧
  tx_not_before_wall q = tx_not_before_wall p.

Lemma attach_same ts p : same_probe p (attach ts p).
Proof. unfold attach. by destruct (kernel_tx_timestamp p). Qed.

Definition attach_in (ts k : Z) (l : list PendingProbe.t) : list PendingProbe.t :=
  (λ p, if decide (wire_seq p = k) then attach ts p else p) <$> l.

Lemma attach_in_absent ts k l : k ∉ seqs l → attach_in ts k l = l.
Proof.
  induction l as [|p l IH]; [done|]. intros [Hk Hl]%not_elem_of_cons. cbn.
  rewrite decide_False by congruence. f_equal. by apply IH.
Qed.

Lemma attach_in_middle ts l1 p l2 :
  NoDup (seqs (l1 ++ p :: l2)) →
  attach_in ts (wire_seq p) (l1 ++ p :: l2) = l1 ++ attach ts p :: l2.
Proof.
  intros (Hp1 & Hp2 & _)%nodup_middle. unfold attach_in. rewrite fmap_app. cbn.
  rewrite decide_True by done. fold (attach_in ts (wire_seq p) l1) (attach_in ts (wire_seq p) l2).
  by rewrite !attach_in_absent.
Qed.

Lemma attach_in_seqs ts k l : seqs (attach_in ts k l) = seqs l.
Proof.
  unfold seqs, attach_in. rewrite <- list_fmap_compose. apply list_fmap_ext. intros i p _. cbn.
  case_decide; [apply (attach_same ts p)|done].
Qed.

Lemma attach_in_timeouts ts k l : timeout_at <$> attach_in ts k l = timeout_at <$> l.
Proof.
  unfold attach_in. rewrite <- list_fmap_compose. apply list_fmap_ext. intros i p _. cbn.
  case_decide; [apply (attach_same ts p)|done].
Qed.

Lemma update_holds ts k l m :
  holds l m →
  match PendingMap.update k (attach ts) m with
  | Some m' => k ∈ seqs l ∧ holds (attach_in ts k l) m' ∧
               PendingMap.max_capacity m' = PendingMap.max_capacity m
  | None => k ∉ seqs l
  end.
Proof.
  intros Hm. destruct (decide (k ∈ seqs l)) as [Hk|Hk].
  - pose proof Hk as Hk'. apply list_elem_of_fmap in Hk as (p & -> & Hp).
    apply list_elem_of_split in Hp as (l1 & l2 & ->).
    destruct (update_ok l1 p l2 m (attach ts) Hm) as (m' & -> & Hm' & Hc); [apply attach_same|].
    rewrite attach_in_middle by apply Hm. done.
  - by rewrite (update_absent l).
Qed.

(** Deadline order and the horizon only look at the deadlines. *)
Lemma by_deadline_timeouts l : by_deadline l ↔ StronglySorted Z.le (timeout_at <$> l).
Proof.
  unfold by_deadline. induction l as [|p l IH]; [split; constructor|]. cbn.
  rewrite !StronglySorted_cons, Forall_fmap, IH. done.
Qed.

Lemma tracks_same_probes capacity horizon P T s P' T' s' :
  tracks capacity horizon P T s →
  seqs P' = seqs P → seqs T' = seqs T →
  timeout_at <$> P' = timeout_at <$> P → timeout_at <$> T' = timeout_at <$> T →
  holds P' (pending s') → holds T' (TimedOutMap.probes (timed_out s')) →
  PendingMap.max_capacity (pending s') = capacity →
  PendingMap.max_capacity (TimedOutMap.probes (timed_out s')) = capacity →
  completed s' = completed s → tracks capacity horizon P' T' s'.
Proof.
  intros Ht HsP HsT HtP HtT HP HT HcP HcT Hc.
  assert (∀ l l' : list PendingProbe.t, seqs l' = seqs l → len l' = len l) as Hlen.
  { intros l l' Heq%(f_equal length). unfold seqs in Heq. rewrite !length_fmap in Heq.
    unfold len. lia. }
  pose proof (Hlen _ _ HsP). pose proof (Hlen _ _ HsT).
  destruct Ht as [_ _ Hco Hn Hs Hh [_ ?] [_ ?] Hcc]. split; try done; try (split; [done|lia]).
  - by rewrite Hc.
  - unfold tracked. by rewrite Hc, HsP, HsT.
  - apply by_deadline_timeouts. rewrite fmap_app, HtP, HtT, <- fmap_app.
    by apply by_deadline_timeouts.
  - assert (∀ l, Forall (λ p, timeout_at p ≤ horizon) l ↔
      Forall (λ d, d ≤ horizon) (timeout_at <$> l)) as Hf by (intros l; by rewrite Forall_fmap).
    rewrite Hf, fmap_app, HtP, HtT, <- fmap_app. by apply Hf.
  - by rewrite Hc.
Qed.

Lemma attach_in_same ts k l : Forall2 same_probe l (attach_in ts k l).
Proof.
  unfold attach_in. apply Forall2_fmap_r, Forall_Forall2_diag, Forall_true. intros p. cbn.
  case_decide; [apply attach_same|done].
Qed.

(** ** The machine invariant *)
Section machine.
Context `{Clocks} `{Target} `{!HmacMd5}.
Implicit Types m : SessionMachine.t.

Definition capacity_of m : Z := ClientConfig.max_pending_probes (SessionMachine.config m).

Definition session_ok (horizon : Z) m (s : ActiveSession.t) : Prop :=
  header_ok (SessionMachine.requested m) (key m) s ∧
  ∃ P T, tracks (capacity_of m) horizon P T s.

Record machine_ok (horizon : Z) m : Prop := {
  mo_config : config_ok (SessionMachine.config m);
  mo_valid : validate_config (SessionMachine.config m) = Ok tt;
  mo_requested :
    params_from_request (ClientConfig.request (SessionMachine.config m))
    = Ok (SessionMachine.requested m);
  mo_state :
    match SessionMachine.state m with
    | Open s => session_ok horizon m s
    | Closed _ sent => in_u 64 sent
    | _ => True
    end;
}.

Lemma capacity_pos h m : machine_ok h m → 0 < capacity_of m ≤ USIZE_MAX.
Proof.
  intros [[_ _ Hc] Hv _ _]. unfold capacity_of. unfold validate_config, invalid_config in Hv.
  destruct (Z.eqb_spec (ClientConfig.max_pending_probes (SessionMachine.config m)) 0); [done|]. lia.
Qed.

Lemma timeout_pos h m :
  machine_ok h m → 0 < ClientConfig.probe_timeout (SessionMachine.config m).
Proof.
  intros [[_ Ht _] Hv _ _]. unfold validate_config, invalid_config in Hv. unfold duration_ok in Ht.
  destruct (ClientConfig.max_pending_probes _ =? 0); [done|].
  destruct (Z.eqb_spec (ClientConfig.probe_timeout (SessionMachine.config m)) 0); [done|]. lia.
Qed.

Lemma machine_requested h m :
  machine_ok h m →
  requested_ok (SessionMachine.requested m) ∧ params_ok (SessionMachine.requested m).
Proof. intros [[Hr _ _] _ Hp _]. by eapply params_from_request_ok. Qed.

Lemma machine_set_state h h' m st :
  machine_ok h m →
  match st with
  | Open s => session_ok h' m s | Closed _ sent => in_u 64 sent | _ => True end →
  machine_ok h' (SessionMachine.set_state st m).
Proof. intros [] Hst. by split. Qed.

Lemma new_ok config remote m h :
  config_ok config → new config remote = Ok m → machine_ok h m ∧ SessionMachine.state m = Connected.
Proof.
  intros Hc ([] & Hv & Hn)%bind_ok. apply bind_ok in Hn as (p & Hp & <-%Ok_inj). by split.
Qed.

(** The negotiated length is one a buffer can have. *)
Lemma acceptable_length req ret :
  requested_ok req → acceptable req ret → 0 ≤ Params.length ret ≤ MAX_UDP_PAYLOAD_LENGTH.
Proof. intros [_ _ _ Hl _] [_ _ _ Ha _ _]. lia. Qed.

Lemma udp_le_usize : MAX_UDP_PAYLOAD_LENGTH ≤ USIZE_MAX.
Proof. pose proof USIZE_MAX_lo. unfold MAX_UDP_PAYLOAD_LENGTH. lia. Qed.

(** Every probe of an open session can be encoded. *)
Lemma probe_encodable h m s sequence :
  machine_ok h m → header_ok (SessionMachine.requested m) (key m) s →
  encodable (EncEcho (token s) sequence (NegotiationResult.peer_params (negotiated s)) []) (key m).
Proof.
  intros Hm Hs. pose proof (machine_requested h m Hm) as [Hr _].
  destruct (hd_params _ _ _ Hs) as [Ha _]. pose proof (acceptable_length _ _ Hr Ha).
  pose proof udp_le_usize. split; [lia|]. rewrite len_nil. lia.
Qed.

(** ** The probes a machine tracks *)
Definition pending_of m : list PendingProbe.t :=
  match SessionMachine.state m with Open s => in_order (pending s) | _ => [] end.
Definition retained_of m : list PendingProbe.t :=
  match SessionMachine.state m with
  | Open s => in_order (TimedOutMap.probes (timed_out s)) | _ => [] end.
Definition completed_of m : list Z :=
  match SessionMachine.state m with
  | Open s => CompletedSet.insertion_order (completed s) | _ => [] end.

Lemma tracks_of h m s P T :
  SessionMachine.state m = Open s → tracks (capacity_of m) h P T s →
  pending_of m = P ∧ retained_of m = T.
Proof.
  intros Hst Ht. unfold pending_of, retained_of. rewrite Hst.
  split; apply holds_in_order; apply Ht.
Qed.

(** The invariant in terms of what the machine itself holds. *)
Lemma machine_tracks h m s :
  machine_ok h m → SessionMachine.state m = Open s →
  header_ok (SessionMachine.requested m) (key m) s ∧
  tracks (capacity_of m) h (pending_of m) (retained_of m) s.
Proof.
  intros Hm Hst. pose proof (mo_state h m Hm) as Hs. rewrite Hst in Hs.
  destruct Hs as (Hh & P & T & Ht). destruct (tracks_of h m s P T Hst Ht) as [-> ->]. done.
Qed.

(** ** Operations on an open session *)

Lemma prepare_probe_ok h m s :
  machine_ok h m → SessionMachine.state m = Open s → session_ok h m s →
  ∃ pkt, prepare_probe m = Ok (PreparedProbe.mk pkt (next_wire_seq s)) ∧
    encode_request (EncEcho (token s) (next_wire_seq s)
      (NegotiationResult.peer_params (negotiated s)) []) (key m) = Ok pkt.
Proof.
  intros Hm Hst [Hh _]. pose proof (probe_encodable h m s (next_wire_seq s) Hm Hh) as He.
  unfold prepare_probe, open_session. rewrite Hst. cbn [mbind Result_bind].
  rewrite (encode_request_ok _ _ He). eexists. split; [reflexivity|done].
Qed.

(** The three checks before a probe is sent, and what passing them gives. *)
Lemma preflight_ok h m s room pkt :
  machine_ok h m → SessionMachine.state m = Open s → session_ok h m s →
  ∀ P T, tracks (capacity_of m) h P T s →
  match preflight_probe_commit room (PreparedProbe.mk pkt (next_wire_seq s)) m with
  | Ok pf =>
      pf = ProbeCommitPreflight.mk (next_wire_seq s) (wrap_u 32 (next_wire_seq s + 1))
             (ActiveSession.packets_sent s + 1) ∧
      (next_wire_seq s ∉ seqs P) ∧ len P < capacity_of m ∧ in_u 64 (ActiveSession.packets_sent s + 1) ∧
      room = true
  | Err e =>
      (next_wire_seq s ∈ seqs P ∧ e = ClientError.PendingSequenceCollision (next_wire_seq s)) ∨
      (len P = capacity_of m ∧ e = ClientError.PendingLimitExceeded (capacity_of m)) ∨
      (room = false ∧ e = ClientError.AllocationFailed "pending probe storage") ∨
      (ActiveSession.packets_sent s = U64_MAX ∧ e = ClientError.CounterOverflow "packets_sent")
  | Panic => False
  end.
Proof.
  intros Hm Hst [Hh _] P T Ht. unfold preflight_probe_commit, open_session. rewrite Hst.
  cbn [mbind Result_bind PreparedProbe.seq]. rewrite bool_decide_false by auto.
  unfold PendingMap.preflight_insert.
  rewrite (holds_member P _ (tr_pending _ _ _ _ _ Ht)), negb_involutive.
  case_bool_decide as Hin; [by left|].
  destruct (tr_pending_cap _ _ _ _ _ Ht) as [-> HlP].
  rewrite (holds_count P _ (tr_pending _ _ _ _ _ Ht)).
  destruct (Z.leb_spec (capacity_of m) (len P)); [right; left; split; [lia|done]|].
  destruct room; cbn [negb mbind Result_bind]; [|by right; right; left].
  pose proof (hd_sent _ _ _ Hh) as Hs. unfold try_u64. case_decide as Hd; cbn.
  - done.
  - right; right; right. split; [|done]. unfold in_u, U64_MAX in *. lia.
Qed.

Lemma commit_probe_ok h m s P T sent_at bytes t wall :
  machine_ok h m → SessionMachine.state m = Open s →
  header_ok (SessionMachine.requested m) (key m) s → tracks (capacity_of m) h P T s →
  (next_wire_seq s ∉ seqs P) → len P < capacity_of m → h ≤ t →
  in_u 64 (ActiveSession.packets_sent s + 1) →
  let commit := ProbeCommit.mk (next_wire_seq s) t wall (wrap_u 32 (next_wire_seq s + 1))
                  (ActiveSession.packets_sent s + 1) in
  let p := PendingProbe.mk (next_wire_seq s) sent_at t wall None in
  ∃ s', commit_probe_sent commit sent_at bytes m
        = Ok (ProbeSent.mk (next_wire_seq s) sent_at bytes, SessionMachine.set_state (Open s') m) ∧
    header_ok (SessionMachine.requested m) (key m) s' ∧
    tracks (capacity_of m) t (P ++ [p]) (drop_seq (next_wire_seq s) T) s' ∧
    token s' = token s ∧ negotiated s' = negotiated s ∧
    ActiveSession.packets_sent s' = ActiveSession.packets_sent s + 1.
Proof.
  intros Hm Hst Hh Ht Hp Hl Hht Hs commit p. unfold commit_probe_sent. rewrite Hst. cbv zeta.
  cbn [ProbeCommit.wire_seq ProbeCommit.timeout_at ProbeCommit.tx_not_before_wall commit].
  fold p.
  destruct (commit_session_ok (capacity_of m) h P T s p (wrap_u 32 (next_wire_seq s + 1))
    (ActiveSession.packets_sent s + 1) Ht Hp Hl Hht) as (mt & mp & Hr & Hc & Htr).
  cbn [wire_seq p] in Hr. rewrite Hr. cbn [mbind Result_bind].
  destruct (CompletedSet.remove (next_wire_seq s) (completed s)) as [b c'] eqn:Hcr.
  rewrite Hc. cbn [mbind Result_bind]. eexists. split; [reflexivity|].
  cbv zeta in Htr. cbn [wire_seq p] in Htr. rewrite Hcr in Htr. cbn [snd] in Htr.
  split_and!; [|exact Htr|done..].
  destruct Hh as [Htok Hpar Hcl Hseq Hsent]. split; cbn; try done.
  rewrite Hseq. unfold wrap_u. by rewrite Zplus_mod_idemp_l.
Qed.

(** What a received datagram does: rejected, foreign, or classified. *)
Lemma receive_ok h m s packet now meta P T :
  machine_ok h m → SessionMachine.state m = Open s →
  header_ok (SessionMachine.requested m) (key m) s → tracks (capacity_of m) h P T s →
  no_panic (decode_echo_reply packet (NegotiationResult.peer_params (negotiated s)) (key m)) →
  ∃ events m', process_received_echo_packet packet now meta m = Ok (events, m') ∧
  match decode_echo_reply packet (NegotiationResult.peer_params (negotiated s)) (key m) with
  | Ok reply =>
      if bool_decide (EchoReply.token reply = token s) then
        ∃ s', let k := EchoReply.sequence reply in
          let c := classified P T (CompletedSet.insertion_order (completed s))
                     (highest_received_seq s) k in
          let closing := has (EchoReply.flags reply) FLAG_CLOSE in
          header_ok (SessionMachine.requested m) (key m) s' ∧ same_header s s' ∧
          tracks (capacity_of m) h (drop_seq k P) (drop_seq k T) s' ∧
          CompletedSet.insertion_order (completed s')
          = match measured c with
            | Some _ => window (capacity_of m) k (CompletedSet.insertion_order (completed s))
            | None => CompletedSet.insertion_order (completed s) end ∧
          events = reply_event (SessionMachine.remote m) reply (len packet) now meta
                     (highest_received_seq s) c ::
                   (if closing
                    then [ClientEvent.SessionClosed (SessionMachine.remote m) (token s) now] else []) ∧
          m' = SessionMachine.set_state
                 (if closing then Closed ClosePeer (ActiveSession.packets_sent s) else Open s') m
      else (∃ message, events = [ClientEvent.Warning WrongToken message now]) ∧ m' = m
  | _ => (∃ message, events = [ClientEvent.Warning MalformedOrUnrelatedPacket message now]) ∧ m' = m
  end.
Proof.
  intros Hm Hst Hh Ht Hb. unfold process_received_echo_packet, decode_received_packet, open_session.
  rewrite Hst. cbn [mbind Result_bind must].
  destruct (decode_echo_reply _ _ _) as [reply|e|]; [| |done]; cbn [mbind Result_bind].
  2:{ eexists _, _. split; [reflexivity|]. split; [by eexists|done]. }
  unfold process_echo_reply, open_session. rewrite Hst. cbn [mbind Result_bind must].
  case_bool_decide as Htok.
  { eexists _, _. split; [reflexivity|]. rewrite bool_decide_false by done. split; [by eexists|done]. }
  destruct (classify_reply_ok (capacity_of m) h P T s (SessionMachine.remote m) reply (len packet) now
    meta Ht) as (s' & Hc & Htr & Hsh & Hord & _); [by eapply capacity_pos|].
  cbv zeta in Hc. rewrite Hc. cbn [mbind Result_bind]. 
  exists (reply_event (SessionMachine.remote m) reply (len packet) now meta (highest_received_seq s)
    (classified P T (CompletedSet.insertion_order (completed s)) (highest_received_seq s)
       (EchoReply.sequence reply)) ::
     (if has (EchoReply.flags reply) FLAG_CLOSE
      then [ClientEvent.SessionClosed (SessionMachine.remote m) (token s) now] else [])).
  exists (SessionMachine.set_state (if has (EchoReply.flags reply) FLAG_CLOSE
    then Closed ClosePeer (ActiveSession.packets_sent s) else Open s') m).
  split.
  - destruct (has (EchoReply.flags reply) FLAG_CLOSE); [|done]. cbn.
    by rewrite (sh_sent _ _ Hsh).
  - rewrite bool_decide_true by (by apply dec_stable in Htok || exact Htok). exists s'. cbv zeta.
    split_and!; try done. by eapply header_same.
Qed.

Lemma poll_ok h m s now limit P T :
  machine_ok h m → SessionMachine.state m = Open s →
  header_ok (SessionMachine.requested m) (key m) s → tracks (capacity_of m) h P T s → 0 ≤ limit →
  ∃ s', let ready := filter (λ p, timeout_at p ≤ now) P in
    let D := take (Z.to_nat limit) ready in
    let R := drop (Z.to_nat limit `min` length ready) P in
    poll_timeouts_bounded_at now limit m
    = Ok (TimeoutBatch.mk (loss_event <$> D) (limit <? len ready),
          SessionMachine.set_state (Open s') m) ∧
    P = D ++ R ∧ header_ok (SessionMachine.requested m) (key m) s' ∧ same_header s s' ∧
    completed s' = completed s ∧
    tracks (capacity_of m) h R (retain_all (capacity_of m) D T) s'.
Proof.
  intros Hm Hst Hh Ht Hl. unfold poll_timeouts_bounded_at, open_session. rewrite Hst.
  cbn [mbind Result_bind].
  destruct (expire_session_ok (capacity_of m) h P T s now limit Ht) as (mp & mt & Hd & Hr & HP & Htr);
    [by eapply capacity_pos|done|].
  cbv zeta in *. eexists. rewrite Hd. cbn [mbind Result_bind ExpiredBatch.probes].
  rewrite Hr. cbn [mbind Result_bind ExpiredBatch.more_due]. split; [reflexivity|].
  split; [done|]. split; [by eapply header_same|]. done.
Qed.

(** The unbounded poll drains everything that is due. *)
Lemma poll_all_ok h m s now P T :
  machine_ok h m → SessionMachine.state m = Open s →
  header_ok (SessionMachine.requested m) (key m) s → tracks (capacity_of m) h P T s →
  ∃ s', let D := filter (λ p, timeout_at p ≤ now) P in
    poll_timeouts_at now m = Ok (loss_event <$> D, SessionMachine.set_state (Open s') m) ∧
    header_ok (SessionMachine.requested m) (key m) s' ∧ same_header s s' ∧
    ∃ R, P = D ++ R ∧ tracks (capacity_of m) h R (retain_all (capacity_of m) D T) s'.
Proof.
  intros Hm Hst Hh Ht. pose proof (capacity_pos h m Hm) as [_ Hcap].
  pose proof USIZE_MAX_lo as HU.
  destruct (poll_ok h m s now USIZE_MAX P T Hm Hst Hh Ht) as (s' & Hp & HP & Hh' & Hsh & _ & Htr); [lia|].
  cbv zeta in *. destruct (tr_pending_cap _ _ _ _ _ Ht) as [_ HlP].
  assert (len (filter (λ p, timeout_at p ≤ now) P) ≤ USIZE_MAX) as Hlen.
  { unfold len in *. pose proof (length_filter (λ p, timeout_at p ≤ now) P). lia. }
  rewrite take_ge in * by (unfold len in Hlen; lia).
  exists s'. unfold poll_timeouts_at. rewrite Hp. cbn [mbind Result_bind TimeoutBatch.more_due].
  rewrite (proj2 (Z.ltb_ge _ _)) by done. cbn. split; [done|]. eauto 10.
Qed.

Lemma close_packet_ok m s :
  SessionMachine.state m = Open s →
  prepare_close m = Ok (PreparedClose.mk (local_close_packet s)
                          (CloseCommit.mk (ActiveSession.packets_sent s) (token s))).
Proof. intros Hst. unfold prepare_close, open_session. by rewrite Hst. Qed.

Lemma record_tx_tracks h m s k ts P T :
  SessionMachine.state m = Open s → tracks (capacity_of m) h P T s →
  ∃ s' P' T', record_kernel_tx_timestamp k ts m = SessionMachine.set_state (Open s') m ∧
    tracks (capacity_of m) h P' T' s' ∧ same_header s s' ∧ completed s' = completed s ∧
    Forall2 same_probe P P' ∧ Forall2 same_probe T T'.
Proof.
  intros Hst Ht. unfold record_kernel_tx_timestamp. rewrite Hst.
  assert (∀ l, Forall2 same_probe l l) as Hrefl.
  { intros l. apply Forall_Forall2_diag, Forall_true. done. }
  assert (SessionMachine.set_state (Open s) m = m) as Hid by (destruct m; cbn in *; by subst).
  assert (∃ s' P' T', m = SessionMachine.set_state (Open s') m ∧
    tracks (capacity_of m) h P' T' s' ∧ same_header s s' ∧ completed s' = completed s ∧
    Forall2 same_probe P P' ∧ Forall2 same_probe T T') as Hsame by (exists s, P, T; done).
  destruct (kernel_tx_correlation_valid s); cbn [negb]; [|done].
  destruct (tr_pending_cap _ _ _ _ _ Ht) as [HcP _]. destruct (tr_timed_cap _ _ _ _ _ Ht) as [HcT _].
  pose proof (update_holds ts k P _ (tr_pending _ _ _ _ _ Ht)) as Hp.
  destruct (PendingMap.update k (attach ts) (pending s)) as [mp|].
  { destruct Hp as (_ & Hmp & Hc). exists (set_pending mp s), (attach_in ts k P), T.
    split; [done|]. split; [|split_and!; [done..|apply attach_in_same|done]].
    eapply tracks_same_probes; [exact Ht|apply attach_in_seqs|done|apply attach_in_timeouts|done|..];
      cbn; try congruence; try done. apply Ht. }
  unfold TimedOutMap.update.
  pose proof (update_holds ts k T _ (tr_timed_out _ _ _ _ _ Ht)) as Hp'.
  destruct (PendingMap.update k (attach ts) _) as [mt|]; cbn; [|done].
  destruct Hp' as (_ & Hmt & Hc). exists (set_timed_out (TimedOutMap.mk mt) s), P, (attach_in ts k T).
  split; [done|]. split; [|split_and!; [done..|apply attach_in_same]].
  eapply tracks_same_probes; [exact Ht|done|apply attach_in_seqs|done|apply attach_in_timeouts|..];
    cbn; try congruence; try done. apply Ht.
Qed.

(** ** Opening a session *)

(** The close that releases the session a reply may have allocated. *)
Definition cleanup_of (hmac_key : option bytes) (reply : OpenReply.t) : option bytes :=
  if negb (has (OpenReply.flags reply) FLAG_CLOSE) && negb (OpenReply.token reply =? 0)
  then match encode_request (EncClose (OpenReply.token reply)) hmac_key with
       | Ok packet => Some packet | _ => None end
  else None.

Definition no_test_mode m : bool :=
  match SessionRequest.run_mode (ClientConfig.request (SessionMachine.config m)) with
  | NoTest => true | NormalMode => false end.

(** Parameters a client may run with, given its request and its policy. *)
Definition agreed m (returned : Params.t) : Prop :=
  acceptable (SessionMachine.requested m) returned ∧
  (OpenPolicy.negotiation (ClientConfig.open (SessionMachine.config m)) = Strict →
   returned = SessionMachine.requested m).

(** What the client makes of returned parameters. *)
Definition result_of m (returned : Params.t) : NegotiationResult.t :=
  NegotiationResult.mk (semantics returned) returned (differences (SessionMachine.requested m) returned).

(** A reply the client accepts: for its run mode, with parameters it agrees to. *)
Definition welcome m (reply : OpenReply.t) : Prop :=
  agreed m (OpenReply.params reply) ∧
  has (OpenReply.flags reply) FLAG_CLOSE = no_test_mode m ∧
  (no_test_mode m = true → OpenReply.token reply = 0).

(** What accepting a reply prepares. *)
Definition acceptance_of (h : Z) m (reply : OpenReply.t) (now : ClientTimestamp.t)
    (st : MachineState) (outcome : OpenOutcome) : Prop :=
  let mode := SessionRequest.run_mode (ClientConfig.request (SessionMachine.config m)) in
  match st with
  | Open s =>
      mode = NormalMode ∧ has (OpenReply.flags reply) FLAG_CLOSE = false ∧
      header_ok (SessionMachine.requested m) (key m) s ∧ tracks (capacity_of m) h [] [] s ∧
      token s = OpenReply.token reply ∧
      negotiated s = result_of m (OpenReply.params reply) ∧
      ActiveSession.packets_sent s = 0 ∧ next_wire_seq s = 0 ∧
      cleanup_of (key m) reply = Some (local_close_packet s) ∧
      outcome = OutcomeStarted (SessionStarted.mk (SessionMachine.remote m) (token s) (negotiated s) now)
  | StateNoTestCompleted =>
      mode = NoTest ∧ has (OpenReply.flags reply) FLAG_CLOSE = true ∧ OpenReply.token reply = 0 ∧
      cleanup_of (key m) reply = None ∧
      outcome = OutcomeNoTestCompleted
        (NoTestCompleted.mk (SessionMachine.remote m) (result_of m (OpenReply.params reply)) now)
  | _ => False
  end.

Lemma open_acceptance_ok h m reply now :
  machine_ok h m → SessionMachine.state m = Connected → open_reply_ok reply →
  match prepare_open_acceptance reply now m with
  | Ok prepared =>
      agreed m (OpenReply.params reply) ∧
      acceptance_of h m reply now (PreparedOpenAcceptance.next_state prepared)
        (PreparedOpenAcceptance.outcome prepared)
  | Err failure =>
      OpenAcceptanceFailure.cleanup_close failure = cleanup_of (key m) reply ∧ ¬ welcome m reply
  | Panic => False
  end.
Proof.
  intros Hm Hst Hr. unfold prepare_open_acceptance, ensure_connected, acceptance_of, cleanup_of.
  rewrite Hst. cbn [map_err mbind Result_bind].
  destruct (encode_request (EncClose (OpenReply.token reply)) (key m)) as [close|e|] eqn:Hclose.
  2,3: by rewrite encode_request_ok in Hclose.
  pose proof (machine_requested h m Hm) as [Hq _].
  pose proof (negotiate_outcome (SessionMachine.requested m) (OpenReply.params reply)
    (OpenPolicy.negotiation (ClientConfig.open (SessionMachine.config m))) Hq (or_params reply Hr))
    as Hneg.
  assert (Params.protocol_version (OpenReply.params reply) ≠ PROTOCOL_VERSION → ¬ welcome m reply)
    as Hver by (intros Hv [[[] _] _]; done).
  unfold welcome, no_test_mode, agreed in *.
  destruct (has (OpenReply.flags reply) FLAG_CLOSE) eqn:Hcl; cbn [negb andb mbind Result_bind].
  - case_bool_decide as Hv; [by split; [|apply Hver]|].
    destruct (SessionRequest.run_mode (ClientConfig.request (SessionMachine.config m))) eqn:Hmode;
      [by split; [|intros (_ & ? & _)]|].
    destruct (Z.eqb_spec (OpenReply.token reply) 0) as [Hz|Hz]; cbn [negb];
      [|split; [done|]; intros (_ & _ & Hz0); by apply Hz, Hz0].
    unfold prepare_no_test_open.
    destruct (negotiate_params _ _ _) as [[a p ch]|e|]; cbn in *;
      [|split; [done|]; intros ([] & _); naive_solver|done].
    destruct Hneg as (? & -> & -> & -> & ?). done.
  - assert (OpenReply.token reply ≠ 0) as Hz.
    { intros Hz. apply (or_zero reply Hr) in Hz. congruence. }
    rewrite (proj2 (Z.eqb_neq _ _)) by done. cbn [negb protocol map_err mbind Result_bind].
    case_bool_decide as Hv; [by split; [|apply Hver]|].
    destruct (SessionRequest.run_mode (ClientConfig.request (SessionMachine.config m))) eqn:Hmode;
      [|by split; [|intros (_ & ? & _)]].
    unfold prepare_normal_open.
    destruct (negotiate_params _ _ _) as [[a p ch]|e|]; cbn in *;
      [|split; [done|]; intros ([] & _); naive_solver|done].
    destruct Hneg as (Ha & -> & -> & -> & Hstrict).
    split; [done|]. split; [done|]. split; [done|]. split.
    + split; cbn; [split; [done|apply Hr]|split; [done|apply Hr]|done..].
    + split; [|done]. pose proof (capacity_pos h m Hm) as [Hcap _].
      split; cbn; try apply holds_new; try apply completed_new; try done; try constructor; try lia.
      all: unfold capacity_of, len in *; cbn; lia.
Qed.

(** ** Machines that differ only in kernel timestamps *)
Definition retagged (h : Z) m m' : Prop :=
  (SessionMachine.config m' = SessionMachine.config m ∧
   SessionMachine.remote m' = SessionMachine.remote m ∧
   SessionMachine.requested m' = SessionMachine.requested m) ∧
  match SessionMachine.state m with
  | Open s => ∃ s', SessionMachine.state m' = Open s' ∧ same_header s s' ∧
      completed s' = completed s ∧
      ∀ P T, tracks (capacity_of m) h P T s → ∃ P' T', tracks (capacity_of m) h P' T' s' ∧
        Forall2 same_probe P P' ∧ Forall2 same_probe T T'
  | st => SessionMachine.state m' = st
  end.

Lemma same_probe_trans p q r : same_probe p q → same_probe q r → same_probe p r.
Proof. unfold same_probe. intros (-> & -> & -> & ->) (-> & -> & -> & ->). done. Qed.

Lemma same_probes_trans l1 l2 l3 :
  Forall2 same_probe l1 l2 → Forall2 same_probe l2 l3 → Forall2 same_probe l1 l3.
Proof.
  intros H12. revert l3. induction H12 as [|p q l1 l2 Hpq _ IH]; intros l3 H23.
  - by apply Forall2_nil_inv_l in H23 as ->.
  - apply Forall2_cons_inv_l in H23 as (r & l & Hqr & H23 & ->). constructor; [|by apply IH].
    by eapply same_probe_trans.
Qed.

Lemma same_probes_seqs l l' : Forall2 same_probe l l' → seqs l' = seqs l.
Proof.
  unfold seqs. induction 1 as [|p q l l' (Hs & _) _ IH]; [done|].
  rewrite !fmap_cons. by rewrite Hs, IH.
Qed.

Lemma retagged_refl h m : retagged h m m.
Proof.
  split; [done|]. destruct (SessionMachine.state m) as [|s| |]; try done.
  exists s. split_and!; try done. intros P T Ht. exists P, T. split; [done|].
  split; apply Forall_Forall2_diag, Forall_true; done.
Qed.

Lemma retagged_trans h m1 m2 m3 : retagged h m1 m2 → retagged h m2 m3 → retagged h m1 m3.
Proof.
  unfold retagged, capacity_of. intros [(Hc1 & Hm1 & Hr1) Hst1] [(Hc2 & Hm2 & Hr2) Hst2].
  split; [split_and!; congruence|].
  destruct (SessionMachine.state m1) as [|s1| |];
    [by rewrite Hst1 in Hst2| |by rewrite Hst1 in Hst2..].
  destruct Hst1 as (s2 & Hs2 & [] & Hco & Ht12). rewrite Hs2 in Hst2.
  destruct Hst2 as (s3 & Hs3 & [] & Hco' & Ht23).
  exists s3. split; [done|]. split; [split; congruence|]. split; [congruence|].
  intros P T Ht. destruct (Ht12 P T Ht) as (P2 & T2 & Ht2 & HP2 & HT2). rewrite Hc1 in Ht23.
  destruct (Ht23 P2 T2 Ht2) as (P3 & T3 & Ht3 & HP3 & HT3). exists P3, T3.
  split; [done|]. split; by eapply same_probes_trans.
Qed.

Lemma record_tx_state m s k ts :
  SessionMachine.state m = Open s →
  ∃ s', record_kernel_tx_timestamp k ts m = SessionMachine.set_state (Open s') m ∧
    same_header s s' ∧ completed s' = completed s.
Proof.
  intros Hst. unfold record_kernel_tx_timestamp. rewrite Hst.
  assert (SessionMachine.set_state (Open s) m = m) as Hid by (destruct m; cbn in *; by subst).
  destruct (negb (kernel_tx_correlation_valid s)); [by exists s|].
  destruct (PendingMap.update k (attach ts) (pending s)); [by eexists|].
  destruct (TimedOutMap.update k (attach ts) (timed_out s)); [by eexists|by exists s].
Qed.

Lemma record_tx_retagged h m k ts : retagged h m (record_kernel_tx_timestamp k ts m).
Proof.
  destruct (SessionMachine.state m) as [|s| |] eqn:Hst.
  1,3,4: unfold record_kernel_tx_timestamp; rewrite Hst; apply retagged_refl.
  destruct (record_tx_state m s k ts Hst) as (s' & Heq & Hsh & Hc).
  rewrite Heq. split; [done|]. rewrite Hst. exists s'. do 3 (split; [done|]). intros P T Ht.
  destruct (record_tx_tracks h m s k ts P T Hst Ht) as (s'' & P' & T' & Heq' & Ht' & _ & _ & HP & HT).
  rewrite Heq in Heq'. injection Heq' as <-. exists P', T'. done.
Qed.

Lemma record_all_retagged h q m :
  retagged h m (fold_left (λ m '(k, ts), record_kernel_tx_timestamp k ts m) q m).
Proof.
  revert m. induction q as [|[k ts] q IH]; intros m; cbn [fold_left]; [apply retagged_refl|].
  eapply retagged_trans; [apply record_tx_retagged|apply IH].
Qed.

Lemma retagged_key h m m' : retagged h m m' → key m' = key m.
Proof. intros [(Hc & _) _]. unfold key. by rewrite Hc. Qed.

Lemma retagged_ok h m m' : machine_ok h m → retagged h m m' → machine_ok h m'.
Proof.
  intros [Hc Hv Hr Hs] Hre. pose proof (retagged_key h m m' Hre) as Hk.
  destruct Hre as [(E1 & E2 & E3) Hst]. split; [by rewrite E1|by rewrite E1|by rewrite E1, E3|].
  destruct (SessionMachine.state m) as [|s| |]; [by rewrite Hst| |by rewrite Hst..].
  destruct Hst as (s' & -> & Hsh & _ & Ht). destruct Hs as (Hh & P & T & HPT).
  split; [rewrite E3, Hk; by eapply header_same|].
  destruct (Ht P T HPT) as (P' & T' & HPT' & _). exists P', T'.
  unfold capacity_of in *. by rewrite E1.
Qed.

Lemma invalidate_retagged h m : retagged h m (invalidate_kernel_tx_correlation m).
Proof.
  unfold invalidate_kernel_tx_correlation.
  destruct (SessionMachine.state m) as [|s| |] eqn:Hst; try apply retagged_refl.
  split; [done|]. rewrite Hst. exists (set_correlation false s). do 3 (split; [done|]).
  intros P T []. exists P, T. split; [done|].
  split; apply Forall_Forall2_diag, Forall_true; done.
Qed.
End machine.
