(* ===== verification/Client.v ===== *)
(** * irtt-client: the blocking adapter

    Models the protocol side of [crates/irtt-client/src/client.rs] and
    [send.rs]: [Client] drives a [SessionMachine] over a UDP socket. What the
    socket, the allocator and the clocks answer is an argument of each
    operation; the datagrams handed to the socket are recorded in [outbox]. *)

From S2P Require Import Prelude ProtoBase Envelope ParamsCodec Layout OpenCodec RequestCodec.
From S2P Require Import EchoCodec ClientBase ClientNegotiation Probe ClientEvent Timing Machine MachineInv.

(** ** State and effects *)
Module Client.
Record t : Type := mk {
  runtime : SessionMachine.t;
  remote : SocketAddr;
  recv_buffer_len : Z;
  recv_timeout : option Z;
  applied_traffic_class : option Z;
  tx_timestamping_enabled : bool;
  outbox : list bytes;
}.

Definition set_runtime v (c : t) : t :=
  mk v (remote c) (recv_buffer_len c) (recv_timeout c) (applied_traffic_class c)
    (tx_timestamping_enabled c) (outbox c).
Definition set_recv_buffer_len v (c : t) : t :=
  mk (runtime c) (remote c) v (recv_timeout c) (applied_traffic_class c)
    (tx_timestamping_enabled c) (outbox c).
Definition set_applied v (c : t) : t :=
  mk (runtime c) (remote c) (recv_buffer_len c) (recv_timeout c) v (tx_timestamping_enabled c)
    (outbox c).
Definition set_tx_enabled v (c : t) : t :=
  mk (runtime c) (remote c) (recv_buffer_len c) (recv_timeout c) (applied_traffic_class c) v (outbox c).
Definition set_timeout v (c : t) : t :=
  mk (runtime c) (remote c) (recv_buffer_len c) v (applied_traffic_class c) (tx_timestamping_enabled c)
    (outbox c).
Definition send (packet : bytes) (c : t) : t :=
  mk (runtime c) (remote c) (recv_buffer_len c) (recv_timeout c) (applied_traffic_class c)
    (tx_timestamping_enabled c) (outbox c ++ [packet]).
End Client.
Import Client.

(** [&mut self] methods: an outcome, and the client afterwards, errors included. *)
Definition M (E A : Type) : Type := Client.t → Result E A * Client.t.
#[export] Instance M_ret E : MRet (M E) := λ A a c, (Ok a, c).
#[export] Instance M_bind E : MBind (M E) := λ A B f m c,
  match m c with
  | (Ok a, c) => f a c
  | (Err e, c) => (Err e, c)
  | (Panic, c) => (Panic, c)
  end.

Definition lift {E A} (r : Result E A) : M E A := λ c, (r, c).
Definition modify {E} (f : Client.t → Client.t) : M E unit := λ c, (Ok tt, f c).
Definition gets {E A} (f : Client.t → A) : M E A := λ c, (Ok (f c), c).
Definition fail {E A} (e : E) : M E A := λ c, (Err e, c).

(** [map_err] on an action. *)
Definition with_err {E F A} (f : E → F) (m : M E A) : M F A := λ c, (map_err f (m c).1, (m c).2).

(** A read-only method of the machine, and one that moves it. *)
Definition ask {A} (f : SessionMachine.t → CResult A) : M ClientError.t A :=
  λ c, (f (runtime c), c).
Definition advance {A} (f : SessionMachine.t → CResult (A * SessionMachine.t)) : M ClientError.t A :=
  λ c, match f (runtime c) with
       | Ok (a, m) => (Ok a, set_runtime m c)
       | Err e => (Err e, c)
       | Panic => (Panic, c)
       end.

(** A socket call that may fail. *)
Definition socket_result (r : option string) : CResult unit :=
  match r with Some e => Err (ClientError.Socket e) | None => Ok tt end.

Section client.
Context `{Clocks} `{Target} `{!HmacMd5}.

Definition validate_datagram_length (expected actual : Z) : CResult unit :=
  if actual =? expected then Ok tt else Err (ClientError.DatagramLengthMismatch expected actual).

(** What a drain of the error queue finds: completions, then possibly an error. *)
Record TxQueue : Type := mk_TxQueue { completions : list (Z * Z); queue_error : option string }.

Definition drain_tx_timestamps (q : TxQueue) : M ClientError.t unit :=
  enabled ← gets tx_timestamping_enabled;
  if negb enabled then mret tt
  else
    _ ← modify (λ c, set_runtime
      (fold_left (λ m '(id, timestamp), record_kernel_tx_timestamp id timestamp m)
         (completions q) (runtime c)) c);
    lift (socket_result (queue_error q)).

(** ** Sending (send.rs, [Client::send_probe]) *)

Record SendReceipt : Type := mk_SendReceipt {
  receipt_seq : Z;
  receipt_remote : SocketAddr;
  receipt_sent_at : ClientTimestamp.t;
  receipt_bytes : Z;
  send_call : Z;
}.

Definition event_of_receipt (r : SendReceipt) : ClientEvent.t :=
  ClientEvent.EchoSent (receipt_seq r) (receipt_remote r) None (receipt_sent_at r) (receipt_bytes r)
    (send_call r) None.

Inductive SendProbeError : Type :=
  | NotCommitted (source : ClientError.t)
  | AfterCommit (receipt : SendReceipt) (source : ClientError.t).

Record SendIo : Type := mk_SendIo {
  room : bool;
  send_anchor : ClientTimestamp.t;
  send_call_start : Z;
  socket_send : string + Z;
  send_finished_at : Z;
  sent_at : ClientTimestamp.t;
  tx_queue : TxQueue;
}.

Definition send_probe (io : SendIo) : M SendProbeError SendReceipt :=
  prepared ← with_err NotCommitted (ask prepare_probe);
  machine_preflight ← with_err NotCommitted (ask (preflight_probe_commit (room io) prepared));
  let expected_bytes := len (PreparedProbe.bytes_of prepared) in
  machine_commit ← with_err NotCommitted (ask (finalize_probe_commit machine_preflight (send_anchor io)));
  _ ← modify (send (PreparedProbe.bytes_of prepared));
  match socket_send io with
  | inl error =>
      _ ← modify (λ c, set_runtime (invalidate_kernel_tx_correlation (runtime c)) c);
      fail (NotCommitted (ClientError.Socket error))
  | inr bytes =>
      sent ← with_err NotCommitted (advance (commit_probe_sent machine_commit (sent_at io) bytes));
      remote ← gets remote;
      let receipt :=
        mk_SendReceipt (ProbeSent.seq sent) remote (ProbeSent.sent_at sent) (ProbeSent.bytes_sent sent)
          (match duration_since (send_finished_at io) (send_call_start io) with
           | Some d => d | None => 0 end) in
      _ ← with_err (AfterCommit receipt) (lift (validate_datagram_length expected_bytes bytes));
      _ ← with_err (AfterCommit receipt) (drain_tx_timestamps (tx_queue io));
      mret receipt
  end.

(** ** Receiving and timeouts *)

Record Received : Type := mk_Received {
  packet : bytes;
  received_at : ClientTimestamp.t;
  meta : ReceiveMeta.t;
}.

(** [received] is the outcome of [recv_datagram_retrying_interrupted],
    [dscp_cleared] of [clear_close_dscp]. *)
Definition recv_once_inner (received : CResult (option Received)) (q : TxQueue) (dscp_cleared : bool)
    : M ClientError.t (list ClientEvent.t) :=
  datagram ← lift received;
  match datagram with
  | None => mret []
  | Some d =>
      _ ← drain_tx_timestamps q;
      events ← advance (process_received_echo_packet (packet d) (received_at d) (meta d));
      closed ← gets (λ c, is_peer_closed (runtime c));
      _ ← modify (λ c, if closed && dscp_cleared then set_applied None c else c);
      mret events
  end.

Definition recv_once (set_timeout : option string) (received : CResult (option Received))
    (q : TxQueue) (dscp_cleared : bool) : M ClientError.t (list ClientEvent.t) :=
  _ ← ask ensure_open;
  _ ← lift (socket_result set_timeout);
  recv_once_inner received q dscp_cleared.

(** [set_recv_timeout]: a timeout the socket refuses is not remembered. *)
Definition client_set_recv_timeout (timeout : option Z) (refused : option string) : M ClientError.t unit :=
  _ ← lift (socket_result refused);
  modify (set_timeout timeout).

Definition client_poll_timeouts_at (now : Z) (q : TxQueue) : M ClientError.t (list ClientEvent.t) :=
  _ ← drain_tx_timestamps q;
  advance (poll_timeouts_at now).

(** ** Closing *)

(** [dscp] is the outcome of clearing the traffic class, [sent] of the send. *)
Definition close (reserved : bool) (dscp : CResult unit) (sent : string + Z)
    (sent_at : ClientTimestamp.t) : M ClientError.t (list ClientEvent.t) :=
  prepared ← ask prepare_close;
  _ ← (if reserved then mret tt else fail (ClientError.AllocationFailed "close event result"));
  let expected_bytes := len (PreparedClose.bytes_of prepared) in
  _ ← lift dscp;
  _ ← modify (send (PreparedClose.bytes_of prepared));
  match sent with
  | inl err => fail (ClientError.Socket err)
  | inr bytes =>
      event ← advance (commit_local_close (PreparedClose.commit prepared) sent_at);
      _ ← modify (set_applied None);
      _ ← lift (validate_datagram_length expected_bytes bytes);
      mret [event]
  end.

(** ** Opening *)

Record PreparedClientOpen : Type := mk_PreparedClientOpen {
  machine : PreparedOpenAcceptance.t;
  open_recv_buffer_len : option Z;
  negotiated_traffic_class : option Z;
}.

Definition send_cleanup_close_best_effort (packet : option bytes) {E} : M E unit :=
  modify (λ c, match packet with Some p => send p c | None => c end).

(** [prepare_client_open]: its failure carries the acceptance back. *)
Definition prepare_client_open (machine : PreparedOpenAcceptance.t) (self : Client.t)
    : Result (ClientError.t * PreparedOpenAcceptance.t) PreparedClientOpen :=
  match PreparedOpenAcceptance.normal_negotiated machine with
  | None => Ok (mk_PreparedClientOpen machine None None)
  | Some negotiated =>
      recv_buffer_len ← map_err (λ primary, (primary, machine))
        (recv_buffer_size (has_hmac (runtime self)) (Some negotiated));
      Ok (mk_PreparedClientOpen machine (Some recv_buffer_len)
            (Some (wrap_u 8 (Z.shiftl (AcceptedSessionParameters.dscp
                                         (NegotiationResult.accepted negotiated)) 2))))
  end.

Record ApplyIo : Type := mk_ApplyIo {
  reserved : bool;
  traffic_class_applied : CResult unit;
  timeout_restored : option string;
  tx_enabled : bool;
}.

(** A failure undoes the buffer growth, closes the server's session and leaves
    the machine connected. *)
Definition abort_open (previous_len : Z) (machine : PreparedOpenAcceptance.t) (primary : ClientError.t)
    : M ClientError.t OpenOutcome :=
  _ ← modify (λ c, set_recv_buffer_len (Z.min previous_len (recv_buffer_len c)) c);
  _ ← send_cleanup_close_best_effort (PreparedOpenAcceptance.cleanup_close_packet machine);
  fail primary.

Definition apply_prepared_open (prepared : PreparedClientOpen) (io : ApplyIo)
    : M ClientError.t OpenOutcome :=
  let machine := machine prepared in
  match open_recv_buffer_len prepared, negotiated_traffic_class prepared with
  | Some buffer_len, Some traffic_class =>
      previous_len ← gets recv_buffer_len;
      if negb (reserved io) then
        _ ← send_cleanup_close_best_effort (PreparedOpenAcceptance.cleanup_close_packet machine);
        fail (ClientError.AllocationFailed "negotiated receive buffer")
      else
        _ ← modify (set_recv_buffer_len buffer_len);
        match traffic_class_applied io with
        | Err primary => abort_open previous_len machine primary
        | Panic => lift Panic
        | Ok _ =>
            match timeout_restored io with
            | Some source => abort_open previous_len machine (ClientError.ReadTimeoutRestore source)
            | None =>
                outcome ← advance (commit_open machine);
                _ ← modify (set_applied (Some traffic_class));
                _ ← modify (set_tx_enabled (tx_enabled io));
                mret outcome
            end
        end
  | _, _ =>
      match timeout_restored io with
      | Some source => fail (ClientError.ReadTimeoutRestore source)
      | None =>
          outcome ← advance (commit_open machine);
          _ ← modify (set_applied None);
          _ ← modify (set_tx_enabled (tx_enabled io));
          mret outcome
      end
  end.

(** The body of the receive loop for one datagram: [None] is [continue]. *)
Definition open_datagram (packet : bytes) (received_at : ClientTimestamp.t) (io : ApplyIo)
    : M ClientError.t (option OpenOutcome) :=
  disposition ← ask (inspect_open_datagram packet);
  match disposition with
  | Ignore => mret None
  | Trusted reply =>
      accepted ← gets (λ c, prepare_open_acceptance reply received_at (runtime c));
      match accepted with
      | Panic => lift Panic
      | Err failure =>
          _ ← send_cleanup_close_best_effort (OpenAcceptanceFailure.cleanup_close failure);
          fail (OpenAcceptanceFailure.primary failure)
      | Ok machine =>
          prepared ← gets (prepare_client_open machine);
          match prepared with
          | Panic => lift Panic
          | Err (primary, machine) =>
              _ ← send_cleanup_close_best_effort (PreparedOpenAcceptance.cleanup_close_packet machine);
              fail primary
          | Ok prepared => outcome ← apply_prepared_open prepared io; mret (Some outcome)
          end
      end
  end.

(** One turn of the receive loop: the clock before it, the outcome of narrowing
    the read timeout, what was received, and the clock after a retryable error. *)
Inductive RecvOutcome : Type :=
  | RetryableError
  | FatalError (error : string)
  | OpenDatagram (packet : bytes) (received_at : ClientTimestamp.t) (io : ApplyIo).

Record RecvStep : Type := mk_RecvStep {
  now_before : Z;
  narrowed : option string;
  outcome : RecvOutcome;
  now_after : Z;
}.

(** The receive loop of one attempt. The list holds the attempt's turns; it is
    only read until the deadline, and its end stands for the deadline too. *)
Fixpoint receive_open (deadline : Z) (steps : list RecvStep) : M ClientError.t (option OpenOutcome) :=
  match steps with
  | [] => mret None
  | step :: steps =>
      match duration_since deadline (now_before step) with
      | None | Some 0 => mret None
      | Some _ =>
          _ ← lift (socket_result (narrowed step));
          match outcome step with
          | RetryableError =>
              if deadline <=? now_after step then mret None else receive_open deadline steps
          | FatalError error => fail (ClientError.Socket error)
          | OpenDatagram packet received_at io =>
              if deadline <? ClientTimestamp.mono received_at then mret None
              else
                result ← open_datagram packet received_at io;
                match result with
                | Some outcome => mret (Some outcome)
                | None => receive_open deadline steps
                end
          end
      end
  end.

Record Attempt : Type := mk_Attempt {
  started : Z;
  timeout_set : option string;
  request_sent : option string;
  steps : list RecvStep;
}.

Fixpoint open_attempts (request : bytes) (timeouts : list Z) (attempts : list Attempt)
    : M ClientError.t OpenOutcome :=
  match timeouts, attempts with
  | timeout :: timeouts, attempt :: attempts =>
      deadline ← lift (ok_or (instant_checked_add (started attempt) timeout)
                         ClientError.DurationOverflow);
      _ ← lift (socket_result (timeout_set attempt));
      _ ← modify (send request);
      _ ← lift (socket_result (request_sent attempt));
      result ← receive_open deadline (steps attempt);
      match result with
      | Some outcome => mret outcome
      | None => open_attempts request timeouts attempts
      end
  | _, _ => fail ClientError.OpenTimeout
  end.

Definition open_transaction (attempts : list Attempt) : M ClientError.t OpenOutcome :=
  request ← ask prepare_open_request;
  timeouts ← gets (λ c, OpenPolicy.timeouts (ClientConfig.open (SessionMachine.config (runtime c))));
  open_attempts request timeouts attempts.

(** [Client::open] restores the read timeout on failure: socket state only. *)
Definition open (attempts : list Attempt) : M ClientError.t OpenOutcome := open_transaction attempts.

(** [Client::connect], past address resolution and socket creation. *)
Definition connect (config : ClientConfig.t) (remote : SocketAddr) : CResult Client.t :=
  _ ← OpenPolicy.validate (ClientConfig.open config);
  runtime ← new config remote;
  recv_buffer_len ← recv_buffer_size false None;
  Ok (Client.mk runtime remote recv_buffer_len None None false []).
End client.
