(* ===== verification/ClientTrace.v ===== *)
(** * irtt-client: what each operation of the client does

    The ledger a run keeps - which sent probes were answered, lost, or are still
    tracked - and, operation by operation, what the blocking adapter does to its
    machine and to the socket. *)

From stdpp Require Import sorting.
From S2P Require Import Prelude ProtoBase Envelope ParamsCodec Layout OpenCodec RequestCodec.
From S2P Require Import EchoCodec ClientBase ClientNegotiation Probe ClientEvent Timing Machine MachineInv Client.
Import ActiveSession PendingProbe.

(** Runs an action up to its next unknown. *)
Local Ltac act :=
  cbv beta iota zeta delta [mbind M_bind Result_bind mret M_ret gets modify lift fail ask advance with_err
    map_err fst snd].

(** ** Counting events *)
Definition tally (f : ClientEvent.t → bool) (evs : list ClientEvent.t) : Z :=
  len (filter (λ e, f e = true) evs).

Definition is_send (e : ClientEvent.t) : bool :=
  match e with ClientEvent.EchoSent _ _ _ _ _ _ _ => true | _ => false end.
Definition sends (k : Z) (e : ClientEvent.t) : bool :=
  match e with ClientEvent.EchoSent seq _ _ _ _ _ _ => seq =? k | _ => false end.
(** A measured reply: on time, out of order, or after its loss was reported. *)
Definition answers (k : Z) (e : ClientEvent.t) : bool :=
  match e with
  | ClientEvent.EchoReply seq _ _ _ _ _ _ _ _ _ => seq =? k
  | ClientEvent.LateReply seq _ _ (Some _) _ _ _ _ _ _ _ => seq =? k
  | _ => false
  end.
Definition loses (k : Z) (e : ClientEvent.t) : bool :=
  match e with ClientEvent.EchoLoss seq _ _ => seq =? k | _ => false end.

Definition count_seq (k : Z) (l : list PendingProbe.t) : Z := len (filter (λ p, wire_seq p = k) l).

Lemma tally_app f l k : tally f (l ++ k) = tally f l + tally f k.
Proof. unfold tally. by rewrite filter_app, len_app. Qed.
Lemma tally_nil f : tally f [] = 0.
Proof. done. Qed.
Lemma tally_cons f e l : tally f (e :: l) = (if f e then 1 else 0) + tally f l.
Proof.
  unfold tally. destruct (f e) eqn:He.
  - rewrite filter_cons_True by done. by rewrite len_cons.
  - rewrite filter_cons_False by congruence. lia.
Qed.
Lemma tally_nonneg f l : 0 ≤ tally f l.
Proof. apply len_nonneg. Qed.

Lemma count_app k l l' : count_seq k (l ++ l') = count_seq k l + count_seq k l'.
Proof. unfold count_seq. by rewrite filter_app, len_app. Qed.
Lemma count_cons k p l : count_seq k (p :: l) = (if wire_seq p =? k then 1 else 0) + count_seq k l.
Proof.
  unfold count_seq. destruct (Z.eqb_spec (wire_seq p) k).
  - rewrite filter_cons_True by done. by rewrite len_cons.
  - rewrite filter_cons_False by done. lia.
Qed.
Lemma count_nonneg k l : 0 ≤ count_seq k l.
Proof. apply len_nonneg. Qed.

Lemma count_same_seqs k l l' : seqs l = seqs l' → count_seq k l = count_seq k l'.
Proof.
  revert l'. induction l as [|p l IH]; intros [|q l']; try done.
  unfold seqs. rewrite !fmap_cons. intros [= Hp Hl]. rewrite !count_cons, Hp. by rewrite (IH l').
Qed.

Lemma count_drop_seq k j l :
  count_seq k (drop_seq j l) = if k =? j then 0 else count_seq k l.
Proof.
  unfold drop_seq. induction l as [|p l IH]; [by destruct (k =? j)|].
  rewrite filter_cons, count_cons. case_decide as Hd; rewrite ?count_cons, IH.
  - destruct (Z.eqb_spec k j), (Z.eqb_spec (wire_seq p) k); lia.
  - subst j.
    destruct (Z.eqb_spec k (wire_seq p)), (Z.eqb_spec (wire_seq p) k); lia.
Qed.

Lemma count_find k l :
  NoDup (seqs l) → count_seq k l = match find_seq k l with Some _ => 1 | None => 0 end.
Proof.
  intros Hn. unfold count_seq. destruct (find_seq k l) as [p|] eqn:Hf.
  - apply find_seq_Some in Hf as (l1 & l2 & -> & <-).
    by destruct (filter_seq_middle l1 p l2 Hn) as [-> _].
  - by rewrite filter_seq_absent by by apply find_seq_None.
Qed.

Lemma count_suffix k l l' : l `suffix_of` l' → count_seq k l ≤ count_seq k l'.
Proof. intros [x ->]. rewrite count_app. pose proof (count_nonneg k x). lia. Qed.

Lemma tally_losses k D : tally (loses k) (loss_event <$> D) = count_seq k D.
Proof. induction D as [|p D IH]; [done|]. rewrite fmap_cons, tally_cons, count_cons, IH. done. Qed.

Lemma tally_losses_other f D :
  (∀ p, f (loss_event p) = false) → tally f (loss_event <$> D) = 0.
Proof. intros Hf. induction D as [|p D IH]; [done|]. by rewrite fmap_cons, tally_cons, Hf, IH. Qed.

(** ** The ledger *)
Section ledger.
Context `{Clocks} `{Target} `{!HmacMd5}.
Implicit Types m : SessionMachine.t.

(** Every sent probe is answered at most once, and is answered, lost, or still
    pending; sequence by sequence, so also across reuse of a sequence. *)
Definition ledger (evs : list ClientEvent.t) m : Prop :=
  Machine.packets_sent m = tally is_send evs ∧
  ∀ k,
    match SessionMachine.state m with
    | Open _ =>
        tally (answers k) evs + count_seq k (pending_of m) + count_seq k (retained_of m)
          ≤ tally (sends k) evs
          ≤ tally (answers k) evs + tally (loses k) evs + count_seq k (pending_of m)
    | Closed _ _ => tally (answers k) evs ≤ tally (sends k) evs
    | Connected | StateNoTestCompleted =>
        tally (answers k) evs = 0 ∧ tally (sends k) evs = 0 ∧ tally (loses k) evs = 0
    end.

Lemma ledger_retagged h m m' evs :
  machine_ok h m → retagged h m m' → ledger evs m → ledger evs m'.
Proof.
  intros Hm Hr [Hs Hk]. pose proof (retagged_ok h m m' Hm Hr) as Hm'.
  destruct Hr as [(E1 & _ & _) Hst].
  destruct (SessionMachine.state m) as [|s| |] eqn:Hsm.
  1,3,4: unfold ledger, Machine.packets_sent in *; rewrite Hst, Hsm in *; done.
  destruct Hst as (s' & Hs' & Hsh & _ & Ht).
  destruct (machine_tracks h m s Hm Hsm) as [_ Htm].
  destruct (Ht _ _ Htm) as (P' & T' & Ht' & HP & HT).
  assert (capacity_of m' = capacity_of m) as Hcap by (unfold capacity_of; by rewrite E1).
  rewrite <- Hcap in Ht'. destruct (tracks_of h m' s' P' T' Hs' Ht') as [HPm HTm].
  unfold ledger, Machine.packets_sent in *. rewrite Hs', Hsm in *. rewrite (sh_sent _ _ Hsh).
  split; [done|]. intros k. specialize (Hk k). rewrite HPm, HTm.
  rewrite (count_same_seqs k P' (pending_of m)) by by apply same_probes_seqs.
  rewrite (count_same_seqs k T' (retained_of m)) by by apply same_probes_seqs.
  done.
Qed.

(** The tracked lists of the machine an open session is put back into. *)
Lemma pending_set_open h m s' P T :
  tracks (capacity_of m) h P T s' →
  pending_of (SessionMachine.set_state (Open s') m) = P ∧
  retained_of (SessionMachine.set_state (Open s') m) = T.
Proof. intros Ht. by apply (tracks_of h _ s'). Qed.

Lemma ledger_send h m s s' p evs e :
  SessionMachine.state m = Open s → machine_ok h m →
  tracks (capacity_of m) (timeout_at p) (pending_of m ++ [p]) (drop_seq (wire_seq p) (retained_of m)) s' →
  ActiveSession.packets_sent s' = ActiveSession.packets_sent s + 1 →
  is_send e = true → (∀ k, sends k e = (wire_seq p =? k)) →
  ledger evs m → ledger (evs ++ [e]) (SessionMachine.set_state (Open s') m).
Proof.
  intros Hst Hm Ht Hsent He Hek [Hs Hk]. unfold ledger, Machine.packets_sent in *.
  rewrite Hst in *. cbn [SessionMachine.state SessionMachine.set_state].
  destruct (pending_set_open _ m s' _ _ Ht) as [HP HT]. rewrite HP, HT.
  split. { rewrite tally_app, tally_cons, He, Hsent, Hs, tally_nil. lia. }
  intros k. specialize (Hk k). rewrite !tally_app, !tally_cons, !tally_nil, Hek.
  rewrite count_app, count_cons, count_drop_seq.
  change (count_seq k []) with 0. pose proof (count_nonneg k (retained_of m)).
  destruct e; try discriminate He. cbn [answers loses].
  destruct (Z.eqb_spec (wire_seq p) k), (Z.eqb_spec k (wire_seq p)); lia.
Qed.

(** Events that are none of the ledger's business. *)
Definition neutral (e : ClientEvent.t) : Prop :=
  is_send e = false ∧ ∀ k, sends k e = false ∧ answers k e = false ∧ loses k e = false.

Lemma tally_neutral evs e :
  neutral e → tally is_send (evs ++ [e]) = tally is_send evs ∧
  ∀ k, tally (sends k) (evs ++ [e]) = tally (sends k) evs ∧
       tally (answers k) (evs ++ [e]) = tally (answers k) evs ∧
       tally (loses k) (evs ++ [e]) = tally (loses k) evs.
Proof.
  intros [Hse Hk]. split.
  - rewrite tally_app, tally_cons, Hse, tally_nil. lia.
  - intros k. destruct (Hk k) as (Hs & Ha & Hl).
    rewrite !tally_app, !tally_cons, !tally_nil, Hs, Ha, Hl. lia.
Qed.

Lemma ledger_neutral m evs e : neutral e → ledger evs m → ledger (evs ++ [e]) m.
Proof.
  intros Hn [Hs Hk]. destruct (tally_neutral evs e Hn) as [Hn1 Hn2]. unfold ledger.
  split; [by rewrite Hn1|]. intros k. specialize (Hk k). destruct (Hn2 k) as (-> & -> & ->). done.
Qed.

Lemma reply_event_sends remote reply plen now meta highest c k :
  is_send (reply_event remote reply plen now meta highest c) = false ∧
  sends k (reply_event remote reply plen now meta highest c) = false ∧
  loses k (reply_event remote reply plen now meta highest c) = false ∧
  answers k (reply_event remote reply plen now meta highest c)
  = match measured c with Some _ => EchoReply.sequence reply =? k | None => false end.
Proof.
  unfold reply_event. destruct c as [p| |p| |]; cbn; try done.
  by destruct (before_highest highest (EchoReply.sequence reply)).
Qed.

(** A classified reply answers the probe it was measured against, and only it. *)
Lemma ledger_reply h m s s' evs remote reply plen now meta :
  SessionMachine.state m = Open s → machine_ok h m →
  let k := EchoReply.sequence reply in
  let c := classified (pending_of m) (retained_of m) (completed_of m) (highest_received_seq s) k in
  tracks (capacity_of m) h (drop_seq k (pending_of m)) (drop_seq k (retained_of m)) s' →
  same_header s s' → ledger evs m →
  ledger (evs ++ [reply_event remote reply plen now meta (highest_received_seq s) c])
    (SessionMachine.set_state (Open s') m).
Proof.
  intros Hst Hm j c Ht Hsh [Hs Hk]. unfold ledger, Machine.packets_sent in *.
  rewrite Hst in *. cbn [SessionMachine.state SessionMachine.set_state].
  destruct (pending_set_open _ m s' _ _ Ht) as [HP HT]. rewrite HP, HT.
  destruct (machine_tracks h m s Hm Hst) as [_ Htm].
  pose proof (tr_disjoint _ _ _ _ _ Htm) as Hd.
  set (e := reply_event _ _ _ _ _ _ _).
  assert (∀ k, is_send e = false ∧ sends k e = false ∧ loses k e = false ∧
    answers k e = match measured c with Some _ => j =? k | None => false end) as He.
  { intros k. apply reply_event_sends. }
  split.
  { destruct (He 0) as (Hse & _). rewrite tally_app, tally_cons, Hse, (sh_sent _ _ Hsh), tally_nil. lia. }
  intros k. specialize (Hk k). destruct (He k) as (_ & Hse & Hle & Hae).
  rewrite !tally_app, !tally_cons, !tally_nil, Hse, Hle, Hae, !count_drop_seq.
  assert (NoDup (seqs (pending_of m))) as HnP by by eapply tracked_pending_fresh.
  assert (NoDup (seqs (retained_of m))) as HnT.
  { apply NoDup_app in Hd as (_ & _ & Hd). by apply NoDup_app in Hd as [? _]. }
  pose proof (count_nonneg k (retained_of m)) as HkT.
  pose proof (count_find k _ HnP) as HcP. pose proof (count_find k _ HnT) as HcT.
  rewrite (Z.eqb_sym j k). destruct (Z.eqb_spec k j) as [->|Hne].
  2:{ destruct (measured c); lia. }
  subst c. unfold classified. destruct (find_seq j (pending_of m)) as [p|]; cbn [measured]; [lia|].
  destruct (bool_decide (j ∈ completed_of m)); cbn [measured]; [lia|].
  destruct (find_seq j (retained_of m)); cbn [measured]; [lia|].
  destruct (before_highest _ _); cbn [measured]; lia.
Qed.

Lemma ledger_poll h m s s' evs D R :
  SessionMachine.state m = Open s → machine_ok h m → pending_of m = D ++ R →
  tracks (capacity_of m) h R (retain_all (capacity_of m) D (retained_of m)) s' →
  same_header s s' → ledger evs m →
  ledger (evs ++ (loss_event <$> D)) (SessionMachine.set_state (Open s') m).
Proof.
  intros Hst Hm HD Ht Hsh [Hs Hk]. unfold ledger, Machine.packets_sent in *.
  rewrite Hst in *. cbn [SessionMachine.state SessionMachine.set_state].
  destruct (pending_set_open _ m s' _ _ Ht) as [HP HT]. rewrite HP, HT.
  split.
  { rewrite tally_app, (sh_sent _ _ Hsh), tally_losses_other by done. lia. }
  intros k. specialize (Hk k).
  rewrite !tally_app, tally_losses, !tally_losses_other by done.
  rewrite HD, count_app in Hk.
  pose proof (count_suffix k _ _ (retain_all_suffix (capacity_of m) D (retained_of m)
    (proj1 (capacity_pos h m Hm)))) as Hret.
  rewrite count_app in Hret. lia.
Qed.

Lemma ledger_closed m s source evs :
  SessionMachine.state m = Open s → ledger evs m →
  ledger evs (SessionMachine.set_state (Closed source (ActiveSession.packets_sent s)) m).
Proof.
  intros Hst [Hs Hk]. unfold ledger, Machine.packets_sent in *. rewrite Hst in *. cbn.
  split; [done|]. intros k. specialize (Hk k). pose proof (count_nonneg k (pending_of m)).
  pose proof (count_nonneg k (retained_of m)). lia.
Qed.

Lemma ledger_opened h m s evs :
  SessionMachine.state m = Connected → tracks (capacity_of m) h [] [] s →
  ActiveSession.packets_sent s = 0 → ledger evs m →
  ledger evs (SessionMachine.set_state (Open s) m).
Proof.
  intros Hst Ht Hsent [Hs Hk]. unfold ledger, Machine.packets_sent in *. rewrite Hst in *.
  cbn [SessionMachine.state SessionMachine.set_state].
  destruct (pending_set_open _ m s _ _ Ht) as [-> ->]. rewrite Hsent. split; [done|].
  intros k. specialize (Hk k). change (count_seq k []) with 0. lia.
Qed.
End ledger.

(** ** The adapter's operations, machine by machine *)
Section adapter.
Context `{Clocks} `{Target} `{!HmacMd5}.
Implicit Types c : Client.t.

Lemma drain_spec h q c :
  match drain_tx_timestamps q c with
  | (r, c') => r ≠ Panic ∧ retagged h (Client.runtime c) (Client.runtime c') ∧
      Client.remote c' = Client.remote c ∧ Client.outbox c' = Client.outbox c
  end.
Proof.
  unfold drain_tx_timestamps, socket_result. act.
  destruct (Client.tx_timestamping_enabled c); cbn [negb]; act.
  - destruct (queue_error q); (split; [done|]; split; [apply record_all_retagged|done]).
  - split; [done|]. split; [apply retagged_refl|done].
Qed.

Definition deadline_of c (anchor : Z) : Z :=
  anchor + ClientConfig.probe_timeout (SessionMachine.config (Client.runtime c)).

(** What a committed send did: one datagram, one pending probe. *)
Record committed c (io : SendIo) (r : SendReceipt) c' : Prop := {
  cm_sent : ∃ s pkt bytes s1,
    let p := PendingProbe.mk (next_wire_seq s) (Client.sent_at io)
               (deadline_of c (ClientTimestamp.mono (send_anchor io)))
               (ClientTimestamp.wall (send_anchor io)) None in
    SessionMachine.state (Client.runtime c) = Open s ∧
    encode_request (EncEcho (token s) (next_wire_seq s)
      (NegotiationResult.peer_params (negotiated s)) []) (key (Client.runtime c)) = Ok pkt ∧
    Client.outbox c' = Client.outbox c ++ [pkt] ∧
    socket_send io = inr bytes ∧ receipt_seq r = next_wire_seq s ∧
    receipt_sent_at r = Client.sent_at io ∧ receipt_bytes r = bytes ∧
    tracks (capacity_of (Client.runtime c)) (timeout_at p) (pending_of (Client.runtime c) ++ [p])
      (drop_seq (next_wire_seq s) (retained_of (Client.runtime c))) s1 ∧
    header_ok (SessionMachine.requested (Client.runtime c)) (key (Client.runtime c)) s1 ∧
    ActiveSession.packets_sent s1 = ActiveSession.packets_sent s + 1 ∧
    retagged (timeout_at p) (SessionMachine.set_state (Open s1) (Client.runtime c)) (Client.runtime c');
}.

Lemma finalize_outcome m anchor seq next sent :
  finalize_probe_commit (ProbeCommitPreflight.mk seq next sent) anchor m
  = Ok (ProbeCommit.mk seq
          (ClientTimestamp.mono anchor + ClientConfig.probe_timeout (SessionMachine.config m))
          (ClientTimestamp.wall anchor) next sent) ∨
  finalize_probe_commit (ProbeCommitPreflight.mk seq next sent) anchor m
  = Err ClientError.DurationOverflow.
Proof.
  unfold finalize_probe_commit, instant_checked_add.
  destruct (_ <=? INSTANT_MAX); [by left|by right].
Qed.

Lemma send_spec h c io :
  machine_ok h (Client.runtime c) → h ≤ deadline_of c (ClientTimestamp.mono (send_anchor io)) →
  match send_probe io c with
  | (Ok r, c') => committed c io r c'
  | (Err (NotCommitted e), c') => retagged h (Client.runtime c) (Client.runtime c')
  | (Err (AfterCommit r e), c') => committed c io r c'
  | (Panic, _) => False
  end.
Proof.
  intros Hm Hh. unfold send_probe. act.
  destruct (SessionMachine.state (Client.runtime c)) as [|s| |] eqn:Hst.
  1,3,4: unfold prepare_probe, open_session; rewrite Hst; cbn; apply retagged_refl.
  destruct (machine_tracks h _ s Hm Hst) as [Hhd Ht].
  assert (session_ok h (Client.runtime c) s) as Hs by (split; eauto).
  destruct (prepare_probe_ok h _ s Hm Hst Hs) as (pkt & -> & Henc). act.
  pose proof (preflight_ok h _ s (room io) pkt Hm Hst Hs _ _ Ht) as Hpf.
  destruct (preflight_probe_commit _ _ _) as [pf|e|]; [|act; apply retagged_refl|done].
  destruct Hpf as (-> & Hfresh & Hlen & Hsent & Hroom). act.
  destruct (finalize_outcome (Client.runtime c) (send_anchor io) (next_wire_seq s)
    (wrap_u 32 (next_wire_seq s + 1)) (ActiveSession.packets_sent s + 1)) as [-> | ->]; act;
    [|apply retagged_refl].
  destruct (socket_send io) as [error|bytes] eqn:Hio; [apply invalidate_retagged|].
  destruct (commit_probe_ok h _ s _ _ (Client.sent_at io) bytes
    (deadline_of c (ClientTimestamp.mono (send_anchor io))) (ClientTimestamp.wall (send_anchor io))
    Hm Hst Hhd Ht Hfresh Hlen Hh Hsent) as (s1 & Hcommit & Hhd1 & Ht1 & _ & _ & Hsent1).
  change (Client.runtime (Client.send _ c)) with (Client.runtime c).
  unfold deadline_of in Hcommit. rewrite Hcommit. act.
  set (p := PendingProbe.mk _ _ _ _ _) in Ht1.
  set (c1 := Client.set_runtime _ _). set (r := mk_SendReceipt _ _ _ _ _).
  assert (∀ c', retagged (timeout_at p) (Client.runtime c1) (Client.runtime c') →
    Client.outbox c' = Client.outbox c1 → committed c io r c') as Hdone.
  { intros c' Hre Hout. split. exists s, pkt, bytes, s1. cbv zeta. fold p.
    split_and!; done. }
  unfold validate_datagram_length. destruct (bytes =? _); act.
  2:{ apply Hdone; [apply retagged_refl|done]. }
  pose proof (drain_spec (timeout_at p) (tx_queue io) c1) as Hdrain.
  destruct (drain_tx_timestamps (tx_queue io) c1) as [[u|e|] c'] eqn:Hd; act.
  1,2: destruct Hdrain as (_ & Hre & _ & Hout); by apply Hdone.
  by destruct Hdrain.
Qed.

(** ** Opening *)

Definition io_ok (io : ApplyIo) : Prop := traffic_class_applied io ≠ Panic.

(** What an accepted reply leaves: the machine in its next state, nothing sent. *)
Definition opened (h : Z) c (reply : OpenReply.t) (at_ : ClientTimestamp.t) (outcome : OpenOutcome) c'
    : Prop :=
  agreed (Client.runtime c) (OpenReply.params reply) ∧
  ∃ st, Client.runtime c' = SessionMachine.set_state st (Client.runtime c) ∧
    acceptance_of h (Client.runtime c) reply at_ st outcome.

Definition cleanup_list c (reply : OpenReply.t) : list bytes :=
  match cleanup_of (key (Client.runtime c)) reply with Some p => [p] | None => [] end.

Lemma prepare_client_open_ok h c reply at_ prepared :
  machine_ok h (Client.runtime c) →
  acceptance_of h (Client.runtime c) reply at_ (PreparedOpenAcceptance.next_state prepared)
    (PreparedOpenAcceptance.outcome prepared) →
  ∃ p, prepare_client_open prepared c = Ok p ∧ machine p = prepared ∧
    (PreparedOpenAcceptance.next_state prepared = StateNoTestCompleted →
     open_recv_buffer_len p = None) ∧
    (∀ s, PreparedOpenAcceptance.next_state prepared = Open s →
       is_none (open_recv_buffer_len p) = false ∧ is_none (negotiated_traffic_class p) = false).
Proof.
  intros Hm Ha. unfold prepare_client_open, PreparedOpenAcceptance.normal_negotiated.
  destruct (PreparedOpenAcceptance.next_state prepared) as [|s| |] eqn:Hst; [done| | |done].
  2:{ eexists. split; [reflexivity|]. done. }
  destruct Ha as (_ & _ & Hhd & _). unfold recv_buffer_size.
  destruct (hd_params _ _ _ Hhd) as [Hacc _].
  pose proof (machine_requested h _ Hm) as [Hq _].
  pose proof (acceptable_length _ _ Hq Hacc). pose proof udp_le_usize.
  rewrite echo_packet_len_spec, decide_True by lia. cbn. eexists. split; [reflexivity|].
  split; [done|]. split; [done|]. done.
Qed.

Lemma commit_open_ok prepared m :
  SessionMachine.state m = Connected →
  commit_open prepared m = Ok (PreparedOpenAcceptance.outcome prepared,
    SessionMachine.set_state (PreparedOpenAcceptance.next_state prepared) m).
Proof. intros Hst. unfold commit_open. by rewrite Hst. Qed.

Lemma apply_open_spec h c reply at_ prepared p io :
  machine_ok h (Client.runtime c) → SessionMachine.state (Client.runtime c) = Connected → io_ok io →
  agreed (Client.runtime c) (OpenReply.params reply) →
  acceptance_of h (Client.runtime c) reply at_ (PreparedOpenAcceptance.next_state prepared)
    (PreparedOpenAcceptance.outcome prepared) →
  prepare_client_open prepared c = Ok p →
  match apply_prepared_open p io c with
  | (Panic, _) => False
  | (Ok outcome, c') => opened h c reply at_ outcome c' ∧ Client.outbox c' = Client.outbox c
  | (Err _, c') => Client.runtime c' = Client.runtime c ∧
      Client.outbox c' = Client.outbox c ++ cleanup_list c reply
  end.
Proof.
  intros Hm Hst Hio Hacc Ha Hp.
  destruct (prepare_client_open_ok h c reply at_ prepared Hm Ha) as (p' & Hp' & Hmach & Hno & Hyes).
  rewrite Hp in Hp'. injection Hp' as <-.
  assert (cleanup_list c reply =
    match PreparedOpenAcceptance.cleanup_close_packet prepared with Some x => [x] | None => [] end) as ->.
  { unfold cleanup_list, PreparedOpenAcceptance.cleanup_close_packet, acceptance_of in *.
    destruct (PreparedOpenAcceptance.next_state prepared); try done.
    - destruct Ha as (_ & _ & _ & _ & _ & _ & _ & _ & -> & _). done.
    - destruct Ha as (_ & _ & _ & -> & _). done. }
  unfold apply_prepared_open, abort_open, send_cleanup_close_best_effort. rewrite Hmach.
  pose proof (commit_open_ok prepared (Client.runtime c) Hst) as Hcommit.
  destruct (PreparedOpenAcceptance.next_state prepared) as [|s| |] eqn:Hnext; [done| | |done].
  - destruct (Hyes s eq_refl) as [H1' H2'].
    destruct (open_recv_buffer_len p), (negotiated_traffic_class p); try done.
    unfold PreparedOpenAcceptance.cleanup_close_packet. rewrite Hnext. act.
    destruct (reserved io); cbn [negb]; act; [|done].
    destruct (traffic_class_applied io) as [u|e|] eqn:Htc; act; [|done|by destruct Hio].
    destruct (timeout_restored io); act; [done|].
    change (Client.runtime (Client.set_recv_buffer_len _ c)) with (Client.runtime c).
    rewrite Hcommit. act. split; [|done]. split; [done|]. exists (Open s). done.
  - rewrite (Hno eq_refl). unfold PreparedOpenAcceptance.cleanup_close_packet. rewrite Hnext.
    destruct (timeout_restored io); act; [by rewrite app_nil_r|].
    rewrite Hcommit. act. split; [|done]. split; [done|]. exists StateNoTestCompleted. done.
Qed.

(** The replies an open exchange may act on: authentic open replies. *)
Definition authentic_reply c (packet : bytes) (reply : OpenReply.t) : Prop :=
  decode_open_reply packet (key (Client.runtime c)) = Ok reply.

Lemma open_datagram_spec h c packet at_ io :
  machine_ok h (Client.runtime c) → SessionMachine.state (Client.runtime c) = Connected →
  bytes_ok packet → io_ok io →
  match open_datagram packet at_ io c with
  | (Panic, _) => False
  | (Ok None, c') => c' = c
  | (Ok (Some outcome), c') =>
      Client.outbox c' = Client.outbox c ∧
      ∃ reply, authentic_reply c packet reply ∧ opened h c reply at_ outcome c'
  | (Err _, c') => Client.runtime c' = Client.runtime c ∧
      Client.outbox c' = Client.outbox c ++
        match decode_open_reply packet (key (Client.runtime c)) with
        | Ok reply => cleanup_list c reply | _ => [] end
  end.
Proof.
  intros Hm Hst Hb Hio. unfold open_datagram, inspect_open_datagram, ensure_connected.
  assert (authentic_reply c packet = λ r, decode_open_reply packet (key (Client.runtime c)) = Ok r)
    as Hauth by done.
  rewrite Hauth. clear Hauth. act. rewrite Hst.
  destruct (decode_open_reply packet (key (Client.runtime c))) as [reply|e|] eqn:Hd.
  - act. apply decode_open_reply_ok in Hd as [Hr _]; [|done].
    pose proof (open_acceptance_ok h _ reply at_ Hm Hst Hr) as Hacc.
    destruct (prepare_open_acceptance reply at_ (Client.runtime c)) as [prepared|failure|]; act; [|
      |done].
    + destruct Hacc as [Hacc Ha].
      destruct (prepare_client_open_ok h c reply at_ prepared Hm Ha) as (p & Hp & _).
      rewrite Hp. act.
      pose proof (apply_open_spec h c reply at_ prepared p io Hm Hst Hio Hacc Ha Hp) as Hap.
      destruct (apply_prepared_open p io c) as [[o|e|] c']; act; [|done|done].
      destruct Hap as [Ho Hout]. split; [done|]. by exists reply.
    + unfold send_cleanup_close_best_effort, cleanup_list. act. rewrite (proj1 Hacc).
      destruct (cleanup_of _ reply); [done|]. by rewrite app_nil_r.
  - act. destruct e; act; (done || by rewrite app_nil_r).
  - by apply decode_open_reply_no_panic in Hd.
Qed.

Definition step_ok (step : RecvStep) : Prop :=
  match outcome step with
  | OpenDatagram packet _ io => bytes_ok packet ∧ io_ok io
  | _ => True
  end.

(** Received datagrams and their times, in order. *)
Definition datagrams (steps : list RecvStep) : list (bytes * ClientTimestamp.t) :=
  omap (λ step, match outcome step with
                | OpenDatagram packet at_ _ => Some (packet, at_) | _ => None end) steps.

(** An open exchange that went on: it acted on an authentic reply among
    [received], or failed and released whatever that reply had allocated. *)
Definition exchange_result (h : Z) c (received : list (bytes * ClientTimestamp.t))
    (r : CResult (option OpenOutcome)) c' : Prop :=
  match r with
  | Panic => False
  | Ok None => c' = c
  | Ok (Some outcome) =>
      Client.outbox c' = Client.outbox c ∧
      ∃ packet at_ reply, (packet, at_) ∈ received ∧ authentic_reply c packet reply ∧
        opened h c reply at_ outcome c'
  | Err _ => Client.runtime c' = Client.runtime c ∧
      (Client.outbox c' = Client.outbox c ∨
       ∃ packet at_ reply, (packet, at_) ∈ received ∧ authentic_reply c packet reply ∧
         Client.outbox c' = Client.outbox c ++ cleanup_list c reply)
  end.

Lemma exchange_result_mono h c received received' r c' :
  received ⊆ received' → exchange_result h c received r c' → exchange_result h c received' r c'.
Proof.
  intros Hsub. unfold exchange_result. destruct r as [[o|]|e|]; try done.
  - intros (Hout & packet & at_ & reply & Hin & Hrest). split; [done|].
    exists packet, at_, reply. split; [by apply Hsub|done].
  - intros [Hrun [Hout|(packet & at_ & reply & Hin & Hrest)]]; (split; [done|]); [by left|].
    right. exists packet, at_, reply. split; [by apply Hsub|done].
Qed.

Lemma receive_open_spec h c deadline steps :
  machine_ok h (Client.runtime c) → SessionMachine.state (Client.runtime c) = Connected →
  Forall step_ok steps →
  let '(r, c') := receive_open deadline steps c in exchange_result h c (datagrams steps) r c'.
Proof.
  intros Hm Hst Hs. induction Hs as [|step steps Hstep _ IH]; [done|].
  assert (datagrams steps ⊆ datagrams (step :: steps)) as Hsub.
  { unfold datagrams. cbn. destruct (outcome step); set_solver. }
  assert (let '(r, c') := receive_open deadline steps c in
    exchange_result h c (datagrams (step :: steps)) r c') as IH'.
  { destruct (receive_open deadline steps c) as [r c']. by eapply exchange_result_mono. }
  clear IH Hsub. cbn [receive_open]. act.
  destruct (duration_since deadline (now_before step)) as [[| |]|]; try done; act;
    (destruct (narrowed step); unfold socket_result; act; [by split; [|left]|]).
  all: unfold step_ok in Hstep; destruct (outcome step) as [|error|packet at_ io] eqn:Ho; act.
  all: try (by split; [|left]).
  all: try (by destruct (deadline <=? now_after step); [done|exact IH']).
  all: destruct (deadline <? ClientTimestamp.mono at_); [done|].
  all: destruct Hstep as [Hb Hio].
  all: pose proof (open_datagram_spec h c packet at_ io Hm Hst Hb Hio) as Hd.
  all: destruct (open_datagram packet at_ io c) as [[[o|]|e|] c']; act; [|by subst c'| |done].
  all: assert ((packet, at_) ∈ datagrams (step :: steps)) as Hin
    by (unfold datagrams; cbn; rewrite Ho; cbn; set_solver).
  all: cbn [exchange_result].
  1,3: destruct Hd as (Hout & reply & Ha & Hop); split; [done|]; by exists packet, at_, reply.
  all: destruct Hd as [Hrun Hout]; split; [done|].
  all: destruct (decode_open_reply packet (key (Client.runtime c))) as [reply|e'|] eqn:Hdec;
    rewrite ?app_nil_r in Hout; [right|by left|by left].
  all: by exists packet, at_, reply.
Qed.

Definition attempts_ok (attempts : list Attempt) : Prop :=
  Forall (λ a, Forall step_ok (Client.steps a)) attempts.

Definition all_datagrams (attempts : list Attempt) : list (bytes * ClientTimestamp.t) :=
  attempts ≫= λ a, datagrams (Client.steps a).

(** The outcome of the whole exchange: some copies of the request were sent;
    then it opened on one authentic reply, or failed, with the machine as it was
    and at most one close, for the reply it had acted on. *)
Definition open_result (h : Z) c (request : bytes) (attempts : list Attempt)
    (r : CResult OpenOutcome) c' : Prop :=
  match r with
  | Panic => False
  | Ok outcome =>
      (∃ n, Client.outbox c' = Client.outbox c ++ replicate n request) ∧
      ∃ packet at_ reply, (packet, at_) ∈ all_datagrams attempts ∧ authentic_reply c packet reply ∧
        opened h c reply at_ outcome c'
  | Err _ => Client.runtime c' = Client.runtime c ∧
      ∃ n closes, Client.outbox c' = Client.outbox c ++ replicate n request ++ closes ∧
        (closes = [] ∨ ∃ packet at_ reply, (packet, at_) ∈ all_datagrams attempts ∧
           authentic_reply c packet reply ∧ closes = cleanup_list c reply)
  end.

Lemma open_attempts_spec h c request timeouts attempts :
  machine_ok h (Client.runtime c) → SessionMachine.state (Client.runtime c) = Connected →
  attempts_ok attempts →
  let '(r, c') := open_attempts request timeouts attempts c in open_result h c request attempts r c'.
Proof.
  intros Hm Hst Hs. revert c timeouts Hm Hst.
  assert (∀ c e attempts, open_result h c request attempts (Err e) c) as Hfail.
  { intros c e l. split; [done|]. exists 0%nat, []. rewrite app_nil_r. split; [done|by left]. }
  assert (∀ c e attempts, open_result h c request attempts (Err e) (Client.send request c)) as Hsent.
  { intros c e l. split; [done|]. exists 1%nat, []. split; [done|by left]. }
  induction Hs as [|a attempts Ha _ IH]; intros c timeouts Hm Hst.
  { destruct timeouts; apply Hfail. }
  destruct timeouts as [|timeout timeouts]; [apply Hfail|]. cbn [open_attempts].
  unfold instant_checked_add, socket_result. act.
  destruct (_ <=? INSTANT_MAX); unfold ok_or; act; [|apply Hfail].
  destruct (timeout_set a); act; [apply Hfail|]. destruct (request_sent a); act; [apply Hsent|].
  pose proof (receive_open_spec h (Client.send request c) (started a + timeout) (Client.steps a) Hm Hst Ha)
    as Hr.
  assert (datagrams (Client.steps a) ⊆ all_datagrams (a :: attempts)) as Hsub.
  { unfold all_datagrams. rewrite bind_cons. set_solver. }
  assert (all_datagrams attempts ⊆ all_datagrams (a :: attempts)) as Hsub'.
  { unfold all_datagrams. rewrite bind_cons. set_solver. }
  destruct (receive_open _ _ _) as [[[o|]|e|] c1]; cbn [exchange_result] in Hr; [| | |done].
  - destruct Hr as (Hout & packet & at_ & reply & Hin & Hauth & Hop). split; [by exists 1%nat|].
    exists packet, at_, reply. split; [by apply Hsub|done].
  - subst c1. specialize (IH (Client.send request c) timeouts Hm Hst).
    destruct (open_attempts request timeouts attempts (Client.send request c)) as [[o|e|] c2];
      cbn [open_result] in *; [| |done].
    + destruct IH as ([n Hout] & packet & at_ & reply & Hin & Hrest). split.
      { exists (S n). rewrite Hout. cbn. by rewrite <- app_assoc. }
      exists packet, at_, reply. split; [by apply Hsub'|done].
    + destruct IH as (Hrun & n & closes & Hout & Hcl). split; [done|]. exists (S n), closes. split.
      { rewrite Hout. cbn. by rewrite <- app_assoc. }
      destruct Hcl as [|(packet & at_ & reply & Hin & Hrest)]; [by left|right].
      exists packet, at_, reply. split; [by apply Hsub'|done].
  - destruct Hr as [Hrun Hr]. split; [done|]. destruct Hr as [Hout|(packet & at_ & reply & Hin & Hauth & Hout)].
    + exists 1%nat, []. rewrite Hout. split; [done|by left].
    + exists 1%nat, (cleanup_list c reply). rewrite Hout. cbn. split; [by rewrite <- app_assoc|right].
      exists packet, at_, reply. split; [by apply Hsub|done].
Qed.

Lemma open_spec h c attempts :
  machine_ok h (Client.runtime c) → attempts_ok attempts →
  let '(r, c') := open attempts c in
  match SessionMachine.state (Client.runtime c) with
  | Connected =>
      ∃ request, prepare_open_request (Client.runtime c) = Ok request ∧
        open_result h c request attempts r c'
  | _ => c' = c ∧ ∃ e, r = Err e
  end.
Proof.
  intros Hm Hs. unfold open, open_transaction. act.
  unfold prepare_open_request, ensure_connected.
  destruct (SessionMachine.state (Client.runtime c)) as [|s| |] eqn:Hst; cbn [mbind Result_bind].
  2,3,4: split; [done|by eexists].
  rewrite encode_request_ok by done. unfold protocol. cbn [map_err].
  set (request := sealed _ _ _).
  pose proof (open_attempts_spec h c request
    (OpenPolicy.timeouts (ClientConfig.open (SessionMachine.config (Client.runtime c)))) attempts Hm Hst Hs)
    as Ho.
  destruct (open_attempts _ _ _ c) as [r c']. by exists request.
Qed.
End adapter.
