(* ===== verification/ClientProps.v ===== *)
(** * irtt-client: runs of the blocking client

    The actions a caller can perform on a [Client], the clients they reach from
    [connect], the properties of all of them, and a concrete run. *)

From stdpp Require Import sorting.
From S2P Require Import Prelude ProtoBase Envelope ParamsCodec Layout OpenCodec RequestCodec.
From S2P Require Import EchoCodec ClientBase ClientNegotiation Probe ClientEvent Timing Machine MachineInv.
From S2P Require Import Client ClientTrace.
Import ActiveSession PendingProbe.

Local Ltac act :=
  cbv beta iota zeta delta [mbind M_bind Result_bind mret M_ret gets modify lift fail ask advance with_err
    map_err fst snd].

(** ** Runs *)
Inductive Action : Type :=
  | ActOpen (attempts : list Attempt)
  | ActSend (io : SendIo)
  | ActReceive (set_timeout : option string) (received : CResult (option Received)) (q : TxQueue)
      (dscp_cleared : bool)
  | ActPoll (now : Z) (q : TxQueue)
  | ActClose (reserved : bool) (dscp : CResult unit) (sent : string + Z) (sent_at : ClientTimestamp.t)
  | ActSetTimeout (timeout : option Z) (refused : option string).

(** What the environment may answer: bytes, clocks that do not run backwards. *)
Definition action_ok (t : Z) (a : Action) (t' : Z) : Prop :=
  t ≤ t' ∧
  match a with
  | ActOpen attempts => attempts_ok attempts
  | ActSend io => t ≤ ClientTimestamp.mono (send_anchor io) ≤ t'
  | ActReceive _ received _ _ =>
      match received with
      | Ok (Some d) => bytes_ok (packet d) | Ok None | Err _ => True | Panic => False end
  | ActPoll _ _ | ActSetTimeout _ _ => True
  | ActClose _ dscp _ _ => dscp ≠ Panic
  end.

Section runs.
Context `{Clocks} `{Target} `{!HmacMd5}.
Implicit Types c : Client.t.

Definition outcome_event (o : OpenOutcome) : ClientEvent.t :=
  match o with
  | OutcomeStarted s => ClientEvent.SessionStarted s
  | OutcomeNoTestCompleted n => ClientEvent.NoTestCompleted n
  end.

(** The events an action makes visible; [None] is a panic. *)
Definition perform (a : Action) c : option (list ClientEvent.t) * Client.t :=
  let visible (r : CResult (list ClientEvent.t)) :=
    match r with Ok evs => Some evs | Err _ => Some [] | Panic => None end in
  match a with
  | ActOpen attempts =>
      let '(r, c') := open attempts c in
      (match r with Ok o => Some [outcome_event o] | Err _ => Some [] | Panic => None end, c')
  | ActSend io =>
      let '(r, c') := send_probe io c in
      (match r with
       | Ok receipt | Err (AfterCommit receipt _) => Some [event_of_receipt receipt]
       | Err (NotCommitted _) => Some []
       | Panic => None
       end, c')
  | ActReceive set_timeout received q dscp_cleared =>
      let '(r, c') := recv_once set_timeout received q dscp_cleared c in (visible r, c')
  | ActPoll now q => let '(r, c') := client_poll_timeouts_at now q c in (visible r, c')
  | ActClose reserved dscp sent sent_at =>
      let '(r, c') := close reserved dscp sent sent_at c in (visible r, c')
  | ActSetTimeout timeout refused =>
      let '(r, c') := client_set_recv_timeout timeout refused c in
      (match r with Panic => None | _ => Some [] end, c')
  end.

(** [reachable config remote t c evs]: [connect] followed by any actions; [t] is
    an instant no earlier than any send anchor, [evs] the events so far. *)
Inductive reachable (config : ClientConfig.t) (remote : SocketAddr)
    : Z → Client.t → list ClientEvent.t → Prop :=
  | reach_connect t c : connect config remote = Ok c → reachable config remote t c []
  | reach_step t t' c c' evs new a :
      reachable config remote t c evs → action_ok t a t' → perform a c = (Some new, c') →
      reachable config remote t' c' (evs ++ new).

Definition client_ok (config : ClientConfig.t) (t : Z) c : Prop :=
  SessionMachine.config (Client.runtime c) = config ∧
  machine_ok (t + ClientConfig.probe_timeout config) (Client.runtime c).

Lemma tracks_mono capacity h h' P T s :
  h ≤ h' → tracks capacity h P T s → tracks capacity h' P T s.
Proof.
  intros Hh []. split; try done. eapply Forall_impl; [eassumption|]. cbn. intros. lia.
Qed.

Lemma machine_ok_mono h h' m : h ≤ h' → machine_ok h m → machine_ok h' m.
Proof.
  intros Hh [Hc Hv Hr Hs]. split; try done. destruct (SessionMachine.state m); try done.
  destruct Hs as (Hhd & P & T & Ht). split; [done|]. exists P, T. by eapply tracks_mono.
Qed.

(** A step leaves the client well-formed and its ledger balanced. *)
Definition good_step (config : ClientConfig.t) (t' : Z) (evs : list ClientEvent.t)
    (r : option (list ClientEvent.t) * Client.t) : Prop :=
  ∃ new, r.1 = Some new ∧ client_ok config t' r.2 ∧ ledger (evs ++ new) (Client.runtime r.2).

Lemma good_unchanged config t t' evs c r :
  client_ok config t c → t ≤ t' → ledger evs (Client.runtime c) →
  r.1 = Some [] → Client.runtime r.2 = Client.runtime c → good_step config t' evs r.
Proof.
  intros [Hcfg Hm] Ht Hl H1' H2'. exists []. rewrite app_nil_r. unfold client_ok. rewrite H2'.
  split; [done|]. split; [|done]. split; [done|]. eapply machine_ok_mono; [|exact Hm]. lia.
Qed.

Lemma outcome_neutral o : neutral (outcome_event o).
Proof. by destruct o. Qed.

Lemma opened_good config t t' evs c reply at_ o c' :
  client_ok config t c → t ≤ t' → ledger evs (Client.runtime c) →
  SessionMachine.state (Client.runtime c) = Connected →
  opened (t + ClientConfig.probe_timeout config) c reply at_ o c' →
  client_ok config t' c' ∧ ledger (evs ++ [outcome_event o]) (Client.runtime c').
Proof.
  intros [Hcfg Hm] Ht Hl Hst (_ & st & Hrun & Ha). unfold client_ok. rewrite Hrun.
  split.
  - split; [done|]. apply (machine_ok_mono (t + ClientConfig.probe_timeout config)); [lia|].
    eapply machine_set_state; [exact Hm|]. destruct st as [|s| |]; try done.
    destruct Ha as (_ & _ & Hhd & Htr & _). split; [done|]. by exists [], [].
  - apply ledger_neutral; [apply outcome_neutral|]. destruct st as [|s| |]; try done.
    + destruct Ha as (_ & _ & Hhd & Htr & _ & _ & Hsent & _). by eapply ledger_opened.
    + destruct Hl as [Hs Hk]. unfold ledger, Machine.packets_sent in *. rewrite Hst in *. done.
Qed.

Lemma good_open config t t' evs c attempts :
  client_ok config t c → ledger evs (Client.runtime c) → action_ok t (ActOpen attempts) t' →
  good_step config t' evs (perform (ActOpen attempts) c).
Proof.
  intros Hc Hl [Ht Ha]. pose proof (open_spec _ c attempts (proj2 Hc) Ha) as Ho. cbn [perform].
  destruct (open attempts c) as [r c'].
  destruct (SessionMachine.state (Client.runtime c)) eqn:Hst.
  2,3,4: destruct Ho as [-> [e ->]]; by eapply good_unchanged.
  destruct Ho as (request & _ & Ho). destruct r as [o|e|]; cbn [open_result] in Ho; [| |done].
  - destruct Ho as (_ & packet & at_ & reply & _ & _ & Hop). exists [outcome_event o].
    split; [done|]. by eapply opened_good.
  - destruct Ho as [Hrun _]. by eapply good_unchanged.
Qed.

Lemma good_send config t t' evs c io :
  client_ok config t c → ledger evs (Client.runtime c) → action_ok t (ActSend io) t' →
  good_step config t' evs (perform (ActSend io) c).
Proof.
  intros [Hcfg Hm] Hl [Ht Ha].
  assert (∀ d, d + ClientConfig.probe_timeout config = deadline_of c d) as Hdl.
  { intros d. unfold deadline_of. by rewrite Hcfg. }
  assert (∀ r c', committed c io r c' →
    client_ok config t' c' ∧ ledger (evs ++ [event_of_receipt r]) (Client.runtime c')) as Hgood.
  { intros r c' [(s & pkt & bytes & s1 & Hst & _ & _ & _ & Hseq & _ & _ & Htr & Hhd & Hsent & Hre)].
    cbn [timeout_at] in *.
    set (d := deadline_of c (ClientTimestamp.mono (send_anchor io))) in *.
    set (m1 := SessionMachine.set_state (Open s1) (Client.runtime c)) in *.
    assert (machine_ok d m1) as Hm1.
    { eapply machine_set_state; [exact Hm|]. split; [done|]. eauto. }
    split.
    - split; [by rewrite (proj1 (proj1 Hre))|].
      apply (machine_ok_mono d); [subst d; rewrite <- Hdl; lia|]. by eapply retagged_ok.
    - eapply ledger_retagged; [exact Hm1|exact Hre|].
      eapply (ledger_send _ (Client.runtime c) s s1 (PendingProbe.mk _ _ _ _ _)); try done.
      intros k. cbn. by rewrite Hseq. }
  pose proof (send_spec _ c io Hm) as Hs. cbn [perform].
  destruct (send_probe io c) as [[r|[e|r e]|] c'].
  - exists [event_of_receipt r]. split; [done|]. apply Hgood, Hs. rewrite <- Hdl. lia.
  - assert (retagged (t + ClientConfig.probe_timeout config) (Client.runtime c) (Client.runtime c'))
      as Hre by (apply Hs; rewrite <- Hdl; lia).
    exists []. rewrite app_nil_r. split; [done|]. split.
    + split; [cbn; by rewrite (proj1 (proj1 Hre))|].
      eapply machine_ok_mono; [|by eapply retagged_ok]. lia.
    + by eapply ledger_retagged.
  - exists [event_of_receipt r]. split; [done|]. apply Hgood, Hs. rewrite <- Hdl. lia.
  - exfalso. apply Hs. rewrite <- Hdl. lia.
Qed.

(** A machine after a drain of the error queue is as good as before. *)
Lemma good_retagged config t t' evs c c' :
  client_ok config t c → t ≤ t' → ledger evs (Client.runtime c) →
  retagged (t + ClientConfig.probe_timeout config) (Client.runtime c) (Client.runtime c') →
  client_ok config t c' ∧ client_ok config t' c' ∧ ledger evs (Client.runtime c').
Proof.
  intros [Hcfg Hm] Ht Hl Hre. pose proof (retagged_ok _ _ _ Hm Hre) as Hm'.
  assert (SessionMachine.config (Client.runtime c') = config) as Hcfg'.
  { by rewrite (proj1 (proj1 Hre)). }
  split; [done|]. split; [split; [done|]; eapply machine_ok_mono; [|exact Hm']; lia|].
  exact (ledger_retagged _ _ _ _ Hm Hre Hl).
Qed.

Lemma receive_step h m s packet now meta evs :
  machine_ok h m → SessionMachine.state m = Open s → bytes_ok packet → ledger evs m →
  ∃ new m', process_received_echo_packet packet now meta m = Ok (new, m') ∧
    SessionMachine.config m' = SessionMachine.config m ∧ machine_ok h m' ∧ ledger (evs ++ new) m'.
Proof.
  intros Hm Hst Hb Hl. destruct (machine_tracks h m s Hm Hst) as [Hhd Ht].
  destruct (receive_ok h m s packet now meta _ _ Hm Hst Hhd Ht ltac:(auto with irtt)) as (new & m' & Hp & Hr).
  exists new, m'. split; [done|].
  assert (∀ kind message, new = [ClientEvent.Warning kind message now] → m' = m →
    SessionMachine.config m' = SessionMachine.config m ∧ machine_ok h m' ∧ ledger (evs ++ new) m')
    as Hwarn.
  { intros kind message -> ->. split; [done|]. split; [done|]. by apply ledger_neutral. }
  destruct (decode_echo_reply _ _ _) as [reply|e|]; [|by destruct Hr as [[msg Hn] Hm']; eapply Hwarn..].
  case_bool_decide; [|by destruct Hr as [[msg Hn] Hm']; eapply Hwarn].
  destruct Hr as (s' & Hhd' & Hsh & Ht' & _ & -> & ->). cbv zeta in *.
  assert (completed_of m = CompletedSet.insertion_order (completed s)) as Hco.
  { unfold completed_of. by rewrite Hst. }
  pose proof (ledger_reply h m s s' evs (SessionMachine.remote m) reply (len packet) now meta
    Hst Hm Ht' Hsh Hl) as Hlr. rewrite Hco in Hlr.
  assert (machine_ok h (SessionMachine.set_state (Open s') m)) as Hm'.
  { eapply machine_set_state; [exact Hm|]. split; [done|]. eauto. }
  destruct (has (EchoReply.flags reply) FLAG_CLOSE); [|done].
  split; [done|]. split.
  - eapply machine_set_state; [exact Hm|]. apply (hd_sent _ _ _ Hhd).
  - change [?a; ?b] with ([a] ++ [b]). rewrite app_assoc. apply ledger_neutral; [done|].
    rewrite <- (sh_sent _ _ Hsh). by apply (ledger_closed (SessionMachine.set_state (Open s') m) s').
Qed.

Lemma good_receive config t t' evs c set_timeout received q cleared :
  client_ok config t c → ledger evs (Client.runtime c) →
  action_ok t (ActReceive set_timeout received q cleared) t' →
  good_step config t' evs (perform (ActReceive set_timeout received q cleared) c).
Proof.
  intros Hc Hl [Ht Ha]. unfold perform, recv_once, recv_once_inner, ensure_open, open_session,
    socket_result. act.
  destruct (SessionMachine.state (Client.runtime c)) as [|s| |] eqn:Hst; act;
    try (by eapply good_unchanged).
  destruct set_timeout; act; [by eapply good_unchanged|].
  destruct received as [[d|]|e|]; act; [|by eapply good_unchanged..|done].
  pose proof (drain_spec (t + ClientConfig.probe_timeout config) q c) as Hd.
  destruct (drain_tx_timestamps q c) as [r c1]. destruct Hd as (Hp & Hre & _).
  destruct (good_retagged config t t' evs c c1 Hc Ht Hl Hre) as (Hc1 & Hc1' & Hl1).
  destruct r as [u|e|]; act; [| |done].
  2:{ exists []. by rewrite app_nil_r. }
  destruct Hre as [_ Hst1]. rewrite Hst in Hst1. destruct Hst1 as (s1 & Hst1 & _).
  destruct (receive_step _ _ s1 (packet d) (received_at d) (meta d) evs (proj2 Hc1) Hst1 Ha Hl1)
    as (new & m' & -> & Hcfg & Hm' & Hl'). act.
  exists new. split; [done|].
  set (c2 := if _ && _ then _ else _).
  assert (Client.runtime c2 = m') as Hrun by (subst c2; by destruct (_ && _)).
  cbn [snd]. unfold client_ok. rewrite Hrun. split; [|done].
  split; [rewrite Hcfg; apply Hc1|]. eapply machine_ok_mono; [|exact Hm']. lia.
Qed.

Lemma good_poll config t t' evs c now q :
  client_ok config t c → ledger evs (Client.runtime c) → action_ok t (ActPoll now q) t' →
  good_step config t' evs (perform (ActPoll now q) c).
Proof.
  intros Hc Hl [Ht _]. unfold perform, client_poll_timeouts_at. act.
  pose proof (drain_spec (t + ClientConfig.probe_timeout config) q c) as Hd.
  destruct (drain_tx_timestamps q c) as [r c1]. destruct Hd as (Hp & Hre & _).
  destruct (good_retagged config t t' evs c c1 Hc Ht Hl Hre) as (Hc1 & Hc1' & Hl1).
  destruct r as [u|e|]; act; [| |done].
  2:{ exists []. by rewrite app_nil_r. }
  destruct (SessionMachine.state (Client.runtime c1)) as [|s1| |] eqn:Hst1.
  1,3,4: unfold poll_timeouts_at, poll_timeouts_bounded_at, open_session; rewrite Hst1; act;
    by eapply good_unchanged.
  destruct (machine_tracks _ _ s1 (proj2 Hc1) Hst1) as [Hhd Htr].
  destruct (poll_all_ok _ _ s1 now _ _ (proj2 Hc1) Hst1 Hhd Htr) as (s2 & Hpoll & Hhd2 & Hsh & R & HR & Ht2).
  cbv zeta in *. rewrite Hpoll. act.
  eexists. split; [reflexivity|]. cbn [snd]. split.
  - split; [apply Hc1|]. eapply (machine_ok_mono (t + ClientConfig.probe_timeout config)); [lia|].
    eapply machine_set_state; [apply Hc1|]. split; [done|]. eauto.
  - eapply ledger_poll; [done|apply Hc1|exact HR|exact Ht2|done|done].
Qed.

Lemma good_close config t t' evs c reserved dscp sent sent_at :
  client_ok config t c → ledger evs (Client.runtime c) →
  action_ok t (ActClose reserved dscp sent sent_at) t' →
  good_step config t' evs (perform (ActClose reserved dscp sent sent_at) c).
Proof.
  intros Hc Hl [Ht Ha]. unfold perform, close. act.
  destruct (SessionMachine.state (Client.runtime c)) as [|s| |] eqn:Hst.
  1,3,4: unfold prepare_close, open_session; rewrite Hst; act; by eapply good_unchanged.
  rewrite (close_packet_ok _ s Hst). act.
  destruct reserved; act; [|by eapply good_unchanged].
  destruct dscp as [u|e|]; act; [|by eapply good_unchanged|done].
  destruct sent as [err|bytes]; act; [by eapply good_unchanged|].
  unfold commit_local_close. cbn [Client.runtime Client.send]. rewrite Hst. act.
  destruct (machine_tracks _ _ s (proj2 Hc) Hst) as [Hhd _].
  set (m' := SessionMachine.set_state (Closed _ _) _).
  assert (machine_ok (t' + ClientConfig.probe_timeout config) m') as Hm'.
  { eapply machine_set_state; [apply Hc|]. apply (hd_sent _ _ _ Hhd). }
  assert (ledger evs m') as Hl' by by apply ledger_closed.
  assert (client_ok config t' (Client.set_applied None (Client.set_runtime m'
    (Client.send (local_close_packet s) c)))) as Hc' by (split; [apply Hc|done]).
  unfold validate_datagram_length. destruct (bytes =? _); act.
  - eexists. split; [reflexivity|]. split; [exact Hc'|]. by apply ledger_neutral.
  - exists []. rewrite app_nil_r. done.
Qed.

Lemma good_set_timeout config t t' evs c timeout refused :
  client_ok config t c → ledger evs (Client.runtime c) → action_ok t (ActSetTimeout timeout refused) t' →
  good_step config t' evs (perform (ActSetTimeout timeout refused) c).
Proof.
  intros Hc Hl [Ht _]. unfold perform, client_set_recv_timeout, socket_result. act.
  destruct refused; act; by eapply good_unchanged.
Qed.

Lemma perform_good config t t' evs c a :
  client_ok config t c → ledger evs (Client.runtime c) → action_ok t a t' →
  good_step config t' evs (perform a c).
Proof.
  destruct a; [apply good_open|apply good_send|apply good_receive|apply good_poll|apply good_close|apply good_set_timeout].
Qed.

Lemma connect_ok config remote t c :
  config_ok config → connect config remote = Ok c →
  client_ok config t c ∧ ledger [] (Client.runtime c) ∧ Client.outbox c = [] ∧
  SessionMachine.state (Client.runtime c) = Connected.
Proof.
  intros Hcfg (u & _ & Hc)%bind_ok. apply bind_ok in Hc as (m & Hm & Hc).
  apply bind_ok in Hc as (n & _ & <-%Ok_inj).
  destruct (new_ok config remote m (t + ClientConfig.probe_timeout config) Hcfg Hm) as [Hok Hst].
  assert (SessionMachine.config m = config) as Hcm.
  { apply bind_ok in Hm as (u' & _ & Hm). by apply bind_ok in Hm as (p & _ & <-%Ok_inj). }
  split; [by split|]. split; [|done]. unfold ledger, Machine.packets_sent. cbn. by rewrite Hst.
Qed.

Lemma reachable_good config remote t c evs :
  config_ok config → reachable config remote t c evs →
  client_ok config t c ∧ ledger evs (Client.runtime c).
Proof.
  intros Hcfg. induction 1 as [t c Hc|t t' c c' evs new a _ [Hc Hl] Ha Hp].
  - by destruct (connect_ok config remote t c Hcfg Hc) as (? & ? & _).
  - destruct (perform_good config t t' evs c a Hc Hl Ha) as (new' & Hn & Hc' & Hl').
    rewrite Hp in *. cbn in *. injection Hn as <-. done.
Qed.
End runs.

(** ** Properties *)
Section properties.
Context `{Clocks} `{Target} `{!HmacMd5}.
Implicit Types c : Client.t.

(** C6: the invariant of a session. In every reachable client with an open
    session the pending probes, the retained timed-out probes and the completed
    sequences are pairwise disjoint and free of repetitions, each within
    [max_pending_probes]; both linked tables hold exactly these probes, in
    deadline order, timed-out ones first; and the next sequence is the number of
    probes sent, modulo 2^32. *)
Theorem client_invariant config remote t c evs s :
  config_ok config → reachable config remote t c evs →
  SessionMachine.state (Client.runtime c) = Open s →
  let P := pending_of (Client.runtime c) in
  let T := retained_of (Client.runtime c) in
  let C := completed_of (Client.runtime c) in
  holds P (pending s) ∧ holds T (TimedOutMap.probes (timed_out s)) ∧
  NoDup (seqs P ++ seqs T ++ C) ∧ StronglySorted Z.le (timeout_at <$> T ++ P) ∧
  len P ≤ ClientConfig.max_pending_probes config ∧ len T ≤ ClientConfig.max_pending_probes config ∧
  len C ≤ ClientConfig.max_pending_probes config ∧
  next_wire_seq s = ActiveSession.packets_sent s mod 2 ^ 32 ∧ token s ≠ 0.
Proof.
  intros Hc Hr Hst P T C. destruct (reachable_good _ _ _ _ _ Hc Hr) as [[Hcfg Hm] _].
  destruct (machine_tracks _ _ s Hm Hst) as [Hh Ht]. fold P T in Ht.
  pose proof (capacity_pos _ _ Hm) as [Hcap _].
  assert (C = CompletedSet.insertion_order (completed s)) as HC
    by (unfold C, completed_of; by rewrite Hst).
  unfold capacity_of in *. rewrite Hcfg in *. destruct Ht as [HP HT Hco Hd Hs _ [_ HlP] [_ HlT] Hcc].
  split; [exact HP|]. split; [exact HT|]. split; [by rewrite HC|].
  split; [by apply by_deadline_timeouts|]. split; [done|]. split; [done|].
  split; [rewrite HC, <- Hcc; apply Hco; lia|]. split; apply Hh.
Qed.

(** C15: no action panics. Whatever a reachable client is asked to do, and
    whatever the socket, the allocator and the peer answer, the call returns
    with events or an error; no internal assertion fails. *)
Theorem client_total config remote t t' c evs a :
  config_ok config → reachable config remote t c evs → action_ok t a t' →
  ∃ new, perform a c = (Some new, (perform a c).2) ∧
    reachable config remote t' (perform a c).2 (evs ++ new).
Proof.
  intros Hc Hr Ha. destruct (reachable_good _ _ _ _ _ Hc Hr) as [Hok Hl].
  destruct (perform_good config t t' evs c a Hok Hl Ha) as (new & Hn & _).
  assert (perform a c = (Some new, (perform a c).2)) as Hp by (rewrite <- Hn; by destruct (perform a c)).
  exists new. split; [exact Hp|]. by eapply reach_step.
Qed.

(** C16: probe accounting. In every run, [packets_sent] is the number of sent
    events, and for every sequence the measured replies never outnumber the
    probes sent with it. While the session is open every sent probe is answered,
    pending, or reported lost, and an answered probe is no longer tracked. *)
Theorem probe_accounting config remote t c evs :
  config_ok config → reachable config remote t c evs →
  Machine.packets_sent (Client.runtime c) = tally is_send evs ∧
  ∀ k, tally (answers k) evs ≤ tally (sends k) evs ∧
    ∀ s, SessionMachine.state (Client.runtime c) = Open s →
      let P := count_seq k (pending_of (Client.runtime c)) in
      let T := count_seq k (retained_of (Client.runtime c)) in
      tally (answers k) evs + P + T ≤ tally (sends k) evs
        ≤ tally (answers k) evs + tally (loses k) evs + P.
Proof.
  intros Hc Hr. destruct (reachable_good _ _ _ _ _ Hc Hr) as [_ [Hs Hk]]. split; [done|].
  intros k. specialize (Hk k). pose proof (count_nonneg k (pending_of (Client.runtime c))).
  pose proof (count_nonneg k (retained_of (Client.runtime c))).
  destruct (SessionMachine.state (Client.runtime c)); (split; [lia|]); intros s' Hst; done.
Qed.

(** The machine of a reachable client with an open session. *)
Lemma reachable_open config remote t c evs s :
  config_ok config → reachable config remote t c evs →
  SessionMachine.state (Client.runtime c) = Open s →
  let m := Client.runtime c in
  let h := t + ClientConfig.probe_timeout config in
  SessionMachine.config m = config ∧ machine_ok h m ∧
  header_ok (SessionMachine.requested m) (key m) s ∧
  tracks (capacity_of m) h (pending_of m) (retained_of m) s.
Proof.
  intros Hc Hr Hst. destruct (reachable_good _ _ _ _ _ Hc Hr) as [[Hcfg Hm] _].
  by pose proof (machine_tracks _ _ s Hm Hst).
Qed.

(** Timeouts are exact. A poll at [now] reports the first [limit] due probes
    as lost, in deadline order and each once, says whether more are due, keeps
    every other probe pending, and remembers the lost ones for late replies. *)
Theorem timeouts_exact config remote t c evs s now limit :
  config_ok config → reachable config remote t c evs →
  SessionMachine.state (Client.runtime c) = Open s → 0 ≤ limit →
  let m := Client.runtime c in
  let due := filter (λ p, timeout_at p ≤ now) (pending_of m) in
  let lost := take (Z.to_nat limit) due in
  ∃ m', poll_timeouts_bounded_at now limit m
        = Ok (TimeoutBatch.mk (loss_event <$> lost) (limit <? len due), m') ∧
    pending_of m = lost ++ pending_of m' ∧
    retained_of m' = retain_all (ClientConfig.max_pending_probes config) lost (retained_of m) ∧
    completed_of m' = completed_of m ∧
    Machine.packets_sent m' = Machine.packets_sent m ∧
    (len due ≤ limit → Forall (λ p, now < timeout_at p) (pending_of m')).
Proof.
  intros Hc Hr Hst Hlim m due lost. change (SessionMachine.state m = Open s) in Hst.
  destruct (reachable_open _ _ _ _ _ s Hc Hr Hst) as (Hcfg & Hm & Hh & Ht). fold m in Hcfg, Hm, Hh, Ht.
  destruct (poll_ok _ m s now limit _ _ Hm Hst Hh Ht Hlim) as (s' & Hp & HP & _ & Hsh & Hco & Ht').
  cbv zeta in *. fold due in Hp, HP, Ht'. fold lost in Hp, HP, Ht'.
  eexists. split; [exact Hp|].
  destruct (tracks_of _ (SessionMachine.set_state (Open s') m) s' _ _ eq_refl Ht') as [HP' HT'].
  rewrite HP', HT'. split; [exact HP|]. unfold capacity_of. rewrite Hcfg. split; [done|].
  split. { unfold completed_of. rewrite Hst. cbn. by rewrite Hco. }
  split. { unfold Machine.packets_sent. rewrite Hst. cbn. apply (sh_sent _ _ Hsh). }
  intros Hall. rewrite Nat.min_r by (unfold len in *; lia).
  pose proof (tr_sorted _ _ _ _ _ Ht) as Hs. apply StronglySorted_app_1_r in Hs.
  by apply rest_not_due.
Qed.
(** ** Replies *)

Lemma find_drop_seq k l : find_seq k (drop_seq k l) = None.
Proof.
  unfold find_seq, drop_seq. rewrite list_filter_filter.
  assert (∀ l, filter (λ p, wire_seq p = k ∧ wire_seq p ≠ k) l = []) as ->; [|done].
  clear l. intros l. induction l as [|p l IH]; [done|]. by rewrite filter_cons_False by naive_solver.
Qed.

Lemma drop_drop_seq k l : drop_seq k (drop_seq k l) = drop_seq k l.
Proof. by apply drop_seq_absent, find_seq_None, find_drop_seq. Qed.

Lemma window_member capacity k C : k ∈ window capacity k C.
Proof. unfold window. case_bool_decide; set_solver. Qed.

(** A sequence that was just completed is a duplicate from then on. *)
Lemma classified_again capacity k P T C highest :
  classified (drop_seq k P) (drop_seq k T) (window capacity k C) highest k = Duplicate.
Proof.
  unfold classified. rewrite find_drop_seq. by rewrite bool_decide_true by apply window_member.
Qed.

(** What a reply of the session does to an open machine. *)
Definition reply_effect m packet now meta (s : ActiveSession.t) reply (cl : Classified)
    (s' : ActiveSession.t) : Prop :=
  let k := EchoReply.sequence reply in
  process_received_echo_packet packet now meta m
  = Ok ([reply_event (SessionMachine.remote m) reply (len packet) now meta (highest_received_seq s) cl],
        SessionMachine.set_state (Open s') m) ∧
  pending_of (SessionMachine.set_state (Open s') m) = drop_seq k (pending_of m) ∧
  retained_of (SessionMachine.set_state (Open s') m) = drop_seq k (retained_of m) ∧
  completed_of (SessionMachine.set_state (Open s') m)
  = (match measured cl with
     | Some _ => window (capacity_of m) k (completed_of m) | None => completed_of m end) ∧
  same_header s s'.

Lemma reply_effect_ok h m s packet now meta reply :
  machine_ok h m → SessionMachine.state m = Open s →
  decode_echo_reply packet (NegotiationResult.peer_params (negotiated s)) (key m) = Ok reply →
  EchoReply.token reply = token s → has (EchoReply.flags reply) FLAG_CLOSE = false →
  ∃ s', reply_effect m packet now meta s reply
          (classified (pending_of m) (retained_of m) (completed_of m) (highest_received_seq s)
             (EchoReply.sequence reply)) s' ∧
    machine_ok h (SessionMachine.set_state (Open s') m).
Proof.
  intros Hm Hst Hd Htok Hcl. destruct (machine_tracks h m s Hm Hst) as [Hh Ht].
  destruct (receive_ok h m s packet now meta _ _ Hm Hst Hh Ht ltac:(by rewrite Hd)) as (evs & m' & Hp & Hr).
  rewrite Hd, bool_decide_true in Hr by done.
  destruct Hr as (s' & Hh' & Hsh & Ht' & Hco & -> & ->). cbv zeta in *. rewrite Hcl in Hp.
  assert (completed_of m = CompletedSet.insertion_order (completed s)) as HC
    by (unfold completed_of; by rewrite Hst).
  rewrite <- HC in *. exists s'. split.
  - destruct (pending_set_open h m s' _ _ Ht') as [HP HT]. split; [exact Hp|].
    split; [done|]. split; [done|]. split; [exact Hco|done].
  - eapply machine_set_state; [exact Hm|]. split; [done|]. eauto.
Qed.

(** Replies are classified. A datagram that does not decode as an echo reply
    of the session is dropped with one warning. A reply with the session's token
    yields exactly one event, decided by where its sequence is found: among the
    pending probes a reply (late when it is out of order), among the completed
    ones a duplicate, among the timed-out ones a late reply, otherwise late
    without a measurement or untracked. Its probe is tracked no longer, so the
    same reply again is a duplicate that changes nothing tracked. *)
Theorem reply_classified config remote t c evs s packet now meta :
  config_ok config → reachable config remote t c evs →
  SessionMachine.state (Client.runtime c) = Open s → bytes_ok packet →
  let m := Client.runtime c in
  match decode_echo_reply packet (NegotiationResult.peer_params (negotiated s)) (key m) with
  | Ok reply =>
      if bool_decide (EchoReply.token reply = token s) then
        has (EchoReply.flags reply) FLAG_CLOSE = false →
        let cl := classified (pending_of m) (retained_of m) (completed_of m) (highest_received_seq s)
                    (EchoReply.sequence reply) in
        ∃ s', reply_effect m packet now meta s reply cl s' ∧
          let m' := SessionMachine.set_state (Open s') m in
          (is_Some (measured cl) → ∀ now' meta', ∃ m'',
             process_received_echo_packet packet now' meta' m'
             = Ok ([ClientEvent.DuplicateReply (EchoReply.sequence reply) (SessionMachine.remote m) now'
                      (len packet)], m'') ∧
             pending_of m'' = pending_of m' ∧ retained_of m'' = retained_of m' ∧
             completed_of m'' = completed_of m')
      else ∃ message, process_received_echo_packet packet now meta m
                      = Ok ([ClientEvent.Warning WrongToken message now], m)
  | _ => ∃ message, process_received_echo_packet packet now meta m
                    = Ok ([ClientEvent.Warning MalformedOrUnrelatedPacket message now], m)
  end.
Proof.
  intros Hc Hr Hst Hb m. change (SessionMachine.state m = Open s) in Hst.
  destruct (reachable_open _ _ _ _ _ s Hc Hr Hst) as (_ & Hm & Hh & Ht). fold m in Hm, Hh, Ht.
  destruct (receive_ok _ m s packet now meta _ _ Hm Hst Hh Ht ltac:(auto with irtt)) as (new & m' & Hp & Hrec).
  destruct (decode_echo_reply _ _ _) as [reply|e|] eqn:Hd;
    [|by destruct Hrec as [[msg ->] ->]; exists msg..].
  case_bool_decide as Htok; [|by destruct Hrec as [[msg ->] ->]; exists msg].
  clear Hp Hrec new m'. intros Hcl cl.
  destruct (reply_effect_ok _ m s packet now meta reply Hm Hst Hd Htok Hcl) as (s' & He & Hm').
  exists s'. split; [exact He|]. fold cl in He. destruct He as (_ & HP & HT & HC & Hsh).
  intros m' [p Hmeas] now' meta'. rewrite Hmeas in HC.
  destruct (reply_effect_ok _ m' s' packet now' meta' reply Hm' eq_refl) as (s'' & He & _);
    [by rewrite (sh_negotiated _ _ Hsh)|by rewrite (sh_token _ _ Hsh)|done|].
  fold m' in HP, HT, HC. rewrite HP, HT, HC, classified_again in He.
  destruct He as (Hp & HP' & HT' & HC' & _). eexists. split; [exact Hp|].
  rewrite HP', HT', HC', HP, HT, HC, !drop_drop_seq. done.
Qed.
(** ** Sending *)

(** A packet is request [r], under the key the machine authenticates with. *)
Definition carries m (packet : bytes) (r : DecodedRequestKind) : Prop :=
  bytes_ok packet ∧ decode_request packet = Ok (DecodedRequest.mk (has_hmac m) r) ∧
  ∀ k, key m = Some k → verify_packet_hmac k packet = Ok tt.

Lemma sealed_carries m r :
  request_ok r →
  carries m (sealed (key m) (request_flags r (has_hmac m)) (request_body r (key m)))
    (request_kind r (key m)).
Proof.
  intros Hr. split; [by apply request_packet_bytes|]. split; [by apply decode_request_sealed|].
  unfold has_hmac. intros k ->.
  by apply verify_request_sealed.
Qed.

(** A probe is always sendable as a packet that names the session and decodes. *)
Lemma probe_packet h m s pkt :
  machine_ok h m → header_ok (SessionMachine.requested m) (key m) s →
  encode_request (EncEcho (token s) (next_wire_seq s)
    (NegotiationResult.peer_params (negotiated s)) []) (key m) = Ok pkt →
  ∃ tail, carries m pkt (DecEcho (token s) (next_wire_seq s) tail).
Proof.
  intros Hm Hh. rewrite (encode_request_ok _ _ (probe_encodable h m s _ Hm Hh)). intros <-%Ok_inj.
  set (r := EncEcho _ _ _ _).
  assert (request_ok r) as Hr.
  { destruct Hh as [[_ ?] [_ ?] _ Hseq _]. split_and!; [done| |done|constructor].
    rewrite Hseq. by apply Z.mod_pos_bound. }
  eexists. by apply (sealed_carries m r).
Qed.

(** The conditions under which a probe can be sent. *)
Definition sendable c (io : SendIo) : Prop :=
  ∃ s, SessionMachine.state (Client.runtime c) = Open s ∧
    (next_wire_seq s ∉ seqs (pending_of (Client.runtime c))) ∧
    len (pending_of (Client.runtime c)) < capacity_of (Client.runtime c) ∧
    room io = true ∧ ActiveSession.packets_sent s < U64_MAX ∧
    deadline_of c (ClientTimestamp.mono (send_anchor io)) ≤ INSTANT_MAX ∧
    ∃ bytes, socket_send io = inr bytes.

Lemma sendable_commits h c io e c' :
  machine_ok h (Client.runtime c) → h ≤ deadline_of c (ClientTimestamp.mono (send_anchor io)) →
  sendable c io → send_probe io c ≠ (Err (NotCommitted e), c').
Proof.
  intros Hm Hh (s & Hst & Hfresh & Hlen & Hroom & Hsent & Hmax & bytes & Hio).
  destruct (machine_tracks h _ s Hm Hst) as [Hhd Ht].
  assert (session_ok h (Client.runtime c) s) as Hs by (split; eauto).
  destruct (prepare_probe_ok h _ s Hm Hst Hs) as (pkt & Hpp & _). unfold send_probe. act.
  rewrite Hpp. act. pose proof (preflight_ok h _ s (room io) pkt Hm Hst Hs _ _ Ht) as Hpf.
  destruct (preflight_probe_commit _ _ _) as [pf|e'|]; [|exfalso|done].
  2:{ destruct Hpf as [[? _]|[[? _]|[[? _]|[? _]]]]; [done|lia|congruence|lia]. }
  destruct Hpf as (-> & _ & _ & Hin & _). act.
  unfold finalize_probe_commit, instant_checked_add. unfold deadline_of in Hmax.
  rewrite (proj2 (Z.leb_le _ _)) by exact Hmax. cbn [ok_or]. act. rewrite Hio.
  destruct (commit_probe_ok h _ s _ _ (Client.sent_at io) bytes
    (deadline_of c (ClientTimestamp.mono (send_anchor io))) (ClientTimestamp.wall (send_anchor io))
    Hm Hst Hhd Ht Hfresh Hlen Hh Hin) as (s1 & Hcommit & _).
  change (Client.runtime (Client.send _ c)) with (Client.runtime c).
  unfold deadline_of in Hcommit.
  cbn [ok_or ProbeCommitPreflight.seq ProbeCommitPreflight.next_wire_seq
    ProbeCommitPreflight.next_packets_sent]. act.
  rewrite Hcommit. act. destruct (validate_datagram_length _ _); act; [|done..].
  by destruct (drain_tx_timestamps _ _) as [[]].
Qed.

(** Clients that differ only in kernel transmit timestamps. *)
Definition same_probes c c' : Prop :=
  Machine.packets_sent (Client.runtime c') = Machine.packets_sent (Client.runtime c) ∧
  Forall2 same_probe (pending_of (Client.runtime c)) (pending_of (Client.runtime c')) ∧
  Forall2 same_probe (retained_of (Client.runtime c)) (retained_of (Client.runtime c')) ∧
  completed_of (Client.runtime c') = completed_of (Client.runtime c).

Lemma retagged_lists h m m' s P T :
  SessionMachine.state m = Open s → tracks (capacity_of m) h P T s → retagged h m m' →
  Forall2 same_probe P (pending_of m') ∧ Forall2 same_probe T (retained_of m') ∧
  completed_of m' = CompletedSet.insertion_order (completed s) ∧
  Machine.packets_sent m' = ActiveSession.packets_sent s.
Proof.
  intros Hst Ht [(Hc & _) Hs]. rewrite Hst in Hs. destruct Hs as (s' & Hs' & Hsh & Hco & Hall).
  destruct (Hall P T Ht) as (P' & T' & Ht' & HP & HT).
  assert (capacity_of m' = capacity_of m) as Hcap by (unfold capacity_of; by rewrite Hc).
  rewrite <- Hcap in Ht'. destruct (tracks_of h m' s' P' T' Hs' Ht') as [-> ->].
  split; [done|]. split; [done|]. unfold completed_of, Machine.packets_sent. rewrite Hs', Hco.
  split; [done|]. apply Hsh.
Qed.

Lemma retagged_same_probes h c c' :
  machine_ok h (Client.runtime c) → retagged h (Client.runtime c) (Client.runtime c') → same_probes c c'.
Proof.
  intros Hm Hre. unfold same_probes.
  destruct (SessionMachine.state (Client.runtime c)) as [|s| |] eqn:Hst.
  1,3,4: destruct Hre as [_ Hs]; rewrite Hst in Hs; unfold Machine.packets_sent, pending_of,
    retained_of, completed_of; by rewrite Hst, Hs.
  destruct (machine_tracks h _ s Hm Hst) as [_ Ht].
  destruct (retagged_lists h _ _ s _ _ Hst Ht Hre) as (HP & HT & HC & Hs). split_and!; [|done|done|].
  - rewrite Hs. unfold Machine.packets_sent. by rewrite Hst.
  - rewrite HC. unfold completed_of. by rewrite Hst.
Qed.

(** One more datagram at the socket, one more probe tracked. *)
Definition probe_sent_effect c (io : SendIo) (r : SendReceipt) c' : Prop :=
  let m := Client.runtime c in
  let seq := Machine.packets_sent m mod 2 ^ 32 in
  let p := PendingProbe.mk seq (Client.sent_at io)
             (deadline_of c (ClientTimestamp.mono (send_anchor io)))
             (ClientTimestamp.wall (send_anchor io)) None in
  ∃ s pkt tail, SessionMachine.state m = Open s ∧
    Client.outbox c' = Client.outbox c ++ [pkt] ∧ socket_send io = inr (receipt_bytes r) ∧
    receipt_seq r = seq ∧
    carries m pkt (DecEcho (token s) seq tail) ∧
    Machine.packets_sent (Client.runtime c') = Machine.packets_sent m + 1 ∧
    (seq ∉ seqs (pending_of m)) ∧
    Forall2 same_probe (pending_of m ++ [p]) (pending_of (Client.runtime c')).

Lemma committed_effect h c io r c' :
  machine_ok h (Client.runtime c) → committed c io r c' → probe_sent_effect c io r c'.
Proof.
  intros Hm [(s & pkt & bytes & s1 & Hst & Henc & Hout & Hio & Hseq & _ & Hby & Htr & _ & Hsent & Hre)].
  destruct (machine_tracks h _ s Hm Hst) as [Hh _].
  destruct (probe_packet h _ s pkt Hm Hh Henc) as (tail & Hdec).
  destruct (retagged_lists _ (SessionMachine.set_state (Open s1) (Client.runtime c)) _ s1 _ _ eq_refl
    Htr Hre) as (HP & _ & _ & Hn).
  assert (next_wire_seq s = Machine.packets_sent (Client.runtime c) mod 2 ^ 32) as Hnext.
  { unfold Machine.packets_sent. rewrite Hst. apply Hh. }
  unfold probe_sent_effect. cbv zeta. rewrite <- Hnext. exists s, pkt, tail.
  split; [done|]. split; [done|]. split; [by rewrite Hby|]. do 2 (split; [done|]).
  split. { rewrite Hn, Hsent. unfold Machine.packets_sent. by rewrite Hst. }
  split; [|exact HP].
  pose proof (ho_nodup _ _ (tr_pending _ _ _ _ _ Htr)) as Hd. rewrite seqs_app in Hd.
  apply NoDup_app in Hd as (_ & Hd & _). intros Hin. apply (Hd _ Hin). set_solver.
Qed.

(** C21: the commit boundary of a send. A send that reports a receipt, even with
    an error, handed exactly one datagram to a socket that took it: an echo of
    this session with sequence [packets_sent] modulo 2^32, authenticated under
    the key; it counts one more probe and tracks one more, not tracked before,
    with the deadline of its send anchor. A send that reports no receipt leaves
    the count and every tracked probe as they were, and happens only when the
    session, the tables, the clock or the socket do not allow it. *)
Theorem send_commit_boundary config remote t t' c evs io :
  config_ok config → reachable config remote t c evs → action_ok t (ActSend io) t' →
  match send_probe io c with
  | (Ok r, c') | (Err (AfterCommit r _), c') => probe_sent_effect c io r c'
  | (Err (NotCommitted _), c') => same_probes c c' ∧ ¬ sendable c io
  | (Panic, _) => False
  end.
Proof.
  intros Hc Hr Ha. destruct (reachable_good _ _ _ _ _ Hc Hr) as [[Hcfg Hm] _].
  set (h := t + ClientConfig.probe_timeout config) in *.
  assert (h ≤ deadline_of c (ClientTimestamp.mono (send_anchor io))) as Hh.
  { destruct Ha as [_ Ha]. unfold h, deadline_of. rewrite Hcfg. lia. }
  pose proof (send_spec h c io Hm Hh) as Hs. pose proof (sendable_commits h c io) as Hno.
  destruct (send_probe io c) as [[r|[e|r e]|] c']; [by eapply committed_effect| |
    by eapply committed_effect|done].
  split; [by eapply retagged_same_probes|]. intros Hyes. by apply (Hno e c' Hm Hh Hyes).
Qed.
(** ** Opening *)

Lemma open_request_ok h m :
  machine_ok h m → SessionMachine.state m = Connected →
  ∃ request, prepare_open_request m = Ok request ∧
    carries m request (DecOpen (no_test_mode m) (encode_params (SessionMachine.requested m))).
Proof.
  intros Hm Hst. unfold prepare_open_request, ensure_connected. rewrite Hst. cbn [mbind Result_bind].
  fold (no_test_mode m). rewrite encode_request_ok by done. eexists. split; [reflexivity|].
  apply (sealed_carries m (EncOpen (SessionMachine.requested m) (no_test_mode m))).
  by apply (machine_requested h m).
Qed.

(** The closes that release what a reply may have allocated: at most one. *)
Definition releases m (reply : OpenReply.t) (closes : list bytes) : Prop :=
  if negb (has (OpenReply.flags reply) FLAG_CLOSE) && negb (OpenReply.token reply =? 0)
  then ∃ close, closes = [close] ∧ carries m close (DecClose (OpenReply.token reply))
  else closes = [].

Lemma cleanup_releases c reply :
  open_reply_ok reply → releases (Client.runtime c) reply (cleanup_list c reply).
Proof.
  intros Hr. unfold releases, cleanup_list, cleanup_of.
  destruct (_ && _); [|done]. rewrite encode_request_ok by done. eexists. split; [reflexivity|].
  apply (sealed_carries (Client.runtime c) (EncClose (OpenReply.token reply))). apply Hr.
Qed.

(** The session an accepted reply starts: its token and parameters, no probes. *)
Definition started c (reply : OpenReply.t) (at_ : ClientTimestamp.t) outcome c' : Prop :=
  let m := Client.runtime c in
  let n := result_of m (OpenReply.params reply) in
  if no_test_mode m then
    OpenReply.token reply = 0 ∧ SessionMachine.state (Client.runtime c') = StateNoTestCompleted ∧
    outcome = OutcomeNoTestCompleted (NoTestCompleted.mk (SessionMachine.remote m) n at_)
  else
    ∃ s, SessionMachine.state (Client.runtime c') = Open s ∧
      token s = OpenReply.token reply ∧ token s ≠ 0 ∧ negotiated s = n ∧
      ActiveSession.packets_sent s = 0 ∧ next_wire_seq s = 0 ∧
      pending_of (Client.runtime c') = [] ∧ retained_of (Client.runtime c') = [] ∧
      carries m (local_close_packet s) (DecClose (token s)) ∧
      outcome = OutcomeStarted (SessionStarted.mk (SessionMachine.remote m) (token s) n at_).

Lemma opened_started h c reply at_ outcome c' :
  opened h c reply at_ outcome c' →
  agreed (Client.runtime c) (OpenReply.params reply) ∧ started c reply at_ outcome c'.
Proof.
  intros [Hag (st & Hrun & Ha)]. split; [exact Hag|]. unfold started, no_test_mode, acceptance_of in *.
  rewrite Hrun. destruct st as [|s| |]; [done| | |done].
  - destruct Ha as (-> & _ & Hh & Ht & Htok & Hn & Hs & Hseq & _ & ->).
    destruct (pending_set_open h (Client.runtime c) s _ _ Ht) as [HP HT].
    exists s. rewrite HP, HT, <- Hn. split; [done|]. split; [done|].
    destruct Hh as [[Hz Htr] _ Hcl _ _]. split; [done|]. do 5 (split; [done|]). split; [|done].
    rewrite encode_request_ok in Hcl by done. apply Ok_inj in Hcl as <-.
    by apply (sealed_carries (Client.runtime c) (EncClose (token s))).
  - destruct Ha as (-> & _ & Hz & _ & ->). done.
Qed.

Lemma datagram_bytes attempts packet at_ :
  attempts_ok attempts → (packet, at_) ∈ all_datagrams attempts → bytes_ok packet.
Proof.
  unfold attempts_ok, all_datagrams, datagrams. intros Ha (a & Hin & Ha')%list_elem_of_bind.
  rewrite Forall_forall in Ha. specialize (Ha a Ha'). rewrite Forall_forall in Ha.
  apply list_elem_of_omap in Hin as (step & Hs & Heq). specialize (Ha step Hs). unfold step_ok in Ha.
  destruct (outcome step); try discriminate Heq. injection Heq as -> ->. apply Ha.
Qed.

(** Opening is a transaction. On a connected client it sends copies of one
    open request for the configured parameters and then either starts a session
    from one authentic reply it received, with that reply's token and parameters,
    which restrict the request (or equal it, under the strict policy); or fails
    with the machine still connected, having sent a close for exactly the session
    that the reply it acted on may have allocated. Nothing else is sent. *)
Theorem open_transactional config remote t t' c evs attempts :
  config_ok config → reachable config remote t c evs → action_ok t (ActOpen attempts) t' →
  SessionMachine.state (Client.runtime c) = Connected →
  let m := Client.runtime c in
  ∃ request, carries m request (DecOpen (no_test_mode m) (encode_params (SessionMachine.requested m))) ∧
  match open attempts c with
  | (Ok outcome, c') =>
      ∃ n packet at_ reply, Client.outbox c' = Client.outbox c ++ replicate n request ∧
        (packet, at_) ∈ all_datagrams attempts ∧ authentic_reply c packet reply ∧
        agreed m (OpenReply.params reply) ∧ started c reply at_ outcome c'
  | (Err _, c') => Client.runtime c' = m ∧
      ∃ n closes, Client.outbox c' = Client.outbox c ++ replicate n request ++ closes ∧
        (closes = [] ∨
         ∃ packet at_ reply, (packet, at_) ∈ all_datagrams attempts ∧ authentic_reply c packet reply ∧
           releases m reply closes)
  | (Panic, _) => False
  end.
Proof.
  intros Hc Hr [_ Ha] Hst m. destruct (reachable_good _ _ _ _ _ Hc Hr) as [[_ Hm] _].
  pose proof (open_spec _ c attempts Hm Ha) as Ho.
  destruct (open_request_ok _ _ Hm Hst) as (request & Hreq & Hcarry).
  destruct (open attempts c) as [r c']. rewrite Hst in Ho. destruct Ho as (request' & Hreq' & Ho).
  rewrite Hreq in Hreq'. apply Ok_inj in Hreq' as <-. exists request. split; [exact Hcarry|].
  destruct r as [outcome|e|]; [| |done].
  - destruct Ho as ([n Hout] & packet & at_ & reply & Hin & Hauth & Hop).
    apply opened_started in Hop as [Hag Hstart]. by exists n, packet, at_, reply.
  - destruct Ho as (Hrun & n & closes & Hout & Hcl). split; [done|]. exists n, closes. split; [done|].
    destruct Hcl as [Hcl|(packet & at_ & reply & Hin & Hauth & ->)]; [by left|right].
    exists packet, at_, reply. split; [done|]. split; [done|]. apply cleanup_releases.
    eapply decode_open_reply_ok; [|exact Hauth]. by eapply datagram_bytes.
Qed.
End properties.

(** ** A concrete run *)

Section example.
Definition example_clocks : Clocks := {| INSTANT_MAX := 2 ^ 63 |}.
#[local] Existing Instances target64 toy_hmac example_clocks.

Definition client_config : ClientConfig.t :=
  ClientConfig.mk AnyFamily SocketConfig.default SessionRequest.default
    (OpenPolicy.mk DEFAULT_OPEN_TIMEOUTS Loose) (HmacAuth [42]) (from_secs 4) 2.
Definition example_remote : SocketAddr := V4 2130706433 2112.
Definition at_time (t : Z) : ClientTimestamp.t := ClientTimestamp.mk (1_700_000_000_000_000_000 + t) t.

Lemma client_config_ok : config_ok client_config.
Proof.
  split; [split|..].
  - intros d [= <-]. by unfold duration_ok.
  - by unfold duration_ok.
  - by unfold in_u.
  - by unfold in_u.
  - by intros f [=].
  - by unfold duration_ok.
  - done.
Qed.

Definition example_connected : Client.t :=
  match connect client_config example_remote with
  | Ok c => c
  | _ => Client.mk (SessionMachine.mk client_config example_remote Params.default Connected)
           example_remote 0 None None false []
  end.

(** The server grants the request under token 7. *)
Definition example_granted : Params.t := SessionMachine.requested (Client.runtime example_connected).
Definition granted_reply : bytes :=
  match encode_open_reply (OpenReply.mk (Z.lor FLAG_OPEN FLAG_REPLY) 7 example_granted) (Some [42]) with
  | Ok p => p | _ => [] end.

Definition no_queue : TxQueue := mk_TxQueue [] None.
Definition example_open : Action :=
  ActOpen [mk_Attempt 1000 None None
    [mk_RecvStep 1000 None RetryableError 1500;
     mk_RecvStep 1500 None (OpenDatagram granted_reply (at_time 2000)
       (mk_ApplyIo true (Ok tt) None false)) 2000]].
Definition example_io (t : Z) : SendIo :=
  mk_SendIo true (at_time t) t (inr 76) t (at_time t) no_queue.
Definition example_send (t : Z) : Action := ActSend (example_io t).

Definition example_opened : Client.t := (perform example_open example_connected).2.
Definition example_sent : Client.t := (perform (example_send 5000) example_opened).2.

Definition events_of (a : Action) (c : Client.t) : list ClientEvent.t := default [] (perform a c).1.

Lemma reach_perform config remote t t' c evs a :
  reachable config remote t c evs → action_ok t a t' → Envelope.is_some (perform a c).1 = true →
  reachable config remote t' (perform a c).2 (evs ++ events_of a c).
Proof.
  intros Hr Ha Hp. eapply reach_step; [exact Hr|exact Ha|]. unfold events_of.
  by destruct (perform a c) as [[new|] c'].
Qed.

Lemma example_connected_reachable : reachable client_config example_remote 0 example_connected [].
Proof. apply reach_connect. vm_compute. reflexivity. Qed.

Lemma example_open_ok : action_ok 0 example_open 3000.
Proof.
  split; [done|]. constructor; [|constructor]. constructor; [done|]. constructor; [|constructor].
  split; [decide_now|done].
Qed.

Lemma example_opened_reachable :
  reachable client_config example_remote 3000 example_opened (events_of example_open example_connected).
Proof.
  apply (reach_perform _ _ 0 3000 example_connected [] example_open);
    [exact example_connected_reachable|exact example_open_ok|vm_compute; reflexivity].
Qed.

Definition example_events : list ClientEvent.t :=
  events_of example_open example_connected ++ events_of (example_send 5000) example_opened.

Lemma example_sent_reachable :
  reachable client_config example_remote 6000 example_sent example_events.
Proof.
  apply (reach_perform _ _ 3000 6000 example_opened); [exact example_opened_reachable| |].
  - split; done.
  - vm_compute. reflexivity.
Qed.

Definition session_of (c : Client.t) : ActiveSession.t :=
  match SessionMachine.state (Client.runtime c) with
  | Open s => s
  | _ => ActiveSession.mk 0 (result_of (Client.runtime c) Params.default) [] 0 None 0
           (PendingMap.new 0) (TimedOutMap.new 0) (CompletedSet.new 0) true
  end.

Example example_run :
  len (Client.outbox example_sent) = 2 ∧ token (session_of example_sent) = 7 ∧
  seqs (pending_of (Client.runtime example_sent)) = [0] ∧ tally is_send example_events = 1.
Proof. vm_compute. done. Qed.

Lemma example_sent_open :
  SessionMachine.state (Client.runtime example_sent) = Open (session_of example_sent).
Proof. vm_compute. reflexivity. Qed.

Lemma client_invariant_witness :
  seqs (pending_of (Client.runtime example_sent)) = [0] ∧
  next_wire_seq (session_of example_sent)
  = ActiveSession.packets_sent (session_of example_sent) mod 2 ^ 32.
Proof.
  split; [vm_compute; reflexivity|].
  apply (client_invariant client_config example_remote 6000 example_sent example_events
    (session_of example_sent) client_config_ok example_sent_reachable example_sent_open).
Defined.

Lemma client_total_witness :
  ∃ new, perform (ActPoll (10 ^ 15) no_queue) example_sent
         = (Some new, (perform (ActPoll (10 ^ 15) no_queue) example_sent).2) ∧
    reachable client_config example_remote 7000
      (perform (ActPoll (10 ^ 15) no_queue) example_sent).2 (example_events ++ new).
Proof.
  exact (client_total client_config example_remote 6000 7000 example_sent example_events
    (ActPoll (10 ^ 15) no_queue) client_config_ok example_sent_reachable ltac:(split; done)).
Defined.

Lemma probe_accounting_witness :
  Machine.packets_sent (Client.runtime example_sent) = tally is_send example_events.
Proof.
  apply (probe_accounting client_config example_remote 6000 example_sent example_events
    client_config_ok example_sent_reachable).
Defined.

(** Nothing is due before the deadline, and the probe is lost at it. *)
Lemma timeouts_exact_witness :
  ∃ m', poll_timeouts_bounded_at (5000 + from_secs 4) 10 (Client.runtime example_sent)
    = Ok (TimeoutBatch.mk [ClientEvent.EchoLoss 0 (at_time 5000) (5000 + from_secs 4)] false, m') ∧
    pending_of m' = [].
Proof.
  destruct (timeouts_exact client_config example_remote 6000 example_sent example_events
    (session_of example_sent) (5000 + from_secs 4) 10 client_config_ok example_sent_reachable
    example_sent_open ltac:(lia)) as (m' & Hp & HP & _).
  exists m'. split; [exact Hp|].
  assert (len (pending_of (Client.runtime example_sent)) = 1) as Hl by (vm_compute; reflexivity).
  apply (f_equal len) in HP. rewrite len_app, Hl in HP. destruct (pending_of m'); [done|].
  exfalso. revert HP. vm_compute len at 1. intros HP. len_lia.
Defined.

(** The server's answer to the probe. *)
Definition probe_reply : bytes :=
  match encode_echo_reply (EchoReply.mk FLAG_REPLY 7 0 (Some 1) (Some 1)
      (TimestampFields.mk (Some 1) (Some 1) None None (Some 2) (Some 2)) []) example_granted (Some [42]) with
  | Ok p => p | _ => [] end.
Definition no_meta : ReceiveMeta.t := ReceiveMeta.mk None None.

Definition blank_reply : EchoReply.t := EchoReply.mk 0 0 0 None None TimestampFields.default [].
Definition decoded_reply : EchoReply.t :=
  match decode_echo_reply probe_reply example_granted (Some [42]) with Ok r => r | _ => blank_reply end.

Lemma reply_classified_witness :
  EchoReply.sequence decoded_reply = 0 ∧ EchoReply.recv_count decoded_reply = Some 1 ∧
  ∃ s', reply_effect (Client.runtime example_sent) probe_reply (at_time 9000) no_meta
    (session_of example_sent) decoded_reply
    (FromPending (PendingProbe.mk 0 (at_time 5000) (5000 + from_secs 4)
       (ClientTimestamp.wall (at_time 5000)) None)) s'.
Proof.
  split; [vm_compute; reflexivity|]. split; [vm_compute; reflexivity|].
  pose proof (reply_classified client_config example_remote 6000 example_sent example_events
    (session_of example_sent) probe_reply (at_time 9000) no_meta client_config_ok
    example_sent_reachable example_sent_open ltac:(decide_now)) as Hr. cbv zeta in Hr.
  assert (decode_echo_reply probe_reply
    (NegotiationResult.peer_params (negotiated (session_of example_sent)))
    (key (Client.runtime example_sent)) = Ok decoded_reply) as Hd by (vm_compute; reflexivity).
  rewrite Hd, bool_decide_true in Hr by (vm_compute; reflexivity).
  destruct (Hr ltac:(vm_compute; reflexivity)) as (s' & He & _). exists s'.
  assert (classified (pending_of (Client.runtime example_sent)) (retained_of (Client.runtime example_sent))
    (completed_of (Client.runtime example_sent)) (highest_received_seq (session_of example_sent))
    (EchoReply.sequence decoded_reply)
    = FromPending (PendingProbe.mk 0 (at_time 5000) (5000 + from_secs 4)
       (ClientTimestamp.wall (at_time 5000)) None)) as Hcl by (vm_compute; reflexivity).
  rewrite Hcl in He. exact He.
Defined.

Lemma send_commit_boundary_witness :
  ∃ r c', send_probe (example_io 5000) example_opened = (Ok r, c') ∧
    probe_sent_effect example_opened (example_io 5000) r c'.
Proof.
  pose proof (send_commit_boundary client_config example_remote 3000 6000 example_opened
    (events_of example_open example_connected) (example_io 5000) client_config_ok
    example_opened_reachable ltac:(split; done)) as Hs.
  destruct (send_probe (example_io 5000) example_opened) as [r c'] eqn:Heq.
  assert (is_ok r = true) as Hok
    by (apply (f_equal (λ x, is_ok x.1)) in Heq; cbn [fst] in Heq; rewrite <- Heq; vm_compute; reflexivity).
  destruct r as [r|e|]; [|discriminate Hok..]. exists r, c'. split; [reflexivity|exact Hs].
Defined.

Lemma open_transactional_witness :
  ∃ outcome c' reply, open [mk_Attempt 1000 None None
      [mk_RecvStep 1500 None (OpenDatagram granted_reply (at_time 2000)
         (mk_ApplyIo true (Ok tt) None false)) 2000]] example_connected = (Ok outcome, c') ∧
    started example_connected reply (at_time 2000) outcome c'.
Proof.
  set (attempts := [_]).
  destruct (open_transactional client_config example_remote 0 3000 example_connected [] attempts
    client_config_ok example_connected_reachable) as (request & _ & Ho).
  - split; [done|]. constructor; [|constructor]. constructor; [|constructor]. split; [decide_now|done].
  - vm_compute. reflexivity.
  - destruct (open attempts example_connected) as [r c'] eqn:Heq.
    assert (is_ok r = true) as Hok
      by (apply (f_equal (λ x, is_ok x.1)) in Heq; cbn [fst] in Heq; rewrite <- Heq; vm_compute; reflexivity).
    destruct r as [outcome|e|]; [|discriminate Hok..].
    destruct Ho as (n & packet & at_ & reply & _ & Hin & _ & _ & Hs).
    apply list_elem_of_singleton in Hin as [= -> ->].
    exists outcome, c', reply. split; [reflexivity|exact Hs].
Defined.
End example.
