(* ===== verification/ClientBlocking.v ===== *)
(** * irtt-client: the blocking socket

    Completes the model of [crates/irtt-client/src/client.rs]: what [Client] does to
    its socket around the steps of Client, that is the receive timeout with its
    retries of interrupted calls, the bounded drain [recv_available], and the
    traffic class that a close clears and a failed close restores. *)

From S2P Require Import Prelude ProtoBase Envelope ParamsCodec Layout OpenCodec RequestCodec.
From S2P Require Import EchoCodec ClientBase ClientNegotiation Probe ClientEvent Timing Machine MachineInv.
From S2P Require Import Client ClientTrace ClientProps.
Import Client.Client.

Local Ltac act :=
  cbv beta iota zeta delta [mbind M_bind Result_bind mret M_ret gets modify lift fail ask advance fst snd].

(** ** State *)
(** A client, with the options in force on its socket. *)
Module Blocking.
Record t : Type := mk {
  client : Client.t;
  read_timeout : option Z;
  socket_class : Z;
}.
Definition set_client (c : Client.t) (b : t) : t := mk c (read_timeout b) (socket_class b).
Definition set_timeout (v : option Z) (b : t) : t := mk (client b) v (socket_class b).
Definition set_class (v : Z) (b : t) : t := mk (client b) (read_timeout b) v.
End Blocking.
Import Blocking.

Definition B (E A : Type) : Type := Blocking.t → Result E A * Blocking.t.
#[export] Instance B_ret E : MRet (B E) := λ A a b, (Ok a, b).
#[export] Instance B_bind E : MBind (B E) := λ A C f m b,
  match m b with
  | (Ok a, b) => f a b
  | (Err e, b) => (Err e, b)
  | (Panic, b) => (Panic, b)
  end.
Definition on_client {E A} (m : M E A) : B E A := λ b,
  let '(r, c) := m (client b) in (r, set_client c b).
Definition socket_gets {E A} (f : Blocking.t → A) : B E A := λ b, (Ok (f b), b).

(** [set_read_timeout], and the same where its failure is not looked at. *)
Definition set_read_timeout (timeout : option Z) (refused : option string) : B ClientError.t unit := λ b,
  match refused with
  | Some source => (Err (ClientError.Socket source), b)
  | None => (Ok tt, set_timeout timeout b)
  end.
Definition best_effort {E} (m : B E unit) : B E unit := λ b, (Ok tt, (m b).2).

(** [apply_traffic_class_to_socket] and [clear_dscp_on_socket]; [answer] is what the
    system says. *)
Definition set_socket_class (class : Z) (answer : CResult unit) : B ClientError.t unit := λ b,
  match answer with Ok _ => (Ok tt, set_class class b) | r => (r, b) end.

Definition restore_dscp_best_effort {E} (previous_traffic_class : option Z) (answer : CResult unit) : B E unit :=
  λ b, (Ok tt, (set_socket_class (default 0 previous_traffic_class) answer b).2).

Section blocking.
Context `{Clocks} `{Target} `{!HmacMd5}.

Definition set_recv_timeout (timeout : option Z) (refused : option string) : B ClientError.t unit :=
  _ ← set_read_timeout timeout refused;
  on_client (modify (Client.set_timeout timeout)).

(** ** Receiving *)
Inductive ReadOutcome : Type :=
  | ReadDatagram (d : Received)
  | ReadIdle
  | ReadInterrupted
  | ReadFailed (error : string).

(** One read: how it ended and, if it was interrupted, the clock looked at then and
    the answer to narrowing the timeout. *)
Record ReadTurn : Type := mk_ReadTurn {
  read : ReadOutcome;
  checked_at : Z;
  narrowing : option string;
}.

(** The state of the loop: the timeout in force and whether it was narrowed. *)
Record ReadState : Type := mk_ReadState { in_force : option Z; narrowed_ : bool }.

(** One turn: [inl] is the end of the loop. *)
Definition read_turn (deadline : option Z) (turn : ReadTurn) (s : ReadState)
    : CResult (option Received) + ReadState :=
  match read turn with
  | ReadDatagram d => inl (Ok (Some d))
  | ReadIdle => inl (Ok None)
  | ReadFailed error => inl (Err (ClientError.Socket error))
  | ReadInterrupted =>
      match deadline with
      | None => inr s
      | Some deadline =>
          match duration_since deadline (checked_at turn) with
          | None => inl (Ok None)
          | Some remaining =>
              if remaining =? 0 then inl (Ok None)
              else match narrowing turn with
                   | Some error => inl (Err (ClientError.Socket error))
                   | None => inr (mk_ReadState (Some remaining) true)
                   end
          end
      end
  end.

(** The loop over what the reads come to; [None] while it is still blocked. *)
Fixpoint read_loop (deadline : option Z) (turns : list ReadTurn) (s : ReadState)
    : option (CResult (option Received) * ReadState) :=
  match turns with
  | [] => None
  | turn :: turns =>
      match read_turn deadline turn s with
      | inl r => Some (r, s)
      | inr s => read_loop deadline turns s
      end
  end.

(** What one reception meets: the clock before it, its reads, and the answer to
    putting the timeout back. *)
Record Reception : Type := mk_Reception {
  begun_at : Z;
  turns : list ReadTurn;
  put_back : option string;
  queue : TxQueue;
  cleared : CResult unit;
}.

(** After the loop: a narrowed timeout is put back. *)
Definition finish_reception (i : Reception) (result : CResult (option Received)) (s : ReadState) (b : Blocking.t)
    : CResult (option Received) * Blocking.t :=
  let b := set_timeout (in_force s) b in
  if narrowed_ s then
    let '(r, b) := set_read_timeout (recv_timeout (client b)) (put_back i) b in
    (match r with Ok _ => result | Err e => Err e | Panic => Panic end, b)
  else (result, b).

(** [None] while it is still blocked. *)
Definition recv_datagram_retrying_interrupted (i : Reception) (b : Blocking.t)
    : option (CResult (option Received) * Blocking.t) :=
  let deadline :=
    match recv_timeout (client b) with
    | Some timeout => Some <$> ok_or (instant_checked_add (begun_at i) timeout) ClientError.DurationOverflow
    | None => Ok None
    end in
  match deadline with
  | Err e => Some (Err e, b)
  | Panic => Some (Panic, b)
  | Ok deadline =>
      '(result, s) ← read_loop deadline (turns i) (mk_ReadState (read_timeout b) false);
      Some (finish_reception i result s b)
  end.

Definition clears (answer : CResult unit) : bool := match answer with Ok _ => true | _ => false end.

(** [recv_once_inner]; a cleared traffic class is cleared on the socket too. *)
Definition blocking_recv_inner (i : Reception) (b : Blocking.t)
    : option (CResult (list ClientEvent.t) * Blocking.t) :=
  '(received, b) ← recv_datagram_retrying_interrupted i b;
  let '(r, c) := recv_once_inner received (queue i) (clears (cleared i)) (client b) in
  let b := set_client c b in
  Some (r, match r, received with
           | Ok _, Ok (Some _) =>
               if Machine.is_peer_closed (runtime c) then (set_socket_class 0 (cleared i) b).2 else b
           | _, _ => b
           end).

Definition blocking_recv_once (refused : option string) (i : Reception) (b : Blocking.t)
    : option (CResult (list ClientEvent.t) * Blocking.t) :=
  match (_ ← on_client (ask ensure_open); set_read_timeout (recv_timeout (client b)) refused) b with
  | (Ok _, b) => blocking_recv_inner i b
  | (Err e, b) => Some (Err e, b)
  | (Panic, b) => Some (Panic, b)
  end.

(** At most [budget] receptions, as [answers] has them from the [n]-th on. *)
Fixpoint available_loop (budget n : nat) (answers : nat → Reception) (b : Blocking.t)
    : option (CResult (list ClientEvent.t) * Blocking.t) :=
  match budget with
  | O => Some (Ok [], b)
  | S budget =>
      '(r, b) ← blocking_recv_inner (answers n) b;
      match r with
      | Ok [] => Some (Ok [], b)
      | Ok events =>
          if Machine.is_peer_closed (runtime (client b)) then Some (Ok events, b)
          else
            match available_loop budget (S n) answers b with
            | Some (rest, b) => Some (app events <$> rest, b)
            | None => None
            end
      | Err e => Some (Err e, b)
      | Panic => Some (Panic, b)
      end
  end.

Definition recv_available (max_packets : nat) (refused : option string) (answers : nat → Reception) (b : Blocking.t)
    : option (CResult (list ClientEvent.t) * Blocking.t) :=
  match (_ ← on_client (ask ensure_open); set_read_timeout (recv_timeout (client b)) refused) b with
  | (Ok _, b) => available_loop max_packets 0 answers b
  | (Err e, b) => Some (Err e, b)
  | (Panic, b) => Some (Panic, b)
  end.

(** ** Closing *)
Record CloseIo : Type := mk_CloseIo {
  close_reserved : bool;
  close_cleared : CResult unit;
  close_sent : string + Z;
  close_sent_at : ClientTimestamp.t;
  close_restored : CResult unit;
}.

Definition blocking_close (io : CloseIo) : B ClientError.t (list ClientEvent.t) :=
  prepared ← on_client (ask prepare_close);
  _ ← (if close_reserved io then mret tt else on_client (fail (ClientError.AllocationFailed "close event result")));
  previous_traffic_class ← socket_gets (λ b, applied_traffic_class (client b));
  let expected_bytes := len (PreparedClose.bytes_of prepared) in
  _ ← set_socket_class 0 (close_cleared io);
  _ ← on_client (modify (send (PreparedClose.bytes_of prepared)));
  match close_sent io with
  | inl err =>
      _ ← restore_dscp_best_effort previous_traffic_class (close_restored io);
      on_client (fail (ClientError.Socket err))
  | inr bytes =>
      event ← on_client (advance (commit_local_close (PreparedClose.commit prepared) (close_sent_at io)));
      _ ← on_client (modify (set_applied None));
      _ ← on_client (lift (validate_datagram_length expected_bytes bytes));
      mret [event]
  end.
End blocking.

(** ** Lemmas *)
Section theory.
Context `{Clocks} `{Target} `{!HmacMd5}.

(** The reads of a reception: the clock last looked at before each and the timeout
    in force. *)
Fixpoint reads (deadline : option Z) (turns : list ReadTurn) (clock : Z) (s : ReadState) : list (Z * option Z) :=
  (clock, in_force s) ::
  match turns with
  | [] => []
  | turn :: turns =>
      match read_turn deadline turn s with
      | inl _ => []
      | inr s => reads deadline turns (checked_at turn) s
      end
  end.

Lemma read_turn_narrow deadline turn s s' :
  read_turn deadline turn s = inr s' →
  match deadline with
  | Some deadline => 0 < deadline - checked_at turn ∧ s' = mk_ReadState (Some (deadline - checked_at turn)) true
  | None => s' = s
  end.
Proof.
  unfold read_turn, duration_since. destruct (read turn); try done. destruct deadline as [deadline|]; [|by intros [=]].
  destruct (Z.leb_spec (checked_at turn) deadline); [|done].
  destruct (Z.eqb_spec (deadline - checked_at turn) 0); [done|]. destruct (narrowing turn); [done|].
  intros [= <-]. split; [lia|done].
Qed.

(** Every read is over by the deadline. *)
Lemma reads_due deadline turns clock s timeout :
  in_force s = Some timeout → 0 < timeout → clock + timeout = deadline →
  ∀ c τ, (c, τ) ∈ reads (Some deadline) turns clock s → ∃ t, τ = Some t ∧ 0 < t ∧ c + t = deadline.
Proof.
  revert clock s timeout. induction turns as [|turn turns IH]; intros clock s timeout Hf Ht Hd c τ; cbn.
  - intros [= -> ->]%list_elem_of_singleton. eauto.
  - intros [[= -> ->]|Hin]%elem_of_cons; [eauto|].
    destruct (read_turn (Some deadline) turn s) as [|s'] eqn:Hr; [by apply not_elem_of_nil in Hin|].
    apply read_turn_narrow in Hr as [Hpos ->]. eapply IH; [| | |exact Hin]; [done|done|lia].
Qed.

Lemma reads_unbounded turns clock s :
  in_force s = None → ∀ c τ, (c, τ) ∈ reads None turns clock s → τ = None.
Proof.
  revert clock s. induction turns as [|turn turns IH]; intros clock s Hf c τ; cbn.
  - by intros [= -> ->]%list_elem_of_singleton.
  - intros [[= -> ->]|Hin]%elem_of_cons; [done|].
    destruct (read_turn None turn s) as [|s'] eqn:Hr; [by apply not_elem_of_nil in Hin|].
    apply read_turn_narrow in Hr as ->. by eapply IH.
Qed.

Lemma narrowed_kept deadline turns s r s' :
  narrowed_ s = true → read_loop deadline turns s = Some (r, s') → narrowed_ s' = true.
Proof.
  revert s. induction turns as [|turn turns IH]; intros s Hs; [done|]. cbn.
  destruct (read_turn deadline turn s) as [|s1] eqn:Hr; [by intros [= _ <-]|].
  apply IH. apply read_turn_narrow in Hr. destruct deadline; [by destruct Hr as [_ ->]|by subst].
Qed.

(** A loop that narrowed nothing left the timeout alone. *)
Lemma read_loop_state deadline turns s r s' :
  read_loop deadline turns s = Some (r, s') → r ≠ Panic ∧ (narrowed_ s' = false → in_force s' = in_force s).
Proof.
  revert s. induction turns as [|turn turns IH]; intros s; [done|]. cbn.
  destruct (read_turn deadline turn s) as [r'|s1] eqn:Hr.
  - intros [= <- <-]. split; [|done]. unfold read_turn in Hr. intros ->. by repeat case_match.
  - intros Hl. destruct (IH _ Hl) as [Hp Hn]. split; [done|]. intros Hf. rewrite (Hn Hf).
    apply read_turn_narrow in Hr. destruct deadline as [d|]; [|by subst]. destruct Hr as [_ ->].
    pose proof (narrowed_kept (Some d) turns (mk_ReadState (Some (d - checked_at turn)) true) r s' eq_refl Hl).
    congruence.
Qed.

(** A read that is not interrupted, or is at the deadline, is the last. *)
Definition last_read (deadline : option Z) (turn : ReadTurn) : Prop :=
  read turn ≠ ReadInterrupted ∨ ∃ d, deadline = Some d ∧ d <= checked_at turn.

Lemma read_loop_ends deadline turns s :
  Exists (last_read deadline) turns → ∃ out, read_loop deadline turns s = Some out.
Proof.
  intros He. revert s. induction He as [turn turns Hd|turn turns _ IH]; intros s; cbn.
  - destruct (read_turn deadline turn s) as [r|s'] eqn:Hr; [eauto|]. destruct Hd as [Hd|(d & -> & Hd)].
    + unfold read_turn in Hr. by destruct (read turn).
    + apply read_turn_narrow in Hr as [Hpos _]. lia.
  - destruct (read_turn deadline turn s); eauto.
Qed.

(** What a reception leaves of the client and its socket. *)
Lemma reception_frame i b r b' :
  recv_datagram_retrying_interrupted i b = Some (r, b') →
  r ≠ Panic ∧ client b' = client b ∧ socket_class b' = socket_class b ∧
  (read_timeout b = recv_timeout (client b) → put_back i = None → read_timeout b' = recv_timeout (client b)).
Proof.
  unfold recv_datagram_retrying_interrupted. destruct (match recv_timeout (client b) with Some _ => _ | None => _ end) as [deadline|e|] eqn:Hd.
  - destruct (read_loop deadline (turns i) _) as [[result s]|] eqn:Hl; [|done].
    destruct (read_loop_state _ _ _ _ _ Hl) as [Hp Hn]. cbn. unfold finish_reception, set_read_timeout.
    destruct (narrowed_ s); [destruct (put_back i)|]; intros [= <- <-]; cbn; (split; [done|]); do 2 (split; [done|]); try done.
    by rewrite (Hn eq_refl).
  - by intros [= <- <-].
  - destruct (recv_timeout (client b)); [|done]. by destruct (instant_checked_add _ _).
Qed.

(** ** Events *)
(** Every datagram a reception may get is bytes. *)
Definition reception_ok (i : Reception) : Prop :=
  Forall (λ turn, match read turn with ReadDatagram d => bytes_ok (packet d) | _ => True end) (turns i).

Definition received_ok (r : CResult (option Received)) : Prop :=
  match r with Ok (Some d) => bytes_ok (packet d) | Ok None | Err _ => True | Panic => False end.

Lemma read_loop_received deadline turns s r s' :
  Forall (λ turn, match read turn with ReadDatagram d => bytes_ok (packet d) | _ => True end) turns →
  read_loop deadline turns s = Some (r, s') → received_ok r.
Proof.
  intros Hb. revert s. induction Hb as [|turn turns Hd _ IH]; intros s; [done|]. cbn.
  destruct (read_turn deadline turn s) as [r'|s1] eqn:Hr; [|by apply IH].
  intros [= <- _]. unfold read_turn in Hr. by repeat case_match; simplify_eq/=.
Qed.

Lemma reception_received i b r b' :
  reception_ok i → recv_datagram_retrying_interrupted i b = Some (r, b') → received_ok r.
Proof.
  intros Hb Hr. destruct (reception_frame _ _ _ _ Hr) as [Hp _]. revert Hr. unfold recv_datagram_retrying_interrupted.
  destruct (match recv_timeout (client b) with Some _ => _ | None => _ end) as [deadline|e|]; [|by intros [= <- _]..|by intros [= <- _]].
  destruct (read_loop deadline (turns i) _) as [[result s]|] eqn:Hl; [|done].
  apply read_loop_received in Hl; [|done]. cbn. unfold finish_reception.
  destruct (narrowed_ s), (put_back i); by intros [= <- _].
Qed.

Definition is_open (c : Client.t) : Prop := ∃ s, SessionMachine.state (runtime c) = Open s.

Lemma recv_once_open received q cleared c :
  is_open c → recv_once None received q cleared c = recv_once_inner received q cleared c.
Proof. intros [s Hs]. unfold recv_once, ensure_open, open_session, socket_result. act. by rewrite Hs. Qed.

(** A reception that shows events leaves the session open, or closed by the peer. *)
Lemma received_open config t c received q cleared events c' :
  client_ok config t c → received_ok received → is_open c →
  recv_once_inner received q cleared c = (Ok events, c') →
  events = [] ∨ is_open c' ∨ Machine.is_peer_closed (runtime c') = true.
Proof.
  intros [_ Hm] Hb [s Hs]. unfold recv_once_inner. act.
  destruct received as [[d|]|e|]; try done; [|by intros [= <- _]; left].
  pose proof (drain_spec (t + ClientConfig.probe_timeout config) q c) as Hd.
  destruct (drain_tx_timestamps q c) as [[u|e|] c1]; act; try done. destruct Hd as (_ & Hre & _).
  pose proof (retagged_ok _ _ _ Hm Hre) as Hm1. destruct Hre as [_ Hst]. rewrite Hs in Hst.
  destruct Hst as (s1 & Hs1 & _). destruct (machine_tracks _ _ _ Hm1 Hs1) as [Hhd Htr].
  destruct (receive_ok _ _ s1 (packet d) (received_at d) (meta d) _ _ Hm1 Hs1 Hhd Htr ltac:(cbn in Hb; auto with irtt))
    as (new & m' & -> & Hr). act. intros [= _ <-]. right.
  assert (∀ c', runtime c' = m' → is_open c' ∨ Machine.is_peer_closed (runtime c') = true) as Hend.
  { unfold is_open. intros c2 ->. destruct (decode_echo_reply _ _ _); [|destruct Hr as [_ ->]; eauto..].
    case_bool_decide; [|destruct Hr as [_ ->]; eauto]. destruct Hr as (s' & _ & _ & _ & _ & _ & ->).
    cbn. destruct (has _ _); [by right|left; by exists s']. }
  apply Hend. by destruct (_ && _).
Qed.

(** What a reception changes of the client besides its session. *)
Lemma recv_once_frame received q cleared c r c' :
  recv_once_inner received q cleared c = (r, c') →
  recv_timeout c' = recv_timeout c ∧
  applied_traffic_class c' =
    match r, received with
    | Ok _, Ok (Some _) => if Machine.is_peer_closed (runtime c') && cleared then None else applied_traffic_class c
    | _, _ => applied_traffic_class c
    end.
Proof.
  unfold recv_once_inner. act. destruct received as [[d|]|e|]; [|by intros [= <- <-]..].
  assert (∀ q r1 c1, drain_tx_timestamps q c = (r1, c1) →
    recv_timeout c1 = recv_timeout c ∧ applied_traffic_class c1 = applied_traffic_class c) as Hd.
  { intros q' r1 c1. unfold drain_tx_timestamps. act. destruct (tx_timestamping_enabled c); cbn [negb]; act.
    - by intros [= _ <-].
    - by intros [= _ <-]. }
  destruct (drain_tx_timestamps q c) as [r1 c1] eqn:He. destruct (Hd _ _ _ He) as [Ht Ha].
  destruct r1 as [u|e|]; act; [|by intros [= <- <-]..].
  destruct (process_received_echo_packet _ _ _ _) as [[evs m']|e|]; act; [|by intros [= <- <-]..].
  intros [= <- <-]. cbn. destruct (Machine.is_peer_closed m' && cleared) eqn:Hc; cbn; by rewrite Hc.
Qed.

(** ** The bounded drain *)
(** A reception of the drain is a step of the client. *)
Lemma inner_step config remote t evs i b r b' :
  config_ok config → reachable config remote t (client b) evs → is_open (client b) → reception_ok i →
  blocking_recv_inner i b = Some (r, b') →
  ∃ shown, reachable config remote t (client b') (evs ++ shown) ∧
    match r with
    | Ok events => shown = events ∧
        (events = [] ∨ is_open (client b') ∨ Machine.is_peer_closed (runtime (client b')) = true)
    | Err _ => shown = []
    | Panic => False
    end.
Proof.
  intros Hcfg Hre Ho Hi. unfold blocking_recv_inner.
  destruct (recv_datagram_retrying_interrupted i b) as [[received b1]|] eqn:Hrd; [|done]. cbn.
  pose proof (reception_received _ _ _ _ Hi Hrd) as Hb. destruct (reception_frame _ _ _ _ Hrd) as (_ & Hc & _).
  rewrite Hc. destruct (recv_once_inner received (queue i) (clears (cleared i)) (client b)) as [r' c'] eqn:Hr.
  destruct (reachable_good _ _ _ _ _ Hcfg Hre) as [Hok Hl].
  set (a := ActReceive None received (queue i) (clears (cleared i))).
  assert (action_ok t a t) as Ha by (split; [lia|by destruct received as [[d|]|e|]]).
  destruct (perform_good _ _ _ _ _ a Hok Hl Ha) as (new & Hnew & _).
  assert (perform a (client b) = (Some new, c')) as Hp.
  { revert Hnew. cbn. rewrite recv_once_open, Hr by done. cbn. by intros ->. }
  assert (∀ b2, client b2 = c' → reachable config remote t (client b2) (evs ++ new)) as Hstep.
  { intros b2 ->. by eapply reach_step. }
  cbn in Hnew. rewrite recv_once_open, Hr in Hnew by done. cbn in Hnew. intros [= <- <-].
  exists new. split; [apply Hstep; destruct r' as [?|?|], received as [[?|]|?|]; try done;
    destruct (Machine.is_peer_closed _); [|done]; by destruct (cleared i)|].
  destruct r' as [events|e|]; [|by injection Hnew as <-|done]. injection Hnew as <-. split; [done|].
  destruct (received_open _ _ _ _ _ _ _ _ Hok Hb Ho Hr) as [|Hend]; [by left|right].
  assert (∀ b2, client b2 = c' → is_open (client b2) ∨ Machine.is_peer_closed (runtime (client b2)) = true) as Hc2
    by by intros b2 ->.
  apply Hc2. destruct received as [[?|]|?|]; try done. destruct (Machine.is_peer_closed _); [|done]. by destruct (cleared i).
Qed.

(** Receptions that come to an end. *)
Definition reception_ends (i : Reception) : Prop := Exists (λ turn, read turn ≠ ReadInterrupted) (turns i).

Lemma reception_returns i b : reception_ends i → ∃ out, recv_datagram_retrying_interrupted i b = Some out.
Proof.
  intros He. unfold recv_datagram_retrying_interrupted.
  destruct (match recv_timeout (client b) with Some _ => _ | None => _ end) as [deadline|e|]; [|eauto..].
  destruct (read_loop_ends deadline (turns i) (mk_ReadState (read_timeout b) false)) as [[r s] ->]; [|eauto].
  eapply Exists_impl; [exact He|]. by left.
Qed.

(** A drain, reception by reception. *)
(** Receptions in a row from the [n]-th on, each with events, and none but the last
    leaving the session closed by its peer; [shown] are the events of each. *)
Inductive receptions (answers : nat → Reception) : nat → Blocking.t → list (list ClientEvent.t) → Blocking.t → Prop :=
  | no_reception n b : receptions answers n b [] b
  | one_reception n b events b1 shown b2 :
      blocking_recv_inner (answers n) b = Some (Ok events, b1) → events ≠ [] →
      (shown = [] ∨ Machine.is_peer_closed (runtime (client b1)) = false) →
      receptions answers (S n) b1 shown b2 → receptions answers n b (events :: shown) b2.

(** How a drain of at most [budget] receptions from the [n]-th on ends: it has made as
    many as it may, or the peer has closed the session; or the reception after them
    brings nothing, or fails, and then what they brought is not returned. *)
Definition drain_end (budget : nat) (answers : nat → Reception) n (shown : list (list ClientEvent.t)) (b1 : Blocking.t)
    (r : CResult (list ClientEvent.t)) (b' : Blocking.t) : Prop :=
  let closed := shown ≠ [] ∧ Machine.is_peer_closed (runtime (client b1)) = true in
  (r = Ok (concat shown) ∧ b' = b1 ∧ (length shown = budget ∨ closed)) ∨
  ((length shown < budget)%nat ∧ ¬ closed ∧
   (blocking_recv_inner (answers (n + length shown)%nat) b1 = Some (Ok [], b') ∧ r = Ok (concat shown) ∨
    ∃ e, blocking_recv_inner (answers (n + length shown)%nat) b1 = Some (Err e, b') ∧ r = Err e)).

Lemma drain_more budget answers n events rest b1 b2 r b' :
  Machine.is_peer_closed (runtime (client b1)) = false → receptions answers (S n) b1 rest b2 →
  drain_end budget answers (S n) rest b2 r b' →
  drain_end (S budget) answers n (events :: rest) b2 (app events <$> r) b'.
Proof.
  intros Hpc Hrec [(-> & -> & Hend)|(Hlt & Hn & Hend)].
  - left. split; [done|]. split; [done|]. cbn [length]. destruct Hend as [->|[_ ?]]; [by left|by right].
  - right. cbn [length]. replace (n + S (length rest))%nat with (S n + length rest)%nat by lia. split; [lia|]. split.
    + intros [_ Hc]. apply Hn. split; [|done]. intros ->. inversion Hrec; subst. congruence.
    + destruct Hend as [[? ->]|(e & ? & ->)]; [by left|right; by exists e].
Qed.

Lemma available_loop_run config remote t answers budget n evs b :
  config_ok config → reachable config remote t (client b) evs → is_open (client b) →
  (∀ n, reception_ok (answers n) ∧ reception_ends (answers n)) →
  ∃ r b' shown b1, available_loop budget n answers b = Some (r, b') ∧
    reachable config remote t (client b') (evs ++ concat shown) ∧
    receptions answers n b shown b1 ∧ (length shown ≤ budget)%nat ∧ drain_end budget answers n shown b1 r b'.
Proof.
  intros Hcfg Hre Ho Hi. revert n evs b Hre Ho. induction budget as [|budget IH]; intros n evs b Hre Ho; cbn [available_loop].
  { exists (Ok []), b, [], b. cbn. rewrite app_nil_r. repeat split; [done|constructor|done|]. left. by repeat split; [..|left]. }
  assert (∃ r b1, blocking_recv_inner (answers n) b = Some (r, b1)) as (r & b1 & Hr).
  { destruct (reception_returns (answers n) b (proj2 (Hi n))) as [[received b1] He]. unfold blocking_recv_inner.
    rewrite He. cbn. destruct (recv_once_inner _ _ _ _). eauto. }
  rewrite Hr. cbn [mbind option_bind]. destruct (inner_step _ _ _ _ _ _ _ _ Hcfg Hre Ho (proj1 (Hi n)) Hr) as (shown & Hre1 & Hout).
  assert (∀ r', shown = [] → r = Ok [] ∧ r' = Ok [] ∨ (∃ e, r = Err e ∧ r' = Err e) →
    receptions answers n b [] b ∧ (length (@nil (list ClientEvent.t)) ≤ S budget)%nat ∧ drain_end (S budget) answers n [] b r' b1) as Hlast.
  { intros r' -> Hcase. split; [constructor|]. split; [cbn; lia|]. right. cbn. split; [lia|]. split; [by intros [? _]|].
    rewrite Nat.add_0_r, Hr. destruct Hcase as [[-> ->]|(e & -> & ->)]; [by left|right; by exists e]. }
  destruct r as [[|e events]|e|]; [|..|done].
  - destruct Hout as [-> _]. exists (Ok []), b1, [], b. split; [done|]. split; [done|]. apply Hlast; [done|by left].
  - destruct Hout as [-> Hend]. destruct (Machine.is_peer_closed (runtime (client b1))) eqn:Hpc.
    + exists (Ok (e :: events)), b1, [e :: events], b1. cbn [concat]. rewrite app_nil_r. split; [done|]. split; [done|].
      split; [eapply one_reception; [exact Hr|done|by left|constructor]|]. split; [cbn; lia|]. left. cbn.
      rewrite app_nil_r. repeat split. by right.
    + destruct Hend as [|[Hopen|]]; [done| |done].
      destruct (IH (S n) _ _ Hre1 Hopen) as (r & b' & rest & b2 & -> & Hre2 & Hrec & Hlen & Hdrain).
      exists (app (e :: events) <$> r), b', ((e :: events) :: rest), b2. split; [done|].
      cbn [concat]. rewrite app_assoc. split; [done|]. split; [eapply one_reception; [exact Hr|done|by right|done]|].
      split; [cbn; lia|]. by eapply (drain_more budget answers n _ rest b1).
  - cbn in Hout. exists (Err e), b1, [], b. cbn. rewrite Hout in Hre1. split; [done|]. split; [done|]. apply Hlast; [done|right; by exists e].
Qed.

(** ** The socket behind the client *)
(** The options in force are those the client believes in. *)
Definition synced (b : Blocking.t) : Prop :=
  read_timeout b = recv_timeout (client b) ∧ socket_class b = default 0 (applied_traffic_class (client b)).

Inductive SocketOp : Type :=
  | OpTimeout (timeout : option Z) (refused : option string)
  | OpReceive (refused : option string) (i : Reception)
  | OpAvailable (max_packets : nat) (refused : option string) (answers : nat → Reception)
  | OpClose (io : CloseIo).

Definition operate (op : SocketOp) (b : Blocking.t) : option Blocking.t :=
  match op with
  | OpTimeout timeout refused => Some (set_recv_timeout timeout refused b).2
  | OpReceive refused i => snd <$> blocking_recv_once refused i b
  | OpAvailable max_packets refused answers => snd <$> recv_available max_packets refused answers b
  | OpClose io => Some (blocking_close io b).2
  end.

(** What the code discards the failure of succeeds: an interrupted read's timeout is
    put back, a failed close's traffic class restored. *)
Definition restores (op : SocketOp) : Prop :=
  match op with
  | OpTimeout _ _ => True
  | OpReceive _ i => put_back i = None
  | OpAvailable _ _ answers => ∀ n, put_back (answers n) = None
  | OpClose io => close_restored io = Ok tt
  end.

Lemma inner_synced i b r b' :
  put_back i = None → synced b → blocking_recv_inner i b = Some (r, b') → synced b'.
Proof.
  intros Hi [Ht Hc]. unfold blocking_recv_inner.
  destruct (recv_datagram_retrying_interrupted i b) as [[received b1]|] eqn:Hrd; [|done]. cbn.
  destruct (reception_frame _ _ _ _ Hrd) as (_ & Hcl & Hcs & Hrt). specialize (Hrt Ht Hi). rewrite Hcl.
  destruct (recv_once_inner _ _ _ _) as [r' c'] eqn:Hr. destruct (recv_once_frame _ _ _ _ _ _ Hr) as [Hft Hfa].
  intros [= <- <-]. unfold synced.
  destruct r' as [evs|e|], received as [[d|]|e'|]; cbn; try (rewrite Hrt, Hft, Hcs, Hfa; done).
  destruct (Machine.is_peer_closed (runtime c')); cbn in *; [|rewrite Hrt, Hft, Hcs, Hfa; done].
  destruct (cleared i); cbn in *; rewrite Hrt, Hft, ?Hcs, Hfa; done.
Qed.

Lemma available_synced answers budget n b r b' :
  (∀ n, put_back (answers n) = None) → synced b → available_loop budget n answers b = Some (r, b') → synced b'.
Proof.
  intros Hi. revert n b r b'. induction budget as [|budget IH]; intros n b r b' Hs; cbn; [by intros [= _ <-]|].
  destruct (blocking_recv_inner (answers n) b) as [[r1 b1]|] eqn:Hr; [|done]. cbn.
  pose proof (inner_synced _ _ _ _ (Hi n) Hs Hr) as Hs1.
  destruct r1 as [[|e events]|e|]; try (by intros [= _ <-]).
  destruct (Machine.is_peer_closed _); [by intros [= _ <-]|].
  destruct (available_loop budget (S n) answers b1) as [[rest b2]|] eqn:Hl; [|done].
  intros [= _ <-]. by eapply IH.
Qed.

(** Before a read the timeout is set to the client's own. *)
Lemma entry_synced refused b r b1 :
  synced b → (_ ← on_client (ask ensure_open); set_read_timeout (recv_timeout (client b)) refused) b = (r, b1) →
  synced b1 ∧ client b1 = client b ∧ r ≠ Panic.
Proof.
  intros [Ht Hc]. unfold on_client, set_read_timeout, mbind, B_bind. act. unfold ensure_open, open_session.
  destruct (SessionMachine.state (runtime (client b))); cbn; [by intros [= <- <-]| |by intros [= <- <-]..].
  destruct refused; intros [= <- <-]; done.
Qed.

Lemma close_frame io b :
  let '(r, b') := blocking_close io b in
  (r, client b')
  = Client.close (close_reserved io) (close_cleared io) (close_sent io) (close_sent_at io) (client b) ∧
  (synced b → close_restored io = Ok tt → synced b').
Proof.
  unfold blocking_close, on_client, socket_gets, restore_dscp_best_effort, set_socket_class, close, mbind, B_bind,
    mret, B_ret. act.
  destruct b as [c to cls]. cbn [client]. unfold prepare_close, open_session, commit_local_close.
  destruct (SessionMachine.state (runtime c)) as [|s| |] eqn:Hs; try done. act.
  destruct (close_reserved io); [|done]. destruct (close_cleared io) as [u|e|]; [|done..].
  destruct (close_sent io) as [err|bytes]; cbn.
  - split; [by destruct (close_restored io)|]. by intros [Ht Hc] ->.
  - unfold debug_assert. rewrite Hs. cbn. unfold validate_datagram_length. destruct (bytes =? _); (split; [done|by intros [Ht Hc] _]).
Qed.

(** Every operation leaves the socket as the client has it. *)
Lemma operate_synced op b b' : synced b → restores op → operate op b = Some b' → synced b'.
Proof.
  intros Hs Hr. destruct op as [timeout refused|refused i|budget refused answers|io]; cbn.
  - intros [= <-]. destruct Hs as [Ht Hc]. unfold set_recv_timeout, set_read_timeout, on_client, mbind, B_bind. act.
    by destruct refused.
  - unfold blocking_recv_once. destruct ((_ ← on_client (ask ensure_open); set_read_timeout (recv_timeout (client b)) refused) b) as [r b1] eqn:He. intros (out & Ho & ->)%fmap_Some.
    destruct (entry_synced _ _ _ _ Hs He) as (Hs1 & _ & _). destruct r as [u|e|]; [|by injection Ho as <-..].
    destruct out as [r b2]. by eapply inner_synced.
  - unfold recv_available. destruct ((_ ← on_client (ask ensure_open); set_read_timeout (recv_timeout (client b)) refused) b) as [r b1] eqn:He. intros (out & Ho & ->)%fmap_Some.
    destruct (entry_synced _ _ _ _ Hs He) as (Hs1 & _ & _). destruct r as [u|e|]; [|by injection Ho as <-..].
    destruct out as [r b2]. by eapply available_synced.
  - intros [= <-]. pose proof (close_frame io b) as Hc. destruct (blocking_close io b). by apply Hc.
Qed.
End theory.

(** ** Properties *)
Section properties.
Context `{Clocks} `{Target} `{!HmacMd5}.

(** One logical reception keeps one time budget. With a receive timeout [τ],
    every read it makes, the first and each one after an interrupted call, is made
    with the timeout that runs out exactly [τ] after the reception began, and a
    positive one; so interruptions cannot extend it. It ends at the first read that
    is not interrupted, and at the first interruption at the deadline or after it;
    it leaves the client alone, and afterwards the socket has the client's timeout. *)
Theorem receive_within_timeout i b τ :
  read_timeout b = Some τ → recv_timeout (client b) = Some τ → 0 < τ → begun_at i + τ <= INSTANT_MAX →
  put_back i = None →
  let deadline := begun_at i + τ in
  (∀ c t, (c, t) ∈ reads (Some deadline) (turns i) (begun_at i) (mk_ReadState (read_timeout b) false) →
    ∃ left, t = Some left ∧ 0 < left ∧ c + left = deadline) ∧
  (Exists (last_read (Some deadline)) (turns i) →
    ∃ r b', recv_datagram_retrying_interrupted i b = Some (r, b') ∧ client b' = client b ∧
      read_timeout b' = Some τ ∧ socket_class b' = socket_class b).
Proof.
  intros Hb Hc Ht Hmax Hp deadline. split.
  - intros c t. by apply (reads_due _ _ _ _ τ).
  - intros He. destruct (read_loop_ends (Some deadline) (turns i) (mk_ReadState (read_timeout b) false) He)
      as [[r s] Hl].
    assert (recv_datagram_retrying_interrupted i b = Some (finish_reception i r s b)) as Hrd.
    { unfold recv_datagram_retrying_interrupted, instant_checked_add. rewrite Hc.
      rewrite (proj2 (Z.leb_le _ _) Hmax). cbn. fold deadline. by rewrite Hl. }
    destruct (finish_reception i r s b) as [r' b'] eqn:Hf. exists r', b'. split; [done|].
    destruct (reception_frame _ _ _ _ Hrd) as (_ & Hcl & Hcs & Hrt). rewrite Hcl, Hcs, Hrt; by rewrite ?Hb, ?Hc.
Qed.

(** C22: [recv_available] is a run of receptions. On an open session whose socket takes
    the read timeout, it makes one reception after the other, all but the last with
    events and on a session its peer has left open, and stops where it has made as many
    as its budget, where one brings nothing, where the peer has closed the session, or
    where one fails. It returns whenever its receptions end and never panics; the
    client it leaves is again one of the run, after the events its receptions showed;
    and it returns exactly these, in order, unless the last reception failed: then it
    returns that error, and they are lost to the caller. Otherwise it receives nothing
    and is an error. *)
Theorem recv_available_refines config remote t b evs max_packets refused answers :
  config_ok config → reachable config remote t (client b) evs →
  (∀ n, reception_ok (answers n) ∧ reception_ends (answers n)) →
  ∃ r b' shown, recv_available max_packets refused answers b = Some (r, b') ∧
    reachable config remote t (client b') (evs ++ concat shown) ∧
    match SessionMachine.state (runtime (client b)), refused with
    | Open _, None =>
        (length shown ≤ max_packets)%nat ∧
        ∃ b1, receptions answers 0 (set_timeout (recv_timeout (client b)) b) shown b1 ∧
          drain_end max_packets answers 0 shown b1 r b'
    | _, _ => shown = [] ∧ (∃ e, r = Err e) ∧ b' = b
    end.
Proof.
  intros Hcfg Hre Hi. unfold recv_available, on_client, set_read_timeout, mbind, B_bind. act.
  unfold ensure_open, open_session. destruct (SessionMachine.state (runtime (client b))) as [|s| |] eqn:Hs; cbn.
  1,3,4: eexists _, _, []; cbn; rewrite app_nil_r; split; [reflexivity|]; by split; [|split; [|split; [eexists|destruct b]]].
  destruct refused; cbn.
  - eexists _, _, []; cbn; rewrite app_nil_r; split; [reflexivity|]. by split; [|split; [|split; [eexists|destruct b]]].
  - destruct (available_loop_run config remote t answers max_packets 0 evs (set_timeout (recv_timeout (client b)) b))
      as (r & b' & shown & b1 & Hl & Hre' & Hrec & Hlen & Hend); [done|done|by exists s|done|].
    exists r, b', shown. split; [exact Hl|]. split; [done|]. split; [done|]. by exists b1.
Qed.

(** The socket follows the client. However receptions, drains, timeout changes
    and closes succeed or fail, the read timeout and the traffic class in force on
    the socket are the ones the client keeps, as long as what the code attempts
    without looking at its failure succeeds; and [close] does to the client
    precisely what the adapter of Client does. *)
Theorem socket_follows_client ops b b' :
  synced b → Forall restores ops → foldl (λ b op, b ≫= operate op) (Some b) ops = Some b' →
  synced b' ∧ ∀ io, let '(r, b'') := blocking_close io b' in
    (r, client b'')
    = Client.close (close_reserved io) (close_cleared io) (close_sent io) (close_sent_at io) (client b').
Proof.
  intros Hs Hr Hf. split.
  - revert b Hs Hf. induction Hr as [|op ops Ho _ IH]; intros b Hs; cbn; [by intros [= <-]|].
    destruct (operate op b) as [b1|] eqn:He; cbn.
    + apply IH. by eapply operate_synced.
    + clear. induction ops; [done|]. by cbn.
  - intros io. pose proof (close_frame io b') as Hc. destruct (blocking_close io b'). apply Hc.
Qed.
End properties.

(** ** A drain on a concrete client *)
Section example.
#[local] Existing Instances target64 toy_hmac example_clocks.

(** The example client with its probe in flight, and a receive timeout of 1 s. *)
Definition example_blocking : Blocking.t :=
  (set_recv_timeout (Some (from_secs 1)) None
     (Blocking.mk example_sent None (default 0 (applied_traffic_class example_sent)))).2.

Definition reply_turn : ReadTurn := mk_ReadTurn (ReadDatagram (mk_Received probe_reply (at_time 9000) no_meta)) 9000 None.
Definition interrupted_turn (t : Z) : ReadTurn := mk_ReadTurn ReadInterrupted t None.

(** An interrupted read 400 ms in, then the server's reply. *)
Definition reply_reception : Reception :=
  mk_Reception 8000 [interrupted_turn (8000 + from_millis 400); reply_turn] None no_queue (Ok tt).
Definition idle_reception : Reception := mk_Reception 9000 [mk_ReadTurn ReadIdle 9000 None] None no_queue (Ok tt).
Definition failed_reception : Reception :=
  mk_Reception 9000 [mk_ReadTurn (ReadFailed "connection refused") 9000 None] None no_queue (Ok tt).

Definition then_ (i : Reception) (n : nat) : Reception := if decide (n = O) then reply_reception else i.

Lemma then_ok i : reception_ok i ∧ reception_ends i → ∀ n, reception_ok (then_ i n) ∧ reception_ends (then_ i n).
Proof.
  intros Hi n. unfold then_. destruct (decide (n = O)); [|done]. split.
  - constructor; [done|]. constructor; [|done]. cbn. decide_now.
  - right; left. done.
Qed.

Definition set_timeout_action : Action := ActSetTimeout (Some (from_secs 1)) None.

Lemma example_blocking_reachable :
  reachable client_config example_remote 6000 (client example_blocking) example_events.
Proof.
  rewrite <- (app_nil_r example_events).
  apply (reach_step _ _ 6000 6000 example_sent (client example_blocking) example_events [] set_timeout_action);
    [exact example_sent_reachable|split; [lia|exact I]|vm_compute; reflexivity].
Qed.

Lemma receive_within_timeout_witness :
  ∃ r b', recv_datagram_retrying_interrupted reply_reception example_blocking = Some (r, b') ∧
    read_timeout b' = Some (from_secs 1).
Proof.
  destruct (receive_within_timeout reply_reception example_blocking (from_secs 1) eq_refl eq_refl ltac:(done)
    ltac:(vm_compute; discriminate) eq_refl) as [_ He].
  destruct He as (r & b' & Hr & _ & Ht & _); [right; left; by left|]. exists r, b'. done.
Defined.

(** The drain with a budget of one makes one reception and no more. *)
Lemma recv_available_refines_witness :
  ∃ events b', recv_available 1 None (then_ failed_reception) example_blocking = Some (Ok events, b') ∧
    reachable client_config example_remote 6000 (client b') (example_events ++ events) ∧ events ≠ [].
Proof.
  destruct (recv_available_refines client_config example_remote 6000 example_blocking example_events 1 None
    (then_ failed_reception) client_config_ok example_blocking_reachable) as (r & b' & shown & He & Hre & Hd).
  { apply then_ok. split; [by repeat constructor|by left]. }
  assert (∃ events, r = Ok events ∧ events ≠ []) as (events & -> & Hne).
  { assert (match recv_available 1 None (then_ failed_reception) example_blocking with
      | Some (Ok (_ :: _), _) => true | _ => false end = true) as Hc by (vm_compute; reflexivity).
    rewrite He in Hc. destruct r as [[|e l]|e|]; try discriminate Hc. exists (e :: l). split; [reflexivity|discriminate]. }
  exists events, b'. split; [exact He|]. split; [|exact Hne].
  assert ((Ok events : CResult (list ClientEvent.t)) = Ok (concat shown)) as Heq; [|injection Heq as ->; exact Hre].
  destruct (SessionMachine.state (runtime (client example_blocking))) as [|s| |];
    try (destruct Hd as (_ & (e & Hr) & _); discriminate Hr).
  destruct Hd as (_ & b1 & _ & [(Hr & _)|(_ & _ & [[_ Hr]|(e & _ & Hr)])]); [exact Hr|exact Hr|discriminate Hr].
Defined.

(** The drain reads the reply, and stops at the read that finds nothing. *)
Example drain_run :
  (λ out, (match out.1 with Ok [ClientEvent.EchoReply seq _ _ _ _ _ _ _ _ _] => Some seq | _ => None end,
           pending_of (runtime (client out.2)), read_timeout out.2))
    <$> recv_available 16 None (then_ idle_reception) example_blocking
  = Some (Some 0, [], Some (from_secs 1)).
Proof. vm_compute. reflexivity. Qed.

(** A drain that fails after a reply: the session has the reply, the caller never
    sees its event. *)
Example recv_available_loses_events :
  (λ out, (out.1, pending_of (runtime (client out.2)), completed_of (runtime (client out.2))))
    <$> recv_available 16 None (then_ failed_reception) example_blocking
  = Some (Err (ClientError.Socket "connection refused"), [], [0]).
Proof. vm_compute. reflexivity. Qed.

Definition example_ops : list SocketOp :=
  [OpAvailable 16 None (then_ failed_reception); OpTimeout None None;
   OpClose (mk_CloseIo true (Ok tt) (inl "unreachable") (at_time 9500) (Ok tt))].
Definition example_end : Blocking.t :=
  default example_blocking (foldl (λ b op, b ≫= operate op) (Some example_blocking) example_ops).

Lemma socket_follows_client_witness : synced example_end ∧ read_timeout example_end = None.
Proof.
  split; [|vm_compute; reflexivity].
  refine (proj1 (socket_follows_client example_ops example_blocking example_end _ _ _)).
  - vm_compute. split; reflexivity.
  - constructor; [|constructor; [exact I|constructor; [reflexivity|constructor]]].
    intros n. unfold then_. by destruct (decide (n = O)).
  - vm_compute. reflexivity.
Defined.
End example.
