(* ===== verification/Interop.v ===== *)
(** * Client and server together

    The client of [ClientProps] against the server of [ServerCore]: what the one
    sends the other accepts, and both then hold the same session. *)

From S2P Require Import Prelude ProtoBase Envelope ParamsCodec Layout OpenCodec RequestCodec EchoCodec.
From S2P Require Import ServerBase Fill Session Negotiate ServerCore.
From S2P Require Import ClientBase ClientNegotiation Probe ClientEvent Timing Machine MachineInv.
From S2P Require Import Client ClientTrace ClientProps.
Import ServerCore.ServerCore ActiveSession.

Section interop.
Context `{Clocks} `{Target} `{!HmacMd5} `{!Host}.

(** What the server offers restricts what the client asked for. *)
Lemma offer_acceptable c q p fill :
  ServerConfig.ok c → requested_ok q → params_ok q → open_offer c (encode_params q) p fill →
  acceptable q p.
Proof.
  intros Hc Hq Hp (d & Hd & _ & Hn & _). rewrite decode_encode in Hd by done.
  apply Ok_inj in Hd as <-. cbn [params] in Hn.
  pose proof (negotiate_server_fill_layout (Negotiate.negotiate_params q c)) as Hl. cbv zeta in Hl.
  rewrite Hn in Hl. cbn [fst] in Hl. destruct Hl as (Hlen & _ & _ & _ & Hds & Hv & Hdur & Hint).
  rewrite negotiate_params_fields in Hlen, Hds, Hv, Hdur, Hint. cbn in Hlen, Hds, Hv, Hdur, Hint.
  destruct (length_cap_range c Hc) as [Hcap _].
  destruct Hc as [_ Hmp _ _ _ Hmax]. destruct Hq as [_ Hqd Hqi Hql Hqs].
  unfold negotiated_duration in Hdur. unfold negotiated_interval in Hint. unfold I64_MAX in *.
  assert (∀ m, ServerConfig.max_test_duration c = Some m → 0 < saturating_ns m) as Hsat.
  { intros m Hm. specialize (Hmax m Hm). destruct (saturating_ns_spec m ltac:(lia)) as [Hs _].
    unfold I64_MAX in Hs. lia. }
  split; [done| | |lia| |by destruct (ServerConfig.dscp_allowed c); [left|right]].
  - destruct (ServerConfig.max_test_duration c) as [m|]; [|lia]. specialize (Hsat m eq_refl).
    destruct (_ || _); lia.
  - intros Hpos. destruct (ServerConfig.max_test_duration c) as [m|]; [|lia].
    specialize (Hsat m eq_refl). rewrite (proj2 (Z.eqb_neq _ _)) in Hdur by lia. cbn [orb] in Hdur.
    destruct (Z.ltb_spec (saturating_ns m) (Params.duration_ns q)); lia.
  - destruct (Z.ltb_spec 0 (idle_cap c)); lia.
Qed.

(** A packet the client seals is authentic to a server with the same key. *)
Lemma carries_authenticated m packet r c :
  carries m packet r → key m = ServerConfig.hmac_key c →
  authenticated c packet = Some (DecodedRequest.mk (has_hmac m) r).
Proof.
  intros (_ & Hd & Hv) Hk. unfold authenticated. rewrite Hd. cbn [DecodedRequest.hmac_present].
  unfold has_hmac. rewrite Hk, eqb_reflx.
  destruct (ServerConfig.hmac_key c) as [k|]; [|done]. by rewrite (Hv k Hk).
Qed.

(** The server's two ways of answering an open, from the sender's side. *)
Lemma open_reply_cases c self self' peer packet kernel hm no_test encoded d :
  ServerConfig.ok c → ServerCore.reachable c self → bytes_ok packet →
  authenticated c packet = Some (DecodedRequest.mk hm (DecOpen no_test encoded)) →
  process peer packet kernel self = (Ok (Some d), self') →
  ∃ p fill token, open_offer c encoded p fill ∧ params_ok p ∧ in_u 64 token ∧
    encode_open_reply (OpenReply.mk (open_flags no_test) token p) (ServerConfig.hmac_key c)
      = Ok (OutboundDatagram.bytes_of d) ∧
    (if no_test then token = 0
     else token ≠ 0 ∧ sessions self' !! token = Some (Session.new peer p fill c (next_time self))).
Proof.
  intros Hc Hr Hb Ha Hp. destruct (reachable_ok c self Hc Hr) as [Hk Hcfg].
  pose proof (authenticated_fields _ _ _ Hb Ha) as Hf. cbn [DecodedRequest.kind] in Hf.
  rewrite (process_authenticated _ _ _ _ (DecodedRequest.mk hm (DecOpen no_test encoded))) in Hp
    by by rewrite Hcfg.
  unfold dispatch in Hp. cbn [DecodedRequest.kind] in Hp.
  pose proof (maintain_swept self Hk) as (Hm & _ & _).
  pose proof (handle_open_cases peer no_test encoded (next_time self) (maintain self) Hm Hf) as Hcase.
  rewrite Hp in Hcase. clear Hp. remember (Ok (Some d), self') as res eqn:Hres.
  destruct Hcase as [|p fill pkt -> Ho He|e self'' _ _ _ _ _
    |p fill token pkt self'' -> Ho Hcap Hz Ht Hfresh _ _ He Hs]; try discriminate Hres;
    apply pair_equal_spec in Hres as [[= <-] <-]; rewrite config_maintain, Hcfg in *;
    destruct (open_offer_ok c encoded p fill Hc Hf Ho) as (Hpk & _).
  - exists p, fill, 0. split; [done|]. split; [done|]. split; [by unfold in_u|]. done.
  - exists p, fill, token. do 4 (split; [done|]). split; [done|]. rewrite Hs. apply lookup_insert_eq.
Qed.

(** The open reply, read with the client's key. *)
Lemma open_reply_read (no_test : bool) token p k packet :
  params_ok p → in_u 64 token → (token = 0 → no_test = true) →
  encode_open_reply (OpenReply.mk (open_flags no_test) token p) k = Ok packet →
  ∃ reply, decode_open_reply packet k = Ok reply ∧ open_reply_ok reply ∧
    OpenReply.token reply = token ∧ OpenReply.params reply = p ∧
    has (OpenReply.flags reply) FLAG_CLOSE = no_test.
Proof.
  intros Hp Ht Hz He. pose proof (open_reply_is_ok no_test token p Hp Ht Hz) as Hok.
  eexists. split; [exact (decode_encode_open_reply _ _ _ Hok He)|].
  split; [|by destruct no_test, (Envelope.is_some k)].
  split; [..|exact Hp]; cbn; try done; try (by destruct no_test, (Envelope.is_some k)).
Qed.

(** The server's table holds the session just created for [peer]. *)
Definition created (srv : ServerCore.t) (sc : ServerConfig.t) peer now token params : Prop :=
  token ≠ 0 ∧ ∃ fill, sessions srv !! token = Some (Session.new peer params fill sc now).

(** The server holds a client's session as [ss], under the client's parameters. *)
Definition serves (srv : ServerCore.t) (s : ActiveSession.t) (ss : Session.t) : Prop :=
  sessions srv !! token s = Some ss ∧
  Session.params ss = NegotiationResult.peer_params (negotiated s).

(** What a client makes of a reply for its run mode, within its request. *)
Lemma acceptance_decided cc m h reply at_ :
  machine_ok h m → SessionMachine.config m = cc → SessionMachine.state m = Connected → open_reply_ok reply →
  acceptable (SessionMachine.requested m) (OpenReply.params reply) →
  has (OpenReply.flags reply) FLAG_CLOSE = no_test_mode m →
  (if no_test_mode m then OpenReply.token reply = 0 else OpenReply.token reply ≠ 0) →
  match prepare_open_acceptance reply at_ m with
  | Ok prepared =>
      (OpenPolicy.negotiation (ClientConfig.open cc) = Loose ∨ OpenReply.params reply = SessionMachine.requested m) ∧
      if no_test_mode m then PreparedOpenAcceptance.next_state prepared = StateNoTestCompleted
      else ∃ s, PreparedOpenAcceptance.next_state prepared = Open s ∧
        token s = OpenReply.token reply ∧ NegotiationResult.peer_params (negotiated s) = OpenReply.params reply
  | Err failure =>
      OpenPolicy.negotiation (ClientConfig.open cc) = Strict ∧ OpenReply.params reply ≠ SessionMachine.requested m ∧
      if no_test_mode m then OpenAcceptanceFailure.cleanup_close failure = None
      else ∃ close, OpenAcceptanceFailure.cleanup_close failure = Some close ∧
        encode_request (EncClose (OpenReply.token reply)) (key m) = Ok close
  | Panic => False
  end.
Proof.
  intros Hm Hcfg Hst Hok Hacc Hcl Htok. pose proof (open_acceptance_ok _ m reply at_ Hm Hst Hok) as Haccept.
  destruct (prepare_open_acceptance reply at_ m) as [prepared|failure|]; [| |done].
  - destruct Haccept as [[_ Hag] Ha]. split.
    { rewrite Hcfg in Hag. destruct (OpenPolicy.negotiation (ClientConfig.open cc)); [right; by apply Hag|by left]. }
    unfold acceptance_of in Ha. unfold no_test_mode in *.
    destruct (PreparedOpenAcceptance.next_state prepared) as [|s| |]; [done| | |done].
    + destruct Ha as (-> & _ & _ & _ & Ht & Hn & _). exists s. by rewrite Ht, Hn.
    + by destruct Ha as (-> & _).
  - destruct Haccept as [Hclose Hw]. rewrite Hclose. split; [|split].
    + destruct (OpenPolicy.negotiation (ClientConfig.open cc)) eqn:Hpol; [done|]. destruct Hw.
      split; [|split; [done|]]. { split; [done|]. rewrite Hcfg. congruence. } intros Hn. by rewrite Hn in Htok.
    + intros Heq. destruct Hw. split; [by split|]. split; [done|]. intros Hn. by rewrite Hn in Htok.
    + unfold cleanup_of. rewrite Hcl. destruct (no_test_mode m); [done|]. rewrite (proj2 (Z.eqb_neq _ _)) by done. cbn [negb andb].
      destruct (encode_request _ (key m)) as [close| |] eqn:He; [by exists close|by rewrite encode_request_ok in He..].
Qed.

(** C1: the handshake completes. When a connected client's open request reaches a
    server with the same key and the server answers it, the client trusts the
    answer, which is within its request, and for a test the server has just created
    a session for this peer under the token it names. Under the loose policy, and
    under the strict one when the answer grants exactly the request, the client
    accepts it, and the session it opens has that token and the same parameters; a
    no-test request is acknowledged without a session on either side. Otherwise, that
    is under the strict policy when anything was restricted, the client refuses, and
    what it sends instead is the close of that very session. *)
Theorem client_accepts_server (cc : ClientConfig.t) (sc : ServerConfig.t) remote t c evs
    (srv srv' : ServerCore.t) peer kernel request d at_ :
  config_ok cc → ClientProps.reachable cc remote t c evs →
  SessionMachine.state (Client.runtime c) = Connected →
  ServerConfig.ok sc → ServerCore.reachable sc srv →
  hmac_key (ClientConfig.auth cc) = ServerConfig.hmac_key sc →
  prepare_open_request (Client.runtime c) = Ok request →
  process peer request kernel srv = (Ok (Some d), srv') →
  let m := Client.runtime c in
  ∃ reply, inspect_open_datagram (OutboundDatagram.bytes_of d) m = Ok (Trusted reply) ∧
    acceptable (SessionMachine.requested m) (OpenReply.params reply) ∧
    (if no_test_mode m then OpenReply.token reply = 0
     else created srv' sc peer (next_time srv) (OpenReply.token reply) (OpenReply.params reply)) ∧
    match prepare_open_acceptance reply at_ m with
    | Ok prepared =>
        (OpenPolicy.negotiation (ClientConfig.open cc) = Loose ∨ OpenReply.params reply = SessionMachine.requested m) ∧
        if no_test_mode m then PreparedOpenAcceptance.next_state prepared = StateNoTestCompleted
        else ∃ s, PreparedOpenAcceptance.next_state prepared = Open s ∧
          token s = OpenReply.token reply ∧ NegotiationResult.peer_params (negotiated s) = OpenReply.params reply
    | Err failure =>
        OpenPolicy.negotiation (ClientConfig.open cc) = Strict ∧ OpenReply.params reply ≠ SessionMachine.requested m ∧
        if no_test_mode m then OpenAcceptanceFailure.cleanup_close failure = None
        else ∃ close, OpenAcceptanceFailure.cleanup_close failure = Some close ∧
          encode_request (EncClose (OpenReply.token reply)) (ServerConfig.hmac_key sc) = Ok close
    | Panic => False
    end.
Proof.
  intros Hc Hr Hst Hsc Hsr Hkey Hreq Hp m. change (SessionMachine.state m = Connected) in Hst.
  destruct (reachable_good _ _ _ _ _ Hc Hr) as [[Hcfg Hm] _]. fold m in Hcfg, Hm, Hreq.
  destruct (machine_requested _ _ Hm) as [Hq Hqp].
  assert (key m = ServerConfig.hmac_key sc) as Hk by (unfold key; by rewrite Hcfg).
  destruct (open_request_ok _ _ Hm Hst) as (request' & Hreq' & Hcar).
  rewrite Hreq in Hreq'. apply Ok_inj in Hreq' as <-.
  destruct (open_reply_cases sc srv srv' peer request kernel (has_hmac m) (no_test_mode m)
    (encode_params (SessionMachine.requested m)) d) as (p & fill & token & Ho & Hpk & Ht & He & Hcase);
    [done|done|apply Hcar|by apply carries_authenticated|done|].
  destruct (open_reply_read (no_test_mode m) token p (ServerConfig.hmac_key sc)
    (OutboundDatagram.bytes_of d) Hpk Ht) as (reply & Hdec & Hok & Htok & Hpar & Hcl); [|done|].
  { intros Hz. by destruct (no_test_mode m); [|destruct Hcase]. }
  pose proof (offer_acceptable sc _ p fill Hsc Hq Hqp Ho) as Hacc. rewrite <- Hpar in Hacc.
  exists reply. split.
  { unfold inspect_open_datagram, ensure_connected. rewrite Hst. cbn [mbind Result_bind]. by rewrite Hk, Hdec. }
  split; [done|]. split.
  { rewrite Htok, Hpar. destruct (no_test_mode m); [done|]. destruct Hcase. split; [done|]. by exists fill. }
  rewrite <- Hk. apply (acceptance_decided cc m _ reply at_ Hm); try done.
  rewrite Htok. destruct (no_test_mode m); [done|]. by destruct Hcase.
Qed.
(** C2: a probe makes the round trip. When a probe an open client is waiting for
    reaches a server that holds the session under the same parameters and key,
    and the server answers, the client measures the answer against exactly that
    probe: it is a reply (late if a later one came first), with the reception
    statistics of the server that include the probe. The answer is shorter than
    the client's receive buffer, so it is never cut. *)
Theorem probe_measured (cc : ClientConfig.t) (sc : ServerConfig.t) remote t c evs
    (srv srv' : ServerCore.t) peer kernel s ss packet k tail p d now meta :
  config_ok cc → ClientProps.reachable cc remote t c evs →
  SessionMachine.state (Client.runtime c) = Open s →
  ServerConfig.ok sc → ServerCore.reachable sc srv →
  hmac_key (ClientConfig.auth cc) = ServerConfig.hmac_key sc →
  serves srv s ss →
  carries (Client.runtime c) packet (DecEcho (token s) k tail) →
  find_seq k (pending_of (Client.runtime c)) = Some p →
  process peer packet kernel srv = (Ok (Some d), srv') →
  let m := Client.runtime c in
  let answer := OutboundDatagram.bytes_of d in
  ∃ reply m' n, EchoReply.sequence reply = k ∧
    process_received_echo_packet answer now meta m
    = Ok (reply_event (SessionMachine.remote m) reply (len answer) now meta (highest_received_seq s)
            (FromPending p) ::
          (if has (EchoReply.flags reply) FLAG_CLOSE
           then [ClientEvent.SessionClosed (SessionMachine.remote m) (token s) now] else []), m') ∧
    (has (EchoReply.flags reply) FLAG_CLOSE = false → pending_of m' = drop_seq k (pending_of m)) ∧
    EchoReply.recv_count reply
    = then_some (ReceivedStats.has_count (Params.received_stats (Session.params ss)))
        (ReceiveState.count (ReceiveState.accepted (Session.receive ss) k)) ∧
    recv_buffer_size (has_hmac m) (Some (negotiated s)) = Ok n ∧ len answer < n.
Proof.
  intros Hc Hr Hst Hsc Hsr Hkey [Hl Hpar] Hcar Hfind Hp m answer.
  destruct (reachable_open _ _ _ _ _ s Hc Hr Hst) as (Hcfg & Hm & Hh & Ht).
  change (SessionMachine.state m = Open s) in Hst. fold m in Hcfg, Hm, Hh, Ht, Hcar, Hfind.
  assert (key m = ServerConfig.hmac_key sc) as Hk by (unfold key; by rewrite Hcfg).
  destruct (echo_served_inv sc srv srv' peer packet kernel _ (token s) k tail d Hsc Hsr (proj1 Hcar)
    (carries_authenticated m packet _ sc Hcar Hk) eq_refl Hp)
    as (ss' & sent & pl & closing & Hl' & _ & _ & _ & Hdec & Hlen & Hclose & _).
  cbv zeta in Hdec, Hclose. set (reply := set_wire _ _ _) in *.
  rewrite Hl in Hl'. injection Hl' as <-. fold answer in Hdec, Hlen.
  assert (EchoReply.sequence reply = k ∧ EchoReply.token reply = token s ∧
    EchoReply.recv_count reply
    = then_some (ReceivedStats.has_count (Params.received_stats (Session.params ss)))
        (ReceiveState.count (ReceiveState.accepted (Session.receive ss) k)))
    as (Hsq & Htok & Hcount) by done.
  clearbody reply. clear Hclose. rewrite Hpar, <- Hk in Hdec, Hlen.
  destruct (receive_ok _ m s answer now meta _ _ Hm Hst Hh Ht) as (new & m' & Hproc & Hres);
    [by rewrite Hdec|].
  rewrite Hdec, bool_decide_true in Hres by done.
  destruct Hres as (s' & _ & _ & Ht' & _ & -> & Hm'). cbv zeta in Hproc, Ht'. rewrite Hsq in Hproc, Ht'.
  unfold classified in Hproc. rewrite Hfind in Hproc.
  pose proof (hd_params _ _ _ Hh) as [Hacc _]. destruct (machine_requested _ _ Hm) as [Hq _].
  pose proof (acceptable_length _ _ Hq Hacc) as Hlp. unfold MAX_UDP_PAYLOAD_LENGTH in Hlp.
  pose proof USIZE_MAX_lo as HU.
  pose proof (echo_header_len_bounds (Envelope.is_some (key m))
    (NegotiationResult.peer_params (negotiated s))) as Hhb.
  assert (len answer < USIZE_MAX) as Hlt.
  { rewrite echo_packet_len_spec, decide_True in Hlen by lia. apply Ok_inj in Hlen.
    destruct (Envelope.is_some (key m)); lia. }
  exists reply, m', (Z.max (Z.min (len answer + 1) USIZE_MAX) MIN_RECV_BUFFER_SIZE).
  split; [done|]. split; [exact Hproc|]. split; [|split; [done|]].
  - intros Hcl. rewrite Hm'. cbv zeta. rewrite Hcl. by apply (pending_set_open _ m s' _ _ Ht').
  - unfold recv_buffer_size, has_hmac. rewrite Hlen. split; [done|lia].
Qed.
End interop.

(** ** A concrete exchange

    The client of [ClientProps] and the server of [ServerCore] share a key: an
    open, a probe, and its answer. *)
Section example.
#[local] Existing Instances target64 toy_hmac example_clocks example_host.

Definition server0 : ServerCore.t := ServerCore.new example_config.
Definition open_bytes : bytes :=
  match prepare_open_request (Client.runtime example_connected) with Ok p => p | _ => [] end.
Definition client_peer : SocketAddr := V4 2130706433 50000.
Definition open_exchange := process client_peer open_bytes None server0.
Definition server1 : ServerCore.t := run_event (Datagram client_peer open_bytes None) server0.

Definition answer_of (o : Result ServerError (option OutboundDatagram.t) * ServerCore.t)
    : OutboundDatagram.t :=
  match o.1 with Ok (Some d) => d | _ => OutboundDatagram.mk [] 0 end.

Lemma server1_reachable : ServerCore.reachable example_config server1.
Proof.
  refine (reach_event example_config (Datagram client_peer open_bytes None) server0 (reach_new _) _).
  decide_now.
Qed.

Lemma client_accepts_server_witness :
  ∃ reply prepared s, prepare_open_acceptance reply (at_time 2000) (Client.runtime example_connected)
      = Ok prepared ∧
    PreparedOpenAcceptance.next_state prepared = Open s ∧
    Session.params <$> sessions server1 !! token s = Some (OpenReply.params reply).
Proof.
  destruct (client_accepts_server client_config example_config example_remote 0 example_connected []
    server0 server1 client_peer None open_bytes (answer_of open_exchange) (at_time 2000))
    as (reply & Hi & _ & Hc & Ha).
  - exact client_config_ok.
  - exact example_connected_reachable.
  - vm_compute. reflexivity.
  - exact ServerCore.example_config_ok.
  - apply reach_new.
  - reflexivity.
  - vm_compute. reflexivity.
  - vm_compute. reflexivity.
  - assert (OpenPolicy.negotiation (ClientConfig.open client_config) = Loose) as Hpol by (vm_compute; reflexivity).
    assert (no_test_mode (Client.runtime example_connected) = false) as Hmode by (vm_compute; reflexivity).
    rewrite Hpol, Hmode in Ha. rewrite Hmode in Hc. revert Ha.
    destruct (prepare_open_acceptance _ _ _) as [prepared|failure|] eqn:Hp; [|intros [Hs _]; discriminate Hs|intros []].
    intros [_ (s & Hn & Ht & Hpar)]. destruct Hc as [_ (fill & Hl)].
    exists reply, prepared, s. split; [exact Hp|]. split; [exact Hn|]. rewrite Ht, Hl. reflexivity.
Defined.

(** The client opens on the server's own answer and sends a probe. *)
Definition open_action : Action :=
  ActOpen [mk_Attempt 1000 None None
    [mk_RecvStep 1500 None (OpenDatagram (OutboundDatagram.bytes_of (answer_of open_exchange))
       (at_time 2000) (mk_ApplyIo true (Ok tt) None false)) 2000]].
Definition client1 : Client.t := (perform open_action example_connected).2.
Definition client2 : Client.t := (perform (example_send 5000) client1).2.
Definition client2_events : list ClientEvent.t :=
  events_of open_action example_connected ++ events_of (example_send 5000) client1.

Lemma client2_reachable :
  ClientProps.reachable client_config example_remote 6000 client2 client2_events.
Proof.
  apply (reach_perform _ _ 3000 6000 client1 (events_of open_action example_connected)).
  - apply (reach_perform _ _ 0 3000 example_connected []).
    + exact example_connected_reachable.
    + split; [done|]. constructor; [|constructor]. constructor; [|constructor].
      split; [decide_now|done].
    + vm_compute. reflexivity.
  - split; done.
  - vm_compute. reflexivity.
Qed.

Definition probe_bytes : bytes := List.last (Client.outbox client2) [].
Definition probe_exchange := process client_peer probe_bytes None server1.

Definition probe_tail : bytes :=
  match decode_request probe_bytes with
  | Ok (DecodedRequest.mk _ (DecEcho _ _ tail)) => tail | _ => [] end.

Definition probe_answer : bytes := OutboundDatagram.bytes_of (answer_of probe_exchange).

Lemma probe_measured_witness :
  ∃ reply rest m',
    process_received_echo_packet probe_answer (at_time 9000) no_meta (Client.runtime client2)
    = Ok (reply_event (SessionMachine.remote (Client.runtime client2)) reply (len probe_answer)
            (at_time 9000) no_meta (highest_received_seq (session_of client2))
            (FromPending (PendingProbe.mk 0 (at_time 5000) (5000 + from_secs 4)
               (ClientTimestamp.wall (at_time 5000)) None)) :: rest, m') ∧
    EchoReply.recv_count reply = Some 1.
Proof.
  destruct (probe_measured client_config example_config example_remote 6000 client2 client2_events
    server1 probe_exchange.2 client_peer None (session_of client2)
    (match sessions server1 !! token (session_of client2) with
     | Some ss => ss | None => Session.new client_peer Params.default FillNone example_config 0 end)
    probe_bytes 0 probe_tail
    (PendingProbe.mk 0 (at_time 5000) (5000 + from_secs 4) (ClientTimestamp.wall (at_time 5000)) None)
    (answer_of probe_exchange) (at_time 9000) no_meta)
    as (reply & m' & n & _ & Hp & _ & Hcount & _).
  - exact client_config_ok.
  - exact client2_reachable.
  - vm_compute. reflexivity.
  - exact ServerCore.example_config_ok.
  - exact server1_reachable.
  - reflexivity.
  - split; vm_compute; reflexivity.
  - split; [decide_now|]. split; [vm_compute; reflexivity|]. intros k Hk.
    assert (key (Client.runtime client2) = Some [42]) as Hkey by (vm_compute; reflexivity).
    rewrite Hkey in Hk. injection Hk as <-. vm_compute. reflexivity.
  - vm_compute. reflexivity.
  - vm_compute. reflexivity.
  - eexists reply, _, m'. split; [exact Hp|]. rewrite Hcount. vm_compute. reflexivity.
Defined.
End example.
