(* ===== verification/Schedule.v ===== *)
(** * irtt-client: the send schedule of the managed driver

    Models [crates/irtt-client/src/managed/schedule.rs] and the release gate of
    [managed/task/pacing.rs]: when a target may send, the slot a probe belongs
    to, and the spacing of several targets. *)

From stdpp Require Import sorting.
From S2P Require Import Prelude ProtoBase ParamsCodec ClientBase ClientNegotiation Timing.

Definition U128_MAX : Z := 2 ^ 128 - 1.
(** [u128::checked_mul] and [u128::checked_add]. *)
Definition checked_u128 (z : Z) : option Z := if z <=? U128_MAX then Some z else None.

(** The duration of a count of nanoseconds, when its seconds fit [u64]. *)
Definition duration_from_nanos (nanos : Z) : CResult Z :=
  seconds ← ok_or (try_u64 (nanos / 1_000_000_000)) ClientError.DurationOverflow;
  Ok (seconds * 1_000_000_000 + nanos mod 1_000_000_000).

Definition instant_abs_diff (left right : Z) : Z :=
  match or_else (duration_since left right) (duration_since right left) with
  | Some d => d
  | None => 0
  end.

Module ScheduleCommit.
Record t : Type := mk { scheduled_at : Z; next_send_at : option Z }.
End ScheduleCommit.

Record ProbeSchedule : Type := mk_schedule {
  end_at : option Z;
  interval : Z;
  next_send_at : option Z;
}.

Section schedule.
Context `{Clocks}.

Definition advance_cadence (deadline interval now : Z) : CResult (Z * Z) :=
  if interval =? 0 then Err (ClientError.InvalidConfig "probe interval must be greater than zero")
  else
    let elapsed_slots :=
      match duration_since now deadline with Some elapsed => elapsed / interval | None => 0 end in
    scheduled_nanos ← ok_or (checked_u128 (interval * elapsed_slots)) ClientError.DurationOverflow;
    scheduled_offset ← duration_from_nanos scheduled_nanos;
    slots ← ok_or (checked_u128 (elapsed_slots + 1)) ClientError.DurationOverflow;
    next_nanos ← ok_or (checked_u128 (interval * slots)) ClientError.DurationOverflow;
    next_offset ← duration_from_nanos next_nanos;
    scheduled_at ← ok_or (instant_checked_add deadline scheduled_offset) ClientError.DurationOverflow;
    next_at ← ok_or (instant_checked_add deadline next_offset) ClientError.DurationOverflow;
    Ok (scheduled_at, next_at).

Definition schedule_new (start_at : Z) (accepted : AcceptedSessionParameters.t)
    : CResult ProbeSchedule :=
  end_at ←
    match AcceptedSessionParameters.duration accepted with
    | None => Ok None
    | Some duration =>
        Some <$> ok_or (instant_checked_add start_at duration)
          (ClientError.NegotiationRejected "duration is too large to schedule")
    end;
  Ok (mk_schedule end_at (AcceptedSessionParameters.interval accepted) (Some start_at)).

Definition next_send_deadline (self : ProbeSchedule) : option Z := next_send_at self.
Definition is_finished (self : ProbeSchedule) : bool :=
  match next_send_at self with None => true | Some _ => false end.
Definition end_deadline (self : ProbeSchedule) : option Z :=
  if is_finished self then None else end_at self.

(** [end_at.is_some_and(|end| t >= end)]. *)
Definition ended (self : ProbeSchedule) (t : Z) : bool :=
  match end_at self with Some e => e <=? t | None => false end.

Definition permit_probe_at (now : Z) (self : ProbeSchedule) : bool * ProbeSchedule :=
  match next_send_at self with
  | None => (false, self)
  | Some _ =>
      if ended self now then (false, mk_schedule (end_at self) (interval self) None)
      else (true, self)
  end.

Definition preflight_managed_commit (scheduled_at permission_at : Z) (self : ProbeSchedule)
    : CResult ScheduleCommit.t :=
  '(scheduled_at, next) ← advance_cadence scheduled_at (interval self) permission_at;
  Ok (ScheduleCommit.mk scheduled_at (if ended self next then None else Some next)).

Definition commit (c : ScheduleCommit.t) (self : ProbeSchedule) : ProbeSchedule :=
  mk_schedule (end_at self) (interval self) (ScheduleCommit.next_send_at c).

Definition skip_missed_slots_at (now : Z) (self : ProbeSchedule) : CResult ProbeSchedule :=
  match next_send_at self with
  | Some deadline =>
      if deadline <=? now then
        c ← preflight_managed_commit deadline now self;
        Ok (commit c self)
      else Ok self
  | None => Ok self
  end.

(** What [poll_one_send] does to the schedule of a target: at [now], with the
    outcome of the socket and the time after the submission. A probe whose send
    was accepted is the slot it was sent for. *)
Definition send_slot (now : Z) (accepted : bool) (after : Z) (self : ProbeSchedule)
    : CResult (option Z * ProbeSchedule) :=
  let '(permitted, self) := permit_probe_at now self in
  if negb permitted then Ok (None, self)
  else
    match next_send_deadline self with
    | Some deadline =>
        if now <? deadline then Ok (None, self)
        else
          c ← preflight_managed_commit deadline now self;
          if accepted then
            self ← skip_missed_slots_at after (commit c self);
            Ok (Some (ScheduleCommit.scheduled_at c), self)
          else Ok (None, self)
    | None => Ok (None, self)
    end.
End schedule.

(** ** Pacing several targets *)

(** A release gate delays a send opportunity; it cannot create one. *)
Definition gated_send_deadline (cadence gate : option Z) : option Z :=
  (λ deadline, match gate with Some gate => Z.max deadline gate | None => deadline end) <$> cadence.

Definition stagger_spacing (interval active_targets : Z) : Z :=
  let divisor := Z.max active_targets 1 in
  let nanos := Z.max (interval / divisor) 1 in
  let seconds := match try_u64 (nanos / 1_000_000_000) with Some s => s | None => U64_MAX end in
  seconds * 1_000_000_000 + nanos mod 1_000_000_000.

Definition next_stagger_gate `{Clocks} (send_gate : option Z) (spacing accepted_at : Z) : option Z :=
  let base :=
    match send_gate with
    | Some gate => if (gate <=? accepted_at) && (accepted_at - gate <? spacing) then gate else accepted_at
    | None => accepted_at
    end in
  instant_checked_add base spacing.

(** ** Attempts of a run *)
Record Attempt : Type := mk_attempt { at_ : Z; accepted_ : bool; after_ : Z }.
Record Sent : Type := mk_sent { slot : Z; sent_at_ : Z; done_at : Z }.

(** Submissions do not overlap and time does not run back. *)
Fixpoint timely (t : Z) (l : list Attempt) : Prop :=
  match l with
  | [] => True
  | a :: l => t <= at_ a <= after_ a ∧ timely (after_ a) l
  end.

Fixpoint run_attempts `{Clocks} (l : list Attempt) (s : ProbeSchedule)
    : CResult (list Sent * ProbeSchedule) :=
  match l with
  | [] => Ok ([], s)
  | a :: l =>
      '(sent, s) ← send_slot (at_ a) (accepted_ a) (after_ a) s;
      '(rest, s) ← run_attempts l s;
      Ok ((match sent with Some x => [mk_sent x (at_ a) (after_ a)] | None => [] end) ++ rest, s)
  end.

(** ** Lemmas *)
Section lemmas.
Context `{Clocks}.

Lemma duration_from_nanos_ok d d' : duration_from_nanos d = Ok d' → d' = d.
Proof.
  unfold duration_from_nanos. intros (s & Hs & Hd)%bind_ok. injection Hd as <-.
  unfold try_u64 in Hs. case_decide; [|done]. injection Hs as <-.
  pose proof (Z.div_mod d 1_000_000_000). lia.
Qed.

Lemma seconds_fit d : 0 <= d <= DURATION_MAX → in_u 64 (d / 1_000_000_000).
Proof.
  intros Hd. unfold in_u, DURATION_MAX, U64_MAX in *. change (2 ^ 64) with 18446744073709551616 in *.
  Z.div_mod_to_equations. lia.
Qed.

Lemma duration_from_nanos_total d : 0 <= d <= DURATION_MAX → duration_from_nanos d = Ok d.
Proof.
  intros Hd. unfold duration_from_nanos, try_u64. rewrite decide_True by by apply seconds_fit.
  cbn [ok_or mbind Result_bind]. f_equal. pose proof (Z.div_mod d 1_000_000_000). lia.
Qed.

(** The slots crossed since [deadline]. *)
Definition crossed (deadline interval now : Z) : Z := Z.max 0 ((now - deadline) / interval).

Lemma crossed_eq deadline interval now :
  0 < interval →
  match duration_since now deadline with Some elapsed => elapsed / interval | None => 0 end
  = crossed deadline interval now.
Proof.
  intros Hi. unfold duration_since, crossed. destruct (Z.leb_spec deadline now) as [Hle|Hlt].
  - pose proof (Z.div_pos (now - deadline) interval). lia.
  - pose proof (Z.div_lt_upper_bound (now - deadline) interval 0). lia.
Qed.

Lemma crossed_spec deadline interval now :
  0 < interval → deadline <= now →
  deadline + crossed deadline interval now * interval <= now
    < deadline + (crossed deadline interval now + 1) * interval.
Proof.
  intros Hi Hle. unfold crossed. rewrite Z.max_r by (apply Z.div_pos; lia).
  pose proof (Z.div_mod (now - deadline) interval). pose proof (Z.mod_pos_bound (now - deadline) interval). lia.
Qed.

Lemma cadence_ok deadline interval now s n :
  0 < interval → advance_cadence deadline interval now = Ok (s, n) →
  s = deadline + crossed deadline interval now * interval ∧ n = s + interval.
Proof.
  intros Hi. unfold advance_cadence. destruct (Z.eqb_spec interval 0); [lia|].
  rewrite (crossed_eq deadline interval now Hi). set (k := crossed deadline interval now).
  intros (a & Ha & (b & Hb & (c & Hc & (d & Hd & (e & He & (f & Hf & (g & Hg & Hok)%bind_ok)%bind_ok)%bind_ok)%bind_ok)%bind_ok)%bind_ok)%bind_ok.
  injection Hok as -> ->. apply duration_from_nanos_ok in Hb, He. subst b e.
  unfold ok_or, checked_u128, instant_checked_add in *.
  repeat match goal with H : context [if ?b then _ else _] |- _ => destruct b; [|done] end.
  simplify_eq. lia.
Qed.

Lemma cadence_total deadline interval now :
  0 < interval → (crossed deadline interval now + 1) * interval <= DURATION_MAX →
  deadline + (crossed deadline interval now + 1) * interval <= INSTANT_MAX →
  advance_cadence deadline interval now
  = Ok (deadline + crossed deadline interval now * interval,
        deadline + (crossed deadline interval now + 1) * interval).
Proof.
  intros Hi Hd Hm. unfold advance_cadence. destruct (Z.eqb_spec interval 0); [lia|].
  rewrite (crossed_eq deadline interval now Hi).
  assert (0 <= crossed deadline interval now) as Hk by (unfold crossed; lia).
  revert Hk Hd Hm. generalize (crossed deadline interval now). intros k Hk Hd Hm.
  assert (DURATION_MAX <= U128_MAX) as Hmax by (vm_compute; discriminate).
  assert (k + 1 <= U128_MAX) as Hk1 by nia.
  unfold checked_u128.
  rewrite (proj2 (Z.leb_le (interval * k) U128_MAX)) by lia. cbn [ok_or mbind Result_bind].
  rewrite duration_from_nanos_total by lia. cbn [mbind Result_bind].
  rewrite (proj2 (Z.leb_le (k + 1) U128_MAX)) by lia. cbn [ok_or mbind Result_bind].
  rewrite (proj2 (Z.leb_le (interval * (k + 1)) U128_MAX)) by lia. cbn [ok_or mbind Result_bind].
  rewrite duration_from_nanos_total by lia. cbn [mbind Result_bind].
  unfold instant_checked_add. rewrite !(proj2 (Z.leb_le _ _)) by lia. cbn [ok_or mbind Result_bind].
  f_equal. f_equal; lia.
Qed.

(** ** One attempt *)

(** The next slot is on the grid from [start], and after [t]. *)
Definition on_grid (start i x : Z) : Prop := ∃ k, 0 <= k ∧ x = start + k * i.
Record schedule_ok (start i : Z) (e : option Z) (s : ProbeSchedule) : Prop := {
  s_interval : interval s = i;
  s_end : end_at s = e;
  s_grid x : next_send_at s = Some x → on_grid start i x;
}.

Lemma on_grid_step start i x j : on_grid start i x → 0 <= j → on_grid start i (x + j * i).
Proof. intros (k & ? & ->) Hj. exists (k + j). split; lia. Qed.

Lemma schedule_preflight_ok start i e s deadline now c :
  0 < i → schedule_ok start i e s → on_grid start i deadline →
  preflight_managed_commit deadline now s = Ok c →
  let x := ScheduleCommit.scheduled_at c in
  x = deadline + crossed deadline i now * i ∧ on_grid start i x ∧
  schedule_ok start i e (commit c s) ∧
  (∀ y, ScheduleCommit.next_send_at c = Some y → y = x + i).
Proof.
  intros Hi [Hint Hend Hgrid] Hd. unfold preflight_managed_commit. rewrite Hint.
  intros ([x n] & Ha & Hc)%bind_ok. injection Hc as <-. cbn [ScheduleCommit.scheduled_at ScheduleCommit.next_send_at].
  destruct (cadence_ok _ _ _ _ _ Hi Ha) as [-> ->].
  assert (on_grid start i (deadline + crossed deadline i now * i)) as Hx.
  { apply on_grid_step; [done|]. unfold crossed. lia. }
  split; [done|]. split; [done|]. split.
  - split; [done|done|]. cbn. destruct (ended s _); [done|]. intros y [= <-].
    replace (deadline + crossed deadline i now * i + i) with (deadline + crossed deadline i now * i + 1 * i) by lia.
    apply on_grid_step; [done|lia].
  - destruct (ended s _); [done|]. by intros y [= <-].
Qed.

Lemma schedule_skip_ok start i e s now s' :
  0 < i → schedule_ok start i e s → skip_missed_slots_at now s = Ok s' →
  schedule_ok start i e s' ∧
  ∀ y, next_send_at s' = Some y → now < y ∧ ∀ x, next_send_at s = Some x → x <= y.
Proof.
  intros Hi Hs. unfold skip_missed_slots_at. destruct (next_send_at s) as [x|] eqn:Hx.
  - destruct (Z.leb_spec x now) as [Hle|Hlt].
    + intros (c & Hc & Heq)%bind_ok. injection Heq as <-.
      destruct (schedule_preflight_ok start i e s x now c Hi Hs (s_grid _ _ _ _ Hs x Hx) Hc) as (Hsl & _ & Hok & Hn).
      split; [done|]. cbn. intros y Hy. pose proof (Hn y Hy). pose proof (crossed_spec x i now Hi Hle).
      assert (0 <= crossed x i now) by (unfold crossed; lia).
      split; [lia|]. intros x' [= <-]. nia.
    + intros [= <-]. split; [done|]. rewrite Hx. intros y [= <-]. split; [done|]. intros x' [= <-]. lia.
  - intros [= <-]. split; [done|]. by rewrite Hx.
Qed.

Lemma send_slot_ok start i e s now accepted after sent s' :
  0 < i → schedule_ok start i e s → now <= after →
  send_slot now accepted after s = Ok (sent, s') →
  schedule_ok start i e s' ∧
  (∀ x, sent = Some x → on_grid start i x ∧ x <= now < x + i ∧ (∀ t, e = Some t → now < t) ∧
    (∀ y, next_send_at s = Some y → y <= x) ∧ ∀ y, next_send_at s' = Some y → after < y) ∧
  (sent = None → ∀ y, next_send_at s' = Some y → next_send_at s = Some y) ∧
  (∀ t, e = Some t → t <= now → next_send_at s' = None).
Proof.
  intros Hi Hs Hna. unfold send_slot, permit_probe_at, next_send_deadline.
  destruct (next_send_at s) as [d|] eqn:Hd.
  2:{ cbn. intros [= <- <-]. split; [done|]. rewrite Hd. split; [done|]. by split. }
  pose proof Hs as [Hint Hend Hgrid].
  destruct (ended s now) eqn:He.
  { cbn. intros [= <- <-]. split; [by split|]. split; [done|]. by split. }
  assert (∀ t, e = Some t → now < t) as Hbefore.
  { intros t ->. unfold ended in He. rewrite Hend in He. lia. }
  cbn [negb]. rewrite Hd. destruct (Z.ltb_spec now d) as [Hlt|Hge].
  { intros [= <- <-]. split; [done|]. rewrite Hd. split; [done|]. split; [done|].
    intros t Ht Hle. specialize (Hbefore t Ht). lia. }
  intros (c & Hc & Hrest)%bind_ok.
  destruct (schedule_preflight_ok start i e s d now c Hi Hs (Hgrid d Hd) Hc) as (Hsl & Hg & Hok & Hn).
  pose proof (crossed_spec d i now Hi Hge). assert (0 <= crossed d i now) by (unfold crossed; lia).
  destruct accepted.
  - apply bind_ok in Hrest as (s1 & Hskip & [= <- <-]).
    destruct (schedule_skip_ok start i e _ after s1 Hi Hok Hskip) as [Hs1 Hnext].
    split; [done|]. split; [|split; [done|]].
    + intros x [= <-]. split; [done|]. split; [lia|]. split; [done|]. split.
      * intros y [= <-]. nia.
      * intros y Hy. by apply Hnext.
    + intros t Ht Hle. specialize (Hbefore t Ht). lia.
  - injection Hrest as <- <-. split; [done|]. rewrite Hd. split; [done|]. split; [done|].
    intros t Ht Hle. specialize (Hbefore t Ht). lia.
Qed.
End lemmas.

(** ** Runs *)
Section runs.
Context `{Clocks}.

Lemma schedule_run_ok start i e l t s sent s' :
  0 < i → schedule_ok start i e s → timely t l → run_attempts l s = Ok (sent, s') →
  schedule_ok start i e s' ∧
  Forall (λ x, on_grid start i (slot x) ∧ slot x <= sent_at_ x < slot x + i ∧
    t <= sent_at_ x <= done_at x ∧ (∀ y, e = Some y → sent_at_ x < y)) sent ∧
  StronglySorted (λ a b, done_at a < slot b) sent ∧
  (∀ y, next_send_at s = Some y → Forall (λ x, y <= slot x) sent) ∧
  (next_send_at s = None → sent = []).
Proof.
  intros Hi. revert t s sent. induction l as [|a l IH]; intros t s sent Hs Ht; cbn [run_attempts].
  - intros [= <- <-]. split; [done|]. split; [constructor|]. split; [constructor|]. by split; [constructor|].
  - cbn in Ht. destruct Ht as [Hta Ht]. intros ([o s1] & Ho & ([rest s2] & Hrun & Hok)%bind_ok)%bind_ok.
    injection Hok as <- <-.
    destruct (send_slot_ok start i e s (at_ a) (accepted_ a) (after_ a) o s1 Hi Hs ltac:(lia) Ho)
      as (Hs1 & Hsome & Hnone & _).
    destruct (IH (after_ a) s1 rest Hs1 Ht Hrun) as (Hs2 & Hall & Hsort & Hfrom & Hempty).
    assert (Forall (λ x, on_grid start i (slot x) ∧ slot x <= sent_at_ x < slot x + i ∧
      t <= sent_at_ x <= done_at x ∧ (∀ y, e = Some y → sent_at_ x < y)) rest) as Hall'.
    { eapply Forall_impl; [exact Hall|]. cbn. intros x (? & ? & ? & ?). repeat split; try done; lia. }
    split; [done|]. destruct o as [x|]; cbn [app].
    + destruct (Hsome x eq_refl) as (Hg & Hx & Hend & Hge & Hafter).
      split; [constructor; [cbn; repeat split; (done || lia)|done]|]. split; [|split].
      * constructor; [done|]. apply Forall_forall. intros b Hb. cbn.
        destruct (next_send_at s1) as [y|] eqn:Hy.
        -- specialize (Hfrom y eq_refl). rewrite Forall_forall in Hfrom. specialize (Hfrom b Hb).
           specialize (Hafter y eq_refl). lia.
        -- rewrite (Hempty eq_refl) in Hb. by apply not_elem_of_nil in Hb.
      * intros y Hy. constructor; [by apply Hge|].
        destruct (next_send_at s1) as [z|] eqn:Hz; [|by rewrite (Hempty eq_refl)].
        specialize (Hge y Hy). specialize (Hafter z eq_refl). specialize (Hfrom z eq_refl).
        eapply Forall_impl; [exact Hfrom|]. cbn. lia.
      * intros Hn. exfalso. revert Ho. unfold send_slot, permit_probe_at. rewrite Hn. done.
    + split; [done|]. split; [done|]. split.
      * intros y Hy. destruct (next_send_at s1) as [z|] eqn:Hz; [|by rewrite (Hempty eq_refl)].
        pose proof (Hnone eq_refl z eq_refl). apply Hfrom. congruence.
      * intros Hn. apply Hempty. destruct (next_send_at s1) as [z|] eqn:Hz; [|done].
        pose proof (Hnone eq_refl z eq_refl). congruence.
Qed.

Lemma schedule_new_ok start accepted s :
  schedule_new start accepted = Ok s →
  schedule_ok start (AcceptedSessionParameters.interval accepted)
    ((λ d, start + d) <$> AcceptedSessionParameters.duration accepted) s ∧ next_send_at s = Some start.
Proof.
  unfold schedule_new. intros (e & He & Hs)%bind_ok. injection Hs as <-. split; [|done].
  split; [done| |].
  - cbn. destruct (AcceptedSessionParameters.duration accepted) as [d|]; [|by injection He as <-].
    unfold instant_checked_add in He. cbn in He. destruct (start + d <=? INSTANT_MAX); [|done].
    cbn in He. by injection He as <-.
  - cbn. intros x [= <-]. exists 0. split; lia.
Qed.

(** Slots on the grid, each after the previous submission, below a bound. *)
Lemma slots_bound start i d (sent : list Sent) t :
  0 < i → StronglySorted (λ a b, done_at a < slot b) sent →
  Forall (λ x, on_grid start i (slot x) ∧ t <= slot x ∧ slot x <= done_at x ∧ slot x < start + d) sent →
  sent = [] ∨ t + (len sent - 1) * i < start + d.
Proof.
  intros Hi Hsort. revert t. induction Hsort as [|x sent Hsort IH Hx]; intros t Hall; [by left|].
  right. apply Forall_cons in Hall as [(Hg & Ht & Hd & Hlim) Hall].
  destruct (IH (slot x + i)) as [->|Hb].
  - rewrite Forall_forall in *. intros y Hy. destruct (Hall y Hy) as (Hgy & _ & ? & ?).
    split; [done|]. split; [|done]. specialize (Hx y Hy). cbn in Hx.
    destruct Hg as (k & ? & Hk), Hgy as (j & ? & Hj).
    assert (k < j) by (apply (Z.mul_lt_mono_pos_r i); lia).
    assert ((k + 1) * i <= j * i) by (apply Z.mul_le_mono_nonneg_r; lia). lia.
  - rewrite len_cons. change (len (@nil Sent)) with 0. lia.
  - rewrite len_cons. nia.
Qed.

(** The cadence of a target. However late the driver wakes and whichever
    submissions the socket refuses, the probes sent stay on the grid of the
    negotiated interval from the start of the session: each belongs to the slot
    current when it was sent, is less than one interval late, and is scheduled
    after the previous submission finished, so missed slots are skipped and
    never caught up in a burst. A finite test sends only before its end, and at
    most one probe per interval of its duration, rounded up. *)
Theorem slots_on_grid start accepted s l sent s' :
  0 < AcceptedSessionParameters.interval accepted →
  schedule_new start accepted = Ok s → timely start l → run_attempts l s = Ok (sent, s') →
  let i := AcceptedSessionParameters.interval accepted in
  Forall (λ x, on_grid start i (slot x) ∧ slot x <= sent_at_ x < slot x + i) sent ∧
  StronglySorted (λ a b, done_at a < slot b) sent ∧
  (∀ d, AcceptedSessionParameters.duration accepted = Some d →
    Forall (λ x, sent_at_ x < start + d) sent ∧ (sent = [] ∨ (len sent - 1) * i < d)).
Proof.
  intros Hi Hnew Ht Hrun i. destruct (schedule_new_ok start accepted s Hnew) as [Hs Hfirst].
  destruct (schedule_run_ok start i _ l start s sent s' Hi Hs Ht Hrun) as (_ & Hall & Hsort & Hfrom & _).
  split; [eapply Forall_impl; [exact Hall|]; cbn; naive_solver|]. split; [done|]. intros d Hd.
  rewrite Hd in Hall. split.
  - eapply Forall_impl; [exact Hall|]. cbn. intros x (_ & _ & _ & He). by apply He.
  - specialize (Hfrom start Hfirst).
    destruct (slots_bound start i d sent start Hi Hsort) as [->|Hb]; [|by left|right; lia].
    rewrite Forall_forall in *. intros x Hx. destruct (Hall x Hx) as (Hg & ? & ? & He).
    specialize (Hfrom x Hx). specialize (He _ eq_refl). cbn in *. repeat split; (done || lia).
Qed.

(** A finite test ends. From its end on the schedule refuses every probe and
    is finished; until then it has a wake-up at the end whatever the socket and
    the gate of the other targets do. A continuous test never finishes by time. *)
Theorem finite_test_ends start accepted s l sent s' now :
  0 < AcceptedSessionParameters.interval accepted →
  schedule_new start accepted = Ok s → timely start l → run_attempts l s = Ok (sent, s') →
  match AcceptedSessionParameters.duration accepted with
  | Some d =>
      (start + d <= now → (permit_probe_at now s').1 = false ∧ is_finished (permit_probe_at now s').2 = true) ∧
      (is_finished s' = false → end_deadline s' = Some (start + d))
  | None => is_finished s' = false → (permit_probe_at now s').1 = true
  end.
Proof.
  intros Hi Hnew Ht Hrun. destruct (schedule_new_ok start accepted s Hnew) as [Hs _].
  destruct (schedule_run_ok start _ _ l start s sent s' Hi Hs Ht Hrun) as ([_ Hend _] & _).
  unfold permit_probe_at, end_deadline, is_finished, ended. rewrite Hend.
  destruct (AcceptedSessionParameters.duration accepted) as [d|]; cbn.
  - split; [|by destruct (next_send_at s')].
    intros Hle. destruct (next_send_at s') eqn:Hn; [|by cbn; rewrite Hn].
    by rewrite (proj2 (Z.leb_le (start + d) now) Hle).
  - by destruct (next_send_at s').
Qed.
End runs.

(** ** Pacing *)
Section pacing.
Context `{Clocks}.

Lemma stagger_spacing_eq interval n :
  0 < n → 0 <= interval <= DURATION_MAX → stagger_spacing interval n = Z.max (interval / n) 1.
Proof.
  intros Hn Hi. unfold stagger_spacing. rewrite (Z.max_l n 1) by lia.
  assert (0 <= interval / n <= interval) as Hq by (Z.div_mod_to_equations; nia).
  assert (0 <= Z.max (interval / n) 1 <= DURATION_MAX) as Hz.
  { assert (1 <= DURATION_MAX) by (vm_compute; discriminate). lia. }
  unfold try_u64. rewrite decide_True by by apply seconds_fit.
  pose proof (Z.div_mod (Z.max (interval / n) 1) 1_000_000_000). lia.
Qed.

(** The gates after a run of accepted sends. *)
Fixpoint gate_after (spacing : Z) (gate : option Z) (accepts : list Z) : option Z :=
  match accepts with
  | [] => gate
  | t :: accepts => gate_after spacing (next_stagger_gate gate spacing t) accepts
  end.

(** Each accept is at its gate or less than a spacing late. *)
Fixpoint on_time (spacing gate : Z) (accepts : list Z) : Prop :=
  match accepts with
  | [] => True
  | t :: accepts => gate <= t < gate + spacing ∧ on_time spacing (gate + spacing) accepts
  end.

Lemma next_gate_spec gate spacing t g :
  next_stagger_gate gate spacing t = Some g → 0 < spacing →
  t < g <= t + spacing.
Proof.
  unfold next_stagger_gate, instant_checked_add. intros Hg Hs.
  destruct gate as [g0|]; [destruct (Z.leb_spec g0 t), (Z.ltb_spec (t - g0) spacing)|]; cbn in Hg;
    match type of Hg with context [if ?b then _ else _] => destruct b; [|done] end;
    simplify_eq; lia.
Qed.

Lemma next_gate_on_time gate spacing t :
  gate <= t < gate + spacing → gate + spacing <= INSTANT_MAX →
  next_stagger_gate (Some gate) spacing t = Some (gate + spacing).
Proof.
  intros Ht Hm. unfold next_stagger_gate, instant_checked_add.
  rewrite (proj2 (Z.leb_le gate t)), (proj2 (Z.ltb_lt (t - gate) spacing)) by lia. cbn.
  by rewrite (proj2 (Z.leb_le _ _)) by done.
Qed.

Lemma gate_after_on_time spacing gate accepts :
  0 < spacing → on_time spacing gate accepts → gate + len accepts * spacing <= INSTANT_MAX →
  gate_after spacing (Some gate) accepts = Some (gate + len accepts * spacing).
Proof.
  intros Hs. revert gate. induction accepts as [|t accepts IH]; intros gate; cbn [on_time gate_after].
  - intros _ _. f_equal. change (len (@nil Z)) with 0. lia.
  - intros [Ht Hon] Hm. rewrite len_cons in *. pose proof (len_nonneg accepts).
    rewrite next_gate_on_time by (done || nia). rewrite IH; [f_equal; lia|done|lia].
Qed.

(** Staggered pacing. The spacing of [n] active targets lets one round of
    sends fit in the shortest interval; a gate that is met less than a spacing
    late advances on its own cadence, so a group never drifts however late each
    wake-up is; and after any accepted send the next gate is in the future, at
    most a spacing away, so a stranded gate releases no burst. *)
Theorem stagger_cadence interval n gate accepts last :
  0 < n <= interval → interval <= DURATION_MAX →
  let spacing := stagger_spacing interval n in
  on_time spacing gate accepts → gate + len accepts * spacing <= INSTANT_MAX →
  1 <= spacing ∧ spacing * n <= interval ∧
  gate_after spacing (Some gate) accepts = Some (gate + len accepts * spacing) ∧
  (∀ previous g, next_stagger_gate previous spacing last = Some g → last < g <= last + spacing).
Proof.
  intros Hn Hi spacing Hon Hm. unfold spacing in *. rewrite stagger_spacing_eq in * by lia.
  assert (1 <= interval / n) as Hq by (apply Z.div_le_lower_bound; lia).
  rewrite (Z.max_l (interval / n) 1) in * by lia.
  split; [done|]. split; [pose proof (Z.mul_div_le interval n); lia|].
  split; [by apply gate_after_on_time; lia || done|].
  intros previous g Hg. apply (next_gate_spec previous); [done|lia].
Qed.
End pacing.

(** ** Concrete runs *)
Section example.
#[local] Instance schedule_clocks : Clocks := {| INSTANT_MAX := 2 ^ 63 |}.

(** 100 ns of test at 10 ns, and a wake-up three slots late. *)
Definition example_accepted : AcceptedSessionParameters.t :=
  AcceptedSessionParameters.mk (Some 100) 10 0 ReceivedStats.None StampAt.None Clock.Both 0 None.
Definition example_schedule : ProbeSchedule := mk_schedule (Some 1100) 10 (Some 1000).
Definition example_attempts : list Attempt :=
  [mk_attempt 1000 true 1001; mk_attempt 1005 true 1006; mk_attempt 1043 true 1044;
   mk_attempt 1050 false 1052; mk_attempt 1053 true 1071; mk_attempt 1072 true 1073;
   mk_attempt 1085 true 1086; mk_attempt 1200 true 1201].
Definition example_sent : list Sent :=
  [mk_sent 1000 1000 1001; mk_sent 1040 1043 1044; mk_sent 1050 1053 1071; mk_sent 1080 1085 1086].

Example example_run_slots : run_attempts example_attempts example_schedule
  = Ok (example_sent, mk_schedule (Some 1100) 10 None).
Proof. vm_compute. reflexivity. Qed.

Lemma example_timely : timely 1000 example_attempts.
Proof. cbn. lia. Qed.

Lemma slots_on_grid_witness : StronglySorted (λ a b, done_at a < slot b) example_sent.
Proof.
  assert (schedule_new 1000 example_accepted = Ok example_schedule) as Hn by (vm_compute; reflexivity).
  assert (run_attempts example_attempts example_schedule
    = Ok (example_sent, mk_schedule (Some 1100) 10 None)) as Hr by (vm_compute; reflexivity).
  exact (proj1 (proj2 (slots_on_grid 1000 example_accepted example_schedule example_attempts
    example_sent _ eq_refl Hn example_timely Hr))).
Defined.

Lemma finite_test_ends_witness :
  end_deadline example_schedule = Some 1100 ∧ (permit_probe_at 1100 example_schedule).1 = false.
Proof.
  assert (schedule_new 1000 example_accepted = Ok example_schedule) as Hn by (vm_compute; reflexivity).
  destruct (finite_test_ends 1000 example_accepted example_schedule [] [] example_schedule 1100
    eq_refl Hn I eq_refl) as [He Hd].
  split; [exact (Hd eq_refl)|]. apply He. reflexivity.
Defined.

Lemma stagger_cadence_witness :
  gate_after (stagger_spacing 100 3) (Some 1000) [1000; 1040; 1066] = Some (1000 + 3 * 33).
Proof.
  assert (on_time (stagger_spacing 100 3) 1000 [1000; 1040; 1066]) as Hon by (vm_compute; intuition discriminate).
  apply (stagger_cadence 100 3 1000 [1000; 1040; 1066] 0); [lia|vm_compute; discriminate|exact Hon|vm_compute; discriminate].
Defined.
End example.
