(* ===== verification/ManagedBase.v ===== *)
(** * irtt-client: the managed driver's data

    Models the data of [crates/irtt-client/src/managed/model.rs] and the state of
    [managed/task.rs] and [task/target.rs]: target configurations, outcomes and
    their history, counters, and one target generation with its phase. The
    async client a phase owns is the interface [AsyncSession]. *)

From S2P Require Import Prelude ProtoBase ParamsCodec ClientBase ClientNegotiation ClientEvent Machine Client.
From S2P Require Import Schedule.

(** ** Configuration (model.rs) *)

Abbreviation TargetId := bytes (only parsing).

Module TargetInstance.
Record t : Type := mk { id : TargetId; generation : Z }.
End TargetInstance.

Inductive TargetAuth : Type := Inherit | Override (auth : Authentication).
Definition resolve (self : TargetAuth) (shared : Authentication) : Authentication :=
  match self with Inherit => shared | Override auth => auth end.

Module ManagedTargetConfig.
Record t : Type := mk {
  id : TargetId;
  server_addr : bytes;
  address_family : option AddressFamily;
  auth : TargetAuth;
}.
Definition new (id : TargetId) (server_addr : bytes) : t := mk id server_addr None Inherit.
End ManagedTargetConfig.

#[export] Instance AddressFamily_eq_dec : EqDecision AddressFamily.
Proof. solve_decision. Defined.
#[export] Instance Authentication_eq_dec : EqDecision Authentication.
Proof. solve_decision. Defined.
#[export] Instance TargetAuth_eq_dec : EqDecision TargetAuth.
Proof. solve_decision. Defined.
#[export] Instance ManagedTargetConfig_eq_dec : EqDecision ManagedTargetConfig.t.
Proof. solve_decision. Defined.

Inductive ManagedPacing : Type := Staggered | Burst.
Inductive ManagedCompletionPolicy : Type := FinishWhenQuiescent | ExplicitStop.

Module ManagedClientConfig.
Record t : Type := mk {
  client : ClientConfig.t;
  pacing : ManagedPacing;
  completion : ManagedCompletionPolicy;
  event_capacity : Z;
  command_capacity : Z;
  outcome_history_limit : Z;
  max_live_target_generations : Z;
  final_drain : Z;
  reconnect_timeout : option Z;
  reconnect_initial_delay : Z;
  reconnect_max_delay : Z;
}.
Definition default : t :=
  mk ClientConfig.default Staggered FinishWhenQuiescent 256 64 256 256 (from_millis 100) None
    (from_millis 250) (from_secs 10).
End ManagedClientConfig.

(** ** What the driver runs on *)

Inductive Poll (A : Type) : Type := Pending | Ready (a : A).
Arguments Pending {A}.
Arguments Ready {A} a.

(** [UpdateAdmission] (control.rs): whether handles may still submit updates. *)
Inductive UpdateAdmission : Type := AdmitOpen | AdmitStopping | AdmitClosed.
#[export] Instance UpdateAdmission_eq_dec : EqDecision UpdateAdmission.
Proof. solve_decision. Defined.

(** What another thread does through a handle: [stop], or [update_targets] past
    its first look at the admission. *)
Inductive HandleCall : Type :=
  | CallStop
  | CallUpdate (observed : UpdateAdmission) (targets : list ManagedTargetConfig.t).

(** The world outside the task: its clock and timer, the tokio runtime, and the
    other threads, whose calls land where the task reads what it shares. *)
Class Runtime := {
  World : Type;
  instant_now : World → Z * World;
  timer_ready : Z → World → bool * World;
  runtime_entered : World → bool;
  handle_calls : World → list HandleCall * World;
}.

(** [async_client.rs] seen from the driver: observers and operations, each of
    which may read or move the world. *)
Class AsyncSession `{Runtime} := {
  AsyncClient : Type;
  AsyncOpenState : Type;
  ConnectFuture : Type;
  connect_future : bytes → ClientConfig.t → ConnectFuture;
  open_state_new : AsyncOpenState;
  has_in_flight_work : AsyncOpenState → bool;
  packets_sent : AsyncClient → Z;
  remote_addr : AsyncClient → SocketAddr;
  is_peer_closed : AsyncClient → bool;
  has_pending_probes : AsyncClient → bool;
  next_probe_timeout_deadline : AsyncClient → option Z;
  latest_probe_timeout_deadline : AsyncClient → option Z;
  discard_prepared_probe : AsyncClient → AsyncClient;
  poll_connect : ConnectFuture → World → Poll (CResult AsyncClient) * ConnectFuture * World;
  poll_timeouts_bounded_at : Z → Z → AsyncClient → World →
    CResult (list ClientEvent.t * bool) * AsyncClient * World;
  cancel_open : AsyncOpenState → AsyncClient → World →
    option ClientError.t * AsyncOpenState * World;
  poll_open : AsyncOpenState → AsyncClient → World →
    Poll (CResult OpenOutcome) * AsyncOpenState * AsyncClient * World;
  poll_recv : AsyncClient → World → Poll (CResult (list ClientEvent.t)) * AsyncClient * World;
  poll_close : AsyncClient → World → Poll (CResult (list ClientEvent.t)) * AsyncClient * World;
  poll_send_probe : AsyncClient → World →
    Poll (Result SendProbeError SendReceipt) * AsyncClient * World;
}.

(** ** Outcomes *)

Inductive ManagedLifecycle : Type :=
  | MNotStarted | MRunning | MStopping | MCompleted | MFailed | MAbandoned.
Inductive ManagedTargetLifecycle : Type :=
  | LPending | LConnecting | LOpening | LActive | LDraining | LClosing | LTerminal.
#[export] Instance ManagedTargetLifecycle_eq_dec : EqDecision ManagedTargetLifecycle.
Proof. solve_decision. Defined.

Inductive ManagedTargetFailurePhase : Type :=
  | FConnecting | FOpening | FSending | FReceiving | FTiming | FClosing.
Inductive ManagedTargetFailureKind : Type :=
  | KResolve | KSocket | KSocketOption | KProtocol | KTimeout | KConfiguration | KResourceExhausted
  | KInvalidState | KOther.

(** The text of a failure: a [ClientError]'s rendering, or a literal. *)
Inductive FailureMessage : Type := OfError (error : ClientError.t) | OfText (text : string).

Module ManagedTargetFailure.
Record t : Type := mk {
  phase : ManagedTargetFailurePhase;
  kind : ManagedTargetFailureKind;
  message : FailureMessage;
}.
End ManagedTargetFailure.

Definition classify_client_error (phase : ManagedTargetFailurePhase) (error : ClientError.t)
    : ManagedTargetFailure.t :=
  let kind :=
    match error with
    | ClientError.Resolve _ => KResolve
    | ClientError.Socket _ => KSocket
    | ClientError.SocketOption _ _ _ | ClientError.ReadTimeoutRestore _ => KSocketOption
    | ClientError.Protocol _ | ClientError.ProtocolVersionMismatch _ _ | ClientError.ZeroToken
    | ClientError.UnexpectedNoTestReply | ClientError.NonZeroNoTestToken _
    | ClientError.ServerRejected | ClientError.NegotiationRejected _ => KProtocol
    | ClientError.OpenTimeout => KTimeout
    | ClientError.InvalidConfig _ | ClientError.OpenTimeoutTooSmall _ _
    | ClientError.NoOpenTimeouts => KConfiguration
    | ClientError.AllocationFailed _ | ClientError.CounterOverflow _
    | ClientError.DurationOverflow | ClientError.PendingLimitExceeded _ => KResourceExhausted
    | ClientError.DatagramLengthMismatch _ _ => KSocket
    | ClientError.NoTokioRuntime => KInvalidState
    | ClientError.NotOpen | ClientError.AlreadyOpen | ClientError.AlreadyCompleted
    | ClientError.AlreadyClosed | ClientError.StalePreparedProbe _ _
    | ClientError.PendingSequenceCollision _ => KInvalidState
    end in
  ManagedTargetFailure.mk phase kind (OfError error).

Inductive ManagedTargetEndReason : Type :=
  | TestComplete | NoTestComplete | PeerClosed | Removed | Replaced | Stopped
  | Failed (failure : ManagedTargetFailure.t).

Module ManagedTargetOutcome.
Record t : Type := mk {
  target : TargetInstance.t;
  server_addr : bytes;
  remote : option SocketAddr;
  end_reason : ManagedTargetEndReason;
  packets_sent : Z;
  replies_received : Z;
  duplicates : Z;
  late : Z;
  warning_events : Z;
  cleanup_failure : option ManagedTargetFailure.t;
}.
End ManagedTargetOutcome.

Inductive ManagedDriverFailure : Type :=
  | DriverNoTokioRuntime | DriverResourceExhausted (operation : string) | DriverInternal (message : string).
Inductive ManagedEndReason : Type :=
  | TargetsComplete | StopRequested | DriverFailed (failure : ManagedDriverFailure).

Module ManagedOutcome.
Record t : Type := mk {
  end_reason : ManagedEndReason;
  applied_command_sequence : Z;
  total_target_outcomes : Z;
  successful_target_outcomes : Z;
  failed_target_outcomes : Z;
  peer_closed_target_outcomes : Z;
  discarded_target_outcomes : Z;
  recent_target_outcomes : list ManagedTargetOutcome.t;
}.
End ManagedOutcome.

Inductive ManagedEvent : Type :=
  | EvStarted
  | EvTargetStateChanged (target : TargetInstance.t) (lifecycle : ManagedTargetLifecycle)
  | EvClient (target : TargetInstance.t) (event : ClientEvent.t)
  | EvTargetFinished (outcome : ManagedTargetOutcome.t)
  | EvStopping
  | EvCompleted (outcome : ManagedOutcome.t)
  | EvFailed (outcome : ManagedOutcome.t)
  | EvAbandoned.

(** ** History (task.rs) *)
Module OutcomeHistory.
Record t : Type := mk {
  limit : Z;
  recent : list ManagedTargetOutcome.t;
  total : Z;
  successful : Z;
  failed : Z;
  peer_closed : Z;
  discarded : Z;
}.
Definition new (limit : Z) : t := mk limit [] 0 0 0 0 0.

(** [u64::saturating_add(1)]. *)
Definition add1 (z : Z) : Z := sat_u64 (z + 1).

Definition record (outcome : ManagedTargetOutcome.t) (self : t) : t :=
  let total := add1 (total self) in
  let '(successful, failed, peer_closed) :=
    match ManagedTargetOutcome.end_reason outcome with
    | Failed _ => (successful self, add1 (failed self), peer_closed self)
    | PeerClosed => (add1 (successful self), failed self, add1 (peer_closed self))
    | TestComplete | NoTestComplete | Removed | Replaced | Stopped =>
        (add1 (successful self), failed self, peer_closed self)
    end in
  if limit self =? 0
  then mk (limit self) (recent self) total successful failed peer_closed (add1 (discarded self))
  else
    let '(recent, discarded) :=
      if len (recent self) =? limit self then (tail (recent self), add1 (discarded self))
      else (recent self, discarded self) in
    mk (limit self) (recent ++ [outcome]) total successful failed peer_closed discarded.

Definition outcome (end_reason : ManagedEndReason) (applied_command_sequence : Z) (self : t)
    : ManagedOutcome.t :=
  ManagedOutcome.mk end_reason applied_command_sequence (total self) (successful self) (failed self)
    (peer_closed self) (discarded self) (recent self).
End OutcomeHistory.

(** ** One target generation (target.rs) *)
Module TargetCounters.
Record t : Type := mk {
  packets_sent : Z;
  replies_received : Z;
  duplicates : Z;
  late : Z;
  warning_events : Z;
}.
Definition default : t := mk 0 0 0 0 0.

Definition observe (event : ClientEvent.t) (self : t) : t :=
  let add1 := OutcomeHistory.add1 in
  match event with
  | ClientEvent.EchoReply _ _ _ _ _ _ _ _ _ _ =>
      mk (packets_sent self) (add1 (replies_received self)) (duplicates self) (late self) (warning_events self)
  | ClientEvent.DuplicateReply _ _ _ _ =>
      mk (packets_sent self) (replies_received self) (add1 (duplicates self)) (late self) (warning_events self)
  | ClientEvent.LateReply _ _ _ _ _ _ _ _ _ _ _ =>
      mk (packets_sent self) (replies_received self) (duplicates self) (add1 (late self)) (warning_events self)
  | ClientEvent.Warning _ _ _ =>
      mk (packets_sent self) (replies_received self) (duplicates self) (late self) (add1 (warning_events self))
  | ClientEvent.EchoSent _ _ _ _ _ _ _ | ClientEvent.EchoLoss _ _ _ | ClientEvent.SessionStarted _
  | ClientEvent.NoTestCompleted _ | ClientEvent.SessionClosed _ _ _ => self
  end.
Definition set_packets_sent (v : Z) (self : t) : t :=
  mk v (replies_received self) (duplicates self) (late self) (warning_events self).
End TargetCounters.

Inductive RetirementReason : Type := RRemoved | RReplaced.
Definition end_of_retirement (reason : RetirementReason) : ManagedTargetEndReason :=
  match reason with RRemoved => Removed | RReplaced => Replaced end.

Inductive TargetMembership : Type := Desired | Withdrawn (reason : RetirementReason).
Definition is_desired (self : TargetMembership) : bool :=
  match self with Desired => true | Withdrawn _ => false end.
Definition retirement_reason (self : TargetMembership) : option RetirementReason :=
  match self with Desired => None | Withdrawn reason => Some reason end.

Section target.
Context `{AsyncSession}.

Inductive TargetPhase : Type :=
  | PhRetrying (deadline : Z)
  | PhPending (client_config : ClientConfig.t)
  | PhConnecting (future : ConnectFuture)
  | PhOpening (client : AsyncClient) (open : AsyncOpenState)
  | PhActive (client : AsyncClient) (schedule : ProbeSchedule) (send_waiting : bool)
  | PhDraining (client : AsyncClient) (drain_started_at deadline : Z)
      (primary_end : ManagedTargetEndReason) (cleanup_failure : option ManagedTargetFailure.t)
      (post_deadline_receives_remaining : Z)
  | PhClosing (client : AsyncClient) (deadline : Z) (primary_end : ManagedTargetEndReason)
      (cleanup_failure : option ManagedTargetFailure.t)
  | PhTerminal (outcome : ManagedTargetOutcome.t).

Definition lifecycle (self : TargetPhase) : ManagedTargetLifecycle :=
  match self with
  | PhRetrying _ => LPending
  | PhPending _ => LPending
  | PhConnecting _ => LConnecting
  | PhOpening _ _ => LOpening
  | PhActive _ _ _ => LActive
  | PhDraining _ _ _ _ _ _ => LDraining
  | PhClosing _ _ _ _ => LClosing
  | PhTerminal _ => LTerminal
  end.

(** [client] and [into_client], which panic in the other phases. *)
Definition phase_client (self : TargetPhase) : option AsyncClient :=
  match self with
  | PhOpening client _ | PhActive client _ _ | PhDraining client _ _ _ _ _
  | PhClosing client _ _ _ => Some client
  | _ => None
  end.

(** The client, mutated in place. *)
Definition set_client (client : AsyncClient) (self : TargetPhase) : TargetPhase :=
  match self with
  | PhOpening _ open => PhOpening client open
  | PhActive _ schedule send_waiting => PhActive client schedule send_waiting
  | PhDraining _ started deadline primary_end cleanup_failure remaining =>
      PhDraining client started deadline primary_end cleanup_failure remaining
  | PhClosing _ deadline primary_end cleanup_failure => PhClosing client deadline primary_end cleanup_failure
  | _ => self
  end.

Definition is_terminal (self : TargetPhase) : bool :=
  match self with PhTerminal _ => true | _ => false end.

Record TargetRuntime : Type := mk_runtime {
  instance : TargetInstance.t;
  target_config : ManagedTargetConfig.t;
  membership : TargetMembership;
  server_addr : bytes;
  remote : option SocketAddr;
  counters : TargetCounters.t;
  sent_before_session : Z;
  retry_delay : Z;
  silence_since : option Z;
  last_reply_at : option Z;
  phase : TargetPhase;
}.

Definition is_paced_active (self : TargetRuntime) : bool :=
  is_desired (membership self) && match phase self with PhActive _ _ _ => true | _ => false end.

Definition silence_deadline `{Clocks} (timeout : option Z) (self : TargetRuntime) : option Z :=
  match phase self with
  | PhActive _ schedule send_waiting =>
      if send_waiting || is_finished schedule then None
      else since ← silence_since self; timeout ← timeout; instant_checked_add since timeout
  | _ => None
  end.

(** [outcome]: the target's durable outcome. *)
Definition target_outcome (end_reason : ManagedTargetEndReason)
    (cleanup_failure : option ManagedTargetFailure.t) (self : TargetRuntime) : ManagedTargetOutcome.t :=
  ManagedTargetOutcome.mk (instance self) (server_addr self) (remote self) end_reason
    (TargetCounters.packets_sent (counters self)) (TargetCounters.replies_received (counters self))
    (TargetCounters.duplicates (counters self)) (TargetCounters.late (counters self))
    (TargetCounters.warning_events (counters self)) cleanup_failure.

Definition set_phase (v : TargetPhase) (self : TargetRuntime) : TargetRuntime :=
  mk_runtime (instance self) (target_config self) (membership self) (server_addr self) (remote self)
    (counters self) (sent_before_session self) (retry_delay self) (silence_since self)
    (last_reply_at self) v.
Definition set_membership (v : TargetMembership) (self : TargetRuntime) : TargetRuntime :=
  mk_runtime (instance self) (target_config self) v (server_addr self) (remote self)
    (counters self) (sent_before_session self) (retry_delay self) (silence_since self)
    (last_reply_at self) (phase self).
Definition set_remote (v : option SocketAddr) (self : TargetRuntime) : TargetRuntime :=
  mk_runtime (instance self) (target_config self) (membership self) (server_addr self) v
    (counters self) (sent_before_session self) (retry_delay self) (silence_since self)
    (last_reply_at self) (phase self).
Definition set_counters_of (v : TargetCounters.t) (self : TargetRuntime) : TargetRuntime :=
  mk_runtime (instance self) (target_config self) (membership self) (server_addr self) (remote self)
    v (sent_before_session self) (retry_delay self) (silence_since self)
    (last_reply_at self) (phase self).
Definition set_liveness (silence last_reply : option Z) (delay : Z) (self : TargetRuntime) : TargetRuntime :=
  mk_runtime (instance self) (target_config self) (membership self) (server_addr self) (remote self)
    (counters self) (sent_before_session self) delay silence last_reply (phase self).
Definition set_sent_before (v : Z) (self : TargetRuntime) : TargetRuntime :=
  mk_runtime (instance self) (target_config self) (membership self) (server_addr self) (remote self)
    (counters self) v (retry_delay self) (silence_since self) (last_reply_at self) (phase self).

Definition sync_packets_sent (client : AsyncClient) (self : TargetRuntime) : TargetRuntime :=
  set_counters_of (TargetCounters.set_packets_sent
    (sat_u64 (sent_before_session self + packets_sent client)) (counters self)) self.
(** [sync_live_packets_sent]; it panics in a phase without a client. *)
Definition sync_live_packets_sent (self : TargetRuntime) : option TargetRuntime :=
  client ← phase_client (phase self); Some (sync_packets_sent client self).
End target.

(** [effective_retirement]. *)
Definition effective_retirement `{AsyncSession} (self : TargetRuntime) : option ManagedTargetEndReason :=
  end_of_retirement <$> retirement_reason (membership self).

Definition validate_ttl (ttl : Z) : CResult unit :=
  if (ttl =? 0) || (MAX_TTL <? ttl)
  then Err (ClientError.InvalidConfig "ttl must be in range 1..=255") else Ok tt.
Definition validate_target_config (config : ClientConfig.t) : CResult unit :=
  _ ← OpenPolicy.validate (ClientConfig.open config);
  _ ← validate_config config;
  match SocketConfig.ttl (ClientConfig.socket config) with
  | Some ttl => validate_ttl ttl
  | None => Ok tt
  end.

(** The configuration of a target's client. *)
Definition client_config_for (config : ClientConfig.t) (target : ManagedTargetConfig.t) : ClientConfig.t :=
  ClientConfig.mk
    (match ManagedTargetConfig.address_family target with
     | Some family => family
     | None => ClientConfig.address_family config
     end)
    (ClientConfig.socket config) (ClientConfig.request config) (ClientConfig.open config)
    (resolve (ManagedTargetConfig.auth target) (ClientConfig.auth config))
    (ClientConfig.probe_timeout config) (ClientConfig.max_pending_probes config).
