(* ===== verification/ManagedTask.v ===== *)
(** * irtt-client: the managed driver's task

    Models [ManagedClientTask] ([crates/irtt-client/src/managed/task.rs]): its
    state, its snapshot and publications, and what it shares with the handles
    ([task/control.rs]). Operations run in a state monad whose failure is a
    panic of the source ([unreachable!], an index out of range, a phase without a
    client). Other threads act through handles where the task reads what it
    shares with them ([interfere]); the event channel is the log of what is sent,
    and the status channel is the snapshot last published. *)

From S2P Require Import Prelude ProtoBase Envelope ParamsCodec ClientBase ClientNegotiation ClientEvent Machine Client.
From S2P Require Import Timing Schedule ManagedBase.

Definition TARGET_WORK_BUDGET : Z := 128.
Definition POST_DEADLINE_RECEIVE_BUDGET : Z := TARGET_WORK_BUDGET.
Definition TIMEOUT_WORK_BUDGET : Z := 128.
Definition COMMAND_WORK_BUDGET : nat := 32.

Inductive TaskPhase : Type :=
  | NotStarted | Running | Stopping
  | Completed (outcome : ManagedOutcome.t) | TaskFailed (outcome : ManagedOutcome.t) | Abandoned.
Definition is_running (self : TaskPhase) : bool := match self with Running => true | _ => false end.
Definition is_stopping (self : TaskPhase) : bool := match self with Stopping => true | _ => false end.
Definition task_is_terminal (self : TaskPhase) : bool :=
  match self with Completed _ | TaskFailed _ | Abandoned => true | _ => false end.
Definition task_lifecycle (self : TaskPhase) : ManagedLifecycle :=
  match self with
  | NotStarted => MNotStarted
  | Running => MRunning
  | Stopping => MStopping
  | Completed _ => MCompleted
  | TaskFailed _ => MFailed
  | Abandoned => MAbandoned
  end.
Definition final_outcome (self : TaskPhase) : option ManagedOutcome.t :=
  match self with Completed outcome | TaskFailed outcome => Some outcome | _ => None end.

Module ManagedTargetStatus.
Record t : Type := mk {
  target : TargetInstance.t;
  desired : bool;
  lifecycle : ManagedTargetLifecycle;
  outcome : option ManagedTargetOutcome.t;
  server_addr : bytes;
  remote : option SocketAddr;
}.
End ManagedTargetStatus.

Module ManagedStatus.
Record t : Type := mk {
  lifecycle : ManagedLifecycle;
  stop_requested : bool;
  applied_command_sequence : Z;
  desired_target_count : Z;
  connecting_target_count : Z;
  opening_target_count : Z;
  active_target_count : Z;
  draining_target_count : Z;
  closing_target_count : Z;
  terminal_target_count : Z;
  total_target_outcomes : Z;
  successful_target_outcomes : Z;
  failed_target_outcomes : Z;
  peer_closed_target_outcomes : Z;
  discarded_target_outcomes : Z;
  targets : list ManagedTargetStatus.t;
  recent_target_outcomes : list ManagedTargetOutcome.t;
  final_outcome : option ManagedOutcome.t;
}.
End ManagedStatus.

Inductive ManagedCommandApplyError : Type :=
  | ApplyStopping
  | ApplyDuplicateTargetId (id : TargetId)
  | ApplyInvalidTarget (id : TargetId) (source : ClientError.t)
  | LiveGenerationLimitExceeded (required limit : Z)
  | GenerationExhausted
  | CommandSequenceExhausted
  | AcknowledgementDisconnected
  | ApplyDriverFailed (failure : ManagedDriverFailure).

Module ManagedCommandAcknowledgement.
Record t : Type := mk { sequence : Z; status : ManagedStatus.t }.
End ManagedCommandAcknowledgement.
Abbreviation CommandResult := (Result ManagedCommandApplyError ManagedCommandAcknowledgement.t) (only parsing).

(** ** What the task shares with the handles (control.rs) *)

(** [StopSignal] and the two ends of the command channel; [acknowledged] are the
    commands answered so far, in order. *)
Module Shared.
Record t : Type := mk {
  requested : bool;
  admission : UpdateAdmission;
  wake : bool;
  commands : list (list ManagedTargetConfig.t);
  receiver_closed : bool;
  acknowledged : list (list ManagedTargetConfig.t * CommandResult);
}.
End Shared.

(** [StopSignal::begin_stopping]: the state after the exchange loop. *)
Definition begin_stopping (s : Shared.t) : Shared.t :=
  Shared.mk (Shared.requested s)
    (match Shared.admission s with AdmitOpen => AdmitStopping | a => a end)
    (Shared.wake s) (Shared.commands s) (Shared.receiver_closed s) (Shared.acknowledged s).
(** [StopSignal::request]: the first request wakes the task. *)
Definition request (s : Shared.t) : Shared.t :=
  let s := begin_stopping s in
  Shared.mk true (Shared.admission s) (Shared.wake s || negb (Shared.requested s)) (Shared.commands s)
    (Shared.receiver_closed s) (Shared.acknowledged s).
Definition close_updates (s : Shared.t) : Shared.t :=
  Shared.mk (Shared.requested s) AdmitClosed (Shared.wake s) (Shared.commands s)
    (Shared.receiver_closed s) (Shared.acknowledged s).
(** [commands.close()]. *)
Definition close_receiver (s : Shared.t) : Shared.t :=
  Shared.mk (Shared.requested s) (Shared.admission s) (Shared.wake s) (Shared.commands s) true
    (Shared.acknowledged s).
Definition set_wake (v : bool) (s : Shared.t) : Shared.t :=
  Shared.mk (Shared.requested s) (Shared.admission s) v (Shared.commands s)
    (Shared.receiver_closed s) (Shared.acknowledged s).
Definition set_commands (v : list (list ManagedTargetConfig.t)) (s : Shared.t) : Shared.t :=
  Shared.mk (Shared.requested s) (Shared.admission s) (Shared.wake s) v (Shared.receiver_closed s)
    (Shared.acknowledged s).
(** A command answered. *)
Definition acknowledge (command : list ManagedTargetConfig.t) (result : CommandResult) (s : Shared.t)
    : Shared.t :=
  Shared.mk (Shared.requested s) (Shared.admission s) (Shared.wake s) (Shared.commands s)
    (Shared.receiver_closed s) (Shared.acknowledged s ++ [(command, result)]).

Inductive ManagedCommandError : Type :=
  | SubmitStopping | SubmitTooManyTargets (configured limit : Z) | QueueFull | DriverClosed.

(** [ManagedClientHandle::update_targets], which has read the admission
    [observed] earlier. *)
Definition update_targets (observed : UpdateAdmission) (targets : list ManagedTargetConfig.t)
    (config : ManagedClientConfig.t) (s : Shared.t) : Result ManagedCommandError unit * Shared.t :=
  match observed with
  | AdmitStopping => (Err SubmitStopping, s)
  | AdmitClosed => (Err DriverClosed, s)
  | AdmitOpen =>
      if ManagedClientConfig.max_live_target_generations config <? len targets
      then (Err (SubmitTooManyTargets (len targets)
                   (ManagedClientConfig.max_live_target_generations config)), s)
      else if Shared.receiver_closed s then (Err DriverClosed, s)
      else if ManagedClientConfig.command_capacity config <=? len (Shared.commands s)
      then
        (Err (match Shared.admission s with
              | AdmitOpen => QueueFull
              | AdmitStopping => SubmitStopping
              | AdmitClosed => DriverClosed
              end), s)
      else (Ok tt, set_commands (Shared.commands s ++ [targets]) s)
  end.

Definition handle_call (config : ManagedClientConfig.t) (call : HandleCall) (s : Shared.t) : Shared.t :=
  match call with
  | CallStop => request s
  | CallUpdate observed targets => (update_targets observed targets config s).2
  end.

(** ** The task *)

Module TimeoutBacklogEntry.
Record t : Type := mk { index : nat; generation : Z }.
End TimeoutBacklogEntry.

(** Scan positions, the timeout backlog and the release gate. *)
Module Scan.
Record t : Type := mk {
  cursor : Z;
  timeout_cursor : Z;
  timeout_backlog : list TimeoutBacklogEntry.t;
  scan_remaining : Z;
  send_cursor : Z;
  burst_remaining : Z;
  stagger_remaining : Z;
  send_gate : option Z;
  last_stagger_send : option Z;
}.
Definition initial : t := mk 0 0 [] 0 0 0 0 None None.
Definition set_target (c r : Z) (s : t) : t :=
  mk c (timeout_cursor s) (timeout_backlog s) r (send_cursor s) (burst_remaining s)
    (stagger_remaining s) (send_gate s) (last_stagger_send s).
Definition set_timeout (c : Z) (b : list TimeoutBacklogEntry.t) (s : t) : t :=
  mk (cursor s) c b (scan_remaining s) (send_cursor s) (burst_remaining s)
    (stagger_remaining s) (send_gate s) (last_stagger_send s).
Definition set_send (c burst stagger : Z) (s : t) : t :=
  mk (cursor s) (timeout_cursor s) (timeout_backlog s) (scan_remaining s) c burst stagger
    (send_gate s) (last_stagger_send s).
Definition set_gate (gate last : option Z) (s : t) : t :=
  mk (cursor s) (timeout_cursor s) (timeout_backlog s) (scan_remaining s) (send_cursor s)
    (burst_remaining s) (stagger_remaining s) gate last.
End Scan.

(** The task's own progress. *)
Module Control.
Record t : Type := mk {
  phase : TaskPhase;
  stop_observed : bool;
  next_generation : Z;
  applied_command_sequence : Z;
}.
Definition set_phase (v : TaskPhase) (c : t) : t :=
  mk v (stop_observed c) (next_generation c) (applied_command_sequence c).
End Control.

Module Published.
Record t : Type := mk { status : ManagedStatus.t; events : list ManagedEvent }.
End Published.

Section task.
Context `{AsyncSession}.

Record Task : Type := mk_task {
  config : ManagedClientConfig.t;
  control : Control.t;
  targets : list TargetRuntime;
  history : OutcomeHistory.t;
  scan : Scan.t;
  shared : Shared.t;
  published : Published.t;
  world : World;
}.

Definition set_control (v : Control.t) (s : Task) : Task :=
  mk_task (config s) v (targets s) (history s) (scan s) (shared s) (published s) (world s).
Definition set_targets (v : list TargetRuntime) (s : Task) : Task :=
  mk_task (config s) (control s) v (history s) (scan s) (shared s) (published s) (world s).
Definition set_history (v : OutcomeHistory.t) (s : Task) : Task :=
  mk_task (config s) (control s) (targets s) v (scan s) (shared s) (published s) (world s).
Definition set_scan (v : Scan.t) (s : Task) : Task :=
  mk_task (config s) (control s) (targets s) (history s) v (shared s) (published s) (world s).
Definition set_shared (v : Shared.t) (s : Task) : Task :=
  mk_task (config s) (control s) (targets s) (history s) (scan s) v (published s) (world s).
Definition set_published (v : Published.t) (s : Task) : Task :=
  mk_task (config s) (control s) (targets s) (history s) (scan s) (shared s) v (world s).
Definition set_world (v : World) (s : Task) : Task :=
  mk_task (config s) (control s) (targets s) (history s) (scan s) (shared s) (published s) v.

Definition task_phase (s : Task) : TaskPhase := Control.phase (control s).
Definition set_task_phase (v : TaskPhase) (s : Task) : Task :=
  set_control (Control.set_phase v (control s)) s.
End task.

(** ** Effects: [&mut self] methods of the task *)
Definition D `{AsyncSession} (A : Type) : Type := Task → option (A * Task).
#[export] Instance D_ret `{AsyncSession} : MRet D := λ A a s, Some (a, s).
#[export] Instance D_bind `{AsyncSession} : MBind D := λ A B f m s,
  match m s with Some (a, s) => f a s | None => None end.

Section effects.
Context `{AsyncSession}.

Definition panic {A} : D A := λ _, None.
Definition gets {A} (f : Task → A) : D A := λ s, Some (f s, s).
Definition modify (f : Task → Task) : D unit := λ s, Some (tt, f s).
Definition from_option_or_panic {A} (o : option A) : D A := λ s, (λ a, (a, s)) <$> o.

(** [Instant::now()]. *)
Definition read_clock : D Z := λ s, let '(now, w) := instant_now (world s) in Some (now, set_world w s).

(** What other threads have done through the handles by now. *)
Definition interfere : D unit := λ s,
  let '(calls, w) := handle_calls (world s) in
  Some (tt, set_shared (fold_left (λ sh call, handle_call (config s) call sh) calls (shared s)) (set_world w s)).
Definition is_requested : D bool := _ ← interfere; gets (λ s, Shared.requested (shared s)).
Definition update_admission : D UpdateAdmission := _ ← interfere; gets (λ s, Shared.admission (shared s)).

(** [self.targets[index]]. *)
Definition target_at (index : nat) : D TargetRuntime := λ s, (λ t, (t, s)) <$> targets s !! index.
Definition update_target (index : nat) (f : TargetRuntime → TargetRuntime) : D unit :=
  target ← target_at index;
  modify (λ s, set_targets (<[index := f target]> (targets s)) s).

(** A method of the client a phase owns, run in place. *)
Definition with_client {A} (index : nat) (f : AsyncClient → World → A * AsyncClient * World) : D A :=
  target ← target_at index;
  client ← from_option_or_panic (phase_client (phase target));
  w ← gets world;
  let '(a, client, w) := f client w in
  _ ← modify (set_world w);
  _ ← update_target index (set_phase (set_client client (phase target)));
  mret a.
Definition client_gets {A} (index : nat) (f : AsyncClient → A) : D A :=
  with_client index (λ client w, (f client, client, w)).

(** ** Publications *)
Definition publish_event (event : ManagedEvent) : D unit :=
  modify (λ s, set_published (Published.mk (Published.status (published s))
    (Published.events (published s) ++ [event])) s).

Definition count_lifecycle (l : ManagedTargetLifecycle) (targets : list TargetRuntime) : Z :=
  len (filter (λ target, lifecycle (phase target) = l) targets).

Definition target_status (target : TargetRuntime) : ManagedTargetStatus.t :=
  ManagedTargetStatus.mk (instance target) (is_desired (membership target)) (lifecycle (phase target))
    (match phase target with PhTerminal outcome => Some outcome | _ => None end)
    (server_addr target) (remote target).

Definition snapshot (s : Task) : ManagedStatus.t :=
  let h := history s in
  ManagedStatus.mk (task_lifecycle (task_phase s)) (Control.stop_observed (control s))
    (Control.applied_command_sequence (control s))
    (len (filter (λ target, is_desired (membership target) = true) (targets s)))
    (count_lifecycle LConnecting (targets s)) (count_lifecycle LOpening (targets s))
    (count_lifecycle LActive (targets s)) (count_lifecycle LDraining (targets s))
    (count_lifecycle LClosing (targets s)) (count_lifecycle LTerminal (targets s))
    (OutcomeHistory.total h) (OutcomeHistory.successful h) (OutcomeHistory.failed h)
    (OutcomeHistory.peer_closed h) (OutcomeHistory.discarded h) (target_status <$> targets s)
    (OutcomeHistory.recent h) (final_outcome (task_phase s)).

Definition replace_status : D unit :=
  modify (λ s, set_published (Published.mk (snapshot s) (Published.events (published s))) s).
End effects.
