(* ===== verification/ManagedTarget.v ===== *)
(** * irtt-client: the life of a target

    Models [crates/irtt-client/src/managed/task/target.rs]: one poll of a target
    in each of its phases, what a client event does to the target's accounting,
    and the end of a generation. The release gate's upkeep is from
    [task/pacing.rs]. *)

From S2P Require Import Prelude ProtoBase Envelope ParamsCodec ClientBase ClientNegotiation ClientEvent Machine Client.
From S2P Require Import Timing Schedule ManagedBase ManagedTask.

Section target.
Context `{Clocks} `{AsyncSession}.

(** ** The release gate (pacing.rs) *)
Definition active_count (s : Task) : Z := len (filter (λ target, is_paced_active target = true) (targets s)).

Definition active_intervals (targets : list TargetRuntime) : list Z :=
  omap (λ target,
    match phase target with
    | PhActive _ schedule _ =>
        if is_desired (membership target) then Some (interval schedule) else None
    | _ => None
    end) targets.
Definition active_stagger_spacing (s : Task) : option Z :=
  match active_intervals (targets s) with
  | [] => None
  | i :: rest => Some (stagger_spacing (foldr Z.min i rest) (len (active_intervals (targets s))))
  end.

Definition later_than (now : Z) (gate : option Z) : option Z :=
  gate ← gate; if now <? gate then Some gate else None.

Definition stagger_target_added (now : Z) (s : Task) : Task :=
  let sc := scan s in
  match later_than now (Scan.send_gate sc) with
  | None => set_scan (Scan.set_gate None (Scan.last_stagger_send sc) sc) s
  | Some existing =>
      let candidate :=
        later_than now
          (last ← Scan.last_stagger_send sc;
           spacing ← active_stagger_spacing s;
           instant_checked_add last spacing) in
      set_scan (Scan.set_gate (Z.min existing <$> candidate) (Scan.last_stagger_send sc) sc) s
  end.
Definition stagger_target_removed (now : Z) (s : Task) : Task :=
  let sc := scan s in
  set_scan (Scan.set_gate (later_than now (Scan.send_gate sc)) (Scan.last_stagger_send sc) sc) s.

(** ** Phases *)
Definition publish_target_phase (index : nat) (previous : ManagedTargetLifecycle) : D unit :=
  target ← target_at index;
  let was_paced_active := is_desired (membership target) && bool_decide (previous = LActive) in
  now ← read_clock;
  _ ← match was_paced_active, is_paced_active target with
      | false, true => modify (stagger_target_added now)
      | true, false => modify (stagger_target_removed now)
      | _, _ => mret tt
      end;
  _ ← replace_status;
  publish_event (EvTargetStateChanged (instance target) (lifecycle (phase target))).

Definition install_target_phase (index : nat) (p : TargetPhase) : D unit :=
  target ← target_at index;
  _ ← update_target index (set_phase p);
  publish_target_phase index (lifecycle (phase target)).

(** One event of a client, for its target. *)
Definition observe_client_event (config : ManagedClientConfig.t) (event : ClientEvent.t)
    (target : TargetRuntime) : TargetRuntime :=
  let target :=
    match event with
    | ClientEvent.EchoSent _ _ _ sent_at _ _ _ =>
        let mono := ClientTimestamp.mono sent_at in
        let anchor :=
          match last_reply_at target, ManagedClientConfig.reconnect_timeout config with
          | Some reply, Some timeout => if Z.max 0 (mono - reply) <? timeout then reply else mono
          | _, _ => mono
          end in
        set_liveness (or_else (silence_since target) (Some anchor)) (last_reply_at target)
          (retry_delay target) target
    | ClientEvent.EchoReply _ _ _ received_at _ _ _ _ _ _
    | ClientEvent.LateReply _ _ _ _ received_at _ _ _ _ _ _
    | ClientEvent.DuplicateReply _ _ received_at _ =>
        set_liveness None (Some (ClientTimestamp.mono received_at))
          (ManagedClientConfig.reconnect_initial_delay config) target
    | _ => target
    end in
  set_counters_of (TargetCounters.observe event (counters target)) target.

Fixpoint publish_client_events (index : nat) (evs : list ClientEvent.t) : D unit :=
  match evs with
  | [] => mret tt
  | event :: evs =>
      config ← gets config;
      _ ← update_target index (observe_client_event config event);
      target ← target_at index;
      _ ← publish_event (EvClient (instance target) event);
      publish_client_events index evs
  end.

(** ** The end of a generation *)
Definition can_reconnect (index : nat) : D bool :=
  target ← target_at index;
  gets (λ s, Envelope.is_some (ManagedClientConfig.reconnect_timeout (config s)) &&
             negb (is_stopping (task_phase s)) && is_desired (membership target)).

Definition duration_overflow_failure : ManagedTargetFailure.t :=
  classify_client_error FTiming ClientError.DurationOverflow.
Definition close_timeout_failure : ManagedTargetFailure.t :=
  ManagedTargetFailure.mk FClosing KTimeout
    (OfText "best-effort close did not become writable before its deadline").
Definition silence_failure : ManagedTargetFailure.t :=
  ManagedTargetFailure.mk FReceiving KTimeout (OfText "session silent while sending probes").

(** The end of [finish_target]: the outcome enters the history once, then the
    terminal phase is published, then the outcome. *)
Definition finalize_target (index : nat) (end_reason : ManagedTargetEndReason)
    (cleanup_failure : option ManagedTargetFailure.t) : D unit :=
  target ← target_at index;
  let outcome := target_outcome end_reason cleanup_failure target in
  _ ← modify (λ s, set_history (OutcomeHistory.record outcome (history s)) s);
  _ ← install_target_phase index (PhTerminal outcome);
  publish_event (EvTargetFinished outcome).

Definition retryable (end_reason : ManagedTargetEndReason) : bool :=
  match end_reason with Failed _ | PeerClosed | TestComplete => true | _ => false end.

(** The next delay of the backoff: doubled, up to the cap. *)
Definition next_retry_delay (config : ManagedClientConfig.t) (delay : Z) : Z :=
  let max_delay := ManagedClientConfig.reconnect_max_delay config in
  Z.min (if 2 * delay <=? DURATION_MAX then 2 * delay else max_delay) max_delay.

Definition finish_target (index : nat) (end_reason : ManagedTargetEndReason)
    (cleanup_failure : option ManagedTargetFailure.t) : D unit :=
  reconnect ← can_reconnect index;
  if reconnect && retryable end_reason then
    target ← target_at index;
    config ← gets config;
    _ ← update_target index (λ target,
      set_liveness None None (retry_delay target)
        (set_sent_before (TargetCounters.packets_sent (counters target)) target));
    now ← read_clock;
    match instant_checked_add now (retry_delay target) with
    | Some deadline =>
        _ ← update_target index (λ target,
          set_liveness (silence_since target) (last_reply_at target)
            (next_retry_delay config (retry_delay target)) target);
        install_target_phase index (PhRetrying deadline)
    | None => finalize_target index (Failed duration_overflow_failure) cleanup_failure
    end
  else finalize_target index end_reason cleanup_failure.

Definition fail_target (index : nat) (p : ManagedTargetFailurePhase) (error : ClientError.t) : D unit :=
  finish_target index (Failed (classify_client_error p error)) None.

(** [sync_live_packets_sent] of the target at [index]. *)
Definition sync_live_at (index : nat) : D unit :=
  target ← target_at index;
  target ← from_option_or_panic (sync_live_packets_sent target);
  update_target index (λ _, target).

Definition begin_close (index : nat) (primary_end : ManagedTargetEndReason)
    (cleanup_failure : option ManagedTargetFailure.t) (now : Z) : D bool :=
  final_drain ← gets (λ s, ManagedClientConfig.final_drain (config s));
  let '(deadline, cleanup_failure) :=
    match instant_checked_add now final_drain with
    | Some deadline => (deadline, cleanup_failure)
    | None => (now, or_else cleanup_failure (Some duration_overflow_failure))
    end in
  target ← target_at index;
  client ← from_option_or_panic (phase_client (phase target));
  _ ← update_target index (set_phase (PhClosing client deadline primary_end cleanup_failure));
  _ ← publish_target_phase index (lifecycle (phase target));
  mret true.

Definition drain_deadline (config : ManagedClientConfig.t) (client : AsyncClient) (drain_started_at : Z)
    : option Z :=
  instant_checked_add
    (Z.max (from_option id drain_started_at (latest_probe_timeout_deadline client)) drain_started_at)
    (ManagedClientConfig.final_drain config).

Definition begin_drain (index : nat) (primary_end : ManagedTargetEndReason) : D bool :=
  drain_started_at ← read_clock;
  target ← target_at index;
  client ← from_option_or_panic (phase_client (phase target));
  config ← gets config;
  match drain_deadline config client drain_started_at with
  | None => begin_close index primary_end (Some duration_overflow_failure) drain_started_at
  | Some deadline =>
      _ ← update_target index (set_phase
        (PhDraining client drain_started_at deadline primary_end None POST_DEADLINE_RECEIVE_BUDGET));
      _ ← publish_target_phase index (lifecycle (phase target));
      mret true
  end.

Inductive OpenSessionFailureCleanup : Type := CleanupDrain | CleanupClose.

Definition begin_open_session_failure (index : nat) (p : ManagedTargetFailurePhase)
    (error : ClientError.t) (now : Z) (cleanup : OpenSessionFailureCleanup) : D bool :=
  let primary_end := Failed (classify_client_error p error) in
  target ← target_at index;
  _ ← match phase target return D unit with
      | PhOpening _ _ | PhActive _ _ _ => mret tt
      | _ => panic
      end;
  _ ← with_client index (λ client w, (tt, discard_prepared_probe client, w));
  _ ← sync_live_at index;
  reconnect ← can_reconnect index;
  if reconnect : bool then begin_close index primary_end None now
  else
    match cleanup with
    | CleanupDrain => begin_drain index primary_end
    | CleanupClose => begin_close index primary_end None now
    end.

(** ** Polling a target *)
Definition start_connecting (index : nat) : D unit :=
  target ← target_at index;
  match phase target with
  | PhPending client_config =>
      _ ← update_target index
        (set_phase (PhConnecting (connect_future (server_addr target) client_config)));
      publish_target_phase index LPending
  | _ => panic
  end.

Definition poll_connecting (index : nat) (future : ConnectFuture) : D bool :=
  w ← gets world;
  let '(result, future, w) := poll_connect future w in
  _ ← modify (set_world w);
  _ ← update_target index (set_phase (PhConnecting future));
  match result with
  | Pending => mret false
  | Ready (Ok client) =>
      _ ← update_target index (set_remote (Some (remote_addr client)));
      _ ← install_target_phase index (PhOpening client open_state_new);
      mret true
  | Ready (Err error) => _ ← fail_target index FConnecting error; mret false
  | Ready Panic => panic
  end.

Definition set_open (open : AsyncOpenState) (target : TargetRuntime) : TargetRuntime :=
  match phase target with
  | PhOpening client _ => set_phase (PhOpening client open) target
  | _ => target
  end.

Definition cancel_opening (index : nat) (open : AsyncOpenState) (end_reason : ManagedTargetEndReason)
    : D bool :=
  '(error, open) ← with_client index (λ client w,
    let '(error, open, w) := cancel_open open client w in ((error, open), client, w));
  _ ← update_target index (set_open open);
  _ ← sync_live_at index;
  _ ← finish_target index end_reason (classify_client_error FOpening <$> error);
  mret false.

Definition poll_opening (index : nat) (open : AsyncOpenState) (now : Z) : D bool :=
  '(result, open) ← with_client index (λ client w,
    let '(result, open, client, w) := poll_open open client w in ((result, open), client, w));
  _ ← update_target index (set_open open);
  match result with
  | Pending => mret false
  | Ready (Ok (OutcomeStarted started)) =>
      match schedule_new (ClientTimestamp.mono (SessionStarted.at_ started))
              (NegotiationResult.accepted (SessionStarted.negotiation started)) with
      | Ok schedule =>
          _ ← publish_client_events index [ClientEvent.SessionStarted started];
          target ← target_at index;
          client ← from_option_or_panic (phase_client (phase target));
          _ ← update_target index (set_phase (PhActive client schedule false));
          _ ← publish_target_phase index LOpening;
          mret true
      | Err error => begin_open_session_failure index FTiming error now CleanupClose
      | Panic => panic
      end
  | Ready (Ok (OutcomeNoTestCompleted completed)) =>
      _ ← publish_client_events index [ClientEvent.NoTestCompleted completed];
      _ ← finish_target index NoTestComplete None;
      mret false
  | Ready (Err error) => _ ← fail_target index FOpening error; mret false
  | Ready Panic => panic
  end.

Definition due (deadline : option Z) (now : Z) : bool :=
  match deadline with Some deadline => deadline <=? now | None => false end.

(** [client.poll_recv] of the target at [index], its events published. *)
Definition receive_events (index : nat) : D (bool * option ClientError.t) :=
  result ← with_client index poll_recv;
  match result with
  | Pending => mret (false, None)
  | Ready (Ok events) => _ ← publish_client_events index events; mret (true, None)
  | Ready (Err error) => mret (false, Some error)
  | Ready Panic => panic
  end.

Definition poll_active (index : nat) (now : Z) : D bool :=
  timeout_due ← client_gets index (λ client, due (next_probe_timeout_deadline client) now);
  if timeout_due : bool then mret true
  else
    '(received, error) ← receive_events index;
    match error with
    | Some error => begin_open_session_failure index FReceiving error now CleanupClose
    | None =>
        peer_closed ← client_gets index is_peer_closed;
        if peer_closed : bool then
          _ ← sync_live_at index;
          _ ← finish_target index PeerClosed None;
          mret false
        else
          target ← target_at index;
          timeout ← gets (λ s, ManagedClientConfig.reconnect_timeout (config s));
          if due (silence_deadline timeout target) now then
            _ ← sync_live_at index;
            begin_close index (Failed silence_failure) None now
          else
            match phase target with
            | PhActive client schedule send_waiting =>
                let schedule := (permit_probe_at now schedule).2 in
                _ ← update_target index (set_phase (PhActive client schedule send_waiting));
                if is_finished schedule && negb (has_pending_probes client) then
                  _ ← sync_live_at index;
                  begin_drain index TestComplete
                else mret received
            | _ => panic
            end
    end.

(** The drain of a target that is being stopped or withdrawn. *)
Definition stop_active (index : nat) (end_reason : ManagedTargetEndReason) (now : Z) : D bool :=
  _ ← with_client index (λ client w, (tt, discard_prepared_probe client, w));
  _ ← sync_live_at index;
  reconnecting ← gets (λ s, Envelope.is_some (ManagedClientConfig.reconnect_timeout (config s)));
  if reconnecting : bool then begin_close index end_reason None now
  else begin_drain index end_reason.

(** The drain ends no later than the last outstanding probe allows; an instant
    out of range closes at once. [None] when the target is now closing. *)
Definition shorten_drain (index : nat) (now : Z) : D bool :=
  target ← target_at index;
  config ← gets config;
  match phase target with
  | PhDraining client started deadline primary_end cleanup_failure remaining =>
      match drain_deadline config client started with
      | Some candidate =>
          _ ← update_target index (set_phase (PhDraining client started (Z.min deadline candidate)
            primary_end cleanup_failure remaining));
          mret true
      | None =>
          let cleanup_failure := or_else cleanup_failure (Some duration_overflow_failure) in
          _ ← update_target index (set_phase (PhDraining client started deadline primary_end
            cleanup_failure remaining));
          _ ← begin_close index primary_end cleanup_failure now;
          mret false
      end
  | _ => panic
  end.

(** An error while draining keeps the first cleanup failure and closes. *)
Definition fail_drain (index : nat) (p : ManagedTargetFailurePhase) (error : ClientError.t) (now : Z)
    : D bool :=
  _ ← sync_live_at index;
  target ← target_at index;
  match phase target with
  | PhDraining client started deadline primary_end cleanup_failure remaining =>
      let cleanup_failure := or_else cleanup_failure (Some (classify_client_error p error)) in
      _ ← update_target index (set_phase (PhDraining client started deadline primary_end
        cleanup_failure remaining));
      begin_close index primary_end cleanup_failure now
  | _ => panic
  end.

Definition end_drain (index : nat) (received : bool) (now : Z) : D bool :=
  target ← target_at index;
  match phase target with
  | PhDraining client started deadline primary_end cleanup_failure remaining =>
      if deadline <=? now then
        if received && (1 <? remaining) then
          _ ← update_target index (set_phase (PhDraining client started deadline primary_end
            cleanup_failure (remaining - 1)));
          mret true
        else begin_close index primary_end cleanup_failure now
      else mret received
  | _ => panic
  end.

Definition poll_draining (index : nat) (now : Z) : D bool :=
  timeout_due ← client_gets index (λ client, due (next_probe_timeout_deadline client) now);
  if timeout_due : bool then mret true
  else
    '(received, error) ← receive_events index;
    match error with
    | Some error => fail_drain index FReceiving error now
    | None =>
        peer_closed ← client_gets index is_peer_closed;
        if peer_closed : bool then
          _ ← sync_live_at index;
          target ← target_at index;
          match phase target with
          | PhDraining _ _ _ _ cleanup_failure _ =>
              _ ← finish_target index PeerClosed cleanup_failure; mret false
          | _ => panic
          end
        else
          draining ← (if received : bool then shorten_drain index now else mret true);
          if draining : bool then end_drain index received now else mret true
    end.

Definition poll_closing (index : nat) (now : Z) : D bool :=
  result ← with_client index poll_close;
  target ← target_at index;
  match phase target with
  | PhClosing _ deadline primary_end cleanup_failure =>
      match result with
      | Pending =>
          if deadline <=? now then
            _ ← sync_live_at index;
            _ ← finish_target index primary_end (or_else cleanup_failure (Some close_timeout_failure));
            mret false
          else mret false
      | Ready (Ok events) =>
          _ ← sync_live_at index;
          _ ← publish_client_events index events;
          _ ← finish_target index primary_end cleanup_failure;
          mret false
      | Ready (Err error) =>
          _ ← sync_live_at index;
          _ ← finish_target index primary_end
                (or_else cleanup_failure (Some (classify_client_error FClosing error)));
          mret false
      | Ready Panic => panic
      end
  | _ => panic
  end.

Definition poll_target (index : nat) (now : Z) : D bool :=
  target ← target_at index;
  driver_stopping ← gets (λ s, is_stopping (task_phase s));
  let retirement := effective_retirement target in
  let stopping := driver_stopping || Envelope.is_some retirement in
  let end_reason := from_option id Stopped retirement in
  match phase target with
  | PhRetrying deadline =>
      if stopping then _ ← finish_target index end_reason None; mret false
      else if deadline <=? now then
        client_config ← gets (λ s, client_config_for (ManagedClientConfig.client (config s)) (target_config target));
        _ ← install_target_phase index (PhPending client_config);
        mret true
      else mret false
  | PhPending _ =>
      if stopping then _ ← finish_target index end_reason None; mret false
      else _ ← start_connecting index; mret true
  | PhConnecting future =>
      if stopping then _ ← finish_target index end_reason None; mret false
      else poll_connecting index future
  | PhOpening _ open =>
      if stopping then cancel_opening index open end_reason
      else poll_opening index open now
  | PhActive _ _ _ =>
      if stopping then stop_active index end_reason now else poll_active index now
  | PhDraining _ _ _ _ _ _ => poll_draining index now
  | PhClosing _ _ _ _ => poll_closing index now
  | PhTerminal _ => mret false
  end.
End target.
