(* ===== verification/ManagedPacing.v ===== *)
(** * irtt-client: sends and timeouts of the managed driver

    Models [crates/irtt-client/src/managed/task/pacing.rs], the selection and
    commitment of sends, and [task/timeouts.rs], the bounded discovery and
    processing of probe timeouts. *)

From S2P Require Import Prelude ProtoBase Envelope ParamsCodec ClientBase ClientNegotiation ClientEvent Machine Client.
From S2P Require Import Timing Schedule ManagedBase ManagedTask ManagedTarget.

Section sends.
Context `{Clocks} `{AsyncSession}.

(** ** One send (pacing.rs) *)
Inductive SendResult : Type := NotAttempted | SendPending | SendReady (accepted : bool) | SendFailed (accepted : bool).
Definition result_accepted (self : SendResult) : bool :=
  match self with SendReady true | SendFailed true => true | _ => false end.
(** [matches!(result, Ready {..} | Failed {..})]. *)
Definition result_immediate (self : SendResult) : bool :=
  match self with SendReady _ | SendFailed _ => true | _ => false end.

Definition record_stagger_acceptance (result : SendResult) (stagger_spacing : option Z) (accepted_at : Z)
    (s : Task) : Task :=
  match result_accepted result, stagger_spacing with
  | true, Some spacing =>
      set_scan (Scan.set_gate (next_stagger_gate (Scan.send_gate (scan s)) spacing accepted_at)
        (Some accepted_at) (scan s)) s
  | _, _ => s
  end.

Definition receipt_of (result : Poll (Result SendProbeError SendReceipt)) : option SendReceipt :=
  match result with
  | Ready (Ok receipt) | Ready (Err (AfterCommit receipt _)) => Some receipt
  | _ => None
  end.
Definition send_result_of (result : Poll (Result SendProbeError SendReceipt)) : SendResult :=
  let accepted := Envelope.is_some (receipt_of result) in
  match result with
  | Pending => SendPending
  | Ready (Ok _) => SendReady accepted
  | Ready _ => SendFailed accepted
  end.

(** The event of a committed send, with its slot. *)
Definition sent_event (scheduled_at : Z) (receipt : SendReceipt) : ClientEvent.t :=
  ClientEvent.EchoSent (receipt_seq receipt) (receipt_remote receipt) (Some scheduled_at)
    (receipt_sent_at receipt) (receipt_bytes receipt) (send_call receipt)
    (Some (instant_abs_diff (ClientTimestamp.mono (receipt_sent_at receipt)) scheduled_at)).

(** What the outcome of the socket does to the target: cadence, slots missed
    meanwhile, accounting. *)
Definition commit_send (index : nat) (schedule : ProbeSchedule) (c : ScheduleCommit.t)
    (stagger_spacing : option Z) (result : Poll (Result SendProbeError SendReceipt))
    : D (option ClientError.t) :=
  let accepted := Envelope.is_some (receipt_of result) in
  accepted_at ← read_clock;
  _ ← modify (record_stagger_acceptance (send_result_of result) stagger_spacing accepted_at);
  '(schedule, schedule_error) ←
    (if accepted then
       after ← read_clock;
       match skip_missed_slots_at after (commit c schedule) with
       | Ok schedule => mret (schedule, None)
       | Err error => mret (commit c schedule, Some error)
       | Panic => panic
       end
     else mret (schedule, None));
  let send_waiting := match result with Pending => true | _ => false end in
  _ ← update_target index (λ target,
    match phase target with
    | PhActive client _ _ =>
        let target := sync_packets_sent client target in
        let target :=
          if send_waiting then set_liveness None None (retry_delay target) target else target in
        set_phase (PhActive client schedule send_waiting) target
    | _ => target
    end);
  mret schedule_error.

Definition submit_probe (index : nat) (schedule : ProbeSchedule) (c : ScheduleCommit.t) (now : Z)
    (stagger_spacing : option Z) : D SendResult :=
  result ← with_client index poll_send_probe;
  schedule_error ← commit_send index schedule c stagger_spacing result;
  let publish_sent :=
    publish_client_events index
      (option_list (sent_event (ScheduleCommit.scheduled_at c) <$> receipt_of result)) in
  match result with
  | Pending => mret SendPending
  | Ready (Ok _) =>
      _ ← publish_sent;
      match schedule_error with
      | Some error =>
          _ ← begin_open_session_failure index FTiming error now CleanupDrain;
          mret (SendFailed true)
      | None => mret (SendReady true)
      end
  | Ready (Err error) =>
      _ ← publish_sent;
      let source := match error with NotCommitted source | AfterCommit _ source => source end in
      _ ← begin_open_session_failure index FSending source now CleanupDrain;
      mret (send_result_of result)
  | Ready Panic => panic
  end.

Definition poll_one_send (index : nat) (now : Z) (stagger_spacing : option Z) : D SendResult :=
  target ← target_at index;
  match phase target with
  | PhActive client schedule send_waiting =>
      if negb (is_desired (membership target)) then
        _ ← update_target index (set_phase (PhActive client schedule false));
        mret NotAttempted
      else
        fresh ← read_clock;
        let now := Z.max now fresh in
        if due (next_probe_timeout_deadline client) now then
          _ ← update_target index (set_phase (PhActive client schedule false));
          mret NotAttempted
        else
          let '(permitted, schedule) := permit_probe_at now schedule in
          if negb permitted then
            let pending := has_pending_probes client in
            _ ← update_target index (λ target,
              set_phase (PhActive client schedule false)
                (if pending then target else sync_packets_sent client target));
            if pending then mret NotAttempted
            else _ ← begin_drain index TestComplete; mret (SendReady false)
          else
            match next_send_deadline schedule with
            | Some deadline =>
                if now <? deadline then
                  _ ← update_target index (set_phase (PhActive client schedule false));
                  mret NotAttempted
                else
                  match preflight_managed_commit deadline now schedule with
                  | Ok c => submit_probe index schedule c now stagger_spacing
                  | Err error =>
                      _ ← begin_open_session_failure index FTiming error now CleanupDrain;
                      mret (SendFailed false)
                  | Panic => panic
                  end
            | None =>
                _ ← update_target index (set_phase (PhActive client schedule false));
                mret NotAttempted
            end
  | _ => mret NotAttempted
  end.

(** ** Passes over the targets *)
(** The target under the send cursor, which moves on. *)
Definition next_send_target (burst stagger : Z → Z) : D nat :=
  n ← gets (λ s, len (targets s));
  if n =? 0 then panic
  else
    sc ← gets scan;
    let index := Scan.send_cursor sc mod n in
    _ ← modify (set_scan (Scan.set_send ((Scan.send_cursor sc + 1) mod n) (burst (Scan.burst_remaining sc))
          (stagger (Scan.stagger_remaining sc)) sc));
    mret (Z.to_nat index).

Fixpoint stagger_loop (work : nat) (now : Z) : D bool :=
  match work with
  | O => gets (λ s, 0 <? Scan.stagger_remaining (scan s))
  | S work =>
      index ← next_send_target id Z.pred;
      target ← target_at index;
      if negb (is_paced_active target) then stagger_loop work now
      else
        spacing ← gets active_stagger_spacing;
        result ← poll_one_send index now spacing;
        match result with
        | NotAttempted => stagger_loop work now
        | _ =>
            _ ← modify (λ s, set_scan (Scan.set_send (Scan.send_cursor (scan s))
                  (Scan.burst_remaining (scan s)) 0 (scan s)) s);
            mret (result_immediate result)
        end
  end.

Definition poll_staggered_send (now : Z) : D bool :=
  active ← gets active_count;
  gate ← gets (λ s, Scan.send_gate (scan s));
  if (active =? 0) || match gate with Some gate => now <? gate | None => false end then mret false
  else
    _ ← modify (λ s, set_scan (Scan.set_send (Scan.send_cursor (scan s)) (Scan.burst_remaining (scan s))
          (if Scan.stagger_remaining (scan s) =? 0 then len (targets s)
           else Scan.stagger_remaining (scan s)) (scan s)) s);
    work ← gets (λ s, Z.min (Scan.stagger_remaining (scan s)) TARGET_WORK_BUDGET);
    stagger_loop (Z.to_nat work) now.

Fixpoint burst_loop (work : nat) (now : Z) : D bool :=
  match work with
  | O => mret false
  | S work =>
      index ← next_send_target Z.pred id;
      result ← poll_one_send index now None;
      immediate ← burst_loop work now;
      mret (result_immediate result || immediate)
  end.

Definition poll_burst_sends (now : Z) : D bool :=
  n ← gets (λ s, len (targets s));
  if n =? 0 then mret false
  else
    _ ← modify (λ s, set_scan (Scan.set_send (Scan.send_cursor (scan s))
          (if Scan.burst_remaining (scan s) =? 0 then n else Scan.burst_remaining (scan s))
          (Scan.stagger_remaining (scan s)) (scan s)) s);
    work ← gets (λ s, Z.min (Scan.burst_remaining (scan s)) TARGET_WORK_BUDGET);
    immediate ← burst_loop (Z.to_nat work) now;
    gets (λ s, immediate || (0 <? Scan.burst_remaining (scan s))).

(** ** Timeouts (timeouts.rs) *)
Definition target_has_due_timeout (index : nat) (now : Z) : D bool :=
  target ← target_at index;
  driver_stopping ← gets (λ s, is_stopping (task_phase s));
  match phase target with
  | PhActive client _ _ =>
      mret (negb driver_stopping && negb (Envelope.is_some (effective_retirement target)) &&
            due (next_probe_timeout_deadline client) now)
  | PhDraining client _ _ _ _ _ => mret (due (next_probe_timeout_deadline client) now)
  | _ => mret false
  end.

(** One timeout of the client at [index], its events published: whether more
    are due, or the error. *)
Definition expire_events (index : nat) (now : Z) : D (bool + ClientError.t) :=
  result ← with_client index (poll_timeouts_bounded_at now 1);
  match result with
  | Ok (events, more_due) => _ ← publish_client_events index events; mret (inl more_due)
  | Err error => mret (inr error)
  | Panic => panic
  end.

(** [TimeoutStep]: whether more timeouts of the target are due. *)
Definition poll_target_timeout (index : nat) (now : Z) : D bool :=
  target ← target_at index;
  match phase target with
  | PhActive _ _ _ =>
      result ← expire_events index now;
      match result with
      | inl more_due => mret more_due
      | inr error => _ ← begin_open_session_failure index FTiming error now CleanupClose; mret false
      end
  | PhDraining _ _ _ _ _ _ =>
      result ← expire_events index now;
      match result with
      | inl more_due => draining ← shorten_drain index now; mret ((draining : bool) && more_due)
      | inr error => _ ← fail_drain index FTiming error now; mret false
      end
  | _ => mret false
  end.

Definition enqueue_timeout_backlog (index : nat) (generation : Z) : D unit :=
  modify (λ s,
    let backlog := Scan.timeout_backlog (scan s) in
    if (len backlog =? TIMEOUT_WORK_BUDGET)
       || existsb (λ entry, (TimeoutBacklogEntry.index entry =? index)%nat &&
                            (TimeoutBacklogEntry.generation entry =? generation)) backlog
    then s
    else set_scan (Scan.set_timeout (Scan.timeout_cursor (scan s))
           (backlog ++ [TimeoutBacklogEntry.mk index generation]) (scan s)) s).

(** One transition of a due target: the transitions left. *)
Definition timeout_transition (index : nat) (now generation : Z) : D unit :=
  more_due ← poll_target_timeout index now;
  if more_due : bool then enqueue_timeout_backlog index generation else mret tt.

(** The scan over the targets: [left_] of them, with [transitions] to spend. *)
Fixpoint timeout_scan (left_ : nat) (transitions : Z) (n now : Z) : D Z :=
  match left_ with
  | O => mret transitions
  | S left_ =>
      if transitions =? 0 then mret transitions
      else
        sc ← gets scan;
        let index := Z.to_nat (Scan.timeout_cursor sc) in
        _ ← modify (set_scan (Scan.set_timeout ((Scan.timeout_cursor sc + 1) mod n)
              (Scan.timeout_backlog sc) sc));
        is_due ← target_has_due_timeout index now;
        if is_due : bool then
          target ← target_at index;
          _ ← timeout_transition index now (TargetInstance.generation (instance target));
          timeout_scan left_ (transitions - 1) n now
        else timeout_scan left_ transitions n now
  end.

(** The backlog, oldest entry first. A transition enqueues at most its own
    entry, so every iteration spends a transition or shortens the backlog. *)
Fixpoint timeout_drain (fuel : nat) (transitions now : Z) : D unit :=
  match fuel with
  | O => panic
  | S fuel =>
      sc ← gets scan;
      if transitions <=? 0 then mret tt
      else
        match Scan.timeout_backlog sc with
        | [] => mret tt
        | entry :: backlog =>
            _ ← modify (set_scan (Scan.set_timeout (Scan.timeout_cursor sc) backlog sc));
            let index := TimeoutBacklogEntry.index entry in
            target ← gets (λ s, targets s !! index);
            valid ←
              match target with
              | Some target =>
                  if TargetInstance.generation (instance target) =? TimeoutBacklogEntry.generation entry
                  then target_has_due_timeout index now else mret false
              | None => mret false
              end;
            if valid : bool then
              _ ← timeout_transition index now (TimeoutBacklogEntry.generation entry);
              timeout_drain fuel (transitions - 1) now
            else timeout_drain fuel transitions now
        end
  end.

Definition poll_timeout_pass (now : Z) : D bool :=
  n ← gets (λ s, len (targets s));
  if n =? 0 then mret false
  else
    transitions ← timeout_scan (Z.to_nat (Z.min n TIMEOUT_WORK_BUDGET)) TIMEOUT_WORK_BUDGET n now;
    fuel ← gets (λ s, S (length (Scan.timeout_backlog (scan s)) + Z.to_nat transitions));
    _ ← timeout_drain fuel transitions now;
    gets (λ s, match Scan.timeout_backlog (scan s) with [] => false | _ => true end).
End sends.
