(* ===== verification/ManagedUpdate.v ===== *)
(** * irtt-client: target updates of the managed driver

    Models [crates/irtt-client/src/managed/task/update.rs]: a target-set
    transaction, planned in full before anything changes, and the pruning of
    withdrawn generations. *)

From S2P Require Import Prelude ProtoBase Envelope ParamsCodec ClientBase ClientNegotiation ClientEvent Machine Client.
From S2P Require Import Timing Schedule ManagedBase ManagedTask ManagedTarget.

Abbreviation ApplyResult := (Result ManagedCommandApplyError).

Module PlannedTarget.
Record t : Type := mk {
  target : ManagedTargetConfig.t;
  client_config : ClientConfig.t;
  generation : Z;
}.
End PlannedTarget.

Module PlannedRetirement.
Record t : Type := mk { index : nat; reason : RetirementReason; synchronous : bool }.
End PlannedRetirement.

Module UpdatePlan.
Record t : Type := mk {
  retirements : list PlannedRetirement.t;
  created : list PlannedTarget.t;
  next_generation : Z;
  next_command_sequence : Z;
  prospective_live_count : Z;
}.
End UpdatePlan.

Section update.
Context `{Clocks} `{Target} `{!HmacMd5} `{AsyncSession}.

Definition synchronously_retireable (p : TargetPhase) : bool :=
  match p with
  | PhRetrying _ | PhPending _ | PhConnecting _ | PhTerminal _ => true
  | PhOpening _ open => negb (has_in_flight_work open)
  | PhActive _ _ _ | PhDraining _ _ _ _ _ _ | PhClosing _ _ _ _ => false
  end.

Definition runtime_satisfies_target (runtime : TargetRuntime) (target : ManagedTargetConfig.t) : bool :=
  is_desired (membership runtime) && negb (is_terminal (phase runtime)) &&
  bool_decide (target_config runtime = target).

(** ** Planning *)
(** Duplicate ids and invalid configurations, target by target. *)
Fixpoint prepare_targets (config : ManagedClientConfig.t) (ids : list TargetId)
    (incoming : list ManagedTargetConfig.t)
    : ApplyResult (list (ManagedTargetConfig.t * ClientConfig.t)) :=
  match incoming with
  | [] => Ok []
  | target :: incoming =>
      let id := ManagedTargetConfig.id target in
      if bool_decide (id ∈ ids) then Err (ApplyDuplicateTargetId id)
      else
        let client_config := client_config_for (ManagedClientConfig.client config) target in
        _ ← map_err (ApplyInvalidTarget id) (validate_target_config client_config);
        prepared ← prepare_targets config (id :: ids) incoming;
        Ok ((target, client_config) :: prepared)
  end.

Definition plan_retirement (prepared : list ManagedTargetConfig.t) (index : nat) (runtime : TargetRuntime)
    : option PlannedRetirement.t :=
  if negb (is_desired (membership runtime)) || existsb (runtime_satisfies_target runtime) prepared
  then None
  else
    let reason :=
      if existsb (λ target, bool_decide (ManagedTargetConfig.id target = TargetInstance.id (instance runtime)))
           prepared
      then RReplaced else RRemoved in
    Some (PlannedRetirement.mk index reason (synchronously_retireable (phase runtime))).

Definition plan_retirements (prepared : list ManagedTargetConfig.t) (runtimes : list TargetRuntime)
    : list PlannedRetirement.t :=
  omap id (imap (plan_retirement prepared) runtimes).

(** A fresh generation for every target no live runtime satisfies. *)
Fixpoint plan_created (runtimes : list TargetRuntime) (next_generation : Z)
    (prepared : list (ManagedTargetConfig.t * ClientConfig.t))
    : ApplyResult (list PlannedTarget.t * Z) :=
  match prepared with
  | [] => Ok ([], next_generation)
  | (target, client_config) :: prepared =>
      if existsb (λ runtime, runtime_satisfies_target runtime target) runtimes
      then plan_created runtimes next_generation prepared
      else
        next ← ok_or (try_u64 (next_generation + 1)) GenerationExhausted;
        '(created, last) ← plan_created runtimes next prepared;
        Ok (PlannedTarget.mk target client_config next_generation :: created, last)
  end.

Definition synchronous_indices (retirements : list PlannedRetirement.t) : list nat :=
  PlannedRetirement.index <$> filter (λ r, PlannedRetirement.synchronous r = true) retirements.

(** The runtimes whose index is not in [indices]. *)
Definition retain_not {A} (indices : list nat) (l : list A) : list A :=
  omap id (imap (λ i x, if bool_decide (i ∈ indices) then None else Some x) l).

Definition plan_targets (incoming : list ManagedTargetConfig.t) (s : Task) : ApplyResult UpdatePlan.t :=
  prepared ← prepare_targets (config s) [] incoming;
  let retirements := plan_retirements (prepared.*1) (targets s) in
  '(created, next_generation) ← plan_created (targets s) (Control.next_generation (control s)) prepared;
  next_command_sequence ← ok_or (try_u64 (Control.applied_command_sequence (control s) + 1))
    CommandSequenceExhausted;
  let prospective_live_count :=
    len (retain_not (synchronous_indices retirements) (targets s)) + len created in
  let limit := ManagedClientConfig.max_live_target_generations (config s) in
  if limit <? prospective_live_count then Err (LiveGenerationLimitExceeded prospective_live_count limit)
  else Ok (UpdatePlan.mk retirements created next_generation next_command_sequence prospective_live_count).

(** ** Applying a plan *)
(** Retirements in order: membership, history and the release gate. What
    finished is returned for later publication. *)
Fixpoint apply_retirements (now : Z) (retirements : list PlannedRetirement.t)
    : D (list ManagedTargetOutcome.t) :=
  match retirements with
  | [] => mret []
  | r :: retirements =>
      let index := PlannedRetirement.index r in
      target ← target_at index;
      let was_paced_active := is_paced_active target in
      let target := set_membership (Withdrawn (PlannedRetirement.reason r)) target in
      _ ← update_target index (λ _, target);
      finished ←
        if PlannedRetirement.synchronous r then
          if is_terminal (phase target) then mret []
          else
            let outcome := target_outcome (end_of_retirement (PlannedRetirement.reason r)) None target in
            _ ← modify (λ s, set_history (OutcomeHistory.record outcome (history s)) s);
            mret [outcome]
        else
          _ ← (if was_paced_active then modify (stagger_target_removed now) else mret tt);
          mret [];
      rest ← apply_retirements now retirements;
      mret (finished ++ rest)
  end.

Definition rebase_target_cursors (s : Task) : Task :=
  let n := len (targets s) in
  let sc := scan s in
  let wrap c := if n =? 0 then 0 else c mod n in
  set_scan (Scan.mk (wrap (Scan.cursor sc)) (wrap (Scan.timeout_cursor sc)) (Scan.timeout_backlog sc)
    (Z.min (Scan.scan_remaining sc) n) (wrap (Scan.send_cursor sc)) (Z.min (Scan.burst_remaining sc) n)
    (Z.min (Scan.stagger_remaining sc) n) (Scan.send_gate sc) (Scan.last_stagger_send sc)) s.

Definition planned_instance (planned : PlannedTarget.t) : TargetInstance.t :=
  TargetInstance.mk (ManagedTargetConfig.id (PlannedTarget.target planned)) (PlannedTarget.generation planned).

(** A new generation. *)
Definition new_runtime (config : ManagedClientConfig.t) (planned : PlannedTarget.t) : TargetRuntime :=
  mk_runtime (planned_instance planned) (PlannedTarget.target planned) Desired
    (ManagedTargetConfig.server_addr (PlannedTarget.target planned)) None TargetCounters.default 0
    (ManagedClientConfig.reconnect_initial_delay config) None None
    (PhPending (PlannedTarget.client_config planned)).

Fixpoint publish_all (events : list ManagedEvent) : D unit :=
  match events with
  | [] => mret tt
  | event :: events => _ ← publish_event event; publish_all events
  end.

Definition quiescent_stop (s : Task) : bool :=
  forallb (λ runtime, negb (is_desired (membership runtime))) (targets s) &&
  match ManagedClientConfig.completion (config s) with FinishWhenQuiescent => true | ExplicitStop => false end.

Definition apply_plan (plan : UpdatePlan.t) : D ManagedCommandAcknowledgement.t :=
  now ← read_clock;
  finished ← apply_retirements now (UpdatePlan.retirements plan);
  let synchronous := synchronous_indices (UpdatePlan.retirements plan) in
  _ ← (match synchronous with
       | [] => mret tt
       | _ => modify (λ s, rebase_target_cursors (set_targets (retain_not synchronous (targets s)) s))
       end);
  _ ← modify (λ s, set_targets (targets s ++ (new_runtime (config s) <$> UpdatePlan.created plan)) s);
  _ ← modify (λ s, set_control (Control.mk (task_phase s) (Control.stop_observed (control s))
        (UpdatePlan.next_generation plan) (UpdatePlan.next_command_sequence plan)) s);
  stopping ← gets quiescent_stop;
  _ ← (if stopping : bool then modify (λ s, set_task_phase Stopping (set_shared (begin_stopping (shared s)) s))
       else mret tt);
  _ ← replace_status;
  _ ← (if stopping : bool then publish_event EvStopping else mret tt);
  _ ← publish_all (EvTargetFinished <$> finished);
  _ ← publish_all ((λ planned, EvTargetStateChanged (planned_instance planned) LPending)
        <$> UpdatePlan.created plan);
  gets (λ s, ManagedCommandAcknowledgement.mk (Control.applied_command_sequence (control s))
    (Published.status (published s))).

Definition apply_targets (incoming : list ManagedTargetConfig.t) : D CommandResult :=
  plan ← gets (plan_targets incoming);
  match plan with
  | Ok plan =>
      limit ← gets (λ s, ManagedClientConfig.max_live_target_generations (config s));
      if UpdatePlan.prospective_live_count plan <=? limit then
        ack ← apply_plan plan; mret (Ok ack)
      else panic
  | Err error => mret (Err error)
  | Panic => panic
  end.

(** ** The command queue *)
Definition answer_command (incoming : list ManagedTargetConfig.t) : D unit :=
  running ← gets (λ s, is_running (task_phase s));
  admission ← (if running : bool then update_admission else mret AdmitStopping);
  result ←
    (if negb running || negb (bool_decide (admission = AdmitOpen)) then mret (Err ApplyStopping)
     else apply_targets incoming);
  modify (λ s, set_shared (acknowledge incoming result (shared s)) s).

Fixpoint process_commands_loop (budget : nat) : D bool :=
  match budget with
  | O => mret false
  | S budget =>
      _ ← interfere;
      commands ← gets (λ s, Shared.commands (shared s));
      match commands with
      | [] => mret false
      | incoming :: commands =>
          _ ← modify (λ s, set_shared (set_commands commands (shared s)) s);
          _ ← answer_command incoming;
          _ ← process_commands_loop budget;
          mret true
      end
  end.
Definition process_commands : D bool := process_commands_loop COMMAND_WORK_BUDGET.

Definition withdrawn_terminal (target : TargetRuntime) : bool :=
  negb (is_desired (membership target)) && is_terminal (phase target).

Definition prune_undesired_terminal : D unit :=
  found ← gets (λ s, existsb withdrawn_terminal (targets s));
  if found : bool then
    _ ← modify (λ s, rebase_target_cursors
          (set_targets (filter (λ target, withdrawn_terminal target = false) (targets s)) s));
    replace_status
  else mret tt.
End update.
