(* ===== verification/Managed.v ===== *)
(** * irtt-client: the managed driver

    Models the top level of [crates/irtt-client/src/managed/task.rs], one poll
    of [ManagedClientTask] with its sealing, and [build_task] of
    [task/control.rs]. *)

From S2P Require Import Prelude ProtoBase Envelope ParamsCodec ClientBase ClientNegotiation ClientEvent Machine Client.
From S2P Require Import Timing Schedule ManagedBase ManagedTask ManagedTarget ManagedPacing ManagedUpdate.

(** [usize::MAX >> 1]. *)
Definition MAX_BROADCAST_CHANNEL_CAPACITY `{Target} : Z := Z.shiftr USIZE_MAX 1.

Inductive ManagedConfigError : Type :=
  | InvalidReconnectPolicy
  | InvalidReconnectDelays (initial maximum : Z)
  | EmptyInitialTargets
  | ConfigDuplicateTargetId (id : TargetId)
  | ConfigTooManyTargets (configured limit : Z)
  | ZeroEventCapacity
  | EventCapacityTooLarge (configured maximum : Z)
  | ZeroCommandCapacity
  | CommandCapacityTooLarge (configured maximum : Z)
  | ZeroLiveGenerationLimit
  | UnschedulableFinalDrain (duration : Z)
  | ConfigInvalidTarget (id : TargetId) (source : ClientError.t)
  | ConfigGenerationExhausted.

(** What a poll of the task reports: still pending, with or without having woken
    itself, and the deadline its timer was set to; or the outcome. *)
Inductive TaskPoll : Type :=
  | TaskPending (woken : bool) (timer : option Z)
  | TaskReady (outcome : ManagedOutcome.t).

Section driver.
Context `{Clocks} `{Target} `{!HmacMd5} `{AsyncSession}.

(** ** Construction (control.rs) *)
Fixpoint build_runtimes (config : ManagedClientConfig.t) (ids : list TargetId) (next_generation : Z)
    (targets : list ManagedTargetConfig.t) : Result ManagedConfigError (list TargetRuntime * Z) :=
  match targets with
  | [] => Ok ([], next_generation)
  | target :: targets =>
      let id := ManagedTargetConfig.id target in
      if bool_decide (id ∈ ids) then Err (ConfigDuplicateTargetId id)
      else
        next ← ok_or (try_u64 (next_generation + 1)) ConfigGenerationExhausted;
        let client_config := client_config_for (ManagedClientConfig.client config) target in
        _ ← map_err (ConfigInvalidTarget id) (validate_target_config client_config);
        '(runtimes, last) ← build_runtimes config (id :: ids) next targets;
        Ok (new_runtime config (PlannedTarget.mk target client_config next_generation) :: runtimes, last)
  end.

(** A delay the source can add to the current instant. *)
Definition schedulable (now delay : Z) : bool := Envelope.is_some (instant_checked_add now delay).

(** The reconnection delays [build_task] accepts at [now]. *)
Definition reconnect_delays_ok (config : ManagedClientConfig.t) (now : Z) : bool :=
  let initial := ManagedClientConfig.reconnect_initial_delay config in
  let maximum := ManagedClientConfig.reconnect_max_delay config in
  negb ((initial =? 0) || (maximum =? 0)
        || negb ((2 * initial <=? DURATION_MAX) && (2 * initial <=? maximum))
        || (U64_MAX - 2 <=? maximum / 1_000_000)
        || negb ((maximum + 1_000_000 <=? DURATION_MAX) && schedulable now (maximum + 1_000_000))).

Definition reconnect_policy_ok (config : ManagedClientConfig.t) (now : Z) : bool :=
  match ManagedClientConfig.reconnect_timeout config with
  | None => true
  | Some timeout =>
      let request := ClientConfig.request (ManagedClientConfig.client config) in
      negb ((timeout =? 0) || negb (schedulable now timeout)
            || Envelope.is_some (SessionRequest.duration request)
            || match SessionRequest.run_mode request with NormalMode => false | NoTest => true end)
  end.

(** Everything but the targets; [max_permits] is tokio's semaphore bound, [now]
    the readings of the clock. *)
Definition validate_managed_config (max_permits now1 now2 now3 : Z) (config : ManagedClientConfig.t)
    (targets : list ManagedTargetConfig.t) : Result ManagedConfigError unit :=
  let limit := ManagedClientConfig.max_live_target_generations config in
  if ManagedClientConfig.event_capacity config =? 0 then Err ZeroEventCapacity
  else if MAX_BROADCAST_CHANNEL_CAPACITY <? ManagedClientConfig.event_capacity config
  then Err (EventCapacityTooLarge (ManagedClientConfig.event_capacity config) MAX_BROADCAST_CHANNEL_CAPACITY)
  else if ManagedClientConfig.command_capacity config =? 0 then Err ZeroCommandCapacity
  else if max_permits <? ManagedClientConfig.command_capacity config
  then Err (CommandCapacityTooLarge (ManagedClientConfig.command_capacity config) max_permits)
  else if negb (reconnect_delays_ok config now1)
  then Err (InvalidReconnectDelays (ManagedClientConfig.reconnect_initial_delay config)
              (ManagedClientConfig.reconnect_max_delay config))
  else if negb (reconnect_policy_ok config now2) then Err InvalidReconnectPolicy
  else if limit =? 0 then Err ZeroLiveGenerationLimit
  else if negb (schedulable now3 (ManagedClientConfig.final_drain config))
  then Err (UnschedulableFinalDrain (ManagedClientConfig.final_drain config))
  else if limit <? len targets then Err (ConfigTooManyTargets (len targets) limit)
  else if (len targets =? 0) &&
          match ManagedClientConfig.completion config with FinishWhenQuiescent => true | _ => false end
  then Err EmptyInitialTargets
  else Ok tt.

Definition initial_shared : Shared.t := Shared.mk false AdmitOpen false [] false [].

(** The task before its first poll. *)
Definition initial_task (config : ManagedClientConfig.t) (runtimes : list TargetRuntime)
    (next_generation : Z) (w : World) : Task :=
  let history := OutcomeHistory.new (ManagedClientConfig.outcome_history_limit config) in
  let status :=
    ManagedStatus.mk MNotStarted false 0 (len runtimes) 0 0 0 0 0 0 0 0 0 0 0
      ((λ target, ManagedTargetStatus.mk (instance target) (is_desired (membership target)) LPending None
          (server_addr target) None) <$> runtimes)
      (OutcomeHistory.recent history) None in
  mk_task config (Control.mk NotStarted false next_generation 0) runtimes history Scan.initial
    initial_shared (Published.mk status []) w.

Definition build_task (max_permits : Z) (config : ManagedClientConfig.t)
    (targets : list ManagedTargetConfig.t) (w : World) : Result ManagedConfigError Task :=
  let '(now1, w) := instant_now w in
  let '(now2, w) :=
    match ManagedClientConfig.reconnect_timeout config with Some _ => instant_now w | None => (now1, w) end in
  let '(now3, w) := instant_now w in
  _ ← validate_managed_config max_permits now1 now2 now3 config targets;
  '(runtimes, next_generation) ← build_runtimes config [] 1 targets;
  Ok (initial_task config runtimes next_generation w).

(** ** Starting and stopping (task.rs) *)
Definition begin_running : D (option ManagedDriverFailure) :=
  entered ← gets (λ s, runtime_entered (world s));
  if negb entered then mret (Some DriverNoTokioRuntime)
  else
    _ ← modify (set_task_phase Running);
    _ ← replace_status;
    _ ← publish_event EvStarted;
    mret None.

Definition observe_stop : D unit :=
  observed ← gets (λ s, Control.stop_observed (control s));
  if observed : bool then mret tt
  else
    transition ← gets (λ s, negb (is_stopping (task_phase s)));
    _ ← modify (λ s, set_shared (begin_stopping (shared s))
          (set_control (Control.mk Stopping true (Control.next_generation (control s))
            (Control.applied_command_sequence (control s))) s));
    _ ← replace_status;
    _ ← (if transition : bool then publish_event EvStopping else mret tt);
    modify (λ s, set_scan (Scan.set_send (Scan.send_cursor (scan s)) 0 (Scan.stagger_remaining (scan s))
      (Scan.set_target (Scan.cursor (scan s)) (len (targets s)) (scan s))) s).

(** [if stop.is_requested() { self.observe_stop() }]. *)
Definition check_stop : D unit :=
  requested ← is_requested;
  if requested : bool then observe_stop else mret tt.

(** ** Passes *)
Fixpoint target_loop (work : nat) (now : Z) : D bool :=
  match work with
  | O => mret false
  | S work =>
      n ← gets (λ s, len (targets s));
      if n =? 0 then panic
      else
        sc ← gets scan;
        _ ← modify (set_scan (Scan.set_target ((Scan.cursor sc + 1) mod n) (Scan.scan_remaining sc - 1) sc));
        immediate ← poll_target (Z.to_nat (Scan.cursor sc mod n)) now;
        rest ← target_loop work now;
        mret (immediate || rest)
  end.

Definition poll_target_pass (now : Z) : D bool :=
  n ← gets (λ s, len (targets s));
  if n =? 0 then mret false
  else
    _ ← modify (λ s, set_scan (Scan.set_target (Scan.cursor (scan s))
          (if Scan.scan_remaining (scan s) =? 0 then n else Scan.scan_remaining (scan s)) (scan s)) s);
    work ← gets (λ s, Z.min (Scan.scan_remaining (scan s)) TARGET_WORK_BUDGET);
    immediate ← target_loop (Z.to_nat work) now;
    gets (λ s, immediate || (0 <? Scan.scan_remaining (scan s))).

Definition all_targets_terminal (s : Task) : bool := forallb (λ target, is_terminal (phase target)) (targets s).

(** ** The timer *)
Definition omin (a b : option Z) : option Z :=
  match a, b with Some a, Some b => Some (Z.min a b) | Some a, None => Some a | None, b => b end.

(** What a target waits for, sends aside. *)
Definition non_send_deadline (timeout : option Z) (target : TargetRuntime) : option Z :=
  omin (silence_deadline timeout target)
    (match phase target with
     | PhRetrying deadline => Some deadline
     | PhActive client schedule _ => omin (next_probe_timeout_deadline client) (end_deadline schedule)
     | PhDraining client _ deadline _ _ _ => omin (next_probe_timeout_deadline client) (Some deadline)
     | PhClosing _ deadline _ _ => Some deadline
     | _ => None
     end).
Definition send_deadline (target : TargetRuntime) : option Z :=
  match phase target with
  | PhActive _ schedule send_waiting =>
      if is_desired (membership target) && negb send_waiting then next_send_deadline schedule else None
  | _ => None
  end.

Definition next_deadline (s : Task) : option Z :=
  let timeout := ManagedClientConfig.reconnect_timeout (config s) in
  let send := foldr (λ target d, omin (send_deadline target) d) None (targets s) in
  let send :=
    match ManagedClientConfig.pacing (config s) with
    | Staggered =>
        if is_running (task_phase s) && (0 <? active_count s)
        then gated_send_deadline send (Scan.send_gate (scan s)) else send
    | Burst => send
    end in
  omin (foldr (λ target d, omin (non_send_deadline timeout target) d) None (targets s)) send.

Definition register_timer : D (bool * option Z) :=
  deadline ← gets next_deadline;
  match deadline with
  | None => mret (false, None)
  | Some t =>
      w ← gets world;
      let '(fired, w) := timer_ready t w in
      _ ← modify (set_world w);
      mret (fired, Some t)
  end.

Definition register_stop_wake : D bool :=
  _ ← interfere;
  woken ← gets (λ s, Shared.wake (shared s));
  if woken : bool then
    _ ← modify (λ s, set_shared (set_wake false (shared s)) s);
    is_requested
  else mret false.

(** ** Sealing *)
(** The answer to a command nobody will apply. *)
Definition sealed_command_error (end_reason : ManagedEndReason) : ManagedCommandApplyError :=
  match end_reason with DriverFailed failure => ApplyDriverFailed failure | _ => ApplyStopping end.

Definition drain_commands (error : ManagedCommandApplyError) (s : Shared.t) : Shared.t :=
  set_commands [] (fold_left (λ s command, acknowledge command (Err error) s) (Shared.commands s) s).

Definition seal (end_reason : ManagedEndReason) (failed : bool) : D TaskPoll :=
  _ ← check_stop;
  observed ← gets (λ s, Control.stop_observed (control s));
  let end_reason :=
    match end_reason with TargetsComplete => if observed : bool then StopRequested else TargetsComplete | r => r end in
  _ ← modify (λ s, set_shared (close_updates (shared s)) s);
  _ ← interfere;
  _ ← modify (λ s, set_shared (drain_commands (sealed_command_error end_reason)
        (close_receiver (shared s))) s);
  outcome ← gets (λ s, OutcomeHistory.outcome end_reason (Control.applied_command_sequence (control s)) (history s));
  _ ← modify (set_task_phase (if failed then TaskFailed outcome else Completed outcome));
  _ ← replace_status;
  _ ← publish_event (if failed then EvFailed outcome else EvCompleted outcome);
  mret (TaskReady outcome).

Definition fail_driver (failure : ManagedDriverFailure) : D TaskPoll := seal (DriverFailed failure) true.

(** ** One poll *)
(** The work of a poll, up to the completion check. *)
Definition poll_work : D bool :=
  commands ← process_commands;
  _ ← check_stop;
  now ← read_clock;
  timeouts ← poll_timeout_pass now;
  passed ← poll_target_pass now;
  _ ← prune_undesired_terminal;
  running ← gets (λ s, is_running (task_phase s));
  pacing ← gets (λ s, ManagedClientConfig.pacing (config s));
  sent ←
    (if running : bool then
       match pacing with Staggered => poll_staggered_send now | Burst => poll_burst_sends now end
     else mret false);
  _ ← check_stop;
  mret (commands || timeouts || passed || sent).

(** The end of a poll without completion: wake-ups and the timer. *)
Definition poll_wait (immediate : bool) : D TaskPoll :=
  woken ← register_stop_wake;
  let immediate := immediate || woken in
  if immediate then mret (TaskPending true None)
  else
    '(fired, timer) ← register_timer;
    mret (TaskPending fired timer).

Definition poll_completion (immediate : bool) : D TaskPoll :=
  terminal ← gets all_targets_terminal;
  p ← gets task_phase;
  observed ← gets (λ s, Control.stop_observed (control s));
  completion ← gets (λ s, ManagedClientConfig.completion (config s));
  match terminal : bool, p, completion with
  | true, Stopping, _ => seal (if observed : bool then StopRequested else TargetsComplete) false
  | true, Running, FinishWhenQuiescent =>
      _ ← modify (λ s, set_shared (begin_stopping (shared s)) (set_task_phase Stopping s));
      _ ← replace_status;
      _ ← publish_event EvStopping;
      seal TargetsComplete false
  | _, _, _ => poll_wait immediate
  end.

(** The first poll starts the task, unless a stop came first. *)
Definition poll_start : D (option ManagedDriverFailure) :=
  p ← gets task_phase;
  failure ←
    match p with
    | NotStarted =>
        requested ← is_requested;
        if requested : bool then _ ← observe_stop; mret None else begin_running
    | _ => mret None
    end;
  mret failure.

Definition poll : D TaskPoll :=
  p ← gets task_phase;
  if task_is_terminal p then panic
  else
    failure ← poll_start;
    match failure with
    | Some failure => fail_driver failure
    | None =>
        _ ← check_stop;
        immediate ← poll_work;
        poll_completion immediate
    end.

(** [Drop]: a task dropped before it ended is abandoned. *)
Definition drop_task : D unit :=
  p ← gets task_phase;
  if task_is_terminal p then mret tt
  else
    _ ← modify (set_task_phase Abandoned);
    _ ← modify (λ s, set_shared (close_receiver (close_updates (shared s))) s);
    _ ← replace_status;
    publish_event EvAbandoned.
End driver.
