(* ===== verification/ManagedLogic.v ===== *)
(** * irtt-client: reasoning about the managed driver

    Weakest preconditions for the driver's effects, the promises the async client
    makes to the driver ([AsyncSessionLaws]), and the relation [moved]: what any
    operation on one target does to the task. Every operation of ManagedTarget
    and ManagedPacing on a target is shown to be total and to satisfy it. *)

From S2P Require Import Prelude ProtoBase Envelope ParamsCodec ClientBase ClientNegotiation ClientEvent Machine Client.
From S2P Require Import Timing Schedule ManagedBase ManagedTask ManagedTarget ManagedPacing.

(** ** Promises of the async client *)
Class AsyncSessionLaws `{AsyncSession} := {
  (** No clock reading is earlier; the clock does not go back. *)
  clock : World → Z;
  instant_now_later w : clock w <= clock (instant_now w).2;
  timer_ready_later deadline w : clock w <= clock (timer_ready deadline w).2;
  handle_calls_later w : clock w <= clock (handle_calls w).2;
  (** A configuration whose values its types allow; a target does not change that. *)
  typed_config : ClientConfig.t → Prop;
  typed_for config target : typed_config config → typed_config (client_config_for config target);
  future_ok : ConnectFuture → Prop;
  opening_ok : AsyncOpenState → AsyncClient → Prop;
  client_ok : AsyncClient → Prop;
  (** The client has not been used after this time. *)
  fresh : Z → AsyncClient → Prop;
  fresh_later t t' c : t <= t' → fresh t c → fresh t' c;
  connect_future_ok endpoint config : typed_config config → future_ok (connect_future endpoint config);
  poll_connect_ok f w : future_ok f →
    clock w <= clock (poll_connect f w).2 ∧
    match poll_connect f w with
    | (Pending, f, _) => future_ok f
    | (Ready (Ok client), _, w) => opening_ok open_state_new client ∧ fresh (clock w) client
    | (Ready (Err _), _, _) => True
    | (Ready Panic, _, _) => False
    end;
  poll_open_ok o c : opening_ok o c → ∀ w, fresh (clock w) c →
    match poll_open o c w with
    | (Pending, o, c, _) => opening_ok o c
    | (Ready (Ok _), _, c, _) => client_ok c
    | (Ready (Err _), _, _, _) => True
    | (Ready Panic, _, _, _) => False
    end ∧
    clock w <= clock (poll_open o c w).2 ∧ fresh (clock (poll_open o c w).2) (poll_open o c w).1.2;
  cancel_open_later o c w : opening_ok o c → clock w <= clock (cancel_open o c w).2;
  poll_recv_ok c : client_ok c → ∀ w, fresh (clock w) c →
    ((poll_recv c w).1.1 ≠ Ready Panic ∧ client_ok (poll_recv c w).1.2) ∧
    clock w <= clock (poll_recv c w).2 ∧ fresh (clock (poll_recv c w).2) (poll_recv c w).1.2;
  poll_close_ok c : client_ok c → ∀ w, fresh (clock w) c →
    ((poll_close c w).1.1 ≠ Ready Panic ∧ client_ok (poll_close c w).1.2) ∧
    clock w <= clock (poll_close c w).2 ∧ fresh (clock (poll_close c w).2) (poll_close c w).1.2;
  poll_send_probe_ok c : client_ok c → ∀ w, fresh (clock w) c →
    ((poll_send_probe c w).1.1 ≠ Ready Panic ∧ client_ok (poll_send_probe c w).1.2) ∧
    clock w <= clock (poll_send_probe c w).2 ∧ fresh (clock (poll_send_probe c w).2) (poll_send_probe c w).1.2;
  poll_timeouts_ok now limit c : client_ok c → 0 <= limit → ∀ w, fresh (clock w) c →
    ((poll_timeouts_bounded_at now limit c w).1.1 ≠ Panic ∧ client_ok (poll_timeouts_bounded_at now limit c w).1.2) ∧
    clock w <= clock (poll_timeouts_bounded_at now limit c w).2 ∧ fresh (clock (poll_timeouts_bounded_at now limit c w).2) (poll_timeouts_bounded_at now limit c w).1.2;
  discard_ok c : client_ok c → client_ok (discard_prepared_probe c);
  discard_fresh t c : fresh t c → fresh t (discard_prepared_probe c);
}.

(** ** Weakest preconditions *)
Section wp.
Context `{AsyncSessionLaws}.

Definition wp {A} (m : D A) (Φ : A → Task → Prop) (s : Task) : Prop :=
  match m s with Some (a, s) => Φ a s | None => False end.

Lemma wp_mono {A} (m : D A) (Φ Ψ : A → Task → Prop) s :
  wp m Φ s → (∀ a s', Φ a s' → Ψ a s') → wp m Ψ s.
Proof. unfold wp. destruct (m s) as [[a s']|]; [auto|done]. Qed.
Lemma wp_ret {A} (a : A) Φ s : Φ a s → wp (mret a) Φ s.
Proof. done. Qed.
Lemma wp_bind {A B} (m : D A) (f : A → D B) Φ s :
  wp m (λ a s, wp (f a) Φ s) s → wp (m ≫= f) Φ s.
Proof. unfold wp, mbind, D_bind. by destruct (m s) as [[a s']|]. Qed.
Lemma wp_gets {A} (f : Task → A) Φ s : Φ (f s) s → wp (gets f) Φ s.
Proof. done. Qed.
Lemma wp_modify f Φ s : Φ tt (f s) → wp (modify f) Φ s.
Proof. done. Qed.
Lemma wp_option {A} (o : option A) a Φ s : o = Some a → Φ a s → wp (from_option_or_panic o) Φ s.
Proof. by intros ->. Qed.
Lemma wp_clock Φ s : (∀ now w, clock (world s) <= clock w → Φ now (set_world w s)) → wp read_clock Φ s.
Proof.
  intros HΦ. unfold wp, read_clock. pose proof (instant_now_later (world s)) as Hl.
  destruct (instant_now _). by apply HΦ.
Qed.
Lemma wp_target_at i t Φ s : targets s !! i = Some t → Φ t s → wp (target_at i) Φ s.
Proof. unfold wp, target_at. by intros ->. Qed.
Lemma wp_update i t f Φ s :
  targets s !! i = Some t → Φ tt (set_targets (<[i := f t]> (targets s)) s) → wp (update_target i f) Φ s.
Proof. intros Ht HΦ. unfold update_target. apply wp_bind. eapply wp_target_at; [done|]. by apply wp_modify. Qed.
Lemma wp_if {A} (b : bool) (m n : D A) Φ s :
  (b = true → wp m Φ s) → (b = false → wp n Φ s) → wp (if b then m else n) Φ s.
Proof. destruct b; auto. Qed.

Lemma wp_with_client {A} i t c (f : AsyncClient → World → A * AsyncClient * World) Φ s :
  targets s !! i = Some t → phase_client (phase t) = Some c →
  (∀ a c' w', f c (world s) = (a, c', w') →
    Φ a (set_targets (<[i := set_phase (set_client c' (phase t)) t]> (targets s)) (set_world w' s))) →
  wp (with_client i f) Φ s.
Proof.
  intros Ht Hc HΦ. unfold with_client. apply wp_bind. eapply wp_target_at; [done|]. apply wp_bind.
  eapply wp_option; [done|]. apply wp_bind, wp_gets.
  destruct (f c (world s)) as [[a c'] w'] eqn:Hf. apply wp_bind, wp_modify, wp_bind.
  eapply wp_update; [done|]. apply wp_ret. by apply HΦ.
Qed.
End wp.

(** ** What is finished *)
Section moved.
Context `{Clocks} `{AsyncSessionLaws}.

Definition finished (evs : list ManagedEvent) : list ManagedTargetOutcome.t :=
  omap (λ ev, match ev with EvTargetFinished outcome => Some outcome | _ => None end) evs.
Definition record_all (outcomes : list ManagedTargetOutcome.t) (h : OutcomeHistory.t) : OutcomeHistory.t :=
  fold_left (λ h outcome, OutcomeHistory.record outcome h) outcomes h.

Definition terminal_outcome (t : TargetRuntime) : option ManagedTargetOutcome.t :=
  match phase t with PhTerminal outcome => Some outcome | _ => None end.
(** The outcome an evolution of a target adds. *)
Definition ending (t t' : TargetRuntime) : list ManagedTargetOutcome.t :=
  match terminal_outcome t with Some _ => [] | None => option_list (terminal_outcome t') end.

Definition same_target (t t' : TargetRuntime) : Prop :=
  instance t' = instance t ∧ target_config t' = target_config t ∧ membership t' = membership t ∧
  server_addr t' = server_addr t.

(** Everything in the scan but the release gate. *)
Definition positions (s : Task) : Scan.t := Scan.set_gate None None (scan s).

Definition status_current (s : Task) : Prop := Published.status (published s) = snapshot s.

(** The target's client has not been used after the world's time. *)
Definition on_time (w : World) (t : TargetRuntime) : Prop :=
  ∀ c, phase_client (phase t) = Some c → fresh (clock w) c.

Lemma on_time_later w w' t : clock w <= clock w' → on_time w t → on_time w' t.
Proof. intros Hl Ht c Hc. eapply fresh_later; [exact Hl|auto]. Qed.
Lemma on_time_client w t t' : phase_client (phase t') = phase_client (phase t) → on_time w t → on_time w t'.
Proof. intros Hc Ht c. rewrite Hc. apply Ht. Qed.
Lemma on_time_none w t : phase_client (phase t) = None → on_time w t.
Proof. intros Hc c. by rewrite Hc. Qed.

Record moved (i : nat) (t t' : TargetRuntime) (s s' : Task) : Prop := {
  mv_at : targets s !! i = Some t;
  mv_targets : targets s' = <[i := t']> (targets s);
  mv_config : config s' = config s;
  mv_control : control s' = control s;
  mv_shared : shared s' = shared s;
  mv_positions : positions s' = positions s;
  mv_same : same_target t t';
  mv_terminal : terminal_outcome t ≠ None → t' = t;
  mv_events : ∃ evs, Published.events (published s') = Published.events (published s) ++ evs ∧
    finished evs = ending t t' ∧ history s' = record_all (ending t t') (history s);
  mv_status : status_current s → status_current s';
  mv_clock : clock (world s) <= clock (world s');
  mv_before : on_time (world s) t;
  mv_after : on_time (world s') t';
}.

Lemma finished_app l k : finished (l ++ k) = finished l ++ finished k.
Proof. apply omap_app. Qed.
Lemma record_all_app l k h : record_all (l ++ k) h = record_all k (record_all l h).
Proof. apply fold_left_app. Qed.

Lemma same_target_refl t : same_target t t.
Proof. done. Qed.
Lemma same_target_trans t1 t2 t3 : same_target t1 t2 → same_target t2 t3 → same_target t1 t3.
Proof. intros (?&?&?&?) (?&?&?&?). repeat split; congruence. Qed.

Lemma moved_here i t t' s s' : moved i t t' s s' → targets s' !! i = Some t'.
Proof.
  intros Hm. rewrite (mv_targets _ _ _ _ _ Hm). apply list_lookup_insert_eq.
  eapply lookup_lt_Some, (mv_at _ _ _ _ _ Hm).
Qed.

Lemma moved_refl i t s : targets s !! i = Some t → on_time (world s) t → moved i t t s s.
Proof.
  intros Ht Ho. split; try done.
  - by rewrite list_insert_id.
  - exists []. unfold ending. rewrite app_nil_r. by destruct (terminal_outcome t).
Qed.

Lemma ending_trans t1 t2 t3 :
  (terminal_outcome t1 ≠ None → t2 = t1) → (terminal_outcome t2 ≠ None → t3 = t2) →
  ending t1 t3 = ending t1 t2 ++ ending t2 t3.
Proof.
  intros Hf Hg. unfold ending. destruct (terminal_outcome t1) eqn:E1.
  - by rewrite Hf, E1.
  - destruct (terminal_outcome t2) eqn:E2; [|done]. by rewrite (Hg ltac:(done)), E2.
Qed.

Lemma moved_trans i t1 t2 t3 s1 s2 s3 :
  moved i t1 t2 s1 s2 → moved i t2 t3 s2 s3 → moved i t1 t3 s1 s3.
Proof.
  intros [A1 B1 C1 D1 E1 F1 G1 T1 (v1 & V1 & W1 & X1) S1 L1 O1 P1] [A2 B2 C2 D2 E2 F2 G2 T2 (v2 & V2 & W2 & X2) S2 L2 O2 P2].
  split; try congruence; try lia; try done.
  - by rewrite B2, B1, list_insert_insert_eq.
  - by eapply same_target_trans.
  - intros Hn. specialize (T1 Hn). subst t2. auto.
  - exists (v1 ++ v2). rewrite V2, V1, app_assoc. split; [done|].
    rewrite finished_app, W1, W2, X2, X1, <-record_all_app. by rewrite <-(ending_trans t1 t2 t3).
  - auto.
Qed.

(** The status is a function of the statuses of the targets. *)
Lemma len_filter_fmap {A B} (f : A → B) (P : A → Prop) (Q : B → Prop) `{∀ x, Decision (P x), ∀ x, Decision (Q x)} l :
  (∀ x, P x ↔ Q (f x)) → len (filter P l) = len (filter Q (f <$> l)).
Proof.
  intros Hpq. induction l as [|x l IH]; [done|]. rewrite fmap_cons, !filter_cons.
  destruct (decide (P x)), (decide (Q (f x))); rewrite ?len_cons; naive_solver lia.
Qed.

Lemma snapshot_ext s s' :
  target_status <$> targets s = target_status <$> targets s' → control s = control s' → history s = history s' →
  snapshot s = snapshot s'.
Proof.
  intros Ht Hc Hh. unfold snapshot, task_phase, count_lifecycle. rewrite Hc, Hh, Ht.
  assert (∀ l targets, len (filter (λ t, lifecycle (phase t) = l) targets)
    = len (filter (λ st, ManagedTargetStatus.lifecycle st = l) (target_status <$> targets))) as Hl.
  { intros l ts. by apply len_filter_fmap. }
  rewrite !Hl, Ht.
  rewrite !(len_filter_fmap target_status (λ t, is_desired (membership t) = true)
    (λ st, ManagedTargetStatus.desired st = true)) by done.
  by rewrite Ht.
Qed.

(** A silent update: nothing the status shows. *)
Lemma moved_quiet i t t' s :
  targets s !! i = Some t → same_target t t' → target_status t' = target_status t →
  terminal_outcome t = None → on_time (world s) t → on_time (world s) t' →
  moved i t t' s (set_targets (<[i := t']> (targets s)) s).
Proof.
  intros Ht Hsame Hst Hn Ho Ho'.
  assert (terminal_outcome t' = None) as Hn'.
  { unfold target_status in Hst. unfold terminal_outcome in *. destruct (phase t'), (phase t); simplify_eq; done. }
  split; try done.
  - exists []. unfold ending. rewrite Hn, Hn', app_nil_r. done.
  - unfold status_current. cbn -[snapshot]. intros ->. apply snapshot_ext; try done. cbn.
    rewrite list_fmap_insert, Hst. symmetry. apply list_insert_id. by rewrite list_lookup_fmap, Ht.
Qed.

(** The world moves on. *)
Lemma moved_world i t t' s s' w : clock (world s') <= clock w → moved i t t' s s' → moved i t t' s (set_world w s').
Proof.
  intros Hl [? ? ? ? ? ? ? ? ? ? ? ? ?]. split; try done; cbn; [lia|]. by eapply on_time_later.
Qed.
Lemma moved_world_l i t t' s s' w : clock (world s) <= clock w → on_time (world s) t →
  moved i t t' (set_world w s) s' → moved i t t' s s'.
Proof. intros Hl Ho [? ? ? ? ? ? ? ? ? ? Hc ? ?]. split; try done. cbn in Hc. lia. Qed.

(** A phase is announced: the gate is adjusted, the status replaced, the change
    published; nothing else. *)
Record announced (s s' : Task) : Prop := {
  an_targets : targets s' = targets s;
  an_config : config s' = config s;
  an_control : control s' = control s;
  an_history : history s' = history s;
  an_shared : shared s' = shared s;
  an_positions : positions s' = positions s;
  an_status : status_current s';
  an_events : ∃ evs, Published.events (published s') = Published.events (published s) ++ evs ∧ finished evs = [];
  an_clock : clock (world s) <= clock (world s');
}.

Lemma stagger_added_frame now s : ∃ sc, stagger_target_added now s = set_scan sc s ∧ Scan.set_gate None None sc = positions s.
Proof. unfold stagger_target_added. destruct (later_than _ _); eexists; by split. Qed.

Lemma wp_publish_phase i prev t s Φ :
  targets s !! i = Some t → (∀ s', announced s s' → Φ tt s') → wp (publish_target_phase i prev) Φ s.
Proof.
  intros Ht HΦ. unfold publish_target_phase. apply wp_bind. eapply wp_target_at; [done|].
  apply wp_bind, wp_clock. intros now w Hl.
  assert (∀ sc, Scan.set_gate None None sc = positions s →
    wp (_ ← replace_status; publish_event (EvTargetStateChanged (instance t) (lifecycle (phase t)))) Φ
      (set_scan sc (set_world w s))) as Hrest.
  { intros sc Hsc. unfold replace_status, publish_event. apply wp_bind, wp_modify, wp_modify, HΦ.
    split; try done. eexists. split; [done|]. done. }
  assert (∀ f sc, f (set_world w s) = set_scan sc (set_world w s) → Scan.set_gate None None sc = positions s →
    wp (_ ← modify f; _ ← replace_status;
        publish_event (EvTargetStateChanged (instance t) (lifecycle (phase t)))) Φ (set_world w s)) as Hmod.
  { intros f sc Hf Hsc. apply wp_bind, wp_modify. rewrite Hf. by apply Hrest. }
  destruct (is_desired _ && _), (is_paced_active t).
  - by apply (Hrest (scan s)).
  - by eapply Hmod.
  - destruct (stagger_added_frame now (set_world w s)) as (sc & Heq & Hsc). by eapply Hmod.
  - by apply (Hrest (scan s)).
Qed.

(** The target at [i] takes its new, unfinished phase and it is announced. *)
Lemma moved_announced i t t' s s' :
  targets s !! i = Some t → same_target t t' → terminal_outcome t = None → terminal_outcome t' = None →
  on_time (world s) t → on_time (world s) t' →
  announced (set_targets (<[i := t']> (targets s)) s) s' → moved i t t' s s'.
Proof.
  intros Ht Hsame Hn Hn' Ho Ho' [? ? ? ? ? ? ? (evs & Hev & Hf) Hl]. split; try done.
  - exists evs. unfold ending. rewrite Hn, Hn'. done.
  - by eapply on_time_later.
Qed.

Lemma moved_finished i t o s s' w :
  targets s !! i = Some t → terminal_outcome t = None → on_time (world s) t → clock (world s) <= clock w →
  announced (set_targets (<[i := set_phase (PhTerminal o) t]> (targets s))
    (set_history (OutcomeHistory.record o (history s)) (set_world w s))) s' →
  ∀ p, p = Published.mk (Published.status (published s')) (Published.events (published s') ++ [EvTargetFinished o]) →
  moved i t (set_phase (PhTerminal o) t) s (set_published p s').
Proof.
  intros Ht Hn Ho Hw [? ? ? ? ? ? Hst (evs & Hev & Hf) Hl] p ->. split; try done.
  - exists (evs ++ [EvTargetFinished o]). unfold ending. rewrite Hn. cbn. rewrite Hev, <-app_assoc.
    split; [done|]. rewrite finished_app, Hf. done.
  - cbn in *. lia.
Qed.
End moved.
