(* ===== verification/ManagedSpecs.v ===== *)
(** * irtt-client: the operations on a target

    Every operation of ManagedTarget on one target, from a state where the
    target is well formed: it does not panic, it does to the task what [moved]
    says, and the target it leaves is well formed. *)

From S2P Require Import Prelude ProtoBase Envelope ParamsCodec ClientBase ClientNegotiation ClientEvent Machine Client.
From S2P Require Import Timing Schedule ManagedBase ManagedTask ManagedTarget ManagedPacing ManagedLogic.

(** The lifecycle edges of a target, in a driver that keeps it or is stopping it. *)
Definition edge (stopping : bool) (a b : ManagedTargetLifecycle) : bool :=
  if stopping then
    match a, b with
    | LActive, (LDraining | LClosing) | LDraining, (LDraining | LClosing) | LClosing, LClosing => true
    | _, LTerminal => true
    | _, _ => false
    end
  else
    match a, b with
    | LPending, (LPending | LConnecting | LTerminal)
    | LConnecting, (LConnecting | LOpening | LPending | LTerminal)
    | LOpening, (LOpening | LActive | LClosing | LPending | LTerminal)
    | LActive, (LActive | LDraining | LClosing | LPending | LTerminal)
    | LDraining, (LDraining | LClosing | LPending | LTerminal)
    | LClosing, (LClosing | LPending | LTerminal)
    | LTerminal, LTerminal => true
    | _, _ => false
    end.

Section specs.
Context `{Clocks} `{AsyncSessionLaws}.

(** What [build_task] checks of the reconnection delays, and that the client's
    configuration is well typed. *)
Definition settings_ok (config : ManagedClientConfig.t) : Prop :=
  0 < ManagedClientConfig.reconnect_initial_delay config ∧
  2 * ManagedClientConfig.reconnect_initial_delay config <= ManagedClientConfig.reconnect_max_delay config ∧
  ManagedClientConfig.reconnect_max_delay config <= DURATION_MAX ∧
  typed_config (ManagedClientConfig.client config).

Definition phase_wf (t : TargetRuntime) : Prop :=
  match phase t with
  | PhConnecting future => future_ok future
  | PhOpening client open => opening_ok open client
  | PhActive client _ _ | PhClosing client _ _ _ => client_ok client
  | PhDraining client _ _ _ _ remaining => client_ok client ∧ 0 < remaining <= POST_DEADLINE_RECEIVE_BUDGET
  | PhTerminal outcome => ManagedTargetOutcome.target outcome = instance t
  | PhPending client_config => typed_config client_config
  | PhRetrying _ => True
  end.
Record target_wf (config : ManagedClientConfig.t) (t : TargetRuntime) : Prop := {
  wf_phase : phase_wf t;
  wf_delay : ManagedClientConfig.reconnect_initial_delay config <= retry_delay t
             <= ManagedClientConfig.reconnect_max_delay config;
}.

(** Only the phase and the accounting of the target changed, the phase's kind
    did not. *)
Definition reconnects (s : Task) (t : TargetRuntime) : bool :=
  Envelope.is_some (ManagedClientConfig.reconnect_timeout (config s)) &&
  negb (is_stopping (task_phase s)) && is_desired (membership t).

Lemma moved_reconnects i t t' s s' : moved i t t' s s' → reconnects s' t' = reconnects s t.
Proof.
  intros [_ _ Hc Hk _ _ (_ & _ & Hm & _) _ _ _ _ _ _]. unfold reconnects, task_phase. by rewrite Hc, Hk, Hm.
Qed.

Lemma wp_can_reconnect i t s Φ :
  targets s !! i = Some t → Φ (reconnects s t) s → wp (can_reconnect i) Φ s.
Proof. intros Ht HΦ. unfold can_reconnect. apply wp_bind. by eapply wp_target_at. Qed.

Lemma wp_publish_event ev Φ s :
  Φ tt (set_published (Published.mk (Published.status (published s)) (Published.events (published s) ++ [ev])) s) →
  wp (publish_event ev) Φ s.
Proof. done. Qed.

(** A phase put in place over an already updated target, then announced. *)
Lemma wp_install i t t' p s Φ :
  targets s !! i = Some t → on_time (world s) t → terminal_outcome t = None → same_target t t' →
  terminal_outcome (set_phase p t') = None →
  ∀ w, clock (world s) <= clock w → on_time w (set_phase p t') →
  (∀ s', moved i t (set_phase p t') s s' → Φ tt s') →
  wp (install_target_phase i p) Φ (set_targets (<[i := t']> (targets s)) (set_world w s)).
Proof.
  intros Ht Ho Hn Hsame Hn' w Hl Ho' HΦ. pose proof (lookup_lt_Some _ _ _ Ht) as Hlt.
  unfold install_target_phase. apply wp_bind.
  eapply wp_target_at; [by apply list_lookup_insert_eq|].
  apply wp_bind. eapply wp_update; [by apply list_lookup_insert_eq|]. cbn -[publish_target_phase].
  rewrite list_insert_insert_eq.
  eapply wp_publish_phase; [by apply list_lookup_insert_eq|]. intros s' Han. apply HΦ.
  apply (moved_world_l i _ _ s s' w); [done|done|]. apply moved_announced; try done. by eapply on_time_later.
Qed.

(** ** Finishing *)
Lemma wp_finalize i t t' er cf s w Φ :
  targets s !! i = Some t → on_time (world s) t → terminal_outcome t = None → same_target t t' →
  target_status t' = target_status t → phase t' = phase t → clock (world s) <= clock w →
  (∀ s', moved i t (set_phase (PhTerminal (target_outcome er cf t')) t') s s' → Φ tt s') →
  wp (finalize_target i er cf) Φ (set_targets (<[i := t']> (targets s)) (set_world w s)).
Proof.
  intros Ht Ho Hn Hsame Hst Hph Hl HΦ. pose proof (lookup_lt_Some _ _ _ Ht) as Hlt.
  assert (on_time (world s) t') as Ho' by (apply (on_time_client _ t); [by rewrite Hph|done]).
  set (s1 := set_targets (<[i := t']> (targets s)) s).
  assert (moved i t t' s s1) as Hq by by apply moved_quiet.
  pose proof (moved_here _ _ _ _ _ Hq) as Ht1.
  assert (terminal_outcome t' = None) as Hn'.
  { unfold target_status in Hst. unfold terminal_outcome in *. destruct (phase t'), (phase t); simplify_eq; done. }
  unfold finalize_target. apply wp_bind. eapply wp_target_at; [exact Ht1|].
  apply wp_bind, wp_modify, wp_bind. unfold install_target_phase.
  apply wp_bind. eapply wp_target_at; [exact Ht1|].
  apply wp_bind. eapply wp_update; [exact Ht1|].
  eapply wp_publish_phase; [cbn; by apply list_lookup_insert_eq; rewrite length_insert|].
  intros s' Han. apply wp_publish_event, HΦ.
  eapply moved_trans; [exact Hq|]. by eapply (moved_finished i t' _ s1 s' w).
Qed.

(** How [finish_target] leaves the target. *)
Inductive finish_post (s : Task) (er : ManagedTargetEndReason) (cf : option ManagedTargetFailure.t)
    (t : TargetRuntime) : TargetRuntime → Prop :=
  | finish_retry deadline t' :
      reconnects s t = true → retryable er = true → phase t' = PhRetrying deadline →
      retry_delay t' = next_retry_delay (config s) (retry_delay t) → counters t' = counters t →
      sent_before_session t' = TargetCounters.packets_sent (counters t) →
      finish_post s er cf t t'
  | finish_end er' t' :
      (reconnects s t && retryable er = false → er' = er) →
      (er' = er ∨ er' = Failed duration_overflow_failure) →
      phase t' = PhTerminal (target_outcome er' cf t) → retry_delay t' = retry_delay t →
      counters t' = counters t →
      finish_post s er cf t t'.

Lemma wp_finish i t er cf s Φ :
  targets s !! i = Some t → on_time (world s) t → terminal_outcome t = None →
  (∀ t' s', moved i t t' s s' → finish_post s er cf t t' → Φ tt s') →
  wp (finish_target i er cf) Φ s.
Proof.
  intros Ht Ho Hn HΦ. unfold finish_target. apply wp_bind. eapply wp_can_reconnect; [done|].
  assert (∀ t' er' w, same_target t t' → target_status t' = target_status t → counters t' = counters t →
    retry_delay t' = retry_delay t →
    (reconnects s t && retryable er = false → er' = er) →
    (er' = er ∨ er' = Failed duration_overflow_failure) → phase t' = phase t → clock (world s) <= clock w →
    wp (finalize_target i er' cf) Φ (set_targets (<[i := t']> (targets s)) (set_world w s))) as Hfin.
  { intros t' er' w Hsame Hst Hc Hd He He' Hph Hl. apply (wp_finalize i t); try done. intros s' Hm.
    eapply HΦ; [exact Hm|]. destruct Hsame as (Hi & _ & _ & Ha).
    assert (remote t' = remote t) as Hr by (unfold target_status in Hst; by simplify_eq).
    assert (target_outcome er' cf t' = target_outcome er' cf t) as Hout.
    { unfold target_outcome. by rewrite Hi, Ha, Hr, Hc. }
    eapply (finish_end _ _ _ _ er'); cbn; try done; congruence. }
  destruct (reconnects s t && retryable er) eqn:Hre.
  - apply andb_true_iff in Hre as [Hre Hrt]. pose proof (lookup_lt_Some _ _ _ Ht) as Hlt.
    apply wp_bind. eapply wp_target_at; [done|]. apply wp_bind, wp_gets, wp_bind. eapply wp_update; [done|].
    apply wp_bind, wp_clock. intros now w Hl.
    destruct (instant_checked_add now (retry_delay t)) as [deadline|].
    + apply wp_bind. eapply wp_update; [by apply list_lookup_insert_eq|]. cbn -[install_target_phase wp].
      rewrite list_insert_insert_eq.
      apply (wp_install i t _ _ s); try done. intros s' Hm. eapply HΦ; [exact Hm|].
      by eapply finish_retry.
    + by apply Hfin; auto.
  - pose proof (Hfin t er (world s)) as Hf. rewrite list_insert_id in Hf by done. destruct s. apply Hf; try done. by left.
Qed.
(** ** Relative forms

    Specifications of the small steps, from a state already [moved] from the
    start [s0] of the operation. *)
Section from.
Context (i : nat) (t0 : TargetRuntime) (s0 : Task).

Lemma from_event t s ev :
  moved i t0 t s0 s → finished [ev] = [] →
  moved i t0 t s0 (set_published (Published.mk (Published.status (published s))
    (Published.events (published s) ++ [ev])) s).
Proof.
  intros [? ? ? ? ? ? ? ? (evs & Hev & Hf & Hh) ? ? ? ?] Hfin. split; try done.
  exists (evs ++ [ev]). cbn [set_published published Published.events]. rewrite Hev, <-app_assoc. split; [done|].
  rewrite finished_app, Hf, Hfin, app_nil_r. done.
Qed.

Lemma from_quiet t t' s :
  moved i t0 t s0 s → terminal_outcome t = None → same_target t t' → target_status t' = target_status t →
  (on_time (world s) t → on_time (world s) t') →
  moved i t0 t' s0 (set_targets (<[i := t']> (targets s)) s).
Proof.
  intros Hm Hn Hsame Hst Ho. pose proof (mv_after _ _ _ _ _ Hm).
  eapply moved_trans; [exact Hm|]. apply moved_quiet; try done; [|auto]. by eapply moved_here.
Qed.

Lemma from_at t s Φ : moved i t0 t s0 s → Φ t s → wp (target_at i) Φ s.
Proof. intros Hm. apply wp_target_at. by eapply moved_here. Qed.
Lemma from_update t f s Φ :
  moved i t0 t s0 s → terminal_outcome t = None → same_target t (f t) → target_status (f t) = target_status t →
  phase_client (phase (f t)) = phase_client (phase t) →
  (∀ s', moved i t0 (f t) s0 s' → Φ tt s') → wp (update_target i f) Φ s.
Proof.
  intros Hm Hn Hsame Hst Hc HΦ. eapply wp_update; [by eapply moved_here|]. apply HΦ. apply (from_quiet t); try done.
  by apply on_time_client.
Qed.
Lemma from_clock t s Φ : moved i t0 t s0 s → (∀ now s', moved i t0 t s0 s' → Φ now s') → wp read_clock Φ s.
Proof. intros Hm HΦ. apply wp_clock. intros now w Hl. apply HΦ. by apply moved_world. Qed.

Lemma set_client_status c p t : phase t = p → target_status (set_phase (set_client c p) t) = target_status t.
Proof. intros <-. unfold target_status. cbn. by destruct (phase t). Qed.
Lemma client_nonterminal t c : phase_client (phase t) = Some c → terminal_outcome t = None.
Proof. unfold terminal_outcome. by destruct (phase t). Qed.

(** A call of the client, which promises [Q] and moves the world on. *)
Lemma from_client {A} t c (f : AsyncClient → World → A * AsyncClient * World) (Q : A → AsyncClient → Prop) s Φ :
  moved i t0 t s0 s → phase_client (phase t) = Some c →
  (∀ w, fresh (clock w) c →
     Q (f c w).1.1 (f c w).1.2 ∧ clock w <= clock (f c w).2 ∧ fresh (clock (f c w).2) (f c w).1.2) →
  (∀ a c' s', Q a c' → moved i t0 (set_phase (set_client c' (phase t)) t) s0 s' → Φ a s') →
  wp (with_client i f) Φ s.
Proof.
  intros Hm Hc Hf HΦ. eapply wp_with_client; [by eapply moved_here|done|]. intros a c' w' Heq.
  destruct (Hf (world s)) as (HQ & Hl & Ho); [by apply (mv_after _ _ _ _ _ Hm)|]. rewrite Heq in HQ, Hl, Ho. cbn in HQ, Hl, Ho.
  eapply HΦ; [exact HQ|]. apply (from_quiet t _ (set_world w' s)); [by apply moved_world|by eapply client_nonterminal|done| |].
  - by apply set_client_status.
  - intros _ c1. cbn. destruct (phase t); cbn in *; naive_solver.
Qed.

Lemma set_phase_id t : set_phase (phase t) t = t.
Proof. by destruct t. Qed.
Lemma set_client_id c p : phase_client p = Some c → set_client c p = p.
Proof. destruct p; naive_solver. Qed.

Lemma from_client_gets {A} t c (f : AsyncClient → A) s Φ :
  moved i t0 t s0 s → phase_client (phase t) = Some c → (∀ s', moved i t0 t s0 s' → Φ (f c) s') →
  wp (client_gets i f) Φ s.
Proof.
  intros Hm Hc HΦ. apply (from_client t c _ (λ a c', a = f c ∧ c' = c)); [done|done|done|].
  intros a c' s' [-> ->] Hm'. apply HΦ. by rewrite set_client_id, set_phase_id in Hm'.
Qed.

Lemma from_sync t c s Φ :
  moved i t0 t s0 s → phase_client (phase t) = Some c →
  (∀ s', moved i t0 (sync_packets_sent c t) s0 s' → Φ tt s') → wp (sync_live_at i) Φ s.
Proof.
  intros Hm Hc HΦ. unfold sync_live_at. apply wp_bind. eapply from_at; [done|]. apply wp_bind.
  apply wp_option with (sync_packets_sent c t); [unfold sync_live_packets_sent; by rewrite Hc|].
  eapply (from_update t (λ _, sync_packets_sent c t)); try done. by eapply client_nonterminal.
Qed.

(** The target after a list of events of its client. *)
Definition observed (config : ManagedClientConfig.t) (evs : list ClientEvent.t) (t : TargetRuntime) : TargetRuntime :=
  fold_left (λ t event, observe_client_event config event t) evs t.

Lemma observe_frame config ev t :
  same_target t (observe_client_event config ev t) ∧ phase (observe_client_event config ev t) = phase t ∧
  target_status (observe_client_event config ev t) = target_status t.
Proof. by destruct ev. Qed.
Lemma observed_frame config evs t :
  same_target t (observed config evs t) ∧ phase (observed config evs t) = phase t ∧
  target_status (observed config evs t) = target_status t.
Proof.
  revert t. induction evs as [|ev evs IH]; intros t; [done|].
  change (observed config (ev :: evs) t) with (observed config evs (observe_client_event config ev t)).
  destruct (IH (observe_client_event config ev t)) as (Ha & Hb & Hc).
  destruct (observe_frame config ev t) as (Ha' & Hb' & Hc').
  split; [by eapply same_target_trans|]. split; [by rewrite Hb, Hb'|by rewrite Hc, Hc'].
Qed.

Lemma from_events t evs s Φ :
  moved i t0 t s0 s → terminal_outcome t = None →
  (∀ s', moved i t0 (observed (config s) evs t) s0 s' → Φ tt s') → wp (publish_client_events i evs) Φ s.
Proof.
  revert t s. induction evs as [|ev evs IH]; intros t s Hm Hn HΦ; cbn [publish_client_events observed fold_left].
  { by apply wp_ret, HΦ. }
  destruct (observe_frame (config s) ev t) as (Hsame & Hph & Hst).
  assert (terminal_outcome (observe_client_event (config s) ev t) = None) as Hn' by (unfold terminal_outcome; by rewrite Hph).
  apply wp_bind, wp_gets, wp_bind. eapply from_update; [done|done|done|done|by rewrite Hph|]. intros s1 Hm1.
  apply wp_bind. eapply from_at; [done|]. apply wp_bind, wp_publish_event.
  eapply IH; [by apply from_event|done|]. intros s2 Hm2. apply HΦ. cbn [set_published config] in Hm2.
  rewrite (mv_config _ _ _ _ _ Hm1), <-(mv_config _ _ _ _ _ Hm) in Hm2. done.
Qed.

Lemma from_install t p s Φ :
  moved i t0 t s0 s → terminal_outcome t = None → terminal_outcome (set_phase p t) = None →
  (on_time (world s) t → on_time (world s) (set_phase p t)) →
  (∀ s', moved i t0 (set_phase p t) s0 s' → Φ tt s') → wp (install_target_phase i p) Φ s.
Proof.
  intros Hm Hn Hn' Ho HΦ. pose proof (mv_after _ _ _ _ _ Hm) as Hon. pose proof (moved_here _ _ _ _ _ Hm) as Ht.
  pose proof (wp_install i t t p s Φ Ht Hon Hn (same_target_refl t) Hn' (world s) (Z.le_refl _) (Ho Hon)) as Hw.
  assert (∀ s', moved i t (set_phase p t) s s' → Φ tt s') as HΦ'.
  { intros s' Hm'. apply HΦ. by eapply moved_trans. }
  specialize (Hw HΦ'). rewrite list_insert_id in Hw by done. by destruct s.
Qed.

(** A phase set without the announcement, then announced. *)
Lemma from_enter {A} t t' prev s (k : D A) Φ :
  moved i t0 t s0 s → terminal_outcome t = None → same_target t t' → terminal_outcome t' = None →
  phase_client (phase t') = phase_client (phase t) →
  (∀ s', moved i t0 t' s0 s' → wp k Φ s') →
  ∀ f, f t = t' → wp (_ ← update_target i f; _ ← publish_target_phase i prev; k) Φ s.
Proof.
  intros Hm Hn Hsame Hn' Hc HΦ f Hf. pose proof (moved_here _ _ _ _ _ Hm) as Ht. pose proof (mv_after _ _ _ _ _ Hm) as Ho.
  apply wp_bind. eapply wp_update; [done|]. rewrite Hf. apply wp_bind.
  eapply wp_publish_phase; [by eapply list_lookup_insert_eq, lookup_lt_Some|]. intros s' Han. apply HΦ.
  eapply moved_trans; [exact Hm|]. apply moved_announced; try done. by apply (on_time_client _ t).
Qed.

Lemma from_finish t er cf s Φ :
  moved i t0 t s0 s → terminal_outcome t = None →
  (∀ t' s', moved i t0 t' s0 s' → finish_post s0 er cf t t' → Φ tt s') → wp (finish_target i er cf) Φ s.
Proof.
  intros Hm Hn HΦ. eapply wp_finish; [by eapply moved_here|apply Hm|done|]. intros t' s' Hm' Hf.
  eapply HΦ; [by eapply moved_trans|].
  assert (reconnects s t = reconnects s0 t) as Hr.
  { pose proof (mv_config _ _ _ _ _ Hm) as Hc. pose proof (mv_control _ _ _ _ _ Hm) as Hk.
    unfold reconnects, task_phase. by rewrite Hc, Hk. }
  pose proof (mv_config _ _ _ _ _ Hm) as Hc.
  destruct Hf as [deadline t' Hre Hrt Hp Hd Hcs Hb|er' t' Hk Her Hp Hd Hcs].
  - rewrite Hr in Hre. rewrite Hc in Hd. by eapply finish_retry.
  - rewrite Hr in Hk. by eapply finish_end.
Qed.
End from.
End specs.
