(* ===== verification/ManagedPolls.v ===== *)
(** * irtt-client: polls of a target are total

    One poll of a target, in any phase: no panic, the target stays well formed
    and its lifecycle follows [edge]. *)

From S2P Require Import Prelude ProtoBase Envelope ParamsCodec ClientBase ClientNegotiation ClientEvent Machine Client.
From S2P Require Import Timing Schedule ManagedBase ManagedTask ManagedTarget ManagedPacing ManagedLogic ManagedSpecs.

Section polls.
Context `{Clocks} `{AsyncSessionLaws}.

(** [stopping] in [poll_target]. *)
Definition target_stopping (s : Task) (t : TargetRuntime) : bool :=
  is_stopping (task_phase s) || Envelope.is_some (effective_retirement t).

(** How far a target is from its end. *)
Definition rank (p : TargetPhase) : Z :=
  match p with
  | PhTerminal _ => 0
  | PhClosing _ _ _ _ => 1
  | PhDraining _ _ _ _ _ remaining => 1 + remaining
  | _ => 2 + POST_DEADLINE_RECEIVE_BUDGET
  end.
(** Nothing the target still waits for: its deadline is over, no probe is due. *)
Definition expired (now : Z) (p : TargetPhase) : Prop :=
  match p with
  | PhDraining client _ deadline _ _ _ => deadline <= now ∧ due (next_probe_timeout_deadline client) now = false
  | PhClosing _ deadline _ _ => deadline <= now
  | _ => True
  end.

Context (i : nat) (t0 : TargetRuntime) (s0 : Task).
Context (Hwf : target_wf (config s0) t0) (Hdelays : settings_ok (config s0)) (Hon : on_time (world s0) t0).

(** What a poll at [pnow] leaves; a target being stopped that waits for nothing
    comes closer to its end. *)
Definition winds (pnow : Z) (t' : TargetRuntime) : Prop :=
  target_stopping s0 t0 = true → expired pnow (phase t0) → lifecycle (phase t0) ≠ LTerminal →
  rank (phase t') < rank (phase t0).
Definition poll_post (pnow : Z) (s' : Task) : Prop :=
  ∃ t', moved i t0 t' s0 s' ∧ target_wf (config s0) t' ∧
    edge (target_stopping s0 t0) (lifecycle (phase t0)) (lifecycle (phase t')) = true ∧ winds pnow t'.

Context (pnow : Z).

Lemma post_intro t' s' :
  moved i t0 t' s0 s' → target_wf (config s0) t' →
  edge (target_stopping s0 t0) (lifecycle (phase t0)) (lifecycle (phase t')) = true → winds pnow t' → poll_post pnow s'.
Proof. intros. by exists t'. Qed.

Lemma winds_rank t' : rank (phase t') < rank (phase t0) → winds pnow t'.
Proof. by intros ? ? ? ?. Qed.
Lemma winds_kept t' : target_stopping s0 t0 = false → winds pnow t'.
Proof. intros Hs Hs'. congruence. Qed.
Lemma rank_pos : lifecycle (phase t0) ≠ LTerminal → 0 < rank (phase t0).
Proof.
  pose proof (wf_phase _ _ Hwf) as Hw. unfold phase_wf in Hw. unfold rank, POST_DEADLINE_RECEIVE_BUDGET, TARGET_WORK_BUDGET in *.
  destruct (phase t0); cbn; intros; done || lia.
Qed.

Lemma next_delay_ok d :
  ManagedClientConfig.reconnect_initial_delay (config s0) <= d <= ManagedClientConfig.reconnect_max_delay (config s0) →
  ManagedClientConfig.reconnect_initial_delay (config s0) <= next_retry_delay (config s0) d
    <= ManagedClientConfig.reconnect_max_delay (config s0).
Proof. unfold next_retry_delay, settings_ok in *. destruct (Z.leb_spec (2 * d) DURATION_MAX); lia. Qed.

(** ** Ends of a poll *)
Definition delay_ok (t : TargetRuntime) : Prop :=
  ManagedClientConfig.reconnect_initial_delay (config s0) <= retry_delay t
  <= ManagedClientConfig.reconnect_max_delay (config s0).

Lemma observed_delay evs t : delay_ok t → delay_ok (observed (config s0) evs t).
Proof.
  revert t. induction evs as [|ev evs IH]; intros t Ht; [done|]. apply IH. unfold delay_ok, settings_ok in *.
  destruct ev; cbn; lia.
Qed.

Lemma finish_ends s er cf t t' :
  moved i t0 t s0 s → finish_post s0 er cf t t' →
  is_terminal (phase t') = true ∨ target_stopping s0 t0 = false ∧ lifecycle (phase t') = LPending.
Proof.
  intros Hm Hf. destruct Hf as [deadline t' Hr _ Hp _ _ _|er' t' _ _ Hp _ _]; rewrite Hp; [right|by left]. split; [|done].
  pose proof (mv_same _ _ _ _ _ Hm) as (_ & _ & Hmem & _).
  unfold reconnects in Hr. apply andb_true_iff in Hr as [[_ Hs]%andb_true_iff Hdes].
  unfold target_stopping, effective_retirement. rewrite Hmem in Hdes.
  destruct (is_stopping _); [done|]. by destruct (membership t0).
Qed.

Lemma post_finish t er cf a s (Φ : bool → Task → Prop) :
  moved i t0 t s0 s → terminal_outcome t = None → delay_ok t →
  (lifecycle (phase t0) = LTerminal → False) →
  (∀ s', poll_post pnow s' → Φ a s') → wp (_ ← finish_target i er cf; mret a) Φ s.
Proof.
  intros Hm Hn Hd Hl HΦ. apply wp_bind. eapply from_finish; [done|done|]. intros t' s' Hm' Hf.
  apply wp_ret, HΦ. apply (post_intro t'); [done| | |].
  - destruct Hf as [deadline t' _ _ Hp Hd' _ _|er' t' _ _ Hp Hd' _]; split.
    + unfold phase_wf. by rewrite Hp.
    + rewrite Hd'. by apply next_delay_ok.
    + unfold phase_wf. rewrite Hp. cbn. symmetry. pose proof (mv_same _ _ _ _ _ Hm') as (Hi' & _).
      pose proof (mv_same _ _ _ _ _ Hm) as (Hi & _). congruence.
    + rewrite Hd'. done.
  - unfold edge. destruct (finish_ends s er cf t t' Hm Hf) as [Ht' | [-> Ht']]; [destruct (phase t') eqn:Hp; try done|rewrite Ht'];
      destruct (target_stopping s0 t0), (lifecycle (phase t0)); naive_solver.
  - destruct (finish_ends s er cf t t' Hm Hf) as [Ht' | [Hs _]]; [|by apply winds_kept].
    apply winds_rank. pose proof (rank_pos Hl). destruct (phase t'); done || cbn; lia.
Qed.

Definition may_close : Prop :=
  match lifecycle (phase t0) with
  | LActive | LDraining => True
  | LOpening => target_stopping s0 t0 = false
  | _ => False
  end.

Lemma post_close t c pe cf now s (Φ : bool → Task → Prop) :
  moved i t0 t s0 s → phase_client (phase t) = Some c → client_ok c → delay_ok t → may_close →
  (∀ s', poll_post pnow s' → Φ true s') → wp (begin_close i pe cf now) Φ s.
Proof.
  intros Hm Hc Hok Hd Hl HΦ. unfold begin_close. apply wp_bind, wp_gets.
  destruct (match instant_checked_add now _ with Some _ => _ | None => _ end) as [deadline cf'].
  apply wp_bind. eapply from_at; [done|]. apply wp_bind, (wp_option _ c); [done|].
  pose proof (client_nonterminal _ _ Hc) as Hn.
  eapply (from_enter i t0 s0 t (set_phase (PhClosing c deadline pe cf') t)); try done.
  intros s' Hm'. apply wp_ret, HΦ. apply (post_intro (set_phase (PhClosing c deadline pe cf') t)); [done|by split| |].
  - unfold may_close, edge in *. cbn. destruct (target_stopping s0 t0), (lifecycle (phase t0)); naive_solver.
  - pose proof (wf_phase _ _ Hwf) as Hw. unfold may_close, phase_wf in *.
    destruct (phase t0) eqn:Hp0; cbn in Hl; try done; [by apply winds_kept| |]; apply winds_rank; rewrite Hp0; cbn; [done|lia].
Qed.

Lemma post_drain t c pe s (Φ : bool → Task → Prop) :
  moved i t0 t s0 s → phase_client (phase t) = Some c → client_ok c → delay_ok t →
  lifecycle (phase t0) = LActive →
  (∀ s', poll_post pnow s' → Φ true s') → wp (begin_drain i pe) Φ s.
Proof.
  intros Hm Hc Hok Hd Hl HΦ. unfold begin_drain. apply wp_bind. eapply from_clock; [done|].
  intros now s1 Hm1. apply wp_bind. eapply from_at; [done|]. apply wp_bind, (wp_option _ c); [done|].
  apply wp_bind, wp_gets. pose proof (client_nonterminal _ _ Hc) as Hn.
  destruct (drain_deadline _ _ _) as [deadline|].
  - eapply (from_enter i t0 s0 t (set_phase (PhDraining c now deadline pe None POST_DEADLINE_RECEIVE_BUDGET) t)); try done.
    intros s' Hm'. apply wp_ret, HΦ. eapply post_intro; [done|by split| |].
    + rewrite Hl. by destruct (target_stopping s0 t0).
    + apply winds_rank. destruct (phase t0) eqn:Hp0; done || (rewrite Hp0; done).
  - eapply post_close; try done. unfold may_close. by rewrite Hl.
Qed.

Lemma set_client_client c c' p : phase_client p = Some c → phase_client (set_client c' p) = Some c'.
Proof. by destruct p. Qed.

(** The client a poll may fail on, in the phase that still shows it. *)
Definition failing_client (t : TargetRuntime) (c : AsyncClient) (cleanup : OpenSessionFailureCleanup) : Prop :=
  match phase t with
  | PhActive c' _ _ => c' = c ∧ lifecycle (phase t0) = LActive
  | PhOpening c' _ => c' = c ∧ cleanup = CleanupClose
  | _ => False
  end.

Lemma discard_later c w : fresh (clock w) c →
  discard_prepared_probe c = discard_prepared_probe c ∧ clock w <= clock w ∧ fresh (clock w) (discard_prepared_probe c).
Proof. intros Ho. split; [done|]. split; [done|]. by apply discard_fresh. Qed.

Lemma post_failure t c p err now cleanup s (Φ : bool → Task → Prop) :
  moved i t0 t s0 s → failing_client t c cleanup → client_ok c → delay_ok t → may_close →
  (∀ s', poll_post pnow s' → Φ true s') → wp (begin_open_session_failure i p err now cleanup) Φ s.
Proof.
  intros Hm Hfc Hok Hd Hl HΦ. unfold begin_open_session_failure. apply wp_bind. eapply from_at; [done|].
  assert (phase_client (phase t) = Some c) as Hc by (unfold failing_client in Hfc; destruct (phase t); naive_solver).
  assert (∀ Ψ, Ψ tt s →
    wp (match phase t return D unit with PhOpening _ _ | PhActive _ _ _ => mret tt | _ => panic end) Ψ s) as Hmatch.
  { intros Ψ HΨ. unfold failing_client in Hfc. by destruct (phase t). }
  apply wp_bind, Hmatch, wp_bind. apply (from_client i t0 s0 t c _ (λ _ c', c' = discard_prepared_probe c)); [done|done|by apply discard_later|].
  intros a c' s1 -> Hm1.
  set (t1 := set_phase (set_client (discard_prepared_probe c) (phase t)) t) in *.
  assert (phase_client (phase t1) = Some (discard_prepared_probe c)) as Hc1 by exact (set_client_client _ _ _ Hc).
  pose proof (discard_ok c Hok) as Hok1.
  apply wp_bind. eapply from_sync; [exact Hm1|exact Hc1|]. intros s2 Hm2.
  set (t2 := sync_packets_sent _ t1) in *.
  apply wp_bind. eapply wp_can_reconnect; [by eapply moved_here|].
  apply wp_if; intros _; [by eapply (post_close t2)|].
  destruct cleanup; [|by eapply (post_close t2)].
  eapply (post_drain t2); try done. clear -Hfc. unfold failing_client in Hfc. destruct (phase t); naive_solver.
Qed.

(** ** Polls by phase *)
Lemma wf_delay_ok : delay_ok t0.
Proof. apply Hwf. Qed.

Lemma kept_terminal : lifecycle (phase t0) = LTerminal → terminal_outcome t0 = None → False.
Proof. unfold terminal_outcome. by destruct (phase t0). Qed.

Lemma edge_stay : target_stopping s0 t0 = false → ∀ l, lifecycle (phase t0) = l → edge (target_stopping s0 t0) l l = true.
Proof. intros -> l _. by destruct l. Qed.

Lemma post_stay t s : moved i t0 t s0 s → phase_wf t → delay_ok t → lifecycle (phase t) = lifecycle (phase t0) →
  target_stopping s0 t0 = false ∨ lifecycle (phase t0) = LDraining ∨ lifecycle (phase t0) = LClosing → winds pnow t →
  poll_post pnow s.
Proof.
  intros Hm Hw Hd Hl Hs Hwd. apply (post_intro t); [done|by split| |done]. rewrite Hl.
  destruct Hs as [-> | [-> | ->]]; [by destruct (lifecycle (phase t0))| |]; by destruct (target_stopping s0 t0).
Qed.

Lemma wp_start_connecting cc s Φ :
  phase t0 = PhPending cc → target_stopping s0 t0 = false → moved i t0 t0 s0 s →
  (∀ s', poll_post pnow s' → Φ true s') → wp (_ ← start_connecting i; mret true) Φ s.
Proof.
  intros Hp Hs Hm HΦ. apply wp_bind. unfold start_connecting. apply wp_bind. eapply from_at; [done|].
  rewrite Hp. set (t1 := set_phase (PhConnecting (connect_future (server_addr t0) cc)) t0).
  assert (terminal_outcome t0 = None) as Hn by (unfold terminal_outcome; by rewrite Hp).
  assert (wp (_ ← update_target i (set_phase (PhConnecting (connect_future (server_addr t0) cc)));
              _ ← publish_target_phase i LPending; mret tt) (λ _ s', wp (mret true) Φ s') s) as Hw.
  { eapply (from_enter i t0 s0 t0 t1); try done; [by rewrite Hp|]. intros s' Hm'. apply wp_ret, wp_ret, HΦ.
    apply (post_intro t1); [done| |by rewrite Hp, Hs|by apply winds_kept]. split; [|apply Hwf]. apply connect_future_ok.
    pose proof (wf_phase _ _ Hwf) as Hw. unfold phase_wf in Hw. by rewrite Hp in Hw. }
  revert Hw. unfold wp, mbind, D_bind. destruct (update_target _ _ s) as [[[] s1]|]; [|done].
  by destruct (publish_target_phase _ _ s1) as [[[] s2]|].
Qed.

Lemma wp_poll_connecting f s Φ :
  phase t0 = PhConnecting f → target_stopping s0 t0 = false → moved i t0 t0 s0 s →
  (∀ a s', poll_post pnow s' → Φ a s') → wp (poll_connecting i f) Φ s.
Proof.
  intros Hp Hs Hm HΦ. unfold poll_connecting. apply wp_bind, wp_gets.
  assert (future_ok f) as Hf by (pose proof (wf_phase _ _ Hwf) as Hw; unfold phase_wf in Hw; by rewrite Hp in Hw).
  pose proof (poll_connect_ok f (world s) Hf) as Hlaw. destruct (poll_connect f (world s)) as [[result f'] w].
  destruct Hlaw as [Hlater Hlaw]. cbn in Hlater.
  apply wp_bind, wp_modify, wp_bind.
  assert (terminal_outcome t0 = None) as Hn by (unfold terminal_outcome; by rewrite Hp).
  assert (lifecycle (phase t0) = LConnecting) as Hl by by rewrite Hp.
  set (t1 := set_phase (PhConnecting f') t0) in *. pose proof (moved_world i t0 t0 s0 s w Hlater Hm) as Hmw.
  pose proof (from_quiet i t0 s0 t0 t1 (set_world w s) Hmw Hn (same_target_refl _)) as Hm1.
  specialize (Hm1 ltac:(unfold target_status; cbn; by rewrite Hp) ltac:(intros _; by apply on_time_none)).
  eapply wp_update; [by eapply moved_here|]. set (s1 := set_targets _ _) in *.
  destruct result as [|[client|error|]]; [| |  |done].
  - apply wp_ret, HΦ. apply (post_stay t1); [done|done|apply Hwf|by rewrite Hl|by left|by apply winds_kept].
  - pose proof (moved_here _ _ _ _ _ Hm1) as Ht1.
    apply wp_bind. eapply wp_update; [done|]. apply wp_bind.
    destruct Hlaw as [Hop Hfr].
    eapply (wp_install i t1 (set_remote (Some (remote_addr client)) t1) _ s1) with (w := world s1); try done;
      [by intros c [= <-]|].
    intros s2 Hm2. apply wp_ret, HΦ. eapply post_intro; [by eapply moved_trans| |by rewrite Hl, Hs|by apply winds_kept].
    split; [done|apply Hwf].
  - unfold fail_target. eapply (post_finish t1); try done; [apply Hwf|by rewrite Hl|]. intros s' Hpost. by apply HΦ.
Qed.

(** A client operation with its open state, both written back. *)
Lemma from_open {A} t c o (f : AsyncClient → World → (A * AsyncOpenState) * AsyncClient * World)
    (Q : A * AsyncOpenState → AsyncClient → Prop) {B} (k : A → D B) s Φ :
  phase t = PhOpening c o → moved i t0 t s0 s →
  (∀ w, fresh (clock w) c →
     Q (f c w).1.1 (f c w).1.2 ∧ clock w <= clock (f c w).2 ∧ fresh (clock (f c w).2) (f c w).1.2) →
  (∀ a o' c' s', Q (a, o') c' → moved i t0 (set_phase (PhOpening c' o') t) s0 s' → wp (k a) Φ s') →
  wp ('(a, o') ← with_client i f; _ ← update_target i (set_open o'); k a) Φ s.
Proof.
  intros Hp Hm Hf HΦ. apply wp_bind. eapply from_client; [exact Hm|by rewrite Hp|exact Hf|].
  intros [a o'] c' s1 HQ Hm1. rewrite Hp in Hm1. cbn [set_client] in Hm1.
  apply wp_bind. eapply from_update; [exact Hm1|done|done|done|done|]. intros s2 Hm2. by eapply HΦ.
Qed.

Lemma opening_wf c o : phase t0 = PhOpening c o → opening_ok o c.
Proof. intros Hp. pose proof (wf_phase _ _ Hwf) as Hw. unfold phase_wf in Hw. by rewrite Hp in Hw. Qed.

Lemma wp_cancel_opening c o er s Φ :
  phase t0 = PhOpening c o → moved i t0 t0 s0 s → (∀ s', poll_post pnow s' → Φ false s') → wp (cancel_opening i o er) Φ s.
Proof.
  intros Hp Hm HΦ. unfold cancel_opening.
  eapply (from_open _ _ _ _ (λ _ _, True)); [exact Hp|exact Hm| |].
  { intros w Ho. pose proof (cancel_open_later o c w (opening_wf c o Hp)) as Hl.
    destruct (cancel_open o c w) as [[error o'] w']. split; [done|]. split; [done|]. by eapply fresh_later. }
  intros a o' c' s1 _ Hm1. apply wp_bind. eapply from_sync; [exact Hm1|done|]. intros s2 Hm2.
  eapply post_finish; [exact Hm2|done|apply Hwf|by rewrite Hp|done].
Qed.

(** What [poll_open] promises with its result. *)
Definition opened (result : Poll (CResult OpenOutcome)) (o : AsyncOpenState) (c : AsyncClient) : Prop :=
  match result with
  | Pending => opening_ok o c
  | Ready (Ok _) => client_ok c
  | Ready (Err _) => True
  | Ready Panic => False
  end.

Lemma wp_poll_opening c o now s Φ :
  phase t0 = PhOpening c o → target_stopping s0 t0 = false → moved i t0 t0 s0 s →
  (∀ a s', poll_post pnow s' → Φ a s') → wp (poll_opening i o now) Φ s.
Proof.
  intros Hp Hs Hm HΦ. pose proof (opening_wf c o Hp) as Hok. unfold poll_opening.
  assert (lifecycle (phase t0) = LOpening) as Hl by by rewrite Hp.
  eapply (from_open _ _ _ _ (λ '(result, o'), opened result o')); [exact Hp|exact Hm| |].
  { intros w Ho. pose proof (poll_open_ok o c Hok w Ho) as Hlaw. by destruct (poll_open o c w) as [[[result o'] c'] w']. }
  intros result o' c' s1 Hlaw Hm1.
  set (t1 := set_phase (PhOpening c' o') t0) in *.
  destruct result as [|[[started|completed]|error|]]; [| | | |done].
  - apply wp_ret, HΦ. apply (post_stay t1); [done|done|apply Hwf|by rewrite Hl|by left|by apply winds_kept].
  - destruct (schedule_new _ _) as [schedule|error|] eqn:Hsch; cbn [wp].
    + apply wp_bind. eapply from_events; [exact Hm1|done|]. intros s2 Hm2.
      rewrite (mv_config _ _ _ _ _ Hm1) in Hm2.
      destruct (observed_frame (config s0) [ClientEvent.SessionStarted started] t1) as (Hsame & Hph & Hst).
      set (t2 := observed (config s0) _ t1) in *. apply wp_bind. eapply from_at; [exact Hm2|].
      assert (terminal_outcome t2 = None) as Hn2 by (unfold terminal_outcome; by rewrite Hph).
      apply wp_bind, (wp_option _ c'); [by rewrite Hph|].
      eapply (from_enter i t0 s0 t2 (set_phase (PhActive c' schedule false) t2)); try done.
      intros s3 Hm3. apply wp_ret, HΦ. eapply post_intro; [exact Hm3| |by rewrite Hl, Hs|by apply winds_kept].
      split; [done|]. by apply (observed_delay _ t1), Hwf.
    + eapply (post_failure t1 c'); [exact Hm1|done|done|apply Hwf|unfold may_close; by rewrite Hl|auto].
    + exfalso. revert Hsch. unfold schedule_new. destruct (AcceptedSessionParameters.duration _); [|done].
      by destruct (instant_checked_add _ _).
  - apply wp_bind. eapply from_events; [exact Hm1|done|]. intros s2 Hm2.
    rewrite (mv_config _ _ _ _ _ Hm1) in Hm2.
    eapply post_finish; [exact Hm2|done|by apply (observed_delay _ t1), Hwf|by rewrite Hl|auto].
  - unfold fail_target. eapply (post_finish t1); [exact Hm1|done|apply Hwf|by rewrite Hl|auto].
Qed.

(** ** The established phases *)
(** Receiving: the client is written back and its events are observed. *)
Lemma from_receive t c s Φ :
  moved i t0 t s0 s → phase_client (phase t) = Some c → client_ok c →
  (∀ a evs c' s', client_ok c' →
    moved i t0 (observed (config s0) evs (set_phase (set_client c' (phase t)) t)) s0 s' → Φ a s') →
  wp (receive_events i) Φ s.
Proof.
  intros Hm Hc Hok HΦ. unfold receive_events. apply wp_bind. eapply (from_client _ _ _ _ _ _ (λ r c', r ≠ Ready Panic ∧ client_ok c')); [exact Hm|exact Hc|exact (poll_recv_ok c Hok)|].
  intros result c' s1 [Hnp Hok'] Hm1.
  set (t1 := set_phase (set_client c' (phase t)) t) in *.
  assert (terminal_outcome t1 = None) as Hn by by exact (client_nonterminal t1 c' (set_client_client _ _ _ Hc)).
  destruct result as [|[evs|error|]]; [| | |done].
  - apply wp_ret. by apply (HΦ _ [] c').
  - apply wp_bind. eapply from_events; [exact Hm1|exact Hn|]. intros s2 Hm2. apply wp_ret.
    rewrite (mv_config _ _ _ _ _ Hm1) in Hm2. by apply (HΦ _ evs c').
  - apply wp_ret. by apply (HΦ _ [] c').
Qed.

Lemma wp_stop_active c sch sw er now s Φ :
  phase t0 = PhActive c sch sw → moved i t0 t0 s0 s → (∀ a s', poll_post pnow s' → Φ a s') →
  wp (stop_active i er now) Φ s.
Proof.
  intros Hp Hm HΦ. pose proof (wf_phase _ _ Hwf) as Hok. unfold phase_wf in Hok. rewrite Hp in Hok.
  assert (lifecycle (phase t0) = LActive) as Hl by by rewrite Hp.
  unfold stop_active. apply wp_bind. apply (from_client i t0 s0 t0 c _ (λ _ c', c' = discard_prepared_probe c)); [exact Hm|by rewrite Hp|by apply discard_later|].
  intros a c' s1 -> Hm1. pose proof (discard_ok c Hok) as Hok1. rewrite Hp in Hm1. cbn [set_client] in Hm1.
  apply wp_bind. eapply from_sync; [exact Hm1|done|]. intros s2 Hm2. apply wp_bind, wp_gets. apply wp_if; intros _.
  - eapply post_close; [exact Hm2|done|done|apply Hwf|unfold may_close; by rewrite Hl|auto].
  - eapply post_drain; [exact Hm2|done|done|apply Hwf|done|auto].
Qed.

Lemma wp_poll_active c sch sw now s Φ :
  phase t0 = PhActive c sch sw → target_stopping s0 t0 = false → moved i t0 t0 s0 s →
  (∀ a s', poll_post pnow s' → Φ a s') → wp (poll_active i now) Φ s.
Proof.
  intros Hp Hs Hm HΦ. pose proof (wf_phase _ _ Hwf) as Hok. unfold phase_wf in Hok. rewrite Hp in Hok.
  assert (lifecycle (phase t0) = LActive) as Hl by by rewrite Hp.
  assert (may_close) as Hmc by (unfold may_close; by rewrite Hl).
  unfold poll_active. apply wp_bind. eapply from_client_gets; [exact Hm|by rewrite Hp|]. intros s1 Hm1.
  apply wp_if; intros _.
  { apply wp_ret, HΦ. apply (post_stay t0); [done|apply Hwf|apply Hwf|done|by left|by apply winds_kept]. }
  apply wp_bind. eapply from_receive; [exact Hm1|by rewrite Hp|done|].
  intros [received error] evs c' s2 Hok' Hm2. rewrite Hp in Hm2. cbn [set_client] in Hm2.
  set (t1 := set_phase (PhActive c' sch sw) t0) in *.
  destruct (observed_frame (config s0) evs t1) as (Hsame & Hph & Hst).
  pose proof (observed_delay evs t1 wf_delay_ok) as Hd. set (t2 := observed (config s0) evs t1) in *.
  assert (phase t2 = PhActive c' sch sw) as Hp2 by done. clearbody t2.
  assert (phase_client (phase t2) = Some c') as Hc2 by by rewrite Hp2.
  destruct error as [error|].
  { eapply (post_failure t2 c'); try done; [unfold failing_client; by rewrite Hp2|auto]. }
  apply wp_bind. eapply from_client_gets; [exact Hm2|exact Hc2|]. intros s3 Hm3.
  apply wp_if; intros _.
  { apply wp_bind. eapply from_sync; [exact Hm3|exact Hc2|]. intros s4 Hm4.
    eapply post_finish; [exact Hm4|by eapply client_nonterminal|done|by rewrite Hl|auto]. }
  apply wp_bind. eapply from_at; [exact Hm3|]. apply wp_bind, wp_gets. apply wp_if; intros _.
  { apply wp_bind. eapply from_sync; [exact Hm3|exact Hc2|]. intros s4 Hm4.
    eapply (post_close _ c'); [exact Hm4|done|done|done|done|auto]. }
  rewrite Hp2. set (t3 := set_phase (PhActive c' (permit_probe_at now sch).2 sw) t2).
  apply wp_bind. eapply (from_update i t0 s0 t2); [exact Hm3|by eapply client_nonterminal|done|unfold target_status; cbn; by rewrite Hp2|by cbn; rewrite ?Hp2|].
  intros s4 Hm4. apply wp_if; intros _.
  - apply wp_bind. eapply from_sync; [exact Hm4|done|]. intros s5 Hm5.
    eapply post_drain; [exact Hm5|done|done|done|done|auto].
  - apply wp_ret, HΦ. apply (post_stay t3); [done|done|done|by rewrite Hl|by left|by apply winds_kept].
Qed.

(** *** Draining *)
Definition draining_at (t : TargetRuntime) (c : AsyncClient) : Prop :=
  ∃ started deadline pe cf r, phase t = PhDraining c started deadline pe cf r ∧ 0 < r <= POST_DEADLINE_RECEIVE_BUDGET.
(** The drain of [t] began no later, and has no more receptions left, than the
    target's at the start of the poll. *)
Definition shortened (t : TargetRuntime) : Prop :=
  match phase t0, phase t with
  | PhDraining _ _ deadline0 _ _ r0, PhDraining _ _ deadline _ _ r => deadline <= deadline0 ∧ r = r0
  | _, _ => False
  end.

Lemma draining_client t c : draining_at t c → phase_client (phase t) = Some c.
Proof. by intros (? & ? & ? & ? & ? & -> & _). Qed.

Lemma wp_fail_drain t c p err now s Φ :
  moved i t0 t s0 s → draining_at t c → client_ok c → delay_ok t → may_close →
  (∀ s', poll_post pnow s' → Φ true s') → wp (fail_drain i p err now) Φ s.
Proof.
  intros Hm Hdr Hok Hd Hmc HΦ. pose proof (draining_client _ _ Hdr) as Hc.
  unfold fail_drain. apply wp_bind. eapply from_sync; [exact Hm|exact Hc|]. intros s1 Hm1.
  apply wp_bind. eapply from_at; [exact Hm1|]. destruct Hdr as (st & dl & pe & cf & r & Hp & Hr). cbn. rewrite Hp.
  apply wp_bind. eapply from_update; [exact Hm1|by eapply client_nonterminal|done|unfold target_status; cbn; by rewrite Hp|by cbn; rewrite ?Hp|].
  intros s2 Hm2. by eapply (post_close _ c).
Qed.

(** A drain that goes on is still draining, with the same client. *)
Lemma wp_shorten_drain t c now s Φ :
  moved i t0 t s0 s → draining_at t c → client_ok c → delay_ok t → may_close →
  (∀ t' s', moved i t0 t' s0 s' → draining_at t' c → delay_ok t' → (shortened t → shortened t') → Φ true s') →
  (∀ s', poll_post pnow s' → Φ false s') → wp (shorten_drain i now) Φ s.
Proof.
  intros Hm Hdr Hok Hd Hmc Hgo Hend. pose proof (draining_client _ _ Hdr) as Hc.
  pose proof (client_nonterminal _ _ Hc) as Hn.
  unfold shorten_drain. apply wp_bind. eapply from_at; [exact Hm|]. apply wp_bind, wp_gets.
  destruct Hdr as (st & dl & pe & cf & r & Hp & Hr). rewrite Hp.
  destruct (drain_deadline _ _ _) as [candidate|]; apply wp_bind;
    (eapply from_update; [exact Hm|exact Hn|done|unfold target_status; cbn; by rewrite Hp|by cbn; rewrite ?Hp|]); intros s1 Hm1.
  - apply wp_ret. eapply Hgo; [exact Hm1|by exists st, (Z.min dl candidate), pe, cf, r|done|].
    unfold shortened. rewrite Hp. cbn. destruct (phase t0); try done. intros [? ?]. split; [lia|done].
  - apply wp_bind. by eapply (post_close _ c).
Qed.

Lemma wp_end_drain t c received now s Φ :
  moved i t0 t s0 s → draining_at t c → client_ok c → delay_ok t → shortened t → now = pnow →
  (∀ a s', poll_post pnow s' → Φ a s') → wp (end_drain i received now) Φ s.
Proof.
  intros Hm Hdr Hok Hd Hsh -> HΦ.
  assert (lifecycle (phase t0) = LDraining) as Hl by (unfold shortened in Hsh; by destruct (phase t0)). pose proof (draining_client _ _ Hdr) as Hc.
  pose proof (client_nonterminal _ _ Hc) as Hn.
  assert (may_close) as Hmc by (unfold may_close; by rewrite Hl).
  unfold end_drain. apply wp_bind. eapply from_at; [exact Hm|].
  destruct Hdr as (st & dl & pe & cf & r & Hp & Hr). rewrite Hp. apply wp_if; intros Hdl.
  - apply wp_if; intros Hb; [|by eapply (post_close t c); eauto].
    apply wp_bind. eapply from_update; [exact Hm|exact Hn|done|unfold target_status; cbn; by rewrite Hp|by cbn; rewrite ?Hp|].
    intros s1 Hm1. apply wp_ret, HΦ.
    apply (post_stay (set_phase (PhDraining c st dl pe cf (r - 1)) t)); [exact Hm1| |done|by rewrite Hl|by auto|].
    + split; [done|]. lia.
    + apply winds_rank. unfold shortened in Hsh. rewrite Hp in Hsh. destruct (phase t0); try done. destruct Hsh as [_ ->]. cbn. lia.
  - apply wp_ret, HΦ. apply (post_stay t); [exact Hm| |done|by rewrite Hp, Hl|by auto|].
    + unfold phase_wf. by rewrite Hp.
    + intros _ Hex _. exfalso. unfold shortened, expired in *. rewrite Hp in Hsh. destruct (phase t0); try done. lia.
Qed.

Lemma wp_poll_draining c st dl pe cf r now s Φ :
  now = pnow → phase t0 = PhDraining c st dl pe cf r → moved i t0 t0 s0 s →
  (∀ a s', poll_post pnow s' → Φ a s') → wp (poll_draining i now) Φ s.
Proof.
  intros -> Hp Hm HΦ. pose proof (wf_phase _ _ Hwf) as Hok. unfold phase_wf in Hok. rewrite Hp in Hok.
  destruct Hok as [Hok Hr]. assert (lifecycle (phase t0) = LDraining) as Hl by by rewrite Hp.
  assert (may_close) as Hmc by (unfold may_close; by rewrite Hl).
  unfold poll_draining. apply wp_bind. eapply from_client_gets; [exact Hm|by rewrite Hp|]. intros s1 Hm1.
  apply wp_if; intros Hdue.
  { apply wp_ret, HΦ. apply (post_stay t0); [done|apply Hwf|apply Hwf|done|by auto|].
    intros _ Hex _. exfalso. unfold expired in Hex. rewrite Hp in Hex. destruct Hex. congruence. }
  apply wp_bind. eapply from_receive; [exact Hm1|by rewrite Hp|done|].
  intros [received error] evs c' s2 Hok' Hm2. rewrite Hp in Hm2. cbn [set_client] in Hm2.
  set (t1 := set_phase (PhDraining c' st dl pe cf r) t0) in *.
  destruct (observed_frame (config s0) evs t1) as (Hsame & Hph & Hst).
  pose proof (observed_delay evs t1 wf_delay_ok) as Hd. set (t2 := observed (config s0) evs t1) in *.
  assert (phase t2 = PhDraining c' st dl pe cf r) as Hp2 by done. clearbody t2.
  assert (draining_at t2 c') as Hdr by by exists st, dl, pe, cf, r.
  assert (shortened t2) as Hsh by (unfold shortened; by rewrite Hp, Hp2).
  pose proof (draining_client _ _ Hdr) as Hc2.
  destruct error as [error|]; [by eapply wp_fail_drain; eauto|].
  apply wp_bind. eapply from_client_gets; [exact Hm2|exact Hc2|]. intros s3 Hm3. apply wp_if; intros _.
  { apply wp_bind. eapply from_sync; [exact Hm3|exact Hc2|]. intros s4 Hm4. apply wp_bind.
    eapply from_at; [exact Hm4|]. cbn. rewrite Hp2.
    eapply post_finish; [exact Hm4|by eapply (client_nonterminal t2)|done|by rewrite Hl|auto]. }
  apply wp_bind. apply wp_if; intros _.
  - eapply (wp_shorten_drain t2 c'); try done.
    + intros t3 s4 Hm4 Hdr4 Hd4 Hsh4. eapply (wp_end_drain t3 c'); auto.
    + intros s4 Hpost. by apply wp_ret, HΦ.
  - apply wp_ret. by eapply (wp_end_drain t2 c').
Qed.

(** *** Closing *)
Lemma wp_poll_closing c dl pe cf now s Φ :
  now = pnow → phase t0 = PhClosing c dl pe cf → moved i t0 t0 s0 s →
  (∀ a s', poll_post pnow s' → Φ a s') → wp (poll_closing i now) Φ s.
Proof.
  intros -> Hp Hm HΦ. pose proof (wf_phase _ _ Hwf) as Hok. unfold phase_wf in Hok. rewrite Hp in Hok.
  assert (lifecycle (phase t0) = LClosing) as Hl by by rewrite Hp.
  unfold poll_closing. apply wp_bind. eapply (from_client _ _ _ _ _ _ (λ r c', r ≠ Ready Panic ∧ client_ok c')); [exact Hm|by rewrite Hp|exact (poll_close_ok c Hok)|].
  intros result c' s1 [Hnp Hok'] Hm1. rewrite Hp in Hm1. cbn [set_client] in Hm1.
  set (t1 := set_phase (PhClosing c' dl pe cf) t0) in *.
  apply wp_bind. eapply from_at; [exact Hm1|]. cbn [phase set_phase t1].
  assert (∀ (er : ManagedTargetEndReason) cf', wp (_ ← sync_live_at i; _ ← finish_target i er cf'; mret false) Φ s1) as Hfin.
  { intros er cf'. apply wp_bind. eapply from_sync; [exact Hm1|done|]. intros s2 Hm2.
    eapply post_finish; [exact Hm2|done|apply Hwf|by rewrite Hl|auto]. }
  destruct result as [|[evs|error|]]; [| | |done].
  - apply wp_if; intros Hdl; [apply Hfin|].
    apply wp_ret, HΦ. apply (post_stay t1); [done|done|apply Hwf|by rewrite Hl|by auto|].
    intros _ Hex _. exfalso. rewrite Hp in Hex. cbn in Hex. lia.
  - apply wp_bind. eapply from_sync; [exact Hm1|done|]. intros s2 Hm2.
    apply wp_bind. eapply from_events; [exact Hm2|done|]. intros s3 Hm3.
    rewrite (mv_config _ _ _ _ _ Hm2) in Hm3. set (t2 := sync_packets_sent c' t1) in *.
    destruct (observed_frame (config s0) evs t2) as (Hsame & Hph & Hst).
    eapply post_finish; [exact Hm3|unfold terminal_outcome; by rewrite Hph|by apply (observed_delay _ t2), Hwf|by rewrite Hl|auto].
  - apply Hfin.
Qed.

(** ** One poll *)
Lemma wp_poll_target now Φ :
  now = pnow → targets s0 !! i = Some t0 → (∀ a s', poll_post pnow s' → Φ a s') → wp (poll_target i now) Φ s0.
Proof.
  intros -> Ht HΦ. pose proof (moved_refl i t0 s0 Ht Hon) as Hm. unfold poll_target.
  apply wp_bind. eapply from_at; [exact Hm|]. apply wp_bind, wp_gets.
  change (is_stopping (task_phase s0) || Envelope.is_some (effective_retirement t0)) with (target_stopping s0 t0).
  destruct (phase t0) as [deadline|cc|future|c o|c sch sw|c st dl pe cf r|c dl pe cf|o] eqn:Hp.
  - assert (terminal_outcome t0 = None) as Hn by (unfold terminal_outcome; by rewrite Hp).
    apply wp_if; intros Hs; [eapply post_finish; [exact Hm|done|apply Hwf|by rewrite Hp|auto]|].
    apply wp_if; intros _.
    + apply wp_bind, wp_gets, wp_bind. eapply from_install; [exact Hm|done|done|by intros _; apply on_time_none|]. intros s' Hm'.
      apply wp_ret, HΦ. eapply post_intro; [exact Hm'| |by rewrite Hp, Hs|by apply winds_kept].
      split; [by apply typed_for, Hdelays|apply Hwf].
    + apply wp_ret, HΦ. apply (post_stay t0); [done|apply Hwf|apply Hwf|done|by left|by apply winds_kept].
  - assert (terminal_outcome t0 = None) as Hn by (unfold terminal_outcome; by rewrite Hp).
    apply wp_if; intros Hs; [eapply post_finish; [exact Hm|done|apply Hwf|by rewrite Hp|auto]|].
    eapply wp_start_connecting; [exact Hp|exact Hs|exact Hm|auto].
  - assert (terminal_outcome t0 = None) as Hn by (unfold terminal_outcome; by rewrite Hp).
    apply wp_if; intros Hs; [eapply post_finish; [exact Hm|done|apply Hwf|by rewrite Hp|auto]|].
    eapply wp_poll_connecting; [exact Hp|exact Hs|exact Hm|auto].
  - apply wp_if; intros Hs; [eapply wp_cancel_opening|eapply wp_poll_opening]; eauto.
  - apply wp_if; intros Hs; [eapply wp_stop_active|eapply wp_poll_active]; eauto.
  - eapply wp_poll_draining; eauto.
  - eapply wp_poll_closing; eauto.
  - apply wp_ret, HΦ. apply (post_intro t0); [done|done| |intros _ _ Hn; by rewrite Hp in Hn].
    rewrite Hp. by destruct (target_stopping s0 t0).
Qed.

(** ** Sends *)
(** What a send or a timeout does: as a poll, or the lifecycle stays. *)
Definition touch_post (s' : Task) : Prop :=
  ∃ t', moved i t0 t' s0 s' ∧ target_wf (config s0) t' ∧
    (lifecycle (phase t') = lifecycle (phase t0) ∨
     edge (target_stopping s0 t0) (lifecycle (phase t0)) (lifecycle (phase t')) = true).

Lemma poll_touch s : poll_post pnow s → touch_post s.
Proof. intros (t' & ? & ? & ? & _). exists t'. auto. Qed.
Lemma touch_stay t s : moved i t0 t s0 s → phase_wf t → delay_ok t → lifecycle (phase t) = lifecycle (phase t0) → touch_post s.
Proof. intros. exists t. split; [done|]. split; [by split|]. by left. Qed.

Lemma from_gate t s gate last :
  moved i t0 t s0 s → moved i t0 t s0 (set_scan (Scan.set_gate gate last (scan s)) s).
Proof. by intros []. Qed.
Lemma from_record t s r spacing at_ :
  moved i t0 t s0 s → moved i t0 t s0 (record_stagger_acceptance r spacing at_ s).
Proof.
  intros Hm. unfold record_stagger_acceptance. destruct (result_accepted r), spacing; try done. by apply from_gate.
Qed.

(** The target, still active with client [c]. *)
Definition active_at (t : TargetRuntime) (c : AsyncClient) : Prop :=
  ∃ sch sw, phase t = PhActive c sch sw.

Lemma skip_no_panic now sch : skip_missed_slots_at now sch ≠ Panic.
Proof.
  unfold skip_missed_slots_at, preflight_managed_commit, advance_cadence, duration_from_nanos, ok_or.
  destruct (next_send_at sch); [|done]. destruct (_ <=? _); [|done]. destruct (_ =? 0); [done|].
  repeat (case_match || cbn); done.
Qed.
Lemma preflight_no_panic d now sch : preflight_managed_commit d now sch ≠ Panic.
Proof.
  unfold preflight_managed_commit, advance_cadence, duration_from_nanos, ok_or. destruct (_ =? 0); [done|].
  repeat (case_match || cbn); done.
Qed.

Lemma wp_commit_send t c sch cm spacing result s Φ :
  moved i t0 t s0 s → active_at t c → delay_ok t →
  (∀ err t' s', moved i t0 t' s0 s' → active_at t' c → delay_ok t' → Φ err s') →
  wp (commit_send i sch cm spacing result) Φ s.
Proof.
  intros Hm (sch0 & sw0 & Hp) Hd HΦ. unfold commit_send.
  apply wp_bind. eapply from_clock; [exact Hm|]. intros now s1 Hm1. apply wp_bind, wp_modify.
  apply (from_record _ _ (send_result_of result) spacing now) in Hm1.
  set (s2 := record_stagger_acceptance _ _ _ s1) in *. clearbody s2.
  assert (∀ sch' err s', moved i t0 t s0 s' →
    wp (_ ← update_target i (λ target, match phase target with
          | PhActive client _ _ =>
              let target := sync_packets_sent client target in
              let target := if match result with Pending => true | _ => false end
                            then set_liveness None None (retry_delay target) target else target in
              set_phase (PhActive client sch' match result with Pending => true | _ => false end) target
          | _ => target end); mret err) Φ s') as Hend.
  { intros sch' err s' Hm'. apply wp_bind. eapply (from_update i t0 s0 t); [exact Hm'|unfold terminal_outcome; by rewrite Hp| | | |];
      rewrite Hp; [by destruct result|unfold target_status; rewrite Hp; by destruct result|by destruct result|].
    intros s3 Hm3. apply wp_ret. eapply HΦ; [exact Hm3| |by destruct result]. by eexists _, _. }
  apply wp_bind. destruct (Envelope.is_some (receipt_of result)); [|by apply wp_ret, Hend].
  apply wp_bind. eapply from_clock; [exact Hm1|]. intros after s3 Hm3.
  pose proof (skip_no_panic after (commit cm sch)). destruct (skip_missed_slots_at _ _); [| |done]; by apply wp_ret, Hend.
Qed.

Lemma wp_submit_probe t c sch cm now spacing s Φ :
  moved i t0 t s0 s → active_at t c → client_ok c → delay_ok t → lifecycle (phase t0) = LActive →
  (∀ a s', touch_post s' → Φ a s') → wp (submit_probe i sch cm now spacing) Φ s.
Proof.
  intros Hm (sch0 & sw0 & Hp) Hok Hd Hl HΦ. unfold submit_probe.
  assert (may_close) as Hmc by (unfold may_close; by rewrite Hl).
  apply wp_bind. eapply (from_client _ _ _ _ _ _ (λ r c', r ≠ Ready Panic ∧ client_ok c')); [exact Hm|by rewrite Hp|exact (poll_send_probe_ok c Hok)|].
  intros result c' s1 [Hnp Hok'] Hm1.
  apply wp_bind. eapply wp_commit_send; [exact Hm1|rewrite Hp; by eexists _, _|done|].
  intros err t2 s2 Hm2 (sch2 & sw2 & Hp2) Hd2.
  assert (∀ evs (k : D SendResult), (∀ t' s', moved i t0 t' s0 s' → active_at t' c' → delay_ok t' → wp k Φ s') →
    wp (_ ← publish_client_events i evs; k) Φ s2) as Hpub.
  { intros evs k Hk. apply wp_bind. eapply from_events; [exact Hm2|unfold terminal_outcome; by rewrite Hp2|].
    intros s3 Hm3. rewrite (mv_config _ _ _ _ _ Hm2) in Hm3.
    destruct (observed_frame (config s0) evs t2) as (_ & Hph & _).
    eapply Hk; [exact Hm3|eexists _, _; by rewrite Hph|by apply observed_delay]. }
  assert (∀ t' s' error p r, moved i t0 t' s0 s' → active_at t' c' → delay_ok t' →
    wp (_ ← begin_open_session_failure i p error now CleanupDrain; mret r) Φ s') as Hfail.
  { intros t' s' error p r Hm' (sch' & sw' & Hp') Hd'. apply wp_bind.
    eapply (post_failure t' c'); try done; [unfold failing_client; by rewrite Hp'|].
    intros s4 Hpost. apply wp_ret, HΦ. by apply poll_touch. }
  destruct result as [|[receipt|error|]]; [| | |done].
  - apply wp_ret, HΦ. apply (touch_stay t2); [done|unfold phase_wf; by rewrite Hp2|done|by rewrite Hp2].
  - apply Hpub. intros t' s' Hm' Hact Hd'. destruct err; [by eapply Hfail|].
    destruct Hact as (sch' & sw' & Hp'). apply wp_ret, HΦ.
    apply (touch_stay t'); [done|unfold phase_wf; by rewrite Hp'|done|by rewrite Hp'].
  - apply Hpub. intros t' s' Hm' Hact Hd'. by eapply Hfail.
Qed.

Lemma wp_poll_one_send now spacing Φ :
  targets s0 !! i = Some t0 → (∀ a s', touch_post s' → Φ a s') → wp (poll_one_send i now spacing) Φ s0.
Proof.
  intros Ht HΦ. pose proof (moved_refl i t0 s0 Ht Hon) as Hm. unfold poll_one_send.
  apply wp_bind. eapply from_at; [exact Hm|].
  assert (∀ s, moved i t0 t0 s0 s → touch_post s) as Hsame by (intros s' Hm'; eapply touch_stay; [done|apply Hwf|apply Hwf|done]).
  destruct (phase t0) as [deadline|cc|future|c o|c sch sw|c st dl pe cf r|c dl pe cf|o] eqn:Hp;
    try (by apply wp_ret, HΦ, Hsame).
  assert (lifecycle (phase t0) = LActive) as Hl by by rewrite Hp.
  pose proof (wf_phase _ _ Hwf) as Hok. unfold phase_wf in Hok. rewrite Hp in Hok.
  assert (terminal_outcome t0 = None) as Hn by (unfold terminal_outcome; by rewrite Hp).
  assert (∀ sch' sw' f s, moved i t0 t0 s0 s → f t0 = set_phase (PhActive c sch' sw') t0 →
    wp (_ ← update_target i f; mret NotAttempted) Φ s) as Hidle.
  { intros sch' sw' f s Hm' Hf. apply wp_bind.
    eapply (from_update i t0 s0 t0); [exact Hm'|exact Hn|by rewrite Hf|rewrite Hf; unfold target_status; cbn; by rewrite Hp|rewrite Hf; by rewrite Hp|].
    rewrite Hf. intros s1 Hm1. apply wp_ret, HΦ.
    apply (touch_stay (set_phase (PhActive c sch' sw') t0)); [done|done|apply Hwf|by rewrite Hp]. }
  apply wp_if; intros _; [by eapply Hidle|].
  apply wp_bind. eapply from_clock; [exact Hm|]. intros fresh s1 Hm1.
  apply wp_if; intros _; [by eapply Hidle|].
  destruct (permit_probe_at _ sch) as [permitted sch1].
  apply wp_if; intros _.
  { destruct (has_pending_probes c).
    - by eapply Hidle.
    - apply wp_bind. set (t1 := set_phase (PhActive c sch1 false) (sync_packets_sent c t0)).
      eapply (from_update i t0 s0 t0); [exact Hm1|exact Hn|done|unfold target_status; cbn; by rewrite Hp|by cbn; rewrite ?Hp|].
      intros s2 Hm2. apply wp_bind. eapply post_drain; [exact Hm2|done|done|apply Hwf|done|].
      intros s3 Hpost. apply wp_ret, HΦ. by apply poll_touch. }
  destruct (next_send_deadline sch1) as [deadline|]; [|by eapply Hidle].
  apply wp_if; intros _; [by eapply Hidle|].
  pose proof (preflight_no_panic deadline (Z.max now fresh) sch1).
  destruct (preflight_managed_commit _ _ _) as [cm|error|]; [| |done].
  - eapply wp_submit_probe; [exact Hm1|by exists sch, sw|done|apply Hwf|done|done].
  - apply wp_bind. eapply (post_failure t0 c); [exact Hm1|unfold failing_client; by rewrite Hp|done|apply Hwf|unfold may_close; by rewrite Hl|].
    intros s2 Hpost. apply wp_ret, HΦ. by apply poll_touch.
Qed.

(** ** Timeouts *)
Lemma from_expire t c now s Φ :
  moved i t0 t s0 s → phase_client (phase t) = Some c → client_ok c →
  (∀ a evs c' s', client_ok c' →
    moved i t0 (observed (config s0) evs (set_phase (set_client c' (phase t)) t)) s0 s' → Φ a s') →
  wp (expire_events i now) Φ s.
Proof.
  intros Hm Hc Hok HΦ. unfold expire_events. apply wp_bind. eapply (from_client _ _ _ _ _ _ (λ r c', r ≠ Panic ∧ client_ok c')); [exact Hm|exact Hc|exact (poll_timeouts_ok now 1 c Hok ltac:(done))|].
  intros result c' s1 [Hnp Hok'] Hm1. set (t1 := set_phase (set_client c' (phase t)) t) in *.
  assert (terminal_outcome t1 = None) as Hn by by exact (client_nonterminal t1 c' (set_client_client _ _ _ Hc)).
  destruct result as [[evs more]|error|]; [| |done].
  - apply wp_bind. eapply from_events; [exact Hm1|exact Hn|]. intros s2 Hm2. apply wp_ret.
    rewrite (mv_config _ _ _ _ _ Hm1) in Hm2. by apply (HΦ _ evs c').
  - apply wp_ret. by apply (HΦ _ [] c').
Qed.

Lemma wp_poll_target_timeout now Φ :
  targets s0 !! i = Some t0 → (∀ a s', touch_post s' → Φ a s') → wp (poll_target_timeout i now) Φ s0.
Proof.
  intros Ht HΦ. pose proof (moved_refl i t0 s0 Ht Hon) as Hm. unfold poll_target_timeout.
  apply wp_bind. eapply from_at; [exact Hm|].
  assert (∀ s, moved i t0 t0 s0 s → touch_post s) as Hsame by (intros s' Hm'; eapply touch_stay; [done|apply Hwf|apply Hwf|done]).
  pose proof (wf_phase _ _ Hwf) as Hw. unfold phase_wf in Hw.
  destruct (phase t0) as [deadline|cc|future|c o|c sch sw|c st dl pe cf r|c dl pe cf|o] eqn:Hp;
    try (by apply wp_ret, HΦ, Hsame); apply wp_bind.
  - assert (lifecycle (phase t0) = LActive) as Hl by by rewrite Hp.
    eapply from_expire; [exact Hm|by rewrite Hp|exact Hw|]. intros result evs c' s1 Hok' Hm1.
    rewrite Hp in Hm1. cbn [set_client] in Hm1. set (t1 := set_phase (PhActive c' sch sw) t0) in *.
    destruct (observed_frame (config s0) evs t1) as (_ & Hph & _).
    pose proof (observed_delay evs t1 wf_delay_ok) as Hd. set (t2 := observed (config s0) evs t1) in *.
    assert (phase t2 = PhActive c' sch sw) as Hp2 by done. clearbody t2. destruct result as [more|error].
    + apply wp_ret, HΦ. apply (touch_stay t2); [done|unfold phase_wf; by rewrite Hp2|done|by rewrite Hp2].
    + apply wp_bind. eapply (post_failure t2 c'); try done; [unfold failing_client; by rewrite Hp2|unfold may_close; by rewrite Hl|].
      intros s2 Hpost. by apply wp_ret, HΦ, poll_touch.
  - assert (lifecycle (phase t0) = LDraining) as Hl by by rewrite Hp.
    assert (may_close) as Hmc by (unfold may_close; by rewrite Hl). destruct Hw as [Hok Hr].
    eapply from_expire; [exact Hm|by rewrite Hp|exact Hok|]. intros result evs c' s1 Hok' Hm1.
    rewrite Hp in Hm1. cbn [set_client] in Hm1. set (t1 := set_phase (PhDraining c' st dl pe cf r) t0) in *.
    destruct (observed_frame (config s0) evs t1) as (_ & Hph & _).
    pose proof (observed_delay evs t1 wf_delay_ok) as Hd. set (t2 := observed (config s0) evs t1) in *.
    assert (phase t2 = PhDraining c' st dl pe cf r) as Hp2 by done. clearbody t2.
    assert (draining_at t2 c') as Hdr by by exists st, dl, pe, cf, r. destruct result as [more|error]; apply wp_bind.
    + eapply (wp_shorten_drain t2 c'); try done.
      * intros t3 s2 Hm2 (st' & dl' & pe' & cf' & r' & Hp3 & Hr3) Hd3 _. apply wp_ret, HΦ.
        apply (touch_stay t3); [done|unfold phase_wf; by rewrite Hp3|done|by rewrite Hp3].
      * intros s2 Hpost. by apply wp_ret, HΦ, poll_touch.
    + eapply (wp_fail_drain t2 c'); try done. intros s2 Hpost. by apply wp_ret, HΦ, poll_touch.
Qed.
End polls.
