(* ===== verification/ManagedInv.v ===== *)
(** * irtt-client: the invariant of the managed driver

    [driver_ok] and its preservation by every pass over the targets, with what a
    pass leaves alone ([evolves]). *)

From S2P Require Import Prelude ProtoBase Envelope ParamsCodec ClientBase ClientNegotiation ClientEvent Machine Client.
From S2P Require Import Timing Schedule ManagedBase ManagedTask ManagedTarget ManagedPacing ManagedUpdate Managed ManagedLogic ManagedSpecs.
From S2P Require Import ManagedPolls.

(** A chain of pointwise related lists. *)
Lemma Forall2_chain {A} (P Q R : A → A → Prop) l1 l2 l3 :
  (∀ x y z, P x y → Q y z → R x z) → Forall2 P l1 l2 → Forall2 Q l2 l3 → Forall2 R l1 l3.
Proof.
  intros Hc Hp. revert l3. induction Hp as [|x y l1 l2 Hxy Hl IH]; intros l3 Hq; inversion_clear Hq; constructor; eauto.
Qed.

Section inv.
Context `{Clocks} `{AsyncSessionLaws}.

(** ** Generations *)
Definition outcome_generation (o : ManagedTargetOutcome.t) : Z :=
  TargetInstance.generation (ManagedTargetOutcome.target o).
Definition live_generation (t : TargetRuntime) : option Z :=
  match phase t with PhTerminal _ => None | _ => Some (TargetInstance.generation (instance t)) end.
(** The generations allocated and not finished. *)
Definition live_generations (s : Task) : list Z := omap live_generation (targets s).
Definition all_finished (s : Task) : list ManagedTargetOutcome.t := finished (Published.events (published s)).
Definition desired_ids (targets : list TargetRuntime) : list TargetId :=
  omap (λ t, if is_desired (membership t) then Some (TargetInstance.id (instance t)) else None) targets.

(** The sequence numbers of the applied commands. *)
Definition applied_sequences (s : Shared.t) : list Z :=
  omap (λ c, match c.2 with Ok ack => Some (ManagedCommandAcknowledgement.sequence ack) | _ => None end)
    (Shared.acknowledged s).

(** ** The invariant *)
Definition in_range (n c : Z) : Prop := 0 <= c ∧ (c < n ∨ c = 0).
Record scan_ok (n : Z) (sc : Scan.t) : Prop := {
  sc_cursor : in_range n (Scan.cursor sc);
  sc_timeout : in_range n (Scan.timeout_cursor sc);
  sc_send : in_range n (Scan.send_cursor sc);
  sc_scan : 0 <= Scan.scan_remaining sc <= n;
  sc_burst : 0 <= Scan.burst_remaining sc <= n;
  sc_stagger : 0 <= Scan.stagger_remaining sc <= n;
  sc_backlog : len (Scan.timeout_backlog sc) <= TIMEOUT_WORK_BUDGET;
}.

(** What the passes over the targets rely on and keep. *)
Record targets_ok (s : Task) : Prop := {
  d_delays : settings_ok (config s);
  d_wf : Forall (target_wf (config s)) (targets s);
  d_scan : scan_ok (len (targets s)) (scan s);
  d_status : status_current s;
  d_history : history s = record_all (all_finished s)
    (OutcomeHistory.new (ManagedClientConfig.outcome_history_limit (config s)));
  d_generations : (outcome_generation <$> all_finished s) ++ live_generations s
    ≡ₚ seqZ 1 (Control.next_generation (control s) - 1);
  d_on_time : Forall (on_time (world s)) (targets s);
}.

Record driver_ok (s : Task) : Prop := {
  d_targets : targets_ok s;
  d_next : 1 <= Control.next_generation (control s) <= U64_MAX;
  d_live : len (targets s) <= ManagedClientConfig.max_live_target_generations (config s);
  d_config_ids : Forall (λ t, ManagedTargetConfig.id (target_config t) = TargetInstance.id (instance t)) (targets s);
  d_ids : NoDup (desired_ids (targets s));
  d_acks : applied_sequences (shared s) = seqZ 1 (Control.applied_command_sequence (control s));
  d_applied : 0 <= Control.applied_command_sequence (control s) <= U64_MAX;
}.

(** ** What a pass leaves alone *)
(** A target that is being stopped only winds down. *)
Definition winding (a b : ManagedTargetLifecycle) : bool := bool_decide (b = a) || edge true a b.

Record target_evolves (s : Task) (t t' : TargetRuntime) : Prop := {
  te_same : same_target t t';
  te_terminal : terminal_outcome t ≠ None → t' = t;
  te_winding : target_stopping s t = true → winding (lifecycle (phase t)) (lifecycle (phase t')) = true;
}.
Record evolves (s s' : Task) : Prop := {
  ev_config : config s' = config s;
  ev_control : control s' = control s;
  ev_shared : shared s' = shared s;
  ev_targets : Forall2 (target_evolves s) (targets s) (targets s');
  ev_events : ∃ evs, Published.events (published s') = Published.events (published s) ++ evs;
  ev_clock : clock (world s) <= clock (world s');
}.

Lemma winding_refl a : winding a a = true.
Proof. unfold winding. by rewrite bool_decide_eq_true_2. Qed.
Lemma winding_trans a b c : winding a b = true → winding b c = true → winding a c = true.
Proof. by destruct a, b, c. Qed.

Lemma evolves_refl s : evolves s s.
Proof.
  split; try done; [|exists []; by rewrite app_nil_r].
  apply Forall_Forall2_diag, Forall_forall. intros t _. split; [done|done|]. intros _. apply winding_refl.
Qed.

Lemma evolves_stopping s s' t t' :
  evolves s s' → same_target t t' → target_stopping s' t' = target_stopping s t.
Proof.
  intros [_ Hc _ _ _ _] (_ & _ & Hm & _). unfold target_stopping, task_phase, effective_retirement. by rewrite Hc, Hm.
Qed.

Lemma evolves_trans s1 s2 s3 : evolves s1 s2 → evolves s2 s3 → evolves s1 s3.
Proof.
  intros He1 He2. pose proof He1 as [A1 B1 C1 D1 (v1 & E1) L1]. pose proof He2 as [A2 B2 C2 D2 (v2 & E2) L2].
  split; try congruence; try lia; [|exists (v1 ++ v2); by rewrite E2, E1, app_assoc].
  eapply Forall2_chain; [|exact D1|exact D2]. intros t1 t2 t3 [S1 T1 W1] [S2 T2 W2]. split.
  - by eapply same_target_trans.
  - intros Hn. specialize (T1 Hn). subst t2. auto.
  - intros Hs. eapply winding_trans; [by apply W1|]. apply W2. by rewrite (evolves_stopping s1 s2 t1 t2).
Qed.

Lemma touch_evolves i t s s' : targets s !! i = Some t → touch_post i t s s' → evolves s s'.
Proof.
  intros Ht (t' & Hm & _ & Hedge). pose proof Hm as [_ Htg Hc Hk Hs _ Hsame Hterm (evs & Hev & _) _ Hl _ _].
  split; [done|done|done| |by exists evs|done].
  rewrite Htg, <-(list_insert_id (targets s) i t Ht) at 1. apply Forall2_insert; [apply ev_targets, evolves_refl|].
  split; [done|done|]. intros Hst. unfold winding. destruct Hedge as [->|Hedge]; [by rewrite bool_decide_eq_true_2|].
  rewrite Hst in Hedge. by rewrite Hedge, orb_true_r.
Qed.

(** ** The invariant over one target *)
Lemma live_generation_terminal t :
  live_generation t = match terminal_outcome t with Some _ => None | None => Some (TargetInstance.generation (instance t)) end.
Proof. unfold live_generation, terminal_outcome. by destruct (phase t). Qed.

Lemma generations_step i t t' s s' :
  moved i t t' s s' → phase_wf t' →
  (outcome_generation <$> all_finished s) ++ live_generations s
    ≡ₚ (outcome_generation <$> all_finished s') ++ live_generations s'.
Proof.
  intros [Ht Htg _ _ _ _ (Hi & _) Hterm (evs & Hev & Hfin & _) _ _ _ _] Hwf.
  pose proof (lookup_lt_Some _ _ _ Ht) as Hlt.
  unfold all_finished, live_generations. rewrite Hev, finished_app, Hfin, Htg.
  rewrite insert_take_drop by done. rewrite <-(take_drop_middle (targets s) i t Ht) at 1.
  rewrite !omap_app, fmap_app, <-!app_assoc. apply Permutation_app_head.
  change (t :: drop (S i) (targets s)) with ([t] ++ drop (S i) (targets s)).
  change (t' :: drop (S i) (targets s)) with ([t'] ++ drop (S i) (targets s)). rewrite !omap_app.
  assert (omap live_generation [t] = (outcome_generation <$> ending t t') ++ omap live_generation [t']) as ->.
  { cbn. rewrite !live_generation_terminal. unfold ending, phase_wf in *. destruct (terminal_outcome t) as [o|] eqn:Et.
    - rewrite (Hterm ltac:(done)), Et. done.
    - unfold terminal_outcome in *. destruct (phase t'); cbn; try (by rewrite Hi). unfold outcome_generation. by rewrite Hwf, Hi. }
  rewrite <-!app_assoc. apply Permutation_app_swap_app.
Qed.

Lemma touch_ok i t s s' :
  targets s !! i = Some t → touch_post i t s s' → targets_ok s → targets_ok s'.
Proof.
  intros Ht (t' & Hm & Hwf & _) [Hd Hw Hsc Hst Hh Hg Hon]. pose proof Hm as [_ Htg Hc Hk Hs Hp Hsame Hterm (evs & Hev & Hfin & Hhist) Hstat Hl _ Ho'].
  assert (len (targets s') = len (targets s)) as Hlen by (unfold len; by rewrite Htg, length_insert).
  split.
  - by rewrite Hc.
  - rewrite Hc, Htg. by apply Forall_insert.
  - rewrite Hlen. unfold positions, Scan.set_gate in Hp. injection Hp as ? ? ? ? ? ? ?. destruct Hsc. split; congruence.
  - auto.
  - rewrite Hhist, Hh, Hc. unfold all_finished. rewrite Hev, finished_app, Hfin, record_all_app. done.
  - rewrite <-(generations_step _ _ _ _ _ Hm (wf_phase _ _ Hwf)), Hk. done.
  - rewrite Htg. apply Forall_insert; [|done]. eapply Forall_impl; [exact Hon|]. intros t1. by apply on_time_later.
Qed.

(** ** Passes *)
(** A pass over the targets: total, [targets_ok] again, nothing else touched. *)
Definition pass {A} (m : D A) : Prop :=
  ∀ s Φ, targets_ok s → (∀ a s', targets_ok s' → evolves s s' → Φ a s') → wp m Φ s.

Lemma pass_bind {A B} (m : D A) (k : A → D B) : pass m → (∀ a, pass (k a)) → pass (m ≫= k).
Proof.
  intros Hm Hk s Φ Hs HΦ. apply wp_bind, Hm; [done|]. intros a s1 Hs1 E1. apply Hk; [done|]. intros b s2 Hs2 E2.
  apply HΦ; [done|]. by eapply evolves_trans.
Qed.
Lemma pass_ret {A} (a : A) : pass (mret a).
Proof. intros s Φ Hs HΦ. apply wp_ret, HΦ; [done|apply evolves_refl]. Qed.
Lemma pass_gets {A} (f : Task → A) : pass (gets f).
Proof. intros s Φ Hs HΦ. apply wp_gets, HΦ; [done|apply evolves_refl]. Qed.
Lemma pass_clock : pass read_clock.
Proof.
  intros s Φ [? ? ? ? ? ? Hon] HΦ. apply wp_clock. intros now w Hl. apply HΦ.
  { split; try done. eapply Forall_impl; [exact Hon|]. intros t1. by apply on_time_later. }
  split; try done; [apply (ev_targets _ _ (evolves_refl s))|exists []; by rewrite app_nil_r].
Qed.

(** A new scan position. *)
Lemma evolves_scan sc s : evolves s (set_scan sc s).
Proof. split; try done; [apply (ev_targets _ _ (evolves_refl s))|exists []; by rewrite app_nil_r]. Qed.
Lemma targets_ok_scan sc s : targets_ok s → scan_ok (len (targets s)) sc → targets_ok (set_scan sc s).
Proof. intros [] Hsc. by split. Qed.
Lemma evolves_len s s' : evolves s s' → len (targets s') = len (targets s).
Proof. intros He. unfold len. by rewrite <-(Forall2_length _ _ _ (ev_targets _ _ He)). Qed.

Lemma in_range_mod n c : 0 < n → in_range n (c mod n).
Proof. intros Hn. pose proof (Z.mod_pos_bound c n Hn). split; [lia|by left; lia]. Qed.
Lemma in_range_lookup n c (s : Task) :
  in_range n c → n = len (targets s) → 0 < n → ∃ t, targets s !! Z.to_nat c = Some t.
Proof. intros Hc -> Hn. apply lookup_lt_is_Some_2. unfold in_range, len in *. lia. Qed.

(** An operation on the target at [i]. *)
Definition on_target {A} (i : nat) (m : D A) : Prop :=
  ∀ s t Φ, targets_ok s → targets s !! i = Some t →
    (∀ a s', targets_ok s' → evolves s s' → positions s' = positions s → Φ a s') → wp m Φ s.

Lemma on_target_touch {A} i (m : D A) :
  (∀ t s, target_wf (config s) t → settings_ok (config s) → on_time (world s) t → targets s !! i = Some t →
    ∀ Φ : A → Task → Prop, (∀ a s', touch_post i t s s' → Φ a s') → wp m Φ s) → on_target i m.
Proof.
  intros Hm s t Φ Hs Ht HΦ. eapply Hm; [|apply Hs| |done|].
  - eapply Forall_lookup_1; [apply (d_wf _ Hs)|done].
  - eapply Forall_lookup_1; [apply (d_on_time _ Hs)|done].
  - intros a s' Hpost. apply HΦ; [by eapply touch_ok|by eapply touch_evolves|].
    destruct Hpost as (t' & Hm' & _). apply Hm'.
Qed.

Lemma poll_target_on i now : on_target i (poll_target i now).
Proof.
  apply on_target_touch. intros t s Hwf Hd Hon Ht Φ HΦ. eapply (wp_poll_target _ _ _ Hwf Hd Hon now); [done|done|].
  intros a s' Hpost. by eapply HΦ, poll_touch.
Qed.
Lemma poll_one_send_on i now spacing : on_target i (poll_one_send i now spacing).
Proof. apply on_target_touch. intros t s Hwf Hd Hon Ht Φ HΦ. by eapply (wp_poll_one_send _ _ _ Hwf Hd Hon 0). Qed.
Lemma poll_target_timeout_on i now : on_target i (poll_target_timeout i now).
Proof. apply on_target_touch. intros t s Hwf Hd Hon Ht Φ HΦ. by eapply (wp_poll_target_timeout _ _ _ Hwf Hd Hon 0). Qed.

Lemma positions_fields s s' : positions s' = positions s →
  Scan.scan_remaining (scan s') = Scan.scan_remaining (scan s) ∧
  Scan.burst_remaining (scan s') = Scan.burst_remaining (scan s) ∧
  Scan.stagger_remaining (scan s') = Scan.stagger_remaining (scan s) ∧
  Scan.timeout_backlog (scan s') = Scan.timeout_backlog (scan s).
Proof. unfold positions, Scan.set_gate. by intros [= ? ? ? ? ? ? ?]. Qed.

(** A scan position changes first, then the rest of the pass. *)
Lemma wp_scan {A} (f : Task → Scan.t) (k : D A) s Φ :
  targets_ok s → scan_ok (len (targets s)) (f s) →
  (∀ s', targets_ok s' → evolves s s' → scan s' = f s → targets s' = targets s → wp k Φ s') →
  wp (_ ← modify (λ s, set_scan (f s) s); k) Φ s.
Proof.
  intros Hs Hsc HΦ. apply wp_bind, wp_modify, HΦ; [by apply targets_ok_scan|apply evolves_scan|done|done].
Qed.

Ltac scan_solve :=
  match goal with Hs : targets_ok _ |- _ => destruct (d_scan _ Hs); split; cbn;
    try done; try (apply in_range_mod; lia);
    repeat match goal with |- context [if ?b then _ else _] => destruct b end; try lia end.

(** *** The scan over the targets *)
Lemma target_loop_pass work now s Φ :
  targets_ok s → 0 < len (targets s) → Z.of_nat work <= Scan.scan_remaining (scan s) →
  (∀ a s', targets_ok s' → evolves s s' → Φ a s') → wp (target_loop work now) Φ s.
Proof.
  revert s Φ. induction work as [|work IH]; intros s Φ Hs Hn Hw HΦ; cbn [target_loop].
  { apply wp_ret, HΦ; [done|apply evolves_refl]. }
  apply wp_bind, wp_gets. destruct (Z.eqb_spec (len (targets s)) 0); [lia|]. apply wp_bind, wp_gets.
  apply (wp_scan (λ _, _)); [done|scan_solve|]. intros s1 Hs1 E1 Hsc1 Ht1.
  destruct (in_range_lookup (len (targets s)) (Scan.cursor (scan s) mod len (targets s)) s1) as [t Ht];
    [by apply in_range_mod|by rewrite Ht1|done|].
  apply wp_bind. eapply poll_target_on; [exact Hs1|exact Ht|]. intros a s2 Hs2 E2 Hp2.
  destruct (positions_fields _ _ Hp2) as (Hr & _). rewrite Hsc1 in Hr. cbn in Hr.
  apply wp_bind. apply IH; [done|by rewrite (evolves_len _ _ E2), Ht1|lia|].
  intros b s3 Hs3 E3. apply wp_ret, HΦ; [done|]. eapply evolves_trans; [exact E1|]. by eapply evolves_trans.
Qed.

Lemma poll_target_pass_ok now : pass (poll_target_pass now).
Proof.
  intros s Φ Hs HΦ. unfold poll_target_pass. apply wp_bind, wp_gets.
  pose proof (len_nonneg (targets s)). destruct (Z.eqb_spec (len (targets s)) 0).
  { apply wp_ret, HΦ; [done|apply evolves_refl]. }
  apply (wp_scan (λ s0, Scan.set_target (Scan.cursor (scan s0))
    (if Scan.scan_remaining (scan s0) =? 0 then len (targets s) else Scan.scan_remaining (scan s0)) (scan s0)));
    [done|scan_solve|].
  intros s1 Hs1 E1 Hsc1 Ht1. apply wp_bind, wp_gets, wp_bind.
  destruct (d_scan _ Hs1). apply target_loop_pass; [done|rewrite Ht1; lia|lia|].
  intros a s2 Hs2 E2. apply wp_gets, HΦ; [done|]. by eapply evolves_trans.
Qed.

(** *** Sends *)
Lemma wp_next_send burst stagger {A} (k : nat → D A) s Φ :
  targets_ok s → 0 < len (targets s) →
  0 <= burst (Scan.burst_remaining (scan s)) <= len (targets s) →
  0 <= stagger (Scan.stagger_remaining (scan s)) <= len (targets s) →
  (∀ i t s', targets_ok s' → evolves s s' → targets s' = targets s → targets s' !! i = Some t →
    Scan.burst_remaining (scan s') = burst (Scan.burst_remaining (scan s)) →
    Scan.stagger_remaining (scan s') = stagger (Scan.stagger_remaining (scan s)) → wp (k i) Φ s') →
  wp (i ← next_send_target burst stagger; k i) Φ s.
Proof.
  intros Hs Hn Hb Hst HΦ. unfold next_send_target. apply wp_bind, wp_bind, wp_gets.
  destruct (Z.eqb_spec (len (targets s)) 0); [lia|]. apply wp_bind, wp_gets.
  apply (wp_scan (λ _, _)); [done|scan_solve|]. intros s1 Hs1 E1 Hsc1 Ht1. apply wp_ret.
  destruct (in_range_lookup (len (targets s)) (Scan.send_cursor (scan s) mod len (targets s)) s1) as [t Ht];
    [by apply in_range_mod|by rewrite Ht1|done|].
  eapply HΦ; [done|done|done|exact Ht|by rewrite Hsc1|by rewrite Hsc1].
Qed.

Lemma burst_loop_pass work now s Φ :
  targets_ok s → 0 < len (targets s) → Z.of_nat work <= Scan.burst_remaining (scan s) →
  (∀ a s', targets_ok s' → evolves s s' → Φ a s') → wp (burst_loop work now) Φ s.
Proof.
  revert s Φ. induction work as [|work IH]; intros s Φ Hs Hn Hw HΦ; cbn [burst_loop].
  { apply wp_ret, HΦ; [done|apply evolves_refl]. }
  destruct (d_scan _ Hs). eapply wp_next_send; [done|done|lia|done|].
  intros i t s1 Hs1 E1 Ht1 Hi Hb1 _. apply wp_bind. eapply poll_one_send_on; [exact Hs1|exact Hi|].
  intros r s2 Hs2 E2 Hp2. destruct (positions_fields _ _ Hp2) as (_ & Hb & _).
  apply wp_bind. apply IH; [done|by rewrite (evolves_len _ _ E2), Ht1|lia|].
  intros b s3 Hs3 E3. apply wp_ret, HΦ; [done|]. eapply evolves_trans; [exact E1|]. by eapply evolves_trans.
Qed.

Lemma stagger_loop_pass work now s Φ :
  targets_ok s → 0 < len (targets s) → Z.of_nat work <= Scan.stagger_remaining (scan s) →
  (∀ a s', targets_ok s' → evolves s s' → Φ a s') → wp (stagger_loop work now) Φ s.
Proof.
  revert s Φ. induction work as [|work IH]; intros s Φ Hs Hn Hw HΦ; cbn [stagger_loop].
  { apply wp_gets, HΦ; [done|apply evolves_refl]. }
  destruct (d_scan _ Hs). eapply wp_next_send; [done|done|done|lia|].
  intros i t s1 Hs1 E1 Ht1 Hi _ Hg1. apply wp_bind. eapply wp_target_at; [exact Hi|].
  assert (∀ s2, targets_ok s2 → evolves s1 s2 → positions s2 = positions s1 → wp (stagger_loop work now) Φ s2) as Hnext.
  { intros s2 Hs2 E2 Hp2. destruct (positions_fields _ _ Hp2) as (_ & _ & Hg & _).
    apply IH; [done|by rewrite (evolves_len _ _ E2), Ht1|lia|].
    intros b s3 Hs3 E3. apply HΦ; [done|]. eapply evolves_trans; [exact E1|]. by eapply evolves_trans. }
  apply wp_if; intros _; [apply Hnext; [done|apply evolves_refl|done]|].
  apply wp_bind, wp_gets, wp_bind. eapply poll_one_send_on; [exact Hs1|exact Hi|]. intros r s2 Hs2 E2 Hp2.
  destruct r; [by apply Hnext| | |];
    (eapply (wp_scan (λ s, Scan.set_send (Scan.send_cursor (scan s)) (Scan.burst_remaining (scan s)) 0 (scan s)));
      [done|scan_solve; apply len_nonneg|]; intros s3 Hs3 E3 _ _; apply wp_ret, HΦ; [done|];
      eapply evolves_trans; [exact E1|]; by eapply evolves_trans).
Qed.

Lemma poll_staggered_send_ok now : pass (poll_staggered_send now).
Proof.
  intros s Φ Hs HΦ. unfold poll_staggered_send. apply wp_bind, wp_gets, wp_bind, wp_gets.
  apply wp_if; intros Hb; [apply wp_ret, HΦ; [done|apply evolves_refl]|].
  assert (0 < len (targets s)) as Hn.
  { apply orb_false_iff in Hb as [Hb _]. unfold active_count, len in *.
    pose proof (length_filter (λ target, is_paced_active target = true) (targets s)). lia. }
  eapply (wp_scan (λ s, Scan.set_send (Scan.send_cursor (scan s)) (Scan.burst_remaining (scan s))
    (if Scan.stagger_remaining (scan s) =? 0 then len (targets s) else Scan.stagger_remaining (scan s)) (scan s)));
    [done|scan_solve|].
  intros s1 Hs1 E1 Hsc1 Ht1. apply wp_bind, wp_gets. destruct (d_scan _ Hs1).
  apply stagger_loop_pass; [done|by rewrite Ht1|lia|]. intros a s2 Hs2 E2. apply HΦ; [done|]. by eapply evolves_trans.
Qed.

Lemma poll_burst_sends_ok now : pass (poll_burst_sends now).
Proof.
  intros s Φ Hs HΦ. unfold poll_burst_sends. apply wp_bind, wp_gets.
  pose proof (len_nonneg (targets s)). destruct (Z.eqb_spec (len (targets s)) 0).
  { apply wp_ret, HΦ; [done|apply evolves_refl]. }
  eapply (wp_scan (λ s0, Scan.set_send (Scan.send_cursor (scan s0))
    (if Scan.burst_remaining (scan s0) =? 0 then len (targets s) else Scan.burst_remaining (scan s0))
    (Scan.stagger_remaining (scan s0)) (scan s0))); [done|scan_solve|].
  intros s1 Hs1 E1 Hsc1 Ht1. apply wp_bind, wp_gets, wp_bind. destruct (d_scan _ Hs1).
  apply burst_loop_pass; [done|rewrite Ht1; lia|lia|]. intros a s2 Hs2 E2. apply wp_gets, HΦ; [done|].
  by eapply evolves_trans.
Qed.

(** *** Timeouts *)
Lemma wp_has_due i t now s Φ :
  targets s !! i = Some t → (∀ b, Φ b s) → wp (target_has_due_timeout i now) Φ s.
Proof.
  intros Ht HΦ. unfold target_has_due_timeout. apply wp_bind. eapply wp_target_at; [done|].
  apply wp_bind, wp_gets. destruct (phase t); by apply wp_ret.
Qed.

(** A transition of a due target leaves at most its own entry in the backlog. *)
Lemma wp_transition i t now generation s Φ :
  targets_ok s → targets s !! i = Some t →
  (∀ s', targets_ok s' → evolves s s' →
    len (Scan.timeout_backlog (scan s')) <= len (Scan.timeout_backlog (scan s)) + 1 → Φ tt s') →
  wp (timeout_transition i now generation) Φ s.
Proof.
  intros Hs Ht HΦ. unfold timeout_transition. apply wp_bind. eapply poll_target_timeout_on; [exact Hs|exact Ht|].
  intros more s1 Hs1 E1 Hp1. destruct (positions_fields _ _ Hp1) as (_ & _ & _ & Hb).
  apply wp_if; intros _; [|apply wp_ret, HΦ; [done|done|rewrite Hb; lia]].
  unfold enqueue_timeout_backlog. apply wp_modify.
  destruct ((len _ =? _) || _) eqn:Hfull; [apply HΦ; [done|done|rewrite Hb; lia]|].
  apply orb_false_iff in Hfull as [Hfull _]. apply HΦ; [| |].
  - apply targets_ok_scan; [done|]. scan_solve. rewrite len_app, len_cons, len_nil. lia.
  - eapply evolves_trans; [exact E1|apply evolves_scan].
  - cbn. rewrite len_app, len_cons, len_nil, Hb. lia.
Qed.

Lemma timeout_scan_pass left_ transitions n now s Φ :
  targets_ok s → n = len (targets s) → 0 < n → Z.of_nat left_ <= transitions →
  (∀ rest s', targets_ok s' → evolves s s' → 0 <= rest → Φ rest s') →
  wp (timeout_scan left_ transitions n now) Φ s.
Proof.
  revert transitions s Φ. induction left_ as [|left_ IH]; intros transitions s Φ Hs -> Hn Hl HΦ; cbn [timeout_scan].
  { apply wp_ret, HΦ; [done|apply evolves_refl|lia]. }
  apply wp_if; intros Hz; [apply wp_ret, HΦ; [done|apply evolves_refl|lia]|].
  apply wp_bind, wp_gets. apply (wp_scan (λ _, _)); [done|scan_solve|]. intros s1 Hs1 E1 Hsc1 Ht1.
  destruct (in_range_lookup (len (targets s)) (Scan.timeout_cursor (scan s)) s1) as [t Ht];
    [apply (d_scan _ Hs)|by rewrite Ht1|done|].
  apply wp_bind. eapply wp_has_due; [exact Ht|]. intros is_due. apply wp_if; intros _.
  - apply wp_bind. eapply wp_target_at; [exact Ht|]. apply wp_bind. eapply wp_transition; [exact Hs1|exact Ht|].
    intros s2 Hs2 E2 _. apply IH; [done|by rewrite (evolves_len _ _ E2), Ht1|done|lia|].
    intros rest s3 Hs3 E3 Hr. apply HΦ; [done| |done]. eapply evolves_trans; [exact E1|]. by eapply evolves_trans.
  - apply IH; [done|by rewrite Ht1|done|lia|].
    intros rest s3 Hs3 E3 Hr. apply HΦ; [done| |done]. by eapply evolves_trans.
Qed.

Lemma timeout_drain_pass fuel transitions now s Φ :
  targets_ok s → len (Scan.timeout_backlog (scan s)) + Z.max 0 transitions < Z.of_nat fuel →
  (∀ s', targets_ok s' → evolves s s' → Φ tt s') → wp (timeout_drain fuel transitions now) Φ s.
Proof.
  revert transitions s Φ. induction fuel as [|fuel IH]; intros transitions s Φ Hs Hf HΦ; cbn [timeout_drain].
  { pose proof (len_nonneg (Scan.timeout_backlog (scan s))). lia. }
  apply wp_bind, wp_gets. apply wp_if; intros Hz; [apply wp_ret, HΦ; [done|apply evolves_refl]|].
  destruct (Scan.timeout_backlog (scan s)) as [|entry backlog] eqn:Hb; [apply wp_ret, HΦ; [done|apply evolves_refl]|].
  rewrite len_cons in Hf. pose proof (d_scan _ Hs) as Hsc. pose proof (sc_backlog _ _ Hsc) as Hbl. rewrite Hb, len_cons in Hbl.
  apply (wp_scan (λ _, _)); [done|scan_solve|]. intros s1 Hs1 E1 Hsc1 Ht1. apply wp_bind, wp_gets.
  assert (∀ s2, targets_ok s2 → evolves s1 s2 → len (Scan.timeout_backlog (scan s2)) = len backlog →
    wp (timeout_drain fuel transitions now) Φ s2) as Hskip.
  { intros s2 Hs2 E2 Hl2. apply IH; [done|lia|]. intros s3 Hs3 E3. apply HΦ; [done|].
    eapply evolves_trans; [exact E1|]. by eapply evolves_trans. }
  apply wp_bind.
  assert (wp (mret false) (λ (b : bool) s2, wp (if b then
      _ ← timeout_transition (TimeoutBacklogEntry.index entry) now (TimeoutBacklogEntry.generation entry);
      timeout_drain fuel (transitions - 1) now else timeout_drain fuel transitions now) Φ s2) s1) as Hfalse.
  { apply wp_ret, Hskip; [done|apply evolves_refl|by rewrite Hsc1]. }
  destruct (targets s1 !! TimeoutBacklogEntry.index entry) as [t|] eqn:Ht; [|exact Hfalse].
  apply wp_if; intros _; [|exact Hfalse]. eapply wp_has_due; [exact Ht|]. intros is_due.
  apply wp_if; intros _; [|apply Hskip; [done|apply evolves_refl|by rewrite Hsc1]].
  apply wp_bind. eapply wp_transition; [exact Hs1|exact Ht|]. intros s2 Hs2 E2 Hl2. rewrite Hsc1 in Hl2. cbn in Hl2.
  apply IH; [done|lia|]. intros s3 Hs3 E3. apply HΦ; [done|]. eapply evolves_trans; [exact E1|]. by eapply evolves_trans.
Qed.

Lemma poll_timeout_pass_ok now : pass (poll_timeout_pass now).
Proof.
  intros s Φ Hs HΦ. unfold poll_timeout_pass. apply wp_bind, wp_gets.
  pose proof (len_nonneg (targets s)). destruct (Z.eqb_spec (len (targets s)) 0).
  { apply wp_ret, HΦ; [done|apply evolves_refl]. }
  apply wp_bind. eapply timeout_scan_pass; [done|done|lia|unfold TIMEOUT_WORK_BUDGET; lia|].
  intros rest s1 Hs1 E1 Hr. apply wp_bind, wp_gets, wp_bind. apply timeout_drain_pass; [done|unfold len; lia|].
  intros s2 Hs2 E2. apply wp_gets, HΦ; [done|]. by eapply evolves_trans.
Qed.
End inv.
