(* ===== verification/ManagedUpdateSpec.v ===== *)
(** * irtt-client: what a target update does

    The effect of a planned update as a function of the targets
    ([retire], [new_runtime]), and the invariant across the command queue. *)

From S2P Require Import Prelude ProtoBase Envelope ParamsCodec ClientBase ClientNegotiation ClientEvent Machine Client.
From S2P Require Import Timing Schedule ManagedBase ManagedTask ManagedTarget ManagedPacing ManagedUpdate Managed ManagedLogic ManagedSpecs.
From S2P Require Import ManagedPolls ManagedInv.

Section update.
Context `{Clocks} `{Target} `{!HmacMd5} `{AsyncSessionLaws}.

(** ** Retirement as a function of the target *)
Section retirement.
Context (prepared : list ManagedTargetConfig.t).

(** What a target is retired for, and whether at once. *)
Definition retirement (t : TargetRuntime) : option (RetirementReason * bool) :=
  (λ r, (PlannedRetirement.reason r, PlannedRetirement.synchronous r)) <$> plan_retirement prepared 0 t.
(** The target once marked. *)
Definition mark (t : TargetRuntime) : TargetRuntime :=
  match retirement t with Some (reason, _) => set_membership (Withdrawn reason) t | None => t end.
(** The target after the transaction: kept as it is, withdrawn, or gone. *)
Definition retire (t : TargetRuntime) : option TargetRuntime :=
  match retirement t with Some (_, true) => None | _ => Some (mark t) end.
(** The outcome of a target retired at once. *)
Definition removed (t : TargetRuntime) : option ManagedTargetOutcome.t :=
  match retirement t with
  | Some (reason, true) =>
      if is_terminal (phase t) then None else Some (target_outcome (end_of_retirement reason) None t)
  | _ => None
  end.

Definition retirements_from (n : nat) (l : list TargetRuntime) : list PlannedRetirement.t :=
  omap id (imap (λ i, plan_retirement prepared (n + i)) l).

Lemma plan_retirement_at i t :
  plan_retirement prepared i t
  = (λ '(reason, synchronous), PlannedRetirement.mk i reason synchronous) <$> retirement t.
Proof. unfold retirement, plan_retirement. by destruct (negb _ || _). Qed.

Lemma retirements_cons n t l :
  retirements_from n (t :: l)
  = option_list ((λ '(reason, synchronous), PlannedRetirement.mk n reason synchronous) <$> retirement t)
    ++ retirements_from (S n) l.
Proof.
  unfold retirements_from. cbn [imap omap list_omap]. rewrite Nat.add_0_r, plan_retirement_at.
  assert (imap ((λ i, plan_retirement prepared (n + i)) ∘ S) l = imap (λ i, plan_retirement prepared (S n + i)) l) as ->.
  { apply imap_ext. intros i x _. cbn. f_equal. lia. }
  by destruct (retirement t) as [[reason synchronous]|].
Qed.

Lemma retirements_index n l r : r ∈ retirements_from n l → (n <= PlannedRetirement.index r)%nat.
Proof.
  revert n. induction l as [|t l IH]; intros n; [by intros ?%elem_of_nil|]. rewrite retirements_cons, elem_of_app.
  intros [Hr|Hr]; [|specialize (IH _ Hr); lia].
  destruct (retirement t) as [[reason synchronous]|]; cbn in Hr; set_solver.
Qed.

Lemma sync_cons n t l :
  synchronous_indices (retirements_from n (t :: l))
  = match retirement t with Some (_, true) => [n] | _ => [] end ++ synchronous_indices (retirements_from (S n) l).
Proof.
  rewrite retirements_cons. unfold synchronous_indices. rewrite filter_app, fmap_app. f_equal.
  by destruct (retirement t) as [[reason []]|].
Qed.

Lemma sync_index n l i : i ∈ synchronous_indices (retirements_from n l) → (n <= i)%nat.
Proof.
  unfold synchronous_indices. rewrite list_elem_of_fmap. intros (r & -> & [_ Hr]%list_elem_of_filter).
  by eapply retirements_index.
Qed.

Lemma retain_from n l :
  omap id (imap (λ i x, if bool_decide ((n + i)%nat ∈ synchronous_indices (retirements_from n l)) then None else Some x)
    (mark <$> l)) = omap retire l.
Proof.
  revert n. induction l as [|t l IH]; intros n; [done|]. rewrite fmap_cons. cbn [imap omap list_omap].
  rewrite sync_cons, Nat.add_0_r.
  assert (imap ((λ i x, if bool_decide ((n + i)%nat ∈ match retirement t with Some (_, true) => [n] | _ => [] end
        ++ synchronous_indices (retirements_from (S n) l)) then None else Some x) ∘ S) (mark <$> l)
    = imap (λ i x, if bool_decide ((S n + i)%nat ∈ synchronous_indices (retirements_from (S n) l)) then None else Some x)
        (mark <$> l)) as ->.
  { apply imap_ext. intros i x _. cbn. erewrite bool_decide_ext; [done|].
    rewrite elem_of_app. replace (n + S i)%nat with (S (n + i)) by lia. split; [|by right].
    intros [Hr|Hr]; [|done]. destruct (retirement t) as [[reason []]|]; set_unfold; lia. }
  rewrite IH. unfold retire at 2, retire. destruct (retirement t) as [[reason []]|] eqn:Hr.
  - rewrite bool_decide_eq_true_2 by set_solver. done.
  - rewrite bool_decide_eq_false_2; [done|]. rewrite app_nil_l. intros ?%sync_index. lia.
  - rewrite bool_decide_eq_false_2; [done|]. rewrite app_nil_l. intros ?%sync_index. lia.
Qed.

Lemma plan_retirements_from l : plan_retirements prepared l = retirements_from 0 l.
Proof. done. Qed.

Lemma retain_marked l : retain_not (synchronous_indices (plan_retirements prepared l)) (mark <$> l) = omap retire l.
Proof. apply (retain_from 0). Qed.

Lemma retain_not_nil {A} (l : list A) : retain_not [] l = l.
Proof.
  unfold retain_not. induction l as [|x l IH]; [done|]. cbn. f_equal. etransitivity; [|exact IH]. done.
Qed.

Lemma len_retain_fmap {A B} (f : A → B) idx (l : list A) : len (retain_not idx (f <$> l)) = len (retain_not idx l).
Proof.
  unfold retain_not.
  assert (∀ n, len (omap id (imap (λ i x, if bool_decide ((n + i)%nat ∈ idx) then None else Some x) (f <$> l)))
    = len (omap id (imap (λ i x, if bool_decide ((n + i)%nat ∈ idx) then None else Some x) l))) as Hn.
  { induction l as [|x l IH]; intros n; [done|]. cbn. specialize (IH (S n)).
    assert (∀ C (k : list C), imap ((λ i x, if bool_decide ((n + i)%nat ∈ idx) then None else Some x) ∘ S) k
      = imap (λ i x, if bool_decide ((S n + i)%nat ∈ idx) then None else Some x) k) as He.
    { intros C k. apply imap_ext. intros i y _. cbn. by replace (n + S i)%nat with (S (n + i)) by lia. }
    rewrite !He. destruct (bool_decide _); [done|]. rewrite !len_cons. by rewrite IH. }
  apply (Hn 0%nat).
Qed.

(** ** Applying the retirements *)
Record retired (l : list TargetRuntime) (fin : list ManagedTargetOutcome.t) (pre : list TargetRuntime) (s s' : Task) : Prop := {
  rt_fin : fin = omap removed l;
  rt_targets : targets s' = pre ++ (mark <$> l);
  rt_history : history s' = record_all fin (history s);
  rt_config : config s' = config s;
  rt_control : control s' = control s;
  rt_shared : shared s' = shared s;
  rt_published : published s' = published s;
  rt_positions : positions s' = positions s;
  rt_world : world s' = world s;
}.

Lemma removed_outcome reason t : target_outcome (end_of_retirement reason) None (set_membership (Withdrawn reason) t)
  = target_outcome (end_of_retirement reason) None t.
Proof. done. Qed.

Lemma wp_retirements now l pre s Φ :
  targets s = pre ++ l → (∀ fin s', retired l fin pre s s' → Φ fin s') →
  wp (apply_retirements now (retirements_from (length pre) l)) Φ s.
Proof.
  revert pre s Φ. induction l as [|t l IH]; intros pre s Φ Ht HΦ.
  { apply wp_ret, HΦ. by split. }
  rewrite retirements_cons.
  assert (∀ s1 (o : list ManagedTargetOutcome.t) (k : list ManagedTargetOutcome.t → list ManagedTargetOutcome.t),
    targets s1 = (pre ++ [mark t]) ++ l → history s1 = record_all o (history s) → o = option_list (removed t) →
    config s1 = config s → control s1 = control s → shared s1 = shared s → published s1 = published s →
    positions s1 = positions s → world s1 = world s → (∀ r, k r = o ++ r) →
    wp (apply_retirements now (retirements_from (S (length pre)) l)) (λ r s', Φ (k r) s') s1) as Hrest.
  { intros s1 o k Ht1 Hh1 -> Hc1 Hk1 Hs1 Hp1 Hpos1 Hw1 Hko.
    replace (S (length pre)) with (length (pre ++ [mark t])) by (rewrite length_app; cbn; lia).
    apply IH; [done|]. intros fin s2 [-> Ht2 Hh2 Hc2 Hk2 Hs2 Hp2 Hpos2 Hw2]. apply HΦ. split; try congruence.
    - rewrite Hko. cbn [omap list_omap]. by destruct (removed t).
    - by rewrite Ht2, <-app_assoc.
    - rewrite Hh2, Hh1, <-record_all_app, Hko. done. }
  assert (targets s !! length pre = Some t) as Hl by (rewrite Ht; by apply list_lookup_middle).
  assert (∀ x, <[length pre := x]> (targets s) = (pre ++ [x]) ++ l) as Hins.
  { intros x. rewrite Ht, <-app_assoc. rewrite insert_app_r_alt by done. by rewrite Nat.sub_diag. }
  unfold mark, removed in Hrest. destruct (retirement t) as [[reason synchronous]|]; cbn [fmap option_fmap option_map option_list app].
  2:{ eapply wp_mono; [apply (Hrest s [] id)|]; try done. by rewrite Ht, <-app_assoc. }
  cbn [apply_retirements PlannedRetirement.index PlannedRetirement.reason PlannedRetirement.synchronous].
  apply wp_bind. eapply wp_target_at; [done|]. apply wp_bind. eapply wp_update; [done|]. rewrite Hins.
  destruct synchronous; [destruct (is_terminal (phase t)) eqn:Hterm|]; cbn [phase set_membership]; rewrite ?Hterm.
  - apply wp_bind, wp_ret, wp_bind. by apply (Hrest _ [] (λ r, [] ++ r)).
  - apply wp_bind, wp_bind, wp_modify, wp_ret, wp_bind.
    by apply (Hrest _ [target_outcome (end_of_retirement reason) None t] (λ r, _ ++ r)).
  - apply wp_bind, wp_bind. destruct (is_paced_active t).
    + apply wp_modify, wp_ret, wp_bind. by apply (Hrest _ [] (λ r, [] ++ r)).
    + apply wp_ret, wp_ret, wp_bind. by apply (Hrest _ [] (λ r, [] ++ r)).
Qed.
End retirement.

(** ** Planning *)
Lemma prepare_ok config ids incoming prepared :
  prepare_targets config ids incoming = Ok prepared →
  prepared.*1 = incoming ∧ NoDup (ManagedTargetConfig.id <$> incoming) ∧
  Forall (λ x, ManagedTargetConfig.id x ∉ ids) incoming ∧
  Forall (λ p, p.2 = client_config_for (ManagedClientConfig.client config) p.1 ∧ validate_target_config p.2 = Ok tt) prepared.
Proof.
  revert ids prepared. induction incoming as [|x incoming IH]; intros ids prepared; cbn [prepare_targets].
  { intros [= <-]. repeat split; constructor. }
  case_bool_decide as Hin; [done|]. intros ([] & Hv & (rest & Hr & [= <-])%bind_ok)%bind_ok.
  destruct (IH _ _ Hr) as (Hfst & Hnd & Hni & Hall). cbn [fmap list_fmap]. split; [by rewrite Hfst|]. split; [|split].
  - constructor; [|done]. rewrite list_elem_of_fmap. intros (y & Hy & Hiny).
    pose proof (proj1 (Forall_forall _ _) Hni _ Hiny) as Hn. cbn in Hn. rewrite Hy in Hn. set_solver.
  - constructor; [done|]. eapply Forall_impl; [exact Hni|]. cbn. set_solver.
  - constructor; [|done]. cbn. split; [done|]. destruct (validate_target_config _) as [[]| |]; done.
Qed.

(** The targets no live runtime satisfies. *)
Definition unsatisfied (runtimes : list TargetRuntime) (x : ManagedTargetConfig.t) : Prop :=
  existsb (λ runtime, runtime_satisfies_target runtime x) runtimes = false.
#[local] Instance unsatisfied_dec runtimes x : Decision (unsatisfied runtimes x).
Proof. unfold unsatisfied. apply _. Defined.

Lemma plan_created_ok runtimes g prepared created last :
  0 <= g → plan_created runtimes g prepared = Ok (created, last) →
  PlannedTarget.target <$> created = filter (unsatisfied runtimes) (prepared.*1) ∧
  PlannedTarget.generation <$> created = seqZ g (len created) ∧ last = g + len created ∧
  (g <= U64_MAX → last <= U64_MAX).
Proof.
  revert g created last. induction prepared as [|[x cc] prepared IH]; intros g created last Hg; cbn [plan_created].
  { intros [= <- <-]. rewrite len_nil. repeat split; try done; lia. }
  cbn [fmap list_fmap fst]. rewrite filter_cons. destruct (decide (unsatisfied runtimes x)) as [Hu|Hu].
  2:{ apply not_false_is_true in Hu. rewrite Hu. by apply IH. }
  - unfold unsatisfied in Hu. rewrite Hu. intros (n & Hn & ([rest l] & Hr & [= <- <-])%bind_ok)%bind_ok.
    unfold ok_or in Hn. destruct (try_u64 (g + 1)) as [g'|] eqn:Htry; [|done]. injection Hn as <-.
    apply try_u64_Some in Htry as [<- Hin]. unfold in_u in Hin.
    assert (0 <= g + 1) as Hg1 by lia. destruct (IH _ _ _ Hg1 Hr) as (Ht & Hgen & -> & Hb). cbn [fmap list_fmap PlannedTarget.target PlannedTarget.generation].
    rewrite len_cons, Ht, Hgen. split; [done|]. split; [|change U64_MAX with 18446744073709551615 in *;
      change (2 ^ 64) with 18446744073709551616 in Hin; split; [lia|intros _; apply Hb; lia]].
    rewrite (seqZ_cons g) by (pose proof (len_nonneg rest); lia). f_equal. f_equal; lia.
Qed.

Lemma plan_created_clients (f : ManagedTargetConfig.t → ClientConfig.t) runtimes g prepared created last :
  plan_created runtimes g prepared = Ok (created, last) → Forall (λ p, p.2 = f p.1) prepared →
  Forall (λ c, PlannedTarget.client_config c = f (PlannedTarget.target c)) created.
Proof.
  revert g created last. induction prepared as [|[x cc] prepared IH]; intros g created last; cbn [plan_created].
  { by intros [= <- <-]. }
  intros Hc [Hx Hl]%Forall_cons. destruct (existsb _ runtimes); [by eapply IH|].
  revert Hc. intros (n & _ & ([rest l] & Hr & [= <- <-])%bind_ok)%bind_ok. constructor; [done|]. by eapply IH.
Qed.

Record planned (incoming : list ManagedTargetConfig.t) (s : Task) (plan : UpdatePlan.t) : Prop := {
  pl_ids : NoDup (ManagedTargetConfig.id <$> incoming);
  pl_valid : Forall (λ x, validate_target_config
    (client_config_for (ManagedClientConfig.client (config s)) x) = Ok tt) incoming;
  pl_retirements : UpdatePlan.retirements plan = plan_retirements incoming (targets s);
  pl_created : PlannedTarget.target <$> UpdatePlan.created plan = filter (unsatisfied (targets s)) incoming;
  pl_generations : PlannedTarget.generation <$> UpdatePlan.created plan
    = seqZ (Control.next_generation (control s)) (len (UpdatePlan.created plan));
  pl_client : Forall (λ c, PlannedTarget.client_config c
    = client_config_for (ManagedClientConfig.client (config s)) (PlannedTarget.target c)) (UpdatePlan.created plan);
  pl_next : UpdatePlan.next_generation plan
    = Control.next_generation (control s) + len (UpdatePlan.created plan);
  pl_bound : Control.next_generation (control s) <= U64_MAX → UpdatePlan.next_generation plan <= U64_MAX;
  pl_sequence : UpdatePlan.next_command_sequence plan = Control.applied_command_sequence (control s) + 1;
  pl_applied : UpdatePlan.next_command_sequence plan <= U64_MAX;
  pl_count : UpdatePlan.prospective_live_count plan
    = len (omap (retire incoming) (targets s)) + len (UpdatePlan.created plan);
  pl_limit : UpdatePlan.prospective_live_count plan <= ManagedClientConfig.max_live_target_generations (config s);
}.

Lemma plan_ok incoming s plan :
  0 <= Control.next_generation (control s) → plan_targets incoming s = Ok plan → planned incoming s plan.
Proof.
  intros Hg. unfold plan_targets.
  intros (prepared & Hp & ([created last] & Hc & (seq & Hs & Hok)%bind_ok)%bind_ok)%bind_ok.
  destruct (prepare_ok _ _ _ _ Hp) as (Hfst & Hnd & _ & Hall). rewrite Hfst in Hok.
  destruct (plan_created_ok _ _ _ _ _ Hg Hc) as (Ht & Hgen & Hlast & Hb).
  unfold ok_or in Hs. destruct (try_u64 _) as [seq'|] eqn:Htry; [|done]. injection Hs as <-.
  apply try_u64_Some in Htry as [<- Hin]. unfold in_u in Hin.
  destruct (Z.ltb_spec (ManagedClientConfig.max_live_target_generations (config s))
    (len (retain_not (synchronous_indices (plan_retirements incoming (targets s))) (targets s)) + len created)); [done|].
  injection Hok as <-. rewrite Hfst in Ht. rewrite <-(len_retain_fmap (mark incoming)), retain_marked in *.
  split; cbn; try done; [| |unfold U64_MAX; lia].
  2:{ eapply (plan_created_clients _ _ _ _ _ _ Hc), Forall_impl; [exact Hall|]. by intros [x cc] [? _]. }
  rewrite <-Hfst, Forall_fmap. eapply Forall_impl; [exact Hall|]. intros [x cc] [Hcc Hv]. cbn in *. by subst cc.
Qed.

(** ** The transaction *)
Record updated (incoming : list ManagedTargetConfig.t) (plan : UpdatePlan.t) (s s' : Task) : Prop := {
  up_targets : targets s' = omap (retire incoming) (targets s) ++ (new_runtime (config s) <$> UpdatePlan.created plan);
  up_config : config s' = config s;
  up_stop : Control.stop_observed (control s') = Control.stop_observed (control s);
  up_next : Control.next_generation (control s') = UpdatePlan.next_generation plan;
  up_applied : Control.applied_command_sequence (control s') = UpdatePlan.next_command_sequence plan;
  up_phase : task_phase s' = if quiescent_stop s' then Stopping else task_phase s;
  up_shared : shared s' = if quiescent_stop s' then begin_stopping (shared s) else shared s;
  up_events : ∃ evs, Published.events (published s') = Published.events (published s) ++ evs ∧
    finished evs = omap (removed incoming) (targets s) ∧
    history s' = record_all (omap (removed incoming) (targets s)) (history s);
  up_status : status_current s';
  up_scan : scan_ok (len (targets s)) (scan s) → scan_ok (len (targets s')) (scan s');
  up_clock : clock (world s) <= clock (world s');
}.

Lemma wp_publish_all evs s Φ :
  Φ tt (set_published (Published.mk (Published.status (published s)) (Published.events (published s) ++ evs)) s) →
  wp (publish_all evs) Φ s.
Proof.
  revert s. induction evs as [|ev evs IH]; intros s HΦ; cbn [publish_all].
  { apply wp_ret. rewrite app_nil_r in HΦ. by destruct s as [? ? ? ? ? ? []]. }
  apply wp_bind, wp_publish_event, IH. cbn. by rewrite <-app_assoc.
Qed.

Lemma finished_outcomes outcomes : finished (EvTargetFinished <$> outcomes) = outcomes.
Proof. unfold finished. induction outcomes as [|o outcomes IH]; cbn; [done|by rewrite IH]. Qed.
Lemma finished_created created :
  finished ((λ planned, EvTargetStateChanged (planned_instance planned) LPending) <$> created) = [].
Proof. unfold finished. induction created as [|c created IH]; cbn; done. Qed.

Lemma scan_ok_mono n n' sc : n <= n' → scan_ok n sc → scan_ok n' sc.
Proof. intros Hn [? ? ? ? ? ? ?]. unfold in_range in *. split; unfold in_range; lia. Qed.

Lemma scan_ok_rebase n sc s :
  scan_ok n sc → scan s = sc → scan_ok (len (targets s)) (scan (rebase_target_cursors s)).
Proof.
  intros [? ? ? ? ? ? ?] <-. pose proof (len_nonneg (targets s)).
  unfold rebase_target_cursors. cbn. destruct (Z.eqb_spec (len (targets s)) 0) as [Hz|Hz]; split; cbn;
    try (apply in_range_mod); try done; try lia; unfold in_range; lia.
Qed.

Lemma sync_nil incoming l : synchronous_indices (plan_retirements incoming l) = [] → mark incoming <$> l = omap (retire incoming) l.
Proof. intros Hs. by rewrite <-retain_marked, Hs, retain_not_nil. Qed.

Lemma wp_apply_plan incoming plan s Φ :
  planned incoming s plan →
  (∀ s', updated incoming plan s s' →
    Φ (ManagedCommandAcknowledgement.mk (Control.applied_command_sequence (control s')) (Published.status (published s'))) s') →
  wp (apply_plan plan) Φ s.
Proof.
  intros Hplan HΦ. unfold apply_plan. apply wp_bind, wp_clock. intros now w Hl. apply wp_bind.
  rewrite (pl_retirements _ _ _ Hplan), plan_retirements_from.
  apply (wp_retirements incoming now (targets s) [] (set_world w s)); [done|].
  intros fin s1 [-> Ht1 Hh1 Hc1 Hk1 Hs1 Hp1 Hpos1 Hw1]. rewrite app_nil_l in Ht1. cbn in Hh1, Hc1, Hk1, Hs1, Hp1, Hw1.
  assert (∀ Ψ : unit → Task → Prop,
    (∀ s2, targets s2 = omap (retire incoming) (targets s) → history s2 = history s1 → config s2 = config s →
      control s2 = control s → shared s2 = shared s → published s2 = published s →
      (scan_ok (len (targets s)) (scan s) → scan_ok (len (targets s2)) (scan s2)) → world s2 = w → Ψ tt s2) →
    wp (match synchronous_indices (retirements_from incoming 0 (targets s)) with
        | [] => mret tt
        | _ => modify (λ s0, rebase_target_cursors
                 (set_targets (retain_not (synchronous_indices (retirements_from incoming 0 (targets s))) (targets s0)) s0))
        end) Ψ s1) as Hretain.
  { intros Ψ HΨ. assert (scan_ok (len (targets s)) (scan s) → scan_ok (len (targets s)) (scan s1)) as Hsc.
    { unfold positions, Scan.set_gate in Hpos1. cbn in Hpos1. injection Hpos1 as ? ? ? ? ? ? ?. intros []. split; congruence. }
    rewrite <-plan_retirements_from in *. destruct (synchronous_indices _) as [|j js] eqn:Hsync.
    - apply wp_ret, HΨ; try done; [by rewrite Ht1, (sync_nil _ _ Hsync)|]. intros Hok. rewrite Ht1, len_fmap. auto.
    - apply wp_modify, HΨ; try done.
      + cbn. by rewrite Ht1, <-Hsync, retain_marked.
      + intros Hok. by apply (scan_ok_rebase (len (targets s)) (scan s1)
          (set_targets (retain_not (j :: js) (targets s1)) s1)); [auto|]. }
  apply wp_bind, Hretain. intros s2 Ht2 Hh2 Hc2 Hk2 Hs2 Hp2 Hsc2 Hw2.
  apply wp_bind, wp_modify, wp_bind, wp_modify, wp_bind, wp_gets. rewrite Ht2, Hc2.
  set (new := omap (retire incoming) (targets s) ++ (new_runtime (config s) <$> UpdatePlan.created plan)).
  set (s3 := set_control _ _).
  assert (∀ s4, config s4 = config s → targets s4 = new → quiescent_stop s4 = quiescent_stop s3) as Hq.
  { intros s4 Hc4 Ht4. unfold quiescent_stop. rewrite Hc4, Ht4. cbn. by rewrite Hc2. }
  apply wp_bind.
  assert (∀ s4, targets s4 = new → history s4 = history s1 → config s4 = config s →
    control s4 = Control.mk (if quiescent_stop s3 then Stopping else task_phase s) (Control.stop_observed (control s))
      (UpdatePlan.next_generation plan) (UpdatePlan.next_command_sequence plan) →
    shared s4 = (if quiescent_stop s3 then begin_stopping (shared s) else shared s) → published s4 = published s →
    scan s4 = scan s2 → world s4 = world s2 →
    wp (_ ← replace_status; _ ← (if quiescent_stop s3 then publish_event EvStopping else mret tt);
        _ ← publish_all (EvTargetFinished <$> omap (removed incoming) (targets s));
        _ ← publish_all ((λ planned, EvTargetStateChanged (planned_instance planned) LPending) <$> UpdatePlan.created plan);
        gets (λ s, ManagedCommandAcknowledgement.mk (Control.applied_command_sequence (control s))
          (Published.status (published s)))) Φ s4) as Hpublish.
  { intros s4 Ht4 Hh4 Hc4 Hk4 Hs4 Hp4 Hsc4 Hw4. apply wp_bind, wp_modify, wp_bind.
    set (stop_events := if quiescent_stop s3 then [EvStopping] else []).
    assert (∀ Ψ : unit → Task → Prop, Ψ tt (set_published (Published.mk (snapshot s4) (Published.events (published s) ++ stop_events)) s4) →
      wp (if quiescent_stop s3 then publish_event EvStopping else mret tt) Ψ
        (set_published (Published.mk (snapshot s4) (Published.events (published s4))) s4)) as Hstop.
    { intros Ψ HΨ. unfold stop_events in HΨ. destruct (quiescent_stop s3); rewrite Hp4; [by apply wp_publish_event|].
      apply wp_ret. by rewrite app_nil_r in HΨ. }
    apply Hstop, wp_bind, wp_publish_all, wp_bind, wp_publish_all, wp_gets. cbn.
    match goal with |- Φ _ ?x => pose proof (HΦ x) as Hfinal end. cbn in Hfinal. apply Hfinal.
    split; cbn; rewrite ?Hk4; cbn; try done.
    - unfold task_phase. cbn. rewrite Hk4. cbn. by rewrite <-(Hq s4 Hc4 Ht4).
    - by rewrite Hs4, <-(Hq s4 Hc4 Ht4).
    - eexists. rewrite <-!app_assoc. split; [done|]. rewrite !finished_app, finished_outcomes, finished_created.
      split; [unfold stop_events; by destruct (quiescent_stop s3); cbn; rewrite ?app_nil_r|]. by rewrite Hh4, Hh1.
    - intros Hok. rewrite Hsc4, Ht4. unfold new. rewrite <-Ht2. eapply scan_ok_mono; [|by apply Hsc2].
      rewrite len_app. pose proof (len_nonneg (new_runtime (config s) <$> UpdatePlan.created plan)). lia.
    - by rewrite Hw4, Hw2. }
  destruct (quiescent_stop s3) eqn:Hqs.
  - apply wp_modify, Hpublish; try done; subst s3; unfold task_phase; cbn; by rewrite ?Hk2, ?Hs2.
  - apply wp_ret, Hpublish; try done; subst s3; unfold task_phase; cbn; unfold task_phase; cbn; by rewrite ?Hk2, ?Hs2.
Qed.

(** ** The desired set *)
Definition desired_configs (targets : list TargetRuntime) : list ManagedTargetConfig.t :=
  omap (λ t, if is_desired (membership t) then Some (target_config t) else None) targets.

Definition config_ids (targets : list TargetRuntime) : Prop :=
  Forall (λ t, ManagedTargetConfig.id (target_config t) = TargetInstance.id (instance t)) targets.

Lemma desired_ids_configs targets :
  config_ids targets → desired_ids targets = ManagedTargetConfig.id <$> desired_configs targets.
Proof.
  unfold desired_ids, desired_configs. induction 1 as [|t l Ht _ IH]; [done|]. cbn.
  destruct (is_desired (membership t)); cbn; by rewrite ?Ht, IH.
Qed.

Lemma sublist_omap {A B} (f g : A → option B) l :
  (∀ x y, f x = Some y → g x = Some y) → omap f l `sublist_of` omap g l.
Proof.
  intros Hfg. induction l as [|x l IH]; [done|]. cbn. destruct (f x) as [y|] eqn:Hf.
  - rewrite (Hfg _ _ Hf). by constructor.
  - destruct (g x); [by constructor|done].
Qed.

(** A target that is still desired after the transaction was not touched. *)
Lemma retire_desired incoming t t' :
  retire incoming t = Some t' → is_desired (membership t') = true →
  t' = t ∧ existsb (runtime_satisfies_target t) incoming = true.
Proof.
  unfold retire, mark, retirement, plan_retirement.
  destruct (is_desired (membership t)) eqn:Hd; cbn [negb orb].
  - destruct (existsb _ incoming) eqn:Hex; cbn [fmap option_fmap option_map]; [by intros [= <-]|].
    cbn. destruct (synchronously_retireable _); [done|]. by intros [= <-].
  - intros [= <-]. by rewrite Hd.
Qed.

Lemma retire_satisfied incoming t :
  existsb (runtime_satisfies_target t) incoming = true → retire incoming t = Some t.
Proof. intros Hex. unfold retire, mark, retirement, plan_retirement. by rewrite Hex, orb_true_r. Qed.

Lemma satisfies_config t x : runtime_satisfies_target t x = true → is_desired (membership t) = true ∧ target_config t = x.
Proof. unfold runtime_satisfies_target. rewrite !andb_true_iff, bool_decide_eq_true. tauto. Qed.

Lemma desired_kept incoming l :
  desired_configs (omap (retire incoming) l)
  = omap (λ t, if existsb (runtime_satisfies_target t) incoming then Some (target_config t) else None) l.
Proof.
  unfold desired_configs. induction l as [|t l IH]; [done|]. cbn [omap list_omap].
  destruct (existsb (runtime_satisfies_target t) incoming) eqn:Hex.
  - rewrite (retire_satisfied _ _ Hex). cbn. apply existsb_exists in Hex as (x & _ & [-> _]%satisfies_config).
    by rewrite IH.
  - destruct (retire incoming t) as [t'|] eqn:Hr; [|done]. cbn. destruct (is_desired (membership t')) eqn:Hd; [|done].
    destruct (retire_desired _ _ _ Hr Hd). congruence.
Qed.

Lemma satisfied_iff runtimes incoming x :
  x ∈ omap (λ t, if existsb (runtime_satisfies_target t) incoming then Some (target_config t) else None) runtimes
  ↔ x ∈ incoming ∧ ¬ unsatisfied runtimes x.
Proof.
  rewrite list_elem_of_omap. unfold unsatisfied. rewrite not_false_iff_true, existsb_exists. split.
  - intros (t & Ht & Hx). destruct (existsb _ incoming) eqn:Hex; [|done]. injection Hx as <-.
    apply existsb_exists in Hex as (y & Hy & Hs). destruct (satisfies_config _ _ Hs) as [_ ->].
    split; [by apply list_elem_of_In|]. exists t. split; [by apply list_elem_of_In|done].
  - intros (Hx & t & Ht & Hs). exists t. split; [by apply list_elem_of_In|].
    assert (existsb (runtime_satisfies_target t) incoming = true) as ->.
    { apply existsb_exists. exists x. split; [by apply list_elem_of_In|done]. }
    by destruct (satisfies_config _ _ Hs) as [_ ->].
Qed.

Lemma desired_new config created :
  desired_configs (new_runtime config <$> created) = PlannedTarget.target <$> created.
Proof. unfold desired_configs. induction created as [|c l IH]; cbn; [done|by rewrite IH]. Qed.

Lemma desired_after incoming plan s s' :
  planned incoming s plan → updated incoming plan s s' → config_ids (targets s) → NoDup (desired_ids (targets s)) →
  desired_configs (targets s') ≡ₚ incoming.
Proof.
  intros Hp Hu Hids Hnd. rewrite (up_targets _ _ _ _ Hu). unfold desired_configs. rewrite omap_app.
  change (desired_configs (omap (retire incoming) (targets s)) ++ desired_configs (new_runtime (config s) <$> UpdatePlan.created plan)
    ≡ₚ incoming).
  rewrite desired_kept, desired_new, (pl_created _ _ _ Hp).
  pose proof (NoDup_fmap_1 _ _ (pl_ids _ _ _ Hp)) as Hin.
  apply NoDup_Permutation; [|done|].
  - apply NoDup_app. split; [|split; [|by apply NoDup_filter]].
    + rewrite desired_ids_configs in Hnd by done. apply NoDup_fmap_1 in Hnd. eapply sublist_NoDup; [exact Hnd|].
      apply sublist_omap. intros t y. destruct (existsb _ incoming) eqn:Hex; [|done].
      by apply existsb_exists in Hex as (x & _ & [-> _]%satisfies_config).
    + intros x [_ Hs]%satisfied_iff [Hu' _]%list_elem_of_filter. done.
  - intros x. rewrite elem_of_app, satisfied_iff, list_elem_of_filter. destruct (decide (unsatisfied (targets s) x)); tauto.
Qed.

(** ** The invariant across an update *)
Lemma live_generation_if t :
  live_generation t = if is_terminal (phase t) then None else Some (TargetInstance.generation (instance t)).
Proof. unfold live_generation, is_terminal. by destruct (phase t). Qed.

Lemma retire_generations incoming l :
  (outcome_generation <$> omap (removed incoming) l) ++ omap live_generation (omap (retire incoming) l)
  ≡ₚ omap live_generation l.
Proof.
  induction l as [|t l IH]; [done|]. cbn [omap list_omap].
  rewrite (live_generation_if t). unfold retire at 1, removed at 1, mark.
  destruct (retirement incoming t) as [[reason []]|]; cbn [omap list_omap]; rewrite ?live_generation_if; cbn [phase set_membership instance];
    destruct (is_terminal (phase t)); try exact IH; cbn [fmap list_fmap app].
  - by constructor.
  - rewrite <-Permutation_middle. by constructor.
  - rewrite <-Permutation_middle. by constructor.
Qed.

Lemma new_generations config (created : list PlannedTarget.t) :
  omap live_generation (new_runtime config <$> created) = PlannedTarget.generation <$> created.
Proof. induction created as [|c l IH]; cbn; [done|by rewrite IH]. Qed.

Lemma retire_Forall incoming (P : TargetRuntime → Prop) l :
  (∀ reason t, P t → P (set_membership (Withdrawn reason) t)) → Forall P l → Forall P (omap (retire incoming) l).
Proof.
  intros HP Hl. induction Hl as [|t l Ht _ IH]; [constructor|]. cbn. unfold retire, mark.
  destruct (retirement incoming t) as [[reason []]|]; cbn; [done|constructor; auto|constructor; auto].
Qed.

Lemma updated_ok incoming plan s s' :
  planned incoming s plan → updated incoming plan s s' → driver_ok s →
  targets_ok s' ∧ (1 <= Control.next_generation (control s') <= U64_MAX) ∧
  len (targets s') <= ManagedClientConfig.max_live_target_generations (config s') ∧
  config_ids (targets s') ∧ NoDup (desired_ids (targets s')) ∧
  Control.applied_command_sequence (control s') = Control.applied_command_sequence (control s) + 1 ∧
  Control.applied_command_sequence (control s') <= U64_MAX.
Proof.
  intros Hp Hu [[Hd Hw Hsc Hst Hh Hg Hon] Hn Hl Hci Hnd Ha Hap].
  pose proof (up_targets _ _ _ _ Hu) as Htg. pose proof (up_config _ _ _ _ Hu) as Hc.
  pose proof (up_events _ _ _ _ Hu) as (evs & Hev & Hfin & Hhist).
  pose proof (len_nonneg (UpdatePlan.created plan)) as Hcl.
  assert (Forall (target_wf (config s)) (new_runtime (config s) <$> UpdatePlan.created plan)) as Hwn.
  { apply Forall_fmap. eapply Forall_impl; [exact (pl_client _ _ _ Hp)|]. intros c Hcc. unfold settings_ok in Hd.
    split; [|cbn; lia]. unfold phase_wf. cbn. rewrite Hcc. by apply typed_for, Hd. }
  assert (config_ids (targets s')) as Hci'.
  { unfold config_ids. rewrite Htg. apply Forall_app. split; [by apply retire_Forall|].
    apply Forall_fmap, Forall_forall. done. }
  split; [split|].
  - by rewrite Hc.
  - rewrite Hc, Htg. apply Forall_app. split; [|done]. apply retire_Forall; [|done]. intros reason t []. by split.
  - by apply (up_scan _ _ _ _ Hu).
  - apply Hu.
  - rewrite Hhist, Hh, Hc. unfold all_finished. rewrite Hev, finished_app, Hfin, record_all_app. done.
  - unfold all_finished, live_generations. rewrite Hev, finished_app, Hfin, Htg, omap_app, fmap_app.
    rewrite (up_next _ _ _ _ Hu), (pl_next _ _ _ Hp), new_generations, (pl_generations _ _ _ Hp).
    rewrite <-!app_assoc, (app_assoc (outcome_generation <$> _) (omap live_generation _)), retire_generations, app_assoc.
    unfold all_finished, live_generations in Hg. rewrite Hg.
    replace (Control.next_generation (control s) + len (UpdatePlan.created plan) - 1)
      with (Control.next_generation (control s) - 1 + len (UpdatePlan.created plan)) by lia.
    rewrite seqZ_app by lia. by replace (1 + (Control.next_generation (control s) - 1)) with (Control.next_generation (control s)) by lia.
  - rewrite Htg. apply Forall_app. split.
    + apply retire_Forall; [intros reason t Ho; by apply (on_time_client _ t)|].
      eapply Forall_impl; [exact Hon|]. intros t. apply on_time_later, (up_clock _ _ _ _ Hu).
    + apply Forall_fmap, Forall_forall. intros c _. by apply on_time_none.
  - rewrite (up_next _ _ _ _ Hu), (up_applied _ _ _ _ Hu), (pl_sequence _ _ _ Hp).
    pose proof (pl_bound _ _ _ Hp) as Hb. pose proof (pl_applied _ _ _ Hp) as Hpa. rewrite (pl_sequence _ _ _ Hp) in Hpa.
    rewrite (pl_next _ _ _ Hp) in *. split; [lia|]. split; [|split; [done|split; [|split; [done|lia]]]].
    + rewrite Htg, Hc, len_app, len_fmap, <-(pl_count _ _ _ Hp). apply Hp.
    + rewrite desired_ids_configs, (desired_after _ _ _ _ Hp Hu Hci Hnd) by done. apply Hp.
Qed.
End update.
