(* ===== verification/ManagedRun.v ===== *)
(** * irtt-client: polls of the managed driver

    One poll of [ManagedClientTask] is total and keeps [driver_ok], whatever the
    other threads, the sockets and the clock do ([poll_ok]); what a poll may
    change of the task's progress is [progress]. *)

From S2P Require Import Prelude ProtoBase Envelope ParamsCodec ClientBase ClientNegotiation ClientEvent Machine Client.
From S2P Require Import Timing MachineInv Schedule ManagedBase ManagedTask ManagedTarget ManagedPacing ManagedUpdate Managed ManagedLogic ManagedSpecs.
From S2P Require Import ManagedPolls ManagedInv ManagedUpdateSpec.

Section run.
Context `{Clocks} `{Target} `{!HmacMd5} `{AsyncSessionLaws}.

(** A task that has not ended. *)
Record alive (s : Task) : Prop := {
  al_phase : task_is_terminal (task_phase s) = false;
  al_observed : Control.stop_observed (control s) = true → task_phase s = Stopping;
  al_admission : task_phase s = Stopping → Shared.admission (shared s) ≠ AdmitOpen;
}.

(** Every command submitted, answered or queued. *)
Definition submitted (s : Task) : list (list ManagedTargetConfig.t) :=
  (Shared.acknowledged (shared s)).*1 ++ Shared.commands (shared s).

(** A generation that is still there: the same target, an ended one unchanged, a
    withdrawn one not desired again, one being stopped only winding down. *)
Record kept (s : Task) (t t' : TargetRuntime) : Prop := {
  kp_instance : instance t' = instance t;
  kp_config : target_config t' = target_config t;
  kp_terminal : is_terminal (phase t) = true → phase t' = phase t;
  kp_desired : is_desired (membership t') = true → is_desired (membership t) = true;
  kp_winding : target_stopping s t = true → winding (lifecycle (phase t)) (lifecycle (phase t')) = true;
}.
(** Every target is a new generation or a kept one. *)
Definition targets_kept (s s' : Task) : Prop :=
  ∀ t', t' ∈ targets s' →
    Control.next_generation (control s) <= TargetInstance.generation (instance t') ∨
    ∃ t, t ∈ targets s ∧ kept s t t'.

Record progress (s s' : Task) : Prop := {
  pg_config : config s' = config s;
  pg_events : ∃ evs, Published.events (published s') = Published.events (published s) ++ evs;
  pg_answered : ∃ acks, Shared.acknowledged (shared s') = Shared.acknowledged (shared s) ++ acks;
  pg_submitted : ∃ commands, submitted s' = submitted s ++ commands;
  pg_next : Control.next_generation (control s) <= Control.next_generation (control s');
  pg_applied : Control.applied_command_sequence (control s) <= Control.applied_command_sequence (control s');
  pg_observed : Control.stop_observed (control s) = true → Control.stop_observed (control s') = true;
  pg_requested : Shared.requested (shared s) = true → Shared.requested (shared s') = true;
  pg_stopping : is_stopping (task_phase s) = true →
    is_running (task_phase s') = false ∧ is_stopping (task_phase s') || task_is_terminal (task_phase s') = true ∧
    Control.next_generation (control s') = Control.next_generation (control s) ∧
    Control.applied_command_sequence (control s') = Control.applied_command_sequence (control s);
  pg_targets : targets_kept s s';
}.

Lemma kept_refl s t : kept s t t.
Proof. split; try done. intros _. apply winding_refl. Qed.
Lemma kept_same s s' : targets s' = targets s → targets_kept s s'.
Proof. intros Ht t' Hin. rewrite Ht in Hin. right. exists t'. split; [done|apply kept_refl]. Qed.

Lemma prefix_refl {A} (l : list A) : ∃ k, l = l ++ k.
Proof. exists []. by rewrite app_nil_r. Qed.
Lemma prefix_trans {A} (l1 l2 l3 : list A) : (∃ k, l2 = l1 ++ k) → (∃ k, l3 = l2 ++ k) → ∃ k, l3 = l1 ++ k.
Proof. intros [k1 ->] [k2 ->]. exists (k1 ++ k2). by rewrite app_assoc. Qed.

Lemma progress_refl s : task_is_terminal (task_phase s) = false → progress s s.
Proof.
  intros _. split; try done; try apply prefix_refl.
  - intros Hs. rewrite Hs. destruct (task_phase s); naive_solver.
  - by apply kept_same.
Qed.

Lemma progress_steps s1 s2 s3 : alive s2 → progress s1 s2 → progress s2 s3 → progress s1 s3.
Proof.
  intros Hal [A1 B1 C1 D1 E1 F1 G1 R1 S1 T1] [A2 B2 C2 D2 E2 F2 G2 R2 S2 T2].
  assert (is_stopping (task_phase s1) = true → is_stopping (task_phase s2) = true) as Hst12.
  { intros Hs. destruct (S1 Hs) as (_ & Hst & _). by rewrite (al_phase _ Hal), orb_false_r in Hst. }
  split; try (by eapply prefix_trans); try congruence; try lia; auto.
  - intros Hs. destruct (S1 Hs) as (Hr & _ & Hn & Ha). destruct (S2 (Hst12 Hs)) as (Hr2 & Hst2 & Hn2 & Ha2).
    split; [done|]. split; [done|]. split; congruence.
  - intros t3 Hin3. destruct (T2 _ Hin3) as [Hg | (t2 & Hin2 & [I2 C2' Z2 M2 W2])]; [left; lia|].
    destruct (T1 _ Hin2) as [Hg | (t1 & Hin1 & [I1 C1' Z1 M1 W1])]; [left; by rewrite I2|].
    right. exists t1. split; [done|]. split; try congruence; auto.
    + intros Ht. rewrite Z2; [by apply Z1|]. by rewrite Z1.
    + intros Hs. eapply winding_trans; [by apply W1|]. apply W2.
      unfold target_stopping, effective_retirement in *. apply orb_true_iff in Hs as [Hs|Hs]; [by rewrite Hst12|].
      apply orb_true_iff. right. destruct (membership t2) eqn:Em2; [|done]. by destruct (membership t1); [|specialize (M1 eq_refl)].
Qed.

(** An operation of the poll: total, the invariant again, and progress. *)
Definition op_ok {A} (m : D A) : Prop :=
  ∀ s Φ, driver_ok s → alive s →
    (∀ a s', driver_ok s' → alive s' → progress s s' → Φ a s') → wp m Φ s.

Lemma op_bind {A B} (m : D A) (k : A → D B) : op_ok m → (∀ a, op_ok (k a)) → op_ok (m ≫= k).
Proof.
  intros Hm Hk s Φ Hs Ha HΦ. apply wp_bind, Hm; [done|done|]. intros a s1 Hs1 Ha1 Hp1.
  apply Hk; [done|done|]. intros b s2 Hs2 Ha2 Hp2. apply HΦ; [done|done|]. exact (progress_steps _ _ _ Ha1 Hp1 Hp2).
Qed.
Lemma op_ret {A} (a : A) : op_ok (mret a).
Proof. intros s Φ Hs Ha HΦ. apply wp_ret, HΦ; [done|done|]. apply progress_refl, Ha. Qed.
Lemma op_gets {A} (f : Task → A) : op_ok (gets f).
Proof. intros s Φ Hs Ha HΦ. apply wp_gets, HΦ; [done|done|]. apply progress_refl, Ha. Qed.
Lemma op_if {A} (b : bool) (m n : D A) : op_ok m → op_ok n → op_ok (if b then m else n).
Proof. by destruct b. Qed.

(** ** Passes over the targets *)
Lemma evolves_ids s s' : evolves s s' → desired_ids (targets s') = desired_ids (targets s) ∧
  (config_ids (targets s) → config_ids (targets s')).
Proof.
  intros [_ _ _ Hf _]. unfold desired_ids, config_ids. induction Hf as [|t t' l l' [(Hi & Hc & Hm & _) _ _] _ IH]; [done|].
  destruct IH as [IH1 IH2]. cbn. rewrite Hm, Hi, IH1. split; [done|].
  rewrite !Forall_cons. intros [Ha Hb]. split; [by rewrite Hc, Hi|auto].
Qed.

Lemma pass_op {A} (m : D A) : pass m → op_ok m.
Proof.
  intros Hm s Φ [Ht Hn Hl Hci Hnd Hac Hap] [Ha1 Ha2 Ha3] HΦ. apply Hm; [done|]. intros a s' Ht' He.
  destruct (evolves_ids _ _ He) as [Hi Hc]. pose proof (evolves_len _ _ He) as Hlen.
  pose proof He as [Ec Ek Es _ (evs & Ev) _]. apply HΦ.
  - split; try done; rewrite ?Ek, ?Es, ?Ec, ?Hi, ?Hlen; auto. by apply Hc.
  - unfold task_phase in *. split; unfold task_phase; rewrite ?Ek, ?Es; done.
  - assert (progress s s) as [] by by apply progress_refl.
    unfold submitted, task_phase in *. split; unfold submitted, task_phase; rewrite ?Ek, ?Es; try done; [by exists evs|].
    intros t' (i & Hi')%list_elem_of_lookup. pose proof (ev_targets _ _ He) as Hf.
    destruct (Forall2_lookup_r _ _ _ _ _ Hf Hi') as (t & Hit & [(HI & HC & HM & _) HT HW]).
    right. exists t. split; [by eapply list_elem_of_lookup_2|]. split; [done|done| |by rewrite HM|done].
    intros Hterm. rewrite HT; [done|]. unfold terminal_outcome, is_terminal in *. by destruct (phase t).
Qed.

(** ** Other threads *)
Lemma update_targets_frame observed targets config sh :
  let sh' := (update_targets observed targets config sh).2 in
  Shared.requested sh' = Shared.requested sh ∧ Shared.admission sh' = Shared.admission sh ∧
  Shared.acknowledged sh' = Shared.acknowledged sh ∧ Shared.receiver_closed sh' = Shared.receiver_closed sh ∧
  (∃ k, Shared.commands sh' = Shared.commands sh ++ k ∧ (Shared.receiver_closed sh = true → k = [])).
Proof.
  unfold update_targets. destruct observed; try (repeat split; exists []; by rewrite app_nil_r).
  destruct (_ <? _); [repeat split; exists []; by rewrite app_nil_r|].
  destruct (Shared.receiver_closed sh) eqn:Hc; [repeat split; try done; exists []; by rewrite app_nil_r|].
  destruct (_ <=? _); [repeat split; try done; exists []; by rewrite app_nil_r|].
  cbn. repeat split; try done. by exists [targets].
Qed.

(** What other threads may do to the shared cells. *)
Record interfered (sh sh' : Shared.t) : Prop := {
  if_requested : Shared.requested sh = true → Shared.requested sh' = true;
  if_admission : Shared.admission sh ≠ AdmitOpen → Shared.admission sh' = Shared.admission sh;
  if_acknowledged : Shared.acknowledged sh' = Shared.acknowledged sh;
  if_commands : ∃ k, Shared.commands sh' = Shared.commands sh ++ k ∧ (Shared.receiver_closed sh = true → k = []);
  if_closed : Shared.receiver_closed sh' = Shared.receiver_closed sh;
}.

Lemma handle_call_interfered config call sh : interfered sh (handle_call config call sh).
Proof.
  destruct call as [|observed targets]; cbn.
  - split; try done; cbn; [by destruct (Shared.admission sh)|]. exists []. by rewrite app_nil_r.
  - pose proof (update_targets_frame observed targets config sh) as (Hr & Ha & Hk & Hc & Hq). split; congruence.
Qed.

Lemma interfered_trans a b c : interfered a b → interfered b c → interfered a c.
Proof.
  intros [R1 A1 K1 (k1 & Q1 & N1) C1] [R2 A2 K2 (k2 & Q2 & N2) C2]. split; auto; try congruence.
  - intros Hn. rewrite A2; [by apply A1|]. by rewrite A1.
  - exists (k1 ++ k2). rewrite Q2, Q1, app_assoc. split; [done|]. intros Hc. rewrite N1 by done. apply N2. by rewrite C1.
Qed.

Lemma interfered_refl a : interfered a a.
Proof. split; try done. exists []. by rewrite app_nil_r. Qed.

Lemma wp_interfere s Φ :
  (∀ sh w, interfered (shared s) sh → clock (world s) <= clock w → Φ tt (set_shared sh (set_world w s))) →
  wp interfere Φ s.
Proof.
  intros HΦ. unfold wp, interfere. pose proof (handle_calls_later (world s)) as Hl.
  destruct (handle_calls (world s)) as [calls w]. apply HΦ; [clear Hl|done].
  generalize (shared s). induction calls as [|call calls IH]; intros sh; cbn; [apply interfered_refl|].
  eapply interfered_trans; [apply handle_call_interfered|apply IH].
Qed.

Lemma interfered_ok sh w s : interfered (shared s) sh → clock (world s) <= clock w → driver_ok s → alive s →
  driver_ok (set_shared sh (set_world w s)) ∧ alive (set_shared sh (set_world w s)) ∧
  progress s (set_shared sh (set_world w s)).
Proof.
  intros [Hr Ha Hk (k & Hq & _) Hc] Hlater [[Hd Hw Hsc Hst Hh Hg Hon] Hn Hl Hci Hnd Hac Hap] [A1 A2 A3].
  split; [|split].
  - split; try done; [split; try done|unfold applied_sequences; cbn; by rewrite Hk].
    eapply Forall_impl; [exact Hon|]. intros t. by apply on_time_later.
  - split; try done. intros Hp. cbn. rewrite Ha; by apply A3.
  - pose proof (progress_refl s A1) as []. split; try done; cbn; [by rewrite Hk|].
    unfold submitted. cbn. rewrite Hk, Hq, app_assoc. by exists k.
Qed.

Lemma interfere_op : op_ok interfere.
Proof. intros s Φ Hs Ha HΦ. apply wp_interfere. intros sh w Hi Hlw. by edestruct interfered_ok as (? & ? & ?); eauto. Qed.

Lemma is_requested_op : op_ok is_requested.
Proof. apply op_bind; [apply interfere_op|]. intros []. apply op_gets. Qed.

(** ** Changes of progress, status and shared cells *)
Record same_work (s s' : Task) : Prop := {
  sw_config : config s' = config s;
  sw_targets : targets s' = targets s;
  sw_history : history s' = history s;
  sw_next : Control.next_generation (control s') = Control.next_generation (control s);
  sw_applied : Control.applied_command_sequence (control s') = Control.applied_command_sequence (control s);
  sw_acks : applied_sequences (shared s') = applied_sequences (shared s);
  sw_events : ∃ evs, Published.events (published s') = Published.events (published s) ++ evs ∧ finished evs = [];
  sw_clock : clock (world s) <= clock (world s');
}.

Lemma driver_ok_change s s' :
  driver_ok s → same_work s s' → scan_ok (len (targets s)) (scan s') → status_current s' → driver_ok s'.
Proof.
  intros [[Hd Hw Hsc Hst Hh Hg Hon] Hn Hl Hci Hnd Hac Hap] [Ec Et Eh En Ea Ek (evs & Ev & Ef) El] Hsc' Hst'.
  assert (all_finished s' = all_finished s) as Hf by (unfold all_finished; by rewrite Ev, finished_app, Ef, app_nil_r).
  split; rewrite ?Ec, ?Et, ?En, ?Ea, ?Ek; try done. split; unfold live_generations in *; rewrite ?Ec, ?Et, ?Eh, ?En, ?Hf; try done.
  eapply Forall_impl; [exact Hon|]. intros t. by apply on_time_later.
Qed.

(** The task may have been told to stop; then [observe_stop] makes it known. *)
Lemma wp_observe_stop s Φ :
  driver_ok s → alive s →
  (∀ s', driver_ok s' → alive s' → progress s s' → targets s' = targets s →
    Control.stop_observed (control s') = true → Φ tt s') →
  wp observe_stop Φ s.
Proof.
  intros Hs Ha HΦ. unfold observe_stop. apply wp_bind, wp_gets. apply wp_if; intros Hob.
  { apply wp_ret, HΦ; [done|done| |done|done]. apply progress_refl, Ha. }
  apply wp_bind, wp_gets, wp_bind, wp_modify, wp_bind, wp_modify, wp_bind.
  set (s1 := set_shared _ _). set (s2 := set_published _ s1).
  pose proof (d_scan _ (d_targets _ Hs)) as [].
  assert (∀ evs s3, finished evs = [] →
    s3 = set_scan (Scan.set_send (Scan.send_cursor (scan s)) 0 (Scan.stagger_remaining (scan s))
      (Scan.set_target (Scan.cursor (scan s)) (len (targets s)) (scan s)))
      (set_published (Published.mk (snapshot s1) (Published.events (published s) ++ evs)) s1) → Φ tt s3) as Hend.
  { intros evs s3 Hf ->. apply HΦ.
    - apply (driver_ok_change s); [done|split; try done; by exists evs| |done].
      pose proof (len_nonneg (targets s)). split; cbn; done || lia.
    - split; try done. intros _. cbn. by destruct (Shared.admission (shared s)).
    - pose proof (progress_refl s (al_phase _ Ha)) as [? ? ? ? ? ? ? ? ?].
      split; try done. by exists evs.
    - done.
    - done. }
  apply wp_if; intros _.
  - apply wp_publish_event, wp_modify. by apply (Hend [EvStopping]).
  - apply wp_ret, wp_modify. apply (Hend []); [done|]. by rewrite app_nil_r.
Qed.

Lemma wp_check_stop s Φ :
  driver_ok s → alive s →
  (∀ s', driver_ok s' → alive s' → progress s s' → targets s' = targets s →
    (Shared.requested (shared s) = true → Control.stop_observed (control s') = true) → Φ tt s') →
  wp check_stop Φ s.
Proof.
  intros Hs Ha HΦ. unfold check_stop, is_requested. apply wp_bind, wp_bind, wp_interfere. intros sh w Hi Hlw.
  destruct (interfered_ok sh w s Hi Hlw Hs Ha) as (Hs1 & Ha1 & Hp1). apply wp_gets, wp_if; intros Hreq.
  - apply wp_observe_stop; [done|done|]. intros s2 Hs2 Ha2 Hp2 Ht2 Ho2. apply HΦ; try done.
    exact (progress_steps _ _ _ Ha1 Hp1 Hp2).
  - apply wp_ret, HΦ; try done. intros Hr. cbn in Hreq. by rewrite (if_requested _ _ Hi Hr) in Hreq.
Qed.

Lemma observe_stop_op : op_ok observe_stop.
Proof. intros s Φ Hs Ha HΦ. apply wp_observe_stop; auto. Qed.
Lemma check_stop_op : op_ok check_stop.
Proof. intros s Φ Hs Ha HΦ. apply wp_check_stop; auto. Qed.

(** ** Commands *)
Lemma validate_total config : no_panic (validate_target_config config).
Proof.
  unfold validate_target_config. apply no_panic_bind; [|intros _ _; apply no_panic_bind; [|intros _ _]].
  - apply open_policy_no_panic.
  - unfold validate_config, invalid_config. destruct (_ =? 0); [done|]. destruct (_ =? 0); [done|].
    apply no_panic_bind; [apply params_from_request_no_panic|done].
  - unfold validate_ttl. by repeat case_match.
Qed.

Lemma plan_total (incoming : list ManagedTargetConfig.t) (s : Task) : no_panic (plan_targets incoming s).
Proof.
  unfold plan_targets. apply no_panic_bind; [|intros prepared _; apply no_panic_bind; [|intros [created last] _]].
  - generalize (@nil TargetId). induction incoming as [|x l IH]; intros ids; cbn [prepare_targets]; [done|].
    case_bool_decide; [done|]. apply no_panic_bind; [|intros _ _; apply no_panic_bind; [apply IH|done]].
    pose proof (validate_total (client_config_for (ManagedClientConfig.client (config s)) x)) as Hv.
    by destruct (validate_target_config _).
  - generalize (Control.next_generation (control s)). induction prepared as [|[x cc] l IH]; intros g; cbn [plan_created]; [done|].
    destruct (existsb _ _); [apply IH|]. apply no_panic_bind; [by unfold ok_or; destruct (try_u64 _)|]. intros n _.
    apply no_panic_bind; [apply IH|]. by intros [? ?].
  - apply no_panic_bind; [by unfold ok_or; destruct (try_u64 _)|]. intros n _. by destruct (_ <? _).
Qed.

(** Answering a command: the transaction, or the error. *)
Lemma wp_apply_targets incoming s Φ :
  driver_ok s →
  (∀ err, plan_targets incoming s = Err err → Φ (Err err) s) →
  (∀ plan s', plan_targets incoming s = Ok plan → planned incoming s plan → updated incoming plan s s' →
    Φ (Ok (ManagedCommandAcknowledgement.mk (Control.applied_command_sequence (control s')) (snapshot s'))) s') →
  wp (apply_targets incoming) Φ s.
Proof.
  intros Hs Herr Hok. unfold apply_targets. apply wp_bind, wp_gets.
  destruct (plan_targets incoming s) as [plan|err|] eqn:Hp.
  - assert (planned incoming s plan) as Hpl by (apply plan_ok; [apply Z.le_trans with 1; [lia|apply Hs]|done]).
    apply wp_bind, wp_gets. pose proof (pl_limit _ _ _ Hpl).
    destruct (Z.leb_spec (UpdatePlan.prospective_live_count plan) (ManagedClientConfig.max_live_target_generations (config s))); [|lia].
    apply wp_bind. apply (wp_apply_plan incoming); [done|]. intros s' Hu. apply wp_ret.
    rewrite (up_status _ _ _ _ Hu). by apply Hok with plan.
  - apply wp_ret. by apply Herr.
  - by destruct (plan_total incoming s).
Qed.

(** A command taken from the queue and answered: the queue's head moves to the
    answers, other commands may have arrived. *)
Record answered (incoming : list ManagedTargetConfig.t) (rest : list (list ManagedTargetConfig.t)) (s s' : Task) : Prop := {
  an_config_ : config s' = config s;
  an_events_ : ∃ evs, Published.events (published s') = Published.events (published s) ++ evs;
  an_acks : ∃ r, Shared.acknowledged (shared s') = Shared.acknowledged (shared s) ++ [(incoming, r)];
  an_queue : ∃ k, Shared.commands (shared s') = rest ++ k;
  an_next_ : Control.next_generation (control s) <= Control.next_generation (control s');
  an_applied_ : Control.applied_command_sequence (control s) <= Control.applied_command_sequence (control s');
  an_observed : Control.stop_observed (control s') = Control.stop_observed (control s);
  an_requested : Shared.requested (shared s) = true → Shared.requested (shared s') = true;
  an_stopping : is_stopping (task_phase s) = true → control s' = control s;
  an_kept : targets_kept s s';
}.

Lemma updated_kept incoming plan s s' : planned incoming s plan → updated incoming plan s s' → targets_kept s s'.
Proof.
  intros Hp Hu t'. rewrite (up_targets _ _ _ _ Hu), elem_of_app. intros [Hin|Hin].
  - right. apply list_elem_of_omap in Hin as (t & Hin & Hr). exists t. split; [done|].
    assert (t' = t ∨ ∃ reason, t' = set_membership (Withdrawn reason) t) as [-> | [reason ->]].
    { unfold retire, mark in Hr. destruct (retirement incoming t) as [[reason []]|]; simplify_eq; eauto. }
    + apply kept_refl.
    + split; try done. intros _. apply winding_refl.
  - left. apply list_elem_of_fmap in Hin as (c & -> & Hin).
    assert (PlannedTarget.generation c ∈ PlannedTarget.generation <$> UpdatePlan.created plan) as Hg by (by apply list_elem_of_fmap_2).
    rewrite (pl_generations _ _ _ Hp) in Hg. apply elem_of_seqZ in Hg. cbn. lia.
Qed.

Lemma answered_progress incoming rest s s' :
  Shared.commands (shared s) = incoming :: rest → answered incoming rest s s' → progress s s'.
Proof.
  intros Hq [Ec (evs & Ev) (r & Ek) (k & Eq) En Ea Eo Er Est Eg]. split; try done.
  - by exists evs.
  - by eexists.
  - exists k. unfold submitted. rewrite Ek, Eq, Hq, fmap_app, <-!app_assoc. done.
  - congruence.
  - intros Hs. rewrite (Est Hs). unfold task_phase in *. rewrite (Est Hs), Hs. by destruct (Control.phase (control s)).
Qed.

Lemma applied_sequences_app sh incoming r :
  applied_sequences (acknowledge incoming r sh)
  = applied_sequences sh ++ match r with Ok ack => [ManagedCommandAcknowledgement.sequence ack] | _ => [] end.
Proof. unfold applied_sequences. cbn. rewrite omap_app. by destruct r. Qed.

Lemma updated_begin_stopping (b : bool) sh :
  (if b then begin_stopping sh else sh) = Shared.mk (Shared.requested sh)
    (if b then match Shared.admission sh with AdmitOpen => AdmitStopping | a => a end else Shared.admission sh)
    (Shared.wake sh) (Shared.commands sh) (Shared.receiver_closed sh) (Shared.acknowledged sh).
Proof. destruct b, sh; done. Qed.

Lemma wp_answer incoming rest s Φ :
  driver_ok s → alive s → Shared.commands (shared s) = incoming :: rest →
  (∀ s', driver_ok s' → alive s' → progress s s' → Φ tt s') →
  wp (answer_command incoming) Φ (set_shared (set_commands rest (shared s)) s).
Proof.
  intros Hs Ha Hq HΦ. pose proof (al_observed _ Ha) as Hobs. pose proof (al_phase _ Ha) as Hph.
  unfold answer_command. apply wp_bind, wp_gets.
  assert (∀ s2, driver_ok s2 → alive s2 → targets s2 = targets s → config s2 = config s → control s2 = control s → published s2 = published s →
    Shared.acknowledged (shared s2) = Shared.acknowledged (shared s) → (∃ k, Shared.commands (shared s2) = rest ++ k) →
    (Shared.requested (shared s) = true → Shared.requested (shared s2) = true) →
    wp (modify (λ s, set_shared (acknowledge incoming (Err ApplyStopping) (shared s)) s)) Φ s2) as Hrefuse.
  { intros s2 Hs2 Ha2 Et Ec Ek Ep Eack (k & Eq) Er. apply wp_modify, HΦ.
    - apply (driver_ok_change s2); [done| |apply (d_scan _ (d_targets _ Hs2))|apply (d_status _ (d_targets _ Hs2))].
      split; try done; [etransitivity; [apply applied_sequences_app|apply app_nil_r]|].
      exists []. by rewrite app_nil_r.
    - by destruct Ha2.
    - apply (answered_progress incoming rest); [done|]. split; cbn; rewrite ?Ek, ?Ep; try done; [by exists []; rewrite app_nil_r|by rewrite Eack; eexists|by exists k|by apply kept_same]. }
  assert (driver_ok (set_shared (set_commands rest (shared s)) s)) as Hs1.
  { apply (driver_ok_change s); [done| |apply (d_scan _ (d_targets _ Hs))|apply (d_status _ (d_targets _ Hs))].
    split; try done. exists []. by rewrite app_nil_r. }
  assert (alive (set_shared (set_commands rest (shared s)) s)) as Ha1 by by destruct Ha.
  destruct (is_running _) eqn:Hrun; cbn [negb orb].
  2:{ apply wp_bind, wp_ret, wp_bind, wp_ret, Hrefuse; try done. exists []. by rewrite app_nil_r. }
  assert (task_phase s = Running) as Hr by (revert Hrun; unfold task_phase; cbn; by destruct (Control.phase (control s))).
  apply wp_bind, wp_bind, wp_interfere. intros sh w Hi Hlw. apply wp_gets, wp_bind.
  set (s1 := set_shared (set_commands rest (shared s)) s) in *.
  destruct (interfered_ok sh w s1 Hi Hlw Hs1 Ha1) as (Hs2 & Ha2 & _). set (s2 := set_shared sh (set_world w s1)) in *.
  destruct Hi as [Ireq Iadm Iack (k & Iq & _) Icl]. cbn in Ireq, Iack, Iq.
  case_bool_decide as Hopen; cbn [negb].
  2:{ apply wp_ret, Hrefuse; try done. by exists k. }
  apply wp_apply_targets; [done|intros err _|intros plan s3 _ Hpl Hu].
  - apply wp_modify, HΦ.
    + apply (driver_ok_change s2); [done| |apply (d_scan _ (d_targets _ Hs2))|apply (d_status _ (d_targets _ Hs2))].
      split; try done; [etransitivity; [apply applied_sequences_app|apply app_nil_r]|].
      exists []. by rewrite app_nil_r.
    + by destruct Ha2.
    + apply (answered_progress incoming rest); [done|]. split; cbn; try done; [by exists []; rewrite app_nil_r|by rewrite Iack; eexists|by exists k|by apply kept_same].
  - destruct (updated_ok _ _ _ _ Hpl Hu Hs2) as (Ht & Hn & Hl & Hci & Hnd & Happ & Hb).
    pose proof (d_acks _ Hs2) as Hac. pose proof (d_applied _ Hs2) as Hap.
    pose proof (up_shared _ _ _ _ Hu) as Hsh. rewrite updated_begin_stopping in Hsh.
    pose proof (up_events _ _ _ _ Hu) as (evs & Hev & _).
    apply wp_modify, HΦ.
    + split; [by destruct Ht|done|done|done|done| |cbn in *; lia].
      etransitivity; [apply applied_sequences_app|]. cbn [ManagedCommandAcknowledgement.sequence control set_shared].
      assert (applied_sequences (shared s3) = applied_sequences (shared s2)) as -> by (unfold applied_sequences; by rewrite Hsh).
      rewrite Hac, Happ, seqZ_app by lia. f_equal. by rewrite (Z.add_comm 1).
    + split; cbn.
      * pose proof (up_phase _ _ _ _ Hu) as Hp3. unfold task_phase in *. cbn. rewrite Hp3. cbn. rewrite Hr. by destruct (quiescent_stop _).
      * rewrite (up_stop _ _ _ _ Hu). cbn. intros Hso. exfalso. rewrite (Hobs Hso) in Hr. done.
      * intros Hst. rewrite Hsh. cbn. pose proof (up_phase _ _ _ _ Hu) as Hp3. unfold task_phase in *. cbn in *.
        rewrite Hp3, Hr in Hst. destruct (quiescent_stop s3); [|done]. by destruct (Shared.admission sh).
    + apply (answered_progress incoming rest); [done|]. split; cbn.
      * by rewrite (up_config _ _ _ _ Hu).
      * by exists evs.
      * rewrite Hsh. cbn. rewrite Iack. by eexists.
      * rewrite Hsh. by exists k.
      * rewrite (up_next _ _ _ _ Hu), (pl_next _ _ _ Hpl). pose proof (len_nonneg (UpdatePlan.created plan)). cbn. lia.
      * cbn in Happ. lia.
      * by rewrite (up_stop _ _ _ _ Hu).
      * rewrite Hsh. done.
      * by rewrite Hr.
      * intros t' Hin. destruct (updated_kept _ _ _ _ Hpl Hu t' Hin) as [Hg | (t & Hint & [])]; [by left|].
        right. by exists t.
Qed.

Lemma process_commands_op : op_ok process_commands.
Proof.
  unfold process_commands. generalize COMMAND_WORK_BUDGET. intros budget. induction budget as [|budget IH]; cbn [process_commands_loop].
  { apply op_ret. }
  apply op_bind; [apply interfere_op|]. intros []. intros s Φ Hs Ha HΦ. apply wp_bind, wp_gets.
  destruct (Shared.commands (shared s)) as [|incoming rest] eqn:Hq; [by apply op_ret|].
  apply wp_bind, wp_modify, wp_bind. eapply wp_answer; [done|done|done|]. intros s1 Hs1 Ha1 Hp1.
  apply wp_bind, IH; [done|done|]. intros b s2 Hs2 Ha2 Hp2. apply wp_ret, HΦ; [done|done|].
  exact (progress_steps _ _ _ Ha1 Hp1 Hp2).
Qed.

(** ** Pruning and waiting *)
Lemma prune_omap {B} (f : TargetRuntime → option B) (l : list TargetRuntime) :
  (∀ t, withdrawn_terminal t = true → f t = None) →
  omap f (filter (λ t, withdrawn_terminal t = false) l) = omap f l.
Proof.
  intros Hf. induction l as [|t l IH]; [done|]. rewrite filter_cons.
  destruct (decide (withdrawn_terminal t = false)) as [Hw|Hw]; cbn [omap list_omap]; rewrite IH; [done|].
  by rewrite (Hf t) by by apply not_false_is_true.
Qed.

Lemma Forall_kept (P Q : TargetRuntime → Prop) `{∀ t, Decision (Q t)} l : Forall P l → Forall P (filter Q l).
Proof. rewrite !Forall_forall. intros HP t [_ Ht]%list_elem_of_filter. auto. Qed.

Lemma prune_op : op_ok prune_undesired_terminal.
Proof.
  intros s Φ Hs Ha HΦ. unfold prune_undesired_terminal. apply wp_bind, wp_gets.
  apply wp_if; intros _; [|by apply op_ret]. apply wp_bind, wp_modify, wp_modify.
  set (kept := filter (λ t, withdrawn_terminal t = false) (targets s)).
  assert (len kept <= len (targets s)) as Hlen by (unfold len; pose proof (length_filter (λ t, withdrawn_terminal t = false) (targets s)); unfold kept; lia).
  pose proof Hs as [[Hd Hw Hsc Hst Hh Hg Hon] Hn Hl Hci Hnd Hac Hap]. apply HΦ.
  - split; try done; cbn; [split; try done; cbn| | |].
    + by apply Forall_kept.
    + by apply (scan_ok_rebase (len (targets s)) (scan s) (set_targets kept s)).
    + unfold live_generations. cbn. unfold kept. rewrite prune_omap; [done|].
      intros t Hwt. unfold withdrawn_terminal, is_terminal, live_generation in *. destruct (phase t); rewrite ?andb_false_r in Hwt; done.
    + by apply Forall_kept.
    + exact (Z.le_trans _ _ _ Hlen Hl).
    + by apply Forall_kept.
    + unfold desired_ids. unfold kept. rewrite prune_omap; [done|]. intros t Hwt. unfold withdrawn_terminal in Hwt.
      by destruct (is_desired (membership t)).
  - by destruct Ha.
  - pose proof (progress_refl s (al_phase _ Ha)) as []. split; try done.
    intros t' [_ Hin]%list_elem_of_filter. right. exists t'. split; [done|apply kept_refl].
Qed.

Lemma world_op s w : clock (world s) <= clock w → driver_ok s → alive s → driver_ok (set_world w s) ∧ alive (set_world w s) ∧ progress s (set_world w s).
Proof.
  intros Hl Hs Ha. split; [|split; [by destruct Ha|]].
  - apply (driver_ok_change s); [done| |apply (d_scan _ (d_targets _ Hs))|apply (d_status _ (d_targets _ Hs))].
    split; try done. exists []. by rewrite app_nil_r.
  - pose proof (progress_refl s (al_phase _ Ha)) as []. by split.
Qed.

Lemma register_timer_op : op_ok register_timer.
Proof.
  intros s Φ Hs Ha HΦ. unfold register_timer. apply wp_bind, wp_gets.
  destruct (next_deadline s) as [t|]; [|by apply op_ret]. apply wp_bind, wp_gets.
  pose proof (timer_ready_later t (world s)) as Hl. destruct (timer_ready t (world s)) as [fired w]. apply wp_bind, wp_modify, wp_ret.
  by edestruct world_op as (? & ? & ?); eauto.
Qed.

Lemma register_wake_op : op_ok register_stop_wake.
Proof.
  apply op_bind; [apply interfere_op|]. intros []. apply op_bind; [apply op_gets|]. intros woken.
  apply op_if; [|apply op_ret]. apply op_bind; [|intros; apply is_requested_op].
  intros s Φ Hs Ha HΦ. apply wp_modify, HΦ; [|by destruct Ha|].
  - apply (driver_ok_change s); [done| |apply (d_scan _ (d_targets _ Hs))|apply (d_status _ (d_targets _ Hs))].
    split; try done. exists []. by rewrite app_nil_r.
  - pose proof (progress_refl s (al_phase _ Ha)) as []. by split.
Qed.

Lemma poll_work_op : op_ok poll_work.
Proof.
  unfold poll_work. apply op_bind; [apply process_commands_op|]. intros commands.
  apply op_bind; [apply check_stop_op|]. intros _. apply op_bind; [apply pass_op, pass_clock|]. intros now.
  apply op_bind; [apply pass_op, poll_timeout_pass_ok|]. intros timeouts.
  apply op_bind; [apply pass_op, poll_target_pass_ok|]. intros passed.
  apply op_bind; [apply prune_op|]. intros _. apply op_bind; [apply op_gets|]. intros running.
  apply op_bind; [apply op_gets|]. intros pacing. apply op_bind.
  - apply op_if; [|apply op_ret]. destruct pacing; apply pass_op; [apply poll_staggered_send_ok|apply poll_burst_sends_ok].
  - intros sent. apply op_bind; [apply check_stop_op|]. intros _. apply op_ret.
Qed.

(** ** Ends *)
(** The task has ended with an outcome. *)
Record sealed (s' : Task) (outcome : ManagedOutcome.t) : Prop := {
  se_driver : driver_ok s';
  se_phase : task_phase s' = Completed outcome ∨ task_phase s' = TaskFailed outcome;
  se_outcome : outcome = OutcomeHistory.outcome (ManagedOutcome.end_reason outcome)
    (Control.applied_command_sequence (control s')) (history s');
  se_closed : Shared.receiver_closed (shared s') = true ∧ Shared.admission (shared s') = AdmitClosed ∧
    Shared.commands (shared s') = [];
  se_event : last (Published.events (published s')) = Some (match task_phase s' with TaskFailed _ => EvFailed outcome | _ => EvCompleted outcome end);
  se_stop : Control.stop_observed (control s') = true → ManagedOutcome.end_reason outcome ≠ TargetsComplete;
}.

(** What a poll leaves. *)
Definition polled (s : Task) (r : TaskPoll) (s' : Task) : Prop :=
  progress s s' ∧
  match r with
  | TaskPending _ _ => driver_ok s' ∧ alive s'
  | TaskReady outcome => sealed s' outcome ∧
      (task_phase s' = Completed outcome → all_targets_terminal s' = true)
  end.

Lemma drain_commands_frame error sh :
  Shared.acknowledged (drain_commands error sh) = Shared.acknowledged sh ++ ((λ c, (c, Err error)) <$> Shared.commands sh) ∧
  Shared.commands (drain_commands error sh) = [] ∧ Shared.receiver_closed (drain_commands error sh) = Shared.receiver_closed sh ∧
  Shared.admission (drain_commands error sh) = Shared.admission sh ∧ Shared.requested (drain_commands error sh) = Shared.requested sh.
Proof.
  unfold drain_commands. cbn.
  assert (∀ l sh, let sh' := fold_left (λ s command, acknowledge command (Err error) s) l sh in
    Shared.acknowledged sh' = Shared.acknowledged sh ++ ((λ c, (c, Err error)) <$> l) ∧
    Shared.receiver_closed sh' = Shared.receiver_closed sh ∧ Shared.admission sh' = Shared.admission sh ∧
    Shared.requested sh' = Shared.requested sh) as Hfold.
  { intros l. induction l as [|c l IH]; intros sh0; cbn; [by rewrite app_nil_r|].
    destruct (IH (acknowledge c (Err error) sh0)) as (Ha & Hc & Hd & Hr). cbn in Ha, Hc, Hd, Hr.
    split; [|done]. by rewrite Ha, <-app_assoc. }
  destruct (Hfold (Shared.commands sh) sh) as (? & ? & ? & ?). done.
Qed.

Lemma refused_sequences (error : ManagedCommandApplyError) sh sh' :
  Shared.acknowledged sh' = Shared.acknowledged sh ++ ((λ c, (c, Err error)) <$> Shared.commands sh) →
  applied_sequences sh' = applied_sequences sh.
Proof.
  intros Ha. unfold applied_sequences. rewrite Ha, omap_app.
  assert (∀ l : list (list ManagedTargetConfig.t), omap (λ c : list ManagedTargetConfig.t * CommandResult,
    match c.2 with Ok ack => Some (ManagedCommandAcknowledgement.sequence ack) | _ => None end)
    ((λ c, (c, Err error)) <$> l) = []) as Hn by (intros l; induction l; done).
  by rewrite Hn, app_nil_r.
Qed.

Lemma wp_seal reason failed s Φ :
  driver_ok s → alive s →
  (∀ outcome s', progress s s' → sealed s' outcome → targets s' = targets s →
    (Shared.requested (shared s) = true → Control.stop_observed (control s') = true) →
    task_phase s' = (if (failed : bool) then TaskFailed outcome else Completed outcome) → Φ (TaskReady outcome) s') →
  wp (seal reason failed) Φ s.
Proof.
  intros Hs Ha HΦ. unfold seal. apply wp_bind, wp_check_stop; [done|done|]. intros s1 Hs1 Ha1 Hp1 Ht1 Hreq.
  apply wp_bind, wp_gets. set (observed := Control.stop_observed (control s1)).
  set (reason' := match reason with TargetsComplete => if observed then StopRequested else TargetsComplete | r => r end).
  apply wp_bind, wp_modify, wp_bind, wp_interfere. intros sh w Hi Hlw.
  apply wp_bind, wp_modify, wp_bind, wp_gets.
  set (sh' := drain_commands (sealed_command_error reason') (close_receiver sh)).
  set (outcome := OutcomeHistory.outcome _ _ _). cbn [control set_shared set_world history] in outcome.
  apply wp_bind, wp_modify, wp_bind, wp_modify, wp_bind, wp_publish_event, wp_ret.
  set (s2 := set_published _ _).
  destruct Hi as [Ireq Iadm Iack (k & Iq & _) Icl]. cbn in Ireq, Iadm, Iack, Iq.
  pose proof (drain_commands_frame (sealed_command_error reason') (close_receiver sh)) as (Dack & Dq & Dcl & Dadm & Dreq).
  fold sh' in Dack, Dq, Dcl, Dadm, Dreq. assert (shared s2 = sh') as Hsh2 by done. clearbody sh'. cbn in Dack, Dcl, Dadm, Dreq.
  assert (driver_ok s2) as Hs2.
  { apply (driver_ok_change s1); [done| |apply (d_scan _ (d_targets _ Hs1))|done]. split; try done.
    - rewrite Hsh2, (refused_sequences (sealed_command_error reason') (close_receiver sh) sh' Dack).
      unfold applied_sequences. cbn. by rewrite Iack.
    - eexists. split; [done|]. by destruct failed. }
  assert (task_phase s2 = if failed then TaskFailed outcome else Completed outcome) as Hph by done.
  apply (HΦ outcome s2); [|split; try done|done|done|done].
  - apply (progress_steps s s1); [done|done|]. split; try done.
    + by eexists.
    + rewrite Hsh2. rewrite Dack, Iack. by eexists.
    + exists k. unfold submitted. rewrite Hsh2. rewrite Dack, Dq, Iack, Iq, app_nil_r, fmap_app.
      rewrite <-list_fmap_compose. rewrite (list_fmap_ext _ id) by done. by rewrite list_fmap_id, app_assoc.
    + intros Hr. rewrite Hsh2. rewrite Dreq. cbn. auto.
    + intros Hst. rewrite Hph. by destruct failed.
    + by apply kept_same.
  - rewrite Hph. destruct failed; auto.
  - rewrite Hsh2, Dcl, Dadm, Dq. split; [done|]. split; [by apply Iadm|done].
  - rewrite Hph. cbn. rewrite last_snoc. by destruct failed.
  - cbn. intros Hob. unfold reason', observed. rewrite Hob. by destruct reason.
Qed.

(** ** One poll *)
Lemma wp_poll_wait immediate s Φ :
  driver_ok s → alive s → (∀ r s', polled s r s' → Φ r s') → wp (poll_wait immediate) Φ s.
Proof.
  intros Hs Ha HΦ. unfold poll_wait. apply wp_bind, register_wake_op; [done|done|]. intros woken s1 Hs1 Ha1 Hp1.
  apply wp_if; intros _; [by apply wp_ret, HΦ|]. apply wp_bind, register_timer_op; [done|done|].
  intros [fired timer] s2 Hs2 Ha2 Hp2. apply wp_ret, HΦ. split; [exact (progress_steps _ _ _ Ha1 Hp1 Hp2)|done].
Qed.

(** The natural end: [Running] becomes [Stopping] without a request. *)
Lemma natural_stop_ok s :
  driver_ok s → alive s → task_phase s = Running →
  let s1 := set_shared (begin_stopping (shared s)) (set_task_phase Stopping s) in
  let s2 := set_published (Published.mk (snapshot s1) (Published.events (published s1) ++ [EvStopping])) s1 in
  driver_ok s2 ∧ alive s2 ∧ progress s s2.
Proof.
  intros Hs Ha Hr s1 s2. split; [|split].
  - apply (driver_ok_change s); [done| |apply (d_scan _ (d_targets _ Hs))|done]. split; try done. by exists [EvStopping].
  - split; try done. intros _. cbn. by destruct (Shared.admission (shared s)).
  - pose proof (progress_refl s (al_phase _ Ha)) as []. split; try done. by exists [EvStopping].
Qed.

Lemma wp_poll_completion immediate s Φ :
  driver_ok s → alive s → (∀ r s', polled s r s' → Φ r s') →
  wp (poll_completion immediate) Φ s.
Proof.
  intros Hs Ha HΦ. unfold poll_completion. do 4 apply wp_bind, wp_gets.
  assert (wp (poll_wait immediate) Φ s) as Hwait by by apply wp_poll_wait.
  destruct (all_targets_terminal s) eqn:Hterm; [|by destruct (task_phase s)].
  destruct (task_phase s) eqn:Hph; try exact Hwait.
  - destruct (ManagedClientConfig.completion (config s)); [|exact Hwait].
    destruct (natural_stop_ok s Hs Ha Hph) as (Hs2 & Ha2 & Hp2).
    apply wp_bind, wp_modify, wp_bind, wp_modify, wp_bind, wp_publish_event. eapply wp_seal; [exact Hs2|exact Ha2|].
    intros outcome s' Hp Hse Ht _ Hc. apply HΦ. split; [exact (progress_steps _ _ _ Ha2 Hp2 Hp)|]. split; [done|].
    intros _. unfold all_targets_terminal. by rewrite Ht.
  - eapply wp_seal; [done|done|]. intros outcome s' Hp Hse Ht _ Hc. apply HΦ. split; [done|]. split; [done|].
    intros _. unfold all_targets_terminal. by rewrite Ht.
Qed.

Lemma wp_poll_start s Φ :
  driver_ok s → alive s →
  (∀ failure s', driver_ok s' → alive s' → progress s s' → Φ failure s') → wp poll_start Φ s.
Proof.
  intros Hs Ha HΦ. unfold poll_start. apply wp_bind, wp_gets.
  assert (∀ Ψ : option ManagedDriverFailure → Task → Prop,
    (∀ s', driver_ok s' → alive s' → progress s s' → Ψ None s') →
    (∀ failure s', driver_ok s' → alive s' → progress s s' → Ψ (Some failure) s') →
    wp (match task_phase s with
        | NotStarted => requested ← is_requested; if requested : bool then _ ← observe_stop; mret None else begin_running
        | _ => mret None
        end : D (option ManagedDriverFailure)) Ψ s) as Hstart.
  { intros Ψ Hnone Hsome. pose proof (progress_refl s (al_phase _ Ha)) as Hp0.
    destruct (task_phase s) eqn:Hph; try (by apply wp_ret, Hnone). unfold is_requested.
    apply wp_bind, wp_bind, wp_interfere. intros sh w Hi Hlw. destruct (interfered_ok sh w s Hi Hlw Hs Ha) as (Hs1 & Ha1 & Hp1).
    set (s1 := set_shared sh (set_world w s)) in *. apply wp_gets, wp_if; intros _.
    { apply wp_bind, wp_observe_stop; [done|done|]. intros s2 Hs2 Ha2 Hp2 _ _. apply wp_ret, Hnone; try done.
      exact (progress_steps _ _ _ Ha1 Hp1 Hp2). }
    unfold begin_running. apply wp_bind, wp_gets, wp_if; intros _; [by apply wp_ret, Hsome|].
    apply wp_bind, wp_modify, wp_bind, wp_modify, wp_bind, wp_publish_event, wp_ret.
    assert (task_phase s1 = NotStarted) as Hph1 by done.
    set (s2 := set_published _ _). apply Hnone.
    - apply (driver_ok_change s1); [done| |apply (d_scan _ (d_targets _ Hs1))|done]. split; try done. by exists [EvStarted].
    - split; try done. intros Ho. exfalso. pose proof (al_observed _ Ha1 Ho). congruence.
    - apply (progress_steps s s1); [done|done|]. pose proof (progress_refl s1 (al_phase _ Ha1)) as [].
      split; try done; [by exists [EvStarted]|]. by rewrite Hph1. }
  apply wp_bind, Hstart; intros; apply wp_ret; auto.
Qed.

Lemma polled_trans s1 s2 r s3 : alive s2 → progress s1 s2 → polled s2 r s3 → polled s1 r s3.
Proof. intros Ha Hp [Hp' Hr]. split; [exact (progress_steps _ _ _ Ha Hp Hp')|done]. Qed.

Lemma wp_poll s Φ :
  driver_ok s → alive s →
  (∀ r s', polled s r s' → (Shared.requested (shared s) = true → Control.stop_observed (control s') = true) → Φ r s') →
  wp poll Φ s.
Proof.
  intros Hs Ha HΦ. unfold poll. apply wp_bind, wp_gets. rewrite (al_phase _ Ha). apply wp_bind.
  apply wp_poll_start; [done|done|]. intros [failure|] s1 Hs1 Ha1 Hp1.
  - unfold fail_driver. apply wp_seal; [done|done|]. intros outcome s2 Hp2 Hse Ht Hreq Hc. apply HΦ.
    + eapply (polled_trans s s1); [done|done|]. split; [done|]. split; [done|]. by rewrite Hc.
    + intros Hr. by apply Hreq, Hp1.
  - apply wp_bind, wp_check_stop; [done|done|]. intros s2 Hs2 Ha2 Hp2 _ Hreq.
    pose proof (progress_steps _ _ _ Ha1 Hp1 Hp2) as Hp12.
    apply wp_bind, poll_work_op; [done|done|]. intros immediate s3 Hs3 Ha3 Hp3.
    pose proof (progress_steps _ _ _ Ha2 Hp12 Hp3) as Hp13.
    apply wp_poll_completion; [done|done|]. intros r s4 Hr. apply HΦ; [by apply (polled_trans s s3)|].
    intros Hrq. apply Hr, Hp3, Hreq, Hp1, Hrq.
Qed.

(** ** Construction *)
Lemma build_runtimes_ok config ids g targets runtimes last :
  settings_ok config → 1 <= g <= U64_MAX → build_runtimes config ids g targets = Ok (runtimes, last) →
  target_config <$> runtimes = targets ∧ live_generation <$> runtimes = Some <$> seqZ g (len runtimes) ∧
  last = g + len runtimes ∧ last <= U64_MAX ∧ Forall (target_wf config) runtimes ∧ config_ids runtimes ∧
  Forall (λ t, is_desired (membership t) = true ∧ lifecycle (phase t) = LPending ∧ remote t = None) runtimes ∧
  NoDup (ManagedTargetConfig.id <$> targets) ∧ Forall (λ x, ManagedTargetConfig.id x ∉ ids) targets.
Proof.
  intros Hd. revert ids g runtimes last. induction targets as [|x targets IH]; intros ids g runtimes last Hg; cbn [build_runtimes].
  { intros [= <- <-]. rewrite len_nil. repeat split; try done; try lia; constructor. }
  case_bool_decide as Hin; [done|]. intros (n & Hn & ([] & Hv & ([rest l] & Hr & [= <- <-])%bind_ok)%bind_ok)%bind_ok.
  unfold ok_or in Hn. destruct (try_u64 (g + 1)) as [g'|] eqn:Htry; [|done]. injection Hn as <-.
  apply try_u64_Some in Htry as [<- Hu]. unfold in_u in Hu.
  assert (1 <= g + 1 <= U64_MAX) as Hg' by (change U64_MAX with 18446744073709551615; change (2 ^ 64) with 18446744073709551616 in Hu; lia).
  destruct (IH _ _ _ _ Hg' Hr) as (Hc & Hgen & -> & Hb & Hw & Hci & Hf & Hnd & Hni).
  rewrite !fmap_cons, Hc, Hgen, len_cons. pose proof (len_nonneg rest).
  split; [done|]. split; [|split; [lia|split; [lia|split; [|split; [|split; [|split]]]]]].
  - rewrite (seqZ_cons g) by lia. cbn. f_equal. f_equal. f_equal; lia.
  - constructor; [|done]. unfold settings_ok in Hd. split; [by apply typed_for, Hd|cbn; lia].
  - by constructor.
  - by constructor.
  - constructor; [|done]. rewrite list_elem_of_fmap. intros (y & Hy & Hiny).
    pose proof (proj1 (Forall_forall _ _) Hni _ Hiny) as Hn. cbn in Hn. rewrite Hy in Hn. set_solver.
  - constructor; [done|]. eapply Forall_impl; [exact Hni|]. cbn. set_solver.
Qed.
End run.
