(* ===== verification/ManagedProps.v ===== *)
(** * irtt-client: the managed driver's properties

    Runs of a managed task ([reachable]) under any sockets, clocks and other
    threads, and what holds in all of them. *)

From S2P Require Import Prelude ProtoBase Envelope ParamsCodec ClientBase ClientNegotiation ClientEvent Machine Client.
From S2P Require Import Timing Schedule ManagedBase ManagedTask ManagedTarget ManagedPacing ManagedUpdate Managed ManagedLogic ManagedSpecs.
From S2P Require Import ManagedPolls ManagedInv ManagedUpdateSpec ManagedRun.

Section props.
Context `{Clocks} `{Target} `{!HmacMd5} `{AsyncSessionLaws}.

(** ** Runs *)
Inductive task_step : Task → Task → Prop :=
  | step_poll s r s' : poll s = Some (r, s') → task_step s s'
  | step_call s call : task_step s (set_shared (handle_call (config s) call (shared s)) s)
  | step_world s w : clock (world s) <= clock w → task_step s (set_world w s)
  | step_drop s s' : drop_task s = Some (tt, s') → task_step s s'.

(** The values the types of a configuration allow. *)
Definition config_typed (config : ManagedClientConfig.t) : Prop :=
  0 <= ManagedClientConfig.reconnect_initial_delay config ∧ 0 <= ManagedClientConfig.outcome_history_limit config ∧
  typed_config (ManagedClientConfig.client config).

(** A task that [build_task] built, after any steps. *)
Definition reachable (s : Task) : Prop :=
  ∃ max_permits config targets w s0, config_typed config ∧
    build_task max_permits config targets w = Ok s0 ∧ rtc task_step s0 s.

(** A task that has ended with an outcome. *)
Definition ended (s : Task) (outcome : ManagedOutcome.t) : Prop :=
  sealed s outcome ∧ (task_phase s = Completed outcome → all_targets_terminal s = true).
Definition run_ok (s : Task) : Prop :=
  config_typed (config s) ∧ driver_ok s ∧ (alive s ∨ (∃ outcome, ended s outcome) ∨ task_phase s = Abandoned).

Lemma run_ok_running s : run_ok s → task_is_terminal (task_phase s) = false → driver_ok s ∧ alive s.
Proof.
  intros (_ & Hd & [Ha | [(o & [[_ [Hp|Hp] _ _ _ _] _]) | Hp]]) Ht; [done|..]; by rewrite Hp in Ht.
Qed.

Lemma run_ok_shared sh w s : interfered (shared s) sh → clock (world s) <= clock w → run_ok s → run_ok (set_shared sh (set_world w s)).
Proof.
  intros Hi Hl (Hty & Hd & [Ha | [(o & [[_ Hp Ho Hc Hev Hst] Ht]) | Hp]]); (split; [done|]).
  - destruct (interfered_ok sh w s Hi Hl Hd Ha) as (? & ? & _). split; auto.
  - assert (driver_ok (set_shared sh (set_world w s))) as Hd'.
    { apply (driver_ok_change s); [done| |apply (d_scan _ (d_targets _ Hd))|apply (d_status _ (d_targets _ Hd))].
      split; try done; [unfold applied_sequences; cbn; by rewrite (if_acknowledged _ _ Hi)|]. exists []. by rewrite app_nil_r. }
    split; [done|]. right. left. exists o. split; [|done]. split; try done.
    destruct Hi as [_ Iadm _ (k & Iq & Ik) Icl]. destruct Hc as (Hc1 & Hc2 & Hc3). cbn.
    rewrite Icl, Iadm, Iq, Hc2, Hc3, (Ik Hc1) by by rewrite Hc2. done.
  - split; [|by auto]. apply (driver_ok_change s); [done| |apply (d_scan _ (d_targets _ Hd))|apply (d_status _ (d_targets _ Hd))].
    split; try done; [unfold applied_sequences; cbn; by rewrite (if_acknowledged _ _ Hi)|]. exists []. by rewrite app_nil_r.
Qed.

Lemma wp_drop s Φ : run_ok s → (∀ s', run_ok s' → Φ tt s') → wp drop_task Φ s.
Proof.
  intros Hs HΦ. unfold drop_task. apply wp_bind, wp_gets.
  destruct (task_is_terminal (task_phase s)) eqn:Ht; [by apply wp_ret, HΦ|].
  destruct (run_ok_running s Hs Ht) as [Hd Ha].
  apply wp_bind, wp_modify, wp_bind, wp_modify, wp_bind, wp_modify, wp_publish_event, HΦ. split; [apply Hs|]. split; [|by auto].
  apply (driver_ok_change s); [done| |apply (d_scan _ (d_targets _ Hd))|done]. split; try done. by exists [EvAbandoned].
Qed.

Lemma step_ok s s' : task_step s s' → run_ok s → run_ok s'.
Proof.
  intros [s1 r s2 Hpoll | s1 call | s1 w Hl | s1 s2 Hdrop] Hs.
  - assert (task_is_terminal (task_phase s1) = false) as Ht.
    { destruct (task_is_terminal (task_phase s1)) eqn:Ht; [|done]. revert Hpoll. unfold poll, mbind, D_bind. cbn. by rewrite Ht. }
    destruct (run_ok_running s1 Hs Ht) as [Hd Ha].
    pose proof (wp_poll s1 (λ _ s', run_ok s') Hd Ha) as Hw. unfold wp in Hw. rewrite Hpoll in Hw. apply Hw.
    intros r' s3 [Hp Hr] _. split; [rewrite (pg_config _ _ Hp); apply Hs|].
    destruct r' as [woken timer|o]; [destruct Hr; by split; auto|]. destruct Hr as [Hse Hc].
    split; [apply Hse|]. right. left. by exists o.
  - pose proof (run_ok_shared (handle_call (config s1) call (shared s1)) (world s1) s1 (handle_call_interfered _ _ _) (Z.le_refl _) Hs) as Hr.
    by destruct s1.
  - pose proof (run_ok_shared (shared s1) w s1 (interfered_refl _) Hl Hs) as Hr. by destruct s1.
  - pose proof (wp_drop s1 (λ _ s', run_ok s') Hs) as Hw. unfold wp in Hw. rewrite Hdrop in Hw. auto.
Qed.

(** The first status is the snapshot of the new task. *)
Lemma fresh_count l runtimes :
  Forall (λ t : TargetRuntime, lifecycle (phase t) = LPending) runtimes → l ≠ LPending → count_lifecycle l runtimes = 0.
Proof.
  intros Hf Hl. unfold count_lifecycle. induction Hf as [|t rest Ht _ IH]; [done|].
  rewrite filter_cons, decide_False by congruence. done.
Qed.

Definition fresh_target (t : TargetRuntime) : Prop :=
  is_desired (membership t) = true ∧ lifecycle (phase t) = LPending ∧ remote t = None.

Lemma initial_status config runtimes g w :
  Forall fresh_target runtimes → status_current (initial_task config runtimes g w).
Proof.
  intros Hf. assert (Forall (λ t, lifecycle (phase t) = LPending) runtimes) as Hp by (eapply Forall_impl; [exact Hf|]; by intros t (_ & ? & _)).
  unfold status_current, snapshot, initial_task. cbn [Published.status published targets control history task_phase Control.phase].
  rewrite !(fresh_count _ _ Hp) by done.
  assert (filter (λ t, is_desired (membership t) = true) runtimes = runtimes) as ->.
  { clear Hp. induction Hf as [|t rest (Ht & _) _ IH]; [done|]. by rewrite filter_cons, decide_True, IH by done. }
  assert (target_status <$> runtimes = (λ t, ManagedTargetStatus.mk (instance t) (is_desired (membership t)) LPending None
    (server_addr t) None) <$> runtimes) as ->; [|done].
  clear Hp. induction Hf as [|t rest (_ & Hl & Hr) _ IH]; [done|]. rewrite !fmap_cons, IH. f_equal.
  unfold target_status. rewrite Hl, Hr. f_equal. by destruct (phase t).
Qed.

Lemma fresh_generations runtimes g :
  live_generation <$> runtimes = Some <$> seqZ g (len runtimes) → omap live_generation runtimes = seqZ g (len runtimes).
Proof.
  generalize (seqZ g (len runtimes)). induction runtimes as [|t rest IH]; intros [|x l]; try done.
  cbn. intros [= -> Hr]. f_equal. by apply IH.
Qed.

Lemma build_ok mp cfg tgs w s :
  config_typed cfg → build_task mp cfg tgs w = Ok s → config s = cfg ∧ driver_ok s ∧ alive s.
Proof.
  intros (Hnn & _ & Htyped). unfold build_task. destruct (instant_now w) as [now1 w1].
  destruct (match ManagedClientConfig.reconnect_timeout cfg with Some _ => _ | None => _ end) as [now2 w2].
  destruct (instant_now w2) as [now3 w3].
  intros ([] & Hv & ([runtimes last] & Hr & [= <-])%bind_ok)%bind_ok.
  assert (settings_ok cfg ∧ len tgs <= ManagedClientConfig.max_live_target_generations cfg) as [Hd Hlen].
  { unfold validate_managed_config, reconnect_delays_ok in Hv.
    repeat match type of Hv with context [if ?b then _ else _] => destruct b eqn:?; [done|] end.
    unfold settings_ok. split; [|lia]. split_and!; try done; lia. }
  destruct (build_runtimes_ok cfg [] 1 tgs runtimes last Hd ltac:(done) Hr) as (Hc & Hg & -> & Hb & Hw & Hci & Hf & Hnd & _).
  assert (len runtimes = len tgs) as Hlr by (rewrite <-Hc; by rewrite len_fmap).
  pose proof (len_nonneg runtimes) as Hn. split; [done|]. split; [|by split]. split; [split| | | | | |];
    cbn [initial_task targets control config shared history published scan Control.next_generation Control.applied_command_sequence];
    try done; try lia.
  - split; cbn; try (split; [done|by right]); done || lia.
  - by apply initial_status.
  - unfold all_finished, live_generations. cbn. rewrite (fresh_generations _ _ Hg). by replace (1 + len runtimes - 1) with (len runtimes) by lia.
  - eapply Forall_impl; [exact Hf|]. intros t (_ & Hp & _). apply on_time_none. by destruct (phase t).
  - rewrite desired_ids_configs by done.
    assert (desired_configs runtimes = target_config <$> runtimes) as ->; [|by rewrite Hc].
    clear -Hf. unfold desired_configs. induction Hf as [|t rest (Ht & _) _ IH]; [done|]. cbn. by rewrite Ht, IH.
Qed.

Lemma driver_reachable_ok s : reachable s → run_ok s.
Proof.
  intros (mp & config & targets & w & s0 & Hnn & Hb & Hsteps).
  destruct (build_ok _ _ _ _ _ Hnn Hb) as (Hc & Hd & Ha).
  assert (run_ok s0) as H0' by (split; [by rewrite Hc|auto]). clear Hb Hnn Hc Hd Ha. induction Hsteps as [|s1 s2 s3 Hst _ IH]; [done|].
  apply IH. by eapply step_ok.
Qed.

Lemma reachable_poll s r s' :
  reachable s → poll s = Some (r, s') →
  polled s r s' ∧ (Shared.requested (shared s) = true → Control.stop_observed (control s') = true).
Proof.
  intros Hr Hpoll. assert (task_is_terminal (task_phase s) = false) as Ht.
  { destruct (task_is_terminal (task_phase s)) eqn:Ht; [|done]. revert Hpoll. unfold poll, mbind, D_bind. cbn. by rewrite Ht. }
  destruct (run_ok_running s (driver_reachable_ok s Hr) Ht) as [Hd Ha].
  pose proof (wp_poll s (λ r s', polled s r s' ∧
    (Shared.requested (shared s) = true → Control.stop_observed (control s') = true)) Hd Ha) as Hw.
  unfold wp in Hw. rewrite Hpoll in Hw. by apply Hw.
Qed.

(** ** The history is the list of outcomes *)
Definition is_failure (o : ManagedTargetOutcome.t) : bool :=
  match ManagedTargetOutcome.end_reason o with Failed _ => true | _ => false end.
Definition is_peer_close (o : ManagedTargetOutcome.t) : bool :=
  match ManagedTargetOutcome.end_reason o with PeerClosed => true | _ => false end.
Definition count_if (f : ManagedTargetOutcome.t → bool) (l : list ManagedTargetOutcome.t) : Z :=
  len (filter (λ o, f o = true) l).

Lemma count_snoc f l o : count_if f (l ++ [o]) = count_if f l + if f o then 1 else 0.
Proof.
  unfold count_if. rewrite filter_app, len_app. f_equal. rewrite filter_cons.
  destruct (f o); [by rewrite decide_True|by rewrite decide_False].
Qed.
Lemma count_le f l : 0 <= count_if f l <= len l.
Proof. unfold count_if, len. pose proof (length_filter (λ o, f o = true) l). lia. Qed.

Lemma add1_exact z : 0 <= z < U64_MAX → OutcomeHistory.add1 z = z + 1.
Proof. intros Hz. unfold OutcomeHistory.add1, sat_u64. lia. Qed.

(** The history of a list of outcomes, with a bound [limit] on what is kept. *)
Definition history_of (limit : Z) (l : list ManagedTargetOutcome.t) : OutcomeHistory.t :=
  OutcomeHistory.mk limit (drop (Z.to_nat (len l - limit)) l) (len l) (len l - count_if is_failure l)
    (count_if is_failure l) (count_if is_peer_close l) (Z.max 0 (len l - limit)).

Lemma history_exact limit l :
  0 <= limit → len l <= U64_MAX → record_all l (OutcomeHistory.new limit) = history_of limit l.
Proof.
  intros Hlim. induction l as [|o l IH] using rev_ind; intros Hl.
  { unfold history_of, OutcomeHistory.new. rewrite drop_nil. cbn [record_all fold_left].
    change (len []) with 0. change (count_if is_failure []) with 0. change (count_if is_peer_close []) with 0. f_equal. lia. }
  rewrite len_app, len_cons, len_nil in Hl. rewrite record_all_app, IH by lia. cbn [record_all fold_left].
  pose proof (count_le is_failure l). pose proof (count_le is_peer_close l). pose proof (len_nonneg l).
  unfold history_of. rewrite !count_snoc, len_app. change (len [o]) with 1. unfold OutcomeHistory.record. cbn -[OutcomeHistory.add1].
  rewrite (add1_exact (len l)) by lia.
  assert ((let '(successful, failed, peer_closed) := match ManagedTargetOutcome.end_reason o with
     | Failed _ => (len l - count_if is_failure l, OutcomeHistory.add1 (count_if is_failure l), count_if is_peer_close l)
     | PeerClosed => (OutcomeHistory.add1 (len l - count_if is_failure l), count_if is_failure l, OutcomeHistory.add1 (count_if is_peer_close l))
     | _ => (OutcomeHistory.add1 (len l - count_if is_failure l), count_if is_failure l, count_if is_peer_close l) end
     in (successful, failed, peer_closed))
    = (len l + 1 - (count_if is_failure l + if is_failure o then 1 else 0),
       count_if is_failure l + (if is_failure o then 1 else 0),
       count_if is_peer_close l + (if is_peer_close o then 1 else 0))) as Hcounts.
  { generalize dependent (count_if is_failure l). generalize dependent (count_if is_peer_close l). intros pc Hpc fl Hfl.
    unfold is_failure, is_peer_close. destruct (ManagedTargetOutcome.end_reason o);
      rewrite ?add1_exact by lia; repeat apply (f_equal2 pair); lia. }
  destruct (match ManagedTargetOutcome.end_reason o with Failed _ => _ | _ => _ end) as [[successful failed] peer_closed].
  injection Hcounts as -> -> ->.
  destruct (Z.eqb_spec limit 0) as [->|Hne]; [|destruct (Z.eqb_spec (len (drop (Z.to_nat (len l - limit)) l)) limit) as [Hfull|Hfree]].
  - rewrite add1_exact by lia. f_equal; [|lia]. rewrite !drop_ge; [done| |]; unfold len; try rewrite length_app; cbn; lia.
  - rewrite len_drop in Hfull. rewrite add1_exact by lia. f_equal; [|lia].
    rewrite drop_app_le by (unfold len in *; lia). f_equal.
    replace (Z.to_nat (len l + 1 - limit)) with (Z.to_nat (len l - limit) + 1)%nat by lia.
    rewrite <-drop_drop. by destruct (drop (Z.to_nat (len l - limit)) l).
  - rewrite len_drop in Hfree. f_equal; [|lia].
    replace (Z.to_nat (len l + 1 - limit)) with 0%nat by lia. by replace (Z.to_nat (len l - limit)) with 0%nat by lia.
Qed.

(** ** The properties *)
Lemma reachable_step s s' : reachable s → task_step s s' → reachable s'.
Proof.
  intros (mp & config & targets & w & s0 & Hnn & Hb & Hsteps) Hst. exists mp, config, targets, w, s0.
  split; [done|]. split; [done|]. by eapply rtc_r.
Qed.

(** C7: A poll of a managed driver never panics: of any task that was built and has
    run for any number of polls under any sockets, clocks and handle calls, and that
    has not ended, the next poll returns; it returns [Ready] with the outcome exactly
    when the task ends with it, and publishes that outcome as the last event. *)
Theorem driver_total s :
  reachable s → task_is_terminal (task_phase s) = false →
  ∃ r s', poll s = Some (r, s') ∧ reachable s' ∧
    match r with
    | TaskPending _ _ => task_is_terminal (task_phase s') = false
    | TaskReady outcome =>
        (task_phase s' = Completed outcome ∧ last (Published.events (published s')) = Some (EvCompleted outcome)) ∨
        (task_phase s' = TaskFailed outcome ∧ last (Published.events (published s')) = Some (EvFailed outcome))
    end.
Proof.
  intros Hr Ht. destruct (run_ok_running s (driver_reachable_ok s Hr) Ht) as [Hd Ha].
  assert (∃ r s', poll s = Some (r, s')) as (r & s' & Hp).
  { pose proof (wp_poll s (λ _ _, True) Hd Ha ltac:(done)) as Hw. unfold wp in Hw.
    destruct (poll s) as [[r s']|]; [by exists r, s'|done]. }
  exists r, s'. split; [done|]. split; [by eapply reachable_step, step_poll|].
  destruct (reachable_poll s r s' Hr Hp) as [[_ Hres] _]. destruct r as [woken timer|outcome]; [apply Hres|].
  destruct Hres as [[_ [Hph|Hph] _ _ Hev _] _]; rewrite Hph in Hev; auto.
Qed.

(** C13: The invariant of a managed driver, in every reachable task: there are never
    more live target generations than the limit, no two desired targets share an id,
    the scan cursors and budgets stay within the target list and the timeout backlog
    within its budget, the published status is the snapshot of the task, the answers
    that applied a command carry the sequence numbers 1, 2, …, in the order applied,
    and every reconnect delay lies between the initial and the maximal one. *)
Theorem driver_invariant s :
  reachable s →
  len (targets s) <= ManagedClientConfig.max_live_target_generations (config s) ∧
  NoDup (desired_ids (targets s)) ∧
  scan_ok (len (targets s)) (scan s) ∧
  Published.status (published s) = snapshot s ∧
  applied_sequences (shared s) = seqZ 1 (Control.applied_command_sequence (control s)) ∧
  Forall (λ t, ManagedClientConfig.reconnect_initial_delay (config s) <= retry_delay t
    <= ManagedClientConfig.reconnect_max_delay (config s)) (targets s).
Proof.
  intros (_ & [[_ Hw Hsc Hst _ _ _] _ Hl _ Hnd Hac _] & _)%driver_reachable_ok. split; [done|]. split; [done|]. split; [done|].
  split; [done|]. split; [done|]. eapply Forall_impl; [exact Hw|]. by intros t [].
Qed.

Lemma all_terminal_live s : all_targets_terminal s = true → live_generations s = [].
Proof.
  unfold all_targets_terminal, live_generations. generalize (targets s). intros l.
  induction l as [|t l IH]; [done|]. cbn [forallb omap list_omap]. intros [Ht Hl]%andb_true_iff.
  by rewrite (IH Hl), live_generation_if, Ht.
Qed.

Lemma finished_count s : driver_ok s → len (all_finished s) <= Control.next_generation (control s) - 1.
Proof.
  intros [[_ _ _ _ _ Hg _] Hn _ _ _ _ _]. apply Permutation_length in Hg. rewrite length_app, length_fmap, length_seqZ in Hg.
  unfold len. lia.
Qed.

(** C4: Every generation of a target is accounted for exactly once: the generations
    that have finished and those still live are, together, the numbers allocated so
    far, 1 to [next_generation - 1]; the outcome history counts every finished
    target, keeps the most recent ones up to its limit and counts those discarded;
    and a completed driver has nothing live and reports as many outcomes as it ever
    allocated generations. *)
Theorem generation_accounting s :
  reachable s →
  (outcome_generation <$> all_finished s) ++ live_generations s
    ≡ₚ seqZ 1 (Control.next_generation (control s) - 1) ∧
  history s = history_of (ManagedClientConfig.outcome_history_limit (config s)) (all_finished s) ∧
  (∀ outcome, task_phase s = Completed outcome →
    live_generations s = [] ∧
    ManagedOutcome.total_target_outcomes outcome = Control.next_generation (control s) - 1).
Proof.
  intros ((_ & Hlim & _) & Hd & Hrun)%driver_reachable_ok. pose proof (finished_count s Hd) as Hc.
  pose proof Hd as [[_ _ _ _ Hh Hg _] Hn _ _ _ _ _].
  rewrite history_exact in Hh by lia. split; [done|]. split; [done|].
  intros outcome Hph. destruct Hrun as [Ha | [(o & Hse & Hterm) | Hp]];
    [by pose proof (al_phase _ Ha) as Hn'; rewrite Hph in Hn'| |congruence].
  assert (o = outcome) as -> by (destruct (se_phase _ _ Hse); congruence).
  pose proof (all_terminal_live s (Hterm Hph)) as Hlive. split; [done|].
  rewrite (se_outcome _ _ Hse), Hh. cbn. rewrite Hlive, app_nil_r in Hg. apply Permutation_length in Hg.
  rewrite length_fmap, length_seqZ in Hg. unfold len. lia.
Qed.


(** A driver that is stopping only winds down: over a poll, it allocates no
    generation and applies no command, it never runs again, and a target still live
    was live before and has stayed where it was or gone on towards its end. *)
Theorem stopping_driver_winds_down s r s' :
  reachable s → poll s = Some (r, s') → is_stopping (task_phase s) = true →
  is_stopping (task_phase s') || task_is_terminal (task_phase s') = true ∧
  Control.next_generation (control s') = Control.next_generation (control s) ∧
  Control.applied_command_sequence (control s') = Control.applied_command_sequence (control s) ∧
  ∀ t', t' ∈ targets s' → is_terminal (phase t') = false →
    ∃ t, t ∈ targets s ∧ instance t' = instance t ∧ is_terminal (phase t) = false ∧
      winding (lifecycle (phase t)) (lifecycle (phase t')) = true.
Proof.
  intros Hr Hp Hs. pose proof (driver_reachable_ok s' (reachable_step s s' Hr (step_poll s r s' Hp))) as (_ & Hd' & _).
  destruct (reachable_poll s r s' Hr Hp) as [[Hpg _] _]. destruct (pg_stopping _ _ Hpg Hs) as (_ & Hst & Hn & Happ).
  split; [done|]. split; [done|]. split; [done|]. intros t' Hin Hterm.
  destruct (pg_targets _ _ Hpg t' Hin) as [Hg | (t & Hint & [Hi Hc Ht Hm Hw])].
  - exfalso. assert (TargetInstance.generation (instance t') ∈ live_generations s') as Hlive.
    { apply list_elem_of_omap. exists t'. by rewrite live_generation_if, Hterm. }
    pose proof (d_generations _ (d_targets _ Hd')) as Hgen.
    assert (TargetInstance.generation (instance t') ∈ seqZ 1 (Control.next_generation (control s') - 1)) as Hseq
      by (rewrite <-Hgen; set_solver).
    apply elem_of_seqZ in Hseq. lia.
  - exists t. split; [done|]. split; [done|]. split.
    + destruct (is_terminal (phase t)) eqn:Htt; [|done]. rewrite (Ht eq_refl) in Hterm. congruence.
    + apply Hw. unfold target_stopping. by rewrite Hs.
Qed.

(** C20: A stop requested through any handle before a poll is observed by that poll:
    the poll leaves the task stopping or ended, and an end it reports is never
    [TargetsComplete]. *)
Theorem stop_observed_by_poll s r s' :
  reachable s → poll s = Some (r, s') → Shared.requested (shared s) = true →
  Control.stop_observed (control s') = true ∧
  match r with
  | TaskPending _ _ => task_phase s' = Stopping
  | TaskReady outcome => ManagedOutcome.end_reason outcome ≠ TargetsComplete
  end.
Proof.
  intros Hr Hp Hreq. destruct (reachable_poll s r s' Hr Hp) as [[_ Hres] Hobs]. specialize (Hobs Hreq).
  split; [done|]. destruct r as [woken timer|outcome].
  - by apply (al_observed _ (proj2 Hres)).
  - by apply (se_stop _ _ (proj1 Hres)).
Qed.

(** C19: No command is lost or reordered: over a poll, what has been submitted (the
    answered commands, then the queued ones) only grows at its end, so the queue is
    answered first in, first out, each command once; and a poll that returns [Ready]
    has answered every command and closed the queue and the admission. *)
Theorem commands_answered s r s' :
  reachable s → poll s = Some (r, s') →
  (∃ acks, Shared.acknowledged (shared s') = Shared.acknowledged (shared s) ++ acks) ∧
  (∃ commands, submitted s' = submitted s ++ commands) ∧
  match r with
  | TaskPending _ _ => True
  | TaskReady _ => submitted s' = (Shared.acknowledged (shared s')).*1 ∧
      Shared.receiver_closed (shared s') = true ∧ Shared.admission (shared s') = AdmitClosed
  end.
Proof.
  intros Hr Hp. destruct (reachable_poll s r s' Hr Hp) as [[Hpg Hres] _].
  split; [apply Hpg|]. split; [apply Hpg|]. destruct r as [woken timer|outcome]; [done|].
  destruct Hres as [[_ _ _ (Hcl & Hadm & Hq) _ _] _]. unfold submitted. by rewrite Hq, app_nil_r.
Qed.

(** ** Which updates are accepted *)
#[local] Existing Instance unsatisfied_dec.

(** What a request must satisfy to be applied: no id twice, every target's
    configuration valid, room for its additions beside the generations that cannot be
    dropped at once, and numbers left for them and for the command. *)
Record acceptable (incoming : list ManagedTargetConfig.t) (s : Task) : Prop := {
  ac_ids : NoDup (ManagedTargetConfig.id <$> incoming);
  ac_valid : Forall (λ x, validate_target_config
    (client_config_for (ManagedClientConfig.client (config s)) x) = Ok tt) incoming;
  ac_generations : Control.next_generation (control s) + len (filter (unsatisfied (targets s)) incoming) <= U64_MAX;
  ac_sequence : Control.applied_command_sequence (control s) + 1 <= U64_MAX;
  ac_limit : len (omap (retire incoming) (targets s)) + len (filter (unsatisfied (targets s)) incoming)
    <= ManagedClientConfig.max_live_target_generations (config s);
}.

Lemma prepare_complete config ids incoming :
  NoDup (ManagedTargetConfig.id <$> incoming) → Forall (λ x, ManagedTargetConfig.id x ∉ ids) incoming →
  Forall (λ x, validate_target_config (client_config_for (ManagedClientConfig.client config) x) = Ok tt) incoming →
  ∃ prepared, prepare_targets config ids incoming = Ok prepared ∧ prepared.*1 = incoming.
Proof.
  revert ids. induction incoming as [|x incoming IH]; intros ids Hnd Hni Hv; cbn [prepare_targets]; [by exists []|].
  cbn in Hnd. inversion_clear Hnd as [|? ? Hx Hnd']. inversion_clear Hni as [|? ? Hxi Hni']. inversion_clear Hv as [|? ? Hvx Hv'].
  rewrite bool_decide_eq_false_2 by done. rewrite Hvx. cbn [map_err].
  destruct (IH (ManagedTargetConfig.id x :: ids)) as (prepared & Hp & Hfst); [done| |done|].
  - apply Forall_forall. intros y Hy. pose proof (proj1 (Forall_forall _ _) Hni' y Hy). rewrite not_elem_of_cons. split; [|done].
    intros Heq. apply Hx. rewrite <-Heq. by apply list_elem_of_fmap_2.
  - exists ((x, client_config_for (ManagedClientConfig.client config) x) :: prepared). cbn. rewrite Hp. cbn. by rewrite Hfst.
Qed.

Lemma try_u64_fits z : 0 <= z <= U64_MAX → try_u64 z = Some z.
Proof.
  intros Hz. apply try_u64_Some. split; [done|]. change U64_MAX with 18446744073709551615 in Hz.
  unfold in_u. change (2 ^ 64) with 18446744073709551616. lia.
Qed.

Lemma created_complete runtimes g prepared :
  0 <= g → g + len (filter (unsatisfied runtimes) (prepared.*1)) <= U64_MAX →
  ∃ created last, plan_created runtimes g prepared = Ok (created, last).
Proof.
  revert g. induction prepared as [|[x cc] prepared IH]; intros g Hg Hb; cbn [plan_created]; [by eexists _, _|].
  cbn [fmap list_fmap fst] in Hb. rewrite filter_cons in Hb. destruct (decide (unsatisfied runtimes x)) as [Hu|Hu].
  - unfold unsatisfied in Hu. rewrite Hu. rewrite len_cons in Hb.
    pose proof (len_nonneg (filter (unsatisfied runtimes) prepared.*1)).
    rewrite try_u64_fits by lia. destruct (IH (g + 1)) as (created & last & Hc); [lia|lia|]. cbn. rewrite Hc. by eexists _, _.
  - apply not_false_is_true in Hu. rewrite Hu. by apply IH.
Qed.

(** A running driver applies an update exactly when it is [acceptable]. *)
Theorem update_accepted_iff s incoming :
  reachable s → task_phase s = Running →
  (∃ ack s', apply_targets incoming s = Some (Ok ack, s')) ↔ acceptable incoming s.
Proof.
  intros Hr Hph. destruct (run_ok_running s (driver_reachable_ok s Hr)) as [Hd _]; [by rewrite Hph|].
  pose proof (d_next _ Hd) as Hn. pose proof (d_applied _ Hd) as Hap. split.
  - intros (ack & s' & Ha).
    pose proof (wp_apply_targets incoming s (λ r _, match r with Ok _ => acceptable incoming s | _ => True end) Hd ltac:(done)) as Hw.
    unfold wp in Hw. rewrite Ha in Hw. apply Hw. intros plan s'' _ [Hids Hval _ Hcr _ _ Hnext Hb Hseq Hle Hcount Hlim] _.
    assert (len (filter (unsatisfied (targets s)) incoming) = len (UpdatePlan.created plan)) as Hlen by by rewrite <-Hcr, len_fmap.
    split; [done|done|rewrite Hlen, <-Hnext; apply Hb, Hn|by rewrite <-Hseq|by rewrite Hlen, <-Hcount].
  - intros [Hids Hval Hgen Hseq Hlim].
    destruct (prepare_complete (config s) [] incoming Hids) as (prepared & Hp & Hfst); [apply Forall_forall; set_solver|done|].
    destruct (created_complete (targets s) (Control.next_generation (control s)) prepared) as (created & last & Hc);
      [lia|by rewrite Hfst|].
    assert (0 <= Control.next_generation (control s)) as Hn0 by lia.
    destruct (plan_created_ok _ _ _ _ _ Hn0 Hc) as (Hcr & _).
    assert (len created = len (filter (unsatisfied (targets s)) incoming)) as Hlen by (by rewrite <-Hfst, <-Hcr, len_fmap).
    assert (∃ plan, plan_targets incoming s = Ok plan) as (plan & Hplan).
    { unfold plan_targets. rewrite Hp. cbn [mbind Result_bind]. rewrite Hc. cbn. rewrite try_u64_fits by lia. cbn.
      rewrite Hfst, <-(len_retain_fmap (mark incoming)), retain_marked, Hlen.
      destruct (Z.ltb_spec (ManagedClientConfig.max_live_target_generations (config s))
        (len (omap (retire incoming) (targets s)) + len (filter (unsatisfied (targets s)) incoming))); [lia|by eexists]. }
    pose proof (wp_apply_targets incoming s (λ r _, match r with Ok _ => True | _ => False end) Hd) as Hw.
    unfold wp in Hw. rewrite Hplan in Hw. destruct (apply_targets incoming s) as [[[ack|err|] s']|]; [by eexists _, _|exfalso..];
      apply Hw; try done.
Qed.

(** ** The end of a target being stopped *)
(** [n] polls of the target [i], each at a time its deadline is over and, while it
    drains, no probe timeout is due. *)
Inductive expired_polls (i : nat) : nat → Task → Task → Prop :=
  | no_poll s : expired_polls i 0 s s
  | one_poll n s t now b s1 s2 :
      targets s !! i = Some t → is_terminal (phase t) = false → expired now (phase t) →
      poll_target i now s = Some (b, s1) → expired_polls i n s1 s2 → expired_polls i (S n) s s2.

Lemma rank_bounds config t : target_wf config t → 0 <= rank (phase t) <= 2 + POST_DEADLINE_RECEIVE_BUDGET ∧
  (rank (phase t) = 0 ↔ is_terminal (phase t) = true).
Proof.
  intros [Hw _]. unfold phase_wf in Hw. unfold rank, POST_DEADLINE_RECEIVE_BUDGET, TARGET_WORK_BUDGET in *.
  destruct (phase t); cbn; split; done || lia.
Qed.

Lemma expired_polls_wind i n s t s' :
  expired_polls i n s s' → settings_ok (config s) → targets s !! i = Some t → target_wf (config s) t → on_time (world s) t →
  target_stopping s t = true →
  ∃ t', targets s' !! i = Some t' ∧ Z.of_nat n + rank (phase t') <= rank (phase t) ∧
    target_wf (config s') t' ∧ settings_ok (config s') ∧ on_time (world s') t'.
Proof.
  intros Hp. revert t. induction Hp as [s|n s t1 now b s1 s2 Ht1 Hlive Hexp Hpoll _ IH]; intros t Hd Ht Hwf Hon Hst.
  { exists t. split; [done|]. split; [cbn; lia|done]. }
  assert (t1 = t) as -> by congruence.
  pose proof (wp_poll_target i t s Hwf Hd Hon now now (λ _ s', poll_post i t s now s') eq_refl Ht (λ _ _ H, H)) as Hw.
  unfold wp in Hw. rewrite Hpoll in Hw. destruct Hw as (t' & Hm & Hwf' & _ & Hwinds).
  assert (rank (phase t') < rank (phase t)) as Hlt.
  { apply Hwinds; [done|done|]. by destruct (phase t). }
  pose proof (mv_at _ _ _ _ _ Hm) as Hat. pose proof (lookup_lt_Some _ _ _ Hat).
  destruct (IH t') as (t'' & Ht'' & Hr & Hw'' & Hd'').
  - by rewrite (mv_config _ _ _ _ _ Hm).
  - rewrite (mv_targets _ _ _ _ _ Hm). by apply list_lookup_insert_eq.
  - by rewrite (mv_config _ _ _ _ _ Hm).
  - apply Hm.
  - pose proof (mv_same _ _ _ _ _ Hm) as (_ & _ & Hmem & _). unfold target_stopping, task_phase, effective_retirement in *.
    by rewrite (mv_control _ _ _ _ _ Hm), Hmem.
  - exists t''. split; [done|]. split; [|done]. rewrite Nat2Z.inj_succ. lia.
Qed.

(** What a target that drains still owes: probes whose timeout is due are first
    reported by the timeout pass, and until then its poll does nothing. *)
Lemma due_probe_waits i now s t c started deadline pe cf remaining :
  targets s !! i = Some t → phase t = PhDraining c started deadline pe cf remaining →
  due (next_probe_timeout_deadline c) now = true → poll_target i now s = Some (true, s).
Proof.
  intros Ht Hp Hd. assert (client_gets i (λ c, due (next_probe_timeout_deadline c) now) s = Some (true, s)) as Hg.
  { unfold client_gets, with_client, update_target, target_at, from_option_or_panic, gets, modify, mbind, D_bind, mret, D_ret.
    cbn. rewrite Ht. cbn. rewrite Hp. cbn. rewrite Ht, Hd. cbn. do 2 f_equal. rewrite list_insert_id; [by destruct s|].
    rewrite Ht, <- Hp. by destruct t. }
  unfold poll_target, target_at, gets, mbind, D_bind. rewrite Ht. cbn. rewrite Hp. unfold poll_draining, mbind, D_bind. by rewrite Hg.
Qed.

(** C18: A target that is being stopped, by the driver or by an update, ends: whatever
    its phase and whatever its socket does, of the polls that find its deadline over
    and no probe timeout due there are at most [2 + POST_DEADLINE_RECEIVE_BUDGET]
    (130) before it is terminal, each brings it closer, and the next one never
    panics. A poll of a draining target that finds a probe timeout due changes nothing
    and asks for another poll. *)
Theorem stopping_target_ends s i t n s' :
  reachable s → task_is_terminal (task_phase s) = false → targets s !! i = Some t → target_stopping s t = true →
  expired_polls i n s s' →
  ∃ t', targets s' !! i = Some t' ∧ Z.of_nat n + rank (phase t') <= rank (phase t) ∧
    rank (phase t) <= 2 + POST_DEADLINE_RECEIVE_BUDGET ∧
    (0 <= rank (phase t') ∧ (rank (phase t') = 0 ↔ is_terminal (phase t') = true)) ∧
    (∀ now, is_Some (poll_target i now s')) ∧
    ∀ now c started deadline pe cf remaining, phase t' = PhDraining c started deadline pe cf remaining →
      due (next_probe_timeout_deadline c) now = true → poll_target i now s' = Some (true, s').
Proof.
  intros Hr Hph Ht Hst Hp. destruct (run_ok_running s (driver_reachable_ok s Hr) Hph) as [[[Hd Hw _ _ _ _ Ho] _ _ _ _ _ _] _].
  pose proof (proj1 (Forall_lookup _ _) Hw i t Ht) as Hwf.
  pose proof (proj1 (Forall_lookup _ _) Ho i t Ht) as Hon.
  destruct (expired_polls_wind i n s t s' Hp Hd Ht Hwf Hon Hst) as (t' & Ht' & Hle & Hwf' & Hd' & Hon').
  exists t'. split; [done|]. split; [done|]. destruct (rank_bounds _ _ Hwf) as [Hb _]. destruct (rank_bounds _ _ Hwf') as [Hb' Hz].
  split; [lia|]. split; [split; [lia|done]|]. split; [|intros; by eapply due_probe_waits]. intros now.
  pose proof (wp_poll_target i t' s' Hwf' Hd' Hon' now now (λ _ _, True) eq_refl Ht' (λ _ _ _, I)) as Hw'.
  unfold wp in Hw'. destruct (poll_target i now s'); [by eexists|done].
Qed.

(** ** Backoff *)
(** The delay before the [n]-th reconnect. *)
Definition backoff (config : ManagedClientConfig.t) (n : nat) : Z :=
  Nat.iter n (next_retry_delay config) (ManagedClientConfig.reconnect_initial_delay config).

(** Reconnect delays double up to the maximum: after [n] failures in a row the
    delay is the smaller of [2^n] times the initial delay and the maximal delay,
    with no overflow however large [n] is. *)
Theorem backoff_capped config n :
  0 <= ManagedClientConfig.reconnect_initial_delay config →
  ManagedClientConfig.reconnect_initial_delay config <= ManagedClientConfig.reconnect_max_delay config <= DURATION_MAX →
  backoff config n
  = Z.min (2 ^ Z.of_nat n * ManagedClientConfig.reconnect_initial_delay config) (ManagedClientConfig.reconnect_max_delay config).
Proof.
  intros H0' Hle. unfold backoff. induction n as [|n IH]; [cbn; lia|].
  rewrite Nat2Z.inj_succ, Z.pow_succ_r by lia.
  change (Nat.iter (S n) (next_retry_delay config) (ManagedClientConfig.reconnect_initial_delay config))
    with (next_retry_delay config (Nat.iter n (next_retry_delay config) (ManagedClientConfig.reconnect_initial_delay config))).
  rewrite IH. unfold next_retry_delay.
  set (x := 2 ^ Z.of_nat n * ManagedClientConfig.reconnect_initial_delay config).
  replace (2 * 2 ^ Z.of_nat n * ManagedClientConfig.reconnect_initial_delay config) with (2 * x) by (unfold x; lia).
  assert (0 <= x) by (unfold x; apply Z.mul_nonneg_nonneg; lia). clearbody x.
  destruct (Z.leb_spec (2 * Z.min x (ManagedClientConfig.reconnect_max_delay config)) DURATION_MAX); lia.
Qed.
End props.
