(* ===== verification/Endpoint.v ===== *)
(** * irtt-client: endpoints

    Models address resolution in [crates/irtt-client/src/socket.rs], with the
    textual forms of socket addresses the standard library accepts
    ([core::net::parser]). Text is the bytes of a Rust [&str]; what the resolver
    answers is an argument. *)

From S2P Require Import Prelude Envelope ClientBase.

(** ** Parsing (core::net) *)
(** A parser takes a prefix of the text; [None] leaves the text as it was
    ([read_atomically]). *)
Definition Parser (A : Type) : Type := bytes → option (A * bytes).

(** [char::to_digit]. *)
Definition to_digit (radix c : Z) : option Z :=
  let d :=
    if (48 <=? c) && (c <=? 57) then c - 48
    else if (97 <=? c) && (c <=? 122) then c - 87
    else if (65 <=? c) && (c <=? 90) then c - 55
    else radix in
  if d <? radix then Some d else None.

(** The digits of [read_number], with how many there were; [None] past
    [max_digits]. *)
Fixpoint read_digits (radix : Z) (max_digits : option nat) (result : Z) (count : nat) (text : bytes)
    : option (Z * nat * bytes) :=
  match text with
  | c :: rest =>
      match to_digit radix c with
      | Some d =>
          if match max_digits with Some m => bool_decide (m < S count)%nat | None => false end then None
          else read_digits radix max_digits (result * radix + d) (S count) rest
      | None => Some (result, count, text)
      end
  | [] => Some (result, count, [])
  end.

(** [read_number::<T>], for an unsigned [T] of [w] bits. *)
Definition read_number (w radix : Z) (max_digits : option nat) (allow_zero_prefix : bool) : Parser Z := λ text,
  '(result, count, rest) ← read_digits radix max_digits 0 0 text;
  let has_leading_zero := bool_decide (head text = Some 48) in
  if bool_decide (count = 0%nat) then None
  else if negb allow_zero_prefix && has_leading_zero && bool_decide (1 < count)%nat then None
  else if bool_decide (in_u w result) then Some (result, rest) else None.

Definition read_given_char (c : Z) : Parser unit := λ text,
  match text with x :: rest => if x =? c then Some (tt, rest) else None | [] => None end.

(** [read_separator(sep, index, inner)]. *)
Definition read_separator {A} (sep : Z) (index : nat) (inner : Parser A) : Parser A := λ text,
  match index with
  | O => inner text
  | S _ => '(_, rest) ← read_given_char sep text; inner rest
  end.

Definition DOT : Z := 46.
Definition COLON : Z := 58.
Definition LBRACKET : Z := 91.
Definition RBRACKET : Z := 93.
Definition PERCENT : Z := 37.

Definition read_octet (index : nat) : Parser Z := read_separator DOT index (read_number 8 10 (Some 3%nat) false).
Definition read_ipv4_addr : Parser Z := λ text,
  '(a, text) ← read_octet 0 text;
  '(b, text) ← read_octet 1 text;
  '(c, text) ← read_octet 2 text;
  '(d, text) ← read_octet 3 text;
  Some (((a * 256 + b) * 256 + c) * 256 + d, text).

(** [read_groups] for [left_] slots, the first of them the [index]th: the groups
    read, and whether they end with an embedded IPv4 address. *)
Fixpoint read_groups (left_ index : nat) (text : bytes) : list Z * bool * bytes :=
  match left_ with
  | O => ([], false, text)
  | S left_ =>
      match (match left_ with O => None | S _ => read_separator COLON index read_ipv4_addr text end) with
      | Some (v4, rest) => ([v4 / 65536; v4 mod 65536], true, rest)
      | None =>
          match read_separator COLON index (read_number 16 16 (Some 4%nat) true) text with
          | Some (group, rest) =>
              let '(groups, ipv4, rest) := read_groups left_ (S index) rest in (group :: groups, ipv4, rest)
          | None => ([], false, text)
          end
      end
  end.

(** [Ipv6Addr::from] eight segments. *)
Definition ipv6_of_segments (segments : list Z) : Z := fold_left (λ z g, z * 65536 + g) segments 0.

Definition read_ipv6_addr : Parser Z := λ text,
  let '(head, head_ipv4, text) := read_groups 8 0 text in
  if bool_decide (length head = 8%nat) then Some (ipv6_of_segments head, text)
  else if head_ipv4 then None
  else
    '(_, text) ← read_given_char COLON text;
    '(_, text) ← read_given_char COLON text;
    let '(tail, _, text) := read_groups (8 - (length head + 1)) 0 text in
    Some (ipv6_of_segments (head ++ replicate (8 - length head - length tail) 0 ++ tail), text).

Definition read_port : Parser Z := λ text,
  '(_, text) ← read_given_char COLON text; read_number 16 10 None true text.
Definition read_scope_id : Parser Z := λ text,
  '(_, text) ← read_given_char PERCENT text; read_number 32 10 None true text.

Definition read_socket_addr_v4 : Parser SocketAddr := λ text,
  '(ip, text) ← read_ipv4_addr text;
  '(port, text) ← read_port text;
  Some (V4 ip port, text).
Definition read_socket_addr_v6 : Parser SocketAddr := λ text,
  '(_, text) ← read_given_char LBRACKET text;
  '(ip, text) ← read_ipv6_addr text;
  let '(scope_id, text) := match read_scope_id text with Some (id, text) => (id, text) | None => (0, text) end in
  '(_, text) ← read_given_char RBRACKET text;
  '(port, text) ← read_port text;
  Some (V6 ip port 0 scope_id, text).
Definition read_socket_addr : Parser SocketAddr := λ text,
  match read_socket_addr_v4 text with Some r => Some r | None => read_socket_addr_v6 text end.

(** [parse_with]: nothing may be left over. *)
Definition parse_with {A} (p : Parser A) (text : bytes) : option A :=
  match p text with Some (a, []) => Some a | _ => None end.
Definition parse_socket_addr : bytes → option SocketAddr := parse_with read_socket_addr.
Definition parse_ipv6_addr : bytes → option Z := parse_with read_ipv6_addr.

(** [str::parse] of an unsigned type of [w] bits: digits, possibly after a plus sign. *)
Definition parse_uint (w : Z) (text : bytes) : option Z :=
  let digits := match text with 43 :: rest => rest | _ => text end in
  match read_digits 10 None 0 0 digits with
  | Some (result, S _, []) => if bool_decide (in_u w result) then Some result else None
  | _ => None
  end.
Definition parse_u16 : bytes → option Z := parse_uint 16.

(** [rsplit_once(':')]. *)
Fixpoint rsplit_colon (text : bytes) : option (bytes * bytes) :=
  match text with
  | [] => None
  | c :: rest =>
      match rsplit_colon rest with
      | Some (before, after) => Some (c :: before, after)
      | None => if c =? COLON then Some ([], rest) else None
      end
  end.

(** ** Resolution (socket.rs) *)
(** [":{DEFAULT_PORT}"]. *)
Definition default_port_suffix : bytes := COLON :: str (pretty DEFAULT_PORT).

Definition normalize_server_addr (addr : bytes) : bytes :=
  let starts := bool_decide (head addr = Some LBRACKET) in
  let ends := bool_decide (last addr = Some RBRACKET) in
  if Envelope.is_some (parse_socket_addr addr) then addr
  else if starts && ends then addr ++ default_port_suffix
  else if starts then addr
  else if Envelope.is_some (parse_ipv6_addr addr) then LBRACKET :: addr ++ RBRACKET :: default_port_suffix
  else if match rsplit_colon addr with Some (_, port) => Envelope.is_some (parse_u16 port) | None => false end
  then addr
  else addr ++ default_port_suffix.

Definition address_family_allowed (family : AddressFamily) (remote : SocketAddr) : bool :=
  match family with
  | AnyFamily => true
  | Ipv4 => is_ipv4 remote
  | Ipv6 => is_ipv6 remote
  end.

(** [addrs.find(..)] of what the resolver answered, or its failure. *)
Definition select_remote (addr : bytes) (family : AddressFamily) (answer : option (list SocketAddr))
    : CResult SocketAddr :=
  match answer with
  | Some addrs => ok_or (List.find (address_family_allowed family) addrs) (ClientError.Resolve addr)
  | None => Err (ClientError.Resolve addr)
  end.

(** [resolve_remote]: [answer] is that of [ToSocketAddrs] for the text. *)
Definition resolve_remote (endpoint : bytes) (family : AddressFamily)
    (answer : bytes → option (list SocketAddr)) : CResult SocketAddr :=
  let addr := normalize_server_addr endpoint in select_remote addr family (answer addr).
