(* ===== verification/Socket.v ===== *)
(** * irtt-client: sockets

    Models [crates/irtt-client/src/socket.rs], [socket_options.rs], [receive.rs]
    with [receive/linux.rs] and [receive/linux/error_queue.rs], and
    [ClientTimestamp::now] of [timing.rs], in the Linux build with the
    [ancillary] feature. The system calls are the class [Os]: each reads or
    moves the world. *)

From S2P Require Import Prelude ProtoBase Envelope ParamsCodec ClientBase ClientNegotiation ClientEvent Machine Client.
From S2P Require Import Schedule ManagedBase Endpoint.

(** ** What the operating system and tokio offer *)

Inductive TimestampingFlag : Type :=
  | SOF_TIMESTAMPING_RX_SOFTWARE | SOF_TIMESTAMPING_SOFTWARE | SOF_TIMESTAMPING_TX_SOFTWARE
  | SOF_TIMESTAMPING_OPT_ID | SOF_TIMESTAMPING_OPT_TSONLY.

(** The calls that set a socket up. *)
Inductive SocketCall : Type :=
  | SetOnlyV6
  | BindDevice (device : bytes)
  | SetMark (mark : Z)
  | BindTo (addr : SocketAddr)
  | ConnectTo (remote : SocketAddr)
  | SetTimestamping (flags : list TimestampingFlag)
  | SetRecvTosV4
  | SetRecvTclassV6
  | SetTtlV4 (ttl : Z)
  | SetUnicastHopsV6 (ttl : Z)
  | SetNonblocking
  | FromStd
  | SetTosV4 (traffic_class : Z)
  | SetTclassV6 (traffic_class : Z).

(** The control messages the source distinguishes. *)
Inductive ControlMessage : Type :=
  | ScmTimestampsns (tv_sec tv_nsec : Z)
  | Ipv4Tos (tos : Z)
  | Ipv6TClass (traffic_class : Z)
  | RecvErr (ee_errno ee_origin ee_info ee_data : Z)
  | OtherMessage.

(** A [recvmsg]: the payload, and the control messages unless they were
    truncated. *)
Record Message : Type := mk_Message { payload : bytes; control_messages : option (list ControlMessage) }.

(** [spurious_sends]: how many more times the socket, although it reported that
    it can send, refuses a datagram before it reports that it cannot. *)
Class Os `{Runtime} := {
  Sock : Type;
  Lookup : Type;
  system_now : World → Z * World;
  lookup_host : bytes → Lookup;
  poll_lookup : Lookup → World → Poll (option (list SocketAddr)) * Lookup * World;
  socket_new : bool → World → (string + Sock) * World;
  socket_call : Sock → SocketCall → World → option string * World;
  poll_send_ready : Sock → World → Poll (option string) * World;
  poll_recv_ready : Sock → World → Poll (option string) * World;
  try_send : Sock → bytes → World → (IoError + Z) * World;
  recvmsg : Sock → Z → World → (IoError + Message) * World;
  recvmsg_errqueue : Sock → World → (IoError + Message) * World;
  try_reserve : Z → World → bool * World;
  spurious_sends : Sock → World → nat;
}.

(** ** Actions on the world *)
Section io.
Context `{Os}.

Definition Io (E A : Type) : Type := World → Result E A * World.
#[global] Instance Io_ret E : MRet (Io E) := λ A a w, (Ok a, w).
#[global] Instance Io_bind E : MBind (Io E) := λ A B f m w,
  match m w with
  | (Ok a, w) => f a w
  | (Err e, w) => (Err e, w)
  | (Panic, w) => (Panic, w)
  end.

Definition io_lift {E A} (r : Result E A) : Io E A := λ w, (r, w).
(** A call that cannot fail. *)
Definition io_call {E A} (f : World → A * World) : Io E A := λ w, let '(a, w) := f w in (Ok a, w).

(** A configuring call, with what its failure becomes. *)
Definition configure (socket : Sock) (call : SocketCall) (error : string → ClientError.t) : Io ClientError.t unit := λ w,
  match socket_call socket call w with
  | (None, w) => (Ok tt, w)
  | (Some source, w) => (Err (error source), w)
  end.
(** [?] on an [io::Result]. *)
Definition configure_io (socket : Sock) (call : SocketCall) : Io ClientError.t unit :=
  configure socket call ClientError.Socket.

(** ** Timestamps (timing.rs) *)
Definition timestamp_now (w : World) : ClientTimestamp.t * World :=
  let '(wall, w) := system_now w in
  let '(mono, w) := instant_now w in
  (ClientTimestamp.mk wall mono, w).

(** ** Socket options (socket_options.rs) *)
Definition apply_routing_options (socket : Sock) (config : SocketConfig.t) (remote : SocketAddr)
    : Io ClientError.t unit :=
  _ ← match SocketConfig.bind_to_device config with
      | Some device =>
          configure socket (BindDevice device) (ClientError.SocketOption "bind socket to device" remote)
      | None => mret tt
      end;
  match SocketConfig.mark config with
  | Some mark => configure socket (SetMark mark) (ClientError.SocketOption "set firewall mark" remote)
  | None => mret tt
  end.

Definition traffic_class_call (remote : SocketAddr) (traffic_class : Z) : SocketCall :=
  if is_ipv4 remote then SetTosV4 traffic_class else SetTclassV6 traffic_class.
Definition set_socket_traffic_class (socket : Sock) (remote : SocketAddr) (traffic_class : Z) (operation : string)
    : Io ClientError.t unit :=
  configure socket (traffic_class_call remote traffic_class) (ClientError.SocketOption operation remote).
Definition apply_traffic_class_to_socket (socket : Sock) (remote : SocketAddr) (traffic_class : Z)
    : Io ClientError.t unit :=
  set_socket_traffic_class socket remote traffic_class "set negotiated DSCP".
Definition clear_dscp_on_socket (socket : Sock) (remote : SocketAddr) : Io ClientError.t unit :=
  set_socket_traffic_class socket remote 0 "clear DSCP before close".

Definition ttl_call (remote : SocketAddr) (ttl : Z) : SocketCall :=
  if is_ipv4 remote then SetTtlV4 ttl else SetUnicastHopsV6 ttl.
Definition apply_ttl_to_socket (socket : Sock) (remote : SocketAddr) (ttl : Z) : Io ClientError.t unit :=
  _ ← io_lift (validate_ttl ttl);
  configure socket (ttl_call remote ttl) (ClientError.SocketOption "set TTL/hop limit" remote).

(** ** Ancillary data (receive/linux.rs) *)
Definition RX_TIMESTAMPING_FLAGS : list TimestampingFlag :=
  [SOF_TIMESTAMPING_RX_SOFTWARE; SOF_TIMESTAMPING_SOFTWARE].
Definition TX_TIMESTAMPING_FLAGS : list TimestampingFlag :=
  [SOF_TIMESTAMPING_RX_SOFTWARE; SOF_TIMESTAMPING_SOFTWARE; SOF_TIMESTAMPING_TX_SOFTWARE;
   SOF_TIMESTAMPING_OPT_ID; SOF_TIMESTAMPING_OPT_TSONLY].

Definition configure_receive_metadata (socket : Sock) (remote : SocketAddr) (error : string → ClientError.t)
    : Io ClientError.t unit :=
  _ ← configure socket (SetTimestamping RX_TIMESTAMPING_FLAGS) error;
  configure socket (if is_ipv4 remote then SetRecvTosV4 else SetRecvTclassV6) error.

(** The upgrade to transmit timestamps; a failed one restores the receive flags. *)
Definition try_enable_tx_timestamping (socket : Sock) (w : World) : bool * World :=
  match socket_call socket (SetTimestamping TX_TIMESTAMPING_FLAGS) w with
  | (None, w) => (true, w)
  | (Some _, w) => (false, (socket_call socket (SetTimestamping RX_TIMESTAMPING_FLAGS) w).2)
  end.

(** A [timespec] after the epoch, as a [SystemTime]. *)
Definition system_time_from_timespec (tv_sec tv_nsec : Z) : option Z :=
  if bool_decide (in_u 64 tv_sec) && bool_decide (in_u 32 tv_nsec) then
    if 1_000_000_000 <=? tv_nsec then None else Some (tv_sec * 1_000_000_000 + tv_nsec)
  else None.

(** One control message of a datagram. *)
Definition meta_step (meta : ReceiveMeta.t) (cmsg : ControlMessage) : ReceiveMeta.t :=
  match cmsg with
  | ScmTimestampsns sec nsec =>
      ReceiveMeta.mk (ReceiveMeta.traffic_class meta) (system_time_from_timespec sec nsec)
  | Ipv4Tos tos => ReceiveMeta.mk (Some tos) (ReceiveMeta.kernel_rx_timestamp meta)
  | Ipv6TClass traffic_class =>
      ReceiveMeta.mk (try_u8 traffic_class) (ReceiveMeta.kernel_rx_timestamp meta)
  | RecvErr _ _ _ _ | OtherMessage => meta
  end.
Definition receive_meta (cmsgs : option (list ControlMessage)) : ReceiveMeta.t :=
  match cmsgs with
  | Some cmsgs => fold_left meta_step cmsgs (ReceiveMeta.mk None None)
  | None => ReceiveMeta.mk None None
  end.

(** [try_recv_tokio_datagram] into a buffer of [buffer] bytes. *)
Definition try_recv_datagram (socket : Sock) (buffer : Z) (w : World) : (IoError + Received) * World :=
  match recvmsg socket buffer w with
  | (inl e, w) => (inl e, w)
  | (inr msg, w) =>
      let '(received_at, w) := timestamp_now w in
      (inr (mk_Received (take (Z.to_nat buffer) (payload msg)) received_at (receive_meta (control_messages msg))), w)
  end.

(** ** The error queue (receive/linux/error_queue.rs) *)
Definition SO_EE_ORIGIN_TIMESTAMPING : Z := 4.
Definition ENOMSG : Z := 42.
Definition SCM_TSTAMP_SND : Z := 0.

Inductive ErrorQueueRecord : Type :=
  | TxTimestamp (id timestamp : Z)
  | MalformedOrUnsupportedTimestamp
  | SocketError (errno origin : Z)
  | IgnoredRecord.

(** The last extended error and the last timestamp among the messages. *)
Definition classify_step (acc : option (Z * Z * Z * Z) * option (Z * Z)) (cmsg : ControlMessage)
    : option (Z * Z * Z * Z) * option (Z * Z) :=
  match cmsg with
  | RecvErr errno origin info data => (Some (errno, origin, info, data), acc.2)
  | ScmTimestampsns sec nsec => (acc.1, Some (sec, nsec))
  | _ => acc
  end.
Definition classify (cmsgs : list ControlMessage) : ErrorQueueRecord :=
  let '(extended_error, timestamp) := fold_left classify_step cmsgs (None, None) in
  match extended_error with
  | None => IgnoredRecord
  | Some (errno, origin, info, id) =>
      if negb (origin =? SO_EE_ORIGIN_TIMESTAMPING) then SocketError (wrap_i 32 errno) origin
      else if negb ((errno =? ENOMSG) && (info =? SCM_TSTAMP_SND)) then MalformedOrUnsupportedTimestamp
      else
        match timestamp ≫= λ '(sec, nsec), system_time_from_timespec sec nsec with
        | Some timestamp => TxTimestamp id timestamp
        | None => MalformedOrUnsupportedTimestamp
        end
  end.

Definition try_recv_error_queue_record (socket : Sock) (w : World) : (string + option ErrorQueueRecord) * World :=
  match recvmsg_errqueue socket w with
  | (inr msg, w) =>
      (match control_messages msg with
       | Some cmsgs => inr (Some (classify cmsgs))
       | None => inl "invalid data"
       end, w)
  | (inl WouldBlock, w) => (inr None, w)
  | (inl Interrupted, w) => (inr (Some IgnoredRecord), w)
  | (inl (OtherIo text), w) => (inl text, w)
  end.

Definition MAX_TX_TIMESTAMP_RECORDS_PER_DRAIN : nat := 32.

(** The drain of [n] records: the completions, in order, and the error that
    ended it. *)
Fixpoint drain_error_queue (n : nat) (socket : Sock) (w : World) : TxQueue * World :=
  match n with
  | O => (mk_TxQueue [] None, w)
  | S n =>
      match try_recv_error_queue_record socket w with
      | (inl text, w) => (mk_TxQueue [] (Some text), w)
      | (inr None, w) => (mk_TxQueue [] None, w)
      | (inr (Some (TxTimestamp id timestamp)), w) =>
          let '(q, w) := drain_error_queue n socket w in
          (mk_TxQueue ((id, timestamp) :: completions q) (queue_error q), w)
      | (inr (Some (SocketError errno _)), w) => (mk_TxQueue [] (Some ("os error " +:+ pretty errno)), w)
      | (inr (Some (MalformedOrUnsupportedTimestamp | IgnoredRecord)), w) => drain_error_queue n socket w
      end
  end.

(** ** Connecting (socket.rs) *)
Definition unspecified (remote : SocketAddr) : SocketAddr := if is_ipv4 remote then V4 0 0 else V6 0 0 0 0.

Definition create_prebind_udp_socket (remote : SocketAddr) (family : AddressFamily) : Io ClientError.t Sock :=
  socket ← (λ w, match socket_new (is_ipv4 remote) w with
                 | (inl source, w) => (Err (ClientError.Socket source), w)
                 | (inr socket, w) => (Ok socket, w)
                 end);
  _ ← (if match family with Ipv6 => is_ipv6 remote | _ => false end
       then configure_io socket SetOnlyV6 else mret tt);
  mret socket.

Definition connect_udp_socket (config : SocketConfig.t) (remote : SocketAddr) (family : AddressFamily)
    : Io ClientError.t Sock :=
  socket ← create_prebind_udp_socket remote family;
  _ ← apply_routing_options socket config remote;
  _ ← configure_io socket (BindTo (default (unspecified remote) (SocketConfig.bind_addr config)));
  _ ← configure_io socket (ConnectTo remote);
  _ ← configure_receive_metadata socket remote (ClientError.SocketOption "enable receive metadata" remote);
  _ ← match SocketConfig.ttl config with
      | Some ttl => apply_ttl_to_socket socket remote ttl
      | None => mret tt
      end;
  mret socket.

Definition connect_tokio_udp_socket (config : SocketConfig.t) (remote : SocketAddr) (family : AddressFamily)
    : Io ClientError.t Sock :=
  socket ← connect_udp_socket config remote family;
  _ ← configure_io socket SetNonblocking;
  _ ← configure_io socket FromStd;
  mret socket.
End io.
