(* ===== verification/AsyncClient.v ===== *)
(** * irtt-client: the async adapter

    Models [crates/irtt-client/src/async_client.rs]: [AsyncClient] drives a
    [SessionMachine] over a nonblocking socket, one poll at a time, and is the
    managed driver's [AsyncSession]. A poll is an action on the client (and, while
    opening, on its open state) and on the world; [return_] is an early return.
    That a poll which returns [Pending] has arranged to be woken is not modelled. *)

From S2P Require Import Prelude ProtoBase Envelope ParamsCodec ClientBase ClientNegotiation ClientEvent Machine Client.
From S2P Require Import Schedule ManagedBase Endpoint Socket.

Definition OPEN_POLL_WORK_BUDGET : nat := 64.
Definition RECV_POLL_WORK_BUDGET : nat := 64.

(** ** State *)
Inductive AsyncOpenCleanup : Type :=
  | CleanupAcceptance (primary : ClientError.t) (cleanup_packet : option bytes)
  | CleanupAdapter (primary : ClientError.t) (machine : PreparedOpenAcceptance.t).

Definition cleanup_packet_of (self : AsyncOpenCleanup) : option bytes :=
  match self with
  | CleanupAcceptance _ packet => packet
  | CleanupAdapter _ machine => PreparedOpenAcceptance.cleanup_close_packet machine
  end.
Definition into_primary (self : AsyncOpenCleanup) : ClientError.t :=
  match self with CleanupAcceptance primary _ | CleanupAdapter primary _ => primary end.

(** [deadline_timer] is set with [deadline]; the buffer is only scratch space. *)
Module OpenState.
Record t : Type := mk {
  attempt : nat;
  deadline : option Z;
  request_submitted : bool;
  cleanup : option AsyncOpenCleanup;
}.
Definition new : t := mk 0 None false None.
Definition finish_attempt (self : t) : t := mk (S (attempt self)) None false (cleanup self).
Definition set_deadline (v : Z) (self : t) : t := mk (attempt self) (Some v) false (cleanup self).
Definition set_submitted (self : t) : t := mk (attempt self) (deadline self) true (cleanup self).
Definition set_cleanup (v : option AsyncOpenCleanup) (self : t) : t :=
  mk (attempt self) (deadline self) (request_submitted self) v.
Definition has_in_flight_work (self : t) : bool := request_submitted self || Envelope.is_some (cleanup self).
End OpenState.

Section client.
Context `{Clocks} `{Target} `{!HmacMd5} `{Os}.

(** The receive buffer counts by its length; its contents are only what the last
    reception put there. *)
Record Async : Type := mk_Async {
  socket : Sock;
  machine_of : SessionMachine.t;
  async_remote : SocketAddr;
  async_buffer_len : Z;
  async_traffic_class : option Z;
  prepared_open : option bytes;
  prepared_probe : option PreparedProbe.t;
  async_tx_enabled : bool;
}.

Definition set_machine v (c : Async) : Async :=
  mk_Async (socket c) v (async_remote c) (async_buffer_len c) (async_traffic_class c) (prepared_open c)
    (prepared_probe c) (async_tx_enabled c).
Definition set_buffer_len v (c : Async) : Async :=
  mk_Async (socket c) (machine_of c) (async_remote c) v (async_traffic_class c) (prepared_open c)
    (prepared_probe c) (async_tx_enabled c).
Definition set_traffic_class v (c : Async) : Async :=
  mk_Async (socket c) (machine_of c) (async_remote c) (async_buffer_len c) v (prepared_open c)
    (prepared_probe c) (async_tx_enabled c).
Definition set_prepared_open v (c : Async) : Async :=
  mk_Async (socket c) (machine_of c) (async_remote c) (async_buffer_len c) (async_traffic_class c) v
    (prepared_probe c) (async_tx_enabled c).
Definition set_prepared_probe v (c : Async) : Async :=
  mk_Async (socket c) (machine_of c) (async_remote c) (async_buffer_len c) (async_traffic_class c)
    (prepared_open c) v (async_tx_enabled c).
Definition set_tx v (c : Async) : Async :=
  mk_Async (socket c) (machine_of c) (async_remote c) (async_buffer_len c) (async_traffic_class c)
    (prepared_open c) (prepared_probe c) v.

(** ** Effects *)
(** Actions on a state and the world that may return early with an [R]. *)
Definition Act (S R A : Type) : Type := S → World → (R + A) * S * World.
#[global] Instance Act_ret S R : MRet (Act S R) := λ A a s w, (inr a, s, w).
#[global] Instance Act_bind S R : MBind (Act S R) := λ A B f m s w,
  match m s w with
  | (inr a, s, w) => f a s w
  | (inl r, s, w) => (inl r, s, w)
  end.

Section act.
Context {S R : Type}.
Definition return_ {A} (r : R) : Act S R A := λ s w, (inl r, s, w).
Definition see {A} (f : S → A) : Act S R A := λ s w, (inr (f s), s, w).
Definition change (f : S → S) : Act S R unit := λ s w, (inr tt, f s, w).
Definition world_call {A} (f : World → A * World) : Act S R A := λ s w, let '(a, w) := f w in (inr a, s, w).
Definition run (m : Act S R R) : S → World → R * S * World := λ s w,
  match m s w with (inl r, s, w) | (inr r, s, w) => (r, s, w) end.
End act.

(** Polls: [?] on a result, [expect], and a call of the machine. *)
Abbreviation PollOf X := (Poll (CResult X)) (only parsing).
Definition try_ {S X A} (r : CResult A) : Act S (PollOf X) A :=
  match r with
  | Ok a => mret a
  | Err e => return_ (Ready (Err e))
  | Panic => return_ (Ready Panic)
  end.
Definition expect_ {S X A} (o : option A) : Act S (PollOf X) A :=
  match o with Some a => mret a | None => return_ (Ready Panic) end.

(** [match self.socket.poll_…_ready(cx)]: not ready is an early [Pending]. *)
Definition ready_or_return {S X} (readiness : Poll (option string)) : Act S (PollOf X) unit :=
  match readiness with
  | Pending => return_ Pending
  | Ready None => mret tt
  | Ready (Some source) => return_ (Ready (Err (ClientError.Socket source)))
  end.

(** A deadline behind a readiness: [Ok(false)] once it has fired. *)
Definition poll_until (poll_ready : World → Poll (option string) * World) (deadline : Z) (w : World)
    : PollOf bool * World :=
  match poll_ready w with
  | (Ready None, w) => (Ready (Ok true), w)
  | (Ready (Some source), w) => (Ready (Err (ClientError.Socket source)), w)
  | (Pending, w) =>
      let '(fired, w) := timer_ready deadline w in
      (if fired : bool then Ready (Ok false) else Pending, w)
  end.
Definition poll_writable_until (socket : Sock) : Z → World → PollOf bool * World := poll_until (poll_send_ready socket).
Definition poll_readable_until (socket : Sock) : Z → World → PollOf bool * World := poll_until (poll_recv_ready socket).

(** ** Connecting *)
Inductive ConnectState : Type :=
  | ConnectStart (endpoint : bytes) (config : ClientConfig.t)
  | ConnectResolving (addr : bytes) (config : ClientConfig.t) (lookup : Lookup)
  | ConnectDone.

(** [connect] once the remote address is known. *)
Definition connect_to (config : ClientConfig.t) (remote : SocketAddr) : Io ClientError.t Async :=
  machine ← io_lift (new config remote);
  open ← io_lift (prepare_open_request machine);
  socket ← connect_tokio_udp_socket (ClientConfig.socket config) remote (ClientConfig.address_family config);
  recv_buffer_len ← io_lift (recv_buffer_size false None);
  mret (mk_Async socket machine remote recv_buffer_len None (Some open) None false).

Definition finish_connect (config : ClientConfig.t) (remote : CResult SocketAddr) : Io ClientError.t Async :=
  remote ← io_lift remote; connect_to config remote.

(** A poll of the resolution, then of the rest; [ConnectDone] must not be polled. *)
Definition poll_resolving (addr : bytes) (config : ClientConfig.t) (lookup : Lookup) (w : World)
    : PollOf Async * ConnectState * World :=
  match poll_lookup lookup w with
  | (Pending, lookup, w) => (Pending, ConnectResolving addr config lookup, w)
  | (Ready answer, _, w) =>
      let '(r, w) := finish_connect config (select_remote addr (ClientConfig.address_family config) answer) w in
      (Ready r, ConnectDone, w)
  end.
Definition poll_connecting_future (future : ConnectState) (w : World) : PollOf Async * ConnectState * World :=
  match future with
  | ConnectDone => (Ready Panic, ConnectDone, w)
  | ConnectResolving addr config lookup => poll_resolving addr config lookup w
  | ConnectStart endpoint config =>
      if negb (runtime_entered w) then (Ready (Err ClientError.NoTokioRuntime), ConnectDone, w)
      else
        match OpenPolicy.validate (ClientConfig.open config) with
        | Err e => (Ready (Err e), ConnectDone, w)
        | Panic => (Ready Panic, ConnectDone, w)
        | Ok _ =>
            let addr := normalize_server_addr endpoint in
            match parse_socket_addr addr with
            | Some remote =>
                let remote :=
                  if address_family_allowed (ClientConfig.address_family config) remote
                  then Ok remote else Err (ClientError.Resolve addr) in
                let '(r, w) := finish_connect config remote w in (Ready r, ConnectDone, w)
            | None => poll_resolving addr config (lookup_host addr) w
            end
        end
  end.

(** ** Transmit timestamps *)
Definition async_drain_tx_timestamps (c : Async) (w : World) : CResult unit * Async * World :=
  if negb (async_tx_enabled c) then (Ok tt, c, w)
  else
    let '(q, w) := drain_error_queue MAX_TX_TIMESTAMP_RECORDS_PER_DRAIN (socket c) w in
    (socket_result (queue_error q),
     set_machine (fold_left (λ m '(id, timestamp), record_kernel_tx_timestamp id timestamp m)
       (completions q) (machine_of c)) c, w).

(** ** Opening *)
Abbreviation OpenAct := (Act (Async * OpenState.t) (PollOf OpenOutcome)).
Definition on_client (f : Async → Async) : OpenAct unit := change (λ '(c, o), (f c, o)).
Definition on_open (f : OpenState.t → OpenState.t) : OpenAct unit := change (λ '(c, o), (c, f o)).
Definition see_client {A} (f : Async → A) : OpenAct A := see (λ '(c, _), f c).
Definition see_open {A} (f : OpenState.t → A) : OpenAct A := see (λ '(_, o), f o).

Definition take_primary : OpenAct OpenOutcome :=
  cleanup ← see_open OpenState.cleanup;
  cleanup ← expect_ cleanup;
  _ ← on_open (OpenState.set_cleanup None);
  return_ (Ready (Err (into_primary cleanup))).

Definition poll_open_cleanup : OpenAct OpenOutcome :=
  cleanup ← see_open OpenState.cleanup;
  cleanup ← expect_ cleanup;
  match cleanup_packet_of cleanup with
  | None => take_primary
  | Some packet =>
      socket ← see_client socket;
      sent ← world_call (try_send socket packet);
      match sent with
      | inr _ | inl (Interrupted | OtherIo _) => take_primary
      | inl WouldBlock =>
          deadline ← see_open OpenState.deadline;
          deadline ← expect_ deadline;
          writable ← world_call (poll_writable_until socket deadline);
          match writable with
          | Pending | Ready (Ok true) => return_ Pending
          | Ready (Ok false) | Ready (Err _) | Ready Panic => take_primary
          end
      end
  end.

Definition start_attempt (timeout : Z) : OpenAct unit :=
  now ← world_call instant_now;
  deadline ← try_ (ok_or (instant_checked_add now timeout) ClientError.DurationOverflow);
  on_open (OpenState.set_deadline deadline).

(** Submitting the request: [false] is [continue]. *)
Definition submit_request : OpenAct bool :=
  socket ← see_client socket;
  deadline ← see_open OpenState.deadline;
  deadline ← expect_ deadline;
  writable ← world_call (poll_writable_until socket deadline);
  match writable with
  | Pending => return_ Pending
  | Ready (Err error) => return_ (Ready (Err error))
  | Ready Panic => return_ (Ready Panic)
  | Ready (Ok false) => _ ← on_open OpenState.finish_attempt; mret false
  | Ready (Ok true) =>
      request ← see_client prepared_open;
      request ← expect_ request;
      sent ← world_call (try_send socket request);
      match sent with
      | inr bytes =>
          _ ← on_open OpenState.set_submitted;
          _ ← try_ (validate_datagram_length (len request) bytes);
          mret true
      | inl WouldBlock => mret false
      | inl error => return_ (Ready (Err (ClientError.Socket (io_text error))))
      end
  end.

(** [prepare_async_open]; its failure carries the acceptance back. *)
Definition prepare_async_open (machine : PreparedOpenAcceptance.t) (c : Async) (w : World)
    : Result (ClientError.t * PreparedOpenAcceptance.t) (option (Z * Z)) * World :=
  match PreparedOpenAcceptance.normal_negotiated machine with
  | None => (Ok None, w)
  | Some negotiated =>
      match recv_buffer_size (has_hmac (machine_of c)) (Some negotiated) with
      | Err primary => (Err (primary, machine), w)
      | Panic => (Panic, w)
      | Ok recv_buffer_len =>
          let negotiated_traffic_class :=
            wrap_u 8 (Z.shiftl (AcceptedSessionParameters.dscp (NegotiationResult.accepted negotiated)) 2) in
          let '(reserved, w) := try_reserve (Z.max 0 (recv_buffer_len - async_buffer_len c)) w in
          if negb reserved
          then (Err (ClientError.AllocationFailed "negotiated receive buffer", machine), w)
          else
            match apply_traffic_class_to_socket (socket c) (async_remote c) negotiated_traffic_class w with
            | (Ok _, w) => (Ok (Some (recv_buffer_len, negotiated_traffic_class)), w)
            | (Err primary, w) =>
                let '(_, w) :=
                  match async_traffic_class c with
                  | Some previous => apply_traffic_class_to_socket (socket c) (async_remote c) previous w
                  | None => clear_dscp_on_socket (socket c) (async_remote c) w
                  end in
                (Err (primary, machine), w)
            | (Panic, w) => (Panic, w)
            end
      end
  end.

Definition commit_async_open (machine : PreparedOpenAcceptance.t) (prepared : option (Z * Z)) : OpenAct OpenOutcome :=
  _ ← on_client (λ c, match prepared with Some (recv_buffer_len, _) => set_buffer_len recv_buffer_len c | None => c end);
  committed ← see_client (λ c, commit_open machine (machine_of c));
  '(outcome, m) ← try_ committed;
  _ ← on_client (set_machine m);
  _ ← on_client (set_traffic_class (snd <$> prepared));
  _ ← on_client (set_prepared_open None);
  socket ← see_client socket;
  enabled ← world_call (try_enable_tx_timestamping socket);
  _ ← on_client (set_tx enabled);
  return_ (Ready (Ok outcome)).

(** What a datagram that arrived in time does. *)
Definition inspect_datagram (datagram : Received) : OpenAct unit :=
  disposition ← see_client (λ c, inspect_open_datagram (packet datagram) (machine_of c));
  disposition ← try_ disposition;
  match disposition with
  | Ignore => mret tt
  | Trusted reply =>
      accepted ← see_client (λ c, prepare_open_acceptance reply (received_at datagram) (machine_of c));
      match accepted with
      | Panic => return_ (Ready Panic)
      | Err failure =>
          on_open (OpenState.set_cleanup (Some (CleanupAcceptance (OpenAcceptanceFailure.primary failure)
            (OpenAcceptanceFailure.cleanup_close failure))))
      | Ok machine =>
          client ← see_client id;
          prepared ← world_call (prepare_async_open machine client);
          match prepared with
          | Panic => return_ (Ready Panic)
          | Err (primary, machine) => on_open (OpenState.set_cleanup (Some (CleanupAdapter primary machine)))
          | Ok prepared => _ ← commit_async_open machine prepared; mret tt
          end
      end
  end.

Definition receive_datagram : OpenAct unit :=
  socket ← see_client socket;
  deadline ← see_open OpenState.deadline;
  deadline ← expect_ deadline;
  readable ← world_call (poll_readable_until socket deadline);
  match readable with
  | Pending => return_ Pending
  | Ready (Err error) => return_ (Ready (Err error))
  | Ready Panic => return_ (Ready Panic)
  | Ready (Ok false) => on_open OpenState.finish_attempt
  | Ready (Ok true) =>
      received ← world_call (try_recv_datagram socket MAX_OPEN_PACKET_SIZE);
      match received with
      | inl (WouldBlock | Interrupted) => mret tt
      | inl error => return_ (Ready (Err (ClientError.Socket (io_text error))))
      | inr datagram =>
          if deadline <? ClientTimestamp.mono (received_at datagram)
          then on_open OpenState.finish_attempt
          else inspect_datagram datagram
      end
  end.

(** One turn of the loop of [poll_open]: falling through is [continue]. *)
Definition open_turn : OpenAct unit :=
  cleanup ← see_open OpenState.cleanup;
  if Envelope.is_some cleanup then _ ← poll_open_cleanup; mret tt
  else
    timeouts ← see_client (λ c, OpenPolicy.timeouts (ClientConfig.open (SessionMachine.config (machine_of c))));
    attempt ← see_open OpenState.attempt;
    if bool_decide (length timeouts <= attempt)%nat then return_ (Ready (Err ClientError.OpenTimeout))
    else
      deadline ← see_open OpenState.deadline;
      _ ← match deadline with
          | None => timeout ← expect_ (timeouts !! attempt); start_attempt timeout
          | Some _ => mret tt
          end;
      submitted ← see_open OpenState.request_submitted;
      proceed ← (if submitted : bool then mret true else submit_request);
      if proceed : bool then receive_datagram else mret tt.

Fixpoint open_loop (budget : nat) : OpenAct (PollOf OpenOutcome) :=
  match budget with
  | O => mret Pending
  | S budget => _ ← open_turn; open_loop budget
  end.

Definition open_poll : OpenAct (PollOf OpenOutcome) :=
  request ← see_client prepared_open;
  match request with
  | None =>
      refused ← see_client (λ c, prepare_open_request (machine_of c));
      _ ← try_ refused;
      return_ (Ready Panic)
  | Some _ => open_loop OPEN_POLL_WORK_BUDGET
  end.

Definition async_poll_open (state : OpenState.t) (c : Async) (w : World)
    : PollOf OpenOutcome * OpenState.t * Async * World :=
  let '(r, (c, state), w) := run open_poll (c, state) w in (r, state, c, w).

Definition async_cancel_open (state : OpenState.t) (c : Async) (w : World)
    : option ClientError.t * OpenState.t * World :=
  match OpenState.cleanup state with
  | None => (None, state, w)
  | Some cleanup =>
      let w := match cleanup_packet_of cleanup with Some packet => (try_send (socket c) packet w).2 | None => w end in
      (Some (into_primary cleanup), OpenState.set_cleanup None state, w)
  end.

(** ** Sending *)
Abbreviation SendPoll := (Poll (Result SendProbeError SendReceipt)).
Abbreviation SendAct := (Act Async SendPoll).
Definition not_committed {A} (r : CResult A) : SendAct A :=
  match r with
  | Ok a => mret a
  | Err e => return_ (Ready (Err (NotCommitted e)))
  | Panic => return_ (Ready Panic)
  end.
Definition after_commit {A} (receipt : SendReceipt) (r : CResult A) : SendAct A :=
  match r with
  | Ok a => mret a
  | Err e => return_ (Ready (Err (AfterCommit receipt e)))
  | Panic => return_ (Ready Panic)
  end.

(** After the socket has accepted the datagram. *)
Definition finish_send (commit : ProbeCommit.t) (expected_bytes bytes send_call_start : Z) : SendAct SendPoll :=
  send_finished_at ← world_call instant_now;
  sent_at ← world_call timestamp_now;
  committed ← see (λ c, commit_probe_sent commit sent_at bytes (machine_of c));
  '(sent, m) ← not_committed committed;
  _ ← change (set_machine m);
  _ ← change (set_prepared_probe None);
  remote ← see async_remote;
  let receipt :=
    mk_SendReceipt (ProbeSent.seq sent) remote (ProbeSent.sent_at sent) (ProbeSent.bytes_sent sent)
      (default 0 (duration_since send_finished_at send_call_start)) in
  _ ← after_commit receipt (validate_datagram_length expected_bytes bytes);
  drained ← (λ c w, let '(r, c, w) := async_drain_tx_timestamps c w in (inr r, c, w));
  _ ← after_commit receipt drained;
  mret (Ready (Ok receipt)).

(** One turn of the send loop: [None] is [continue]. *)
Definition send_turn : SendAct (option SendPoll) :=
  socket ← see socket;
  readiness ← world_call (poll_send_ready socket);
  _ ← match readiness with
      | Pending => return_ Pending
      | Ready None => mret tt
      | Ready (Some source) => return_ (Ready (Err (NotCommitted (ClientError.Socket source))))
      end;
  prepared ← see prepared_probe;
  prepared ← match prepared with Some p => mret p | None => return_ (Ready Panic) end;
  room ← world_call (try_reserve 1);
  preflight ← see (λ c, preflight_probe_commit room prepared (machine_of c));
  machine_preflight ← not_committed preflight;
  let expected_bytes := len (PreparedProbe.bytes_of prepared) in
  send_anchor ← world_call timestamp_now;
  finalized ← see (λ c, finalize_probe_commit machine_preflight send_anchor (machine_of c));
  machine_commit ← not_committed finalized;
  send_call_start ← world_call instant_now;
  sent ← world_call (try_send socket (PreparedProbe.bytes_of prepared));
  match sent with
  | inr bytes => r ← finish_send machine_commit expected_bytes bytes send_call_start; mret (Some r)
  | inl WouldBlock =>
      _ ← change (λ c, set_machine (invalidate_kernel_tx_correlation (machine_of c)) c);
      mret None
  | inl error =>
      _ ← change (λ c, set_machine (invalidate_kernel_tx_correlation (machine_of c)) c);
      return_ (Ready (Err (NotCommitted (ClientError.Socket (io_text error)))))
  end.

(** The loop turns again only after a spurious readiness; the fuel is one more
    than there are (retries_end in AsyncProps), and running out of it cannot happen. *)
Fixpoint send_loop (fuel : nat) : SendAct SendPoll :=
  match fuel with
  | O => mret Pending
  | S fuel =>
      r ← send_turn;
      match r with Some r => mret r | None => send_loop fuel end
  end.

Definition send_poll : SendAct SendPoll :=
  open ← see (λ c, ensure_open (machine_of c));
  _ ← not_committed open;
  held ← see prepared_probe;
  _ ← match held with
      | Some _ => mret tt
      | None =>
          prepared ← see (λ c, prepare_probe (machine_of c));
          prepared ← not_committed prepared;
          change (set_prepared_probe (Some prepared))
      end;
  fuel ← (λ c w, (inr (S (spurious_sends (socket c) w)), c, w));
  send_loop fuel.
Definition async_poll_send_probe : Async → World → SendPoll * Async * World := run send_poll.

(** ** Receiving *)
Abbreviation EventsAct := (Act Async (PollOf (list ClientEvent.t))).

Definition drain_ {X} : Act Async (PollOf X) unit := λ c w,
  let '(r, c, w) := async_drain_tx_timestamps c w in try_ r c w.

(** One turn of the receive loop. *)
Definition recv_turn : EventsAct (option (PollOf (list ClientEvent.t))) :=
  socket ← see socket;
  readiness ← world_call (poll_recv_ready socket);
  _ ← ready_or_return readiness;
  buffer ← see async_buffer_len;
  received ← world_call (try_recv_datagram socket buffer);
  match received with
  | inl (WouldBlock | Interrupted) => mret None
  | inl error => return_ (Ready (Err (ClientError.Socket (io_text error))))
  | inr datagram =>
      _ ← drain_;
      processed ← see (λ c, process_received_echo_packet (packet datagram) (received_at datagram)
        (meta datagram) (machine_of c));
      '(events, m) ← try_ processed;
      _ ← change (set_machine m);
      _ ← (if Machine.is_peer_closed m then
             _ ← change (set_prepared_probe None);
             remote ← see async_remote;
             cleared ← world_call (clear_dscp_on_socket socket remote);
             match cleared with Ok _ => change (set_traffic_class None) | _ => mret tt end
           else mret tt);
      mret (Some (Ready (Ok events)))
  end.

Fixpoint recv_loop (budget : nat) : EventsAct (PollOf (list ClientEvent.t)) :=
  match budget with
  | O => mret Pending
  | S budget =>
      r ← recv_turn;
      match r with Some r => mret r | None => recv_loop budget end
  end.

Definition recv_poll : EventsAct (PollOf (list ClientEvent.t)) :=
  open ← see (λ c, ensure_open (machine_of c));
  _ ← try_ open;
  recv_loop RECV_POLL_WORK_BUDGET.
Definition async_poll_recv : Async → World → PollOf (list ClientEvent.t) * Async * World := run recv_poll.

(** ** Timeouts *)
Definition async_poll_timeouts_bounded_at (now limit : Z) (c : Async) (w : World)
    : CResult TimeoutBatch.t * Async * World :=
  match async_drain_tx_timestamps c w with
  | (Ok _, c, w) =>
      match Machine.poll_timeouts_bounded_at now limit (machine_of c) with
      | Ok (batch, m) => (Ok batch, set_machine m c, w)
      | Err e => (Err e, c, w)
      | Panic => (Panic, c, w)
      end
  | (Err e, c, w) => (Err e, c, w)
  | (Panic, c, w) => (Panic, c, w)
  end.

(** [poll_timeouts_at]: as above, without the bound. *)
Definition async_poll_timeouts_at (now : Z) (c : Async) (w : World)
    : CResult (list ClientEvent.t) * Async * World :=
  match async_drain_tx_timestamps c w with
  | (Ok _, c, w) =>
      match Machine.poll_timeouts_at now (machine_of c) with
      | Ok (events, m) => (Ok events, set_machine m c, w)
      | Err e => (Err e, c, w)
      | Panic => (Panic, c, w)
      end
  | (Err e, c, w) => (Err e, c, w)
  | (Panic, c, w) => (Panic, c, w)
  end.

(** ** Closing *)
(** [DscpRollback::restore], of an armed rollback. *)
Definition restore_traffic_class (previous : option Z) (c : Async) : Io ClientError.t unit :=
  match previous with
  | Some traffic_class => apply_traffic_class_to_socket (socket c) (async_remote c) traffic_class
  | None => clear_dscp_on_socket (socket c) (async_remote c)
  end.
(** The rollback on a path that drops it armed: best effort. *)
Definition rollback {X} (previous : option Z) : Act Async (PollOf X) unit := λ c w,
  (inr tt, c, (restore_traffic_class previous c w).2).

Definition close_turn : EventsAct (option (PollOf (list ClientEvent.t))) :=
  prepared ← see (λ c, prepare_close (machine_of c));
  prepared ← try_ prepared;
  reserved ← world_call (try_reserve 1);
  if negb reserved then return_ (Ready (Err (ClientError.AllocationFailed "close event result")))
  else
    previous_traffic_class ← see async_traffic_class;
    let expected_bytes := len (PreparedClose.bytes_of prepared) in
    socket ← see socket;
    readiness ← world_call (poll_send_ready socket);
    _ ← ready_or_return readiness;
    remote ← see async_remote;
    cleared ← world_call (clear_dscp_on_socket socket remote);
    _ ← try_ cleared;
    sent ← world_call (try_send socket (PreparedClose.bytes_of prepared));
    match sent with
    | inl WouldBlock =>
        client ← see id;
        restored ← world_call (restore_traffic_class previous_traffic_class client);
        match restored with
        | Ok _ => mret None
        | Err error => _ ← rollback previous_traffic_class; return_ (Ready (Err error))
        | Panic => return_ (Ready Panic)
        end
    | inl error =>
        _ ← rollback previous_traffic_class;
        return_ (Ready (Err (ClientError.Socket (io_text error))))
    | inr bytes =>
        close_sent_at ← world_call timestamp_now;
        committed ← see (λ c, commit_local_close (PreparedClose.commit prepared) close_sent_at (machine_of c));
        '(event, m) ← try_ committed;
        _ ← change (set_machine m);
        _ ← change (set_prepared_probe None);
        _ ← change (set_traffic_class None);
        _ ← try_ (validate_datagram_length expected_bytes bytes);
        mret (Some (Ready (Ok [event])))
    end.

(** As [send_loop]. *)
Fixpoint close_loop (fuel : nat) : EventsAct (PollOf (list ClientEvent.t)) :=
  match fuel with
  | O => mret Pending
  | S fuel =>
      r ← close_turn;
      match r with Some r => mret r | None => close_loop fuel end
  end.
Definition close_poll : EventsAct (PollOf (list ClientEvent.t)) :=
  fuel ← (λ c w, (inr (S (spurious_sends (socket c) w)), c, w));
  close_loop fuel.
Definition async_poll_close : Async → World → PollOf (list ClientEvent.t) * Async * World := run close_poll.

(** ** The managed driver's client *)
#[global] Instance async_session : AsyncSession := {|
  AsyncClient := Async;
  AsyncOpenState := OpenState.t;
  ConnectFuture := ConnectState;
  connect_future := ConnectStart;
  open_state_new := OpenState.new;
  has_in_flight_work := OpenState.has_in_flight_work;
  packets_sent c := Machine.packets_sent (machine_of c);
  remote_addr := async_remote;
  ManagedBase.is_peer_closed c := Machine.is_peer_closed (machine_of c);
  has_pending_probes c := negb (pending_is_empty (machine_of c));
  ManagedBase.next_probe_timeout_deadline c := Machine.next_probe_timeout_deadline (machine_of c);
  ManagedBase.latest_probe_timeout_deadline c := Machine.latest_probe_timeout_deadline (machine_of c);
  discard_prepared_probe := set_prepared_probe None;
  poll_connect := poll_connecting_future;
  ManagedBase.poll_timeouts_bounded_at now limit c w :=
    let '(r, c, w) := async_poll_timeouts_bounded_at now limit c w in
    ((λ batch, (TimeoutBatch.events batch, TimeoutBatch.more_due batch)) <$> r, c, w);
  cancel_open := async_cancel_open;
  poll_open := async_poll_open;
  poll_recv := async_poll_recv;
  poll_close := async_poll_close;
  poll_send_probe := async_poll_send_probe;
|}.
End client.
