(* ===== verification/AsyncInv.v ===== *)
(** * irtt-client: the async adapter's invariant

    What the operating system promises ([OsLaws]), weakest preconditions for the
    actions of AsyncClient, and the invariant its polls keep: under a clock that
    does not go back no poll panics, the machine stays well formed and a probe
    held back is the next one. The instance [async_session_laws] hands these
    facts to the managed driver. *)

From S2P Require Import Prelude ProtoBase Envelope ParamsCodec Layout OpenCodec EchoCodec ClientBase ClientNegotiation.
From S2P Require Import Probe ClientEvent Timing Machine MachineInv Client ClientTrace ClientProps Schedule ManagedBase ManagedTask ManagedTarget.
From S2P Require Import ManagedPacing ManagedLogic Endpoint Socket AsyncClient.

(** ** The operating system *)

(** The clock does not go back, a call leaves no more spurious readiness than
    there was, and a received payload consists of bytes. *)
Class OsLaws `{Os} := {
  os_clock : World → Z;
  os_instant w : os_clock w <= (instant_now w).1 <= os_clock (instant_now w).2;
  os_timer deadline w : os_clock w <= os_clock (timer_ready deadline w).2;
  os_handles w : os_clock w <= os_clock (handle_calls w).2;
  os_system w : os_clock w <= os_clock (system_now w).2;
  os_lookup l w : os_clock w <= os_clock (poll_lookup l w).2;
  os_socket v4 w : os_clock w <= os_clock (socket_new v4 w).2;
  os_call sock call w : os_clock w <= os_clock (socket_call sock call w).2;
  os_send_ready sock w : os_clock w <= os_clock (poll_send_ready sock w).2;
  os_recv_ready sock w : os_clock w <= os_clock (poll_recv_ready sock w).2;
  os_send sock data w : os_clock w <= os_clock (try_send sock data w).2;
  os_recv sock n w : os_clock w <= os_clock (recvmsg sock n w).2;
  os_errqueue sock w : os_clock w <= os_clock (recvmsg_errqueue sock w).2;
  os_reserve n w : os_clock w <= os_clock (try_reserve n w).2;
  os_payload sock n w msg : (recvmsg sock n w).1 = inr msg → bytes_ok (payload msg);
}.

Section io_laws.
Context `{OsLaws}.

(** A call of the world that does not move the clock back. *)
Definition later {A} (f : World → A * World) : Prop := ∀ w, os_clock w <= os_clock (f w).2.
(** An action on the world that cannot panic either. *)
Definition sound {E A} (m : Io E A) : Prop := later m ∧ ∀ w, (m w).1 ≠ Panic.

Lemma later_instant : later instant_now.
Proof. intros w. pose proof (os_instant w). lia. Qed.
Lemma timestamp_later w :
  os_clock w <= ClientTimestamp.mono (timestamp_now w).1 <= os_clock (timestamp_now w).2.
Proof.
  unfold timestamp_now. pose proof (os_system w) as Hs. destruct (system_now w) as [wall w1].
  pose proof (os_instant w1) as Hi. destruct (instant_now w1) as [mono w2]. cbn in *. lia.
Qed.
Lemma later_timestamp : later timestamp_now.
Proof. intros w. pose proof (timestamp_later w). lia. Qed.
Lemma later_const {A} (a : A) : later (λ w, (a, w)).
Proof. intros w. cbn. lia. Qed.
Lemma later_bind {A B} (f : World → A * World) (g : A → World → B * World) :
  later f → (∀ a, later (g a)) → later (λ w, let '(a, w) := f w in g a w).
Proof.
  intros Hf Hg w. specialize (Hf w). destruct (f w) as [a w']. cbn in Hf. specialize (Hg a w'). lia.
Qed.

Lemma sound_ret {E A} (a : A) : sound (mret a : Io E A).
Proof. split; [apply later_const|done]. Qed.
Lemma sound_bind {E A B} (m : Io E A) (f : A → Io E B) :
  sound m → (∀ a, sound (f a)) → sound (m ≫= f).
Proof.
  intros [Hm Hp] Hf. split; intros w; specialize (Hm w); specialize (Hp w); unfold mbind, Io_bind;
    destruct (m w) as [[a|e|] w']; cbn in *; try done.
  - pose proof (proj1 (Hf a) w'). lia.
  - apply (Hf a).
Qed.
Lemma sound_lift {E A} (r : Result E A) : r ≠ Panic → sound (io_lift r).
Proof. intros Hr. split; [apply later_const|done]. Qed.
Lemma sound_configure sock call error : sound (configure sock call error).
Proof.
  split; intros w; unfold configure; pose proof (os_call sock call w); by destruct (socket_call _ _ _) as [[] ?].
Qed.
Lemma sound_option {A B} (o : option A) (f : A → Io ClientError.t B) (m : Io ClientError.t B) :
  (∀ a, sound (f a)) → sound m → sound (match o with Some a => f a | None => m end).
Proof. by destruct o. Qed.
Lemma sound_if {A} (b : bool) (m n : Io ClientError.t A) : sound m → sound n → sound (if b then m else n).
Proof. by destruct b. Qed.

Lemma validate_ttl_no_panic ttl : validate_ttl ttl ≠ Panic.
Proof. unfold validate_ttl. by destruct (_ || _). Qed.
End io_laws.

Create HintDb io.
#[export] Hint Resolve later_instant later_timestamp os_timer os_system os_lookup os_socket os_call os_send_ready
  os_recv_ready os_send os_recv os_errqueue os_reserve sound_ret sound_lift sound_configure validate_ttl_no_panic : io.
#[export] Hint Extern 3 (sound (_ ≫= _)) => apply sound_bind; [|intros ?] : io.
#[export] Hint Extern 3 (sound (match _ with Some _ => _ | None => _ end)) => apply sound_option; [intros ?|] : io.
#[export] Hint Extern 3 (sound (if _ then _ else _)) => apply sound_if : io.

Section sockets.
Context `{OsLaws}.

Lemma sound_traffic_class sock remote tc : sound (apply_traffic_class_to_socket sock remote tc).
Proof. unfold apply_traffic_class_to_socket, set_socket_traffic_class. auto with io. Qed.
Lemma sound_clear_dscp sock remote : sound (clear_dscp_on_socket sock remote).
Proof. unfold clear_dscp_on_socket, set_socket_traffic_class. auto with io. Qed.

Lemma sound_connect config remote family : sound (connect_tokio_udp_socket config remote family).
Proof.
  unfold connect_tokio_udp_socket, connect_udp_socket, create_prebind_udp_socket, apply_routing_options,
    configure_receive_metadata, apply_ttl_to_socket, configure_io.
  assert (sound (λ w, match socket_new (is_ipv4 remote) w with
                      | (inl source, w) => (Err (ClientError.Socket source), w)
                      | (inr socket, w) => (Ok socket, w) end)) as Hnew.
  { split; intros w; pose proof (os_socket (is_ipv4 remote) w); by destruct (socket_new _ _) as [[] ?]. }
  auto 20 with io.
Qed.

Lemma later_tx_timestamping sock : later (try_enable_tx_timestamping sock).
Proof.
  intros w. unfold try_enable_tx_timestamping.
  pose proof (os_call sock (SetTimestamping TX_TIMESTAMPING_FLAGS) w).
  destruct (socket_call _ _ _) as [[] w']; [|done].
  pose proof (os_call sock (SetTimestamping RX_TIMESTAMPING_FLAGS) w'). cbn in *. lia.
Qed.

Lemma later_error_record sock : later (try_recv_error_queue_record sock).
Proof.
  intros w. unfold try_recv_error_queue_record. pose proof (os_errqueue sock w).
  by destruct (recvmsg_errqueue _ _) as [[[]|] ?].
Qed.
Lemma later_drain n sock : later (drain_error_queue n sock).
Proof.
  induction n as [|n IH]; intros w; [apply later_const|]. cbn [drain_error_queue].
  pose proof (later_error_record sock w). destruct (try_recv_error_queue_record _ _) as [[|[[]|]] w']; try done.
  - specialize (IH w'). destruct (drain_error_queue n sock w'). cbn in *. lia.
  - specialize (IH w'). cbn in *. lia.
  - specialize (IH w'). cbn in *. lia.
Qed.

(** A received datagram arrived after it was asked for. *)
Lemma recv_datagram_ok sock n w :
  os_clock w <= os_clock (try_recv_datagram sock n w).2 ∧
  match (try_recv_datagram sock n w).1 with inr d => bytes_ok (packet d) | inl _ => True end.
Proof.
  unfold try_recv_datagram. pose proof (os_recv sock n w) as Hl. pose proof (os_payload sock n w) as Hp.
  destruct (recvmsg sock n w) as [[e|msg] w1]; [done|]. pose proof (later_timestamp w1).
  destruct (timestamp_now w1) as [at_ w2]. cbn in *. split; [lia|]. by apply bytes_ok_take, Hp.
Qed.

Lemma later_poll_until poll deadline : later poll → later (poll_until poll deadline).
Proof.
  intros Hp w. specialize (Hp w). unfold poll_until. destruct (poll w) as [[|[]] w']; try done.
  pose proof (os_timer deadline w'). destruct (timer_ready _ _). cbn in *. lia.
Qed.
Lemma poll_until_no_panic poll deadline w : (poll_until poll deadline w).1 ≠ Ready Panic.
Proof.
  unfold poll_until. destruct (poll w) as [[|[]] w']; try done. by destruct (timer_ready _ _) as [[] ?].
Qed.
End sockets.

(** ** Weakest preconditions *)

(** [Φ] holds where the action goes on, [Ψ] where it returns. *)
Section awp.
Context `{OsLaws} {S R : Type}.

Definition awp {A} (m : Act S R A) (Φ : A → S → World → Prop) (Ψ : R → S → World → Prop) (s : S) (w : World) : Prop :=
  match m s w with
  | (inr a, s, w) => Φ a s w
  | (inl r, s, w) => Ψ r s w
  end.

Lemma awp_mono {A} (m : Act S R A) (Φ Φ' : A → S → World → Prop) Ψ s w :
  awp m Φ Ψ s w → (∀ a s w, Φ a s w → Φ' a s w) → awp m Φ' Ψ s w.
Proof. unfold awp. destruct (m s w) as [[[r|a] s'] w']; auto. Qed.
Lemma awp_ret {A} (a : A) Φ Ψ s w : Φ a s w → awp (mret a) Φ Ψ s w.
Proof. done. Qed.
Lemma awp_return {A} r (Φ : A → S → World → Prop) Ψ s w : Ψ r s w → awp (return_ r) Φ Ψ s w.
Proof. done. Qed.
Lemma awp_bind {A B} (m : Act S R A) (f : A → Act S R B) Φ Ψ s w :
  awp m (λ a, awp (f a) Φ Ψ) Ψ s w → awp (m ≫= f) Φ Ψ s w.
Proof. unfold awp, mbind, Act_bind. by destruct (m s w) as [[[r|a] s'] w']. Qed.
Lemma awp_see {A} (f : S → A) Φ Ψ s w : Φ (f s) s w → awp (see f) Φ Ψ s w.
Proof. done. Qed.
Lemma awp_change f Φ Ψ s w : Φ tt (f s) w → awp (change f) Φ Ψ s w.
Proof. done. Qed.
Lemma awp_call {A} (f : World → A * World) Φ Ψ s w : Φ (f w).1 s (f w).2 → awp (world_call f) Φ Ψ s w.
Proof. unfold awp, world_call. by destruct (f w). Qed.
Lemma awp_run (m : Act S R R) (Φ : R → S → World → Prop) s w :
  awp m Φ Φ s w → Φ (run m s w).1.1 (run m s w).1.2 (run m s w).2.
Proof. unfold awp, run. by destruct (m s w) as [[[r|r] s'] w']. Qed.
End awp.

(** One step that does not touch the world; [awp_steps] stops before a call. *)
Ltac awp_step :=
  lazymatch goal with
  | |- awp (_ ≫= _) _ _ _ _ => apply awp_bind
  | |- awp (mret _) _ _ _ _ => apply awp_ret
  | |- awp (return_ _) _ _ _ _ => apply awp_return
  | |- awp (see _) _ _ _ _ => apply awp_see
  | |- awp (see_client _) _ _ _ _ => apply awp_see
  | |- awp (see_open _) _ _ _ _ => apply awp_see
  | |- awp (change _) _ _ _ _ => apply awp_change
  | |- awp (on_client _) _ _ _ _ => apply awp_change
  | |- awp (on_open _) _ _ _ _ => apply awp_change
  | |- awp (try_ (Ok _)) _ _ _ _ => apply awp_ret
  | |- awp (try_ (Err _)) _ _ _ _ => apply awp_return
  | |- awp (expect_ (Some _)) _ _ _ _ => apply awp_ret
  | |- awp (not_committed (Ok _)) _ _ _ _ => apply awp_ret
  | |- awp (not_committed (Err _)) _ _ _ _ => apply awp_return
  | |- awp (after_commit _ (Ok _)) _ _ _ _ => apply awp_ret
  | |- awp (after_commit _ (Err _)) _ _ _ _ => apply awp_return
  end.
Ltac awp_steps := repeat awp_step.

(** ** The invariant *)
Section invariant.
Context `{Clocks} `{Target} `{!HmacMd5} `{OsLaws}.

(** Every deadline the machine holds was set by [t]. *)
Definition machine_by (t : Z) (m : SessionMachine.t) : Prop :=
  machine_ok (t + ClientConfig.probe_timeout (SessionMachine.config m)) m.
Definition used_by (t : Z) (c : Async) : Prop := machine_by t (machine_of c).

(** A probe held back for the socket is the open session's next one. *)
Definition held_ok (c : Async) : Prop :=
  ∀ p, prepared_probe c = Some p → ∃ s, SessionMachine.state (machine_of c) = Open s ∧
    PreparedProbe.seq p = ActiveSession.next_wire_seq s.

Lemma used_later t t' c : t <= t' → used_by t c → used_by t' c.
Proof. intros Hl Hc. eapply machine_ok_mono; [|exact Hc]. lia. Qed.

Definition is_connected (m : SessionMachine.t) : Prop := SessionMachine.state m = Connected.

(** The adapter agrees with its machine: a held probe is the next one, and the
    request is at hand exactly while the machine has not been opened. *)
Record async_ok (c : Async) : Prop := {
  ao_held : held_ok c;
  ao_request : prepared_open c ≠ None ↔ is_connected (machine_of c);
}.

(** The same next probe, and opened or not as before. *)
Definition next_kept (m m' : SessionMachine.t) : Prop :=
  (∀ s, SessionMachine.state m = Open s →
    ∃ s', SessionMachine.state m' = Open s' ∧ ActiveSession.next_wire_seq s' = ActiveSession.next_wire_seq s) ∧
  (is_connected m' ↔ is_connected m).
Lemma next_kept_refl m : next_kept m m.
Proof. split; [by intros s; exists s|done]. Qed.
Lemma next_kept_open m m' s s' :
  SessionMachine.state m = Open s → SessionMachine.state m' = Open s' →
  ActiveSession.next_wire_seq s' = ActiveSession.next_wire_seq s → next_kept m m'.
Proof.
  intros Hs Hs' Hn. unfold next_kept, is_connected. rewrite Hs, Hs'. split; [|done].
  intros s2 [= <-]. by exists s'.
Qed.
Lemma async_kept c m : next_kept (machine_of c) m → async_ok c → async_ok (set_machine m c).
Proof.
  intros [Hk Hc] [Hh Hr]. split; [|cbn; by rewrite Hc].
  intros p Hp. destruct (Hh p Hp) as (s & Hs & ->). destruct (Hk s Hs) as (s' & Hs' & <-). by exists s'.
Qed.
(** An opened machine moves on, and no probe is held. *)
Lemma async_moved c m : async_ok c → ¬ is_connected (machine_of c) → ¬ is_connected m →
  async_ok (set_prepared_probe None (set_machine m c)).
Proof. intros [_ Hr] Hc Hm. split; [done|]. cbn. naive_solver. Qed.
Lemma async_discard c : async_ok c → async_ok (set_prepared_probe None c).
Proof. by intros [_ Hr]; split. Qed.
Lemma open_not_connected m s : SessionMachine.state m = Open s → ¬ is_connected m.
Proof. unfold is_connected. by intros ->. Qed.

(** No probe was sent; one was, of that sequence. *)
Definition unsent (m m' : SessionMachine.t) : Prop :=
  Machine.packets_sent m' = Machine.packets_sent m ∧ seqs (pending_of m') = seqs (pending_of m).
Definition sent_one (seq : Z) (m m' : SessionMachine.t) : Prop :=
  Machine.packets_sent m' = Machine.packets_sent m + 1 ∧ seqs (pending_of m') = seqs (pending_of m) ++ [seq].
Lemma unsent_refl m : unsent m m.
Proof. done. Qed.
Lemma unsent_trans m1 m2 m3 : unsent m1 m2 → unsent m2 m3 → unsent m1 m3.
Proof. unfold sent_one, unsent. intros [] []. split; congruence. Qed.
Lemma unsent_sent seq m1 m2 m3 : unsent m1 m2 → sent_one seq m2 m3 → sent_one seq m1 m3.
Proof. unfold sent_one, unsent. intros [] []. split; congruence. Qed.
Lemma sent_unsent seq m1 m2 m3 : sent_one seq m1 m2 → unsent m2 m3 → sent_one seq m1 m3.
Proof. unfold sent_one, unsent. intros [] []. split; congruence. Qed.

(** What a machine and one that differs from it in kernel timestamps have in common. *)
Definition alike (t : Z) (m m' : SessionMachine.t) : Prop := machine_by t m' ∧ next_kept m m' ∧ unsent m m'.
Lemma alike_retagged t m m' : (∀ h, retagged h m m') → machine_by t m → alike t m m'.
Proof.
  intros Hre Hm. set (h := t + ClientConfig.probe_timeout (SessionMachine.config m)).
  pose proof (Hre h) as Hr. pose proof (retagged_ok h m m' Hm Hr) as Hok. destruct Hr as [(Hc & _) Hst].
  unfold alike, machine_by. rewrite Hc. split; [done|]. unfold unsent, next_kept, is_connected.
  destruct (SessionMachine.state m) as [|s| |] eqn:Hs.
  2:{ destruct Hst as (s' & Hs' & Hsh & _ & Htr). destruct (machine_tracks _ m s Hm Hs) as [_ HT].
      destruct (Htr _ _ HT) as (P' & T' & HT' & HP & _).
      unfold capacity_of in HT'. rewrite <-Hc in HT'. destruct (tracks_of _ m' s' P' T' Hs' HT') as [-> _].
      rewrite (same_probes_seqs _ _ HP). unfold Machine.packets_sent. rewrite Hs, Hs', (sh_sent _ _ Hsh).
      split; [|done]. split; [|done]. intros s2 [= <-]. exists s'. split; [done|]. apply (sh_next _ _ Hsh). }
  all: unfold Machine.packets_sent, pending_of; rewrite Hs, Hst; split; [|done]; split; [by intros s|done].
Qed.

(** What a poll preserves from [w] on. *)
Record kept (w : World) (c : Async) (w' : World) : Prop := {
  kp_clock : os_clock w <= os_clock w';
  kp_used : used_by (os_clock w') c;
  kp_ok : async_ok c;
}.

Lemma session_kept_refl w c : used_by (os_clock w) c → async_ok c → kept w c w.
Proof. by split. Qed.
Lemma kept_later w c w1 w2 : kept w c w1 → os_clock w1 <= os_clock w2 → kept w c w2.
Proof. intros [] Hl. split; [lia|by eapply used_later|done]. Qed.
Lemma kept_call {A} (f : World → A * World) w c w1 : later f → kept w c w1 → kept w c (f w1).2.
Proof. intros Hf Hk. eapply kept_later; [exact Hk|apply Hf]. Qed.
Lemma kept_machine w c w1 m :
  kept w c w1 → machine_by (os_clock w1) m → next_kept (machine_of c) m → kept w (set_machine m c) w1.
Proof. intros [] Hm Hk. split; [done|done|by apply async_kept]. Qed.
Lemma kept_discard w c w1 : kept w c w1 → kept w (set_prepared_probe None c) w1.
Proof. intros []. split; [done|done|by apply async_discard]. Qed.
Lemma session_kept_same w c c' w1 :
  machine_of c' = machine_of c → prepared_probe c' = prepared_probe c → prepared_open c' = prepared_open c →
  kept w c w1 → kept w c' w1.
Proof.
  intros Hm Hp Ho [Hl Hu [Hh Hr]]. unfold used_by, held_ok in *.
  split; [done|by unfold used_by; rewrite Hm|split; [by unfold held_ok; rewrite Hm, Hp|by rewrite Ho, Hm]].
Qed.

(** The drain of transmit timestamps. *)
Lemma async_drain_ok w c w1 :
  kept w c w1 →
  (async_drain_tx_timestamps c w1).1.1 ≠ Panic ∧
  kept w (async_drain_tx_timestamps c w1).1.2 (async_drain_tx_timestamps c w1).2 ∧
  next_kept (machine_of c) (machine_of (async_drain_tx_timestamps c w1).1.2) ∧
  unsent (machine_of c) (machine_of (async_drain_tx_timestamps c w1).1.2) ∧
  (∃ m, (async_drain_tx_timestamps c w1).1.2 = set_machine m c).
Proof.
  intros Hk. unfold async_drain_tx_timestamps. destruct (async_tx_enabled c); cbn [negb].
  - pose proof (later_drain MAX_TX_TIMESTAMP_RECORDS_PER_DRAIN (socket c) w1) as Hl.
    destruct (drain_error_queue _ _ _) as [q w2]. cbn in Hl |- *.
    destruct (alike_retagged (os_clock w2) (machine_of c)
      (fold_left (λ m '(id, timestamp), record_kernel_tx_timestamp id timestamp m) (completions q) (machine_of c)))
      as (Hm & Hn & Hun).
    { intros h. apply record_all_retagged. }
    { eapply used_later; [exact Hl|apply (kp_used _ _ _ Hk)]. }
    split; [unfold socket_result; by destruct (queue_error q)|]. split; [|split; [exact Hn|split; [exact Hun|by eexists]]].
    apply kept_machine; [by eapply kept_later|done|done].
  - split; [done|]. split; [done|]. split; [apply next_kept_refl|]. split; [done|]. exists (machine_of c). by destruct c.
Qed.

(** ** Sending *)
Definition settled {E A} (w : World) (r : Poll (Result E A)) (c : Async) (w' : World) : Prop :=
  r ≠ Ready Panic ∧ kept w c w'.

(** A commit that passed its checks cannot fail any more. *)
Lemma commit_machine t m s room p pf anchor commit sent_at bytes :
  machine_by t m → SessionMachine.state m = Open s → PreparedProbe.seq p = ActiveSession.next_wire_seq s →
  t <= ClientTimestamp.mono anchor →
  preflight_probe_commit room p m = Ok pf → finalize_probe_commit pf anchor m = Ok commit →
  ∃ sent m', commit_probe_sent commit sent_at bytes m = Ok (sent, m') ∧ machine_by (ClientTimestamp.mono anchor) m' ∧
    ¬ is_connected m' ∧ sent_one (ProbeSent.seq sent) m m' ∧ ProbeSent.seq sent = PreparedProbe.seq p.
Proof.
  intros Hm Hst Hseq Ht Hpf Hfin. destruct p as [pkt seq]. cbn in Hseq. subst seq.
  destruct (machine_tracks _ m s Hm Hst) as [Hhd Htr].
  pose proof (preflight_ok _ m s room pkt Hm Hst (conj Hhd (ex_intro _ _ (ex_intro _ _ Htr))) _ _ Htr) as Hp.
  rewrite Hpf in Hp. destruct Hp as (-> & Hfresh & Hlen & Hsent & _).
  destruct (finalize_outcome m anchor (ActiveSession.next_wire_seq s) (wrap_u 32 (ActiveSession.next_wire_seq s + 1))
    (ActiveSession.packets_sent s + 1)) as [Heq|Heq]; rewrite Heq in Hfin; [|done].
  apply Ok_inj in Hfin as <-.
  set (h := t + ClientConfig.probe_timeout (SessionMachine.config m)) in *.
  set (d := ClientTimestamp.mono anchor + ClientConfig.probe_timeout (SessionMachine.config m)).
  destruct (commit_probe_ok h m s _ _ sent_at bytes d (ClientTimestamp.wall anchor) Hm Hst Hhd Htr Hfresh Hlen
    ltac:(unfold h, d; lia) Hsent) as (s' & Hc & Hhd' & Htr' & _ & _ & Hsent').
  eexists _, _. split; [exact Hc|]. split.
  2:{ split; [done|]. split; [|done]. split; [unfold Machine.packets_sent; cbn; by rewrite Hst|].
      destruct (tracks_of d (SessionMachine.set_state (Open s') m) s' _ _ eq_refl Htr') as [-> _]. unfold seqs. by rewrite fmap_app. }
  unfold machine_by. eapply machine_set_state; [exact Hm|].
  split; [exact Hhd'|]. eauto.
Qed.

Lemma invalidate_ok t m : machine_by t m → alike t m (invalidate_kernel_tx_correlation m).
Proof. apply alike_retagged. intros h. apply invalidate_retagged. Qed.

Lemma kept_invalidate w c w1 :
  kept w c w1 → kept w (set_machine (invalidate_kernel_tx_correlation (machine_of c)) c) w1.
Proof.
  intros Hk. destruct (invalidate_ok (os_clock w1) (machine_of c) (kp_used _ _ _ Hk)) as (Hm & Hn & _).
  by apply kept_machine.
Qed.

Lemma datagram_length_no_panic expected bytes : validate_datagram_length expected bytes ≠ Panic.
Proof. unfold validate_datagram_length. by destruct (bytes =? expected). Qed.

(** What a send that began at [c0] has done when it ends. *)
Definition send_boundary (c0 : Async) (r : Poll (Result SendProbeError SendReceipt)) (c' : Async) : Prop :=
  match r with
  | Pending | Ready (Err (NotCommitted _)) =>
      unsent (machine_of c0) (machine_of c') ∧ ∀ p, prepared_probe c0 = Some p → prepared_probe c' = Some p
  | Ready (Ok receipt) | Ready (Err (AfterCommit receipt _)) =>
      sent_one (receipt_seq receipt) (machine_of c0) (machine_of c') ∧ prepared_probe c' = None ∧
      ∀ p, prepared_probe c0 = Some p → receipt_seq receipt = PreparedProbe.seq p
  | Ready Panic => False
  end.
Definition send_settled (c0 : Async) (w : World) (r : Poll (Result SendProbeError SendReceipt)) (c' : Async) (w' : World)
    : Prop := kept w c' w' ∧ send_boundary c0 r c'.

(** While it has not committed: a probe is at hand, the one held before if there was. *)
Record send_waiting (c0 : Async) (w : World) (c : Async) (w' : World) : Prop := {
  sw_kept : kept w c w';
  sw_unsent : unsent (machine_of c0) (machine_of c);
  sw_held : ∀ p, prepared_probe c0 = Some p → prepared_probe c = Some p;
}.
Lemma waiting_call {A} (f : World → A * World) c0 w c w1 :
  later f → send_waiting c0 w c w1 → send_waiting c0 w c (f w1).2.
Proof. intros Hf []. split; [by apply kept_call|done..]. Qed.
Lemma waiting_pending c0 w c w1 : send_waiting c0 w c w1 → send_settled c0 w Pending c w1.
Proof. by intros []. Qed.
Lemma waiting_refused c0 w c w1 e : send_waiting c0 w c w1 → send_settled c0 w (Ready (Err (NotCommitted e))) c w1.
Proof. by intros []. Qed.
Lemma waiting_invalidate c0 w c w1 : send_waiting c0 w c w1 →
  send_waiting c0 w (set_machine (invalidate_kernel_tx_correlation (machine_of c)) c) w1.
Proof.
  intros [Hk Hu Hh]. split; [by apply kept_invalidate| |done].
  eapply unsent_trans; [exact Hu|]. apply (invalidate_ok _ _ (kp_used _ _ _ Hk)).
Qed.

Lemma finish_send_ok c0 w c w1 p commit expected bytes start :
  send_waiting c0 w c w1 → prepared_probe c = Some p → ¬ is_connected (machine_of c) →
  (∀ sent_at, ∃ sent m, commit_probe_sent commit sent_at bytes (machine_of c) = Ok (sent, m) ∧
    machine_by (os_clock w1) m ∧ ¬ is_connected m ∧ sent_one (ProbeSent.seq sent) (machine_of c) m ∧
    ProbeSent.seq sent = PreparedProbe.seq p) →
  awp (finish_send commit expected bytes start) (send_settled c0 w) (send_settled c0 w) c w1.
Proof.
  intros [Hk Hun Hheld] Hp Hnc Hc. unfold finish_send. awp_steps. apply awp_call.
  pose proof (later_instant w1) as Hl1. destruct (instant_now w1) as [fin w2]. cbn [fst snd] in *. awp_steps. apply awp_call.
  pose proof (later_timestamp w2) as Hl2. destruct (timestamp_now w2) as [sent_at w3]. cbn in Hl1, Hl2 |- *.
  destruct (Hc sent_at) as (sent & m & Hcm & Hm & Hnm & Hone & Hseq). do 2 awp_step. rewrite Hcm. awp_steps.
  set (c1 := set_prepared_probe None (set_machine m c)).
  assert (kept w c1 w3) as Hk1.
  { split; [pose proof (kp_clock _ _ _ Hk); lia| |by apply async_moved; [apply (kp_ok _ _ _ Hk)|..]].
    eapply (used_later (os_clock w1)); [lia|exact Hm]. }
  assert (∀ p0, prepared_probe c0 = Some p0 → ProbeSent.seq sent = PreparedProbe.seq p0) as Hsame.
  { intros p0 Hp0. specialize (Hheld p0 Hp0). congruence. }
  set (receipt := mk_SendReceipt _ _ _ _ _). change (ProbeSent.seq sent) with (receipt_seq receipt) in Hone, Hsame.
  clearbody receipt.
  assert (∀ X (r : CResult X) (Φ : X → Async → World → Prop) c' w', r ≠ Panic → kept w c' w' →
    unsent m (machine_of c') → prepared_probe c' = None →
    (∀ a, Φ a c' w') → awp (after_commit receipt r) Φ (send_settled c0 w) c' w') as Hafter.
  { intros X [a|e|] Φ c' w' Hr Hk' Hu' Hn' HΦ; [by awp_step| |done]. awp_step. split; [done|]. split; [|done].
    eapply unsent_sent; [exact Hun|]. by eapply sent_unsent. }
  apply Hafter; [apply datagram_length_no_panic|exact Hk1|done|done|]. intros _. awp_step.
  destruct (async_drain_ok w c1 w3 Hk1) as (Hr & Hk2 & _ & Hu2 & m2 & Hm2).
  unfold awp at 1. destruct (async_drain_tx_timestamps c1 w3) as [[r c2] w4]. cbn in Hr, Hk2, Hu2, Hm2.
  assert (prepared_probe c2 = None) as Hn2 by by rewrite Hm2.
  awp_step. apply Hafter; [done..|]. intros _. awp_steps. split; [done|]. split; [|done].
  eapply unsent_sent; [exact Hun|]. by eapply sent_unsent.
Qed.

Lemma send_turn_ok c0 w c w1 :
  send_waiting c0 w c w1 → prepared_probe c ≠ None →
  awp send_turn
    (λ r c' w', match r with Some r => send_settled c0 w r c' w'
                | None => send_waiting c0 w c' w' ∧ prepared_probe c' ≠ None end)
    (send_settled c0 w) c w1.
Proof.
  intros Hk Hp. unfold send_turn. awp_steps. apply awp_call.
  pose proof (waiting_call (poll_send_ready (socket c)) c0 w c w1 (os_send_ready _) Hk) as Hk1.
  destruct (poll_send_ready _ w1) as [readiness w2]. cbn in Hk1 |- *.
  destruct readiness as [|[source|]]; awp_steps; [by apply waiting_pending|by apply waiting_refused|].
  destruct (prepared_probe c) as [p|] eqn:Hheld; [|done]. awp_steps. apply awp_call.
  destruct (ao_held _ (kp_ok _ _ _ (sw_kept _ _ _ _ Hk)) p Hheld) as (s & Hst & Hseq).
  pose proof (waiting_call (try_reserve 1) c0 w c w2 (os_reserve _) Hk1) as Hk2.
  destruct (try_reserve 1 w2) as [room w3]. cbn in Hk2 |- *. awp_steps.
  pose proof (kp_used _ _ _ (sw_kept _ _ _ _ Hk2)) as Hm.
  pose proof (preflight_ok _ _ s room (PreparedProbe.bytes_of p) Hm Hst) as Hpf.
  destruct (machine_tracks _ _ s Hm Hst) as [Hhd Htr].
  specialize (Hpf (conj Hhd (ex_intro _ _ (ex_intro _ _ Htr))) _ _ Htr).
  rewrite <-Hseq in Hpf. replace (PreparedProbe.mk _ _) with p in Hpf by by destruct p.
  destruct (preflight_probe_commit room p (machine_of c)) as [pf|e|] eqn:Epf; awp_steps; [|by apply waiting_refused|done].
  apply awp_call. pose proof (timestamp_later w3) as [Ht1 Ht2].
  pose proof (waiting_call timestamp_now c0 w c w3 later_timestamp Hk2) as Hk3.
  destruct (timestamp_now w3) as [anchor w4]. cbn in Ht1, Ht2, Hk3 |- *. awp_steps.
  assert (finalize_probe_commit pf anchor (machine_of c) ≠ Panic) as Hfin.
  { unfold finalize_probe_commit, instant_checked_add. by destruct (_ <=? _). }
  destruct (finalize_probe_commit pf anchor (machine_of c)) as [commit|e|] eqn:Efin; awp_steps; [|by apply waiting_refused|done].
  apply awp_call. pose proof (waiting_call instant_now c0 w c w4 later_instant Hk3) as Hk4.
  pose proof (later_instant w4) as Hl4.
  destruct (instant_now w4) as [start w5]. cbn in Hk4, Hl4 |- *. awp_steps. apply awp_call.
  pose proof (waiting_call (try_send (socket c) (PreparedProbe.bytes_of p)) c0 w c w5 (os_send _ _) Hk4) as Hk5.
  pose proof (os_send (socket c) (PreparedProbe.bytes_of p) w5) as Hl5.
  destruct (try_send (socket c) _ w5) as [[error|bytes] w6]; cbn in Hk5, Hl5 |- *.
  - pose proof (waiting_invalidate _ _ _ _ Hk5) as Hk6.
    destruct error; awp_steps; [|by apply waiting_refused..]. split; [done|]. cbn. by rewrite Hheld.
  - awp_steps. eapply awp_mono; [eapply finish_send_ok; [exact Hk5|exact Hheld|by eapply open_not_connected|]|].
    + intros sent_at.
      destruct (commit_machine _ _ s room p pf anchor commit sent_at bytes Hm Hst Hseq Ht1 Epf Efin)
        as (sent & m & Hc & Hm' & Hrest).
      exists sent, m. split; [done|]. split; [|done]. eapply machine_ok_mono; [|exact Hm']. lia.
    + intros r c' w' Hr. by awp_step.
Qed.

Lemma send_loop_ok c0 w fuel c w1 :
  send_waiting c0 w c w1 → prepared_probe c ≠ None → awp (send_loop fuel) (send_settled c0 w) (send_settled c0 w) c w1.
Proof.
  revert c w1. induction fuel as [|fuel IH]; intros c w1 Hk Hp; cbn [send_loop]; awp_steps; [by apply waiting_pending|].
  eapply awp_mono; [by apply send_turn_ok|].
  intros [r|] c' w'; [intros ?; by awp_steps|]. intros [??]. by apply IH.
Qed.

Lemma poll_send_probe_kept w c w1 : kept w c w1 →
  send_settled c w (async_poll_send_probe c w1).1.1 (async_poll_send_probe c w1).1.2 (async_poll_send_probe c w1).2.
Proof.
  intros Hk. unfold async_poll_send_probe. apply (awp_run _ (send_settled c w)).
  assert (send_waiting c w c w1) as Hw by by split.
  unfold send_poll, ensure_open, open_session. awp_steps.
  destruct (SessionMachine.state (machine_of c)) as [|s| |] eqn:Hst; cbn [mbind Result_bind]; awp_steps;
    try by apply waiting_refused.
  assert (∀ c', send_waiting c w c' w1 → prepared_probe c' ≠ None →
    awp (fuel ← (λ c w, (inr (S (spurious_sends (socket c) w)), c, w)); send_loop fuel)
      (send_settled c w) (send_settled c w) c' w1)
    as Hloop by (intros c' Hk' Hp; awp_steps; by apply send_loop_ok).
  destruct (prepared_probe c) as [p|] eqn:Hp; awp_steps; [apply Hloop; [done|by rewrite Hp]|].
  pose proof (kp_used _ _ _ Hk) as Hm. destruct (machine_tracks _ _ s Hm Hst) as [Hhd Htr].
  destruct (prepare_probe_ok _ _ s Hm Hst (conj Hhd (ex_intro _ _ (ex_intro _ _ Htr)))) as (pkt & -> & _).
  awp_steps. apply Hloop; [|done]. split; [|done|intros q; cbn; congruence].
  destruct Hk as [Hl Hu [_ Hr]]. split; [done|done|]. split; [|exact Hr].
  intros p' [= <-]. by exists s.
Qed.

(** ** Receiving *)
Lemma receive_keeps t m s packet now meta :
  machine_by t m → SessionMachine.state m = Open s → bytes_ok packet →
  ∃ events m', process_received_echo_packet packet now meta m = Ok (events, m') ∧ machine_by t m' ∧
    (Machine.is_peer_closed m' = true ∧ ¬ is_connected m' ∨ Machine.is_peer_closed m' = false ∧ next_kept m m').
Proof.
  intros Hm Hst Hb. destruct (machine_tracks _ m s Hm Hst) as [Hhd Htr].
  destruct (receive_ok _ m s packet now meta _ _ Hm Hst Hhd Htr ltac:(auto with irtt)) as (evs & m' & Hp & Hr).
  exists evs, m'. split; [done|].
  assert (m' = m → machine_by t m' ∧ (Machine.is_peer_closed m' = true ∧ ¬ is_connected m' ∨ Machine.is_peer_closed m' = false ∧ next_kept m m'))
    as Hsame.
  { intros ->. split; [done|]. right. unfold Machine.is_peer_closed. rewrite Hst. split; [done|]. apply next_kept_refl. }
  destruct (decode_echo_reply _ _ _) as [reply|e|]; [|by apply Hsame, (proj2 Hr)..].
  case_bool_decide; [|by apply Hsame, (proj2 Hr)].
  destruct Hr as (s' & Hhd' & Hsh & Htr' & _ & _ & ->). cbv zeta in *.
  split; [eapply machine_set_state; [exact Hm|]|]; destruct (has _ FLAG_CLOSE).
  - apply (hd_sent _ _ _ Hhd).
  - split; [done|]. eauto.
  - by left.
  - right. split; [done|]. apply (next_kept_open _ _ s s'); [done..|]. apply (sh_next _ _ Hsh).
Qed.

Definition machine_open (c : Async) : Prop := ∃ s, SessionMachine.state (machine_of c) = Open s.

Lemma recv_turn_ok w c w1 :
  kept w c w1 → machine_open c →
  awp recv_turn
    (λ r c' w', match r with Some r => settled w r c' w' | None => kept w c' w' ∧ machine_open c' end)
    (settled w) c w1.
Proof.
  intros Hk [s Hst]. unfold recv_turn. awp_steps. apply awp_call.
  pose proof (kept_call (poll_recv_ready (socket c)) w c w1 (os_recv_ready _) Hk) as Hk1.
  destruct (poll_recv_ready _ w1) as [readiness w2]. cbn in Hk1 |- *.
  destruct readiness as [|[source|]]; cbn [ready_or_return]; awp_steps; [done..|]. apply awp_call.
  destruct (recv_datagram_ok (socket c) (async_buffer_len c) w2) as [Hl Hb].
  destruct (try_recv_datagram _ _ w2) as [[error|d] w3]; cbn in Hl, Hb |- *;
    pose proof (kept_later _ _ _ _ Hk1 Hl) as Hk3.
  { destruct error; awp_steps; (split; [done|]); [by exists s..|done]. }
  awp_steps. destruct (async_drain_ok w c w3 Hk3) as (Hr & Hk4 & Hn & _ & m1 & Hm1).
  unfold drain_, awp at 1. destruct (async_drain_tx_timestamps c w3) as [[r c1] w4]. cbn in Hr, Hk4, Hn, Hm1.
  destruct r as [u|e|]; cbn [try_]; [|done|done]. cbn [mret Act_ret]. awp_steps.
  destruct (proj1 Hn s Hst) as (s1 & Hst1 & _).
  destruct (receive_keeps (os_clock w4) (machine_of c1) s1 (packet d) (received_at d) (meta d)
    (kp_used _ _ _ Hk4) Hst1 Hb) as (evs & m' & -> & Hm' & Hclosed).
  awp_steps. destruct Hclosed as [[Hpc Hnm]|[Hpc Hkeep]]; rewrite Hpc; awp_steps.
  - apply awp_call. set (c2 := set_prepared_probe None (set_machine m' c1)).
    assert (kept w c2 w4) as Hk5.
    { split; [apply Hk4|exact Hm'|]. apply async_moved; [apply Hk4|by eapply open_not_connected|done]. }
    pose proof (kept_call _ w c2 w4 (proj1 (sound_clear_dscp (socket c) (async_remote c2))) Hk5) as Hk6.
    subst c1. cbn in Hk6 |- *. destruct (clear_dscp_on_socket _ _ w4) as [[] w5]; cbn in Hk6 |- *; awp_steps; (split; [done|]); [by eapply session_kept_same; [..|exact Hk6]|exact Hk6..].
  - split; [done|]. by apply kept_machine.
Qed.

Lemma poll_recv_kept w c w1 : kept w c w1 →
  settled w (async_poll_recv c w1).1.1 (async_poll_recv c w1).1.2 (async_poll_recv c w1).2.
Proof.
  intros Hk. unfold async_poll_recv. apply (awp_run _ (settled w)).
  unfold recv_poll, ensure_open, open_session. awp_steps.
  destruct (SessionMachine.state (machine_of c)) as [|s| |] eqn:Hst; cbn [mbind Result_bind]; awp_steps; try done.
  assert (machine_open c) as Ho by by exists s. clear s Hst.
  generalize RECV_POLL_WORK_BUDGET. intros n. revert c w1 Hk Ho.
  induction n as [|n IH]; intros c w1 Hk Ho; cbn [recv_loop]; [by awp_steps|].
  awp_steps. eapply awp_mono; [by apply recv_turn_ok|].
  intros [r|] c' w'; [intros ?; by awp_steps|]. intros [??]. by apply IH.
Qed.

(** ** Timeouts *)
Lemma timeouts_keep t m now limit :
  machine_by t m → 0 <= limit →
  match Machine.poll_timeouts_bounded_at now limit m with
  | Ok (_, m') => machine_by t m' ∧ next_kept m m'
  | Err _ => True
  | Panic => False
  end.
Proof.
  intros Hm Hl. destruct (SessionMachine.state m) as [|s| |] eqn:Hst.
  2:{ destruct (machine_tracks _ m s Hm Hst) as [Hhd Htr].
      destruct (poll_ok _ m s now limit _ _ Hm Hst Hhd Htr Hl) as (s' & -> & _ & Hhd' & Hsh & _ & Htr').
      split; [eapply machine_set_state; [exact Hm|]; split; [done|]; eauto|].
      apply (next_kept_open _ _ s s'); [done..|]. apply (sh_next _ _ Hsh). }
  all: unfold Machine.poll_timeouts_bounded_at, open_session; by rewrite Hst.
Qed.

Lemma poll_timeouts_kept w c w1 now limit : kept w c w1 → 0 <= limit →
  (async_poll_timeouts_bounded_at now limit c w1).1.1 ≠ Panic ∧
  kept w (async_poll_timeouts_bounded_at now limit c w1).1.2 (async_poll_timeouts_bounded_at now limit c w1).2.
Proof.
  intros Hk Hl. unfold async_poll_timeouts_bounded_at. destruct (async_drain_ok w c w1 Hk) as (Hr & Hk1 & _).
  destruct (async_drain_tx_timestamps c w1) as [[[u|e|] c1] w2]; [|done..]. cbn in Hk1.
  pose proof (timeouts_keep _ _ now limit (kp_used _ _ _ Hk1) Hl) as Ht.
  destruct (Machine.poll_timeouts_bounded_at now limit (machine_of c1)) as [[batch m]|e|]; [|done..].
  destruct Ht. split; [done|]. by apply kept_machine.
Qed.

(** ** Closing *)
Lemma sound_restore previous c : sound (restore_traffic_class previous c).
Proof. destruct previous; [apply sound_traffic_class|apply sound_clear_dscp]. Qed.

Lemma rollback_ok {A} w c w1 previous (e : CResult (list ClientEvent.t)) (Φ : A → Async → World → Prop) :
  e ≠ Panic → kept w c w1 →
  awp (rollback (X := list ClientEvent.t) previous) (λ _, awp (return_ (Ready e)) Φ (settled w))
    (settled w) c w1.
Proof.
  intros He Hk. unfold awp at 1, rollback. awp_steps. split; [congruence|].
  apply (kept_call _ w c w1); [apply sound_restore|done].
Qed.

Lemma close_turn_ok w c w1 :
  kept w c w1 →
  awp close_turn
    (λ r c' w', match r with Some r => settled w r c' w' | None => kept w c' w' end) (settled w) c w1.
Proof.
  intros Hk. unfold close_turn. awp_steps. unfold prepare_close, open_session.
  destruct (SessionMachine.state (machine_of c)) as [|s| |] eqn:Hst; cbn [mbind Result_bind]; awp_steps; try done.
  apply awp_call. pose proof (kept_call (try_reserve 1) w c w1 (os_reserve _) Hk) as Hk1.
  destruct (try_reserve 1 w1) as [[] w2]; cbn in Hk1 |- *; awp_steps; [|done].
  apply awp_call. pose proof (kept_call (poll_send_ready (socket c)) w c w2 (os_send_ready _) Hk1) as Hk2.
  destruct (poll_send_ready _ w2) as [[|[source|]] w3]; cbn in Hk2 |- *; awp_steps; try done.
  apply awp_call.
  pose proof (kept_call _ w c w3 (proj1 (sound_clear_dscp (socket c) (async_remote c))) Hk2) as Hk3.
  pose proof (proj2 (sound_clear_dscp (socket c) (async_remote c)) w3) as Hp3.
  destruct (clear_dscp_on_socket _ _ w3) as [[u|e|] w4]; cbn in Hk3, Hp3 |- *; awp_steps; try done.
  apply awp_call.
  pose proof (kept_call _ w c w4 (os_send (socket c) (ActiveSession.local_close_packet s)) Hk3) as Hk4.
  destruct (try_send (socket c) _ w4) as [[error|bytes] w5]; cbn in Hk4 |- *.
  - destruct error; awp_steps; [|by apply rollback_ok..]. apply awp_call.
    pose proof (kept_call _ w c w5 (proj1 (sound_restore (async_traffic_class c) c)) Hk4) as Hk5.
    pose proof (proj2 (sound_restore (async_traffic_class c) c) w5) as Hp5.
    destruct (restore_traffic_class _ _ w5) as [[u'|e|] w6]; cbn in Hk5, Hp5 |- *; awp_steps; try done.
    by apply rollback_ok.
  - awp_steps. apply awp_call. pose proof (kept_call timestamp_now w c w5 later_timestamp Hk4) as Hk5.
    destruct (timestamp_now w5) as [at_ w6]. cbn in Hk5 |- *. awp_steps.
    unfold commit_local_close. rewrite Hst. cbn [debug_assert mbind Result_bind]. awp_steps.
    match goal with |- awp _ _ _ ?c' _ => assert (kept w c' w6) as Hk6 end.
    { destruct Hk5 as [Hl Hu Hok]. split; [done| |].
      2:{ pose proof (async_moved c (SessionMachine.set_state (Closed CloseLocal (ActiveSession.packets_sent s)) (machine_of c))
            Hok (open_not_connected _ _ Hst) ltac:(done)) as []. by split. }
      eapply machine_set_state; [exact Hu|].
      destruct (machine_tracks _ _ s Hu Hst) as [Hhd _]. apply (hd_sent _ _ _ Hhd). }
    pose proof (datagram_length_no_panic (len (ActiveSession.local_close_packet s)) bytes) as Hlen.
    destruct (validate_datagram_length _ _); awp_steps; done.
Qed.

Lemma poll_close_kept w c w1 : kept w c w1 →
  settled w (async_poll_close c w1).1.1 (async_poll_close c w1).1.2 (async_poll_close c w1).2.
Proof.
  intros Hk. unfold async_poll_close. apply (awp_run _ (settled w)). unfold close_poll. awp_steps.
  unfold awp at 1. generalize (S (spurious_sends (socket c) w1)). intros n. revert c w1 Hk.
  induction n as [|n IH]; intros c w1 Hk; cbn [close_loop]; [by awp_steps|].
  awp_steps. eapply awp_mono; [by apply close_turn_ok|].
  intros [r|] c' w'; [intros ?; by awp_steps|]. apply IH.
Qed.

(** ** Opening *)

(** A cleanup is bounded by the attempt's deadline. *)
Definition open_state_ok (o : OpenState.t) : Prop := OpenState.cleanup o ≠ None → OpenState.deadline o ≠ None.

(** A client that is still opening. *)
Record opening (o : OpenState.t) (c : Async) : Prop := {
  og_connected : is_connected (machine_of c);
  og_cleanup : open_state_ok o;
}.

(** What a poll of the opening leaves. *)
Definition opening_settled (w : World) (r : Poll (CResult OpenOutcome)) (s : Async * OpenState.t) (w' : World) : Prop :=
  kept w s.1 w' ∧ open_state_ok s.2 ∧ r ≠ Ready Panic ∧ (r = Pending → is_connected (machine_of s.1)).
Definition still_opening (w : World) (s : Async * OpenState.t) (w' : World) : Prop :=
  kept w s.1 w' ∧ opening s.2 s.1.

Lemma opening_request w c o w1 : kept w c w1 → opening o c → prepared_open c ≠ None.
Proof. intros Hk Ho. apply (ao_request _ (kp_ok _ _ _ Hk)), Ho. Qed.
Lemma settled_opening w r c o w1 : kept w c w1 → opening o c → r ≠ Ready Panic → opening_settled w r (c, o) w1.
Proof. by intros ? [] ?. Qed.
Lemma opening_open_state o c o' : opening o c → open_state_ok o' → opening o' c.
Proof. intros [] Hc. by split. Qed.

Lemma take_primary_ok w c o w1 (Φ : OpenOutcome → _ → World → Prop) :
  kept w c w1 → OpenState.cleanup o ≠ None → awp take_primary Φ (opening_settled w) (c, o) w1.
Proof.
  intros Hk Hc. unfold take_primary. awp_steps. destruct (OpenState.cleanup o) as [cl|]; [|done].
  awp_steps. split; [done|]. split; [by intros []|done].
Qed.

Lemma open_cleanup_ok w c o w1 (Φ : OpenOutcome → _ → World → Prop) :
  kept w c w1 → opening o c → OpenState.cleanup o ≠ None →
  awp poll_open_cleanup Φ (opening_settled w) (c, o) w1.
Proof.
  intros Hk Ho Hc. unfold poll_open_cleanup. awp_steps.
  destruct (OpenState.cleanup o) as [cl|] eqn:Hcl; [|done]. awp_steps.
  assert (∀ w', kept w c w' → awp take_primary Φ (opening_settled w) (c, o) w') as Htake.
  { intros w' Hk'. apply take_primary_ok; [done|by rewrite Hcl]. }
  destruct (cleanup_packet_of cl) as [pkt|]; [|by apply Htake]. awp_steps. apply awp_call.
  pose proof (kept_call (try_send (socket c) pkt) w c w1 (os_send _ _) Hk) as Hk1.
  destruct (try_send _ _ w1) as [[error|bytes] w2]; cbn in Hk1 |- *; [|by apply Htake].
  destruct error; [|by apply Htake..]. awp_steps.
  destruct (OpenState.deadline o) as [d|] eqn:Hd; [|destruct (og_cleanup _ _ Ho); by rewrite ?Hcl, ?Hd].
  awp_steps. apply awp_call.
  pose proof (kept_call (poll_writable_until (socket c) d) w c w2 (later_poll_until _ d (os_send_ready _)) Hk1) as Hk2.
  destruct (poll_writable_until _ _ w2) as [[|[[]|e|]] w3]; cbn in Hk2 |- *;
    first [by apply Htake|awp_steps; by apply settled_opening].
Qed.

Lemma start_attempt_ok w c o w1 timeout :
  kept w c w1 → opening o c →
  awp (start_attempt timeout)
    (λ _ s w', still_opening w s w' ∧ OpenState.deadline s.2 ≠ None ∧ OpenState.cleanup s.2 = OpenState.cleanup o)
    (opening_settled w) (c, o) w1.
Proof.
  intros Hk Ho. unfold start_attempt. awp_steps. apply awp_call.
  pose proof (kept_call instant_now w c w1 later_instant Hk) as Hk1.
  destruct (instant_now w1) as [now w2]. cbn in Hk1 |- *. unfold instant_checked_add.
  destruct (_ <=? _); cbn [ok_or]; awp_steps; [|by apply settled_opening].
  split; [|done]. split; [done|]. by eapply opening_open_state.
Qed.

Lemma submit_request_ok w c o w1 :
  still_opening w (c, o) w1 → OpenState.deadline o ≠ None → OpenState.cleanup o = None →
  awp submit_request
    (λ proceed s w', still_opening w s w' ∧ OpenState.cleanup s.2 = None ∧
       (proceed = true → OpenState.deadline s.2 ≠ None))
    (opening_settled w) (c, o) w1.
Proof.
  intros [Hk Ho] Hd Hcl. cbn in Hk, Ho. unfold submit_request. awp_steps.
  destruct (OpenState.deadline o) as [d|] eqn:Ed; [|done]. awp_steps. apply awp_call.
  pose proof (kept_call (poll_writable_until (socket c) d) w c w1 (later_poll_until _ d (os_send_ready _)) Hk) as Hk1.
  pose proof (poll_until_no_panic (poll_send_ready (socket c)) d w1) as Hp.
  unfold poll_writable_until in *.
  assert (∀ r w', kept w c w' → r ≠ Ready Panic → opening_settled w r (c, o) w') as Hend by (intros; by apply settled_opening).
  destruct (poll_until _ _ w1) as [[|[[]|e|]] w2]; cbn in Hk1, Hp |- *; awp_steps; try by first [apply Hend|done].
  2:{ split; [|done]. split; [done|]. eapply opening_open_state; [done|]. unfold open_state_ok. cbn. by rewrite Hcl. }
  pose proof (opening_request _ _ _ _ Hk Ho) as Hr. destruct (prepared_open c) as [request|] eqn:Er; [|done]. awp_steps.
  apply awp_call. pose proof (kept_call (try_send (socket c) request) w c w2 (os_send _ _) Hk1) as Hk2.
  destruct (try_send _ _ w2) as [[[]|bytes] w3]; cbn in Hk2 |- *; awp_steps; try by first [apply Hend|done].
  pose proof (datagram_length_no_panic (len request) bytes) as Hl.
  assert (opening (OpenState.set_submitted o) c) as Ho' by by eapply opening_open_state; [|unfold open_state_ok; cbn; rewrite Ed].
  destruct (validate_datagram_length _ _); awp_steps; [|by apply settled_opening|done].
  split; [done|]. split; [done|]. cbn. by rewrite Ed.
Qed.

(** An acceptance the machine prepared, made into the adapter's. *)
Lemma prepare_async_ok h c reply at_ prepared w :
  machine_ok h (machine_of c) →
  acceptance_of h (machine_of c) reply at_ (PreparedOpenAcceptance.next_state prepared)
    (PreparedOpenAcceptance.outcome prepared) →
  os_clock w <= os_clock (prepare_async_open prepared c w).2 ∧ (prepare_async_open prepared c w).1 ≠ Panic.
Proof.
  intros Hm Ha. unfold prepare_async_open, PreparedOpenAcceptance.normal_negotiated.
  destruct (PreparedOpenAcceptance.next_state prepared) as [|s| |]; [done| |done..].
  destruct Ha as (_ & _ & Hhd & _). unfold recv_buffer_size.
  destruct (hd_params _ _ _ Hhd) as [Hacc _]. pose proof (machine_requested h _ Hm) as [Hq _].
  pose proof (acceptable_length _ _ Hq Hacc). pose proof udp_le_usize.
  rewrite echo_packet_len_spec, decide_True by lia. cbn [protocol map_err mbind Result_bind].
  set (size := Z.max (Z.min _ _) _). clearbody size. cbv zeta. set (tc := wrap_u 8 _). clearbody tc.
  pose proof (os_reserve (Z.max 0 (size - async_buffer_len c)) w).
  destruct (try_reserve _ w) as [[] w1]; cbn [negb]; [|done].
  pose proof (proj1 (sound_traffic_class (socket c) (async_remote c) tc) w1) as Hl1.
  pose proof (proj2 (sound_traffic_class (socket c) (async_remote c) tc) w1) as Hp1.
  destruct (apply_traffic_class_to_socket _ _ tc w1) as [[u|e|] w2]; cbn in *; [by split; [lia|]| |done].
  destruct (async_traffic_class c) as [prev|].
  - pose proof (proj1 (sound_traffic_class (socket c) (async_remote c) prev) w2).
    destruct (apply_traffic_class_to_socket _ _ prev w2). cbn in *. by split; [lia|].
  - pose proof (proj1 (sound_clear_dscp (socket c) (async_remote c)) w2).
    destruct (clear_dscp_on_socket _ _ w2). cbn in *. by split; [lia|].
Qed.

Lemma commit_async_ok w c o w1 t reply at_ acceptance prepared (Φ : OpenOutcome → _ → World → Prop) :
  kept w c w1 → opening o c →
  acceptance_of (t + ClientConfig.probe_timeout (SessionMachine.config (machine_of c))) (machine_of c) reply at_
    (PreparedOpenAcceptance.next_state acceptance) (PreparedOpenAcceptance.outcome acceptance) →
  t <= os_clock w1 →
  awp (commit_async_open acceptance prepared) Φ (opening_settled w) (c, o) w1.
Proof.
  intros Hk Ho Ha Ht. unfold commit_async_open. awp_steps.
  set (c0 := match prepared with Some _ => _ | None => _ end).
  assert (machine_of c0 = machine_of c ∧ prepared_probe c0 = prepared_probe c) as [Hm0 Hp0].
  { subst c0. by destruct prepared as [[]|]. }
  assert (prepared_probe c = None) as Hp.
  { destruct (prepared_probe c) as [q|] eqn:Hq; [|done].
    destruct (ao_held _ (kp_ok _ _ _ Hk) q Hq) as (s & Hs & _). destruct (open_not_connected _ _ Hs (og_connected _ _ Ho)). }
  rewrite Hm0, (commit_open_ok acceptance (machine_of c) (og_connected _ _ Ho)). awp_steps. apply awp_call.
  set (m := SessionMachine.set_state _ (machine_of c)).
  assert (machine_by (os_clock w1) m) as Hm.
  { eapply machine_ok_mono; [|eapply machine_set_state; [apply (kp_used _ _ _ Hk)|]].
    2:{ unfold acceptance_of in Ha. destruct (PreparedOpenAcceptance.next_state acceptance); try done.
        destruct Ha as (_ & _ & Hhd & Htr & _). split; [done|]. eexists _, _. exact Htr. }
    cbn. lia. }
  assert (¬ is_connected m) as Hnc.
  { unfold acceptance_of in Ha. subst m. unfold is_connected. cbn. by destruct (PreparedOpenAcceptance.next_state _). }
  match goal with |- awp _ _ _ (?c', _) _ => assert (kept w c' w1) as Hk1 end.
  { split; [apply Hk|exact Hm|]. split; [intros q; cbn; congruence|]. cbn. naive_solver. }
  match goal with |- context [try_enable_tx_timestamping ?sk] =>
    pose proof (kept_call (try_enable_tx_timestamping sk) w _ w1 (later_tx_timestamping sk) Hk1) as Hk2 end.
  destruct (try_enable_tx_timestamping _ w1) as [enabled w2]. cbn in Hk2 |- *. awp_steps.
  split; [by eapply session_kept_same; [..|exact Hk2]|]. split; [apply Ho|done].
Qed.

(** An in-time datagram: ignored, refused with a cleanup to do, or the end. *)
Lemma inspect_datagram_ok w c o w1 d :
  kept w c w1 → opening o c → OpenState.deadline o ≠ None → bytes_ok (packet d) →
  awp (inspect_datagram d) (λ _, still_opening w) (opening_settled w) (c, o) w1.
Proof.
  intros Hk Ho Hd Hb. unfold inspect_datagram. awp_steps.
  assert (still_opening w (c, o) w1) as Hstill by by split.
  unfold inspect_open_datagram, ensure_connected. rewrite (og_connected _ _ Ho). cbn [mbind Result_bind].
  destruct (decode_open_reply (packet d) (key (machine_of c))) as [reply|e|] eqn:Hdec.
  2:{ destruct e; cbn [try_]; awp_steps; first [exact Hstill|by apply settled_opening]. }
  2:{ by apply decode_open_reply_no_panic in Hdec. }
  awp_steps. apply decode_open_reply_ok in Hdec as [Hr _]; [|done].
  pose proof (kp_used _ _ _ Hk) as Hm.
  pose proof (open_acceptance_ok _ _ reply (received_at d) Hm (og_connected _ _ Ho) Hr) as Hacc.
  assert (∀ cl, still_opening w (c, OpenState.set_cleanup cl o) w1) as Hcleanup.
  { intros cl. split; [done|]. eapply opening_open_state; [done|by intros _]. }
  destruct (prepare_open_acceptance _ _ _) as [acceptance|failure|]; awp_steps; [|by apply Hcleanup|done].
  destruct Hacc as [_ Ha]. apply awp_call.
  destruct (prepare_async_ok _ _ _ _ _ w1 Hm Ha) as [Hl Hp].
  pose proof (kept_later _ _ _ _ Hk Hl) as Hk1. change (id c) with c.
  destruct (prepare_async_open acceptance c w1) as [[prepared|[primary machine]|] w2]; cbn in Hl, Hp, Hk1 |- *; awp_steps; [| |done].
  - by eapply commit_async_ok.
  - split; [done|]. eapply opening_open_state; [done|by intros _].
Qed.

Lemma receive_datagram_ok w c o w1 :
  still_opening w (c, o) w1 → OpenState.deadline o ≠ None → OpenState.cleanup o = None →
  awp receive_datagram (λ _, still_opening w) (opening_settled w) (c, o) w1.
Proof.
  intros [Hk Ho] Hd Hcl. cbn in Hk, Ho. unfold receive_datagram. awp_steps.
  destruct (OpenState.deadline o) as [d|] eqn:Ed; [|done]. awp_steps. apply awp_call.
  pose proof (kept_call (poll_readable_until (socket c) d) w c w1 (later_poll_until _ d (os_recv_ready _)) Hk) as Hk1.
  pose proof (poll_until_no_panic (poll_recv_ready (socket c)) d w1) as Hp. unfold poll_readable_until in *.
  assert (∀ r w', kept w c w' → r ≠ Ready Panic → opening_settled w r (c, o) w') as Hend by (intros; by apply settled_opening).
  assert (∀ w', kept w c w' → still_opening w (c, OpenState.finish_attempt o) w') as Hfinish.
  { intros w' Hk'. split; [done|]. eapply opening_open_state; [done|]. unfold open_state_ok. cbn. by rewrite Hcl. }
  destruct (poll_until _ _ w1) as [[|[[]|e|]] w2]; cbn in Hk1, Hp |- *; awp_steps; try (by apply Hend); [|by apply Hfinish].
  apply awp_call. destruct (recv_datagram_ok (socket c) MAX_OPEN_PACKET_SIZE w2) as [Hl Hb].
  pose proof (kept_later _ _ _ _ Hk1 Hl) as Hk2.
  destruct (try_recv_datagram _ _ w2) as [[[]|dg] w3]; cbn in Hl, Hb, Hk2 |- *; awp_steps; try by first [apply Hend|done].
  destruct (_ <? _); awp_steps; [by apply Hfinish|]. apply inspect_datagram_ok; [done..|by rewrite Ed|done].
Qed.

Lemma open_turn_ok w c o w1 :
  still_opening w (c, o) w1 → awp open_turn (λ _, still_opening w) (opening_settled w) (c, o) w1.
Proof.
  intros [Hk Ho]. cbn in Hk, Ho. unfold open_turn. awp_steps.
  destruct (OpenState.cleanup o) as [cl|] eqn:Hcl; cbn [Envelope.is_some].
  { awp_steps. apply open_cleanup_ok; [done..|by rewrite Hcl]. }
  awp_steps. case_bool_decide as Hlen; awp_steps; [by apply settled_opening|].
  apply (awp_mono _ (λ _ s w', still_opening w s w' ∧ OpenState.deadline s.2 ≠ None ∧ OpenState.cleanup s.2 = None)).
  { destruct (OpenState.deadline o) as [d|] eqn:Hd; awp_steps; [by split; [|cbn; rewrite Hd]|].
    destruct (lookup_lt_is_Some_2 (OpenPolicy.timeouts (ClientConfig.open (SessionMachine.config (machine_of c))))
      (OpenState.attempt o) ltac:(lia)) as [timeout ->]. awp_steps.
    rewrite <-Hcl. by apply start_attempt_ok. }
  intros _ [c1 o1] w2 ([Hk1 Ho1] & Hd1 & Hcl1). cbn in *. awp_steps.
  apply (awp_mono _ (λ proceed s w', still_opening w s w' ∧ OpenState.cleanup s.2 = None ∧
       (proceed = true → OpenState.deadline s.2 ≠ None))).
  { destruct (OpenState.request_submitted o1); awp_steps; [by split|]. by apply submit_request_ok. }
  intros proceed [c2 o2] w3 (Hs2 & Hcl2 & Hp2). cbn in *.
  destruct proceed; awp_steps; [|done]. apply receive_datagram_ok; [done|by apply Hp2|done].
Qed.

(** Any client, opening or not: an opened one is refused. *)
Lemma poll_open_kept w o c w1 : kept w c w1 → open_state_ok o →
  opening_settled w (async_poll_open o c w1).1.1.1
    ((async_poll_open o c w1).1.2, (async_poll_open o c w1).1.1.2) (async_poll_open o c w1).2.
Proof.
  intros Hk Ho. assert (awp open_poll (opening_settled w) (opening_settled w) (c, o) w1) as Ha.
  { unfold open_poll. awp_steps. pose proof (ao_request _ (kp_ok _ _ _ Hk)) as Hr.
    destruct (prepared_open c) as [request|].
    - assert (still_opening w (c, o) w1) as Hs by (split; [done|]; split; [by apply Hr|done]). revert Hs.
      generalize (c, o), w1. generalize OPEN_POLL_WORK_BUDGET. intros n.
      induction n as [|n IH]; intros [c' o'] w' Hs; cbn [open_loop]; awp_steps.
      { split; [apply Hs|]. split; [apply Hs|]. split; [done|]. intros _. apply Hs. }
      eapply awp_mono; [by apply open_turn_ok|]. intros [] s w''. apply IH.
    - assert (¬ is_connected (machine_of c)) as Hn by naive_solver.
      unfold prepare_open_request, ensure_connected. unfold is_connected in Hn.
      awp_steps. destruct (SessionMachine.state (machine_of c)); [done|..]; cbn [mbind Result_bind]; by awp_steps. }
  apply awp_run in Ha. unfold async_poll_open. by destruct (run open_poll (c, o) w1) as [[r [c' o']] w2].
Qed.

Lemma cancel_open_kept o c w : os_clock w <= os_clock (async_cancel_open o c w).2.
Proof.
  unfold async_cancel_open. destruct (OpenState.cleanup o) as [cl|]; [|done]. cbn.
  destruct (cleanup_packet_of cl) as [pkt|]; [apply (os_send (socket c) pkt w)|cbn; lia].
Qed.

(** ** Connecting *)
Lemma new_no_panic config remote : new config remote ≠ Panic.
Proof.
  unfold new, validate_config. pose proof (params_from_request_no_panic (ClientConfig.request config)).
  destruct (_ =? 0); [done|]. destruct (_ =? 0); [done|]. by destruct (params_from_request _).
Qed.

(** A client just connected: opening, whatever the time. *)
Record connected (c : Async) : Prop := {
  cn_ok : async_ok c;
  cn_machine : is_connected (machine_of c);
  cn_used : ∀ t, used_by t c;
}.
Lemma new_open_state_ok : open_state_ok OpenState.new.
Proof. by intros []. Qed.

Lemma connect_to_ok config remote w : config_ok config →
  os_clock w <= os_clock (connect_to config remote w).2 ∧
  match (connect_to config remote w).1 with Ok c => connected c | Err _ => True | Panic => False end.
Proof.
  intros Hc. unfold connect_to. pose proof (new_no_panic config remote) as Hp. pose proof (new_ok config remote) as Hn.
  cbv [mbind Io_bind io_lift]. destruct (new config remote) as [m|e|]; [|by split; [apply Z.le_refl|]|done].
  destruct (Hn m 0 Hc eq_refl) as [Hm Hst]. destruct (open_request_ok 0 m Hm Hst) as (request & -> & _).
  pose proof (sound_connect (ClientConfig.socket config) remote (ClientConfig.address_family config)) as [Hl Hnp].
  specialize (Hl w). specialize (Hnp w).
  destruct (connect_tokio_udp_socket _ _ _ w) as [[sock|e|] w1]; [|done..]. cbn. split; [done|].
  split; [by split|done|]. intros t. apply (Hn m _ Hc eq_refl).
Qed.

Definition connecting_ok (future : ConnectState) : Prop :=
  match future with ConnectStart _ config | ConnectResolving _ config _ => config_ok config | ConnectDone => False end.
Definition connect_settled (w : World) (r : Poll (CResult Async) * ConnectState * World) : Prop :=
  os_clock w <= os_clock r.2 ∧
  match r.1.1 with
  | Pending => connecting_ok r.1.2
  | Ready (Ok c) => connected c
  | Ready (Err _) => True
  | Ready Panic => False
  end.

Lemma finish_connect_ok config remote w w1 : config_ok config → remote ≠ Panic → os_clock w <= os_clock w1 →
  connect_settled w (let '(r, w) := finish_connect config remote w1 in (Ready r, ConnectDone, w)).
Proof.
  intros Hc Hr Hl. unfold finish_connect. cbv [mbind Io_bind io_lift].
  destruct remote as [remote|e|]; [|by split|done]. pose proof (connect_to_ok config remote w1 Hc) as [Hl1 Hok].
  destruct (connect_to config remote w1) as [[c|e|] w2]; cbn in *; (split; [cbn; lia|done]).
Qed.

Lemma poll_resolving_ok addr config lookup w : config_ok config → connect_settled w (poll_resolving addr config lookup w).
Proof.
  intros Hc. unfold poll_resolving. pose proof (os_lookup lookup w) as Hl.
  destruct (poll_lookup lookup w) as [[[|answer] lookup'] w1]; cbn in Hl; [done|].
  apply finish_connect_ok; [done| |done]. unfold select_remote. destruct answer; [|done]. by destruct (List.find _ _).
Qed.

Lemma poll_connecting_ok future w : connecting_ok future → connect_settled w (poll_connecting_future future w).
Proof.
  destruct future as [endpoint config|addr config lookup|]; [|apply poll_resolving_ok|done]. intros Hc. cbn.
  assert (∀ e, connect_settled w (Ready (Err e), ConnectDone, w)) as Herr by (split; cbn; [lia|done]).
  destruct (runtime_entered w); [|apply Herr]. cbn [negb].
  pose proof (open_policy_no_panic (ClientConfig.open config)).
  destruct (OpenPolicy.validate _); [|apply Herr|done].
  destruct (parse_socket_addr _) as [remote|]; [|by apply poll_resolving_ok].
  apply finish_connect_ok; [done| |lia]. by destruct (address_family_allowed _ _).
Qed.

(** ** What the managed driver relies on *)
#[export] Instance async_session_laws : AsyncSessionLaws.
Proof.
  refine {|
    clock := os_clock;
    typed_config := config_ok;
    future_ok := connecting_ok : @ConnectFuture _ async_session → Prop;
    opening_ok := (λ o c, async_ok c ∧ opening o c) : @AsyncOpenState _ async_session → @AsyncClient _ async_session → Prop;
    client_ok := async_ok : @AsyncClient _ async_session → Prop;
    fresh := used_by : Z → @AsyncClient _ async_session → Prop;
  |}.
  - exact later_instant.
  - exact os_timer.
  - exact os_handles.
  - by intros config target [].
  - exact used_later.
  - done.
  - intros f w Hf. destruct (poll_connecting_ok f w Hf) as [Hl Hr]. split; [exact Hl|]. cbn.
    destruct (poll_connecting_future f w) as [[[|[c|e|]] f'] w']; [done| |done..].
    destruct Hr as [Hok Hc Hu]. split; [|apply Hu]. split; [done|]. split; [done|apply new_open_state_ok].
  - intros o c [Hok [Hc Ho]] w Hu.
    destruct (poll_open_kept w o c w (session_kept_refl w c Hu Hok) Ho) as ([Hl Hu' Hok'] & Ho' & Hp & Hc').
    cbn in *. destruct (async_poll_open o c w) as [[[[|[outcome|e|]] o'] c'] w']; cbn in *; try done.
    split; [|done]. split; [done|]. by split; [apply Hc'|].
  - intros o c w _. apply cancel_open_kept.
  - intros c Hh w Hu. destruct (poll_recv_kept w c w (session_kept_refl w c Hu Hh)) as [Hr []]. done.
  - intros c Hh w Hu. destruct (poll_close_kept w c w (session_kept_refl w c Hu Hh)) as [Hr []]. done.
  - intros c Hh w Hu. destruct (poll_send_probe_kept w c w (session_kept_refl w c Hu Hh)) as [[] Hb].
    split; [|done]. split; [|done]. intros Hp. cbn in Hp. by rewrite Hp in Hb.
  - intros now limit c Hh Hlimit w Hu.
    destruct (poll_timeouts_kept w c w now limit (session_kept_refl w c Hu Hh) Hlimit) as [Hr [Hl Hu' Hh']].
    cbn. destruct (async_poll_timeouts_bounded_at now limit c w) as [[[batch|e|] c'] w']; done.
  - exact async_discard.
  - done.
Defined.
End invariant.
