(* ===== verification/AsyncProps.v ===== *)
(** * irtt-client: properties of the async adapter

    An async client may be polled in any order, its polls abandoned and its clock
    read by anyone in between. No such run panics, and its invariant is that of the
    session machine; the retry loops of its polls end; and a poll that sends commits
    a probe exactly when it says so. *)

From S2P Require Import Prelude ProtoBase Envelope ParamsCodec Layout OpenCodec EchoCodec ClientBase ClientNegotiation.
From S2P Require Import Probe ClientEvent Timing Machine MachineInv Client ClientTrace ClientProps Schedule ManagedBase ManagedTask ManagedTarget.
From S2P Require Import ManagedPacing ManagedLogic Endpoint Socket AsyncClient AsyncInv.

(** ** Spurious readiness *)

(** [spurious_sends] counts down at every refusal until the socket reports that it
    cannot send; nothing else a send loop calls adds to it. *)
Class SpuriousLaws `{Os} := {
  sp_refused sock data w : (try_send sock data w).1 = inl WouldBlock →
    (spurious_sends sock (try_send sock data w).2 < spurious_sends sock w)%nat;
  sp_ready sock w : (poll_send_ready sock w).1 = Ready None →
    (spurious_sends sock (poll_send_ready sock w).2 <= spurious_sends sock w)%nat;
  sp_reserve sock n w : (spurious_sends sock (try_reserve n w).2 <= spurious_sends sock w)%nat;
  sp_instant sock w : (spurious_sends sock (instant_now w).2 <= spurious_sends sock w)%nat;
  sp_system sock w : (spurious_sends sock (system_now w).2 <= spurious_sends sock w)%nat;
  sp_call sock sock' call w : (spurious_sends sock (socket_call sock' call w).2 <= spurious_sends sock w)%nat;
}.

Ltac awp_next := cbn [fst snd negb ready_or_return] in *; awp_steps.

Section fuel.
Context `{Clocks} `{Target} `{!HmacMd5} `{SpuriousLaws}.

(** A call that adds no spurious readiness of the socket. *)
Definition calmer {A} (sock : Sock) (f : World → A * World) : Prop :=
  ∀ w, (spurious_sends sock (f w).2 <= spurious_sends sock w)%nat.

Lemma calmer_timestamp sock : calmer sock timestamp_now.
Proof.
  intros w. unfold timestamp_now. pose proof (sp_system sock w). destruct (system_now w) as [wall w1].
  pose proof (sp_instant sock w1). destruct (instant_now w1). cbn in *. lia.
Qed.
Lemma calmer_configure sock sock' call error : calmer sock (configure sock' call error).
Proof. intros w. unfold configure. pose proof (sp_call sock sock' call w). by destruct (socket_call _ _ _) as [[] ?]. Qed.
Lemma calmer_restore sock previous c : calmer sock (restore_traffic_class previous c).
Proof. destruct previous; apply calmer_configure. Qed.

(** A turn that asks for another one has used up a refusal. *)
Definition shrinks {R} (c : Async) (w : World) (r : option R) (c' : Async) (w' : World) : Prop :=
  r = None → socket c' = socket c ∧ (spurious_sends (socket c) w' < spurious_sends (socket c) w)%nat.

Lemma awp_any {S R A} (m : Act S R A) (Φ : A → S → World → Prop) Ψ s w :
  (∀ a s w, Φ a s w) → (∀ r s w, Ψ r s w) → awp m Φ Ψ s w.
Proof. intros. unfold awp. destruct (m s w) as [[[r|a] s'] w']; auto. Qed.

Lemma awp_not_committed {A} (r : CResult A) Φ (Ψ : _ → Async → World → Prop) c w :
  (∀ a, Φ a c w) → (∀ r c w, Ψ r c w) → awp (not_committed r) Φ Ψ c w.
Proof. intros. destruct r; awp_next; cbn; auto. Qed.
Lemma awp_try {S X A} (r : CResult A) Φ (Ψ : Poll (CResult X) → S → World → Prop) s w :
  (∀ a, Φ a s w) → (∀ r s w, Ψ r s w) → awp (try_ r) Φ Ψ s w.
Proof. intros. destruct r; awp_next; cbn; auto. Qed.

Lemma send_turn_shrinks c w : awp send_turn (shrinks c w) (λ _ _ _, True) c w.
Proof.
  unfold send_turn. awp_next. apply awp_call.
  pose proof (sp_ready (socket c) w) as H1'. destruct (poll_send_ready (socket c) w) as [[|[source|]] w1]; awp_next; try done.
  specialize (H1' eq_refl). cbn in H1'. destruct (prepared_probe c) as [p|]; awp_next; [|done].
  apply awp_call. pose proof (sp_reserve (socket c) 1 w1). destruct (try_reserve 1 w1) as [room w2]. awp_next.
  apply awp_not_committed; [|done]. intros pf. awp_next. apply awp_call.
  pose proof (calmer_timestamp (socket c) w2). destruct (timestamp_now w2) as [anchor w3]. awp_next.
  apply awp_not_committed; [|done]. intros commit. awp_next. apply awp_call.
  pose proof (sp_instant (socket c) w3). destruct (instant_now w3) as [start w4]. awp_next.
  apply awp_call. pose proof (sp_refused (socket c) (PreparedProbe.bytes_of p) w4) as Hr.
  destruct (try_send (socket c) _ w4) as [[[]|bytes] w5]; awp_next; try done.
  - intros _. split; [done|]. specialize (Hr eq_refl). lia.
  - eapply awp_mono; [by apply (awp_any _ (λ _ _ _, True))|]. intros r c' w' _. awp_next. by intros [=].
Qed.

Lemma close_turn_shrinks c w : awp close_turn (shrinks c w) (λ _ _ _, True) c w.
Proof.
  unfold close_turn. awp_next. apply awp_try; [|done]. intros prepared. awp_next. apply awp_call.
  pose proof (sp_reserve (socket c) 1 w). destruct (try_reserve 1 w) as [[] w1]; awp_next; [|done].
  apply awp_call. pose proof (sp_ready (socket c) w1) as H1'.
  destruct (poll_send_ready (socket c) w1) as [[|[source|]] w2]; awp_next; try done.
  specialize (H1' eq_refl). apply awp_call.
  pose proof (calmer_configure (socket c) (socket c) (traffic_class_call (async_remote c) 0)
    (ClientError.SocketOption "clear DSCP before close" (async_remote c)) w2) as Hc2.
  change (configure (socket c) _ _) with (clear_dscp_on_socket (socket c) (async_remote c)) in Hc2.
  destruct (clear_dscp_on_socket _ _ w2) as [cleared w3]. awp_next.
  apply awp_try; [|done]. intros u. awp_next. apply awp_call.
  pose proof (sp_refused (socket c) (PreparedClose.bytes_of prepared) w3) as Hr.
  destruct (try_send (socket c) _ w3) as [[[]|bytes] w4]; awp_next; try (by apply awp_any).
  - apply awp_call. pose proof (calmer_restore (socket c) (async_traffic_class c) c w4).
    specialize (Hr eq_refl). destruct (restore_traffic_class _ _ w4) as [[] w5]; awp_next; try done.
    intros _. split; [done|]. lia.
  - apply awp_call. awp_next. apply awp_try; [|done]. intros [event m]. awp_next.
    apply awp_try; [|done]. intros v. awp_next. by intros [=].
Qed.

(** What a [loop] of turns comes to, with no bound on their number: the first turn
    that does not ask for another one. *)
Inductive repeats {R} (turn : Act Async R (option R)) : Async → World → R * Async * World → Prop :=
  | repeats_return c w r c' w' : turn c w = (inl r, c', w') → repeats turn c w (r, c', w')
  | repeats_done c w r c' w' : turn c w = (inr (Some r), c', w') → repeats turn c w (r, c', w')
  | repeats_again c w c' w' out : turn c w = (inr None, c', w') → repeats turn c' w' out → repeats turn c w out.

(** A loop whose turns shrink ends, and more fuel than there is to shrink is enough. *)
Lemma loop_ends {R} (turn : Act Async R (option R)) (loop : nat → Act Async R R) n c w :
  (∀ c w, awp turn (shrinks c w) (λ _ _ _, True) c w) →
  (∀ n c w, loop (S n) c w = (r ← turn; match r with Some r => mret r | None => loop n end) c w) →
  (spurious_sends (socket c) w < n)%nat → repeats turn c w (run (loop n) c w).
Proof.
  intros Ht Hl. revert c w. induction n as [|n IH]; intros c w Hn; [lia|]. unfold run.
  rewrite Hl. pose proof (Ht c w) as Hs. unfold awp in Hs. unfold mbind, Act_bind.
  destruct (turn c w) as [[[r|[r|]] c'] w'] eqn:Heq; [by apply repeats_return|by apply repeats_done|].
  destruct (Hs eq_refl) as [Hc Hlt]. eapply repeats_again; [exact Heq|]. apply IH. rewrite Hc. lia.
Qed.

(** The retry loops of [poll_send_probe] and [poll_close] end: a turn repeats only
    after the socket took back a readiness it had reported, so the unbounded [loop]
    comes to a turn that does not repeat, and any fuel beyond the number of spurious
    readinesses, as the polls have, gives exactly the outcome of that turn. *)
Theorem retries_end c w n :
  (spurious_sends (socket c) w < n)%nat →
  repeats send_turn c w (run (send_loop n) c w) ∧ repeats close_turn c w (run (close_loop n) c w).
Proof.
  intros Hn. split; (eapply loop_ends; [|reflexivity|exact Hn]).
  - apply send_turn_shrinks.
  - apply close_turn_shrinks.
Qed.
End fuel.

(** ** Runs *)
Section runs.
Context `{Clocks} `{Target} `{!HmacMd5} `{OsLaws}.

(** A connect future, then the client with the state of its latest opening, which a
    caller may replace by a new one. *)
Inductive Stage : Type :=
  | SConnecting (future : ConnectState)
  | SClient (client : Async) (open : OpenState.t)
  | SFailed (error : ClientError.t).
Inductive AsyncOp : Type :=
  | OpConnect | OpOpen | OpNewOpen | OpCancelOpen | OpSend | OpDiscard | OpRecv | OpTimeouts (now limit : Z) | OpClose.

Definition panicked {E A} (r : Poll (Result E A)) : bool := match r with Ready Panic => true | _ => false end.

(** An operation on the client: the next client and open state, or a panic. *)
Definition client_op (op : AsyncOp) (c : Async) (o : OpenState.t) (w : World) : option (Async * OpenState.t * World) :=
  match op with
  | OpConnect => Some (c, o, w)
  | OpOpen => let '(r, o, c, w) := async_poll_open o c w in if panicked r then None else Some (c, o, w)
  | OpNewOpen => Some (c, OpenState.new, w)
  | OpCancelOpen => let '(_, o, w) := async_cancel_open o c w in Some (c, o, w)
  | OpSend => let '(r, c, w) := async_poll_send_probe c w in if panicked r then None else Some (c, o, w)
  | OpDiscard => Some (set_prepared_probe None c, o, w)
  | OpRecv => let '(r, c, w) := async_poll_recv c w in if panicked r then None else Some (c, o, w)
  | OpTimeouts now limit =>
      let '(r, c, w) := async_poll_timeouts_bounded_at now limit c w in
      match r with Panic => None | _ => Some (c, o, w) end
  | OpClose => let '(r, c, w) := async_poll_close c w in if panicked r then None else Some (c, o, w)
  end.
Definition async_op (op : AsyncOp) (stage : Stage) (w : World) : option (Stage * World) :=
  match stage with
  | SConnecting future =>
      match op with
      | OpConnect =>
          match poll_connecting_future future w with
          | (Pending, future, w) => Some (SConnecting future, w)
          | (Ready (Ok c), _, w) => Some (SClient c OpenState.new, w)
          | (Ready (Err e), _, w) => Some (SFailed e, w)
          | (Ready Panic, _, _) => None
          end
      | _ => Some (stage, w)
      end
  | SClient c o => '(c, o, w) ← client_op op c o w; Some (SClient c o, w)
  | SFailed _ => Some (stage, w)
  end.
(** A caller's limit is a [usize]. *)
Definition op_typed (op : AsyncOp) : Prop := match op with OpTimeouts _ limit => 0 <= limit | _ => True end.

(** Any operations in any order, with time passing in between. *)
Inductive driven (endpoint : bytes) (config : ClientConfig.t) : Stage → World → Prop :=
  | driven_start w : driven endpoint config (SConnecting (ConnectStart endpoint config)) w
  | driven_later stage w w' : driven endpoint config stage w → os_clock w <= os_clock w' → driven endpoint config stage w'
  | driven_op op stage w stage' w' : driven endpoint config stage w → op_typed op →
      async_op op stage w = Some (stage', w') → driven endpoint config stage' w'.

Definition stage_ok (stage : Stage) (w : World) : Prop :=
  match stage with
  | SConnecting future => connecting_ok future
  | SClient c o => used_by (os_clock w) c ∧ async_ok c ∧ open_state_ok o
  | SFailed _ => True
  end.

Lemma panicked_settled {E A} w (r : Poll (Result E A)) c w' : settled w r c w' → panicked r = false ∧ kept w c w'.
Proof. intros [Hr Hk]. split; [|done]. by destruct r as [|[]]. Qed.

Lemma client_op_ok op c o w : op_typed op → stage_ok (SClient c o) w →
  ∃ c' o' w', client_op op c o w = Some (c', o', w') ∧ stage_ok (SClient c' o') w' ∧ os_clock w <= os_clock w'.
Proof.
  intros Hty (Hu & Hok & Ho). pose proof (session_kept_refl w c Hu Hok) as Hk.
  assert (∀ (r : bool) c' w', r = false ∧ kept w c' w' → ∃ c2 o2 w2,
    (if r then None else Some (c', o, w')) = Some (c2, o2, w2) ∧ stage_ok (SClient c2 o2) w2 ∧ os_clock w <= os_clock w2)
    as Hpoll.
  { intros r c' w' [-> [Hl Hu' Hok']]. by exists c', o, w'. }
  assert (∀ c' o', kept w c' w → open_state_ok o' → stage_ok (SClient c' o') w) as Hstay by by intros c' o' [].
  destruct op as [| | | | | | |now limit|]; cbn [client_op].
  - exists c, o, w. split; [done|]. split; [by apply Hstay|lia].
  - destruct (poll_open_kept w o c w Hk Ho) as ([Hl Hu' Hok'] & Ho' & Hp & _).
    destruct (async_poll_open o c w) as [[[r o'] c'] w']. cbn in *. exists c', o', w'.
    split; [|done]. by destruct r as [|[]].
  - exists c, OpenState.new, w. split; [done|]. split; [by apply Hstay; [|apply new_open_state_ok]|lia].
  - pose proof (cancel_open_kept o c w) as Hl. unfold async_cancel_open in *.
    destruct (OpenState.cleanup o) eqn:Hc; cbn in *; (eexists _, _, _; split; [reflexivity|]; split; [|exact Hl]);
      (split; [by eapply used_later|]); (split; [done|]); [by intros []|done].
  - destruct (poll_send_probe_kept w c w Hk) as [Hk' Hb]. destruct (async_poll_send_probe c w) as [[r c'] w'].
    apply Hpoll. split; [|done]. by destruct r as [|[]].
  - exists (set_prepared_probe None c), o, w. split; [done|]. split; [by apply Hstay; [apply kept_discard|]|lia].
  - pose proof (poll_recv_kept w c w Hk) as Hs. destruct (async_poll_recv c w) as [[r c'] w'].
    by apply Hpoll, panicked_settled.
  - destruct (poll_timeouts_kept w c w now limit Hk Hty) as [Hr [Hl Hu' Hok']].
    destruct (async_poll_timeouts_bounded_at now limit c w) as [[r c'] w']. cbn in *.
    exists c', o, w'. by destruct r.
  - pose proof (poll_close_kept w c w Hk) as Hs. destruct (async_poll_close c w) as [[r c'] w'].
    by apply Hpoll, panicked_settled.
Qed.

Lemma async_op_ok op stage w : op_typed op → stage_ok stage w →
  ∃ stage' w', async_op op stage w = Some (stage', w') ∧ stage_ok stage' w' ∧ os_clock w <= os_clock w'.
Proof.
  intros Hty Hs. destruct stage as [future|c o|e]; cbn [async_op].
  - assert (∃ stage' w', Some (SConnecting future, w) = Some (stage', w') ∧ stage_ok stage' w' ∧
      os_clock w <= os_clock w') as Hstay by (eexists _, _; split; [reflexivity|]; split; [done|lia]).
    destruct op; try exact Hstay. destruct (poll_connecting_ok future w Hs) as [Hl Hr].
    destruct (poll_connecting_future future w) as [[[|[c|e|]] future'] w']; [| | |done];
      (eexists _, _; split; [reflexivity|]; split; [|done]); [done| |done].
    destruct Hr as [Hok _ Hu]. split; [apply Hu|]. split; [done|apply new_open_state_ok].
  - destruct (client_op_ok op c o w Hty Hs) as (c' & o' & w' & -> & Hs' & Hl). by eexists _, _.
  - eexists _, _. split; [reflexivity|]. split; [done|lia].
Qed.

Lemma driven_ok endpoint config stage w : config_ok config → driven endpoint config stage w → stage_ok stage w.
Proof.
  intros Hc. induction 1 as [w|stage w w' _ IH Hl|op stage w stage' w' _ IH Hty Hop]; [done| |].
  - destruct stage as [|c o|]; [done| |done]. destruct IH as [Hu Hrest]. split; [by eapply used_later|done].
  - destruct (async_op_ok op stage w Hty IH) as (s2 & w2 & Heq & Hs2 & _). rewrite Hop in Heq. by injection Heq as <- <-.
Qed.

(** C8: No async client panics: whatever the endpoint, the operating system and the
    datagrams it delivers, from the connect future on, any operations in any order
    (polls before the open, after the close, polls abandoned and repeated, openings
    cancelled and begun again) return, and do not move the clock back. *)
Theorem async_client_total endpoint config stage w op :
  config_ok config → driven endpoint config stage w → op_typed op →
  ∃ stage' w', async_op op stage w = Some (stage', w') ∧ driven endpoint config stage' w' ∧ os_clock w <= os_clock w'.
Proof.
  intros Hc Hd Hty. destruct (async_op_ok op stage w Hty (driven_ok _ _ _ _ Hc Hd)) as (stage' & w' & Hop & _ & Hl).
  exists stage', w'. split; [done|]. split; [by eapply driven_op|done].
Qed.

(** C14: The invariant of a driven async client: the open request is at hand exactly
    while the session has not been opened, a probe held back for the socket is the
    open session's next one, an opening that owes a close has a deadline for it, and
    the session machine is well formed: the pending, timed-out and completed
    sequences are disjoint, in deadline order, within the configured bound, and no
    deadline lies further ahead than the probe timeout. *)
Theorem async_client_invariant endpoint config c o w :
  config_ok config → driven endpoint config (SClient c o) w →
  (prepared_open c ≠ None ↔ SessionMachine.state (machine_of c) = Connected) ∧
  (OpenState.cleanup o ≠ None → OpenState.deadline o ≠ None) ∧
  (∀ p, prepared_probe c = Some p → Machine.packets_sent (machine_of c) mod 2 ^ 32 = PreparedProbe.seq p) ∧
  match SessionMachine.state (machine_of c) with
  | Open s =>
      let P := pending_of (machine_of c) in
      let T := retained_of (machine_of c) in
      NoDup (seqs P ++ seqs T ++ completed_of (machine_of c)) ∧
      by_deadline (T ++ P) ∧
      len P <= capacity_of (machine_of c) ∧ len T <= capacity_of (machine_of c) ∧
      Forall (λ q, PendingProbe.timeout_at q
        <= os_clock w + ClientConfig.probe_timeout (SessionMachine.config (machine_of c))) (T ++ P)
  | _ => True
  end.
Proof.
  intros Hc Hd. destruct (driven_ok _ _ _ _ Hc Hd) as (Hu & [Hheld Hreq] & Ho).
  split; [done|]. split; [done|]. split.
  - intros p Hp. destruct (Hheld p Hp) as (s & Hs & ->). destruct (machine_tracks _ _ s Hu Hs) as [[] _].
    unfold Machine.packets_sent. by rewrite Hs.
  - destruct (SessionMachine.state (machine_of c)) as [|s| |] eqn:Hs; [done| |done..].
    destruct (machine_tracks _ _ s Hu Hs) as [_ []]. cbv zeta.
    unfold completed_of. rewrite Hs. split_and!; try done; lia.
Qed.

(** C17: A poll that sends commits a probe exactly when it says so. While it is pending,
    and when it fails before the commit, no probe has been counted or tracked and the
    probe held back, if there was one, is still the one to send; once it reports a
    receipt, even with an error after the commit, exactly one probe has been added,
    of the receipt's sequence, which is the held one's, and none is held any more. *)
Theorem send_poll_boundary endpoint config c o w :
  config_ok config → driven endpoint config (SClient c o) w →
  let '(r, c', _) := async_poll_send_probe c w in
  match r with
  | Pending | Ready (Err (NotCommitted _)) =>
      Machine.packets_sent (machine_of c') = Machine.packets_sent (machine_of c) ∧
      seqs (pending_of (machine_of c')) = seqs (pending_of (machine_of c)) ∧
      ∀ p, prepared_probe c = Some p → prepared_probe c' = Some p
  | Ready (Ok receipt) | Ready (Err (AfterCommit receipt _)) =>
      Machine.packets_sent (machine_of c') = Machine.packets_sent (machine_of c) + 1 ∧
      seqs (pending_of (machine_of c')) = seqs (pending_of (machine_of c)) ++ [receipt_seq receipt] ∧
      prepared_probe c' = None ∧
      ∀ p, prepared_probe c = Some p → receipt_seq receipt = PreparedProbe.seq p
  | Ready Panic => False
  end.
Proof.
  intros Hc Hd. destruct (driven_ok _ _ _ _ Hc Hd) as (Hu & Hok & _).
  destruct (poll_send_probe_kept w c w (session_kept_refl w c Hu Hok)) as [_ Hb].
  destruct (async_poll_send_probe c w) as [[r c'] w']. cbn in Hb. unfold send_boundary, unsent, sent_one in Hb.
  destruct r as [|[receipt|[e|receipt e]|]]; naive_solver.
Qed.
End runs.
