(* ===== verification/Demo.v ===== *)
(** * Concrete runs

    A small operating system whose clock ticks, whose sockets accept every
    datagram and deliver a scripted inbox, and whose handles call what a script
    says; runs of the managed driver with real async clients over it; and the
    witnesses of the driver's and the async client's theorems on those runs. *)

From S2P Require Import Prelude ProtoBase Envelope ParamsCodec ClientBase ClientNegotiation Probe ClientEvent Machine MachineInv.
From S2P Require Import Client ClientProps Timing Schedule ManagedBase ManagedTask ManagedTarget ManagedPacing ManagedUpdate Managed ManagedLogic.
From S2P Require Import ManagedSpecs ManagedPolls ManagedInv ManagedUpdateSpec ManagedRun ManagedProps Endpoint Socket AsyncClient AsyncInv AsyncProps.

(** ** The system *)
Record ToyWorld : Type := mk_toy { tick : Z; script : list (list HandleCall); inbox : list bytes }.

Definition TICK : Z := 1_000_000.
#[local] Instance toy_runtime : Runtime := {|
  World := ToyWorld;
  instant_now w := (tick w, mk_toy (tick w + TICK) (script w) (inbox w));
  timer_ready deadline w := (deadline <=? tick w, w);
  runtime_entered _ := true;
  handle_calls w := (default [] (head (script w)), mk_toy (tick w) (tail (script w)) (inbox w));
|}.
#[local] Instance toy_os : Os := {|
  Sock := unit;
  Lookup := unit;
  system_now w := (1_700_000_000_000_000_000 + tick w, w);
  lookup_host _ := tt;
  poll_lookup _ w := (Ready None, tt, w);
  socket_new _ w := (inr tt, w);
  socket_call _ _ w := (None, w);
  poll_send_ready _ w := (Ready None, w);
  poll_recv_ready _ w := (match inbox w with [] => Pending | _ :: _ => Ready None end, w);
  try_send _ data w := (inr (len data), w);
  recvmsg _ _ w :=
    match inbox w with
    | [] => (inl WouldBlock, w)
    | data :: rest => (inr (mk_Message (wrap_u 8 <$> data) (Some [])), mk_toy (tick w) (script w) rest)
    end;
  recvmsg_errqueue _ w := (inl WouldBlock, w);
  try_reserve _ w := (true, w);
  spurious_sends _ _ := O;
|}.

#[local] Instance toy_os_laws : OsLaws.
Proof.
  refine {| os_clock := (tick : @World toy_runtime → Z) |}; cbn; unfold TICK; try (intros; lia).
  - intros _ _ w. destruct (inbox w); cbn; lia.
  - intros _ _ w msg. destruct (inbox w) as [|data rest]; cbn; intros [= <-]. cbn. unfold bytes_ok.
    apply Forall_fmap, Forall_true. intros b. apply wrap_u_range. lia.
Defined.

#[local] Existing Instances target64 toy_hmac example_clocks.

(** ** A driver *)
Definition toy_target (name : string) : ManagedTargetConfig.t := ManagedTargetConfig.new (str name) (str "127.0.0.1").
Definition toy_config : ManagedClientConfig.t :=
  let d := ManagedClientConfig.default in
  ManagedClientConfig.mk client_config Staggered FinishWhenQuiescent 256 64 256 3
    (ManagedClientConfig.final_drain d) None (ManagedClientConfig.reconnect_initial_delay d)
    (ManagedClientConfig.reconnect_max_delay d).

Definition start (script : list (list HandleCall)) (inbox : list bytes) (targets : list ManagedTargetConfig.t)
    : Result ManagedConfigError Task :=
  build_task 1000 toy_config targets (mk_toy 0 script inbox).

Definition the_task (r : Result ManagedConfigError Task) : Task :=
  match r with Ok s => s | _ => initial_task toy_config [] 1 (mk_toy 0 [] []) end.
(** The task after a poll. *)
Definition polled (s : Task) : Task := match poll s with Some (_, s') => s' | None => s end.
Definition polls (n : nat) (s : Task) : Task := Nat.iter n polled s.

Definition is_built (r : Result ManagedConfigError Task) : bool := match r with Ok _ => true | _ => false end.
Lemma built r : is_built r = true → r = Ok (the_task r).
Proof. by destruct r. Qed.

(** Polls in terms of their results. *)
Definition result_of (s : Task) : TaskPoll := match poll s with Some (r, _) => r | None => TaskPending false None end.
Lemma poll_split s : Envelope.is_some (poll s) = true → poll s = Some (result_of s, polled s).
Proof. unfold result_of, polled. by destruct (poll s) as [[r s']|]. Qed.

(** Two targets, both answered by a server: opened and active after three polls. *)
Definition fresh_task : Task :=
  the_task (start [] [granted_reply; granted_reply] [toy_target "a"; toy_target "b"]).
Definition active_task : Task := polls 3 fresh_task.
(** The same, stopped through a handle. *)
Definition stop_called : Task := set_shared (handle_call (config active_task) CallStop (shared active_task)) active_task.
Definition stopped_task : Task := polled stop_called.

Lemma toy_config_typed : config_typed toy_config.
Proof. split; [done|]. split; [done|]. exact client_config_ok. Qed.

Lemma fresh_reachable : reachable fresh_task.
Proof.
  exists 1000, toy_config, [toy_target "a"; toy_target "b"], (mk_toy 0 [] [granted_reply; granted_reply]), fresh_task.
  split; [exact toy_config_typed|]. split; [apply built; vm_compute; reflexivity|apply rtc_refl].
Qed.
Lemma polled_reachable s : reachable s → reachable (polled s).
Proof.
  intros Hs. unfold polled. destruct (poll s) as [[r s']|] eqn:Hp; [|done]. by eapply reachable_step, step_poll.
Qed.
Lemma active_reachable : reachable active_task.
Proof. do 3 apply polled_reachable. exact fresh_reachable. Qed.
Lemma stop_called_reachable : reachable stop_called.
Proof. eapply reachable_step; [exact active_reachable|apply step_call]. Qed.
Lemma stopped_reachable : reachable stopped_task.
Proof. apply polled_reachable, stop_called_reachable. Qed.

Example active_phases :
  (λ t, (TargetInstance.generation (instance t), lifecycle (phase t), TargetCounters.packets_sent (counters t))) <$>
    targets active_task = [(1, LActive, 1); (2, LActive, 0)].
Proof. vm_compute. reflexivity. Qed.
Example stopped_phases : (λ t, lifecycle (phase t)) <$> targets stopped_task = [LDraining; LDraining].
Proof. vm_compute. reflexivity. Qed.

(** Much later: nothing more is waited for. *)
Definition late_task : Task := set_world (mk_toy 10_000_000_000 [] []) stopped_task.
Lemma late_reachable : reachable late_task.
Proof.
  eapply reachable_step; [exact stopped_reachable|]. apply step_world. apply Z.leb_le. vm_compute. reflexivity.
Qed.
Definition closing_task : Task := polled late_task.
Lemma closing_reachable : reachable closing_task.
Proof. apply polled_reachable, late_reachable. Qed.
Example closing_phases :
  ((λ t, lifecycle (phase t)) <$> targets closing_task, (λ t, lifecycle (phase t)) <$> targets (polled closing_task))
  = ([LClosing; LClosing], [LTerminal; LTerminal]).
Proof. vm_compute. reflexivity. Qed.

(** ** The driver's theorems on these runs *)
Ltac computed := vm_compute; reflexivity.

Lemma driver_total_witness : ∃ r s', poll closing_task = Some (r, s') ∧ reachable s' ∧
  match r with
  | TaskPending _ _ => task_is_terminal (task_phase s') = false
  | TaskReady outcome =>
      (task_phase s' = Completed outcome ∧ last (Published.events (published s')) = Some (EvCompleted outcome)) ∨
      (task_phase s' = TaskFailed outcome ∧ last (Published.events (published s')) = Some (EvFailed outcome))
  end.
Proof. apply driver_total; [exact closing_reachable|computed]. Defined.

Lemma driver_invariant_witness : applied_sequences (shared active_task) = seqZ 1 0 ∧ NoDup (desired_ids (targets active_task)).
Proof.
  destruct (driver_invariant active_task active_reachable) as (_ & Hnd & _ & _ & Hseq & _). split; [|exact Hnd].
  exact Hseq.
Defined.

Lemma generation_accounting_witness :
  (outcome_generation <$> all_finished (polled closing_task)) ++ live_generations (polled closing_task) ≡ₚ [1; 2].
Proof.
  exact (proj1 (generation_accounting (polled closing_task) (polled_reachable _ closing_reachable))).
Defined.

(** Target "b" stays, "c" is new, "a" goes. *)
Definition requested_targets : list ManagedTargetConfig.t := [toy_target "b"; toy_target "c"].

Definition is_applied (r : option (Result ManagedCommandApplyError ManagedCommandAcknowledgement.t * Task)) : bool :=
  match r with Some (Ok _, _) => true | _ => false end.
Lemma update_accepted_iff_witness : acceptable requested_targets active_task.
Proof.
  apply update_accepted_iff; [exact active_reachable|computed|].
  assert (is_applied (apply_targets requested_targets active_task) = true) as Ha by computed.
  destruct (apply_targets requested_targets active_task) as [[[ack|e|] s']|]; [by exists ack, s'|done..].
Defined.

Lemma stopping_driver_winds_down_witness :
  is_stopping (task_phase closing_task) || task_is_terminal (task_phase closing_task) = true ∧
  Control.next_generation (control closing_task) = 3.
Proof.
  destruct (stopping_driver_winds_down late_task (result_of late_task) closing_task late_reachable)
    as (Hs & Hn & _); [apply poll_split; computed|computed|]. split; [exact Hs|exact Hn].
Defined.

Lemma stop_observed_by_poll_witness :
  Control.stop_observed (control stopped_task) = true ∧
  match result_of stop_called with
  | TaskPending _ _ => task_phase stopped_task = Stopping
  | TaskReady outcome => ManagedOutcome.end_reason outcome ≠ TargetsComplete
  end.
Proof.
  apply (stop_observed_by_poll stop_called); [exact stop_called_reachable|apply poll_split; computed|computed].
Defined.

(** An update is queued through a handle and answered by the next poll. *)
Definition update_called : Task :=
  set_shared (handle_call (config active_task) (CallUpdate AdmitOpen requested_targets) (shared active_task)) active_task.
Lemma commands_answered_witness :
  ∃ acks commands, Shared.acknowledged (shared (polled update_called)) = Shared.acknowledged (shared update_called) ++ acks ∧
    submitted (polled update_called) = [requested_targets] ++ commands.
Proof.
  destruct (commands_answered update_called (result_of update_called) (polled update_called))
    as ((acks & Hacks) & (commands & Hc) & _).
  - eapply reachable_step; [exact active_reachable|apply step_call].
  - apply poll_split. computed.
  - exists acks, commands. split; [exact Hacks|exact Hc].
Defined.
Example update_applied :
  (Control.applied_command_sequence (control (polled update_called)),
   (λ t, (ManagedTargetConfig.id (target_config t), is_desired (membership t))) <$> targets (polled update_called))
  = (1, [(str "a", false); (str "b", true); (str "c", true)]).
Proof. vm_compute. reflexivity. Qed.

(** The second target drains, with nothing outstanding. *)
Definition drained (i : nat) (now : Z) (s : Task) : bool :=
  match targets s !! i with
  | Some t =>
      target_stopping s t && negb (is_terminal (phase t)) &&
      match phase t with
      | PhDraining client _ deadline _ _ _ => (deadline <=? now) && negb (due (next_probe_timeout_deadline client) now)
      | _ => false
      end
  | None => false
  end.
Lemma drained_poll i now s :
  drained i now s = true → Envelope.is_some (poll_target i now s) = true →
  ∃ t s', targets s !! i = Some t ∧ target_stopping s t = true ∧ expired_polls i 1 s s'.
Proof.
  unfold drained. intros Hd Hp. destruct (targets s !! i) as [t|] eqn:Ht; [|done].
  apply andb_true_iff in Hd as [[Hs Hn]%andb_true_iff Hph].
  destruct (poll_target i now s) as [[b s']|] eqn:Hpoll; [|done]. exists t, s'. split; [done|]. split; [done|].
  eapply one_poll; [exact Ht|by apply negb_true_iff| |exact Hpoll|apply no_poll].
  unfold expired. destruct (phase t); try done.
  apply andb_true_iff in Hph as [Hl Hdue]. split; [by apply Z.leb_le|by apply negb_true_iff].
Qed.

Lemma stopping_target_ends_witness : ∃ t t' s', targets late_task !! 1%nat = Some t ∧
  expired_polls 1 1 late_task s' ∧ targets s' !! 1%nat = Some t' ∧ 1 + rank (phase t') <= rank (phase t).
Proof.
  destruct (drained_poll 1 10_000_000_000 late_task) as (t & s' & Ht & Hs & He); [computed..|].
  assert (task_is_terminal (task_phase late_task) = false) as Hterm by computed.
  destruct (stopping_target_ends late_task 1 t 1 s' late_reachable Hterm Ht Hs He) as (t' & Ht' & Hr & _).
  exists t, t', s'. split; [exact Ht|]. split; [exact He|]. split; [exact Ht'|exact Hr].
Defined.

Lemma backoff_capped_witness : backoff toy_config 3 = 2_000_000_000 ∧ backoff toy_config 200 = 10_000_000_000.
Proof.
  assert (0 <= ManagedClientConfig.reconnect_initial_delay toy_config) as H0 by (apply Z.leb_le; computed).
  assert (ManagedClientConfig.reconnect_initial_delay toy_config <= ManagedClientConfig.reconnect_max_delay toy_config
    <= DURATION_MAX) as H1 by (split; apply Z.leb_le; computed).
  split; rewrite (backoff_capped toy_config _ H0 H1); computed.
Defined.

(** ** The async client's theorems *)
#[local] Instance toy_spurious : SpuriousLaws.
Proof. split; cbn; try (intros; lia). done. Defined.

Definition toy_endpoint : bytes := str "127.0.0.1".
Definition performed (op : AsyncOp) (sw : Stage * ToyWorld) : Stage * ToyWorld := default sw (async_op op sw.1 sw.2).
Definition async_run (ops : list AsyncOp) (inbox : list bytes) : Stage * ToyWorld :=
  fold_left (λ sw op, performed op sw) ops (SConnecting (ConnectStart toy_endpoint client_config), mk_toy 0 [] inbox).
Definition async_driven (sw : Stage * ToyWorld) : Prop := driven toy_endpoint client_config sw.1 sw.2.

Lemma performed_driven op sw : op_typed op → async_driven sw → async_driven (performed op sw).
Proof.
  intros Hty Hd. unfold performed. destruct (async_op op sw.1 sw.2) as [[stage w]|] eqn:Hop; [|exact Hd].
  eapply driven_op; [exact Hd|exact Hty|exact Hop].
Qed.
Lemma async_run_driven ops inbox : Forall op_typed ops → async_driven (async_run ops inbox).
Proof.
  unfold async_run. assert (async_driven (SConnecting (ConnectStart toy_endpoint client_config), mk_toy 0 [] inbox)) as Hd
    by apply driven_start.
  revert Hd. generalize (SConnecting (ConnectStart toy_endpoint client_config), mk_toy 0 [] inbox).
  intros sw Hd Hops. revert sw Hd. induction Hops as [|op ops Hop Hops IH]; intros sw Hd; [exact Hd|].
  cbn [fold_left]. by apply IH, performed_driven.
Qed.

(** Connected, opened by the server's reply, one probe sent. *)
Definition sent_run : Stage * ToyWorld := async_run [OpConnect; OpOpen; OpSend] [granted_reply].
Definition client_of (sw : Stage * ToyWorld) : Async :=
  match sw.1 with
  | SClient c _ => c
  | _ => mk_Async tt (Client.runtime example_connected) example_remote 0 None None None false
  end.
Definition open_of (sw : Stage * ToyWorld) : OpenState.t :=
  match sw.1 with SClient _ o => o | _ => OpenState.new end.
Definition has_client (sw : Stage * ToyWorld) : bool := match sw.1 with SClient _ _ => true | _ => false end.
Lemma client_split sw : has_client sw = true → sw.1 = SClient (client_of sw) (open_of sw).
Proof. unfold has_client, client_of, open_of. by destruct sw.1. Qed.
Lemma sent_driven : driven toy_endpoint client_config (SClient (client_of sent_run) (open_of sent_run)) sent_run.2.
Proof.
  rewrite <-client_split by computed. apply async_run_driven. repeat constructor.
Qed.
Example sent_run_state :
  (Machine.packets_sent (machine_of (client_of sent_run)), seqs (pending_of (machine_of (client_of sent_run)))) = (1, [0]).
Proof. vm_compute. reflexivity. Qed.

Lemma retries_end_witness :
  repeats send_turn (client_of sent_run) sent_run.2 (run (send_loop 5) (client_of sent_run) sent_run.2).
Proof. apply (retries_end (client_of sent_run) sent_run.2 5). cbn. lia. Defined.

Lemma async_client_total_witness : ∃ stage' w',
  async_op OpClose (SClient (client_of sent_run) (open_of sent_run)) sent_run.2 = Some (stage', w') ∧
  driven toy_endpoint client_config stage' w'.
Proof.
  destruct (async_client_total toy_endpoint client_config _ _ OpClose client_config_ok sent_driven I)
    as (stage' & w' & Hop & Hd & _).
  exists stage', w'. split; [exact Hop|exact Hd].
Defined.

Lemma async_client_invariant_witness : prepared_open (client_of sent_run) = None.
Proof.
  destruct (async_client_invariant _ _ _ _ _ client_config_ok sent_driven) as ([Hr _] & _).
  destruct (prepared_open (client_of sent_run)) as [request|] eqn:Hp; [|reflexivity].
  assert (match SessionMachine.state (machine_of (client_of sent_run)) with Connected => false | _ => true end = true)
    as Hopen by computed.
  rewrite Hr in Hopen by congruence. discriminate Hopen.
Defined.

Definition boundary_holds (r : Poll (Result SendProbeError SendReceipt)) (c c' : Async) : Prop :=
  match r with
  | Ready (Ok receipt) => Machine.packets_sent (machine_of c') = Machine.packets_sent (machine_of c) + 1 ∧
      seqs (pending_of (machine_of c')) = seqs (pending_of (machine_of c)) ++ [receipt_seq receipt]
  | _ => True
  end.
Lemma send_poll_boundary_witness :
  let '(r, c', _) := async_poll_send_probe (client_of sent_run) sent_run.2 in boundary_holds r (client_of sent_run) c'.
Proof.
  pose proof (send_poll_boundary _ _ _ _ _ client_config_ok sent_driven) as Hb.
  destruct (async_poll_send_probe (client_of sent_run) sent_run.2) as [[[|[receipt|e|]] c'] w']; try exact I.
  split; apply Hb.
Defined.

(** ** Endpoints *)
Definition normalized (text : string) : bytes := normalize_server_addr (str text).
Example endpoints_normalized :
  (normalized "example.com", normalized "example.com:9999", normalized "192.0.2.1", normalized "192.0.2.1:7")
  = (str "example.com:2112", str "example.com:9999", str "192.0.2.1:2112", str "192.0.2.1:7") ∧
  (normalized "::1", normalized "[::1]", normalized "[::1]:7", normalized "[::1")
  = (str "[::1]:2112", str "[::1]:2112", str "[::1]:7", str "[::1").
Proof. vm_compute. done. Qed.
Example endpoints_parsed :
  (parse_socket_addr (normalized "::1"), parse_socket_addr (normalized "127.0.0.1"), parse_socket_addr (normalized "host"))
  = (Some (V6 1 2112 0 0), Some (V4 2130706433 2112), None).
Proof. vm_compute. reflexivity. Qed.
