(* ===== verification/StatsEvents.v ===== *)
(** * irtt-stats: normalized events

    Models [crates/irtt-stats/src/normalization.rs] and the configuration of
    [lib.rs]: what the statistics keep of a client event. *)

From S2P Require Import Prelude ProtoBase ParamsCodec ClientBase ClientNegotiation ClientEvent Timing.

(** ** Configuration (lib.rs) *)
Inductive LateReplyMode : Type := Measure | CountOnly.
Inductive SampleMode : Type := RunningOnly | Exact.

Module StatsConfig.
Record t : Type := mk {
  samples : SampleMode;
  rolling_count : option Z;
  rolling_time : option Z;
  late_replies : LateReplyMode;
}.
Definition finite : t := mk Exact None None Measure.
Definition continuous : t := mk RunningOnly None None Measure.
Definition default : t := finite.
End StatsConfig.

(** ** Samples *)

Module IpdvSample.
Record t : Type := mk {
  seq : Z;
  rtt_primary_ns : Z;
  client_send_mono : Z;
  client_receive_mono : Z;
  client_send_wall_ns : option Z;
  client_receive_wall_ns : option Z;
  server_receive_mono_ns : option Z;
  server_send_mono_ns : option Z;
  server_receive_wall_ns : option Z;
  server_send_wall_ns : option Z;
}.
End IpdvSample.

Module ReplySample.
Record t : Type := mk {
  bytes_of : Z;
  rtt_raw_ns : Z;
  rtt_adjusted_ns : option Z;
  send_delay_ns : option Z;
  receive_delay_ns : option Z;
  server_processing_ns : option Z;
  received_count : option Z;
  received_window : option Z;
  ipdv : IpdvSample.t;
}.
End ReplySample.

Module StatsEvent.
Inductive t : Type :=
  | Sent (at_ bytes send_call_ns : Z) (timer_error_ns : option Z)
  | UniqueReply (at_ : Z) (is_late : bool) (sample : ReplySample.t)
  | DuplicateReply (at_ bytes : Z)
  | Loss (at_ : Z)
  | Warning (at_ : Z)
  | UntrackedLate (at_ bytes : Z).

(** [StatsEvent::at]. *)
Definition at_ (self : t) : Z :=
  match self with
  | Sent at_ _ _ _ | UniqueReply at_ _ _ | DuplicateReply at_ _
  | Loss at_ | Warning at_ | UntrackedLate at_ _ => at_
  end.
End StatsEvent.

(** A time before the epoch is a negative count. *)
Definition system_time_ns (time : Z) : option Z :=
  match duration_since time 0 with
  | Some duration => Some (duration_ns_i128 duration)
  | None => (λ duration, - duration_ns_i128 duration) <$> duration_since 0 time
  end.

Definition signed_duration_ns (duration : SignedDuration.t) : Z := SignedDuration.as_nanos duration.

Definition from_reply_parts (seq : Z) (sent_at received_at : ClientTimestamp.t) (rtt : RttSample.t)
    (server_timing : option ServerTiming.t) (one_way : option OneWayDelaySample.t)
    (received_stats : option ReceivedStatsSample.t) (bytes : Z) : ReplySample.t :=
  let timing (preferred midpoint : ServerTiming.t → option Z) :=
    timing ← server_timing; or_else (preferred timing) (midpoint timing) in
  ReplySample.mk bytes (duration_ns_i128 (RttSample.raw rtt))
    (signed_duration_ns <$> RttSample.adjusted rtt)
    (signed_duration_ns <$> (one_way ≫= OneWayDelaySample.client_to_server))
    (signed_duration_ns <$> (one_way ≫= OneWayDelaySample.server_to_client))
    (duration_ns_i128 <$> (server_timing ≫= ServerTiming.processing))
    (received_stats ≫= ReceivedStatsSample.count) (received_stats ≫= ReceivedStatsSample.window)
    (IpdvSample.mk seq (signed_duration_ns (RttSample.effective rtt)) (ClientTimestamp.mono sent_at)
       (ClientTimestamp.mono received_at) (system_time_ns (ClientTimestamp.wall sent_at))
       (system_time_ns (ClientTimestamp.wall received_at))
       (timing ServerTiming.receive_mono_ns ServerTiming.midpoint_mono_ns)
       (timing ServerTiming.send_mono_ns ServerTiming.midpoint_mono_ns)
       (timing ServerTiming.receive_wall_ns ServerTiming.midpoint_wall_ns)
       (timing ServerTiming.send_wall_ns ServerTiming.midpoint_wall_ns)).

Definition normalize_event (event : ClientEvent.t) : option StatsEvent.t :=
  match event with
  | ClientEvent.EchoSent _ _ _ sent_at bytes send_call timer_error =>
      Some (StatsEvent.Sent (ClientTimestamp.mono sent_at) bytes (duration_ns_i128 send_call)
              (duration_ns_i128 <$> timer_error))
  | ClientEvent.EchoReply seq _ sent_at received_at rtt server_timing one_way received_stats bytes _ =>
      Some (StatsEvent.UniqueReply (ClientTimestamp.mono received_at) false
              (from_reply_parts seq sent_at received_at rtt server_timing one_way received_stats bytes))
  | ClientEvent.LateReply seq _ _ (Some sent_at) received_at (Some rtt) server_timing one_way
      received_stats bytes _ =>
      Some (StatsEvent.UniqueReply (ClientTimestamp.mono received_at) true
              (from_reply_parts seq sent_at received_at rtt server_timing one_way received_stats bytes))
  | ClientEvent.LateReply _ _ _ _ received_at _ _ _ _ bytes _ =>
      Some (StatsEvent.UntrackedLate (ClientTimestamp.mono received_at) bytes)
  | ClientEvent.DuplicateReply _ _ received_at bytes =>
      Some (StatsEvent.DuplicateReply (ClientTimestamp.mono received_at) bytes)
  | ClientEvent.EchoLoss _ sent_at timeout_at =>
      Some (StatsEvent.Loss (Z.max timeout_at (ClientTimestamp.mono sent_at)))
  | ClientEvent.Warning _ _ at_ => Some (StatsEvent.Warning (ClientTimestamp.mono at_))
  | ClientEvent.SessionStarted _ | ClientEvent.NoTestCompleted _ | ClientEvent.SessionClosed _ _ _ => None
  end.
