(* ===== verification/Ipdv.v ===== *)
(** * irtt-stats: inter-packet delay variation

    Models [crates/irtt-stats/src/ipdv.rs]: the tracker that pairs replies with
    adjacent sequences, and the delay changes of a pair. Subtraction on [i128]
    wraps as in a release build; [pair_exact] shows it never does on the samples
    a client produces. *)

From S2P Require Import Prelude ProtoBase ClientBase Timing StatsEvents.
Import IpdvSample.

Module IpdvTracker.
Record t : Type := mk {
  samples : gmap Z IpdvSample.t;
  sample_order : list Z;
  completed_pairs : gset Z;
  sequence_limit : option Z;
}.
Definition new (sequence_limit : option Z) : t := mk ∅ [] ∅ sequence_limit.
End IpdvTracker.
Import IpdvTracker.

Module CompletedIpdvPair.
Record t : Type := mk {
  previous_seq : Z;
  current_seq : Z;
  rtt_ipdv_ns : Z;
  send_ipdv_ns : option Z;
  receive_ipdv_ns : option Z;
}.
End CompletedIpdvPair.

(** ** Delay changes *)

Definition sub_i128 (a b : Z) : Z := wrap_i 128 (a - b).

Definition instant_diff_ns (current previous : Z) : Z :=
  match duration_since current previous with
  | Some diff => duration_ns_i128 diff
  | None => - duration_ns_i128 (previous - current)
  end.

Definition send_ipdv_ns (previous current : IpdvSample.t) : option Z :=
  match server_receive_mono_ns previous, server_receive_mono_ns current with
  | Some prev_server, Some cur_server =>
      Some (sub_i128 (sub_i128 cur_server prev_server)
              (instant_diff_ns (client_send_mono current) (client_send_mono previous)))
  | _, _ =>
      match server_receive_wall_ns previous, server_receive_wall_ns current,
            client_send_wall_ns previous, client_send_wall_ns current with
      | Some prev_server, Some cur_server, Some prev_client, Some cur_client =>
          Some (sub_i128 (sub_i128 cur_server prev_server) (sub_i128 cur_client prev_client))
      | _, _, _, _ => None
      end
  end.

Definition receive_ipdv_ns (previous current : IpdvSample.t) : option Z :=
  match server_send_mono_ns previous, server_send_mono_ns current with
  | Some prev_server, Some cur_server =>
      Some (sub_i128 (instant_diff_ns (client_receive_mono current) (client_receive_mono previous))
              (sub_i128 cur_server prev_server))
  | _, _ =>
      match server_send_wall_ns previous, server_send_wall_ns current,
            client_receive_wall_ns previous, client_receive_wall_ns current with
      | Some prev_server, Some cur_server, Some prev_client, Some cur_client =>
          Some (sub_i128 (sub_i128 cur_client prev_client) (sub_i128 cur_server prev_server))
      | _, _, _, _ => None
      end
  end.

(** ** The tracker *)

Definition pred_seq (k : Z) : Z := wrap_u 32 (k - 1).
Definition succ_seq (k : Z) : Z := wrap_u 32 (k + 1).

Definition completed_pair (previous_seq current_seq : Z) (previous current : IpdvSample.t)
    : CompletedIpdvPair.t :=
  CompletedIpdvPair.mk previous_seq current_seq
    (sub_i128 (rtt_primary_ns current) (rtt_primary_ns previous))
    (send_ipdv_ns previous current) (receive_ipdv_ns previous current).

(** The loop of [enforce_sequence_limit]: it ends with the queue. *)
Fixpoint enforce_loop (limit : Z) (order : list Z) (samples : gmap Z IpdvSample.t)
    (completed : gset Z) : list Z * gmap Z IpdvSample.t * gset Z :=
  if limit <? Z.of_nat (size samples) then
    match order with
    | [] => (order, samples, completed)
    | seq :: order =>
        match samples !! seq with
        | Some _ => enforce_loop limit order (delete seq samples)
                      (completed ∖ {[seq]} ∖ {[succ_seq seq]})
        | None => enforce_loop limit order samples completed
        end
    end
  else (order, samples, completed).

Definition enforce_sequence_limit (self : t) : t :=
  match sequence_limit self with
  | None => self
  | Some limit =>
      let '(order, samples, completed) :=
        enforce_loop limit (sample_order self) (samples self) (completed_pairs self) in
      mk samples order completed (sequence_limit self)
  end.

Definition set_completed (v : gset Z) (self : t) : t :=
  mk (samples self) (sample_order self) v (sequence_limit self).

Definition try_pair (current_seq : Z) (self : t) : option CompletedIpdvPair.t * t :=
  let previous_seq := pred_seq current_seq in
  if bool_decide (current_seq ∈ completed_pairs self) then (None, self)
  else
    match samples self !! previous_seq with
    | None => (None, set_completed (({[current_seq]} ∪ completed_pairs self) ∖ {[current_seq]}) self)
    | Some previous =>
        match samples self !! current_seq with
        | None => (None, set_completed (({[current_seq]} ∪ completed_pairs self) ∖ {[current_seq]}) self)
        | Some current =>
            (Some (completed_pair previous_seq current_seq previous current),
             set_completed ({[current_seq]} ∪ completed_pairs self) self)
        end
    end.

Definition insert (sample : IpdvSample.t) (self : t) : list CompletedIpdvPair.t * t :=
  let seq := seq sample in
  let known := samples self !! seq in
  let self := mk (<[seq := sample]> (samples self)) (sample_order self) (completed_pairs self)
                (sequence_limit self) in
  match known with
  | Some _ => ([], self)
  | None =>
      let self := mk (samples self) (sample_order self ++ [seq]) (completed_pairs self)
                    (sequence_limit self) in
      let self := enforce_sequence_limit self in
      let '(first, self) := try_pair seq self in
      let '(second, self) := try_pair (succ_seq seq) self in
      (option_list first ++ option_list second, self)
  end.

(** ** Reference: the samples retained, oldest first *)

Definition seqs (l : list IpdvSample.t) : list Z := IpdvSample.seq <$> l.
Definition find_sample (k : Z) (l : list IpdvSample.t) : option IpdvSample.t :=
  head (filter (λ s, IpdvSample.seq s = k) l).

Definition adjacent (l : list IpdvSample.t) (k : Z) : Prop := k ∈ seqs l ∧ pred_seq k ∈ seqs l.

(** Replaces the sample with the same sequence. *)
Definition replace_sample (x : IpdvSample.t) (l : list IpdvSample.t) : list IpdvSample.t :=
  (λ s, if decide (IpdvSample.seq s = IpdvSample.seq x) then x else s) <$> l.

Definition newest (limit : option Z) (l : list IpdvSample.t) : list IpdvSample.t :=
  match limit with Some n => drop (length l - Z.to_nat n) l | None => l end.

Definition pair_at (l : list IpdvSample.t) (k : Z) : list CompletedIpdvPair.t :=
  match find_sample (pred_seq k) l, find_sample k l with
  | Some previous, Some current => [completed_pair (pred_seq k) k previous current]
  | _, _ => []
  end.

Definition ref_insert (limit : option Z) (x : IpdvSample.t) (l : list IpdvSample.t)
    : list CompletedIpdvPair.t * list IpdvSample.t :=
  if decide (IpdvSample.seq x ∈ seqs l) then ([], replace_sample x l)
  else
    let l := newest limit (l ++ [x]) in
    (pair_at l (IpdvSample.seq x) ++ pair_at l (succ_seq (IpdvSample.seq x)), l).

Fixpoint insert_all (xs : list IpdvSample.t) (self : t) : list (list CompletedIpdvPair.t) * t :=
  match xs with
  | [] => ([], self)
  | x :: xs =>
      let '(out, self) := insert x self in
      let '(outs, self) := insert_all xs self in (out :: outs, self)
  end.

Fixpoint ref_insert_all (limit : option Z) (xs l : list IpdvSample.t)
    : list (list CompletedIpdvPair.t) * list IpdvSample.t :=
  match xs with
  | [] => ([], l)
  | x :: xs =>
      let '(out, l) := ref_insert limit x l in
      let '(outs, l) := ref_insert_all limit xs l in (out :: outs, l)
  end.

Definition holds (l : list IpdvSample.t) (self : t) : Prop :=
  NoDup (seqs l) ∧ sample_order self = seqs l ∧
  (∀ k, samples self !! k = find_sample k l) ∧
  (∀ k, k ∈ completed_pairs self ↔ adjacent l k) ∧
  Forall (in_u 32) (seqs l).

(** ** Sequence arithmetic *)
Lemma succ_pred k : in_u 32 k → succ_seq (pred_seq k) = k.
Proof.
  unfold succ_seq, pred_seq, wrap_u, in_u. rewrite Zplus_mod_idemp_l. intros Hk.
  replace (k - 1 + 1) with k by lia. apply Z.mod_small. lia.
Qed.
Lemma pred_succ k : in_u 32 k → pred_seq (succ_seq k) = k.
Proof.
  unfold succ_seq, pred_seq, wrap_u, in_u. rewrite Zminus_mod_idemp_l. intros Hk.
  replace (k + 1 - 1) with k by lia. apply Z.mod_small. lia.
Qed.
Lemma pred_ne k : in_u 32 k → pred_seq k ≠ k.
Proof.
  unfold pred_seq, wrap_u, in_u. intros Hk Heq. change (2 ^ 32) with 4294967296 in *.
  Z.div_mod_to_equations. lia.
Qed.
Lemma succ_ne k : in_u 32 k → succ_seq k ≠ k.
Proof. intros Hk Heq. apply (pred_ne k Hk). rewrite <- Heq at 1. by apply pred_succ. Qed.

(** ** Lists of samples *)
Lemma sample_seqs_app l1 l2 : seqs (l1 ++ l2) = seqs l1 ++ seqs l2.
Proof. apply fmap_app. Qed.

Lemma seqs_cons x l : seqs (x :: l) = IpdvSample.seq x :: seqs l.
Proof. done. Qed.

Lemma find_sample_cons k x l :
  find_sample k (x :: l) = if decide (IpdvSample.seq x = k) then Some x else find_sample k l.
Proof. unfold find_sample. rewrite filter_cons. by case_decide. Qed.

Lemma find_sample_None k l : find_sample k l = None ↔ k ∉ seqs l.
Proof.
  induction l as [|x l IH]; [split; [intros _; apply not_elem_of_nil|done]|].
  rewrite find_sample_cons. cbn. rewrite not_elem_of_cons. case_decide; naive_solver.
Qed.

Lemma find_sample_elem k l s :
  NoDup (seqs l) → find_sample k l = Some s ↔ s ∈ l ∧ IpdvSample.seq s = k.
Proof.
  induction l as [|x l IH]; cbn.
  - intros _. split; [done|]. by intros [?%not_elem_of_nil _].
  - intros [Hx Hn]%NoDup_cons. rewrite find_sample_cons, elem_of_cons. case_decide as Hk.
    + split; [intros [= <-]; auto|]. intros [[->|Hs] Hsk]; [done|]. exfalso. apply Hx.
      rewrite Hk, <- Hsk. by apply list_elem_of_fmap_2.
    + rewrite IH by done. naive_solver.
Qed.

Lemma samples_size l (m : gmap Z IpdvSample.t) :
  NoDup (seqs l) → (∀ k, m !! k = find_sample k l) → size m = length l.
Proof.
  intros Hn Hm. rewrite <- size_dom.
  assert (dom m = list_to_set (seqs l)) as ->.
  { apply set_eq. intros k. rewrite elem_of_dom, elem_of_list_to_set, Hm.
    pose proof (find_sample_None k l). destruct (find_sample k l); [|naive_solver].
    split; [|by eauto]. intros _. destruct (decide (k ∈ seqs l)); naive_solver. }
  rewrite size_list_to_set by done. apply length_fmap.
Qed.

Lemma find_sample_app k l1 l2 :
  find_sample k (l1 ++ l2)
  = match find_sample k l1 with Some s => Some s | None => find_sample k l2 end.
Proof.
  induction l1 as [|x l1 IH]; [done|]. cbn [app]. rewrite !find_sample_cons, IH. by case_decide.
Qed.

Lemma snoc_wf x l :
  NoDup (seqs l) → Forall (in_u 32) (seqs l) → in_u 32 (IpdvSample.seq x) →
  (IpdvSample.seq x ∉ seqs l) →
  NoDup (seqs (l ++ [x])) ∧ Forall (in_u 32) (seqs (l ++ [x])).
Proof.
  intros Hn Hu Hx Hfresh. rewrite sample_seqs_app. split; [|apply Forall_app; split; [done|by constructor]].
  apply NoDup_app. split; [done|]. split; [|apply NoDup_singleton].
  intros j Hj Hjx. apply list_elem_of_singleton in Hjx as ->. done.
Qed.

(** ** Eviction *)
Lemma adjacent_tail x l k :
  NoDup (seqs (x :: l)) → Forall (in_u 32) (seqs (x :: l)) →
  adjacent l k ↔ adjacent (x :: l) k ∧ k ≠ IpdvSample.seq x ∧ k ≠ succ_seq (IpdvSample.seq x).
Proof.
  cbn. intros [Hx Hn]%NoDup_cons [Hux Hu]%Forall_cons. unfold adjacent. cbn.
  rewrite !elem_of_cons. split.
  - intros [Hk Hp]. split; [auto|]. split; [by intros ->|]. intros ->.
    rewrite pred_succ in Hp by done. done.
  - intros ([[?|Hk] Hp] & Hne & Hns); [done|]. split; [done|]. destruct Hp as [Hp|]; [|done].
    exfalso. apply Hns. rewrite <- Hp, succ_pred; [done|].
    rewrite Forall_forall in Hu. by apply Hu.
Qed.

Lemma enforce_loop_ok n l samples completed (Q : Z → Prop) :
  0 ≤ n → NoDup (seqs l) → Forall (in_u 32) (seqs l) → (∀ k, samples !! k = find_sample k l) →
  (∀ k, k ∈ completed ↔ adjacent l k ∧ Q k) →
  let l' := newest (Some n) l in
  ∃ samples' completed', enforce_loop n (seqs l) samples completed = (seqs l', samples', completed') ∧
    (∀ k, samples' !! k = find_sample k l') ∧ (∀ k, k ∈ completed' ↔ adjacent l' k ∧ Q k).
Proof.
  intros Hlim. revert samples completed. induction l as [|x l IH]; intros samples completed Hn Hu Hs Hc.
  - exists samples, completed. cbn. by destruct (n <? _).
  - pose proof (samples_size _ _ Hn Hs) as Hsz. cbn [seqs fmap list_fmap enforce_loop newest].
    rewrite Hsz. destruct (Z.ltb_spec n (Z.of_nat (length (x :: l)))) as [Hlt|Hge].
    2:{ exists samples, completed. replace (length (x :: l) - Z.to_nat n)%nat with 0%nat by lia. done. }
    replace (length (x :: l) - Z.to_nat n)%nat with (S (length l - Z.to_nat n))
      by (cbn [length] in *; lia).
    rewrite Hs, find_sample_cons, decide_True by done. cbn [drop].
    pose proof Hn as [Hx Hn']%NoDup_cons. pose proof Hu as [Hux Hu']%Forall_cons.
    apply IH; [done|done| |].
    + intros k. destruct (decide (IpdvSample.seq x = k)) as [<-|Hne].
      * rewrite lookup_delete_eq. symmetry. by apply find_sample_None.
      * rewrite lookup_delete_ne, Hs, find_sample_cons by done. by rewrite decide_False.
    + intros k. rewrite !elem_of_difference, !elem_of_singleton, Hc, (adjacent_tail x l k) by done.
      tauto.
Qed.

(** ** One insertion *)
Lemma pair_at_adjacent l k : (pair_at l k ≠ [] ↔ adjacent l k) ∧ option_list (head (pair_at l k)) = pair_at l k.
Proof.
  unfold pair_at, adjacent. pose proof (find_sample_None k l) as Hk.
  pose proof (find_sample_None (pred_seq k) l) as Hp.
  assert (∀ j, j ∈ seqs l ↔ find_sample j l ≠ None) as He.
  { intros j. pose proof (find_sample_None j l). destruct (decide (j ∈ seqs l)); tauto. }
  rewrite !He. destruct (find_sample (pred_seq k) l), (find_sample k l); cbn; split; done || tauto.
Qed.

Lemma try_pair_ok l k self :
  (∀ j, samples self !! j = find_sample j l) → (k ∉ completed_pairs self) →
  ∃ completed, try_pair k self = (head (pair_at l k), set_completed completed self) ∧
    ∀ j, j ∈ completed ↔ j ∈ completed_pairs self ∨ (j = k ∧ adjacent l k).
Proof.
  intros Hs Hk. unfold try_pair. rewrite bool_decide_false by done. rewrite !Hs.
  pose proof (proj1 (pair_at_adjacent l k)) as Hadj. unfold pair_at in *.
  destruct (find_sample (pred_seq k) l) as [previous|]; [destruct (find_sample k l) as [current|]|];
    (eexists; split; [reflexivity|]; intros j; set_solver).
Qed.

Lemma adjacent_closed l k :
  Forall (in_u 32) (seqs l) → in_u 32 k →
  ∀ j, adjacent l j ↔ (adjacent l j ∧ j ≠ k ∧ j ≠ succ_seq k) ∨ (j = k ∧ adjacent l k) ∨
    (j = succ_seq k ∧ adjacent l (succ_seq k)).
Proof.
  intros Hu Hk j. pose proof (succ_ne k Hk). destruct (decide (j = k)) as [->|]; [naive_solver|].
  destruct (decide (j = succ_seq k)) as [->|]; naive_solver.
Qed.

Lemma newest_wf limit l :
  NoDup (seqs l) → Forall (in_u 32) (seqs l) →
  NoDup (seqs (newest limit l)) ∧ Forall (in_u 32) (seqs (newest limit l)).
Proof.
  intros Hn Hu. unfold newest, seqs in *. destruct limit as [n|]; [|done]. rewrite fmap_drop.
  split; [eapply sublist_NoDup; [done|apply sublist_drop]|by apply Forall_drop].
Qed.

Lemma replace_seqs x l : seqs (replace_sample x l) = seqs l.
Proof.
  unfold seqs, replace_sample. rewrite <- list_fmap_compose. apply list_fmap_ext.
  intros i s _. cbn. by case_decide.
Qed.

Lemma find_replace x l k :
  find_sample k (replace_sample x l)
  = if decide (IpdvSample.seq x = k)
    then (if decide (k ∈ seqs l) then Some x else None) else find_sample k l.
Proof.
  induction l as [|s l IH]; [by case_decide|].
  cbn [replace_sample fmap list_fmap]. rewrite !find_sample_cons, seqs_cons. fold (replace_sample x l). rewrite IH. clear IH.
  destruct (decide (IpdvSample.seq s = IpdvSample.seq x)) as [Hs|Hs].
  - destruct (decide (IpdvSample.seq x = k)) as [Hk|Hk]; [|by rewrite decide_False by congruence].
    rewrite (decide_True (P := k ∈ _)); [done|]. rewrite elem_of_cons. left. congruence.
  - destruct (decide (IpdvSample.seq x = k)) as [<-|Hk]; [|done]. rewrite decide_False by done.
    destruct (decide (IpdvSample.seq x ∈ seqs l)).
    + rewrite decide_True; [done|]. by rewrite elem_of_cons; right.
    + rewrite decide_False; [done|]. rewrite elem_of_cons. naive_solver.
Qed.

Lemma insert_known x l self :
  holds l self → IpdvSample.seq x ∈ seqs l →
  ∃ self', insert x self = ([], self') ∧ sequence_limit self' = sequence_limit self ∧
    holds (replace_sample x l) self'.
Proof.
  intros (Hn & Ho & Hs & Hc & Hu) Hk. unfold insert. rewrite Hs.
  pose proof (proj1 (find_sample_None (IpdvSample.seq x) l)) as Hnone.
  destruct (find_sample (IpdvSample.seq x) l); [|by destruct Hnone].
  eexists. split; [reflexivity|]. split; [done|].
  unfold holds, adjacent. rewrite replace_seqs. do 2 (split; [done|]). split; [|done].
  intros j. cbn [samples]. rewrite find_replace. case_decide as Hj.
  - subst j. by rewrite lookup_insert_eq, decide_True.
  - by rewrite lookup_insert_ne.
Qed.

(** The new sample at the end, the oldest ones evicted, nothing paired yet. *)
Lemma enforce_ok limit x l self :
  sequence_limit self = limit → (∀ n, limit = Some n → 0 ≤ n) → holds l self →
  in_u 32 (IpdvSample.seq x) → (IpdvSample.seq x ∉ seqs l) →
  let k := IpdvSample.seq x in
  let l' := newest limit (l ++ [x]) in
  ∃ self', enforce_sequence_limit (mk (<[k := x]> (samples self)) (sample_order self ++ [k])
      (completed_pairs self) (sequence_limit self)) = self' ∧
    sequence_limit self' = limit ∧ sample_order self' = seqs l' ∧
    (∀ j, samples self' !! j = find_sample j l') ∧
    (∀ j, j ∈ completed_pairs self' ↔ adjacent l' j ∧ j ≠ k ∧ j ≠ succ_seq k).
Proof.
  intros Hlim Hpos (Hn & Ho & Hs & Hc & Hu) Hx Hfresh k l'.
  destruct (snoc_wf x l Hn Hu Hx Hfresh) as [Hn' Hu'].
  assert (∀ j, <[k := x]> (samples self) !! j = find_sample j (l ++ [x])) as Hs'.
  { intros j. rewrite find_sample_app, <- Hs, find_sample_cons. cbn.
    destruct (decide (k = j)) as [<-|Hne].
    - rewrite lookup_insert_eq, Hs, (proj2 (find_sample_None k l) Hfresh).
      by rewrite decide_True.
    - rewrite lookup_insert_ne, decide_False by done. by destruct (samples self !! j). }
  assert (∀ j, j ∈ completed_pairs self ↔ adjacent (l ++ [x]) j ∧ j ≠ k ∧ j ≠ succ_seq k) as Hc'.
  { intros j. rewrite Hc. unfold adjacent. rewrite sample_seqs_app. cbn [seqs fmap list_fmap].
    rewrite !elem_of_app, !list_elem_of_singleton. fold k. split.
    - intros [Hj Hp]. split; [auto|]. split; [by intros ->|]. intros ->.
      rewrite pred_succ in Hp by done. done.
    - intros ([[Hj|?] Hp] & Hne & Hns); [|done]. split; [done|]. destruct Hp as [?|Hp]; [done|].
      exfalso. apply Hns. rewrite <- Hp, succ_pred; [done|].
      rewrite Forall_forall in Hu. by apply Hu. }
  rewrite Ho. change [k] with (seqs [x]). rewrite <- sample_seqs_app. unfold enforce_sequence_limit.
  cbn [sequence_limit samples sample_order completed_pairs]. rewrite Hlim. unfold l'.
  destruct limit as [n|]; [|eexists; split; [reflexivity|done]].
  destruct (enforce_loop_ok n (l ++ [x]) _ _ _ (Hpos n eq_refl) Hn' Hu' Hs' Hc')
    as (m & c & -> & Hm & Hcm).
  eexists. split; [reflexivity|]. done.
Qed.

Lemma insert_fresh limit x l self :
  sequence_limit self = limit → (∀ n, limit = Some n → 0 ≤ n) → holds l self →
  in_u 32 (IpdvSample.seq x) → (IpdvSample.seq x ∉ seqs l) →
  let k := IpdvSample.seq x in
  let l' := newest limit (l ++ [x]) in
  ∃ self', insert x self = (pair_at l' k ++ pair_at l' (succ_seq k), self') ∧
    sequence_limit self' = limit ∧ holds l' self'.
Proof.
  intros Hlim Hpos Hl Hx Hfresh k l'.
  destruct (enforce_ok limit x l self Hlim Hpos Hl Hx Hfresh) as (s1 & He & Hlim1 & Ho & Hs & Hc).
  cbv zeta in *. fold k l' in He, Ho, Hs, Hc. destruct Hl as (Hn & _ & Hsl & _ & Hu).
  unfold insert. fold k. rewrite Hsl, (proj2 (find_sample_None k l) Hfresh).
  cbn [samples sample_order completed_pairs sequence_limit]. rewrite He.
  destruct (try_pair_ok l' k s1 Hs) as (c1 & -> & Hc1); [by rewrite Hc; naive_solver|].
  destruct (try_pair_ok l' (succ_seq k) (set_completed c1 s1)) as (c2 & -> & Hc2); [done| |].
  { cbn. rewrite Hc1, Hc. pose proof (succ_ne k Hx). naive_solver. }
  rewrite !(proj2 (pair_at_adjacent _ _)). eexists. split; [reflexivity|]. split; [done|].
  destruct (snoc_wf x l Hn Hu Hx Hfresh) as [Hn' Hu'].
  destruct (newest_wf limit _ Hn' Hu') as [Hnl' Hul']. fold l' in Hnl', Hul'.
  split; [done|]. split; [done|]. split; [done|]. split; [|done].
  intros j. cbn [completed_pairs set_completed]. rewrite Hc2. cbn. rewrite Hc1, Hc.
  rewrite (adjacent_closed l' k Hul' Hx j). tauto.
Qed.

Lemma insert_ok limit x l self :
  sequence_limit self = limit → (∀ n, limit = Some n → 0 ≤ n) → holds l self →
  in_u 32 (IpdvSample.seq x) →
  ∃ self', insert x self = ((ref_insert limit x l).1, self') ∧ sequence_limit self' = limit ∧
    holds (ref_insert limit x l).2 self'.
Proof.
  intros Hlim Hpos Hl Hx. unfold ref_insert. case_decide as Hk.
  - destruct (insert_known x l self Hl Hk) as (self' & Hi & Hlim' & Hl'). exists self'.
    by rewrite Hi, Hlim', Hlim.
  - by apply insert_fresh.
Qed.

Lemma tracker_holds_new limit : holds [] (new limit).
Proof.
  split; [constructor|]. split; [done|]. split; [done|]. split; [|constructor].
  intros k. unfold adjacent. cbn. set_solver.
Qed.

Lemma insert_all_ok limit xs l self :
  sequence_limit self = limit → (∀ n, limit = Some n → 0 ≤ n) → holds l self →
  Forall (λ x, in_u 32 (IpdvSample.seq x)) xs →
  (insert_all xs self).1 = (ref_insert_all limit xs l).1 ∧
  holds (ref_insert_all limit xs l).2 (insert_all xs self).2.
Proof.
  intros Hlim Hpos Hl Hxs. revert l self Hlim Hl.
  induction Hxs as [|x xs Hx _ IH]; intros l self Hlim Hl; [done|].
  destruct (insert_ok limit x l self Hlim Hpos Hl Hx) as (self' & Hi & Hlim' & Hl').
  cbn [insert_all ref_insert_all]. rewrite Hi.
  destruct (ref_insert limit x l) as [out l']. cbn [fst snd] in *.
  specialize (IH l' self' Hlim' Hl').
  destruct (insert_all xs self') as [outs self'']. destruct (ref_insert_all limit xs l') as [outs' l''].
  cbn in *. destruct IH as [-> ?]. done.
Qed.

(** ** Unbounded trackers *)
Lemma pair_at_app l xs k p : NoDup (seqs (l ++ xs)) → p ∈ pair_at l k → p ∈ pair_at (l ++ xs) k.
Proof.
  intros Hn. unfold pair_at. rewrite !find_sample_app.
  destruct (find_sample (pred_seq k) l); [|by intros ?%not_elem_of_nil].
  by destruct (find_sample k l); [|intros ?%not_elem_of_nil].
Qed.

Lemma pair_at_inv l k p : p ∈ pair_at l k → CompletedIpdvPair.current_seq p = k ∧ adjacent l k.
Proof.
  intros Hp. split; [|apply pair_at_adjacent; intros Heq; rewrite Heq in Hp; by apply not_elem_of_nil in Hp].
  unfold pair_at in Hp.
  destruct (find_sample (pred_seq k) l); [|by apply not_elem_of_nil in Hp].
  destruct (find_sample k l); [|by apply not_elem_of_nil in Hp].
  by apply list_elem_of_singleton in Hp as ->.
Qed.

Lemma pair_at_unique l k p q : p ∈ pair_at l k → q ∈ pair_at l k → p = q.
Proof.
  unfold pair_at.
  destruct (find_sample (pred_seq k) l); [|by intros ?%not_elem_of_nil].
  destruct (find_sample k l); [|by intros ?%not_elem_of_nil].
  by intros ->%list_elem_of_singleton ->%list_elem_of_singleton.
Qed.

#[export] Instance adjacent_dec l k : Decision (adjacent l k).
Proof. unfold adjacent. apply _. Defined.

Lemma currents_pair_at l k :
  CompletedIpdvPair.current_seq <$> pair_at l k = if decide (adjacent l k) then [k] else [].
Proof.
  pose proof (proj1 (pair_at_adjacent l k)) as Ha. unfold pair_at in *.
  destruct (find_sample (pred_seq k) l), (find_sample k l); case_decide; naive_solver.
Qed.

Lemma currents_elem l j k :
  k ∈ CompletedIpdvPair.current_seq <$> pair_at l j ↔ k = j ∧ adjacent l j.
Proof.
  rewrite currents_pair_at. case_decide; rewrite ?list_elem_of_singleton, ?elem_of_nil; naive_solver.
Qed.

(** The current sequences of one insertion. *)
Definition currents (out : list CompletedIpdvPair.t) : list Z :=
  CompletedIpdvPair.current_seq <$> out.

Lemma ref_insert_currents x l :
  NoDup (seqs l) → Forall (in_u 32) (seqs l) → in_u 32 (IpdvSample.seq x) →
  (IpdvSample.seq x ∉ seqs l) →
  let '(out, l') := ref_insert None x l in
  l' = l ++ [x] ∧ NoDup (currents out) ∧
  (∀ k, k ∈ currents out ↔ adjacent l' k ∧ ¬ adjacent l k) ∧
  (∀ p, p ∈ out → p ∈ pair_at l' (CompletedIpdvPair.current_seq p)).
Proof.
  intros Hn Hu Hx Hfresh. unfold ref_insert. rewrite decide_False by done. cbn [newest].
  destruct (snoc_wf x l Hn Hu Hx Hfresh) as [Hn' Hu']. unfold currents. rewrite fmap_app.
  split; [done|]. split; [|split].
  - rewrite !currents_pair_at. pose proof (succ_ne _ Hx).
    repeat case_decide; cbn; rewrite ?NoDup_cons, ?elem_of_cons, ?elem_of_nil;
      repeat split; try constructor; naive_solver.
  - intros k. rewrite elem_of_app, !currents_elem. split.
    + intros [[-> Ha]|[-> Ha]]; (split; [done|]); intros [Hk Hp]; [done|].
      by rewrite pred_succ in Hp.
    + intros [Ha Hna].
      destruct (decide (k = IpdvSample.seq x)) as [->|Hk]; [by left|right].
      enough (k = succ_seq (IpdvSample.seq x)) as -> by done.
      destruct Ha as [Hk' Hp]. rewrite Forall_forall in Hu'. pose proof (Hu' k Hk') as Huk.
      unfold adjacent in Hna. rewrite sample_seqs_app, elem_of_app in Hk', Hp.
      assert (k ∈ seqs l) as Hkl by (destruct Hk' as [|?%list_elem_of_singleton]; done).
      destruct Hp as [Hp|Hp]; [tauto|]. apply list_elem_of_singleton in Hp.
      by rewrite <- Hp, succ_pred.
  - intros p. rewrite elem_of_app. by intros [Hp|Hp]; destruct (pair_at_inv _ _ _ Hp) as [-> _].
Qed.

Lemma adjacent_app l xs k : adjacent l k → adjacent (l ++ xs) k.
Proof. unfold adjacent. rewrite sample_seqs_app, !elem_of_app. tauto. Qed.

Lemma ref_insert_all_currents xs l :
  NoDup (seqs (l ++ xs)) → Forall (in_u 32) (seqs (l ++ xs)) →
  let '(outs, l') := ref_insert_all None xs l in
  l' = l ++ xs ∧ NoDup (currents (concat outs)) ∧
  (∀ k, k ∈ currents (concat outs) ↔ adjacent l' k ∧ ¬ adjacent l k) ∧
  (∀ p, p ∈ concat outs → p ∈ pair_at l' (CompletedIpdvPair.current_seq p)).
Proof.
  revert l. induction xs as [|x xs IH]; intros l Hn Hu.
  - cbn. rewrite app_nil_r. split; [done|]. split; [constructor|].
    split; [intros k; rewrite elem_of_nil; tauto|]. by intros p ?%not_elem_of_nil.
  - rewrite (assoc_L (++) l [x] xs : l ++ x :: xs = _) in Hn, Hu.
    pose proof (IH _ Hn Hu) as IH'. rewrite sample_seqs_app in Hn, Hu.
    pose proof Hn as (Hnl & _ & _)%NoDup_app. pose proof Hu as [Hul _]%Forall_app.
    rewrite sample_seqs_app in Hnl, Hul. apply NoDup_app in Hnl as (Hnl & Hx & _).
    apply Forall_app in Hul as [Hul [Hux _]%Forall_cons].
    assert (IpdvSample.seq x ∉ seqs l) as Hfresh by (intros ?%Hx; cbn in *; set_solver).
    pose proof (ref_insert_currents x l Hnl Hul Hux Hfresh) as H1. cbn [ref_insert_all].
    destruct (ref_insert None x l) as [out l1]. destruct H1 as (-> & H1n & H1k & H1p).
    destruct (ref_insert_all None xs (l ++ [x])) as [outs l2]. destruct IH' as (-> & H2n & H2k & H2p).
    unfold currents in *. cbn [concat]. rewrite fmap_app, <- assoc_L by apply _. cbn [app].
    split; [done|]. split; [apply NoDup_app; split; [done|]; split; [|done]|split].
    + intros k ?%H1k ?%H2k. tauto.
    + intros k. rewrite elem_of_app, H1k, H2k, <- assoc_L by apply _. cbn [app].
      split; [|destruct (decide (adjacent (l ++ [x]) k)); tauto].
      intros [[Ha ?]|[? Hna]]; (split; [|done || (intros ?; apply Hna; by apply adjacent_app)]); [|done].
      rewrite (assoc_L (++) l [x] xs : l ++ x :: xs = _). by apply adjacent_app.
    + intros p [Hp|Hp]%elem_of_app; [|by rewrite (assoc_L (++) l [x] xs : l ++ x :: xs = _); apply H2p].
      rewrite (assoc_L (++) l [x] xs : l ++ x :: xs = _). apply pair_at_app; [by rewrite sample_seqs_app|].
      by apply H1p.
Qed.

(** ** Exact differences *)

(** What a client's sample holds: durations and instants of [u64] seconds, and
    server timestamps of [i64]. *)
Definition client_range (v : Z) : Prop := - 2 ^ 95 <= v <= 2 ^ 95.
Definition option_in (P : Z → Prop) (o : option Z) : Prop := ∀ v, o = Some v → P v.
Record sample_ok (s : IpdvSample.t) : Prop := {
  ok_rtt : client_range (rtt_primary_ns s);
  ok_send_mono : 0 <= client_send_mono s <= 2 ^ 95;
  ok_receive_mono : 0 <= client_receive_mono s <= 2 ^ 95;
  ok_send_wall : option_in client_range (client_send_wall_ns s);
  ok_receive_wall : option_in client_range (client_receive_wall_ns s);
  ok_server_receive_mono : option_in (in_i 64) (server_receive_mono_ns s);
  ok_server_send_mono : option_in (in_i 64) (server_send_mono_ns s);
  ok_server_receive_wall : option_in (in_i 64) (server_receive_wall_ns s);
  ok_server_send_wall : option_in (in_i 64) (server_send_wall_ns s);
}.

(** The change of a delay between two replies, on integers: the monotonic
    clocks of both ends when the server gave them, the wall clocks otherwise. *)
Definition change (from to : option Z) : option Z :=
  match from, to with Some a, Some b => Some (b - a) | _, _ => None end.
Definition exact_send (previous current : IpdvSample.t) : option Z :=
  let far mono wall (near_mono : Z) near_wall :=
    match mono with
    | Some d => Some (d - near_mono)
    | None => match wall, near_wall with Some d, Some n => Some (d - n) | _, _ => None end
    end in
  far (change (server_receive_mono_ns previous) (server_receive_mono_ns current))
      (change (server_receive_wall_ns previous) (server_receive_wall_ns current))
      (client_send_mono current - client_send_mono previous)
      (change (client_send_wall_ns previous) (client_send_wall_ns current)).
Definition exact_receive (previous current : IpdvSample.t) : option Z :=
  match change (server_send_mono_ns previous) (server_send_mono_ns current) with
  | Some d => Some (client_receive_mono current - client_receive_mono previous - d)
  | None =>
      match change (server_send_wall_ns previous) (server_send_wall_ns current),
            change (client_receive_wall_ns previous) (client_receive_wall_ns current) with
      | Some d, Some n => Some (n - d)
      | _, _ => None
      end
  end.

Lemma sub_i128_exact a b : - 2 ^ 125 <= a <= 2 ^ 125 → - 2 ^ 125 <= b <= 2 ^ 125 → sub_i128 a b = a - b.
Proof. intros Ha Hb. unfold sub_i128, wrap_i. change (128 - 1) with 127. rewrite Z.mod_small; lia. Qed.

Lemma duration_ns_exact d : 0 <= d <= 2 ^ 126 → duration_ns_i128 d = d.
Proof.
  intros Hd. unfold duration_ns_i128, try_i128. rewrite decide_True; [done|].
  unfold in_i. change (128 - 1) with 127. lia.
Qed.

Lemma instant_diff_exact a b :
  0 <= a <= 2 ^ 95 → 0 <= b <= 2 ^ 95 → instant_diff_ns a b = a - b.
Proof.
  intros Ha Hb. unfold instant_diff_ns, duration_since.
  destruct (Z.leb_spec b a); rewrite duration_ns_exact; lia.
Qed.

(** Bounds of a present option. *)
Local Ltac option_bounds :=
  repeat match goal with
  | H : option_in _ _ |- _ => first [specialize (H _ eq_refl)|clear H]
  end.

Local Ltac exact_differences :=
  option_bounds; unfold client_range, in_i in *; change (64 - 1) with 63 in *;
  rewrite ?instant_diff_exact by done;
  repeat match goal with |- context [sub_i128 ?a ?b] => rewrite (sub_i128_exact a b) by lia end;
  first [done|f_equal; try done; lia].

Lemma exact_send_ok previous current :
  sample_ok previous → sample_ok current → send_ipdv_ns previous current = exact_send previous current.
Proof.
  intros [_ Hp1 _ Hp2 _ Hp3 _ Hp4 _] [_ Hc1 _ Hc2 _ Hc3 _ Hc4 _]. unfold send_ipdv_ns, exact_send, change.
  destruct (server_receive_mono_ns previous), (server_receive_mono_ns current),
    (server_receive_wall_ns previous), (server_receive_wall_ns current),
    (client_send_wall_ns previous), (client_send_wall_ns current); exact_differences.
Qed.

Lemma exact_receive_ok previous current :
  sample_ok previous → sample_ok current →
  receive_ipdv_ns previous current = exact_receive previous current.
Proof.
  intros [_ _ Hp1 _ Hp2 _ Hp3 _ Hp4] [_ _ Hc1 _ Hc2 _ Hc3 _ Hc4].
  unfold receive_ipdv_ns, exact_receive, change.
  destruct (server_send_mono_ns previous), (server_send_mono_ns current),
    (server_send_wall_ns previous), (server_send_wall_ns current),
    (client_receive_wall_ns previous), (client_receive_wall_ns current); exact_differences.
Qed.

Lemma find_sample_is_Some k l : is_Some (find_sample k l) ↔ k ∈ seqs l.
Proof.
  pose proof (find_sample_None k l). destruct (find_sample k l), (decide (k ∈ seqs l)); naive_solver.
Qed.

Lemma pair_at_elem l p :
  NoDup (seqs l) →
  p ∈ pair_at l (CompletedIpdvPair.current_seq p) ↔ ∃ previous current, previous ∈ l ∧ current ∈ l ∧
    IpdvSample.seq previous = pred_seq (IpdvSample.seq current) ∧
    p = completed_pair (IpdvSample.seq previous) (IpdvSample.seq current) previous current.
Proof.
  intros Hn. unfold pair_at. split.
  - destruct (find_sample (pred_seq _) l) as [a|] eqn:Ha; [|by intros ?%not_elem_of_nil].
    destruct (find_sample (CompletedIpdvPair.current_seq p) l) as [b|] eqn:Hb; [|by intros ?%not_elem_of_nil].
    apply find_sample_elem in Ha as [Ha Has], Hb as [Hb Hbs]; [|done|done].
    intros Hp%list_elem_of_singleton. exists a, b. rewrite Has, Hbs. done.
  - intros (a & b & Ha & Hb & Hab & ->). cbn.
    rewrite (proj2 (find_sample_elem _ l a Hn)) by done.
    rewrite (proj2 (find_sample_elem _ l b Hn)) by done. apply list_elem_of_singleton. by rewrite Hab.
Qed.

Lemma ref_insert_all_bound limit xs l n :
  limit = Some n → 0 <= n → Z.of_nat (length l) <= n →
  Z.of_nat (length (ref_insert_all limit xs l).2) <= n.
Proof.
  intros -> Hn. revert l. induction xs as [|x xs IH]; intros l Hl; [done|].
  cbn [ref_insert_all]. destruct (ref_insert (Some n) x l) as [out l'] eqn:He.
  assert (Z.of_nat (length l') <= n) as Hl'.
  { revert He. unfold ref_insert. case_decide; intros [= _ <-].
    - unfold replace_sample. by rewrite length_fmap.
    - cbn [newest]. rewrite length_drop. lia. }
  specialize (IH l' Hl'). by destruct (ref_insert_all (Some n) xs l').
Qed.

(** ** Properties *)

(** C24: the tracker (hash map, arrival queue and set of completed pairs) behaves
    as a plain list of the retained samples, oldest first: the pairs it returns
    for any sequence of replies are those of the list, the queue is the list's
    sequences, no more samples are held than the limit, and a pair is marked
    completed exactly while both its samples are held. *)
Theorem ipdv_refines limit xs :
  (∀ n, limit = Some n → 0 <= n) → Forall (λ x, in_u 32 (IpdvSample.seq x)) xs →
  let '(outs, self) := insert_all xs (new limit) in
  let '(ref_outs, l) := ref_insert_all limit xs [] in
  outs = ref_outs ∧ sample_order self = seqs l ∧ (∀ k, samples self !! k = find_sample k l) ∧
  (∀ n, limit = Some n → Z.of_nat (size (samples self)) <= n) ∧
  (∀ k, k ∈ completed_pairs self ↔ is_Some (samples self !! k) ∧ is_Some (samples self !! pred_seq k)).
Proof.
  intros Hpos Hxs.
  destruct (insert_all_ok limit xs [] (new limit) eq_refl Hpos (tracker_holds_new limit) Hxs) as [H1 H2].
  pose proof (ref_insert_all_bound limit xs []) as Hb.
  destruct (insert_all xs (new limit)) as [outs self].
  destruct (ref_insert_all limit xs []) as [ref_outs l]. cbn [fst snd] in *.
  destruct H2 as (Hn & Ho & Hs & Hc & _). do 3 (split; [done|]). split.
  - intros n Hlim. rewrite (samples_size l _ Hn Hs). apply Hb; [done| |]; cbn; by apply Hpos.
  - intros k. rewrite Hc, !Hs. unfold adjacent. by rewrite !find_sample_is_Some.
Qed.

(** With unbounded memory and distinct sequences (what the client's
    statistics see), the pairs reported over a whole run do not depend on the
    order of arrival: each pair of replies with adjacent sequences, the wrap from
    the last sequence number to zero included, is reported exactly once with the
    values of its two samples, whichever arrived first. *)
Theorem unbounded_pairs_once xs :
  NoDup (seqs xs) → Forall (λ x, in_u 32 (IpdvSample.seq x)) xs →
  let pairs := concat (insert_all xs (new None)).1 in
  NoDup (CompletedIpdvPair.current_seq <$> pairs) ∧
  ∀ p, p ∈ pairs ↔ ∃ previous current, previous ∈ xs ∧ current ∈ xs ∧
    IpdvSample.seq previous = pred_seq (IpdvSample.seq current) ∧
    p = completed_pair (IpdvSample.seq previous) (IpdvSample.seq current) previous current.
Proof.
  intros Hn Hxs pairs.
  assert (∀ n, @None Z = Some n → 0 <= n) as Hpos by done.
  destruct (insert_all_ok None xs [] (new None) eq_refl Hpos (tracker_holds_new None) Hxs) as [H1 _].
  pose proof (ref_insert_all_currents xs [] Hn (proj2 (Forall_fmap _ _ _) Hxs)) as H2.
  unfold pairs. rewrite H1. clear H1 pairs. destruct (ref_insert_all None xs []) as [outs l].
  cbn [fst app] in *. destruct H2 as (-> & Hnd & Hk & Hp). split; [done|]. intros p. split.
  - intros Hin%Hp. by apply pair_at_elem in Hin.
  - intros Hpair. pose proof (proj2 (pair_at_elem xs p Hn) Hpair) as Hat.
    assert (CompletedIpdvPair.current_seq p ∈ currents (concat outs)) as Hin.
    { apply Hk. split; [by eapply pair_at_inv|]. by intros [?%not_elem_of_nil _]. }
    apply list_elem_of_fmap in Hin as (q & Heq & Hq). pose proof (Hp _ Hq) as Hatq.
    rewrite <- Heq in Hatq. by rewrite (pair_at_unique _ _ _ _ Hat Hatq).
Qed.

(** On samples a client can produce the delay changes of a pair are the
    exact differences, none of the [i128] subtractions wraps, and an instant
    that precedes the other gives a negative difference instead of a panic. *)
Theorem pair_exact previous_seq current_seq previous current :
  sample_ok previous → sample_ok current →
  completed_pair previous_seq current_seq previous current
  = CompletedIpdvPair.mk previous_seq current_seq (rtt_primary_ns current - rtt_primary_ns previous)
      (exact_send previous current) (exact_receive previous current).
Proof.
  intros Hp Hc. unfold completed_pair. rewrite exact_send_ok, exact_receive_ok by done.
  destruct Hp as [Hp _ _ _ _ _ _ _ _], Hc as [Hc _ _ _ _ _ _ _ _]. unfold client_range in *.
  rewrite sub_i128_exact; [done|lia|lia].
Qed.

(** ** Concrete runs: a reply out of order around the wrap of the sequence *)
Definition example_sample (seq sent received : Z) : IpdvSample.t :=
  IpdvSample.mk seq (received - sent) sent received None None (Some (sent + 7)) (Some (sent + 9)) None None.
Definition example_samples : list IpdvSample.t :=
  [example_sample 4294967295 10 40; example_sample 1 30 65; example_sample 0 20 55].

Lemma ipdv_refines_witness :
  Forall (λ x, in_u 32 (IpdvSample.seq x)) example_samples ∧
  (concat (insert_all example_samples (new (Some 2))).1
   = concat (ref_insert_all (Some 2) example_samples []).1) ∧
  length (concat (insert_all example_samples (new (Some 2))).1) = 1%nat.
Proof.
  assert (Forall (λ x, in_u 32 (IpdvSample.seq x)) example_samples) as Hx by (repeat constructor; decide_now).
  assert (∀ n : Z, Some 2 = Some n → 0 <= n) as Hn by (intros n [= <-]; lia).
  split; [exact Hx|]. pose proof (ipdv_refines (Some 2) example_samples Hn Hx) as Ht.
  destruct (insert_all example_samples (new (Some 2))) as [outs self] eqn:He.
  destruct (ref_insert_all (Some 2) example_samples []) as [ref_outs l] eqn:Hr.
  destruct Ht as (-> & _). split; [reflexivity|].
  transitivity (length (concat (ref_insert_all (Some 2) example_samples []).1)); [by rewrite Hr|].
  vm_compute. reflexivity.
Defined.

Lemma unbounded_pairs_once_witness :
  completed_pair 4294967295 0 (example_sample 4294967295 10 40) (example_sample 0 20 55)
  ∈ concat (insert_all example_samples (new None)).1.
Proof.
  assert (NoDup (seqs example_samples)) as Hn by (apply NoDup_ListNoDup; repeat constructor; cbn; intuition lia).
  assert (Forall (λ x, in_u 32 (IpdvSample.seq x)) example_samples) as Hx by (repeat constructor; decide_now).
  apply (unbounded_pairs_once example_samples Hn Hx).
  exists (example_sample 4294967295 10 40), (example_sample 0 20 55).
  split; [left|]. split; [right; right; left|]. split; reflexivity.
Defined.

Lemma example_sample_ok seq sent received :
  0 <= sent <= 2 ^ 60 → 0 <= received <= 2 ^ 60 → sample_ok (example_sample seq sent received).
Proof.
  intros Hs Hr. split; cbn; unfold client_range, option_in, in_i; try intros v [= <-];
    change (64 - 1) with 63; lia.
Qed.

Lemma pair_exact_witness :
  completed_pair 4 5 (example_sample 4 10 40) (example_sample 5 30 55)
  = CompletedIpdvPair.mk 4 5 (-5) (Some 0) (Some (-5)).
Proof.
  assert (sample_ok (example_sample 4 10 40)) as Ha by (apply example_sample_ok; lia).
  assert (sample_ok (example_sample 5 30 55)) as Hb by (apply example_sample_ok; lia).
  exact (pair_exact 4 5 _ _ Ha Hb).
Defined.
