(* ===== verification/StatsCore.v ===== *)
(** * irtt-stats: counters, metrics and loss

    Models [crates/irtt-stats/src/core.rs] and [loss.rs] with the data of
    [lib.rs]. The accumulators come from the [measurement-stats] crate and are a
    parameter; an [f64] is the IEEE 754 binary64 of [SpecFloat]. *)

From Stdlib Require Import Floats.SpecFloat.
From S2P Require Import Prelude ProtoBase ClientBase StatsEvents Ipdv.

(** The accumulators of [measurement-stats]. *)
Class Measurement := {
  TimeAccumulator : Type;
  TimeStats : Type;
  exact_unbounded : TimeAccumulator;
  running : TimeAccumulator;
  push_ns : TimeAccumulator → Z → TimeAccumulator;
  acc_snapshot : TimeAccumulator → TimeStats;
}.

(** ** f64 *)
Definition f64 : Type := spec_float.
Definition to_f64 (z : Z) : f64 := binary_normalize 53 1024 z 0 false.
Definition f64_zero : f64 := S754_zero false.
Definition percent (numerator denominator : f64) : f64 :=
  SFdiv 53 1024 (SFmul 53 1024 (to_f64 100) numerator) denominator.

(** ** Data of lib.rs *)

Module EventCounts.
Record t : Type := mk {
  sent_events : Z;
  echo_replies : Z;
  late_unique_replies : Z;
  duplicate_replies : Z;
  loss_events : Z;
  warning_events : Z;
  untracked_late_replies : Z;
}.
Definition default : t := mk 0 0 0 0 0 0 0.
End EventCounts.

Module PacketCounts.
Record t : Type := mk {
  packets_sent : Z;
  packets_received : Z;
  unique_replies : Z;
  duplicates : Z;
  late_packets : Z;
  bytes_sent : Z;
  bytes_received : Z;
  server_packets_received : option Z;
  server_received_window : option Z;
}.
Definition default : t := mk 0 0 0 0 0 0 0 None None.
End PacketCounts.

Module LossStats.
Record t : Type := mk {
  lost_packets : Z;
  upstream_loss_packets : option Z;
  downstream_loss_packets : option Z;
  packet_loss_percent : f64;
  upstream_loss_percent : f64;
  downstream_loss_percent : f64;
  duplicate_percent : f64;
  late_packets_percent : f64;
}.
End LossStats.

Module IpdvPairUpdate.
Record t : Type := mk {
  previous_seq : Z;
  current_seq : Z;
  rtt_ipdv_ns : Z;
  send_ipdv_ns : option Z;
  receive_ipdv_ns : option Z;
  rtt_ipdv : Z;
  send_ipdv : option Z;
  receive_ipdv : option Z;
}.
End IpdvPairUpdate.

Module EventStatsUpdate.
Record t : Type := mk {
  contributed_sample : bool;
  ipdv_pairs : list IpdvPairUpdate.t;
}.
Definition default : t := mk false [].
End EventStatsUpdate.

(** ** Loss (loss.rs) *)
Section loss.
Import PacketCounts.

(** [i128] differences of [u64] values are exact. *)
Definition loss_stats (packets : PacketCounts.t) (server_received : option Z) : LossStats.t :=
  let lost := sat_u64 (packets_sent packets - unique_replies packets) in
  let packet_loss_percent :=
    if packets_sent packets =? 0 then f64_zero
    else if unique_replies packets =? 0 then to_f64 100
    else percent (to_f64 lost) (to_f64 (packets_sent packets)) in
  let '(upstream_loss_packets, upstream_loss_percent, downstream_loss_packets,
        downstream_loss_percent) :=
    match server_received with
    | Some server_received =>
        let upstream := packets_sent packets - server_received in
        let downstream := server_received - packets_received packets in
        (Some upstream,
         (if packets_sent packets =? 0 then f64_zero
          else percent (to_f64 upstream) (to_f64 (packets_sent packets))),
         Some downstream,
         (if server_received =? 0 then f64_zero
          else percent (to_f64 downstream) (to_f64 server_received)))
    | None => (None, f64_zero, None, f64_zero)
    end in
  LossStats.mk lost upstream_loss_packets downstream_loss_packets packet_loss_percent
    upstream_loss_percent downstream_loss_percent
    (if packets_received packets =? 0 then f64_zero
     else percent (to_f64 (duplicates packets)) (to_f64 (packets_received packets)))
    (if packets_received packets =? 0 then f64_zero
     else percent (to_f64 (late_packets packets)) (to_f64 (packets_received packets))).
End loss.

(** ** The statistics of a stream of events (core.rs) *)

Definition CONTINUOUS_SEQUENCE_LIMIT : Z := 4096.

(** [u64 += 1] in a release build. *)
Definition add_u64 (a b : Z) : Z := wrap_u 64 (a + b).
(** [u64::from(bool)]. *)
Definition of_bool (b : bool) : Z := if b then 1 else 0.

Definition duration_from_non_negative_i128_ns (value : Z) : option Z := try_u64 value.

Module CoreStats.
Section core.
Context `{Measurement}.

Record t : Type := mk {
  events : EventCounts.t;
  packets : PacketCounts.t;
  send_call : TimeAccumulator;
  timer_error : TimeAccumulator;
  rtt_primary : TimeAccumulator;
  rtt_raw : TimeAccumulator;
  rtt_adjusted : TimeAccumulator;
  ipdv_round_trip : TimeAccumulator;
  ipdv_send : TimeAccumulator;
  ipdv_receive : TimeAccumulator;
  send_delay : TimeAccumulator;
  receive_delay : TimeAccumulator;
  server_processing : TimeAccumulator;
  ipdv_tracker : IpdvTracker.t;
  late_replies : LateReplyMode;
}.

Definition new (sample_mode : SampleMode) (late_replies : LateReplyMode) : t :=
  let retain_exact := match sample_mode with Exact => true | RunningOnly => false end in
  let sequence_limit := if retain_exact then None else Some CONTINUOUS_SEQUENCE_LIMIT in
  let metric := match sample_mode with Exact => exact_unbounded | RunningOnly => running end in
  mk EventCounts.default PacketCounts.default metric metric metric metric metric metric metric
    metric metric metric metric (IpdvTracker.new sequence_limit) late_replies.

(** Pushes a measurement that may be absent. *)
Definition push_option (acc : TimeAccumulator) (v : option Z) : TimeAccumulator :=
  match v with Some v => push_ns acc v | None => acc end.

Definition set_counts (e : EventCounts.t) (p : PacketCounts.t) (self : t) : t :=
  mk e p (send_call self) (timer_error self) (rtt_primary self) (rtt_raw self) (rtt_adjusted self)
    (ipdv_round_trip self) (ipdv_send self) (ipdv_receive self) (send_delay self)
    (receive_delay self) (server_processing self) (ipdv_tracker self) (late_replies self).

Definition apply_sent (bytes send_call_ns : Z) (timer_error_ns : option Z) (self : t) : t :=
  let e := events self in
  let p := packets self in
  mk (EventCounts.mk (add_u64 (EventCounts.sent_events e) 1) (EventCounts.echo_replies e)
        (EventCounts.late_unique_replies e) (EventCounts.duplicate_replies e)
        (EventCounts.loss_events e) (EventCounts.warning_events e)
        (EventCounts.untracked_late_replies e))
    (PacketCounts.mk (add_u64 (PacketCounts.packets_sent p) 1) (PacketCounts.packets_received p)
       (PacketCounts.unique_replies p) (PacketCounts.duplicates p) (PacketCounts.late_packets p)
       (sat_u64 (PacketCounts.bytes_sent p + bytes)) (PacketCounts.bytes_received p)
       (PacketCounts.server_packets_received p) (PacketCounts.server_received_window p))
    (push_ns (send_call self) send_call_ns) (push_option (timer_error self) timer_error_ns)
    (rtt_primary self) (rtt_raw self) (rtt_adjusted self)
    (ipdv_round_trip self) (ipdv_send self) (ipdv_receive self) (send_delay self)
    (receive_delay self) (server_processing self) (ipdv_tracker self) (late_replies self).

Definition account_unique_reply (is_late : bool) (sample : ReplySample.t) (self : t) : t :=
  let e := events self in
  let p := packets self in
  set_counts
    (EventCounts.mk (EventCounts.sent_events e)
       (add_u64 (EventCounts.echo_replies e) (of_bool (negb is_late)))
       (add_u64 (EventCounts.late_unique_replies e) (of_bool is_late))
       (EventCounts.duplicate_replies e) (EventCounts.loss_events e) (EventCounts.warning_events e)
       (EventCounts.untracked_late_replies e))
    (PacketCounts.mk (PacketCounts.packets_sent p) (add_u64 (PacketCounts.packets_received p) 1)
       (add_u64 (PacketCounts.unique_replies p) 1) (PacketCounts.duplicates p)
       (add_u64 (PacketCounts.late_packets p) (of_bool is_late)) (PacketCounts.bytes_sent p)
       (sat_u64 (PacketCounts.bytes_received p + ReplySample.bytes_of sample))
       (match ReplySample.received_count sample with
        | Some count =>
            Some (match PacketCounts.server_packets_received p with
                  | Some current => Z.max current count
                  | None => count
                  end)
        | None => PacketCounts.server_packets_received p
        end)
       (match ReplySample.received_window sample with
        | Some window => Some window
        | None => PacketCounts.server_received_window p
        end)) self.

Definition record_reply_metrics (sample : ReplySample.t) (self : t) : t :=
  mk (events self) (packets self) (send_call self) (timer_error self)
    (push_ns (rtt_primary self) (IpdvSample.rtt_primary_ns (ReplySample.ipdv sample)))
    (push_ns (rtt_raw self) (ReplySample.rtt_raw_ns sample))
    (push_option (rtt_adjusted self) (ReplySample.rtt_adjusted_ns sample))
    (ipdv_round_trip self) (ipdv_send self) (ipdv_receive self)
    (push_option (send_delay self) (ReplySample.send_delay_ns sample))
    (push_option (receive_delay self) (ReplySample.receive_delay_ns sample))
    (push_option (server_processing self) (ReplySample.server_processing_ns sample))
    (ipdv_tracker self) (late_replies self).

(** [i128::saturating_abs]. *)
Definition saturating_abs (v : Z) : Z := sat_i128 (Z.abs v).

(** The body of the loop over the completed pairs: [None] is its [continue]. *)
Definition pair_update (pair : CompletedIpdvPair.t) : option IpdvPairUpdate.t :=
  rtt_ipdv ← duration_from_non_negative_i128_ns (saturating_abs (CompletedIpdvPair.rtt_ipdv_ns pair));
  Some (IpdvPairUpdate.mk (CompletedIpdvPair.previous_seq pair) (CompletedIpdvPair.current_seq pair)
    (CompletedIpdvPair.rtt_ipdv_ns pair) (CompletedIpdvPair.send_ipdv_ns pair)
    (CompletedIpdvPair.receive_ipdv_ns pair) rtt_ipdv
    ((saturating_abs <$> CompletedIpdvPair.send_ipdv_ns pair) ≫= duration_from_non_negative_i128_ns)
    ((saturating_abs <$> CompletedIpdvPair.receive_ipdv_ns pair) ≫= duration_from_non_negative_i128_ns)).

Definition push_pair (self : t) (pair : CompletedIpdvPair.t) : t :=
  mk (events self) (packets self) (send_call self) (timer_error self) (rtt_primary self)
    (rtt_raw self) (rtt_adjusted self)
    (push_ns (ipdv_round_trip self) (saturating_abs (CompletedIpdvPair.rtt_ipdv_ns pair)))
    (push_option (ipdv_send self) (saturating_abs <$> CompletedIpdvPair.send_ipdv_ns pair))
    (push_option (ipdv_receive self) (saturating_abs <$> CompletedIpdvPair.receive_ipdv_ns pair))
    (send_delay self) (receive_delay self) (server_processing self) (ipdv_tracker self)
    (late_replies self).

Fixpoint apply_pairs (pairs : list CompletedIpdvPair.t) (self : t) : list IpdvPairUpdate.t * t :=
  match pairs with
  | [] => ([], self)
  | completed :: pairs =>
      match pair_update completed with
      | None => apply_pairs pairs self
      | Some update =>
          let '(updates, self) := apply_pairs pairs (push_pair self completed) in (update :: updates, self)
      end
  end.

Definition set_tracker (v : IpdvTracker.t) (self : t) : t :=
  mk (events self) (packets self) (send_call self) (timer_error self) (rtt_primary self)
    (rtt_raw self) (rtt_adjusted self) (ipdv_round_trip self) (ipdv_send self) (ipdv_receive self)
    (send_delay self) (receive_delay self) (server_processing self) v (late_replies self).

Definition apply_ipdv_sample (sample : IpdvSample.t) (self : t) : list IpdvPairUpdate.t * t :=
  let '(pairs, tracker) := Ipdv.insert sample (ipdv_tracker self) in
  apply_pairs pairs (set_tracker tracker self).

Definition apply_unique_reply (is_late : bool) (sample : ReplySample.t) (self : t)
    : EventStatsUpdate.t * t :=
  let self := account_unique_reply is_late sample self in
  if is_late && (match late_replies self with CountOnly => true | Measure => false end)
  then (EventStatsUpdate.default, self)
  else
    let self := record_reply_metrics sample self in
    let '(ipdv_pairs, self) := apply_ipdv_sample (ReplySample.ipdv sample) self in
    (EventStatsUpdate.mk true ipdv_pairs, self).

Definition apply_duplicate_reply (bytes : Z) (self : t) : t :=
  let e := events self in
  let p := packets self in
  set_counts
    (EventCounts.mk (EventCounts.sent_events e) (EventCounts.echo_replies e)
       (EventCounts.late_unique_replies e) (add_u64 (EventCounts.duplicate_replies e) 1)
       (EventCounts.loss_events e) (EventCounts.warning_events e)
       (EventCounts.untracked_late_replies e))
    (PacketCounts.mk (PacketCounts.packets_sent p) (add_u64 (PacketCounts.packets_received p) 1)
       (PacketCounts.unique_replies p) (add_u64 (PacketCounts.duplicates p) 1)
       (PacketCounts.late_packets p) (PacketCounts.bytes_sent p)
       (sat_u64 (PacketCounts.bytes_received p + bytes))
       (PacketCounts.server_packets_received p) (PacketCounts.server_received_window p)) self.

Definition apply_loss (self : t) : t :=
  let e := events self in
  set_counts
    (EventCounts.mk (EventCounts.sent_events e) (EventCounts.echo_replies e)
       (EventCounts.late_unique_replies e) (EventCounts.duplicate_replies e)
       (add_u64 (EventCounts.loss_events e) 1) (EventCounts.warning_events e)
       (EventCounts.untracked_late_replies e)) (packets self) self.

Definition apply_warning (self : t) : t :=
  let e := events self in
  set_counts
    (EventCounts.mk (EventCounts.sent_events e) (EventCounts.echo_replies e)
       (EventCounts.late_unique_replies e) (EventCounts.duplicate_replies e)
       (EventCounts.loss_events e) (add_u64 (EventCounts.warning_events e) 1)
       (EventCounts.untracked_late_replies e)) (packets self) self.

Definition apply_untracked_late (bytes : Z) (self : t) : t :=
  let e := events self in
  let p := packets self in
  set_counts
    (EventCounts.mk (EventCounts.sent_events e) (EventCounts.echo_replies e)
       (EventCounts.late_unique_replies e) (EventCounts.duplicate_replies e)
       (EventCounts.loss_events e) (EventCounts.warning_events e)
       (add_u64 (EventCounts.untracked_late_replies e) 1))
    (PacketCounts.mk (PacketCounts.packets_sent p) (add_u64 (PacketCounts.packets_received p) 1)
       (PacketCounts.unique_replies p) (PacketCounts.duplicates p)
       (add_u64 (PacketCounts.late_packets p) 1) (PacketCounts.bytes_sent p)
       (sat_u64 (PacketCounts.bytes_received p + bytes))
       (PacketCounts.server_packets_received p) (PacketCounts.server_received_window p)) self.

Definition apply (event : StatsEvent.t) (self : t) : EventStatsUpdate.t * t :=
  match event with
  | StatsEvent.Sent _ bytes send_call_ns timer_error_ns =>
      (EventStatsUpdate.default, apply_sent bytes send_call_ns timer_error_ns self)
  | StatsEvent.UniqueReply _ is_late sample => apply_unique_reply is_late sample self
  | StatsEvent.DuplicateReply _ bytes => (EventStatsUpdate.default, apply_duplicate_reply bytes self)
  | StatsEvent.Loss _ => (EventStatsUpdate.default, apply_loss self)
  | StatsEvent.Warning _ => (EventStatsUpdate.default, apply_warning self)
  | StatsEvent.UntrackedLate _ bytes => (EventStatsUpdate.default, apply_untracked_late bytes self)
  end.
End core.
End CoreStats.

(** ** Snapshots *)
Section snapshots.
Context `{Measurement}.
Import CoreStats.

Record RttStats : Type := mk_rtt { primary : TimeStats; raw : TimeStats; adjusted : TimeStats }.
Record IpdvStats : Type := mk_ipdv { round_trip : TimeStats; send : TimeStats; receive : TimeStats }.
Record OneWayDelayStats : Type := mk_one_way { ow_send_delay : TimeStats; ow_receive_delay : TimeStats }.
Record ServerProcessingStats : Type := mk_processing { processing : TimeStats }.

Record Snapshot : Type := mk_snapshot {
  snap_events : EventCounts.t;
  snap_packets : PacketCounts.t;
  loss : LossStats.t;
  snap_send_call : TimeStats;
  snap_timer_error : TimeStats;
  rtt : RttStats;
  snap_ipdv : IpdvStats;
  one_way_delay : OneWayDelayStats;
  snap_server_processing : ServerProcessingStats;
}.

Definition rtt_stats (self : CoreStats.t) : RttStats :=
  mk_rtt (acc_snapshot (rtt_primary self)) (acc_snapshot (rtt_raw self))
    (acc_snapshot (rtt_adjusted self)).
Definition ipdv_stats (self : CoreStats.t) : IpdvStats :=
  mk_ipdv (acc_snapshot (ipdv_round_trip self)) (acc_snapshot (ipdv_send self))
    (acc_snapshot (ipdv_receive self)).
Definition one_way_delay_stats (self : CoreStats.t) : OneWayDelayStats :=
  mk_one_way (acc_snapshot (send_delay self)) (acc_snapshot (receive_delay self)).
Definition server_processing_stats (self : CoreStats.t) : ServerProcessingStats :=
  mk_processing (acc_snapshot (server_processing self)).

Definition snapshot (self : CoreStats.t) : Snapshot :=
  mk_snapshot (events self) (packets self)
    (loss_stats (packets self) (PacketCounts.server_packets_received (packets self)))
    (acc_snapshot (send_call self)) (acc_snapshot (timer_error self)) (rtt_stats self)
    (ipdv_stats self) (one_way_delay_stats self) (server_processing_stats self).

Definition set_loss (v : LossStats.t) (self : Snapshot) : Snapshot :=
  mk_snapshot (snap_events self) (snap_packets self) v (snap_send_call self)
    (snap_timer_error self) (rtt self) (snap_ipdv self) (one_way_delay self)
    (snap_server_processing self).

(** The updates of a stream of events, and the statistics after it. *)
Fixpoint apply_all (evs : list StatsEvent.t) (self : CoreStats.t)
    : list EventStatsUpdate.t * CoreStats.t :=
  match evs with
  | [] => ([], self)
  | e :: evs =>
      let '(update, self) := apply e self in
      let '(updates, self) := apply_all evs self in (update :: updates, self)
  end.
End snapshots.

(** ** Reference: what a stream of events amounts to *)
Definition occurrences (f : StatsEvent.t → bool) (evs : list StatsEvent.t) : Z :=
  len (filter (λ e, f e = true) evs).
Definition is_sent (e : StatsEvent.t) : bool :=
  match e with StatsEvent.Sent _ _ _ _ => true | _ => false end.
Definition is_unique (late : bool) (e : StatsEvent.t) : bool :=
  match e with StatsEvent.UniqueReply _ is_late _ => Bool.eqb late is_late | _ => false end.
Definition is_duplicate (e : StatsEvent.t) : bool :=
  match e with StatsEvent.DuplicateReply _ _ => true | _ => false end.
Definition is_loss (e : StatsEvent.t) : bool :=
  match e with StatsEvent.Loss _ => true | _ => false end.
Definition is_warning (e : StatsEvent.t) : bool :=
  match e with StatsEvent.Warning _ => true | _ => false end.
Definition is_untracked (e : StatsEvent.t) : bool :=
  match e with StatsEvent.UntrackedLate _ _ => true | _ => false end.

Definition sum (l : list Z) : Z := foldr Z.add 0 l.
Definition sent_bytes (e : StatsEvent.t) : option Z :=
  match e with StatsEvent.Sent _ bytes _ _ => Some bytes | _ => None end.
Definition received_bytes (e : StatsEvent.t) : option Z :=
  match e with
  | StatsEvent.UniqueReply _ _ sample => Some (ReplySample.bytes_of sample)
  | StatsEvent.DuplicateReply _ bytes | StatsEvent.UntrackedLate _ bytes => Some bytes
  | _ => None
  end.
Definition sample_of (e : StatsEvent.t) : option ReplySample.t :=
  match e with StatsEvent.UniqueReply _ _ sample => Some sample | _ => None end.
Definition server_count (e : StatsEvent.t) : option Z := sample_of e ≫= ReplySample.received_count.
Definition server_window (e : StatsEvent.t) : option Z := sample_of e ≫= ReplySample.received_window.
Definition highest (l : list Z) : option Z :=
  match l with [] => None | c :: l => Some (foldr Z.max c l) end.

(** The reply an event measures: late ones only under [Measure]. *)
Definition measured (late : LateReplyMode) (e : StatsEvent.t) : option ReplySample.t :=
  match e, late with
  | StatsEvent.UniqueReply _ true _, CountOnly => None
  | StatsEvent.UniqueReply _ _ sample, _ => Some sample
  | _, _ => None
  end.

Definition event_counts (evs : list StatsEvent.t) : EventCounts.t :=
  EventCounts.mk (occurrences is_sent evs) (occurrences (is_unique false) evs)
    (occurrences (is_unique true) evs) (occurrences is_duplicate evs) (occurrences is_loss evs)
    (occurrences is_warning evs) (occurrences is_untracked evs).

Definition packet_counts (evs : list StatsEvent.t) : PacketCounts.t :=
  let unique := occurrences (is_unique false) evs + occurrences (is_unique true) evs in
  PacketCounts.mk (occurrences is_sent evs)
    (unique + occurrences is_duplicate evs + occurrences is_untracked evs)
    unique (occurrences is_duplicate evs)
    (occurrences (is_unique true) evs + occurrences is_untracked evs)
    (Z.min (sum (omap sent_bytes evs)) U64_MAX) (Z.min (sum (omap received_bytes evs)) U64_MAX)
    (highest (omap server_count evs)) (last (omap server_window evs)).

Definition event_ok (e : StatsEvent.t) : Prop :=
  (∀ b, sent_bytes e = Some b → 0 <= b) ∧ (∀ b, received_bytes e = Some b → 0 <= b).

(** ** Lists *)
Lemma occurrences_snoc f l e : occurrences f (l ++ [e]) = occurrences f l + of_bool (f e).
Proof.
  unfold occurrences. rewrite filter_app, len_app. destruct (f e) eqn:He.
  - by rewrite filter_cons_True.
  - by rewrite filter_cons_False by congruence.
Qed.
Lemma occurrences_nonneg f l : 0 <= occurrences f l.
Proof. apply len_nonneg. Qed.
Lemma occurrences_split f g h l :
  (∀ e, of_bool (f e) + of_bool (g e) <= of_bool (h e)) →
  occurrences f l + occurrences g l <= occurrences h l.
Proof.
  intros Hf. induction l as [|e l IH] using rev_ind; [done|]. rewrite !occurrences_snoc.
  specialize (Hf e). lia.
Qed.
Lemma omap_snoc {A B} (f : A → option B) l x :
  omap f (l ++ [x]) = omap f l ++ option_list (f x).
Proof. rewrite omap_app. cbn. by destruct (f x). Qed.
Lemma sum_app l k : sum (l ++ k) = sum l + sum k.
Proof. unfold sum. induction l as [|x l IH]; cbn; [done|]. rewrite IH. lia. Qed.
Lemma sum_nonneg l : Forall (λ b, 0 <= b) l → 0 <= sum l.
Proof. unfold sum. induction 1; cbn; lia. Qed.
Lemma sum_omap_nonneg {A} (f : A → option Z) l :
  Forall (λ x, ∀ b, f x = Some b → 0 <= b) l → 0 <= sum (omap f l).
Proof.
  unfold sum. induction 1 as [|x l Hx _ IH]; cbn; [done|]. destruct (f x) as [b|]; cbn; [|done].
  specialize (Hx b eq_refl). lia.
Qed.
Lemma highest_snoc l c :
  highest (l ++ [c]) = Some (match highest l with Some m => Z.max m c | None => c end).
Proof.
  destruct l as [|x l]; [done|]. cbn. f_equal. induction l as [|y l IH]; cbn; [lia|]. rewrite IH. lia.
Qed.

Section theorems.
Context `{Measurement}.
Import CoreStats.

(** ** One event *)
Lemma apply_all_snoc evs e self :
  apply_all (evs ++ [e]) self
  = let '(updates, self) := apply_all evs self in
    let '(update, self) := apply e self in (updates ++ [update], self).
Proof.
  revert self. induction evs as [|x evs IH]; intros self; cbn.
  - by destruct (apply e self).
  - destruct (apply x self) as [u s1]. rewrite IH. destruct (apply_all evs s1) as [us s2].
    by destruct (apply e s2).
Qed.

Lemma apply_pairs_counts pairs self :
  events (apply_pairs pairs self).2 = events self ∧ packets (apply_pairs pairs self).2 = packets self ∧
  late_replies (apply_pairs pairs self).2 = late_replies self ∧
  ipdv_tracker (apply_pairs pairs self).2 = ipdv_tracker self.
Proof.
  revert self. induction pairs as [|p pairs IH]; intros self; [done|]. cbn [apply_pairs].
  destruct (pair_update p); [|apply IH]. specialize (IH (push_pair self p)).
  by destruct (apply_pairs pairs (push_pair self p)).
Qed.

Lemma apply_unique_counts is_late sample self :
  let self' := (apply_unique_reply is_late sample self).2 in
  let counted := account_unique_reply is_late sample self in
  events self' = events counted ∧ packets self' = packets counted ∧
  late_replies self' = late_replies self.
Proof.
  cbn zeta. unfold apply_unique_reply. cbn zeta. destruct (is_late && _); [done|].
  unfold apply_ipdv_sample. destruct (Ipdv.insert _ _) as [pairs tracker].
  match goal with |- context [apply_pairs pairs ?s] =>
    pose proof (apply_pairs_counts pairs s) as Hp; destruct (apply_pairs pairs s) end.
  cbn in *. naive_solver.
Qed.

Lemma late_replies_apply e self : late_replies (apply e self).2 = late_replies self.
Proof. destruct e; try done. apply apply_unique_counts. Qed.

(** ** Counters *)
Lemma add_u64_small a b : 0 <= a + b < 2 ^ 64 → add_u64 a b = a + b.
Proof. intros. by apply wrap_u_small. Qed.
Lemma sat_u64_add s b : 0 <= s → 0 <= b → sat_u64 (Z.min s U64_MAX + b) = Z.min (s + b) U64_MAX.
Proof. unfold sat_u64, U64_MAX. lia. Qed.

Lemma occurrences_total evs :
  occurrences is_sent evs + occurrences (is_unique false) evs + occurrences (is_unique true) evs
  + occurrences is_duplicate evs + occurrences is_loss evs + occurrences is_warning evs
  + occurrences is_untracked evs = len evs.
Proof.
  induction evs as [|e evs IH] using rev_ind; [done|]. rewrite !occurrences_snoc, len_app.
  change (len [e]) with 1. destruct e as [| ? [] ? | | | |]; cbn; lia.
Qed.

(** The counters that are not byte totals. *)
Definition unbyted (p : PacketCounts.t) : PacketCounts.t :=
  PacketCounts.mk (PacketCounts.packets_sent p) (PacketCounts.packets_received p)
    (PacketCounts.unique_replies p) (PacketCounts.duplicates p) (PacketCounts.late_packets p) 0 0
    (PacketCounts.server_packets_received p) (PacketCounts.server_received_window p).

Lemma packets_eq p q :
  unbyted p = unbyted q → PacketCounts.bytes_sent p = PacketCounts.bytes_sent q →
  PacketCounts.bytes_received p = PacketCounts.bytes_received q → p = q.
Proof. destruct p, q. unfold unbyted. cbn. by intros [= -> -> -> -> -> -> ->] -> ->. Qed.

Lemma counts_snoc evs e self :
  len (evs ++ [e]) < 2 ^ 64 →
  events self = event_counts evs → unbyted (packets self) = unbyted (packet_counts evs) →
  events (apply e self).2 = event_counts (evs ++ [e]) ∧
  unbyted (packets (apply e self).2) = unbyted (packet_counts (evs ++ [e])).
Proof.
  intros Hlen He Hp. rewrite len_app in Hlen. change (len [e]) with 1 in Hlen.
  pose proof (occurrences_total evs) as Ht.
  pose proof (λ f, occurrences_nonneg f evs) as Hn.
  pose proof (Hn is_sent). pose proof (Hn (is_unique false)). pose proof (Hn (is_unique true)).
  pose proof (Hn is_duplicate). pose proof (Hn is_loss). pose proof (Hn is_warning).
  pose proof (Hn is_untracked). clear Hn.
  unfold unbyted, event_counts, packet_counts in *. rewrite !occurrences_snoc, !omap_snoc.
  injection Hp as P1 P2 P3 P4 P5 P6 P7.
  destruct e as [at_ b ? ?|at_ late sample|at_ b|at_|at_|at_ b];
    cbn [apply]; try (destruct (apply_unique_counts late sample self) as (-> & -> & _));
    cbn [snd apply_sent account_unique_reply apply_duplicate_reply apply_loss apply_warning
      apply_untracked_late set_counts events packets]; rewrite He; cbn;
    rewrite P1, P2, P3, P4, P5, P6, P7; cbn.
  all: rewrite ?app_nil_r, ?Z.add_0_r.
  all: try (rewrite !add_u64_small by (try destruct late; cbn; lia)).
  all: try done.
  - destruct (ReplySample.received_count sample), (ReplySample.received_window sample), late; cbn;
      rewrite ?highest_snoc, ?last_snoc, ?app_nil_r; split; f_equal; lia.
  - split; f_equal; lia.
  - split; f_equal; lia.
Qed.

Lemma bytes_snoc evs e self :
  Forall event_ok (evs ++ [e]) →
  PacketCounts.bytes_sent (packets self) = PacketCounts.bytes_sent (packet_counts evs) →
  PacketCounts.bytes_received (packets self) = PacketCounts.bytes_received (packet_counts evs) →
  PacketCounts.bytes_sent (packets (apply e self).2)
    = PacketCounts.bytes_sent (packet_counts (evs ++ [e])) ∧
  PacketCounts.bytes_received (packets (apply e self).2)
    = PacketCounts.bytes_received (packet_counts (evs ++ [e])).
Proof.
  intros Hok Hs Hr. apply Forall_app in Hok as [Hok [[Hse Hre] _]%Forall_cons].
  assert (0 <= sum (omap sent_bytes evs) ∧ 0 <= sum (omap received_bytes evs)) as [Hs0 Hr0].
  { split; apply sum_omap_nonneg; (eapply Forall_impl; [exact Hok|]); by intros x [? ?]. }
  unfold packet_counts in *. cbn [PacketCounts.bytes_sent PacketCounts.bytes_received] in *.
  rewrite !omap_snoc, !sum_app.
  destruct e as [at_ b ? ?|at_ late sample|at_ b|at_|at_|at_ b];
    cbn [apply]; try (destruct (apply_unique_counts late sample self) as (_ & -> & _));
    cbn [snd apply_sent account_unique_reply apply_duplicate_reply apply_loss apply_warning
      apply_untracked_late set_counts packets PacketCounts.bytes_sent PacketCounts.bytes_received];
    rewrite ?Hs, ?Hr; cbn.
  all: try (specialize (Hse _ eq_refl)); try (specialize (Hre _ eq_refl)).
  all: rewrite ?Z.add_0_r, ?sat_u64_add by done; done.
Qed.

Lemma counters_new mode late evs :
  len evs < 2 ^ 64 →
  let self := (apply_all evs (new mode late)).2 in
  events self = event_counts evs ∧ unbyted (packets self) = unbyted (packet_counts evs).
Proof.
  induction evs as [|e evs IH] using rev_ind; intros Hlen; [done|]. cbn zeta.
  rewrite apply_all_snoc. pose proof Hlen as Hlen'. rewrite len_app in Hlen'. change (len [e]) with 1 in Hlen'.
  destruct IH as (He & Hp); [lia|]. destruct (apply_all evs _) as [us self]. cbn [snd] in *.
  pose proof (counts_snoc evs e self Hlen He Hp) as Hs. by destruct (apply e self).
Qed.

Lemma bytes_new mode late evs :
  Forall event_ok evs →
  let self := (apply_all evs (new mode late)).2 in
  PacketCounts.bytes_sent (packets self) = PacketCounts.bytes_sent (packet_counts evs) ∧
  PacketCounts.bytes_received (packets self) = PacketCounts.bytes_received (packet_counts evs).
Proof.
  induction evs as [|e evs IH] using rev_ind; intros Hok; [done|]. cbn zeta.
  rewrite apply_all_snoc. destruct IH as (Hs & Hr); [by apply Forall_app in Hok as []|].
  destruct (apply_all evs _) as [us self]. cbn [snd] in *.
  pose proof (bytes_snoc evs e self Hok Hs Hr) as Hb. by destruct (apply e self).
Qed.

Lemma core_counts_new mode late evs :
  len evs < 2 ^ 64 → Forall event_ok evs →
  let self := (apply_all evs (new mode late)).2 in
  events self = event_counts evs ∧ packets self = packet_counts evs.
Proof.
  intros Hlen Hok. destruct (counters_new mode late evs Hlen) as [He Hp].
  destruct (bytes_new mode late evs Hok) as [Hs Hr]. cbn zeta in *. split; [done|].
  by apply packets_eq.
Qed.

(** ** Metrics *)
Definition reported (pair : CompletedIpdvPair.t) : Prop := is_Some (pair_update pair).
#[local] Instance reported_dec pair : Decision (reported pair).
Proof. unfold reported. apply _. Defined.

(** What a stream measures: the samples of its replies and, through the tracker,
    the pairs they complete. *)
Definition measured_samples (late : LateReplyMode) (evs : list StatsEvent.t) : list ReplySample.t :=
  omap (measured late) evs.
Definition limit_of (mode : SampleMode) : option Z :=
  match mode with Exact => None | RunningOnly => Some CONTINUOUS_SEQUENCE_LIMIT end.
Definition pairs_of (mode : SampleMode) (late : LateReplyMode) (evs : list StatsEvent.t)
    : list CompletedIpdvPair.t :=
  concat (insert_all (ReplySample.ipdv <$> measured_samples late evs) (IpdvTracker.new (limit_of mode))).1.

Definition accumulated (mode : SampleMode) (l : list Z) : TimeAccumulator :=
  foldl push_ns (match mode with Exact => exact_unbounded | RunningOnly => running end) l.

Definition sent_call (e : StatsEvent.t) : option Z :=
  match e with StatsEvent.Sent _ _ call _ => Some call | _ => None end.
Definition sent_error (e : StatsEvent.t) : option Z :=
  match e with StatsEvent.Sent _ _ _ error => error | _ => None end.

Definition metrics_hold (mode : SampleMode) (late : LateReplyMode) (evs : list StatsEvent.t)
    (self : t) : Prop :=
  let replies := measured_samples late evs in
  let pairs := filter reported (pairs_of mode late evs) in
  send_call self = accumulated mode (omap sent_call evs) ∧
  timer_error self = accumulated mode (omap sent_error evs) ∧
  rtt_primary self
    = accumulated mode ((λ r, IpdvSample.rtt_primary_ns (ReplySample.ipdv r)) <$> replies) ∧
  rtt_raw self = accumulated mode (ReplySample.rtt_raw_ns <$> replies) ∧
  rtt_adjusted self = accumulated mode (omap ReplySample.rtt_adjusted_ns replies) ∧
  send_delay self = accumulated mode (omap ReplySample.send_delay_ns replies) ∧
  receive_delay self = accumulated mode (omap ReplySample.receive_delay_ns replies) ∧
  server_processing self = accumulated mode (omap ReplySample.server_processing_ns replies) ∧
  ipdv_round_trip self
    = accumulated mode ((λ p, saturating_abs (CompletedIpdvPair.rtt_ipdv_ns p)) <$> pairs) ∧
  ipdv_send self
    = accumulated mode (omap (λ p, saturating_abs <$> CompletedIpdvPair.send_ipdv_ns p) pairs) ∧
  ipdv_receive self
    = accumulated mode (omap (λ p, saturating_abs <$> CompletedIpdvPair.receive_ipdv_ns p) pairs).

Lemma push_option_foldl acc l v :
  push_option (foldl push_ns acc l) v = foldl push_ns acc (l ++ option_list v).
Proof. rewrite foldl_app. by destruct v. Qed.

Definition set_ipdv (a b c : TimeAccumulator) (self : t) : t :=
  mk (events self) (packets self) (send_call self) (timer_error self) (rtt_primary self)
    (rtt_raw self) (rtt_adjusted self) a b c (send_delay self) (receive_delay self)
    (server_processing self) (ipdv_tracker self) (late_replies self).

Lemma apply_pairs_ok pairs self :
  apply_pairs pairs self =
  (omap pair_update pairs,
   set_ipdv
     (foldl push_ns (ipdv_round_trip self)
        ((λ p, saturating_abs (CompletedIpdvPair.rtt_ipdv_ns p)) <$> filter reported pairs))
     (foldl push_ns (ipdv_send self)
        (omap (λ p, saturating_abs <$> CompletedIpdvPair.send_ipdv_ns p) (filter reported pairs)))
     (foldl push_ns (ipdv_receive self)
        (omap (λ p, saturating_abs <$> CompletedIpdvPair.receive_ipdv_ns p) (filter reported pairs)))
     self).
Proof.
  revert self. induction pairs as [|p pairs IH]; intros self; [by destruct self|].
  cbn [apply_pairs omap list_omap]. destruct (pair_update p) as [u|] eqn:Hp.
  - rewrite filter_cons_True by (by exists u). rewrite IH. cbn.
    by destruct (CompletedIpdvPair.send_ipdv_ns p), (CompletedIpdvPair.receive_ipdv_ns p).
  - rewrite filter_cons_False by (intros [u Hu]; congruence). apply IH.
Qed.

Lemma insert_all_snoc xs x self :
  insert_all (xs ++ [x]) self
  = let '(outs, self) := insert_all xs self in
    let '(out, self) := Ipdv.insert x self in (outs ++ [out], self).
Proof.
  revert self. induction xs as [|y xs IH]; intros self; cbn.
  - by destruct (Ipdv.insert x self).
  - destruct (Ipdv.insert y self) as [o s1]. rewrite IH. destruct (insert_all xs s1) as [os s2].
    by destruct (Ipdv.insert x s2).
Qed.

(** A measured reply extends the samples by one, and the pairs by what the tracker
    returns for it. *)
Lemma pairs_of_snoc mode late evs e r :
  measured late e = Some r →
  let tracker := (insert_all (ReplySample.ipdv <$> measured_samples late evs)
                    (IpdvTracker.new (limit_of mode))).2 in
  measured_samples late (evs ++ [e]) = measured_samples late evs ++ [r] ∧
  pairs_of mode late (evs ++ [e])
    = pairs_of mode late evs ++ (Ipdv.insert (ReplySample.ipdv r) tracker).1 ∧
  (insert_all (ReplySample.ipdv <$> measured_samples late (evs ++ [e]))
     (IpdvTracker.new (limit_of mode))).2 = (Ipdv.insert (ReplySample.ipdv r) tracker).2.
Proof.
  intros Hm. cbn zeta. unfold pairs_of, measured_samples. rewrite omap_snoc, Hm.
  change (option_list (Some r)) with [r]. rewrite fmap_app. change (ReplySample.ipdv <$> [r]) with [ReplySample.ipdv r]. rewrite insert_all_snoc.
  destruct (insert_all _ _) as [outs tracker]. cbn [snd].
  destruct (Ipdv.insert _ tracker) as [out tracker']. cbn [fst snd].
  rewrite concat_app. cbn. by rewrite app_nil_r.
Qed.

Lemma unmeasured_snoc mode late evs e :
  measured late e = None →
  measured_samples late (evs ++ [e]) = measured_samples late evs ∧
  pairs_of mode late (evs ++ [e]) = pairs_of mode late evs.
Proof.
  intros Hm. unfold pairs_of, measured_samples. rewrite omap_snoc, Hm. change (option_list (@None ?A)) with (@nil A).
  by rewrite app_nil_r.
Qed.

(** The tracker holds every measured sample. *)
Definition tracker_holds (mode : SampleMode) (late : LateReplyMode) (evs : list StatsEvent.t)
    (self : t) : Prop :=
  ipdv_tracker self
  = (insert_all (ReplySample.ipdv <$> measured_samples late evs) (IpdvTracker.new (limit_of mode))).2.

Lemma metrics_unmeasured mode late evs e self self' :
  measured late e = None → metrics_hold mode late evs self → tracker_holds mode late evs self →
  self' = self ∨ (∃ e' p', self' = set_counts e' p' self) →
  sent_call e = None → sent_error e = None →
  metrics_hold mode late (evs ++ [e]) self' ∧ tracker_holds mode late (evs ++ [e]) self'.
Proof.
  intros Hm Hh Ht Hs Hc Her. unfold metrics_hold, tracker_holds in *.
  destruct (unmeasured_snoc mode late evs e Hm) as [-> ->]. rewrite !omap_snoc, Hc, Her.
  change (option_list (@None ?A)) with (@nil A). rewrite !app_nil_r. by destruct Hs as [->|(e' & p' & ->)].
Qed.

Lemma metrics_measured mode late evs e r self is_late :
  measured late e = Some r → sent_call e = None → sent_error e = None →
  metrics_hold mode late evs self → tracker_holds mode late evs self →
  let after := apply_ipdv_sample (ReplySample.ipdv r)
                 (record_reply_metrics r (account_unique_reply is_late r self)) in
  metrics_hold mode late (evs ++ [e]) after.2 ∧ tracker_holds mode late (evs ++ [e]) after.2 ∧
  pairs_of mode late (evs ++ [e])
    = pairs_of mode late evs ++ (Ipdv.insert (ReplySample.ipdv r) (ipdv_tracker self)).1 ∧
  after.1 = omap pair_update (Ipdv.insert (ReplySample.ipdv r) (ipdv_tracker self)).1.
Proof.
  intros Hm Hc Her Hh Ht. cbn zeta. unfold metrics_hold, tracker_holds in *.
  destruct (pairs_of_snoc mode late evs e r Hm) as (H1 & H2 & H3).
  rewrite H3. rewrite H1, H2, <- Ht. unfold apply_ipdv_sample. cbn [record_reply_metrics account_unique_reply set_counts ipdv_tracker].
  destruct (Ipdv.insert (ReplySample.ipdv r) (ipdv_tracker self)) as [pairs tracker].
  rewrite apply_pairs_ok. cbn. rewrite !omap_snoc, !fmap_app, Hc, Her, filter_app, fmap_app, !omap_app.
  change (option_list (@None ?A)) with (@nil A). rewrite !app_nil_r.
  destruct Hh as (-> & -> & -> & -> & -> & -> & -> & -> & -> & -> & ->). unfold accumulated.
  rewrite !push_option_foldl, !foldl_app. done.
Qed.

Lemma core_metrics_step mode late evs e self :
  late_replies self = late → metrics_hold mode late evs self → tracker_holds mode late evs self →
  let '(update, self') := apply e self in
  metrics_hold mode late (evs ++ [e]) self' ∧ tracker_holds mode late (evs ++ [e]) self' ∧
  EventStatsUpdate.contributed_sample update = bool_decide (is_Some (measured late e)) ∧
  omap pair_update (pairs_of mode late (evs ++ [e]))
    = omap pair_update (pairs_of mode late evs) ++ EventStatsUpdate.ipdv_pairs update.
Proof.
  intros Hl Hh Ht.
  assert (∀ self', measured late e = None → self' = self ∨ (∃ e' p', self' = set_counts e' p' self) →
    sent_call e = None → sent_error e = None →
    metrics_hold mode late (evs ++ [e]) self' ∧ tracker_holds mode late (evs ++ [e]) self' ∧
    false = bool_decide (is_Some (measured late e)) ∧
    omap pair_update (pairs_of mode late (evs ++ [e])) = omap pair_update (pairs_of mode late evs) ++ [])
    as Hun.
  { intros self' Hm Hs Hc Her.
    destruct (metrics_unmeasured mode late evs e self self' Hm Hh Ht Hs Hc Her). do 2 (split; [done|]).
    rewrite (proj2 (unmeasured_snoc mode late evs e Hm)), app_nil_r, Hm. done. }
  destruct e as [at_ b call error|at_ is_late sample|at_ b|at_|at_|at_ b]; cbn [apply];
    try (apply Hun; [done|right; do 2 eexists; reflexivity|done|done]).
  - unfold metrics_hold, tracker_holds in *. cbn [apply_sent].
    destruct (unmeasured_snoc mode late evs (StatsEvent.Sent at_ b call error) eq_refl) as [-> ->].
    rewrite !omap_snoc. cbn. rewrite app_nil_r. unfold accumulated in *. rewrite !foldl_app.
    destruct Hh as (-> & -> & Hh). split; [|by rewrite Ht]. by destruct error.
  - unfold apply_unique_reply. cbn [account_unique_reply set_counts late_replies]. rewrite Hl.
    destruct (is_late && _) eqn:Hcount.
    + destruct is_late, late; try done.
      apply Hun; [done|right; do 2 eexists; reflexivity|done|done].
    + set (e := StatsEvent.UniqueReply at_ is_late sample) in *.
      assert (measured late e = Some sample) as Hm by (by destruct is_late, late).
      pose proof (metrics_measured mode late evs e sample self is_late Hm eq_refl eq_refl Hh Ht) as Hs.
      cbn zeta in Hs. unfold account_unique_reply in Hs.
      destruct (apply_ipdv_sample _ _) as [ipdv_pairs self']. cbn [fst snd] in Hs.
      destruct Hs as (? & ? & Hp & Hu). do 2 (split; [done|]). rewrite Hm. split; [done|].
      cbn [EventStatsUpdate.ipdv_pairs]. rewrite Hp, Hu. apply omap_app.
Qed.

Lemma metrics_new mode late :
  metrics_hold mode late [] (new mode late) ∧ tracker_holds mode late [] (new mode late).
Proof. unfold metrics_hold, tracker_holds. by destruct mode. Qed.

Lemma core_metrics_new mode late evs :
  let '(updates, self) := apply_all evs (new mode late) in
  late_replies self = late ∧ metrics_hold mode late evs self ∧ tracker_holds mode late evs self ∧
  EventStatsUpdate.contributed_sample <$> updates
    = (λ e, bool_decide (is_Some (measured late e))) <$> evs ∧
  concat (EventStatsUpdate.ipdv_pairs <$> updates) = omap pair_update (pairs_of mode late evs).
Proof.
  induction evs as [|e evs IH] using rev_ind; [destruct (metrics_new mode late); by destruct mode|].
  rewrite apply_all_snoc. destruct (apply_all evs _) as [updates self]. destruct IH as (Hl & Hh & Ht & Hu & Hp).
  pose proof (core_metrics_step mode late evs e self Hl Hh Ht) as Hs.
  pose proof (late_replies_apply e self) as Hl'. destruct (apply e self) as [update self'].
  cbn [snd] in Hl'. destruct Hs as (? & ? & Hc & Hpp).
  split; [congruence|]. do 2 (split; [done|]). rewrite !fmap_app, Hu. split.
  - cbn. by rewrite Hc.
  - rewrite concat_app, Hp, Hpp. cbn. by rewrite app_nil_r.
Qed.
End theorems.

(** ** Properties *)
Section properties.
Context `{Measurement}.
Import CoreStats.

(** The counters of any stream of fewer than 2^64 events are exactly what
    the stream contains: each counter the number of its events, no update
    applied twice or to a neighbour, the byte totals saturated sums, and the
    server's received count the highest one reported. *)
Theorem core_counts mode late evs :
  len evs < 2 ^ 64 → Forall event_ok evs →
  let self := (apply_all evs (new mode late)).2 in
  events self = event_counts evs ∧ packets self = packet_counts evs.
Proof.
  apply core_counts_new.
Qed.

(** In any stream, each of the eleven timing metrics accumulates, in order,
    exactly the measurements of the stream: send calls and timer errors of the
    sends, delays of the replies that measure (late ones only under [Measure]),
    and the magnitudes of the delay changes between replies with adjacent
    sequences. The per-event updates report exactly those replies and pairs. *)
Theorem core_metrics mode late evs :
  let '(updates, self) := apply_all evs (new mode late) in
  metrics_hold mode late evs self ∧
  EventStatsUpdate.contributed_sample <$> updates
    = (λ e, bool_decide (is_Some (measured late e))) <$> evs ∧
  concat (EventStatsUpdate.ipdv_pairs <$> updates) = omap pair_update (pairs_of mode late evs).
Proof.
  pose proof (core_metrics_new mode late evs) as Hc. destruct (apply_all _ _) as [updates self].
  destruct Hc as (_ & ? & _ & ? & ?). done.
Qed.
End properties.

(** ** Concrete runs *)
#[local] Instance listed_measurement : Measurement := {|
  TimeAccumulator := list Z;
  TimeStats := Z * Z;
  exact_unbounded := [];
  running := [];
  push_ns acc v := acc ++ [v];
  acc_snapshot acc := (len acc, sum acc);
|}.

Definition example_reply (seq sent received : Z) (count : option Z) : ReplySample.t :=
  ReplySample.mk 60 (received - sent) None None None (Some 2) count None
    (example_sample seq sent received).
Definition example_stream : list StatsEvent.t :=
  [StatsEvent.Sent 10 60 3 (Some 1); StatsEvent.Sent 20 60 4 None;
   StatsEvent.UniqueReply 40 false (example_reply 0 10 40 (Some 1));
   StatsEvent.Sent 45 60 2 None;
   StatsEvent.DuplicateReply 46 60;
   StatsEvent.UniqueReply 70 true (example_reply 1 20 70 (Some 3)); StatsEvent.Loss 90].

Example percent_quarter : percent (to_f64 1) (to_f64 4) = to_f64 25.
Proof. reflexivity. Qed.
Example loss_example :
  LossStats.upstream_loss_packets (loss_stats (packet_counts example_stream) (Some 3)) = Some 0 ∧
  LossStats.downstream_loss_packets (loss_stats (packet_counts example_stream) (Some 3)) = Some 0 ∧
  LossStats.lost_packets (loss_stats (packet_counts example_stream) (Some 3)) = 1.
Proof. vm_compute. auto. Qed.

Lemma core_counts_witness :
  PacketCounts.packets_received
    (CoreStats.packets (apply_all example_stream (CoreStats.new Exact Measure)).2) = 3.
Proof.
  assert (len example_stream < 2 ^ 64) as Hl by reflexivity.
  assert (Forall event_ok example_stream) as Hok.
  { repeat constructor; intros b Hb; cbn in Hb; simplify_eq; lia. }
  destruct (core_counts Exact Measure example_stream Hl Hok) as [_ ->]. reflexivity.
Defined.
