(* ===== verification/Rolling.v ===== *)
(** * irtt-stats: rolling windows

    Models [crates/irtt-stats/src/rolling.rs]: the count window (the
    [CountWindow] of [measurement-stats], a parameter) and the time window, kept
    by the code in a [BTreeMap] ordered by arrival and a [BTreeSet] ordered by
    timestamp. A [BTreeMap] is the list of its bindings in key order. *)

From stdpp Require Import sorting.
From S2P Require Import Prelude ProtoBase ClientBase StatsEvents Ipdv StatsCore.

(** The bounded queue of [measurement-stats]: the law its documentation gives. *)
Class CountWindows := {
  CountWindow : Type → Type;
  window_new {A} : Z → CountWindow A;
  window_push {A} : CountWindow A → A → CountWindow A;
  window_iter {A} : CountWindow A → list A;
}.
Class CountWindowLaws `{CountWindows} := {
  window_last {A} (n : Z) (l : list A) :
    1 <= n → window_iter (foldl window_push (window_new n) l) = drop (length l - Z.to_nat n) l;
}.

(** [Instant::checked_sub] fails before the first instant of the platform. *)
Class FirstInstant := { INSTANT_MIN : Z }.
Definition instant_checked_sub `{FirstInstant} (t d : Z) : option Z :=
  if INSTANT_MIN <=? t - d then Some (t - d) else None.

(** ** Ordered maps *)
Section btree.
Context {K V : Type} (lt : K → K → bool).

(** [BTreeMap::insert]: the value of an equal key is replaced. *)
Fixpoint btree_insert (k : K) (v : V) (m : list (K * V)) : list (K * V) :=
  match m with
  | [] => [(k, v)]
  | (k', v') :: m =>
      if lt k k' then (k, v) :: (k', v') :: m
      else if lt k' k then (k', v') :: btree_insert k v m
      else (k, v) :: m
  end.
(** [BTreeMap::remove]. *)
Fixpoint btree_remove (k : K) (m : list (K * V)) : list (K * V) :=
  match m with
  | [] => []
  | (k', v') :: m =>
      if lt k k' then (k', v') :: m
      else if lt k' k then (k', v') :: btree_remove k m
      else m
  end.
End btree.

(** [type ArrivalKey = (Instant, usize)], with the derived order of pairs. *)
Definition ArrivalKey : Type := Z * Z.
#[export] Instance ArrivalKey_eq_dec : EqDecision ArrivalKey.
Proof. unfold ArrivalKey. apply _. Defined.
Definition key_lt (a b : ArrivalKey) : bool :=
  (a.1 <? b.1) || ((a.1 =? b.1) && (a.2 <? b.2)).
Definition ExpiryKey : Type := Z * ArrivalKey.
Definition expiry_lt (a b : ExpiryKey) : bool :=
  (a.1 <? b.1) || ((a.1 =? b.1) && key_lt a.2 b.2).

(** ** The position of a window in the server's counts *)
Module DirectionalPosition.
Record t : Type := mk {
  packet_events : Z;
  server_received : option Z;
  server_observed_at : Z;
  counter_reset_at : Z;
}.
Definition default : t := mk 0 None 0 0.

(** [u128 + 1]. *)
Definition next (self : t) : Z := wrap_u 128 (packet_events self + 1).

(** The update for a server count. *)
Definition observe (count : Z) (self : t) : t :=
  let self :=
    if match server_received self with
       | Some current => 2 ^ 31 <=? Z.abs (current - count)
       | None => false
       end
    then mk (packet_events self) None (server_observed_at self) (next self)
    else self in
  if match server_received self with Some current => current <=? count | None => true end
  then mk (packet_events self) (Some count) (next self) (counter_reset_at self)
  else self.

Definition advance (event : StatsEvent.t) (self : t) : bool * t :=
  let packet self :=
    (true, mk (next self) (server_received self) (server_observed_at self) (counter_reset_at self)) in
  match event with
  | StatsEvent.UniqueReply _ _ sample =>
      packet (match ReplySample.received_count sample with
              | Some count => observe count self
              | None => self
              end)
  | StatsEvent.Sent _ _ _ _ | StatsEvent.DuplicateReply _ _ | StatsEvent.UntrackedLate _ _ => packet self
  | StatsEvent.Loss _ | StatsEvent.Warning _ => (false, self)
  end.
End DirectionalPosition.

Module RollingEvent.
Record t : Type := mk { event : StatsEvent.t; before : DirectionalPosition.t }.
End RollingEvent.

(** ** The windows *)
Module RollingEvents.
Section rolling.
Context `{CountWindows} `{FirstInstant}.

Record t : Type := mk {
  time_limit : option Z;
  count_events : option (CountWindow RollingEvent.t);
  time_events : option (list (ArrivalKey * RollingEvent.t));
  time_expiry : list (ExpiryKey * unit);
  time_anchor : option Z;
  late_replies : LateReplyMode;
  directional_position : DirectionalPosition.t;
}.

Definition new (config : StatsConfig.t) : t :=
  mk (StatsConfig.rolling_time config) (window_new <$> StatsConfig.rolling_count config)
    ((λ _, []) <$> StatsConfig.rolling_time config) [] None (StatsConfig.late_replies config)
    DirectionalPosition.default.

(** The expiry loop: pops the index while its first timestamp is before the
    cutoff. *)
Fixpoint expire (cutoff : Z) (expiry : list (ExpiryKey * unit))
    (window : list (ArrivalKey * RollingEvent.t))
    : list (ExpiryKey * unit) * list (ArrivalKey * RollingEvent.t) :=
  match expiry with
  | [] => (expiry, window)
  | ((at_, arrival), _) :: rest =>
      if at_ <? cutoff then expire cutoff rest (btree_remove key_lt arrival window)
      else (expiry, window)
  end.

(** The time window's part of [push]. *)
Definition push_time (duration at_ : Z) (event : RollingEvent.t)
    (window : list (ArrivalKey * RollingEvent.t)) (self : t) : t :=
  let anchor := match time_anchor self with Some previous => Z.max previous at_ | None => at_ end in
  let insert expiry window :=
    let arrival := (anchor, len window) in
    mk (time_limit self) (count_events self) (Some (btree_insert key_lt arrival event window))
      (btree_insert expiry_lt (at_, arrival) tt expiry) (Some anchor) (late_replies self)
      (directional_position self) in
  match instant_checked_sub anchor duration with
  | Some cutoff =>
      let '(expiry, window) := expire cutoff (time_expiry self) window in
      if at_ <? cutoff
      then mk (time_limit self) (count_events self) (Some window) expiry (Some anchor)
             (late_replies self) (directional_position self)
      else insert expiry window
  | None => insert (time_expiry self) window
  end.

Definition push (event : StatsEvent.t) (self : t) : t :=
  match count_events self, time_events self with
  | None, None => self
  | _, _ =>
      let at_ := StatsEvent.at_ event in
      let before := directional_position self in
      let event := RollingEvent.mk event before in
      let self := mk (time_limit self)
        ((λ window, window_push window event) <$> count_events self) (time_events self)
        (time_expiry self) (time_anchor self) (late_replies self)
        (DirectionalPosition.advance (RollingEvent.event event) before).2 in
      match time_limit self, time_events self with
      | Some duration, Some window => push_time duration at_ event window self
      | _, _ => self
      end
  end.

End rolling.
End RollingEvents.

(** ** Window snapshots *)
Section snapshots.
Context `{Measurement} `{CountWindows} `{FirstInstant}.
Import DirectionalPosition.

(** The state of the loop of [snapshot_window]. *)
Record Replay : Type := mk_replay {
  core : CoreStats.t;
  start : option DirectionalPosition.t;
  end_ : option DirectionalPosition.t;
  contiguous : bool;
}.

Definition replay_step (r : Replay) (event : RollingEvent.t) : Replay :=
  let '(packet, after) := advance (RollingEvent.event event) (RollingEvent.before event) in
  let r :=
    if packet
    then mk_replay (core r)
      (match start r with Some s => Some s | None => Some (RollingEvent.before event) end)
      (Some after)
      (match end_ r with
       | Some previous =>
           if packet_events previous =? packet_events (RollingEvent.before event)
           then contiguous r else false
       | None => contiguous r
       end)
    else r in
  mk_replay (CoreStats.apply (RollingEvent.event event) (core r)).2 (start r) (end_ r) (contiguous r).

(** [u64 - u64] in a release build. *)
Definition sub_u64 (a b : Z) : Z := wrap_u 64 (a - b).

Definition server_delta (r : Replay) : option Z :=
  match start r, end_ r with
  | Some start, Some end_ =>
      if negb (contiguous r) || negb (counter_reset_at start =? counter_reset_at end_) then None
      else
        baseline ←
          (if packet_events start =? 0 then Some 0
           else if server_observed_at start =? packet_events start then server_received start
           else None);
        (λ count, sub_u64 count baseline) <$> server_received end_
  | _, _ => None
  end.

Definition snapshot_window (events : list RollingEvent.t) (late_replies : LateReplyMode) : Snapshot :=
  let r := foldl replay_step (mk_replay (CoreStats.new RunningOnly late_replies) None None true) events in
  let snap := snapshot (core r) in
  set_loss (loss_stats (snap_packets snap) (server_delta r)) snap.

Definition count_snapshot (self : RollingEvents.t) : option Snapshot :=
  (λ events, snapshot_window (window_iter events) (RollingEvents.late_replies self))
    <$> RollingEvents.count_events self.
Definition time_snapshot (self : RollingEvents.t) : option Snapshot :=
  (λ events, snapshot_window events.*2 (RollingEvents.late_replies self))
    <$> RollingEvents.time_events self.
End snapshots.

(** ** Reference *)

(** Each event with the position before it. *)
Fixpoint positioned (position : DirectionalPosition.t) (evs : list StatsEvent.t)
    : list RollingEvent.t :=
  match evs with
  | [] => []
  | e :: evs =>
      RollingEvent.mk e position :: positioned (DirectionalPosition.advance e position).2 evs
  end.
Definition position_after (position : DirectionalPosition.t) (evs : list StatsEvent.t)
    : DirectionalPosition.t :=
  foldl (λ p e, (DirectionalPosition.advance e p).2) position evs.

Definition event_at (r : RollingEvent.t) : Z := StatsEvent.at_ (RollingEvent.event r).

(** The newest timestamp of a stream. *)
Definition newest_at (evs : list StatsEvent.t) : option Z := highest (StatsEvent.at_ <$> evs).

(** Whether a timestamp is inside the window of [duration] before [anchor]. *)
Definition live `{FirstInstant} (duration : Z) (anchor : option Z) (at_ : Z) : bool :=
  match anchor ≫= λ a, instant_checked_sub a duration with
  | Some cutoff => cutoff <=? at_
  | None => true
  end.

(** ** Ordered maps: lemmas *)
Class KeyOrder {K} (lt : K → K → bool) := {
  key_irrefl a : lt a a = false;
  key_trans a b c : lt a b = true → lt b c = true → lt a c = true;
  key_total a b : lt a b = false → lt b a = false → a = b;
}.

Lemma key_lt_spec a b : key_lt a b = true ↔ a.1 < b.1 ∨ (a.1 = b.1 ∧ a.2 < b.2).
Proof. unfold key_lt. rewrite orb_true_iff, andb_true_iff, !Z.ltb_lt, Z.eqb_eq. done. Qed.
Lemma expiry_lt_spec a b :
  expiry_lt a b = true ↔ a.1 < b.1 ∨ (a.1 = b.1 ∧ key_lt a.2 b.2 = true).
Proof. unfold expiry_lt. rewrite orb_true_iff, andb_true_iff, Z.ltb_lt, Z.eqb_eq. done. Qed.

#[export] Instance key_lt_order : KeyOrder key_lt.
Proof.
  split.
  - intros a. apply not_true_iff_false. rewrite key_lt_spec. lia.
  - intros a b c. rewrite !key_lt_spec. lia.
  - intros [a1 a2] [b1 b2]. rewrite <- !not_true_iff_false, !key_lt_spec. cbn. intros ? ?.
    f_equal; lia.
Qed.
#[export] Instance expiry_lt_order : KeyOrder expiry_lt.
Proof.
  split.
  - intros a. apply not_true_iff_false. rewrite expiry_lt_spec, key_irrefl. naive_solver lia.
  - intros a b c. rewrite !expiry_lt_spec. intros [?|[? Hab]] [?|[? Hbc]]; try (left; lia).
    right. split; [lia|]. eapply key_trans; eassumption.
  - intros [a1 a2] [b1 b2]. rewrite <- !not_true_iff_false, !expiry_lt_spec. cbn. intros Ha Hb.
    assert (a1 = b1) as -> by (destruct (Z.lt_trichotomy a1 b1) as [|[|]]; tauto).
    f_equal. apply key_total; apply not_true_iff_false; tauto.
Qed.

(** Strictly increasing bindings. *)
Definition increasing {K V} (lt : K → K → bool) (m : list (K * V)) : Prop :=
  StronglySorted (λ a b, lt a.1 b.1 = true) m.

Section btree_lemmas.
Context {K V : Type} (lt : K → K → bool) `{!KeyOrder lt}.
Implicit Types (m : list (K * V)) (k : K).

Lemma increasing_inv x m : increasing lt (x :: m) → increasing lt m ∧ ∀ y, y ∈ m → lt x.1 y.1 = true.
Proof. intros Hm. apply StronglySorted_inv in Hm as [Hm Hx]. by rewrite Forall_forall in Hx. Qed.

Lemma increasing_unique m k v v' :
  increasing lt m → (k, v) ∈ m → (k, v') ∈ m → v = v'.
Proof.
  induction m as [|[k0 v0] m IH]; [by intros _ ?%not_elem_of_nil|].
  intros [Hm Hx]%increasing_inv. pose proof (key_irrefl (lt := lt) k0) as Hi. cbn in Hx.
  intros [Heq|Hk]%elem_of_cons [Heq'|Hk']%elem_of_cons; simplify_eq; [done| | |by auto].
  - specialize (Hx _ Hk'). cbn in Hx. congruence.
  - specialize (Hx _ Hk). cbn in Hx. congruence.
Qed.

Lemma btree_insert_last k v m :
  (∀ x, x ∈ m → lt x.1 k = true) → btree_insert lt k v m = m ++ [(k, v)].
Proof.
  induction m as [|[k' v'] m IH]; intros Hm; [done|]. cbn [btree_insert].
  assert (lt k' k = true) as Hk by (apply (Hm (k', v')); left).
  assert (lt k k' = false) as ->.
  { apply not_true_iff_false. intros Hk'. pose proof (key_trans _ _ _ Hk Hk') as Hf.
    by rewrite key_irrefl in Hf. }
  rewrite Hk. cbn [app]. f_equal. apply IH. intros x Hx. apply Hm. by right.
Qed.

Lemma btree_insert_elem k v m x :
  increasing lt m → (k ∉ m.*1) → x ∈ btree_insert lt k v m ↔ x = (k, v) ∨ x ∈ m.
Proof.
  induction m as [|[k' v'] m IH]; intros Hm Hk; [cbn; set_solver|].
  apply increasing_inv in Hm as [Hm _]. cbn [btree_insert].
  rewrite fmap_cons, not_elem_of_cons in Hk. destruct Hk as [Hne Hk]. cbn in Hne.
  destruct (lt k k') eqn:H1; [set_solver|].
  destruct (lt k' k) eqn:H2; [|exfalso; apply Hne; by apply key_total].
  rewrite !elem_of_cons, IH by done. tauto.
Qed.

Lemma btree_insert_increasing k v m : increasing lt m → increasing lt (btree_insert lt k v m).
Proof.
  unfold increasing.
  induction m as [|[k' v'] m IH]; intros Hm; [repeat constructor|].
  pose proof Hm as [Hm' Hx]%increasing_inv. cbn [btree_insert]. cbn in Hx.
  destruct (lt k k') eqn:H1; [|destruct (lt k' k) eqn:H2].
  - constructor; [done|]. apply Forall_forall. intros y [->|Hy]%elem_of_cons; [done|].
    cbn. eapply key_trans; [exact H1|by apply Hx].
  - constructor; [by apply IH|]. apply Forall_forall. intros y Hy.
    assert (y = (k, v) ∨ y ∈ m) as [->|Hym]; [|done|by apply Hx].
    clear -Hy. induction m as [|[a b] m IH]; [by apply list_elem_of_singleton in Hy; left|].
    cbn in Hy. destruct (lt k a); [by apply elem_of_cons in Hy|]. destruct (lt a k).
    + apply elem_of_cons in Hy as [->|Hy]; [right; left|]. destruct (IH Hy); [by left|by right; right].
    + apply elem_of_cons in Hy as [->|Hy]; [by left|by right; right].
  - rewrite (key_total _ _ H1 H2). constructor; [done|]. apply Forall_forall. intros y Hy. cbn. by apply Hx.
Qed.

Lemma btree_remove_filter `{EqDecision K} k m :
  increasing lt m → btree_remove lt k m = filter (λ x, x.1 ≠ k) m.
Proof.
  induction m as [|[k' v'] m IH]; intros Hm; [done|].
  apply increasing_inv in Hm as [Hm Hx]. cbn in Hx. cbn [btree_remove].
  assert (∀ j, (∀ y : K * V, y ∈ m → lt j y.1 = true) → filter (λ x, x.1 ≠ j) m = m) as Hid.
  { intros j Hj. clear -Hj KeyOrder0. induction m as [|y m IH]; [done|]. rewrite filter_cons_True.
    - f_equal. apply IH. intros z Hz. apply Hj. by right.
    - intros <-. specialize (Hj y (list_elem_of_here _ _)). by rewrite key_irrefl in Hj. }
  rewrite filter_cons. cbn. pose proof (key_irrefl (lt := lt) k).
  destruct (lt k k') eqn:H1; [|destruct (lt k' k) eqn:H2].
  - rewrite decide_True by congruence. rewrite Hid; [done|]. intros y Hy.
    eapply key_trans; [exact H1|by apply Hx].
  - rewrite decide_True by congruence. f_equal. by apply IH.
  - rewrite (key_total _ _ H1 H2) in *. rewrite decide_False by tauto. symmetry. by apply Hid.
Qed.

Lemma increasing_filter (P : K * V → Prop) `{∀ x, Decision (P x)} m :
  increasing lt m → increasing lt (filter P m).
Proof.
  unfold increasing. induction 1 as [|x m Hm IH Hx]; [constructor|]. rewrite filter_cons.
  case_decide; [|done]. constructor; [done|]. rewrite Forall_forall in *. intros y Hy.
  apply Hx. by apply list_elem_of_filter in Hy as [_ ?].
Qed.
End btree_lemmas.

Lemma filter_filter_ext {A} (P Q R : A → Prop) `{∀ x, Decision (P x)} `{∀ x, Decision (Q x)}
    `{∀ x, Decision (R x)} (l : list A) :
  (∀ x, x ∈ l → (P x ∧ Q x ↔ R x)) → filter P (filter Q l) = filter R l.
Proof.
  induction l as [|x l IH]; intros Hx; [done|]. rewrite (filter_cons Q), (filter_cons R).
  pose proof (Hx x (list_elem_of_here _ _)) as Hxx.
  specialize (IH (λ y Hy, Hx y (list_elem_of_further _ _ _ Hy))).
  repeat case_decide; rewrite ?filter_cons; repeat case_decide; try tauto; by rewrite IH.
Qed.
Lemma filter_all {A} (P : A → Prop) `{∀ x, Decision (P x)} (l : list A) :
  (∀ x, x ∈ l → P x) → filter P l = l.
Proof.
  induction l as [|x l IH]; intros Hx; [done|]. rewrite filter_cons_True.
  - f_equal. apply IH. intros y Hy. apply Hx. by right.
  - apply Hx. left.
Qed.
Lemma filter_none {A} (P : A → Prop) `{∀ x, Decision (P x)} (l : list A) :
  (∀ x, x ∈ l → ¬ P x) → filter P l = [].
Proof.
  induction l as [|x l IH]; intros Hx; [done|]. rewrite filter_cons_False.
  - apply IH. intros y Hy. apply Hx. by right.
  - apply Hx. left.
Qed.
Lemma filter_snd {A B} (P : B → Prop) (Q : A * B → Prop) `{∀ x, Decision (P x)}
    `{∀ x, Decision (Q x)} (l : list (A * B)) :
  (∀ x, Q x ↔ P x.2) → (filter Q l).*2 = filter P l.*2.
Proof.
  intros Hpq. induction l as [|[a b] l IH]; [done|]. rewrite fmap_cons, !filter_cons.
  specialize (Hpq (a, b)). cbn in Hpq |- *.
  repeat case_decide; try tauto. by rewrite fmap_cons, IH.
Qed.

(** ** The time window *)
Section time_window.
Context `{CountWindows} `{FirstInstant}.
Import RollingEvents.

(** The expiry index mirrors the window. *)
Definition indexed (expiry : list (ExpiryKey * unit)) (window : list (ArrivalKey * RollingEvent.t)) : Prop :=
  ∀ at_ k, ((at_, k), tt) ∈ expiry ↔ ∃ e, (k, e) ∈ window ∧ event_at e = at_.

Lemma expire_ok cutoff expiry window :
  increasing expiry_lt expiry → increasing key_lt window → indexed expiry window →
  let '(expiry', window') := expire cutoff expiry window in
  window' = filter (λ x, cutoff <= event_at x.2) window ∧
  increasing expiry_lt expiry' ∧ indexed expiry' window'.
Proof.
  revert window. induction expiry as [|[[at_ k] []] expiry IH]; intros window He Hw Hi; cbn [expire].
  - destruct window as [|[k e] window]; [by split|]. exfalso.
    assert (((event_at e, k), tt) ∈ []) as Hn; [|by apply not_elem_of_nil in Hn].
    apply Hi. exists e. split; [left|done].
  - pose proof He as [He' Hx]%increasing_inv. destruct (Z.ltb_spec at_ cutoff) as [Hlt|Hge].
    + destruct (proj1 (Hi at_ k)) as (e & Hke & Hat); [left|].
      rewrite (btree_remove_filter key_lt k window Hw).
      specialize (IH (filter (λ x, x.1 ≠ k) window) He').
      destruct (expire cutoff expiry _) as [expiry' window'].
      destruct IH as (-> & ? & ?); [by apply increasing_filter| |].
      * intros at' k'. split.
        -- intros Hin. destruct (proj1 (Hi at' k')) as (e' & Hke' & Hat'); [by right|].
           exists e'. split; [|done]. apply list_elem_of_filter. split; [|done]. cbn. intros ->.
           rewrite (increasing_unique key_lt _ _ _ _ Hw Hke' Hke), Hat in Hat'. subst at'.
           specialize (Hx _ Hin). cbn in Hx. by rewrite key_irrefl in Hx.
        -- intros (e' & Hke' & Hat'). apply list_elem_of_filter in Hke' as [Hne Hke'].
           pose proof (proj2 (Hi at' k') (ex_intro _ e' (conj Hke' Hat'))) as [Heq|Hin]%elem_of_cons; [|done].
           cbn in Hne. congruence.
      * split; [|done]. apply filter_filter_ext. intros [k' e'] Hin. cbn. split; [tauto|].
        intros Hc. split; [done|]. intros ->.
        rewrite (increasing_unique key_lt _ _ _ _ Hw Hin Hke) in Hc. lia.
    + split; [|done]. symmetry. apply filter_all. intros [k' e'] Hin. cbn.
      pose proof (proj2 (Hi (event_at e') k') (ex_intro _ e' (conj Hin eq_refl))) as [Heq|Hin']%elem_of_cons.
      * simplify_eq. done.
      * specialize (Hx _ Hin'). cbn in Hx. apply expiry_lt_spec in Hx. cbn in Hx. lia.
Qed.

Record time_ok (d : Z) (l : list RollingEvent.t) (anchor : option Z) (self : t)
    (window : list (ArrivalKey * RollingEvent.t)) : Prop := {
  time_values : window.*2 = l;
  time_window_increasing : increasing key_lt window;
  time_expiry_increasing : increasing expiry_lt (time_expiry self);
  time_indexed : indexed (time_expiry self) window;
  time_anchored : time_anchor self = anchor;
  time_live : Forall (λ e, live d anchor (event_at e) = true) l;
  time_keys k e : (k, e) ∈ window → ∃ a, anchor = Some a ∧ k.1 <= a ∧ (k.1 = a → k.2 < len window);
}.

Definition later (anchor : option Z) (at_ : Z) : Z :=
  match anchor with Some previous => Z.max previous at_ | None => at_ end.

Lemma live_monotone d anchor at_ at' :
  live d (Some (later anchor at')) at_ = true → live d anchor at_ = true.
Proof.
  unfold live, later, instant_checked_sub. destruct anchor as [a|]; [|done]. cbn.
  destruct (Z.leb_spec INSTANT_MIN (a - d)); [|done].
  destruct (Z.leb_spec INSTANT_MIN (Z.max a at' - d)); [|lia]. rewrite !Z.leb_le. lia.
Qed.

(** Appending an arrival with a key above all others. *)
Lemma insert_arrival d l anchor expiry window at_ ev :
  window.*2 = l → increasing key_lt window → increasing expiry_lt expiry → indexed expiry window →
  (∀ k e, (k, e) ∈ window → k.1 <= anchor ∧ (k.1 = anchor → k.2 < len window)) →
  event_at ev = at_ → Forall (λ e, live d (Some anchor) (event_at e) = true) (l ++ [ev]) →
  ∀ self, time_expiry self = btree_insert expiry_lt (at_, (anchor, len window)) tt expiry →
  time_anchor self = Some anchor →
  time_ok d (l ++ [ev]) (Some anchor) self (btree_insert key_lt (anchor, len window) ev window).
Proof.
  intros Hl Hw He Hi Hk Hat Hlive self Hexp Hanc.
  assert (∀ x, x ∈ window → key_lt x.1 (anchor, len window) = true) as Hlast.
  { intros [k e] Hx. cbn. apply key_lt_spec. cbn. destruct (Hk k e Hx). lia. }
  assert ((at_, (anchor, len window)) ∉ expiry.*1) as Hfresh.
  { intros Hin. apply list_elem_of_fmap in Hin as ([[a k] []] & Heq & Hin). cbn in Heq. simplify_eq.
    apply Hi in Hin as (e & Hin & _). pose proof (Hlast _ Hin) as Hf. cbn in Hf. by rewrite key_irrefl in Hf. }
  pose proof (btree_insert_increasing key_lt (anchor, len window) ev window Hw) as Hw'.
  rewrite (btree_insert_last key_lt) in * by done. split.
  - rewrite fmap_app, Hl. done.
  - done.
  - rewrite Hexp. exact (btree_insert_increasing expiry_lt _ _ _ He).
  - intros a k. rewrite Hexp, (btree_insert_elem expiry_lt _ _ _ _ He Hfresh), (Hi a k : _ ↔ _). split.
    + intros [Heq|(e & Hin & ?)].
      * simplify_eq. exists ev. split; [apply elem_of_app; right; left|done].
      * exists e. split; [apply elem_of_app; by left|done].
    + intros (e & [Hin|Hin]%elem_of_app & Ha); [right; by exists e|left].
      apply list_elem_of_singleton in Hin. by simplify_eq.
  - done.
  - done.
  - intros k e [Hin|Hin]%elem_of_app; rewrite len_app; change (len [_]) with 1.
    + exists anchor. destruct (Hk k e Hin) as [H1 H2]. split; [done|]. split; [done|].
      intros Heq. specialize (H2 Heq). lia.
    + apply list_elem_of_singleton in Hin. simplify_eq. exists anchor. cbn. split; [done|]. lia.
Qed.

(** One arrival: the window becomes the live part of itself and the arrival. *)
Lemma push_time_ok d l anchor self window ev :
  0 <= d → time_ok d l anchor self window →
  let anchor' := later anchor (event_at ev) in
  ∃ window', time_ok d (filter (λ e, live d (Some anchor') (event_at e) = true) (l ++ [ev]))
      (Some anchor') (push_time d (event_at ev) ev window self) window' ∧
    time_events (push_time d (event_at ev) ev window self) = Some window'.
Proof.
  intros Hd [Hl Hw He Hi Ha Hlive Hk] anchor'. unfold push_time. rewrite Ha.
  change (match anchor with Some previous => _ | None => _ end) with anchor'.
  set (keep := λ e, live d (Some anchor') (event_at e) = true).
  (* Either the anchor moved or everything is still live. *)
  assert (∀ k e, (k, e) ∈ window →
    k.1 <= anchor' ∧ (k.1 = anchor' → k.2 < len window ∧ Forall keep l)) as Hk'.
  { intros k e Hin. destruct (Hk k e Hin) as (a & -> & Hle & Hlt). unfold anchor', keep in *. cbn in *.
    split; [lia|]. intros Heq. assert (Z.max a (event_at ev) = a) as -> by lia.
    split; [apply Hlt; lia|done]. }
  destruct (instant_checked_sub anchor' d) as [cutoff|] eqn:Hcut.
  - assert (∀ at_, live d (Some anchor') at_ = (cutoff <=? at_)) as Hkeep.
    { intros at_. unfold live. cbn. by rewrite Hcut. }
    pose proof (expire_ok cutoff _ _ He Hw Hi) as Hx.
    destruct (expire cutoff (time_expiry self) window) as [expiry' window'].
    destruct Hx as (Hw' & He' & Hi').
    assert (window'.*2 = filter keep l) as Hl'.
    { rewrite Hw', <- Hl. apply filter_snd. intros e. unfold keep. by rewrite Hkeep, Z.leb_le. }
    assert (increasing key_lt window') as Hinc by (rewrite Hw'; by apply increasing_filter).
    assert (∀ k e, (k, e) ∈ window' → k.1 <= anchor' ∧ (k.1 = anchor' → k.2 < len window')) as Hk2.
    { intros k e Hin. rewrite Hw' in Hin. apply list_elem_of_filter in Hin as [_ Hin].
      destruct (Hk' k e Hin) as [? Hlt]. split; [done|]. intros [Hlt' Hall]%Hlt.
      replace (len window') with (len window); [done|]. unfold len. f_equal.
      rewrite <- !(length_fmap snd), Hl', Hl, filter_all; [done|]. by apply Forall_forall. }
    rewrite filter_app. destruct (Z.ltb_spec (event_at ev) cutoff) as [Hlt|Hge].
    + exists window'. split; [|done]. rewrite (filter_none keep [ev]), app_nil_r.
      2:{ intros x ->%list_elem_of_singleton. unfold keep. rewrite Hkeep, Z.leb_le. lia. }
      split; try done.
      * apply Forall_forall. by intros e [? _]%list_elem_of_filter.
      * intros k e Hin. exists anchor'. destruct (Hk2 k e Hin). done.
    + rewrite (filter_all keep [ev]).
      2:{ intros x ->%list_elem_of_singleton. unfold keep. rewrite Hkeep, Z.leb_le. lia. }
      eexists. split; [|reflexivity].
      eapply insert_arrival; [done|done|exact He'|done|done|done| |done|done].
      apply Forall_app. split; [|constructor; [|done]].
      * apply Forall_forall. by intros e [? _]%list_elem_of_filter.
      * unfold keep. rewrite Hkeep, Z.leb_le. lia.
  - assert (∀ at_, live d (Some anchor') at_ = true) as Hkeep.
    { intros at_. unfold live. cbn. by rewrite Hcut. }
    rewrite filter_all by (intros x _; apply Hkeep).
    eexists. split; [|reflexivity].
    eapply insert_arrival; [done|done|exact He|done| |done| |done|done].
    + intros k e Hin. destruct (Hk' k e Hin) as [? Hlt]. split; [done|]. by intros [? _]%Hlt.
    + apply Forall_forall. intros e _. apply Hkeep.
Qed.
End time_window.

(** ** Any stream *)
Lemma positioned_snoc p evs e :
  positioned p (evs ++ [e]) = positioned p evs ++ [RollingEvent.mk e (position_after p evs)].
Proof. revert p. induction evs as [|x evs IH]; intros p; [done|]. cbn. by rewrite IH. Qed.

Lemma positioned_events p evs : RollingEvent.event <$> positioned p evs = evs.
Proof. revert p. induction evs as [|x evs IH]; intros p; [done|]. cbn. by rewrite IH. Qed.

Section streams.
Context `{CountWindows} `{FirstInstant}.
Import RollingEvents.

Definition push_all (evs : list StatsEvent.t) (self : t) : t := foldl (λ s e, push e s) self evs.

Record windows_ok (config : StatsConfig.t) (evs : list StatsEvent.t) (self : t) : Prop := {
  ok_limit : time_limit self = StatsConfig.rolling_time config;
  ok_late : late_replies self = StatsConfig.late_replies config;
  ok_position : is_Some (StatsConfig.rolling_count config) ∨ is_Some (StatsConfig.rolling_time config) →
    directional_position self = position_after DirectionalPosition.default evs;
  ok_count : count_events self
    = (λ n, foldl window_push (window_new n) (positioned DirectionalPosition.default evs))
        <$> StatsConfig.rolling_count config;
  ok_time : match StatsConfig.rolling_time config with
    | None => time_events self = None
    | Some d => ∃ window, time_events self = Some window ∧
        time_ok d (filter (λ e, live d (newest_at evs) (event_at e) = true)
                    (positioned DirectionalPosition.default evs)) (newest_at evs) self window
    end;
}.

Lemma windows_new config : windows_ok config [] (new config).
Proof.
  split; try done.
  - destruct config as [? ? [d|] ?]; [|done]. exists []. split; [done|]. split; try done.
    + constructor.
    + constructor.
    + intros a k. cbn. split; [by intros ?%not_elem_of_nil|]. by intros (e & ?%not_elem_of_nil & _).
    + by intros k e ?%not_elem_of_nil.
Qed.

(** What the time window keeps depends on the newest timestamp only. *)
Lemma filter_live_snoc d evs (l : list RollingEvent.t) e :
  filter (λ r, live d (newest_at (evs ++ [e])) (event_at r) = true)
    (filter (λ r, live d (newest_at evs) (event_at r) = true) l)
  = filter (λ r, live d (newest_at (evs ++ [e])) (event_at r) = true) l.
Proof.
  apply filter_filter_ext. intros r _. split; [tauto|]. intros Hr. split; [done|].
  unfold newest_at in *. rewrite fmap_app in Hr. cbn in Hr. rewrite highest_snoc in Hr.
  by apply (live_monotone _ _ _ (StatsEvent.at_ e)).
Qed.

Lemma push_time_fields d at_ ev window self :
  let self' := push_time d at_ ev window self in
  time_limit self' = time_limit self ∧ count_events self' = count_events self ∧
  late_replies self' = late_replies self ∧ directional_position self' = directional_position self.
Proof.
  unfold push_time. destruct (instant_checked_sub _ d) as [cutoff|]; [|done].
  destruct (expire cutoff _ window). by destruct (at_ <? cutoff).
Qed.

Lemma time_ok_same d l anchor self self' window :
  time_expiry self' = time_expiry self → time_anchor self' = time_anchor self →
  time_ok d l anchor self window → time_ok d l anchor self' window.
Proof. intros He Ha [? ? ? ? ? ? ?]. split; congruence || by rewrite ?He. Qed.

(** The record after the count window's part of [push]. *)
Definition counted (e : StatsEvent.t) (self : t) : t :=
  mk (time_limit self)
    ((λ window, window_push window (RollingEvent.mk e (directional_position self))) <$> count_events self)
    (time_events self) (time_expiry self) (time_anchor self) (late_replies self)
    (DirectionalPosition.advance e (directional_position self)).2.

Lemma push_cases e self :
  (count_events self = None ∧ time_events self = None ∧ push e self = self) ∨
  push e self
  = match time_limit self, time_events self with
    | Some d, Some window =>
        push_time d (StatsEvent.at_ e) (RollingEvent.mk e (directional_position self)) window
          (counted e self)
    | _, _ => counted e self
    end.
Proof.
  unfold push, counted. destruct (count_events self), (time_events self);
    solve [by right|by left].
Qed.

Lemma windows_counted config evs e self :
  is_Some (StatsConfig.rolling_count config) ∨ is_Some (StatsConfig.rolling_time config) →
  windows_ok config evs self →
  late_replies (counted e self) = StatsConfig.late_replies config ∧
  directional_position (counted e self) = position_after DirectionalPosition.default (evs ++ [e]) ∧
  count_events (counted e self)
    = (λ n, foldl window_push (window_new n) (positioned DirectionalPosition.default (evs ++ [e])))
        <$> StatsConfig.rolling_count config.
Proof.
  intros Hon [Hlim Hlate Hpos Hcount _]. specialize (Hpos Hon). cbn. rewrite Hcount, Hpos.
  split; [done|]. split; [unfold position_after; by rewrite foldl_app|].
  destruct (StatsConfig.rolling_count config); [|done]. cbn. by rewrite positioned_snoc, foldl_app.
Qed.

Lemma windows_push config evs e self :
  (∀ d, StatsConfig.rolling_time config = Some d → 0 <= d) → windows_ok config evs self →
  windows_ok config (evs ++ [e]) (push e self).
Proof.
  intros Hd Hok. pose proof Hok as [Hlim Hlate Hpos Hcount Htime].
  destruct (decide (is_Some (StatsConfig.rolling_count config) ∨ is_Some (StatsConfig.rolling_time config)))
    as [Hon|Hoff].
  2:{ destruct (StatsConfig.rolling_count config) eqn:Hrc, (StatsConfig.rolling_time config) eqn:Hrt;
        try (exfalso; apply Hoff; solve [left; by eexists|right; by eexists]).
      unfold push. rewrite Hcount, Htime. cbn. by split; rewrite ?Hrc, ?Hrt. }
  destruct (windows_counted config evs e self Hon Hok) as (Hcl & Hcp & Hcc).
  destruct (push_cases e self) as [(Hc & Ht & _)|Hpush]; [|rewrite Hpush].
  { exfalso. rewrite Hcount in Hc. destruct Hon as [[n Hn]|[d Hdd]]; [by rewrite Hn in Hc|].
    rewrite Hdd in Htime. destruct Htime as (window & Hw & _). congruence. }
  rewrite Hlim. destruct (StatsConfig.rolling_time config) as [d|] eqn:Hrt; [|by split; rewrite ?Hrt].
  destruct Htime as (window & Hw & Htok). rewrite Hw.
  set (ev := RollingEvent.mk e (directional_position self)).
  destruct (push_time_fields d (StatsEvent.at_ e) ev window (counted e self)) as (F1 & F2 & F3 & F4).
  destruct (push_time_ok d _ _ (counted e self) window ev (Hd d eq_refl)
    (time_ok_same d _ _ self (counted e self) window eq_refl eq_refl Htok)) as (window' & Htok' & Hw').
  change (event_at ev) with (StatsEvent.at_ e) in *.
  assert (Some (later (newest_at evs) (StatsEvent.at_ e)) = newest_at (evs ++ [e])) as Hnew.
  { unfold newest_at. rewrite fmap_app. cbn. by rewrite highest_snoc. }
  change (time_limit (counted e self)) with (time_limit self) in F1. split; try congruence.
  rewrite Hrt. exists window'. split; [done|]. rewrite Hnew in Htok'.
  rewrite filter_app, filter_live_snoc in Htok'.
  rewrite positioned_snoc, filter_app, <- (Hpos Hon). exact Htok'.
Qed.

Lemma windows_all config evs :
  (∀ d, StatsConfig.rolling_time config = Some d → 0 <= d) →
  windows_ok config evs (push_all evs (new config)).
Proof.
  intros Hd. induction evs as [|e evs IH] using rev_ind; [apply windows_new|].
  unfold push_all. rewrite foldl_app. by apply windows_push.
Qed.
End streams.

(** ** Positions along a stream *)
Import DirectionalPosition.

(** [n] packet events observed, the latest reset among them, 32-bit counts. *)
Record position_ok (n : Z) (p : DirectionalPosition.t) : Prop := {
  position_events : 0 <= packet_events p <= n;
  position_reset : 0 <= counter_reset_at p <= packet_events p;
  position_count c : server_received p = Some c → in_u 32 c;
  position_start : packet_events p = 0 → server_received p = None;
}.

Definition counts_ok (evs : list StatsEvent.t) : Prop := Forall (in_u 32) (omap server_count evs).

(** Either no reset, and the count does not decrease, or a later reset. *)
Definition progress (p q : DirectionalPosition.t) : Prop :=
  packet_events p <= packet_events q ∧
  (counter_reset_at q = counter_reset_at p ∧
     (∀ a, server_received p = Some a → ∃ b, server_received q = Some b ∧ a <= b)
   ∨ packet_events p < counter_reset_at q).

Lemma next_exact n p : position_ok n p → n < 2 ^ 127 → next p = packet_events p + 1.
Proof. intros [? _ _ _] Hn. apply wrap_u_small. unfold in_u. lia. Qed.

Lemma observe_ok n p count :
  position_ok n p → n < 2 ^ 127 → in_u 32 count →
  let q := observe count p in
  packet_events q = packet_events p ∧ 0 <= counter_reset_at q <= packet_events p + 1 ∧
  (∀ c, server_received q = Some c → in_u 32 c) ∧
  (counter_reset_at q = counter_reset_at p ∧
     (∀ a, server_received p = Some a → ∃ b, server_received q = Some b ∧ a <= b)
   ∨ packet_events p < counter_reset_at q).
Proof.
  intros Hp Hn Hc. unfold observe. rewrite (next_exact n p Hp Hn).
  destruct Hp as [Hev Hr Hcount _].
  destruct (server_received p) as [current|] eqn:Hs; cbn.
  - destruct (2 ^ 31 <=? Z.abs (current - count)); cbn.
    + split; [done|]. split; [lia|]. split; [by intros c [= <-]|]. right. lia.
    + rewrite Hs. destruct (Z.leb_spec current count); cbn.
      * split; [done|]. split; [lia|]. split; [by intros c [= <-]|]. left. split; [done|].
        intros a [= <-]. by exists count.
      * split; [done|]. split; [lia|]. split; [by rewrite Hs|]. left. split; [done|].
        intros a [= <-]. exists current. split; [done|lia].
  - rewrite Hs. cbn. split; [done|]. split; [lia|]. split; [by intros c [= <-]|]. by left.
Qed.

Lemma position_advance_ok n p e :
  position_ok n p → n + 1 < 2 ^ 127 → (∀ c, server_count e = Some c → in_u 32 c) →
  position_ok (n + 1) (advance e p).2 ∧ progress p (advance e p).2 ∧
  ((advance e p).1 = false → (advance e p).2 = p) ∧
  ((advance e p).1 = true → packet_events (advance e p).2 = packet_events p + 1).
Proof.
  intros Hp Hn Hc. pose proof (next_exact n p Hp ltac:(lia)) as Hnext.
  assert (∀ q, packet_events q = packet_events p → next q = packet_events p + 1) as Hnq.
  { intros q Hq. rewrite <- Hnext. unfold next. by rewrite Hq. }
  assert (position_ok (n + 1) p) as Hp' by (destruct Hp; split; auto; lia).
  destruct e as [| ? ? sample| | | |]; cbn.
  2:{ destruct (ReplySample.received_count sample) as [count|] eqn:Hrc.
      - destruct (observe_ok n p count Hp ltac:(lia)) as (He & Hr & Hcs & Hpr); [apply Hc; cbn; by rewrite Hrc|].
        rewrite (Hnq _ He). split; [split; cbn; [destruct Hp; lia|lia|done|destruct Hp; lia]|].
        split; [|done]. split; cbn; [lia|]. destruct Hpr; [by left|right; lia].
      - rewrite Hnext. destruct Hp. split; [split; cbn; auto; lia|]. split; [|done]. split; cbn; [lia|].
        left. split; [done|]. intros a ->. by exists a. }
  all: try (split; [done|]; split; [|done]; split; [lia|]; left; split; [done|]; intros a ->; by exists a).
  all: rewrite Hnext; destruct Hp; (split; [split; cbn; auto; lia|]); (split; [|done]);
    (split; cbn; [lia|]); left; (split; [done|]); intros a ->; by exists a.
Qed.

Lemma progress_trans p q r : progress p q → progress q r → progress p r.
Proof.
  intros [H1 H2] [H3 H4]. split; [lia|].
  destruct H4 as [[H4 H5]|H4]; [|right; lia]. destruct H2 as [[H2 H6]|H2]; [|right; lia].
  left. split; [lia|]. intros a (b & Hb & ?)%H6. destruct (H5 b Hb) as (c & ? & ?). exists c. split; [done|lia].
Qed.

Lemma position_after_ok n p evs :
  position_ok n p → n + len evs < 2 ^ 127 → counts_ok evs →
  position_ok (n + len evs) (position_after p evs) ∧ progress p (position_after p evs).
Proof.
  intros Hp. induction evs as [|e evs IH] using rev_ind; intros Hn Hc.
  - cbn. rewrite Z.add_0_r. split; [done|]. split; [done|]. left. split; [done|].
    intros a ->. by exists a.
  - rewrite len_app in *. change (len [e]) with 1 in *. unfold counts_ok in Hc.
    rewrite omap_snoc in Hc. apply Forall_app in Hc as [Hc He].
    destruct IH as [Hq Hpq]; [lia|done|]. unfold position_after. rewrite foldl_app. cbn.
    fold (position_after p evs).
    destruct (position_advance_ok _ _ e Hq) as (Hr & Hqr & _).
    + lia.
    + intros c Hsc. rewrite Hsc in He. by apply Forall_cons in He as [? _].
    + rewrite Z.add_assoc. split; [done|]. by eapply progress_trans.
Qed.

Lemma position_default : position_ok 0 DirectionalPosition.default.
Proof. split; cbn; done. Qed.

(** ** Replaying a window *)
Section replay.
Context `{Measurement}.

Definition replay_window (late : LateReplyMode) (events : list RollingEvent.t) : Replay :=
  foldl replay_step (mk_replay (CoreStats.new RunningOnly late) None None true) events.

Lemma replay_ok late p evs :
  let r := replay_window late (positioned p evs) in
  core r = (apply_all evs (CoreStats.new RunningOnly late)).2 ∧ contiguous r = true ∧
  ((start r = None ∧ end_ r = None ∧ position_after p evs = p)
   ∨ (start r = Some p ∧ end_ r = Some (position_after p evs))).
Proof.
  cbn zeta. induction evs as [|e evs IH] using rev_ind; [by repeat split; auto|].
  unfold replay_window in *. rewrite positioned_snoc, foldl_app, apply_all_snoc.
  unfold position_after. rewrite foldl_app. fold (position_after p evs). cbn [foldl].
  generalize dependent (foldl replay_step (mk_replay (CoreStats.new RunningOnly late) None None true)
    (positioned p evs)).
  intros r (Hcore & Hcont & Hse). unfold replay_step. cbn [RollingEvent.event RollingEvent.before].
  destruct (apply_all evs _) as [us c]. cbn in Hcore. rewrite <- Hcore.
  assert ((advance e (position_after p evs)).1 = false →
    (advance e (position_after p evs)).2 = position_after p evs) as Hskip by (by destruct e).
  destruct (advance e (position_after p evs)) as [packet after]. cbn [fst snd] in *.
  destruct packet; cbn.
  - destruct Hse as [(-> & -> & Hp)|(-> & ->)]; cbn.
    + split; [by destruct (CoreStats.apply e (core r))|]. split; [done|]. right. by rewrite Hp.
    + rewrite Z.eqb_refl. split; [by destruct (CoreStats.apply e (core r))|]. split; [done|]. by right.
  - rewrite (Hskip eq_refl). split; [by destruct (CoreStats.apply e (core r))|]. by split.
Qed.

Lemma server_delta_ok late n p evs v :
  position_ok n p → n + len evs < 2 ^ 127 → counts_ok evs →
  server_delta (replay_window late (positioned p evs)) = Some v →
  counter_reset_at (position_after p evs) = counter_reset_at p ∧
  ∃ b c, server_received (position_after p evs) = Some c ∧
    b = from_option id 0 (server_received p) ∧ b <= c ∧ v = c - b ∧ in_u 32 c.
Proof.
  intros Hp Hn Hc. destruct (position_after_ok n p evs Hp Hn Hc) as [Hq [_ Hprog]].
  destruct (replay_ok late p evs) as (_ & Hcont & Hse). unfold server_delta.
  destruct Hse as [(E1 & _ & _)|[E1 E2]]; rewrite E1; [done|]. rewrite E2, Hcont.
  destruct (Z.eqb_spec (counter_reset_at p) (counter_reset_at (position_after p evs))) as [Hr|]; [|done].
  cbn [negb orb]. intros Hd. split; [done|].
  destruct Hprog as [[_ Hmono]|Hlt]; [|destruct Hp; lia].
  assert (∀ b, b = from_option id 0 (server_received p) →
    ((λ count, sub_u64 count b) <$> server_received (position_after p evs)) = Some v →
    ∃ b c, server_received (position_after p evs) = Some c ∧
      b = from_option id 0 (server_received p) ∧ b <= c ∧ v = c - b ∧ in_u 32 c) as Hfinish.
  { intros b Hb Hv. destruct (server_received (position_after p evs)) as [c|] eqn:Hsc; [|done].
    pose proof (position_count _ _ Hq c Hsc) as Hcu.
    assert (0 <= b <= c) as Hbc.
    { destruct (server_received p) as [a|] eqn:Hsa; cbn in Hb; subst b.
      - destruct (Hmono a eq_refl) as (c' & ? & ?). simplify_eq.
        pose proof (position_count _ _ Hp a Hsa). unfold in_u in *. lia.
      - unfold in_u in Hcu. lia. }
    exists b, c. cbn in Hv. simplify_eq. split; [done|]. split; [done|]. split; [lia|]. split; [|done].
    unfold sub_u64. apply wrap_u_small. unfold in_u in *. lia. }
  destruct (Z.eqb_spec (packet_events p) 0) as [Hz|Hnz].
  - apply (Hfinish 0); [|exact Hd]. by rewrite (position_start _ _ Hp Hz).
  - destruct (server_observed_at p =? packet_events p); [|done].
    destruct (server_received p) as [a|] eqn:Hsa; [|done]. by apply (Hfinish a).
Qed.
End replay.

(** Counts without a jump of half the range between any two of them. *)
Definition steady (evs : list StatsEvent.t) : Prop :=
  ∀ a b, a ∈ omap server_count evs → b ∈ omap server_count evs → Z.abs (a - b) < 2 ^ 31.

Lemma highest_elem l c : highest l = Some c → c ∈ l ∧ ∀ a, a ∈ l → a <= c.
Proof.
  revert c. induction l as [|x l IH] using rev_ind; intros c; [done|].
  rewrite highest_snoc. intros [= <-]. destruct (highest l) as [m|] eqn:Hm.
  - destruct (IH m eq_refl) as [Hin Hmax]. split.
    + rewrite elem_of_app, list_elem_of_singleton. destruct (Z.max_spec m x) as [[_ Heq]|[_ Heq]]; rewrite Heq; auto.
    + intros a [Ha| ->%list_elem_of_singleton]%elem_of_app; [specialize (Hmax a Ha)|]; lia.
  - destruct l; [|done]. split; [left|]. by intros a ->%list_elem_of_singleton.
Qed.

Lemma position_steady evs :
  steady evs → counter_reset_at (position_after DirectionalPosition.default evs) = 0 ∧
  server_received (position_after DirectionalPosition.default evs) = highest (omap server_count evs).
Proof.
  induction evs as [|e evs IH] using rev_ind; intros Hs; [done|].
  assert (steady evs) as Hs'.
  { intros a b Ha Hb. apply Hs; rewrite omap_snoc, elem_of_app; by left. }
  destruct (IH Hs') as [Hr Hc]. unfold position_after. rewrite foldl_app, omap_snoc. cbn.
  fold (position_after DirectionalPosition.default evs).
  destruct e as [| ? ? sample| | | |]; cbn; rewrite ?app_nil_r; try done.
  destruct (ReplySample.received_count sample) as [count|] eqn:Hrc; cbn; rewrite ?app_nil_r; [|done].
  unfold observe. rewrite Hc, highest_snoc.
  destruct (highest (omap server_count evs)) as [m|] eqn:Hm; [|by rewrite Hc].
  pose proof (highest_elem _ _ Hm) as [Hin _].
  assert (Z.abs (m - count) < 2 ^ 31) as Hd.
  { apply Hs; rewrite omap_snoc, elem_of_app; [by left|right]. cbn. rewrite Hrc. left. }
  destruct (Z.leb_spec (2 ^ 31) (Z.abs (m - count))); [lia|]. rewrite Hc.
  destruct (Z.leb_spec m count); cbn; rewrite ?Hc; (split; [done|]); f_equal; lia.
Qed.

(** ** Properties *)
Section properties.
Context `{Measurement} `{CountWindowLaws} `{FirstInstant}.

(** The count window is the last [n] normalized events of the stream. The
    time window is exactly the events of the stream whose timestamp is within
    the duration before the newest timestamp seen, in arrival order and each
    with its own position, whatever the order of the timestamps: an event
    expires when and only when the newest timestamp passes it, backdated events
    are refused or kept by the same cutoff, and the expiry index holds exactly
    the live events. *)
Theorem window_contents config evs :
  (∀ d, StatsConfig.rolling_time config = Some d → 0 <= d) →
  let self := push_all evs (RollingEvents.new config) in
  let all := positioned DirectionalPosition.default evs in
  (∀ n, StatsConfig.rolling_count config = Some n → 1 <= n →
    ∃ window, RollingEvents.count_events self = Some window ∧
      window_iter window = drop (length all - Z.to_nat n) all) ∧
  (∀ d, StatsConfig.rolling_time config = Some d →
    ∃ window, RollingEvents.time_events self = Some window ∧
      window.*2 = filter (λ e, live d (newest_at evs) (event_at e) = true) all ∧
      increasing key_lt window ∧ increasing expiry_lt (RollingEvents.time_expiry self) ∧
      indexed (RollingEvents.time_expiry self) window).
Proof.
  intros Hd. cbn zeta. destruct (windows_all config evs Hd) as [_ _ _ Hcount Htime]. split.
  - intros n Hn Hpos. rewrite Hcount, Hn. eexists. split; [reflexivity|]. by apply window_last.
  - intros d Hdd. rewrite Hdd in Htime. destruct Htime as (window & Hw & [? ? ? ? ? _ _]).
    by exists window.
Qed.

(** A window that has evicted nothing reports what the cumulative collector
    in running mode reports, percentages included: replaying the retained
    events through the window's own path, with its interval-relative server
    count, is the same function as processing them as they came. *)
Theorem full_window evs late :
  len evs < 2 ^ 64 → Forall event_ok evs → counts_ok evs → steady evs →
  snapshot_window (positioned DirectionalPosition.default evs) late
  = snapshot (apply_all evs (CoreStats.new RunningOnly late)).2.
Proof.
  intros Hlen Hok Hc Hs.
  pose proof (core_counts_new RunningOnly late evs Hlen Hok) as [_ Hp].
  destruct (replay_ok late DirectionalPosition.default evs) as (Hcore & Hcont & Hse).
  destruct (position_steady evs Hs) as [Hr Hh]. unfold snapshot_window.
  fold (replay_window late (positioned DirectionalPosition.default evs)). rewrite Hcore.
  assert (server_delta (replay_window late (positioned DirectionalPosition.default evs))
    = highest (omap server_count evs)) as ->.
  { unfold server_delta. destruct Hse as [(E1 & _ & E3)|[E1 E2]]; rewrite E1.
    - by rewrite <- Hh, E3.
    - rewrite E2, Hcont, Hr, Hh. cbn. destruct (highest (omap server_count evs)) as [c|] eqn:Hm; [|done].
      apply highest_elem in Hm as [Hin _]. cbn. f_equal. unfold sub_u64. rewrite Z.sub_0_r.
      apply wrap_u_small. unfold counts_ok in Hc. rewrite Forall_forall in Hc.
      specialize (Hc c Hin). unfold in_u in *. lia. }
  unfold snapshot, set_loss. cbn [snap_packets snap_events snap_send_call snap_timer_error rtt snap_ipdv
    one_way_delay snap_server_processing]. by rewrite Hp.
Qed.

(** The directional loss of a window that starts after the events [before]:
    when a server count is available it is the exact increase of the server's
    count over the window, never a difference taken across a counter wrap, and
    its subtraction does not underflow. On a stream without jumps it is the
    highest count of the whole stream less the highest before the window. *)
Theorem directional_delta late before evs v :
  len before + len evs < 2 ^ 127 → counts_ok (before ++ evs) →
  server_delta (replay_window late
    (positioned (position_after DirectionalPosition.default before) evs)) = Some v →
  0 <= v < 2 ^ 32 ∧
  (∃ c b, server_received (position_after DirectionalPosition.default (before ++ evs)) = Some c ∧
    b = from_option id 0 (server_received (position_after DirectionalPosition.default before)) ∧
    v = c - b) ∧
  (steady (before ++ evs) →
    v = from_option id 0 (highest (omap server_count (before ++ evs)))
        - from_option id 0 (highest (omap server_count before))).
Proof.
  intros Hn Hc Hd. pose proof Hc as Hc'. unfold counts_ok in Hc'. rewrite omap_app in Hc'.
  apply Forall_app in Hc' as [Hcb Hce].
  pose proof (len_nonneg before). pose proof (len_nonneg evs).
  destruct (position_after_ok 0 _ before position_default ltac:(lia) Hcb) as [Hp _].
  destruct (server_delta_ok late _ _ evs v Hp ltac:(lia) Hce Hd) as (_ & b & c & Hrc & Hb & Hle & -> & Hcu).
  unfold position_after in Hrc. rewrite <- foldl_app in Hrc. change (foldl _ _ (before ++ evs)) with
    (position_after DirectionalPosition.default (before ++ evs)) in Hrc.
  assert (0 <= b) as Hb0.
  { subst b. destruct (server_received (position_after _ before)) as [a|] eqn:Ha; cbn; [|lia].
    by apply (position_count _ _ Hp) in Ha as [? _]. }
  split; [unfold in_u in Hcu; lia|]. split; [by exists c, b|]. intros Hs.
  destruct (position_steady _ Hs) as [_ Hh]. rewrite <- Hh, Hrc. cbn. f_equal. subst b.
  assert (steady before) as Hsb.
  { intros x y Hx Hy. apply Hs; rewrite omap_app, elem_of_app; by left. }
  by destruct (position_steady before Hsb) as [_ <-].
Qed.
End properties.

(** ** Concrete runs *)
#[local] Existing Instance listed_measurement.
#[local] Instance listed_windows : CountWindows := {|
  CountWindow A := (Z * list A)%type;
  window_new A n := (n, []);
  window_push A w a := (w.1, drop (S (length w.2) - Z.to_nat w.1) (w.2 ++ [a]));
  window_iter A w := w.2;
|}.
#[local] Instance listed_windows_laws : CountWindowLaws.
Proof.
  split. intros A n l Hn.
  enough (foldl window_push (window_new n) l = (n, drop (length l - Z.to_nat n) l)) as -> by done.
  induction l as [|a l IH] using rev_ind; [done|]. rewrite foldl_app, IH. cbn. f_equal.
  rewrite length_drop, length_app. cbn. rewrite (drop_app_le l [a]) by lia.
  rewrite drop_app_le by (rewrite length_drop; lia). rewrite drop_drop. f_equal. f_equal. lia.
Qed.
#[local] Instance first_instant : FirstInstant := {| INSTANT_MIN := 0 |}.

Definition example_config : StatsConfig.t := StatsConfig.mk RunningOnly (Some 2) (Some 30) Measure.
(** A backdated event at the end. *)
Definition example_backdated : list StatsEvent.t := example_stream ++ [StatsEvent.Warning 62; StatsEvent.Warning 59].

Lemma window_contents_witness :
  ∃ window,
    RollingEvents.time_events (push_all example_backdated (RollingEvents.new example_config)) = Some window ∧
    event_at <$> window.*2 = [70; 90; 62].
Proof.
  assert (∀ d, StatsConfig.rolling_time example_config = Some d → 0 <= d) as Hd by (intros d [= <-]; lia).
  destruct (window_contents example_config example_backdated Hd) as [_ Ht].
  destruct (Ht 30 eq_refl) as (window & Hw & Hl & _). exists window. split; [exact Hw|].
  rewrite Hl. vm_compute. reflexivity.
Defined.

Lemma example_counts : counts_ok example_stream ∧ steady example_stream.
Proof.
  split; [repeat constructor; decide_now|]. intros a b. cbn. rewrite !elem_of_cons, !elem_of_nil. lia.
Qed.

Lemma full_window_witness :
  LossStats.upstream_loss_packets
    (loss (snapshot_window (positioned DirectionalPosition.default example_stream) CountOnly)) = Some 0.
Proof.
  assert (len example_stream < 2 ^ 64) as Hl by reflexivity.
  assert (Forall event_ok example_stream) as Hok.
  { repeat constructor; intros b Hb; cbn in Hb; simplify_eq; lia. }
  destruct example_counts as [Hc Hs].
  rewrite (full_window example_stream CountOnly Hl Hok Hc Hs). vm_compute. reflexivity.
Defined.

Lemma directional_delta_witness :
  server_delta (replay_window Measure (positioned (position_after DirectionalPosition.default
    (take 3 example_stream)) (drop 3 example_stream))) = Some 2 ∧ 0 <= 2 < 2 ^ 32.
Proof.
  assert (server_delta (replay_window Measure (positioned (position_after DirectionalPosition.default
    (take 3 example_stream)) (drop 3 example_stream))) = Some 2) as Hd by (vm_compute; reflexivity).
  split; [exact Hd|].
  exact (proj1 (directional_delta Measure (take 3 example_stream) (drop 3 example_stream) 2
    eq_refl (proj1 example_counts) Hd)).
Defined.
