(* ===== verification/Collector.v ===== *)
(** * irtt-stats: the collector, its memory estimate, and a client's run

    Models [StatsCollector] of [crates/irtt-stats/src/lib.rs] and
    [retention.rs], and composes the collector with the client: the statistics
    of the events a client emits agree with the client's own ledger. *)

From S2P Require Import Prelude ProtoBase Envelope ClientBase ClientNegotiation ClientEvent Machine MachineInv Client ClientTrace ClientProps.
From S2P Require Import StatsEvents Ipdv StatsCore Rolling.

(** ** The collector *)
Module StatsCollector.
Section collector.
Context `{Measurement} `{CountWindows} `{FirstInstant}.

Record t : Type := mk {
  cumulative : CoreStats.t;
  rolling : RollingEvents.t;
}.

Definition new (config : StatsConfig.t) : t :=
  mk (CoreStats.new (StatsConfig.samples config) (StatsConfig.late_replies config))
    (RollingEvents.new config).

Definition process (event : ClientEvent.t) (self : t) : EventStatsUpdate.t * t :=
  match normalize_event event with
  | None => (EventStatsUpdate.default, self)
  | Some stats_event =>
      let '(update, cumulative) := CoreStats.apply stats_event (cumulative self) in
      (update, mk cumulative (RollingEvents.push stats_event (rolling self)))
  end.

Definition snapshot (self : t) : Snapshot := StatsCore.snapshot (cumulative self).
Definition rolling_count (self : t) : option Snapshot := count_snapshot (rolling self).
Definition rolling_time (self : t) : option Snapshot := time_snapshot (rolling self).

Definition process_all (evs : list ClientEvent.t) (self : t) : t :=
  foldl (λ s e, (process e s).2) self evs.
End collector.
End StatsCollector.

(** ** Retention (retention.rs) *)

(** The sizes the compiler gives the structures retained. *)
Class Sizes := {
  SIZE_IPDV_SAMPLE : Z;
  SIZE_ROLLING_EVENT : Z;
  SIZE_REPLY_SAMPLE : Z;
  sizes_small : 0 <= SIZE_IPDV_SAMPLE < 2 ^ 20 ∧ 0 <= SIZE_ROLLING_EVENT < 2 ^ 20 ∧
    0 <= SIZE_REPLY_SAMPLE < 2 ^ 20;
}.

Section retention.
Context `{Sizes}.

Definition GROWTH_FACTOR : Z := 2.
Definition HASH_ENTRY_OVERHEAD : Z := 1.
Definition EXACT_SAMPLES_PER_PROBE : Z := 11.
Definition ROLLING_EVENTS_PER_PROBE : Z := 2.

(** [size_of::<u32>()] is 4 and [size_of::<i128>()] is 16. *)
Definition ipdv_tracker_bytes_per_sample : Z :=
  let sample_entry := 4 + SIZE_IPDV_SAMPLE + HASH_ENTRY_OVERHEAD in
  let order_entry := 4 in
  let completed_entry := 4 + HASH_ENTRY_OVERHEAD in
  sat_u64 (sat_u64 (sample_entry + order_entry) + completed_entry).

Definition exact_bytes (probe_count : Z) : Z :=
  let per_probe := sat_u64 (sat_u64 (EXACT_SAMPLES_PER_PROBE * 16) + ipdv_tracker_bytes_per_sample) in
  sat_u64 (probe_count * per_probe).

Definition running_only_bytes (probe_count : Z) : Z :=
  sat_u64 (Z.min probe_count CONTINUOUS_SEQUENCE_LIMIT * ipdv_tracker_bytes_per_sample).

Definition rolling_bytes_per_event : Z := SIZE_ROLLING_EVENT + SIZE_REPLY_SAMPLE.

Definition rolling_count_bytes (config : StatsConfig.t) (probe_count : Z) : Z :=
  match StatsConfig.rolling_count config with
  | None => 0
  | Some limit =>
      let retained := Z.min (sat_u64 (probe_count * ROLLING_EVENTS_PER_PROBE)) limit in
      sat_u64 (retained * rolling_bytes_per_event)
  end.

Definition estimated_retained_bytes (config : StatsConfig.t) (probe_count : Z) : Z :=
  let cumulative :=
    match StatsConfig.samples config with
    | Exact => exact_bytes probe_count
    | RunningOnly => running_only_bytes probe_count
    end in
  sat_u64 (sat_u64 (cumulative + rolling_count_bytes config probe_count) * GROWTH_FACTOR).

(** ** Saturating arithmetic *)
Lemma sat_u64_mono a b : a <= b → sat_u64 a <= sat_u64 b.
Proof. unfold sat_u64. lia. Qed.
Lemma sat_u64_range z : in_u 64 (sat_u64 z).
Proof. unfold in_u, sat_u64, U64_MAX. change (2 ^ 64) with 18446744073709551616. lia. Qed.

Lemma tracker_bytes : ipdv_tracker_bytes_per_sample = SIZE_IPDV_SAMPLE + 14.
Proof.
  unfold ipdv_tracker_bytes_per_sample, HASH_ENTRY_OVERHEAD, sat_u64, U64_MAX.
  destruct sizes_small. change (2 ^ 20) with 1048576 in *. change (2 ^ 64) with 18446744073709551616. lia.
Qed.
Lemma rolling_bytes : 0 <= rolling_bytes_per_event.
Proof. unfold rolling_bytes_per_event. destruct sizes_small as (? & ? & ?). lia. Qed.

Lemma exact_bytes_eq n : 0 <= n → exact_bytes n = sat_u64 (n * (SIZE_IPDV_SAMPLE + 190)).
Proof.
  intros Hn. unfold exact_bytes. rewrite tracker_bytes. f_equal. f_equal.
  unfold EXACT_SAMPLES_PER_PROBE, sat_u64, U64_MAX. destruct sizes_small.
  change (2 ^ 20) with 1048576 in *. change (2 ^ 64) with 18446744073709551616. lia.
Qed.

Lemma rolling_count_mono config n m :
  0 <= n <= m → rolling_count_bytes config n <= rolling_count_bytes config m.
Proof.
  intros Hn. unfold rolling_count_bytes, ROLLING_EVENTS_PER_PROBE.
  destruct (StatsConfig.rolling_count config) as [limit|]; [|done]. apply sat_u64_mono.
  apply Z.mul_le_mono_nonneg_r; [apply rolling_bytes|]. apply Z.min_le_compat_r, sat_u64_mono. lia.
Qed.
End retention.

(** The memory estimate. It is a [u64] that never decreases with the number
    of probes; in running mode it stops growing once the tracker's 4096
    sequences and the rolling window are full; in exact mode the largest probe
    count saturates it instead of wrapping. *)
Theorem retention_estimate `{Sizes} config n m :
  0 <= n <= m → (∀ l, StatsConfig.rolling_count config = Some l → 0 <= l <= U64_MAX) →
  in_u 64 (estimated_retained_bytes config m) ∧
  estimated_retained_bytes config n <= estimated_retained_bytes config m ∧
  (StatsConfig.samples config = RunningOnly →
    CONTINUOUS_SEQUENCE_LIMIT <= n →
    (∀ l, StatsConfig.rolling_count config = Some l → l <= ROLLING_EVENTS_PER_PROBE * n) →
    estimated_retained_bytes config n = estimated_retained_bytes config m) ∧
  (StatsConfig.samples config = Exact → estimated_retained_bytes config U64_MAX = U64_MAX).
Proof.
  intros Hn Hlimit. unfold estimated_retained_bytes. split; [apply sat_u64_range|].
  pose proof (rolling_count_mono config n m Hn) as Hroll.
  split; [|split].
  - apply sat_u64_mono, Z.mul_le_mono_nonneg_r; [done|]. apply sat_u64_mono, Z.add_le_mono; [|done].
    destruct (StatsConfig.samples config).
    + unfold running_only_bytes. rewrite tracker_bytes. apply sat_u64_mono.
      destruct sizes_small. apply Z.mul_le_mono_nonneg_r; lia.
    + rewrite !exact_bytes_eq by lia. apply sat_u64_mono. destruct sizes_small.
      apply Z.mul_le_mono_nonneg_r; lia.
  - intros -> Hceil Hfull. f_equal. f_equal. f_equal. f_equal.
    + unfold running_only_bytes, CONTINUOUS_SEQUENCE_LIMIT in *. f_equal. f_equal. lia.
    + unfold rolling_count_bytes, ROLLING_EVENTS_PER_PROBE in *.
      destruct (StatsConfig.rolling_count config) as [l|]; [|done].
      specialize (Hlimit l eq_refl). specialize (Hfull l eq_refl). f_equal. f_equal.
      unfold sat_u64, U64_MAX in *. lia.
  - intros ->. rewrite exact_bytes_eq by done.
    assert (0 <= rolling_count_bytes config U64_MAX) as Hr.
    { unfold rolling_count_bytes. destruct (StatsConfig.rolling_count config); [|done].
      by destruct (sat_u64_range (Z.min (sat_u64 (U64_MAX * ROLLING_EVENTS_PER_PROBE)) z * rolling_bytes_per_event)). }
    assert (sat_u64 (U64_MAX * (SIZE_IPDV_SAMPLE + 190)) = U64_MAX) as ->.
    { destruct sizes_small. unfold sat_u64. change U64_MAX with 18446744073709551615. lia. }
    unfold GROWTH_FACTOR, sat_u64. change U64_MAX with 18446744073709551615 in *. lia.
Qed.

(** ** Events of a client *)

Definition is_answer (e : ClientEvent.t) : bool :=
  match e with
  | ClientEvent.EchoReply _ _ _ _ _ _ _ _ _ _ => true
  | ClientEvent.LateReply _ _ _ (Some _) _ _ _ _ _ _ _ => true
  | _ => false
  end.
Definition answer_seq (e : ClientEvent.t) : option Z :=
  match e with
  | ClientEvent.EchoReply seq _ _ _ _ _ _ _ _ _ => Some seq
  | ClientEvent.LateReply seq _ _ (Some _) _ _ _ _ _ _ _ => Some seq
  | _ => None
  end.
Definition send_seq (e : ClientEvent.t) : option Z :=
  match e with ClientEvent.EchoSent seq _ _ _ _ _ _ => Some seq | _ => None end.

Definition count_of (k : Z) (l : list Z) : Z := len (filter (λ x, x = k) l).

Lemma count_of_app k l l' : count_of k (l ++ l') = count_of k l + count_of k l'.
Proof. unfold count_of. by rewrite filter_app, len_app. Qed.
Lemma count_of_cons k x l : count_of k (x :: l) = of_bool (bool_decide (x = k)) + count_of k l.
Proof.
  unfold count_of. case_bool_decide.
  - by rewrite filter_cons_True, len_cons.
  - by rewrite filter_cons_False.
Qed.
Lemma count_of_pos k l : 0 < count_of k l → k ∈ l.
Proof.
  induction l as [|x l IH]; [done|]. rewrite count_of_cons. case_bool_decide as Hx; [subst; left|].
  intros Hl. right. by apply IH.
Qed.

(** Element-wise fewer occurrences: a shorter list. *)
Lemma count_of_len l l' : (∀ k, count_of k l <= count_of k l') → len l <= len l'.
Proof.
  revert l'. induction l as [|x l IH]; intros l' Hk; [apply len_nonneg|].
  assert (x ∈ l') as (l1 & l2 & ->)%list_elem_of_split.
  { apply count_of_pos. specialize (Hk x). rewrite count_of_cons, bool_decide_true in Hk by done.
    pose proof (len_nonneg (filter (λ y, y = x) l)). unfold count_of in *. cbn in *. lia. }
  rewrite len_app, !len_cons. enough (len l <= len (l1 ++ l2)) by (rewrite len_app in *; lia).
  apply IH. intros k. specialize (Hk k). rewrite !count_of_app, !count_of_cons in *. lia.
Qed.

Lemma tally_count (f : ClientEvent.t → bool) (g : ClientEvent.t → option Z) k evs :
  (∀ e, f e = bool_decide (g e = Some k)) → tally f evs = count_of k (omap g evs).
Proof.
  intros Hf. induction evs as [|e evs IH]; [done|]. rewrite tally_cons, IH, Hf. cbn.
  destruct (g e) as [j|]; cbn; [|done]. rewrite count_of_cons. f_equal.
  repeat case_bool_decide; naive_solver.
Qed.

Lemma tally_len (f : ClientEvent.t → bool) (g : ClientEvent.t → option Z) evs :
  (∀ e, f e = bool_decide (is_Some (g e))) → tally f evs = len (omap g evs).
Proof.
  intros Hf. induction evs as [|e evs IH]; [done|]. rewrite tally_cons, IH, Hf. cbn.
  destruct (g e) as [j|]; [by rewrite len_cons|done].
Qed.

Lemma some_eqb a k : (a =? k) = bool_decide (Some a = Some k).
Proof. apply Bool.eq_true_iff_eq. rewrite Z.eqb_eq, bool_decide_eq_true. naive_solver. Qed.

Lemma answers_total evs :
  (∀ k, tally (answers k) evs <= tally (sends k) evs) → tally is_answer evs <= tally is_send evs.
Proof.
  intros Hk. rewrite (tally_len is_answer answer_seq), (tally_len is_send send_seq).
  - apply count_of_len. intros k. specialize (Hk k).
    rewrite (tally_count (answers k) answer_seq k), (tally_count (sends k) send_seq k) in Hk; [done| |];
      intros e; destruct e as [| | | | | | |? ? ? []|]; try done; apply some_eqb.
  - by intros [].
  - by intros [| | | | | | |? ? ? []|].
Qed.

Lemma normalized_counts evs :
  occurrences is_sent (omap normalize_event evs) = tally is_send evs ∧
  occurrences (is_unique false) (omap normalize_event evs)
    + occurrences (is_unique true) (omap normalize_event evs) <= tally is_answer evs.
Proof.
  induction evs as [|e evs [IHs IHu]] using rev_ind; [done|].
  rewrite omap_snoc, !tally_app, !tally_cons, !tally_nil.
  destruct e as [| | | | | | |? ? ? [] ? []|]; cbn; rewrite ?app_nil_r, ?occurrences_snoc; cbn; lia.
Qed.

Lemma omap_len {A B} (f : A → option B) l : len (omap f l) <= len l.
Proof.
  induction l as [|x l IH]; [done|]. cbn. destruct (f x); rewrite ?len_cons; lia.
Qed.

Lemma occurrences_le f l : occurrences f l <= len l.
Proof.
  unfold occurrences. induction l as [|x l IH]; [done|]. rewrite filter_cons.
  case_decide; rewrite ?len_cons; lia.
Qed.

Section client_statistics.
Context `{Clocks} `{Target} `{!HmacMd5} `{Measurement} `{CountWindows} `{FirstInstant}.
Import StatsCollector.

(** The collector's two halves see the normalized stream. *)
Lemma process_all_ok config evs :
  let self := process_all evs (new config) in
  cumulative self
    = (apply_all (omap normalize_event evs)
         (CoreStats.new (StatsConfig.samples config) (StatsConfig.late_replies config))).2 ∧
  rolling self = push_all (omap normalize_event evs) (RollingEvents.new config).
Proof.
  cbn zeta. induction evs as [|e evs IH] using rev_ind; [done|].
  unfold process_all. rewrite foldl_app. cbn [foldl]. fold (process_all evs (new config)).
  rewrite omap_snoc. unfold process. destruct (normalize_event e) as [n|]; cbn [option_list snd].
  - change (option_list (Some n)) with [n]. rewrite apply_all_snoc.
    destruct IH as [Hc Hr]. unfold push_all. rewrite foldl_app. cbn [foldl].
    fold (push_all (omap normalize_event evs) (RollingEvents.new config)). rewrite <- Hr.
    destruct (apply_all _ _) as [us c]. cbn in Hc. rewrite Hc. by destruct (CoreStats.apply n c).
  - change (option_list (@None StatsEvent.t)) with (@nil StatsEvent.t). by rewrite app_nil_r.
Qed.

(** C23: the statistics of a client's run. For every reachable client, a
    collector fed with the events it emitted counts as sent exactly the probes
    the client's own ledger counts, counts no more unique replies than probes
    sent, and so reports as lost exactly the difference, without saturation;
    every received packet is a unique, duplicate or untracked reply. *)
Theorem client_statistics config remote t c evs stats :
  config_ok config → reachable config remote t c evs → len evs < 2 ^ 64 →
  let self := process_all evs (new stats) in
  let packets := snap_packets (snapshot self) in
  PacketCounts.packets_sent packets = Machine.packets_sent (Client.runtime c) ∧
  PacketCounts.unique_replies packets <= PacketCounts.packets_sent packets ∧
  LossStats.lost_packets (loss (snapshot self))
    = PacketCounts.packets_sent packets - PacketCounts.unique_replies packets ∧
  PacketCounts.packets_received packets
    = PacketCounts.unique_replies packets + PacketCounts.duplicates packets
      + EventCounts.untracked_late_replies (snap_events (snapshot self)).
Proof.
  intros Hc Hr Hlen. cbn zeta. unfold snapshot, StatsCore.snapshot. cbn [snap_packets snap_events loss].
  destruct (process_all_ok stats evs) as [-> _].
  pose proof (omap_len normalize_event evs) as Hol.
  destruct (counters_new (StatsConfig.samples stats) (StatsConfig.late_replies stats)
    (omap normalize_event evs) (Z.le_lt_trans _ _ _ Hol Hlen)) as [He Hp]. cbn zeta in He, Hp. rewrite He.
  generalize dependent (CoreStats.packets (apply_all (omap normalize_event evs)
    (CoreStats.new (StatsConfig.samples stats) (StatsConfig.late_replies stats))).2).
  intros p Hp. injection Hp as P1 P2 P3 P4 P5 P6 P7.
  destruct (normalized_counts evs) as [Hs Hu].
  destruct (reachable_good config remote t c evs Hc Hr) as [_ [Hled Hk]].
  assert (tally is_answer evs <= tally is_send evs) as Htot.
  { apply answers_total. intros k. specialize (Hk k). pose proof (count_nonneg k (pending_of (Client.runtime c))).
    pose proof (count_nonneg k (retained_of (Client.runtime c))).
    destruct (SessionMachine.state (Client.runtime c)); lia. }
  pose proof (tally_nonneg is_send evs). rewrite P1, P2, P3, P4. cbn.
  pose proof (Z.le_lt_trans _ _ _ (occurrences_le is_sent (omap normalize_event evs))
    (Z.le_lt_trans _ _ _ Hol Hlen)) as Hmax.
  pose proof (occurrences_nonneg (is_unique false) (omap normalize_event evs)).
  pose proof (occurrences_nonneg (is_unique true) (omap normalize_event evs)).
  split; [by rewrite Hled|]. split; [lia|]. split; [|lia].
  unfold loss_stats. destruct (PacketCounts.server_packets_received p); cbn; rewrite P1, P3;
    unfold sat_u64, U64_MAX; lia.
Qed.
End client_statistics.

(** ** Concrete runs *)
Section example.
#[local] Existing Instances target64 toy_hmac example_clocks listed_measurement listed_windows first_instant.

Lemma client_statistics_witness :
  PacketCounts.packets_sent (snap_packets (StatsCollector.snapshot
    (StatsCollector.process_all example_events (StatsCollector.new StatsConfig.default)))) = 1.
Proof.
  assert (len example_events < 2 ^ 64) as Hl by (vm_compute; reflexivity).
  destruct (client_statistics client_config example_remote 6000 example_sent example_events
    StatsConfig.default client_config_ok example_sent_reachable Hl) as [-> _].
  vm_compute. reflexivity.
Defined.
End example.

(** The sizes of a 64-bit build. *)
Definition example_sizes : Sizes.
Proof.
  refine {| SIZE_IPDV_SAMPLE := 208; SIZE_ROLLING_EVENT := 144; SIZE_REPLY_SAMPLE := 384 |}; lia.
Defined.

Lemma retention_estimate_witness :
  @estimated_retained_bytes example_sizes StatsConfig.continuous 1_000_000
  = @estimated_retained_bytes example_sizes StatsConfig.continuous 10_000_000.
Proof.
  apply (@retention_estimate example_sizes StatsConfig.continuous 1_000_000 10_000_000); done.
Defined.
