(* ===== verification/AppTargets.v ===== *)
(** * irtt-app: target declarations

    Models [crates/irtt-app/src/shared/client/targets.rs] and [shared/hmac.rs]: the
    target syntax of arguments and of stdin records, the labels of a target set, and
    the expansion of host names into address families. Text is the bytes of a Rust
    [&str]: the delimiters and the escape are ASCII, which no byte of a longer
    character is, so a walk over bytes meets them where one over characters does.
    The [hex] crate is the class [HexCrate]; what the resolver answers is an
    argument. *)

From S2P Require Import Prelude Envelope ClientBase ManagedBase Endpoint Fill.

(** ** Keys (hmac.rs) *)
(** [hex::decode], an [Err] being [None]; it reads what [hex::encode] writes. *)
Class HexCrate := {
  hex_decode : bytes → option bytes;
}.
Class HexLaws `{HexCrate} := {
  hex_decode_encode key : bytes_ok key → hex_decode (hex_body key) = Some key;
}.

Definition starts_with (prefix text : bytes) : bool := bool_decide (take (length prefix) text = prefix).

Definition decode_hmac_key `{HexCrate} (input : bytes) : Result string bytes :=
  key ← (if starts_with (str "0x") input
         then ok_or (hex_decode (drop 2 input))
                "HMAC hexadecimal key must contain an even number of valid hexadecimal digits"
         else Ok input);
  if bool_decide (key = []) then Err "HMAC key must not be empty" else Ok key.

(** ** Syntax *)
Inductive TargetParseError : Type :=
  | EmptyLabel
  | EmptyAddress
  | InvalidEscape
  | EmptyTarget
  | InvalidHmac (message : string).

Definition target_parse_error (e : TargetParseError) : string :=
  match e with
  | EmptyLabel => "target label must not be empty"
  | EmptyAddress => "target address must not be empty"
  | InvalidEscape => "invalid target escape sequence"
  | EmptyTarget => "target must not be empty"
  | InvalidHmac message => message
  end.

Module TargetSpec.
Record t : Type := mk { label : bytes; addr : bytes; auth : TargetAuth }.
End TargetSpec.
#[export] Instance TargetSpec_eq_dec : EqDecision TargetSpec.t.
Proof. solve_decision. Defined.

Definition BACKSLASH : Z := 92.
Definition EQUALS : Z := 61.
Definition SEMICOLON : Z := 59.
Definition COMMA : Z := 44.
Definition AT : Z := 64.

(** The walk over a text: [part] is [&input[start..index]]. *)
Fixpoint split_parts (delimiter : Z) (escaped : bool) (part : bytes) (input : bytes)
    : Result TargetParseError (list bytes) :=
  match input with
  | [] => if escaped then Err InvalidEscape else Ok [part]
  | ch :: rest =>
      if escaped then split_parts delimiter false (part ++ [ch]) rest
      else if ch =? BACKSLASH then split_parts delimiter true (part ++ [ch]) rest
      else if ch =? delimiter then
        parts ← split_parts delimiter false [] rest; Ok (part :: parts)
      else split_parts delimiter false (part ++ [ch]) rest
  end.
Definition split_unescaped (input : bytes) (delimiter : Z) : Result TargetParseError (list bytes) :=
  split_parts delimiter false [] input.

(** The first unescaped place from which [found] holds of the text. *)
Fixpoint find_unescaped (found : bytes → bool) (escaped : bool) (index : nat) (input : bytes)
    : Result TargetParseError (option nat) :=
  match input with
  | [] => if escaped then Err InvalidEscape else Ok None
  | ch :: rest =>
      if escaped then find_unescaped found false (S index) rest
      else if ch =? BACKSLASH then find_unescaped found true (S index) rest
      else if found input then Ok (Some index)
      else find_unescaped found false (S index) rest
  end.
Definition first_unescaped (input : bytes) (delimiter : Z) : Result TargetParseError (option nat) :=
  find_unescaped (λ text, bool_decide (head text = Some delimiter)) false 0 input.

Definition HMAC_MODIFIER : bytes := str "@hmac=".
Definition hmac_modifier (input : bytes) : Result TargetParseError (option nat) :=
  find_unescaped (starts_with HMAC_MODIFIER) false 0 input.

Definition escapable (ch : Z) : bool :=
  (ch =? BACKSLASH) || (ch =? EQUALS) || (ch =? SEMICOLON) || (ch =? COMMA) || (ch =? AT).

Fixpoint unescape_from (escaped : bool) (input : bytes) : Result TargetParseError bytes :=
  match input with
  | [] => if escaped then Err InvalidEscape else Ok []
  | ch :: rest =>
      if escaped then
        if escapable ch then output ← unescape_from false rest; Ok (ch :: output) else Err InvalidEscape
      else if ch =? BACKSLASH then unescape_from true rest
      else output ← unescape_from false rest; Ok (ch :: output)
  end.
Definition unescape (input : bytes) : Result TargetParseError bytes := unescape_from false input.

Definition parse_target_syntax `{HexCrate} (input : bytes)
    : Result TargetParseError (option bytes * bytes * TargetAuth) :=
  if bool_decide (input = []) then Err EmptyTarget
  else
    modifier ← hmac_modifier input;
    '(main, auth) ←
      match modifier with
      | Some index =>
          value ← unescape (drop (index + length HMAC_MODIFIER) input);
          auth ← (if bool_decide (value = []) then Ok (Override Unauthenticated)
                  else key ← map_err InvalidHmac (decode_hmac_key value); Ok (Override (HmacAuth key)));
          Ok (take index input, auth)
      | None => Ok (input, Inherit)
      end;
    equals ← first_unescaped main EQUALS;
    '(label, address) ←
      match equals with
      | None => address ← unescape main; Ok (None, address)
      | Some index =>
          label ← unescape (take index main);
          address ← unescape (drop (index + 1) main);
          Ok (Some label, address)
      end;
    if bool_decide (label = Some []) then Err EmptyLabel
    else if bool_decide (address = []) then Err EmptyAddress
    else Ok (label, address, auth).

(** ** Target sets *)
Definition HASH : Z := 35.
Definition numbered (addr : bytes) (count : Z) : bytes :=
  if count =? 1 then addr else addr ++ HASH :: str (pretty count).

(** The loop over the arguments from the [index]-th on. *)
Fixpoint label_targets `{HexCrate} (index : Z) (unlabeled_counts : gmap bytes Z) (targets : list bytes)
    : Result string (list TargetSpec.t) :=
  match targets with
  | [] => Ok []
  | target :: targets =>
      '(explicit_label, addr, auth) ←
        map_err (λ error, "invalid target " +:+ pretty (index + 1) +:+ ": " +:+ target_parse_error error)
          (parse_target_syntax target);
      let '(label, unlabeled_counts) :=
        match explicit_label with
        | Some label => (label, unlabeled_counts)
        | None =>
            let count := default 0 (unlabeled_counts !! addr) + 1 in
            (numbered addr count, <[addr := count]> unlabeled_counts)
        end in
      specs ← label_targets (index + 1) unlabeled_counts targets;
      Ok (TargetSpec.mk label addr auth :: specs)
  end.

Definition target_specs_with_empty `{HexCrate} (targets : list bytes) (allow_empty : bool)
    : Result string (list TargetSpec.t) :=
  specs ← label_targets 0 ∅ targets;
  if bool_decide (specs = []) && negb allow_empty
  then Err "at least one target is required unless --list-columns is set"
  else if bool_decide (NoDup (TargetSpec.label <$> specs)) then Ok specs
  else Err "duplicate target label".

Definition target_specs `{HexCrate} (targets : list bytes) : Result string (list TargetSpec.t) :=
  target_specs_with_empty targets false.

Definition parse_stdin_target_set `{HexCrate} (record : bytes) (maximum_targets : Z)
    : Result string (list TargetSpec.t) :=
  if bool_decide (record = str "[]") then Ok []
  else
    elements ← map_err target_parse_error (split_unescaped record COMMA);
    if maximum_targets <? len elements
    then Err ("target set exceeds the " +:+ pretty maximum_targets +:+ "-target limit")
    else target_specs_with_empty elements true.

(** ** Address families *)
Module PreparedTarget.
Record t : Type := mk { label : bytes; managed : ManagedTargetConfig.t }.
End PreparedTarget.

(** Which families a name resolved to: [[ipv4; ipv6]]. *)
Definition Families : Type := bool * bool.

Module TargetPreparation.
Record t : Type := mk {
  family : AddressFamily;
  dual_stack : bool;
  discovered : gmap bytes (bytes * Families);
}.
Definition new (family : AddressFamily) (dual_stack : bool) : t := mk family dual_stack ∅.
End TargetPreparation.
Import TargetPreparation.

Inductive IpFamily : Type := LiteralV4 | LiteralV6.
Definition family_of (addr : SocketAddr) : IpFamily := if is_ipv4 addr then LiteralV4 else LiteralV6.

(** [str::parse::<IpAddr>], of which only the family is looked at. *)
Definition parse_ip_addr : bytes → option IpFamily := parse_with (λ text,
  match read_ipv4_addr text with
  | Some (_, text) => Some (LiteralV4, text)
  | None => '(_, text) ← read_ipv6_addr text; Some (LiteralV6, text)
  end).

Definition literal_ip (endpoint : bytes) : option IpFamily :=
  match parse_socket_addr endpoint with
  | Some addr => Some (family_of addr)
  | None =>
      match parse_ip_addr endpoint with
      | Some ip => Some ip
      | None =>
          if bool_decide (head endpoint = Some LBRACKET) && bool_decide (last endpoint = Some RBRACKET)
          then family_of <$> parse_socket_addr (endpoint ++ default_port_suffix)
          else None
      end
  end.

Definition discovery_endpoint (endpoint : bytes) : Result string (bytes * Z) :=
  match rsplit_colon endpoint with
  | Some (host, port) =>
      port ← ok_or (parse_u16 port) "invalid server port";
      if bool_decide (host = []) || bool_decide (COLON ∈ host) || bool_decide (head host = Some LBRACKET)
      then Err "invalid server endpoint"
      else Ok (host, port)
  | None => Ok (endpoint, DEFAULT_PORT)
  end.

Definition discovery_families (result : option (list SocketAddr)) : Result string Families :=
  addrs ← ok_or result "DNS lookup failed";
  let families := fold_left (λ '(v4, v6) addr, if is_ipv6 addr then (v4, true) else (true, v6)) addrs (false, false) in
  if bool_decide (families = (false, false)) then Err "DNS lookup returned no usable addresses" else Ok families.

Definition expand_target (spec : TargetSpec.t) (families : option Families) : list PreparedTarget.t :=
  let selections :=
    match families with
    | None => [(TargetSpec.label spec, None)]
    | Some (v4, v6) =>
        (if v4 then [(TargetSpec.label spec ++ str "/v4", Some Ipv4)] else []) ++
        (if v6 then [(TargetSpec.label spec ++ str "/v6", Some Ipv6)] else [])
    end in
  (λ '(label, family),
     PreparedTarget.mk label
       (ManagedTargetConfig.mk label (TargetSpec.addr spec) family (TargetSpec.auth spec))) <$> selections.

(** How one declaration is resolved: its families, what is remembered of them, and
    the endpoint looked up, if any. [answer] is the resolver's. *)
Definition select_families (self : TargetPreparation.t) (answer : bytes * Z → option (list SocketAddr))
    (spec : TargetSpec.t) : Result string (option Families * option (bytes * Z)) :=
  match literal_ip (TargetSpec.addr spec) with
  | Some ip =>
      match family self, ip with
      | Ipv4, LiteralV6 => Err "IPv6 literal conflicts with --ipv4"
      | Ipv6, LiteralV4 => Err "IPv4 literal conflicts with --ipv6"
      | _, _ => Ok (None, None)
      end
  | None =>
      if dual_stack self then
        let lookup :=
          endpoint ← discovery_endpoint (TargetSpec.addr spec);
          families ← discovery_families (answer endpoint);
          Ok (Some families, Some endpoint) in
        match discovered self !! TargetSpec.label spec with
        | Some (addr, families) =>
            if bool_decide (addr = TargetSpec.addr spec) then Ok (Some families, None) else lookup
        | None => lookup
        end
      else Ok (None, None)
  end.

(** The loop's state: the targets so far, the new memory, the labels used and the
    endpoints looked up. *)
Module Preparing.
Record t : Type := mk {
  targets : list PreparedTarget.t;
  discovered : gmap bytes (bytes * Families);
  labels : list bytes;
  lookups : list (bytes * Z);
}.
End Preparing.

(** [labels.insert(..)] of each expansion in turn. *)
Fixpoint push_targets (new : list PreparedTarget.t) (s : Preparing.t) : Result string Preparing.t :=
  match new with
  | [] => Ok s
  | target :: new =>
      if bool_decide (PreparedTarget.label target ∈ Preparing.labels s)
      then Err "duplicate target label after address-family expansion"
      else push_targets new
             (Preparing.mk (Preparing.targets s ++ [target]) (Preparing.discovered s)
                (PreparedTarget.label target :: Preparing.labels s) (Preparing.lookups s))
  end.

Definition prepare_spec (self : TargetPreparation.t) (answer : bytes * Z → option (list SocketAddr))
    (maximum_targets : option Z) (index : Z) (spec : TargetSpec.t) (s : Preparing.t) : Result string Preparing.t :=
  '(families, looked_up) ←
    map_err (λ error, "target " +:+ pretty (index + 1) +:+ ": " +:+ error) (select_families self answer spec);
  let s := Preparing.mk (Preparing.targets s)
    (match families with
     | Some families => <[TargetSpec.label spec := (TargetSpec.addr spec, families)]> (Preparing.discovered s)
     | None => Preparing.discovered s end)
    (Preparing.labels s) (Preparing.lookups s ++ option_list looked_up) in
  s ← push_targets (expand_target spec families) s;
  match maximum_targets with
  | Some maximum =>
      if maximum <? len (Preparing.targets s)
      then Err ("target set exceeds the " +:+ pretty maximum +:+ "-target limit after address-family expansion")
      else Ok s
  | None => Ok s
  end.

(** The loop over the declarations, the [index]-th lookup answered by [answers]. *)
Fixpoint prepare_specs (self : TargetPreparation.t) (answers : Z → bytes * Z → option (list SocketAddr))
    (maximum_targets : option Z) (index : Z) (specs : list TargetSpec.t) (s : Preparing.t)
    : Result string Preparing.t :=
  match specs with
  | [] => Ok s
  | spec :: specs =>
      s ← prepare_spec self (answers index) maximum_targets index spec s;
      prepare_specs self answers maximum_targets (index + 1) specs s
  end.

(** [TargetPreparation::prepare], with the endpoints it looked up. *)
Definition prepare (self : TargetPreparation.t) (answers : Z → bytes * Z → option (list SocketAddr))
    (specs : list TargetSpec.t) (maximum_targets : option Z)
    : Result string (list PreparedTarget.t * TargetPreparation.t * list (bytes * Z)) :=
  s ← prepare_specs self answers maximum_targets 0 specs (Preparing.mk [] ∅ [] []);
  Ok (Preparing.targets s, TargetPreparation.mk (family self) (dual_stack self) (Preparing.discovered s),
      Preparing.lookups s).

(** ** Writing declarations *)
(** Every delimiter escaped. *)
Definition escape (text : bytes) : bytes := text ≫= λ ch, if escapable ch then [BACKSLASH; ch] else [ch].

(** A key is written in hexadecimal, so any key can be. *)
Definition key_text (key : bytes) : bytes := str "0x" ++ hex_body key.
Definition declare_auth (auth : TargetAuth) : bytes :=
  match auth with
  | Inherit => []
  | Override Unauthenticated => HMAC_MODIFIER
  | Override (HmacAuth key) => HMAC_MODIFIER ++ escape (key_text key)
  end.
Definition declare_path (spec : TargetSpec.t) : bytes :=
  escape (TargetSpec.label spec) ++ [EQUALS] ++ escape (TargetSpec.addr spec).
Definition declare (spec : TargetSpec.t) : bytes := declare_path spec ++ declare_auth (TargetSpec.auth spec).

(** A record of a set: elements framed by commas. *)
Fixpoint declare_elements (spec : TargetSpec.t) (specs : list TargetSpec.t) : bytes :=
  match specs with
  | [] => declare spec
  | next :: specs => declare spec ++ COMMA :: declare_elements next specs
  end.
Definition declare_set (specs : list TargetSpec.t) : bytes :=
  match specs with [] => str "[]" | spec :: specs => declare_elements spec specs end.

(** A spec that has a declaration. *)
Definition declarable (spec : TargetSpec.t) : Prop :=
  TargetSpec.label spec ≠ [] ∧ TargetSpec.addr spec ≠ [] ∧
  match TargetSpec.auth spec with Override (HmacAuth key) => key ≠ [] ∧ bytes_ok key | _ => True end.

(** ** Lemmas on the walks *)
Lemma escape_cons ch text : escape (ch :: text) = (if escapable ch then [BACKSLASH; ch] else [ch]) ++ escape text.
Proof. done. Qed.

Lemma escape_nil text : escape text = [] → text = [].
Proof. destruct text as [|ch text]; [done|]. rewrite escape_cons. by destruct (escapable ch). Qed.

Lemma backslash_escapable ch : escapable ch = false → (ch =? BACKSLASH) = false.
Proof. unfold escapable. by destruct (ch =? BACKSLASH). Qed.

Lemma unescape_escape text : unescape (escape text) = Ok text.
Proof.
  unfold unescape. induction text as [|ch text IH]; [done|]. rewrite escape_cons.
  destruct (escapable ch) eqn:Hc; cbn.
  - by rewrite Hc, IH.
  - by rewrite (backslash_escapable _ Hc), IH.
Qed.

(** An escaped text holds none of the places looked for. *)
Lemma find_escape found index text rest :
  (∀ ch l, found (ch :: l) = true → escapable ch = true) →
  find_unescaped found false index (escape text ++ rest)
  = find_unescaped found false (index + length (escape text)) rest.
Proof.
  intros Hf. revert index. induction text as [|ch text IH]; intros index; [by rewrite Nat.add_0_r|].
  rewrite escape_cons. destruct (escapable ch) eqn:Hc; cbn.
  - rewrite IH. f_equal. lia.
  - rewrite (backslash_escapable _ Hc). destruct (found _) eqn:Hd; [by rewrite (Hf _ _ Hd) in Hc|].
    rewrite IH. f_equal. lia.
Qed.

Lemma find_skip found index l rest :
  Forall (λ ch, ch ≠ BACKSLASH ∧ ∀ k, found (ch :: k) = false) l →
  find_unescaped found false index (l ++ rest) = find_unescaped found false (index + length l) rest.
Proof.
  intros Hl. revert index. induction Hl as [|ch l [Hb Hd] _ IH]; intros index; [by rewrite Nat.add_0_r|].
  cbn. rewrite Hd, (proj2 (Z.eqb_neq _ _) Hb), IH. f_equal. lia.
Qed.

(** Text that framing by [d] passes over. *)
Definition passes (d : Z) (x : bytes) : Prop :=
  ∀ part rest, split_parts d false part (x ++ rest) = split_parts d false (part ++ x) rest.

Lemma passes_app d x y : passes d x → passes d y → passes d (x ++ y).
Proof. intros Hx Hy part rest. rewrite <- app_assoc, Hx, Hy. by rewrite app_assoc. Qed.

Lemma passes_escape d text : escapable d = true → passes d (escape text).
Proof.
  intros Hd. induction text as [|ch text IH]; [intros part rest; by rewrite app_nil_r|].
  rewrite escape_cons. apply passes_app; [|done]. intros part rest. destruct (escapable ch) eqn:Hc; cbn.
  - by rewrite <- app_assoc.
  - rewrite (backslash_escapable _ Hc). destruct (Z.eqb_spec ch d) as [->|]; [congruence|done].
Qed.

Lemma passes_plain d x : Forall (λ ch, ch ≠ BACKSLASH ∧ ch ≠ d) x → passes d x.
Proof.
  induction 1 as [|ch x [Hb Hd] _ IH]; [intros part rest; by rewrite app_nil_r|].
  change (ch :: x) with ([ch] ++ x). apply passes_app; [|done]. intros part rest. cbn.
  by rewrite (proj2 (Z.eqb_neq _ _) Hb), (proj2 (Z.eqb_neq _ _) Hd).
Qed.

Lemma split_end d x : passes d x → split_unescaped x d = Ok [x].
Proof. intros Hx. unfold split_unescaped. rewrite <- (app_nil_r x) at 1. by rewrite Hx. Qed.

Lemma split_element d x rest :
  passes d x → d ≠ BACKSLASH → split_unescaped (x ++ d :: rest) d = (λ l, x :: l) <$> split_unescaped rest d.
Proof.
  intros Hx Hd. unfold split_unescaped. rewrite Hx. cbn. rewrite (proj2 (Z.eqb_neq _ _) Hd), Z.eqb_refl.
  by destruct (split_parts d false [] rest).
Qed.

(** ** Declarations read back *)
Section roundtrip.
Context `{HexCrate} {laws : HexLaws}.

Lemma decode_key_text key : key ≠ [] → bytes_ok key → decode_hmac_key (key_text key) = Ok key.
Proof.
  intros Hn Hb. unfold decode_hmac_key, key_text, starts_with.
  rewrite bool_decide_true by done. cbn [drop app str fmap list_fmap String.list_ascii_of_string].
  rewrite drop_0, hex_decode_encode by done. cbn. by rewrite bool_decide_false.
Qed.

Lemma starts_with_escapable ch l : starts_with HMAC_MODIFIER (ch :: l) = true → escapable ch = true.
Proof. unfold starts_with. intros [= -> _]%bool_decide_eq_true. done. Qed.

Lemma modifier_path spec rest :
  find_unescaped (starts_with HMAC_MODIFIER) false 0 (declare_path spec ++ rest)
  = find_unescaped (starts_with HMAC_MODIFIER) false (length (declare_path spec)) rest.
Proof.
  unfold declare_path. rewrite <- !app_assoc, (find_escape _ _ _ _ starts_with_escapable).
  rewrite find_skip by (repeat constructor; done). rewrite (find_escape _ _ _ _ starts_with_escapable).
  f_equal. rewrite !length_app. cbn. lia.
Qed.

Lemma modifier_found rest index :
  find_unescaped (starts_with HMAC_MODIFIER) false index (HMAC_MODIFIER ++ rest) = Ok (Some index).
Proof. done. Qed.

Lemma path_nonempty spec : declare_path spec ≠ [].
Proof. unfold declare_path. intros Hp. apply (f_equal length) in Hp. rewrite !length_app in Hp. cbn in Hp. lia. Qed.

(** The label and the address of a path. *)
Lemma path_equals spec :
  first_unescaped (declare_path spec) EQUALS = Ok (Some (length (escape (TargetSpec.label spec)))).
Proof.
  unfold first_unescaped, declare_path. rewrite find_escape.
  - by cbn.
  - intros ch l. rewrite bool_decide_eq_true. by intros [= ->].
Qed.

Lemma declare_parsed spec :
  declarable spec →
  parse_target_syntax (declare spec)
  = Ok (Some (TargetSpec.label spec), TargetSpec.addr spec, TargetSpec.auth spec).
Proof.
  intros (Hl & Ha & Hk). unfold parse_target_syntax.
  rewrite bool_decide_false; [|intros [Hp _]%app_eq_nil; by apply path_nonempty in Hp].
  assert (hmac_modifier (declare spec)
    = Ok (match TargetSpec.auth spec with Inherit => None | _ => Some (length (declare_path spec)) end)) as ->.
  { unfold hmac_modifier, declare. rewrite modifier_path.
    destruct (TargetSpec.auth spec) as [|[|key]]; [done..|]. apply modifier_found. }
  assert (∀ main auth', main = declare_path spec → auth' = TargetSpec.auth spec →
    (equals ← first_unescaped main EQUALS;
     '(label, address) ←
       match equals with
       | None => address ← unescape main; Ok (None, address)
       | Some index =>
           label ← unescape (take index main); address ← unescape (drop (index + 1) main); Ok (Some label, address)
       end;
     if bool_decide (label = Some []) then Err EmptyLabel
     else if bool_decide (address = []) then Err EmptyAddress
     else Ok (label, address, auth'))
    = Ok (Some (TargetSpec.label spec), TargetSpec.addr spec, TargetSpec.auth spec)) as Hmain.
  { intros main auth' -> ->. rewrite path_equals. cbn [mbind Result_bind]. unfold declare_path.
    rewrite take_app_length, unescape_escape. cbn [mbind Result_bind].
    rewrite drop_app_ge by lia. replace (_ + 1 - _)%nat with 1%nat by lia. cbn [drop app].
    rewrite drop_0, unescape_escape. cbn [mbind Result_bind]. by rewrite !bool_decide_false by congruence. }
  unfold declare. destruct (TargetSpec.auth spec) as [|[|key]] eqn:Hau; cbn [mbind Result_bind declare_auth].
  - rewrite app_nil_r. by apply Hmain.
  - rewrite drop_ge by (rewrite length_app; lia). cbn. rewrite take_app_length. by apply Hmain.
  - rewrite drop_app_ge by lia. replace (_ + length HMAC_MODIFIER - _)%nat with (length HMAC_MODIFIER) by lia.
    rewrite drop_app_length, unescape_escape. cbn [mbind Result_bind]. rewrite bool_decide_false by done.
    destruct Hk as [Hk1 Hk2]. rewrite decode_key_text by done. cbn [mbind Result_bind map_err].
    rewrite take_app_length. by apply Hmain.
Qed.

Lemma hmac_plain : Forall (λ ch, ch ≠ BACKSLASH ∧ ch ≠ COMMA) HMAC_MODIFIER.
Proof. repeat constructor; done. Qed.

Lemma declare_passes spec : passes COMMA (declare spec).
Proof.
  unfold declare, declare_path, declare_auth. repeat apply passes_app; try by apply passes_escape.
  - by apply passes_plain; repeat constructor.
  - destruct (TargetSpec.auth spec) as [|[|key]]; [by apply passes_plain|apply passes_plain, hmac_plain|].
    apply passes_app; [apply passes_plain, hmac_plain|by apply passes_escape].
Qed.

Lemma split_declared spec specs :
  split_unescaped (declare_elements spec specs) COMMA = Ok (declare <$> (spec :: specs)).
Proof.
  revert spec. induction specs as [|next specs IH]; intros spec; cbn [declare_elements].
  - by rewrite (split_end _ _ (declare_passes spec)).
  - rewrite split_element by (apply declare_passes || done). by rewrite IH.
Qed.

Lemma labels_declared index counts specs :
  Forall declarable specs → label_targets index counts (declare <$> specs) = Ok specs.
Proof.
  intros Hd. revert index counts. induction Hd as [|spec specs Hs _ IH]; intros index counts; [done|].
  cbn [fmap list_fmap label_targets]. rewrite declare_parsed by done. cbn. rewrite IH. cbn.
  by destruct spec.
Qed.

Lemma declared_framed spec specs : declare_elements spec specs ≠ str "[]".
Proof.
  intros Hd. assert (EQUALS ∈ declare spec) as Hin.
  { unfold declare, declare_path. rewrite !elem_of_app, list_elem_of_singleton. auto. }
  assert (EQUALS ∈ str "[]") as Hbad; [|revert Hbad; by apply (bool_decide_unpack _)].
  rewrite <- Hd. destruct specs; cbn; [done|]. apply elem_of_app. by left.
Qed.
End roundtrip.

(** ** Preparing a set *)
Section preparing.
Context (self : TargetPreparation.t) (answers : Z → bytes * Z → option (list SocketAddr)).

Definition Selection : Type := option Families * option (bytes * Z).

(** What each declaration came to, from the [index]-th on. *)
Definition selected (index : Z) (specs : list TargetSpec.t) (sel : list Selection) : Prop :=
  length sel = length specs ∧
  ∀ i spec s, specs !! i = Some spec → sel !! i = Some s →
    select_families self (answers (index + Z.of_nat i)) spec = Ok s.

Definition expansions (specs : list TargetSpec.t) (sel : list Selection) : list PreparedTarget.t :=
  concat (zip_with (λ spec s, expand_target spec s.1) specs sel).

Definition remember (memory : gmap bytes (bytes * Families)) (spec : TargetSpec.t) (s : Selection)
    : gmap bytes (bytes * Families) :=
  match s.1 with
  | Some families => <[TargetSpec.label spec := (TargetSpec.addr spec, families)]> memory
  | None => memory
  end.
Definition remember_all (memory : gmap bytes (bytes * Families)) (specs : list TargetSpec.t) (sel : list Selection)
    : gmap bytes (bytes * Families) :=
  foldl (λ memory '(spec, s), remember memory spec s) memory (zip specs sel).

Definition labels_ok (s : Preparing.t) : Prop :=
  NoDup (Preparing.labels s) ∧ Preparing.labels s ≡ₚ PreparedTarget.label <$> Preparing.targets s.

Lemma push_targets_ok new s s' :
  labels_ok s → push_targets new s = Ok s' →
  labels_ok s' ∧ Preparing.targets s' = Preparing.targets s ++ new ∧
  Preparing.discovered s' = Preparing.discovered s ∧ Preparing.lookups s' = Preparing.lookups s.
Proof.
  revert s. induction new as [|target new IH]; intros s Hs; cbn.
  - intros [= <-]. by rewrite app_nil_r.
  - case_bool_decide as Hin; [done|]. intros Hp. destruct Hs as [Hn Hl].
    apply IH in Hp as (Hs' & -> & -> & ->); [cbn; by rewrite <- app_assoc|]. split; cbn.
    + by constructor.
    + rewrite fmap_app, Hl. cbn. by rewrite Permutation_app_comm.
Qed.

Lemma prepare_spec_ok maximum index spec s s' :
  labels_ok s → prepare_spec self (answers index) maximum index spec s = Ok s' →
  ∃ sel, select_families self (answers index) spec = Ok sel ∧ labels_ok s' ∧
    Preparing.targets s' = Preparing.targets s ++ expand_target spec sel.1 ∧
    Preparing.discovered s' = remember (Preparing.discovered s) spec sel ∧
    Preparing.lookups s' = Preparing.lookups s ++ option_list sel.2 ∧
    match maximum with Some m => len (Preparing.targets s') <= m | None => True end.
Proof.
  intros Hs. unfold prepare_spec. destruct (select_families self (answers index) spec) as [[families looked]|e|]; try done.
  cbn. intros (s1 & Hp & Hm)%bind_ok. apply push_targets_ok in Hp as (Hs1 & Ht & Hd & Hl); [|done].
  cbn in Ht, Hd, Hl. exists (families, looked).
  assert (s1 = s' ∧ match maximum with Some m => len (Preparing.targets s1) <= m | None => True end) as [<- Hmax].
  { destruct maximum as [m|]; [|by injection Hm as ->].
    destruct (Z.ltb_spec m (len (Preparing.targets s1))); [done|]. by injection Hm as ->. }
  unfold remember. by destruct families.
Qed.

Lemma prepare_specs_ok maximum index specs s s' :
  labels_ok s → match maximum with Some m => len (Preparing.targets s) <= m | None => True end →
  prepare_specs self answers maximum index specs s = Ok s' →
  ∃ sel, selected index specs sel ∧ labels_ok s' ∧
    Preparing.targets s' = Preparing.targets s ++ expansions specs sel ∧
    Preparing.discovered s' = remember_all (Preparing.discovered s) specs sel ∧
    Preparing.lookups s' = Preparing.lookups s ++ omap snd sel ∧
    match maximum with Some m => len (Preparing.targets s') <= m | None => True end.
Proof.
  revert index s. induction specs as [|spec specs IH]; intros index s Hs Hmax; cbn.
  - intros [= <-]. exists []. unfold expansions. cbn. rewrite !app_nil_r. split; [|done]. split; [done|]. by intros [].
  - intros (s1 & H1 & Hp)%bind_ok.
    apply prepare_spec_ok in H1 as (s0 & Hs0 & Hs1 & Ht1 & Hd1 & Hl1 & Hm1); [|done].
    apply IH in Hp as (sel & [Hlen Hsel] & Hs' & Ht & Hd & Hl & Hm); [|done..].
    exists (s0 :: sel). split.
    { split; [cbn; lia|]. intros [|i] spec' s2; cbn.
      - intros [= <-] [= <-]. by rewrite Z.add_0_r.
      - intros Hi Hj. replace (index + Z.of_nat (S i)) with (index + 1 + Z.of_nat i) by lia. by apply Hsel. }
    split; [done|]. unfold expansions in *. cbn. split; [by rewrite Ht, Ht1, <- app_assoc|].
    split; [by rewrite Hd, Hd1|]. split; [|done]. rewrite Hl, Hl1, <- app_assoc. by destruct s0 as [? []].
Qed.

Lemma prepared_ok specs maximum targets next lookups :
  match maximum with Some m => 0 <= m | None => True end →
  prepare self answers specs maximum = Ok (targets, next, lookups) →
  ∃ sel, selected 0 specs sel ∧ targets = expansions specs sel ∧ NoDup (PreparedTarget.label <$> targets) ∧
    family next = family self ∧ dual_stack next = dual_stack self ∧
    discovered next = remember_all ∅ specs sel ∧ lookups = omap snd sel ∧
    match maximum with Some m => len targets <= m | None => True end.
Proof.
  intros Hm. unfold prepare. intros (s & Hp & [= <- <- <-])%bind_ok.
  apply prepare_specs_ok in Hp as (sel & Hsel & [Hn Hl] & Ht & Hd & Hlo & Hmax); [| |by destruct maximum].
  - exists sel. cbn in *. rewrite Ht in *. repeat (split; [done|]). split; [by rewrite <- Hl|]. done.
  - split; [constructor|done].
Qed.
End preparing.

(** ** What is remembered *)
Definition with_lookups (lookups : list (bytes * Z)) (s : Preparing.t) : Preparing.t :=
  Preparing.mk (Preparing.targets s) (Preparing.discovered s) (Preparing.labels s) lookups.

Lemma push_with_lookups new s s' l :
  push_targets new s = Ok s' → push_targets new (with_lookups l s) = Ok (with_lookups l s').
Proof.
  revert s. induction new as [|target new IH]; intros s; cbn; [by intros [= <-]|].
  case_bool_decide; [done|]. by intros Hp%IH.
Qed.

Lemma remember_absent memory specs sel l :
  l ∉ TargetSpec.label <$> specs → remember_all memory specs sel !! l = memory !! l.
Proof.
  unfold remember_all. revert memory sel. induction specs as [|spec specs IH]; intros memory sel Hl; [done|].
  apply not_elem_of_cons in Hl as [Hne Hl]. destruct sel as [|s sel]; [done|]. cbn. rewrite IH by done.
  unfold remember. destruct s.1; [|done]. by rewrite lookup_insert_ne.
Qed.

Lemma remember_at memory specs sel i spec s :
  NoDup (TargetSpec.label <$> specs) → specs !! i = Some spec → sel !! i = Some s →
  remember_all memory specs sel !! TargetSpec.label spec
  = match s.1 with Some families => Some (TargetSpec.addr spec, families) | None => memory !! TargetSpec.label spec end.
Proof.
  revert memory sel i. induction specs as [|spec' specs IH]; intros memory sel i Hn Hi Hs; [done|].
  destruct sel as [|s' sel]; [done|]. apply NoDup_cons in Hn as [Hni Hn]. destruct i as [|i]; cbn in Hi, Hs.
  - injection Hi as ->. injection Hs as ->. unfold remember_all. cbn.
    pose proof (remember_absent (remember memory spec s) specs sel (TargetSpec.label spec) Hni) as Ha.
    unfold remember_all in Ha. rewrite Ha. unfold remember. destruct s.1; [|done]. by rewrite lookup_insert_eq.
  - pose proof (IH (remember memory spec' s') sel i Hn Hi Hs) as Ha. unfold remember_all in *. cbn. rewrite Ha.
    destruct s.1; [done|]. unfold remember. destruct s'.1; [|done]. rewrite lookup_insert_ne; [done|].
    intros Heq. apply Hni. rewrite Heq. apply list_elem_of_fmap. exists spec. split; [done|]. by apply list_elem_of_lookup_2 in Hi.
Qed.

(** A selection made once is made again without a lookup. *)
Lemma selected_again self next answer later spec families looked :
  family next = family self → dual_stack next = dual_stack self →
  select_families self answer spec = Ok (families, looked) →
  match families with
  | Some f => discovered next !! TargetSpec.label spec = Some (TargetSpec.addr spec, f)
  | None => True
  end →
  select_families next later spec = Ok (families, None).
Proof.
  unfold select_families. intros -> ->. destruct (literal_ip _) as [ip|].
  - destruct (family self), ip; by intros [= <- <-].
  - destruct (dual_stack self); [|by intros [= <- <-]].
    assert (∀ r, (endpoint ← discovery_endpoint (TargetSpec.addr spec);
                  families ← discovery_families (answer endpoint);
                  Ok (Some families, Some endpoint)) = r → r = Ok (families, looked) → ∃ f, families = Some f) as Hlook.
    { intros r <- (endpoint & _ & (f & _ & [= <- _])%bind_ok)%bind_ok. eauto. }
    intros Hs Hm. assert (∃ f, families = Some f) as [f ->].
    { destruct (discovered self !! _) as [[addr f]|]; [|by eapply Hlook].
      case_bool_decide; [injection Hs as <- _; eauto|by eapply Hlook]. }
    by rewrite Hm, bool_decide_true.
Qed.

Section kept.
Context (self next : TargetPreparation.t) (answers later : Z → bytes * Z → option (list SocketAddr)).

(** Two preparations whose selections agree do the same, lookups apart. *)
Lemma prepare_specs_agree maximum index specs s s' l :
  (∀ i spec, specs !! i = Some spec → ∃ families looked,
     select_families self (answers (index + Z.of_nat i)) spec = Ok (families, looked) ∧
     select_families next (later (index + Z.of_nat i)) spec = Ok (families, None)) →
  prepare_specs self answers maximum index specs s = Ok s' →
  prepare_specs next later maximum index specs (with_lookups l s) = Ok (with_lookups l s').
Proof.
  revert index s. induction specs as [|spec specs IH]; intros index s Hsel; cbn [prepare_specs]; [by intros [= <-]|].
  intros (s1 & H1 & Hp)%bind_ok.
  destruct (Hsel 0%nat spec eq_refl) as (families & looked & Hs & Hn). rewrite Z.add_0_r in Hs, Hn.
  assert (prepare_spec next (later index) maximum index spec (with_lookups l s) = Ok (with_lookups l s1)) as ->.
  { revert H1. unfold prepare_spec. rewrite Hs, Hn. cbn. intros (s2 & Hpush & Hmax)%bind_ok.
    apply (push_with_lookups _ _ _ l) in Hpush. unfold with_lookups in Hpush at 1. cbn in Hpush.
    cbn. rewrite app_nil_r, Hpush. cbn. destruct maximum as [m|]; [|by injection Hmax as ->].
    destruct (m <? _); [done|]. by injection Hmax as ->. }
  cbn. apply IH; [|done]. intros i spec' Hi. replace (index + 1 + Z.of_nat i) with (index + Z.of_nat (S i)) by lia.
  by apply Hsel.
Qed.
End kept.

(** A declared set, against the limit. *)
Lemma declared_set_outcome `{HexCrate} `{!HexLaws} specs maximum :
  Forall declarable specs → NoDup (TargetSpec.label <$> specs) →
  parse_stdin_target_set (declare_set specs) maximum
  = if bool_decide (specs = []) || (len specs <=? maximum) then Ok specs
    else Err ("target set exceeds the " +:+ pretty maximum +:+ "-target limit").
Proof.
  intros Hd Hn. unfold parse_stdin_target_set. destruct specs as [|spec specs]; [done|]. cbn [declare_set].
  rewrite (bool_decide_false _ (declared_framed spec specs)), split_declared. cbn [map_err mbind Result_bind].
  rewrite bool_decide_false by done. cbn [orb]. rewrite len_fmap.
  destruct (Z.ltb_spec maximum (len (spec :: specs))), (Z.leb_spec (len (spec :: specs)) maximum); try lia; [done|].
  unfold target_specs_with_empty. rewrite labels_declared by done. cbn [mbind Result_bind].
  rewrite andb_false_r. by rewrite bool_decide_true.
Qed.

Lemma declared_set_parsed `{HexCrate} `{!HexLaws} specs maximum :
  Forall declarable specs → NoDup (TargetSpec.label <$> specs) → len specs <= maximum →
  parse_stdin_target_set (declare_set specs) maximum = Ok specs.
Proof.
  intros Hd Hn Hl. rewrite declared_set_outcome by done. rewrite (proj2 (Z.leb_le _ _) Hl). by rewrite orb_true_r.
Qed.

(** ** Properties *)
Section properties.
Context `{HexCrate}.

(** Any target set can be written as a stdin record. For specs with distinct
    labels, whatever characters their labels, addresses and keys have, the record
    that escapes every delimiter is read back as exactly these specs, in order,
    within the limit; and one more than the limit is refused. *)
Theorem target_set_roundtrip `{!HexLaws} specs maximum :
  Forall declarable specs → NoDup (TargetSpec.label <$> specs) →
  parse_stdin_target_set (declare_set specs) maximum
  = if bool_decide (specs = []) || (len specs <=? maximum) then Ok specs
    else Err ("target set exceeds the " +:+ pretty maximum +:+ "-target limit").
Proof. apply declared_set_outcome. Qed.

(** A prepared set is its declarations, expanded. It has the targets of each
    declaration in order, one per address family the declaration stands for, with
    distinct labels and within the limit, even after the expansion. What it
    remembers is exactly this set: another label is forgotten; and every
    declaration of it, in whatever set it comes next, is given the same families
    without a lookup. So the same set again is prepared into the same targets and
    the same memory, with no lookup at all. *)
Theorem preparation_kept self answers specs maximum targets next lookups :
  0 <= maximum → NoDup (TargetSpec.label <$> specs) →
  prepare self answers specs (Some maximum) = Ok (targets, next, lookups) →
  (∃ sel, selected self answers 0 specs sel ∧ targets = expansions specs sel ∧ lookups = omap snd sel) ∧
  NoDup (PreparedTarget.label <$> targets) ∧ len targets <= maximum ∧
  (∀ label, label ∉ TargetSpec.label <$> specs → discovered next !! label = None) ∧
  (∀ i spec, specs !! i = Some spec → ∃ families looked,
     select_families self (answers (Z.of_nat i)) spec = Ok (families, looked) ∧
     ∀ later, select_families next later spec = Ok (families, None)) ∧
  ∀ later, prepare next later specs (Some maximum) = Ok (targets, next, []).
Proof.
  intros Hm Hn Hp. pose proof Hp as (sel & [Hlen Hsel] & -> & Hnt & Hf & Hds & Hdi & -> & Hmax)%prepared_ok; [|done].
  assert (∀ i spec, specs !! i = Some spec → ∃ families looked,
     select_families self (answers (0 + Z.of_nat i)) spec = Ok (families, looked) ∧
     ∀ later, select_families next later spec = Ok (families, None)) as Hagain.
  { intros i spec Hi. assert (∃ s, sel !! i = Some s) as [[families looked] Hs].
    { apply lookup_lt_is_Some. rewrite Hlen. by apply lookup_lt_Some in Hi. }
    pose proof (Hsel _ _ _ Hi Hs) as Hse. exists families, looked. split; [done|]. intros later.
    eapply selected_again; [done|done|exact Hse|]. destruct families as [f|]; [|done].
    rewrite Hdi. by rewrite (remember_at ∅ specs sel i spec _ Hn Hi Hs). }
  split; [by exists sel|]. split; [done|]. split; [done|].
  split; [intros label Hl; by rewrite Hdi, remember_absent, lookup_empty|]. split; [exact Hagain|].
  intros later. revert Hp. unfold prepare. intros (s & Hps & [= Ht Hnx Hl])%bind_ok.
  apply (prepare_specs_agree self next answers later _ _ _ _ _ []) in Hps.
  - unfold with_lookups in Hps at 1. cbn in Hps. rewrite Hps. cbn. rewrite Ht, Hf, Hds.
    destruct s; cbn in *. by rewrite <- Hnx.
  - intros i spec Hi. destruct (Hagain i spec Hi) as (families & looked & Hs & Hl'). eauto.
Qed.
End properties.

(** ** Concrete sets *)
Section example.
#[local] Instance hex_crate : HexCrate := {|
  hex_decode := λ text, if Z.even (len text) then hex_pairs text else None
|}.
#[local] Instance hex_laws : HexLaws.
Proof.
  split. intros key Hk. cbn. rewrite len_hex_body, Z.even_mul. by apply hex_pairs_body.
Defined.

(** A label with delimiters, a key with a comma. *)
Definition odd_spec : TargetSpec.t :=
  TargetSpec.mk (str "lab=1,@hmac=") (str "example.net:2112") (Override (HmacAuth (str "a,b"))).
Definition plain_spec : TargetSpec.t := TargetSpec.mk (str "host") (str "host") Inherit.
Definition literal_spec : TargetSpec.t := TargetSpec.mk (str "[::1]") (str "[::1]") (Override Unauthenticated).

Example declared_text :
  declare_set [odd_spec; plain_spec]
  = str "lab\=1\,\@hmac\==example.net:2112@hmac=0x612c62,host=host".
Proof. vm_compute. reflexivity. Qed.

(** Unlabelled targets are numbered from their second occurrence. *)
Example numbered_labels :
  target_specs [str "host"; str "host"; str "a=host@hmac="; str "host"]
  = Ok [plain_spec; TargetSpec.mk (str "host#2") (str "host") Inherit;
        TargetSpec.mk (str "a") (str "host") (Override Unauthenticated);
        TargetSpec.mk (str "host#3") (str "host") Inherit].
Proof. vm_compute. reflexivity. Qed.

Example refused_targets :
  target_specs [str "a=b"; str "a=c"] = Err "duplicate target label" ∧
  target_specs [str "a"; str "=b"] = Err "invalid target 2: target label must not be empty" ∧
  target_specs [str "a\b"] = Err "invalid target 1: invalid target escape sequence" ∧
  target_specs [str "a@hmac=0xf"]
  = Err "invalid target 1: HMAC hexadecimal key must contain an even number of valid hexadecimal digits".
Proof. vm_compute. done. Qed.

Definition dual : TargetPreparation.t := TargetPreparation.new AnyFamily true.
Definition both_families (_ : Z) (endpoint : bytes * Z) : option (list SocketAddr) :=
  Some [V4 2130706433 endpoint.2; V6 1 endpoint.2 0 0].
Definition dual_result : list PreparedTarget.t * TargetPreparation.t * list (bytes * Z) :=
  match prepare dual both_families [odd_spec; literal_spec] (Some 3) with
  | Ok r => r | _ => ([], dual, []) end.

Example dual_labels :
  PreparedTarget.label <$> dual_result.1.1 = [str "lab=1,@hmac=/v4"; str "lab=1,@hmac=/v6"; str "[::1]"] ∧
  dual_result.2 = [(str "example.net", 2112)].
Proof. vm_compute. done. Qed.

Lemma target_set_roundtrip_witness :
  parse_stdin_target_set (declare_set [odd_spec; literal_spec]) 128 = Ok [odd_spec; literal_spec].
Proof.
  rewrite (target_set_roundtrip [odd_spec; literal_spec] 128); [reflexivity| |apply (bool_decide_unpack _); vm_compute; exact I].
  constructor; [|constructor; [|constructor]].
  - split; [discriminate|]. split; [discriminate|]. split; [discriminate|]. apply (bool_decide_unpack _). vm_compute. exact I.
  - split; [discriminate|]. split; [discriminate|]. exact I.
Defined.

(** The same set again needs no resolver. *)
Lemma preparation_kept_witness :
  prepare dual_result.1.2 (λ _ _, None) [odd_spec; literal_spec] (Some 3) = Ok (dual_result.1.1, dual_result.1.2, []).
Proof.
  apply (preparation_kept dual both_families [odd_spec; literal_spec] 3 dual_result.1.1 dual_result.1.2 dual_result.2).
  - lia.
  - apply (bool_decide_unpack _). vm_compute. exact I.
  - vm_compute. reflexivity.
Defined.
End example.
