(* ===== verification/AppStdin.v ===== *)
(** * irtt-app: target sets from standard input

    Models the reader of [crates/irtt-app/src/cmd/client/run.rs]: records of bounded
    size taken from a buffered stream, the thread that turns them into updates of the
    desired target set, and the bounded memory of reported target instances. *)

From S2P Require Import Prelude Envelope ClientBase ManagedBase Endpoint Fill AppTargets.

Definition MAX_STDIN_RECORD_BYTES : Z := 64 * 1024.
Definition STDIN_MAX_DESIRED_TARGETS : Z := 128.
Definition STDIN_OUTCOME_HISTORY_LIMIT : Z := 256.
Definition NEWLINE : Z := 10.
Definition CARRIAGE_RETURN : Z := 13.

(** ** Text *)
Definition from_utf8 (text : bytes) : Result string bytes :=
  if utf8_valid text then Ok text else Err "stdin is not UTF-8".

(** ** The buffered stream ([BufRead]) *)
(** What its reads still bring; at the end of the list, and on an empty read, it is
    at its end. *)
Inductive Chunk : Type := Data (data : bytes) | ReadFailed (error : string).

Definition fill_buf (reader : list Chunk) : Result string bytes :=
  match reader with
  | [] => Ok []
  | Data data :: _ => Ok data
  | ReadFailed error :: _ => Err error
  end.
Definition consume (n : nat) (reader : list Chunk) : list Chunk :=
  match reader with
  | Data data :: reader => if decide (drop n data = []) then reader else Data (drop n data) :: reader
  | _ => reader
  end.

(** [iter().position(|byte| *byte == b'\n')]. *)
Fixpoint newline_position (data : bytes) : option nat :=
  match data with
  | [] => None
  | b :: data => if b =? NEWLINE then Some 0%nat else S <$> newline_position data
  end.

Definition too_long : string := "stdin target record exceeds the maximum size".
(** [if buffer.last() == Some(&b'\r') { buffer.pop(); }] *)
Definition strip_return (buffer : bytes) : bytes :=
  if bool_decide (last buffer = Some CARRIAGE_RETURN) then take (length buffer - 1) buffer else buffer.

(** One turn of the loop of [read_stdin_record]: its end, or the reader and the
    buffer the next turn has. *)
Definition record_turn (reader : list Chunk) (buffer : bytes)
    : (Result string (option bytes) * list Chunk) + (list Chunk * bytes) :=
  match fill_buf reader with
  | Err error => inl (Err error, reader)
  | Panic => inl (Panic, reader)
  | Ok available =>
      if bool_decide (available = []) then
        if bool_decide (buffer = []) then inl (Ok None, reader)
        else if MAX_STDIN_RECORD_BYTES <? len buffer then inl (Err too_long, reader)
        else inl (Some <$> from_utf8 buffer, reader)
      else if len buffer =? MAX_STDIN_RECORD_BYTES + 1 then
        if bool_decide (head available = Some NEWLINE) && bool_decide (last buffer = Some CARRIAGE_RETURN)
        then inl (Some <$> from_utf8 (strip_return buffer), consume 1 reader)
        else inl (Err too_long, reader)
      else
        match newline_position available with
        | Some newline =>
            let before_newline := take newline available in
            if MAX_STDIN_RECORD_BYTES + 1 <? len buffer + len before_newline then inl (Err too_long, reader)
            else
              let buffer := strip_return (buffer ++ before_newline) in
              let reader := consume (newline + 1) reader in
              if MAX_STDIN_RECORD_BYTES <? len buffer then inl (Err too_long, reader)
              else inl (Some <$> from_utf8 buffer, reader)
        | None =>
            let remaining := Z.to_nat (MAX_STDIN_RECORD_BYTES + 1 - len buffer) in
            let take_ := (length available `min` remaining)%nat in
            let buffer := buffer ++ take take_ available in
            let reader := consume take_ reader in
            if (MAX_STDIN_RECORD_BYTES <? len buffer) && bool_decide (last buffer ≠ Some CARRIAGE_RETURN)
            then inl (Err too_long, reader)
            else inr (reader, buffer)
        end
  end.

Fixpoint record_loop (fuel : nat) (reader : list Chunk) (buffer : bytes)
    : Result string (option bytes) * list Chunk :=
  match fuel with
  | O => (Panic, reader)
  | S fuel =>
      match record_turn reader buffer with
      | inl out => out
      | inr (reader, buffer) => record_loop fuel reader buffer
      end
  end.

(** The bytes still to come bound the turns and the records. *)
Fixpoint stream_len (reader : list Chunk) : nat :=
  match reader with
  | [] => 0
  | Data data :: reader => length data + stream_len reader
  | ReadFailed _ :: reader => stream_len reader
  end.

Definition read_stdin_record (reader : list Chunk) : Result string (option bytes) * list Chunk :=
  record_loop (S (stream_len reader)) reader [].

(** ** The reader thread *)
Inductive StdinStop : Type :=
  | StdinInterrupted
  | StdinEof
  | StdinFatal (error : string).
Inductive StdinUpdate : Type :=
  | UpdateTargets (specs : list TargetSpec.t)
  | UpdateStop (stop : StdinStop).

Section reader.
Context `{HexCrate}.

(** The updates [read_stdin_target_sets] sends, in order; each replaces the one
    before. *)
Fixpoint target_sets_loop (fuel : nat) (line : Z) (reader : list Chunk) : Result string (list StdinUpdate) :=
  match fuel with
  | O => Panic
  | S fuel =>
      let '(record, reader) := read_stdin_record reader in
      match record with
      | Ok (Some record) =>
          let line := sat_u64 (line + 1) in
          if bool_decide (record = []) then target_sets_loop fuel line reader
          else
            match parse_stdin_target_set record STDIN_MAX_DESIRED_TARGETS with
            | Ok targets => updates ← target_sets_loop fuel line reader; Ok (UpdateTargets targets :: updates)
            | Err error =>
                Ok [UpdateStop (StdinFatal ("invalid --targets-stdin line " +:+ pretty line +:+ ": " +:+ error))]
            | Panic => Panic
            end
      | Ok None => Ok [UpdateStop StdinEof]
      | Err _ => Ok [UpdateStop (StdinFatal ("failed to read --targets-stdin line " +:+ pretty (wrap_u 64 (line + 1))))]
      | Panic => Panic
      end
  end.
Definition read_stdin_target_sets (reader : list Chunk) : Result string (list StdinUpdate) :=
  target_sets_loop (S (stream_len reader)) 0 reader.
End reader.

(** ** Reported instances *)
#[export] Instance TargetInstance_eq_dec : EqDecision TargetInstance.t.
Proof. solve_decision. Defined.
#[export] Instance TargetInstance_countable : Countable TargetInstance.t.
Proof.
  refine (inj_countable' (λ t, (TargetInstance.id t, TargetInstance.generation t))
            (λ '(id, generation), TargetInstance.mk id generation) _).
  by intros [].
Defined.

Module BoundedTargetSet.
Record t : Type := mk {
  limit : Z;
  order : list TargetInstance.t;
  members : gset TargetInstance.t;
}.
Definition new (limit : Z) : t := mk limit [] ∅.

Definition insert (target : TargetInstance.t) (self : t) : Result Empty_set (bool * t) :=
  if bool_decide (target ∈ members self) then Ok (false, self)
  else
    let members := {[target]} ∪ members self in
    '(order, members) ←
      (if len (order self) =? limit self then
         match order self with
         | evicted :: order => Ok (order, members ∖ {[evicted]})
         | [] => Panic
         end
       else Ok (order self, members));
    Ok (true, mk (limit self) (order ++ [target]) members).
End BoundedTargetSet.

(** ** The reference: lines of a text *)
(** What a stream brings before it ends, and whether it ends in a failure. *)
Fixpoint stream_bytes (reader : list Chunk) : bytes :=
  match reader with
  | Data (b :: data) :: reader => b :: data ++ stream_bytes reader
  | _ => []
  end.
Fixpoint stream_fails (reader : list Chunk) : bool :=
  match reader with
  | Data (_ :: _) :: reader => stream_fails reader
  | ReadFailed _ :: _ => true
  | _ => false
  end.

(** The first record of a text and the text after it; [None] is an error. *)
Definition record_of (input : bytes) (fails : bool) : option (option bytes * bytes) :=
  match newline_position input with
  | Some n =>
      let line := strip_return (take n input) in
      if (len line <=? MAX_STDIN_RECORD_BYTES) && utf8_valid line then Some (Some line, drop (n + 1) input) else None
  | None =>
      if fails then None
      else if bool_decide (input = []) then Some (None, [])
      else if (len input <=? MAX_STDIN_RECORD_BYTES) && utf8_valid input then Some (Some input, []) else None
  end.

(** The updates a whole text makes. *)
Fixpoint updates_of `{HexCrate} (fuel : nat) (line : Z) (input : bytes) (fails : bool) : list StdinUpdate :=
  match fuel with
  | O => []
  | S fuel =>
      match record_of input fails with
      | Some (Some record, rest) =>
          let line := sat_u64 (line + 1) in
          if bool_decide (record = []) then updates_of fuel line rest fails
          else
            match parse_stdin_target_set record STDIN_MAX_DESIRED_TARGETS with
            | Ok targets => UpdateTargets targets :: updates_of fuel line rest fails
            | Err error =>
                [UpdateStop (StdinFatal ("invalid --targets-stdin line " +:+ pretty line +:+ ": " +:+ error))]
            | Panic => []
            end
      | Some (None, _) => [UpdateStop StdinEof]
      | None => [UpdateStop (StdinFatal ("failed to read --targets-stdin line " +:+ pretty (wrap_u 64 (line + 1))))]
      end
  end.

(** ** Lemmas *)
Lemma newline_app a b :
  NEWLINE ∉ a → newline_position (a ++ b) = (λ n, (length a + n)%nat) <$> newline_position b.
Proof.
  induction a as [|x a IH]; cbn; intros Ha; [by destruct (newline_position b)|].
  apply not_elem_of_cons in Ha as [Hx Ha]. rewrite (proj2 (Z.eqb_neq _ _) (not_eq_sym Hx)), IH by done.
  by destruct (newline_position b).
Qed.

Lemma newline_Some data n :
  newline_position data = Some n → (NEWLINE ∉ take n data) ∧ (n < length data)%nat ∧
  data = take n data ++ NEWLINE :: drop (S n) data.
Proof.
  revert n. induction data as [|b data IH]; intros n; [done|]. cbn. destruct (Z.eqb_spec b NEWLINE) as [->|Hb].
  - intros [= <-]. split; [apply not_elem_of_nil|]. split; [lia|done].
  - destruct (newline_position data) as [m|]; [|done]. intros [= <-]. destruct (IH m eq_refl) as (Hn & Hl & He).
    split; [apply not_elem_of_cons; by split|]. split; [lia|]. cbn. by f_equal.
Qed.

Lemma newline_absent data : NEWLINE ∉ data → newline_position data = None.
Proof. intros Hd. rewrite <- (app_nil_r data). by rewrite newline_app. Qed.

Lemma newline_None data : newline_position data = None → NEWLINE ∉ data.
Proof.
  induction data as [|b data IH]; cbn; [intros _; apply not_elem_of_nil|].
  destruct (Z.eqb_spec b NEWLINE); [done|]. intros Hn. apply not_elem_of_cons. split; [done|]. apply IH.
  by destruct (newline_position data).
Qed.

Lemma strip_len l : len l - 1 <= len (strip_return l) <= len l.
Proof.
  unfold strip_return, len. case_bool_decide as Hl; [|lia]. rewrite length_take. destruct l; [done|]. cbn. lia.
Qed.

Lemma strip_other l : last l ≠ Some CARRIAGE_RETURN → strip_return l = l.
Proof. intros Hl. unfold strip_return. by rewrite bool_decide_false. Qed.

(** Consuming part of what a read brought. *)
Lemma consume_ok n data reader :
  data ≠ [] → (n <= length data)%nat →
  stream_bytes (consume n (Data data :: reader)) = drop n (stream_bytes (Data data :: reader)) ∧
  stream_fails (consume n (Data data :: reader)) = stream_fails (Data data :: reader) ∧
  (stream_len (consume n (Data data :: reader)) + n = stream_len (Data data :: reader))%nat.
Proof.
  intros Hd Hn. cbn [consume]. assert (stream_bytes (Data data :: reader) = data ++ stream_bytes reader) as -> by by destruct data.
  rewrite drop_app_le by done. destruct (decide (drop n data = [])) as [He|He].
  - rewrite He. pose proof (f_equal length He) as Hl. rewrite length_drop in Hl. cbn in Hl.
    split; [done|]. split; [by destruct data|]. cbn. lia.
  - split; [by destruct (drop n data)|]. split; [destruct (drop n data), data; done|]. cbn. rewrite length_drop. lia.
Qed.

(** A line longer than a record can be has no record. *)
Lemma record_of_long buffer more fails :
  NEWLINE ∉ buffer → MAX_STDIN_RECORD_BYTES < len buffer →
  (len buffer = MAX_STDIN_RECORD_BYTES + 1 → last buffer ≠ Some CARRIAGE_RETURN ∨ head more ≠ Some NEWLINE) →
  record_of (buffer ++ more) fails = None.
Proof.
  intros Hb Hl Hc. unfold record_of. rewrite newline_app by done. destruct (newline_position more) as [n|] eqn:Hn; cbn.
  - rewrite take_app_ge, Nat.add_comm, Nat.add_sub by lia.
    assert (MAX_STDIN_RECORD_BYTES < len (strip_return (buffer ++ take n more))) as Hlong.
    { pose proof (strip_len (buffer ++ take n more)) as Hs. rewrite len_app in Hs. pose proof (len_nonneg (take n more)).
      destruct (decide (len buffer = MAX_STDIN_RECORD_BYTES + 1)) as [He|]; [|lia].
      destruct n as [|n].
      - destruct (Hc He) as [Hcr|Hh].
        + rewrite app_nil_r, strip_other by done. lia.
        + apply newline_Some in Hn as (_ & _ & Hn). rewrite Hn in Hh. done.
      - assert (0 < len (take (S n) more)); [|lia]. apply newline_Some in Hn as (_ & Hn & _).
        unfold len. rewrite length_take. lia. }
    by rewrite (proj2 (Z.leb_gt _ _) Hlong).
  - destruct fails; [done|]. rewrite bool_decide_false by (intros [-> _]%app_eq_nil; cbn in Hl; done).
    rewrite (proj2 (Z.leb_gt _ _)); [done|]. rewrite len_app. pose proof (len_nonneg more). lia.
Qed.

(** The outcome of a record against that of the reference. *)
Definition record_agrees (bound : nat) (reader : list Chunk) (input : bytes) (out : Result string (option bytes) * list Chunk)
    : Prop :=
  match record_of input (stream_fails reader) with
  | Some (Some record, rest) =>
      out.1 = Ok (Some record) ∧ stream_bytes out.2 = rest ∧ stream_fails out.2 = stream_fails reader ∧
      (stream_len out.2 < bound)%nat
  | Some (None, _) => out.1 = Ok None
  | None => ∃ error, out.1 = Err error
  end.

(** What the loop keeps of its buffer. *)
Definition buffered (buffer : bytes) : Prop :=
  (NEWLINE ∉ buffer) ∧ len buffer <= MAX_STDIN_RECORD_BYTES + 1 ∧
  (len buffer = MAX_STDIN_RECORD_BYTES + 1 → last buffer = Some CARRIAGE_RETURN).

Lemma utf8_read text : Some <$> from_utf8 text = if utf8_valid text then Ok (Some text) else Err "stdin is not UTF-8".
Proof. unfold from_utf8. by destruct (utf8_valid text). Qed.

(** The end of the stream is the end of its last record. *)
Lemma turn_at_end reader buffer :
  buffered buffer → stream_bytes reader = [] → stream_fails reader = false → fill_buf reader = Ok [] →
  ∃ out, record_turn reader buffer = inl out ∧
    record_agrees (stream_len reader + length buffer) reader (buffer ++ stream_bytes reader) out.
Proof.
  intros (Hnl & _ & _) Hb Hf Hfill. unfold record_turn, record_agrees. rewrite Hfill, Hb, Hf, (app_nil_r buffer).
  rewrite bool_decide_true by done. unfold record_of. rewrite (newline_absent buffer Hnl).
  case_bool_decide as He; [by eexists|]. rewrite (Z.ltb_antisym (len buffer)).
  destruct (len buffer <=? MAX_STDIN_RECORD_BYTES); cbn; [|eauto]. rewrite utf8_read.
  eexists. split; [done|]. destruct (utf8_valid buffer); [|eauto]. split; [done|]. cbn. rewrite Hb, Hf.
  split; [done|]. split; [done|]. destruct buffer; [done|]. cbn. lia.
Qed.

(** A newline among the bytes read. *)
Lemma record_of_line buffer data rest n fails :
  NEWLINE ∉ buffer → newline_position data = Some n →
  record_of (buffer ++ data ++ rest) fails
  = (let line := strip_return (buffer ++ take n data) in
     if (len line <=? MAX_STDIN_RECORD_BYTES) && utf8_valid line then Some (Some line, drop (n + 1) data ++ rest) else None).
Proof.
  intros Hb Hn. unfold record_of. pose proof (newline_Some _ _ Hn) as (Hnt & Hlt & Hd).
  assert (newline_position (data ++ rest) = Some n) as Hp.
  { rewrite Hd, <- app_assoc, newline_app by done. cbn. f_equal. rewrite length_take. lia. }
  rewrite newline_app, Hp by done. cbn. rewrite take_app_ge by lia. rewrite drop_app_ge by lia.
  replace (length buffer + n - length buffer)%nat with n by lia.
  replace (length buffer + n + 1 - length buffer)%nat with (n + 1)%nat by lia.
  by rewrite take_app_le, drop_app_le by lia.
Qed.

Lemma stream_data data reader : data ≠ [] → stream_bytes (Data data :: reader) = data ++ stream_bytes reader.
Proof. by destruct data. Qed.

Lemma turn_full data reader buffer :
  data ≠ [] → buffered buffer → len buffer = MAX_STDIN_RECORD_BYTES + 1 →
  ∃ out, record_turn (Data data :: reader) buffer = inl out ∧
    record_agrees (stream_len (Data data :: reader) + length buffer) (Data data :: reader)
      (buffer ++ stream_bytes (Data data :: reader)) out.
Proof.
  intros Hd (Hnl & _ & Hcr) Hl. unfold record_turn. cbn [fill_buf]. rewrite (bool_decide_false _ Hd).
  rewrite (proj2 (Z.eqb_eq _ _) Hl). unfold record_agrees.
  destruct (decide (head data = Some NEWLINE)) as [Hh|Hh].
  - destruct data as [|x data]; [done|]. injection Hh as ->.
    rewrite !bool_decide_true by auto. eexists. split; [reflexivity|]. rewrite stream_data by done.
    rewrite (record_of_line _ _ _ 0%nat) by done. rewrite app_nil_r. cbv zeta.
    assert (len (strip_return buffer) = MAX_STDIN_RECORD_BYTES) as Hs.
    { unfold strip_return. rewrite bool_decide_true by auto. unfold len, MAX_STDIN_RECORD_BYTES in *. rewrite length_take. lia. }
    rewrite Hs, Z.leb_refl, utf8_read. cbn [andb].
    destruct (utf8_valid (strip_return buffer)); [|eauto].
    destruct (consume_ok 1 (NEWLINE :: data) reader Hd ltac:(cbn; lia)) as (Hc & Hf & Hlen).
    cbn [fst snd]. rewrite Hc, Hf, stream_data by done. cbn [drop app].
    repeat (split; [done|]). unfold len in Hl. rewrite <- Hlen. lia.
  - rewrite (bool_decide_false _ Hh). eexists. split; [reflexivity|]. rewrite record_of_long; [eauto|done|lia|].
    intros _. right. rewrite stream_data by done. by destruct data.
Qed.

Lemma turn_line data reader buffer n :
  data ≠ [] → buffered buffer → len buffer ≠ MAX_STDIN_RECORD_BYTES + 1 → newline_position data = Some n →
  ∃ out, record_turn (Data data :: reader) buffer = inl out ∧
    record_agrees (stream_len (Data data :: reader) + length buffer) (Data data :: reader)
      (buffer ++ stream_bytes (Data data :: reader)) out.
Proof.
  intros Hd (Hnl & Hmax & Hcr) Hl Hn. unfold record_turn. cbn [fill_buf]. rewrite (bool_decide_false _ Hd).
  rewrite (proj2 (Z.eqb_neq _ _) Hl), Hn. unfold record_agrees. rewrite stream_data, (record_of_line _ _ _ n) by done.
  cbv zeta. pose proof (strip_len (buffer ++ take n data)) as Hs. rewrite len_app in Hs.
  destruct (Z.ltb_spec (MAX_STDIN_RECORD_BYTES + 1) (len buffer + len (take n data))) as [Hlong|_].
  { eexists. split; [reflexivity|]. rewrite (proj2 (Z.leb_gt _ _)) by lia. cbn. eauto. }
  rewrite (Z.ltb_antisym (len (strip_return (buffer ++ take n data)))).
  destruct (len (strip_return (buffer ++ take n data)) <=? MAX_STDIN_RECORD_BYTES); cbn [negb andb];
    (eexists; split; [reflexivity|]); [|eauto].
  rewrite utf8_read. destruct (utf8_valid _); [|eauto]. apply newline_Some in Hn as (_ & Hlt & _).
  destruct (consume_ok (n + 1) data reader Hd ltac:(lia)) as (Hc & Hf & Hlen).
  cbn [fst snd]. rewrite Hc, Hf, stream_data, drop_app_le by (done || lia).
  repeat (split; [done|]). lia.
Qed.

Lemma turn_more data reader buffer :
  data ≠ [] → buffered buffer → len buffer ≠ MAX_STDIN_RECORD_BYTES + 1 → newline_position data = None →
  match record_turn (Data data :: reader) buffer with
  | inl out =>
      record_agrees (stream_len (Data data :: reader) + length buffer) (Data data :: reader)
        (buffer ++ stream_bytes (Data data :: reader)) out
  | inr (reader', buffer') =>
      buffered buffer' ∧ buffer' ++ stream_bytes reader' = buffer ++ stream_bytes (Data data :: reader) ∧
      stream_fails reader' = stream_fails (Data data :: reader) ∧
      (stream_len reader' + length buffer' = stream_len (Data data :: reader) + length buffer)%nat ∧
      (stream_len reader' < stream_len (Data data :: reader))%nat
  end.
Proof.
  intros Hd (Hnl & Hmax & Hcr) Hl Hn. unfold record_turn. cbn [fill_buf]. rewrite (bool_decide_false _ Hd).
  rewrite (proj2 (Z.eqb_neq _ _) Hl), Hn. cbv zeta.
  set (k := (length data `min` _)%nat).
  assert (0 < k ≤ length data)%nat as Hk.
  { destruct data; [done|]. cbn [length] in *. unfold k, len in *. lia. }
  assert (NEWLINE ∉ buffer ++ take k data) as Hnb.
  { apply newline_None in Hn. rewrite not_elem_of_app. split; [done|]. intros Hin.
    apply Hn. rewrite <- (take_drop k data), elem_of_app. by left. }
  destruct (consume_ok k data reader Hd ltac:(lia)) as (Hc & Hf & Hlen).
  assert ((buffer ++ take k data) ++ drop k (stream_bytes (Data data :: reader)) = buffer ++ stream_bytes (Data data :: reader)) as He.
  { rewrite stream_data by done. rewrite drop_app_le by lia. by rewrite <- app_assoc, (app_assoc (take k data)), take_drop. }
  destruct (Z.ltb_spec MAX_STDIN_RECORD_BYTES (len (buffer ++ take k data))) as [Hlong|Hshort].
  - case_bool_decide as Hlast; cbn [andb].
    + unfold record_agrees. rewrite <- He, record_of_long; [eauto|done|lia|by left].
    + rewrite Hc, Hf. split; [|split; [done|]; split; [done|]; rewrite length_app, length_take; lia].
      split; [done|]. split; [|done]. rewrite len_app. unfold len at 2. rewrite length_take. unfold k, len in *. lia.
  - cbn [andb]. rewrite Hc, Hf. split; [|split; [done|]; split; [done|]; rewrite length_app, length_take; lia].
    split; [done|]. split; [lia|]. lia.
Qed.

(** One turn against the reference. *)
Lemma record_turn_ok reader buffer :
  buffered buffer →
  match record_turn reader buffer with
  | inl out => record_agrees (stream_len reader + length buffer) reader (buffer ++ stream_bytes reader) out
  | inr (reader', buffer') =>
      buffered buffer' ∧ buffer' ++ stream_bytes reader' = buffer ++ stream_bytes reader ∧
      stream_fails reader' = stream_fails reader ∧
      (stream_len reader' + length buffer' = stream_len reader + length buffer)%nat ∧
      (stream_len reader' < stream_len reader)%nat
  end.
Proof.
  intros Hb. destruct reader as [|[[|x data]|error] reader].
  - destruct (turn_at_end [] buffer) as (out & -> & Ho); done.
  - destruct (turn_at_end (Data [] :: reader) buffer) as (out & -> & Ho); done.
  - destruct (decide (len buffer = MAX_STDIN_RECORD_BYTES + 1)) as [Hl|Hl].
    { destruct (turn_full (x :: data) reader buffer) as (out & -> & Ho); done. }
    destruct (newline_position (x :: data)) as [n|] eqn:Hn; [|by apply turn_more].
    by destruct (turn_line (x :: data) reader buffer n) as (out & -> & Ho).
  - unfold record_agrees. cbn. rewrite app_nil_r. unfold record_of.
    rewrite newline_absent by apply Hb. eauto.
Qed.

Lemma record_loop_ok fuel reader buffer :
  buffered buffer → (stream_len reader < fuel)%nat →
  record_agrees (stream_len reader + length buffer) reader (buffer ++ stream_bytes reader)
    (record_loop fuel reader buffer).
Proof.
  revert reader buffer. induction fuel as [|fuel IH]; intros reader buffer Hb Hf; [lia|]. cbn [record_loop].
  pose proof (record_turn_ok reader buffer Hb) as Ht. destruct (record_turn reader buffer) as [out|[reader' buffer']]; [done|].
  destruct Ht as (Hb' & Hs & Hfa & Hlen & Hlt). specialize (IH reader' buffer' Hb' ltac:(lia)).
  unfold record_agrees in *. by rewrite Hlen, Hs, Hfa in IH.
Qed.

Lemma read_record_ok reader :
  record_agrees (stream_len reader) reader (stream_bytes reader) (read_stdin_record reader).
Proof.
  unfold read_stdin_record. rewrite <- (Nat.add_0_r (stream_len reader)) at 1.
  apply (record_loop_ok _ _ []); [|lia]. split; [apply not_elem_of_nil|]. by split.
Qed.

(** ** The reader thread against the reference *)
Section thread.
Context `{HexCrate}.

Lemma map_err_no_panic {E F A} (f : E → F) (r : Result E A) : no_panic r → no_panic (map_err f r).
Proof. by destruct r. Qed.
Lemma ok_or_no_panic {E A} (o : option A) (e : E) : no_panic (ok_or o e).
Proof. by destruct o. Qed.

Lemma find_no_panic found escaped index input : no_panic (find_unescaped found escaped index input).
Proof.
  revert escaped index. induction input as [|ch input IH]; intros escaped index; cbn; [by destruct escaped|].
  destruct escaped; [apply IH|]. destruct (ch =? BACKSLASH); [apply IH|]. destruct (found _); [done|apply IH].
Qed.
Lemma unescape_no_panic escaped input : no_panic (unescape_from escaped input).
Proof.
  revert escaped. induction input as [|ch input IH]; intros escaped; cbn; [by destruct escaped|].
  destruct escaped; [destruct (escapable ch); [|done]|destruct (ch =? BACKSLASH); [apply IH|]];
    (apply no_panic_bind; [apply IH|done]).
Qed.
Lemma split_no_panic d escaped part input : no_panic (split_parts d escaped part input).
Proof.
  revert escaped part. induction input as [|ch input IH]; intros escaped part; cbn; [by destruct escaped|].
  destruct escaped; [apply IH|]. destruct (ch =? BACKSLASH); [apply IH|]. destruct (ch =? d); [|apply IH].
  apply no_panic_bind; [apply IH|done].
Qed.

Lemma decode_key_no_panic input : no_panic (decode_hmac_key input).
Proof.
  unfold decode_hmac_key. apply no_panic_bind; [destruct (starts_with _ _); [apply ok_or_no_panic|done]|].
  intros key _. by case_bool_decide.
Qed.

Lemma parse_target_no_panic input : no_panic (parse_target_syntax input).
Proof.
  unfold parse_target_syntax. case_bool_decide; [done|]. apply no_panic_bind; [apply find_no_panic|]. intros modifier _.
  apply no_panic_bind.
  - destruct modifier; [|done]. apply no_panic_bind; [apply unescape_no_panic|]. intros value _.
    apply no_panic_bind; [|done]. case_bool_decide; [done|].
    apply no_panic_bind; [apply map_err_no_panic, decode_key_no_panic|done].
  - intros [main auth] _. apply no_panic_bind; [apply find_no_panic|]. intros equals _. apply no_panic_bind.
    + destruct equals; (apply no_panic_bind; [apply unescape_no_panic|intros ? _]); [|done].
      apply no_panic_bind; [apply unescape_no_panic|done].
    + intros [label address] _. by repeat case_bool_decide.
Qed.

Lemma labels_no_panic index counts targets : no_panic (label_targets index counts targets).
Proof.
  revert index counts. induction targets as [|target targets IH]; intros index counts; cbn; [done|].
  apply no_panic_bind; [apply map_err_no_panic, parse_target_no_panic|]. intros [[label addr] auth] _.
  destruct label; (apply no_panic_bind; [apply IH|done]).
Qed.

Lemma parse_set_no_panic record maximum : no_panic (parse_stdin_target_set record maximum).
Proof.
  unfold parse_stdin_target_set, target_specs_with_empty. case_bool_decide; [done|].
  apply no_panic_bind; [apply map_err_no_panic, split_no_panic|]. intros elements _. destruct (_ <? _); [done|].
  apply no_panic_bind; [apply labels_no_panic|]. intros specs _. destruct (_ && _); [done|]. by case_bool_decide.
Qed.

Lemma record_of_shorter input fails record rest :
  record_of input fails = Some (Some record, rest) → (length rest < length input)%nat.
Proof.
  unfold record_of. destruct (newline_position input) as [n|] eqn:Hn.
  - apply newline_Some in Hn as (_ & Hl & _). destruct (_ && _); [|done]. intros [= _ <-]. rewrite length_drop. lia.
  - destruct fails; [done|]. case_bool_decide; [done|]. destruct (_ && _); [|done]. intros [= _ <-].
    destruct input; [done|]. cbn. lia.
Qed.

Lemma target_sets_ok fuel fuel' line reader :
  (stream_len reader < fuel)%nat → (length (stream_bytes reader) < fuel')%nat →
  target_sets_loop fuel line reader = Ok (updates_of fuel' line (stream_bytes reader) (stream_fails reader)).
Proof.
  revert fuel' line reader. induction fuel as [|fuel IH]; intros fuel' line reader Hf Hf'; [lia|].
  destruct fuel' as [|fuel']; [lia|]. cbn [target_sets_loop updates_of].
  pose proof (read_record_ok reader) as Hr. destruct (read_stdin_record reader) as [r reader'].
  unfold record_agrees in Hr. destruct (record_of _ _) as [[[record|] rest]|] eqn:Hrec; cbn [fst snd] in Hr.
  - destruct Hr as (-> & <- & Hfl & Hlen). rewrite <- Hfl. apply record_of_shorter in Hrec.
    case_bool_decide; [apply IH; lia|]. pose proof (parse_set_no_panic record STDIN_MAX_DESIRED_TARGETS) as Hp.
    destruct (parse_stdin_target_set _ _); [|done..]. rewrite (IH fuel') by lia. done.
  - by rewrite Hr.
  - by destruct Hr as [e ->].
Qed.

Lemma updates_end fuel line input fails :
  (length input < fuel)%nat → ∃ sets stop, updates_of fuel line input fails = (UpdateTargets <$> sets) ++ [UpdateStop stop].
Proof.
  revert line input. induction fuel as [|fuel IH]; intros line input Hf; [lia|]. cbn [updates_of].
  destruct (record_of input fails) as [[[record|] rest]|] eqn:Hrec; [|by exists []; eauto..].
  apply record_of_shorter in Hrec. case_bool_decide; [apply IH; lia|].
  pose proof (parse_set_no_panic record STDIN_MAX_DESIRED_TARGETS) as Hp.
  destruct (parse_stdin_target_set _ _) as [targets|e|]; [|by exists []; eauto|done].
  destruct (IH (sat_u64 (line + 1)) rest ltac:(lia)) as (sets & stop & ->). by exists (targets :: sets), stop.
Qed.

(** A record that can stand on a line. *)
Definition line_ok (record : bytes) : Prop :=
  record ≠ [] ∧ (NEWLINE ∉ record) ∧ last record ≠ Some CARRIAGE_RETURN ∧
  len record <= MAX_STDIN_RECORD_BYTES ∧ utf8_valid record = true.

Lemma record_of_written record rest fails :
  line_ok record → record_of (record ++ NEWLINE :: rest) fails = Some (Some record, rest).
Proof.
  intros (Hne & Hn & Hl & Hm & Hu). unfold record_of. rewrite newline_app by done. cbn.
  rewrite Nat.add_0_r, take_app_length, strip_other, Hu by done. rewrite (proj2 (Z.leb_le _ _) Hm). cbn.
  rewrite drop_app_ge by lia. by replace (length record + 1 - length record)%nat with 1%nat by lia.
Qed.

Definition write_lines (records : list bytes) : bytes := records ≫= λ record, record ++ [NEWLINE].

Lemma updates_written `{!HexLaws} fuel line sets :
  Forall (λ specs, Forall declarable specs ∧ NoDup (TargetSpec.label <$> specs) ∧
                   len specs <= STDIN_MAX_DESIRED_TARGETS ∧ line_ok (declare_set specs)) sets →
  (length sets < fuel)%nat →
  updates_of fuel line (write_lines (declare_set <$> sets)) false
  = (UpdateTargets <$> sets) ++ [UpdateStop StdinEof].
Proof.
  intros Hs. revert fuel line. induction Hs as [|specs sets (Hd & Hn & Hl & Hline) _ IH]; intros fuel line Hf;
    (destruct fuel as [|fuel]; cbn [length] in Hf; [lia|]); cbn [updates_of].
  - done.
  - unfold write_lines. cbn [fmap list_fmap mbind list_bind]. rewrite <- app_assoc. cbn [app].
    rewrite record_of_written by done. rewrite bool_decide_false by apply Hline.
    assert (parse_stdin_target_set (declare_set specs) STDIN_MAX_DESIRED_TARGETS = Ok specs) as ->.
    { by apply declared_set_parsed. }
    cbn [app]. f_equal. apply IH. lia.
Qed.
End thread.

(** ** Reported instances *)
Import BoundedTargetSet.

(** The last [n] of a list. *)
Definition newest {A} (n : nat) (l : list A) : list A := drop (length l - n) l.

(** Everything inserted, the answers, and the set left. *)
Fixpoint insert_all (targets : list TargetInstance.t) (self : BoundedTargetSet.t)
    : Result Empty_set (list bool * BoundedTargetSet.t) :=
  match targets with
  | [] => Ok ([], self)
  | target :: targets =>
      '(fresh, self) ← insert target self;
      '(answers, self) ← insert_all targets self;
      Ok (fresh :: answers, self)
  end.

(** The reference: the instances reported, oldest first; a fresh one is one not
    among the last [n] of them. *)
Fixpoint report_all (n : nat) (targets reported : list TargetInstance.t) : list bool * list TargetInstance.t :=
  match targets with
  | [] => ([], reported)
  | target :: targets =>
      let fresh := bool_decide (target ∉ newest n reported) in
      let '(answers, reported) := report_all n targets (if fresh then reported ++ [target] else reported) in
      (fresh :: answers, reported)
  end.

Definition remembers (n : nat) (reported : list TargetInstance.t) (self : BoundedTargetSet.t) : Prop :=
  limit self = Z.of_nat n ∧ order self = newest n reported ∧ members self = list_to_set (order self) ∧
  NoDup (order self).

Lemma newest_snoc {A} n (l : list A) x :
  (0 < n)%nat → newest n (l ++ [x]) = (if decide (length (newest n l) = n) then drop 1 (newest n l) else newest n l) ++ [x].
Proof.
  intros Hn. unfold newest. rewrite length_app, length_drop. cbn.
  rewrite drop_app_le by lia. f_equal. case_decide.
  - rewrite drop_drop. f_equal. lia.
  - replace (length l + 1 - n)%nat with 0%nat by lia. by replace (length l - n)%nat with 0%nat by lia.
Qed.

Lemma remembered_insert n target reported self :
  (0 < n)%nat → remembers n reported self →
  ∃ self', insert target self = Ok (bool_decide (target ∉ newest n reported), self') ∧
    remembers n (if bool_decide (target ∉ newest n reported) then reported ++ [target] else reported) self'.
Proof.
  intros Hn (Hl & Ho & Hm & Hd). unfold insert. rewrite Hm, Ho in *.
  destruct (decide (target ∈ newest n reported)) as [Hin|Hin].
  { rewrite bool_decide_true by by apply elem_of_list_to_set. rewrite bool_decide_false by auto.
    eexists. split; [done|]. unfold remembers. by rewrite Ho. }
  rewrite bool_decide_false by by rewrite elem_of_list_to_set.
  rewrite bool_decide_true by done. unfold remembers. rewrite (newest_snoc n) by done.
  rewrite Hl. unfold len. destruct (Z.eqb_spec (Z.of_nat (length (newest n reported))) (Z.of_nat n)) as [He|He].
  - rewrite decide_True by lia. destruct (newest n reported) as [|evicted rest] eqn:Hr; [cbn in He; lia|].
    cbn [mbind Result_bind]. eexists. split; [reflexivity|]. cbn [limit order members drop].
    apply NoDup_cons in Hd as [Hne Hd]. apply not_elem_of_cons in Hin as [Hne' Hin].
    split; [done|]. split; [done|]. split.
    + rewrite list_to_set_app_L. cbn. set_solver.
    + apply NoDup_app. split; [done|]. split; [|apply NoDup_singleton]. intros x Hx ->%list_elem_of_singleton. done.
  - rewrite decide_False by lia. cbn [mbind Result_bind]. eexists. split; [reflexivity|]. cbn [limit order members].
    split; [done|]. split; [done|]. split.
    + rewrite list_to_set_app_L. cbn. set_solver.
    + apply NoDup_app. split; [done|]. split; [|apply NoDup_singleton]. intros x Hx ->%list_elem_of_singleton. done.
Qed.

Lemma remembered_inserts n targets reported self :
  (0 < n)%nat → remembers n reported self →
  ∃ self', insert_all targets self = Ok ((report_all n targets reported).1, self') ∧
    remembers n (report_all n targets reported).2 self'.
Proof.
  intros Hn. revert reported self. induction targets as [|target targets IH]; intros reported self Hr; cbn; [eauto|].
  destruct (remembered_insert n target reported self Hn Hr) as (self1 & -> & Hr1). cbn [mbind Result_bind].
  destruct (IH _ _ Hr1) as (self2 & -> & Hr2). cbn [mbind Result_bind].
  destruct (report_all n targets _) as [answers reported'] eqn:He. cbn in *. eauto.
Qed.

(** ** Properties *)
Section properties.
Context `{HexCrate}.

(** C35: how standard input is cut into reads does not matter. Whatever pieces the
    stream comes in, the reader ends, and the updates it sends are those of the
    text as a whole, line by line: a line is at most 64 KiB of UTF-8 after its
    terminator, LF or CRLF, is taken off, a last line needs none, an empty line is
    skipped, and the first bad line, read error or end of input stops the run. So
    it sends target sets, and then exactly one stop. *)
Theorem stdin_updates reader :
  let input := stream_bytes reader in
  read_stdin_target_sets reader = Ok (updates_of (S (length input)) 0 input (stream_fails reader)) ∧
  ∃ sets stop, updates_of (S (length input)) 0 input (stream_fails reader) = (UpdateTargets <$> sets) ++ [UpdateStop stop].
Proof.
  intros input. split; [apply target_sets_ok; subst input; lia|]. apply updates_end. lia.
Qed.

(** What a controller writes is what the client is told. If every set of a
    sequence is written on a line of its own, escaped, and the stream brings these
    lines in any pieces and then ends, the updates are exactly these sets, in
    order, and the end of the input. *)
Theorem written_sets_arrive `{!HexLaws} sets reader :
  Forall (λ specs, Forall declarable specs ∧ NoDup (TargetSpec.label <$> specs) ∧
                   len specs <= STDIN_MAX_DESIRED_TARGETS ∧ line_ok (declare_set specs)) sets →
  stream_bytes reader = write_lines (declare_set <$> sets) → stream_fails reader = false →
  read_stdin_target_sets reader = Ok ((UpdateTargets <$> sets) ++ [UpdateStop StdinEof]).
Proof.
  intros Hs Hb Hf. unfold read_stdin_target_sets.
  rewrite (target_sets_ok _ (S (length (stream_bytes reader) + length sets))) by lia.
  by rewrite Hb, Hf, updates_written by (done || lia).
Qed.

(** The memory of reported instances never fails and is bounded: with a
    positive limit [n], after any insertions it holds exactly the last [n]
    instances reported, and an insertion says "new" exactly of an instance that is
    not among them. So an outcome is reported twice only after [n] others. *)
Theorem reported_instances n targets :
  (0 < n)%nat →
  ∃ self', insert_all targets (BoundedTargetSet.new (Z.of_nat n)) = Ok ((report_all n targets []).1, self') ∧
    order self' = newest n (report_all n targets []).2 ∧ members self' = list_to_set (order self') ∧
    len (order self') <= Z.of_nat n.
Proof.
  intros Hn. destruct (remembered_inserts n targets [] (BoundedTargetSet.new (Z.of_nat n)) Hn) as (self' & Hi & Hl & Ho & Hm & _).
  { split; [done|]. split; [done|]. split; [done|]. constructor. }
  exists self'. split; [done|]. split; [done|]. split; [done|]. rewrite Ho. unfold newest, len. rewrite length_drop. lia.
Qed.
End properties.

(** ** Concrete input *)
Section example.
#[local] Existing Instances hex_crate hex_laws.

Definition example_sets : list (list TargetSpec.t) := [[odd_spec; plain_spec]; []; [literal_spec]].
Definition example_text : bytes := write_lines (declare_set <$> example_sets).
(** The text in three reads, one of them a single byte. *)
Definition example_reader : list Chunk :=
  [Data (take 9 example_text); Data (take 1 (drop 9 example_text)); Data (drop 10 example_text)].

(** CRLF, an empty line, a last line without an end, and a failing stream. *)
Example mixed_lines :
  read_stdin_target_sets [Data (str "a" ++ [13]); Data [10; 10]; Data (str "b=c")]
  = Ok [UpdateTargets [TargetSpec.mk (str "a") (str "a") Inherit];
        UpdateTargets [TargetSpec.mk (str "b") (str "c") Inherit]; UpdateStop StdinEof] ∧
  read_stdin_target_sets [Data (str "a" ++ [10; 255; 10])]
  = Ok [UpdateTargets [TargetSpec.mk (str "a") (str "a") Inherit];
        UpdateStop (StdinFatal "failed to read --targets-stdin line 2")] ∧
  read_stdin_target_sets [Data (str "a=" ++ [10]); Data (str "b")]
  = Ok [UpdateStop (StdinFatal "invalid --targets-stdin line 1: invalid target 1: target address must not be empty")].
Proof. vm_compute. done. Qed.

Lemma written_sets_arrive_witness :
  read_stdin_target_sets example_reader = Ok ((UpdateTargets <$> example_sets) ++ [UpdateStop StdinEof]).
Proof.
  apply (written_sets_arrive example_sets example_reader).
  - assert (∀ specs, bool_decide (NoDup (TargetSpec.label <$> specs)) && (len specs <=? STDIN_MAX_DESIRED_TARGETS) &&
      bool_decide (declare_set specs ≠ [] ∧ (NEWLINE ∉ declare_set specs) ∧ last (declare_set specs) ≠ Some CARRIAGE_RETURN) &&
      (len (declare_set specs) <=? MAX_STDIN_RECORD_BYTES) && utf8_valid (declare_set specs) = true →
      Forall declarable specs →
      Forall declarable specs ∧ NoDup (TargetSpec.label <$> specs) ∧ len specs <= STDIN_MAX_DESIRED_TARGETS ∧
      line_ok (declare_set specs)) as Hok.
    { intros specs Hb Hd. apply andb_prop in Hb as [[[[Hn%bool_decide_eq_true Hl%Z.leb_le]%andb_prop
        (H1 & H2 & H3)%bool_decide_eq_true]%andb_prop Hm%Z.leb_le]%andb_prop Hu]. done. }
    assert (declarable odd_spec) as Hodd.
    { split; [discriminate|]. split; [discriminate|]. split; [discriminate|]. apply (bool_decide_unpack _). vm_compute. exact I. }
    assert (declarable plain_spec ∧ declarable literal_spec) as [Hplain Hliteral] by (split; (split; [discriminate|]; split; [discriminate|exact I])).
    assert (Forall declarable [odd_spec; plain_spec] ∧ Forall declarable [literal_spec]) as [H1 H2] by auto 6.
    unfold example_sets. apply Forall_cons. split; [apply Hok; [vm_compute; reflexivity|exact H1]|].
    apply Forall_cons. split; [apply Hok; [vm_compute; reflexivity|by constructor]|].
    apply Forall_cons. split; [apply Hok; [vm_compute; reflexivity|exact H2]|]. constructor.
  - vm_compute. reflexivity.
  - vm_compute. reflexivity.
Defined.

Definition instance (generation : Z) : TargetInstance.t := TargetInstance.mk (str "a") generation.

(** With room for two, the first is new again after two others. *)
Lemma reported_instances_witness :
  ∃ self', insert_all [instance 1; instance 2; instance 1; instance 3; instance 1] (BoundedTargetSet.new 2)
    = Ok ([true; true; false; true; true], self') ∧ order self' = [instance 3; instance 1].
Proof.
  destruct (reported_instances 2 [instance 1; instance 2; instance 1; instance 3; instance 1] ltac:(lia))
    as (self' & Hi & Ho & _).
  exists self'. split; [exact Hi|]. rewrite Ho. vm_compute. reflexivity.
Defined.
End example.
