(* ===== verification/AppStream.v ===== *)
(** * irtt-app: the stdin-controlled stream

    Models [run_stdin_stream] of [crates/irtt-app/src/cmd/client/run.rs] and the
    helpers of [shared/client/session.rs] it uses: the loop that turns the updates
    read from standard input into updates of the driver's target set, follows the
    driver's status and events, and stops the driver. What happens outside - the
    reader's updates, the driver's status and answers, the resolver, the shutdown
    flag and which branch of the select is taken - is the turn the loop is given.
    Lines are recorded as they are handed to the output. *)

From stdpp Require Import sorting.
From S2P Require Import Prelude ProtoBase Envelope ClientBase ClientEvent ManagedBase ManagedTask Endpoint.
From S2P Require Import StatsEvents Ipdv StatsCore Rolling Collector AppTargets AppStdin.

(** ** session.rs *)
Definition should_print_final_summary (continuous interrupted : bool) : bool := negb continuous || interrupted.

Definition request_managed_stop_once (stop_requested : bool) : bool * bool := (negb stop_requested, true).

Definition request_managed_stop_for_peer_close (continuous interrupted : bool) (peer_closed : Z)
    (stop_requested : bool) : bool * bool :=
  if negb continuous || interrupted || (peer_closed =? 0) then (false, stop_requested)
  else request_managed_stop_once stop_requested.

Definition peer_close_run_error (continuous interrupted : bool) (peer_closed : Z) : option string :=
  if negb continuous || interrupted || (peer_closed =? 0) then None
  else Some ("continuous run ended because of peer closure (" +:+ pretty peer_closed +:+ " " +:+
             (if peer_closed =? 1 then "target session" else "target sessions") +:+ ")").

(** ** State *)
(** A status as the watch channel hands it out: [Arc::ptr_eq] is equality of
    revisions. *)
Record Snapshot_ : Type := mk_Snapshot { revision : Z; status : ManagedStatus.t }.

(** What the frontend shows: lines on standard output, with the statistics of the
    event, and outcomes on standard error ([report_target_failure]). *)
Inductive Line : Type :=
  | LineEvent (target : bytes) (event : ClientEvent.t) (update : option EventStatsUpdate.t)
  | LineOutcome (outcome : ManagedTargetOutcome.t).

(** The statistics, the instances reported and the lines so far. *)
Module Front.
Section front.
Context `{Measurement} `{CountWindows} `{FirstInstant}.
Record t : Type := mk {
  stats : gmap TargetInstance.t StatsCollector.t;
  terminal_targets : BoundedTargetSet.t;
  lines : list Line;
}.
Definition set_stats v (s : t) : t := mk v (terminal_targets s) (lines s).
Definition set_terminal v (s : t) : t := mk (stats s) v (lines s).
Definition add_line l (s : t) : t := mk (stats s) (terminal_targets s) (lines s ++ [l]).
End front.
End Front.
Import Front.

(** What the loop does to the driver, in order. *)
Inductive Effect : Type :=
  | Submitted (targets : list ManagedTargetConfig.t)
  | Answered (applied : bool)
  | StopSent.

(** The loop's variables. The channel of updates is the list of those sent so far
    and how many of them its receiver has seen. *)
Module StdinLoop.
Section loop.
Context `{Measurement} `{CountWindows} `{FirstInstant}.
Record t : Type := mk {
  front : Front.t;
  sent : list StdinUpdate;
  seen : nat;
  closed : bool;
  stdin_changed : bool;
  preparation : TargetPreparation.t;
  desired_specs : option (list TargetSpec.t);
  preparing : option (TargetPreparation.t * list TargetSpec.t);
  desired : option (list ManagedTargetConfig.t);
  pending : bool;
  submitted : list ManagedTargetConfig.t;
  retry_after : option Z;
  dropped_events : Z;
  stop_requested : bool;
  stop : option StdinStop;
  summary_targets : option (gset TargetInstance.t);
  effects : list Effect;
}.
Definition set_front v (s : t) : t :=
  mk v (sent s) (seen s) (closed s) (stdin_changed s) (preparation s) (desired_specs s) (preparing s) (desired s)
    (pending s) (submitted s) (retry_after s) (dropped_events s) (stop_requested s) (stop s) (summary_targets s) (effects s).
Definition set_channel sent seen closed changed (s : t) : t :=
  mk (front s) sent seen closed changed (preparation s) (desired_specs s) (preparing s) (desired s)
    (pending s) (submitted s) (retry_after s) (dropped_events s) (stop_requested s) (stop s) (summary_targets s) (effects s).
Definition set_preparation v (s : t) : t :=
  mk (front s) (sent s) (seen s) (closed s) (stdin_changed s) v (desired_specs s) (preparing s) (desired s)
    (pending s) (submitted s) (retry_after s) (dropped_events s) (stop_requested s) (stop s) (summary_targets s) (effects s).
Definition set_desired_specs v (s : t) : t :=
  mk (front s) (sent s) (seen s) (closed s) (stdin_changed s) (preparation s) v (preparing s) (desired s)
    (pending s) (submitted s) (retry_after s) (dropped_events s) (stop_requested s) (stop s) (summary_targets s) (effects s).
Definition set_preparing v (s : t) : t :=
  mk (front s) (sent s) (seen s) (closed s) (stdin_changed s) (preparation s) (desired_specs s) v (desired s)
    (pending s) (submitted s) (retry_after s) (dropped_events s) (stop_requested s) (stop s) (summary_targets s) (effects s).
Definition set_desired v (s : t) : t :=
  mk (front s) (sent s) (seen s) (closed s) (stdin_changed s) (preparation s) (desired_specs s) (preparing s) v
    (pending s) (submitted s) (retry_after s) (dropped_events s) (stop_requested s) (stop s) (summary_targets s) (effects s).
Definition set_pending v (s : t) : t :=
  mk (front s) (sent s) (seen s) (closed s) (stdin_changed s) (preparation s) (desired_specs s) (preparing s) (desired s)
    v (submitted s) (retry_after s) (dropped_events s) (stop_requested s) (stop s) (summary_targets s) (effects s).
Definition set_submitted v (s : t) : t :=
  mk (front s) (sent s) (seen s) (closed s) (stdin_changed s) (preparation s) (desired_specs s) (preparing s) (desired s)
    (pending s) v (retry_after s) (dropped_events s) (stop_requested s) (stop s) (summary_targets s) (effects s).
Definition set_retry_after v (s : t) : t :=
  mk (front s) (sent s) (seen s) (closed s) (stdin_changed s) (preparation s) (desired_specs s) (preparing s) (desired s)
    (pending s) (submitted s) v (dropped_events s) (stop_requested s) (stop s) (summary_targets s) (effects s).
Definition set_dropped v (s : t) : t :=
  mk (front s) (sent s) (seen s) (closed s) (stdin_changed s) (preparation s) (desired_specs s) (preparing s) (desired s)
    (pending s) (submitted s) (retry_after s) v (stop_requested s) (stop s) (summary_targets s) (effects s).
Definition set_stop_requested v (s : t) : t :=
  mk (front s) (sent s) (seen s) (closed s) (stdin_changed s) (preparation s) (desired_specs s) (preparing s) (desired s)
    (pending s) (submitted s) (retry_after s) (dropped_events s) v (stop s) (summary_targets s) (effects s).
Definition set_stop v (s : t) : t :=
  mk (front s) (sent s) (seen s) (closed s) (stdin_changed s) (preparation s) (desired_specs s) (preparing s) (desired s)
    (pending s) (submitted s) (retry_after s) (dropped_events s) (stop_requested s) v (summary_targets s) (effects s).
Definition set_summary v (s : t) : t :=
  mk (front s) (sent s) (seen s) (closed s) (stdin_changed s) (preparation s) (desired_specs s) (preparing s) (desired s)
    (pending s) (submitted s) (retry_after s) (dropped_events s) (stop_requested s) (stop s) v (effects s).
Definition emit v (s : t) : t :=
  mk (front s) (sent s) (seen s) (closed s) (stdin_changed s) (preparation s) (desired_specs s) (preparing s) (desired s)
    (pending s) (submitted s) (retry_after s) (dropped_events s) (stop_requested s) (stop s) (summary_targets s)
    (effects s ++ [v]).
End loop.
End StdinLoop.
Import StdinLoop.

Section stream.
Context `{HexCrate} `{Measurement} `{CountWindows} `{FirstInstant}.

Definition stats_config (continuous : bool) : StatsConfig.t :=
  if continuous then StatsConfig.continuous else StatsConfig.finite.
Definition fresh_stats : StatsCollector.t := StatsCollector.new (stats_config true).

(** [entry(target).or_insert_with(..)]. *)
Definition or_insert (target : TargetInstance.t) (stats : gmap TargetInstance.t StatsCollector.t)
    : gmap TargetInstance.t StatsCollector.t :=
  match stats !! target with Some _ => stats | None => <[target := fresh_stats]> stats end.

(** ** Events *)
Definition is_session_started (event : ClientEvent.t) : bool :=
  match event with ClientEvent.SessionStarted _ => true | _ => false end.

Definition process_stdin_event (collect_stats : bool) (event : ManagedEvent) (s : Front.t) : Result Empty_set Front.t :=
  match event with
  | EvTargetStateChanged target _ =>
      Ok (if collect_stats then set_stats (or_insert target (stats s)) s else s)
  | EvClient target event =>
      let '(update, s) :=
        if collect_stats then
          let collector :=
            if is_session_started event then fresh_stats else default fresh_stats (stats s !! target) in
          let '(update, collector) := StatsCollector.process event collector in
          (Some update, set_stats (<[target := collector]> (stats s)) s)
        else (None, s) in
      Ok (add_line (LineEvent (TargetInstance.id target) event update) s)
  | EvTargetFinished outcome =>
      match BoundedTargetSet.insert (ManagedTargetOutcome.target outcome) (terminal_targets s) with
      | Ok (true, terminal_targets) => Ok (add_line (LineOutcome outcome) (set_terminal terminal_targets s))
      | Ok (false, terminal_targets) => Ok (set_terminal terminal_targets s)
      | Err e => Err e
      | Panic => Panic
      end
  | _ => Ok s
  end.

(** ** Statistics of the targets there are *)
Definition live_targets (status : ManagedStatus.t) : gset TargetInstance.t :=
  list_to_set (ManagedTargetStatus.target <$> ManagedStatus.targets status).

Definition reconcile_stdin_stats (status : ManagedStatus.t) (final_summary_targets : option (gset TargetInstance.t))
    (stats : gmap TargetInstance.t StatsCollector.t) : gmap TargetInstance.t StatsCollector.t :=
  filter (λ '(target, _), target ∈ live_targets status ∪ default ∅ final_summary_targets) stats.

Definition snapshot_stdin_summary_targets (status : ManagedStatus.t) (enabled : bool)
    (stats : gmap TargetInstance.t StatsCollector.t)
    : gset TargetInstance.t * gmap TargetInstance.t StatsCollector.t :=
  if enabled then
    (live_targets status,
     foldr or_insert stats (ManagedTargetStatus.target <$> ManagedStatus.targets status))
  else (∅, stats).

(** ** The loop *)
(** [stdin.has_changed().unwrap_or(true)]. *)
Definition has_changed (s : StdinLoop.t) : bool := closed s || (seen s <? length (sent s))%nat.
(** [borrow_and_update]: the channel starts with an empty set. *)
Definition channel_value (s : StdinLoop.t) : StdinUpdate := default (UpdateTargets []) (last (sent s)).
(** The reader sends, and may then be gone. *)
Definition receive_updates (arrivals : list StdinUpdate) (closes : bool) (s : StdinLoop.t) : StdinLoop.t :=
  set_channel (sent s ++ arrivals) (seen s) (closed s || closes) (stdin_changed s) s.
Definition mark_seen (changed : bool) (s : StdinLoop.t) : StdinLoop.t :=
  set_channel (sent s) (length (sent s)) (closed s) changed s.

Definition request_stop (s : StdinLoop.t) : StdinLoop.t :=
  let '(first, requested) := request_managed_stop_once (stop_requested s) in
  let s := set_stop_requested requested s in
  if first then emit StopSent s else s.

(** [summary_targets = Some(snapshot_stdin_summary_targets(..))]. *)
Definition select_summaries (no_stats : bool) (status : ManagedStatus.t) (s : StdinLoop.t) : StdinLoop.t :=
  let '(targets, stats) := snapshot_stdin_summary_targets status (negb no_stats) (stats (front s)) in
  set_summary (Some targets) (set_front (set_stats stats (front s)) s).
(** [summary_targets = Some(stats.keys().cloned().collect())]. *)
Definition select_all_summaries (s : StdinLoop.t) : StdinLoop.t := set_summary (Some (dom (stats (front s)))) s.

Definition stop_for (no_stats : bool) (reason : StdinStop) (status : ManagedStatus.t) (s : StdinLoop.t) : StdinLoop.t :=
  request_stop (select_summaries no_stats status (set_stop (Some reason) s)).

(** How the select ends. A branch that does work names what it met then: the
    updates sent in the meantime, the status, the shutdown flag, the writer. *)
Inductive Wake : Type :=
  | WakeShutdown
  | WakeStdin
  | WakeStatus
  | WakeStatusClosed
  | WakePrepared (answers : Z → bytes * Z → option (list SocketAddr)) (status : ManagedStatus.t)
  | WakeReceipt (result : CommandResult) (status : ManagedStatus.t)
  | WakeEvent (event : ManagedEvent) (shutdown : bool) (status : ManagedStatus.t) (written : option string)
  | WakeLagged (count : Z)
  | WakeEventsClosed.

Record Turn : Type := mk_Turn {
  arrivals : list StdinUpdate;
  closes : bool;
  snapshot : Snapshot_;
  shutdown : bool;
  accepts : bool;
  later_arrivals : list StdinUpdate;
  later_closes : bool;
  wake : Wake;
}.

Inductive Flow : Type := Continue | Break | Abort (error : string).

(** The update read, if any. *)
Definition take_update (s : StdinLoop.t) : StdinLoop.t :=
  if stdin_changed s || has_changed s then
    let value := channel_value s in
    let s := mark_seen false s in
    match value with
    | UpdateTargets specs => set_retry_after None (set_desired None (set_desired_specs (Some specs) s))
    | UpdateStop reason => set_stop (Some reason) s
    end
  else s.

Definition start_preparing (s : StdinLoop.t) : StdinLoop.t :=
  match stop s, preparing s, desired_specs s with
  | None, None, Some specs => set_preparing (Some (preparation s, specs)) (set_desired_specs None s)
  | _, _, _ => s
  end.

Definition submit (turn : Turn) (s : StdinLoop.t) : StdinLoop.t :=
  match stop s, desired s with
  | None, Some targets =>
      if negb (pending s) && bool_decide (retry_after s ≠ Some (revision (snapshot turn))) then
        let s := emit (Submitted targets) (set_submitted targets (set_desired None s)) in
        if accepts turn then set_retry_after (Some (revision (snapshot turn))) (set_pending true s)
        else set_stop (Some (StdinFatal "failed to submit --targets-stdin update")) s
      else s
  | _, _ => s
  end.

(** The part of a turn before the select; [inl] leaves the loop. *)
Definition turn_top (no_stats : bool) (turn : Turn) (s : StdinLoop.t) : StdinLoop.t + StdinLoop.t :=
  let s := receive_updates (arrivals turn) (closes turn) s in
  let status := status (snapshot turn) in
  if shutdown turn then inl (request_stop (select_all_summaries (set_stop (Some StdinInterrupted) s)))
  else
    let s :=
      match stop s with
      | Some _ => s
      | None =>
          let s := submit turn (start_preparing (take_update s)) in
          match stop s with
          | Some _ => request_stop (select_summaries no_stats status (set_preparing None s))
          | None => s
          end
      end in
    let s := set_front (set_stats (reconcile_stdin_stats status (summary_targets s) (stats (front s))) (front s)) s in
    if Envelope.is_some (ManagedStatus.final_outcome status) then inl s else inr s.

(** The guards of the select. *)
Definition enabled (w : Wake) (s : StdinLoop.t) : bool :=
  match w with
  | WakeStdin => negb (Envelope.is_some (stop s)) && has_changed s
  | WakePrepared _ _ => Envelope.is_some (preparing s) && negb (Envelope.is_some (stop s))
  | WakeReceipt _ _ => pending s && negb (Envelope.is_some (stop s))
  | _ => true
  end.

Definition on_prepared (no_stats : bool) (answers : Z → bytes * Z → option (list SocketAddr))
    (status : ManagedStatus.t) (s : StdinLoop.t) : Result Empty_set StdinLoop.t :=
  '(self, specs) ← expect (preparing s);
  let result := prepare self answers specs (Some STDIN_MAX_DESIRED_TARGETS) in
  let s := set_preparing None s in
  if negb (Envelope.is_some (desired_specs s)) && negb (has_changed s) then
    match result with
    | Ok (targets, next_preparation, _) =>
        Ok (set_retry_after None
              (set_desired (Some (PreparedTarget.managed <$> targets)) (set_preparation next_preparation s)))
    | Err error => Ok (stop_for no_stats (StdinFatal ("invalid --targets-stdin target set: " +:+ error)) status s)
    | Panic => Panic
    end
  else Ok s.

Definition on_receipt (no_stats : bool) (result : CommandResult) (status : ManagedStatus.t)
    (s : StdinLoop.t) : Result Empty_set StdinLoop.t :=
  let s := emit (Answered (is_ok result)) (set_pending false s) in
  match result with
  | Ok _ => Ok (set_retry_after None s)
  | Err (LiveGenerationLimitExceeded _ _) =>
      match desired s, desired_specs s, preparing s with
      | None, None, None => Ok (set_desired (Some (submitted s)) (set_submitted [] s))
      | _, _, _ => Ok (set_retry_after None s)
      end
  | Err _ => Ok (stop_for no_stats (StdinFatal "--targets-stdin update was rejected") status s)
  | Panic => Panic
  end.

Definition on_event (no_stats : bool) (event : ManagedEvent) (shutdown : bool) (status : ManagedStatus.t)
    (written : option string) (s : StdinLoop.t) : Result Empty_set (Flow * StdinLoop.t) :=
  if shutdown then Ok (Continue, s)
  else
    front ← process_stdin_event (negb no_stats) event (front s);
    let front := set_stats (reconcile_stdin_stats status (summary_targets s) (stats front)) front in
    let s := set_front front s in
    Ok (match written with Some error => Abort error | None => Continue end, s).

Definition turn_select (no_stats : bool) (turn : Turn) (s : StdinLoop.t) : Result Empty_set (Flow * StdinLoop.t) :=
  let s := receive_updates (later_arrivals turn) (later_closes turn) s in
  match wake turn with
  | WakeShutdown | WakeStatus => Ok (Continue, s)
  | WakeStatusClosed | WakeEventsClosed => Ok (Break, s)
  | WakeStdin => Ok (Continue, mark_seen true s)
  | WakePrepared answers status => s ← on_prepared no_stats answers status s; Ok (Continue, s)
  | WakeReceipt result status => s ← on_receipt no_stats result status s; Ok (Continue, s)
  | WakeEvent event shutdown status written => on_event no_stats event shutdown status written s
  | WakeLagged count => Ok (Continue, set_dropped (sat_u64 (dropped_events s + count)) s)
  end.

Definition stdin_turn (no_stats : bool) (turn : Turn) (s : StdinLoop.t) : Result Empty_set (Flow * StdinLoop.t) :=
  match turn_top no_stats turn s with
  | inl s => Ok (Break, s)
  | inr s => turn_select no_stats turn s
  end.

(** ** The run *)
Definition stdin_start (preparation : TargetPreparation.t) : StdinLoop.t :=
  StdinLoop.mk (Front.mk ∅ (BoundedTargetSet.new STDIN_OUTCOME_HISTORY_LIMIT) []) [] 0 false false preparation
    None None None false [] None 0 false None None [].

(** After the loop: the events left in the subscription. *)
Inductive Drained : Type :=
  | DrainEvent (event : ManagedEvent) (written : option string)
  | DrainLagged (count : Z).

Fixpoint drain_events (no_stats : bool) (items : list Drained) (s : StdinLoop.t)
    : Result Empty_set (option string * StdinLoop.t) :=
  match items with
  | [] => Ok (None, s)
  | DrainLagged count :: items => drain_events no_stats items (set_dropped (sat_u64 (dropped_events s + count)) s)
  | DrainEvent event written :: items =>
      front ← process_stdin_event (negb no_stats) event (front s);
      let s := set_front front s in
      match written with
      | Some error => Ok (Some error, s)
      | None => drain_events no_stats items s
      end
  end.

(** The outcomes no event has reported. *)
Fixpoint report_outcomes (outcomes : list ManagedTargetOutcome.t) (s : Front.t) : Result Empty_set Front.t :=
  match outcomes with
  | [] => Ok s
  | outcome :: outcomes => s ← process_stdin_event false (EvTargetFinished outcome) s; report_outcomes outcomes s
  end.

(** The collectors of the instances to summarise. *)
Definition summary_stats (targets : list TargetInstance.t) (stats : gmap TargetInstance.t StatsCollector.t)
    : Result Empty_set (list (TargetInstance.t * StatsCollector.t)) :=
  mapM (λ target, collector ← expect (stats !! target); Ok (target, collector)) targets.

Inductive RunError : Type :=
  | RunFatal (error : string)
  | RunDriver (failure : ManagedDriverFailure)
  | RunIo (error : string).

Record Finished : Type := mk_Finished {
  result : Result RunError unit;
  printed_summaries : list (TargetInstance.t * StatsCollector.t);
  finished : StdinLoop.t;
}.

Definition prints_summary (no_stats : bool) (stop : option StdinStop) : bool :=
  negb no_stats && match stop with Some (StdinInterrupted | StdinEof) => true | _ => false end.

(** From the end of the loop: [joined] is the driver's outcome, [interrupted] the
    shutdown flag after the drain, [written] whether the summaries got out. *)
Definition stdin_finish (no_stats : bool) (joined : Result string ManagedOutcome.t) (drained : list Drained)
    (interrupted : bool) (written : option string) (s : StdinLoop.t) : Result Empty_set Finished :=
  match joined with
  | Panic => Panic
  | Err error => Ok (mk_Finished (Err (RunIo error)) [] s)
  | Ok outcome =>
      '(failed, s) ← drain_events no_stats drained s;
      match failed with
      | Some error => Ok (mk_Finished (Err (RunIo error)) [] s)
      | None =>
          front ← report_outcomes (ManagedOutcome.recent_target_outcomes outcome) (front s);
          let s := set_front front s in
          let s :=
            match interrupted, stop s with
            | true, Some StdinInterrupted | false, _ => s
            | true, _ => select_all_summaries (set_stop (Some StdinInterrupted) s)
            end in
          summaries ← summary_stats (elements (default ∅ (summary_targets s))) (stats front);
          let summaries := if prints_summary no_stats (stop s) then summaries else [] in
          match written with
          | Some error => Ok (mk_Finished (Err (RunIo error)) summaries s)
          | None =>
              Ok (mk_Finished
                    (match stop s, ManagedOutcome.end_reason outcome with
                     | Some (StdinFatal error), _ => Err (RunFatal error)
                     | _, DriverFailed failure => Err (RunDriver failure)
                     | _, _ => Ok tt
                     end) summaries s)
          end
      end
  end.

(** What the reader has sent: sets, and possibly one stop, after which it is gone. *)
Definition channel_ok (sent : list StdinUpdate) (closed : bool) : Prop :=
  ∃ sets, (sent = UpdateTargets <$> sets ∧ closed = false) ∨
          ∃ stop, sent = (UpdateTargets <$> sets) ++ [UpdateStop stop].

Definition on_channel (P : list StdinUpdate → bool → Prop) (s : StdinLoop.t) : Prop := P (sent s) (closed s).

(** A turn the outside may give: the reader keeps to its protocol, and only a branch
    whose guard holds is taken. *)
Definition turn_ok (no_stats : bool) (turn : Turn) (s : StdinLoop.t) : Prop :=
  on_channel channel_ok (receive_updates (arrivals turn) (closes turn) s) ∧
  ∀ s', turn_top no_stats turn s = inr s' →
    let s' := receive_updates (later_arrivals turn) (later_closes turn) s' in
    on_channel channel_ok s' ∧ enabled (wake turn) s' = true ∧
    match wake turn with WakeReceipt result _ => result ≠ Panic | _ => True end.

(** The states of the loop: at the top of a turn, or after its last one. *)
Inductive streaming (no_stats : bool) (preparation : TargetPreparation.t) : Flow → StdinLoop.t → Prop :=
  | stream_start : streaming no_stats preparation Continue (stdin_start preparation)
  | stream_turn turn s flow s' :
      streaming no_stats preparation Continue s → turn_ok no_stats turn s →
      stdin_turn no_stats turn s = Ok (flow, s') → streaming no_stats preparation flow s'.
End stream.

(** ** The invariant *)
Section theory.
Context `{HexCrate} `{Measurement} `{CountWindows} `{FirstInstant}.
Implicit Types s : StdinLoop.t.

(** [targets] is the set sent as the [k]-th update, prepared. *)
Definition from (sent : list StdinUpdate) (k : nat) (targets : list ManagedTargetConfig.t) : Prop :=
  ∃ specs self answers prepared next lookups,
    sent !! k = Some (UpdateTargets specs) ∧
    prepare self answers specs (Some STDIN_MAX_DESIRED_TARGETS) = Ok (prepared, next, lookups) ∧
    targets = PreparedTarget.managed <$> prepared.

Definition submission (e : Effect) : option (list ManagedTargetConfig.t) :=
  match e with Submitted targets => Some targets | _ => None end.
Definition submissions (effects : list Effect) : list (list ManagedTargetConfig.t) := omap submission effects.

(** The submissions are the sets of the updates [ks], which never go back. *)
Definition history (ks : list nat) s : Prop :=
  Forall2 (from (sent s)) ks (submissions (effects s)) ∧ StronglySorted le ks.

(** Where the [c]-th update is on its way to the driver. *)
Inductive tracking s (c : nat) (specs : list TargetSpec.t) : Prop :=
  | TrRead : desired_specs s = Some specs → desired s = None → tracking s c specs
  | TrPreparing self :
      desired_specs s = None → preparing s = Some (self, specs) → desired s = None → tracking s c specs
  | TrDesired targets :
      desired_specs s = None → preparing s = None → desired s = Some targets → from (sent s) c targets →
      tracking s c specs
  | TrPending pre :
      desired_specs s = None → preparing s = None → desired s = None → pending s = true →
      from (sent s) c (submitted s) → effects s = pre ++ [Submitted (submitted s)] → tracking s c specs
  | TrApplied pre targets :
      desired_specs s = None → preparing s = None → desired s = None → pending s = false →
      from (sent s) c targets → effects s = pre ++ [Submitted targets; Answered true] → tracking s c specs.

Definition follows (ks : list nat) s : Prop :=
  (seen s = 0%nat ∧ desired_specs s = None ∧ preparing s = None ∧ desired s = None ∧ pending s = false) ∨
  ∃ c specs, sent s !! c = Some (UpdateTargets specs) ∧ seen s = S c ∧ Forall (λ k, k <= c)%nat ks ∧ tracking s c specs.

(** There is an update to be read. *)
Definition behind s : Prop := (stdin_changed s = true ∧ sent s ≠ []) ∨ has_changed s = true.

Definition terminal_ok (f : Front.t) : Prop :=
  ∃ reported, remembers (Z.to_nat STDIN_OUTCOME_HISTORY_LIMIT) reported (terminal_targets f).

(** What stopping has done so far. *)
Definition stop_ok s : Prop :=
  match stop s with
  | None => stop_requested s = false ∧ (StopSent ∉ effects s) ∧ summary_targets s = None
  | Some _ => stop_requested s = true ∧ (∃ pre, effects s = pre ++ [StopSent] ∧ (StopSent ∉ pre)) ∧
      ∃ targets, summary_targets s = Some targets ∧ targets ⊆ dom (stats (front s))
  end.

Record loop_ok (ks : list nat) s : Prop := {
  lo_channel : channel_ok (sent s) (closed s);
  lo_seen : (seen s <= length (sent s))%nat;
  lo_history : history ks s;
  lo_terminal : terminal_ok (front s);
  lo_stop : stop_ok s;
}.

(** ** The frontend's part *)
Lemma stdin_event_ok collect event f :
  terminal_ok f →
  ∃ f', process_stdin_event collect event f = Ok f' ∧ terminal_ok f' ∧ dom (stats f) ⊆ dom (stats f').
Proof.
  intros [reported Hr]. destruct event as [|target ?|target event|outcome| | | |]; cbn [process_stdin_event];
    try (eexists; split; [reflexivity|]; split; [by exists reported|done]).
  - eexists. split; [reflexivity|]. destruct collect; [|split; [by exists reported|done]].
    split; [by exists reported|]. cbn. unfold or_insert. destruct (stats f !! target); [done|]. set_solver.
  - destruct collect; cbv zeta.
    + destruct (StatsCollector.process _ _) as [update collector]. eexists. split; [reflexivity|].
      split; [by exists reported|]. cbn. set_solver.
    + eexists. split; [reflexivity|]. split; [by exists reported|done].
  - destruct (remembered_insert (Z.to_nat STDIN_OUTCOME_HISTORY_LIMIT) (ManagedTargetOutcome.target outcome) reported _ ltac:(unfold STDIN_OUTCOME_HISTORY_LIMIT; lia) Hr) as (t' & -> & Hr').
    case_bool_decide; (eexists; split; [reflexivity|]; split; [by eexists|done]).
Qed.

Lemma reconcile_dom status targets stats :
  targets ⊆ dom stats → targets ⊆ dom (reconcile_stdin_stats status (Some targets) stats).
Proof.
  intros Ht target Hin. unfold reconcile_stdin_stats. apply elem_of_dom.
  destruct (proj1 (elem_of_dom stats target) (Ht _ Hin)) as [collector Hc]. exists collector.
  apply map_lookup_filter_Some. split; [done|]. cbn. set_solver.
Qed.

Lemma or_insert_dom target stats : dom (or_insert target stats) = {[target]} ∪ dom stats.
Proof.
  unfold or_insert. destruct (stats !! target) eqn:Ht; [|set_solver].
  assert (target ∈ dom stats) by (by apply elem_of_dom). set_solver.
Qed.

Lemma snapshot_dom status enabled stats :
  let '(targets, stats') := snapshot_stdin_summary_targets status enabled stats in targets ⊆ dom stats'.
Proof.
  unfold snapshot_stdin_summary_targets, live_targets. destruct enabled; [|set_solver].
  induction (ManagedTargetStatus.target <$> ManagedStatus.targets status) as [|target l IH]; [set_solver|].
  cbn. rewrite or_insert_dom. set_solver.
Qed.

(** ** Bookkeeping *)
Lemma from_mono sent more k targets : from sent k targets → from (sent ++ more) k targets.
Proof.
  intros (specs & self & answers & prepared & next & lookups & Hk & Hp & Ht).
  exists specs, self, answers, prepared, next, lookups. split; [by apply lookup_app_l_Some|done].
Qed.

Lemma history_mono ks sent more effects :
  Forall2 (from sent) ks (submissions effects) → Forall2 (from (sent ++ more)) ks (submissions effects).
Proof. intros Hf. eapply Forall2_impl; [exact Hf|]. intros k targets. apply from_mono. Qed.

Lemma from_lt sent k targets : from sent k targets → (k < length sent)%nat.
Proof. intros (specs & ? & ? & ? & ? & ? & Hk & _). by apply lookup_lt_Some in Hk. Qed.

Lemma history_lt ks s : history ks s → Forall (λ k, k < length (sent s))%nat ks.
Proof.
  intros [Hf _]. induction Hf as [|k targets ks subs Hk _ IH]; constructor; [by apply from_lt in Hk|done].
Qed.

Lemma sorted_snoc ks c : StronglySorted le ks → Forall (λ k, k <= c)%nat ks → StronglySorted le (ks ++ [c]).
Proof.
  intros Hs. induction Hs as [|k ks Hs IH Hk]; intros Hc; cbn; [by repeat constructor|].
  apply Forall_cons in Hc as [Hkc Hc]. constructor; [by apply IH|]. apply Forall_app. split; [done|by constructor].
Qed.

Lemma submissions_snoc effects e : submissions (effects ++ [e]) = submissions effects ++ option_list (submission e).
Proof. unfold submissions. rewrite omap_app. cbn. by destruct (submission e). Qed.

(** The channel's value is the last update, and after the reader is gone a stop. *)
Lemma channel_last sent closed :
  channel_ok sent closed → sent ≠ [] ∨ closed = true →
  (∃ specs, last sent = Some (UpdateTargets specs) ∧ sent !! (length sent - 1)%nat = Some (UpdateTargets specs) ∧ (0 < length sent)%nat) ∨
  (∃ stop, last sent = Some (UpdateStop stop)).
Proof.
  intros (sets & [[-> ->]|[stop ->]]) Hne.
  - left. destruct Hne as [Hne|]; [|done]. destruct (last sets) as [specs|] eqn:Hl.
    + exists specs. rewrite fmap_last, Hl. split; [done|].
      rewrite length_fmap. rewrite last_lookup in Hl. rewrite list_lookup_fmap. 
      replace (length sets - 1)%nat with (pred (length sets)) by lia. rewrite Hl. split; [done|].
      apply lookup_lt_Some in Hl. lia.
    + apply last_None in Hl. by subst.
  - right. exists stop. by rewrite last_snoc.
Qed.

(** Fields a front alone does not touch. *)
Lemma tracking_front f c specs s : tracking (set_front f s) c specs ↔ tracking s c specs.
Proof. split; intros []; [econstructor 1|econstructor 2|econstructor 3|econstructor 4|econstructor 5|econstructor 1|econstructor 2|econstructor 3|econstructor 4|econstructor 5]; eauto. Qed.

Lemma follows_front f ks s : follows ks s → follows ks (set_front f s).
Proof.
  intros [Hn|(c & specs & Hc & Hs & Hk & Ht)]; [by left|]. right. exists c, specs. repeat (split; [done|]).
  by apply tracking_front.
Qed.

Lemma follows_receive arrivals closes ks s :
  follows ks s → follows ks (receive_updates arrivals closes s).
Proof.
  intros [Hn|(c & specs & Hc & Hs & Hk & Ht)]; [by left|]. right. exists c, specs.
  split; [by apply lookup_app_l_Some|]. repeat (split; [done|]).
  destruct Ht; [econstructor 1|econstructor 2|econstructor 3|econstructor 4|econstructor 5]; eauto; by apply from_mono.
Qed.

Lemma arrivals_ok arrivals closes ks s :
  loop_ok ks s → on_channel channel_ok (receive_updates arrivals closes s) →
  loop_ok ks (receive_updates arrivals closes s).
Proof.
  intros [] Hc. split; try done.
  - cbn. rewrite length_app. lia.
  - destruct lo_history0 as [Hf Hs]. split; [by apply history_mono|done].
Qed.

Lemma front_ok f ks s :
  loop_ok ks s → terminal_ok f → (∀ targets, summary_targets s = Some targets → targets ⊆ dom (stats f)) →
  loop_ok ks (set_front f s).
Proof.
  intros [] Ht Hd. split; try done. unfold stop_ok in *. cbn. destruct (stop s); [|done].
  destruct lo_stop0 as (Hr & He & targets & Hs & _). split; [done|]. split; [done|]. exists targets. auto.
Qed.

Lemma summary_dom ks s targets : loop_ok ks s → summary_targets s = Some targets → targets ⊆ dom (stats (front s)).
Proof.
  intros [] Hs. unfold stop_ok in *. destruct (stop s).
  - destruct lo_stop0 as (_ & _ & T & HT & Hd). rewrite HT in Hs. by injection Hs as <-.
  - destruct lo_stop0 as (_ & _ & Hn). congruence.
Qed.

(** Stopping, for the first time or again. *)
Lemma request_stop_ok ks reason targets s :
  loop_ok ks s → targets ⊆ dom (stats (front s)) →
  loop_ok ks (request_stop (set_summary (Some targets) (set_stop (Some reason) s))).
Proof.
  intros [] Ht. unfold request_stop, request_managed_stop_once. cbn [stop_requested set_summary set_stop].
  unfold stop_ok in lo_stop0. destruct (stop_requested s) eqn:Hr; cbn [negb].
  - split; try done. unfold stop_ok. cbn. destruct (stop s) as [old|]; [|by destruct lo_stop0].
    destruct lo_stop0 as (_ & He & _). split; [done|]. split; [done|]. by exists targets.
  - destruct (stop s) as [old|] eqn:Hs; [by destruct lo_stop0|]. destruct lo_stop0 as (_ & He & _).
    split; try done.
    + destruct lo_history0 as [Hf Hso]. split; [|done]. cbn. by rewrite submissions_snoc, app_nil_r.
    + unfold stop_ok. cbn. split; [done|]. split; [by exists (effects s)|]. by exists targets.
Qed.

Lemma select_summaries_eq no_stats status s :
  ∃ targets f, select_summaries no_stats status s = set_summary (Some targets) (set_front f s) ∧
    targets ⊆ dom (stats f) ∧ terminal_targets f = terminal_targets (front s).
Proof.
  unfold select_summaries. pose proof (snapshot_dom status (negb no_stats) (stats (front s))) as Hd.
  destruct (snapshot_stdin_summary_targets _ _ _) as [targets st]. by eexists targets, _.
Qed.

Lemma stop_for_ok ks no_stats reason status s :
  loop_ok ks s → stop s = None → loop_ok ks (stop_for no_stats reason status s).
Proof.
  intros Hok Hs. unfold stop_for.
  destruct (select_summaries_eq no_stats status (set_stop (Some reason) s)) as (targets & f & -> & Hd & Ht).
  change (set_front f (set_stop (Some reason) s)) with (set_stop (Some reason) (set_front f s)).
  apply request_stop_ok; [|done]. apply front_ok; [done| |].
  - unfold terminal_ok. rewrite Ht. apply Hok.
  - intros T HT. pose proof (lo_stop _ _ Hok) as Hst. unfold stop_ok in Hst. rewrite Hs in Hst.
    destruct Hst as (_ & _ & Hn). congruence.
Qed.

(** ** The top of a turn *)
(** Before the select everything read is on its way. *)
Definition upright (ks : list nat) s : Prop := stop s = None → stdin_changed s = false ∧ follows ks s.
(** A stop decided on, of which the driver has not been told. *)
Definition halted (ks : list nat) s : Prop :=
  ∃ reason s0, s = set_stop (Some reason) s0 ∧ loop_ok ks s0 ∧ stop s0 = None.

Lemma follows_channel ks s : follows ks s → seen s = 0%nat ∨ sent s ≠ [].
Proof. intros [(Hn & _)|(c & specs & Hc & _)]; [by left|right]. by intros He; rewrite He in Hc. Qed.

Lemma take_update_ok ks s :
  loop_ok ks s → stop s = None → (stdin_changed s = false ∧ follows ks s) ∨ behind s →
  (stop (take_update s) = None ∧ loop_ok ks (take_update s) ∧ upright ks (take_update s)) ∨ halted ks (take_update s).
Proof.
  intros Hok Hs Hf. unfold take_update.
  destruct (stdin_changed s || has_changed s) eqn:Hc.
  2:{ apply orb_false_elim in Hc as [Hch Hhas]. destruct Hf as [[Hf1 Hf2]|[[Hb _]|Hb]]; [|congruence..]. by left. }
  assert (sent s ≠ [] ∨ closed s = true) as Hne.
  { apply orb_prop in Hc. destruct Hf as [[Hf1 Hf2]|[[_ Hb]|Hb]].
    - destruct Hc as [Hc|Hc]; [congruence|]. unfold has_changed in Hc. apply orb_prop in Hc as [Hc|Hc%Nat.ltb_lt]; [by right|].
      left. intros He. rewrite He in Hc. cbn in Hc. lia.
    - by left.
    - unfold has_changed in Hb. apply orb_prop in Hb as [Hb|Hb%Nat.ltb_lt]; [by right|].
      left. intros He. rewrite He in Hb. cbn in Hb. lia. }
  pose proof (channel_last _ _ (lo_channel _ _ Hok) Hne) as Hl. unfold channel_value.
  assert (loop_ok ks (mark_seen false s)) as Hm by by destruct Hok.
  destruct Hl as [(specs & -> & Hat & Hlen)|[reason ->]]; cbn [default].
  - left. split; [done|]. split; [by destruct Hm|]. intros _. split; [done|]. right.
    exists (length (sent s) - 1)%nat, specs. split; [done|]. split; [cbn; lia|].
    split; [|by constructor]. eapply Forall_impl; [apply history_lt, Hok|]. cbn. intros k. lia.
  - right. exists reason, (mark_seen false s). split; [done|]. by split.
Qed.

Lemma start_preparing_ok ks s :
  stop s = None → loop_ok ks s → upright ks s →
  stop (start_preparing s) = None ∧ loop_ok ks (start_preparing s) ∧ upright ks (start_preparing s).
Proof.
  intros Hs Hok Hu. unfold start_preparing. rewrite Hs. destruct (preparing s) eqn:Hp; [done|].
  destruct (desired_specs s) as [specs|] eqn:Hd; [|done].
  split; [done|]. split; [by destruct Hok|]. intros _. destruct (Hu Hs) as [Hch Hf]. split; [done|].
  destruct Hf as [(_ & Hn & _)|(c & specs' & Hc & Hse & Hk & Ht)]; [congruence|].
  right. exists c, specs'. repeat (split; [done|]). destruct Ht; try congruence.
  assert (specs' = specs) as -> by congruence. by econstructor 2.
Qed.

Lemma submitted_ok ks c targets s :
  loop_ok ks s → stop s = None → from (sent s) c targets → Forall (λ k, k <= c)%nat ks →
  loop_ok (ks ++ [c]) (emit (Submitted targets) (set_submitted targets (set_desired None s))).
Proof.
  intros [] Hs Hf Hk. split; try done.
  - destruct lo_history0 as [Hh Hso]. split; [|by apply sorted_snoc]. cbn. rewrite submissions_snoc. cbn.
    apply Forall2_app; [done|]. by constructor.
  - unfold stop_ok in *. cbn. rewrite Hs in *. destruct lo_stop0 as (Hr & Hn & Hsu).
    split; [done|]. split; [|done]. rewrite elem_of_app, list_elem_of_singleton. by intros [].
Qed.

Lemma submit_ok turn ks s :
  stop s = None → loop_ok ks s → upright ks s →
  ∃ ks', (stop (submit turn s) = None ∧ loop_ok ks' (submit turn s) ∧ upright ks' (submit turn s)) ∨
         halted ks' (submit turn s).
Proof.
  intros Hs Hok Hu. unfold submit. rewrite Hs. destruct (desired s) as [targets|] eqn:Hd; [|exists ks; by left].
  destruct (negb (pending s) && _); [|exists ks; by left].
  destruct (Hu Hs) as [Hch Hf]. destruct Hf as [(_ & _ & _ & Hn & _)|(c & specs & Hc & Hse & Hk & Ht)]; [congruence|].
  destruct Ht as [| |targets' Hds Hp Hd' Hfrom| |]; try congruence.
  assert (targets' = targets) as -> by congruence.
  pose proof (submitted_ok ks c targets s Hok Hs Hfrom Hk) as Hok'. exists (ks ++ [c]).
  destruct (accepts turn); [left|right; by eexists _, _].
  split; [done|]. split; [by destruct Hok'|]. intros _. split; [done|]. right. exists c, specs.
  repeat (split; [done|]). split; [apply Forall_app; split; [done|by constructor]|].
  by eapply (TrPending _ _ _ (effects s)).
Qed.

Lemma halted_stops no_stats status ks s :
  halted ks s → loop_ok ks (request_stop (select_summaries no_stats status (set_preparing None s))).
Proof.
  intros (reason & s0 & -> & Hok & Hs).
  assert (loop_ok ks (set_preparing None s0)) as Hok' by by destruct Hok.
  exact (stop_for_ok ks no_stats reason status (set_preparing None s0) Hok' Hs).
Qed.

Lemma request_stop_stop s : stop (request_stop s) = stop s.
Proof. unfold request_stop, request_managed_stop_once. by destruct (stop_requested s). Qed.
Lemma select_summaries_stop no_stats status s : stop (select_summaries no_stats status s) = stop s.
Proof. destruct (select_summaries_eq no_stats status s) as (? & ? & -> & _). done. Qed.

Lemma reconciled_ok status ks s :
  loop_ok ks s →
  loop_ok ks (set_front (set_stats (reconcile_stdin_stats status (summary_targets s) (stats (front s))) (front s)) s).
Proof.
  intros Hok. apply front_ok; [done|apply Hok|]. intros targets Ht. rewrite Ht. cbn. apply reconcile_dom.
  exact (summary_dom ks s targets Hok Ht).
Qed.

(** The update, the preparation and the submission of a turn. *)
Definition advanced (turn : Turn) s : StdinLoop.t := submit turn (start_preparing (take_update s)).

Lemma advanced_ok turn ks s :
  loop_ok ks s → stop s = None → (stdin_changed s = false ∧ follows ks s) ∨ behind s →
  ∃ ks', (stop (advanced turn s) = None ∧ loop_ok ks' (advanced turn s) ∧ upright ks' (advanced turn s)) ∨
         halted ks' (advanced turn s).
Proof.
  intros Hok Hs Hf. unfold advanced. destruct (take_update_ok ks s Hok Hs Hf) as [(Hs1 & Hok1 & Hu1)|Hh].
  - destruct (start_preparing_ok _ _ Hs1 Hok1 Hu1) as (Hs2 & Hok2 & Hu2). exact (submit_ok turn _ _ Hs2 Hok2 Hu2).
  - exists ks. right. destruct Hh as (reason & s0 & -> & Hh). by exists reason, s0.
Qed.

Lemma turn_top_ok no_stats turn ks s :
  loop_ok ks s → (stop s = None → (stdin_changed s = false ∧ follows ks s) ∨ behind s) →
  on_channel channel_ok (receive_updates (arrivals turn) (closes turn) s) →
  ∃ ks', match turn_top no_stats turn s with
         | inl s' => loop_ok ks' s' ∧ (stop s' = None → stdin_changed s' = false ∧ follows ks' s')
         | inr s' => loop_ok ks' s' ∧ upright ks' s'
         end.
Proof.
  intros Hok Hf Hch. pose proof (arrivals_ok _ _ _ _ Hok Hch) as Hok1. unfold turn_top.
  set (s1 := receive_updates (arrivals turn) (closes turn) s) in *.
  assert (stop s1 = None → (stdin_changed s1 = false ∧ follows ks s1) ∨ behind s1) as Hf1.
  { intros Hs. destruct (Hf Hs) as [[Hc Hfo]|[[Hc Hne]|Hc]].
    - left. split; [done|]. by apply follows_receive.
    - right. left. split; [done|]. cbn. by intros [Hz _]%app_eq_nil.
    - right. right. revert Hc. unfold has_changed, s1, receive_updates. cbn [closed sent seen set_channel]. intros [->|Hc%Nat.ltb_lt]%orb_prop; [done|].
      rewrite (proj2 (Nat.ltb_lt _ _)); [by rewrite orb_true_r|]. rewrite length_app. lia. }
  clearbody s1. destruct (shutdown turn).
  { exists ks. split; [|by rewrite request_stop_stop]. unfold select_all_summaries. apply request_stop_ok; [done|]. done. }
  set (s2 := match stop s1 with Some _ => s1 | None => _ end).
  assert (∃ ks', loop_ok ks' s2 ∧ upright ks' s2) as (ks' & Hok2 & Hu2).
  { subst s2. destruct (stop s1) eqn:Hs; [exists ks; split; [done|intros Hn; congruence]|].
    change (submit turn (start_preparing (take_update s1))) with (advanced turn s1). cbv zeta.
    destruct (advanced_ok turn ks s1 Hok1 Hs (Hf1 eq_refl)) as (ks' & [(Hs2 & Hok2 & Hu2)|Hh]).
    - rewrite Hs2. by exists ks'.
    - exists ks'. pose proof (halted_stops no_stats (status (snapshot turn)) ks' _ Hh) as Hok2.
      destruct Hh as (reason & s0 & He & _). rewrite He in *. cbn [stop set_stop] in *. split; [done|].
      intros Hn. rewrite request_stop_stop, select_summaries_stop in Hn. done. }
  clearbody s2. exists ks'. cbv zeta. pose proof (reconciled_ok (status (snapshot turn)) ks' s2 Hok2) as Hok3.
  assert (upright ks' (set_front (set_stats (reconcile_stdin_stats (status (snapshot turn)) (summary_targets s2)
    (stats (front s2))) (front s2)) s2)) as Hu3.
  { intros Hn. destruct (Hu2 Hn) as [Hc Hfo]. split; [done|]. by apply follows_front. }
  by destruct (Envelope.is_some _).
Qed.

(** ** The select *)
Lemma select_families_no_panic self answer spec : no_panic (select_families self answer spec).
Proof.
  unfold select_families. destruct (literal_ip _) as [ip|]; [by destruct (TargetPreparation.family self), ip|].
  destruct (TargetPreparation.dual_stack self); [|done].
  assert (no_panic (endpoint ← discovery_endpoint (TargetSpec.addr spec); families ← discovery_families (answer endpoint);
    Ok (Some families, Some endpoint))) as Hlook.
  { apply no_panic_bind.
    - unfold discovery_endpoint. destruct (rsplit_colon _) as [[host port]|]; [|done].
      apply no_panic_bind; [apply ok_or_no_panic|]. intros port' _. by destruct (_ || _).
    - intros endpoint _. apply no_panic_bind; [|done]. unfold discovery_families.
      apply no_panic_bind; [apply ok_or_no_panic|]. intros addrs _. by case_bool_decide. }
  destruct (TargetPreparation.discovered self !! _) as [[addr families]|]; [|done]. by case_bool_decide.
Qed.

Lemma push_targets_no_panic new (st : Preparing.t) : no_panic (push_targets new st).
Proof. revert st. induction new as [|target new IH]; intros st; cbn; [done|]. case_bool_decide; [done|apply IH]. Qed.

Lemma prepare_no_panic self answers specs maximum : no_panic (prepare self answers specs maximum).
Proof.
  unfold prepare. apply no_panic_bind; [|done]. generalize (Preparing.mk [] ∅ [] []), 0.
  induction specs as [|spec specs IH]; intros st index; cbn; [done|]. apply no_panic_bind; [|done].
  unfold prepare_spec. apply no_panic_bind; [apply map_err_no_panic, select_families_no_panic|].
  intros [families looked] _. apply no_panic_bind; [apply push_targets_no_panic|]. intros st' _.
  destruct maximum; [by destruct (_ <? _)|done].
Qed.

(** What holds at the top of a turn. *)
Definition ready (ks : list nat) s : Prop := stop s = None → (stdin_changed s = false ∧ follows ks s) ∨ behind s.

Lemma upright_ready ks s : upright ks s → ready ks s.
Proof. intros Hu Hs. left. by apply Hu. Qed.

Lemma stop_for_stop no_stats reason status s : stop (stop_for no_stats reason status s) ≠ None.
Proof. unfold stop_for. by rewrite request_stop_stop, select_summaries_stop. Qed.

Lemma stopped_ready ks no_stats reason status s : ready ks (stop_for no_stats reason status s).
Proof. intros Hs. by apply stop_for_stop in Hs. Qed.

Lemma on_prepared_ok no_stats answers status ks s :
  loop_ok ks s → upright ks s → stop s = None → Envelope.is_some (preparing s) = true →
  ∃ s', on_prepared no_stats answers status s = Ok s' ∧ loop_ok ks s' ∧ ready ks s'.
Proof.
  intros Hok Hu Hs Hp. unfold on_prepared. destruct (preparing s) as [[self specs]|] eqn:He; [|done].
  cbn [expect mbind Result_bind].
  assert (loop_ok ks (set_preparing None s)) as Hok1 by by destruct Hok.
  destruct (Hu Hs) as [Hch [(_ & _ & Hn & _)|(c & specs' & Hc & Hse & Hk & Ht)]]; [congruence|].
  destruct Ht as [Hds Hd|self' Hds Hpr Hd| | |]; try congruence.
  - (* superseded by a record not yet prepared *)
    cbn [desired_specs set_preparing]. rewrite Hds. cbn [Envelope.is_some negb andb].
    eexists. split; [reflexivity|]. split; [done|]. apply upright_ready. intros _. split; [done|].
    right. exists c, specs'. repeat (split; [done|]). by econstructor 1.
  - assert (specs' = specs ∧ self' = self) as [-> ->] by (split; congruence).
    cbn [desired_specs set_preparing]. rewrite Hds. cbn [Envelope.is_some negb andb].
    change (has_changed (set_preparing None s)) with (has_changed s).
    destruct (has_changed s) eqn:Hhas; cbn [negb].
    { eexists. split; [reflexivity|]. split; [done|]. intros _. right. by right. }
    pose proof (prepare_no_panic self answers specs (Some STDIN_MAX_DESIRED_TARGETS)) as Hnp.
    destruct (prepare _ _ _ _) as [[[targets next] lookups]|error|] eqn:Hprep; [| |done].
    + eexists. split; [reflexivity|]. split; [by destruct Hok1|]. apply upright_ready. intros _. split; [done|].
      right. exists c, specs. repeat (split; [done|]). eapply TrDesired; try done.
      by exists specs, self, answers, targets, next, lookups.
    + eexists. split; [reflexivity|]. split; [by apply stop_for_ok|]. apply stopped_ready.
Qed.

Lemma answered_ok ks applied s :
  loop_ok ks s → stop s = None → loop_ok ks (emit (Answered applied) (set_pending false s)).
Proof.
  intros [] Hs. split; try done.
  - destruct lo_history0 as [Hf Hso]. split; [|done]. cbn. by rewrite submissions_snoc, app_nil_r.
  - unfold stop_ok in *. cbn. rewrite Hs in *. destruct lo_stop0 as (Hr & Hn & Hsu). split; [done|]. split; [|done].
    rewrite elem_of_app, list_elem_of_singleton. by intros [].
Qed.

Lemma on_receipt_ok no_stats result status ks s :
  loop_ok ks s → upright ks s → stop s = None → pending s = true → result ≠ Panic →
  ∃ s', on_receipt no_stats result status s = Ok s' ∧ loop_ok ks s' ∧ ready ks s'.
Proof.
  intros Hok Hu Hs Hpe Hr. unfold on_receipt.
  pose proof (answered_ok ks (is_ok result) s Hok Hs) as Hok1. set (s1 := emit _ _) in *.
  destruct (Hu Hs) as [Hch Hf].
  destruct Hf as [(_ & _ & _ & _ & Hn)|(c & specs & Hc & Hse & Hk & Ht)]; [congruence|].
  (* what is on its way stays on its way *)
  assert (∀ s', sent s' = sent s → seen s' = seen s → desired_specs s' = desired_specs s → preparing s' = preparing s →
    desired s' = desired s → stdin_changed s' = false → (desired_specs s, preparing s, desired s) ≠ (None, None, None) →
    upright ks s') as Hstay.
  { intros s' E1 E2 E3 E4 E5 E6 Hne _. split; [done|]. right. exists c, specs. rewrite E1, E2. repeat (split; [done|]).
    destruct Ht; try (exfalso; apply Hne; congruence);
      [econstructor 1|econstructor 2|econstructor 3]; rewrite ?E1; first [congruence|eassumption|rewrite E4; eassumption|rewrite E5; eassumption]. }
  destruct result as [ack|error|]; [| |done].
  - eexists. split; [reflexivity|]. split; [by destruct Hok1|]. apply upright_ready.
    destruct Ht as [Hds Hd|self Hds Hpr Hd|targets Hds Hpr Hd Hfr|pre Hds Hpr Hd Hpp Hfr He|pre targets Hds Hpr Hd Hpp Hfr He];
      [apply Hstay; try done; congruence..| |congruence].
    intros _. split; [done|]. right. exists c, specs. repeat (split; [done|]).
    eapply (TrApplied _ _ _ pre (submitted s)); try done. subst s1. cbn. by rewrite He, <- app_assoc.
  - assert (∀ message, ∃ s', @Ok Empty_set _ (stop_for no_stats (StdinFatal message) status s1) = Ok s' ∧ loop_ok ks s' ∧ ready ks s') as Hfatal.
    { intros message. eexists. split; [reflexivity|]. split; [by apply stop_for_ok|]. apply stopped_ready. }
    destruct error; try apply Hfatal.
    change (desired s1) with (desired s). change (desired_specs s1) with (desired_specs s). change (preparing s1) with (preparing s).
    assert (loop_ok ks (set_retry_after None s1) ∧ loop_ok ks (set_desired (Some (submitted s1)) (set_submitted [] s1))) as [Hok2 Hok3].
    { by destruct Hok1. }
    destruct Ht as [Hds Hd|self Hds Hpr Hd|targets Hds Hpr Hd Hfr|pre Hds Hpr Hd Hpp Hfr He|pre targets Hds Hpr Hd Hpp Hfr He];
      [| | | |congruence].
    + rewrite Hds, Hd. eexists. split; [reflexivity|]. split; [done|]. apply upright_ready, Hstay; try done. by rewrite Hds.
    + rewrite Hds, Hpr, Hd. eexists. split; [reflexivity|]. split; [done|]. apply upright_ready, Hstay; try done. by rewrite Hds, Hpr.
    + rewrite Hds, Hpr, Hd. eexists. split; [reflexivity|]. split; [done|]. apply upright_ready, Hstay; try done. by rewrite Hd.
    + rewrite Hds, Hpr, Hd. eexists. split; [reflexivity|]. split; [done|]. apply upright_ready. intros _. split; [done|].
      right. exists c, specs. repeat (split; [done|]). by eapply TrDesired.
Qed.

Lemma ready_same ks s s' :
  ready ks s → stop s' = stop s → stdin_changed s' = stdin_changed s → sent s' = sent s → has_changed s' = has_changed s →
  (follows ks s → follows ks s') → ready ks s'.
Proof.
  intros Hr E1 E2 E3 E4 Hf Hs. rewrite E1 in Hs. destruct (Hr Hs) as [[Hc Hfo]|[[Hc Hne]|Hc]].
  - left. rewrite E2. auto.
  - right. left. by rewrite E2, E3.
  - right. right. by rewrite E4.
Qed.

Lemma on_event_ok no_stats event shut status written ks s :
  loop_ok ks s → ready ks s →
  ∃ flow s', on_event no_stats event shut status written s = Ok (flow, s') ∧ loop_ok ks s' ∧ ready ks s'.
Proof.
  intros Hok Hr. unfold on_event. destruct shut; [by eexists _, _|].
  destruct (stdin_event_ok (negb no_stats) event (front s) (lo_terminal _ _ Hok)) as (f & -> & Ht & Hd).
  cbn [mbind Result_bind]. eexists _, _. split; [reflexivity|].
  assert (loop_ok ks (set_front f s)) as Hok1.
  { apply front_ok; [done..|]. intros targets Hs. pose proof (summary_dom _ _ _ Hok Hs). set_solver. }
  split; [exact (reconciled_ok status ks _ Hok1)|]. eapply ready_same; [exact Hr|done..|]. apply follows_front.
Qed.

Lemma turn_select_ok no_stats turn ks s :
  loop_ok ks s → upright ks s →
  let s' := receive_updates (later_arrivals turn) (later_closes turn) s in
  on_channel channel_ok s' → enabled (wake turn) s' = true →
  match wake turn with WakeReceipt result _ => result ≠ Panic | _ => True end →
  ∃ flow s'', turn_select no_stats turn s = Ok (flow, s'') ∧ loop_ok ks s'' ∧ ready ks s''.
Proof.
  intros Hok Hu s' Hch Hen Hpan. unfold turn_select. fold s'.
  assert (loop_ok ks s') as Hok' by by apply arrivals_ok.
  assert (upright ks s') as Hu'.
  { intros Hs. destruct (Hu Hs) as [Hc Hf]. split; [done|]. by apply follows_receive. }
  clearbody s'. pose proof (upright_ready _ _ Hu') as Hr.
  destruct (wake turn) as [| | | |answers status|result status|event shut status written|count|]; cbn [enabled] in Hen;
    try (by eexists _, _).
  - eexists _, _. split; [reflexivity|]. split; [by destruct Hok'|]. intros _. right. left. split; [done|].
    apply andb_prop in Hen as [_ Hen]. unfold has_changed in Hen. cbn. intros He.
    apply orb_prop in Hen as [Hen|Hen%Nat.ltb_lt]; [|rewrite He in Hen; cbn in Hen; lia].
    destruct (lo_channel _ _ Hok') as (sets & [[_ Hcl]|[stop Hst]]); [congruence|]. rewrite He in Hst.
    by destruct sets.
  - apply andb_prop in Hen as [Hp Hs%negb_true_iff]. destruct (stop s') eqn:Hst; [done|].
    destruct (on_prepared_ok no_stats answers status ks s' Hok' Hu' Hst Hp) as (s2 & -> & Hok2 & Hr2). by eexists _, _.
  - apply andb_prop in Hen as [Hp Hs%negb_true_iff]. destruct (stop s') eqn:Hst; [done|].
    destruct (on_receipt_ok no_stats result status ks s' Hok' Hu' Hst Hp Hpan) as (s2 & -> & Hok2 & Hr2). by eexists _, _.
  - by apply on_event_ok.
  - eexists _, _. split; [reflexivity|]. split; [by destruct Hok'|]. eapply ready_same; [exact Hr|done..|].
    intros [Hn|(c & specs & Hc & Hse & Hk & Ht)]; [by left|]. right. exists c, specs. repeat (split; [done|]).
    by destruct Ht; [econstructor 1|econstructor 2|econstructor 3|econstructor 4|econstructor 5].
Qed.

Lemma stdin_turn_ok no_stats turn ks s :
  loop_ok ks s → ready ks s → turn_ok no_stats turn s →
  ∃ flow s' ks', stdin_turn no_stats turn s = Ok (flow, s') ∧ loop_ok ks' s' ∧ ready ks' s'.
Proof.
  intros Hok Hr [Hch Hsel]. unfold stdin_turn. destruct (turn_top_ok no_stats turn ks s Hok Hr Hch) as (ks' & Ht).
  destruct (turn_top no_stats turn s) as [s'|s'].
  - destruct Ht as [Hok' Hu]. eexists _, _, ks'. split; [reflexivity|]. split; [done|]. by apply upright_ready.
  - destruct Ht as [Hok' Hu]. destruct (Hsel s' eq_refl) as (Hch' & Hen & Hpan).
    destruct (turn_select_ok no_stats turn ks' s' Hok' Hu Hch' Hen Hpan) as (flow & s'' & ? & ? & ?).
    by exists flow, s'', ks'.
Qed.

Lemma start_ok preparation : loop_ok [] (stdin_start preparation) ∧ ready [] (stdin_start preparation).
Proof.
  split; [split|].
  - exists []. by left.
  - done.
  - split; constructor.
  - exists []. split; [done|]. split; [done|]. split; [done|]. constructor.
  - split; [done|]. split; [apply not_elem_of_nil|done].
  - intros _. left. split; [done|]. by left.
Qed.

Lemma streaming_ok no_stats preparation flow s :
  streaming no_stats preparation flow s → ∃ ks, loop_ok ks s ∧ ready ks s.
Proof.
  induction 1 as [|turn s flow s' _ (ks & Hok & Hr) Ht Hs]; [exists []; apply start_ok|].
  destruct (stdin_turn_ok no_stats turn ks s Hok Hr Ht) as (flow' & s'' & ks' & He & Hok' & Hr').
  rewrite Hs in He. injection He as <- <-. by exists ks'.
Qed.

(** What the reader of AppStdin sends is, at any time, such a channel. *)
Lemma reader_channel reader updates n closed :
  read_stdin_target_sets reader = Ok updates → (closed = true → (length updates <= n)%nat) →
  channel_ok (take n updates) closed.
Proof.
  unfold read_stdin_target_sets.
  rewrite (target_sets_ok _ (S (length (stream_bytes reader)))) by lia. intros <-%Ok_inj Hc.
  destruct (updates_end (S (length (stream_bytes reader))) 0 (stream_bytes reader) (stream_fails reader) ltac:(lia))
    as (sets & stop & Hu). rewrite Hu in Hc |- *. rewrite length_app, length_fmap in Hc. cbn in Hc.
  destruct (decide (length sets < n)%nat) as [Hn|Hn].
  - exists sets. right. exists stop. rewrite take_ge; [done|]. rewrite length_app, length_fmap. cbn. lia.
  - exists (take n sets). left. rewrite take_app_le by (rewrite length_fmap; lia). rewrite fmap_take.
    split; [done|]. destruct closed; [|done]. specialize (Hc eq_refl). lia.
Qed.

(** ** The end *)
Lemma drained_ok no_stats items ks s :
  loop_ok ks s → ∃ failed s', drain_events no_stats items s = Ok (failed, s') ∧ loop_ok ks s' ∧
    stop s' = stop s ∧ summary_targets s' = summary_targets s ∧ effects s' = effects s.
Proof.
  revert s. induction items as [|[event written|count] items IH]; intros s Hok; cbn [drain_events]; [by eexists _, _| |].
  - destruct (stdin_event_ok (negb no_stats) event (front s) (lo_terminal _ _ Hok)) as (f & -> & Ht & Hd). cbn [mbind Result_bind].
    assert (loop_ok ks (set_front f s)) as Hok1.
    { apply front_ok; [done..|]. intros targets Hs. pose proof (summary_dom _ _ _ Hok Hs). set_solver. }
    destruct written; [by eexists _, _|]. destruct (IH _ Hok1) as (failed & s' & -> & Hr). by eexists _, _.
  - assert (loop_ok ks (set_dropped (sat_u64 (dropped_events s + count)) s)) as Hok1 by by destruct Hok.
    destruct (IH _ Hok1) as (failed & s' & -> & Hr). by eexists _, _.
Qed.

Lemma report_ok outcomes f :
  terminal_ok f → ∃ f', report_outcomes outcomes f = Ok f' ∧ terminal_ok f' ∧ stats f' = stats f.
Proof.
  revert f. induction outcomes as [|outcome outcomes IH]; intros f Ht; [by eexists|]. cbn [report_outcomes].
  destruct (stdin_event_ok false (EvTargetFinished outcome) f Ht) as (f1 & Hp & Ht1 & _). rewrite Hp. cbn [mbind Result_bind].
  assert (stats f1 = stats f) as Hst.
  { revert Hp. cbn [process_stdin_event]. destruct (BoundedTargetSet.insert _ _) as [[[] t]|[]|]; by intros [= <-]. }
  destruct (IH f1 Ht1) as (f2 & -> & Ht2 & Hs2). exists f2. split; [done|]. split; [done|]. congruence.
Qed.

Lemma summaries_ok targets st :
  (∀ target, target ∈ targets → target ∈ dom st) →
  ∃ l, summary_stats targets st = Ok l ∧ l.*1 = targets ∧ Forall (λ p, st !! p.1 = Some p.2) l.
Proof.
  unfold summary_stats. induction targets as [|target targets IH]; intros Hd; cbn; [by exists []|].
  destruct (proj1 (elem_of_dom st target) (Hd target ltac:(left))) as [collector Hc]. rewrite Hc. cbn.
  destruct IH as (l & Hl & Hk & Hf); [intros t Ht; apply Hd; by right|]. rewrite Hl. cbn.
  exists ((target, collector) :: l). cbn. rewrite Hk. split; [done|]. split; [done|]. by constructor.
Qed.

(** ** A stop is not taken back *)
Lemma take_update_stop s : stop s = None →
  stop (take_update s) = if stdin_changed s || has_changed s
                         then match channel_value s with UpdateStop reason => Some reason | _ => None end else None.
Proof. intros Hs. unfold take_update. destruct (_ || _); [|done]. by destruct (channel_value s). Qed.

Lemma start_preparing_stop s : stop (start_preparing s) = stop s.
Proof. unfold start_preparing. by repeat case_match. Qed.

Lemma submit_stop turn s reason : stop s = Some reason → submit turn s = s.
Proof. intros Hs. unfold submit. by rewrite Hs. Qed.

Lemma turn_top_stop no_stats turn s :
  shutdown turn = false →
  stop (receive_updates (arrivals turn) (closes turn) s) ≠ None ∨
  stop (advanced turn (receive_updates (arrivals turn) (closes turn) s)) ≠ None →
  match turn_top no_stats turn s with inl s' | inr s' => stop s' ≠ None end.
Proof.
  intros Hsh. unfold turn_top. rewrite Hsh. generalize (receive_updates (arrivals turn) (closes turn) s). intros s1 Hs.
  change (submit turn (start_preparing (take_update s1))) with (advanced turn s1).
  set (s2 := match stop s1 with Some _ => s1 | None => _ end).
  assert (stop s2 ≠ None) as Hs2.
  { subst s2. destruct (stop s1) eqn:He; [congruence|]. destruct Hs as [Hs|Hs]; [done|]. cbv zeta.
    destruct (stop (advanced turn s1)) eqn:Ha; [|done].
    rewrite request_stop_stop, select_summaries_stop. cbn. congruence. }
  clearbody s2. cbv zeta. by destruct (Envelope.is_some _).
Qed.

Lemma turn_select_stop no_stats turn s flow s' :
  turn_select no_stats turn s = Ok (flow, s') → stop s ≠ None → stop s' ≠ None.
Proof.
  unfold turn_select. set (s1 := receive_updates _ _ s). intros Ht Hs. assert (stop s1 ≠ None) as Hs1 by done. clearbody s1.
  destruct (wake turn) as [| | | |answers status|result status|event shut status written|count|];
    try (by injection Ht as _ <-).
  - revert Ht. unfold on_prepared. destruct (preparing s1) as [[self specs]|]; [|done]. cbn.
    destruct (_ && _); [|by intros [= _ <-]].
    destruct (prepare _ _ _ _) as [[[targets next] lookups]|error|]; [by intros [= _ <-]| |done].
    intros [= _ <-]. apply stop_for_stop.
  - revert Ht. unfold on_receipt. destruct result as [ack|[]|]; cbn; try (by intros [= _ <-]);
      try (intros [= _ <-]; apply stop_for_stop).
    by destruct (desired s1), (desired_specs s1), (preparing s1); intros [= _ <-].
  - revert Ht. unfold on_event. destruct shut; [by intros [= _ <-]|].
    destruct (process_stdin_event _ _ _); [|done..]. by intros [= _ <-].
Qed.

(** The loop notices a stop the reader has sent. *)
Lemma advanced_notices turn ks s reason :
  loop_ok ks s → ready ks s → stop s = None → last (sent s) = Some (UpdateStop reason) → stop (advanced turn s) ≠ None.
Proof.
  intros Hok Hr Hs Hl. unfold advanced.
  assert (stop (take_update s) = Some reason) as Ht.
  { rewrite take_update_stop by done. unfold channel_value. rewrite Hl. cbn.
    assert (stdin_changed s || has_changed s = true) as ->; [|done].
    assert (sent s ≠ []) as Hne by (intros He; by rewrite He in Hl).
    destruct (Hr Hs) as [[Hc Hf]|[[Hc _]|Hc]]; [|by rewrite Hc|by rewrite Hc, orb_true_r].
    apply orb_true_iff. right. unfold has_changed. apply orb_true_iff. right. apply Nat.ltb_lt.
    assert (0 < length (sent s))%nat by (destruct (sent s); [done|cbn; lia]).
    destruct Hf as [(He & _)|(c & specs & Hc' & He & _)]; [lia|]. rewrite He.
    assert (c ≠ pred (length (sent s))); [|apply lookup_lt_Some in Hc'; lia].
    intros ->. rewrite last_lookup in Hl. congruence. }
  rewrite (submit_stop _ _ reason); rewrite start_preparing_stop, Ht; done.
Qed.
End theory.

(** ** Properties *)
Section properties.
Context `{HexCrate} `{Measurement} `{CountWindows} `{FirstInstant}.
Implicit Types s : StdinLoop.t.

(** C33: the driver is told the latest set. Whatever the reader sends and when,
    however slow the resolver is, whatever the driver answers and however the select
    chooses: every set submitted is one that was read, prepared; an older set is
    never submitted after a newer one; and when there is nothing left to do - no
    update unread, nothing being prepared, waiting or unanswered - the last set
    submitted is the last one sent, and the driver has applied it. *)
Theorem latest_set_submitted no_stats preparation flow s :
  streaming no_stats preparation flow s →
  (∃ ks, Forall2 (from (sent s)) ks (submissions (effects s)) ∧ StronglySorted le ks) ∧
  (stop s = None → sent s ≠ [] → stdin_changed s = false → has_changed s = false →
   desired_specs s = None → preparing s = None → desired s = None → pending s = false →
   ∃ pre targets, effects s = pre ++ [Submitted targets; Answered true] ∧
     from (sent s) (length (sent s) - 1) targets).
Proof.
  intros (ks & Hok & Hr)%streaming_ok. split; [exists ks; apply Hok|]. intros Hs Hne Hch Hhas Hds Hp Hd Hpe.
  destruct (Hr Hs) as [[_ Hf]|[[Hc _]|Hc]]; [|congruence..].
  unfold has_changed in Hhas. apply orb_false_elim in Hhas as [_ Hlen%Nat.ltb_ge].
  destruct Hf as [(He & _)|(c & specs & Hc & He & Hk & Ht)].
  { destruct (sent s); [done|]. cbn in Hlen. lia. }
  destruct Ht as [| | | |pre targets _ _ _ _ Hfr Heff]; try congruence. exists pre, targets. split; [done|].
  apply lookup_lt_Some in Hc. by replace (length (sent s) - 1)%nat with c by lia.
Qed.

(** The driver is told to stop exactly when the run decides to, once, and then
    nothing more. A turn that finds the shutdown flag ends the loop as interrupted;
    one that finds the reader's stop, its end of input or its error, decides to
    stop; a decision is never taken back. *)
Theorem stdin_stops_once no_stats preparation s turn flow s' :
  streaming no_stats preparation Continue s → turn_ok no_stats turn s → stdin_turn no_stats turn s = Ok (flow, s') →
  (StopSent ∈ effects s' ↔ stop s' ≠ None) ∧
  (stop s' ≠ None → ∃ pre, effects s' = pre ++ [StopSent] ∧ (StopSent ∉ pre)) ∧
  (shutdown turn = true → flow = Break ∧ stop s' = Some StdinInterrupted) ∧
  (stop s ≠ None ∨ (∃ reason, last (sent s ++ arrivals turn) = Some (UpdateStop reason)) → stop s' ≠ None).
Proof.
  intros Hst Hto Ht. destruct (streaming_ok _ _ _ _ Hst) as (ks & Hok & Hr).
  destruct (stdin_turn_ok _ _ _ _ Hok Hr Hto) as (flow' & s'' & ks' & He & Hok' & _).
  rewrite Ht in He. injection He as <- <-. pose proof (lo_stop _ _ Hok') as Hso. unfold stop_ok in Hso.
  split; [|split; [|split]].
  - destruct (stop s') eqn:Hs.
    + destruct Hso as (_ & (pre & -> & _) & _). split; [done|]. intros _. rewrite elem_of_app, list_elem_of_singleton. by right.
    + destruct Hso as (_ & Hn & _). by split.
  - intros Hs. destruct (stop s'); [|done]. apply Hso.
  - intros Hsh. revert Ht. unfold stdin_turn, turn_top. rewrite Hsh. intros [= <- <-]. split; [done|].
    by rewrite request_stop_stop.
  - intros Hcause. revert Ht. unfold stdin_turn. destruct (shutdown turn) eqn:Hsh.
    { unfold turn_top. rewrite Hsh. intros [= _ <-]. by rewrite request_stop_stop. }
    assert (match turn_top no_stats turn s with inl s' | inr s' => stop s' ≠ None end) as Htop.
    { apply turn_top_stop; [done|]. destruct (stop s) eqn:Hs; [left; cbn; congruence|]. right.
      destruct Hcause as [|[reason Hl]]; [done|]. destruct Hto as [Hch _].
      eapply (advanced_notices turn ks _ reason); [by apply arrivals_ok| |done|exact Hl].
      intros _. destruct (Hr Hs) as [[Hc Hf]|[[Hc Hne]|Hc]].
      - left. split; [done|]. by apply follows_receive.
      - right. left. split; [done|]. cbn. by intros [Hz _]%app_eq_nil.
      - right. right. revert Hc. unfold has_changed, receive_updates. cbn [closed sent seen set_channel].
        intros [->|Hc%Nat.ltb_lt]%orb_prop; [done|].
        rewrite (proj2 (Nat.ltb_lt _ _)); [by rewrite orb_true_r|]. rewrite length_app. lia. }
    destruct (turn_top no_stats turn s) as [s1|s1]; [by intros [= _ <-]|]. intros Hsel. by eapply turn_select_stop.
Qed.

(** C34: the frontend never panics, and summarises every target it promised to. Each
    turn of the loop goes through; after it, whatever was left in the event queue
    and whatever the driver's outcome, the run ends, every instance selected for a
    summary still has its statistics, and if output did not fail the summaries are
    those of the selected instances, each its own, when there is one to print. *)
Theorem stdin_frontend_total no_stats preparation flow s :
  streaming no_stats preparation flow s →
  (∀ turn, flow = Continue → turn_ok no_stats turn s → ∃ flow' s', stdin_turn no_stats turn s = Ok (flow', s')) ∧
  ∀ joined drained interrupted written, joined ≠ Panic →
    ∃ fin, stdin_finish no_stats joined drained interrupted written s = Ok fin ∧
      Forall (λ p, stats (front (finished fin)) !! p.1 = Some p.2) (printed_summaries fin) ∧
      ((∀ error, result fin ≠ Err (RunIo error)) →
       (interrupted = true → stop (finished fin) = Some StdinInterrupted) ∧
       (printed_summaries fin).*1
       = if prints_summary no_stats (stop (finished fin)) then elements (default ∅ (summary_targets (finished fin))) else []).
Proof.
  intros (ks & Hok & Hr)%streaming_ok. split.
  { intros turn _ Ht. destruct (stdin_turn_ok _ _ _ _ Hok Hr Ht) as (flow' & s' & ks' & He & _). eauto. }
  intros joined drained interrupted written Hj. unfold stdin_finish.
  destruct joined as [outcome|error|]; [|by eexists; split; [reflexivity|]; split; [constructor|]; intros He; destruct (He error)|done].
  destruct (drained_ok no_stats drained ks s Hok) as (failed & s1 & -> & Hok1 & _). cbn [mbind Result_bind].
  destruct failed as [error|]; [by eexists; split; [reflexivity|]; split; [constructor|]; intros He; destruct (He error)|].
  destruct (report_ok (ManagedOutcome.recent_target_outcomes outcome) _ (lo_terminal _ _ Hok1)) as (f & -> & Hft & Hfs).
  cbn [mbind Result_bind]. cbv zeta. set (s2 := match interrupted with true => _ | false => _ end).
  assert (front s2 = f ∧ (∀ targets, summary_targets s2 = Some targets → targets ⊆ dom (stats f)) ∧
    (interrupted = true → stop s2 = Some StdinInterrupted)) as (Hf2 & Hd2 & Hi2).
  { assert (∀ targets, summary_targets s1 = Some targets → targets ⊆ dom (stats f)) as Hd1.
    { intros targets Hs. rewrite Hfs. by eapply summary_dom. }
    subst s2. destruct interrupted; [|by split].
    change (stop (set_front f s1)) with (stop s1). destruct (stop s1) as [[]|] eqn:Hs; (split; [done|]); (split; [|intros _; first [done|exact Hs]]); cbn; first [exact Hd1|by intros targets [= <-]|intros targets [= <-]; set_solver]. }
  clearbody s2.
  destruct (summaries_ok (elements (default ∅ (summary_targets s2))) (stats f)) as (l & Hl & Hk & Hfo).
  { intros target. rewrite elem_of_elements. destruct (summary_targets s2) as [targets|]; cbn; [by apply Hd2|set_solver]. }
  assert (stop (set_front f s1) = stop s1) as Hsf by done.
  change (stop (set_front f s1)) with (stop s1) in *. rewrite Hl. cbn [mbind Result_bind].
  assert (Forall (λ p, stats (front s2) !! p.1 = Some p.2) (if prints_summary no_stats (stop s2) then l else [])) as Hfo2.
  { rewrite Hf2. by destruct (prints_summary _ _). }
  destruct written as [error|]; (eexists; split; [reflexivity|]); (split; [exact Hfo2|]).
  - intros He. by destruct (He error).
  - intros _. split; [done|]. cbn [printed_summaries finished]. rewrite <- Hk. by destruct (prints_summary _ _).
Qed.
End properties.

(** ** A concrete run *)
Section example.
#[local] Existing Instances hex_crate listed_measurement listed_windows first_instant.

(** The driver has the two targets of the set, in their first generation. *)
Definition status_of (ids : list bytes) (final : option ManagedOutcome.t) : ManagedStatus.t :=
  ManagedStatus.mk MRunning false 0 0 0 0 0 0 0 0 0 0 0 0 0
    ((λ id, ManagedTargetStatus.mk (TargetInstance.mk id 1) true LActive None [] None) <$> ids) [] final.
Definition ended : ManagedOutcome.t := ManagedOutcome.mk StopRequested 1 0 0 0 0 0 [].

Definition blank_turn (arrivals : list StdinUpdate) (revision : Z) (ids : list bytes) (w : Wake) : Turn :=
  mk_Turn arrivals false (mk_Snapshot revision (status_of ids None)) false true [] false w.

(** A set arrives and is prepared; it is submitted, and applied; the input ends. *)
Definition turn_prepared : Turn :=
  blank_turn [UpdateTargets [plain_spec; literal_spec]] 1 [] (WakePrepared (λ _ _, None) (status_of [] None)).
Definition acknowledged_ : CommandResult := Ok (ManagedCommandAcknowledgement.mk 1 (status_of [str "host"; str "[::1]"] None)).
Definition turn_applied : Turn :=
  blank_turn [] 1 [] (WakeReceipt acknowledged_ (status_of [str "host"; str "[::1]"] None)).
Definition turn_finished : Turn := blank_turn [UpdateStop StdinEof] 2 [str "host"; str "[::1]"] WakeStatusClosed.

Definition after (turn : Turn) (s : StdinLoop.t) : StdinLoop.t :=
  match stdin_turn false turn s with Ok (_, s) => s | _ => s end.
Definition start_ : StdinLoop.t := stdin_start (TargetPreparation.new AnyFamily false).
Definition prepared_ : StdinLoop.t := after turn_prepared start_.
Definition applied_ : StdinLoop.t := after turn_applied prepared_.
Definition ended_ : StdinLoop.t := after turn_finished applied_.

(** A turn is allowed if the reader's list is well formed and the branch enabled. *)
Lemma turn_allowed turn s sets rest :
  sent s ++ arrivals turn = (UpdateTargets <$> sets) ++ rest →
  rest = [] ∨ (∃ stop, rest = [UpdateStop stop]) →
  closed s = false → closes turn = false → later_arrivals turn = [] → later_closes turn = false →
  match turn_top false turn s with
  | inr s' => bool_decide (closed s' = false) && enabled (wake turn) s' = true ∧ sent s' = sent s ++ arrivals turn
  | inl _ => True
  end →
  match wake turn with WakeReceipt result _ => result ≠ Panic | _ => True end → turn_ok false turn s.
Proof.
  intros Hsent Hrest Hc Hcl Hla Hlc Htop Hp.
  assert (channel_ok (sent s ++ arrivals turn) false) as Hok.
  { exists sets. rewrite Hsent. destruct Hrest as [->|[stop ->]]; [left; by rewrite app_nil_r|right; by exists stop]. }
  split.
  - unfold on_channel. cbn. by rewrite Hc, Hcl.
  - intros s' Hs. rewrite Hs in Htop. destruct Htop as [[Hcs%bool_decide_eq_true Hen]%andb_prop Hse].
    rewrite Hla, Hlc. cbv zeta. unfold on_channel. cbn [receive_updates sent closed set_channel].
    rewrite app_nil_r, orb_false_r, Hse, Hcs. split; [done|]. split; [|done].
    unfold receive_updates. rewrite app_nil_r, orb_false_r. by destruct s'.
Qed.

Lemma streaming_after turn s flow :
  streaming false (TargetPreparation.new AnyFamily false) Continue s → turn_ok false turn s →
  match stdin_turn false turn s with Ok (f, _) => f = flow | _ => False end →
  streaming false (TargetPreparation.new AnyFamily false) flow (after turn s).
Proof.
  intros Hs Ht Hf. unfold after. destruct (stdin_turn false turn s) as [[f s']|[]|] eqn:He; [|done..]. subst f.
  by eapply stream_turn.
Qed.

Definition start_streaming : streaming false (TargetPreparation.new AnyFamily false) Continue start_ := stream_start _ _.

Lemma prepared_streaming : streaming false (TargetPreparation.new AnyFamily false) Continue prepared_.
Proof.
  apply streaming_after; [exact start_streaming| |vm_compute; reflexivity].
  apply (turn_allowed _ _ [[plain_spec; literal_spec]] []); first [by left|vm_compute; repeat split; discriminate].
Qed.

Lemma applied_streaming : streaming false (TargetPreparation.new AnyFamily false) Continue applied_.
Proof.
  apply streaming_after; [exact prepared_streaming| |vm_compute; reflexivity].
  apply (turn_allowed _ _ [[plain_spec; literal_spec]] []); first [by left|vm_compute; repeat split; discriminate].
Qed.

Lemma finished_ok : turn_ok false turn_finished applied_.
Proof.
  apply (turn_allowed _ _ [[plain_spec; literal_spec]] [UpdateStop StdinEof]); first [right; by eexists|vm_compute; repeat split; discriminate].
Qed.

Lemma latest_set_submitted_witness :
  ∃ pre targets, effects applied_ = pre ++ [Submitted targets; Answered true] ∧
    from [UpdateTargets [plain_spec; literal_spec]] 0 targets.
Proof.
  pose proof (proj2 (latest_set_submitted false (TargetPreparation.new AnyFamily false) Continue applied_ applied_streaming)) as Hl.
  assert (sent applied_ = [UpdateTargets [plain_spec; literal_spec]]) as Hsent by (vm_compute; reflexivity).
  rewrite Hsent in Hl. cbn [length Nat.sub] in Hl. apply Hl; [..|discriminate| | | | | |]; vm_compute; reflexivity.
Defined.

Lemma stdin_stops_once_witness :
  ∃ pre, effects ended_ = pre ++ [StopSent] ∧ (StopSent ∉ pre).
Proof.
  assert (stdin_turn false turn_finished applied_ = Ok (Break, ended_)) as He by (vm_compute; reflexivity).
  destruct (stdin_stops_once false (TargetPreparation.new AnyFamily false) applied_ turn_finished Break ended_
    applied_streaming finished_ok He) as (_ & Hp & _). apply Hp. vm_compute. discriminate.
Defined.

(** The run ends well, with a summary of both targets. *)
Lemma stdin_frontend_total_witness :
  ∃ fin, stdin_finish false (Ok ended) [] false None ended_ = Ok fin ∧ result fin = Ok tt ∧
    length (printed_summaries fin) = 2%nat.
Proof.
  assert (streaming false (TargetPreparation.new AnyFamily false) Break ended_) as Hs.
  { apply streaming_after; [exact applied_streaming|exact finished_ok|vm_compute; reflexivity]. }
  destruct (stdin_frontend_total false (TargetPreparation.new AnyFamily false) Break ended_ Hs) as [_ Hf].
  destruct (Hf (Ok ended) [] false None ltac:(discriminate)) as (fin & He & _). exists fin. split; [exact He|].
  revert He. vm_compute. intros [= <-]. split; reflexivity.
Defined.
End example.
