(* ===== verification/AppArgs.v ===== *)
(** * irtt-app: command line and run configuration

    Models what becomes of the client's command line: the value parsers and argument
    records of [crates/irtt-app/src/shared/client/args.rs] and [cmd/client/args.rs],
    the client template of [shared/client/config.rs] and the run setup of
    [shared/client/prepare.rs]. clap itself is what [clap_ok] says of the arguments it
    hands out; the [humantime] crate is the class [Humantime]. *)

From S2P Require Import Prelude ProtoBase Envelope ParamsCodec ClientBase ClientNegotiation ClientEvent Machine MachineInv Client.
From S2P Require Import ClientProps Endpoint Socket AsyncClient AsyncInv Timing Schedule ManagedBase ManagedTask ManagedTarget.
From S2P Require Import ManagedPacing ManagedUpdate Managed ManagedLogic ManagedSpecs ManagedPolls ManagedInv ManagedUpdateSpec.
From S2P Require Import ManagedRun ManagedProps Demo AppTargets AppStdin.

(** ** Value parsers (shared/client/args.rs) *)
(** [humantime::parse_duration]. *)
Class Humantime := { parse_humantime : bytes → Result string Z }.
Class HumantimeLaws `{Humantime} := {
  humantime_duration text d : parse_humantime text = Ok d → duration_ok d;
}.

(** A message, or "invalid [what]" followed by the input in quotes. *)
Inductive ArgError : Type :=
  | ArgMessage (message : string)
  | InvalidArg (what : string) (input : bytes).

Definition parse_bind_addr (input : bytes) : Result ArgError SocketAddr :=
  match parse_socket_addr input with
  | Some addr => Ok addr
  | None =>
      match parse_with read_ipv4_addr input, parse_ipv6_addr input with
      | Some ip, _ => Ok (V4 ip 0)
      | None, Some ip => Ok (V6 ip 0 0 0)
      | None, None => Err (ArgMessage "expected an IP address, optionally with a port")
      end
  end.

Section values.
Context `{Humantime}.

Definition parse_test_duration (input : bytes) : Result ArgError Z :=
  if bool_decide (input = str "0") then Ok 0 else map_err ArgMessage (parse_humantime input).

Definition parse_duration (input : bytes) : Result ArgError Z :=
  duration ← parse_test_duration input;
  if duration =? 0 then Err (ArgMessage "duration must be greater than zero") else Ok duration.
End values.

Definition parse_length (input : bytes) : Result ArgError Z :=
  length ← ok_or (parse_uint 32 input) (InvalidArg "packet length" input);
  if MAX_UDP_PAYLOAD_LENGTH <? length
  then Err (ArgMessage ("packet length must be <= " +:+ pretty MAX_UDP_PAYLOAD_LENGTH)) else Ok length.

Definition parse_server_fill (input : bytes) : Result ArgError bytes :=
  if bool_decide (input = []) then Err (ArgMessage "server fill must not be empty")
  else if MAX_SERVER_FILL_BYTES <? len input
  then Err (ArgMessage ("server fill must be <= " +:+ pretty MAX_SERVER_FILL_BYTES +:+ " bytes, got " +:+ pretty (len input)))
  else Ok input.

Definition parse_dscp (input : bytes) : Result ArgError Z :=
  value ← ok_or (parse_uint 8 input) (InvalidArg "DSCP codepoint" input);
  if MAX_DSCP_CODEPOINT <? value
  then Err (ArgMessage ("DSCP codepoint must be <= " +:+ pretty MAX_DSCP_CODEPOINT)) else Ok value.

Definition parse_ttl (input : bytes) : Result ArgError Z :=
  value ← ok_or (parse_uint 32 input) (InvalidArg "TTL/hop limit" input);
  if (value =? 0) || (MAX_TTL <? value)
  then Err (ArgMessage ("TTL/hop limit must be in range 1..=" +:+ pretty MAX_TTL)) else Ok value.

Inductive ClockArg : Type := ClockWall | ClockMonotonic | ClockBoth.
Definition clock_of (value : ClockArg) : Clock.t :=
  match value with ClockWall => Clock.Wall | ClockMonotonic => Clock.Monotonic | ClockBoth => Clock.Both end.

Inductive TimestampArg : Type := TsNone | TsSend | TsReceive | TsBoth | TsMidpoint.
Definition stamp_of (value : TimestampArg) : StampAt.t :=
  match value with
  | TsNone => StampAt.None | TsSend => StampAt.Send | TsReceive => StampAt.Receive
  | TsBoth => StampAt.Both | TsMidpoint => StampAt.Midpoint
  end.

Inductive ReceivedStatsArg : Type := RsNone | RsCount | RsWindow | RsBoth.
Definition received_stats_of (value : ReceivedStatsArg) : ReceivedStats.t :=
  match value with
  | RsNone => ReceivedStats.None | RsCount => ReceivedStats.Count
  | RsWindow => ReceivedStats.Window | RsBoth => ReceivedStats.Both
  end.

Inductive GroupPacingArg : Type := PaceStaggered | PaceBurst.
Definition pacing_of (value : GroupPacingArg) : ManagedPacing :=
  match value with PaceStaggered => Staggered | PaceBurst => Burst end.

(** ** Arguments *)
(** The fields of a Linux build. *)
Module CommonClientArgs.
Record t : Type := mk {
  ipv4 : bool;
  ipv6 : bool;
  dual_stack : bool;
  interval : Z;
  timeouts : list Z;
  length : Z;
  hmac : option bytes;
  clock : ClockArg;
  tstamp : TimestampArg;
  stats : ReceivedStatsArg;
  server_fill : option bytes;
  dscp : Z;
  ttl : option Z;
  bind_addr : option SocketAddr;
  bind_to_device : option bytes;
  mark : option Z;
  loose : bool;
}.
End CommonClientArgs.

Inductive EventKind : Type :=
  | KindSessionStarted | KindNoTestCompleted | KindSessionClosed | KindEchoSent | KindEchoReply
  | KindLoss | KindDuplicate | KindLate | KindWarning.
#[export] Instance EventKind_eq_dec : EqDecision EventKind.
Proof. solve_decision. Defined.
Inductive OutputFormat : Type := Table | Csv | Tsv | Jsonl.
#[export] Instance OutputFormat_eq_dec : EqDecision OutputFormat.
Proof. solve_decision. Defined.
Inductive HeaderMode : Type := HeaderAuto | HeaderAlways | HeaderNever.

Module ClientArgs.
Record t : Type := mk {
  targets : list bytes;
  targets_stdin : bool;
  no_test : bool;
  pacing : GroupPacingArg;
  duration : Z;
  continuous : bool;
  no_stats : bool;
  reconnect : bool;
  reconnect_timeout : Z;
  reconnect_initial_delay : Z;
  reconnect_max_delay : Z;
  common : CommonClientArgs.t;
  format : OutputFormat;
  events : list EventKind;
  columns : option bytes;
  list_columns : bool;
  header : HeaderMode;
  verbose : bool;
}.
Definition is_continuous (self : t) : bool := continuous self || (duration self =? 0).
End ClientArgs.

(** ** The client template (config.rs) *)
Section config.
Context `{HexCrate}.
Import CommonClientArgs.

Definition address_family (self : CommonClientArgs.t) : AddressFamily :=
  if ipv4 self then Ipv4 else if ipv6 self then Ipv6 else AnyFamily.

Definition to_client_config (duration : Z) (self : CommonClientArgs.t) : Result string ClientConfig.t :=
  let negotiation := if loose self then Loose else Strict in
  let timeouts :=
    if bool_decide (timeouts self = []) then OpenPolicy.timeouts OpenPolicy.default else timeouts self in
  auth ←
    (match hmac self with
     | Some input => key ← decode_hmac_key input; Ok (HmacAuth key)
     | None => Ok Unauthenticated
     end);
  Ok (ClientConfig.mk (address_family self)
        (SocketConfig.mk (bind_addr self) (bind_to_device self) (mark self) (ttl self))
        (SessionRequest.mk (if duration =? 0 then None else Some duration) (interval self) (length self)
           (received_stats_of (stats self)) (stamp_of (tstamp self)) (clock_of (clock self)) (dscp self)
           (server_fill self) (SessionRequest.run_mode SessionRequest.default))
        (OpenPolicy.mk timeouts negotiation) auth
        (ClientConfig.probe_timeout ClientConfig.default) (ClientConfig.max_pending_probes ClientConfig.default)).
End config.

Definition expected_probe_count (duration interval : Z) : Z :=
  if interval =? 0 then U64_MAX
  else
    let expected := Z.min U128_MAX (duration + Z.max 0 (interval - 1)) / interval in
    Z.min expected U64_MAX.

(** ** The run setup (prepare.rs) *)
Definition MANAGED_EVENT_CAPACITY : Z := 16_384.
Definition STDIN_MAX_LIVE_TARGET_GENERATIONS : Z := 256.

Module TargetSelection.
Record t : Type := mk { targets : list bytes; pacing : GroupPacingArg; stdin_controlled : bool }.
End TargetSelection.

Module ManagedRunSetup.
Record t : Type := mk {
  targets : list PreparedTarget.t;
  client : ClientConfig.t;
  pacing : ManagedPacing;
  stdin_controlled : bool;
  preparation : TargetPreparation.t;
}.
Definition target_count (self : t) : Z := len (targets self).
Definition is_multi_target (self : t) : bool := 1 <? len (targets self).
Definition managed_targets (self : t) : list ManagedTargetConfig.t := PreparedTarget.managed <$> targets self.

Definition managed_config (self : t) : ManagedClientConfig.t :=
  let d := ManagedClientConfig.default in
  let config completion outcomes live :=
    ManagedClientConfig.mk (client self) (pacing self) completion MANAGED_EVENT_CAPACITY
      (ManagedClientConfig.command_capacity d) outcomes live (ManagedClientConfig.final_drain d)
      (ManagedClientConfig.reconnect_timeout d) (ManagedClientConfig.reconnect_initial_delay d)
      (ManagedClientConfig.reconnect_max_delay d) in
  if stdin_controlled self
  then config ExplicitStop STDIN_OUTCOME_HISTORY_LIMIT STDIN_MAX_LIVE_TARGET_GENERATIONS
  else config FinishWhenQuiescent (target_count self) (target_count self).
End ManagedRunSetup.

(** [client.request.run_mode = RunMode::NoTest]. *)
Definition set_no_test (client : ClientConfig.t) : ClientConfig.t :=
  let r := ClientConfig.request client in
  let request :=
    SessionRequest.mk (SessionRequest.duration r) (SessionRequest.interval r) (SessionRequest.length r)
      (SessionRequest.received_stats r) (SessionRequest.stamp_at r) (SessionRequest.clock r)
      (SessionRequest.dscp r) (SessionRequest.server_fill r) NoTest in
  ClientConfig.mk (ClientConfig.address_family client) (ClientConfig.socket client) request (ClientConfig.open client)
    (ClientConfig.auth client) (ClientConfig.probe_timeout client) (ClientConfig.max_pending_probes client).

Section prepare.
Context `{HexCrate}.

(** With the endpoints looked up; [answers] is the resolver. *)
Definition prepare_managed_run (common : CommonClientArgs.t) (duration : Z) (selection : TargetSelection.t)
    (answers : Z → bytes * Z → option (list SocketAddr)) : Result string (ManagedRunSetup.t * list (bytes * Z)) :=
  let stdin_controlled := TargetSelection.stdin_controlled selection in
  specs ←
    (if stdin_controlled then
       if STDIN_MAX_DESIRED_TARGETS <? len (TargetSelection.targets selection)
       then Err ("initial target set exceeds the " +:+ pretty STDIN_MAX_DESIRED_TARGETS +:+ "-target limit")
       else target_specs_with_empty (TargetSelection.targets selection) true
     else target_specs (TargetSelection.targets selection));
  '(targets, preparation, lookups) ←
    prepare (TargetPreparation.new (address_family common) (CommonClientArgs.dual_stack common)) answers specs
      (if stdin_controlled then Some STDIN_MAX_DESIRED_TARGETS else None);
  client ← to_client_config duration common;
  Ok (ManagedRunSetup.mk targets client (pacing_of (TargetSelection.pacing selection)) stdin_controlled preparation, lookups).

(** [ClientArgs::prepare]. *)
Definition prepare_client (self : ClientArgs.t) (answers : Z → bytes * Z → option (list SocketAddr))
    : Result string (ManagedRunSetup.t * list (bytes * Z)) :=
  let initial := ClientArgs.reconnect_initial_delay self in
  if ClientArgs.reconnect self && negb (ClientArgs.is_continuous self)
  then Err "--reconnect requires --continuous or --duration 0"
  else if negb (2 * initial <=? DURATION_MAX) || (ClientArgs.reconnect_max_delay self <? 2 * initial)
  then Err "--reconnect-max-delay must be at least twice --reconnect-initial-delay"
  else if ClientArgs.targets_stdin self && negb (ClientArgs.is_continuous self)
  then Err "--targets-stdin requires --continuous or --duration 0"
  else
    '(setup, lookups) ←
      prepare_managed_run (ClientArgs.common self)
        (if ClientArgs.continuous self then 0 else ClientArgs.duration self)
        (TargetSelection.mk (ClientArgs.targets self) (ClientArgs.pacing self) (ClientArgs.targets_stdin self))
        answers;
    Ok (if ClientArgs.no_test self then
          ManagedRunSetup.mk (ManagedRunSetup.targets setup) (set_no_test (ManagedRunSetup.client setup))
            (ManagedRunSetup.pacing setup) (ManagedRunSetup.stdin_controlled setup) (ManagedRunSetup.preparation setup)
        else setup, lookups).
End prepare.

(** The configuration both run functions give the driver (cmd/client/run.rs). *)
Definition run_config (args : ClientArgs.t) (setup : ManagedRunSetup.t) : ManagedClientConfig.t :=
  let config := ManagedRunSetup.managed_config setup in
  ManagedClientConfig.mk (ManagedClientConfig.client config) (ManagedClientConfig.pacing config)
    (ManagedClientConfig.completion config) (ManagedClientConfig.event_capacity config)
    (ManagedClientConfig.command_capacity config) (ManagedClientConfig.outcome_history_limit config)
    (ManagedClientConfig.max_live_target_generations config) (ManagedClientConfig.final_drain config)
    (if ClientArgs.reconnect args then Some (ClientArgs.reconnect_timeout args) else None)
    (ClientArgs.reconnect_initial_delay args) (ClientArgs.reconnect_max_delay args).

(** The clock readings [build_task] checks a configuration at. *)
Definition start_readings `{Runtime} (config : ManagedClientConfig.t) (w : World) : Z * Z * Z :=
  let '(now1, w) := instant_now w in
  let '(now2, w) :=
    match ManagedClientConfig.reconnect_timeout config with Some _ => instant_now w | None => (now1, w) end in
  (now1, now2, (instant_now w).1).

(** ** What clap hands out *)
(** An option's value is its default or what its parser made of a string. *)
Definition parsed {A} (parse : bytes → Result ArgError A) (value : A) : Prop :=
  ∃ text, string_ok text ∧ parse text = Ok value.

Section clap.
Context `{Humantime}.

(** The values the [arg] attributes of [CommonClientArgs] let through. *)
Record clap_common (c : CommonClientArgs.t) : Prop := {
  cl_interval : CommonClientArgs.interval c = from_secs 1 ∨ parsed parse_duration (CommonClientArgs.interval c);
  cl_timeouts : Forall (parsed parse_duration) (CommonClientArgs.timeouts c);
  cl_length : CommonClientArgs.length c = 0 ∨ parsed parse_length (CommonClientArgs.length c);
  cl_fill : ∀ fill, CommonClientArgs.server_fill c = Some fill → parsed parse_server_fill fill;
  cl_dscp : CommonClientArgs.dscp c = 0 ∨ parsed parse_dscp (CommonClientArgs.dscp c);
  cl_ttl : ∀ ttl, CommonClientArgs.ttl c = Some ttl → parsed parse_ttl ttl;
}.

Definition DEFAULT_CLIENT_DURATION : Z := from_secs 10.

Record clap_ok (args : ClientArgs.t) : Prop := {
  cl_common : clap_common (ClientArgs.common args);
  cl_duration : ClientArgs.duration args = DEFAULT_CLIENT_DURATION ∨ parsed parse_test_duration (ClientArgs.duration args);
  cl_continuous : ClientArgs.continuous args = true → ClientArgs.duration args = DEFAULT_CLIENT_DURATION;
  cl_no_test : ClientArgs.no_test args = true → ClientArgs.targets_stdin args = false ∧ ClientArgs.reconnect args = false;
  cl_reconnect_timeout : ClientArgs.reconnect_timeout args = from_secs 10 ∨
    parsed parse_duration (ClientArgs.reconnect_timeout args);
  cl_initial_delay : ClientArgs.reconnect_initial_delay args = from_millis 250 ∨
    parsed parse_duration (ClientArgs.reconnect_initial_delay args);
  cl_max_delay : ClientArgs.reconnect_max_delay args = from_secs 10 ∨
    parsed parse_duration (ClientArgs.reconnect_max_delay args);
}.

(** ** Lemmas *)
Lemma test_duration_ok `{!HumantimeLaws} text d : parse_test_duration text = Ok d → duration_ok d.
Proof.
  unfold parse_test_duration. case_bool_decide; [by intros [= <-]|].
  destruct (parse_humantime text) eqn:Hp; [|done..]. intros [= <-]. by eapply humantime_duration.
Qed.

Lemma duration_parsed `{!HumantimeLaws} d : parsed parse_duration d → 0 < d <= DURATION_MAX.
Proof.
  intros (text & _ & Hp). revert Hp. unfold parse_duration. intros (x & Hx%test_duration_ok & Hp)%bind_ok.
  destruct (Z.eqb_spec x 0); [done|]. injection Hp as <-. unfold duration_ok in Hx. lia.
Qed.

(** A default or a parsed duration. *)
Lemma option_duration `{!HumantimeLaws} default d :
  0 < default <= DURATION_MAX → d = default ∨ parsed parse_duration d → 0 < d <= DURATION_MAX.
Proof. intros Hd [->|Hp]; [done|by apply duration_parsed]. Qed.

Lemma length_parsed n : n = 0 ∨ parsed parse_length n → 0 <= n <= MAX_UDP_PAYLOAD_LENGTH.
Proof.
  unfold MAX_UDP_PAYLOAD_LENGTH. intros [->|(text & _ & Hp)]; [lia|]. revert Hp. unfold parse_length.
  intros (x & Hx & Hp)%bind_ok. unfold ok_or, parse_uint in Hx.
  destruct (read_digits _ _ _ _ _) as [[[r []] []]|]; try done. case_bool_decide as Hu; [|done]. injection Hx as ->.
  unfold MAX_UDP_PAYLOAD_LENGTH in Hp. destruct (Z.ltb_spec 65507 x); [done|]. injection Hp as <-. unfold in_u in Hu. lia.
Qed.

Lemma dscp_parsed n : n = 0 ∨ parsed parse_dscp n → 0 <= n <= MAX_DSCP_CODEPOINT.
Proof.
  unfold MAX_DSCP_CODEPOINT. intros [->|(text & _ & Hp)]; [lia|]. revert Hp. unfold parse_dscp.
  intros (x & Hx & Hp)%bind_ok. unfold ok_or, parse_uint in Hx.
  destruct (read_digits _ _ _ _ _) as [[[r []] []]|]; try done. case_bool_decide as Hu; [|done]. injection Hx as ->.
  unfold MAX_DSCP_CODEPOINT in Hp. destruct (Z.ltb_spec 63 x); [done|]. injection Hp as <-. unfold in_u in Hu. lia.
Qed.

Lemma ttl_parsed n : parsed parse_ttl n → validate_ttl n = Ok tt.
Proof.
  intros (text & _ & Hp). revert Hp. unfold parse_ttl, validate_ttl. intros (x & _ & Hp)%bind_ok.
  destruct (_ || _) eqn:Ho; [done|]. injection Hp as <-. by rewrite Ho.
Qed.

Lemma fill_parsed fill :
  parsed parse_server_fill fill → string_ok fill ∧ len fill ≠ 0 ∧ len fill <= MAX_SERVER_FILL_BYTES.
Proof.
  intros (text & Ht & Hp). revert Hp. unfold parse_server_fill. case_bool_decide as Hn; [done|].
  destruct (Z.ltb_spec MAX_SERVER_FILL_BYTES (len text)); [done|]. intros [= <-]. split; [done|]. split; [|done].
  destruct text; [done|]. rewrite len_cons. pose proof (len_nonneg text). lia.
Qed.
End clap.

(** ** The prepared run *)
Section launch.
Context `{Humantime} `{!HumantimeLaws} `{HexCrate}.

(** The duration a run asks for. *)
Definition run_duration (args : ClientArgs.t) : Z :=
  if ClientArgs.continuous args then 0 else ClientArgs.duration args.

Lemma run_duration_ok args : clap_ok args → duration_ok (run_duration args).
Proof.
  intros Hc. unfold run_duration. destruct (ClientArgs.continuous args); [by unfold duration_ok, DURATION_MAX, U64_MAX|].
  destruct (cl_duration _ Hc) as [->|(text & _ & Hp)]; [by unfold duration_ok, DURATION_MAX, U64_MAX|].
  by eapply test_duration_ok.
Qed.

Lemma run_duration_zero args : (run_duration args =? 0) = ClientArgs.is_continuous args.
Proof. unfold run_duration, ClientArgs.is_continuous. by destruct (ClientArgs.continuous args). Qed.

Lemma expanded_ids spec families : ManagedTargetConfig.id <$> (PreparedTarget.managed <$> expand_target spec families)
  = PreparedTarget.label <$> expand_target spec families.
Proof. destruct families as [[[] []]|]; reflexivity. Qed.

Lemma expansions_ids specs sel : ManagedTargetConfig.id <$> (PreparedTarget.managed <$> expansions specs sel)
  = PreparedTarget.label <$> expansions specs sel.
Proof.
  revert sel. induction specs as [|spec specs IH]; intros [|s sel]; try done. unfold expansions in *. cbn.
  by rewrite !fmap_app, IH, expanded_ids.
Qed.

(** Discovery that succeeds finds a family. *)
Lemma discovered_some result families : discovery_families result = Ok families → families ≠ (false, false).
Proof. unfold discovery_families. intros (addrs & _ & Hf)%bind_ok. case_bool_decide; [done|]. by injection Hf as <-. Qed.

Lemma fresh_selection f d answer spec families looked :
  select_families (TargetPreparation.new f d) answer spec = Ok (families, looked) → expand_target spec families ≠ [].
Proof.
  unfold select_families. cbn. destruct (literal_ip _) as [ip|].
  { destruct f, ip; try done; by intros [= <- <-]. }
  destruct d; [|by intros [= <- <-]]. rewrite lookup_empty.
  intros (endpoint & _ & (fam & Hd%discovered_some & [= <- <-])%bind_ok)%bind_ok. by destruct fam as [[] []].
Qed.

Lemma specs_distinct texts allow specs :
  target_specs_with_empty texts allow = Ok specs → NoDup (TargetSpec.label <$> specs) ∧ (allow = false → specs ≠ []).
Proof.
  unfold target_specs_with_empty. intros (l & _ & Hs)%bind_ok. destruct (_ && _) eqn:He; [done|].
  case_bool_decide as Hn; [|done]. injection Hs as <-. split; [done|]. intros -> ->. done.
Qed.

Lemma prepare_client_ok args answers setup lookups :
  prepare_client args answers = Ok (setup, lookups) →
  ∃ cfg, to_client_config (run_duration args) (ClientArgs.common args) = Ok cfg ∧
    ManagedRunSetup.client setup = (if ClientArgs.no_test args then set_no_test cfg else cfg) ∧
    NoDup (ManagedTargetConfig.id <$> ManagedRunSetup.managed_targets setup) ∧
    ManagedRunSetup.stdin_controlled setup = ClientArgs.targets_stdin args ∧
    (if ClientArgs.targets_stdin args then len (ManagedRunSetup.targets setup) <= STDIN_MAX_DESIRED_TARGETS
     else ManagedRunSetup.targets setup ≠ []) ∧
    (ClientArgs.reconnect args = true → ClientArgs.is_continuous args = true) ∧
    2 * ClientArgs.reconnect_initial_delay args <= DURATION_MAX ∧
    2 * ClientArgs.reconnect_initial_delay args <= ClientArgs.reconnect_max_delay args.
Proof.
  unfold prepare_client. cbv zeta. destruct (_ && negb _) eqn:Hrec; [done|].
  destruct (_ || _) eqn:Hdel; [done|]. destruct (ClientArgs.targets_stdin args && _) eqn:Hstd; [done|].
  apply orb_false_elim in Hdel as [Hd1%negb_false_iff%Z.leb_le Hd2%Z.ltb_ge].
  intros ([setup0 l] & Hp & [= <- <-])%bind_ok. unfold prepare_managed_run in Hp. cbn [TargetSelection.stdin_controlled TargetSelection.targets] in Hp.
  apply bind_ok in Hp as (specs & Hs & ([[targets prep] lk] & Hpre & (cfg & Hcfg & [= <- <-])%bind_ok)%bind_ok).
  apply prepared_ok in Hpre as (sel & [Hlen Hsel] & -> & Hn & _ & _ & _ & -> & Hmax);
    [|by destruct (ClientArgs.targets_stdin args)].
  exists cfg. split; [done|].
  assert (ClientArgs.reconnect args = true → ClientArgs.is_continuous args = true) as Hrc.
  { intros Hr. rewrite Hr in Hrec. by apply negb_false_iff in Hrec. }
  assert (if ClientArgs.targets_stdin args then len (expansions specs sel) <= STDIN_MAX_DESIRED_TARGETS
          else expansions specs sel ≠ []) as Hcount.
  { destruct (ClientArgs.targets_stdin args); [done|]. apply specs_distinct in Hs as [_ Hne].
    destruct specs as [|spec specs]; [by destruct Hne|]. destruct sel as [|s sel]; [done|].
    specialize (Hsel 0%nat spec s eq_refl eq_refl). destruct s as [families looked].
    apply fresh_selection in Hsel. unfold expansions. cbn. by intros [? _]%app_eq_nil. }
  destruct (ClientArgs.no_test args); cbn; (split; [done|]); unfold ManagedRunSetup.managed_targets; cbn; rewrite expansions_ids; by split_and!.
Qed.

(** The values a run could still be refused for: those the command line does not bound. *)
Definition encodable (args : ClientArgs.t) : Prop :=
  Forall (λ d, MIN_OPEN_TIMEOUT <= d) (CommonClientArgs.timeouts (ClientArgs.common args)) ∧
  CommonClientArgs.interval (ClientArgs.common args) <= I64_MAX ∧ run_duration args <= I64_MAX.

Lemma encoded_duration field d : 0 <= d → config_duration_to_ns field d = Ok d ∨ (I64_MAX < d ∧ ∃ e, config_duration_to_ns field d = Err e).
Proof.
  intros Hd. unfold config_duration_to_ns, try_i64, invalid_config. case_decide as Hi; [by left|right].
  split; [|by eexists]. unfold in_i in Hi. unfold I64_MAX. change (2 ^ (64 - 1)) with 9223372036854775808 in Hi.
  change (2 ^ 63) with 9223372036854775808. lia.
Qed.

Section template.
Context `{Target} (args : ClientArgs.t) (cfg : ClientConfig.t).
Context (Hclap : clap_ok args) (Hcfg : to_client_config (run_duration args) (ClientArgs.common args) = Ok cfg).
Let client := if ClientArgs.no_test args then set_no_test cfg else cfg.

(** The fields of the template, whichever the run mode. *)
Lemma template_fields :
  let c := ClientArgs.common args in
  SessionRequest.duration (ClientConfig.request client) = (if run_duration args =? 0 then None else Some (run_duration args)) ∧
  SessionRequest.interval (ClientConfig.request client) = CommonClientArgs.interval c ∧
  SessionRequest.length (ClientConfig.request client) = CommonClientArgs.length c ∧
  SessionRequest.clock (ClientConfig.request client) = clock_of (CommonClientArgs.clock c) ∧
  SessionRequest.dscp (ClientConfig.request client) = CommonClientArgs.dscp c ∧
  SessionRequest.server_fill (ClientConfig.request client) = CommonClientArgs.server_fill c ∧
  SessionRequest.run_mode (ClientConfig.request client) = (if ClientArgs.no_test args then NoTest else NormalMode) ∧
  OpenPolicy.timeouts (ClientConfig.open client) =
    (if bool_decide (CommonClientArgs.timeouts c = []) then DEFAULT_OPEN_TIMEOUTS else CommonClientArgs.timeouts c) ∧
  SocketConfig.ttl (ClientConfig.socket client) = CommonClientArgs.ttl c ∧
  ClientConfig.probe_timeout client = DEFAULT_PROBE_TIMEOUT ∧ ClientConfig.max_pending_probes client = DEFAULT_MAX_PENDING.
Proof.
  clear Hclap. revert Hcfg. subst client. unfold to_client_config. intros (auth & _ & [= <-])%bind_ok.
  by destruct (ClientArgs.no_test args).
Qed.

Lemma interval_range : 0 < CommonClientArgs.interval (ClientArgs.common args) <= DURATION_MAX.
Proof. eapply option_duration, cl_interval, cl_common, Hclap. by unfold DURATION_MAX, U64_MAX. Qed.

Lemma template_config_ok : config_ok client.
Proof.
  destruct template_fields as (Hd & Hi & Hl & _ & Hds & Hf & _ & _ & _ & Hp & Hm).
  destruct (cl_common _ Hclap) as [_ _ Hlen Hfill Hdscp _]. split; [split| |].
  - rewrite Hd. intros d. destruct (_ =? 0); [done|]. intros [= <-]. by apply run_duration_ok.
  - rewrite Hi. pose proof interval_range. unfold duration_ok. lia.
  - rewrite Hl. apply length_parsed in Hlen. unfold in_u, MAX_UDP_PAYLOAD_LENGTH in *. lia.
  - rewrite Hds. apply dscp_parsed in Hdscp. unfold in_u, MAX_DSCP_CODEPOINT in *. lia.
  - rewrite Hf. intros f Hs. by apply fill_parsed, Hfill.
  - by rewrite Hp.
  - rewrite Hm. unfold DEFAULT_MAX_PENDING. pose proof USIZE_MAX_lo. lia.
Qed.

Lemma template_request : validate_request (ClientConfig.request client) = Ok tt.
Proof.
  destruct template_fields as (Hd & Hi & Hl & Hc & Hds & Hf & _). destruct (cl_common _ Hclap) as [_ _ Hlen Hfill Hdscp _].
  apply length_parsed in Hlen. apply dscp_parsed in Hdscp. pose proof interval_range.
  unfold validate_request. rewrite Hd, Hi, Hl, Hc, Hds, Hf.
  rewrite bool_decide_false by (destruct (Z.eqb_spec (run_duration args) 0); congruence).
  rewrite (proj2 (Z.eqb_neq _ _)) by lia. rewrite bool_decide_false by by destruct (CommonClientArgs.clock _).
  rewrite !(proj2 (Z.ltb_ge _ _)) by lia. destruct (CommonClientArgs.server_fill _) as [fill|]; [|done].
  destruct (fill_parsed fill (Hfill _ eq_refl)) as (_ & Hne & Hmx).
  by rewrite (proj2 (Z.eqb_neq _ _) Hne), (proj2 (Z.ltb_ge _ _) Hmx).
Qed.

(** A target's configuration is refused only for what is not encodable. *)
Lemma template_target target :
  (encodable args → validate_target_config (client_config_for client target) = Ok tt) ∧
  (validate_target_config (client_config_for client target) = Ok tt → encodable args) ∧
  no_panic (validate_target_config (client_config_for client target)).
Proof.
  destruct template_fields as (Hd & Hi & _ & _ & Hds & _ & _ & Ht & Httl & Hp & Hm).
  destruct (cl_common _ Hclap) as [_ _ _ _ Hdscp Hcttl]. apply dscp_parsed in Hdscp.
  assert (OpenPolicy.validate (ClientConfig.open client) = OpenPolicy.validate_timeouts (CommonClientArgs.timeouts (ClientArgs.common args))) as Hopen.
  { unfold OpenPolicy.validate. rewrite Ht. case_bool_decide as Hn; [by rewrite Hn|]. by destruct (CommonClientArgs.timeouts _). }
  assert (no_panic (OpenPolicy.validate_timeouts (CommonClientArgs.timeouts (ClientArgs.common args)))) as Hnp.
  { unfold no_panic. generalize (CommonClientArgs.timeouts (ClientArgs.common args)). clear. intros l. induction l as [|x l IH]; [done|]. cbn [OpenPolicy.validate_timeouts]. by destruct (x <? MIN_OPEN_TIMEOUT). }
  assert (match SocketConfig.ttl (ClientConfig.socket client) with Some ttl => validate_ttl ttl | None => Ok tt end = Ok tt) as Hv.
  { rewrite Httl. destruct (CommonClientArgs.ttl _) as [ttl|]; [by apply ttl_parsed, Hcttl|done]. }
  unfold validate_target_config, client_config_for. cbn [ClientConfig.open ClientConfig.socket]. rewrite Hopen, Hv.
  unfold validate_config. cbn [ClientConfig.max_pending_probes ClientConfig.probe_timeout ClientConfig.request].
  rewrite Hm, Hp. cbn [Z.eqb DEFAULT_MAX_PENDING]. unfold encodable. rewrite <- validate_timeouts_ok.
  assert ((DEFAULT_PROBE_TIMEOUT =? 0) = false) as -> by done.
  unfold params_from_request. rewrite template_request, Hd, Hi. cbn [mbind Result_bind].
  assert (∃ tc, dscp_codepoint_to_traffic_class (SessionRequest.dscp (ClientConfig.request client)) = Ok tc) as [tc ->].
  { rewrite Hds. unfold dscp_codepoint_to_traffic_class. rewrite (proj2 (Z.ltb_ge _ _)) by lia. eauto. }
  pose proof interval_range as Hr. pose proof (run_duration_ok args Hclap) as Hrd. unfold duration_ok in Hrd.
  destruct (OpenPolicy.validate_timeouts _) as [[]|e|]; [|by naive_solver|done]. cbn [mbind Result_bind].
  assert (I64_MAX = 9223372036854775807) as HI by done.
  destruct (encoded_duration "interval" (CommonClientArgs.interval (ClientArgs.common args)) ltac:(lia)) as [Hie|(Hlt & e & Hie)];
    rewrite Hie; destruct (Z.eqb_spec (run_duration args) 0) as [Hz|Hz]; cbn [mbind Result_bind].
  - split; [done|]. split; [|done]. intros _. split; [done|]. apply config_duration_ok in Hie as [_ Hie].
    unfold in_i in Hie. change (2 ^ (64 - 1)) with 9223372036854775808 in Hie. lia.
  - apply config_duration_ok in Hie as [_ Hie]. unfold in_i in Hie. change (2 ^ (64 - 1)) with 9223372036854775808 in Hie.
    destruct (encoded_duration "duration" (run_duration args) ltac:(lia)) as [Hde|(Hlt & e & Hde)]; rewrite Hde; cbn [mbind Result_bind].
    + apply config_duration_ok in Hde as [_ Hde]. unfold in_i in Hde. change (2 ^ (64 - 1)) with 9223372036854775808 in Hde.
      split; [done|]. split; [|done]. intros _. split; [done|]. lia.
    + split; [naive_solver lia|]. by split.
  - split; [naive_solver lia|]. by split.
  - destruct (encoded_duration "duration" (run_duration args) ltac:(lia)) as [Hde|(_ & e' & Hde)]; rewrite Hde; cbn [mbind Result_bind];
      (split; [naive_solver lia|]; by split).
Qed.
End template.
End launch.

(** ** The driver accepts it *)
Section driver.
Context `{Clocks} `{Target} `{!HmacMd5} `{AsyncSession}.
Context `{Humantime} `{!HumantimeLaws} `{HexCrate}.

Lemma runtimes_built config ids g targets :
  1 <= g → g + len targets <= U64_MAX → NoDup (ManagedTargetConfig.id <$> targets) →
  Forall (λ x, ManagedTargetConfig.id x ∉ ids) targets →
  let valid x := validate_target_config (client_config_for (ManagedClientConfig.client config) x) in
  (Forall (λ x, valid x = Ok tt) targets → ∃ runtimes last, build_runtimes config ids g targets = Ok (runtimes, last)) ∧
  (Forall (λ x, no_panic (valid x)) targets →
   match build_runtimes config ids g targets with
   | Ok _ => Forall (λ x, valid x = Ok tt) targets
   | Err e => ∃ id source, e = ConfigInvalidTarget id source
   | Panic => False
   end).
Proof.
  intros Hg Hl Hn Hi valid. revert ids g Hg Hl Hi. induction targets as [|x targets IH]; intros ids g Hg Hl Hi; cbn [build_runtimes].
  { split; [by eexists _, _|done]. }
  apply NoDup_cons in Hn as [Hx Hn]. apply Forall_cons in Hi as [Hxi Hi]. rewrite bool_decide_false by done.
  rewrite len_cons in Hl. pose proof (len_nonneg targets).
  assert (try_u64 (g + 1) = Some (g + 1)) as ->.
  { apply try_u64_Some. split; [done|]. unfold in_u. change (2 ^ 64) with (U64_MAX + 1). lia. }
  cbn [ok_or mbind Result_bind]. fold (valid x).
  destruct (IH Hn (ManagedTargetConfig.id x :: ids) (g + 1) ltac:(lia) ltac:(lia)) as [Hok Herr].
  { apply Forall_forall. intros y Hy. rewrite not_elem_of_cons. split; [|by eapply Forall_forall in Hi].
    intros He. apply Hx. rewrite <- He. by apply list_elem_of_fmap_2. }
  split.
  - intros [-> (runtimes & last & ->)%Hok]%Forall_cons. cbn. eauto.
  - intros [Hv Hvs]%Forall_cons. specialize (Herr Hvs). destruct (valid x) as [[]|e|] eqn:Hvx; cbn [map_err mbind Result_bind]; [|by eauto|done].
    destruct (build_runtimes _ _ _ _) as [[runtimes last]|e|]; cbn; [|done..]. by constructor.
Qed.

(** What the clock must allow for the delays of a run. *)
Definition reachable_delays (args : ClientArgs.t) (now1 now2 now3 : Z) : Prop :=
  let maximum := ClientArgs.reconnect_max_delay args in
  maximum / 1_000_000 < U64_MAX - 2 ∧ maximum + 1_000_000 <= DURATION_MAX ∧
  schedulable now1 (maximum + 1_000_000) = true ∧
  (ClientArgs.reconnect args = true → schedulable now2 (ClientArgs.reconnect_timeout args) = true) ∧
  schedulable now3 (from_millis 100) = true.

(** The refusals left once the command line is accepted. *)
Definition refusal (e : ManagedConfigError) : Prop :=
  match e with
  | InvalidReconnectDelays _ _ | InvalidReconnectPolicy | UnschedulableFinalDrain _ | ConfigInvalidTarget _ _ => True
  | _ => False
  end.

Lemma built_targets config ids g targets runtimes last :
  build_runtimes config ids g targets = Ok (runtimes, last) → target_config <$> runtimes = targets.
Proof.
  revert ids g runtimes last. induction targets as [|x targets IH]; intros ids g runtimes last; cbn [build_runtimes].
  { by intros [= <- _]. }
  case_bool_decide; [done|]. intros (n & _ & (? & _ & ([rest l] & Hr%IH & [= <- _])%bind_ok)%bind_ok)%bind_ok. cbn. by rewrite Hr.
Qed.

(** What the run functions set, whether or not the set comes from stdin. *)
Lemma run_config_fields args setup :
  let c := run_config args setup in
  ManagedClientConfig.client c = ManagedRunSetup.client setup ∧
  ManagedClientConfig.event_capacity c = 16384 ∧ ManagedClientConfig.command_capacity c = 64 ∧
  ManagedClientConfig.final_drain c = from_millis 100 ∧
  ManagedClientConfig.reconnect_timeout c = (if ClientArgs.reconnect args then Some (ClientArgs.reconnect_timeout args) else None) ∧
  ManagedClientConfig.reconnect_initial_delay c = ClientArgs.reconnect_initial_delay args ∧
  ManagedClientConfig.reconnect_max_delay c = ClientArgs.reconnect_max_delay args.
Proof. unfold run_config, ManagedRunSetup.managed_config. by destruct (ManagedRunSetup.stdin_controlled setup). Qed.

(** The limits of a prepared run hold its own targets. *)
Lemma run_limits args setup :
  (if ManagedRunSetup.stdin_controlled setup then len (ManagedRunSetup.targets setup) <= STDIN_MAX_DESIRED_TARGETS
   else ManagedRunSetup.targets setup ≠ []) →
  let c := run_config args setup in
  let n := len (ManagedRunSetup.managed_targets setup) in
  let limit := ManagedClientConfig.max_live_target_generations c in
  (limit =? 0) = false ∧ (limit <? n) = false ∧
  ((n =? 0) && match ManagedClientConfig.completion c with FinishWhenQuiescent => true | _ => false end) = false.
Proof.
  unfold run_config, ManagedRunSetup.managed_config, ManagedRunSetup.managed_targets. rewrite len_fmap.
  pose proof (len_nonneg (ManagedRunSetup.targets setup)). destruct (ManagedRunSetup.stdin_controlled setup); cbn.
  - unfold STDIN_MAX_LIVE_TARGET_GENERATIONS, STDIN_MAX_DESIRED_TARGETS. intros Hc. split; [done|].
    split; [apply Z.ltb_ge; lia|by rewrite andb_false_r].
  - intros Hc. unfold ManagedRunSetup.target_count. assert ((len (ManagedRunSetup.targets setup) =? 0) = false) as ->.
    { apply Z.eqb_neq. destruct (ManagedRunSetup.targets setup) as [|x l]; [done|]. rewrite len_cons. pose proof (len_nonneg l). lia. }
    split; [done|]. split; [apply Z.ltb_ge; lia|done].
Qed.

Lemma event_capacity_fits : (MAX_BROADCAST_CHANNEL_CAPACITY <? 16384) = false.
Proof.
  apply Z.ltb_ge. unfold MAX_BROADCAST_CHANNEL_CAPACITY. rewrite Z.shiftr_div_pow2 by lia. pose proof USIZE_MAX_lo.
  assert ((2 ^ 32 - 1) / 2 ^ 1 <= USIZE_MAX / 2 ^ 1) as Hq by (by apply Z.div_le_mono). revert Hq.
  change ((2 ^ 32 - 1) / 2 ^ 1) with 2147483647. lia.
Qed.

(** Closes a refused case of [run_config_valid]. *)
Ltac refused := split; [split; [done|intros; destruct_and?; intuition congruence]|split; [by intros ? [= <-]|done]].

Lemma run_config_valid args answers setup lookups max_permits now1 now2 now3 :
  clap_ok args → prepare_client args answers = Ok (setup, lookups) → 64 <= max_permits →
  let v := validate_managed_config max_permits now1 now2 now3 (run_config args setup) (ManagedRunSetup.managed_targets setup) in
  (v = Ok tt ↔ reachable_delays args now1 now2 now3) ∧ (∀ e, v = Err e → refusal e) ∧ no_panic v.
Proof.
  intros Hc Hp Hm v. subst v. destruct (prepare_client_ok _ _ _ _ Hp) as (cfg & Hcfg & Hcl & _ & Hstd & Hcount & Hrec & Hd1 & Hd2).
  destruct (template_fields args cfg Hcfg) as (Hdur & _ & _ & _ & _ & _ & Hmode & _).
  rewrite <- Hcl in Hdur, Hmode. rewrite run_duration_zero in Hdur.
  assert (0 < ClientArgs.reconnect_timeout args <= DURATION_MAX) as Hrt
    by (eapply option_duration, cl_reconnect_timeout, Hc; by unfold DURATION_MAX, U64_MAX).
  assert (0 < ClientArgs.reconnect_initial_delay args <= DURATION_MAX) as Hri
    by (eapply option_duration, cl_initial_delay, Hc; by unfold DURATION_MAX, U64_MAX).
  destruct (run_config_fields args setup) as (Fc & Fe & Fcc & Ff & Frt & Fri & Frm).
  rewrite <- Hstd in Hcount. destruct (run_limits args setup Hcount) as (Hl1 & Hl2 & Hl3).
  unfold validate_managed_config, reconnect_delays_ok, reconnect_policy_ok.
  rewrite Fe, Fcc, Ff, Frt, Fri, Frm, Hl1, Hl2, Hl3, Fc, Hdur, Hmode, event_capacity_fits.
  rewrite (proj2 (Z.ltb_ge _ _) Hm). cbn [Z.eqb].
  rewrite (proj2 (Z.eqb_neq (ClientArgs.reconnect_initial_delay args) 0)), (proj2 (Z.eqb_neq (ClientArgs.reconnect_max_delay args) 0)),
    (proj2 (Z.leb_le _ _) Hd1), (proj2 (Z.leb_le _ _) Hd2) by lia.
  cbn [orb negb andb]. unfold reachable_delays. rewrite <- !Z.leb_gt, <- Z.leb_le.
  assert (match (if ClientArgs.reconnect args then Some (ClientArgs.reconnect_timeout args) else None) with
          | Some timeout => negb ((timeout =? 0) || negb (schedulable now2 timeout)
              || Envelope.is_some (if ClientArgs.is_continuous args then None else Some (run_duration args))
              || match (if ClientArgs.no_test args then NoTest else NormalMode) with NormalMode => false | NoTest => true end)
          | None => true
          end = negb (ClientArgs.reconnect args) || schedulable now2 (ClientArgs.reconnect_timeout args)) as Hpol.
  { destruct (ClientArgs.reconnect args) eqn:Hr; [|done]. rewrite (Hrec eq_refl), (proj2 (Z.eqb_neq _ _)) by lia.
    assert (ClientArgs.no_test args = false) as -> by (destruct (ClientArgs.no_test args) eqn:Hn; [|done]; apply (cl_no_test _ Hc) in Hn; naive_solver).
    cbn. by rewrite !orb_false_r, negb_involutive. }
  rewrite Hpol. clear Hpol.
  destruct (U64_MAX - 2 <=? _) eqn:Hq1; cbn [orb negb]; [refused|].
  destruct (_ + 1_000_000 <=? DURATION_MAX) eqn:Hq2; cbn [andb negb]; [|refused].
  destruct (schedulable now1 _) eqn:Hq3; cbn [negb]; [|refused].
  destruct (ClientArgs.reconnect args) eqn:Hr; cbn [negb orb];
    [destruct (schedulable now2 _) eqn:Hq4; cbn [negb]; [|refused]|];
    (destruct (schedulable now3 _) eqn:Hq5; cbn [negb]; [|refused]); (split; [split; [intuition congruence|done]|by split]).
Qed.

(** [build_task] is its checks, one after the other. *)
Lemma build_task_steps max_permits config targets w now1 now2 now3 :
  start_readings config w = (now1, now2, now3) →
  ∃ w', build_task max_permits config targets w =
    (_ ← validate_managed_config max_permits now1 now2 now3 config targets;
     '(runtimes, next) ← build_runtimes config [] 1 targets;
     Ok (initial_task config runtimes next w')).
Proof.
  unfold build_task, start_readings. destruct (instant_now w) as [n1 w1].
  destruct (ManagedClientConfig.reconnect_timeout config); [destruct (instant_now w1) as [n2 w2]|];
    (destruct (instant_now _) as [n3 w3] eqn:Hn3; cbn; rewrite ?Hn3; intros [= <- <- <-]; by eexists).
Qed.

(** The configuration of each target of a prepared run is valid when it is encodable. *)
Lemma run_targets_valid args answers setup lookups :
  clap_ok args → prepare_client args answers = Ok (setup, lookups) →
  let valid target := validate_target_config (client_config_for (ManagedClientConfig.client (run_config args setup)) target) in
  ∀ target, (encodable args → valid target = Ok tt) ∧ (valid target = Ok tt → encodable args) ∧ no_panic (valid target).
Proof.
  intros Hc Hp. destruct (prepare_client_ok _ _ _ _ Hp) as (cfg & Hcfg & Hcl & _). destruct (run_config_fields args setup) as [Fc _].
  cbv zeta. intros target. rewrite Fc, Hcl. by apply template_target.
Qed.

(** C30: an accepted command line runs. Whatever the resolver answers, if clap and
    [prepare] accept the arguments, the driver never refuses the run for its
    target set - no duplicate or missing target, no limit too small - nor for its
    request; it starts a task with exactly the prepared targets precisely when the
    timeouts and durations given can be encoded and the delays scheduled, and any
    refusal says which. The task it starts is one the driver's theorems are about. *)
Theorem command_line_runs `{!AsyncSessionLaws} args answers setup lookups max_permits w :
  (∀ c, config_ok c → typed_config c) →
  clap_ok args → prepare_client args answers = Ok (setup, lookups) →
  64 <= max_permits → len (ManagedRunSetup.targets setup) < U64_MAX →
  let config := run_config args setup in
  let targets := ManagedRunSetup.managed_targets setup in
  let '(now1, now2, now3) := start_readings config w in
  (encodable args ∧ reachable_delays args now1 now2 now3 → ∃ task,
     build_task max_permits config targets w = Ok task ∧ reachable task ∧
     target_config <$> ManagedTask.targets task = targets) ∧
  (∀ task, build_task max_permits config targets w = Ok task →
     (targets ≠ [] → encodable args) ∧ reachable_delays args now1 now2 now3) ∧
  (∀ e, build_task max_permits config targets w = Err e → refusal e) ∧
  no_panic (build_task max_permits config targets w).
Proof.
  intros Htyped Hc Hp Hm Hlen config targets.
  destruct (prepare_client_ok _ _ _ _ Hp) as (cfg & Hcfg & Hcl & Hn & _ & _ & _ & Hd1 & _).
  assert (ManagedClientConfig.client config = if ClientArgs.no_test args then set_no_test cfg else cfg) as Hclient
    by (by rewrite <- Hcl; apply run_config_fields).
  assert (config_typed config) as Hct.
  { destruct (run_config_fields args setup) as (_ & _ & _ & _ & _ & Fri & _). split; [|split].
    - subst config. rewrite Fri. assert (0 < ClientArgs.reconnect_initial_delay args <= DURATION_MAX); [|lia].
      eapply option_duration, cl_initial_delay, Hc; by unfold DURATION_MAX, U64_MAX.
    - subst config. unfold run_config, ManagedRunSetup.managed_config. destruct (ManagedRunSetup.stdin_controlled setup); cbn;
        [done|apply len_nonneg].
    - rewrite Hclient. eapply Htyped, template_config_ok; done. }
  destruct (start_readings config w) as [[now1 now2] now3] eqn:Hread.
  destruct (run_config_valid args answers setup lookups max_permits now1 now2 now3 Hc Hp Hm) as (Hv & Hve & Hvp).
  fold config targets in Hv, Hve, Hvp.
  destruct (build_task_steps max_permits config targets w now1 now2 now3 Hread) as [w' Hb].
  assert (len targets = len (ManagedRunSetup.targets setup)) as Htl by (subst targets; apply len_fmap).
  destruct (runtimes_built config [] 1 targets ltac:(lia) ltac:(rewrite Htl; lia) Hn) as [Hok Herr].
  { apply Forall_true. intros x. apply not_elem_of_nil. }
  pose proof (run_targets_valid args answers setup lookups Hc Hp) as Htarget. cbv zeta in Htarget. fold config in Htarget.
  split; [|split; [|split]].
  - intros [He Hr]. rewrite Hb, (proj2 Hv Hr). cbn [mbind Result_bind].
    destruct Hok as (runtimes & last & Hok); [by apply Forall_true; intros x; apply Htarget|]. rewrite Hok. cbn [mbind Result_bind].
    eexists. split; [reflexivity|]. split; [|by eapply built_targets].
    exists max_permits, config, targets, w. eexists. split; [done|]. split; [|apply rtc_refl].
    rewrite Hb, (proj2 Hv Hr). cbn [mbind Result_bind]. by rewrite Hok.
  - rewrite Hb. intros task ([] & Hvt & ([runtimes last] & Hr & _)%bind_ok)%bind_ok. split; [|by apply Hv].
    intros Hne. rewrite Hr in Herr. destruct targets as [|x l]; [done|].
    assert (Forall (λ y, no_panic (validate_target_config (client_config_for (ManagedClientConfig.client config) y))) (x :: l))
      as Hall%Herr by (apply Forall_true; intros y; apply Htarget).
    apply Forall_cons in Hall as [Hx _]. by apply (Htarget x).
  - rewrite Hb. intros e. destruct (validate_managed_config _ _ _ _ _ _) as [[]|e'|] eqn:He; cbn [mbind Result_bind];
      [|by intros [= <-]; apply Hve|done].
    destruct (build_runtimes _ _ _ _) as [[runtimes last]|e'|]; cbn [mbind Result_bind]; [done| |done].
    intros [= <-]. destruct Herr as (id & source & ->); [|done]. apply Forall_true. intros y. apply Htarget.
  - rewrite Hb. apply no_panic_bind; [done|]. intros [] _. destruct (build_runtimes _ _ _ _) as [[runtimes last]|e'|]; [done..|].
    destruct Herr. apply Forall_true. intros y. apply Htarget.
Qed.
End driver.

(** ** Concrete input *)
Section example.
#[local] Existing Instances target64 toy_hmac example_clocks toy_runtime toy_os toy_os_laws.
#[local] Existing Instances hex_crate.

(** Reads whole seconds: "5s". *)
#[local] Instance toy_humantime : Humantime := {|
  parse_humantime text :=
    match text with
    | [digit; 115] => if (48 <=? digit) && (digit <=? 57) then Ok (from_secs (digit - 48)) else Err "invalid duration"
    | _ => Err "invalid duration"
    end
|}.
#[local] Instance toy_humantime_laws : HumantimeLaws.
Proof.
  split. intros text d. cbn. destruct text as [|digit [|[|p|p] [|? ?]]]; try done; repeat (destruct p as [p|p|]; try done).
  destruct (_ && _) eqn:Hd; [|done]. apply andb_prop in Hd as [Hl%Z.leb_le Hh%Z.leb_le]. intros [= <-].
  unfold duration_ok, from_secs, DURATION_MAX, U64_MAX. lia.
Defined.

(** Two targets, probes of 200 bytes every two seconds, reconnecting. *)
Definition example_common : CommonClientArgs.t :=
  CommonClientArgs.mk false false false (from_secs 2) [from_secs 1] 200 None ClockBoth TsBoth RsBoth None 0 None None None None false.
Definition example_args : ClientArgs.t :=
  ClientArgs.mk [str "a=127.0.0.1"; str "127.0.0.1"] false false PaceStaggered DEFAULT_CLIENT_DURATION true false true
    (from_secs 10) (from_millis 250) (from_secs 10) example_common Table [] None false HeaderAuto false.

Lemma example_clap : clap_ok example_args.
Proof.
  assert (∀ n, 0 < n < 10 → parsed parse_duration (from_secs n)) as Hs.
  { intros n Hn. exists [48 + n; 115]. split.
    - assert (n = 1 ∨ n = 2 ∨ n = 3 ∨ n = 4 ∨ n = 5 ∨ n = 6 ∨ n = 7 ∨ n = 8 ∨ n = 9) as Hc by lia.
      destruct_or? Hc; subst n; decide_now.
    - unfold parse_duration, parse_test_duration. rewrite bool_decide_false by done. cbn.
      rewrite (proj2 (Z.leb_le 48 _)), (proj2 (Z.leb_le _ 57)) by lia. cbn. unfold from_secs.
      rewrite (proj2 (Z.eqb_neq _ 0)) by lia. do 2 f_equal. lia. }
  split; [split| | | | | |]; try (left; reflexivity); try done.
  - right. apply Hs. lia.
  - constructor; [apply Hs; lia|constructor].
  - right. exists (str "200"). split; [decide_now|reflexivity].
Qed.

Definition example_setup : ManagedRunSetup.t * list (bytes * Z) :=
  match prepare_client example_args (λ _ _, None) with
  | Ok r => r
  | _ => (ManagedRunSetup.mk [] ClientConfig.default Staggered false (TargetPreparation.new AnyFamily false), [])
  end.

Example example_targets :
  ManagedTargetConfig.id <$> ManagedRunSetup.managed_targets example_setup.1 = [str "a"; str "127.0.0.1"].
Proof. vm_compute. reflexivity. Qed.

(** Reconnecting needs a continuous run. *)
Example reconnect_refused :
  prepare_client (ClientArgs.mk [str "h"] false false PaceStaggered DEFAULT_CLIENT_DURATION false false true
    (from_secs 10) (from_millis 250) (from_secs 10) example_common Table [] None false HeaderAuto false) (λ _ _, None)
  = Err "--reconnect requires --continuous or --duration 0".
Proof. reflexivity. Qed.

Lemma command_line_runs_witness :
  ∃ task, build_task 1000 (run_config example_args example_setup.1) (ManagedRunSetup.managed_targets example_setup.1)
    (mk_toy 0 [] []) = Ok task ∧ reachable task ∧
  target_config <$> ManagedTask.targets task = ManagedRunSetup.managed_targets example_setup.1.
Proof.
  assert (prepare_client example_args (λ _ _, None) = Ok (example_setup.1, example_setup.2)) as Hp by (vm_compute; reflexivity).
  refine (proj1 (command_line_runs example_args (λ _ _, None) example_setup.1 example_setup.2 1000 (mk_toy 0 [] [])
    (λ c H, H) example_clap Hp ltac:(lia) ltac:(vm_compute; reflexivity)) _).
  split.
  - split; [constructor; [vm_compute; discriminate|constructor]|]. split; vm_compute; discriminate.
  - split; [vm_compute; reflexivity|]. split; [vm_compute; discriminate|]. split; [vm_compute; reflexivity|].
    split; [intros _|]; vm_compute; reflexivity.
Defined.
End example.
