(* ===== verification/AppFormat.v ===== *)
(** * irtt-app: text of scalars

    Models [crates/irtt-app/src/cmd/format.rs] and the standard library's text of
    integers, binary64 numbers with a precision, and socket addresses. Text is the
    bytes of a Rust [String]. *)

From Stdlib Require Import Floats.SpecFloat.
From S2P Require Import Prelude ClientBase Machine Endpoint StatsCore.

(** ** Integers *)
(** [to_string]. *)
Definition decimal (z : Z) : bytes := str (pretty z).
(** [{:#x}] of a [u64]. *)
Definition hex_text (z : Z) : bytes := str (hex z).
(** [{:x}] of a [u16]. *)
Definition lower_hex (z : Z) : bytes := str (hex_digits 4 z "").

(** ** Numbers with a precision ([{:.p}]) *)
(** [n] units of the last of [p] decimals. *)
Definition fixed_digits (p : nat) (n : Z) : bytes :=
  let scale := 10 ^ Z.of_nat p in
  let fraction := decimal (n mod scale) in
  decimal (n / scale) ++
  match p with
  | O => []
  | S _ => [DOT] ++ replicate (p - length fraction) 48 ++ fraction
  end.

(** [num / 2^k] to the nearest integer, ties to even. *)
Definition round_half_even (num k : Z) : Z :=
  let q := num / 2 ^ k in
  match Z.compare (2 * (num mod 2 ^ k)) (2 ^ k) with
  | Lt => q
  | Gt => q + 1
  | Eq => if Z.even q then q else q + 1
  end.

(** [chars().count()]: bytes that are not continuations of a character. *)
Definition char_count (text : bytes) : Z := len (filter (λ c, utf8_cont c = false) text).
Definition SPACE : Z := 32.
(** [{:>width$}] and [{:<width$}]. *)
Definition padding (width : Z) (text : bytes) : bytes := replicate (Z.to_nat (width - char_count text)) SPACE.
Definition pad_start (width : Z) (text : bytes) : bytes := padding width text ++ text.
Definition pad_end (width : Z) (text : bytes) : bytes := text ++ padding width text.

Definition minus (negative : bool) : bytes := if negative then str "-" else [].

Definition fixed (p : nat) (x : f64) : bytes :=
  match x with
  | S754_zero s => minus s ++ fixed_digits p 0
  | S754_infinity s => minus s ++ str "inf"
  | S754_nan => str "NaN"
  | S754_finite s m e =>
      let scaled := Z.pos m * 10 ^ Z.of_nat p in
      minus s ++ fixed_digits p (if 0 <=? e then scaled * 2 ^ e else round_half_even scaled (- e))
  end.

(** ** format.rs *)
Definition ABSENT : bytes := str "-".

Definition is_finite_f64 (x : f64) : bool :=
  match x with S754_zero _ | S754_finite _ _ _ => true | _ => false end.
Definition is_sign_negative (x : f64) : bool :=
  match x with S754_zero s | S754_infinity s | S754_finite s _ _ => s | S754_nan => false end.

Definition divide_f64 (x : f64) (z : Z) : f64 := SFdiv 53 1024 x (to_f64 z).
(** "µs" *)
Definition MICROSECONDS : bytes := [194; 181; 115].

Definition format_ns_f64 (value : f64) : bytes :=
  if negb (is_finite_f64 value) then ABSENT
  else
    let sign := minus (is_sign_negative value) in
    let magnitude := SFabs value in
    if SFltb magnitude (to_f64 1_000) then sign ++ fixed 0 magnitude ++ str "ns"
    else if SFltb magnitude (to_f64 1_000_000) then sign ++ fixed 1 (divide_f64 magnitude 1_000) ++ MICROSECONDS
    else if SFltb magnitude (to_f64 1_000_000_000) then sign ++ fixed 1 (divide_f64 magnitude 1_000_000) ++ str "ms"
    else sign ++ fixed 3 (divide_f64 magnitude 1_000_000_000) ++ str "s".

Definition format_ns_i128 (value : Z) : bytes :=
  let magnitude := to_f64 (Z.min I128_MAX (Z.abs value)) in
  minus (value <? 0) ++ format_ns_f64 magnitude.

Definition format_optional_ns_i128 (value : option Z) : bytes := default ABSENT (format_ns_i128 <$> value).
Definition format_optional_ns_f64 (value : option f64) : bytes := default ABSENT (format_ns_f64 <$> value).
Definition format_duration (value : Z) : bytes := format_ns_i128 (default I128_MAX (try_i128 value)).
Definition format_signed_duration (value : SignedDuration.t) : bytes := format_ns_i128 (SignedDuration.as_nanos value).

Definition format_percent (value : f64) : bytes :=
  if is_finite_f64 value then fixed 2 value ++ str "%" else ABSENT.
Definition format_percent_ratio (value total : Z) : bytes :=
  if total =? 0 then ABSENT
  else
    let ratio := SFmul 53 1024 (SFdiv 53 1024 (to_f64 value) (to_f64 total)) (to_f64 100) in
    format_percent (if SFltb (to_f64 100) ratio then to_f64 100 else ratio).
Definition format_count (value : Z) : bytes := decimal value.
Definition format_optional_count (value : option Z) : bytes := default ABSENT (format_count <$> value).

(** ** Socket addresses ([Display]) *)
Definition ipv4_text (ip : Z) : bytes :=
  decimal (ip / 2 ^ 24) ++ [DOT] ++ decimal (ip / 2 ^ 16 mod 256) ++ [DOT] ++
  decimal (ip / 2 ^ 8 mod 256) ++ [DOT] ++ decimal (ip mod 256).

Definition segments (ip : Z) : list Z := (λ i, ip / 2 ^ (16 * (7 - Z.of_nat i)) mod 65536) <$> seq 0 8.

(** The longest run of zero segments, the first of the longest: its start and length. *)
Fixpoint longest_zeros (i : nat) (current longest : nat * nat) (segments : list Z) : nat * nat :=
  match segments with
  | [] => longest
  | segment :: segments =>
      if segment =? 0 then
        let current := ((if bool_decide (current.2 = 0%nat) then i else current.1), S current.2) in
        longest_zeros (S i) current (if bool_decide (longest.2 < current.2)%nat then current else longest) segments
      else longest_zeros (S i) (0%nat, 0%nat) longest segments
  end.

Fixpoint join (separator : bytes) (parts : list bytes) : bytes :=
  match parts with
  | [] => []
  | [part] => part
  | part :: parts => part ++ separator ++ join separator parts
  end.
Definition subslice (segments : list Z) : bytes := join [COLON] (lower_hex <$> segments).

Definition ipv6_text (ip : Z) : bytes :=
  if ip / 2 ^ 32 =? 65535 then str "::ffff:" ++ ipv4_text (ip mod 2 ^ 32)
  else
    let segments := segments ip in
    let '(start, len) := longest_zeros 0 (0%nat, 0%nat) (0%nat, 0%nat) segments in
    if bool_decide (1 < len)%nat
    then subslice (take start segments) ++ str "::" ++ subslice (drop (start + len) segments)
    else subslice segments.

Definition socket_addr_text (addr : SocketAddr) : bytes :=
  match addr with
  | V4 ip port => ipv4_text ip ++ [COLON] ++ decimal port
  | V6 ip port _ scope_id =>
      [LBRACKET] ++ ipv6_text ip ++ (if scope_id =? 0 then [] else [PERCENT] ++ decimal scope_id) ++
      [RBRACKET; COLON] ++ decimal port
  end.

Example format_units :
  format_ns_i128 999 = str "999ns" ∧ format_ns_i128 (-1_500) = str "-1.5" ++ MICROSECONDS ∧
  format_ns_i128 12_345_678 = str "12.3ms" ∧ format_ns_i128 1_000_500_000 = str "1.000s" ∧
  format_ns_i128 1_001_500_000 = str "1.002s" ∧ format_percent (to_f64 25) = str "25.00%" ∧
  format_percent_ratio 1 3 = str "33.33%".
Proof. vm_compute. done. Qed.

Example address_text :
  socket_addr_text (V4 2130706433 2112) = str "127.0.0.1:2112" ∧
  socket_addr_text (V6 1 2112 0 0) = str "[::1]:2112" ∧
  socket_addr_text (V6 (0x20010db8 * 2 ^ 96 + 0x10001) 80 0 7) = str "[2001:db8::1:1%7]:80" ∧
  socket_addr_text (V6 0 0 0 0) = str "[::]:0" ∧
  socket_addr_text (V6 (0xffff * 2 ^ 32 + 2130706433) 1 0 0) = str "[::ffff:127.0.0.1]:1".
Proof. vm_compute. done. Qed.

(** ** What the texts are made of *)
Lemma str_cons a s : str (String a s) = Z.of_N (Ascii.N_of_ascii a) :: str s.
Proof. done. Qed.

Lemma str_app a b : str (a +:+ b) = str a ++ str b.
Proof. induction a as [|c a IH]; [done|]. change (String c a +:+ b) with (String c (a +:+ b)). by rewrite !str_cons, IH. Qed.

Lemma str_bytes s : bytes_ok (str s).
Proof.
  induction s as [|a s IH]; [constructor|]. rewrite str_cons. constructor; [|done].
  unfold in_u. pose proof (Ascii.N_ascii_bounded a). change (2 ^ 8) with 256. lia.
Qed.

Definition digit (d : Z) : Z := 48 + d.

Lemma pretty_digit x : Z.of_N (Ascii.N_of_ascii (pretty_N_char (x mod 10))) = digit (Z.of_N x mod 10).
Proof.
  unfold digit. assert (Z.of_N x mod 10 = Z.of_N (x mod 10)%N) as -> by (by rewrite N2Z.inj_mod). assert (x mod 10 < 10)%N as Hb by (by apply N.mod_lt).
  destruct (x mod 10)%N as [|p]; [done|].
  assert (p = 1 ∨ p = 2 ∨ p = 3 ∨ p = 4 ∨ p = 5 ∨ p = 6 ∨ p = 7 ∨ p = 8 ∨ p = 9)%positive as Hp by lia.
  by destruct_or? Hp; subst p.
Qed.

Lemma digit_read d radix : 10 <= radix → 0 <= d < 10 → to_digit radix (digit d) = Some d.
Proof.
  intros Hr Hd. unfold to_digit, digit. rewrite (proj2 (Z.leb_le 48 _)), (proj2 (Z.leb_le _ 57)) by lia. cbn [andb].
  replace (48 + d - 48) with d by lia. by rewrite (proj2 (Z.ltb_lt d radix)) by lia.
Qed.

(** The digits of [x] before [s], as a parser reads them. *)
Lemma go_digits x s :
  ∃ digits, str (pretty_N_go x s) = digits ++ str s ∧ Forall (λ c, 48 <= c <= 57) digits ∧
    ((0 < x)%N → digits ≠ [] ∧ head digits ≠ Some 48) ∧
    ∀ r k rest, read_digits 10 None r k (digits ++ rest)
      = read_digits 10 None (r * 10 ^ Z.of_nat (length digits) + Z.of_N x) (k + length digits) rest.
Proof.
  revert s. induction (N.lt_wf_0 x) as [x _ IH]; intros s. destruct (decide (x = 0)%N) as [->|Hx].
  { exists []. rewrite pretty_N_go_0. split; [done|]. split; [constructor|]. split; [done|]. intros r k rest. cbn.
    f_equal; lia. }
  assert (0 < x)%N as Hpos by lia. rewrite pretty_N_go_step by done.
  destruct (IH (x `div` 10)%N ltac:(by apply N.div_lt) (String (pretty_N_char (x `mod` 10)) s)) as (digits & He & Hd & Hh & Hr).
  exists (digits ++ [digit (Z.of_N x mod 10)]). pose proof (Z.mod_pos_bound (Z.of_N x) 10 ltac:(lia)) as Hm.
  rewrite str_cons, pretty_digit in He. split; [by rewrite He, <- app_assoc|]. split; [|split].
  - apply Forall_app. split; [done|]. apply Forall_singleton. unfold digit. lia.
  - intros _. split; [by intros [_ [=]]%app_eq_nil|]. destruct (decide (x < 10)%N) as [Hlt|Hge].
    + assert (digits = []) as ->.
      { assert (x `div` 10 = 0)%N as Hz by (by apply N.div_small). rewrite Hz, pretty_N_go_0, str_cons, pretty_digit in He.
        pose proof (f_equal length He) as Hl. rewrite length_app in Hl. destruct digits; [done|]. cbn in Hl. lia. }
      cbn. unfold digit. rewrite Z.mod_small by lia. intros [= Hc]. lia.
    + destruct Hh as [Hne Hhd]; [apply N.div_str_pos_iff; lia|]. by destruct digits.
  - intros r k rest. rewrite <- app_assoc, Hr. cbn [app read_digits]. rewrite digit_read by (done || lia).
    rewrite length_app. cbn [length]. f_equal; [|lia].
    rewrite Nat2Z.inj_add, Z.pow_add_r by lia. change (10 ^ Z.of_nat 1) with 10. rewrite N2Z.inj_div.
    pose proof (Z.div_mod (Z.of_N x) 10 ltac:(lia)). change (Z.of_N 10) with 10. lia.
Qed.

(** A natural number's text: digits without a leading zero, read back as the number. *)
Lemma decimal_natural z :
  0 <= z → ∃ digits, decimal z = digits ∧ Forall (λ c, 48 <= c <= 57) digits ∧ digits ≠ [] ∧
    (head digits = Some 48 → digits = [48]) ∧
    ∀ rest, match rest with c :: _ => to_digit 10 c = None | [] => True end →
      read_digits 10 None 0 0 (digits ++ rest) = Some (z, length digits, rest).
Proof.
  intros Hz. unfold decimal. destruct (decide (z = 0)) as [->|Hnz].
  { exists [48]. split; [done|]. split; [by apply Forall_singleton|]. split; [done|]. split; [done|]. intros [|c rest] Hc; [done|].
    cbn. by rewrite Hc. }
  assert (str (pretty z) = str (pretty_N_go (Z.to_N z) "")) as ->.
  { destruct z as [|p|p]; [done| |lia]. unfold pretty, pretty_Z, pretty, pretty_N. cbn. done. }
  destruct (go_digits (Z.to_N z) "") as (digits & He & Hd & Hh & Hr). change (str "") with (@nil Z) in He. rewrite app_nil_r in He.
  destruct Hh as [Hne Hh]; [lia|]. exists digits. split; [done|]. split; [done|]. split; [done|]. split; [by intros ?%Hh|].
  intros rest Hrest. rewrite Hr. rewrite Z2N.id by lia. cbn [Nat.add]. replace (0 * _ + z) with z by lia.
  destruct rest as [|c rest]; [done|]. cbn. by rewrite Hrest.
Qed.

Lemma decimal_negative z : z < 0 → decimal z = 45 :: decimal (- z).
Proof. destruct z as [|p|p]; [done..|]. intros _. reflexivity. Qed.

(** Every text here is bytes. *)
Lemma decimal_bytes z : bytes_ok (decimal z).
Proof. apply str_bytes. Qed.
Lemma minus_bytes b : bytes_ok (minus b).
Proof. destruct b; [apply str_bytes|constructor]. Qed.
Lemma join_bytes separator parts : bytes_ok separator → Forall bytes_ok parts → bytes_ok (join separator parts).
Proof.
  intros Hs. induction 1 as [|part parts Hp Hps IH]; [constructor|]. destruct parts as [|next parts]; [done|].
  change (bytes_ok (part ++ separator ++ join separator (next :: parts))). bytes_tac.
Qed.
#[export] Hint Resolve str_bytes decimal_bytes minus_bytes join_bytes : irtt.

Lemma fixed_bytes p x : bytes_ok (fixed p x).
Proof.
  assert (∀ n, bytes_ok (fixed_digits p n)) as Hd.
  { intros n. unfold fixed_digits. destruct p; bytes_tac; [decide_now|]. apply bytes_ok_replicate. decide_now. }
  destruct x; cbn [fixed]; bytes_tac.
Qed.
#[export] Hint Resolve fixed_bytes : irtt.

Lemma format_ns_f64_bytes x : bytes_ok (format_ns_f64 x).
Proof.
  unfold format_ns_f64.
  assert (bytes_ok MICROSECONDS) by decide_now. repeat case_match; unfold ABSENT; bytes_tac.
Qed.
Lemma format_ns_i128_bytes z : bytes_ok (format_ns_i128 z).
Proof. unfold format_ns_i128. pose proof format_ns_f64_bytes. bytes_tac. Qed.

Lemma ipv4_bytes ip : bytes_ok (ipv4_text ip).
Proof. unfold ipv4_text. bytes_tac; decide_now. Qed.
Lemma subslice_bytes l : bytes_ok (subslice l).
Proof.
  unfold subslice. apply join_bytes; [decide_now|]. apply Forall_fmap, Forall_true. intros z. apply str_bytes.
Qed.
#[export] Hint Resolve format_ns_i128_bytes ipv4_bytes subslice_bytes : irtt.
Lemma ipv6_bytes ip : bytes_ok (ipv6_text ip).
Proof. unfold ipv6_text. repeat case_match; bytes_tac. Qed.
#[export] Hint Resolve ipv6_bytes : irtt.
Lemma socket_addr_bytes addr : bytes_ok (socket_addr_text addr).
Proof.
  destruct addr; cbn [socket_addr_text]; repeat case_match; bytes_tac; decide_now.
Qed.
#[export] Hint Resolve socket_addr_bytes : irtt.
