(* ===== verification/AppOutput.v ===== *)
(** * irtt-app: event rows

    Models [crates/irtt-app/src/cmd/client/output.rs] and the [StreamOutput] of
    [cmd/client/run.rs]: the columns an event row has, the cells of an event and
    their rendering as a table, CSV, TSV or JSON Lines. The reading side - what a
    consumer of each format does - is the reference of the theorems. *)

From S2P Require Import Prelude ParamsCodec ClientBase ClientNegotiation ClientEvent Machine Endpoint.
From S2P Require Import StatsCore AppTargets AppStdin AppArgs AppFormat.

(** ** Rows *)
Module LifecycleRow.
Record t : Type := mk {
  remote : SocketAddr;
  token : option Z;
  event_wall : Z;
  duration_ns : Z;
  interval_ns : Z;
  payload_length : Z;
}.
Definition new (remote : SocketAddr) (token : option Z) (negotiated : NegotiationResult.t) (event_wall : Z) : t :=
  let accepted := NegotiationResult.accepted negotiated in
  mk remote token event_wall (default 0 (AcceptedSessionParameters.duration accepted))
    (AcceptedSessionParameters.interval accepted) (AcceptedSessionParameters.length accepted).
End LifecycleRow.

Module ReplyRow.
Record t : Type := mk {
  seq : Z;
  remote : SocketAddr;
  client_send_wall : option Z;
  client_receive_wall : Z;
  rtt : option RttSample.t;
  server_timing : option ServerTiming.t;
  one_way : option OneWayDelaySample.t;
  received_stats : option ReceivedStatsSample.t;
  bytes : Z;
  packet_meta : PacketMeta.t;
}.
End ReplyRow.

Inductive OutputRow : Type :=
  | RowSessionStarted (row : LifecycleRow.t)
  | RowNoTestCompleted (row : LifecycleRow.t)
  | RowSessionClosed (remote : SocketAddr) (token event_wall : Z)
  | RowEchoSent (seq : Z) (remote : SocketAddr) (client_send_wall bytes send_call : Z) (timer_error : option Z)
  | RowEchoReply (reply : ReplyRow.t)
  | RowLoss (seq client_send_wall : Z)
  | RowDuplicate (seq : Z) (remote : SocketAddr) (client_receive_wall bytes : Z)
  | RowLate (reply : ReplyRow.t) (highest_seen : Z)
  | RowWarning (kind : WarningKind) (message : bytes) (event_wall : Z).

Definition from_event (event : ClientEvent.t) : OutputRow :=
  let wall := ClientTimestamp.wall in
  match event with
  | ClientEvent.SessionStarted started =>
      RowSessionStarted (LifecycleRow.new (SessionStarted.remote started) (Some (SessionStarted.token started))
        (SessionStarted.negotiation started) (wall (SessionStarted.at_ started)))
  | ClientEvent.NoTestCompleted completed =>
      RowNoTestCompleted (LifecycleRow.new (NoTestCompleted.remote completed) None
        (NoTestCompleted.negotiation completed) (wall (NoTestCompleted.at_ completed)))
  | ClientEvent.SessionClosed remote token at_ => RowSessionClosed remote token (wall at_)
  | ClientEvent.EchoSent seq remote _ sent_at bytes send_call timer_error =>
      RowEchoSent seq remote (wall sent_at) bytes send_call timer_error
  | ClientEvent.EchoReply seq remote sent_at received_at rtt server_timing one_way received_stats bytes packet_meta =>
      RowEchoReply (ReplyRow.mk seq remote (Some (wall sent_at)) (wall received_at) (Some rtt) server_timing one_way
        received_stats bytes packet_meta)
  | ClientEvent.EchoLoss seq sent_at _ => RowLoss seq (wall sent_at)
  | ClientEvent.DuplicateReply seq remote received_at bytes => RowDuplicate seq remote (wall received_at) bytes
  | ClientEvent.LateReply seq highest_seen remote sent_at received_at rtt server_timing one_way received_stats bytes
      packet_meta =>
      RowLate (ReplyRow.mk seq remote (wall <$> sent_at) (wall received_at) rtt server_timing one_way received_stats
        bytes packet_meta) highest_seen
  | ClientEvent.Warning kind message at_ => RowWarning kind (str message) (wall at_)
  end.

Definition event_kind (self : OutputRow) : EventKind :=
  match self with
  | RowSessionStarted _ => KindSessionStarted
  | RowNoTestCompleted _ => KindNoTestCompleted
  | RowSessionClosed _ _ _ => KindSessionClosed
  | RowEchoSent _ _ _ _ _ _ => KindEchoSent
  | RowEchoReply _ => KindEchoReply
  | RowLoss _ _ => KindLoss
  | RowDuplicate _ _ _ _ => KindDuplicate
  | RowLate _ _ => KindLate
  | RowWarning _ _ _ => KindWarning
  end.

(** [EventKind::name], the snake-case value of clap. *)
Definition kind_name (kind : EventKind) : bytes :=
  str (match kind with
       | KindSessionStarted => "session_started"
       | KindNoTestCompleted => "no_test_completed"
       | KindSessionClosed => "session_closed"
       | KindEchoSent => "echo_sent"
       | KindEchoReply => "echo_reply"
       | KindLoss => "loss"
       | KindDuplicate => "duplicate"
       | KindLate => "late"
       | KindWarning => "warning"
       end).

Definition is_default_table_hidden (self : OutputRow) : bool :=
  match self with RowEchoSent _ _ _ _ _ _ => true | _ => false end.

Definition reply (self : OutputRow) : option ReplyRow.t :=
  match self with RowEchoReply reply | RowLate reply _ => Some reply | _ => None end.

Definition row_seq (self : OutputRow) : option Z :=
  match self with
  | RowEchoSent seq _ _ _ _ _ | RowLoss seq _ | RowDuplicate seq _ _ _ => Some seq
  | RowEchoReply reply | RowLate reply _ => Some (ReplyRow.seq reply)
  | _ => None
  end.

Definition row_remote (self : OutputRow) : option SocketAddr :=
  match self with
  | RowSessionStarted row | RowNoTestCompleted row => Some (LifecycleRow.remote row)
  | RowSessionClosed remote _ _ | RowEchoSent _ remote _ _ _ _ | RowDuplicate _ remote _ _ => Some remote
  | RowEchoReply reply | RowLate reply _ => Some (ReplyRow.remote reply)
  | _ => None
  end.

Definition row_token (self : OutputRow) : option Z :=
  match self with
  | RowSessionStarted row | RowNoTestCompleted row => LifecycleRow.token row
  | RowSessionClosed _ token _ => Some token
  | _ => None
  end.

Definition row_bytes (self : OutputRow) : option Z :=
  match self with
  | RowEchoSent _ _ _ bytes _ _ | RowDuplicate _ _ _ bytes => Some bytes
  | RowEchoReply reply | RowLate reply _ => Some (ReplyRow.bytes reply)
  | _ => None
  end.

Module RenderContext.
Record t : Type := mk { ipdv_ns : option Z; target : option bytes; verbose : bool }.
End RenderContext.

Definition lifecycle_message (row : LifecycleRow.t) : bytes :=
  str "duration_ns=" ++ decimal (LifecycleRow.duration_ns row) ++ str " interval_ns=" ++
  decimal (LifecycleRow.interval_ns row) ++ str " length=" ++ decimal (LifecycleRow.payload_length row).

Definition row_message (context : RenderContext.t) (self : OutputRow) : option bytes :=
  match self with
  | RowSessionStarted row =>
      token ← LifecycleRow.token row; Some (str "token=" ++ hex_text token ++ str " " ++ lifecycle_message row)
  | RowNoTestCompleted row => Some (lifecycle_message row)
  | RowSessionClosed _ token _ => Some (str "token=" ++ hex_text token)
  | RowLate _ highest_seen => Some (str "highest_seen=" ++ decimal highest_seen)
  | RowWarning _ message _ => Some message
  | RowLoss _ _ => Some (str "timeout")
  | RowDuplicate _ _ _ _ => if RenderContext.verbose context then Some (str "duplicate reply") else None
  | _ => None
  end.

Definition row_event_wall (self : OutputRow) : option Z :=
  match self with
  | RowSessionStarted row | RowNoTestCompleted row => Some (LifecycleRow.event_wall row)
  | RowSessionClosed _ _ event_wall | RowWarning _ _ event_wall => Some event_wall
  | RowEchoSent _ _ client_send_wall _ _ _ | RowLoss _ client_send_wall => Some client_send_wall
  | RowDuplicate _ _ client_receive_wall _ => Some client_receive_wall
  | RowEchoReply reply | RowLate reply _ => Some (ReplyRow.client_receive_wall reply)
  end.

Definition row_client_send_wall (self : OutputRow) : option Z :=
  match self with
  | RowEchoSent _ _ client_send_wall _ _ _ | RowLoss _ client_send_wall => Some client_send_wall
  | RowEchoReply reply | RowLate reply _ => ReplyRow.client_send_wall reply
  | _ => None
  end.

Definition row_client_receive_wall (self : OutputRow) : option Z :=
  match self with
  | RowDuplicate _ _ client_receive_wall _ => Some client_receive_wall
  | RowEchoReply reply | RowLate reply _ => Some (ReplyRow.client_receive_wall reply)
  | _ => None
  end.

(** ** Columns *)
Inductive Column : Type :=
  | ColTarget | ColEvent | ColSeq | ColRemote | ColToken | ColRtt | ColRttUs | ColRawRttUs
  | ColEffectiveRttUs | ColAdjustedRttUs | ColReceiveDelay | ColReceiveDelayUs | ColSendDelay
  | ColSendDelayUs | ColIpdv | ColIpdvUs | ColServerProcessing | ColServerProcessingUs | ColBytes
  | ColSendCallUs | ColTimerErrorUs | ColHighestSeen | ColServerReceivedCount | ColServerReceivedWindow
  | ColDscp | ColEcn | ColTrafficClass | ColKernelRxNs | ColWarningKind | ColMessage | ColEventWallNs
  | ColClientSendWallNs | ColClientReceiveWallNs | ColDurationNs | ColIntervalNs | ColPayloadLength
  | ColServerReceiveWallNs | ColServerReceiveMonoNs | ColServerSendWallNs | ColServerSendMonoNs
  | ColServerMidpointWallNs | ColServerMidpointMonoNs.
#[export] Instance Column_eq_dec : EqDecision Column.
Proof. solve_decision. Defined.

Definition ALL_COLUMNS : list Column :=
  [ColTarget; ColEvent; ColSeq; ColRemote; ColToken; ColRtt; ColRttUs; ColRawRttUs; ColEffectiveRttUs;
   ColAdjustedRttUs; ColReceiveDelay; ColReceiveDelayUs; ColSendDelay; ColSendDelayUs; ColIpdv;
   ColIpdvUs; ColServerProcessing; ColServerProcessingUs; ColBytes; ColSendCallUs; ColTimerErrorUs;
   ColHighestSeen; ColServerReceivedCount; ColServerReceivedWindow; ColDscp; ColEcn; ColTrafficClass;
   ColKernelRxNs; ColWarningKind; ColMessage; ColEventWallNs; ColClientSendWallNs;
   ColClientReceiveWallNs; ColDurationNs; ColIntervalNs; ColPayloadLength; ColServerReceiveWallNs;
   ColServerReceiveMonoNs; ColServerSendWallNs; ColServerSendMonoNs; ColServerMidpointWallNs;
   ColServerMidpointMonoNs].

(** The schema of a column: name, aliases, table width, alignment to the right, description. *)
Definition schema (self : Column) : string * list string * Z * bool * string :=
  match self with
  | ColTarget => ("target", [], 18, false, "logical CLI target label")
  | ColEvent => ("event", [], 17, false, "event kind")
  | ColSeq => ("seq", [], 6, true, "probe sequence number")
  | ColRemote => ("remote", [], 21, false, "remote socket address")
  | ColToken => ("token", [], 18, false, "session token as hexadecimal")
  | ColRtt => ("rtt", [], 9, true, "human-readable effective RTT")
  | ColRttUs => ("rtt_us", [], 10, true, "effective RTT in signed microseconds")
  | ColRawRttUs => ("raw_rtt_us", [], 10, true, "raw client send-to-receive RTT in microseconds")
  | ColEffectiveRttUs => ("effective_rtt_us", [], 16, true, "effective RTT in signed microseconds")
  | ColAdjustedRttUs => ("adjusted_rtt_us", [], 15, true, "adjusted RTT in signed microseconds")
  | ColReceiveDelay => ("rd", ["receive_delay"], 9, true, "human-readable server-to-client delay")
  | ColReceiveDelayUs => ("rd_us", ["receive_delay_us"], 10, true, "server-to-client delay in signed microseconds")
  | ColSendDelay => ("sd", ["send_delay"], 9, true, "human-readable client-to-server delay")
  | ColSendDelayUs => ("sd_us", ["send_delay_us"], 10, true, "client-to-server delay in signed microseconds")
  | ColIpdv => ("ipdv", [], 9, true, "human-readable round-trip IPDV for adjacent samples")
  | ColIpdvUs => ("ipdv_us", [], 10, true, "round-trip IPDV in signed microseconds")
  | ColServerProcessing => ("proc", ["server_processing"], 9, true, "human-readable server processing time")
  | ColServerProcessingUs => ("server_processing_us", [], 20, true, "server processing time in microseconds")
  | ColBytes => ("bytes", [], 10, true, "packet bytes for packet events")
  | ColSendCallUs => ("send_call_us", [], 12, true, "send system call duration in microseconds")
  | ColTimerErrorUs => ("timer_error_us", [], 14, true, "scheduled-vs-actual send timer error in microseconds")
  | ColHighestSeen => ("highest_seen", [], 15, true, "highest sequence seen when a late reply arrived")
  | ColServerReceivedCount => ("server_received", ["server_received_count"], 15, true, "server-reported received packet count")
  | ColServerReceivedWindow => ("server_window", ["server_received_window"], 13, false, "server-reported received window as hexadecimal")
  | ColDscp => ("dscp", [], 4, true, "received packet DSCP codepoint")
  | ColEcn => ("ecn", [], 4, true, "received packet ECN bits")
  | ColTrafficClass => ("traffic_class", [], 13, true, "received packet traffic class byte")
  | ColKernelRxNs => ("kernel_rx_ns", [], 12, true, "kernel receive timestamp as Unix nanoseconds")
  | ColWarningKind => ("warning_kind", [], 28, false, "warning classifier")
  | ColMessage => ("message", [], 24, false, "warning or lifecycle message")
  | ColEventWallNs => ("event_wall_ns", [], 13, true, "event wall timestamp as Unix nanoseconds")
  | ColClientSendWallNs => ("client_send_wall_ns", [], 19, true, "client send wall timestamp as Unix nanoseconds")
  | ColClientReceiveWallNs => ("client_receive_wall_ns", [], 22, true, "client receive wall timestamp as Unix nanoseconds")
  | ColDurationNs => ("duration_ns", [], 11, true, "negotiated test duration in nanoseconds")
  | ColIntervalNs => ("interval_ns", [], 11, true, "negotiated probe interval in nanoseconds")
  | ColPayloadLength => ("payload_length", [], 14, true, "negotiated payload length")
  | ColServerReceiveWallNs => ("server_receive_wall_ns", [], 22, true, "server receive wall timestamp in nanoseconds")
  | ColServerReceiveMonoNs => ("server_receive_mono_ns", [], 22, true, "server receive monotonic timestamp in nanoseconds")
  | ColServerSendWallNs => ("server_send_wall_ns", [], 19, true, "server send wall timestamp in nanoseconds")
  | ColServerSendMonoNs => ("server_send_mono_ns", [], 19, true, "server send monotonic timestamp in nanoseconds")
  | ColServerMidpointWallNs => ("server_midpoint_wall_ns", [], 23, true, "server midpoint wall timestamp in nanoseconds")
  | ColServerMidpointMonoNs => ("server_midpoint_mono_ns", [], 23, true, "server midpoint monotonic timestamp in nanoseconds")
  end%string.
Definition name (self : Column) : bytes := let '(name, _, _, _, _) := schema self in str name.
Definition aliases (self : Column) : list bytes := let '(_, aliases, _, _, _) := schema self in str <$> aliases.
Definition table_width (self : Column) : Z := let '(_, _, width, _, _) := schema self in width.
Definition align_right (self : Column) : bool := let '(_, _, _, right_, _) := schema self in right_.
Definition description (self : Column) : bytes := let '(_, _, _, _, text) := schema self in str text.

(** [Column::parse]: the first arm that has the text among its names. *)
Definition parse_column (input : bytes) : option Column :=
  snd <$> list_find (λ column, input ∈ name column :: aliases column) ALL_COLUMNS.

(** [str::trim]: the encodings of the characters with the White_Space property. *)
Definition WHITE_SPACE : list bytes :=
  ((λ c, [c]) <$> [9; 10; 11; 12; 13; 32]) ++ [[194; 133]; [194; 160]; [225; 154; 128]] ++
  ((λ c, [226; 128; c]) <$> [128; 129; 130; 131; 132; 133; 134; 135; 136; 137; 138; 168; 169; 175]) ++
  [[226; 129; 159]; [227; 128; 128]].
Fixpoint trim_front (fuel : nat) (spaces : list bytes) (text : bytes) : bytes :=
  match fuel with
  | O => text
  | S fuel =>
      match list_find (λ space, starts_with space text) spaces with
      | Some (_, space) => trim_front fuel spaces (drop (length space) text)
      | None => text
      end
  end.
Definition trim_start (text : bytes) : bytes := trim_front (length text) WHITE_SPACE text.
Definition trim_end (text : bytes) : bytes := reverse (trim_front (length text) (reverse <$> WHITE_SPACE) (reverse text)).
Definition trim (text : bytes) : bytes := trim_end (trim_start text).

(** [split(',')]. *)
Fixpoint split_on (separator : Z) (part text : bytes) : list bytes :=
  match text with
  | [] => [part]
  | c :: text => if c =? separator then part :: split_on separator [] text else split_on separator (part ++ [c]) text
  end.

Definition default_columns (format : OutputFormat) (verbose : bool) : list Column :=
  match format with
  | Table =>
      [ColTarget; ColEvent; ColSeq; ColRtt; ColReceiveDelay; ColSendDelay; ColIpdv; ColServerProcessing; ColMessage] ++
      (if verbose then
         [ColRemote; ColServerReceivedCount; ColServerReceivedWindow; ColRawRttUs; ColAdjustedRttUs; ColBytes; ColDscp; ColEcn]
       else [])
  | Csv | Tsv | Jsonl => ALL_COLUMNS
  end.

Inductive ColumnsError : Type :=
  | NoColumns
  | EmptyColumn
  | UnknownColumn (name : bytes).

Definition parse_columns (input : bytes) (format : OutputFormat) (verbose : bool) : Result ColumnsError (list Column) :=
  let trimmed := trim input in
  if bool_decide (trimmed = []) then Err NoColumns
  else if bool_decide (trimmed = str "all") then Ok ALL_COLUMNS
  else if bool_decide (trimmed = str "default") then Ok (default_columns format verbose)
  else
    mapM (λ raw,
      let name := trim raw in
      if bool_decide (name = []) then Err EmptyColumn else ok_or (parse_column name) (UnknownColumn name))
      (split_on COMMA [] trimmed).

(** ** Cells *)
Inductive CellValue : Type :=
  | CellText (value : bytes)
  | CellInteger (value : Z)
  | CellUnsigned (value : Z)
  | CellHex (value : Z).

Definition display (self : CellValue) : bytes :=
  match self with
  | CellText value => value
  | CellInteger value | CellUnsigned value => decimal value
  | CellHex value => hex_text value
  end.

Definition duration_us (duration : Z) : Z := duration / 1_000.
Definition signed_duration_us (duration : SignedDuration.t) : Z := SignedDuration.as_micros duration.
(** [duration_since(UNIX_EPOCH)], as nanoseconds. *)
Definition wall_time_ns (wall : Z) : option Z := duration_since wall 0.

Definition warning_kind (kind : WarningKind) : bytes :=
  str (match kind with
       | MalformedOrUnrelatedPacket => "malformed_or_unrelated_packet"
       | WrongToken => "wrong_token"
       | UntrackedReply => "untracked_reply"
       end).

Definition server_timing_i64 (row : OutputRow) (select : ServerTiming.t → option Z) : option CellValue :=
  CellInteger <$> (reply row ≫= λ reply, ReplyRow.server_timing reply ≫= select).

Definition reply_rtt (row : OutputRow) : option RttSample.t := reply row ≫= ReplyRow.rtt.
Definition reply_one_way (select : OneWayDelaySample.t → option SignedDuration.t) (row : OutputRow) : option SignedDuration.t :=
  reply row ≫= λ reply, ReplyRow.one_way reply ≫= select.
Definition reply_stats (select : ReceivedStatsSample.t → option Z) (row : OutputRow) : option Z :=
  reply row ≫= λ reply, ReplyRow.received_stats reply ≫= select.
Definition reply_meta (select : PacketMeta.t → option Z) (row : OutputRow) : option Z :=
  reply row ≫= λ reply, select (ReplyRow.packet_meta reply).
Definition lifecycle (row : OutputRow) : option LifecycleRow.t :=
  match row with RowSessionStarted row | RowNoTestCompleted row => Some row | _ => None end.

Definition cell_for (row : OutputRow) (column : Column) (context : RenderContext.t) : option CellValue :=
  match column with
  | ColTarget => CellText <$> RenderContext.target context
  | ColEvent => Some (CellText (kind_name (event_kind row)))
  | ColSeq => CellUnsigned <$> row_seq row
  | ColRemote => (λ remote, CellText (socket_addr_text remote)) <$> row_remote row
  | ColToken => CellHex <$> row_token row
  | ColRtt => (λ rtt, CellText (format_signed_duration (RttSample.effective rtt))) <$> reply_rtt row
  | ColRttUs | ColEffectiveRttUs => (λ rtt, CellInteger (signed_duration_us (RttSample.effective rtt))) <$> reply_rtt row
  | ColRawRttUs => (λ rtt, CellUnsigned (duration_us (RttSample.raw rtt))) <$> reply_rtt row
  | ColAdjustedRttUs => (λ adjusted, CellInteger (signed_duration_us adjusted)) <$> (reply_rtt row ≫= RttSample.adjusted)
  | ColReceiveDelay => (λ value, CellText (format_signed_duration value)) <$> reply_one_way OneWayDelaySample.server_to_client row
  | ColReceiveDelayUs => (λ value, CellInteger (signed_duration_us value)) <$> reply_one_way OneWayDelaySample.server_to_client row
  | ColSendDelay => (λ value, CellText (format_signed_duration value)) <$> reply_one_way OneWayDelaySample.client_to_server row
  | ColSendDelayUs => (λ value, CellInteger (signed_duration_us value)) <$> reply_one_way OneWayDelaySample.client_to_server row
  | ColIpdv => (λ value, CellText (format_signed_duration (SignedDuration.from_nanos value))) <$> RenderContext.ipdv_ns context
  | ColIpdvUs => (λ value, CellInteger (Z.quot value 1_000)) <$> RenderContext.ipdv_ns context
  | ColServerProcessing =>
      (λ value, CellText (format_duration value)) <$>
        (reply row ≫= λ reply, ReplyRow.server_timing reply ≫= ServerTiming.processing)
  | ColServerProcessingUs =>
      (λ value, CellUnsigned (duration_us value)) <$>
        (reply row ≫= λ reply, ReplyRow.server_timing reply ≫= ServerTiming.processing)
  | ColBytes => CellUnsigned <$> row_bytes row
  | ColSendCallUs =>
      match row with RowEchoSent _ _ _ _ send_call _ => Some (CellUnsigned (duration_us send_call)) | _ => None end
  | ColTimerErrorUs =>
      match row with
      | RowEchoSent _ _ _ _ _ timer_error => (λ error, CellUnsigned (duration_us error)) <$> timer_error
      | _ => None
      end
  | ColHighestSeen => match row with RowLate _ highest_seen => Some (CellUnsigned highest_seen) | _ => None end
  | ColServerReceivedCount => CellUnsigned <$> reply_stats ReceivedStatsSample.count row
  | ColServerReceivedWindow => CellHex <$> reply_stats ReceivedStatsSample.window row
  | ColDscp => CellUnsigned <$> reply_meta PacketMeta.dscp row
  | ColEcn => CellUnsigned <$> reply_meta PacketMeta.ecn row
  | ColTrafficClass => CellUnsigned <$> reply_meta PacketMeta.traffic_class row
  | ColKernelRxNs => CellUnsigned <$> (reply_meta PacketMeta.kernel_rx_timestamp row ≫= wall_time_ns)
  | ColWarningKind => match row with RowWarning kind _ _ => Some (CellText (warning_kind kind)) | _ => None end
  | ColMessage => CellText <$> row_message context row
  | ColEventWallNs => CellUnsigned <$> (row_event_wall row ≫= wall_time_ns)
  | ColClientSendWallNs => CellUnsigned <$> (row_client_send_wall row ≫= wall_time_ns)
  | ColClientReceiveWallNs => CellUnsigned <$> (row_client_receive_wall row ≫= wall_time_ns)
  | ColDurationNs => (λ row, CellInteger (LifecycleRow.duration_ns row)) <$> lifecycle row
  | ColIntervalNs => (λ row, CellInteger (LifecycleRow.interval_ns row)) <$> lifecycle row
  | ColPayloadLength => (λ row, CellInteger (LifecycleRow.payload_length row)) <$> lifecycle row
  | ColServerReceiveWallNs => server_timing_i64 row ServerTiming.receive_wall_ns
  | ColServerReceiveMonoNs => server_timing_i64 row ServerTiming.receive_mono_ns
  | ColServerSendWallNs => server_timing_i64 row ServerTiming.send_wall_ns
  | ColServerSendMonoNs => server_timing_i64 row ServerTiming.send_mono_ns
  | ColServerMidpointWallNs => server_timing_i64 row ServerTiming.midpoint_wall_ns
  | ColServerMidpointMonoNs => server_timing_i64 row ServerTiming.midpoint_mono_ns
  end.

(** ** Tables *)
(** [chars().take(n)]. *)
Fixpoint take_chars (n : nat) (text : bytes) : bytes :=
  match text with
  | [] => []
  | c :: rest =>
      if utf8_cont c then c :: take_chars n rest
      else match n with O => [] | S n => c :: take_chars n rest end
  end.

Definition truncate_for_table (value : bytes) (max_width : Z) : bytes :=
  if char_count value <=? max_width then value
  else
    let suffix := str "..." in
    let prefix_len := Z.max 0 (max_width - len suffix) in
    take_chars (Z.to_nat prefix_len) value ++ suffix.

Definition format_table_cell (column : Column) (value : option bytes) : bytes :=
  let value := default ABSENT value in
  let width := table_width column in
  let value := if bool_decide (column = ColTarget) then truncate_for_table value width else value in
  if align_right column then pad_start width value else pad_end width value.

Definition render_table_header (columns : list Column) : bytes :=
  join (str "  ") ((λ column, format_table_cell column (Some (name column))) <$> columns).
Definition render_table_row (row : OutputRow) (columns : list Column) (context : RenderContext.t) : bytes :=
  join (str "  ") ((λ column, format_table_cell column (display <$> cell_for row column context)) <$> columns).

(** ** CSV and TSV *)
Definition DQUOTE : Z := 34.
Definition TAB : Z := 9.

Definition escape_csv (value : bytes) : bytes :=
  if existsb (λ c, (c =? COMMA) || (c =? DQUOTE) || (c =? NEWLINE) || (c =? CARRIAGE_RETURN)) value
  then DQUOTE :: (value ≫= λ c, if c =? DQUOTE then [DQUOTE; DQUOTE] else [c]) ++ [DQUOTE]
  else value.
Definition escape_tsv (value : bytes) : bytes :=
  (λ c, if (c =? TAB) || (c =? NEWLINE) || (c =? CARRIAGE_RETURN) then SPACE else c) <$> value.

Inductive DelimitedFormat : Type := DelimitedCsv | DelimitedTsv.
Definition separator_of (format : DelimitedFormat) : Z := match format with DelimitedCsv => COMMA | DelimitedTsv => TAB end.
Definition escape_delimited (format : DelimitedFormat) : bytes → bytes :=
  match format with DelimitedCsv => escape_csv | DelimitedTsv => escape_tsv end.

Definition render_delimited_row (row : OutputRow) (columns : list Column) (context : RenderContext.t)
    (format : DelimitedFormat) : bytes :=
  join [separator_of format]
    ((λ column, escape_delimited format (default [] (display <$> cell_for row column context))) <$> columns).

(** ** JSON Lines *)
(** [{:04x}]. *)
Definition hex4 (c : Z) : bytes := let digits := lower_hex c in replicate (4 - length digits) 48 ++ digits.

Definition json_char (c : Z) : bytes :=
  if c =? DQUOTE then [BACKSLASH; DQUOTE]
  else if c =? BACKSLASH then [BACKSLASH; BACKSLASH]
  else if c =? 10 then BACKSLASH :: str "n"
  else if c =? 13 then BACKSLASH :: str "r"
  else if c =? 9 then BACKSLASH :: str "t"
  else if c =? 8 then BACKSLASH :: str "b"
  else if c =? 12 then BACKSLASH :: str "f"
  else if c <? 32 then BACKSLASH :: str "u" ++ hex4 c
  else [c].
Definition write_json_string_content (value : bytes) : bytes := value ≫= json_char.

Definition write_json (self : CellValue) : bytes :=
  match self with
  | CellText value => [DQUOTE] ++ write_json_string_content value ++ [DQUOTE]
  | CellInteger value | CellUnsigned value => decimal value
  | CellHex value => [DQUOTE] ++ hex_text value ++ [DQUOTE]
  end.

Definition json_field (row : OutputRow) (context : RenderContext.t) (column : Column) : bytes :=
  [DQUOTE] ++ write_json_string_content (name column) ++ [DQUOTE; COLON] ++
  match cell_for row column context with Some value => write_json value | None => str "null" end.
Definition render_jsonl_row (row : OutputRow) (columns : list Column) (context : RenderContext.t) : bytes :=
  str "{" ++ join [COMMA] (json_field row context <$> columns) ++ str "}".

(** ** The configuration of the output *)
Module OutputConfig.
Record t : Type := mk {
  format : OutputFormat;
  events : list EventKind;
  columns : list Column;
  header : HeaderMode;
  default_table_rows : bool;
  verbose : bool;
}.

Definition new (format : OutputFormat) (columns : option bytes) (header : HeaderMode) (verbose : bool)
    (events : list EventKind) : Result ColumnsError t :=
  let uses_default_columns :=
    match columns with Some columns => bool_decide (trim columns = str "default") | None => true end in
  let default_table_rows := bool_decide (format = Table) && uses_default_columns in
  columns ←
    match columns with
    | Some columns => parse_columns columns format verbose
    | None => Ok (default_columns format verbose)
    end;
  Ok (mk format events columns header default_table_rows verbose).

Definition prints_summary (self : t) : bool := match format self with Table => true | _ => false end.

Definition summary_verbose (self : t) : bool := verbose self.

Definition should_print_header (self : t) : bool :=
  match header self with
  | HeaderAlways => bool_decide (format self ≠ Jsonl)
  | HeaderNever => false
  | HeaderAuto => match format self with Table | Csv | Tsv => true | Jsonl => false end
  end.

Definition render_header (self : t) : option bytes :=
  if should_print_header self then
    match format self with
    | Table => Some (render_table_header (columns self))
    | Csv => Some (join [COMMA] ((λ column, escape_csv (name column)) <$> columns self))
    | Tsv => Some (join [TAB] ((λ column, escape_tsv (name column)) <$> columns self))
    | Jsonl => None
    end
  else None.

Definition list_columns : bytes :=
  let lines l := l ≫= λ line, line ++ [NEWLINE] in
  lines (str "Available event columns:" ::
         ((λ column, str "  " ++ pad_end 24 (name column) ++ str " " ++ description column) <$> ALL_COLUMNS)) ++
  lines ([] :: str "Aliases:" ::
         omap (λ column,
           if bool_decide (aliases column ≠ [])
           then Some (str "  " ++ join (str ", ") (aliases column) ++ str " (" ++ name column ++ str ")") else None)
           ALL_COLUMNS) ++
  lines [[]; str "Special column sets:";
         str "  default  format default; compact for table, all columns for csv/tsv/jsonl";
         str "  all      every column"].
End OutputConfig.
Import OutputConfig.

(** [ipdv_pair]: the pair the sequence completes, or the one it begins. *)
Definition ipdv_pair (stats : option EventStatsUpdate.t) (seq : Z) : option IpdvPairUpdate.t :=
  stats ← stats;
  let pairs := EventStatsUpdate.ipdv_pairs stats in
  match list_find (λ pair, IpdvPairUpdate.current_seq pair = seq) pairs with
  | Some (_, found) => Some found
  | None => snd <$> list_find (λ pair, IpdvPairUpdate.previous_seq pair = seq) pairs
  end.

(** Whether an event has a row, and what its cells are computed from. *)
Definition has_row (self : OutputConfig.t) (row : OutputRow) : bool :=
  if negb (bool_decide (events self = [])) && bool_decide (event_kind row ∉ events self) then false
  else if bool_decide (events self = []) && default_table_rows self && is_default_table_hidden row then false
  else true.
Definition row_context (self : OutputConfig.t) (row : OutputRow) (target : option bytes)
    (stats : option EventStatsUpdate.t) : RenderContext.t :=
  RenderContext.mk (IpdvPairUpdate.rtt_ipdv_ns <$> (row_seq row ≫= ipdv_pair stats)) target (verbose self).

Definition render_event (self : OutputConfig.t) (event : ClientEvent.t) (target : option bytes)
    (stats : option EventStatsUpdate.t) : option bytes :=
  let row := from_event event in
  if has_row self row then
    let context := row_context self row target stats in
    Some (match format self with
          | Table => render_table_row row (columns self) context
          | Csv => render_delimited_row row (columns self) context DelimitedCsv
          | Tsv => render_delimited_row row (columns self) context DelimitedTsv
          | Jsonl => render_jsonl_row row (columns self) context
          end)
  else None.

(** ** [StreamOutput] *)
Module StreamOutput.
Record t : Type := mk { config : OutputConfig.t; header_printed : bool; out : bytes }.
Definition new (config : OutputConfig.t) : t := mk config false [].
Definition writeln (line : bytes) (self : t) : t := mk (config self) (header_printed self) (out self ++ line ++ [NEWLINE]).

Definition print_header (self : t) : t :=
  if header_printed self then self
  else
    let self := mk (config self) true (out self) in
    match render_header (config self) with Some header => writeln header self | None => self end.

Definition print_event (event : ClientEvent.t) (target : option bytes) (update : option EventStatsUpdate.t) (self : t) : t :=
  let self := print_header self in
  match render_event (config self) event target update with Some line => writeln line self | None => self end.
End StreamOutput.

(** ** Readers *)
(** Lines, each ended by a newline. *)
Fixpoint read_lines (line text : bytes) : option (list bytes) :=
  match text with
  | [] => if bool_decide (line = []) then Some [] else None
  | c :: text => if c =? NEWLINE then cons line <$> read_lines [] text else read_lines (line ++ [c]) text
  end.

Definition read_tsv (text : bytes) : option (list (list bytes)) := map (split_on TAB []) <$> read_lines [] text.

(** RFC 4180, with LF line ends. *)
Inductive CsvState : Type := FieldStart | Unquoted | Quoted | QuoteClosed.
Fixpoint csv_walk (state : CsvState) (field : bytes) (record : list bytes) (text : bytes) : option (list (list bytes)) :=
  match text with
  | [] => match state, record with FieldStart, [] => Some [] | _, _ => None end
  | c :: text =>
      let close next := 
        if c =? COMMA then csv_walk FieldStart [] (record ++ [field]) text
        else if c =? NEWLINE then cons (record ++ [field]) <$> csv_walk FieldStart [] [] text
        else next in
      match state with
      | FieldStart =>
          if c =? DQUOTE then csv_walk Quoted [] record text
          else close (if c =? CARRIAGE_RETURN then None else csv_walk Unquoted [c] record text)
      | Unquoted =>
          if (c =? DQUOTE) || (c =? CARRIAGE_RETURN) then None
          else close (csv_walk Unquoted (field ++ [c]) record text)
      | Quoted =>
          if c =? DQUOTE then csv_walk QuoteClosed field record text else csv_walk Quoted (field ++ [c]) record text
      | QuoteClosed =>
          if c =? DQUOTE then csv_walk Quoted (field ++ [c]) record text else close None
      end
  end.
Definition read_csv (text : bytes) : option (list (list bytes)) := csv_walk FieldStart [] [] text.

(** JSON: strings, integers and null; of the escapes of code points, those below 128. *)
Inductive JsonValue : Type := JNull | JString (value : bytes) | JInteger (value : Z).

Definition simple_escape (c : Z) : option Z :=
  if bool_decide (c ∈ [DQUOTE; BACKSLASH; 47]) then Some c
  else if c =? 98 then Some 8 else if c =? 102 then Some 12 else if c =? 110 then Some 10
  else if c =? 114 then Some 13 else if c =? 116 then Some 9 else None.

Fixpoint read_json_string (text : bytes) : option (bytes * bytes) :=
  match text with
  | [] => None
  | c :: text =>
      if c =? DQUOTE then Some ([], text)
      else if c =? BACKSLASH then
        match text with
        | 117 :: a :: b :: x :: y :: text =>
            '(code, _, left_) ← read_digits 16 None 0 0 [a; b; x; y];
            if bool_decide (left_ = []) && (code <? 128)
            then '(value, rest) ← read_json_string text; Some (code :: value, rest) else None
        | e :: text => ch ← simple_escape e; '(value, rest) ← read_json_string text; Some (ch :: value, rest)
        | [] => None
        end
      else if c <? 32 then None
      else '(value, rest) ← read_json_string text; Some (c :: value, rest)
  end.

Definition read_json_natural (text : bytes) : option (Z * bytes) :=
  '(n, count, rest) ← read_digits 10 None 0 0 text;
  if bool_decide (count = 0%nat) || (bool_decide (head text = Some 48) && bool_decide (1 < count)%nat) then None
  else Some (n, rest).

Definition read_json_value (text : bytes) : option (JsonValue * bytes) :=
  match text with
  | 34 :: text => '(value, rest) ← read_json_string text; Some (JString value, rest)
  | 110 :: 117 :: 108 :: 108 :: rest => Some (JNull, rest)
  | 45 :: text => '(n, rest) ← read_json_natural text; Some (JInteger (- n), rest)
  | _ => '(n, rest) ← read_json_natural text; Some (JInteger n, rest)
  end.

(** The members of an object, after its opening brace or a comma. *)
Fixpoint read_members (fuel : nat) (text : bytes) : option (list (bytes * JsonValue)) :=
  match fuel, text with
  | S fuel, 34 :: text =>
      '(key, text) ← read_json_string text;
      '(_, text) ← read_given_char COLON text;
      '(value, text) ← read_json_value text;
      match text with
      | 44 :: text => cons (key, value) <$> read_members fuel text
      | [125] => Some [(key, value)]
      | _ => None
      end
  | _, _ => None
  end.
Definition read_json_object (line : bytes) : option (list (bytes * JsonValue)) :=
  match line with
  | [123; 125] => Some []
  | 123 :: text => read_members (length text) text
  | _ => None
  end.
Definition read_jsonl (text : bytes) : option (list (list (bytes * JsonValue))) :=
  lines ← read_lines [] text; mapM read_json_object lines.

(** ** What the output says *)
Definition Printed : Type := ClientEvent.t * option bytes * option EventStatsUpdate.t.

Definition event_cells (self : OutputConfig.t) (e : Printed) : list (option CellValue) :=
  let '(event, target, update) := e in
  let row := from_event event in
  (λ column, cell_for row column (row_context self row target update)) <$> columns self.
(** The rows of a stream: one for each event that has one. *)
Definition rows (self : OutputConfig.t) (events : list Printed) : list (list (option CellValue)) :=
  event_cells self <$> filter (λ e, has_row self (from_event e.1.1) = true) events.

(** Everything written for a stream of events. *)
Definition print_all (events : list Printed) (self : StreamOutput.t) : StreamOutput.t :=
  fold_left (λ self '(event, target, update), StreamOutput.print_event event target update self) events self.
Definition printed (self : OutputConfig.t) (events : list Printed) : bytes :=
  StreamOutput.out (print_all events (StreamOutput.new self)).

Definition header_lines (self : OutputConfig.t) (events : list Printed) : list (list bytes) :=
  if negb (bool_decide (events = [])) && should_print_header self then [name <$> columns self] else [].

Definition json_value (cell : option CellValue) : JsonValue :=
  match cell with
  | None => JNull
  | Some (CellText value) => JString value
  | Some (CellInteger value) | Some (CellUnsigned value) => JInteger value
  | Some (CellHex value) => JString (hex_text value)
  end.

(** ** Lemmas: the stream *)
Definition terminated (lines : list bytes) : bytes := lines ≫= λ line, line ++ [NEWLINE].

(** The lines written for a stream. *)
Definition event_lines (self : OutputConfig.t) (events : list Printed) : list bytes :=
  omap (λ '(event, target, update), render_event self event target update) events.
Definition text_lines (self : OutputConfig.t) (events : list Printed) : list bytes :=
  (if bool_decide (events = []) then [] else option_list (render_header self)) ++ event_lines self events.

Lemma terminated_cons line lines : terminated (line :: lines) = line ++ NEWLINE :: terminated lines.
Proof. unfold terminated. cbn [mbind list_bind]. by rewrite <- app_assoc. Qed.
Lemma terminated_app a b : terminated (a ++ b) = terminated a ++ terminated b.
Proof. apply bind_app. Qed.

Lemma print_all_lines self events out :
  print_all events (StreamOutput.mk self true out) = StreamOutput.mk self true (out ++ terminated (event_lines self events)).
Proof.
  revert out. induction events as [|[[event target] update] events IH]; intros out; [by rewrite app_nil_r|].
  unfold print_all, event_lines in *. cbn [fold_left omap list_omap]. unfold StreamOutput.print_event, StreamOutput.print_header.
  cbn [StreamOutput.header_printed StreamOutput.config]. destruct (render_event self event target update) as [line|]; [|apply IH].
  unfold StreamOutput.writeln. cbn [StreamOutput.config StreamOutput.header_printed StreamOutput.out]. rewrite IH, terminated_cons. f_equal.
  by rewrite <- !app_assoc.
Qed.

Lemma printed_lines self events : printed self events = terminated (text_lines self events).
Proof.
  unfold printed, text_lines. destruct events as [|e events]; [done|]. rewrite bool_decide_false by done.
  assert (print_all (e :: events) (StreamOutput.new self)
    = print_all (e :: events) (StreamOutput.mk self true (terminated (option_list (render_header self))))) as ->.
  { destruct e as [[event target] update]. unfold print_all. cbn [fold_left]. f_equal. unfold StreamOutput.print_event. f_equal.
    unfold StreamOutput.print_header, StreamOutput.new. cbn. destruct (render_header self); [|done].
    unfold StreamOutput.writeln. cbn. by rewrite app_nil_r. }
  rewrite print_all_lines. by rewrite terminated_app.
Qed.

(** The lines of events are the rows, rendered. *)
Lemma event_lines_rows self events (render : list (option CellValue) → bytes) :
  (∀ e, has_row self (from_event e.1.1) = true →
    render_event self e.1.1 e.1.2 e.2 = Some (render (event_cells self e))) →
  event_lines self events = render <$> rows self events.
Proof.
  intros Hr. unfold event_lines, rows. induction events as [|e events IH]; [done|]. specialize (Hr e).
  rewrite filter_cons. destruct e as [[event target] update]. cbn [omap list_omap fst snd] in *.
  case_decide as Hh; [rewrite Hr by done; cbn; by f_equal|].
  assert (render_event self event target update = None) as ->; [|done].
  unfold render_event. by destruct (has_row self (from_event event)).
Qed.

Lemma read_line line rest : NEWLINE ∉ line → ∀ l, read_lines l (line ++ NEWLINE :: rest) = cons (l ++ line) <$> read_lines [] rest.
Proof.
  induction line as [|c line IH]; intros Hn l; cbn [app read_lines].
  - by rewrite app_nil_r.
  - apply not_elem_of_cons in Hn as [Hc Hn]. rewrite (proj2 (Z.eqb_neq c NEWLINE)) by congruence.
    rewrite IH by done. by rewrite <- app_assoc.
Qed.
Lemma read_terminated lines : Forall (λ line, NEWLINE ∉ line) lines → read_lines [] (terminated lines) = Some lines.
Proof.
  induction 1 as [|line lines Hl _ IH]; [done|]. rewrite terminated_cons.
  by rewrite read_line, IH.
Qed.

Lemma join_cons sep part parts : parts ≠ [] → join sep (part :: parts) = part ++ sep ++ join sep parts.
Proof. by destruct parts. Qed.

(** ** Lemmas: CSV *)
Lemma quoted_run value field record rest :
  csv_walk Quoted field record ((value ≫= λ c, if c =? DQUOTE then [DQUOTE; DQUOTE] else [c]) ++ DQUOTE :: rest)
  = csv_walk QuoteClosed (field ++ value) record rest.
Proof.
  revert field. induction value as [|c value IH]; intros field; cbn [mbind list_bind app csv_walk].
  - by rewrite app_nil_r.
  - destruct (Z.eqb_spec c DQUOTE) as [->|Hc]; cbn [app csv_walk].
    + cbn [Z.eqb DQUOTE]. change (DQUOTE =? DQUOTE) with true. cbv iota. rewrite IH. by rewrite <- app_assoc.
    + rewrite (proj2 (Z.eqb_neq c DQUOTE)) by done. rewrite IH. by rewrite <- app_assoc.
Qed.

Definition csv_special (c : Z) : bool := (c =? COMMA) || (c =? DQUOTE) || (c =? NEWLINE) || (c =? CARRIAGE_RETURN).

Lemma unquoted_run value field record rest :
  existsb csv_special value = false →
  csv_walk Unquoted field record (value ++ rest) = csv_walk Unquoted (field ++ value) record rest.
Proof.
  revert field. induction value as [|c value IH]; intros field; cbn [existsb app]; [by rewrite app_nil_r|].
  intros [Hc Hv]%orb_false_elim. unfold csv_special in Hc. apply orb_false_elim in Hc as [[[H1 H2]%orb_false_elim H3]%orb_false_elim H4].
  cbn [csv_walk]. rewrite H1, H2, H3, H4. cbn [orb]. rewrite IH by done. by rewrite <- app_assoc.
Qed.

(** A field and what follows it. *)
Lemma csv_field value record c rest :
  c = COMMA ∨ c = NEWLINE →
  csv_walk FieldStart [] record (escape_csv value ++ c :: rest)
  = if c =? COMMA then csv_walk FieldStart [] (record ++ [value]) rest
    else cons (record ++ [value]) <$> csv_walk FieldStart [] [] rest.
Proof.
  intros Hc. unfold escape_csv. fold csv_special. destruct (existsb csv_special value) eqn:He.
  - cbn [app csv_walk]. change (DQUOTE =? DQUOTE) with true. cbv iota. rewrite <- app_assoc. cbn [app].
    rewrite quoted_run. cbn [app csv_walk]. by destruct Hc as [-> | ->].
  - destruct value as [|x value].
    + cbn [app csv_walk]. by destruct Hc as [-> | ->].
    + cbn [existsb] in He. apply orb_false_elim in He as [Hx Hv]. pose proof Hx as Hx'. unfold csv_special in Hx'.
      apply orb_false_elim in Hx' as [[[H1 H2]%orb_false_elim H3]%orb_false_elim H4].
      cbn [app csv_walk]. rewrite H1, H2, H3, H4. rewrite unquoted_run by done. cbn [app csv_walk].
      by destruct Hc as [-> | ->].
Qed.

Lemma csv_record fields record rest :
  fields ≠ [] →
  csv_walk FieldStart [] record (join [COMMA] (escape_csv <$> fields) ++ NEWLINE :: rest)
  = cons (record ++ fields) <$> csv_walk FieldStart [] [] rest.
Proof.
  revert record. induction fields as [|value fields IH]; intros record Hf; [done|]. destruct fields as [|next fields].
  - cbn [fmap list_fmap join]. rewrite csv_field by auto. done.
  - change (escape_csv <$> value :: next :: fields) with (escape_csv value :: (escape_csv <$> next :: fields)).
    rewrite join_cons by done. rewrite <- !app_assoc. cbn [app]. rewrite csv_field by auto.
    change (COMMA =? COMMA) with true. cbv iota. rewrite IH by done. by rewrite <- app_assoc.
Qed.

Lemma read_csv_records records :
  Forall (λ fields, fields ≠ []) records →
  read_csv (terminated ((λ fields, join [COMMA] (escape_csv <$> fields)) <$> records)) = Some records.
Proof.
  unfold read_csv. induction 1 as [|fields records Hf _ IH]; [done|].
  cbn [fmap list_fmap]. rewrite terminated_cons. by rewrite csv_record, IH.
Qed.

(** ** Lemmas: TSV *)
Lemma split_skip sep part x rest : sep ∉ x → split_on sep part (x ++ rest) = split_on sep (part ++ x) rest.
Proof.
  revert part. induction x as [|c x IH]; intros part Hx; cbn [app split_on]; [by rewrite app_nil_r|].
  apply not_elem_of_cons in Hx as [Hc Hx]. rewrite (proj2 (Z.eqb_neq c sep)) by congruence. rewrite IH by done.
  by rewrite <- app_assoc.
Qed.
Lemma split_join sep parts : parts ≠ [] → Forall (λ part, sep ∉ part) parts → split_on sep [] (join [sep] parts) = parts.
Proof.
  intros Hne Hp. induction Hp as [|part parts Hp _ IH]; [done|]. destruct parts as [|next parts].
  - cbn [join]. rewrite <- (app_nil_r part) at 1. by rewrite split_skip.
  - rewrite join_cons, split_skip by done. cbn [app split_on]. rewrite Z.eqb_refl. by rewrite IH.
Qed.

Lemma tsv_clean value c : c = TAB ∨ c = NEWLINE ∨ c = CARRIAGE_RETURN → c ∉ escape_tsv value.
Proof.
  intros Hc. unfold escape_tsv. rewrite list_elem_of_fmap. intros (x & He & _).
  destruct (_ || _) eqn:Hx; [by destruct_or? Hc; subst|]. subst c.
  apply orb_false_elim in Hx as [[H1%Z.eqb_neq H2%Z.eqb_neq]%orb_false_elim H3%Z.eqb_neq]. naive_solver.
Qed.

Lemma join_without sep parts c : sep ≠ c → Forall (λ part, c ∉ part) parts → c ∉ join [sep] parts.
Proof.
  intros Hs Hp. induction Hp as [|part parts Hp Hps IH]; [apply not_elem_of_nil|]. destruct parts as [|next parts]; [done|].
  rewrite join_cons by done. rewrite !not_elem_of_app. split; [done|]. split; [|done]. rewrite list_elem_of_singleton. congruence.
Qed.

Lemma tsv_lines records :
  Forall (λ fields, fields ≠ []) records →
  read_tsv (terminated ((λ fields, join [TAB] (escape_tsv <$> fields)) <$> records)) = Some (map escape_tsv <$> records).
Proof.
  intros Hf. unfold read_tsv. rewrite read_terminated.
  - cbn. f_equal. induction Hf as [|fields records Hf _ IH]; [done|]. cbn. rewrite split_join, IH; [done|by destruct fields|].
    apply Forall_fmap, Forall_true. intros value. apply tsv_clean. auto.
  - apply Forall_fmap, Forall_true. intros fields. apply join_without; [done|].
    apply Forall_fmap, Forall_true. intros value. apply tsv_clean. auto.
Qed.

(** ** Lemmas: JSON *)
Lemma json_char_read c text : in_u 8 c →
  read_json_string (json_char c ++ text) = ('(value, rest) ← read_json_string text; Some (c :: value, rest)).
Proof.
  intros Hc. unfold in_u in Hc. destruct (decide (c < 32)) as [Hlt|Hge].
  - assert (c ∈ seqZ 0 32) as Hin by (apply elem_of_seqZ; lia). clear Hc Hlt. revert c Hin. apply Forall_forall.
    let l := eval vm_compute in (seqZ 0 32) in change (seqZ 0 32) with l. repeat constructor.
  - unfold json_char. destruct (Z.eqb_spec c DQUOTE) as [->|H1]; [done|]. destruct (Z.eqb_spec c BACKSLASH) as [->|H2]; [done|].
    rewrite !(proj2 (Z.eqb_neq c _)), (proj2 (Z.ltb_ge c 32)) by lia. cbn [app read_json_string].
    rewrite (proj2 (Z.eqb_neq _ _) H1), (proj2 (Z.eqb_neq _ _) H2), (proj2 (Z.ltb_ge _ _)) by lia. done.
Qed.

Lemma json_string_read value rest :
  bytes_ok value → read_json_string (write_json_string_content value ++ DQUOTE :: rest) = Some (value, rest).
Proof.
  unfold write_json_string_content. induction 1 as [|c value Hc _ IH]; [done|]. cbn [mbind list_bind].
  rewrite <- app_assoc, json_char_read by done. by rewrite IH.
Qed.

(** Nothing written is a control character. *)
Definition visible (text : bytes) : Prop := Forall (λ c, 32 <= c) text.
Lemma visible_app a b : visible (a ++ b) ↔ visible a ∧ visible b.
Proof. apply Forall_app. Qed.

Lemma json_char_visible c : in_u 8 c → visible (json_char c).
Proof.
  intros Hc. unfold in_u in Hc. destruct (decide (c < 32)) as [Hlt|Hge].
  - assert (c ∈ seqZ 0 32) as Hin by (apply elem_of_seqZ; lia). clear Hc Hlt. revert c Hin. apply Forall_forall.
    let l := eval vm_compute in (seqZ 0 32) in change (seqZ 0 32) with l. unfold visible. repeat constructor; by vm_compute.
  - unfold json_char. destruct (Z.eqb_spec c DQUOTE) as [->|H1]; [by repeat constructor|].
    destruct (Z.eqb_spec c BACKSLASH) as [->|H2]; [by repeat constructor|].
    rewrite !(proj2 (Z.eqb_neq c _)), (proj2 (Z.ltb_ge c 32)) by lia. apply Forall_singleton. lia.
Qed.
Lemma json_content_visible value : bytes_ok value → visible (write_json_string_content value).
Proof.
  unfold write_json_string_content, visible. induction 1 as [|c value Hc _ IH]; [constructor|]. cbn [mbind list_bind].
  apply Forall_app. split; [by apply json_char_visible|done].
Qed.

Lemma visible_no_newline text : visible text → NEWLINE ∉ text.
Proof. intros Hv Hin. eapply Forall_forall in Hv; [|exact Hin]. done. Qed.

(** Text a JSON string holds as it is. *)
Definition plain (text : bytes) : Prop := Forall (λ c, 32 <= c ∧ c ≠ DQUOTE ∧ c ≠ BACKSLASH) text.
Lemma plain_read text rest : plain text → read_json_string (text ++ DQUOTE :: rest) = Some (text, rest).
Proof.
  induction 1 as [|c text (Hc & Hd & Hb) _ IH]; [done|]. cbn [app read_json_string].
  by rewrite (proj2 (Z.eqb_neq _ _) Hd), (proj2 (Z.eqb_neq _ _) Hb), (proj2 (Z.ltb_ge _ _) Hc), IH.
Qed.

Lemma hex_digits_plain fuel z s : plain (str s) → plain (str (hex_digits fuel z s)).
Proof.
  revert z s. induction fuel as [|fuel IH]; intros z s Hs; cbn [hex_digits]; [done|].
  assert (plain (str (String (hex_digit (z mod 16)) s))) as Hs'.
  { rewrite str_cons. constructor; [|done]. pose proof (Z.mod_pos_bound z 16 ltac:(lia)) as Hm.
    assert (z mod 16 ∈ seqZ 0 16) as Hin by (apply elem_of_seqZ; lia). revert Hin. generalize (z mod 16). clear.
    apply Forall_forall. let l := eval vm_compute in (seqZ 0 16) in change (seqZ 0 16) with l.
    repeat constructor; vm_compute; congruence. }
  destruct (_ =? 0); [done|by apply IH].
Qed.
Lemma hex_plain z : plain (hex_text z).
Proof.
  unfold hex_text, hex. rewrite str_app. apply Forall_app. split; [|apply hex_digits_plain; constructor].
  repeat constructor; vm_compute; congruence.
Qed.

(** What follows a value in a row. *)
Definition value_end (c : Z) : Prop := c = COMMA ∨ c = 125.

Lemma natural_read z c rest : 0 <= z → value_end c → read_json_natural (decimal z ++ c :: rest) = Some (z, c :: rest).
Proof.
  intros Hz Hc. destruct (decimal_natural z Hz) as (digits & -> & _ & Hne & Hh & Hr). unfold read_json_natural.
  rewrite Hr by by destruct Hc as [-> | ->]. cbn [mbind option_bind].
  rewrite bool_decide_false by by destruct digits. cbn [orb].
  destruct (decide (head (digits ++ c :: rest) = Some 48)) as [H0|H0]; [|by rewrite (bool_decide_false _ H0)].
  rewrite (Hh ltac:(by destruct digits)). cbn. done.
Qed.

Lemma integer_read z c rest : value_end c → read_json_value (decimal z ++ c :: rest) = Some (JInteger z, c :: rest).
Proof.
  intros Hc. destruct (decide (z < 0)) as [Hz|Hz].
  - rewrite decimal_negative by done. cbn [app read_json_value]. rewrite natural_read by (done || lia). cbn. do 3 f_equal. lia.
  - pose proof (natural_read z c rest ltac:(lia) Hc) as Hn. destruct (decimal_natural z ltac:(lia)) as (digits & He & Hd & Hne & _).
    rewrite He in *. destruct digits as [|d digits]; [done|]. apply Forall_cons in Hd as [Hd _].
    assert (d = 48 ∨ d = 49 ∨ d = 50 ∨ d = 51 ∨ d = 52 ∨ d = 53 ∨ d = 54 ∨ d = 55 ∨ d = 56 ∨ d = 57) as Hd' by lia.
    cbn [app] in Hn |- *. destruct_or? Hd'; subst d; cbn [read_json_value]; by rewrite Hn.
Qed.

Definition cell_ok (cell : option CellValue) : Prop := match cell with Some (CellText value) => bytes_ok value | _ => True end.

Lemma value_read cell c rest : cell_ok cell → value_end c →
  read_json_value (match cell with Some value => write_json value | None => str "null" end ++ c :: rest)
  = Some (json_value cell, c :: rest).
Proof.
  intros Hok Hc. destruct cell as [[value|z|z|z]|]; cbn [write_json json_value].
  - cbn [app]. unfold DQUOTE at 1. cbn [read_json_value]. rewrite <- app_assoc. cbn [app]. by rewrite json_string_read.
  - by apply integer_read.
  - by apply integer_read.
  - cbn [app]. unfold DQUOTE at 1. cbn [read_json_value]. rewrite <- app_assoc. cbn [app]. by rewrite plain_read by apply hex_plain.
  - done.
Qed.

Definition field_text (column : Column) (cell : option CellValue) : bytes :=
  [DQUOTE] ++ write_json_string_content (name column) ++ [DQUOTE; COLON] ++
  match cell with Some value => write_json value | None => str "null" end.
Definition members_text (columns : list Column) (cells : list (option CellValue)) : bytes :=
  join [COMMA] (zip_with field_text columns cells).

Lemma name_bytes column : bytes_ok (name column).
Proof. unfold name. repeat case_match. apply str_bytes. Qed.

Lemma members_read fuel columns cells :
  columns ≠ [] → length columns = length cells → Forall cell_ok cells → (length columns <= fuel)%nat →
  read_members fuel (members_text columns cells ++ [125]) = Some (zip (name <$> columns) (json_value <$> cells)).
Proof.
  revert columns cells. induction fuel as [|fuel IH]; intros columns cells Hne Hl Hc Hf; [destruct columns; [done|cbn in Hf; lia]|].
  destruct columns as [|column columns]; [done|]. destruct cells as [|cell cells]; [done|].
  apply Forall_cons in Hc as [Hok Hc]. injection Hl as Hl. cbn [length] in Hf.
  assert (∀ c rest, value_end c → read_members (S fuel) (field_text column cell ++ c :: rest)
    = match c :: rest with
      | 44 :: text => cons (name column, json_value cell) <$> read_members fuel text
      | [125] => Some [(name column, json_value cell)]
      | _ => None
      end) as Hstep.
  { intros c rest Hend. unfold field_text. rewrite <- !app_assoc. cbn [app]. unfold DQUOTE at 1. cbn [read_members].
    rewrite json_string_read by apply name_bytes. cbn [mbind option_bind read_given_char].
    change (COLON =? COLON) with true. cbn [mbind option_bind]. rewrite value_read by done. done. }
  unfold members_text. cbn [zip_with fmap list_fmap zip]. destruct columns as [|next columns].
  - destruct cells; [|done]. cbn [zip_with join]. rewrite Hstep by by right. done.
  - destruct cells as [|next_cell cells]; [done|]. rewrite join_cons by done. rewrite <- !app_assoc. cbn [app].
    rewrite Hstep by by left. change COMMA with 44. cbv iota.
    specialize (IH (next :: columns) (next_cell :: cells) ltac:(done) Hl Hc ltac:(cbn [length] in *; lia)).
    unfold members_text in IH. change COMMA with 44 in IH. cbn [zip_with fmap list_fmap zip] in *. by rewrite IH.
Qed.

Lemma cells_ok self e : match e.1.2 with Some target => bytes_ok target | None => True end → Forall cell_ok (event_cells self e).
Proof.
  destruct e as [[event target] update]. cbn [fst snd]. intros Ht. apply Forall_fmap, Forall_true. intros column.
  assert (match from_event event with RowWarning _ message _ => bytes_ok message | _ => True end) as Hw
    by (destruct event; try done; apply str_bytes).
  revert Hw. generalize (from_event event). intros row Hw. unfold cell_ok.
  assert (∀ A (f : A → bytes) o, (∀ a, bytes_ok (f a)) →
    match (λ a, CellText (f a)) <$> o with Some (CellText value) => bytes_ok value | _ => True end) as Htext
    by (intros A f [a|] Hf; cbn; [apply Hf|done]).
  assert (∀ A (f : A → Z) o, match (λ a, CellInteger (f a)) <$> o with Some (CellText value) => bytes_ok value | _ => True end) as Hint
    by by intros A f [].
  assert (∀ A (f : A → Z) o, match (λ a, CellUnsigned (f a)) <$> o with Some (CellText value) => bytes_ok value | _ => True end) as Huns
    by by intros A f [].
  assert (∀ o, match CellUnsigned <$> o with Some (CellText value) => bytes_ok value | _ => True end) as Huns' by by intros [].
  assert (∀ o, match CellInteger <$> o with Some (CellText value) => bytes_ok value | _ => True end) as Hint' by by intros [].
  assert (∀ o, match CellHex <$> o with Some (CellText value) => bytes_ok value | _ => True end) as Hhex' by by intros [].
  destruct column; cbn [cell_for];
    first [apply Huns' | apply Hint' | apply Hhex' | apply Hint | apply Huns
          | solve [apply Htext; intros; unfold format_signed_duration, format_duration; auto with irtt] | idtac].
  - unfold row_context. cbn. by destruct target.
  - unfold kind_name. apply str_bytes.
  - by destruct row.
  - destruct row; try done. apply Huns.
  - by destruct row.
  - destruct row; try done. apply str_bytes.
  - assert (∀ context, match row_message context row with Some value => bytes_ok value | None => True end) as Hm.
    { assert (∀ r, bytes_ok (lifecycle_message r)) as Hlife by (intros r; unfold lifecycle_message; bytes_tac).
      intros context. destruct row as [r|r|remote token wall|seq remote wall n call error|r|seq wall|seq remote wall n|r highest|kind message wall];
        cbn [row_message]; try done.
      - destruct (LifecycleRow.token r); cbn [mbind option_bind]; [|done]. unfold hex_text. bytes_tac.
      - unfold hex_text. bytes_tac.
      - apply str_bytes.
      - destruct (RenderContext.verbose context); [apply str_bytes|done].
      - bytes_tac. }
    specialize (Hm (row_context self row target update)). unfold compose. cbn [cell_for].
    by destruct (row_message (row_context self row target update) row).
Qed.

Lemma field_visible column cell : cell_ok cell → visible (field_text column cell).
Proof.
  intros Hc. assert (∀ text, plain text → visible text) as Hplain by (intros text Hp; eapply Forall_impl; [exact Hp|]; naive_solver).
  assert (∀ z, visible (decimal z)) as Hdec.
  { assert (∀ z, 0 <= z → visible (decimal z)) as Hnat.
    { intros z Hz. destruct (decimal_natural z Hz) as (digits & -> & Hd & _). eapply Forall_impl; [exact Hd|]. cbn. lia. }
    intros z. destruct (decide (z < 0)); [|apply Hnat; lia]. rewrite decimal_negative by done. constructor; [done|]. apply Hnat. lia. }
  unfold field_text. rewrite !visible_app. split; [by repeat constructor|]. split; [apply json_content_visible, name_bytes|].
  split; [by repeat constructor|]. destruct cell as [[value|z|z|z]|]; cbn [write_json]; try apply Hdec.
  - rewrite !visible_app. split; [by repeat constructor|]. split; [by apply json_content_visible|by repeat constructor].
  - rewrite !visible_app. split; [by repeat constructor|]. split; [apply Hplain, hex_plain|by repeat constructor].
  - repeat constructor; done.
Qed.

Lemma join_visible separator parts : visible separator → Forall visible parts → visible (join separator parts).
Proof.
  intros Hs. induction 1 as [|part parts Hp Hps IH]; [constructor|]. destruct parts as [|next parts]; [done|].
  rewrite join_cons by done. by rewrite !visible_app.
Qed.

(** A row of JSON Lines is an object, on one line. *)
Definition object_text (columns : list Column) (cells : list (option CellValue)) : bytes :=
  str "{" ++ members_text columns cells ++ str "}".

Lemma members_visible columns cells : Forall cell_ok cells → visible (members_text columns cells).
Proof.
  intros Hc. apply join_visible; [by repeat constructor|]. revert columns. induction Hc as [|cell cells Hc _ IH]; intros [|column columns];
    cbn [zip_with]; constructor; [by apply field_visible|apply IH].
Qed.

Lemma object_read columns cells :
  columns ≠ [] → length columns = length cells → Forall cell_ok cells →
  read_json_object (object_text columns cells) = Some (zip (name <$> columns) (json_value <$> cells)) ∧
  (NEWLINE ∉ object_text columns cells).
Proof.
  intros Hne Hl Hc. split.
  - unfold object_text, read_json_object. change (str "{") with [123]. change (str "}") with [125]. cbn [app].
    assert (members_text columns cells ≠ [] ∧ length columns <= length (members_text columns cells))%nat as [Hm Hlen].
    { unfold members_text. destruct columns as [|column columns]; [done|]. destruct cells as [|cell cells]; [done|].
      split; [destruct (zip_with field_text columns cells) eqn:Hz; cbn [zip_with]; rewrite Hz; [done|by rewrite join_cons]|].
      injection Hl as Hl. clear Hne Hc. revert column cell cells Hl. induction columns as [|next columns IH]; intros column cell [|next_cell cells] Hl; try done.
      - cbn. lia.
      - injection Hl as Hl. specialize (IH next next_cell cells Hl). cbn [zip_with] in *. rewrite join_cons by done.
        rewrite !length_app. cbn [length] in *. lia. }
    destruct (members_text columns cells) as [|c rest] eqn:Ht; [done|].
    assert (read_members (length ((c :: rest) ++ [125])) ((c :: rest) ++ [125]) = Some (zip (name <$> columns) (json_value <$> cells))) as Hr.
    { rewrite <- Ht. apply members_read; try done. rewrite length_app, Ht. cbn [length] in *. lia. }
    cbn [app] in Hr |- *. assert (c = DQUOTE) as ->; [|exact Hr].
    { revert Ht. unfold members_text. destruct columns as [|column columns]; [done|]. destruct cells as [|cell cells]; [done|].
      cbn [zip_with]. destruct (zip_with field_text columns cells); [cbn [join]|rewrite join_cons by done]; unfold field_text; cbn [app];
        by intros [= <-]. }
  - apply visible_no_newline. unfold object_text. rewrite !visible_app. split; [by repeat constructor|].
    split; [by apply members_visible|by repeat constructor].
Qed.

(** ** The columns there are *)
Lemma split_nonempty sep part text : split_on sep part text ≠ [].
Proof. revert part. induction text as [|c text IH]; intros part; cbn; [done|]. destruct (c =? sep); [done|apply IH]. Qed.

Lemma parse_columns_some input format verbose columns : parse_columns input format verbose = Ok columns → columns ≠ [].
Proof.
  unfold parse_columns. case_bool_decide; [done|]. case_bool_decide; [by intros [= <-]|].
  case_bool_decide; [by intros <-%Ok_inj; destruct format, verbose|].
  destruct (split_on COMMA [] (trim input)) as [|raw parts] eqn:Hs; [by apply split_nonempty in Hs|].
  cbn [mapM]. intros (column & _ & (rest & _ & <-%Ok_inj)%bind_ok)%bind_ok. done.
Qed.

Lemma new_config format columns header verbose kinds config :
  OutputConfig.new format columns header verbose kinds = Ok config →
  OutputConfig.columns config ≠ [] ∧ OutputConfig.format config = format ∧ OutputConfig.header config = header.
Proof.
  unfold OutputConfig.new. intros (cols & Hc & <-%Ok_inj)%bind_ok. cbn. split; [|done].
  destruct columns as [input|]; [by eapply parse_columns_some|]. injection Hc as <-. by destruct format, verbose.
Qed.

Definition cell_text (cell : option CellValue) : bytes := default [] (display <$> cell).

Lemma delimited_cells config event target update format :
  render_delimited_row (from_event event) (columns config) (row_context config (from_event event) target update) format
  = join [separator_of format] (escape_delimited format <$> (cell_text <$> event_cells config (event, target, update))).
Proof. unfold render_delimited_row, event_cells, cell_text. by rewrite <- !list_fmap_compose. Qed.

Lemma rows_nonempty config events : columns config ≠ [] → Forall (λ fields, fields ≠ []) (map cell_text <$> rows config events).
Proof.
  intros Hc. apply Forall_fmap, Forall_fmap, Forall_true. intros [[event target] update]. unfold compose, event_cells.
  by destruct (columns config).
Qed.

(** The lines of a delimited stream: its header and its rows, cell by cell. *)
Lemma delimited_lines config events format :
  OutputConfig.format config = match format with DelimitedCsv => Csv | DelimitedTsv => Tsv end →
  text_lines config events
  = (λ fields, join [separator_of format] (escape_delimited format <$> fields)) <$>
      (header_lines config events ++ (map cell_text <$> rows config events)).
Proof.
  intros Hf. unfold text_lines, header_lines. rewrite fmap_app. f_equal.
  - case_bool_decide; [done|]. cbn [negb andb]. unfold render_header. destruct (should_print_header config); [|done].
    rewrite Hf. destruct format; cbn; by rewrite <- list_fmap_compose.
  - rewrite <- list_fmap_compose. apply event_lines_rows. intros [[event target] update] Hh. cbn [fst snd] in *.
    unfold render_event. rewrite Hh, Hf. unfold compose. by destruct format; rewrite delimited_cells.
Qed.

Lemma header_nonempty config events : columns config ≠ [] → Forall (λ fields, fields ≠ []) (header_lines config events).
Proof. intros Hc. unfold header_lines. destruct (_ && _); [|done]. apply Forall_singleton. by destruct (columns config). Qed.

Lemma json_members row context columns :
  json_field row context <$> columns = zip_with field_text columns ((λ column, cell_for row column context) <$> columns).
Proof. induction columns as [|column columns IH]; [done|]. rewrite !fmap_cons. cbn [zip_with]. by rewrite IH. Qed.

Lemma objects_read columns rows :
  columns ≠ [] → Forall (λ cells, length columns = length cells ∧ Forall cell_ok cells) rows →
  mapM read_json_object (object_text columns <$> rows) = Some ((λ cells, zip (name <$> columns) (json_value <$> cells)) <$> rows).
Proof.
  intros Hc. induction 1 as [|cells rows [Hl Hok] _ IH]; [done|]. rewrite !fmap_cons. cbn [mapM].
  rewrite (proj1 (object_read _ _ Hc Hl Hok)). cbn [mbind option_bind]. by rewrite IH.
Qed.

(** TSV loses only tabs and line ends: every row is one line of as many fields as
    there are columns. *)
Theorem tsv_read_back columns header verbose kinds config events :
  OutputConfig.new Tsv columns header verbose kinds = Ok config →
  read_tsv (printed config events)
  = Some (map escape_tsv <$> header_lines config events ++ (map cell_text <$> rows config events)).
Proof.
  intros (Hc & Hf & _)%new_config. rewrite printed_lines, (delimited_lines _ _ DelimitedTsv) by done.
  apply tsv_lines. apply Forall_app. split; [by apply header_nonempty|by apply rows_nonempty].
Qed.

(** ** Properties *)
(** C31: CSV output reads back. Whatever events, targets and warnings a run prints
    and whatever columns were asked for, an RFC 4180 reader finds in its output the
    header - the names of the columns, once, before the first row, unless headers
    are off - and then exactly one record for every event selected, in order, with
    the text of each of its cells, commas, quotes and line ends included. *)
Theorem csv_read_back columns header verbose kinds config events :
  OutputConfig.new Csv columns header verbose kinds = Ok config →
  read_csv (printed config events) = Some (header_lines config events ++ (map cell_text <$> rows config events)).
Proof.
  intros (Hc & Hf & _)%new_config. rewrite printed_lines, (delimited_lines _ _ DelimitedCsv) by done.
  apply read_csv_records, Forall_app. split; [by apply header_nonempty|by apply rows_nonempty].
Qed.

(** C32: JSON Lines output reads back. Every line is one JSON object, for one event
    selected, in order and without a header; it has the columns asked for as its
    keys, and as values null for an absent cell, the integer, or the text of the
    cell character by character, whatever control characters, quotes and
    backslashes it holds. *)
Theorem jsonl_read_back columns header verbose kinds config events :
  OutputConfig.new Jsonl columns header verbose kinds = Ok config →
  Forall (λ e : Printed, match e.1.2 with Some target => bytes_ok target | None => True end) events →
  read_jsonl (printed config events)
  = Some ((λ cells, zip (name <$> OutputConfig.columns config) (json_value <$> cells)) <$> rows config events).
Proof.
  intros (Hc & Hf & Hh)%new_config Ht. rewrite printed_lines.
  assert (text_lines config events = object_text (OutputConfig.columns config) <$> rows config events) as ->.
  { unfold text_lines, render_header, should_print_header. rewrite Hf.
    assert ((if bool_decide (events = []) then [] else option_list
      (if match OutputConfig.header config with
          | HeaderAuto => false | HeaderAlways => bool_decide (Jsonl ≠ Jsonl) | HeaderNever => false end then None else None)) = @nil bytes) as ->
      by (case_bool_decide; [done|by destruct (OutputConfig.header config)]).
    apply event_lines_rows. intros [[event target] update] Hhas. cbn [fst snd] in *. unfold render_event. rewrite Hhas, Hf.
    f_equal. unfold render_jsonl_row, object_text, members_text, event_cells. by rewrite json_members. }
  assert (Forall (λ cells, length (OutputConfig.columns config) = length cells ∧ Forall cell_ok cells) (rows config events)) as Hrows.
  { unfold rows. apply Forall_fmap. apply Forall_forall. intros e [_ He]%list_elem_of_filter. unfold compose. split.
    - destruct e as [[event target] update]. cbn. by rewrite length_fmap.
    - apply cells_ok. eapply Forall_forall in Ht; [exact Ht|done]. }
  unfold read_jsonl. rewrite read_terminated.
  - by apply objects_read.
  - apply Forall_fmap. eapply Forall_impl; [exact Hrows|]. intros cells [Hl Hok]. by apply object_read.
Qed.

(** ** A concrete stream *)
Section example.
Definition at_second (n : Z) : ClientTimestamp.t := ClientTimestamp.mk (from_secs n) (from_secs n).
(** A target label of commas, quotes, tabs and backslashes, and a warning of two lines. *)
Definition odd_target : bytes := str "a,b" ++ [DQUOTE; TAB; BACKSLASH; 7].
Definition two_lines : string := ("one," ++ String (Ascii.ascii_of_nat 10) "two")%string.
Definition example_events : list Printed :=
  [(ClientEvent.EchoSent 7 (V4 2130706433 2112) None (at_second 1) 64 1_500 None, Some odd_target, None);
   (ClientEvent.EchoLoss 7 (at_second 1) (from_secs 5), Some odd_target, None);
   (ClientEvent.Warning WrongToken two_lines (at_second 2), None, None)].
Definition example_columns : option bytes := Some (str " event, target,seq ,message,event_wall_ns").
Definition example_config (format : OutputFormat) : OutputConfig.t :=
  match OutputConfig.new format example_columns HeaderAuto false [KindLoss; KindWarning] with
  | Ok config => config
  | _ => OutputConfig.mk format [] [] HeaderAuto false false
  end.

Example columns_read :
  columns (example_config Csv) = [ColEvent; ColTarget; ColSeq; ColMessage; ColEventWallNs].
Proof. vm_compute. reflexivity. Qed.
Example unknown_column_refused :
  OutputConfig.new Table (Some (str "seq,rttx")) HeaderAuto false [] = Err (UnknownColumn (str "rttx")).
Proof. vm_compute. reflexivity. Qed.

Lemma csv_read_back_witness :
  read_csv (printed (example_config Csv) example_events)
  = Some [[str "event"; str "target"; str "seq"; str "message"; str "event_wall_ns"];
          [str "loss"; odd_target; str "7"; str "timeout"; str "1000000000"];
          [str "warning"; []; []; str two_lines; str "2000000000"]].
Proof.
  rewrite (csv_read_back example_columns HeaderAuto false [KindLoss; KindWarning]) by (vm_compute; reflexivity).
  vm_compute. reflexivity.
Defined.

Lemma jsonl_read_back_witness :
  read_jsonl (printed (example_config Jsonl) example_events)
  = Some [[(str "event", JString (str "loss")); (str "target", JString odd_target); (str "seq", JInteger 7);
           (str "message", JString (str "timeout")); (str "event_wall_ns", JInteger 1_000_000_000)];
          [(str "event", JString (str "warning")); (str "target", JNull); (str "seq", JNull);
           (str "message", JString (str two_lines)); (str "event_wall_ns", JInteger 2_000_000_000)]].
Proof.
  rewrite (jsonl_read_back example_columns HeaderAuto false [KindLoss; KindWarning]).
  - vm_compute. reflexivity.
  - vm_compute. reflexivity.
  - repeat constructor; vm_compute; discriminate.
Defined.
End example.
