(* ===== verification/AppSummary.v ===== *)
(** * irtt-app: the final summary

    Models [crates/irtt-app/src/cmd/client/summary.rs]: the table printed for a
    target at the end of a run. The [TimeStats] of the [measurement-stats] crate is
    a parameter of the development; [TimeStatsFields] is what is read of it. *)

From Stdlib Require Import Floats.SpecFloat.
From S2P Require Import Prelude ClientBase Endpoint StatsCore AppTargets AppStdin AppFormat.

Class TimeStatsFields `{Measurement} := {
  ts_count : TimeStats → Z;
  ts_min_ns : TimeStats → option Z;
  ts_mean_ns : TimeStats → f64;
  ts_median_ns : TimeStats → option f64;
  ts_max_ns : TimeStats → option Z;
  ts_stddev_ns : TimeStats → f64;
}.

Module SummaryFormatOptions.
Record t : Type := mk { verbose : bool; show_running_only_note : bool }.
Definition default : t := mk false false.
End SummaryFormatOptions.

Section summary.
Context `{TimeStatsFields}.

Definition line (text : bytes) : bytes := text ++ [NEWLINE].

(** One row of the table: a label, a count and five values. *)
Definition table_row (label count : bytes) (values : list bytes) : bytes :=
  line (str "  " ++ pad_end 18 label ++ [SPACE] ++ pad_start 7 count ++ (values ≫= λ value, SPACE :: pad_start 10 value)).

Definition write_time_row (label : string) (value : TimeStats) : bytes :=
  if ts_count value =? 0 then []
  else
    table_row (str label) (decimal (ts_count value))
      [format_optional_ns_i128 (ts_min_ns value); format_ns_f64 (ts_mean_ns value);
       format_optional_ns_f64 (ts_median_ns value); format_optional_ns_i128 (ts_max_ns value);
       format_ns_f64 (ts_stddev_ns value)].

Definition format_summary_with_options (summary : Snapshot) (options : SummaryFormatOptions.t) : bytes :=
  let packets := snap_packets summary in
  let loss := StatsCore.loss summary in
  line [] ++ line (str "irtt-rs summary") ++
  (if SummaryFormatOptions.show_running_only_note options
   then line (str "note: medians unavailable in continuous mode; running statistics are bounded-memory") else []) ++
  line [] ++
  table_row (str "Metric") (str "Count") (str <$> ["Min"; "Mean"; "Median"; "Max"; "Stddev"]%string) ++
  line (str "  " ++ replicate 82 45) ++
  write_time_row "RTT" (primary (rtt summary)) ++
  (if SummaryFormatOptions.verbose options
   then write_time_row "raw RTT" (raw (rtt summary)) ++ write_time_row "adjusted RTT" (adjusted (rtt summary)) else []) ++
  write_time_row "IPDV/jitter" (round_trip (snap_ipdv summary)) ++
  write_time_row "send IPDV" (send (snap_ipdv summary)) ++
  write_time_row "receive IPDV" (receive (snap_ipdv summary)) ++
  write_time_row "send delay" (ow_send_delay (one_way_delay summary)) ++
  write_time_row "receive delay" (ow_receive_delay (one_way_delay summary)) ++
  write_time_row "server processing" (processing (snap_server_processing summary)) ++
  write_time_row "send call" (snap_send_call summary) ++
  write_time_row "timer error" (snap_timer_error summary) ++
  line [] ++
  line (str "packets: sent=" ++ decimal (PacketCounts.packets_sent packets) ++
        str " received=" ++ decimal (PacketCounts.packets_received packets) ++
        str " unique=" ++ decimal (PacketCounts.unique_replies packets) ++
        str " lost=" ++ decimal (LossStats.lost_packets loss) ++
        str " loss=" ++ format_percent (LossStats.packet_loss_percent loss)) ++
  (if negb (PacketCounts.duplicates packets =? 0) || negb (PacketCounts.late_packets packets =? 0)
   then line (str "replies: duplicates=" ++ decimal (PacketCounts.duplicates packets) ++
              str " (" ++ format_percent (LossStats.duplicate_percent loss) ++
              str ") late=" ++ decimal (PacketCounts.late_packets packets) ++
              str " (" ++ format_percent (LossStats.late_packets_percent loss) ++ str ")") else []) ++
  line (str "bytes: sent=" ++ decimal (PacketCounts.bytes_sent packets) ++
        str " received=" ++ decimal (PacketCounts.bytes_received packets)) ++
  match PacketCounts.server_packets_received packets, PacketCounts.server_received_window packets with
  | None, None => []
  | received, window =>
      line (str "server:" ++
            default [] ((λ count, str " received=" ++ decimal count) <$> received) ++
            default [] ((λ window, str " window=" ++ hex_text window) <$> window))
  end.

Definition format_summary (summary : Snapshot) : bytes := format_summary_with_options summary SummaryFormatOptions.default.
End summary.
