(* ===== verification/AppRun.v ===== *)
(** * irtt-app: a run over targets of the command line

    Models [run_stream_output] of [crates/irtt-app/src/cmd/client/run.rs]: the start
    of a run, the loop that prints the driver's events and keeps their statistics,
    and its end with the summaries and the exit status. Standard output is the bytes
    handed to the writer thread, with the bounded deliveries of [StdoutWriter];
    failures on standard error are kept as what they name. What happens outside - the driver's
    status and events, the shutdown flag, the writer, which branch of a select is
    taken - is what each turn is given. *)

From Stdlib Require Import Floats.SpecFloat.
From S2P Require Import Prelude ProtoBase Envelope ParamsCodec ClientBase ClientEvent ClientNegotiation ClientProps Schedule ManagedBase ManagedTask Endpoint.
From S2P Require Import StatsEvents Ipdv StatsCore Rolling Collector AppTargets AppStdin AppStream AppArgs AppFormat AppOutput AppSummary.

(** ** The writer ([StdoutWriter]) *)
Definition INTERRUPTED_OUTPUT_GRACE : Z := from_millis 250.

(** What the thread was given, and the end of the grace period once there is one. *)
Module StdoutWriter.
Record t : Type := mk { queued : bytes; grace_deadline : option Z }.
Definition new : t := mk [] None.

(** [accepting] is whether the thread still takes chunks. *)
Definition enqueue (accepting : bool) (buffer : bytes) (self : t) : Result string t :=
  if bool_decide (buffer = []) then Ok self
  else if accepting then Ok (mk (queued self ++ buffer) (grace_deadline self))
  else Err "stdout writer stopped accepting output".
End StdoutWriter.

(** How a delivery ends: at the writer, or cut short by the shutdown flag; that of
    a summary then waits at most until the grace deadline, from [now] if it is the
    first, and [None] is that deadline reached. *)
Inductive Delivery : Type := Delivered (accepting : bool) | Dropped.
Inductive SummaryDelivery : Type :=
  | SummaryDelivered (accepting : bool)
  | SummaryInGrace (now : Z) (accepting : option bool).

Definition send (how : Delivery) (buffer : bytes) (self : StdoutWriter.t) : Result string StdoutWriter.t :=
  match how with
  | Dropped => Ok self
  | Delivered accepting => StdoutWriter.enqueue accepting buffer self
  end.
Definition send_summary (how : SummaryDelivery) (buffer : bytes) (self : StdoutWriter.t) : Result string StdoutWriter.t :=
  match how with
  | SummaryDelivered accepting => StdoutWriter.enqueue accepting buffer self
  | SummaryInGrace now accepting =>
      let deadline := default (now + INTERRUPTED_OUTPUT_GRACE) (StdoutWriter.grace_deadline self) in
      let self := StdoutWriter.mk (StdoutWriter.queued self) (Some deadline) in
      match accepting with
      | Some accepting => StdoutWriter.enqueue accepting buffer self
      | None => Ok self
      end
  end.

(** ** Messages on standard error *)
Inductive Notice : Type :=
  | TargetFailed (target : TargetInstance.t) (failure : ManagedTargetFailure.t)
  | CleanupFailed (target : TargetInstance.t) (failure : ManagedTargetFailure.t)
  | Warned (text : bytes).

Definition target_failure_messages (target : ManagedTargetOutcome.t) : list Notice :=
  (match ManagedTargetOutcome.end_reason target with
   | Failed failure => [TargetFailed (ManagedTargetOutcome.target target) failure]
   | _ => []
   end) ++
  (match ManagedTargetOutcome.cleanup_failure target with
   | Some failure => [CleanupFailed (ManagedTargetOutcome.target target) failure]
   | None => []
   end).

Definition dropped_event_warning (dropped_events : Z) : option Notice :=
  let affected := "output and statistics" in
  if 0 <? dropped_events then
    Some (Warned (str "irtt-rs: warning: dropped " ++ decimal dropped_events ++ str " managed run event" ++
                  (if dropped_events =? 1 then [] else str "s") ++ str "; " ++ str affected ++ str " may be incomplete"))
  else None.
Definition discarded_warning (discarded : Z) : Notice :=
  Warned (str "irtt-rs: warning: " ++ decimal discarded ++ str " final target outcomes were discarded").
Definition interruption : Notice := Warned (str "interrupted, closing managed run...").

(** ** Warnings before the run *)
Definition MIB : Z := 1024 * 1024.
Definition GIB : Z := 1024 * MIB.
Definition FINITE_STATS_MEMORY_WARNING_BYTES : Z := 128 * MIB.
Definition FINITE_STATS_MEMORY_STRONG_WARNING_BYTES : Z := 512 * MIB.
Definition FINITE_STATS_MEMORY_VERY_STRONG_WARNING_BYTES : Z := GIB.

Section warnings.
Context `{Sizes}.

Definition total_probe_count (args : ClientArgs.t) (target_count : Z) : Z :=
  sat_u64 (expected_probe_count (ClientArgs.duration args) (CommonClientArgs.interval (ClientArgs.common args)) * target_count).

Definition finite_stats_memory_warning (args : ClientArgs.t) (target_count : Z) : option bytes :=
  if ClientArgs.no_stats args || ClientArgs.no_test args || ClientArgs.is_continuous args ||
     (ClientArgs.duration args =? 0) then None
  else
    let estimated_bytes := estimated_retained_bytes (stats_config false) (total_probe_count args target_count) in
    if estimated_bytes <? FINITE_STATS_MEMORY_WARNING_BYTES then None
    else
      let formatted :=
        if GIB <=? estimated_bytes then decimal (sat_u64 (estimated_bytes + GIB / 2) / GIB) ++ str " GiB"
        else decimal (sat_u64 (estimated_bytes + MIB / 2) / MIB) ++ str " MiB" in
      let guidance :=
        if FINITE_STATS_MEMORY_VERY_STRONG_WARNING_BYTES <=? estimated_bytes
        then "this may be unsuitable on memory-constrained systems"
        else if FINITE_STATS_MEMORY_STRONG_WARNING_BYTES <=? estimated_bytes
        then "consider shortening the run, increasing the interval, or using continuous mode"
        else "use continuous mode for bounded-memory long-running tests" in
      Some (str "irtt-rs: warning: finite exact statistics may retain about " ++ formatted ++ str " for this run; " ++
            str guidance).

Definition reconnect_stats_warning (args : ClientArgs.t) : option bytes :=
  if ClientArgs.reconnect args && negb (ClientArgs.no_stats args)
  then Some (str "irtt-rs: warning: statistics spanning multiple sessions may not accurately represent one uninterrupted measurement run; use --no-stats for measurement events only. Session statistics reset on reconnect.")
  else None.
End warnings.

(** ** The state of a run *)
Module FiniteRun.
Section run.
Context `{Measurement} `{CountWindows} `{FirstInstant}.
(** The variables of the function, with its standard error, the stops sent to the
    driver, and the events handled so far. *)
Record t : Type := mk {
  stream : StreamOutput.t;
  stats : gmap bytes StatsCollector.t;
  terminal_targets : gset TargetInstance.t;
  writer : StdoutWriter.t;
  dropped_events : Z;
  interrupted : bool;
  stop_requested : bool;
  notices : list Notice;
  stops : Z;
  handled : list ManagedEvent;
}.
Definition set_stream v (s : t) : t :=
  mk v (stats s) (terminal_targets s) (writer s) (dropped_events s) (interrupted s) (stop_requested s) (notices s) (stops s) (handled s).
Definition set_stats v (s : t) : t :=
  mk (stream s) v (terminal_targets s) (writer s) (dropped_events s) (interrupted s) (stop_requested s) (notices s) (stops s) (handled s).
Definition finish_target target (s : t) : t :=
  mk (stream s) (stats s) (terminal_targets s ∪ {[ target ]}) (writer s) (dropped_events s) (interrupted s) (stop_requested s) (notices s) (stops s) (handled s).
Definition set_writer v (s : t) : t :=
  mk (stream s) (stats s) (terminal_targets s) v (dropped_events s) (interrupted s) (stop_requested s) (notices s) (stops s) (handled s).
Definition drop_events count (s : t) : t :=
  mk (stream s) (stats s) (terminal_targets s) (writer s) (sat_u64 (dropped_events s + count)) (interrupted s) (stop_requested s) (notices s) (stops s) (handled s).
Definition set_interrupted v (s : t) : t :=
  mk (stream s) (stats s) (terminal_targets s) (writer s) (dropped_events s) v (stop_requested s) (notices s) (stops s) (handled s).
Definition notify v (s : t) : t :=
  mk (stream s) (stats s) (terminal_targets s) (writer s) (dropped_events s) (interrupted s) (stop_requested s) (notices s ++ v) (stops s) (handled s).
Definition stop_if (ask requested : bool) (s : t) : t :=
  mk (stream s) (stats s) (terminal_targets s) (writer s) (dropped_events s) (interrupted s) requested (notices s) (stops s + of_bool ask) (handled s).
Definition record event (s : t) : t :=
  mk (stream s) (stats s) (terminal_targets s) (writer s) (dropped_events s) (interrupted s) (stop_requested s) (notices s) (stops s) (handled s ++ [event]).
End run.
End FiniteRun.
Import FiniteRun.

Section finite.
Context `{Measurement} `{CountWindows} `{FirstInstant} `{!TimeStatsFields}.
Context (args : ClientArgs.t) (setup : ManagedRunSetup.t).

Definition collect_stats : bool := negb (ClientArgs.no_stats args).
Definition continuous : bool := ClientArgs.is_continuous args.
Definition fresh_collector : StatsCollector.t := StatsCollector.new (stats_config continuous).
Definition labels : list bytes := PreparedTarget.label <$> ManagedRunSetup.targets setup.

Definition run_start (config : OutputConfig.t) : FiniteRun.t :=
  let stats := if collect_stats then list_to_map ((λ label, (label, fresh_collector)) <$> labels) else ∅ in
  FiniteRun.mk (StreamOutput.new config) stats ∅ StdoutWriter.new 0 false false [] 0 [].

(** ** Events *)
Definition process_event (event : ManagedEvent) (s : FiniteRun.t) : Result Empty_set FiniteRun.t :=
  let s := record event s in
  match event with
  | EvClient target event =>
      let id := TargetInstance.id target in
      '(update, s) ←
        (if collect_stats then
           collector ← expect (stats s !! id);
           let collector := if is_session_started event then fresh_collector else collector in
           let '(update, collector) := StatsCollector.process event collector in
           Ok (Some update, set_stats (<[id := collector]> (stats s)) s)
         else Ok (None, s));
      Ok (set_stream (StreamOutput.print_event event (Some id) update (stream s)) s)
  | EvTargetFinished outcome =>
      Ok (notify (target_failure_messages outcome) (finish_target (ManagedTargetOutcome.target outcome) s))
  | _ => Ok s
  end.

(** [output.send(stream_output.out)]: delivered or dropped, the buffer is emptied. *)
Definition flush (deliver : bytes → StdoutWriter.t → Result string StdoutWriter.t) (s : FiniteRun.t)
    : option string * FiniteRun.t :=
  let stream := stream s in
  match deliver (StreamOutput.out stream) (writer s) with
  | Ok writer =>
      (None, set_writer writer (set_stream (StreamOutput.mk (StreamOutput.config stream) (StreamOutput.header_printed stream) []) s))
  | Err error => (Some error, s)
  | Panic => (None, s)
  end.

(** ** The loop *)
Inductive RunWake : Type :=
  | OnShutdown
  | OnStatus
  | OnStatusClosed
  | OnEvent (event : ManagedEvent) (shutdown : bool) (how : Delivery)
  | OnLagged (count : Z)
  | OnEventsClosed.
Record RunTurn : Type := mk_RunTurn { run_status : ManagedStatus.t; run_shutdown : bool; run_wake : RunWake }.

Definition run_top (status : ManagedStatus.t) (shutdown : bool) (s : FiniteRun.t) : FiniteRun.t + FiniteRun.t :=
  let s :=
    if shutdown then
      let '(ask, requested) := request_managed_stop_once (stop_requested s) in
      stop_if ask requested (set_interrupted true s)
    else s in
  let '(ask, requested) :=
    request_managed_stop_for_peer_close continuous (interrupted s)
      (ManagedStatus.peer_closed_target_outcomes status) (stop_requested s) in
  let s := stop_if ask requested s in
  if interrupted s || Envelope.is_some (ManagedStatus.final_outcome status) then inl s else inr s.

Definition run_select (wake : RunWake) (s : FiniteRun.t) : Result Empty_set (Flow * FiniteRun.t) :=
  match wake with
  | OnShutdown | OnStatus => Ok (Continue, s)
  | OnStatusClosed | OnEventsClosed => Ok (Break, s)
  | OnEvent event shutdown how =>
      if shutdown then Ok (Continue, s)
      else
        s ← process_event event s;
        let '(failed, s) := flush (send how) s in
        Ok (match failed with Some error => Abort error | None => Continue end, s)
  | OnLagged count => Ok (Continue, drop_events count s)
  end.

Definition run_turn (turn : RunTurn) (s : FiniteRun.t) : Result Empty_set (Flow * FiniteRun.t) :=
  match run_top (run_status turn) (run_shutdown turn) s with
  | inl s => Ok (Break, s)
  | inr s => run_select (run_wake turn) s
  end.

(** The loop over some turns: left, or still [Continue]. *)
Fixpoint run_loop (turns : list RunTurn) (s : FiniteRun.t) : Result Empty_set (Flow * FiniteRun.t) :=
  match turns with
  | [] => Ok (Continue, s)
  | turn :: turns =>
      '(flow, s) ← run_turn turn s;
      match flow with Continue => run_loop turns s | _ => Ok (flow, s) end
  end.

(** ** The end *)
Inductive Left : Type :=
  | LeftEvent (event : ManagedEvent) (how : Delivery)
  | LeftLagged (count : Z).

Fixpoint drain_left (items : list Left) (s : FiniteRun.t) : Result Empty_set (option string * FiniteRun.t) :=
  match items with
  | [] => Ok (None, s)
  | LeftLagged count :: items => drain_left items (drop_events count s)
  | LeftEvent event how :: items =>
      s ← process_event event s;
      let '(failed, s) := flush (send how) s in
      match failed with Some error => Ok (Some error, s) | None => drain_left items s end
  end.

Fixpoint report_recent (outcomes : list ManagedTargetOutcome.t) (s : FiniteRun.t) : FiniteRun.t :=
  match outcomes with
  | [] => s
  | outcome :: outcomes =>
      let target := ManagedTargetOutcome.target outcome in
      report_recent outcomes
        (if bool_decide (target ∈ terminal_targets s) then s
         else notify (target_failure_messages outcome) (finish_target target s))
  end.

(** The error of the run, without those of the writer. *)
Definition terminal_error (interrupted : bool) (outcome : ManagedOutcome.t) : option RunError :=
  match ManagedOutcome.end_reason outcome with
  | DriverFailed failure => Some (RunDriver failure)
  | _ =>
      match peer_close_run_error continuous interrupted (ManagedOutcome.peer_closed_target_outcomes outcome) with
      | Some error => Some (RunFatal error)
      | None =>
          if negb interrupted && (ManagedOutcome.successful_target_outcomes outcome =? 0) &&
             (0 <? ManagedOutcome.failed_target_outcomes outcome)
          then Some (RunFatal ("no managed target completed successfully (" +:+
                               pretty (ManagedOutcome.failed_target_outcomes outcome) +:+ " failed)"))
          else None
      end
  end.

Definition print_final_summary (interrupted : bool) : bool :=
  negb (ClientArgs.no_stats args) && negb (ClientArgs.no_test args) && should_print_final_summary continuous interrupted.

(** What is written for a target that has statistics. *)
Definition summary_text (config : OutputConfig.t) (interrupted : bool) (label : bytes) (collector : StatsCollector.t) : bytes :=
  let print := print_final_summary interrupted in
  if print && OutputConfig.prints_summary config then
    (if ManagedRunSetup.is_multi_target setup
     then line [] ++ line (str "target: " ++ label) else []) ++
    format_summary_with_options (StatsCollector.snapshot collector)
      (SummaryFormatOptions.mk (OutputConfig.summary_verbose config) (continuous && interrupted && print))
  else [].

Definition append_out (text : bytes) (self : StreamOutput.t) : StreamOutput.t :=
  StreamOutput.mk (StreamOutput.config self) (StreamOutput.header_printed self) (StreamOutput.out self ++ text).

(** Each target's summary, delivered as given, or as the last one given. *)
Fixpoint print_summaries (labels : list bytes) (how : list SummaryDelivery) (s : FiniteRun.t) : option string * FiniteRun.t :=
  match labels with
  | [] => flush (send_summary (default (SummaryDelivered true) (head how))) s
  | label :: labels =>
      match stats s !! label with
      | None => print_summaries labels how s
      | Some collector =>
          let text := summary_text (StreamOutput.config (stream s)) (interrupted s) label collector in
          let '(failed, s) :=
            flush (send_summary (default (SummaryDelivered true) (head how))) (set_stream (append_out text (stream s)) s) in
          match failed with
          | Some error => (Some error, s)
          | None => print_summaries labels (tail how) s
          end
      end
  end.

Definition run_finish (joined : string + ManagedOutcome.t) (left_ : list Left) (shutdown : bool) (how : list SummaryDelivery)
    (s : FiniteRun.t) : Result Empty_set (Result RunError unit * FiniteRun.t) :=
  let s := if interrupted s then notify [interruption] s else s in
  match joined with
  | inl error => Ok (Err (RunIo error), s)
  | inr outcome =>
      '(failed, s) ← drain_left left_ s;
      match failed with
      | Some error => Ok (Err (RunIo error), s)
      | None =>
          let s := notify (option_list (dropped_event_warning (dropped_events s))) s in
          let discarded := ManagedOutcome.discarded_target_outcomes outcome in
          let s := if discarded =? 0 then s else notify [discarded_warning discarded] s in
          let s := report_recent (ManagedOutcome.recent_target_outcomes outcome) s in
          let s := set_interrupted (interrupted s || shutdown) s in
          let terminal_error := terminal_error (interrupted s) outcome in
          let '(failed, s) := print_summaries labels how s in
          match failed, terminal_error with
          | Some error, _ => Ok (Err (RunIo error), s)
          | None, Some error => Ok (Err error, s)
          | None, None => Ok (Ok tt, s)
          end
      end
  end.

(** A whole run: the turns of its loop, and its end if the loop is left. An error of
    the writer inside the loop drops the worker, which stops the driver. *)
Definition finite_run (config : OutputConfig.t) (turns : list RunTurn) (joined : string + ManagedOutcome.t) (left_ : list Left)
    (shutdown : bool) (how : list SummaryDelivery) : Result Empty_set (option (Result RunError unit) * FiniteRun.t) :=
  '(flow, s) ← run_loop turns (run_start config);
  match flow with
  | Continue => Ok (None, s)
  | Abort error => Ok (Some (Err (RunIo error)), stop_if true (stop_requested s) s)
  | Break => '(result, s) ← run_finish joined left_ shutdown how s; Ok (Some result, s)
  end.
End finite.

(** ** Before the loop *)
(** What the arguments come to: refused, or the setup, the output and the warnings
    of a run whose targets come from stdin or are those given. *)
Inductive RunStart : Type :=
  | StartRefused (error : string)
  | StartColumns (error : ColumnsError)
  | StartRun (stdin_controlled : bool) (setup : ManagedRunSetup.t) (config : OutputConfig.t) (warnings : list Notice).

Definition run_stream_start `{HexCrate} `{Sizes} (args : ClientArgs.t) (answers : Z → bytes * Z → option (list SocketAddr))
    : Result Empty_set RunStart :=
  match prepare_client args answers with
  | Err error => Ok (StartRefused error)
  | Panic => Panic
  | Ok (setup, _) =>
      match OutputConfig.new (ClientArgs.format args) (ClientArgs.columns args) (ClientArgs.header args)
              (ClientArgs.verbose args) (ClientArgs.events args) with
      | Err error => Ok (StartColumns error)
      | Panic => Panic
      | Ok config =>
          let reconnect := option_list (Warned <$> reconnect_stats_warning args) in
          if ManagedRunSetup.stdin_controlled setup then Ok (StartRun true setup config reconnect)
          else
            Ok (StartRun false setup config
                  (reconnect ++ option_list (Warned <$> finite_stats_memory_warning args (ManagedRunSetup.target_count setup))))
      end
  end.

(** ** What a run is expected to show *)
Section reference.
Context `{Measurement} `{CountWindows} `{FirstInstant} `{!TimeStatsFields}.
Context (args : ClientArgs.t) (setup : ManagedRunSetup.t) (config : OutputConfig.t).

(** The events of a target since its last session began. *)
Definition session_step (label : bytes) (events : list ClientEvent.t) (event : ManagedEvent) : list ClientEvent.t :=
  match event with
  | EvClient target event =>
      if bool_decide (TargetInstance.id target = label) then
        if is_session_started event then [event] else events ++ [event]
      else events
  | _ => events
  end.
Definition session_events (label : bytes) (events : list ManagedEvent) : list ClientEvent.t :=
  foldl (session_step label) [] events.
Definition collector_of (label : bytes) (events : list ManagedEvent) : StatsCollector.t :=
  StatsCollector.process_all (session_events label events) (fresh_collector args).

(** A client event, as printed after [before]. *)
Definition print_of (before : list ManagedEvent) (event : ManagedEvent) : option Printed :=
  match event with
  | EvClient target event =>
      let id := TargetInstance.id target in
      let collector := if is_session_started event then fresh_collector args else collector_of id before in
      Some (event, Some id, if collect_stats args then Some (StatsCollector.process event collector).1 else None)
  | _ => None
  end.
Fixpoint prints (before events : list ManagedEvent) : list Printed :=
  match events with
  | [] => []
  | event :: events => option_list (print_of before event) ++ prints (before ++ [event]) events
  end.

(** The text of each of a stream of events. *)
Fixpoint chunks (self : StreamOutput.t) (ps : list Printed) : list bytes :=
  match ps with
  | [] => []
  | (event, target, update) :: ps =>
      let self := StreamOutput.print_event event target update
                    (StreamOutput.mk (StreamOutput.config self) (StreamOutput.header_printed self) []) in
      StreamOutput.out self :: chunks self ps
  end.

Definition finished_outcome (event : ManagedEvent) : option ManagedTargetOutcome.t :=
  match event with EvTargetFinished outcome => Some outcome | _ => None end.
Definition finished_outcomes (events : list ManagedEvent) : list ManagedTargetOutcome.t := omap finished_outcome events.

Definition is_failure (n : Notice) : bool := match n with TargetFailed _ _ | CleanupFailed _ _ => true | _ => false end.

(** An event is about one of the targets of the run. *)
Definition about (event : ManagedEvent) : Prop :=
  match event with
  | EvClient target _ => TargetInstance.id target ∈ ManagedTargetConfig.id <$> ManagedRunSetup.managed_targets setup
  | _ => True
  end.
Definition turn_about (turn : RunTurn) : Prop := match run_wake turn with OnEvent event _ _ => about event | _ => True end.
Definition left_about (item : Left) : Prop := match item with LeftEvent event _ => about event | _ => True end.

Definition turn_delivered (turn : RunTurn) : Prop :=
  match run_wake turn with OnEvent _ _ how => how = Delivered true | _ => True end.
Definition left_delivered (item : Left) : Prop := match item with LeftEvent _ how => how = Delivered true | _ => True end.

(** The summaries of the targets, in order. *)
Definition summaries (interrupted : bool) (events : list ManagedEvent) : list bytes :=
  if collect_stats args
  then (λ label, summary_text args setup config interrupted label (collector_of label events)) <$> labels setup else [].
End reference.

(** ** Lemmas *)
Section theory.
Context `{Measurement} `{CountWindows} `{FirstInstant} `{!TimeStatsFields}.
Context (args : ClientArgs.t) (setup : ManagedRunSetup.t) (config : OutputConfig.t).
Context (Hids : ManagedTargetConfig.id <$> ManagedRunSetup.managed_targets setup = labels setup).
Implicit Types s : FiniteRun.t.

Abbreviation prints := (prints args).
Abbreviation collector_of := (collector_of args).
Abbreviation all_chunks events := (chunks (StreamOutput.new config) (prints [] events)).
Abbreviation failures s := (filter (λ n, is_failure n = true) (notices s)).

Lemma prints_app before a b : prints before (a ++ b) = prints before a ++ prints (before ++ a) b.
Proof.
  revert before. induction a as [|e a IH]; intros before; cbn [app AppRun.prints]; [by rewrite app_nil_r|].
  rewrite IH, <- !app_assoc. done.
Qed.
Lemma prints_snoc events event : prints [] (events ++ [event]) = prints [] events ++ option_list (print_of args events event).
Proof. rewrite prints_app. cbn. by rewrite app_nil_r. Qed.

(** The output after some events, its buffer taken. *)
Definition printed_to (self : StreamOutput.t) (ps : list Printed) : StreamOutput.t :=
  StreamOutput.mk (StreamOutput.config self) (StreamOutput.header_printed self || negb (bool_decide (ps = []))) [].

Lemma print_event_state event target update self :
  StreamOutput.config (StreamOutput.print_event event target update self) = StreamOutput.config self ∧
  StreamOutput.header_printed (StreamOutput.print_event event target update self) = true.
Proof.
  unfold StreamOutput.print_event, StreamOutput.print_header. destruct self as [cfg [] out]; cbn.
  - by destruct (render_event _ _ _ _).
  - destruct (OutputConfig.render_header cfg); cbn; by destruct (render_event _ _ _ _).
Qed.

Lemma chunks_app self a b : chunks self (a ++ b) = chunks self a ++ chunks (printed_to self a) b.
Proof.
  revert self. induction a as [|[[event target] update] a IH]; intros self.
  - destruct b as [|[[event target] update] b]; [done|]. cbn. by rewrite orb_false_r.
  - cbn [app chunks]. rewrite IH. destruct (print_event_state event target update
      (StreamOutput.mk (StreamOutput.config self) (StreamOutput.header_printed self) [])) as [Hc Hh].
    unfold printed_to. rewrite Hc, Hh. cbn. by rewrite orb_true_r.
Qed.

Lemma print_event_out event target update cfg header out :
  StreamOutput.out (StreamOutput.print_event event target update (StreamOutput.mk cfg header out))
  = out ++ StreamOutput.out (StreamOutput.print_event event target update (StreamOutput.mk cfg header [])).
Proof.
  unfold StreamOutput.print_event, StreamOutput.print_header. destruct header; cbn.
  - destruct (render_event _ _ _ _); [done|]. cbn. by rewrite app_nil_r.
  - destruct (OutputConfig.render_header cfg); cbn; destruct (render_event _ _ _ _); cbn; by rewrite ?app_nil_r, <- ?app_assoc.
Qed.

(** The chunks are the text of the whole stream. *)
Lemma print_all_chunks ps self :
  StreamOutput.out (print_all ps self) = StreamOutput.out self ++ concat (chunks self ps).
Proof.
  revert self. induction ps as [|[[event target] update] ps IH]; intros self; [by rewrite app_nil_r|].
  cbn [chunks concat]. unfold print_all in *. cbn [fold_left]. rewrite IH. destruct self as [cfg header out]. cbn [StreamOutput.config StreamOutput.header_printed StreamOutput.out].
  rewrite print_event_out, <- app_assoc. do 3 f_equal.
  clear. destruct ps as [|[[e t] u] ps]; [done|]. cbn [chunks].
  destruct (print_event_state event target update (StreamOutput.mk cfg header out)) as [-> ->].
  by destruct (print_event_state event target update (StreamOutput.mk cfg header [])) as [-> ->].
Qed.
Lemma printed_chunks ps : concat (chunks (StreamOutput.new config) ps) = printed config ps.
Proof. unfold printed. by rewrite print_all_chunks. Qed.

(** ** The invariant *)
Record core_ok s : Prop := {
  co_stats label : stats s !! label =
    if collect_stats args && bool_decide (label ∈ labels setup) then Some (collector_of label (handled s)) else None;
  co_terminal : terminal_targets s = list_to_set (ManagedTargetOutcome.target <$> finished_outcomes (handled s));
  co_stops : stops s = of_bool (stop_requested s);
  co_interrupted : interrupted s = true → stop_requested s = true;
  co_failures : failures s = finished_outcomes (handled s) ≫= target_failure_messages;
}.

(** What was handed to the writer is whole chunks, in order. *)
Record out_ok (all : Prop) s : Prop := {
  oo_config : StreamOutput.config (stream s) = config;
  oo_header : StreamOutput.header_printed (stream s) = negb (bool_decide (prints [] (handled s) = []));
  oo_out : StreamOutput.out (stream s) = [];
  oo_queued : ∃ kept, StdoutWriter.queued (writer s) = concat kept ∧ kept `sublist_of` all_chunks (handled s) ∧
    (all → kept = all_chunks (handled s));
}.

Lemma run_start_ok : core_ok (run_start args setup config) ∧ out_ok True (run_start args setup config).
Proof.
  split; [split|split]; try done.
  - intros label. unfold run_start. cbn [stats handled]. destruct (collect_stats args); [|done]. cbn [andb].
    case_bool_decide as Hl.
    + apply elem_of_list_to_map_1'.
      * intros collector. rewrite list_elem_of_fmap. by intros (l & [= -> ->] & _).
      * apply list_elem_of_fmap. by exists label.
    + apply not_elem_of_list_to_map_1. rewrite <- list_fmap_compose. unfold compose. cbn. by rewrite list_fmap_id.
  - by exists [].
Qed.

Lemma session_events_snoc label events event :
  session_events label (events ++ [event]) = session_step label (session_events label events) event.
Proof. unfold session_events. by rewrite foldl_snoc. Qed.

Lemma collector_after label events event :
  collector_of label (events ++ [event]) =
  match event with
  | EvClient target event =>
      if bool_decide (TargetInstance.id target = label)
      then (StatsCollector.process event (if is_session_started event then fresh_collector args else collector_of label events)).2
      else collector_of label events
  | _ => collector_of label events
  end.
Proof.
  unfold AppRun.collector_of. rewrite session_events_snoc. destruct event; try done. cbn [session_step].
  case_bool_decide; [|done]. destruct (is_session_started event); [done|].
  unfold StatsCollector.process_all. by rewrite foldl_snoc.
Qed.

Lemma finished_snoc events event :
  finished_outcomes (events ++ [event]) = finished_outcomes events ++ option_list (finished_outcome event).
Proof. unfold finished_outcomes. by rewrite omap_app. Qed.

Lemma messages_failures outcome :
  filter (λ n, is_failure n = true) (target_failure_messages outcome) = target_failure_messages outcome.
Proof.
  unfold target_failure_messages. rewrite filter_app. f_equal.
  - by destruct (ManagedTargetOutcome.end_reason outcome).
  - by destruct (ManagedTargetOutcome.cleanup_failure outcome).
Qed.

(** What an event leaves: its text in the buffer, the rest as required. *)
Definition processed s (event : ManagedEvent) s' : Prop :=
  core_ok s' ∧ handled s' = handled s ++ [event] ∧ writer s' = writer s ∧ StreamOutput.config (stream s') = config ∧
  StreamOutput.header_printed (stream s') = negb (bool_decide (prints [] (handled s') = [])) ∧
  all_chunks (handled s') =
    all_chunks (handled s) ++ match print_of args (handled s) event with Some _ => [StreamOutput.out (stream s')] | None => [] end ∧
  (print_of args (handled s) event = None → StreamOutput.out (stream s') = []).

Lemma unprinted all event s s' :
  out_ok all s → print_of args (handled s) event = None → core_ok s' → handled s' = handled s ++ [event] →
  writer s' = writer s → stream s' = stream s → processed s event s'.
Proof.
  intros [Oc Oh Oo _] Hp Hc Hh Hw Hs. unfold processed. rewrite Hw, Hs, Hh, prints_snoc, Hp. cbn [option_list].
  by rewrite !app_nil_r.
Qed.

Lemma process_quiet all event s :
  core_ok s → out_ok all s → (∀ target e, event ≠ EvClient target e) → ∃ s', process_event args event s = Ok s' ∧ processed s event s'.
Proof.
  intros [Cs Ct Cst Ci Cf] Ho Hq.
  assert (process_event args event s = Ok
    match finished_outcome event with
    | Some outcome => notify (target_failure_messages outcome) (finish_target (ManagedTargetOutcome.target outcome) (record event s))
    | None => record event s
    end) as -> by (destruct event; try done; by destruct (Hq target event)).
  eexists. split; [reflexivity|].
  assert (∀ label, collector_of label (handled s ++ [event]) = collector_of label (handled s)) as Hcol.
  { intros label. rewrite collector_after. destruct event; try done. by destruct (Hq target event). }
  pose proof (finished_snoc (handled s) event) as Hf.
  assert (print_of args (handled s) event = None) as Hp by (destruct event; try done; by destruct (Hq target event)).
  destruct (finished_outcome event) as [outcome|]; cbn [option_list] in Hf; rewrite ?app_nil_r in Hf; apply (unprinted all); try done;
    (split; cbn [stats handled terminal_targets stops stop_requested interrupted notices record notify finish_target]; [|rewrite Hf|done..|rewrite Hf]; try done;
      [intros label; by rewrite Hcol, Cs|..]).
  - rewrite fmap_app, list_to_set_app_L, Ct. cbn. set_solver.
  - rewrite filter_app, bind_app, Cf. cbn. by rewrite app_nil_r, messages_failures.
Qed.

Lemma process_client all target event s :
  core_ok s → out_ok all s → TargetInstance.id target ∈ labels setup →
  ∃ s', process_event args (EvClient target event) s = Ok s' ∧ processed s (EvClient target event) s'.
Proof.
  intros [Cs Ct Cst Ci Cf] [Oc Oh Oo _] Ha. unfold process_event. set (id := TargetInstance.id target) in *.
  set (collector := if is_session_started event then fresh_collector args else collector_of id (handled s)).
  set (update := if collect_stats args then Some (StatsCollector.process event collector).1 else None).
  set (next := if collect_stats args then <[id := (StatsCollector.process event collector).2]> (stats s) else stats s).
  exists (set_stream (StreamOutput.print_event event (Some id) update (stream s)) (set_stats next (record (EvClient target event) s))).
  split.
  { subst next update collector. destruct (collect_stats args) eqn:Hc; cbn [mbind Result_bind]; [|by destruct s].
    cbn [stats record]. rewrite Cs, bool_decide_true by done. cbn [expect andb mbind Result_bind].
    by destruct (StatsCollector.process event _). }
  split; [|cbn [handled stream writer record set_stream set_stats]].
  { split; cbn [stats handled terminal_targets stops stop_requested interrupted notices record set_stream set_stats]; try done.
    - intros label. rewrite collector_after. fold id. subst next. destruct (collect_stats args) eqn:Hc; cbn [andb]; [|by rewrite Cs].
      destruct (decide (id = label)) as [<-|Hne].
      + by rewrite lookup_insert_eq, !bool_decide_true.
      + rewrite lookup_insert_ne, (bool_decide_false (id = label)) by done. by rewrite Cs.
    - by rewrite finished_snoc, app_nil_r.
    - by rewrite finished_snoc, app_nil_r. }
  destruct (print_event_state event (Some id) update (stream s)) as [Hpc Hph].
  split; [done|]. split; [done|]. split; [by rewrite Hpc|]. rewrite Hph, prints_snoc.
  change (option_list (print_of args (handled s) (EvClient target event))) with [(event, Some id, update)].
  split; [rewrite bool_decide_false; [done|by intros [_ ?]%app_eq_nil]|]. split; [|done].
  rewrite chunks_app. f_equal. cbn [print_of chunks]. do 3 f_equal. unfold printed_to. cbn [StreamOutput.new StreamOutput.config StreamOutput.header_printed orb].
  rewrite <- Oh. destruct (stream s) as [c h o]. cbn in *. by subst.
Qed.

(** An event about the run's targets goes through. *)
Lemma process_event_ok all event s :
  core_ok s → out_ok all s → about setup event → ∃ s', process_event args event s = Ok s' ∧ processed s event s'.
Proof.
  intros Hc Ho Ha. destruct event; try (by eapply process_quiet). eapply process_client; [done..|]. by rewrite <- Hids.
Qed.

(** Only whole chunks were handed over, in order. *)
Definition whole s : Prop :=
  ∃ kept, StdoutWriter.queued (writer s) = concat kept ∧ kept `sublist_of` all_chunks (handled s).

Lemma out_whole all s : out_ok all s → whole s.
Proof. intros [_ _ _ (kept & Hq & Hs & _)]. by exists kept. Qed.

Lemma flush_ok all event s s' how :
  out_ok all s → processed s event s' →
  match flush (send how) s' with
  | (None, s2) => core_ok s2 ∧ out_ok (all ∧ how = Delivered true) s2 ∧ handled s2 = handled s'
  | (Some _, s2) => core_ok s2 ∧ whole s2 ∧ how ≠ Delivered true ∧ handled s2 = handled s'
  end.
Proof.
  intros [Oc Oh Oo (kept & Hq & Hs & Ha)] (Hc & Hh & Hw & Hcfg & Hhd & Hch & Hno).
  assert (∀ w kept', StdoutWriter.queued w = concat kept' → kept' `sublist_of` all_chunks (handled s') →
    (all ∧ how = Delivered true → kept' = all_chunks (handled s')) →
    let s2 := set_writer w (set_stream (StreamOutput.mk (StreamOutput.config (stream s')) (StreamOutput.header_printed (stream s')) []) s') in
    core_ok s2 ∧ out_ok (all ∧ how = Delivered true) s2 ∧ handled s2 = handled s') as Hnext.
  { intros w kept' H1' H2' H3' s2. split; [by destruct Hc; split|]. split; [|done]. split; try done. by exists kept'. }
  assert (kept `sublist_of` all_chunks (handled s')) as Hsk by (rewrite Hch; by apply sublist_inserts_r).
  unfold flush, send. destruct how as [accepting|].
  - unfold StdoutWriter.enqueue. destruct (decide (StreamOutput.out (stream s') = [])) as [He|He];
      [rewrite bool_decide_true by done|rewrite bool_decide_false by done].
    + destruct (print_of args (handled s) event) as [p|] eqn:Hp.
      * apply (Hnext _ (kept ++ [[]])).
        -- rewrite Hw, Hq, concat_app. cbn. by rewrite app_nil_r.
        -- rewrite Hch, He. by apply sublist_app.
        -- intros [Hall _]. by rewrite Hch, He, (Ha Hall).
      * apply (Hnext _ kept); [by rewrite Hw|done|]. intros [Hall _]. by rewrite Hch, app_nil_r, (Ha Hall).
    + destruct accepting; [|split; [done|]; split; [exists kept; split; [by rewrite Hw|done]|done]].
      destruct (print_of args (handled s) event) as [p|] eqn:Hp; [|by destruct He; apply Hno].
      apply (Hnext _ (kept ++ [StreamOutput.out (stream s')])).
      * cbn. rewrite Hw, Hq, concat_app. cbn. by rewrite app_nil_r.
      * rewrite Hch. by apply sublist_app.
      * intros [Hall _]. by rewrite Hch, (Ha Hall).
  - apply (Hnext _ kept); [by rewrite Hw|done|]. by intros [_ ?].
Qed.

Lemma stop_if_ok all ask s :
  core_ok s → out_ok all s → (ask = true → stop_requested s = false) →
  core_ok (stop_if ask (ask || stop_requested s) s) ∧ out_ok all (stop_if ask (ask || stop_requested s) s).
Proof.
  intros [Cs Ct Cst Ci Cf] [Oc Oh Oo Oq] Ha. split; split; try done; cbn.
  - rewrite Cst. destruct ask; [by rewrite Ha|]. by destruct (stop_requested s).
  - intros Hi. by rewrite Ci, orb_true_r.
Qed.

Lemma requested_once requested :
  request_managed_stop_once requested = (negb requested, negb requested || requested).
Proof. by destruct requested. Qed.

Lemma requested_for_peer continuous interrupted n requested : ∃ ask,
  request_managed_stop_for_peer_close continuous interrupted n requested = (ask, ask || requested) ∧
  (ask = true → requested = false) ∧
  (continuous = true → interrupted = false → n ≠ 0 → ask || requested = true).
Proof.
  unfold request_managed_stop_for_peer_close, request_managed_stop_once.
  exists (continuous && negb interrupted && negb (n =? 0) && negb requested).
  destruct continuous, interrupted, (Z.eqb_spec n 0), requested; cbn; by split_and!.
Qed.

(** The top of a turn: the shutdown flag and a peer's closure ask the driver to stop. *)
Lemma run_top_ok all status shutdown s :
  core_ok s → out_ok all s →
  let s' := match run_top args status shutdown s with inl s' | inr s' => s' end in
  core_ok s' ∧ out_ok all s' ∧ handled s' = handled s ∧ interrupted s' = interrupted s || shutdown ∧
  (stop_requested s = true → stop_requested s' = true) ∧
  (shutdown = true ∨ (continuous args = true ∧ ManagedStatus.peer_closed_target_outcomes status ≠ 0) → stop_requested s' = true) ∧
  (match run_top args status shutdown s with inl _ => True | inr s' => interrupted s' = false end).
Proof.
  intros Hc Ho. set (s1 := if shutdown then stop_if (negb (stop_requested s)) (negb (stop_requested s) || stop_requested s) (set_interrupted true s) else s).
  assert (core_ok s1 ∧ out_ok all s1 ∧ handled s1 = handled s ∧ interrupted s1 = interrupted s || shutdown ∧
    (stop_requested s = true → stop_requested s1 = true) ∧ (shutdown = true → stop_requested s1 = true)) as (Hc1 & Ho1 & Hh1 & Hi1 & Hst1 & Hsh1).
  { subst s1. destruct shutdown; [|by rewrite orb_false_r]. destruct Hc as [Cs Ct Cst Ci Cf], Ho as [Oc Oh Oo Oq].
    split; [split|split; [split|]]; try done; cbn; rewrite ?orb_true_r; try done.
    - rewrite Cst. by destruct (stop_requested s).
    - by destruct (stop_requested s).
    - split; [done|]. split; [done|]. by destruct (stop_requested s). }
  assert (run_top args status shutdown s =
    (let '(ask, requested) := request_managed_stop_for_peer_close (continuous args) (interrupted s1)
        (ManagedStatus.peer_closed_target_outcomes status) (stop_requested s1) in
     let s := stop_if ask requested s1 in
     if interrupted s || Envelope.is_some (ManagedStatus.final_outcome status) then inl s else inr s)) as ->.
  { subst s1. unfold run_top. destruct shutdown; [|done]. by rewrite requested_once. }
  destruct (requested_for_peer (continuous args) (interrupted s1) (ManagedStatus.peer_closed_target_outcomes status) (stop_requested s1))
    as (ask & -> & Hask & Hpeer).
  destruct (stop_if_ok all ask s1 Hc1 Ho1 Hask) as [Hc2 Ho2]. cbv zeta. set (s2 := stop_if ask (ask || stop_requested s1) s1) in *.
  assert (interrupted s2 = interrupted s || shutdown) as Hi2 by done.
  assert (core_ok s2 ∧ out_ok all s2 ∧ handled s2 = handled s ∧ interrupted s2 = interrupted s || shutdown ∧
    (stop_requested s = true → stop_requested s2 = true) ∧
    (shutdown = true ∨ (continuous args = true ∧ ManagedStatus.peer_closed_target_outcomes status ≠ 0) → stop_requested s2 = true)) as Hall.
  { split; [done|]. split; [done|]. split; [done|]. split; [done|]. split.
    - intros Hr. cbn. by rewrite Hst1, orb_true_r.
    - intros [Hs|[Hct Hp]]; cbn; [by rewrite Hsh1, orb_true_r|].
      destruct (interrupted s1) eqn:Hin; [by rewrite (co_interrupted _ Hc1 Hin), orb_true_r|by apply Hpeer]. }
  destruct (interrupted s2 || _) eqn:Hq; destruct_and! Hall; split_and!; try done.
  by apply orb_false_elim in Hq as [? _].
Qed.

Lemma out_ok_weaken (P Q : Prop) s : out_ok P s → (Q → P) → out_ok Q s.
Proof. intros [Oc Oh Oo (kept & Hq & Hs & Ha)] Hi. split; try done. exists kept. auto. Qed.

Lemma drop_events_ok all count s : core_ok s → out_ok all s → core_ok (drop_events count s) ∧ out_ok all (drop_events count s).
Proof. intros [] []. by split; split. Qed.

(** One event, handled and flushed. *)
Lemma handle_ok all event how s :
  core_ok s → out_ok all s → about setup event →
  ∃ s1 failed s2, process_event args event s = Ok s1 ∧ flush (send how) s1 = (failed, s2) ∧ handled s2 = handled s ++ [event] ∧ core_ok s2 ∧
    match failed with
    | None => out_ok (all ∧ how = Delivered true) s2
    | Some _ => whole s2 ∧ how ≠ Delivered true
    end.
Proof.
  intros Hc Ho Ha. destruct (process_event_ok all event s Hc Ho Ha) as (s1 & Hp & Hpr).
  pose proof (flush_ok all event s s1 how Ho Hpr) as Hf. destruct (flush (send how) s1) as [failed s2] eqn:He.
  exists s1, failed, s2. split; [done|]. split; [done|]. destruct Hpr as (_ & Hh & _). destruct failed; naive_solver congruence.
Qed.

Definition flow_ok (all : Prop) (flow : Flow) s : Prop :=
  core_ok s ∧ match flow with Abort _ => whole s ∧ ¬ all | _ => out_ok all s end.

Lemma run_turn_ok all turn s :
  core_ok s → out_ok all s → turn_about setup turn →
  ∃ flow s', run_turn args turn s = Ok (flow, s') ∧ flow_ok (all ∧ turn_delivered turn) flow s'.
Proof.
  intros Hc Ho Ha. unfold run_turn. destruct (run_top_ok all (run_status turn) (run_shutdown turn) s Hc Ho) as (Hc1 & Ho1 & _).
  assert (∀ s2, core_ok s2 → out_ok all s2 → core_ok s2 ∧ out_ok (all ∧ turn_delivered turn) s2) as Hw.
  { intros s2 Hc2 Ho2. split; [done|]. eapply out_ok_weaken; [exact Ho2|]. by intros []. }
  destruct (run_top args _ _ s) as [s1|s1]; [by eexists _, _; split; [reflexivity|]; apply Hw|].
  unfold run_select. destruct turn as [status shutdown wake]. cbn [run_wake] in *.
  destruct wake as [| | |event late how|count|]; try (by eexists _, _; split; [reflexivity|]; apply Hw).
  - destruct late; [by eexists _, _; split; [reflexivity|]; apply Hw|].
    destruct (handle_ok all event how s1 Hc1 Ho1 Ha) as (s2 & failed & s3 & Hp & Hf & Hh & Hc3 & Hm). rewrite Hp. cbn [mbind Result_bind].
    rewrite Hf. eexists _, _. split; [reflexivity|]. split; [done|].
    destruct failed; [|done]. destruct Hm as [Hwh Hd]. split; [done|]. intros [_ Hd']. by apply Hd.
  - eexists _, _. split; [reflexivity|]. apply Hw; by eapply drop_events_ok.
Qed.

Lemma loop_ok all turns s :
  core_ok s → out_ok all s → Forall (turn_about setup) turns →
  ∃ flow s', run_loop args turns s = Ok (flow, s') ∧ flow_ok (all ∧ Forall turn_delivered turns) flow s'.
Proof.
  revert all s. induction turns as [|turn turns IH]; intros all s Hc Ho Ha; cbn [run_loop].
  { eexists _, _. split; [reflexivity|]. split; [done|]. eapply out_ok_weaken; [exact Ho|]. by intros []. }
  apply Forall_cons in Ha as [Ht Ha]. destruct (run_turn_ok all turn s Hc Ho Ht) as (flow & s1 & -> & Hc1 & Hf1). cbn [mbind Result_bind].
  assert (all ∧ Forall turn_delivered (turn :: turns) → all ∧ turn_delivered turn) as Hw by (intros [? ?%Forall_cons]; naive_solver).
  destruct flow as [| |error].
  - destruct (IH _ s1 Hc1 Hf1 Ha) as (flow & s2 & -> & Hc2 & Hf2). eexists _, _. split; [reflexivity|]. split; [done|].
    destruct flow; [eapply out_ok_weaken; [exact Hf2|]|eapply out_ok_weaken; [exact Hf2|]|];
      [rewrite Forall_cons; naive_solver..|]. destruct Hf2 as [Hwh Hn]. split; [done|]. rewrite Forall_cons in *. naive_solver.
  - eexists _, _. split; [reflexivity|]. split; [done|]. by eapply out_ok_weaken.
  - eexists _, _. split; [reflexivity|]. split; [done|]. destruct Hf1 as [Hwh Hn]. split; [done|]. auto.
Qed.

Lemma drain_left_ok all items s :
  core_ok s → out_ok all s → Forall (left_about setup) items →
  ∃ failed s', drain_left args items s = Ok (failed, s') ∧ core_ok s' ∧
    match failed with Some _ => whole s' ∧ ¬ (all ∧ Forall left_delivered items) | None => out_ok (all ∧ Forall left_delivered items) s' end.
Proof.
  revert all s. induction items as [|[event how|count] items IH]; intros all s Hc Ho Ha; cbn [drain_left].
  - eexists _, _. split; [reflexivity|]. split; [done|]. eapply out_ok_weaken; [exact Ho|]. by intros [].
  - apply Forall_cons in Ha as [Ht Ha].
    destruct (handle_ok all event how s Hc Ho Ht) as (s2 & failed & s3 & -> & Hf & Hh & Hc3 & Hm). cbn [mbind Result_bind]. rewrite Hf.
    destruct failed as [error|].
    + eexists _, _. split; [reflexivity|]. split; [done|]. rewrite Forall_cons. destruct Hm. cbn [left_delivered]. naive_solver.
    + destruct (IH _ s3 Hc3 Hm Ha) as (failed & s4 & -> & Hc4 & Hf4). eexists _, _. split; [reflexivity|]. split; [done|].
      destruct failed; [|eapply out_ok_weaken; [exact Hf4|]]; rewrite Forall_cons; cbn [left_delivered]; naive_solver.
  - apply Forall_cons in Ha as [_ Ha]. destruct (drop_events_ok all count s Hc Ho) as [Hc1 Ho1].
    destruct (IH _ _ Hc1 Ho1 Ha) as (failed & s4 & -> & Hc4 & Hf4). eexists _, _. split; [reflexivity|]. split; [done|].
    destruct failed; [|eapply out_ok_weaken; [exact Hf4|]]; rewrite Forall_cons; cbn [left_delivered]; naive_solver.
Qed.

(** What the end of a run leaves alone. *)
Definition framed s s' : Prop :=
  stream s' = stream s ∧ stats s' = stats s ∧ writer s' = writer s ∧ interrupted s' = interrupted s ∧
  stop_requested s' = stop_requested s ∧ stops s' = stops s ∧ handled s' = handled s.

Lemma filter_agree {A} (P Q : A → Prop) `{!∀ x, Decision (P x)} `{!∀ x, Decision (Q x)} (l : list A) :
  Forall (λ x, P x ↔ Q x) l → filter P l = filter Q l.
Proof.
  induction 1 as [|x l Hx _ IH]; [done|]. rewrite !filter_cons. do 2 case_decide; rewrite ?IH; tauto || done.
Qed.

Lemma report_recent_ok outcomes s :
  let s' := report_recent outcomes s in
  framed s s' ∧
  (NoDup (ManagedTargetOutcome.target <$> outcomes) →
   failures s' = failures s ++
     (filter (λ o, ManagedTargetOutcome.target o ∉ terminal_targets s) outcomes ≫= target_failure_messages)).
Proof.
  revert s. induction outcomes as [|outcome outcomes IH]; intros s; cbn [report_recent].
  { split; [done|]. intros _. by rewrite app_nil_r. }
  set (target := ManagedTargetOutcome.target outcome).
  set (s1 := if bool_decide (target ∈ terminal_targets s) then s else notify (target_failure_messages outcome) (finish_target target s)).
  destruct (IH s1) as [Hfr Hfa]. assert (framed s s1) as Hs1 by (subst s1; by case_bool_decide).
  clear Hids. cbv zeta.
  split; [unfold framed in *; destruct_and?; split_and!; congruence|].
  cbn [fmap list_fmap]. intros [Hn Hnd]%NoDup_cons. rewrite Hfa, filter_cons by done. clear IH Hfa Hfr Hs1.
  assert (∀ s0 : FiniteRun.t, terminal_targets s0 = terminal_targets s ∪ {[ target ]} →
    filter (λ o, ManagedTargetOutcome.target o ∉ terminal_targets s0) outcomes
    = filter (λ o, ManagedTargetOutcome.target o ∉ terminal_targets s) outcomes) as Hsame.
  { intros s0 ->. apply filter_agree. apply Forall_forall. intros o Ho.
    assert (ManagedTargetOutcome.target o ≠ target) by (intros He; apply Hn; fold target; rewrite <- He; by apply list_elem_of_fmap_2).
    set_solver. }
  subst s1. fold target. case_bool_decide as Ht.
  - by rewrite decide_False by naive_solver.
  - rewrite decide_True by done. rewrite Hsame by done. cbn [notices notify finish_target].
    rewrite filter_app, messages_failures, <- app_assoc. done.
Qed.

Lemma enqueue_ok accepting text w :
  match StdoutWriter.enqueue accepting text w with
  | Ok w' => StdoutWriter.queued w' = StdoutWriter.queued w ++ text
  | Err _ => accepting = false
  | Panic => False
  end.
Proof.
  unfold StdoutWriter.enqueue. case_bool_decide as Ht; [by rewrite Ht, app_nil_r|]. by destruct accepting.
Qed.

Lemma send_summary_ok how text w :
  match send_summary how text w with
  | Ok w' => ∃ printed, StdoutWriter.queued w' = StdoutWriter.queued w ++ concat printed ∧ printed `sublist_of` [text] ∧
      (how = SummaryDelivered true → printed = [text])
  | Err _ => how ≠ SummaryDelivered true
  | Panic => False
  end.
Proof.
  assert (∀ accepting w0, StdoutWriter.queued w0 = StdoutWriter.queued w →
    match StdoutWriter.enqueue accepting text w0 with
    | Ok w' => ∃ printed, StdoutWriter.queued w' = StdoutWriter.queued w ++ concat printed ∧ printed `sublist_of` [text] ∧
        (how = SummaryDelivered true → printed = [text])
    | Err _ => accepting = false
    | Panic => False
    end) as Hq.
  { intros accepting w0 Hw. pose proof (enqueue_ok accepting text w0) as He. destruct (StdoutWriter.enqueue _ _ _); [|done..].
    exists [text]. cbn. by rewrite app_nil_r, He, Hw. }
  destruct how as [accepting|now [accepting|]]; cbn [send_summary].
  - specialize (Hq accepting w eq_refl). destruct (StdoutWriter.enqueue _ _ _); [done| |done]. by subst.
  - set (w0 := StdoutWriter.mk _ _). specialize (Hq accepting w0 eq_refl). by destruct (StdoutWriter.enqueue _ _ _).
  - exists []. cbn. rewrite app_nil_r. split; [done|]. split; [apply sublist_nil_l|done].
Qed.

(** The summaries of some targets. *)
Lemma print_summaries_ok labels' how s :
  StreamOutput.config (stream s) = config → StreamOutput.out (stream s) = [] →
  let texts := omap (λ label, (λ collector, summary_text args setup config (interrupted s) label collector) <$> stats s !! label) labels' in
  let '(failed, s') := print_summaries args setup labels' how s in
  (stats s' = stats s ∧ interrupted s' = interrupted s ∧ stop_requested s' = stop_requested s ∧ stops s' = stops s ∧
   handled s' = handled s ∧ notices s' = notices s) ∧
  ∃ printed, StdoutWriter.queued (writer s') = StdoutWriter.queued (writer s) ++ concat printed ∧ printed `sublist_of` texts ∧
    (Forall (λ h, h = SummaryDelivered true) how → failed = None ∧ printed = texts).
Proof.
  revert how s. induction labels' as [|label labels' IH]; intros how s Hcfg Hout; cbn [print_summaries omap list_omap].
  - unfold flush. rewrite Hout. destruct (default _ (head how)) as [accepting|now [accepting|]]; cbn [send_summary];
      unfold StdoutWriter.enqueue; rewrite ?bool_decide_true by done; (split; [by split_and!|]); exists []; by rewrite app_nil_r.
  - destruct (stats s !! label) as [collector|] eqn:Hst; cbn [fmap option_fmap option_map]; [|by apply IH].
    rewrite Hcfg. set (text := summary_text args setup config (interrupted s) label collector).
    assert (StreamOutput.out (stream (set_stream (append_out text (stream s)) s)) = text) as Htx by (cbn; by rewrite Hout).
    unfold flush. rewrite Htx.
    assert (∀ w printed0, StdoutWriter.queued w = StdoutWriter.queued (writer s) ++ concat printed0 →
      printed0 `sublist_of` [text] → (Forall (λ h, h = SummaryDelivered true) how → printed0 = [text]) →
      let s1 := set_writer w (set_stream (StreamOutput.mk config (StreamOutput.header_printed (stream s)) []) s) in
      let '(failed, s') := print_summaries args setup labels' (tail how) s1 in
      (stats s' = stats s ∧ interrupted s' = interrupted s ∧ stop_requested s' = stop_requested s ∧ stops s' = stops s ∧
       handled s' = handled s ∧ notices s' = notices s) ∧
      ∃ printed, StdoutWriter.queued (writer s') = StdoutWriter.queued (writer s) ++ concat printed ∧
        printed `sublist_of` text :: omap (λ label, (λ collector, summary_text args setup config (interrupted s) label collector) <$> stats s !! label) labels' ∧
        (Forall (λ h, h = SummaryDelivered true) how → failed = None ∧
         printed = text :: omap (λ label, (λ collector, summary_text args setup config (interrupted s) label collector) <$> stats s !! label) labels')) as Hnext.
    { intros w printed0 Hw Hs0 Ha0 s1. specialize (IH (tail how) s1 eq_refl eq_refl). cbv zeta in IH. cbn [stats s1] in IH.
      change (stats s1) with (stats s) in IH. change (interrupted s1) with (interrupted s) in IH.
      destruct (print_summaries args setup labels' (tail how) s1) as [failed s']. destruct IH as [Hf (printed & Hq & Hs & Ha)].
      split; [exact Hf|]. exists (printed0 ++ printed). split; [|split].
      - rewrite Hq, concat_app. cbn [writer set_writer s1]. by rewrite Hw, app_assoc.
      - by apply (sublist_app _ [text]).
      - intros Hh. rewrite (Ha0 Hh). destruct Ha as [-> ->]; [|done]. by destruct Hh. }
    pose proof (send_summary_ok (default (SummaryDelivered true) (head how)) text (writer s)) as Hsend.
    assert (Forall (λ h, h = SummaryDelivered true) how → default (SummaryDelivered true) (head how) = SummaryDelivered true) as Hhow
      by (by destruct 1).
    cbn [writer set_stream]. destruct (send_summary _ text (writer s)) as [w|error|]; [| |done].
    + destruct Hsend as (printed0 & Hw & Hs0 & Ha0). cbn [stream set_stream append_out StreamOutput.config StreamOutput.header_printed].
      rewrite Hcfg. apply (Hnext w printed0); auto.
    + split; [done|]. exists []. cbn. rewrite app_nil_r. split; [done|]. split; [apply sublist_nil_l|]. intros Hh. by destruct Hsend; apply Hhow.
Qed.

Lemma summary_texts (interrupted_ : bool) (all_stats : gmap bytes StatsCollector.t) events :
  (∀ label, all_stats !! label =
     if collect_stats args && bool_decide (label ∈ labels setup) then Some (collector_of label events) else None) →
  omap (λ label, (λ collector, summary_text args setup config interrupted_ label collector) <$> all_stats !! label) (labels setup)
  = summaries args setup config interrupted_ events.
Proof.
  intros Hs. unfold summaries.
  assert (∀ l, Forall (λ label, label ∈ labels setup) l →
    omap (λ label, (λ collector, summary_text args setup config interrupted_ label collector) <$> all_stats !! label) l
    = if collect_stats args then (λ label, summary_text args setup config interrupted_ label (collector_of label events)) <$> l else []) as Hl.
  { induction 1 as [|label l Hin _ IH]; [by destruct (collect_stats args)|]. cbn [omap list_omap]. rewrite Hs, bool_decide_true, IH by done.
    by destruct (collect_stats args). }
  apply Hl, Forall_forall. done.
Qed.

Definition undisturbed (turns : list RunTurn) (left_ : list Left) (how : list SummaryDelivery) : Prop :=
  Forall turn_delivered turns ∧ Forall left_delivered left_ ∧ Forall (λ h, h = SummaryDelivered true) how.

Lemma notify_ok all n s :
  core_ok s → out_ok all s → is_failure n = false → core_ok (notify [n] s) ∧ out_ok all (notify [n] s).
Proof.
  intros [Cs Ct Cst Ci Cf] [Oc Oh Oo Oq] Hn. split; split; try done. cbn [notices notify handled].
  rewrite filter_app, filter_cons, Hn, decide_False by done. by rewrite app_nil_r.
Qed.

(** The outcome of the end of a run. *)
Definition finish_ok (all : Prop) (joined : string + ManagedOutcome.t) (result : Result RunError unit) s : Prop :=
  stops s = of_bool (stop_requested s) ∧
  (∃ kept printed, StdoutWriter.queued (writer s) = concat (kept ++ printed) ∧
     kept `sublist_of` all_chunks (handled s) ∧ printed `sublist_of` summaries args setup config (interrupted s) (handled s) ∧
     (all → ∀ outcome, joined = inr outcome →
        kept = all_chunks (handled s) ∧ printed = summaries args setup config (interrupted s) (handled s))) ∧
  (∀ outcome, joined = inr outcome → (all → ∀ error, result ≠ Err (RunIo error)) ∧
     ((∀ error, result ≠ Err (RunIo error)) →
      result = match terminal_error args (interrupted s) outcome with Some error => Err error | None => Ok tt end ∧
      (NoDup (ManagedTargetOutcome.target <$> ManagedOutcome.recent_target_outcomes outcome) →
       failures s = (finished_outcomes (handled s) ++
         filter (λ o, ManagedTargetOutcome.target o ∉ ManagedTargetOutcome.target <$> finished_outcomes (handled s))
           (ManagedOutcome.recent_target_outcomes outcome)) ≫= target_failure_messages))).

(** Ended before the summaries. *)
Lemma ended_early all joined error s :
  core_ok s → whole s → (∀ outcome, joined = inr outcome → ¬ all) → finish_ok all joined (Err (RunIo error)) s.
Proof.
  intros Hc (kept & Hq & Hs) Hn. split; [by destruct Hc|]. split.
  - exists kept, []. rewrite app_nil_r. split; [done|]. split; [done|]. split; [apply sublist_nil_l|]. intros Ha outcome Hj. by destruct (Hn outcome).
  - intros outcome Hj. split; [intros Ha; by destruct (Hn outcome)|]. intros He. by destruct (He error).
Qed.

Lemma terminal_not_io (interrupted_ : bool) outcome error : terminal_error args interrupted_ outcome ≠ Some (RunIo error).
Proof.
  unfold terminal_error. destruct (ManagedOutcome.end_reason outcome); try done;
    (destruct (peer_close_run_error _ _ _); [done|]; by destruct (_ && _)).
Qed.

Lemma run_finish_ok all joined left_ shutdown how s :
  core_ok s → out_ok all s → Forall (left_about setup) left_ →
  ∃ result s', run_finish args setup joined left_ shutdown how s = Ok (result, s') ∧
    finish_ok (all ∧ Forall left_delivered left_ ∧ Forall (λ h, h = SummaryDelivered true) how) joined result s'.
Proof.
  intros Hc Ho Ha. unfold run_finish. set (s0 := if interrupted s then notify [interruption] s else s).
  assert (core_ok s0 ∧ out_ok all s0) as [Hc0 Ho0] by (subst s0; destruct (interrupted s); [by apply notify_ok|done]).
  destruct joined as [error|outcome].
  { eexists _, _. split; [reflexivity|]. apply ended_early; [done|by eapply out_whole|done]. }
  destruct (drain_left_ok all left_ s0 Hc0 Ho0 Ha) as (failed & s1 & -> & Hc1 & Hf1). cbn [mbind Result_bind].
  destruct failed as [error|].
  { eexists _, _. split; [reflexivity|]. apply ended_early; [done|by apply Hf1|]. intros _ _. naive_solver. }
  set (s2 := notify (option_list (dropped_event_warning (dropped_events s1))) s1).
  assert (core_ok s2 ∧ out_ok (all ∧ Forall left_delivered left_) s2) as [Hc2 Ho2].
  { subst s2. unfold dropped_event_warning. destruct (0 <? _); [by apply notify_ok|]. cbn.
    destruct Hc1, Hf1. split; split; try done. cbn [notices notify]. by rewrite app_nil_r. }
  set (s3 := if ManagedOutcome.discarded_target_outcomes outcome =? 0 then s2 else _).
  assert (core_ok s3 ∧ out_ok (all ∧ Forall left_delivered left_) s3) as [Hc3 Ho3] by (subst s3; destruct (_ =? 0); [done|by apply notify_ok]).
  clearbody s2 s3. clear Hc0 Ho0 Hc1 Hf1 Hc2 Ho2.
  destruct (report_recent_ok (ManagedOutcome.recent_target_outcomes outcome) s3) as [(Fst & Fss & Fw & Fi & Fr & Fsp & Fh) Hfail].
  set (s4 := report_recent (ManagedOutcome.recent_target_outcomes outcome) s3) in *.
  set (s5 := set_interrupted (interrupted s4 || shutdown) s4).
  destruct Hc3 as [Cs Ct Cst Ci Cf], Ho3 as [Oc Oh Oo (kept & Hq & Hsub & Hall)].
  pose proof (print_summaries_ok (labels setup) how s5) as Hp. cbn [stream s5 set_interrupted] in Hp. rewrite Fst in Hp.
  specialize (Hp Oc Oo). cbv zeta in Hp. change (stats s5) with (stats s4) in Hp. rewrite Fss, (summary_texts _ _ (handled s3) Cs) in Hp.
  destruct (print_summaries args setup (labels setup) how s5) as [failed s6].
  destruct Hp as [(Ps & Pi & Pr & Pst & Ph & Pn) (printed & Hpq & Hps & Hpall)].
  assert (handled s6 = handled s3) as Hh6 by (by rewrite Ph, <- Fh). change (writer s5) with (writer s4) in Hpq.
  rewrite Fw, Hq, <- concat_app in Hpq. rewrite <- Hh6 in Hsub, Hall, Hps, Hpall. rewrite <- Pi in Hps, Hpall.
  assert (∀ result, (failed = None → result = match terminal_error args (interrupted s5) outcome with Some error => Err error | None => Ok tt end) →
    (∀ error, failed = Some error → result = Err (RunIo error)) →
    finish_ok (all ∧ Forall left_delivered left_ ∧ Forall (λ h, h = SummaryDelivered true) how) (inr outcome) result s6) as Hdone.
  { intros result Hn Hs. split; [|split].
    - rewrite Pst, Pr. change (stops s4 = of_bool (stop_requested s4)). by rewrite Fsp, Fr.
    - exists kept, printed. split; [done|]. split; [done|]. split; [done|]. intros (Hx & Hy & Hz) o _.
      split; [by apply Hall|by apply Hpall].
    - intros o [= <-]. split.
      + intros (_ & _ & [Hnone _]%Hpall) error. rewrite (Hn Hnone). destruct (terminal_error _ _ _) eqn:Hte; [|done].
        intros [= ->]. by apply terminal_not_io in Hte.
      + intros Hio. destruct failed as [error|]; [by destruct (Hio error); apply Hs|]. split; [rewrite Pi; by apply Hn|].
        intros Hnd. rewrite Pn, bind_app, Hh6, <- Cf. change (notices s5) with (notices s4). rewrite Hfail by done.
        do 2 f_equal. apply filter_agree, Forall_true. intros o. rewrite Ct, elem_of_list_to_set. done. }
  destruct failed as [error|]; [|destruct (terminal_error args (interrupted s5) outcome) as [error|]];
    (eexists _, _; split; [reflexivity|]; apply Hdone; naive_solver).
Qed.
End theory.

(** ** The run of an accepted command line *)
Section accepted.
Context `{Measurement} `{CountWindows} `{FirstInstant} `{!TimeStatsFields} `{HexCrate}.
Implicit Types s : FiniteRun.t.

(** The collectors are kept by the name the driver's events have. *)
Lemma prepared_ids args answers setup lookups :
  prepare_client args answers = Ok (setup, lookups) →
  ManagedTargetConfig.id <$> ManagedRunSetup.managed_targets setup = labels setup ∧ NoDup (labels setup).
Proof.
  unfold prepare_client. cbv zeta. destruct (_ && negb _); [done|]. destruct (_ || _); [done|]. destruct (_ && _); [done|].
  intros ([setup0 l] & Hp & [= <- _])%bind_ok. unfold prepare_managed_run in Hp. cbn [TargetSelection.stdin_controlled TargetSelection.targets] in Hp.
  apply bind_ok in Hp as (specs & _ & ([[targets prep] lk] & Hpre & (cfg & _ & [= <- _])%bind_ok)%bind_ok).
  apply prepared_ok in Hpre as (sel & _ & -> & Hn & _); [|by destruct (ClientArgs.targets_stdin args)].
  unfold labels, ManagedRunSetup.managed_targets. destruct (ClientArgs.no_test args); cbn [ManagedRunSetup.targets]; by rewrite expansions_ids.
Qed.

(** The outcome of a whole run. *)
Definition run_ok args setup config (turns : list RunTurn) joined (left_ : list Left) how
    (result : option (Result RunError unit)) s : Prop :=
  match result with
  | Some result =>
      finish_ok args setup config (undisturbed turns left_ how) joined result s ∨
      (∃ error, result = Err (RunIo error) ∧ stops s = of_bool (stop_requested s) + 1 ∧ whole args config s ∧ ¬ Forall turn_delivered turns)
  | None => core_ok args setup s ∧ out_ok args config (Forall turn_delivered turns) s
  end.

Lemma finite_run_ok args answers setup lookups config turns joined left_ shutdown how :
  prepare_client args answers = Ok (setup, lookups) → Forall (turn_about setup) turns → Forall (left_about setup) left_ →
  ∃ result s, finite_run args setup config turns joined left_ shutdown how = Ok (result, s) ∧
    run_ok args setup config turns joined left_ how result s.
Proof.
  intros [Hids _]%prepared_ids Ht Hl. unfold finite_run. destruct (run_start_ok args setup config) as [Hc0 Ho0].
  destruct (loop_ok args setup config Hids True turns _ Hc0 Ho0 Ht) as (flow & s & -> & Hc & Hf). cbn [mbind Result_bind].
  destruct flow as [| |error].
  - eexists _, _. split; [reflexivity|]. split; [done|]. eapply out_ok_weaken; [exact Hf|]. by split.
  - destruct (run_finish_ok args setup config Hids _ joined left_ shutdown how s Hc Hf Hl) as (result & s' & -> & Hfin).
    eexists _, _. split; [reflexivity|]. left. destruct Hfin as (Hst & (kept & pr & Hq & Hk & Hp & Hall) & Ho). unfold undisturbed.
    split; [done|]. split; [exists kept, pr; naive_solver|naive_solver].
  - eexists _, _. split; [reflexivity|]. right. exists error. destruct Hf as [Hw Hn]. split; [done|].
    split; [cbn [stops stop_requested stop_if of_bool]; by rewrite (co_stops _ _ _ Hc)|]. split; [done|]. naive_solver.
Qed.

(** ** Which events a run handles *)
Definition turn_event (turn : RunTurn) : option ManagedEvent :=
  match run_wake turn with OnEvent event false _ => Some event | _ => None end.
Definition left_event (item : Left) : option ManagedEvent := match item with LeftEvent event _ => Some event | _ => None end.

Lemma process_frame args event s s' :
  process_event args event s = Ok s' →
  handled s' = handled s ++ [event] ∧ stop_requested s' = stop_requested s ∧ stops s' = stops s.
Proof.
  unfold process_event. destruct event; try by intros [= <-].
  intros ([update s1] & He & [= <-])%bind_ok. destruct (collect_stats args); [|by injection He as _ <-].
  apply bind_ok in He as (collector & _ & He). destruct (StatsCollector.process event _). by injection He as _ <-.
Qed.
Lemma flush_frame deliver s : let s' := (flush deliver s).2 in
  handled s' = handled s ∧ stop_requested s' = stop_requested s ∧ stops s' = stops s.
Proof. unfold flush. by destruct (deliver _ _). Qed.

Lemma select_frame args turn s flow s' :
  run_select args (run_wake turn) s = Ok (flow, s') →
  handled s' = handled s ++ option_list (turn_event turn) ∧ stop_requested s' = stop_requested s ∧ stops s' = stops s.
Proof.
  unfold run_select, turn_event. destruct (run_wake turn) as [| | |event [] how|count|];
    try by intros [= _ <-]; cbn; rewrite app_nil_r.
  intros (s1 & (Hh & Hr & Hs)%process_frame & He)%bind_ok. pose proof (flush_frame (send how) s1) as Hf.
  destruct (flush (send how) s1) as [failed s2]. cbv zeta in Hf. cbn [snd] in Hf. injection He as _ <-. naive_solver congruence.
Qed.

Lemma top_handled args status shutdown s :
  match run_top args status shutdown s with inl s' | inr s' => handled s' = handled s end.
Proof.
  unfold run_top. destruct shutdown; cbn; destruct (request_managed_stop_for_peer_close _ _ _ _); [done|].
  by destruct (interrupted s || Envelope.is_some (ManagedStatus.final_outcome status)).
Qed.

Lemma loop_handled args turns s flow s' :
  run_loop args turns s = Ok (flow, s') →
  ∃ k, handled s' = handled s ++ omap turn_event (take k turns) ∧ (flow = Continue → k = length turns).
Proof.
  revert s. induction turns as [|turn turns IH]; intros s; cbn [run_loop].
  { intros [= <- <-]. exists 0%nat. by rewrite app_nil_r. }
  intros ([flow1 s1] & Ht & Hl)%bind_ok. unfold run_turn in Ht.
  pose proof (top_handled args (run_status turn) (run_shutdown turn) s) as Hh.
  destruct (run_top _ _ _ s) as [s0|s0].
  { injection Ht as <- <-. injection Hl as <- <-. exists 0%nat. by rewrite app_nil_r. }
  apply select_frame in Ht as (Hs & _). rewrite Hh in Hs.
  assert (omap turn_event (take 1 (turn :: turns)) = option_list (turn_event turn)) as H1' by (cbn; by destruct (turn_event turn)).
  destruct flow1; [|by injection Hl as <- <-; exists 1%nat; rewrite H1'..].
  apply IH in Hl as (k & Hk & Hc). exists (S k). split; [|intros Hf; cbn; by rewrite Hc].
  rewrite Hk, Hs, <- app_assoc. f_equal. cbn [take omap list_omap]. by destruct (turn_event turn).
Qed.

Lemma drain_handled args items s failed s' :
  drain_left args items s = Ok (failed, s') → failed = None → handled s' = handled s ++ omap left_event items.
Proof.
  revert s. induction items as [|[event how|count] items IH]; intros s; cbn [drain_left].
  - intros [= _ <-] _. by rewrite app_nil_r.
  - intros (s1 & (Hh & _)%process_frame & He)%bind_ok Hf. pose proof (flush_frame (send how) s1) as (Hfl & _).
    destruct (flush (send how) s1) as [[error|] s2]; [by injection He as <- _|]. cbn [snd] in Hfl. rewrite (IH _ He Hf), Hfl, Hh.
    by rewrite <- app_assoc.
  - intros He Hf. by rewrite (IH _ He Hf).
Qed.

Lemma print_summaries_handled args setup labels how s : handled (print_summaries args setup labels how s).2 = handled s.
Proof.
  revert how s. induction labels as [|label labels IH]; intros how s; cbn [print_summaries]; [apply flush_frame|].
  destruct (stats s !! label) as [collector|]; [|apply IH].
  set (s1 := set_stream _ s). set (deliver := send_summary _). pose proof (flush_frame deliver s1) as (Hf & _).
  destruct (flush deliver s1) as [[error|] s2]; [done|]. by rewrite IH.
Qed.

Lemma finish_handled args setup outcome left_ shutdown how s result s' :
  run_finish args setup (inr outcome) left_ shutdown how s = Ok (result, s') → (∀ error, result ≠ Err (RunIo error)) →
  handled s' = handled s ++ omap left_event left_.
Proof.
  unfold run_finish. set (s0 := if interrupted s then notify [interruption] s else s).
  assert (handled s0 = handled s) as <- by (subst s0; by destruct (interrupted s)).
  intros ([failed s1] & Hd & Hr)%bind_ok Hio. destruct failed as [error|]; [injection Hr as <- _; by destruct (Hio error)|].
  rewrite <- (drain_handled _ _ _ _ _ Hd eq_refl). revert Hr.
  set (s2 := if _ =? 0 then _ else _). assert (handled s2 = handled s1) as <- by (subst s2; by destruct (_ =? 0)).
  destruct (report_recent_ok (ManagedOutcome.recent_target_outcomes outcome) s2) as [(_ & _ & _ & _ & _ & _ & <-) _].
  set (s3 := report_recent _ s2). change (handled s3) with (handled (set_interrupted (interrupted s3 || shutdown) s3)).
  rewrite <- (print_summaries_handled args setup (labels setup) how (set_interrupted (interrupted s3 || shutdown) s3)). destruct (print_summaries _ _ _ _ _) as [[error|] s4];
    [intros [= <- <-]|destruct (terminal_error _ _ _); intros [= <- <-]]; done.
Qed.

(** ** Properties *)
(** C28: the frontend of a run never panics. Whatever the driver's status and events,
    the shutdown flag and the writer, if the events are about targets the command
    line prepared, the whole run goes through: no event finds its target without a
    collector. The driver has been asked to stop once if the run decided to, and else
    not at all; but a writer that fails inside the loop drops the worker, and that is
    one more request. *)
Theorem finite_frontend_total args answers setup lookups config turns joined left_ shutdown how :
  prepare_client args answers = Ok (setup, lookups) → Forall (turn_about setup) turns → Forall (left_about setup) left_ →
  ∃ result s, finite_run args setup config turns joined left_ shutdown how = Ok (result, s) ∧
    (stops s = of_bool (stop_requested s) ∨
     (∃ error, result = Some (Err (RunIo error))) ∧ ¬ Forall turn_delivered turns ∧
       stops s = of_bool (stop_requested s) + 1).
Proof.
  intros Hp Ht Hl. destruct (finite_run_ok args answers setup lookups config turns joined left_ shutdown how Hp Ht Hl)
    as (result & s & -> & Hr). exists result, s. split; [done|]. destruct result as [result|].
  - destruct Hr as [(Hst & _)|(error & -> & Hst & _ & Hn)]; [by left|]. right. by split; [exists error|].
  - left. by destruct Hr as [[] _].
Qed.

(** An interruption stops the driver, and so does a peer that closes a
    continuous run. A turn that finds the shutdown flag leaves the loop at once; after
    it, and after one that sees the closure, the driver has been sent one stop,
    however many such turns there were. *)
Theorem finite_run_stops args answers setup lookups config turns turn s flow s' :
  prepare_client args answers = Ok (setup, lookups) → Forall (turn_about setup) turns → turn_about setup turn →
  run_loop args turns (run_start args setup config) = Ok (Continue, s) → run_turn args turn s = Ok (flow, s') →
  (run_shutdown turn = true → flow = Break ∧ handled s' = handled s) ∧
  (run_shutdown turn = true ∨
     (continuous args = true ∧ ManagedStatus.peer_closed_target_outcomes (run_status turn) ≠ 0) ∨ stops s = 1 → stops s' = 1).
Proof.
  intros [Hids _]%prepared_ids Ht Ha Hl Hr. destruct (run_start_ok args setup config) as [Hc0 Ho0].
  destruct (loop_ok args setup config Hids True turns _ Hc0 Ho0 Ht) as (flow0 & s0 & Hl0 & Hc & Ho).
  rewrite Hl in Hl0. injection Hl0 as <- <-. cbn in Ho.
  destruct (run_top_ok args setup config _ (run_status turn) (run_shutdown turn) s Hc Ho) as (Hc1 & Ho1 & Hh & Hi & Hkeep & Hask & Hni).
  assert (stops s = 1 → stop_requested s = true) as Hone.
  { rewrite (co_stops _ _ _ Hc). by destruct (stop_requested s). }
  unfold run_turn in Hr. destruct (run_top args (run_status turn) (run_shutdown turn) s) as [s1|s1].
  - injection Hr as <- <-. split; [done|]. intros Hcause. rewrite (co_stops _ _ _ Hc1).
    assert (stop_requested s1 = true) as ->; [|done]. destruct Hcause as [?|[?|?]]; [by apply Hask; left|by apply Hask; right|].
    by apply Hkeep, Hone.
  - apply select_frame in Hr as (Hs & Hrq & Hst). split.
    { intros Hsh. rewrite Hsh, orb_true_r in Hi. congruence. }
    intros Hcause. rewrite Hst, (co_stops _ _ _ Hc1).
    assert (stop_requested s1 = true) as ->; [|done]. destruct Hcause as [?|[?|?]]; [by apply Hask; left|by apply Hask; right|].
    by apply Hkeep, Hone.
Qed.

(** C27: standard output is the run. What the writer gets is, whatever deliveries an
    interruption cuts short, whole event texts in order and then whole summaries. If
    none is cut short, it is exactly the output of the events of the turns, and of
    those left when the loop ended, each with what its statistics made of it, and
    then one summary per target, in the order of the command line, of what that
    target's last session measured. *)
Theorem finite_run_output args answers setup lookups config turns joined left_ shutdown how result s :
  prepare_client args answers = Ok (setup, lookups) → Forall (turn_about setup) turns → Forall (left_about setup) left_ →
  finite_run args setup config turns joined left_ shutdown how = Ok (result, s) →
  (∃ kept printed, StdoutWriter.queued (writer s) = concat (kept ++ printed) ∧
     kept `sublist_of` chunks (StreamOutput.new config) (prints args [] (handled s)) ∧
     printed `sublist_of` summaries args setup config (interrupted s) (handled s)) ∧
  (undisturbed turns left_ how → ∃ k,
     match result, joined with
     | None, _ =>
         handled s = omap turn_event turns ∧ StdoutWriter.queued (writer s) = AppOutput.printed config (prints args [] (handled s))
     | Some _, inr outcome =>
         handled s = omap turn_event (take k turns) ++ omap left_event left_ ∧
         StdoutWriter.queued (writer s) = AppOutput.printed config (prints args [] (handled s)) ++
           concat (summaries args setup config (interrupted s) (handled s))
     | Some _, inl _ => True
     end).
Proof.
  intros Hp Ht Hl Hrun. destruct (finite_run_ok args answers setup lookups config turns joined left_ shutdown how Hp Ht Hl)
    as (result' & s' & He & Hr). rewrite Hrun in He. injection He as <- <-. split.
  - destruct result as [result|].
    + destruct Hr as [(_ & (kept & pr & Hq & Hk & Hs & _) & _)|(error & _ & _ & (kept & Hq & Hk) & _)]; [by exists kept, pr|].
      exists kept, []. rewrite app_nil_r. split; [done|]. split; [done|]. apply sublist_nil_l.
    + destruct Hr as [_ [_ _ _ (kept & Hq & Hk & _)]]. exists kept, []. rewrite app_nil_r. split; [done|]. split; [done|]. apply sublist_nil_l.
  - intros Hu. unfold finite_run in Hrun. apply bind_ok in Hrun as ([flow s1] & Hloop & Hrun).
    destruct (loop_handled _ _ _ _ _ Hloop) as (k & Hk & Hc). cbn [run_start handled app] in Hk. exists k. destruct flow as [| |error].
    + injection Hrun as <- <-. split; [by rewrite Hk, (Hc eq_refl), firstn_all|].
      destruct Hr as [_ [_ _ _ (kept & Hq & _ & Hall)]]. by rewrite Hq, (Hall (proj1 Hu)), printed_chunks.
    + apply bind_ok in Hrun as ([result' s'] & Hfin & [= <- <-]). destruct joined as [|outcome]; [done|].
      destruct Hr as [(_ & (kept & pr & Hq & _ & _ & Hall) & Ho)|(error & -> & _ & _ & Hn)]; [|by destruct Hu].
      destruct (Ho outcome eq_refl) as [Hio _]. split; [by rewrite (finish_handled _ _ _ _ _ _ _ _ _ Hfin (Hio Hu)), Hk|].
      destruct (Hall Hu outcome eq_refl) as [-> ->]. by rewrite Hq, concat_app, printed_chunks.
    + injection Hrun as <- <-. destruct joined; [done|].
      destruct Hr as [(_ & _ & Ho)|(error' & _ & _ & _ & Hn)]; [|by destruct Hu].
      destruct (Ho _ eq_refl) as [Hio _]. by destruct (Hio Hu error).
Qed.

End accepted.

(** ** The memory of the statistics *)
Section memory.
Context `{Sizes} `{Clocks} `{Humantime} `{!HumantimeLaws}.

(** The probes one target sends in a session that lasts at most what was asked for, at
    an interval no shorter. *)
Definition target_probes (args : ClientArgs.t) (sent : list Sent) : Prop :=
  ∃ start accepted s attempts s',
    CommonClientArgs.interval (ClientArgs.common args) <= AcceptedSessionParameters.interval accepted ∧
    (∃ d, AcceptedSessionParameters.duration accepted = Some d ∧ d <= ClientArgs.duration args) ∧
    schedule_new start accepted = Ok s ∧ timely start attempts ∧ run_attempts attempts s = Ok (sent, s').

Lemma target_probes_bound args sent :
  0 < CommonClientArgs.interval (ClientArgs.common args) → 0 <= ClientArgs.duration args → target_probes args sent →
  len sent <= (ClientArgs.duration args + (CommonClientArgs.interval (ClientArgs.common args) - 1)) /
              CommonClientArgs.interval (ClientArgs.common args).
Proof.
  intros Hi Hd (start & accepted & s & attempts & s' & Hia & (d & Hda & Hdd) & Hnew & Ht & Hrun).
  destruct (slots_on_grid start accepted s attempts sent s' ltac:(lia) Hnew Ht Hrun) as (_ & _ & Hend).
  destruct (Hend d Hda) as [_ [->|Hlen]]; (apply Z.div_le_lower_bound; [done|]).
  - change (len (@nil Sent)) with 0. lia.
  - pose proof (len_nonneg sent). destruct (decide (len sent = 0)) as [->|Hne]; [lia|].
    assert ((len sent - 1) * CommonClientArgs.interval (ClientArgs.common args) <= (len sent - 1) * AcceptedSessionParameters.interval accepted)
      by (apply Z.mul_le_mono_nonneg_l; lia). lia.
Qed.

(** The count before it saturates. *)
Lemma expected_probe_count_eq duration interval :
  0 <= duration <= DURATION_MAX → 0 < interval <= DURATION_MAX →
  expected_probe_count duration interval = Z.min ((duration + (interval - 1)) / interval) U64_MAX.
Proof.
  intros Hd Hi. unfold expected_probe_count. rewrite (proj2 (Z.eqb_neq interval 0)), (Z.max_r 0) by lia.
  rewrite (Z.min_r U128_MAX); [done|]. change U128_MAX with 340282366920938463463374607431768211455.
  change DURATION_MAX with 18446744073709551615999999999 in *. lia.
Qed.

Lemma sum_bound {A} (f : A → Z) (bound : Z) (l : list A) :
  Forall (λ x, 0 <= f x <= bound) l → 0 <= foldr Z.add 0 (f <$> l) <= bound * len l.
Proof.
  induction 1 as [|x l Hx _ IH]; [by rewrite Z.mul_0_r|]. cbn [fmap list_fmap foldr]. rewrite len_cons. lia.
Qed.

(** An unwarned finite run keeps within the memory it is not warned about. If the
    arguments of a run with statistics give no warning, then whatever the driver
    wakes up late for and whatever the sockets refuse, the probes its targets send in
    their sessions are no more than the count the estimate was made for, and what
    the statistics retain for them is estimated below 128 MiB - also where the
    counts or the estimate saturate. *)
Theorem unwarned_memory args (sessions : list (list Sent)) :
  clap_ok args → ClientArgs.no_stats args = false → ClientArgs.no_test args = false → ClientArgs.is_continuous args = false →
  Forall (target_probes args) sessions → finite_stats_memory_warning args (len sessions) = None →
  let probes := foldr Z.add 0 (len <$> sessions) in
  0 <= probes <= total_probe_count args (len sessions) ∧
  estimated_retained_bytes (stats_config false) probes < 128 * 1024 * 1024.
Proof.
  intros Hclap Hns Hnt Hco Hs Hw probes.
  set (i := CommonClientArgs.interval (ClientArgs.common args)). set (d := ClientArgs.duration args).
  assert (0 < i <= DURATION_MAX) as Hi by (eapply option_duration, cl_interval, cl_common, Hclap; by unfold DURATION_MAX, U64_MAX).
  assert (ClientArgs.continuous args = false ∧ d ≠ 0) as [Hc Hd0].
  { unfold ClientArgs.is_continuous in Hco. apply orb_false_elim in Hco as [? ?%Z.eqb_neq]. done. }
  assert (0 <= d <= DURATION_MAX) as Hd.
  { pose proof (run_duration_ok args Hclap) as Hr. unfold run_duration in Hr. rewrite Hc in Hr. exact Hr. }
  revert Hw. unfold finite_stats_memory_warning. rewrite Hns, Hnt, Hco. fold d. rewrite (proj2 (Z.eqb_neq d 0)) by done. cbn [orb].
  cbv zeta. destruct (Z.ltb_spec (estimated_retained_bytes (stats_config false) (total_probe_count args (len sessions)))
    FINITE_STATS_MEMORY_WARNING_BYTES) as [Hest|]; [|done]. intros _.
  assert (0 <= probes <= (d + (i - 1)) / i * len sessions) as Hp.
  { apply sum_bound. eapply Forall_impl; [exact Hs|]. intros sent Ht. split; [apply len_nonneg|]. apply target_probes_bound; [apply Hi|apply Hd|done]. }
  assert (0 <= len sessions) by apply len_nonneg.
  assert (0 <= (d + (i - 1)) / i) by (apply Z.div_pos; lia).
  assert (0 <= total_probe_count args (len sessions)) as Ht0 by (unfold total_probe_count, sat_u64; lia).
  assert (total_probe_count args (len sessions) ≠ U64_MAX) as Hnsat.
  { intros He. rewrite He in Hest. destruct (retention_estimate (stats_config false) U64_MAX U64_MAX) as (_ & _ & _ & Hex); [done|done|].
    rewrite (Hex eq_refl) in Hest. by vm_compute in Hest. }
  assert (probes <= total_probe_count args (len sessions)) as Hle.
  { revert Hnsat. unfold total_probe_count. fold d i. rewrite expected_probe_count_eq by done. unfold sat_u64.
    set (per := (d + (i - 1)) / i) in *. destruct (decide (per <= U64_MAX)) as [Hu|Hu]; [rewrite (Z.min_l per U64_MAX) by done; lia|].
    rewrite (Z.min_r per U64_MAX) by lia. destruct (decide (len sessions = 0)) as [Hz|Hz]; [rewrite Hz in *; lia|].
    intros []. assert (U64_MAX * 1 <= U64_MAX * len sessions) by (apply Z.mul_le_mono_nonneg_l; [by vm_compute|lia]). assert (0 <= U64_MAX) by done. lia. }
  split; [lia|]. destruct (retention_estimate (stats_config false) probes (total_probe_count args (len sessions))) as (_ & Hm & _); [lia|done|].
  unfold FINITE_STATS_MEMORY_WARNING_BYTES, MIB in Hest. lia.
Qed.
End memory.

(** ** A concrete run *)
Section example.
#[local] Existing Instances hex_crate listed_measurement listed_windows first_instant example_clocks example_sizes.
#[local] Existing Instances toy_humantime toy_humantime_laws.

#[local] Instance listed_fields : TimeStatsFields := {|
  ts_count ts := ts.1;
  ts_min_ns _ := None;
  ts_mean_ns ts := SFdiv 53 1024 (to_f64 ts.2) (to_f64 ts.1);
  ts_median_ns _ := None;
  ts_max_ns _ := None;
  ts_stddev_ns _ := f64_zero;
|}.

(** Two targets for ten seconds, a probe every two. *)
Definition finite_args : ClientArgs.t :=
  ClientArgs.mk [str "a=127.0.0.1"; str "[::1]"] false false PaceStaggered DEFAULT_CLIENT_DURATION false false false
    (from_secs 10) (from_millis 250) (from_secs 10) example_common Csv [KindLoss; KindWarning] example_columns false HeaderAuto false.
Definition finite_setup : ManagedRunSetup.t :=
  match prepare_client finite_args (λ _ _, None) with Ok (setup, _) => setup | _ => example_setup.1 end.
Definition target_a : TargetInstance.t := TargetInstance.mk (str "a") 1.
Definition failed_b : ManagedTargetOutcome.t :=
  ManagedTargetOutcome.mk (TargetInstance.mk (str "[::1]") 2) (str "[::1]") None
    (Failed (ManagedTargetFailure.mk FReceiving KTimeout (OfText "silent"))) 0 0 0 0 0 None.
Definition ended_outcome : ManagedOutcome.t := ManagedOutcome.mk TargetsComplete 0 2 1 1 0 0 [failed_b].

Definition running_turn (wake : RunWake) : RunTurn := mk_RunTurn (status_of [str "a"; str "[::1]"] None) false wake.
(** A probe of the first target is sent and lost; then the driver ends, one event still unread. *)
Definition finite_turns : list RunTurn :=
  [running_turn (OnEvent (EvClient target_a (ClientEvent.EchoSent 7 (V4 2130706433 2112) None (at_second 1) 64 1_500 None)) false (Delivered true));
   running_turn OnStatus;
   running_turn (OnEvent (EvClient target_a (ClientEvent.EchoLoss 7 (at_second 1) (from_secs 5))) false (Delivered true));
   running_turn OnStatusClosed].
Definition finite_left : list Left :=
  [LeftEvent (EvClient target_a (ClientEvent.Warning WrongToken two_lines (at_second 2))) (Delivered true)].

Definition finite_ran (config : OutputConfig.t) : option (Result RunError unit) * FiniteRun.t :=
  match finite_run finite_args finite_setup config finite_turns (inr ended_outcome) finite_left false [] with
  | Ok r => r
  | _ => (None, run_start finite_args finite_setup config)
  end.

Lemma finite_prepared : prepare_client finite_args (λ _ _, None) = Ok (finite_setup, []).
Proof. vm_compute. reflexivity. Qed.
Lemma finite_about : Forall (turn_about finite_setup) finite_turns ∧ Forall (left_about finite_setup) finite_left.
Proof. split; repeat constructor; by apply (bool_decide_unpack _); vm_compute. Qed.
Lemma finite_undisturbed : undisturbed finite_turns finite_left [].
Proof. split; [|split]; repeat constructor. Qed.
Lemma finite_ran_csv : finite_run finite_args finite_setup (example_config Csv) finite_turns (inr ended_outcome) finite_left false []
  = Ok (Some (Ok tt), (finite_ran (example_config Csv)).2).
Proof. vm_compute. reflexivity. Qed.

Lemma finite_frontend_total_witness :
  ∃ result s, finite_run finite_args finite_setup (example_config Table) finite_turns (inr ended_outcome) finite_left true [] = Ok (result, s).
Proof.
  destruct (finite_frontend_total finite_args (λ _ _, None) finite_setup [] (example_config Table) finite_turns (inr ended_outcome)
    finite_left true [] finite_prepared (proj1 finite_about) (proj2 finite_about)) as (result & s & He & _). by exists result, s.
Defined.

Lemma finite_run_stops_witness :
  ∃ s', run_turn finite_args (mk_RunTurn (status_of [str "a"] None) true OnStatus)
          (run_start finite_args finite_setup (example_config Csv)) = Ok (Break, s') ∧ stops s' = 1.
Proof.
  set (s0 := run_start finite_args finite_setup (example_config Csv)).
  set (turn := mk_RunTurn (status_of [str "a"] None) true OnStatus).
  destruct (run_turn finite_args turn s0) as [[flow s']|e|] eqn:He; [|done|by vm_compute in He].
  destruct (finite_run_stops finite_args (λ _ _, None) finite_setup [] (example_config Csv) [] turn s0 flow s' finite_prepared
    (Forall_nil_2 _) I eq_refl He) as [Hb Hs].
  exists s'. rewrite (proj1 (Hb eq_refl)). split; [reflexivity|]. apply Hs. left. reflexivity.
Defined.

(** The output of the run: the header and the rows of the lost probe and the warning. *)
Lemma finite_run_output_witness :
  StdoutWriter.queued (writer (finite_ran (example_config Csv)).2) =
    str "event,target,seq,message,event_wall_ns" ++ [NEWLINE] ++
    str "loss,a,7,timeout,1000000000" ++ [NEWLINE] ++
    str "warning,a,," ++ [DQUOTE] ++ str two_lines ++ [DQUOTE] ++ str ",2000000000" ++ [NEWLINE].
Proof.
  pose proof (proj2 (finite_run_output finite_args (λ _ _, None) finite_setup [] (example_config Csv) finite_turns (inr ended_outcome)
    finite_left false [] (Some (Ok tt)) _ finite_prepared (proj1 finite_about) (proj2 finite_about) finite_ran_csv) finite_undisturbed) as (k & Ho).
  destruct Ho as [_ Ho]. rewrite Ho. vm_compute. reflexivity.
Defined.


(** A table ends with the summary of each target. *)
Example summaries_printed :
  len (filter (λ line, starts_with (str "target: ") line)
    (default [] (read_lines [] (StdoutWriter.queued (writer (finite_ran (example_config Table)).2))))) = 2.
Proof. vm_compute. reflexivity. Qed.

(** ** Its memory *)
Lemma finite_clap : clap_ok finite_args.
Proof. destruct example_clap. by split. Qed.

Definition finite_accepted : AcceptedSessionParameters.t :=
  AcceptedSessionParameters.mk (Some (from_secs 10)) (from_secs 2) 0 ReceivedStats.None StampAt.None Clock.Both 0 None.
Definition finite_attempts : list Attempt :=
  [mk_attempt 0 true 1_000; mk_attempt (from_secs 5) true (from_secs 5); mk_attempt (from_secs 9) true (from_secs 9)].
Definition finite_sent : list Sent :=
  [mk_sent 0 0 1_000; mk_sent (from_secs 4) (from_secs 5) (from_secs 5); mk_sent (from_secs 8) (from_secs 9) (from_secs 9)].

Lemma finite_probes : target_probes finite_args finite_sent.
Proof.
  exists 0, finite_accepted, (mk_schedule (Some (from_secs 10)) (from_secs 2) (Some 0)), finite_attempts.
  eexists. split; [done|]. split; [by eexists|]. split; [vm_compute; reflexivity|]. split; [by repeat split|].
  vm_compute. reflexivity.
Qed.

Lemma unwarned_memory_witness :
  total_probe_count finite_args 2 = 10 ∧ estimated_retained_bytes (stats_config false) 6 < 128 * 1024 * 1024.
Proof.
  split; [vm_compute; reflexivity|].
  assert (finite_stats_memory_warning finite_args (len [finite_sent; finite_sent]) = None) as Hw by (vm_compute; reflexivity).
  destruct (unwarned_memory finite_args [finite_sent; finite_sent] finite_clap eq_refl eq_refl eq_refl
    (Forall_cons_2 _ _ _ finite_probes (Forall_cons_2 _ _ _ finite_probes (Forall_nil_2 _))) Hw) as [_ Hm].
  assert (foldr Z.add 0 (len <$> [finite_sent; finite_sent]) = 6) as He by (vm_compute; reflexivity). rewrite He in Hm. exact Hm.
Defined.
End example.
