(* ===== verification/AppFloat.v ===== *)
(** * irtt-app: binary64 arithmetic

    The operations on [f64] of the terminal interface's graph
    ([crates/irtt-app/src/cmd/tui/ui.rs]) and the standard library's
    [Duration::as_secs_f64], with bounds of their magnitude: an offset in seconds is
    always finite. *)

From Stdlib Require Import Floats.SpecFloat.
From S2P Require Import Prelude ClientBase StatsCore AppFormat.

(** ** Operations *)
Definition add_f64 (a b : f64) : f64 := SFadd 53 1024 a b.
Definition sub_f64 (a b : f64) : f64 := SFsub 53 1024 a b.
Definition mul_f64 (a b : f64) : f64 := SFmul 53 1024 a b.
Definition div_f64 (a b : f64) : f64 := SFdiv 53 1024 a b.
(** [f64::max] and [f64::min]: a NaN gives way. *)
Definition max_f64 (a b : f64) : f64 :=
  match a, b with
  | S754_nan, _ => b
  | _, S754_nan => a
  | _, _ => if SFltb a b then b else a
  end.
Definition min_f64 (a b : f64) : f64 :=
  match a, b with
  | S754_nan, _ => b
  | _, S754_nan => a
  | _, _ => if SFltb b a then b else a
  end.
(** [Duration::as_secs_f64]. *)
Definition as_secs_f64 (d : Z) : f64 :=
  add_f64 (to_f64 (d / 1_000_000_000)) (div_f64 (to_f64 (d mod 1_000_000_000)) (to_f64 1_000_000_000)).

(** ** Magnitudes *)
(** Below [2 ^ hi] in magnitude, and finite. *)
Definition below (hi : Z) (x : f64) : Prop :=
  match x with
  | S754_zero _ => True
  | S754_finite _ m e => Zdigits2 (Z.pos m) + e <= hi
  | _ => False
  end.

Lemma below_finite hi x : below hi x → is_finite_f64 x = true.
Proof. by destruct x. Qed.

Lemma below_mono hi hi' x : below hi x → hi <= hi' → below hi' x.
Proof. destruct x; cbn [below]; lia. Qed.

Lemma digits_spec p : 2 ^ (Zdigits2 (Z.pos p) - 1) <= Z.pos p < 2 ^ Zdigits2 (Z.pos p).
Proof.
  cbn [Zdigits2]. induction p as [p IH|p IH|]; cbn [digits2_pos]; [| |cbn; lia];
    rewrite Pos2Z.inj_succ, Z.pow_succ_r, Z.sub_1_r, Z.pred_succ by lia;
    rewrite (Z.sub_1_r (Z.pos (digits2_pos p))) in IH;
    assert (2 * 2 ^ Z.pred (Z.pos (digits2_pos p)) = 2 ^ Z.pos (digits2_pos p))
      by (rewrite <- Z.pow_succ_r, Z.succ_pred by lia; done); lia.
Qed.

Lemma digits_nonneg z : 0 <= Zdigits2 z.
Proof. by destruct z. Qed.

Lemma digits_le z k : 0 <= k → Z.abs z < 2 ^ k → Zdigits2 z <= k.
Proof.
  intros Hk Hz. assert (∀ p, Z.pos p < 2 ^ k → Zdigits2 (Z.pos p) <= k) as Hp.
  { intros p Hp. pose proof (digits_spec p) as [Hd _]. destruct (decide (Zdigits2 (Z.pos p) <= k)) as [|Hgt]; [done|].
    pose proof (Z.pow_le_mono_r 2 k (Zdigits2 (Z.pos p) - 1) ltac:(lia) ltac:(lia)). lia. }
  destruct z as [|p|p]; [done|by apply Hp|]. by apply (Hp p).
Qed.

Lemma digits_lt z : Z.abs z < 2 ^ Zdigits2 z.
Proof. destruct z as [|p|p]; [done|apply (digits_spec p)|]. apply (digits_spec p). Qed.

Lemma shr_1_digits mrs :
  0 <= shr_m mrs → 0 <= shr_m (shr_1 mrs) ∧ Zdigits2 (shr_m (shr_1 mrs)) <= Z.max 0 (Zdigits2 (shr_m mrs) - 1).
Proof. destruct mrs as [[|[p|p|]|p] r s]; cbn; lia. Qed.

Lemma iter_pos_shr p mrs :
  0 <= shr_m mrs → 0 <= shr_m (SpecFloat.iter_pos shr_1 p mrs) ∧
    Zdigits2 (shr_m (SpecFloat.iter_pos shr_1 p mrs)) <= Z.max 0 (Zdigits2 (shr_m mrs) - Z.pos p).
Proof.
  revert mrs. induction p as [p IH|p IH|]; intros mrs Hm; cbn [SpecFloat.iter_pos]; [| |by apply shr_1_digits].
  - destruct (shr_1_digits mrs Hm) as [H1 D1]. destruct (IH _ H1) as [H2 D2]. destruct (IH _ H2). lia.
  - destruct (IH _ Hm) as [H1 D1]. destruct (IH _ H1). lia.
Qed.

Lemma shr_fexp_below m e l hi :
  0 <= m → e <= hi → Zdigits2 m + e <= hi → -1074 <= hi →
  let '(mrs, e') := shr_fexp 53 1024 m e l in 0 <= shr_m mrs ∧ e' <= hi ∧ Zdigits2 (shr_m mrs) + e' <= hi.
Proof.
  intros Hm He Hd Hhi. unfold shr_fexp, fexp, emin.
  assert (shr_m (shr_record_of_loc m l) = m) as Hr by (by destruct l as [|[]]).
  destruct (Z.max _ _ - e) as [|p|p] eqn:Hn; cbn [shr]; rewrite ?Hr; [done| |done].
  destruct (iter_pos_shr p (shr_record_of_loc m l)) as [Hp Hq]; [by rewrite Hr|]. rewrite Hr in Hq. lia.
Qed.

Lemma round_digits m l : 0 <= m → 0 <= round_nearest_even m l ∧ Zdigits2 (round_nearest_even m l) <= Zdigits2 m + 1.
Proof.
  intros Hm. assert (m <= round_nearest_even m l <= m + 1) as Hb by (destruct l as [|[]]; cbn; try destruct (Z.even m); lia).
  split; [lia|]. pose proof (digits_nonneg m). apply digits_le; [lia|]. pose proof (digits_lt m).
  rewrite Z.pow_add_r by lia. change (2 ^ 1) with 2. lia.
Qed.

Lemma binary_round_aux_below s m e l hi :
  0 <= m → e <= hi → Zdigits2 m + e <= hi → -1074 <= hi <= 970 → below (hi + 1) (binary_round_aux 53 1024 s m e l).
Proof.
  intros Hm He Hd Hhi. unfold binary_round_aux. pose proof (shr_fexp_below m e l hi Hm He Hd ltac:(lia)) as H1.
  destruct (shr_fexp 53 1024 m e l) as [mrs e']. destruct H1 as (Hm1 & He1 & Hd1).
  destruct (round_digits (shr_m mrs) (loc_of_shr_record mrs) Hm1) as [Hm2 Hd2].
  pose proof (shr_fexp_below _ e' loc_Exact (hi + 1) Hm2 ltac:(lia) ltac:(lia) ltac:(lia)) as H2.
  destruct (shr_fexp 53 1024 _ e' _) as [mrs' e'']. destruct H2 as (Hm3 & He3 & Hd3).
  destruct (shr_m mrs') as [|p|p]; [done| |done]. rewrite (proj2 (Z.leb_le e'' _)) by lia. done.
Qed.

Lemma iter_xO_digits p d : Zdigits2 (Z.pos (Pos.iter xO p d)) = Zdigits2 (Z.pos p) + Z.pos d.
Proof. induction d as [|d IH] using Pos.peano_ind; [cbn; lia|]. rewrite Pos.iter_succ. cbn [Zdigits2 digits2_pos] in *. lia. Qed.

Lemma shl_align_below m e e' hi :
  Zdigits2 (Z.pos m) + e <= hi → let '(m', e'') := shl_align m e e' in Zdigits2 (Z.pos m') + e'' <= hi ∧ e'' <= e.
Proof.
  intros Hd. unfold shl_align. destruct (e' - e) as [|p|p] eqn:He; [lia|lia|]. rewrite iter_xO_digits. lia.
Qed.

Lemma binary_normalize_below z e sz hi :
  Zdigits2 z + e <= hi → e <= hi → -1074 <= hi <= 970 → below (hi + 1) (binary_normalize 53 1024 z e sz).
Proof.
  intros Hd He Hhi. destruct z as [|p|p]; [done| |]; cbn [binary_normalize]; unfold binary_round;
    pose proof (shl_align_below p e (fexp 53 1024 (Z.pos (digits2_pos p) + e)) hi Hd) as Ha;
    destruct (shl_align _ _ _) as [m' e'']; destruct Ha; apply binary_round_aux_below; lia.
Qed.

Lemma to_f64_below z k : 0 <= k <= 970 → Z.abs z < 2 ^ k → below (k + 1) (to_f64 z).
Proof. intros Hk Hz. pose proof (digits_le z k ltac:(lia) Hz). apply binary_normalize_below; lia. Qed.

Lemma aligned_below m e ez hi :
  ez <= e → Zdigits2 (Z.pos m) + e <= hi → Z.pos (fst (shl_align m e ez)) < 2 ^ (hi - ez).
Proof.
  intros He Hd. unfold shl_align. assert (Zdigits2 (Z.pos (fst (shl_align m e ez))) <= hi - ez) as Hle.
  { unfold shl_align. destruct (ez - e) as [|p|p] eqn:Hp; cbn [fst]; [lia|lia|]. rewrite iter_xO_digits. lia. }
  pose proof (digits_spec (fst (shl_align m e ez))) as [_ Hs].
  eapply Z.lt_le_trans; [exact Hs|]. apply Z.pow_le_mono_r; lia.
Qed.

Lemma add_f64_below hi a b : below hi a → below hi b → -1074 <= hi <= 968 → below (hi + 2) (add_f64 a b).
Proof.
  intros Ha Hb Hhi. assert (∀ x, below hi x → below (hi + 2) x) as Hup by (intros x Hx; apply (below_mono hi); [done|lia]).
  destruct a as [sa| | |sa ma ea], b as [sb| | |sb mb eb]; try done; cbn [add_f64 SFadd].
  - by destruct sa, sb.
  - by apply Hup.
  - by apply Hup.
  - unfold add_f64. cbn [SFadd]. cbv zeta. cbn [below] in Ha, Hb.
    pose proof (aligned_below ma ea (Z.min ea eb) hi ltac:(lia) Ha) as Hx.
    pose proof (aligned_below mb eb (Z.min ea eb) hi ltac:(lia) Hb) as Hy.
    set (x := Z.pos (fst (shl_align ma ea _))) in *. set (y := Z.pos (fst (shl_align mb eb _))) in *.
    pose proof (digits_nonneg (Z.pos ma)). pose proof (digits_nonneg (Z.pos mb)).
    replace (hi + 2) with (hi + 1 + 1) by lia. apply binary_normalize_below; [|lia|lia].
    assert (Zdigits2 (cond_Zopp sa x + cond_Zopp sb y) <= hi + 1 - Z.min ea eb); [|lia].
    apply digits_le; [lia|]. replace (hi + 1 - Z.min ea eb) with (Z.succ (hi - Z.min ea eb)) by lia.
    rewrite Z.pow_succ_r by lia. destruct sa, sb; cbn [cond_Zopp]; lia.
Qed.

(** A quotient by [m 2^e]. *)
Lemma div_f64_below hi a s m e :
  below hi a → -1074 <= hi - e <= 970 → below (hi - e + 1) (div_f64 a (S754_finite s m e)).
Proof.
  intros Ha Hhi. destruct a as [sa| | |sa ma ea]; try done. unfold div_f64. cbn [SFdiv below] in *.
  unfold SFdiv_core_binary. cbv zeta.
  set (e' := Z.min _ (ea - e)). pose proof (digits_nonneg (Z.pos ma)).
  set (m' := match ea - e - e' with 0 => _ | Z.pos _ => _ | Z.neg _ => _ end).
  assert (0 <= m' ∧ Zdigits2 m' <= Zdigits2 (Z.pos ma) + (ea - e - e')) as [Hm Hd].
  { subst m'. destruct (ea - e - e') as [|p|p] eqn:Hs; [lia| |lia]. split; [by apply Z.shiftl_nonneg|].
    apply digits_le; [lia|]. rewrite Z.shiftl_mul_pow2, Z.abs_mul, Z.pow_add_r by lia. pose proof (digits_lt (Z.pos ma)).
    rewrite (Z.abs_eq (2 ^ _)) by lia. apply Z.mul_lt_mono_pos_r; lia. }
  pose proof (Z_div_mod m' (Z.pos m) ltac:(lia)) as Hq. destruct (Z.div_eucl m' (Z.pos m)) as [q r]. destruct Hq as [Hq Hr].
  assert (0 <= q <= m') as Hqm by nia.
  assert (Zdigits2 q <= Zdigits2 m') as Hdq.
  { apply digits_le; [apply digits_nonneg|]. pose proof (digits_lt m'). lia. }
  apply binary_round_aux_below; lia.
Qed.

Lemma as_secs_f64_finite d : 0 <= d <= DURATION_MAX → is_finite_f64 (as_secs_f64 d) = true.
Proof.
  intros Hd. unfold DURATION_MAX, U64_MAX in Hd. apply (below_finite (67 + 2)). unfold as_secs_f64. apply add_f64_below; [| |lia].
  - apply (below_mono (65 + 1)); [|lia]. apply to_f64_below; [lia|]. rewrite Z.abs_eq by (apply Z.div_pos; lia).
    apply Z.div_lt_upper_bound; lia.
  - assert (to_f64 1_000_000_000 = S754_finite false 8388608000000000 (-23)) as -> by (by vm_compute).
    apply (below_mono (31 - -23 + 1)); [|lia]. apply div_f64_below; [|lia]. apply (below_mono (30 + 1)); [|lia].
    apply to_f64_below; [lia|]. pose proof (Z.mod_pos_bound d 1_000_000_000 ltac:(lia)). lia.
Qed.
