(* ===== verification/AppTuiGraph.v ===== *)
(** * irtt-app: the graph of the terminal interface

    Models the graph of [crates/irtt-app/src/cmd/tui/ui.rs]: the metrics and their
    retained samples, the viewport that is panned and zoomed over them, and the
    series a viewport shows of a target's history. Painting is ratatui's. *)

From Stdlib Require Import Floats.SpecFloat.
From stdpp Require Import sorting.
From S2P Require Import Prelude ClientBase ClientEvent Endpoint StatsCore Rolling AppTargets AppStdin AppFormat AppFloat.

(** ** Limits *)
Definition HISTORY_LIMIT : Z := 500_000.
Definition DEFAULT_GRAPH_WINDOW : Z := from_secs 60.
Definition MIN_GRAPH_WINDOW : Z := from_secs 5.
Definition MAX_GRAPH_WINDOW : Z := from_secs (24 * 60 * 60).
Definition GRAPH_WINDOWS : list Z :=
  from_secs <$> [5; 10; 15; 30; 60; 2 * 60; 5 * 60; 10 * 60; 15 * 60; 30 * 60; 60 * 60; 2 * 60 * 60; 4 * 60 * 60;
                 8 * 60 * 60; 12 * 60 * 60; 24 * 60 * 60].

(** ** Metrics and samples *)
Inductive GraphMetric : Type :=
  | EffectiveRtt | RawRtt | AdjustedRtt | ClientToServer | ServerToClient | ServerProcessing.

Module LatestSample.
Record t : Type := mk {
  generation : Z;
  timestamp : ClientTimestamp.t;
  seq : Z;
  rtt : RttSample.t;
  one_way : option OneWayDelaySample.t;
  server_processing : option Z;
}.
End LatestSample.

Inductive ChartAxisKind : Type := NonNegative | Signed.

Module Metric.
Definition ALL : list GraphMetric :=
  [EffectiveRtt; RawRtt; AdjustedRtt; ClientToServer; ServerToClient; ServerProcessing].
(** [metric as usize]. *)
Definition index (self : GraphMetric) : nat :=
  match self with
  | EffectiveRtt => 0 | RawRtt => 1 | AdjustedRtt => 2 | ClientToServer => 3 | ServerToClient => 4 | ServerProcessing => 5
  end.
Definition next (self : GraphMetric) : GraphMetric :=
  match self with
  | EffectiveRtt => RawRtt
  | RawRtt => AdjustedRtt
  | AdjustedRtt => ClientToServer
  | ClientToServer => ServerToClient
  | ServerToClient => ServerProcessing
  | ServerProcessing => EffectiveRtt
  end.
Definition label (self : GraphMetric) : string :=
  match self with
  | EffectiveRtt => "effective RTT"
  | RawRtt => "raw RTT"
  | AdjustedRtt => "adjusted RTT"
  | ClientToServer => "client to server"
  | ServerToClient => "server to client"
  | ServerProcessing => "server processing"
  end.
Definition empty_message (self : GraphMetric) : string :=
  match self with
  | EffectiveRtt | RawRtt => "waiting for primary replies"
  | AdjustedRtt => "waiting for adjusted RTT samples"
  | ClientToServer | ServerToClient => "waiting for one-way delay samples"
  | ServerProcessing => "waiting for server processing samples"
  end.
Definition value_ns (self : GraphMetric) (sample : LatestSample.t) : option Z :=
  let rtt := LatestSample.rtt sample in
  match self with
  | EffectiveRtt => Some (SignedDuration.as_nanos (RttSample.effective rtt))
  | RawRtt => Some (SignedDuration.as_nanos (SignedDuration.from_duration (RttSample.raw rtt)))
  | AdjustedRtt => SignedDuration.as_nanos <$> RttSample.adjusted rtt
  | ClientToServer => SignedDuration.as_nanos <$> (LatestSample.one_way sample ≫= OneWayDelaySample.client_to_server)
  | ServerToClient => SignedDuration.as_nanos <$> (LatestSample.one_way sample ≫= OneWayDelaySample.server_to_client)
  | ServerProcessing =>
      (λ d, SignedDuration.as_nanos (SignedDuration.from_duration d)) <$> LatestSample.server_processing sample
  end.
Definition axis_kind (self : GraphMetric) : ChartAxisKind :=
  match self with
  | RawRtt | ServerProcessing => NonNegative
  | EffectiveRtt | AdjustedRtt | ClientToServer | ServerToClient => Signed
  end.
End Metric.

(** Six values, in the order of the metrics; NaN is an absent one. *)
Module GraphSample.
Record t : Type := mk { timestamp : ClientTimestamp.t; values_ms : list f64; break_before : bool }.
Definition mono (self : t) : Z := ClientTimestamp.mono (timestamp self).
(** A missing index would panic; [values_ms] has one value per metric. *)
Definition value_ms (metric : GraphMetric) (self : t) : option f64 :=
  value ← values_ms self !! Metric.index metric;
  if is_finite_f64 value then Some value else None.
End GraphSample.

Definition ms_of_ns (ns : Z) : f64 := div_f64 (to_f64 ns) (to_f64 1_000_000).
Definition graph_sample (last_sample : option LatestSample.t) (sample : LatestSample.t) : GraphSample.t :=
  GraphSample.mk (LatestSample.timestamp sample)
    ((λ metric, match Metric.value_ns metric sample with Some ns => ms_of_ns ns | None => S754_nan end) <$> Metric.ALL)
    match last_sample with
    | None => true
    | Some last => negb (LatestSample.generation last =? LatestSample.generation sample)
    end.

(** The capacity that the queue reserves has no trace in what it holds. *)
Definition push_bounded {A} (items : list A) (item : A) (limit : Z) : list A :=
  (if len items =? limit then tail items else items) ++ [item].

(** ** The viewport *)
Inductive GraphViewportMode : Type := Follow | Historical (end_ : Z).
Module GraphViewportRange.
Record t : Type := mk { start : Z; end_ : Z; window : Z }.
End GraphViewportRange.

Definition graph_zoom_window (current : Z) (larger : bool) : Z :=
  if larger then default MAX_GRAPH_WINDOW (snd <$> list_find (λ window, current < window) GRAPH_WINDOWS)
  else default MIN_GRAPH_WINDOW (snd <$> list_find (λ window, window < current) (reverse GRAPH_WINDOWS)).

Module GraphViewport.
Section viewport.
Context `{Clocks} `{FirstInstant}.
Record t : Type := mk { mode : GraphViewportMode; window : Z }.
Definition live : t := mk Follow DEFAULT_GRAPH_WINDOW.

Definition range (now : Z) (newest_sample : option Z) (self : t) : GraphViewportRange.t :=
  let end_ := match mode self with Follow => Z.max (default now newest_sample) now | Historical end_ => end_ end in
  GraphViewportRange.mk (default end_ (instant_checked_sub end_ (window self))) end_ (window self).

Definition follow_live (self : t) : t := mk Follow (window self).

(** [Instant + Duration] panics past the last instant. *)
Definition instant_add (t d : Z) : Result Empty_set Z := expect (instant_checked_add t d).

Definition pan_by (amount : Z) (backward : bool) (oldest newest : option Z) (self : t) : Result Empty_set t :=
  match newest with
  | None => Ok self
  | Some newest =>
      let current_end := match mode self with Follow => newest | Historical end_ => end_ end in
      end_ ← (if backward then Ok (default current_end (instant_checked_sub current_end amount))
              else instant_add current_end amount);
      end_ ← match oldest with
             | Some oldest => first ← instant_add oldest (window self); Ok (Z.max end_ first)
             | None => Ok end_
             end;
      Ok (mk (Historical (Z.min end_ newest)) (window self))
  end.
Definition pan_backward (oldest newest : option Z) (self : t) := pan_by (window self / 4) true oldest newest self.
Definition pan_forward (newest : option Z) (self : t) := pan_by (window self / 4) false None newest self.
Definition page_backward (oldest newest : option Z) (self : t) := pan_by (window self) true oldest newest self.
Definition page_forward (newest : option Z) (self : t) := pan_by (window self) false None newest self.

Definition jump_oldest (oldest newest : option Z) (self : t) : Result Empty_set t :=
  match oldest with
  | None => Ok self
  | Some oldest =>
      let live_end := default oldest newest in
      end_ ← instant_add oldest (window self);
      Ok (mk (Historical (Z.min end_ live_end)) (window self))
  end.

Definition set_window (window : Z) (newest : option Z) (self : t) : t :=
  mk match mode self, newest with
     | Historical end_, Some newest => Historical (Z.min end_ newest)
     | mode, _ => mode
     end
    (Z.max MIN_GRAPH_WINDOW (Z.min window MAX_GRAPH_WINDOW)).
Definition zoom_in (newest : option Z) (self : t) : t := set_window (graph_zoom_window (window self) false) newest self.
Definition zoom_out (newest : option Z) (self : t) : t := set_window (graph_zoom_window (window self) true) newest self.
Definition reset_window (newest : option Z) (self : t) : t := set_window DEFAULT_GRAPH_WINDOW newest self.
End viewport.
End GraphViewport.

(** ** Series *)
(** The first sample of the second part; the standard library promises it for a
    history in order. *)
Fixpoint partition_point {A} (p : A → bool) (l : list A) : nat :=
  match l with
  | [] => 0
  | x :: l => if p x then S (partition_point p l) else 0
  end.

(** [Instant::duration_since]. *)
Definition since (t earlier : Z) : Z := Z.max 0 (t - earlier).

Definition interpolate_graph_value (a b : Z * f64) (at_ : Z) : f64 :=
  let whole := as_secs_f64 (since b.1 a.1) in
  if SFeqb whole f64_zero then b.2
  else
    let part := as_secs_f64 (since at_ a.1) in
    add_f64 a.2 (mul_f64 (sub_f64 b.2 a.2) (div_f64 part whole)).

Definition NAN_POINT : f64 * f64 := (S754_nan, S754_nan).
Definition ends_finite (data : list (f64 * f64)) : bool :=
  match last data with Some (x, _) => is_finite_f64 x | None => false end.

Section series.
Context (viewport : GraphViewportRange.t) (metric : GraphMetric).
Let start := GraphViewportRange.start viewport.
Let end_ := GraphViewportRange.end_ viewport.

(** The nearest sample with a value before the viewport, in its session. *)
Fixpoint predecessor (older : list GraphSample.t) : option (Z * f64) :=
  match older with
  | [] => None
  | sample :: older =>
      match GraphSample.value_ms metric sample with
      | Some value => Some (GraphSample.mono sample, value)
      | None => if GraphSample.break_before sample then None else predecessor older
      end
  end.

(** The points a sample adds after [previous]: where the segment between them enters
    and leaves the viewport, and itself. *)
Definition crossings (previous : option (Z * f64)) (point : Z * f64) : list (f64 * f64) :=
  match previous with
  | None => []
  | Some before =>
      (if (before.1 <? start) && (start <? point.1) then [(f64_zero, interpolate_graph_value before point start)] else []) ++
      (if (before.1 <? end_) && (end_ <? point.1)
       then [(as_secs_f64 (GraphViewportRange.window viewport), interpolate_graph_value before point end_)] else [])
  end.
Definition inside (point : Z * f64) : list (f64 * f64) :=
  if start <=? point.1 then [(as_secs_f64 (since point.1 start), point.2)] else [].

Fixpoint series_loop (samples : list GraphSample.t) (previous : option (Z * f64)) (data : list (f64 * f64)) : list (f64 * f64) :=
  match samples with
  | [] => data
  | sample :: samples =>
      let '(data, previous) :=
        if GraphSample.break_before sample then
          (if negb (bool_decide (data = [])) && ends_finite data then data ++ [NAN_POINT] else data, None)
        else (data, previous) in
      match GraphSample.value_ms metric sample with
      | None => series_loop samples previous data
      | Some value =>
          let point := (GraphSample.mono sample, value) in
          let data := data ++ crossings previous point in
          if end_ <? point.1 then data
          else series_loop samples (Some point) (data ++ inside point)
      end
  end.

(** A boundary after the last point is taken back. *)
Definition without_break (data : list (f64 * f64)) : list (f64 * f64) :=
  if match last data with Some (x, _) => negb (is_finite_f64 x) | None => false end then removelast data else data.

Definition target_metric_series (history : list GraphSample.t) : option (list (f64 * f64)) :=
  let first := partition_point (λ sample, GraphSample.mono sample <? start) history in
  let previous := predecessor (reverse (take first history)) in
  let data := without_break (series_loop (drop first history) previous []) in
  if bool_decide (data = []) then None else Some data.
End series.

(** The segments [ChartSeries::draw] paints: both ends are points. *)
Definition is_point (point : f64 * f64) : bool := is_finite_f64 point.1 && is_finite_f64 point.2.
Fixpoint segments_drawn (data : list (f64 * f64)) : list ((f64 * f64) * (f64 * f64)) :=
  match data with
  | a :: (b :: _) as rest => (if is_point a && is_point b then [(a, b)] else []) ++ segments_drawn rest
  | _ => []
  end.

(** ** The series, by sessions *)
(** A session starts at a sample with a break before it. *)
Fixpoint sessions (history : list GraphSample.t) : list (list GraphSample.t) :=
  match history with
  | [] => []
  | sample :: history =>
      match sessions history, history with
      | session :: later, next :: _ =>
          if GraphSample.break_before next then [sample] :: session :: later else (sample :: session) :: later
      | later, _ => [sample] :: later
      end
  end.

Section reference.
Context (viewport : GraphViewportRange.t) (metric : GraphMetric).

Definition points (session : list GraphSample.t) : list (Z * f64) :=
  omap (λ sample, pair (GraphSample.mono sample) <$> GraphSample.value_ms metric sample) session.

(** The points in the viewport, and the ends of the segments that cross its edges. *)
Fixpoint clip (previous : option (Z * f64)) (points : list (Z * f64)) : list (f64 * f64) :=
  match points with
  | [] => []
  | point :: points =>
      crossings viewport previous point ++
      (if point.1 <=? GraphViewportRange.end_ viewport then inside viewport point else []) ++ clip (Some point) points
  end.

Fixpoint with_gaps (parts : list (list (f64 * f64))) : list (f64 * f64) :=
  match parts with
  | [] => []
  | [part] => part
  | part :: parts => part ++ NAN_POINT :: with_gaps parts
  end.

(** The parts of the sessions in the viewport, with a gap between two of them. *)
Definition reference_series (history : list GraphSample.t) : list (f64 * f64) :=
  with_gaps (filter (λ part, part ≠ []) (clip None ∘ points <$> sessions history)).
End reference.

(** ** Axes *)
Definition default_y_bounds (axis_kind : ChartAxisKind) : f64 * f64 :=
  match axis_kind with NonNegative => (f64_zero, to_f64 10) | Signed => (to_f64 (-1), to_f64 1) end.

(** 0.1, and [f64::EPSILON], 2^-52. *)
Definition TENTH : f64 := div_f64 (to_f64 1) (to_f64 10).
Definition EPSILON : f64 := S754_finite false 4503599627370496 (-104).

Definition chart_y_padding (min_y max_y : f64) : f64 :=
  let span := sub_f64 max_y min_y in
  if SFleb span EPSILON then max_f64 (mul_f64 (SFabs max_y) TENTH) TENTH else max_f64 (mul_f64 span TENTH) TENTH.
Definition padded_non_negative_chart_y_bounds (min_y max_y : f64) : f64 * f64 :=
  let pad := chart_y_padding min_y max_y in
  let lower := max_f64 (sub_f64 min_y pad) f64_zero in
  let upper := add_f64 max_y pad in
  if SFltb lower upper then (lower, upper) else (f64_zero, max_f64 pad (to_f64 1)).
Definition padded_signed_chart_y_bounds (min_y max_y : f64) : f64 * f64 :=
  let pad := chart_y_padding min_y max_y in
  let min_y := sub_f64 min_y pad in
  let max_y := add_f64 max_y pad in
  if SFleb max_y min_y then (sub_f64 min_y pad, add_f64 max_y pad) else (min_y, max_y).

(** Over the data of the series shown. *)
Definition chart_y_bounds (series : list (list (f64 * f64))) (axis_kind : ChartAxisKind) : f64 * f64 :=
  let values :=
    (λ value, match axis_kind with NonNegative => max_f64 value f64_zero | Signed => value end) <$>
      filter (λ value, is_finite_f64 value = true) (snd <$> concat series) in
  match values with
  | [] => default_y_bounds axis_kind
  | first :: values =>
      let min_y := foldl min_f64 first values in
      let max_y := foldl max_f64 first values in
      match axis_kind with
      | NonNegative => padded_non_negative_chart_y_bounds min_y max_y
      | Signed => padded_signed_chart_y_bounds min_y max_y
      end
  end.

Definition viewport_x_bounds (viewport : GraphViewportRange.t) : f64 * f64 :=
  (f64_zero, max_f64 (as_secs_f64 (GraphViewportRange.window viewport)) (to_f64 1)).

Definition y_axis_label_count (height : Z) : nat :=
  let inner := Z.max 0 (height - 2) in
  if 14 <=? inner then 7 else if 9 <=? inner then 5 else if 5 <=? inner then 3 else 2.

(** ** Labels *)
Definition format_axis_time_ms (value_ms : f64) : bytes :=
  let value_ms := if SFltb (SFabs value_ms) (div_f64 (to_f64 5) (to_f64 10_000)) then f64_zero else value_ms in
  let sign := minus (SFltb value_ms f64_zero) in
  let abs_ms := SFabs value_ms in
  if SFltb abs_ms (to_f64 1) then
    let us := mul_f64 abs_ms (to_f64 1_000) in
    if SFltb us (to_f64 10) then sign ++ fixed 1 us ++ MICROSECONDS else sign ++ fixed 0 us ++ MICROSECONDS
  else if SFltb abs_ms (to_f64 1_000) then
    if SFltb abs_ms (to_f64 10) then sign ++ fixed 2 abs_ms ++ str "ms"
    else if SFltb abs_ms (to_f64 100) then sign ++ fixed 1 abs_ms ++ str "ms"
    else sign ++ fixed 0 abs_ms ++ str "ms"
  else
    let secs := div_f64 abs_ms (to_f64 1_000) in
    if SFltb secs (to_f64 10) then sign ++ fixed 2 secs ++ str "s"
    else if SFltb secs (to_f64 100) then sign ++ fixed 1 secs ++ str "s"
    else sign ++ fixed 0 secs ++ str "s".

Definition y_axis_labels (min_y max_y : f64) (label_count : nat) : list bytes :=
  let label_count := Nat.max 2 label_count in
  let step := div_f64 (sub_f64 max_y min_y) (to_f64 (Z.of_nat label_count - 1)) in
  (λ idx, format_axis_time_ms (add_f64 min_y (mul_f64 step (to_f64 (Z.of_nat idx))))) <$> seq 0 label_count.

(** [{:02}]. *)
Definition two_digits (n : Z) : bytes := let digits := decimal n in replicate (2 - length digits) 48 ++ digits.

Definition format_age (age : Z) : bytes :=
  let secs := age / 1_000_000_000 in
  if secs =? 0 then str "<1s"
  else if secs <=? 59 then decimal secs ++ str "s" else decimal (secs / 60) ++ str "m".

Definition format_span (value : Z) : bytes :=
  if value =? 0 then str "0s"
  else if value <? 1_000_000_000 then format_duration value
  else
    let secs := value / 1_000_000_000 in
    if secs <? 60 then fixed 1 (div_f64 (to_f64 value) (to_f64 1_000_000_000)) ++ str "s"
    else
      let seconds := secs mod 60 in
      let minutes := secs / 60 mod 60 in
      let hours := secs / 3600 mod 24 in
      let days := secs / 86_400 in
      if negb (days =? 0) then
        if hours =? 0 then decimal days ++ str "d" else decimal days ++ str "d" ++ two_digits hours ++ str "h"
      else if negb (hours =? 0) then
        if minutes =? 0 then decimal hours ++ str "h" else decimal hours ++ str "h" ++ two_digits minutes ++ str "m"
      else if seconds =? 0 then decimal minutes ++ str "m" else decimal minutes ++ str "m" ++ two_digits seconds ++ str "s".

Definition format_optional_hex (value : option Z) : bytes := default ABSENT (hex_text <$> value).

Example spans :
  format_span (from_millis 59_950) = str "60.0s" ∧ format_span (from_secs 3_661) = str "1h01m" ∧
  format_span (from_secs 86_400) = str "1d" ∧ format_span (from_secs 119) = str "1m59s" ∧
  format_age (from_secs 119) = str "1m" ∧
  format_axis_time_ms (to_f64 (-12)) = str "-12.0ms" ∧ y_axis_labels f64_zero (to_f64 10) 3 = [str "0.0" ++ MICROSECONDS; str "5.00ms"; str "10.0ms"].
Proof. vm_compute. done. Qed.

(** ** The series of a history in order *)
Section series_lemmas.
Context (viewport : GraphViewportRange.t) (metric : GraphMetric).
Abbreviation start := (GraphViewportRange.start viewport).
Abbreviation end_ := (GraphViewportRange.end_ viewport).
Hypothesis Hrange : start <= end_.
Hypothesis Hspan : end_ - start <= DURATION_MAX.
Hypothesis Hwindow : 0 <= GraphViewportRange.window viewport <= DURATION_MAX.

(** What a sample adds to the part of its session. *)
Definition added (previous : option (Z * f64)) (sample : GraphSample.t) : list (f64 * f64) :=
  clip viewport previous (points metric [sample]).
Definition after (previous : option (Z * f64)) (sample : GraphSample.t) : option (Z * f64) :=
  match GraphSample.value_ms metric sample with
  | Some value => Some (GraphSample.mono sample, value)
  | None => previous
  end.
Definition before (previous : option (Z * f64)) (sample : GraphSample.t) : option (Z * f64) :=
  if GraphSample.break_before sample then None else previous.

(** The rest of the part of the session of [previous], and the parts of the later
    ones. *)
Fixpoint parts (previous : option (Z * f64)) (history : list GraphSample.t)
    : list (f64 * f64) * list (list (f64 * f64)) :=
  match history with
  | [] => ([], [])
  | sample :: history =>
      let previous := before previous sample in
      let '(part, later) := parts (after previous sample) history in
      let part := added previous sample ++ part in
      if GraphSample.break_before sample then ([], part :: later) else (part, later)
  end.

Definition glue (data : list (f64 * f64)) (later : list (list (f64 * f64))) : list (f64 * f64) :=
  with_gaps (filter (λ part, part ≠ []) (data :: later)).

Lemma glue_nil later : glue [] later = with_gaps (filter (λ part, part ≠ []) later).
Proof. unfold glue. by rewrite filter_cons_False by (by intros []). Qed.

Lemma glue_skip data part later : part = [] → glue data (part :: later) = glue data later.
Proof. intros ->. unfold glue. rewrite !(filter_cons _ data), (filter_cons_False _ []) by (by intros []). done. Qed.

Lemma glue_front part later : glue [] (part :: later) = glue part later.
Proof. by rewrite glue_nil. Qed.

Lemma glue_join data part later :
  data ≠ [] → part ≠ [] → glue data (part :: later) = glue (data ++ NAN_POINT :: part) later.
Proof.
  intros Hd Hp. unfold glue. rewrite !(filter_cons_True _ data), (filter_cons_True _ part), (filter_cons_True _ (data ++ _)) by (try done; by destruct data).
  cbn [with_gaps]. destruct (filter _ later); [done|]. by rewrite <- app_assoc.
Qed.

Lemma glue_none data later : Forall (λ part, part = []) later → glue data later = data.
Proof.
  induction 1 as [|part later -> _ IH]; [|by rewrite glue_skip].
  unfold glue. rewrite filter_cons. by destruct (decide (data ≠ [])) as [|H%dec_stable].
Qed.

(** The parts are those of the sessions. *)
Lemma clip_app previous ps qs :
  clip viewport previous (ps ++ qs)
  = clip viewport previous ps ++ clip viewport (match last ps with Some p => Some p | None => previous end) qs.
Proof.
  revert previous. induction ps as [|p ps IH]; intros previous; [done|].
  cbn [app clip]. rewrite IH, <- !app_assoc, last_cons. by destruct (last ps).
Qed.

Lemma points_cons sample session : points metric (sample :: session) = points metric [sample] ++ points metric session.
Proof. unfold points. cbn [omap list_omap]. by destruct (GraphSample.value_ms metric sample). Qed.

Lemma clip_cons previous sample session :
  clip viewport previous (points metric (sample :: session))
  = added previous sample ++ clip viewport (after previous sample) (points metric session).
Proof.
  rewrite points_cons, clip_app. unfold added, after, points. cbn [omap list_omap].
  by destruct (GraphSample.value_ms metric sample).
Qed.

Lemma parts_sessions previous sample history :
  ∃ session later, sessions (sample :: history) = session :: later ∧
    let part := clip viewport (before previous sample) (points metric session) in
    let rest := clip viewport None ∘ points metric <$> later in
    parts previous (sample :: history) = if GraphSample.break_before sample then ([], part :: rest) else (part, rest).
Proof.
  revert previous sample. induction history as [|next history IH]; intros previous sample.
  { exists [sample], []. split; [done|]. cbn [parts]. by rewrite clip_cons. }
  destruct (IH (after (before previous sample) sample) next) as (session & later & Hse & Hp).
  remember (next :: history) as rest eqn:Hrest. cbn [parts]. rewrite Hp. cbn [sessions]. rewrite Hse, Hrest.
  destruct (GraphSample.break_before next) eqn:Hn.
  - exists [sample], (session :: later). split; [done|]. cbn zeta. rewrite clip_cons. unfold before. by rewrite Hn.
  - exists (sample :: session), later. split; [done|]. cbn zeta. rewrite clip_cons. unfold before. by rewrite Hn.
Qed.

Lemma reference_parts history :
  reference_series viewport metric history = let '(part, later) := parts None history in glue part later.
Proof.
  unfold reference_series. destruct history as [|sample history]; [done|].
  destruct (parts_sessions None sample history) as (session & later & -> & ->). rewrite fmap_cons. cbn [compose].
  assert (before None sample = None) as -> by (unfold before; by destruct (GraphSample.break_before sample)).
  destruct (GraphSample.break_before sample); [by rewrite glue_nil|done].
Qed.

(** Samples before the viewport add nothing, and leave the predecessor. *)
Definition nearest (previous : option (Z * f64)) (older : list GraphSample.t) : option (Z * f64) :=
  foldl (λ previous sample, after (before previous sample) sample) previous older.

Lemma nearest_predecessor older : predecessor metric (reverse older) = nearest None older.
Proof.
  induction older as [|sample older IH] using rev_ind; [done|].
  rewrite reverse_snoc. unfold nearest. rewrite foldl_app. cbn [predecessor foldl]. unfold after, before.
  fold (nearest None older). rewrite IH. destruct (GraphSample.value_ms metric sample); [done|]. done.
Qed.

Lemma added_before previous sample : GraphSample.mono sample < start → added previous sample = [].
Proof.
  intros Hlt. unfold added, points. cbn [omap list_omap]. destruct (GraphSample.value_ms metric sample) as [value|]; [|done].
  cbn [fmap option_fmap option_map clip]. unfold crossings, inside. cbn [fst snd].
  rewrite (proj2 (Z.leb_le _ end_)), (proj2 (Z.leb_gt start _)), app_nil_r by lia.
  destruct previous as [[at_ y]|]; [|done]. cbn [fst].
  by rewrite (proj2 (Z.ltb_ge start _)), (proj2 (Z.ltb_ge end_ _)), !andb_false_r by lia.
Qed.

Definition glued (previous : option (Z * f64)) (history : list GraphSample.t) : list (f64 * f64) :=
  let '(part, later) := parts previous history in glue part later.

Lemma glued_skip older history previous :
  Forall (λ sample, GraphSample.mono sample < start) older →
  glued previous (older ++ history) = glued (nearest previous older) history.
Proof.
  intros Ho. revert previous. induction Ho as [|sample older Hlt _ IH]; intros previous; [done|].
  cbn [app nearest foldl]. rewrite <- IH. unfold glued. cbn [parts]. rewrite added_before by done. fold (nearest).
  destruct (parts _ (older ++ history)) as [part later]. destruct (GraphSample.break_before sample); [|done].
  by rewrite glue_front.
Qed.

(** Samples past the viewport add nothing once the segment that leaves it is drawn. *)
Definition past (previous : option (Z * f64)) : Prop :=
  match previous with Some point => end_ < point.1 | None => True end.

Lemma added_past previous sample : past previous → end_ < GraphSample.mono sample →
  added previous sample = [] ∧ past (after previous sample).
Proof.
  intros Hp Hlt. unfold added, after, points. cbn [omap list_omap].
  destruct (GraphSample.value_ms metric sample) as [value|]; [|done].
  cbn [fmap option_fmap option_map clip]. split; [|done].
  cbn [fst]. rewrite (proj2 (Z.leb_gt _ end_)), app_nil_r by done. unfold crossings. destruct previous as [[at_ y]|]; [|done].
  cbn [past fst] in *. by rewrite (proj2 (Z.ltb_ge _ start)), (proj2 (Z.ltb_ge _ end_)) by lia.
Qed.

Lemma parts_past history previous :
  past previous → Forall (λ sample, end_ < GraphSample.mono sample) history →
  (parts previous history).1 = [] ∧ Forall (λ part, part = []) (parts previous history).2.
Proof.
  intros Hp Hh. revert previous Hp. induction Hh as [|sample history Hlt _ IH]; intros previous Hp; [by repeat constructor|].
  cbn [parts]. assert (past (before previous sample)) as Hb by (unfold before; by destruct (GraphSample.break_before sample)).
  destruct (added_past _ _ Hb Hlt) as [-> Ha]. specialize (IH _ Ha). destruct (parts _ history) as [part later].
  destruct IH as [IH1 IH2]. cbn [fst snd] in *. subst part. destruct (GraphSample.break_before sample); [|done].
  split; [done|]. by constructor.
Qed.

(** What the loop has so far is what was glued, and at most a gap after it. *)
Definition ends (data : list (f64 * f64)) : Prop := data ≠ [] ∧ ends_finite data = true.
Definition settled (data : list (f64 * f64)) : Prop :=
  data = [] ∨ ends data ∨ ∃ shown, data = shown ++ [NAN_POINT] ∧ ends shown.

Lemma ends_app data part : ends part → ends (data ++ part).
Proof.
  intros [Hne Hf]. split; [by destruct data|]. unfold ends_finite in *. rewrite last_app. destruct (last part) as [[]|] eqn:Hl; [done|].
  by apply last_None in Hl.
Qed.

Lemma without_break_ends data : ends data → without_break data = data.
Proof. intros [Hne Hf]. unfold without_break, ends_finite in *. destruct (last data) as [[x y]|]; [|done]. by rewrite Hf. Qed.

Lemma without_break_gap data : without_break (data ++ [NAN_POINT]) = data.
Proof. unfold without_break. by rewrite last_snoc, removelast_last. Qed.

Lemma added_ends previous sample : added previous sample = [] ∨ ends (added previous sample).
Proof.
  unfold added, points. cbn [omap list_omap]. destruct (GraphSample.value_ms metric sample) as [value|]; [|by left].
  cbn [fmap option_fmap option_map clip]. rewrite app_nil_r. set (point := (GraphSample.mono sample, value)).
  assert (∀ d y, 0 <= d <= DURATION_MAX → ends [(as_secs_f64 d, y)]) as Hone.
  { intros d y Hd. split; [done|]. unfold ends_finite. cbn. by apply as_secs_f64_finite. }
  assert (crossings viewport previous point = [] ∨ ends (crossings viewport previous point)) as Hc.
  { unfold crossings. destruct previous as [before|]; [|by left]. destruct (_ && (end_ <? _)).
    - right. by apply ends_app, Hone.
    - rewrite app_nil_r. destruct (_ && _); [right|by left]. apply (Hone 0). unfold DURATION_MAX, U64_MAX; lia. }
  destruct (Z.leb_spec point.1 end_); [|by rewrite app_nil_r]. unfold inside.
  destruct (Z.leb_spec start point.1); [|by rewrite app_nil_r]. right. apply ends_app, Hone. unfold since. lia.
Qed.

Lemma parts_ends previous history : (parts previous history).1 = [] ∨ ends (parts previous history).1.
Proof.
  revert previous. induction history as [|sample history IH]; intros previous; [by left|]. cbn [parts].
  specialize (IH (after (before previous sample) sample)). destruct (parts _ history) as [part later]. cbn [fst] in IH.
  destruct (GraphSample.break_before sample); [by left|]. cbn [fst].
  destruct IH as [->|Hp]; [rewrite app_nil_r; apply added_ends|]. right. by apply ends_app.
Qed.

(** A gap is opened after data that has none yet. *)
Definition gap (data : list (f64 * f64)) : list (f64 * f64) :=
  if negb (bool_decide (data = [])) && ends_finite data then data ++ [NAN_POINT] else data.

Lemma gap_ends data : ends data → gap data = data ++ [NAN_POINT].
Proof. intros [Hne Hf]. unfold gap. by rewrite bool_decide_false, Hf. Qed.

Lemma gap_gap shown : gap (shown ++ [NAN_POINT]) = shown ++ [NAN_POINT].
Proof. unfold gap, ends_finite. by rewrite last_snoc, andb_false_r. Qed.

Lemma gap_settled data : settled data → settled (gap data).
Proof.
  intros [->|[He|(shown & -> & He)]]; [by left| |].
  - rewrite gap_ends by done. right. right. by exists data.
  - rewrite gap_gap. right. right. by exists shown.
Qed.

Lemma settled_app data part : settled data → part = [] ∨ ends part → settled (data ++ part).
Proof. intros Hs [->|He]; [by rewrite app_nil_r|]. right. left. by apply ends_app. Qed.

Lemma glue_gap data part later :
  settled data → part = [] ∨ ends part →
  glue (without_break (gap data ++ part)) later = glue (without_break data) (part :: later).
Proof.
  intros Hs [->|Hp].
  { rewrite glue_skip, app_nil_r by done. f_equal. destruct Hs as [->|[He|(shown & -> & He)]]; [done| |by rewrite gap_gap].
    by rewrite gap_ends, without_break_gap, without_break_ends. }
  rewrite without_break_ends by (by apply ends_app). destruct Hs as [->|[He|(shown & -> & He)]]; [done| |].
  - rewrite gap_ends, without_break_ends, <- app_assoc by done. symmetry. by apply glue_join; [apply He|apply Hp].
  - rewrite gap_gap, without_break_gap, <- app_assoc. symmetry. by apply glue_join; [apply He|apply Hp].
Qed.

Definition leaves (sample : GraphSample.t) : bool :=
  match GraphSample.value_ms metric sample with Some _ => end_ <? GraphSample.mono sample | None => false end.

Lemma series_step sample history previous data :
  series_loop viewport metric (sample :: history) previous data
  = let next := (if GraphSample.break_before sample then gap data else data) ++ added (before previous sample) sample in
    if leaves sample then next
    else series_loop viewport metric history (after (before previous sample) sample) next.
Proof.
  cbn [series_loop]. unfold before, gap, leaves, added, after, points.
  assert (∀ (b : bool) (x y : list (f64 * f64)) (p : option (Z * f64)), (if b then (x, None) else (y, p)) = (if b then x else y, if b then None else p)) as ->
    by (by intros []).
  cbn [omap list_omap]. destruct (GraphSample.value_ms metric sample) as [value|]; cbn [fmap option_fmap option_map clip fst]; [|by rewrite app_nil_r].
  rewrite app_nil_r. destruct (Z.ltb_spec end_ (GraphSample.mono sample)).
  - rewrite (proj2 (Z.leb_gt _ _)) by done. by rewrite app_nil_r.
  - rewrite (proj2 (Z.leb_le _ _)) by done. by rewrite app_assoc.
Qed.

Lemma loop_glued history previous data :
  StronglySorted Z.le (GraphSample.mono <$> history) → settled data →
  without_break (series_loop viewport metric history previous data)
  = glue (without_break (data ++ (parts previous history).1)) (parts previous history).2.
Proof.
  revert previous data. induction history as [|sample history IH]; intros previous data Hsort Hs.
  { cbn [parts series_loop fst snd]. by rewrite app_nil_r, glue_none. }
  rewrite fmap_cons in Hsort. apply StronglySorted_inv in Hsort as [Hsort Hle]. rewrite series_step. cbv zeta.
  pose proof (added_ends (before previous sample) sample) as Ha. set (next := _ ++ added _ _).
  assert (without_break (if leaves sample then next
      else series_loop viewport metric history (after (before previous sample) sample) next)
    = glue (without_break (next ++ (parts (after (before previous sample) sample) history).1))
        (parts (after (before previous sample) sample) history).2) as ->.
  { destruct (leaves sample) eqn:Hl.
    - unfold leaves in Hl. unfold after. destruct (GraphSample.value_ms metric sample) as [value|]; [|done]. apply Z.ltb_lt in Hl.
      destruct (parts_past history (Some (GraphSample.mono sample, value))) as [-> Hall]; [done| |].
      { rewrite Forall_fmap in Hle. eapply Forall_impl; [exact Hle|]. cbn. lia. }
      by rewrite app_nil_r, glue_none.
    - apply IH; [done|]. apply settled_app; [|done]. destruct (GraphSample.break_before sample); [by apply gap_settled|done]. }
  subst next. cbn [parts]. pose proof (parts_ends (after (before previous sample) sample) history) as Hp.
  destruct (parts (after _ sample) history) as [part later]. cbn [fst] in Hp. rewrite <- app_assoc.
  destruct (GraphSample.break_before sample) eqn:Hb; cbn [fst snd]; [|done].
  rewrite app_nil_r. apply glue_gap; [done|]. destruct Hp as [->|Hp]; [by rewrite app_nil_r|]. right. by apply ends_app.
Qed.

Lemma glued_reference history : glued None history = reference_series viewport metric history.
Proof. by rewrite reference_parts. Qed.

Lemma partition_before history :
  Forall (λ sample, GraphSample.mono sample < start)
    (take (partition_point (λ sample, GraphSample.mono sample <? start) history) history).
Proof.
  induction history as [|sample history IH]; [constructor|]. cbn [partition_point].
  destruct (Z.ltb_spec (GraphSample.mono sample) start); [by constructor|constructor].
Qed.

Lemma StronglySorted_drop {A} (R : relation A) n l : StronglySorted R l → StronglySorted R (drop n l).
Proof. intros Hl. revert n. induction Hl as [|x l Hl IH Hx]; intros [|n]; try constructor; [done|done|apply IH]. Qed.

Lemma series_reference history :
  StronglySorted Z.le (GraphSample.mono <$> history) →
  target_metric_series viewport metric history
  = let data := reference_series viewport metric history in if bool_decide (data = []) then None else Some data.
Proof.
  intros Hsort. unfold target_metric_series. cbv zeta. rewrite nearest_predecessor.
  set (n := partition_point _ history). rewrite loop_glued; [|rewrite fmap_drop; by apply StronglySorted_drop|by left].
  assert (glued (nearest None (take n history)) (drop n history) = reference_series viewport metric history) as Hg.
  { rewrite <- glued_skip, take_drop by (by apply partition_before). apply glued_reference. }
  unfold glued in Hg. cbn [app]. destruct (parts_ends (nearest None (take n history)) (drop n history)) as [He|He];
    destruct (parts _ (drop n history)) as [part later]; cbn [fst snd] in *.
  - subst part. assert (without_break [] = []) as -> by done. by rewrite Hg.
  - by rewrite without_break_ends, Hg.
Qed.
End series_lemmas.

(** ** The viewport *)
Lemma graph_windows_bounds : Forall (λ window, MIN_GRAPH_WINDOW <= window <= MAX_GRAPH_WINDOW) GRAPH_WINDOWS.
Proof. repeat constructor; vm_compute; congruence. Qed.

Lemma zoom_window_bounds current larger :
  MIN_GRAPH_WINDOW <= graph_zoom_window current larger <= MAX_GRAPH_WINDOW.
Proof.
  assert (MIN_GRAPH_WINDOW <= MAX_GRAPH_WINDOW) by (vm_compute; congruence).
  pose proof graph_windows_bounds as Hw. unfold graph_zoom_window.
  destruct larger; destruct (list_find _ _) as [[i w]|] eqn:Hf; cbn; try lia; apply list_find_Some in Hf as (Hi & _ & _).
  - by apply (Forall_lookup_1 _ _ _ _ Hw Hi).
  - apply Forall_reverse in Hw. by apply (Forall_lookup_1 _ _ _ _ Hw Hi).
Qed.

Module ViewportLemmas.
Import GraphViewport.
Section viewport.
Context `{Clocks} `{FirstInstant} (latest : Z).
Hypothesis Hlatest : latest + MAX_GRAPH_WINDOW <= INSTANT_MAX.

(** A window of the range, and an end no later than [latest]. *)
Definition viewport_ok (self : GraphViewport.t) : Prop :=
  MIN_GRAPH_WINDOW <= window self <= MAX_GRAPH_WINDOW ∧
  match mode self with Follow => True | Historical end_ => end_ <= latest end.
Definition until (sample : option Z) : Prop := match sample with Some at_ => at_ <= latest | None => True end.

Lemma instant_add_ok t d : t <= latest → d <= MAX_GRAPH_WINDOW → instant_add t d = Ok (t + d).
Proof. intros Ht Hd. unfold instant_add, instant_checked_add. by rewrite (proj2 (Z.leb_le _ _)) by lia. Qed.

Lemma live_ok : viewport_ok live.
Proof. split; [vm_compute; split; congruence|done]. Qed.

Lemma follow_live_ok self : viewport_ok self → viewport_ok (follow_live self).
Proof. by intros [Hw _]. Qed.

Lemma pan_by_ok amount backward oldest newest self :
  viewport_ok self → 0 <= amount <= window self → until oldest → until newest →
  ∃ self', pan_by amount backward oldest newest self = Ok self' ∧ viewport_ok self'.
Proof.
  intros [Hw Hm] Ha Ho Hn. unfold pan_by. destruct newest as [newest|]; [|by exists self]. cbn [until] in Hn.
  set (current := match mode self with Follow => newest | Historical end_ => end_ end).
  assert (current <= latest) by (subst current; by destruct (mode self)).
  assert (∃ end_, (if backward then Ok (default current (instant_checked_sub current amount)) else instant_add current amount) = Ok end_) as [end_ ->].
  { destruct backward; [eauto|]. rewrite instant_add_ok by lia. eauto. }
  cbn [mbind Result_bind]. assert (∀ e, viewport_ok (mk (Historical (Z.min e newest)) (window self))) as Hok.
  { intros e. split; [done|]. cbn. lia. }
  destruct oldest as [oldest|]; [|eexists; split; [done|apply Hok]].
  rewrite instant_add_ok by (done || lia). eexists; split; [done|apply Hok].
Qed.

Lemma jump_oldest_ok oldest newest self :
  viewport_ok self → until oldest → until newest →
  ∃ self', jump_oldest oldest newest self = Ok self' ∧ viewport_ok self'.
Proof.
  intros [Hw Hm] Ho Hn. unfold jump_oldest. destruct oldest as [oldest|]; [|by exists self].
  rewrite instant_add_ok by (done || lia). eexists. split; [done|]. split; [done|]. cbn. destruct newest; cbn in *; lia.
Qed.

Lemma set_window_ok w newest self : viewport_ok self → until newest → viewport_ok (set_window w newest self).
Proof.
  intros [Hw Hm] Hn. assert (MIN_GRAPH_WINDOW <= MAX_GRAPH_WINDOW) by (vm_compute; congruence). split; cbn; [lia|].
  destruct (mode self), newest; cbn in *; [done|done|lia|done].
Qed.
End viewport.
End ViewportLemmas.

(** ** What is painted *)
Lemma segments_gap a b : segments_drawn (a ++ NAN_POINT :: b) = segments_drawn a ++ segments_drawn b.
Proof.
  induction a as [|x a IH]; [by destruct b|]. destruct a as [|y a]; cbn [app segments_drawn] in *.
  - rewrite andb_false_r. exact IH.
  - by rewrite <- app_assoc, <- IH.
Qed.

Lemma segments_parts parts : segments_drawn (with_gaps (filter (λ part, part ≠ []) parts)) = parts ≫= segments_drawn.
Proof.
  induction parts as [|part parts IH]; [done|]. cbn [mbind list_bind]. rewrite <- IH, filter_cons. case_decide as Hp.
  - cbn [with_gaps]. destruct (filter _ parts) as [|next later]; [cbn; by rewrite app_nil_r|]. by rewrite segments_gap.
  - by subst part.
Qed.

(** C38: the graph shows each session's samples, and never joins two. For a history in
    order and the viewport of any zoom and position, the series found by skipping the
    samples before the viewport, looking back for the one the first segment starts
    from, and stopping past its end, is the one that clips every session's values to
    the viewport - the points inside, and where a segment crosses an edge - and puts a
    gap between the sessions that have any; what is painted of it are the segments of
    each session. *)
Theorem series_shows_sessions `{FirstInstant} now newest graph metric history :
  MIN_GRAPH_WINDOW <= GraphViewport.window graph <= MAX_GRAPH_WINDOW →
  StronglySorted Z.le (GraphSample.mono <$> history) →
  let viewport := GraphViewport.range now newest graph in
  target_metric_series viewport metric history
    = (let data := reference_series viewport metric history in if bool_decide (data = []) then None else Some data) ∧
  segments_drawn (reference_series viewport metric history)
    = sessions history ≫= λ session, segments_drawn (clip viewport None (points metric session)).
Proof.
  intros Hw Hsort viewport. split; [|unfold reference_series; rewrite segments_parts; by rewrite list_fmap_bind]. assert (0 <= GraphViewport.window graph <= DURATION_MAX) as Hd.
  { assert (0 <= MIN_GRAPH_WINDOW ∧ MAX_GRAPH_WINDOW <= DURATION_MAX) by (split; vm_compute; discriminate). lia. }
  assert (GraphViewportRange.window viewport = GraphViewport.window graph) as Hwin by done.
  assert (GraphViewportRange.start viewport <= GraphViewportRange.end_ viewport ∧
    GraphViewportRange.end_ viewport - GraphViewportRange.start viewport <= DURATION_MAX) as [Hr Hs].
  { subst viewport. unfold GraphViewport.range, instant_checked_sub. cbn [GraphViewportRange.start GraphViewportRange.end_].
    destruct (INSTANT_MIN <=? _); cbn [default from_option id]; lia. }
  apply series_reference; [done..|by rewrite Hwin|done].
Qed.

Section example.
#[local] Existing Instance first_instant.

(** A session with samples before, in and past the edge of the viewport; one whose
    first reply lacks the metric; and one past its end. *)
Definition sample_at (second ms : Z) (break : bool) : GraphSample.t :=
  GraphSample.mk (ClientTimestamp.mk (from_secs second) (from_secs second)) (replicate 6 (to_f64 ms)) break.
Definition absent_at (second : Z) (break : bool) : GraphSample.t :=
  GraphSample.mk (ClientTimestamp.mk (from_secs second) (from_secs second)) (replicate 6 S754_nan) break.
Definition example_history : list GraphSample.t :=
  [sample_at 1 9 true; sample_at 4 2 false; sample_at 6 4 false; absent_at 7 true; sample_at 8 6 false; sample_at 12 8 false;
   sample_at 13 1 true].
Definition example_viewport : GraphViewport.t := GraphViewport.mk (Historical (from_secs 10)) (from_secs 5).

(** From 5 s to 10 s: entering at 3 ms, 4 ms at one second, a gap, 6 ms at three, and
    leaving at 7 ms. *)
Lemma series_shows_sessions_witness :
  target_metric_series (GraphViewport.range (from_secs 20) None example_viewport) EffectiveRtt example_history
  = Some [(to_f64 0, to_f64 3); (to_f64 1, to_f64 4); NAN_POINT; (to_f64 3, to_f64 6); (to_f64 5, to_f64 7)].
Proof.
  destruct (series_shows_sessions (from_secs 20) None example_viewport EffectiveRtt example_history) as [Hs _].
  - vm_compute. split; discriminate.
  - repeat constructor; vm_compute; discriminate.
  - rewrite Hs. vm_compute. reflexivity.
Defined.
End example.
