(* ===== verification/AppTui.v ===== *)
(** * irtt-app: the state of the terminal interface

    Models the state of [crates/irtt-app/src/cmd/tui/ui.rs]: a target's status,
    statistics and graph history, and the handlers that take the driver's events,
    outcomes and statuses. Text stays in pieces where it renders a failure. *)

From Stdlib Require Import Floats.SpecFloat.
From stdpp Require Import sorting.
From S2P Require Import Prelude ClientBase ClientEvent ClientNegotiation ManagedBase ManagedTask Endpoint.
From S2P Require Import StatsEvents StatsCore Rolling Collector AppTargets AppStdin AppStream AppArgs AppFormat AppFloat AppTuiGraph.

Definition RECENT_EVENT_LIMIT : Z := 80.

(** ** Text *)
Inductive Piece : Type := Plain (text : bytes) | Rendered (message : FailureMessage).
Abbreviation Text := (list Piece) (only parsing).
Definition plain (text : bytes) : Text := [Plain text].
(** ["{label}: {text}"]. *)
Definition labelled (label : bytes) (text : Text) : Text := Plain (label ++ str ": ") :: text.

Definition phase_text (phase : ManagedTargetFailurePhase) : string :=
  match phase with
  | FConnecting => "connecting"
  | FOpening => "opening"
  | FSending => "sending"
  | FReceiving => "receiving"
  | FTiming => "timing"
  | FClosing => "closing"
  end.
Definition kind_text (kind : ManagedTargetFailureKind) : string :=
  match kind with
  | KResolve => "resolve"
  | KSocket => "socket"
  | KSocketOption => "socket option"
  | KProtocol => "protocol"
  | KTimeout => "timeout"
  | KConfiguration => "configuration"
  | KResourceExhausted => "resource exhausted"
  | KInvalidState => "invalid state"
  | KOther => "other"
  end.
(** [{kind:?}] of a [WarningKind]. *)
Definition warning_kind_debug (kind : WarningKind) : string :=
  match kind with
  | MalformedOrUnrelatedPacket => "MalformedOrUnrelatedPacket"
  | WrongToken => "WrongToken"
  | UntrackedReply => "UntrackedReply"
  end.

(** [Iterator::min] and [max]. *)
Definition min_of (l : list Z) : option Z := match l with [] => None | x :: l => Some (foldl Z.min x l) end.
Definition max_of (l : list Z) : option Z := match l with [] => None | x :: l => Some (foldl Z.max x l) end.

(** ** Statuses *)
Module TargetStatus.
Inductive t : Type := Opening | Active | Closed | Failed | NoTest | Stopped | Removed | Replaced | Unknown.
Definition label (self : t) : string :=
  match self with
  | Opening => "opening"
  | Active => "active"
  | Closed => "closed"
  | Failed => "failed"
  | NoTest => "no-test"
  | Stopped => "stopped"
  | Removed => "removed"
  | Replaced => "replaced"
  | Unknown => "unknown"
  end.
Definition is_terminal (self : t) : bool :=
  match self with Closed | Failed | NoTest | Stopped | Removed | Replaced => true | Opening | Active | Unknown => false end.
Definition is_success (self : t) : bool := match self with Closed | NoTest => true | _ => false end.
Definition is_failed (self : t) : bool := match self with Failed => true | _ => false end.
#[global] Instance target_status_eq_dec : EqDecision t.
Proof. solve_decision. Defined.
End TargetStatus.

Module TuiStatus.
Inductive t : Type := Opening | Running | Interrupted | Closing | Complete | Error.
Definition label (self : t) : string :=
  match self with
  | Opening => "opening"
  | Running => "running"
  | Interrupted => "interrupted"
  | Closing => "closing"
  | Complete => "complete"
  | Error => "error"
  end.
End TuiStatus.

Definition pacing_label (self : GroupPacingArg) : string :=
  match self with PaceStaggered => "staggered" | PaceBurst => "burst" end.

(** Late replies are counted and not measured. *)
Definition tui_stats_config (continuous : bool) : StatsConfig.t :=
  let base := if continuous then StatsConfig.continuous else StatsConfig.finite in
  StatsConfig.mk (StatsConfig.samples base) (StatsConfig.rolling_count base) (StatsConfig.rolling_time base) CountOnly.

Module TuiConfig.
Record t : Type := mk {
  interval : Z;
  duration : option Z;
  timeout : Z;
  target_probes : option Z;
  pacing : GroupPacingArg;
}.
Definition continuous (self : t) : bool := bool_decide (duration self = None).
End TuiConfig.

(** ** One target *)
Module TuiTargetState.
Section target.
Context `{Measurement} `{CountWindows} `{FirstInstant}.
Record t : Type := mk {
  label : bytes;
  generation : option Z;
  terminal_generation : option Z;
  remote : option bytes;
  session : option bytes;
  status : TargetStatus.t;
  negotiated : option NegotiationResult.t;
  graph_history : list GraphSample.t;
  last_sample : option LatestSample.t;
  last_warning : option Text;
  stats : StatsCollector.t;
}.
Definition new (label : bytes) (stats_config : StatsConfig.t) : t :=
  mk label None None None None TargetStatus.Opening None [] None None (StatsCollector.new stats_config).

Definition set_generation v (s : t) : t :=
  mk (label s) v (terminal_generation s) (remote s) (session s) (status s) (negotiated s) (graph_history s) (last_sample s) (last_warning s) (stats s).
Definition set_terminal v (s : t) : t :=
  mk (label s) (generation s) v (remote s) (session s) (status s) (negotiated s) (graph_history s) (last_sample s) (last_warning s) (stats s).
Definition set_remote v (s : t) : t :=
  mk (label s) (generation s) (terminal_generation s) v (session s) (status s) (negotiated s) (graph_history s) (last_sample s) (last_warning s) (stats s).
Definition set_session v (s : t) : t :=
  mk (label s) (generation s) (terminal_generation s) (remote s) v (status s) (negotiated s) (graph_history s) (last_sample s) (last_warning s) (stats s).
Definition set_status v (s : t) : t :=
  mk (label s) (generation s) (terminal_generation s) (remote s) (session s) v (negotiated s) (graph_history s) (last_sample s) (last_warning s) (stats s).
Definition set_negotiated v (s : t) : t :=
  mk (label s) (generation s) (terminal_generation s) (remote s) (session s) (status s) v (graph_history s) (last_sample s) (last_warning s) (stats s).
Definition set_history v (s : t) : t :=
  mk (label s) (generation s) (terminal_generation s) (remote s) (session s) (status s) (negotiated s) v (last_sample s) (last_warning s) (stats s).
Definition set_last_sample v (s : t) : t :=
  mk (label s) (generation s) (terminal_generation s) (remote s) (session s) (status s) (negotiated s) (graph_history s) v (last_warning s) (stats s).
Definition set_warning v (s : t) : t :=
  mk (label s) (generation s) (terminal_generation s) (remote s) (session s) (status s) (negotiated s) (graph_history s) (last_sample s) v (stats s).
Definition set_stats v (s : t) : t :=
  mk (label s) (generation s) (terminal_generation s) (remote s) (session s) (status s) (negotiated s) (graph_history s) (last_sample s) (last_warning s) v.

(** A generation starts over. *)
Definition begin_generation (generation : Z) (stats_config : StatsConfig.t) (s : t) : t :=
  set_negotiated None (set_session None (set_stats (StatsCollector.new stats_config) (set_generation (Some generation) s))).

Definition process_session_metadata (event : ClientEvent.t) (s : t) : t :=
  match event with
  | ClientEvent.SessionStarted started =>
      set_negotiated (Some (SessionStarted.negotiation started))
        (set_session (Some (hex_text (SessionStarted.token started)))
           (set_remote (Some (socket_addr_text (SessionStarted.remote started))) s))
  | ClientEvent.NoTestCompleted completed =>
      set_negotiated (Some (NoTestCompleted.negotiation completed))
        (set_remote (Some (socket_addr_text (NoTestCompleted.remote completed))) s)
  | ClientEvent.SessionClosed remote token _ =>
      set_session (Some (hex_text token)) (set_remote (Some (socket_addr_text remote)) s)
  | _ => s
  end.

Definition push_graph_sample (sample : LatestSample.t) (s : t) : t :=
  let history := graph_sample (last_sample s) sample in
  set_history (push_bounded (graph_history s) history HISTORY_LIMIT) (set_last_sample (Some sample) s).
End target.
End TuiTargetState.

(** ** The dashboard *)
(** What the state is shown of the driver. *)
Inductive TuiOp : Type :=
  | OpEvent (target : TargetInstance.t) (event : ClientEvent.t)
  | OpOutcome (outcome : ManagedTargetOutcome.t)
  | OpOpening (target : TargetInstance.t)
  | OpStatus (status : ManagedStatus.t).

Module TuiState.
Section state.
Context `{Measurement} `{CountWindows} `{FirstInstant}.
Record t : Type := mk {
  status : TuiStatus.t;
  started_at : Z;
  config : TuiConfig.t;
  target_index : gmap bytes nat;
  targets : list TuiTargetState.t;
  recent_events : list Text;
  last_warning : option Text;
  dropped_events : Z;
  graph_metric : GraphMetric;
  graph_viewport : GraphViewport.t;
  selected_target : Z;
  details_open : bool;
  details_scroll : Z * Z;
  paused : bool;
}.
Definition set_status v (s : t) : t :=
  mk v (started_at s) (config s) (target_index s) (targets s) (recent_events s) (last_warning s) (dropped_events s) (graph_metric s) (graph_viewport s) (selected_target s) (details_open s) (details_scroll s) (paused s).
Definition add_target target (s : t) : t :=
  mk (status s) (started_at s) (config s) (<[TuiTargetState.label target := length (targets s)]> (target_index s)) (targets s ++ [target]) (recent_events s) (last_warning s) (dropped_events s) (graph_metric s) (graph_viewport s) (selected_target s) (details_open s) (details_scroll s) (paused s).
Definition set_targets v (s : t) : t :=
  mk (status s) (started_at s) (config s) (target_index s) v (recent_events s) (last_warning s) (dropped_events s) (graph_metric s) (graph_viewport s) (selected_target s) (details_open s) (details_scroll s) (paused s).
Definition set_recent v (s : t) : t :=
  mk (status s) (started_at s) (config s) (target_index s) (targets s) v (last_warning s) (dropped_events s) (graph_metric s) (graph_viewport s) (selected_target s) (details_open s) (details_scroll s) (paused s).
Definition set_warning v (s : t) : t :=
  mk (status s) (started_at s) (config s) (target_index s) (targets s) (recent_events s) v (dropped_events s) (graph_metric s) (graph_viewport s) (selected_target s) (details_open s) (details_scroll s) (paused s).
Definition set_dropped v (s : t) : t :=
  mk (status s) (started_at s) (config s) (target_index s) (targets s) (recent_events s) (last_warning s) v (graph_metric s) (graph_viewport s) (selected_target s) (details_open s) (details_scroll s) (paused s).
Definition set_metric v (s : t) : t :=
  mk (status s) (started_at s) (config s) (target_index s) (targets s) (recent_events s) (last_warning s) (dropped_events s) v (graph_viewport s) (selected_target s) (details_open s) (details_scroll s) (paused s).
Definition set_viewport v (s : t) : t :=
  mk (status s) (started_at s) (config s) (target_index s) (targets s) (recent_events s) (last_warning s) (dropped_events s) (graph_metric s) v (selected_target s) (details_open s) (details_scroll s) (paused s).
Definition set_selected v (s : t) : t :=
  mk (status s) (started_at s) (config s) (target_index s) (targets s) (recent_events s) (last_warning s) (dropped_events s) (graph_metric s) (graph_viewport s) v (details_open s) (details_scroll s) (paused s).
Definition set_details v (s : t) : t :=
  mk (status s) (started_at s) (config s) (target_index s) (targets s) (recent_events s) (last_warning s) (dropped_events s) (graph_metric s) (graph_viewport s) (selected_target s) v (details_scroll s) (paused s).
Definition set_scroll v (s : t) : t :=
  mk (status s) (started_at s) (config s) (target_index s) (targets s) (recent_events s) (last_warning s) (dropped_events s) (graph_metric s) (graph_viewport s) (selected_target s) (details_open s) v (paused s).
Definition set_paused v (s : t) : t :=
  mk (status s) (started_at s) (config s) (target_index s) (targets s) (recent_events s) (last_warning s) (dropped_events s) (graph_metric s) (graph_viewport s) (selected_target s) (details_open s) (details_scroll s) v.

Definition collector_config (s : t) : StatsConfig.t := tui_stats_config (TuiConfig.continuous (config s)).

(** [now] is [Instant::now()]. *)
Definition with_target_labels (config : TuiConfig.t) (labels : list bytes) (now : Z) : Result Empty_set t :=
  let stats_config := tui_stats_config (TuiConfig.continuous config) in
  let targets := (λ label, TuiTargetState.new label stats_config) <$> labels in
  if bool_decide (targets = []) then Panic
  else
    let target_index := foldl (λ index '(idx, target), <[TuiTargetState.label target := idx]> index) ∅ (imap pair targets) in
    Ok (mk TuiStatus.Opening now config target_index targets [] None 0 EffectiveRtt GraphViewport.live 0 false (0, 0) false).

(** [targets[idx]] read and written: out of range, a panic. *)
Definition target_at (idx : nat) (s : t) : Result Empty_set TuiTargetState.t := expect (targets s !! idx).
Definition update_target (idx : nat) (target : TuiTargetState.t) (s : t) : t := set_targets (<[idx := target]> (targets s)) s.

Definition push_event (event : Text) (s : t) : t := set_recent (push_bounded (recent_events s) event RECENT_EVENT_LIMIT) s.

Definition ensure_target (label : bytes) (s : t) : nat * t :=
  match target_index s !! label with
  | Some idx => (idx, s)
  | None =>
      let target := TuiTargetState.new label (collector_config s) in
      (length (targets s), add_target (TuiTargetState.set_status TargetStatus.Unknown target) s)
  end.

Definition accept_generation (idx : nat) (generation : Z) (s : t) : Result Empty_set (bool * t) :=
  target ← target_at idx s;
  let refused := match TuiTargetState.generation target with Some current => generation <? current | None => false end in
  if refused then Ok (false, s)
  else if bool_decide (TuiTargetState.generation target = Some generation) then Ok (true, s)
  else Ok (true, update_target idx (TuiTargetState.begin_generation generation (collector_config s) target) s).

Definition is_lifecycle (event : ClientEvent.t) : bool :=
  match event with
  | ClientEvent.SessionStarted _ | ClientEvent.NoTestCompleted _ | ClientEvent.SessionClosed _ _ _ => true
  | _ => false
  end.

(** What an event makes of its target: the target, the run's status and warning it
    brings, and the line for the recent events. *)
Definition target_event (event : ClientEvent.t) (target : TuiTargetState.t)
    : Result Empty_set (TuiTargetState.t * option TuiStatus.t * option Text * Text) :=
  let target := TuiTargetState.set_stats (StatsCollector.process event (TuiTargetState.stats target)).2 target in
  match event with
  | ClientEvent.SessionStarted started =>
      let token := hex_text (SessionStarted.token started) in
      Ok (TuiTargetState.set_status TargetStatus.Active
            (TuiTargetState.set_negotiated (Some (SessionStarted.negotiation started))
              (TuiTargetState.set_session (Some token)
                (TuiTargetState.set_remote (Some (socket_addr_text (SessionStarted.remote started))) target))),
          Some TuiStatus.Running, None, plain (str "session started token=" ++ token))
  | ClientEvent.NoTestCompleted completed =>
      Ok (TuiTargetState.set_status TargetStatus.NoTest
            (TuiTargetState.set_negotiated (Some (NoTestCompleted.negotiation completed))
              (TuiTargetState.set_remote (Some (socket_addr_text (NoTestCompleted.remote completed))) target)),
          Some TuiStatus.Complete, None, plain (str "no-test negotiation completed"))
  | ClientEvent.SessionClosed _ token _ =>
      Ok (TuiTargetState.set_status TargetStatus.Closed (TuiTargetState.set_session (Some (hex_text token)) target),
          Some TuiStatus.Complete, None, plain (str "session closed token=" ++ hex_text token))
  | ClientEvent.EchoSent seq _ _ _ bytes _ _ =>
      Ok (target, None, None, plain (str "sent seq=" ++ decimal seq ++ str " bytes=" ++ decimal bytes))
  | ClientEvent.EchoReply seq _ _ received_at rtt server_timing one_way _ _ _ =>
      generation ← expect (TuiTargetState.generation target);
      Ok (TuiTargetState.push_graph_sample
            (LatestSample.mk generation received_at seq rtt one_way (server_timing ≫= ServerTiming.processing)) target,
          None, None,
          plain (str "reply seq=" ++ decimal seq ++ str " effective=" ++
                 format_optional_ns_i128 (Some (SignedDuration.as_nanos (RttSample.effective rtt)))))
  | ClientEvent.EchoLoss seq _ _ => Ok (target, None, None, plain (str "loss seq=" ++ decimal seq))
  | ClientEvent.DuplicateReply seq remote _ _ =>
      Ok (target, None, None, plain (str "duplicate seq=" ++ decimal seq ++ str " from " ++ socket_addr_text remote))
  | ClientEvent.LateReply seq highest_seen _ _ _ rtt _ _ _ _ _ =>
      let timing := match rtt with
                    | Some sample => str " effective=" ++ format_optional_ns_i128 (Some (SignedDuration.as_nanos (RttSample.effective sample)))
                    | None => [] end in
      Ok (target, None, None, plain (str "late seq=" ++ decimal seq ++ str " highest_seen=" ++ decimal highest_seen ++ timing))
  | ClientEvent.Warning kind message _ =>
      let warning := str (warning_kind_debug kind) ++ str ": " ++ str message in
      Ok (TuiTargetState.set_warning (Some (plain warning)) target, None, Some (plain warning), plain (str "warning " ++ warning))
  end.

Definition all_terminal (s : t) : bool := forallb (λ target, TargetStatus.is_terminal (TuiTargetState.status target)) (targets s).

Definition process_event_for_target (target_idx : nat) (event : ClientEvent.t) (s : t) : Result Empty_set t :=
  target ← target_at target_idx s;
  '(target, global_status, global_warning, recent) ← target_event event target;
  let s := update_target target_idx target s in
  let label := TuiTargetState.label target in
  let s := match global_status with
           | Some TuiStatus.Complete =>
               set_status (if TuiConfig.continuous (config s) || negb (all_terminal s) then TuiStatus.Running else TuiStatus.Complete) s
           | Some status => set_status status s
           | None => s
           end in
  let s := match global_warning with Some warning => set_warning (Some (labelled label warning)) s | None => s end in
  Ok (push_event (labelled label recent) s).

Definition process_target_event (target : TargetInstance.t) (event : ClientEvent.t) (s : t) : Result Empty_set t :=
  let '(idx, s) := ensure_target (TargetInstance.id target) s in
  '(accepted, s) ← accept_generation idx (TargetInstance.generation target) s;
  if negb accepted then Ok s
  else
    current ← target_at idx s;
    if bool_decide (TuiTargetState.terminal_generation current = Some (TargetInstance.generation target)) then
      let s := update_target idx (TuiTargetState.process_session_metadata event current) s in
      if is_lifecycle event then Ok s else process_event_for_target idx event s
    else process_event_for_target idx event s.

Definition process_target_opening (instance : TargetInstance.t) (s : t) : Result Empty_set t :=
  let '(idx, s) := ensure_target (TargetInstance.id instance) s in
  target ← target_at idx s;
  let new_generation := negb (bool_decide (TuiTargetState.generation target = Some (TargetInstance.generation instance))) in
  '(accepted, s) ← accept_generation idx (TargetInstance.generation instance) s;
  if accepted && new_generation then
    target ← target_at idx s;
    Ok (update_target idx (TuiTargetState.set_status TargetStatus.Opening target) s)
  else Ok s.

(** The status an ending gives, its line, and its own warning. *)
Definition ending (reason : ManagedTargetEndReason) : TargetStatus.t * Text * option Text :=
  match reason with
  | TestComplete => (TargetStatus.Closed, plain (str "test completed"), None)
  | PeerClosed => (TargetStatus.Closed, plain (str "session closed by peer"), None)
  | NoTestComplete => (TargetStatus.NoTest, plain (str "no-test negotiation completed"), None)
  | Stopped => (TargetStatus.Stopped, plain (str "target stopped"), None)
  | Removed => (TargetStatus.Removed, plain (str "target removed"), None)
  | Replaced => (TargetStatus.Replaced, plain (str "target replaced"), None)
  | Failed failure =>
      let message := [Plain (str (kind_text (ManagedTargetFailure.kind failure)) ++ str ": ");
                      Rendered (ManagedTargetFailure.message failure)] in
      (TargetStatus.Failed, Plain (str "target failed: ") :: message, Some message)
  end.
Definition cleanup_text (failure : ManagedTargetFailure.t) : Text :=
  [Plain (str "cleanup failed (" ++ str (phase_text (ManagedTargetFailure.phase failure)) ++ str " " ++
          str (kind_text (ManagedTargetFailure.kind failure)) ++ str "): ");
   Rendered (ManagedTargetFailure.message failure)].
Definition outcome_warning (primary cleanup : option Text) : option Text :=
  match primary, cleanup with
  | Some primary, Some cleanup => Some (primary ++ plain (str "; ") ++ cleanup)
  | Some primary, None => Some primary
  | None, cleanup => cleanup
  end.

(** The status of a run whose targets have all ended. *)
Definition ended_status (s : t) : TuiStatus.t :=
  if existsb (λ target, TargetStatus.is_success (TuiTargetState.status target)) (targets s) then TuiStatus.Complete
  else if existsb (λ target, TargetStatus.is_failed (TuiTargetState.status target)) (targets s) then TuiStatus.Error
  else TuiStatus.Complete.

Definition process_target_outcome (outcome : ManagedTargetOutcome.t) (s : t) : Result Empty_set t :=
  let instance := ManagedTargetOutcome.target outcome in
  let label := TargetInstance.id instance in
  let generation := TargetInstance.generation instance in
  let '(idx, s) := ensure_target label s in
  target ← target_at idx s;
  if match TuiTargetState.terminal_generation target with Some ended => generation <=? ended | None => false end then Ok s
  else
    '(current, s) ← accept_generation idx generation s;
    target ← target_at idx s;
    let target := TuiTargetState.set_terminal (Some generation) target in
    let '(status, recent, primary_warning) := ending (ManagedTargetOutcome.end_reason outcome) in
    let cleanup_warning := cleanup_text <$> ManagedTargetOutcome.cleanup_failure outcome in
    let warning := outcome_warning primary_warning cleanup_warning in
    let target := if (current : bool)
                  then TuiTargetState.set_status status
                         (TuiTargetState.set_remote (socket_addr_text <$> ManagedTargetOutcome.remote outcome) target)
                  else target in
    let target := match warning with Some warning => TuiTargetState.set_warning (Some warning) target | None => target end in
    let s := update_target idx target s in
    let s := match warning with Some warning => set_warning (Some (labelled label warning)) s | None => s end in
    let s := push_event (labelled label recent) s in
    let s := match cleanup_warning with Some cleanup => push_event (labelled label cleanup) s | None => s end in
    Ok (if negb (TuiConfig.continuous (config s)) && all_terminal s then set_status (ended_status s) s else s).

Fixpoint process_outcomes (outcomes : list ManagedTargetOutcome.t) (s : t) : Result Empty_set t :=
  match outcomes with
  | [] => Ok s
  | outcome :: outcomes => s ← process_target_outcome outcome s; process_outcomes outcomes s
  end.

Definition is_opening (lifecycle : ManagedTargetLifecycle) : bool :=
  match lifecycle with LPending | LConnecting | LOpening => true | _ => false end.

Definition process_target_status (target : ManagedTargetStatus.t) (s : t) : Result Empty_set t :=
  let instance := ManagedTargetStatus.target target in
  if is_opening (ManagedTargetStatus.lifecycle target) then process_target_opening instance s
  else
    let '(idx, s) := ensure_target (TargetInstance.id instance) s in
    '(accepted, s) ← accept_generation idx (TargetInstance.generation instance) s;
    current ← target_at idx s;
    if accepted && negb (bool_decide (TuiTargetState.terminal_generation current = Some (TargetInstance.generation instance))) &&
       bool_decide (ManagedTargetStatus.lifecycle target = LActive)
    then Ok (update_target idx (TuiTargetState.set_status TargetStatus.Active current) s)
    else Ok s.

Fixpoint process_target_statuses (targets : list ManagedTargetStatus.t) (s : t) : Result Empty_set t :=
  match targets with
  | [] => Ok s
  | target :: targets => s ← process_target_status target s; process_target_statuses targets s
  end.

Definition process_managed_status (status : ManagedStatus.t) (s : t) : Result Empty_set t :=
  s ← process_outcomes (ManagedStatus.recent_target_outcomes status ++
                        omap ManagedTargetStatus.outcome (ManagedStatus.targets status)) s;
  process_target_statuses (ManagedStatus.targets status) s.

Definition process_op (op : TuiOp) (s : t) : Result Empty_set t :=
  match op with
  | OpEvent target event => process_target_event target event s
  | OpOutcome outcome => process_target_outcome outcome s
  | OpOpening target => process_target_opening target s
  | OpStatus status => process_managed_status status s
  end.

Definition mark_dropped_managed_events (dropped_events : Z) (s : t) : t :=
  if dropped_events =? 0 then s
  else
    let s := set_dropped dropped_events s in
    let event_word := if dropped_events =? 1 then "event" else "events" in
    let warning := str "dropped " ++ decimal dropped_events ++ str " managed run " ++ str event_word ++
                   str "; statistics may be incomplete" in
    push_event (plain (str "warning " ++ warning)) (set_warning (Some (plain warning)) s).

Definition set_run_error (message : Text) (s : t) : t :=
  push_event (Plain (str "error ") :: message) (set_warning (Some message) (set_status TuiStatus.Error s)).
Definition set_error (message : Text) (s : t) : Result Empty_set t :=
  target ← target_at 0 s;
  Ok (set_run_error message
        (update_target 0 (TuiTargetState.set_warning (Some message) (TuiTargetState.set_status TargetStatus.Failed target)) s)).

Definition clear_visible_history (s : t) : t :=
  let s := set_targets (TuiTargetState.set_history [] <$> targets s) s in
  push_event (plain (str "visible graph history reset")) (set_viewport (GraphViewport.follow_live (graph_viewport s)) s).
Definition toggle_pause (s : t) : t := set_paused (negb (paused s)) s.

Definition selected (s : t) : Result Empty_set TuiTargetState.t := expect (targets s !! Z.to_nat (selected_target s)).

Definition oldest_graph_sample_time (s : t) : option Z :=
  min_of (omap (λ target, GraphSample.mono <$> head (TuiTargetState.graph_history target)) (targets s)).
Definition newest_graph_sample_time (s : t) : option Z :=
  max_of (omap (λ target, GraphSample.mono <$> last (TuiTargetState.graph_history target)) (targets s)).
End state.
End TuiState.

(** ** What a target is expected to count *)
(** What is learnt of a target: a generation of it is there, has ended, or had an
    event. *)
Inductive Observation : Type :=
  | Saw (generation : Z)
  | Ended (generation : Z)
  | Happened (generation : Z) (event : ClientEvent.t).
Definition obs_generation (o : Observation) : Z :=
  match o with Saw generation | Ended generation | Happened generation _ => generation end.

Definition saw (label : bytes) (target : TargetInstance.t) (o : Z → Observation) : list Observation :=
  if bool_decide (TargetInstance.id target = label) then [o (TargetInstance.generation target)] else [].
Definition saw_end (label : bytes) (outcome : ManagedTargetOutcome.t) : list Observation :=
  saw label (ManagedTargetOutcome.target outcome) Ended.
Definition status_outcomes (status : ManagedStatus.t) : list ManagedTargetOutcome.t :=
  ManagedStatus.recent_target_outcomes status ++ omap ManagedTargetStatus.outcome (ManagedStatus.targets status).
Definition observations (label : bytes) (op : TuiOp) : list Observation :=
  match op with
  | OpEvent target event => saw label target (λ generation, Happened generation event)
  | OpOutcome outcome => saw_end label outcome
  | OpOpening target => saw label target Saw
  | OpStatus status =>
      (status_outcomes status ≫= saw_end label) ++
      (ManagedStatus.targets status ≫= λ target, saw label (ManagedTargetStatus.target target) Saw)
  end.

Definition latest_generation (observed : list Observation) : option Z := max_of (obs_generation <$> observed).
Definition ended_generations (observed : list Observation) : list Z :=
  omap (λ o, match o with Ended generation => Some generation | _ => None end) observed.

(** The events of a generation, but for those of its session once it has ended. *)
Fixpoint events_of (generation : Z) (ended : bool) (observed : list Observation) : list ClientEvent.t :=
  match observed with
  | [] => []
  | Saw _ :: observed => events_of generation ended observed
  | Ended other :: observed => events_of generation (ended || (other =? generation)) observed
  | Happened other event :: observed =>
      (if (other =? generation) && negb (ended && TuiState.is_lifecycle event) then [event] else []) ++
      events_of generation ended observed
  end.
Definition counted (observed : list Observation) : list ClientEvent.t :=
  match latest_generation observed with Some generation => events_of generation false observed | None => [] end.

Section reference.
Context `{Measurement} `{CountWindows} `{FirstInstant} (stats_config : StatsConfig.t).

(** The generation, the generation known to have ended, and the statistics. *)
Record Core : Type := mk_Core { core_generation : option Z; core_terminal : option Z; core_stats : StatsCollector.t }.
Definition core (target : TuiTargetState.t) : Core :=
  mk_Core (TuiTargetState.generation target) (TuiTargetState.terminal_generation target) (TuiTargetState.stats target).
Definition core_start : Core := mk_Core None None (StatsCollector.new stats_config).

Definition refuses (generation : Z) (current : option Z) : bool :=
  match current with Some current => generation <? current | None => false end.
Definition core_accept (generation : Z) (c : Core) : Core :=
  if refuses generation (core_generation c) || bool_decide (core_generation c = Some generation) then c
  else mk_Core (Some generation) (core_terminal c) (StatsCollector.new stats_config).
Definition core_observe (c : Core) (o : Observation) : Core :=
  match o with
  | Saw generation => core_accept generation c
  | Ended generation =>
      if match core_terminal c with Some ended => generation <=? ended | None => false end then c
      else let c := core_accept generation c in mk_Core (core_generation c) (Some generation) (core_stats c)
  | Happened generation event =>
      if refuses generation (core_generation c) then c
      else
        let c := core_accept generation c in
        if bool_decide (core_terminal c = Some generation) && TuiState.is_lifecycle event then c
        else mk_Core (core_generation c) (core_terminal c) (StatsCollector.process event (core_stats c)).2
  end.

Lemma max_snoc l x : max_of (l ++ [x]) = Some (match max_of l with Some m => Z.max m x | None => x end).
Proof. destruct l as [|y l]; [done|]. cbn [app max_of]. by rewrite foldl_snoc. Qed.

Lemma max_none l : max_of l = None → l = [].
Proof. by destruct l. Qed.

Lemma max_bound l m : max_of l = Some m → Forall (λ x, x <= m) l.
Proof.
  revert m. induction l as [|x l IH] using rev_ind; [constructor|]. intros m. rewrite max_snoc. intros [= <-].
  apply Forall_app. split; [|by repeat constructor; destruct (max_of l); lia].
  destruct (max_of l) as [k|] eqn:Hl; [|by apply max_none in Hl; subst]. eapply Forall_impl; [by apply IH|]. cbn. lia.
Qed.

Lemma max_elem l m : max_of l = Some m → m ∈ l.
Proof.
  revert m. induction l as [|x l IH] using rev_ind; [done|]. intros m. rewrite max_snoc. intros [= <-].
  destruct (max_of l) as [k|]; [|set_solver]. destruct (Z.max_spec k x) as [[_ ->]|[_ ->]]; [set_solver|].
  apply elem_of_app. left. by apply IH.
Qed.

Definition ended_in (generation : Z) (observed : list Observation) : bool := bool_decide (generation ∈ ended_generations observed).

Lemma events_of_app generation ended a b :
  events_of generation ended (a ++ b)
  = events_of generation ended a ++ events_of generation (ended || ended_in generation a) b.
Proof.
  revert ended. induction a as [|o a IH]; intros ended; [by rewrite orb_false_r|].
  destruct o as [other|other|other event]; cbn [app events_of].
  - apply IH.
  - rewrite IH. f_equal. f_equal. rewrite <- orb_assoc. f_equal. unfold ended_in. cbn [ended_generations omap list_omap].
    destruct (Z.eqb_spec other generation) as [->|Hne]; cbn [orb]; [symmetry; apply bool_decide_eq_true; set_solver|].
    apply bool_decide_ext. set_solver.
  - rewrite IH. by rewrite <- app_assoc.
Qed.

(** Nothing of a generation not observed. *)
Lemma unseen_events generation ended observed :
  generation ∉ obs_generation <$> observed → events_of generation ended observed = [] ∧ ended_in generation observed = false.
Proof.
  revert ended. induction observed as [|o observed IH]; intros ended; [done|].
  rewrite fmap_cons, not_elem_of_cons. intros [Hne Hnot]. specialize (IH ended Hnot) as [IH1 IH2].
  assert (ended_in generation (o :: observed) = false) as ->.
  { unfold ended_in in *. apply bool_decide_eq_false in IH2. apply bool_decide_eq_false.
    destruct o; cbn [ended_generations omap list_omap obs_generation] in *; set_solver. }
  split; [|done]. destruct o as [other|other|other event]; cbn [events_of obs_generation] in *; [done| |];
    rewrite (proj2 (Z.eqb_neq other generation)) by done; [by rewrite orb_false_r|done].
Qed.

(** A target after what was observed of it. *)
Definition reference_core (observed : list Observation) : Core :=
  mk_Core (latest_generation observed) (max_of (ended_generations observed))
    (StatsCollector.process_all (counted observed) (StatsCollector.new stats_config)).

Lemma ended_subset observed g : g ∈ ended_generations observed → g ∈ obs_generation <$> observed.
Proof.
  unfold ended_generations. rewrite list_elem_of_omap, list_elem_of_fmap. intros (o & Ho & Hs). exists o. split; [|done].
  by destruct o; simplify_eq.
Qed.

Lemma ended_latest observed g :
  latest_generation observed = Some g → bool_decide (max_of (ended_generations observed) = Some g) = ended_in g observed.
Proof.
  intros Hl. pose proof (max_bound _ _ Hl) as Hb. unfold ended_in. apply bool_decide_ext. split; [apply max_elem|].
  intros He. destruct (max_of (ended_generations observed)) as [m|] eqn:Hm; [|by apply max_none in Hm; rewrite Hm in He; set_solver].
  f_equal. pose proof (max_bound _ _ Hm) as Hbm. rewrite Forall_forall in Hb, Hbm. specialize (Hbm _ He).
  specialize (Hb m (ended_subset _ _ (max_elem _ _ Hm))). lia.
Qed.

(** Before an observation of a generation at least the latest, and the events it adds. *)
Lemma core_accept_reference observed o :
  refuses (obs_generation o) (latest_generation observed) = false →
  core_accept (obs_generation o) (reference_core observed)
  = mk_Core (Some (obs_generation o)) (max_of (ended_generations observed))
      (StatsCollector.process_all (events_of (obs_generation o) false observed) (StatsCollector.new stats_config)) ∧
  latest_generation (observed ++ [o]) = Some (obs_generation o).
Proof.
  intros Hr. unfold core_accept, reference_core. cbn [core_generation core_terminal]. rewrite Hr. cbn [orb].
  assert (latest_generation (observed ++ [o]) = Some (obs_generation o)) as ->.
  { unfold latest_generation in *. rewrite fmap_app, fmap_cons, fmap_nil, max_snoc. f_equal.
    destruct (max_of _); cbn [refuses] in Hr; [apply Z.ltb_ge in Hr; lia|done]. }
  split; [|done]. unfold counted. destruct (latest_generation observed) as [g|] eqn:Hl; cbn [refuses] in Hr.
  - apply Z.ltb_ge in Hr. case_bool_decide as Hg; [by simplify_eq|].
    assert (obs_generation o ∉ obs_generation <$> observed) as Hnot.
    { intros Hin. pose proof (max_bound _ _ Hl) as Hb. rewrite Forall_forall in Hb. specialize (Hb _ Hin). destruct Hg. f_equal. lia. }
    by rewrite (proj1 (unseen_events _ _ _ Hnot)).
  - apply max_none, fmap_nil_inv in Hl. subst observed. done.
Qed.

Lemma refused_reference observed o :
  refuses (obs_generation o) (latest_generation observed) = true →
  latest_generation (observed ++ [o]) = latest_generation observed ∧ counted (observed ++ [o]) = counted observed.
Proof.
  intros Hr. destruct (latest_generation observed) as [g|] eqn:Hl; [|done]. cbn [refuses] in Hr. apply Z.ltb_lt in Hr.
  assert (latest_generation (observed ++ [o]) = Some g) as Hg.
  { unfold latest_generation in *. rewrite fmap_app, fmap_cons, fmap_nil, max_snoc, Hl. f_equal. lia. }
  split; [done|]. unfold counted. rewrite Hg, Hl, events_of_app.
  destruct o as [other|other|other event]; cbn [events_of obs_generation] in *; rewrite ?app_nil_r; [done..|].
  by rewrite (proj2 (Z.eqb_neq other g)), app_nil_r by lia.
Qed.

Lemma ended_snoc observed o :
  max_of (ended_generations (observed ++ [o]))
  = match o with
    | Ended g => Some (match max_of (ended_generations observed) with Some m => Z.max m g | None => g end)
    | _ => max_of (ended_generations observed)
    end.
Proof.
  unfold ended_generations. rewrite omap_app. destruct o; cbn [omap list_omap]; rewrite ?app_nil_r; [done| |done]. apply max_snoc.
Qed.

Lemma ended_below observed e :
  max_of (ended_generations observed) = Some e → ∃ g, latest_generation observed = Some g ∧ e <= g.
Proof.
  intros He%max_elem%ended_subset. destruct (latest_generation observed) as [g|] eqn:Hl.
  - exists g. split; [done|]. pose proof (max_bound _ _ Hl) as Hb. rewrite Forall_forall in Hb. by apply Hb.
  - apply max_none in Hl. rewrite Hl in He. set_solver.
Qed.

Lemma reference_accepted observed o c :
  refuses (obs_generation o) (latest_generation observed) = false →
  core_generation c = Some (obs_generation o) →
  core_terminal c = max_of (ended_generations (observed ++ [o])) →
  core_stats c = StatsCollector.process_all
    (events_of (obs_generation o) false observed ++ events_of (obs_generation o) (ended_in (obs_generation o) observed) [o])
    (StatsCollector.new stats_config) →
  c = reference_core (observed ++ [o]).
Proof.
  intros Hr Hg Ht Hs. unfold reference_core, counted. rewrite (proj2 (core_accept_reference _ _ Hr)), events_of_app.
  destruct c. cbn in *. by subst.
Qed.

Lemma observe_reference observed o : core_observe (reference_core observed) o = reference_core (observed ++ [o]).
Proof.
  destruct (refuses (obs_generation o) (latest_generation observed)) eqn:Hr.
  - destruct (refused_reference _ _ Hr) as [Hl Hc]. unfold reference_core at 2. rewrite Hl, Hc, ended_snoc.
    unfold core_observe, core_accept. cbn [core_generation core_terminal core_stats reference_core].
    destruct o as [g|g|g event]; cbn [obs_generation] in *; rewrite Hr; [done| |done].
    destruct (max_of (ended_generations observed)) as [e|] eqn:Hm; [|done]. unfold reference_core.
    destruct (Z.leb_spec g e); [|by rewrite Z.max_r by lia]. by rewrite Hm, Z.max_l by lia.
  - pose proof (proj1 (core_accept_reference _ _ Hr)) as Ha.
    destruct o as [g|g|g event]; cbn [core_observe obs_generation] in *.
    + rewrite Ha. apply reference_accepted; [done..| |]; cbn; [by rewrite ended_snoc|by rewrite app_nil_r].
    + cbn [core_terminal reference_core]. destruct (match max_of _ with Some ended => g <=? ended | None => false end) eqn:He.
      * destruct (max_of (ended_generations observed)) as [e|] eqn:Hm; [|done]. apply Z.leb_le in He.
        destruct (ended_below _ _ Hm) as (l & Hl & Hle). rewrite Hl in Hr. cbn in Hr. apply Z.ltb_ge in Hr.
        assert (l = g) as -> by lia. assert (e = g) as -> by lia.
        apply reference_accepted; cbn [core_generation core_terminal core_stats reference_core obs_generation]; [by rewrite Hl; cbn; apply Z.ltb_ge|done| |].
        -- rewrite ended_snoc, Hm. f_equal. lia.
        -- unfold counted. by rewrite Hl, app_nil_r.
      * rewrite Ha. apply reference_accepted; [done..| |]; cbn; [rewrite ended_snoc|by rewrite app_nil_r].
        destruct (max_of _) as [e|]; [|done]. apply Z.leb_gt in He. f_equal. lia.
    + cbn [core_generation reference_core]. rewrite Hr, Ha. cbn [core_generation core_terminal core_stats].
      assert (bool_decide (max_of (ended_generations observed) = Some g) = ended_in g observed) as Ht.
      { destruct (latest_generation observed) as [l|] eqn:Hl; cbn in Hr.
        - apply Z.ltb_ge in Hr. destruct (decide (l = g)) as [->|Hne]; [by apply ended_latest|].
          assert (g ∉ obs_generation <$> observed) as Hnot.
          { intros Hin. pose proof (max_bound _ _ Hl) as Hb. rewrite Forall_forall in Hb. specialize (Hb _ Hin). lia. }
          rewrite (proj2 (unseen_events g false _ Hnot)). apply bool_decide_eq_false. intros Hm%max_elem%ended_subset. done.
        - apply max_none, fmap_nil_inv in Hl. by subst observed. }
      rewrite Ht. destruct (ended_in g observed && TuiState.is_lifecycle event) eqn:Hx; apply reference_accepted;
        cbn [core_generation core_terminal core_stats obs_generation]; try done; rewrite ?ended_snoc; try done; cbn [events_of]; rewrite Z.eqb_refl, Hx; cbn.
      * by rewrite app_nil_r.
      * unfold StatsCollector.process_all. by rewrite foldl_snoc.
Qed.

Lemma observe_all observed more : foldl core_observe (reference_core observed) more = reference_core (observed ++ more).
Proof.
  revert observed. induction more as [|o more IH]; intros observed; [by rewrite app_nil_r|].
  cbn [foldl]. by rewrite observe_reference, IH, <- app_assoc.
Qed.
End reference.

(** ** The invariant of the state *)
Section invariant.
Context `{Measurement} `{CountWindows} `{FirstInstant} `{Clocks} (latest : Z).
Hypothesis Hlatest : latest + MAX_GRAPH_WINDOW <= INSTANT_MAX.
Import TuiState.
Implicit Types (s : TuiState.t) (target : TuiTargetState.t).

(** The samples kept are bounded and no later than [latest], and a generation that
    ended was there. *)
Record target_ok target : Prop := {
  to_bounded : len (TuiTargetState.graph_history target) <= HISTORY_LIMIT;
  to_until : Forall (λ sample, GraphSample.mono sample <= latest) (TuiTargetState.graph_history target);
  to_terminal ended : TuiTargetState.terminal_generation target = Some ended →
    ∃ current, TuiTargetState.generation target = Some current ∧ ended <= current;
}.

(** The index finds targets by their label, the selection one of them, and the lists
    kept are bounded. *)
Record tui_ok s : Prop := {
  tk_targets : Forall target_ok (targets s);
  tk_index label idx : target_index s !! label = Some idx → TuiTargetState.label <$> targets s !! idx = Some label;
  tk_recent : len (recent_events s) <= RECENT_EVENT_LIMIT;
  tk_selected : 0 <= selected_target s < len (targets s);
  tk_viewport : ViewportLemmas.viewport_ok latest (graph_viewport s);
}.

(** A target by its label. *)
Definition view (label : bytes) s : option TuiTargetState.t := target_index s !! label ≫= λ idx, targets s !! idx.
Definition unknown_target (label : bytes) (stats_config : StatsConfig.t) : TuiTargetState.t :=
  TuiTargetState.set_status TargetStatus.Unknown (TuiTargetState.new label stats_config).
Definition seen_as (label : bytes) s : TuiTargetState.t := default (unknown_target label (collector_config s)) (view label s).

(** [s'] differs from [s] in the target [label], now [target]. *)
Record evolves (label : bytes) target s s' : Prop := {
  ev_ok : tui_ok s';
  ev_here : view label s' = Some target;
  ev_there other : other ≠ label → view other s' = view other s;
  ev_config : config s' = config s;
}.

Lemma evolved_trans label target target' s s' s'' :
  evolves label target s s' → evolves label target' s' s'' → evolves label target' s s''.
Proof.
  intros [Ho Hh Ht Hc] [Ho' Hh' Ht' Hc']. split; [done|done| |by rewrite Hc', Hc].
  intros other Hne. by rewrite Ht', Ht.
Qed.

(** What the targets do not see. *)
Record framed s s' : Prop := {
  fr_index : target_index s' = target_index s;
  fr_targets : targets s' = targets s;
  fr_recent : len (recent_events s) <= RECENT_EVENT_LIMIT → len (recent_events s') <= RECENT_EVENT_LIMIT;
  fr_selected : selected_target s' = selected_target s;
  fr_viewport : graph_viewport s' = graph_viewport s;
  fr_config : config s' = config s;
}.

Lemma framed_ok s s' : tui_ok s → framed s s' → tui_ok s'.
Proof. intros [Ht Hi Hr Hs Hv] [Fi Ft Fr Fs Fv Fc]. split; rewrite ?Fi, ?Ft, ?Fs, ?Fv; auto. Qed.

Lemma evolves_framed label target s s' s'' : evolves label target s s' → framed s' s'' → evolves label target s s''.
Proof.
  intros [Ho Hh Ht Hc] Hf. pose proof (framed_ok _ _ Ho Hf). destruct Hf as [Fi Ft _ _ _ Fc].
  split; unfold view in *; rewrite ?Fi, ?Ft, ?Fc; done.
Qed.

Lemma framed_refl s : framed s s.
Proof. by split. Qed.
Lemma framed_trans s s' s'' : framed s s' → framed s' s'' → framed s s''.
Proof. intros [] []. split; [congruence|congruence|auto|congruence..]. Qed.

Lemma push_bounded_len {A} (items : list A) item limit :
  0 < limit → len items <= limit → len (push_bounded items item limit) <= limit.
Proof.
  intros Hl Hb. unfold push_bounded. rewrite len_app. change (len [item]) with 1.
  destruct (Z.eqb_spec (len items) limit) as [e|]; [|lia]. destruct items as [|x items]; [by change (0 = limit) in e; lia|]. rewrite len_cons in *. cbn [tail]. lia.
Qed.

Lemma framed_push event s : framed s (push_event event s).
Proof. split; try done. intros Hr. by apply push_bounded_len. Qed.
Lemma framed_status v s : framed s (set_status v s).
Proof. by split. Qed.
Lemma framed_warning v s : framed s (set_warning v s).
Proof. by split. Qed.
Lemma framed_dropped v s : framed s (set_dropped v s).
Proof. by split. Qed.

(** ** Targets by their label *)
Lemma view_index label s target :
  view label s = Some target → ∃ idx, target_index s !! label = Some idx ∧ targets s !! idx = Some target.
Proof. unfold view. rewrite bind_Some. done. Qed.

Lemma seen_ok label s : tui_ok s → target_ok (seen_as label s) ∧ TuiTargetState.label (seen_as label s) = label.
Proof.
  intros Hs. unfold seen_as. destruct (view label s) as [target|] eqn:Hv; cbn.
  - apply view_index in Hv as (idx & Hi & Ht). split; [by apply (Forall_lookup_1 _ _ _ _ (tk_targets _ Hs) Ht)|].
    pose proof (tk_index _ Hs _ _ Hi) as Hl. rewrite Ht in Hl. by simplify_eq/=.
  - split; [|done]. split; [done|constructor|done].
Qed.

Lemma update_evolves label target target' idx s :
  tui_ok s → target_index s !! label = Some idx → targets s !! idx = Some target →
  target_ok target' → TuiTargetState.label target' = label →
  evolves label target' s (update_target idx target' s).
Proof.
  intros Hs Hi Ht Hok Hl. assert (idx < length (targets s))%nat as Hlt by (by apply lookup_lt_Some in Ht).
  destruct Hs as [Kt Ki Kr Ks Kv]. split; [split| | |done]; cbn.
  - by apply Forall_insert.
  - intros label' idx' Hi'. destruct (decide (idx' = idx)) as [->|Hne].
    + rewrite list_lookup_insert_eq by done. cbn. pose proof (Ki _ _ Hi') as Hl'. rewrite (Ki _ _ Hi) in Hl'. congruence.
    + rewrite list_lookup_insert_ne by done. by apply Ki.
  - done.
  - unfold len. by rewrite length_insert.
  - done.
  - unfold view. cbn. rewrite Hi. cbn. by apply list_lookup_insert_eq.
  - intros other Hne. unfold view. cbn. destruct (target_index s !! other) as [idx'|] eqn:Hi'; [|done]. cbn.
    apply list_lookup_insert_ne. intros <-. destruct Hne. pose proof (Ki _ _ Hi') as Hl'. rewrite (Ki _ _ Hi) in Hl'. by simplify_eq.
Qed.

Lemma update_same idx target s : targets s !! idx = Some target → update_target idx target s = s.
Proof. intros Ht. unfold update_target. rewrite list_insert_id by done. by destruct s. Qed.

Lemma ensure_evolves label s :
  tui_ok s → ∃ idx s', ensure_target label s = (idx, s') ∧ evolves label (seen_as label s) s s' ∧
    target_index s' !! label = Some idx ∧ targets s' !! idx = Some (seen_as label s).
Proof.
  intros Hs. unfold ensure_target. destruct (target_index s !! label) as [idx|] eqn:Hi.
  - pose proof (tk_index _ Hs _ _ Hi) as Hl. destruct (targets s !! idx) as [target|] eqn:Ht; [|done].
    assert (view label s = Some target) as Hv by (unfold view; by rewrite Hi).
    assert (seen_as label s = target) as -> by (unfold seen_as; by rewrite Hv). exists idx, s. split; [done|]. split; [|done]. by split.
  - assert (seen_as label s = unknown_target label (collector_config s)) as -> by (unfold seen_as, view; by rewrite Hi).
    set (target := unknown_target label (collector_config s)). exists (length (targets s)), (add_target target s). split; [done|].
    assert (targets (add_target target s) !! length (targets s) = Some target) as Hlast by (by apply list_lookup_middle).
    assert (target_index (add_target target s) !! label = Some (length (targets s))) as Hidx by (apply lookup_insert_eq).
    split; [|done]. destruct Hs as [Kt Ki Kr Ks Kv]. split; [split| | |done]; [..|unfold view; rewrite Hidx; exact Hlast|].
    + apply Forall_app. split; [done|]. apply Forall_singleton. split; [done|constructor|done].
    + intros label' idx'. cbn. destruct (decide (label' = label)) as [->|Hne].
      * rewrite lookup_insert_eq. intros [= <-]. by rewrite list_lookup_middle.
      * rewrite lookup_insert_ne by done. intros Hi'. pose proof (Ki _ _ Hi') as Hl'.
        destruct (targets s !! idx') as [t'|] eqn:Ht'; [|done]. by rewrite lookup_app_l, Ht' by (by apply lookup_lt_Some in Ht').
    + done.
    + cbn. rewrite len_app. change (len [target]) with 1. lia.
    + done.
    + intros other Hne. unfold view. cbn. rewrite lookup_insert_ne by done. destruct (target_index s !! other) as [idx'|] eqn:Hi'; [|done].
      cbn. pose proof (Ki _ _ Hi') as Hl'. destruct (targets s !! idx') as [t'|] eqn:Ht'; [|done].
      by rewrite lookup_app_l by (by apply lookup_lt_Some in Ht').
Qed.

(** ** A generation *)
Definition accepted (stats_config : StatsConfig.t) (generation : Z) target : TuiTargetState.t :=
  if refuses generation (TuiTargetState.generation target) || bool_decide (TuiTargetState.generation target = Some generation)
  then target else TuiTargetState.begin_generation generation stats_config target.

Lemma accept_accepted idx generation target s :
  targets s !! idx = Some target →
  accept_generation idx generation s
  = Ok (negb (refuses generation (TuiTargetState.generation target)),
        update_target idx (accepted (collector_config s) generation target) s).
Proof.
  intros Ht. unfold accept_generation, target_at, accepted. rewrite Ht. cbn [expect mbind Result_bind]. fold (refuses generation (TuiTargetState.generation target)).
  destruct (refuses generation (TuiTargetState.generation target)); cbn [orb negb]; [by rewrite update_same|].
  case_bool_decide; [by rewrite update_same|done].
Qed.

Lemma accepted_ok stats_config generation target :
  target_ok target → target_ok (accepted stats_config generation target) ∧
  TuiTargetState.label (accepted stats_config generation target) = TuiTargetState.label target ∧
  core (accepted stats_config generation target) = core_accept stats_config generation (core target).
Proof.
  intros [Hb Hu Ht]. unfold accepted, core_accept. cbn [core core_generation].
  destruct (_ || _) eqn:Hr; [done|]. split; [|done]. split; [done|done|]. cbn. intros ended (current & Hc & Hle)%Ht. exists generation. split; [done|].
  apply orb_false_iff in Hr as [Hr _]. rewrite Hc in Hr. cbn in Hr. apply Z.ltb_ge in Hr. lia.
Qed.

Lemma accepted_generation stats_config generation target :
  refuses generation (TuiTargetState.generation target) = false →
  TuiTargetState.generation (accepted stats_config generation target) = Some generation.
Proof. intros Hr. unfold accepted. rewrite Hr. cbn [orb]. by case_bool_decide. Qed.

Lemma insert_update idx target target' s : update_target idx target' (update_target idx target s) = update_target idx target' s.
Proof. unfold update_target, set_targets. cbn. by rewrite list_insert_insert_eq. Qed.

(** ** What an operation leaves *)
(** The invariant, and the targets brought forward by what was observed of them. *)
Record advanced (seen : bytes → list Observation) s s' : Prop := {
  ad_ok : tui_ok s';
  ad_config : config s' = config s;
  ad_core label : core (seen_as label s') = foldl (core_observe (collector_config s)) (core (seen_as label s)) (seen label);
}.

Lemma advanced_refl s : tui_ok s → advanced (λ _, []) s s.
Proof. by split. Qed.

Lemma advanced_trans seen seen' s s' s'' :
  advanced seen s s' → advanced seen' s' s'' → advanced (λ label, seen label ++ seen' label) s s''.
Proof.
  intros [Ho Hc Hl] [Ho' Hc' Hl']. split; [done|by rewrite Hc'|]. intros label. rewrite Hl', Hl, foldl_app.
  unfold collector_config. by rewrite Hc.
Qed.

Lemma advanced_ext seen seen' s s' : (∀ label, seen label = seen' label) → advanced seen s s' → advanced seen' s s'.
Proof. intros He [Ho Hc Hl]. split; [done..|]. intros label. by rewrite <- He. Qed.

Lemma advanced_framed seen s s' s'' : advanced seen s s' → framed s' s'' → advanced seen s s''.
Proof.
  intros [Ho Hc Hl] Hf. pose proof (framed_ok _ _ Ho Hf). destruct Hf as [Fi Ft _ _ _ Fc]. split; [done|by rewrite Fc|].
  intros label. rewrite <- Hl. unfold seen_as, view, collector_config. by rewrite Fi, Ft, Fc.
Qed.

Lemma evolves_advanced instance (o : Z → Observation) target s s' :
  evolves (TargetInstance.id instance) target s s' →
  core target = core_observe (collector_config s) (core (seen_as (TargetInstance.id instance) s)) (o (TargetInstance.generation instance)) →
  advanced (λ label, saw label instance o) s s'.
Proof.
  intros [Ho Hh Ht Hc] Hcore. split; [done|done|]. intros label. unfold saw. case_bool_decide as Hl.
  - subst label. cbn [foldl]. rewrite <- Hcore. unfold seen_as. by rewrite Hh.
  - cbn [foldl]. unfold seen_as, collector_config. by rewrite Ht, Hc by done.
Qed.

(** [ensure_target] and then [accept_generation]. *)
Lemma ensure_accept instance s :
  let id := TargetInstance.id instance in
  let generation := TargetInstance.generation instance in
  let target := accepted (collector_config s) generation (seen_as id s) in
  tui_ok s → ∃ idx s1 s2, ensure_target id s = (idx, s1) ∧ target_at idx s1 = Ok (seen_as id s) ∧
    accept_generation idx generation s1 = Ok (negb (refuses generation (TuiTargetState.generation (seen_as id s))), s2) ∧
    target_at idx s2 = Ok target ∧ evolves id target s s2 ∧
    ∀ target', target_ok target' → TuiTargetState.label target' = id → evolves id target' s (update_target idx target' s2).
Proof.
  intros id generation target Hs. destruct (ensure_evolves id s Hs) as (idx & s1 & He & Hev & Hi & Ht).
  destruct (seen_ok id s Hs) as [Hok Hl]. destruct (accepted_ok (collector_config s) generation (seen_as id s) Hok) as (Hok' & Hl' & _).
  assert (collector_config s1 = collector_config s) as Hcc by (unfold collector_config; by rewrite (ev_config _ _ _ _ Hev)).
  assert (evolves id target s (update_target idx target s1)) as Hev2.
  { eapply evolved_trans; [exact Hev|]. eapply update_evolves; [apply (ev_ok _ _ _ _ Hev)|done|done|done|]. exact (eq_trans Hl' Hl). }
  assert (targets (update_target idx target s1) !! idx = Some target) as Ht2.
  { cbn. apply list_lookup_insert_eq. by apply lookup_lt_Some in Ht. }
  exists idx, s1, (update_target idx target s1). split; [done|]. split; [unfold target_at; by rewrite Ht|].
  split; [rewrite (accept_accepted _ _ _ _ Ht); by rewrite Hcc|]. split; [unfold target_at; by rewrite Ht2|]. split; [done|].
  intros target' Hok2 Hlab. eapply evolved_trans; [exact Hev2|]. eapply update_evolves; [apply (ev_ok _ _ _ _ Hev2)|done..].
Qed.

Lemma target_at_lookup idx s target : target_at idx s = Ok target → targets s !! idx = Some target.
Proof. unfold target_at. by destruct (targets s !! idx) as [t|]; cbn; [intros [= ->]|]. Qed.

(** ** Events *)
Definition event_until (event : ClientEvent.t) : Prop :=
  match event with
  | ClientEvent.EchoReply _ _ _ received_at _ _ _ _ _ _ => ClientTimestamp.mono received_at <= latest
  | _ => True
  end.

Lemma metadata_core event target :
  target_ok target → target_ok (TuiTargetState.process_session_metadata event target) ∧
  TuiTargetState.label (TuiTargetState.process_session_metadata event target) = TuiTargetState.label target ∧
  core (TuiTargetState.process_session_metadata event target) = core target.
Proof. intros [Hb Hu Ht]. by destruct event. Qed.

Lemma history_ok sample target :
  target_ok target → ClientTimestamp.mono (LatestSample.timestamp sample) <= latest →
  target_ok (TuiTargetState.push_graph_sample sample target).
Proof.
  intros [Hb Hu Ht] Hs. split; cbn; [by apply push_bounded_len| |done].
  unfold push_bounded. apply Forall_app. split; [|by constructor].
  destruct (_ =? _); [|done]. destruct (TuiTargetState.graph_history target); [constructor|]. by apply Forall_cons in Hu as [_ Hu].
Qed.

(** An event of a target that has a generation. *)
Lemma target_event_ok event target generation :
  target_ok target → TuiTargetState.generation target = Some generation → event_until event →
  ∃ target' status warning recent, target_event event target = Ok (target', status, warning, recent) ∧ target_ok target' ∧
    TuiTargetState.label target' = TuiTargetState.label target ∧
    core target' = mk_Core (core_generation (core target)) (core_terminal (core target))
      (StatsCollector.process event (core_stats (core target))).2.
Proof.
  intros Hok Hg Hu. set (counted := TuiTargetState.set_stats (StatsCollector.process event (TuiTargetState.stats target)).2 target).
  assert (target_ok counted) as Hc by (by destruct Hok).
  destruct event; cbn [target_event]; try (do 4 eexists; split; [reflexivity|]; split; [|done]; by destruct Hc).
  fold counted. assert (TuiTargetState.generation counted = Some generation) as -> by done. cbn [expect mbind Result_bind].
  do 4 eexists. split; [reflexivity|]. split; [by apply history_ok|done].
Qed.

Lemma event_for_target_ok idx event target generation s :
  targets s !! idx = Some target → target_ok target → TuiTargetState.generation target = Some generation → event_until event →
  ∃ target' s', process_event_for_target idx event s = Ok s' ∧ target_ok target' ∧
    TuiTargetState.label target' = TuiTargetState.label target ∧
    core target' = mk_Core (core_generation (core target)) (core_terminal (core target))
      (StatsCollector.process event (core_stats (core target))).2 ∧
    framed (update_target idx target' s) s'.
Proof.
  intros Ht Hok Hg Hu. destruct (target_event_ok event target generation Hok Hg Hu) as (target' & status & warning & recent & He & Hok' & Hl & Hc).
  unfold process_event_for_target, target_at. rewrite Ht. cbn [expect mbind Result_bind]. rewrite He. cbn [mbind Result_bind].
  exists target'. eexists. split; [reflexivity|]. split; [done|]. split; [done|]. split; [done|].
  eapply framed_trans; [|apply framed_push]. eapply framed_trans; [|by destruct warning; [apply framed_warning|apply framed_refl]].
  by destruct status as [[]|]; try apply framed_status; try apply framed_refl.
Qed.

Lemma target_event_advances instance event s :
  tui_ok s → event_until event →
  ∃ s', process_target_event instance event s = Ok s' ∧ advanced (λ label, saw label instance (λ generation, Happened generation event)) s s'.
Proof.
  intros Hs Hu. set (id := TargetInstance.id instance). set (generation := TargetInstance.generation instance).
  destruct (ensure_accept instance s Hs) as (idx & s1 & s2 & He & _ & Ha & Ht & Hev & Hnext). fold id generation in He, Ha, Ht, Hev, Hnext.
  destruct (seen_ok id s Hs) as [Hok Hlab]. destruct (accepted_ok (collector_config s) generation _ Hok) as (Hok' & Hl' & Hc').
  unfold process_target_event. fold id generation. rewrite He, Ha. cbn [mbind Result_bind].
  destruct (refuses generation (TuiTargetState.generation (seen_as id s))) eqn:Hr; cbn [negb].
  { exists s2. split; [done|]. eapply evolves_advanced; [exact Hev|]. rewrite Hc'. unfold core_accept, core_observe. cbn [core core_generation].
    fold id generation. by rewrite Hr. }
  rewrite Ht. cbn [mbind Result_bind]. set (target := accepted _ generation (seen_as id s)) in *.
  assert (TuiTargetState.generation target = Some generation) as Hg by (by apply accepted_generation).
  assert (core_observe (collector_config s) (core (seen_as id s)) (Happened generation event)
    = if bool_decide (TuiTargetState.terminal_generation target = Some generation) && is_lifecycle event then core target
      else mk_Core (core_generation (core target)) (core_terminal (core target)) (StatsCollector.process event (core_stats (core target))).2) as Hobs.
  { unfold core_observe. cbn [core core_generation]. rewrite Hr. fold (core (seen_as id s)). by rewrite <- Hc'. }
  apply target_at_lookup in Ht. case_bool_decide as Hterm; cbn [andb] in Hobs.
  - destruct (metadata_core event target Hok') as (Hok2 & Hl2 & Hc2). set (target2 := TuiTargetState.process_session_metadata event target) in *.
    destruct (is_lifecycle event) eqn:Hlife.
    { eexists. split; [reflexivity|]. eapply evolves_advanced; [apply Hnext; [done|]; by rewrite Hl2, Hl'|]. fold id generation. by rewrite Hobs. }
    destruct (event_for_target_ok idx event target2 generation (update_target idx target2 s2)) as (target3 & s3 & Hp & Hok3 & Hl3 & Hc3 & Hf);
      [cbn; apply list_lookup_insert_eq; by apply lookup_lt_Some in Ht|done|by rewrite <- Hg; destruct event|done|].
    exists s3. split; [done|]. rewrite insert_update in Hf. eapply evolves_advanced; [eapply evolves_framed; [|exact Hf]|].
    + apply Hnext; [done|]. by rewrite Hl3, Hl2, Hl'.
    + fold id generation. by rewrite Hobs, Hc3, Hc2.
  - destruct (event_for_target_ok idx event target generation s2) as (target3 & s3 & Hp & Hok3 & Hl3 & Hc3 & Hf); [done..|].
    exists s3. split; [done|]. eapply evolves_advanced; [eapply evolves_framed; [|exact Hf]|].
    + apply Hnext; [done|]. by rewrite Hl3, Hl'.
    + fold id generation. by rewrite Hobs, Hc3.
Qed.

Lemma opening_advances instance s :
  tui_ok s → ∃ s', process_target_opening instance s = Ok s' ∧ advanced (λ label, saw label instance Saw) s s'.
Proof.
  intros Hs. destruct (ensure_accept instance s Hs) as (idx & s1 & s2 & He & Hr1 & Ha & Ht & Hev & Hnext).
  destruct (seen_ok (TargetInstance.id instance) s Hs) as [Hok Hlab].
  destruct (accepted_ok (collector_config s) (TargetInstance.generation instance) _ Hok) as (Hok' & Hl' & Hc').
  unfold process_target_opening. rewrite He, Hr1. cbn [mbind Result_bind]. rewrite Ha. cbn [mbind Result_bind].
  destruct (_ && _).
  - rewrite Ht. cbn [mbind Result_bind]. eexists. split; [reflexivity|]. eapply evolves_advanced; [apply Hnext|exact Hc'].
    + by destruct Hok'.
    + cbn. by rewrite Hl'.
  - exists s2. split; [done|]. eapply evolves_advanced; [exact Hev|exact Hc'].
Qed.

Lemma outcome_advances outcome s :
  tui_ok s → ∃ s', process_target_outcome outcome s = Ok s' ∧ advanced (λ label, saw_end label outcome) s s'.
Proof.
  intros Hs. unfold saw_end. set (instance := ManagedTargetOutcome.target outcome).
  set (id := TargetInstance.id instance). set (generation := TargetInstance.generation instance).
  destruct (ensure_accept instance s Hs) as (idx & s1 & s2 & He & Hr1 & Ha & Ht & Hev & Hnext). fold id generation in He, Hr1, Ha, Ht, Hev, Hnext.
  destruct (seen_ok id s Hs) as [Hok Hlab]. destruct (accepted_ok (collector_config s) generation _ Hok) as (Hok' & Hl' & Hc').
  unfold process_target_outcome. fold instance id generation. rewrite He, Hr1. cbn [mbind Result_bind].
  destruct (match TuiTargetState.terminal_generation (seen_as id s) with Some ended => generation <=? ended | None => false end) eqn:Hend.
  { destruct (ensure_evolves id s Hs) as (idx' & s1' & He' & Hev' & _). assert (s1' = s1) as -> by congruence.
    exists s1. split; [done|]. eapply evolves_advanced; [exact Hev'|]. cbn [core_observe]. fold id generation. cbn [core core_terminal]. by rewrite Hend. }
  rewrite Ha. cbn [mbind Result_bind]. rewrite Ht. cbn [mbind Result_bind]. set (target := accepted _ generation (seen_as id s)) in *.
  destruct (ending _) as [[status recent] primary] eqn:Hstatus.
  set (warning := outcome_warning _ _). set (target1 := TuiTargetState.set_terminal (Some generation) target).
  set (target2 := if negb _ then _ else target1). set (target3 := match warning with Some w => _ | None => target2 end).
  assert (target_ok target1) as Hok1.
  { destruct Hok' as [Hb Hu Hterm]. split; [done|done|]. cbn. intros ended [= <-]. clear Hc' Hl' Hev Ht Hnext. subst target1. cbn.
    unfold target, accepted. destruct (refuses generation (TuiTargetState.generation (seen_as id s))) eqn:Hr; cbn [orb].
    - unfold refuses in Hr. destruct (TuiTargetState.generation (seen_as id s)) as [current|]; [|done]. apply Z.ltb_lt in Hr. exists current. split; [done|lia].
    - exists generation. split; [|lia]. by case_bool_decide. }
  assert (target_ok target3 ∧ TuiTargetState.label target3 = id ∧ core target3 = core target1) as (Hok3 & Hl3 & Hc3).
  { assert (TuiTargetState.label target1 = id) by (exact (eq_trans Hl' Hlab)).
    assert (target_ok target2 ∧ TuiTargetState.label target2 = id ∧ core target2 = core target1) as (Hok2 & Hl2 & Hc2).
    { subst target2. destruct (negb _); [|done]. split; [by destruct Hok1|done]. }
    subst target3. destruct warning; [|done]. split; [by destruct Hok2|done]. }
  eexists. split; [reflexivity|]. eapply evolves_advanced; [eapply evolves_framed; [by apply Hnext|]|].
  - eapply framed_trans; [|by destruct (_ && _); [apply framed_status|apply framed_refl]].
    eapply framed_trans; [|by destruct (cleanup_text <$> _); [apply framed_push|apply framed_refl]].
    eapply framed_trans; [|apply framed_push]. by destruct warning; [apply framed_warning|apply framed_refl].
  - rewrite Hc3. cbn [core_observe]. fold instance id generation. cbn [core core_terminal]. rewrite Hend. fold (core (seen_as id s)). by rewrite <- Hc'.
Qed.

Lemma status_target_advances status s :
  tui_ok s → ∃ s', process_target_status status s = Ok s' ∧ advanced (λ label, saw label (ManagedTargetStatus.target status) Saw) s s'.
Proof.
  intros Hs. unfold process_target_status. destruct (is_opening _); [by apply opening_advances|].
  set (instance := ManagedTargetStatus.target status).
  destruct (ensure_accept instance s Hs) as (idx & s1 & s2 & He & Hr1 & Ha & Ht & Hev & Hnext).
  destruct (seen_ok (TargetInstance.id instance) s Hs) as [Hok Hlab].
  destruct (accepted_ok (collector_config s) (TargetInstance.generation instance) _ Hok) as (Hok' & Hl' & Hc').
  rewrite He, Ha. cbn [mbind Result_bind]. rewrite Ht. cbn [mbind Result_bind]. destruct (_ && _).
  - eexists. split; [reflexivity|]. eapply evolves_advanced; [apply Hnext|exact Hc'].
    + by destruct Hok'.
    + cbn. by rewrite Hl'.
  - exists s2. split; [done|]. eapply evolves_advanced; [exact Hev|exact Hc'].
Qed.

Lemma outcomes_advance outcomes s :
  tui_ok s → ∃ s', process_outcomes outcomes s = Ok s' ∧ advanced (λ label, outcomes ≫= saw_end label) s s'.
Proof.
  revert s. induction outcomes as [|outcome outcomes IH]; intros s Hs; [exists s; split; [done|by apply advanced_refl]|].
  destruct (outcome_advances outcome s Hs) as (s1 & Hr1 & A1). destruct (IH s1 (ad_ok _ _ _ A1)) as (s2 & Hr2 & A2).
  exists s2. split; [cbn [process_outcomes]; by rewrite Hr1|]. exact (advanced_trans _ _ _ _ _ A1 A2).
Qed.

Lemma status_targets_advance statuses s :
  tui_ok s → ∃ s', process_target_statuses statuses s = Ok s' ∧
    advanced (λ label, statuses ≫= λ status, saw label (ManagedTargetStatus.target status) Saw) s s'.
Proof.
  revert s. induction statuses as [|status statuses IH]; intros s Hs; [exists s; split; [done|by apply advanced_refl]|].
  destruct (status_target_advances status s Hs) as (s1 & Hr1 & A1). destruct (IH s1 (ad_ok _ _ _ A1)) as (s2 & Hr2 & A2).
  exists s2. split; [cbn [process_target_statuses]; by rewrite Hr1|]. exact (advanced_trans _ _ _ _ _ A1 A2).
Qed.

Definition op_until (op : TuiOp) : Prop := match op with OpEvent _ event => event_until event | _ => True end.

Lemma op_advances op s :
  tui_ok s → op_until op → ∃ s', process_op op s = Ok s' ∧ advanced (λ label, observations label op) s s'.
Proof.
  intros Hs Hu. destruct op as [instance event|outcome|instance|status]; cbn [process_op observations].
  - by apply target_event_advances.
  - by apply outcome_advances.
  - by apply opening_advances.
  - unfold process_managed_status. fold (status_outcomes status).
    destruct (outcomes_advance (status_outcomes status) s Hs) as (s1 & Hr1 & A1).
    destruct (status_targets_advance (ManagedStatus.targets status) s1 (ad_ok _ _ _ A1)) as (s2 & Hr2 & A2).
    exists s2. split; [by rewrite Hr1|]. exact (advanced_trans _ _ _ _ _ A1 A2).
Qed.

(** ** The state a run begins with *)
Lemma index_built (targets : list TuiTargetState.t) (items : list (nat * TuiTargetState.t)) (index : gmap bytes nat) :
  Forall (λ '(idx, target), targets !! idx = Some target) items →
  (∀ label idx, index !! label = Some idx → TuiTargetState.label <$> targets !! idx = Some label) →
  ∀ label idx, foldl (λ index '(idx, target), <[TuiTargetState.label target := idx]> index) index items !! label = Some idx →
    TuiTargetState.label <$> targets !! idx = Some label.
Proof.
  intros Hall. revert index. induction Hall as [|[idx target] items Ht _ IH]; intros index Hi; [done|]. cbn [foldl]. apply IH.
  intros label idx'. destruct (decide (TuiTargetState.label target = label)) as [<-|Hne].
  - rewrite lookup_insert_eq. intros [= <-]. by rewrite Ht.
  - rewrite lookup_insert_ne by done. apply Hi.
Qed.

Lemma with_labels_ok cfg labels now :
  labels ≠ [] → ∃ s, with_target_labels cfg labels now = Ok s ∧ tui_ok s ∧ config s = cfg ∧ graph_viewport s = GraphViewport.live ∧
    TuiTargetState.label <$> targets s = labels ∧ ∀ label, core (seen_as label s) = core_start (collector_config s).
Proof.
  intros Hne. unfold with_target_labels. set (cfg' := tui_stats_config _).
  rewrite bool_decide_false by (by destruct labels). set (built := (λ label, TuiTargetState.new label cfg') <$> labels).
  assert (TuiTargetState.label <$> built = labels) as Hlabels.
  { subst built. rewrite <- list_fmap_compose. unfold compose. cbn. apply list_fmap_id. }
  assert (∀ idx target, built !! idx = Some target → ∃ label, target = TuiTargetState.new label cfg') as Hnew.
  { intros idx target. subst built. rewrite list_lookup_fmap. intros (label & _ & ->)%fmap_Some. by exists label. }
  eexists. split; [reflexivity|]. split; [split|split; [done|split; [done|split; [done|]]]]; cbn.
  - apply Forall_lookup. intros idx target (label & ->)%Hnew. split; [done|constructor|done].
  - apply index_built; [|done]. apply Forall_lookup. intros idx [idx' target]. rewrite list_lookup_imap.
    intros (t & Ht & [= <- <-])%fmap_Some. done.
  - done.
  - split; [done|]. fold built. unfold len. destruct labels; [done|]. cbn. lia.
  - apply ViewportLemmas.live_ok.
  - intros label. unfold seen_as. destruct (view label _) as [target|] eqn:Hv; [|done].
    apply view_index in Hv as (idx & _ & Ht). cbn in Ht. by apply Hnew in Ht as (l & ->).
Qed.

(** ** Other operations *)
Lemma framed_advanced s s' : tui_ok s → framed s s' → advanced (λ _, []) s s'.
Proof. intros Hs Hf. eapply advanced_framed; [by apply advanced_refl|done]. Qed.

Lemma framed_dropped_mark dropped s : framed s (mark_dropped_managed_events dropped s).
Proof.
  unfold mark_dropped_managed_events. destruct (dropped =? 0); [apply framed_refl|].
  eapply framed_trans; [|apply framed_push]. eapply framed_trans; [|apply framed_warning]. apply framed_dropped.
Qed.
Lemma framed_run_error message s : framed s (set_run_error message s).
Proof.
  unfold set_run_error. eapply framed_trans; [|apply framed_push]. eapply framed_trans; [|apply framed_warning]. apply framed_status.
Qed.

(** Same targets to the statistics, and the invariant. *)
Lemma advanced_same s s' :
  tui_ok s' → config s' = config s → target_index s' = target_index s →
  core <$> targets s' = core <$> targets s → advanced (λ _, []) s s'.
Proof.
  intros Ho Hc Hi Ht. split; [done|done|]. intros label. cbn [foldl]. unfold seen_as, view, collector_config. rewrite Hi, Hc.
  destruct (target_index s !! label) as [idx|]; [|done]. cbn. pose proof (f_equal (λ l, l !! idx) Ht) as Hx. cbn in Hx.
  rewrite !list_lookup_fmap in Hx. by destruct (targets s' !! idx), (targets s !! idx); cbn in *; try congruence.
Qed.

Lemma clear_history_advances s : tui_ok s → advanced (λ _, []) s (clear_visible_history s).
Proof.
  intros Hs. eapply advanced_framed; [|apply framed_push]. destruct Hs as [Kt Ki Kr Ks Kv]. apply advanced_same; [split|done..|]; cbn.
  - apply Forall_fmap. eapply Forall_impl; [exact Kt|]. intros target [Hb Hu Ht]. split; [done|constructor|done].
  - intros label idx Hi. rewrite list_lookup_fmap. pose proof (Ki _ _ Hi) as Hl. by destruct (targets s !! idx).
  - done.
  - by rewrite len_fmap.
  - by apply ViewportLemmas.follow_live_ok.
  - rewrite <- list_fmap_compose. done.
Qed.

Lemma selected_ok s : tui_ok s → ∃ target, selected s = Ok target.
Proof.
  intros Hs. pose proof (tk_selected _ Hs) as Hsel. unfold selected. destruct (targets s !! Z.to_nat (selected_target s)) as [target|] eqn:Ht; [by exists target|].
  apply lookup_ge_None in Ht. unfold len in Hsel. lia.
Qed.

(** The times of the samples are no later than [latest]. *)
Lemma foldl_min_le x l : foldl Z.min x l <= x.
Proof. revert x. induction l as [|y l IH]; intros x; cbn; [lia|]. specialize (IH (Z.min x y)). lia. Qed.

Lemma sample_times_until s (pick : list GraphSample.t → option GraphSample.t) :
  (∀ l sample, pick l = Some sample → sample ∈ l) → tui_ok s →
  Forall (λ t, t <= latest) (omap (λ target, GraphSample.mono <$> pick (TuiTargetState.graph_history target)) (targets s)).
Proof.
  intros Hpick [Kt _ _ _ _]. apply Forall_forall. intros t (target & Hin & (sample & Hs & ->)%fmap_Some)%list_elem_of_omap.
  rewrite Forall_forall in Kt. pose proof (to_until _ (Kt _ Hin)) as Hu. rewrite Forall_forall in Hu. by apply Hu, Hpick.
Qed.

Lemma oldest_until s : tui_ok s → ViewportLemmas.until latest (oldest_graph_sample_time s).
Proof.
  intros Hs. pose proof (sample_times_until s head ltac:(by intros [|x l] sample [= <-]; left) Hs) as Hall.
  unfold oldest_graph_sample_time. destruct (omap _ _) as [|t l]; cbn; [done|]. apply Forall_cons in Hall as [Ht _].
  pose proof (foldl_min_le t l). lia.
Qed.

Lemma newest_until s : tui_ok s → ViewportLemmas.until latest (newest_graph_sample_time s).
Proof.
  intros Hs. pose proof (sample_times_until s last ltac:(intros l sample Hl; by apply last_Some_elem_of) Hs) as Hall.
  unfold newest_graph_sample_time. destruct (max_of _) as [t|] eqn:Ht; cbn; [|done].
  rewrite Forall_forall in Hall. by apply Hall, max_elem.
Qed.
End invariant.
