(* ===== verification/AppTuiView.v ===== *)
(** * irtt-app: what the terminal interface shows

    Models what [crates/irtt-app/src/cmd/tui/ui.rs] makes of its state for each
    frame: the parts of the screen, the header, the table of targets, the details
    and their scrolling, the footer, and the graph with its axes. Ratatui's layout,
    borders and text widths, and chrono's local time, are parameters; painting is
    ratatui's. *)

From Stdlib Require Import Floats.SpecFloat.
From stdpp Require Import sorting.
From S2P Require Import Prelude ParamsCodec ClientBase ClientEvent ClientNegotiation ManagedBase ManagedTask Endpoint.
From S2P Require Import StatsEvents Ipdv StatsCore Rolling Collector AppTargets AppStdin AppArgs AppFormat AppSummary AppFloat AppTuiGraph AppTui.

Definition MIN_WIDTH : Z := 56.
Definition MIN_HEIGHT : Z := 18.

(** ** Ratatui and chrono *)
Module Rect.
Record t : Type := mk { x : Z; y : Z; width : Z; height : Z }.
End Rect.
Inductive Constraint : Type := Length (n : Z) | Min (n : Z).

Class Ratatui := {
  (** [Layout::vertical(constraints).split(area)]. *)
  vertical : list Constraint → Rect.t → list Rect.t;
  (** [Block::bordered().inner(area)]. *)
  bordered_inner : Rect.t → Rect.t;
  (** The width of a line in cells. *)
  text_width : list Piece → Z;
}.

Class LocalTime := {
  DateTime : Type;
  (** Local time of an instant in seconds and nanoseconds since the epoch, or UTC. *)
  local_datetime : Z → Z → option DateTime;
  date_naive : DateTime → Z;
  format_hms : DateTime → bytes;
  format_month_day : DateTime → bytes;
  timestamp_subsec_millis : DateTime → Z;
}.

(** [u16::saturating_sub]. *)
Definition U16_MAX : Z := 65535.
Definition minus_u16 (a b : Z) : Z := Z.max 0 (a - b).

Section view.
Context `{TimeStatsFields} `{CountWindows} `{FirstInstant} `{Clocks} `{Ratatui}.
Implicit Types state : TuiState.t.
Import TuiState.

(** ** The parts of the screen *)
Definition is_too_small (area : Rect.t) : bool := (Rect.width area <? MIN_WIDTH) || (Rect.height area <? MIN_HEIGHT).

Definition dashboard_constraints (area : Rect.t) (state : TuiState.t) : list Constraint :=
  let footer := 3 + (match last_warning state with Some _ => 1 | None => 0 end) in
  let target_rows := Z.min (len (targets state)) 6 in
  let target_height := Z.min (target_rows + 3) (minus_u16 (Rect.height area) (3 + footer + 7)) in
  [Length 3; Length target_height; Min 7; Length footer].
Definition dashboard_layout (area : Rect.t) (state : TuiState.t) : list Rect.t := vertical (dashboard_constraints area state) area.

(** ** The header and the footer *)
Definition header (now : Z) (state : TuiState.t) : Result Empty_set (list bytes) :=
  selected ← selected state;
  let last := TuiTargetState.last_sample selected in
  let incomplete := if 0 <? dropped_events state then str " incomplete:dropped=" ++ decimal (dropped_events state) else [] in
  Ok [str "irtt-rs | " ++ str (TuiStatus.label (status state)) ++ (if paused state then str " display paused" else []) ++
      incomplete ++ str " | " ++ format_span (since now (started_at state)) ++ str " / " ++
      match TuiConfig.duration (config state) with Some duration => format_span duration | None => str "continuous" end;
      TuiTargetState.label selected ++ str " | " ++ default ABSENT (TuiTargetState.remote selected);
      str "one-way c2s " ++ format_optional_ns_i128 (last ≫= Metric.value_ns ClientToServer) ++
      str " / s2c " ++ format_optional_ns_i128 (last ≫= Metric.value_ns ServerToClient)].

(** "↑/↓", "←/→". *)
Definition UP_DOWN : bytes := [226; 134; 145; 47; 226; 134; 147].
Definition LEFT_RIGHT : bytes := [226; 134; 144; 47; 226; 134; 146].
Definition status_line (state : TuiState.t) : list (list Piece) :=
  (plain <$> (if details_open state then
                [str "q quit | p pause | d graph | Tab target";
                 UP_DOWN ++ str " scroll | " ++ LEFT_RIGHT ++ str " columns | PgUp/PgDn page";
                 str "Home top | End bottom | r clear graph history"]
              else
                [str "q quit | p pause | d details | Tab target | m metric";
                 LEFT_RIGHT ++ str " pan | PgUp/PgDn page | Home oldest | End live";
                 str "+/- zoom | 0 reset window | r clear graph history"])) ++
  option_list (last_warning state).

(** ** The table of targets *)
(** The rows of a page: the target's index, which is its color, and its cells. *)
Definition visible_rows (area : Rect.t) : Z := Z.max 1 (minus_u16 (Rect.height area) 3).
Definition page_start (area : Rect.t) (state : TuiState.t) : Z :=
  selected_target state / visible_rows area * visible_rows area.

Definition target_row (now : Z) (state : TuiState.t) (idx : nat) (target : TuiTargetState.t) : list bytes :=
  let snapshot := StatsCollector.snapshot (TuiTargetState.stats target) in
  [(if Z.of_nat idx =? selected_target state then str ">" else str " ") ++ TuiTargetState.label target;
   (match TuiTargetState.status target, TuiTargetState.last_sample target with
    | TargetStatus.Active, None => str "waiting"
    | status, _ => str (TargetStatus.label status)
    end);
   format_optional_ns_i128 ((λ sample, SignedDuration.as_nanos (RttSample.effective (LatestSample.rtt sample))) <$>
                            TuiTargetState.last_sample target);
   (if PacketCounts.packets_sent (snap_packets snapshot) =? 0 then ABSENT
    else format_percent (LossStats.packet_loss_percent (StatsCore.loss snapshot)));
   (if ts_count (round_trip (snap_ipdv snapshot)) =? 0 then ABSENT
    else format_ns_f64 (ts_stddev_ns (round_trip (snap_ipdv snapshot))));
   match TuiTargetState.last_sample target with
   | Some sample => format_age (since now (ClientTimestamp.mono (LatestSample.timestamp sample)))
   | None => ABSENT
   end].
Definition target_table (now : Z) (area : Rect.t) (state : TuiState.t) : list (nat * list bytes) * bytes :=
  ((λ '(idx, target), (idx, target_row now state idx target)) <$>
     take (Z.to_nat (visible_rows area)) (drop (Z.to_nat (page_start area state)) (imap pair (targets state))),
   str "targets " ++ decimal (selected_target state + 1) ++ str "/" ++ decimal (len (targets state)) ++ str " | Tab select").

(** ** The details *)
Definition clock_debug (clock : Clock.t) : string :=
  match clock with
  | Clock.Unspecified => "Unspecified" | Clock.Wall => "Wall" | Clock.Monotonic => "Monotonic" | Clock.Both => "Both"
  end.
Definition stamp_debug (stamp : StampAt.t) : string :=
  match stamp with
  | StampAt.None => "None" | StampAt.Send => "Send" | StampAt.Receive => "Receive" | StampAt.Both => "Both"
  | StampAt.Midpoint => "Midpoint"
  end.
Definition received_debug (stats : ReceivedStats.t) : string :=
  match stats with
  | ReceivedStats.None => "None" | ReceivedStats.Count => "Count" | ReceivedStats.Window => "Window" | ReceivedStats.Both => "Both"
  end.

(** [as_nanos() as i128]: a duration's nanoseconds are below [I128_MAX]. *)
Definition format_negotiated (negotiated : NegotiationResult.t) : bytes :=
  let params := NegotiationResult.accepted negotiated in
  let duration := match AcceptedSessionParameters.duration params with
                  | Some duration => format_optional_ns_i128 (Some duration) | None => ABSENT end in
  let changes := NegotiationResult.changes negotiated in
  str "duration=" ++ duration ++
  str " interval=" ++ format_optional_ns_i128 (Some (AcceptedSessionParameters.interval params)) ++
  str " length=" ++ decimal (AcceptedSessionParameters.length params) ++
  str " clock=" ++ str (clock_debug (AcceptedSessionParameters.clock params)) ++
  str " timestamps=" ++ str (stamp_debug (AcceptedSessionParameters.stamp_at params)) ++
  str " stats=" ++ str (received_debug (AcceptedSessionParameters.received_stats params)) ++
  str " changes=" ++ (if bool_decide (changes = []) then str "none" else decimal (len changes)).

Definition time_line (label count : bytes) (values : list bytes) : bytes :=
  pad_end 18 label ++ [SPACE] ++ pad_start 5 count ++ (values ≫= λ value, SPACE :: pad_start 9 value).
Definition push_time_line (label : string) (stats : TimeStats) : bytes :=
  if ts_count stats =? 0 then time_line (str label) (str "0") [ABSENT; ABSENT; ABSENT; ABSENT]
  else
    time_line (str label) (format_count (ts_count stats))
      [format_optional_ns_i128 (ts_min_ns stats); format_ns_f64 (ts_mean_ns stats);
       format_optional_ns_i128 (ts_max_ns stats); format_ns_f64 (ts_stddev_ns stats)].

Definition optional_text (text : option (list Piece)) : list Piece := default (plain ABSENT) text.

Definition details_text (state : TuiState.t) : Result Empty_set (list (list Piece)) :=
  target ← selected state;
  let snapshot := StatsCollector.snapshot (TuiTargetState.stats target) in
  let last := TuiTargetState.last_sample target in
  let packets := snap_packets snapshot in
  let loss := StatsCore.loss snapshot in
  Ok ([plain (str "target: " ++ TuiTargetState.label target);
       plain (str "remote: " ++ default ABSENT (TuiTargetState.remote target) ++
              str "  session: " ++ default ABSENT (TuiTargetState.session target));
       plain (str "interval: " ++ format_span (TuiConfig.interval (config state)) ++
              str "  timeout: " ++ format_span (TuiConfig.timeout (config state)) ++
              str "  pacing: " ++ str (pacing_label (TuiConfig.pacing (config state))));
       plain (str "negotiated: " ++ default ABSENT (format_negotiated <$> TuiTargetState.negotiated target));
       Plain (str "target warning: ") :: optional_text (TuiTargetState.last_warning target);
       Plain (str "run warning: ") :: optional_text (last_warning state);
       plain [];
       plain (str "sent " ++ decimal (PacketCounts.packets_sent packets) ++
              str "  received " ++ decimal (PacketCounts.packets_received packets) ++
              str "  unique " ++ decimal (PacketCounts.unique_replies packets));
       plain (str "lost " ++ decimal (LossStats.lost_packets loss) ++
              str " (" ++ format_percent (LossStats.packet_loss_percent loss) ++
              str ")  duplicates " ++ decimal (PacketCounts.duplicates packets) ++
              str "  late " ++ decimal (PacketCounts.late_packets packets) ++
              str "  warnings " ++ decimal (EventCounts.warning_events (snap_events snapshot)));
       plain (str "bytes sent " ++ decimal (PacketCounts.bytes_sent packets) ++
              str "  received " ++ decimal (PacketCounts.bytes_received packets));
       plain (str "server received " ++ format_optional_count (PacketCounts.server_packets_received packets) ++
              str "  window " ++ format_optional_hex (PacketCounts.server_received_window packets));
       plain (str "progress: " ++
              match TuiConfig.target_probes (config state) with
              | Some count =>
                  decimal (PacketCounts.packets_sent packets) ++ str "/" ++ decimal count ++
                  str " (" ++ format_percent_ratio (PacketCounts.packets_sent packets) count ++ str ")"
              | None => str "continuous"
              end);
       plain [];
       plain (str "latest seq: " ++ match last with Some sample => decimal (LatestSample.seq sample) | None => ABSENT end)] ++
      ((λ metric, plain (str (Metric.label metric) ++ str ": " ++ format_optional_ns_i128 (last ≫= Metric.value_ns metric))) <$>
         Metric.ALL) ++
      [plain []; plain (time_line (str "metric") (str "n") (str <$> ["min"; "mean"; "max"; "stddev"]%string))] ++
      ((λ '(label, stats), plain (push_time_line label stats)) <$>
         [("effective RTT"%string, primary (rtt snapshot));
          ("raw RTT"%string, raw (rtt snapshot));
          ("adjusted RTT"%string, adjusted (rtt snapshot));
          ("IPDV/jitter"%string, round_trip (snap_ipdv snapshot));
          ("send IPDV"%string, send (snap_ipdv snapshot));
          ("receive IPDV"%string, receive (snap_ipdv snapshot));
          ("send delay"%string, ow_send_delay (one_way_delay snapshot));
          ("receive delay"%string, ow_receive_delay (one_way_delay snapshot));
          ("server process"%string, processing (snap_server_processing snapshot));
          ("send call"%string, snap_send_call snapshot);
          ("timer error"%string, snap_timer_error snapshot)]) ++
      [plain []; plain (str "recent events (all targets, newest first)")] ++
      reverse (recent_events state)).

(** [(y, x)]: how far the text reaches beyond the area. *)
Definition details_scroll_limits (text : list (list Piece)) (area : Rect.t) : Z * Z :=
  let inner := bordered_inner area in
  let text_height := len text in
  let widest := foldr Z.max 0 (text_width <$> text) in
  (Z.min (minus_u16 text_height (Rect.height inner)) U16_MAX, Z.min (minus_u16 widest (Rect.width inner)) U16_MAX).

(** ** The graph *)
(** A date and time of the wall clock, as [SystemTime] represents it on Linux. *)
Definition wall_in_range (wall : Z) : bool := bool_decide (in_i 64 (wall / 1_000_000_000)).
Definition graph_wall_time (anchor : ClientTimestamp.t) (tick : Z) : option Z :=
  let wall :=
    if ClientTimestamp.mono anchor <=? tick then ClientTimestamp.wall anchor + since tick (ClientTimestamp.mono anchor)
    else ClientTimestamp.wall anchor - since (ClientTimestamp.mono anchor) tick in
  if wall_in_range wall then Some wall else None.

(** [iter().min_by_key(..)]: the first of the least. *)
Fixpoint min_by_key {A} (key : A → Z) (l : list A) : option A :=
  match l with
  | [] => None
  | x :: l => match min_by_key key l with Some y => if key y <? key x then Some y else Some x | None => Some x end
  end.

Definition graph_timestamp_anchor (end_ : Z) (state : TuiState.t) : option ClientTimestamp.t :=
  min_by_key (λ timestamp,
      if ClientTimestamp.mono timestamp <=? end_ then since end_ (ClientTimestamp.mono timestamp)
      else since (ClientTimestamp.mono timestamp) end_)
    (omap (λ target,
       let history := TuiTargetState.graph_history target in
       let after := partition_point (λ sample, GraphSample.mono sample <=? end_) history in
       GraphSample.timestamp <$> history !! (after - 1)%nat) (targets state)).

Definition graph_local_time `{LocalTime} (wall : Z) : option DateTime :=
  let seconds := wall / 1_000_000_000 in
  seconds ← try_i64 seconds;
  local_datetime seconds (wall mod 1_000_000_000).

Section labels.
Context `{LocalTime}.

Definition viewport_x_axis_labels (viewport : GraphViewportRange.t) (width : Z) (state : TuiState.t) : list bytes :=
  let start := GraphViewportRange.start viewport in
  let end_ := GraphViewportRange.end_ viewport in
  let window := GraphViewportRange.window viewport in
  match graph_timestamp_anchor end_ state with
  | None => [ABSENT; ABSENT]
  | Some anchor =>
      let local_at tick := graph_wall_time anchor tick ≫= graph_local_time in
      let date_boundary :=
        match local_at start, local_at end_ with
        | Some start, Some end_ => negb (date_naive start =? date_naive end_)
        | _, _ => false
        end in
      let label_width := 8 + (if window <? from_secs 8 then 2 else 0) + (if date_boundary then 6 else 0) in
      let count := Z.max 2 (Z.min (minus_u16 width 14 / (label_width + 3)) 5) in
      let step := window / (count - 1) in
      let fractional := step <? from_secs 2 in
      (λ i, let idx := Z.of_nat i in
            let tick := if idx =? count - 1 then Some end_ else instant_checked_add start (step * idx) in
            let label :=
              local ← (tick ≫= local_at);
              let label := format_hms local ++
                           (if fractional then str "." ++ decimal (timestamp_subsec_millis local / 100) else []) in
              Some (if date_boundary && ((idx =? 0) || (idx =? count - 1)) then format_month_day local ++ [SPACE] ++ label else label) in
            default ABSENT label) <$> seq 0 (Z.to_nat count)
  end.

Definition graph_viewport_status (now : Z) (state : TuiState.t) : bytes :=
  match GraphViewport.mode (graph_viewport state) with
  | Follow => str "live"
  | Historical end_ =>
      let live_end := Z.max (default now (newest_graph_sample_time state)) now in
      str "history -" ++ format_span (since live_end end_)
  end.

(** The series shown, with the index of their target. *)
Definition shown_series (viewport : GraphViewportRange.t) (state : TuiState.t) : list (nat * list (f64 * f64)) :=
  omap (λ '(idx, target), pair idx <$> target_metric_series viewport (graph_metric state) (TuiTargetState.graph_history target))
    (imap pair (targets state)).

(** A graph: the plot and its axes, or a message. *)
Inductive Graph : Type :=
  | EmptyGraph (title : bytes) (message : string)
  | DrawnGraph (title : bytes) (x_bounds y_bounds : f64 * f64) (x_labels y_labels : list bytes)
      (plot : Rect.t) (series : list (nat * list (f64 * f64))).

Definition render_graph_area (now : Z) (area : Rect.t) (state : TuiState.t) : Graph :=
  let viewport := GraphViewport.range now (newest_graph_sample_time state) (graph_viewport state) in
  let metric := graph_metric state in
  let series := shown_series viewport state in
  let title := str (Metric.label metric) ++ str " | " ++ graph_viewport_status now state ++ str " | window " ++
               format_span (GraphViewportRange.window viewport) in
  if bool_decide (series = []) then EmptyGraph title (Metric.empty_message metric)
  else
    let '(min_y, max_y) := chart_y_bounds (snd <$> series) (Metric.axis_kind metric) in
    let x_labels := viewport_x_axis_labels viewport (Rect.width area) state in
    let y_labels := y_axis_labels min_y max_y (y_axis_label_count (Rect.height area)) in
    let inner := bordered_inner area in
    let widest := foldr Z.max 0 ((λ label, text_width (plain label)) <$> y_labels) in
    let first := match x_labels with label :: _ => minus_u16 (text_width (plain label)) 1 | [] => 0 end in
    let gutter := Z.min (Z.max widest first) (Rect.width inner / 3) + 1 in
    let plot := Rect.mk (Rect.x inner + gutter) (Rect.y inner) (minus_u16 (Rect.width inner) gutter)
                  (minus_u16 (Rect.height inner) 2) in
    DrawnGraph title (viewport_x_bounds viewport) (min_y, max_y) x_labels y_labels plot series.

(** ** A frame *)
Inductive Frame : Type :=
  | TooSmall
  | Dashboard (header : list bytes) (table : list (nat * list bytes) * bytes)
      (body : (list (list Piece) * (Z * Z)) + Graph) (footer : list (list Piece)).

(** The areas are an array of four. *)
Definition draw_dashboard (now : Z) (area : Rect.t) (state : TuiState.t) : Result Empty_set Frame :=
  if is_too_small area then Ok TooSmall
  else
    let rows := dashboard_layout area state in
    table_area ← expect (rows !! 1%nat);
    body_area ← expect (rows !! 2%nat);
    header ← header now state;
    body ← (if details_open state then
              text ← details_text state;
              let '(max_y, max_x) := details_scroll_limits text body_area in
              let '(y, x) := details_scroll state in
              Ok (inl (text, (Z.min y max_y, Z.min x max_x)))
            else Ok (inr (render_graph_area now body_area state)));
    Ok (Dashboard header (target_table now table_area state) body (status_line state)).
End labels.
End view.

(** ** The page of the table *)
Section page.
Context `{TimeStatsFields} `{CountWindows} `{FirstInstant} `{Clocks}.

(** The selected target is on the page shown, marked. *)
Theorem selected_row_shown now area (state : TuiState.t) target :
  0 <= TuiState.selected_target state → TuiState.targets state !! Z.to_nat (TuiState.selected_target state) = Some target →
  (Z.to_nat (TuiState.selected_target state), target_row now state (Z.to_nat (TuiState.selected_target state)) target)
    ∈ (target_table now area state).1 ∧
  head (target_row now state (Z.to_nat (TuiState.selected_target state)) target) = Some (str ">" ++ TuiTargetState.label target).
Proof.
  intros Hs Ht. set (selected := TuiState.selected_target state) in *. set (visible := visible_rows area).
  assert (0 < visible) as Hv by (subst visible; unfold visible_rows; lia).
  assert (0 <= page_start area state <= selected ∧ selected < page_start area state + visible) as [Hstart Hend].
  { unfold page_start. fold selected visible. pose proof (Z.div_mod selected visible ltac:(lia)). pose proof (Z.mod_pos_bound selected visible Hv).
    assert (0 <= selected / visible) by (by apply Z.div_pos). nia. }
  split.
  - unfold target_table. cbn [fst]. apply list_elem_of_fmap. exists (Z.to_nat selected, target). split; [done|].
    apply list_elem_of_lookup. exists (Z.to_nat (selected - page_start area state)). fold visible.
    rewrite lookup_take_lt, lookup_drop by lia. rewrite list_lookup_imap.
    assert (Z.to_nat (page_start area state) + Z.to_nat (selected - page_start area state) = Z.to_nat selected)%nat as -> by lia. by rewrite Ht.
  - unfold target_row. fold selected. cbn [head]. by rewrite (proj2 (Z.eqb_eq _ selected)) by lia.
Qed.
End page.
