(* ===== verification/AppTuiRun.v ===== *)
(** * irtt-app: a run of the terminal interface

    Models the arguments of [crates/irtt-app/src/cmd/tui/args.rs], the keys of
    [tui/ui.rs], and [run_tui] of [tui/run.rs]: the start, the loop over the driver's
    status and events, input, reconnection and rendering, and the end. What happens
    outside - the branch a select takes, the clock, the terminal's size, the driver's
    answers - is what each turn is given. *)

From Stdlib Require Import Floats.SpecFloat Ascii.
From stdpp Require Import sorting.
From S2P Require Import Prelude Envelope ParamsCodec ClientBase ClientEvent ClientNegotiation ClientProps ManagedBase ManagedTask Endpoint AppOutput.
From S2P Require Import StatsEvents Ipdv StatsCore Rolling Collector AppTargets AppStdin AppStream AppArgs AppFormat AppSummary AppRun.
From S2P Require Import AppFloat AppTuiGraph AppTui AppTuiView.

Definition RETRY_DELAY : Z := from_millis 1500.
Definition RENDER_INTERVAL : Z := from_millis 100.
Definition DEFAULT_TUI_DURATION : Z := 0.

(** ** Arguments *)
Module TuiArgs.
Record t : Type := mk {
  targets : list bytes;
  pacing : GroupPacingArg;
  duration : Z;
  continuous : bool;
  common : CommonClientArgs.t;
}.
Definition is_continuous (self : t) : bool := continuous self || (duration self =? 0).
Definition prepare `{HexCrate} (self : t) (answers : Z → bytes * Z → option (list SocketAddr))
    : Result string (ManagedRunSetup.t * list (bytes * Z)) :=
  prepare_managed_run (common self) (if continuous self then 0 else duration self)
    (TargetSelection.mk (targets self) (pacing self) false) answers.
End TuiArgs.

(** [TuiConfig::from_args]. *)
Definition tui_config (args : TuiArgs.t) (setup : ManagedRunSetup.t) : TuiConfig.t :=
  let interval := CommonClientArgs.interval (TuiArgs.common args) in
  TuiConfig.mk interval
    (if TuiArgs.is_continuous args then None else Some (TuiArgs.duration args))
    (ClientConfig.probe_timeout (ManagedRunSetup.client setup))
    (if TuiArgs.is_continuous args then None else Some (expected_probe_count (TuiArgs.duration args) interval))
    (TuiArgs.pacing args).

(** The configuration of the driver. *)
Definition tui_run_config (args : TuiArgs.t) (setup : ManagedRunSetup.t) : ManagedClientConfig.t :=
  let c := ManagedRunSetup.managed_config setup in
  if TuiArgs.is_continuous args then
    ManagedClientConfig.mk (ManagedClientConfig.client c) (ManagedClientConfig.pacing c) ExplicitStop
      (ManagedClientConfig.event_capacity c) (ManagedClientConfig.command_capacity c)
      (ManagedClientConfig.outcome_history_limit c) (ManagedClientConfig.max_live_target_generations c)
      (ManagedClientConfig.final_drain c) (ManagedClientConfig.reconnect_timeout c)
      (ManagedClientConfig.reconnect_initial_delay c) (ManagedClientConfig.reconnect_max_delay c)
  else c.

(** ** Keys *)
(** Of crossterm's keys, those the interface knows. *)
Inductive KeyCode : Type :=
  | Char (c : ascii) | Esc | Tab | BackTab | Up | Down | Left | Right | PageUp | PageDown | Home | End | OtherKey.

Section keys.
Context `{TimeStatsFields} `{CountWindows} `{FirstInstant} `{Clocks} `{Ratatui}.
Import TuiState.

Definition toggle_details (s : TuiState.t) : TuiState.t := set_scroll (0, 0) (set_details (negb (details_open s)) s).

(** A remainder by no targets would panic. *)
Definition cycle_target (forward : bool) (s : TuiState.t) : Result Empty_set TuiState.t :=
  let count := len (targets s) in
  if count =? 0 then Panic
  else
    let selected := if forward then (selected_target s + 1) mod count else (selected_target s + count - 1) mod count in
    Ok (set_scroll (0, 0) (set_selected selected s)).

Definition scroll_details (key : KeyCode) (area : Rect.t) (s : TuiState.t) : Result Empty_set (bool * TuiState.t) :=
  text ← details_text s;
  body ← expect (dashboard_layout area s !! 2%nat);
  let page := Z.max (Rect.height (bordered_inner body)) 1 in
  let '(max_y, max_x) := details_scroll_limits text body in
  let '(y, x) := details_scroll s in
  let y := Z.min y max_y in
  let x := Z.min x max_x in
  let scroll :=
    match key with
    | Up => Some (minus_u16 y 1, x)
    | Down => Some (Z.min (Z.min (y + 1) U16_MAX) max_y, x)
    | PageUp => Some (minus_u16 y page, x)
    | PageDown => Some (Z.min (Z.min (y + page) U16_MAX) max_y, x)
    | Home => Some (0, 0)
    | End => Some (max_y, x)
    | Left => Some (y, minus_u16 x 8)
    | Right => Some (y, Z.min (Z.min (x + 8) U16_MAX) max_x)
    | _ => None
    end in
  Ok (match scroll with Some scroll => (true, set_scroll scroll s) | None => (false, s) end).

Definition graph_key (key : KeyCode) (s : TuiState.t) : Result Empty_set (bool * TuiState.t) :=
  let oldest := oldest_graph_sample_time s in
  let newest := newest_graph_sample_time s in
  let viewport := graph_viewport s in
  let moved (result : Result Empty_set GraphViewport.t) : Result Empty_set (bool * TuiState.t) :=
    viewport ← result; Ok (true, set_viewport viewport s) in
  match key with
  | Char "m" => Ok (true, set_metric (Metric.next (graph_metric s)) s)
  | Left => moved (GraphViewport.pan_backward oldest newest viewport)
  | Right => moved (GraphViewport.pan_forward newest viewport)
  | PageUp => moved (GraphViewport.page_backward oldest newest viewport)
  | PageDown => moved (GraphViewport.page_forward newest viewport)
  | Home => moved (GraphViewport.jump_oldest oldest newest viewport)
  | End => moved (Ok (GraphViewport.follow_live viewport))
  | Char "+" | Char "=" => moved (Ok (GraphViewport.zoom_in newest viewport))
  | Char "-" => moved (Ok (GraphViewport.zoom_out newest viewport))
  | Char "0" => moved (Ok (GraphViewport.reset_window newest viewport))
  | _ => Ok (false, s)
  end.

(** Whether the key was taken. *)
Definition handle_key (key : KeyCode) (area : Rect.t) (s : TuiState.t) : Result Empty_set (bool * TuiState.t) :=
  let otherwise := if details_open s then scroll_details key area s else graph_key key s in
  match key with
  | Char "d" | Char "g" => Ok (true, toggle_details s)
  | Esc => if details_open s then Ok (true, toggle_details s) else otherwise
  | Tab => s ← cycle_target true s; Ok (true, s)
  | BackTab => s ← cycle_target false s; Ok (true, s)
  | Char "p" => Ok (true, toggle_pause s)
  | Char "r" => Ok (true, clear_visible_history s)
  | _ => otherwise
  end.

(** ** Events *)
Definition process_tui_event (event : ManagedEvent) (s : TuiState.t) : Result Empty_set (bool * TuiState.t) :=
  match event with
  | EvClient target event =>
      let force_render :=
        match event with
        | ClientEvent.SessionStarted _ | ClientEvent.NoTestCompleted _ | ClientEvent.SessionClosed _ _ _ | ClientEvent.Warning _ _ _ => true
        | _ => false
        end in
      s ← process_target_event target event s; Ok (force_render, s)
  | EvTargetFinished outcome => s ← process_target_outcome outcome s; Ok (true, s)
  | EvTargetStateChanged target lifecycle =>
      if is_opening lifecycle then s ← process_target_opening target s; Ok (true, s) else Ok (false, s)
  | _ => Ok (false, s)
  end.

(** What an event shows the state. *)
Definition event_ops (event : ManagedEvent) : list TuiOp :=
  match event with
  | EvClient target event => [OpEvent target event]
  | EvTargetFinished outcome => [OpOutcome outcome]
  | EvTargetStateChanged target lifecycle => if is_opening lifecycle then [OpOpening target] else []
  | _ => []
  end.
End keys.

(** ** The run *)
(** How a joined run failed. *)
Inductive RunFailure : Type :=
  | DriverStopped (failure : ManagedDriverFailure)
  | NoneSucceeded (failed : Z).
Inductive TuiError : Type :=
  | TuiIo (error : string)
  | ReconnectSubmit (error : ManagedCommandError)
  | ReconnectApply (error : ManagedCommandApplyError)
  | TuiFailed (failure : RunFailure).

Inductive InputEvent : Type :=
  | InputClosed
  | InputFailed (error : string)
  | Resize
  (** [size] is the terminal's when it is asked for. *)
  | Key (release control : bool) (code : KeyCode) (size : string + Z * Z)
  | OtherInput.

(** The branch of the select, with what it finds. *)
Inductive TuiWake : Type :=
  | WakeCompletion (joined : string + ManagedOutcome.t)
  | WakeShutdown
  | WakeStatus (closed : bool)
  | WakeEvent (event : ManagedEvent)
  | WakeLagged (count : Z)
  | WakeEventsClosed
  | WakeInput (input : InputEvent)
  | WakeRetry (answer : option ManagedCommandError)
  | WakeReceipt (result : ManagedCommandApplyError + ManagedStatus.t)
  | WakeRender.

(** A turn: the branch; the shutdown flag read by its guard and then by it; the status
    it reads and the one read after it; and the clock, the size and any error of the
    frame it may draw. *)
Record TuiTurn : Type := mk_TuiTurn {
  wake : TuiWake;
  guard_shutdown : bool;
  turn_shutdown : bool;
  turn_status : ManagedStatus.t;
  later_status : ManagedStatus.t;
  turn_now : Z;
  turn_area : Rect.t;
  turn_draw_error : option string;
}.

Inductive TuiFlow : Type :=
  | Looping
  | Joined (joined : string + ManagedOutcome.t)
  | Quit (error : TuiError).

Module TuiRun.
Section run.
Context `{TimeStatsFields} `{CountWindows} `{FirstInstant} `{Clocks} `{Ratatui} `{LocalTime}.
(** The variables of the function, with what it did: the stops and target updates it
    sent to the driver itself (an error drops the worker, which is one more), the
    frames drawn, and what its state was shown. *)
Record t : Type := mk {
  state : TuiState.t;
  interrupted : bool;
  stop_requested : bool;
  retry_armed : bool;
  update_pending : bool;
  dropped_events : Z;
  events_closed : bool;
  status_closed : bool;
  stops : Z;
  updates : Z;
  frames : list Frame;
  shown : list TuiOp;
}.
Definition set_state v (s : t) : t :=
  mk v (interrupted s) (stop_requested s) (retry_armed s) (update_pending s) (dropped_events s) (events_closed s) (status_closed s) (stops s) (updates s) (frames s) (shown s).
Definition interrupt (s : t) : t :=
  mk (TuiState.set_status TuiStatus.Interrupted (state s)) true (stop_requested s) (retry_armed s) (update_pending s) (dropped_events s) (events_closed s) (status_closed s) (stops s) (updates s) (frames s) (shown s).
Definition request_stop (s : t) : t :=
  let '(ask, requested) := request_managed_stop_once (stop_requested s) in
  mk (state s) (interrupted s) requested (retry_armed s) (update_pending s) (dropped_events s) (events_closed s) (status_closed s) (stops s + of_bool ask) (updates s) (frames s) (shown s).
Definition arm_retry v (s : t) : t :=
  mk (state s) (interrupted s) (stop_requested s) v (update_pending s) (dropped_events s) (events_closed s) (status_closed s) (stops s) (updates s) (frames s) (shown s).
Definition set_pending v (s : t) : t :=
  mk (state s) (interrupted s) (stop_requested s) (retry_armed s) v (dropped_events s) (events_closed s) (status_closed s) (stops s) (updates s) (frames s) (shown s).
Definition submit (s : t) : t :=
  mk (state s) (interrupted s) (stop_requested s) (retry_armed s) (update_pending s) (dropped_events s) (events_closed s) (status_closed s) (stops s) (updates s + 1) (frames s) (shown s).
Definition drop_events count (s : t) : t :=
  mk (state s) (interrupted s) (stop_requested s) (retry_armed s) (update_pending s) (sat_u64 (dropped_events s + count)) (events_closed s) (status_closed s) (stops s) (updates s) (frames s) (shown s).
Definition close_events (s : t) : t :=
  mk (state s) (interrupted s) (stop_requested s) (retry_armed s) (update_pending s) (dropped_events s) true (status_closed s) (stops s) (updates s) (frames s) (shown s).
Definition close_status v (s : t) : t :=
  mk (state s) (interrupted s) (stop_requested s) (retry_armed s) (update_pending s) (dropped_events s) (events_closed s) v (stops s) (updates s) (frames s) (shown s).
Definition show frame (s : t) : t :=
  mk (state s) (interrupted s) (stop_requested s) (retry_armed s) (update_pending s) (dropped_events s) (events_closed s) (status_closed s) (stops s) (updates s) (frames s ++ [frame]) (shown s).

Definition record ops (s : t) : t :=
  mk (state s) (interrupted s) (stop_requested s) (retry_armed s) (update_pending s) (dropped_events s) (events_closed s) (status_closed s) (stops s) (updates s) (frames s) (shown s ++ ops).

(** [terminal.draw(&state)]. *)
Definition draw (now : Z) (area : Rect.t) (error : option string) (s : t) : Result Empty_set (option TuiError * t) :=
  frame ← draw_dashboard now area (state s);
  Ok (match error with Some error => (Some (TuiIo error), s) | None => (None, show frame s) end).
End run.
End TuiRun.
Import TuiRun.

Section loop.
Context `{TimeStatsFields} `{CountWindows} `{FirstInstant} `{Clocks} `{Ratatui} `{LocalTime}.
Context (continuous : bool).

(** The guards of the branches. *)
Definition wake_enabled (turn : TuiTurn) (s : TuiRun.t) : bool :=
  match wake turn with
  | WakeCompletion _ | WakeInput _ => true
  | WakeShutdown => negb (interrupted s)
  | WakeStatus _ => negb (status_closed s)
  | WakeEvent _ | WakeLagged _ | WakeEventsClosed => negb (events_closed s)
  | WakeRetry _ => retry_armed s && negb (interrupted s) && negb (guard_shutdown turn)
  | WakeReceipt _ => update_pending s
  | WakeRender => negb (TuiState.paused (state s))
  end.

(** A step on the interface's state. *)
Definition on_state (result : Result Empty_set (bool * TuiState.t)) (s : TuiRun.t) : Result Empty_set (TuiFlow * bool * TuiRun.t) :=
  '(force_render, state) ← result;
  Ok (Looping, force_render, set_state state s).

Definition take_input (input : InputEvent) (s : TuiRun.t) : Result Empty_set (TuiFlow * bool * TuiRun.t) :=
  match input with
  | InputClosed => Ok (Quit (TuiIo "terminal input closed"), false, s)
  | InputFailed error => Ok (Quit (TuiIo error), false, s)
  | Resize => Ok (Looping, true, s)
  | Key true _ _ _ | OtherInput => Ok (Looping, false, s)
  | Key false control code size =>
      let quits := match code with Char "q" => true | Char "c" => control | _ => false end in
      if quits then Ok (Looping, true, interrupt s)
      else
        match size with
        | inl error => Ok (Quit (TuiIo error), false, s)
        | inr (width, height) => on_state (handle_key code (Rect.mk 0 0 width height) (state s)) s
        end
  end.

(** An update refused or not applied ends the run, unless it is stopping. *)
Definition stopping_submit (error : ManagedCommandError) : bool :=
  match error with SubmitStopping | DriverClosed => true | _ => false end.
Definition stopping_apply (error : ManagedCommandApplyError) : bool :=
  match error with ApplyStopping | AcknowledgementDisconnected => true | _ => false end.

Definition tui_select (turn : TuiTurn) (s : TuiRun.t) : Result Empty_set (TuiFlow * bool * TuiRun.t) :=
  match wake turn with
  | WakeCompletion joined => Ok (Joined joined, false, s)
  | WakeShutdown => Ok (Looping, true, interrupt s)
  | WakeStatus closed =>
      state ← TuiState.process_managed_status (turn_status turn) (state s);
      Ok (Looping, true, set_state state (record [OpStatus (turn_status turn)] (close_status closed s)))
  | WakeEvent event => on_state (process_tui_event event (state s)) (record (event_ops event) s)
  | WakeLagged count =>
      let s := drop_events count s in
      Ok (Looping, true, set_state (TuiState.mark_dropped_managed_events (dropped_events s) (state s)) s)
  | WakeEventsClosed => Ok (Looping, false, close_events s)
  | WakeInput input => take_input input s
  | WakeRetry answer =>
      state ← TuiState.process_managed_status (turn_status turn) (state s);
      let s := submit (arm_retry false (set_state state (record [OpStatus (turn_status turn)] s))) in
      Ok (match answer with
          | None => (Looping, false, set_pending true s)
          | Some error =>
              if stopping_submit error && (stop_requested s || turn_shutdown turn)
              then (Looping, false, set_pending false s) else (Quit (ReconnectSubmit error), false, s)
          end)
  | WakeReceipt result =>
      let s := set_pending false s in
      match result with
      | inr status =>
          state ← TuiState.process_managed_status status (state s);
          Ok (Looping, true, set_state state (record [OpStatus status] s))
      | inl error =>
          Ok (if stopping_apply error && (stop_requested s || turn_shutdown turn)
              then (Looping, false, s) else (Quit (ReconnectApply error), false, s))
      end
  | WakeRender => Ok (Looping, true, s)
  end.

(** A desired target whose session is over. *)
Definition wants_reconnect (status : ManagedStatus.t) : bool :=
  existsb (λ target,
    ManagedTargetStatus.desired target &&
    match ManagedTargetStatus.outcome target with
    | Some outcome =>
        match ManagedTargetOutcome.end_reason outcome with Failed _ | PeerClosed | TestComplete => true | _ => false end
    | None => false
    end) (ManagedStatus.targets status).

Definition after_select (turn : TuiTurn) (force_render : bool) (s : TuiRun.t) : Result Empty_set (TuiFlow * TuiRun.t) :=
  let s := if interrupted s then request_stop s else s in
  let s := if continuous && negb (interrupted s) && negb (stop_requested s) && negb (retry_armed s) &&
              negb (update_pending s) && wants_reconnect (later_status turn)
           then arm_retry true s else s in
  if force_render then
    '(failed, s) ← draw (turn_now turn) (turn_area turn) (turn_draw_error turn) s;
    Ok (match failed with Some error => Quit error | None => Looping end, s)
  else Ok (Looping, s).

(** A branch whose guard is false is not taken. *)
Definition tui_turn (turn : TuiTurn) (s : TuiRun.t) : Result Empty_set (TuiFlow * TuiRun.t) :=
  if wake_enabled turn s then
    '(flow, force_render, s) ← tui_select turn s;
    match flow with
    | Looping => after_select turn force_render s
    | _ => Ok (flow, s)
    end
  else Ok (Looping, s).

Fixpoint tui_loop (turns : list TuiTurn) (s : TuiRun.t) : Result Empty_set (TuiFlow * TuiRun.t) :=
  match turns with
  | [] => Ok (Looping, s)
  | turn :: turns =>
      '(flow, s) ← tui_turn turn s;
      match flow with Looping => tui_loop turns s | _ => Ok (flow, s) end
  end.

(** [drain_final_events]. *)
Fixpoint drain_final_events (items : list (Z + ManagedEvent)) (s : TuiRun.t) : Result Empty_set TuiRun.t :=
  match items with
  | [] => Ok s
  | inl count :: items => drain_final_events items (drop_events count s)
  | inr event :: items =>
      '(_, state) ← process_tui_event event (state s);
      drain_final_events items (set_state state (record (event_ops event) s))
  end.

Definition driver_failure_text (failure : ManagedDriverFailure) : bytes :=
  match failure with
  | DriverNoTokioRuntime => str "ManagedClientTask requires a current Tokio runtime"
  | DriverResourceExhausted operation => str "managed driver exhausted resources for " ++ str operation
  | DriverInternal message => str "managed driver invariant failed: " ++ str message
  end.

(** The error of a run that was joined. *)
Definition tui_error (interrupted : bool) (outcome : ManagedOutcome.t) : option RunFailure :=
  match ManagedOutcome.end_reason outcome with
  | DriverFailed failure => Some (DriverStopped failure)
  | _ =>
      if negb interrupted && (ManagedOutcome.successful_target_outcomes outcome =? 0) &&
         (0 <? ManagedOutcome.failed_target_outcomes outcome)
      then Some (NoneSucceeded (ManagedOutcome.failed_target_outcomes outcome)) else None
  end.
Definition run_failure_text (failure : RunFailure) : bytes :=
  match failure with
  | DriverStopped failure => str "managed driver failed: " ++ driver_failure_text failure
  | NoneSucceeded failed => str "no managed target completed successfully (" ++ decimal failed ++ str " failed)"
  end.

(** A frame of the end: when, where, and any error. *)
Record FinalDraw : Type := mk_FinalDraw { draw_now : Z; draw_area : Rect.t; draw_error : option string }.

(** Draw, and stop at an error; else [rest]. *)
Definition draw_then (d : FinalDraw) (s : TuiRun.t) (rest : TuiRun.t → Result Empty_set (Result TuiError unit * TuiRun.t))
    : Result Empty_set (Result TuiError unit * TuiRun.t) :=
  '(failed, s) ← draw (draw_now d) (draw_area d) (draw_error d) s;
  match failed with Some error => Ok (Err error, s) | None => rest s end.

Definition on_tui (f : TuiState.t → TuiState.t) (s : TuiRun.t) : TuiRun.t := set_state (f (state s)) s.

(** What follows the loop, with the events left in the subscription, the flag, and
    the two frames. *)
Definition tui_finish (joined : string + ManagedOutcome.t) (left_ : list (Z + ManagedEvent)) (shutdown : bool)
    (closing last : FinalDraw) (s : TuiRun.t) : Result Empty_set (Result TuiError unit * TuiRun.t) :=
  draw_then closing (on_tui (TuiState.set_status TuiStatus.Closing) s) (λ s,
    match joined with
    | inl error =>
        draw_then last (on_tui (TuiState.set_run_error (plain (str error))) s) (λ s, Ok (Err (TuiIo error), s))
    | inr outcome =>
        s ← drain_final_events left_ s;
        let s := on_tui (TuiState.mark_dropped_managed_events (dropped_events s)) s in
        let discarded := ManagedOutcome.discarded_target_outcomes outcome in
        let s :=
          if negb continuous && negb (discarded =? 0)
          then on_tui (TuiState.set_run_error (plain (decimal discarded ++ str " final target outcomes were discarded"))) s
          else s in
        state ← TuiState.process_outcomes (ManagedOutcome.recent_target_outcomes outcome) (state s);
        let s := set_state state (record (OpOutcome <$> ManagedOutcome.recent_target_outcomes outcome) s) in
        match tui_error (interrupted s || shutdown) outcome with
        | Some error =>
            draw_then last (on_tui (TuiState.set_run_error (plain (run_failure_text error))) s) (λ s, Ok (Err (TuiFailed error), s))
        | None => draw_then last (on_tui (TuiState.set_status TuiStatus.Complete) s) (λ s, Ok (Ok tt, s))
        end
    end).

(** ** From the state it begins with *)
Definition tui_begin (state : TuiState.t) : TuiRun.t := TuiRun.mk state  false false false false 0 false false 0 0 [] [].

(** A first frame, the loop over some turns, and the end if the loop is left; an
    error inside the loop drops the worker, which stops the driver. *)
Definition tui_run (state : TuiState.t) (opening : FinalDraw) (turns : list TuiTurn) (left_ : list (Z + ManagedEvent))
    (shutdown : bool) (closing last : FinalDraw) : Result Empty_set (option (Result TuiError unit) * TuiRun.t) :=
  '(failed, s) ← draw (draw_now opening) (draw_area opening) (draw_error opening) (tui_begin state);
  match failed with
  | Some error => Ok (Some (Err error), s)
  | None =>
      '(flow, s) ← tui_loop turns s;
      match flow with
      | Looping => Ok (None, s)
      | Quit error => Ok (Some (Err error), s)
      | Joined joined => '(result, s) ← tui_finish joined left_ shutdown closing last s; Ok (Some result, s)
      end
  end.

(** A driver that refuses its configuration, or a worker that does not start, and the
    frame that says so. *)
Definition tui_refused (of_driver : bool) (error : string) (last : FinalDraw) (s : TuiRun.t)
    : Result Empty_set (Result TuiError unit * TuiRun.t) :=
  state ← (if of_driver then TuiState.set_error (plain (str error)) (state s)
           else Ok (TuiState.set_run_error (plain (str error)) (state s)));
  draw_then last (set_state state s) (λ s, Ok (Err (TuiIo error), s)).
End loop.

(** The state a prepared run begins with, the driver's configuration and targets. *)
Definition tui_start `{Measurement} `{CountWindows} `{FirstInstant} (args : TuiArgs.t) (setup : ManagedRunSetup.t) (now : Z)
    : Result Empty_set (TuiState.t * ManagedClientConfig.t * list ManagedTargetConfig.t) :=
  state ← TuiState.with_target_labels (tui_config args setup) (PreparedTarget.label <$> ManagedRunSetup.targets setup) now;
  Ok (TuiState.set_status TuiStatus.Opening state, tui_run_config args setup, ManagedRunSetup.managed_targets setup).

(** ** Lemmas *)
(** A layout has an area for each constraint. *)
Class RatatuiLaws `{Ratatui} := {
  vertical_length constraints area : length (vertical constraints area) = length constraints;
}.

Section theory.
Context `{TimeStatsFields} `{CountWindows} `{FirstInstant} `{Clocks} `{Ratatui} `{!RatatuiLaws} `{LocalTime}.
Context (latest : Z).
Hypothesis Hlatest : latest + MAX_GRAPH_WINDOW <= INSTANT_MAX.
Implicit Types (st : TuiState.t) (s : TuiRun.t).
Abbreviation tui_ok := (tui_ok latest).
Abbreviation advanced := (advanced latest).

Lemma layout_area st area i : (i < 4)%nat → ∃ rect, dashboard_layout area st !! i = Some rect.
Proof. intros Hi. apply lookup_lt_is_Some. unfold dashboard_layout. rewrite vertical_length. exact Hi. Qed.

Lemma details_total st : tui_ok st → ∃ text, details_text st = Ok text.
Proof. intros Hs. unfold details_text. destruct (selected_ok latest st Hs) as [target ->]. by eexists. Qed.

Lemma draw_dashboard_total now area st : tui_ok st → ∃ frame, draw_dashboard now area st = Ok frame.
Proof.
  intros Hs. unfold draw_dashboard. destruct (is_too_small area); [by eexists|].
  destruct (layout_area st area 1 ltac:(lia)) as [table ->]. destruct (layout_area st area 2 ltac:(lia)) as [body ->].
  cbn [expect mbind Result_bind]. unfold header. destruct (selected_ok latest st Hs) as [target ->]. cbn [mbind Result_bind].
  destruct (TuiState.details_open st); [|by eexists]. destruct (details_total st Hs) as [text ->]. cbn [mbind Result_bind].
  destruct (details_scroll_limits text body), (TuiState.details_scroll st). by eexists.
Qed.

(** ** Keys *)
(** Changes that neither the targets nor their statistics see. *)
Lemma advanced_view st st' :
  tui_ok st → TuiState.target_index st' = TuiState.target_index st → TuiState.targets st' = TuiState.targets st →
  TuiState.recent_events st' = TuiState.recent_events st → TuiState.config st' = TuiState.config st →
  0 <= TuiState.selected_target st' < len (TuiState.targets st) →
  ViewportLemmas.viewport_ok latest (TuiState.graph_viewport st') → advanced (λ _, []) st st'.
Proof.
  intros [Kt Ki Kr Ks Kv] Hi Ht Hr Hc Hs Hv. apply advanced_same; [|done|done|by rewrite Ht].
  split; rewrite ?Ht, ?Hi, ?Hr; done.
Qed.

Lemma viewport_advances st viewport :
  tui_ok st → ViewportLemmas.viewport_ok latest viewport → advanced (λ _, []) st (TuiState.set_viewport viewport st).
Proof. intros Hs Hv. apply advanced_view; try done. exact (tk_selected _ _ Hs). Qed.

Lemma details_advance st : tui_ok st → advanced (λ _, []) st (toggle_details st).
Proof. intros Hs. apply advanced_view; try done; [exact (tk_selected _ _ Hs)|exact (tk_viewport _ _ Hs)]. Qed.

Lemma cycle_advances forward st : tui_ok st → ∃ st', cycle_target forward st = Ok st' ∧ advanced (λ _, []) st st'.
Proof.
  intros Hs. pose proof (tk_selected _ _ Hs) as Hsel. unfold cycle_target. rewrite (proj2 (Z.eqb_neq _ 0)) by lia.
  eexists. split; [reflexivity|]. apply advanced_view; try done; [|exact (tk_viewport _ _ Hs)]. cbn.
  destruct forward; apply Z.mod_pos_bound; lia.
Qed.

Lemma scroll_advances key area st : tui_ok st → ∃ taken st', scroll_details key area st = Ok (taken, st') ∧ advanced (λ _, []) st st'.
Proof.
  intros Hs. unfold scroll_details. destruct (details_total st Hs) as [text ->]. cbn [mbind Result_bind].
  destruct (layout_area st area 2 ltac:(lia)) as [body ->]. cbn [expect mbind Result_bind].
  destruct (details_scroll_limits text body) as [max_y max_x], (TuiState.details_scroll st) as [y x].
  destruct (match key with Up => _ | _ => _ end) as [scroll|]; eexists _, _; (split; [reflexivity|]); [|by apply advanced_refl].
  apply advanced_view; try done; [exact (tk_selected _ _ Hs)|exact (tk_viewport _ _ Hs)].
Qed.

Lemma moved_advances st (result : Result Empty_set GraphViewport.t) :
  tui_ok st → (∃ viewport, result = Ok viewport ∧ ViewportLemmas.viewport_ok latest viewport) →
  ∃ taken st', (viewport ← result; Ok (true, TuiState.set_viewport viewport st)) = Ok (taken, st') ∧ advanced (λ _, []) st st'.
Proof. intros Hs (viewport & -> & Hv). eexists _, _. split; [reflexivity|]. by apply viewport_advances. Qed.

Lemma graph_key_advances key st : tui_ok st → ∃ taken st', graph_key key st = Ok (taken, st') ∧ advanced (λ _, []) st st'.
Proof.
  intros Hs. pose proof (tk_viewport _ _ Hs) as Hv. pose proof (oldest_until latest st Hs) as Ho. pose proof (newest_until latest st Hs) as Hn.
  assert (0 <= GraphViewport.window (TuiState.graph_viewport st) / 4 <= GraphViewport.window (TuiState.graph_viewport st)) as Hq.
  { destruct Hv as [Hw _]. assert (0 <= MIN_GRAPH_WINDOW) by done. split; [apply Z.div_pos; lia|]. apply Z.div_le_upper_bound; lia. }
  assert (0 <= GraphViewport.window (TuiState.graph_viewport st) <= GraphViewport.window (TuiState.graph_viewport st)) as Hf.
  { destruct Hv as [Hw _]. assert (0 <= MIN_GRAPH_WINDOW) by done. lia. }
  assert (∃ taken st', (Ok (false, st) : Result Empty_set _) = Ok (taken, st') ∧ advanced (λ _, []) st st') as Hnone by (eexists _, _; split; [reflexivity|by apply advanced_refl]).
  unfold graph_key. destruct key as [c| | | | | | | | | | | |]; try exact Hnone.
  2-7: apply moved_advances; [done|].
  - destruct c as [b0 b1 b2 b3 b4 b5 b6 b7].
    repeat match goal with |- context [match ?b with true => _ | false => _ end] => is_var b; destruct b end; try exact Hnone;
      try (apply moved_advances; [done|]; eexists; split; [reflexivity|]; by apply ViewportLemmas.set_window_ok).
    eexists _, _. split; [reflexivity|]. apply advanced_view; try done. exact (tk_selected _ _ Hs).
  - by apply ViewportLemmas.pan_by_ok.
  - by apply ViewportLemmas.pan_by_ok.
  - by apply ViewportLemmas.pan_by_ok.
  - by apply ViewportLemmas.pan_by_ok.
  - by apply ViewportLemmas.jump_oldest_ok.
  - eexists. split; [reflexivity|]. by apply ViewportLemmas.follow_live_ok.
Qed.

Lemma handle_key_advances key area st : tui_ok st → ∃ taken st', handle_key key area st = Ok (taken, st') ∧ advanced (λ _, []) st st'.
Proof.
  intros Hs. unfold handle_key.
  assert (∃ taken st', (if TuiState.details_open st then scroll_details key area st else graph_key key st) = Ok (taken, st') ∧ advanced (λ _, []) st st')
    as Hother by (destruct (TuiState.details_open st); [by apply scroll_advances|by apply graph_key_advances]).
  assert (∀ st', advanced (λ _, []) st st' → ∃ taken st'', (Ok (true, st') : Result Empty_set _) = Ok (taken, st'') ∧ advanced (λ _, []) st st'') as Htaken
    by (intros st' Ha; by eexists _, _).
  destruct key as [c| | | | | | | | | | | |]; try exact Hother.
  - destruct c as [b0 b1 b2 b3 b4 b5 b6 b7].
    repeat match goal with |- context [match ?b with true => _ | false => _ end] => is_var b; destruct b end; try exact Hother;
      apply Htaken; first [by apply details_advance|by apply clear_history_advances|idtac].
    apply advanced_view; try done; [exact (tk_selected _ _ Hs)|exact (tk_viewport _ _ Hs)].
  - destruct (TuiState.details_open st); [apply Htaken; by apply details_advance|exact Hother].
  - destruct (cycle_advances true st Hs) as (st' & -> & Ha). by apply Htaken.
  - destruct (cycle_advances false st Hs) as (st' & -> & Ha). by apply Htaken.
Qed.

(** ** The driver's events *)
Definition seen_ops (ops : list TuiOp) (label : bytes) : list Observation := ops ≫= observations label.
Definition managed_until (event : ManagedEvent) : Prop :=
  match event with EvClient _ event => event_until latest event | _ => True end.

Lemma tui_event_advances event st :
  tui_ok st → managed_until event → ∃ force st', process_tui_event event st = Ok (force, st') ∧ advanced (seen_ops (event_ops event)) st st'.
Proof.
  intros Hs Hu.
  assert (∀ op (force : bool), op_until latest op → ∃ f st', (st' ← TuiState.process_op op st; Ok (force, st')) = Ok (f, st') ∧ advanced (seen_ops [op]) st st') as Hop.
  { intros op force Hop. destruct (op_advances latest op st Hs Hop) as (st' & Hp & Ha). rewrite Hp. cbn [mbind Result_bind].
    eexists _, _. split; [reflexivity|]. eapply advanced_ext; [|exact Ha]. intros label. unfold seen_ops. cbn. by rewrite app_nil_r. }
  destruct event as [|instance lifecycle|instance event|outcome| | | |]; cbn [process_tui_event event_ops];
    try (eexists _, _; split; [reflexivity|by apply advanced_refl]).
  - destruct (TuiState.is_opening lifecycle); [by apply (Hop (OpOpening instance))|]. eexists _, _. split; [reflexivity|by apply advanced_refl].
  - by apply (Hop (OpEvent instance event)).
  - by apply (Hop (OpOutcome outcome)).
Qed.

(** ** The loop *)
Section loop.
Context (continuous : bool) (cfg : TuiConfig.t).

(** The state keeps its invariant, and each target's core is that of what was shown. *)
Record shown_ok s : Prop := {
  sh_state : tui_ok (state s);
  sh_config : TuiState.config (state s) = cfg;
  sh_core label : core (seen_as label (state s))
    = reference_core (tui_stats_config (TuiConfig.continuous cfg)) (seen_ops (shown s) label);
}.

Lemma shown_step s s' ops :
  shown_ok s → advanced (seen_ops ops) (state s) (state s') → shown s' = shown s ++ ops → shown_ok s'.
Proof.
  intros [Hs Hc Hcore] [Ao Ac Acore] Hsh. split; [done|by rewrite Ac|]. intros label. rewrite Acore, Hsh, Hcore.
  unfold TuiState.collector_config. rewrite Hc, observe_all. unfold seen_ops. by rewrite bind_app.
Qed.

Lemma shown_same s s' : shown_ok s → state s' = state s → shown s' = shown s → shown_ok s'.
Proof. intros [Hs Hc Hcore] He Hsh. by split; rewrite He, ?Hsh. Qed.

Lemma shown_quiet s s' : shown_ok s → advanced (λ _, []) (state s) (state s') → shown s' = shown s → shown_ok s'.
Proof. intros Hs Ha Hsh. eapply (shown_step s s' []); [done|exact Ha|by rewrite app_nil_r]. Qed.

Lemma shown_framed s s' : shown_ok s → framed (state s) (state s') → shown s' = shown s → shown_ok s'.
Proof. intros Hs Hf Hsh. eapply shown_quiet; [done|apply framed_advanced; [apply Hs|done]|done]. Qed.

(** The flags: a stop is sent when the run is interrupted, once; updates are sent in
    a continuous run that is not, one at a time. *)
Record flags_ok s : Prop := {
  fl_stops : stops s = of_bool (stop_requested s);
  fl_stop : stop_requested s = interrupted s;
  fl_retry : continuous = false → retry_armed s = false ∧ update_pending s = false ∧ updates s = 0;
  fl_one : retry_armed s && update_pending s = false;
}.

(** Those a select leaves: the stop is still to be sent. *)
Record flags_selected s s' : Prop := {
  fs_stops : stops s' = stops s;
  fs_stop : stop_requested s' = stop_requested s;
  fs_interrupted : interrupted s = true → interrupted s' = true;
  fs_retry : continuous = false → retry_armed s' = false ∧ update_pending s' = false ∧ updates s' = 0;
  fs_one : retry_armed s' && update_pending s' = false;
  fs_updates : interrupted s = true → updates s' = updates s;
}.

Lemma flags_kept s s' :
  flags_ok s → stops s' = stops s → stop_requested s' = stop_requested s → interrupted s' = interrupted s →
  retry_armed s' = retry_armed s → update_pending s' = update_pending s → updates s' = updates s → flags_selected s s'.
Proof. intros [F1 F2 F3 F4] E1 E2 E3 E4 E5 E6. split; rewrite ?E1, ?E2, ?E3, ?E4, ?E5, ?E6; done. Qed.

Definition turn_until (turn : TuiTurn) : Prop := match wake turn with WakeEvent event => managed_until event | _ => True end.

(** What a branch leaves. *)
Definition selected_ok s (result : Result Empty_set (TuiFlow * bool * TuiRun.t)) : Prop :=
  ∃ flow force s', result = Ok (flow, force, s') ∧ shown_ok s' ∧ flags_selected s s' ∧
    (flow ≠ Looping → interrupted s' = interrupted s).

Lemma selected_quiet s s' flow force :
  shown_ok s' → flags_selected s s' → (flow ≠ Looping → interrupted s' = interrupted s) → selected_ok s (Ok (flow, force, s')).
Proof. intros Hs Hf Hi. by exists flow, force, s'. Qed.

Lemma interrupt_shown s : shown_ok s → shown_ok (interrupt s).
Proof. intros Hs. eapply shown_framed; [done|apply framed_status|done]. Qed.

Lemma input_ok input s : shown_ok s → flags_ok s → selected_ok s (take_input input s).
Proof.
  intros Hs Hf. assert (flags_selected s s) as Hkept by (by apply flags_kept).
  assert (∀ flow force, selected_ok s (Ok (flow, force, s))) as Hno by (intros flow force; by apply selected_quiet).
  destruct input as [|error| |release control code size|]; cbn [take_input]; try apply Hno.
  destruct release; [apply Hno|]. destruct (match code with Char _ => _ | _ => false end).
  - apply selected_quiet; [by apply interrupt_shown| |done]. destruct Hf as [F1 F2 F3 F4]. by split.
  - destruct size as [error|[width height]]; [apply Hno|].
    destruct (handle_key_advances code (Rect.mk 0 0 width height) (state s) (sh_state _ Hs)) as (taken & st' & Hk & Ha).
    unfold on_state. rewrite Hk. cbn [mbind Result_bind]. apply selected_quiet; [|by apply flags_kept|done].
    by eapply shown_quiet; [exact Hs|exact Ha|].
Qed.

Lemma status_shown status s (put : TuiState.t → TuiRun.t) :
  shown_ok s → (∀ st', state (put st') = st' ∧ shown (put st') = shown s ++ [OpStatus status]) →
  ∃ st', TuiState.process_managed_status status (state s) = Ok st' ∧ shown_ok (put st').
Proof.
  intros Hs Hput. destruct (op_advances latest (OpStatus status) (state s) (sh_state _ Hs) I) as (st' & Hp & Ha).
  exists st'. split; [exact Hp|]. destruct (Hput st') as [E1 E2]. eapply (shown_step s _ [OpStatus status]); [done| |done].
  rewrite E1. eapply advanced_ext; [|exact Ha]. intros label. unfold seen_ops. cbn. by rewrite app_nil_r.
Qed.

Lemma select_ok turn s :
  shown_ok s → flags_ok s → turn_until turn → wake_enabled turn s = true → selected_ok s (tui_select turn s).
Proof.
  intros Hs Hf Hu He. assert (flags_selected s s) as Hkept by (by apply flags_kept). unfold tui_select, wake_enabled, turn_until in *.
  destruct (wake turn) as [joined| |closed|event|count| |input|answer|result|].
  - by apply selected_quiet.
  - apply selected_quiet; [by apply interrupt_shown| |done]. destruct Hf as [F1 F2 F3 F4]. by split.
  - destruct (status_shown (turn_status turn) s (λ st', set_state st' (record [OpStatus (turn_status turn)] (close_status closed s))) Hs
      ltac:(done)) as (st' & -> & Hs'). cbn [mbind Result_bind]. apply selected_quiet; [done|by apply flags_kept|done].
  - destruct (tui_event_advances event (state s) (sh_state _ Hs) Hu) as (force & st' & Hp & Ha). unfold on_state. cbn [state record].
    rewrite Hp. cbn [mbind Result_bind]. apply selected_quiet; [|by apply flags_kept|done].
    by eapply (shown_step s _ (event_ops event)); [exact Hs|exact Ha|].
  - apply selected_quiet; [|by apply flags_kept|done]. eapply shown_framed; [done|apply framed_dropped_mark|done].
  - apply selected_quiet; [|by apply flags_kept|done]. by eapply shown_same.
  - by apply input_ok.
  - apply andb_true_iff in He as [[Harmed Hint%negb_true_iff]%andb_true_iff _].
    destruct (status_shown (turn_status turn) s (λ st', submit (arm_retry false (set_state st' (record [OpStatus (turn_status turn)] s)))) Hs
      ltac:(done)) as (st' & -> & Hs'). cbn [mbind Result_bind].
    assert (continuous = true) as Hc.
    { apply not_false_iff_true. intros Hc. destruct Hf as [_ _ Fr _]. destruct (Fr Hc) as [Fa _]. congruence. }
    assert (∀ pending, flags_selected s (set_pending pending (submit (arm_retry false (set_state st' (record [OpStatus (turn_status turn)] s)))))) as Hfl.
    { intros pending. split; try done; [congruence|by rewrite Hint]. }
    destruct answer as [error|]; [destruct (stopping_submit error && _)|]; apply selected_quiet; try done; try (by eapply shown_same); apply Hfl.
  - destruct Hf as [F1 F2 F3 F4].
    assert (∀ st' ops, flags_selected s (set_state st' (record ops (set_pending false s)))) as Hfl.
    { intros st' ops. split; try done; [|by rewrite andb_false_r]. intros Hc. by destruct (F3 Hc) as (Fa & Fb & Fd). }
    assert (flags_selected s (set_pending false s)) as Hfl0.
    { split; try done; [|by rewrite andb_false_r]. intros Hc. by destruct (F3 Hc) as (Fa & Fb & Fd). }
    destruct result as [error|status]; [destruct (stopping_apply error && _); (apply selected_quiet; [by eapply shown_same|done|done])|].
    destruct (status_shown status s (λ st', set_state st' (record [OpStatus status] (set_pending false s))) Hs ltac:(done)) as (st' & Hp & Hs').
    cbn [state set_pending]. rewrite Hp. cbn [mbind Result_bind]. apply selected_quiet; [done|apply Hfl|done].
  - by apply selected_quiet.
Qed.

Lemma draw_ok now area error s :
  shown_ok s → ∃ failed s', draw now area error s = Ok (failed, s') ∧ shown_ok s' ∧
    failed = TuiIo <$> error ∧ (s' = s ∨ ∃ frame, s' = show frame s).
Proof.
  intros Hs. unfold draw. destruct (draw_dashboard_total now area (state s) (sh_state _ Hs)) as [frame ->]. cbn [mbind Result_bind].
  destruct error as [error|]; eexists _, _; (split; [reflexivity|]); [|split; [by eapply shown_same|split; [done|by right; exists frame]]].
  split; [done|]. split; [done|by left].
Qed.

Lemma flags_frame s frame : flags_ok s → flags_ok (show frame s).
Proof. intros [F1 F2 F3 F4]. by split. Qed.

Lemma flags_after s s' : flags_ok s → flags_selected s s' → flags_ok (if interrupted s' then request_stop s' else s') ∧
  updates (if interrupted s' then request_stop s' else s') = updates s'.
Proof.
  intros [F1 F2 F3 F4] [S1 S2 S3 S4 S5 S6]. unfold request_stop, request_managed_stop_once.
  destruct (interrupted s') eqn:Hi; (split; [split; cbn|done]); try done.
  - rewrite S1, F1, S2, F2. destruct (interrupted s); [done|]. done.
  - by rewrite S1, S2.
  - rewrite S2, F2, Hi. destruct (interrupted s) eqn:His; [|done]. pose proof (S3 eq_refl). congruence.
Qed.

(** Nothing is asked of the driver but to stop, once the run is interrupted. *)
Definition settled_on s s' : Prop := interrupted s = true → interrupted s' = true ∧ updates s' = updates s.

Lemma tui_turn_ok turn s :
  shown_ok s → flags_ok s → turn_until turn →
  ∃ flow s', tui_turn continuous turn s = Ok (flow, s') ∧ shown_ok s' ∧ flags_ok s' ∧ settled_on s s'.
Proof.
  intros Hs Hf Hu. unfold tui_turn. destruct (wake_enabled turn s) eqn:He; [|by exists Looping, s].
  destruct (select_ok turn s Hs Hf Hu He) as (flow & force & s1 & -> & Hs1 & Hf1 & Hi). cbn [mbind Result_bind].
  assert (flow ≠ Looping → flags_ok s1) as Hstop.
  { intros Hne. destruct Hf as [F1 F2 F3 F4], Hf1 as [S1 S2 S3 S4 S5 S6]. split; [by rewrite S1, S2|by rewrite S2, Hi|done..]. }
  destruct flow as [|joined|error];
    [|exists (Joined joined), s1|exists (Quit error), s1]; [|by (split; [|split; [|split; [apply Hstop|intros Hint; split; apply Hf1]]])..].
  clear Hstop Hi. unfold after_select. destruct (flags_after s s1 Hf Hf1) as [Hf2 Hup].
  set (s2 := if interrupted s1 then request_stop s1 else s1) in *.
  assert (shown_ok s2) as Hs2 by (subst s2; destruct (interrupted s1); [by eapply shown_same|done]).
  set (s3 := if _ && wants_reconnect _ then arm_retry true s2 else s2).
  assert (interrupted s2 = interrupted s1) as Hi2 by (subst s2; by destruct (interrupted s1) eqn:E).
  assert (shown_ok s3 ∧ flags_ok s3 ∧ updates s3 = updates s2 ∧ interrupted s3 = interrupted s2) as (Hs3 & Hf3 & Hu3 & Hi3).
  { subst s3. destruct (_ && wants_reconnect _) eqn:Hw; [|done]. split; [by eapply shown_same|]. split; [|done].
    rewrite !andb_true_iff, !negb_true_iff in Hw. destruct Hw as [[[[[Hc _] _] _] Hp] _]. destruct Hf2 as [F1 F2 F3 F4].
    split; cbn; [done|done|congruence|by rewrite Hp]. }
  assert (settled_on s s3) as Hsame.
  { intros Hint. rewrite Hu3, Hup, Hi3, Hi2. split; by apply Hf1. }
  destruct force; [|by exists Looping, s3].
  destruct (draw_ok (turn_now turn) (turn_area turn) (turn_draw_error turn) s3 Hs3) as (failed & s4 & -> & Hs4 & _ & Hs34). cbn [mbind Result_bind].
  assert (flags_ok s4 ∧ settled_on s s4) as [Hf4 Hu4] by (destruct Hs34 as [->|[frame ->]]; [done|split; [by apply flags_frame|done]]).
  by destruct failed as [error|]; eexists _, s4.
Qed.

Lemma tui_loop_ok turns s :
  shown_ok s → flags_ok s → Forall turn_until turns →
  ∃ flow s', tui_loop continuous turns s = Ok (flow, s') ∧ shown_ok s' ∧ flags_ok s' ∧ settled_on s s'.
Proof.
  intros Hs Hf Hall. revert s Hs Hf. induction Hall as [|turn turns Hu _ IH]; intros s Hs Hf; [by exists Looping, s|].
  cbn [tui_loop]. destruct (tui_turn_ok turn s Hs Hf Hu) as (flow & s1 & -> & Hs1 & Hf1 & Ho1). cbn [mbind Result_bind].
  destruct flow as [|joined|error]; [|by eexists _, s1..].
  destruct (IH s1 Hs1 Hf1) as (flow & s2 & -> & Hs2 & Hf2 & Ho2). exists flow, s2. split; [done|]. split; [done|]. split; [done|].
  intros [Hi Hup]%Ho1. destruct (Ho2 Hi) as [Hi2 Hup2]. split; [done|]. by rewrite Hup2.
Qed.

Lemma loop_app turns more s :
  tui_loop continuous (turns ++ more) s
  = ('(flow, s) ← tui_loop continuous turns s; match flow with Looping => tui_loop continuous more s | _ => Ok (flow, s) end).
Proof.
  revert s. induction turns as [|turn turns IH]; intros s; [done|]. cbn [app tui_loop].
  destruct (tui_turn continuous turn s) as [[[] s1]|e|]; cbn [mbind Result_bind]; [apply IH|done..].
Qed.

(** ** The end *)
Definition left_until (item : Z + ManagedEvent) : Prop := match item with inr event => managed_until event | inl _ => True end.

(** What the end does not touch. *)
Definition same_flags s s' : Prop :=
  interrupted s' = interrupted s ∧ stop_requested s' = stop_requested s ∧ stops s' = stops s ∧ updates s' = updates s ∧
  retry_armed s' = retry_armed s ∧ update_pending s' = update_pending s.

Lemma same_flags_trans s s' s'' : same_flags s s' → same_flags s' s'' → same_flags s s''.
Proof. intros (A1 & A2 & A3 & A4 & A5 & A6) (B1 & B2 & B3 & B4 & B5 & B6). repeat split; congruence. Qed.

Lemma tui_drain_ok items s :
  shown_ok s → Forall left_until items → ∃ s', drain_final_events items s = Ok s' ∧ shown_ok s' ∧ same_flags s s'.
Proof.
  intros Hs Hall. revert s Hs. induction Hall as [|item items Hu _ IH]; intros s Hs; [by exists s|].
  destruct item as [count|event]; cbn [drain_final_events].
  - destruct (IH (drop_events count s)) as (s' & Hd & Hs' & Hf); [by eapply shown_same|]. exists s'. split; [exact Hd|]. split; [exact Hs'|exact Hf].
  - destruct (tui_event_advances event (state s) (sh_state _ Hs) Hu) as (force & st' & -> & Ha). cbn [mbind Result_bind].
    destruct (IH (set_state st' (record (event_ops event) s))) as (s' & Hd & Hs' & Hf); [|exists s'; split; [exact Hd|]; split; [exact Hs'|exact Hf]].
    by eapply (shown_step s _ (event_ops event)); [exact Hs|exact Ha|].
Qed.

Lemma recent_ok outcomes s :
  shown_ok s → ∃ st', TuiState.process_outcomes outcomes (state s) = Ok st' ∧
    shown_ok (set_state st' (record (OpOutcome <$> outcomes) s)).
Proof.
  intros Hs. destruct (outcomes_advance latest outcomes (state s) (sh_state _ Hs)) as (st' & Hp & Ha).
  exists st'. split; [done|]. eapply (shown_step s _ (OpOutcome <$> outcomes)); [done| |done].
  eapply advanced_ext; [|exact Ha]. intros label. unfold seen_ops. clear.
  induction outcomes as [|outcome outcomes IHo]; [done|]. cbn. by rewrite IHo.
Qed.

Lemma draw_then_ok d s (rest : TuiRun.t → Result Empty_set (Result TuiError unit * TuiRun.t)) (ended : Result TuiError unit → TuiRun.t → Prop) :
  shown_ok s → (∀ error s', ended (Err (TuiIo error)) s') →
  (∀ s', shown_ok s' → same_flags s s' → state s' = state s →
     ∃ result s2, rest s' = Ok (result, s2) ∧ shown_ok s2 ∧ same_flags s s2 ∧ ended result s2) →
  ∃ result s2, draw_then d s rest = Ok (result, s2) ∧ shown_ok s2 ∧ same_flags s s2 ∧ ended result s2.
Proof.
  intros Hs Hio Hrest. unfold draw_then. destruct (draw_ok (draw_now d) (draw_area d) (draw_error d) s Hs) as (failed & s1 & -> & Hs1 & Hf & Hs01).
  cbn [mbind Result_bind].
  assert (same_flags s s1 ∧ state s1 = state s) as [Hsame Hst] by (destruct Hs01 as [->|[frame ->]]; done).
  subst failed. destruct (draw_error d) as [error|]; cbn [fmap option_fmap option_map]; [|by apply Hrest].
  eexists _, s1. split; [reflexivity|]. split; [done|]. by split.
Qed.

(** What a run comes to, if its frames and worker do not fail, and the status it shows. *)
Definition ended (joined : string + ManagedOutcome.t) (interrupted : bool) (result : Result TuiError unit) s : Prop :=
  match result with
  | Ok _ => ∃ outcome, joined = inr outcome ∧ tui_error interrupted outcome = None ∧ TuiState.status (state s) = TuiStatus.Complete
  | Err (TuiFailed failure) =>
      ∃ outcome, joined = inr outcome ∧ tui_error interrupted outcome = Some failure ∧ TuiState.status (state s) = TuiStatus.Error
  | Err (TuiIo _) => True
  | _ => False
  end.

Lemma on_tui_ok f s : shown_ok s → framed (state s) (f (state s)) → shown_ok (on_tui f s).
Proof. intros Hs Hf. by eapply shown_framed. Qed.

Lemma finish_ok joined left_ shutdown closing last s :
  shown_ok s → Forall left_until left_ →
  ∃ result s', tui_finish continuous joined left_ shutdown closing last s = Ok (result, s') ∧ shown_ok s' ∧ same_flags s s' ∧
    ended joined (interrupted s || shutdown) result s'.
Proof.
  intros Hs Hall. unfold tui_finish. apply (draw_then_ok closing (on_tui (TuiState.set_status TuiStatus.Closing) s));
    [by apply on_tui_ok, framed_status|done|].
  intros s1 Hs1 Hf1 Hst1. change (interrupted s) with (interrupted (on_tui (TuiState.set_status TuiStatus.Closing) s)).
  set (s0 := on_tui _ s) in *. clearbody s0. destruct joined as [error|outcome].
  - assert (shown_ok (on_tui (TuiState.set_run_error (plain (str error))) s1)) as He by (by apply on_tui_ok, framed_run_error).
    destruct (draw_then_ok last _ (λ s, Ok (Err (TuiIo error), s)) (ended (inl error) (interrupted s0 || shutdown)) He)
      as (result & s' & Hr & Hs' & Hf & Hend); [done|by intros s2 Hs2 Hf2 _; eexists _, s2|].
    exists result, s'. split; [exact Hr|]. split; [done|]. split; [by eapply same_flags_trans|done].
  - destruct (tui_drain_ok left_ s1 Hs1 Hall) as (s2 & -> & Hs2 & Hf2). cbn [mbind Result_bind]. cbv zeta.
    set (s3 := on_tui (TuiState.mark_dropped_managed_events _) s2).
    assert (shown_ok s3) as Hs3 by (apply on_tui_ok; [done|apply framed_dropped_mark]).
    set (s4 := if negb continuous && _ then _ else s3).
    assert (shown_ok s4 ∧ same_flags s3 s4) as [Hs4 Hf4].
    { subst s4. destruct (_ && _); [|done]. split; [|done]. apply on_tui_ok; [done|apply framed_run_error]. }
    destruct (recent_ok (ManagedOutcome.recent_target_outcomes outcome) s4 Hs4) as (st' & -> & Hs5). cbn [mbind Result_bind].
    set (s5 := set_state st' _) in *.
    assert (same_flags s0 s5) as Hf5.
    { eapply same_flags_trans; [exact Hf1|]. eapply same_flags_trans; [exact Hf2|]. exact Hf4. }
    assert (interrupted s5 = interrupted s0) as -> by apply Hf5. clearbody s5.
    destruct (tui_error (interrupted s0 || shutdown) outcome) as [failure|] eqn:Herr.
    + destruct (draw_then_ok last (on_tui (TuiState.set_run_error (plain (run_failure_text failure))) s5)
        (λ s, Ok (Err (TuiFailed failure), s)) (ended (inr outcome) (interrupted s0 || shutdown)))
        as (result & s' & Hr & Hs' & Hf & Hend); [by apply on_tui_ok, framed_run_error|done| |].
      * intros s6 Hs6 Hf6 Hst6. eexists _, s6. do 3 (split; [done|]). exists outcome. by rewrite Hst6.
      * exists result, s'. split; [exact Hr|]. split; [done|]. split; [by eapply same_flags_trans|done].
    + destruct (draw_then_ok last (on_tui (TuiState.set_status TuiStatus.Complete) s5)
        (λ s, Ok (Ok tt, s)) (ended (inr outcome) (interrupted s0 || shutdown)))
        as (result & s' & Hr & Hs' & Hf & Hend); [by apply on_tui_ok, framed_status|done| |].
      * intros s6 Hs6 Hf6 Hst6. eexists _, s6. do 3 (split; [done|]). exists outcome. by rewrite Hst6.
      * exists result, s'. split; [exact Hr|]. split; [done|]. split; [by eapply same_flags_trans|done].
Qed.

Lemma on_state_loops result s flow force s' : on_state result s = Ok (flow, force, s') → flow = Looping.
Proof. unfold on_state. by intros ([force' st'] & _ & [= <- _ _])%bind_ok. Qed.

Lemma select_joined turn s joined force s' :
  tui_select turn s = Ok (Joined joined, force, s') → wake turn = WakeCompletion joined.
Proof.
  unfold tui_select. destruct (wake turn) as [joined'| |closed|event|count| |input|answer|result|]; try done.
  - by intros [= -> _ _].
  - by intros (st' & _ & [=])%bind_ok.
  - by intros ?%on_state_loops.
  - destruct input as [|error| |[] control code [error|[width height]]|]; cbn [take_input]; try done;
      destruct (match code with Char _ => _ | _ => false end); try done. by intros ?%on_state_loops.
  - intros (st' & _ & Hx)%bind_ok. destruct answer as [error|]; [destruct (_ && _)|]; done.
  - destruct result as [error|status]; [destruct (_ && _); done|]. by intros (st' & _ & [=])%bind_ok.
Qed.

Lemma loop_joined turns s joined s' :
  tui_loop continuous turns s = Ok (Joined joined, s') → WakeCompletion joined ∈ wake <$> turns.
Proof.
  revert s. induction turns as [|turn turns IH]; intros s; [done|]. cbn [tui_loop]. intros ([flow s1] & Ht & Hl)%bind_ok.
  rewrite fmap_cons. destruct flow as [|joined'|]; [apply list_elem_of_further; by eapply IH| |done]. injection Hl as -> ->.
  assert (wake turn = WakeCompletion joined) as ->; [|apply list_elem_of_here].
  unfold tui_turn in Ht. destruct (wake_enabled turn s); [|done]. apply bind_ok in Ht as ([[flow force] s2] & Hsel & Hrest).
  destruct flow as [|joined''|]; [|injection Hrest as -> ->; by eapply select_joined|done].
  unfold after_select in Hrest. destruct force; [|done]. by apply bind_ok in Hrest as ([[] s3] & _ & [=]).
Qed.

Definition quits (error : TuiError) : Prop := match error with TuiFailed _ => False | _ => True end.
Lemma select_quits turn s error force s' : tui_select turn s = Ok (Quit error, force, s') → quits error.
Proof.
  unfold tui_select. destruct (wake turn) as [joined'| |closed|event|count| |input|answer|result|]; try done.
  - by intros (st' & _ & [=])%bind_ok.
  - by intros ?%on_state_loops.
  - destruct input as [|e| |[] control code [e|[width height]]|]; cbn [take_input]; try done; try (by intros [= <- _ _]);
      destruct (match code with Char _ => _ | _ => false end); try done; [by intros [= <- _ _]|]. by intros ?%on_state_loops.
  - intros (st' & _ & Hx)%bind_ok. destruct answer as [e|]; [destruct (_ && _)|]; try done. by injection Hx as <- _ _.
  - destruct result as [e|status]; [destruct (_ && _); try done; by intros [= <- _ _]|]. by intros (st' & _ & [=])%bind_ok.
Qed.

Lemma loop_quits turns s error s' : tui_loop continuous turns s = Ok (Quit error, s') → quits error.
Proof.
  revert s. induction turns as [|turn turns IH]; intros s; [done|]. cbn [tui_loop]. intros ([flow s1] & Ht & Hl)%bind_ok.
  destruct flow as [|joined'|error']; [by eapply IH|done|]. injection Hl as -> ->.
  unfold tui_turn in Ht. destruct (wake_enabled turn s); [|done]. apply bind_ok in Ht as ([[flow force] s2] & Hsel & Hrest).
  destruct flow as [|joined''|]; [|done|injection Hrest as -> ->; by eapply select_quits].
  unfold after_select in Hrest. destruct force; [|done]. apply bind_ok in Hrest as ([failed s3] & Hd & Hq).
  unfold draw in Hd. apply bind_ok in Hd as (frame & _ & Hd). destruct (turn_draw_error turn); injection Hd as <- <-; [|done].
  by injection Hq as <- <-.
Qed.

(** ** A whole run *)
Lemma begin_ok labels now st :
  TuiState.with_target_labels cfg labels now = Ok st → labels ≠ [] →
  shown_ok (tui_begin (TuiState.set_status TuiStatus.Opening st)) ∧ flags_ok (tui_begin (TuiState.set_status TuiStatus.Opening st)).
Proof.
  intros Hst Hne. destruct (with_labels_ok latest cfg labels now Hne) as (st' & Hw & Hok & Hc & _ & _ & Hcore).
  assert (st' = st) as -> by congruence. split; [|by split]. split; cbn [state tui_begin shown].
  - eapply framed_ok; [exact Hok|apply framed_status].
  - exact Hc.
  - intros label. change (core (seen_as label (TuiState.set_status TuiStatus.Opening st))) with (core (seen_as label st)).
    rewrite Hcore. unfold TuiState.collector_config. by rewrite Hc.
Qed.

Lemma flags_same s s' : flags_ok s → same_flags s s' → flags_ok s'.
Proof. intros [F1 F2 F3 F4] (E1 & E2 & E3 & E4 & E5 & E6). by split; rewrite ?E1, ?E2, ?E3, ?E4, ?E5, ?E6. Qed.

(** How a run ended: in its loop, or after it. *)
Definition run_ended (turns : list TuiTurn) (shutdown : bool) (result : option (Result TuiError unit)) s : Prop :=
  match result with
  | None | Some (Err (TuiIo _ | ReconnectSubmit _ | ReconnectApply _)) => True
  | Some result => ∃ joined, WakeCompletion joined ∈ wake <$> turns ∧ ended joined (interrupted s || shutdown) result s
  end.

Lemma run_ok st opening turns left_ shutdown closing last :
  shown_ok (tui_begin st) → flags_ok (tui_begin st) → Forall turn_until turns → Forall left_until left_ →
  ∃ result s, tui_run continuous st opening turns left_ shutdown closing last = Ok (result, s) ∧ shown_ok s ∧ flags_ok s ∧
    run_ended turns shutdown result s.
Proof.
  intros Hs Hf Ht Hl. unfold tui_run.
  destruct (draw_ok (draw_now opening) (draw_area opening) (draw_error opening) (tui_begin st) Hs) as (failed & s1 & -> & Hs1 & -> & Hs01).
  cbn [mbind Result_bind].
  assert (flags_ok s1) as Hf1 by (destruct Hs01 as [->|[frame ->]]; [done|by apply flags_frame]).
  destruct (draw_error opening) as [error|]; cbn [fmap option_fmap option_map]; [by eexists _, s1|].
  destruct (tui_loop_ok turns s1 Hs1 Hf1 Ht) as (flow & s2 & Hloop & Hs2 & Hf2 & _). rewrite Hloop. cbn [mbind Result_bind].
  destruct flow as [|joined|error]; [by eexists _, s2| |].
  - destruct (finish_ok joined left_ shutdown closing last s2 Hs2 Hl) as (result & s3 & -> & Hs3 & Hsame & Hend).
    cbn [mbind Result_bind]. exists (Some result), s3. split; [done|]. split; [done|]. split; [by eapply flags_same|].
    assert (∃ joined, WakeCompletion joined ∈ wake <$> turns ∧ ended joined (interrupted s3 || shutdown) result s3) as Hj.
    { exists joined. split; [by eapply loop_joined|]. by rewrite (proj1 Hsame). }
    destruct result as [[]|[]|]; done.
  - eexists _, s2. split; [reflexivity|]. split; [done|]. split; [done|]. apply loop_quits in Hloop. by destruct error.
Qed.
End loop.
End theory.

(** ** Prepared runs *)
Section prepared.
Context `{TimeStatsFields} `{CountWindows} `{FirstInstant} `{Clocks} `{Ratatui} `{!RatatuiLaws} `{LocalTime} `{HexCrate}.

(** The arguments as those of the client's command line. *)
Definition as_client (args : TuiArgs.t) : ClientArgs.t :=
  ClientArgs.mk (TuiArgs.targets args) false false (TuiArgs.pacing args) (TuiArgs.duration args) (TuiArgs.continuous args)
    false false 1 1 2 (TuiArgs.common args) Table [] None false HeaderAuto false.

Lemma prepare_as_client args answers : TuiArgs.prepare args answers = prepare_client (as_client args) answers.
Proof.
  unfold TuiArgs.prepare, prepare_client. cbn -[prepare_managed_run].
  match goal with |- ?r = _ => by destruct r as [[setup l]|e|] end.
Qed.

Lemma prepared_targets args answers setup lookups :
  TuiArgs.prepare args answers = Ok (setup, lookups) → PreparedTarget.label <$> ManagedRunSetup.targets setup ≠ [].
Proof.
  rewrite prepare_as_client. intros (cfg & _ & _ & _ & _ & Hne & _)%prepare_client_ok. cbn in Hne.
  intros He%fmap_nil_inv. done.
Qed.

(** A run of prepared arguments, and what is handed to it. *)
Definition tui_given (latest : Z) (turns : list TuiTurn) (left_ : list (Z + ManagedEvent)) : Prop :=
  latest + MAX_GRAPH_WINDOW <= INSTANT_MAX ∧ Forall (turn_until latest) turns ∧ Forall (left_until latest) left_.

Lemma prepared_run_ok latest args answers setup lookups now st c targets opening turns left_ shutdown closing last :
  TuiArgs.prepare args answers = Ok (setup, lookups) → tui_start args setup now = Ok (st, c, targets) →
  tui_given latest turns left_ →
  ∃ result s, tui_run (TuiArgs.is_continuous args) st opening turns left_ shutdown closing last = Ok (result, s) ∧
    shown_ok latest (tui_config args setup) s ∧ flags_ok (TuiArgs.is_continuous args) s ∧ run_ended turns shutdown result s.
Proof.
  intros Hp Hstart (Hlatest & Ht & Hl). unfold tui_start in Hstart. apply bind_ok in Hstart as (st0 & Hw & [= <- _ _]).
  destruct (begin_ok latest (TuiArgs.is_continuous args) (tui_config args setup) _ now st0 Hw (prepared_targets _ _ _ _ Hp)) as [Hs Hf].
  by apply run_ok.
Qed.
End prepared.

(** ** Properties *)
Section properties.
Context `{TimeStatsFields} `{CountWindows} `{FirstInstant} `{Clocks} `{Ratatui} `{!RatatuiLaws} `{LocalTime} `{HexCrate}.
Implicit Types (st : TuiState.t) (s : TuiRun.t).

(** C36: the terminal interface never panics. Once its arguments are prepared it starts,
    and whatever its turns bring - events, outcomes and statuses of any targets and
    generations in any order, keys, resizes, lost events, answers to updates, drawing
    errors - it comes to a result or goes on, with a selected target, an index of its
    targets, bounded histories and a viewport that can be moved. *)
Theorem tui_run_total latest args answers setup lookups now opening turns left_ shutdown closing last :
  TuiArgs.prepare args answers = Ok (setup, lookups) → tui_given latest turns left_ →
  ∃ st, tui_start args setup now = Ok (st, tui_run_config args setup, ManagedRunSetup.managed_targets setup) ∧
  ∃ result s, tui_run (TuiArgs.is_continuous args) st opening turns left_ shutdown closing last = Ok (result, s) ∧
    tui_ok latest (state s).
Proof.
  intros Hp Hg. pose proof (prepared_targets _ _ _ _ Hp) as Hne.
  destruct (with_labels_ok latest (tui_config args setup) _ now Hne) as (st0 & Hw & _).
  assert (tui_start args setup now
    = Ok (TuiState.set_status TuiStatus.Opening st0, tui_run_config args setup, ManagedRunSetup.managed_targets setup)) as Hst
    by (unfold tui_start; by rewrite Hw).
  eexists. split; [exact Hst|].
  destruct (prepared_run_ok latest args answers setup lookups now _ _ _ opening turns left_ shutdown closing last Hp Hst Hg)
    as (result & s & Hr & Hs & _). exists result, s. split; [done|]. by apply Hs.
Qed.

(** C37: the statistics of a target are those of its latest generation. Of everything a
    run shows of a target - its events, outcomes and statuses, in the order they came,
    with repeats and stragglers of earlier generations - the target has the latest
    generation, and its statistics are a collector's over that generation's events,
    leaving out those of its session that follow its end; late replies are counted
    and not measured. *)
Theorem tui_statistics latest args answers setup lookups now st c targets opening turns left_ shutdown closing last result s :
  TuiArgs.prepare args answers = Ok (setup, lookups) → tui_start args setup now = Ok (st, c, targets) →
  tui_given latest turns left_ →
  tui_run (TuiArgs.is_continuous args) st opening turns left_ shutdown closing last = Ok (result, s) →
  ∀ label, let observed := shown s ≫= observations label in let target := seen_as label (state s) in
    TuiTargetState.generation target = latest_generation observed ∧
    TuiTargetState.stats target =
      StatsCollector.process_all (counted observed) (StatsCollector.new (tui_stats_config (TuiArgs.is_continuous args))).
Proof.
  intros Hp Hst Hg Hr label.
  destruct (prepared_run_ok latest args answers setup lookups now st c targets opening turns left_ shutdown closing last Hp Hst Hg)
    as (result' & s' & Hr' & Hs & _). rewrite Hr in Hr'. injection Hr' as -> ->.
  pose proof (sh_core _ _ _ Hs label) as Hc.
  assert (TuiConfig.continuous (tui_config args setup) = TuiArgs.is_continuous args) as Hcont.
  { unfold TuiConfig.continuous, tui_config. cbn. by destruct (TuiArgs.is_continuous args). }
  rewrite Hcont in Hc. split; [exact (f_equal core_generation Hc)|exact (f_equal core_stats Hc)].
Qed.

(** The loop asks the driver to stop exactly when the run is interrupted, once, and to
    update its targets only in a continuous run. *)
Theorem tui_stops latest args answers setup lookups now st c targets opening turns left_ shutdown closing last result s :
  TuiArgs.prepare args answers = Ok (setup, lookups) → tui_start args setup now = Ok (st, c, targets) →
  tui_given latest turns left_ →
  tui_run (TuiArgs.is_continuous args) st opening turns left_ shutdown closing last = Ok (result, s) →
  stops s = of_bool (interrupted s) ∧ (TuiArgs.is_continuous args = false → updates s = 0).
Proof.
  intros Hp Hst Hg Hr.
  destruct (prepared_run_ok latest args answers setup lookups now st c targets opening turns left_ shutdown closing last Hp Hst Hg)
    as (result' & s' & Hr' & _ & [F1 F2 F3 F4] & _). rewrite Hr in Hr'. injection Hr' as -> ->.
  split; [by rewrite F1, F2|]. by intros (_ & _ & ?)%F3.
Qed.

Lemma tui_error_none stopped shutdown outcome :
  tui_error (stopped || shutdown) outcome = None ↔
  (∀ failure, ManagedOutcome.end_reason outcome ≠ DriverFailed failure) ∧
  (stopped = true ∨ shutdown = true ∨ ManagedOutcome.successful_target_outcomes outcome ≠ 0 ∨
   ManagedOutcome.failed_target_outcomes outcome <= 0).
Proof.
  unfold tui_error.
  assert (negb (stopped || shutdown) && (ManagedOutcome.successful_target_outcomes outcome =? 0) &&
    (0 <? ManagedOutcome.failed_target_outcomes outcome) = false ↔
    (stopped = true ∨ shutdown = true ∨ ManagedOutcome.successful_target_outcomes outcome ≠ 0 ∨
     ManagedOutcome.failed_target_outcomes outcome <= 0)) as Hb.
  { rewrite !andb_false_iff, negb_false_iff, orb_true_iff, Z.eqb_neq, Z.ltb_ge. tauto. }
  destruct (ManagedOutcome.end_reason outcome) as [| |failure]; cbn zeta;
    [rewrite <- Hb; clear Hb; destruct (negb _ && _ && _);
       (split; [try done; by split|by intros [_ ?]])..|].
  split; [done|]. intros [Hf _]. by destruct (Hf failure).
Qed.

(** C39: how a run ends. If it ends well, or says that it failed, the driver was joined
    and the interface shows which: it ends well exactly when the driver did not fail
    and the run was interrupted, or some target succeeded, or none failed. Any other
    error is of input, output, the worker, or a target update. *)
Theorem tui_exit_status latest args answers setup lookups now st c targets opening turns left_ shutdown closing last result s :
  TuiArgs.prepare args answers = Ok (setup, lookups) → tui_start args setup now = Ok (st, c, targets) →
  tui_given latest turns left_ →
  tui_run (TuiArgs.is_continuous args) st opening turns left_ shutdown closing last = Ok (Some result, s) →
  match result with
  | Ok _ | Err (TuiFailed _) =>
      ∃ outcome, WakeCompletion (inr outcome) ∈ wake <$> turns ∧
        (result = Ok tt ↔
           (∀ failure, ManagedOutcome.end_reason outcome ≠ DriverFailed failure) ∧
           (interrupted s = true ∨ shutdown = true ∨ ManagedOutcome.successful_target_outcomes outcome ≠ 0 ∨
            ManagedOutcome.failed_target_outcomes outcome <= 0)) ∧
        TuiState.status (state s) = match result with Ok _ => TuiStatus.Complete | _ => TuiStatus.Error end
  | Err (TuiIo _ | ReconnectSubmit _ | ReconnectApply _) => True
  | Panic => False
  end.
Proof.
  intros Hp Hst Hg Hr.
  destruct (prepared_run_ok latest args answers setup lookups now st c targets opening turns left_ shutdown closing last Hp Hst Hg)
    as (result' & s' & Hr' & _ & _ & Hend). rewrite Hr in Hr'. injection Hr' as <- <-.
  assert (∀ failure, Err (TuiFailed failure) = Ok tt ↔ False) as Hnot by done. cbn [run_ended] in Hend.
  destruct result as [[]|[error|error|error|failure]|]; try done.
  - destruct Hend as (joined & Hin & outcome & -> & He & Hs). exists outcome. split; [done|]. split; [|done].
    split; [|done]. intros _. by apply tui_error_none.
  - destruct Hend as (joined & Hin & outcome & -> & He & Hs). exists outcome. split; [done|]. split; [|done].
    rewrite Hnot. split; [done|]. intros Hgood%tui_error_none. congruence.
  - by destruct Hend as (joined & _ & Hf).
Qed.
End properties.

(** ** A concrete run *)
Section example.
#[local] Existing Instances hex_crate listed_measurement listed_windows first_instant example_clocks listed_fields.

(** Parts of the screen one below the other, without borders; text as wide as its bytes. *)
Fixpoint stacked (y : Z) (constraints : list Constraint) : list Rect.t :=
  match constraints with
  | [] => []
  | (Length n | Min n) :: constraints => Rect.mk 0 y 80 n :: stacked (y + n) constraints
  end.
#[local] Instance stacked_screen : Ratatui := {|
  vertical constraints _ := stacked 0 constraints;
  bordered_inner rect := rect;
  text_width text := foldr (λ piece n, n + match piece with Plain text => len text | Rendered _ => 0 end) 0 text;
|}.
#[local] Instance stacked_laws : RatatuiLaws.
Proof.
  split. intros constraints area. change (length (stacked 0 constraints) = length constraints). generalize 0.
  induction constraints as [|[n|n] constraints IH]; intros y; [done|cbn; by rewrite IH..].
Defined.
#[local] Instance utc : LocalTime := {|
  DateTime := Z;
  local_datetime seconds _ := Some seconds;
  date_naive seconds := seconds / 86_400;
  format_hms seconds := decimal (seconds mod 86_400);
  format_month_day seconds := decimal (seconds / 86_400);
  timestamp_subsec_millis _ := 0;
|}.

(** Two targets for ten seconds. *)
Definition tui_args : TuiArgs.t :=
  TuiArgs.mk [str "a=127.0.0.1"; str "[::1]"] PaceStaggered (from_secs 10) false example_common.
Definition tui_setup : ManagedRunSetup.t :=
  match TuiArgs.prepare tui_args (λ _ _, None) with Ok (setup, _) => setup | _ => example_setup.1 end.
Definition tui_initial : TuiState.t :=
  match tui_start tui_args tui_setup (from_secs 1) with
  | Ok (st, _, _) => st
  | _ => TuiState.mk TuiStatus.Error 0 (tui_config tui_args tui_setup) ∅ [] [] None 0 RawRtt GraphViewport.live 0 false (0, 0) false
  end.

Definition tui_wake (wake : TuiWake) : TuiTurn :=
  let status := status_of [str "a"; str "[::1]"] None in
  mk_TuiTurn wake false false status status (from_secs 20) (Rect.mk 0 0 80 24) None.
Definition tui_frame : FinalDraw := mk_FinalDraw (from_secs 20) (Rect.mk 0 0 80 24) None.

Definition sent_a (generation seq second : Z) : ManagedEvent :=
  EvClient (TargetInstance.mk (str "a") generation) (ClientEvent.EchoSent seq (V4 2130706433 2112) None (at_second second) 64 1_500 None).
Definition reply_a (generation seq second : Z) : ManagedEvent :=
  EvClient (TargetInstance.mk (str "a") generation)
    (ClientEvent.EchoReply seq (V4 2130706433 2112) (at_second second) (at_second second)
       (RttSample.mk (from_millis 3) None (SignedDuration.from_duration (from_millis 3))) None None None 64 (PacketMeta.mk None None None None)).
Definition key (code : KeyCode) : TuiWake := WakeInput (Key false false code (inr (80, 24))).

(** A probe is answered, the target replaced, a straggler of its first generation
    comes after; keys are pressed; the other target fails and the driver ends. *)
Definition tui_turns : list TuiTurn :=
  tui_wake <$>
    [WakeEvent (sent_a 1 7 1); WakeEvent (reply_a 1 7 2); key Left; key Tab; key (Char "d"); key Down;
     WakeEvent (sent_a 2 0 5); WakeEvent (reply_a 1 8 6); WakeLagged 3; WakeRender;
     WakeEvent (EvTargetFinished failed_b); WakeStatus false; WakeCompletion (inr ended_outcome)].
Definition tui_left : list (Z + ManagedEvent) := [inr (sent_a 2 1 9); inl 2].

Definition tui_ran : option (Result TuiError unit) * TuiRun.t :=
  match tui_run false tui_initial tui_frame tui_turns tui_left false tui_frame tui_frame with
  | Ok r => r
  | _ => (None, tui_begin tui_initial)
  end.

Lemma tui_prepared : TuiArgs.prepare tui_args (λ _ _, None) = Ok (tui_setup, []).
Proof. vm_compute. reflexivity. Qed.
Lemma tui_started :
  tui_start tui_args tui_setup (from_secs 1)
  = Ok (tui_initial, tui_run_config tui_args tui_setup, ManagedRunSetup.managed_targets tui_setup).
Proof. vm_compute. reflexivity. Qed.
Lemma tui_example_given : tui_given (from_secs 100) tui_turns tui_left.
Proof.
  split; [vm_compute; discriminate|]. split; repeat constructor; vm_compute; discriminate.
Qed.
Lemma tui_ran_ok : tui_run (TuiArgs.is_continuous tui_args) tui_initial tui_frame tui_turns tui_left false tui_frame tui_frame
  = Ok (Some (Ok tt), tui_ran.2).
Proof. vm_compute. reflexivity. Qed.

Lemma tui_run_total_witness :
  ∃ st, tui_start tui_args tui_setup (from_secs 1)
      = Ok (st, tui_run_config tui_args tui_setup, ManagedRunSetup.managed_targets tui_setup) ∧
  ∃ result s, tui_run false st tui_frame tui_turns tui_left false tui_frame tui_frame = Ok (result, s) ∧
    tui_ok (from_secs 100) (state s).
Proof.
  exact (tui_run_total (from_secs 100) tui_args (λ _ _, None) tui_setup [] (from_secs 1) tui_frame tui_turns tui_left false tui_frame tui_frame
    tui_prepared tui_example_given).
Defined.

(** The second generation's two probes count; the first one's reply, and what came of
    it after it was replaced, do not. *)
Lemma tui_statistics_witness :
  let target := seen_as (str "a") (state tui_ran.2) in
  let packets := snap_packets (StatsCollector.snapshot (TuiTargetState.stats target)) in
  TuiTargetState.generation target = Some 2 ∧ PacketCounts.packets_sent packets = 2 ∧ PacketCounts.unique_replies packets = 0.
Proof.
  destruct (tui_statistics (from_secs 100) tui_args (λ _ _, None) tui_setup [] (from_secs 1) tui_initial _ _ tui_frame tui_turns tui_left
    false tui_frame tui_frame _ _ tui_prepared tui_started tui_example_given tui_ran_ok (str "a")) as [Hg Hs].
  cbv zeta. rewrite Hg, Hs. vm_compute. split; [reflexivity|]. split; reflexivity.
Defined.

Lemma tui_stops_witness : stops tui_ran.2 = 0 ∧ updates tui_ran.2 = 0.
Proof.
  destruct (tui_stops (from_secs 100) tui_args (λ _ _, None) tui_setup [] (from_secs 1) tui_initial _ _ tui_frame tui_turns tui_left
    false tui_frame tui_frame _ _ tui_prepared tui_started tui_example_given tui_ran_ok) as [Hs Hu].
  split; [|apply Hu; reflexivity]. rewrite Hs. vm_compute. reflexivity.
Defined.

(** One target failed and one succeeded. *)
Lemma tui_exit_status_witness : TuiState.status (state tui_ran.2) = TuiStatus.Complete.
Proof.
  destruct (tui_exit_status (from_secs 100) tui_args (λ _ _, None) tui_setup [] (from_secs 1) tui_initial _ _ tui_frame tui_turns tui_left
    false tui_frame tui_frame _ _ tui_prepared tui_started tui_example_given tui_ran_ok) as (outcome & _ & _ & Hs).
  exact Hs.
Defined.

(** What a run showed: the graph, the details of the other target after the keys, and
    its last warning. *)
Example tui_shown :
  len (frames tui_ran.2) = 11 ∧
  match frames tui_ran.2 !! 1%nat with
  | Some (Dashboard _ _ (inr (DrawnGraph title _ _ _ _ _ [(0%nat, [_])])) _) => title = str "effective RTT | history -18.0s | window 1m"
  | _ => False
  end ∧
  TuiState.last_warning (state tui_ran.2) = Some (plain (str "dropped 5 managed run events; statistics may be incomplete")) ∧
  TuiState.selected_target (state tui_ran.2) = 1 ∧ dropped_events tui_ran.2 = 5.
Proof. vm_compute. repeat split. Qed.
End example.
