(* ===== verification/AppServer.v ===== *)
(** * irtt-app: the server's command

    Models [crates/irtt-app/src/cmd/server/args.rs] and [cmd/server/run.rs]: the
    durations of the command line, the configuration and the addresses it asks for,
    and the start of the set of listeners with its one fallback, with
    [address_family_available] of [irtt-server/src/set.rs]. clap is what [clap_ok]
    says of the arguments it hands out; what the system answers is an argument. *)

From S2P Require Import Prelude ProtoBase Envelope ParamsCodec Layout RequestCodec.
From S2P Require Import ServerBase Fill Session Negotiate ServerCore ServerIo ServerRuntime ServerSet.
From S2P Require Import ClientBase Endpoint AppTargets AppStdin AppFormat.

Definition DEFAULT_PORT : Z := 2112.
(** [Ipv6Addr::UNSPECIFIED] and [Ipv4Addr::UNSPECIFIED] with a port. *)
Definition any_ipv6 (port : Z) : SocketAddr := V6 0 port 0 0.
Definition any_ipv4 (port : Z) : SocketAddr := V4 0 port.

(** ** Durations *)
Inductive DurationError : Type :=
  | NoUnit
  | NoValue
  | InvalidDurationValue (input : bytes)
  | DurationTooLarge
  | UnsupportedUnit (unit : bytes)
  | DurationZero.

Definition is_ascii_digit (c : Z) : bool := (48 <=? c) && (c <=? 57).

(** [input.find(|ch| !ch.is_ascii_digit())]: no byte of a longer character is a digit. *)
Fixpoint find_non_digit (input : bytes) : option nat :=
  match input with
  | [] => None
  | c :: rest => if is_ascii_digit c then S <$> find_non_digit rest else Some 0%nat
  end.

(** [u64::checked_mul]. *)
Definition checked_mul_u64 (a b : Z) : option Z := try_u64 (a * b).

Definition parse_duration_units (input : bytes) : Result DurationError Z :=
  split ← ok_or (find_non_digit input) NoUnit;
  let number := take split input in
  let unit := drop split input in
  if bool_decide (number = []) then Err NoValue
  else
    value ← ok_or (parse_uint 64 number) (InvalidDurationValue input);
    if bool_decide (unit = str "ms") then Ok (from_millis value)
    else if bool_decide (unit = str "s") then Ok (from_secs value)
    else if bool_decide (unit = str "m") then ok_or (from_secs <$> checked_mul_u64 value 60) DurationTooLarge
    else Err (UnsupportedUnit unit).

Definition parse_duration_allow_zero (input : bytes) : Result DurationError Z :=
  if bool_decide (input = str "0") then Ok 0 else parse_duration_units input.

Definition parse_positive_duration (input : bytes) : Result DurationError Z :=
  value ← (if bool_decide (input = str "0") then Ok 0 else parse_duration_units input);
  if value =? 0 then Err DurationZero else Ok value.

(** ** Arguments *)
Inductive TimestampAllowanceArg : Type := DualArg | SingleArg | NoneArg.
Definition allowance_of (value : TimestampAllowanceArg) : TimestampAllowance :=
  match value with DualArg => AllowDual | SingleArg => AllowSingle | NoneArg => AllowNone end.

Module ServerArgs.
Record t : Type := mk {
  bind : list SocketAddr;
  hmac : option bytes;
  max_sessions : option Z;
  max_packet_length : option Z;
  min_interval : option Z;
  burst : option Z;
  idle_timeout : option Z;
  max_duration : option Z;
  timestamp_allowance : option TimestampAllowanceArg;
  no_dscp : bool;
}.

Definition resolve_binds (self : t) : list SocketAddr :=
  if bool_decide (bind self = []) then [any_ipv6 DEFAULT_PORT; any_ipv4 DEFAULT_PORT] else bind self.

(** [if let Some(value) = value { config = with(config, value) }]. *)
Definition with_some {A} (with_ : A → ServerConfig.t → ServerConfig.t) (value : option A) (config : ServerConfig.t)
    : ServerConfig.t :=
  match value with Some value => with_ value config | None => config end.

Definition server_config `{HexCrate} (self : t) : Result string ServerConfig.t :=
  config ← match hmac self with
           | Some key => key ← decode_hmac_key key; Ok (ServerConfig.with_hmac_key key ServerConfig.default)
           | None => Ok ServerConfig.default
           end;
  let config := with_some ServerConfig.with_max_sessions (max_sessions self) config in
  let config := with_some ServerConfig.with_max_packet_length (max_packet_length self) config in
  let config := with_some ServerConfig.with_min_send_interval (min_interval self) config in
  let config := with_some ServerConfig.with_burst_allowance (burst self) config in
  let config := with_some ServerConfig.with_idle_timeout (idle_timeout self) config in
  let config := with_some ServerConfig.with_max_test_duration (max_duration self) config in
  let config := with_some (ServerConfig.with_timestamp_allowance ∘ allowance_of) (timestamp_allowance self) config in
  Ok (if no_dscp self then ServerConfig.with_dscp_allowed false config else config).
End ServerArgs.

(** ** Starting the set *)
(** What the system answers while the command starts: to the setup of each listener,
    in the first attempt and in a second one, and whether a UDP socket of a family
    can be made and bound. *)
Module StartAnswers.
Record t : Type := mk {
  setup : nat → SetupAnswers.t;
  setup_again : nat → SetupAnswers.t;
  new_socket : bool → bool;
  bind_socket : SocketAddr → bool;
}.
End StartAnswers.

Definition address_family_available (addr : SocketAddr) (system : StartAnswers.t) : bool :=
  let wildcard := if is_ipv6 addr then any_ipv6 0 else any_ipv4 0 in
  if StartAnswers.new_socket system (is_ipv6 addr) then StartAnswers.bind_socket system wildcard else false.

Definition implicit_default_fallback (is_implicit_default family_available : bool)
    (original_binds : list SocketAddr) (failed_addr : SocketAddr) : option (list SocketAddr) :=
  if negb is_implicit_default || family_available || negb (bool_decide (failed_addr ∈ original_binds)) then None
  else
    let remaining := filter (λ addr, addr ≠ failed_addr) original_binds in
    if bool_decide (remaining = []) then None else Some remaining.

(** The addresses of an attempt, each with what the system answers for it. *)
Definition attempt (binds : list SocketAddr) (setup : nat → SetupAnswers.t) : list (SocketAddr * SetupAnswers.t) :=
  imap (λ i addr, (addr, setup i)) binds.

(** The lines written to standard error. *)
Inductive Notice : Type :=
  | ContinuingWithout (addr : SocketAddr) (source : ServerRuntimeError)
  | ListeningOn (addr : SocketAddr).

Inductive ServeError : Type :=
  | ConfigRefused (message : string)
  | SetFailed (error : ServerSetError).

Module Served.
Record t : Type := mk {
  config : ServerConfig.t;
  pending : list (SocketAddr * SetupAnswers.t);
  servers : list (Server.t * SocketAddr);
}.
End Served.

(** [serve] up to [set.run], with the notices so far. *)
Definition bind_again (config : ServerConfig.t) (remaining : list SocketAddr) (system : StartAnswers.t)
    : Result ServeError Served.t :=
  let pending := attempt remaining (StartAnswers.setup_again system) in
  servers ← map_err SetFailed (bind_set config pending);
  Ok (Served.mk config pending servers).

Definition bind_first (args : ServerArgs.t) (config : ServerConfig.t) (system : StartAnswers.t)
    : Result ServeError Served.t * list Notice :=
  let binds := ServerArgs.resolve_binds args in
  let is_implicit_default := bool_decide (ServerArgs.bind args = []) in
  let pending := attempt binds (StartAnswers.setup system) in
  match bind_set config pending with
  | Ok servers => (Ok (Served.mk config pending servers), [])
  | Err (ListenerSetup addr source) =>
      let family_available := address_family_available addr system in
      match implicit_default_fallback is_implicit_default family_available binds addr with
      | Some remaining => (bind_again config remaining system, [ContinuingWithout addr source])
      | None => (Err (SetFailed (ListenerSetup addr source)), [])
      end
  | Err error => (Err (SetFailed error), [])
  | Panic => (Panic, [])
  end.

Definition serve `{HexCrate} (args : ServerArgs.t) (system : StartAnswers.t) : Result ServeError Served.t * list Notice :=
  match ServerArgs.server_config args with
  | Err message => (Err (ConfigRefused message), [])
  | Panic => (Panic, [])
  | Ok config =>
      let '(set, notices) := bind_first args config system in
      (set, notices ++ match set with Ok served => ListeningOn <$> (Served.servers served).*2 | _ => [] end)
  end.

(** The runs of the set that was started; asking them to shut down is their
    [ShutdownRequested]. What they return is what the command returns. *)
Definition command_result (s : SetState.t) : option (Result ServeError unit) :=
  map_err SetFailed <$> SetState.returned s.

(** [shutdown_signal]: what each look at the flag finds; how many sleeps it took, if
    it has come to an end. *)
Fixpoint shutdown_signal (loads : list bool) : option nat :=
  match loads with
  | [] => None
  | requested :: loads => if requested : bool then Some 0%nat else S <$> shutdown_signal loads
  end.

(** ** What clap promises *)
Record clap_ok `{Target} (args : ServerArgs.t) : Prop := {
  sv_sessions v : ServerArgs.max_sessions args = Some v → 0 <= v <= USIZE_MAX;
  sv_length v : ServerArgs.max_packet_length args = Some v → 0 <= v <= USIZE_MAX;
  sv_burst v : ServerArgs.burst args = Some v → in_u 32 v;
  sv_interval d : ServerArgs.min_interval args = Some d → ∃ text, parse_duration_allow_zero text = Ok d;
  sv_idle d : ServerArgs.idle_timeout args = Some d → ∃ text, parse_duration_allow_zero text = Ok d;
  sv_duration d : ServerArgs.max_duration args = Some d → ∃ text, parse_positive_duration text = Ok d;
}.

(** ** What is asked for *)
(** A configuration with what each argument says, and the default of what is not
    given. *)
Definition policy (args : ServerArgs.t) (key : option bytes) : ServerConfig.t :=
  ServerConfig.mk key
    (default DEFAULT_MAX_SESSIONS (ServerArgs.max_sessions args))
    (default DEFAULT_MAX_PACKET_LENGTH (ServerArgs.max_packet_length args))
    (default DEFAULT_MIN_SEND_INTERVAL (ServerArgs.min_interval args))
    (default DEFAULT_BURST_ALLOWANCE (ServerArgs.burst args))
    (default DEFAULT_IDLE_TIMEOUT (ServerArgs.idle_timeout args))
    (ServerArgs.max_duration args)
    (from_option allowance_of AllowDual (ServerArgs.timestamp_allowance args))
    (negb (ServerArgs.no_dscp args)).

(** The addresses asked for: those given, or the wildcard pair on the IRTT port. *)
Definition asked_for (args : ServerArgs.t) : list SocketAddr :=
  match ServerArgs.bind args with [] => [V6 0 2112 0 0; V4 0 2112] | addrs => addrs end.

(** The system refuses something a listener's setup asks of it. *)
Definition refused (a : SetupAnswers.t) : Prop :=
  (∃ call, is_Some (SetupAnswers.call a call)) ∨ (∃ source, SetupAnswers.local_addr a = inl source) ∨
  is_Some (SetupAnswers.destination_metadata a).

(** No UDP socket of the address's family can be made, or bound to its wildcard. *)
Definition family_missing (system : StartAnswers.t) (addr : SocketAddr) : Prop :=
  match addr with
  | V6 _ _ _ _ => StartAnswers.new_socket system true = false ∨ StartAnswers.bind_socket system (V6 0 0 0 0) = false
  | V4 _ _ => StartAnswers.new_socket system false = false ∨ StartAnswers.bind_socket system (V4 0 0) = false
  end.

(** The command was given no address, and one of the default pair was refused on a host
    without its family. *)
Definition fell_back (args : ServerArgs.t) (system : StartAnswers.t) (failed kept : SocketAddr) : Prop :=
  ServerArgs.bind args = [] ∧ family_missing system failed ∧
  ((failed = V6 0 2112 0 0 ∧ kept = V4 0 2112 ∧ refused (StartAnswers.setup system 0)) ∨
   (failed = V4 0 2112 ∧ kept = V6 0 2112 0 0 ∧ refused (StartAnswers.setup system 1))).

(** A listener that was set up for an address: the socket was bound to just that, after
    it was made IPv6-only if an IPv4 listener was asked for on the same port; the
    listener's own address is the one the system gave the socket; and destinations are
    reported if it is a wildcard. *)
Definition bound_to (requested : list SocketAddr) (p : SocketAddr * SetupAnswers.t) (local_addr : SocketAddr) : Prop :=
  SetupAnswers.call p.2 (BindSocket p.1) = None ∧ SetupAnswers.local_addr p.2 = inr local_addr ∧
  (is_wildcard local_addr = true → SetupAnswers.destination_metadata p.2 = None) ∧
  (∀ ip port flowinfo scope_id ip4, p.1 = V6 ip port flowinfo scope_id → to_ipv4_mapped ip = None → port ≠ 0 →
     V4 ip4 port ∈ requested → SetupAnswers.call p.2 SetOnlyV6 = None).

(** ** Lemmas *)
Lemma units_range input d : parse_duration_units input = Ok d → duration_ok d.
Proof.
  unfold parse_duration_units, parse_uint. intros (split & _ & Hp)%bind_ok. case_bool_decide; [done|].
  apply bind_ok in Hp as (value & Hv & Hp).
  assert (0 <= value <= U64_MAX) as Hr.
  { destruct (read_digits _ _ _ _ _) as [[[r []] []]|]; try done. destruct (bool_decide_reflect (in_u 64 r)) as [Hu|]; [|done].
    injection Hv as ->. unfold in_u, U64_MAX in *. lia. }
  unfold duration_ok, DURATION_MAX, from_millis, from_secs in *.
  repeat case_bool_decide; try done; [injection Hp as <-; lia..|].
  unfold checked_mul_u64, try_u64, in_u, U64_MAX in *. case_decide; [|done]. injection Hp as <-. lia.
Qed.

Lemma allow_zero_range input d : parse_duration_allow_zero input = Ok d → duration_ok d.
Proof.
  unfold parse_duration_allow_zero. case_bool_decide; [|apply units_range].
  intros [= <-]. unfold duration_ok, DURATION_MAX, U64_MAX. lia.
Qed.

Lemma positive_range input d : parse_positive_duration input = Ok d → 0 < d <= DURATION_MAX.
Proof.
  unfold parse_positive_duration. intros (value & Hv & Hp)%bind_ok.
  destruct (Z.eqb_spec value 0); [done|]. injection Hp as <-.
  assert (duration_ok value) as Hd; [|unfold duration_ok in Hd; lia].
  case_bool_decide; [|by eapply units_range]. by injection Hv as <-.
Qed.

(** The configuration, once the key is decoded. *)
Lemma server_config_eq `{HexCrate} args :
  (∀ d, ServerArgs.max_duration args = Some d → d ≠ 0) →
  ServerArgs.server_config args
  = match ServerArgs.hmac args with
    | Some input => policy args ∘ Some <$> decode_hmac_key input
    | None => Ok (policy args None)
    end.
Proof.
  intros Hd. unfold ServerArgs.server_config, policy, ServerArgs.with_some.
  destruct args as [b h s l i u t d a n]. cbn in *.
  assert (match d with Some v => (v =? 0) = false | None => True end) as Hv by (destruct d; [by apply Z.eqb_neq, Hd|done]).
  destruct h as [input|]; [destruct (decode_hmac_key input); [|done..]|]; cbn;
    destruct s, l, i, u, t, d, a, n; cbn; rewrite ?Hv; reflexivity.
Qed.

Lemma policy_ok `{Target} args key : clap_ok args → ServerConfig.ok (policy args key).
Proof.
  intros [Hs Hl Hb Hi Ht Hd]. pose proof USIZE_MAX_lo.
  assert (∀ o v, (∀ d, o = Some d → ∃ text, parse_duration_allow_zero text = Ok d) → 0 <= v → 0 <= default v o) as Hdur.
  { intros [d|] v Ho Hv; [|done]. destruct (Ho d eq_refl) as (text & Hp%allow_zero_range). apply Hp. }
  split; cbn.
  - destruct (ServerArgs.max_sessions args) as [v|]; [by apply Hs|unfold DEFAULT_MAX_SESSIONS; cbn; lia].
  - destruct (ServerArgs.max_packet_length args) as [v|]; [by apply Hl|unfold DEFAULT_MAX_PACKET_LENGTH; cbn; lia].
  - by apply Hdur.
  - destruct (ServerArgs.burst args) as [v|]; [by apply Hb|done].
  - by apply Hdur.
  - intros d Hdd. destruct (Hd d Hdd) as (text & Hp%positive_range). lia.
Qed.

(** The calls that set a listener up. *)
Lemma first_error_none call calls : first_error call calls = None → ∀ c, c ∈ calls → call c = None.
Proof.
  induction calls as [|c calls IH]; [by intros _ c ?%not_elem_of_nil|]. cbn. destruct (call c) eqn:Hc; [done|].
  intros Hf c' [->|Hin]%elem_of_cons; [done|by apply IH].
Qed.
Lemma first_error_some call calls source : first_error call calls = Some source → ∃ c, is_Some (call c).
Proof. induction calls as [|c calls IH]; [done|]. cbn. destruct (call c) eqn:Hc; [by exists c|done]. Qed.

Lemma needed_ipv6_only ip port flowinfo scope_id ip4 requested :
  to_ipv4_mapped ip = None → port ≠ 0 → V4 ip4 port ∈ requested →
  needs_ipv6_only (V6 ip port flowinfo scope_id) requested = true.
Proof.
  intros Hm Hp Hin. unfold needs_ipv6_only, is_genuine_ipv6. cbn. rewrite Hm, (proj2 (Z.eqb_neq port 0)) by done. cbn.
  apply existsb_exists. exists (V4 ip4 port). split; [by apply list_elem_of_In|]. cbn. by rewrite Z.eqb_refl.
Qed.

Lemma bind_listener_bound requested config addr a server :
  bind_listener addr config (needs_ipv6_only addr requested) a = Ok server →
  ∃ local, bound_to requested (addr, a) local ∧ server_local_addr a = Ok local.
Proof.
  unfold bind_listener, bind_server, from_socket, with_core, server_local_addr.
  destruct (first_error _ _) eqn:Hf; [intros [=]|]. destruct (SetupAnswers.local_addr a) as [source|local] eqn:Hla; [intros [=]|].
  cbn. intros Hr. pose proof (first_error_none _ _ Hf) as Hcalls. exists local. split; [|done].
  split; [|split; [done|split]]; cbn.
  - apply Hcalls. destruct (needs_ipv6_only addr requested); [do 3 right|]; left.
  - intros Hw. rewrite Hw in Hr. by destruct (SetupAnswers.destination_metadata a).
  - intros ip port flowinfo scope_id ip4 -> Hm Hp Hin. apply Hcalls.
    rewrite (needed_ipv6_only ip port flowinfo scope_id ip4) by done. right; left.
Qed.

Lemma bind_listener_refused requested config addr a :
  match bind_listener addr config (needs_ipv6_only addr requested) a with
  | Ok _ => True | Err _ => refused a | Panic => False end.
Proof.
  unfold bind_listener, bind_server, from_socket, with_core, refused.
  destruct (first_error _ _) eqn:Hf; [left; by eapply first_error_some|].
  destruct (SetupAnswers.local_addr a) as [source|local]; [right; left; by exists source|].
  destruct (is_wildcard local); [|done]. change (negb SUPPORTED) with false. cbn [negb].
  destruct (SetupAnswers.destination_metadata a); cbn; [right; right; by eexists|done].
Qed.

(** Binding them all succeeds with each listener at its address, or fails with the
    first that is refused; it never panics. *)
Lemma bind_all_cases config requested pending :
  match bind_all config requested pending with
  | Ok servers => Forall2 (bound_to requested) pending servers.*2
  | Err error => ∃ i addr a source, pending !! i = Some (addr, a) ∧ error = ListenerSetup addr source ∧ refused a
  | Panic => False
  end.
Proof.
  induction pending as [|[addr a] pending IH]; [constructor|]. cbn.
  pose proof (bind_listener_bound requested config addr a) as Hb. pose proof (bind_listener_refused requested config addr a) as Hr.
  destruct (bind_listener _ _ _ a) as [server|source|]; cbn; [|by exists 0%nat, addr, a, source|done].
  destruct (Hb server eq_refl) as (local & Hl & ->). cbn.
  destruct (bind_all config requested pending) as [servers|error|]; cbn; [by constructor| |done].
  destruct IH as (i & addr' & a' & source & Hi & Hrest). by exists (S i), addr', a', source.
Qed.

Lemma attempt_addrs binds setup : (attempt binds setup).*1 = binds.
Proof.
  unfold attempt. rewrite fmap_imap. apply list_eq. intros i. rewrite list_lookup_imap. by destruct (binds !! i).
Qed.

Lemma attempt_cases config binds setup :
  binds ≠ [] →
  match bind_set config (attempt binds setup) with
  | Ok servers => Forall2 (bound_to binds) (attempt binds setup) servers.*2
  | Err error => ∃ i addr source, binds !! i = Some addr ∧ error = ListenerSetup addr source ∧ refused (setup i)
  | Panic => False
  end.
Proof.
  intros Hne. pose proof (bind_all_cases config binds (attempt binds setup)) as Hc.
  assert (bind_set config (attempt binds setup) = bind_all config binds (attempt binds setup)) as ->.
  { unfold bind_set. rewrite attempt_addrs. by destruct binds. }
  destruct (bind_all config binds _) as [|error|]; [done| |done]. destruct Hc as (i & addr & a & source & Hi & -> & Hr).
  unfold attempt in Hi. rewrite list_lookup_imap in Hi. destruct (binds !! i) as [addr'|] eqn:Hb; [|done]. injection Hi as -> <-.
  by exists i, addr, source.
Qed.

Lemma resolved args : ServerArgs.resolve_binds args = asked_for args ∧ asked_for args ≠ [].
Proof. unfold ServerArgs.resolve_binds, asked_for. by destruct (ServerArgs.bind args). Qed.

Lemma family_unavailable addr system : address_family_available addr system = false ↔ family_missing system addr.
Proof.
  unfold address_family_available, family_missing. destruct addr as [ip port|ip port f sc]; cbn;
    (destruct (StartAnswers.new_socket system _); [|naive_solver]);
    (split; [by right|by intros [|]]).
Qed.

(** The fallback drops the address that failed, and keeps the other; it is not tried
    for an address that was given, nor on a host that has the family. *)
Lemma fallback_cases args system i addr :
  asked_for args !! i = Some addr → refused (StartAnswers.setup system i) →
  match implicit_default_fallback (bool_decide (ServerArgs.bind args = [])) (address_family_available addr system)
    (asked_for args) addr with
  | Some remaining => ∃ kept, remaining = [kept] ∧ fell_back args system addr kept
  | None => ServerArgs.bind args ≠ [] ∨ ¬ family_missing system addr
  end.
Proof.
  unfold implicit_default_fallback. intros Hi Hr. case_bool_decide as Hbind; [|by left].
  pose proof (family_unavailable addr system) as Hf. destruct (address_family_available addr system); cbn [negb orb].
  { right. intros Hm. by apply Hf in Hm. }
  rewrite (bool_decide_eq_true_2 (addr ∈ _)) by (by eapply list_elem_of_lookup_2). cbn [negb].
  unfold asked_for, fell_back in *. rewrite Hbind in *.
  destruct i as [|[|i]]; [injection Hi as <-..|done]; cbn; eexists; (split; [reflexivity|]);
    (split; [done|]); (split; [by apply Hf|]); [by left|by right].
Qed.

Lemma bind_first_cases args config system :
  match (bind_first args config system).1 with
  | Ok served =>
      let pending := Served.pending served in
      Served.config served = config ∧ bind_set config pending = Ok (Served.servers served) ∧
      Forall2 (bound_to pending.*1) pending (Served.servers served).*2 ∧
      (pending = attempt (asked_for args) (StartAnswers.setup system) ∨
       ∃ failed kept, fell_back args system failed kept ∧ pending = [(kept, StartAnswers.setup_again system 0)])
  | Err error =>
      ∃ addr source, error = SetFailed (ListenerSetup addr source) ∧
        ((∃ i, asked_for args !! i = Some addr ∧ refused (StartAnswers.setup system i) ∧
           (ServerArgs.bind args ≠ [] ∨ ¬ family_missing system addr)) ∨
         ∃ failed, fell_back args system failed addr ∧ refused (StartAnswers.setup_again system 0))
  | Panic => False
  end.
Proof.
  unfold bind_first. destruct (resolved args) as [-> Hne].
  pose proof (attempt_cases config _ (StartAnswers.setup system) Hne) as Hfirst.
  destruct (bind_set config (attempt (asked_for args) _)) as [servers|error|] eqn:Hb; [| |done].
  { cbn. rewrite attempt_addrs. by split; [|split; [|split; [|left]]]. }
  destruct Hfirst as (i & addr & source & Hi & -> & Hr). pose proof (fallback_cases args system i addr Hi Hr) as Hf.
  destruct (implicit_default_fallback _ _ _ _) as [remaining|]; cbn; [|exists addr, source; split; [done|]; left; by exists i].
  destruct Hf as (kept & -> & Hfell). unfold bind_again.
  pose proof (attempt_cases config [kept] (StartAnswers.setup_again system) ltac:(done)) as Hagain.
  destruct (bind_set config (attempt [kept] _)) as [servers|error|] eqn:Hb'; cbn; [| |done].
  - split; [done|]. split; [done|]. split; [done|]. right. by exists addr, kept.
  - destruct Hagain as (j & addr' & source' & Hj & -> & Hr'). destruct j; [|done]. injection Hj as <-.
    exists kept, source'. split; [done|]. right. by exists addr.
Qed.

(** ** Properties *)
Section properties.
Context `{Target} `{!HmacMd5} `{!Host} `{HexCrate}.
Implicit Types (args : ServerArgs.t) (system : StartAnswers.t).

(** The key of a configuration is the one given, decoded. *)
Definition key_given args (key : option bytes) : Prop :=
  match ServerArgs.hmac args with
  | Some input => ∃ decoded, decode_hmac_key input = Ok decoded ∧ key = Some decoded
  | None => key = None
  end.

(** What the start of the command may come to: a set with a listener for each address
    that was asked for, serving under that policy in every run of the set; a key that
    cannot be decoded; or an address the system refused, in an attempt that nothing
    could follow. *)
Definition as_asked args system (result : Result ServeError Served.t) : Prop :=
  match result with
  | Ok served =>
      let config := Served.config served in
      let pending := Served.pending served in
      (∃ key, key_given args key ∧ config = policy args key) ∧
      (pending = imap (λ i addr, (addr, StartAnswers.setup system i)) (asked_for args) ∨
       ∃ failed kept, fell_back args system failed kept ∧ pending = [(kept, StartAnswers.setup_again system 0)]) ∧
      ∀ s, supervising config pending s →
        Forall2 (bound_to pending.*1) pending (Listener.addr <$> SetState.listeners s) ∧
        ∀ l, l ∈ SetState.listeners s → serving config (Listener.addr l) (Listener.run l)
  | Err (ConfigRefused message) => ∃ input, ServerArgs.hmac args = Some input ∧ decode_hmac_key input = Err message
  | Err (SetFailed error) =>
      ∃ addr source, error = ListenerSetup addr source ∧
        ((∃ i, asked_for args !! i = Some addr ∧ refused (StartAnswers.setup system i) ∧
           (ServerArgs.bind args ≠ [] ∨ ¬ family_missing system addr)) ∨
         ∃ failed, fell_back args system failed addr ∧ refused (StartAnswers.setup_again system 0))
  | Panic => False
  end.

Lemma first_as_asked args system key :
  clap_ok args → key_given args key → as_asked args system (bind_first args (policy args key) system).1.
Proof.
  intros Hc Hkey. pose proof (bind_first_cases args (policy args key) system) as Hf.
  destruct (bind_first _ _ _) as [[served|error|] notices]; cbn in *; [| |done].
  - destruct Hf as (Hcfg & Hb & Hbound & Hpending). rewrite Hcfg. split; [by exists key|]. split; [done|].
    intros s Hs. apply supervising_servers in Hs as (servers & Hb' & [Ha Hl _ _]); [|by apply policy_ok].
    rewrite Hb in Hb'. injection Hb' as <-. rewrite Ha. split; [done|]. intros l Hin. apply (Hl l Hin).
  - destruct Hf as (addr & source & -> & Hf). by exists addr, source.
Qed.

(** C40: the server's command serves what its command line asks for. It starts a set
    with one listener for each address given, in order, or for the default pair, bound
    to just that address, and apart from an IPv4 listener on its port if it is IPv6; or
    it fails. Only without an address, and on a host that lacks the family of one of
    the pair, does it go on with the other alone. Each listener of every run then
    serves under the policy asked for: what was given, and the default of what was not.
    It refuses only a key it cannot decode, or an address the system refused, and never
    panics. *)
Theorem server_command_serves args system : clap_ok args → as_asked args system (serve args system).1.
Proof.
  intros Hc. pose proof (first_as_asked args system) as Hfirst. unfold serve. rewrite server_config_eq.
  2: { intros d (text & Hp%positive_range)%(sv_duration _ Hc). lia. }
  unfold key_given in Hfirst. destruct (ServerArgs.hmac args) as [input|] eqn:Hh.
  - destruct (decode_hmac_key input) as [key|message|] eqn:Hk; cbn.
    + specialize (Hfirst (Some key) Hc ltac:(by exists key)). by destruct (bind_first _ _ _) as [set notices].
    + by exists input.
    + by apply (decode_key_no_panic input).
  - specialize (Hfirst None Hc eq_refl). cbn. by destruct (bind_first _ _ _) as [set notices].
Qed.
End properties.

Lemma find_after_digits digits c rest :
  Forall (λ c, 48 <= c <= 57) digits → is_ascii_digit c = false →
  find_non_digit (digits ++ c :: rest) = Some (length digits).
Proof.
  induction 1 as [|d digits Hd _ IH]; intros Hc; cbn; [by rewrite Hc|].
  unfold is_ascii_digit at 1. rewrite (proj2 (Z.leb_le 48 d)), (proj2 (Z.leb_le d 57)) by lia. cbn. by rewrite IH.
Qed.

Lemma parse_digits digits n :
  Forall (λ c, 48 <= c <= 57) digits → digits ≠ [] → read_digits 10 None 0 0 digits = Some (n, length digits, []) →
  in_u 64 n → parse_uint 64 digits = Some n.
Proof.
  intros Hd Hne Hr Hn. unfold parse_uint. destruct digits as [|c digits]; [done|]. inversion_clear Hd.
  assert (match c :: digits with 43 :: rest => rest | _ => c :: digits end = c :: digits) as ->.
  { assert (c = 48 ∨ c = 49 ∨ c = 50 ∨ c = 51 ∨ c = 52 ∨ c = 53 ∨ c = 54 ∨ c = 55 ∨ c = 56 ∨ c = 57) as Hcs by lia.
    by destruct_or? Hcs; subst c. }
  rewrite Hr. cbn. by rewrite bool_decide_eq_true_2.
Qed.

(** A duration is a number with its unit: milliseconds, seconds, or minutes that still
    are a number of seconds. *)
Theorem duration_read n unit scale :
  in_u 64 n → (unit, scale) ∈ [(str "ms", 1_000_000); (str "s", 1_000_000_000); (str "m", 60_000_000_000)] →
  parse_duration_units (decimal n ++ unit)
  = if bool_decide (unit = str "m" ∧ ¬ in_u 64 (n * 60)) then Err DurationTooLarge else Ok (n * scale).
Proof.
  intros Hn Hunit. destruct (decimal_natural n) as (digits & -> & Hd & Hne & _ & Hr); [by apply (in_u_nonneg 64)|].
  assert (∃ c rest, unit = c :: rest ∧ is_ascii_digit c = false) as (c & rest & Hu & Hc).
  { repeat (apply elem_of_cons in Hunit as [[= -> ->]|Hunit]; [by eexists _, _|]). by apply not_elem_of_nil in Hunit. }
  unfold parse_duration_units. rewrite Hu at 1. rewrite find_after_digits by done. cbn [ok_or mbind Result_bind].
  rewrite take_app_length, drop_app_length. rewrite bool_decide_eq_false_2 by done.
  specialize (Hr [] I). rewrite app_nil_r in Hr. rewrite (parse_digits _ n) by done. cbn [ok_or mbind Result_bind].
  clear Hu Hr Hd. unfold from_millis, from_secs, checked_mul_u64, try_u64.
  repeat (apply elem_of_cons in Hunit as [[= -> ->]|Hunit]; [|]); [| | |by apply not_elem_of_nil in Hunit].
  - done.
  - done.
  - rewrite (bool_decide_eq_false_2 (str "m" = str "ms")), (bool_decide_eq_false_2 (str "m" = str "s")) by done.
    rewrite (bool_decide_eq_true_2 (str "m" = str "m")) by done.
    case_decide as Hm; case_bool_decide as Hb; cbn; [by destruct Hb|f_equal; lia|done|by destruct Hb].
Qed.

(** ** Concrete commands *)
Section example.
#[local] Existing Instances target64 toy_hmac example_host hex_crate.

(** A key in hexadecimal, no marking, an interval of 20 ms. *)
Definition server_args (binds : list SocketAddr) : ServerArgs.t :=
  ServerArgs.mk binds (Some (str "0x0aff")) (Some 16) None (Some (from_millis 20)) None None None (Some SingleArg) true.
Lemma server_args_ok binds : clap_ok (server_args binds).
Proof.
  split; cbn; try done; [by intros v [= <-]|]. intros d [= <-]. by exists (str "20ms").
Qed.

(** A host without IPv6: nothing of that family can be made, and IPv4 can. *)
Definition setup_of (addr : SocketAddr) : SetupAnswers.t := SetupAnswers.mk (λ _, None) (inr addr) None.
Definition without_ipv6 : StartAnswers.t :=
  StartAnswers.mk (λ _, SetupAnswers.mk (λ _, Some "address family not supported") (inl "no address") None)
    (λ _, setup_of (any_ipv4 DEFAULT_PORT)) negb (λ _, true).

(** Two addresses given on a host that has both families, and none on one without IPv6. *)
Definition with_both : StartAnswers.t :=
  StartAnswers.mk (λ i, setup_of (default (any_ipv4 1) ([V4 2130706433 7; V6 1 7 0 0] !! i))) (λ _, setup_of (any_ipv4 1)) (λ _, true) (λ _, true).

Lemma bound_addrs requested pending addrs :
  Forall2 (bound_to requested) pending addrs →
  Some <$> addrs = (λ p, match SetupAnswers.local_addr p.2 with inr addr => Some addr | inl _ => None end) <$> pending.
Proof. induction 1 as [|p addr pending addrs (_ & Ha & _) _ IH]; [done|]. cbn. by rewrite Ha, IH. Qed.

Lemma server_command_serves_witness :
  (∃ served, (serve (server_args [V4 2130706433 7; V6 1 7 0 0]) with_both).1 = Ok served ∧
    ∀ s, supervising (Served.config served) (Served.pending served) s →
      Some <$> (Listener.addr <$> SetState.listeners s) = [Some (V4 2130706433 7); Some (V6 1 7 0 0)]) ∧
  ∃ served, (serve (server_args []) without_ipv6).1 = Ok served ∧
    ∀ s, supervising (Served.config served) (Served.pending served) s →
      Some <$> (Listener.addr <$> SetState.listeners s) = [Some (any_ipv4 DEFAULT_PORT)].
Proof.
  split.
  - pose proof (server_command_serves (server_args [V4 2130706433 7; V6 1 7 0 0]) with_both (server_args_ok _)) as Hs.
    destruct (serve _ _).1 as [served|error|] eqn:He; [|vm_compute in He; discriminate He|destruct Hs].
    exists served. split; [reflexivity|]. destruct Hs as (_ & _ & Hrun). intros s [Hb _]%Hrun.
    rewrite (bound_addrs _ _ _ Hb). vm_compute in He. injection He as <-. reflexivity.
  - pose proof (server_command_serves (server_args []) without_ipv6 (server_args_ok _)) as Hs.
    destruct (serve _ _).1 as [served|error|] eqn:He; [|vm_compute in He; discriminate He|destruct Hs].
    exists served. split; [reflexivity|]. destruct Hs as (_ & _ & Hrun). intros s [Hb _]%Hrun.
    rewrite (bound_addrs _ _ _ Hb). vm_compute in He. injection He as <-. reflexivity.
Defined.

(** With the address given, the same host is an error; and what was said of both. *)
Example explicit_refused :
  serve (server_args [any_ipv6 DEFAULT_PORT]) without_ipv6
  = (Err (SetFailed (ListenerSetup (any_ipv6 DEFAULT_PORT) (BindFailed (any_ipv6 DEFAULT_PORT) "address family not supported"))), []) ∧
  (serve (server_args []) without_ipv6).2
  = [ContinuingWithout (any_ipv6 DEFAULT_PORT) (BindFailed (any_ipv6 DEFAULT_PORT) "address family not supported");
     ListeningOn (any_ipv4 DEFAULT_PORT)].
Proof. split; vm_compute; reflexivity. Qed.

Lemma duration_read_witness : parse_duration_units (str "90m") = Ok 5_400_000_000_000.
Proof. apply (duration_read 90 (str "m") 60_000_000_000); [by unfold in_u|right; right; left]. Defined.

Example waits_for_the_flag : shutdown_signal [false; false; true; false] = Some 2%nat.
Proof. reflexivity. Qed.
End example.
