(* ===== verification/AppEntry.v ===== *)
(** * irtt-app: choosing an applet

    Models [crates/irtt-app/src/applet.rs] and the dispatcher of [entry.rs]: which
    applet a process runs, from the name it was started under or its first argument,
    and its exit code. Arguments are bytes, as on Linux; clap's rendering is the class
    [DispatcherClap], and running an applet is an argument. *)

From S2P Require Import Prelude AppTargets AppFormat AppOutput.

(** ** Applets *)
Inductive RequestedApplet : Type := Client | Tui | Server.

Inductive AppletDispatch : Type :=
  | RunApplet (applet : RequestedApplet) (argv : list bytes)
  | Help (text : bytes).

(** [cfg!(feature = ...)]. *)
Module Features.
Record t : Type := mk { client : bool; tui : bool; server : bool }.
End Features.

(** What clap makes of the dispatcher's command: the help of its subcommands, each with
    what it is about, and of the text after them; and the version. *)
Class DispatcherClap := {
  render_help : list (bytes * bytes) → bytes → bytes;
  render_version : bytes;
}.

Definition client_applet_about (features : Features.t) : bytes :=
  str (if Features.client features then "Run the stream client applet"
       else "Stream client applet is not available in this build").
Definition tui_applet_about (features : Features.t) : bytes :=
  str (if Features.tui features then "Run the terminal UI applet" else "Terminal UI applet is not available in this build").
Definition server_applet_about (features : Features.t) : bytes :=
  str (if Features.server features then "Run the UDP server applet" else "UDP server applet is not available in this build").
Definition known_applet_binary_names : bytes := str "irtt-rs, irtt-client, irtt-tui, irtt-server".
Definition applet_command_names : bytes := str "client, tui, or server".

Definition dispatcher_after_help (features : Features.t) : bytes :=
  let help := str "Recognized applet binary names: irtt-client, irtt-tui, irtt-server" in
  let missing :=
    (if Features.client features then [] else [str "irtt-client requires the client feature"]) ++
    (if Features.server features then [] else [str "irtt-server requires the server feature"]) ++
    (if Features.tui features then [] else [str "irtt-tui requires the tui feature"]) in
  match missing with
  | [] => help
  | [only] => help ++ [10] ++ str "Optional applet: " ++ only
  | _ => help ++ [10] ++ str "Optional applets: " ++ join (str "; ") missing
  end.

Definition dispatcher_help `{DispatcherClap} (features : Features.t) : bytes :=
  render_help
    [(str "client", client_applet_about features); (str "tui", tui_applet_about features);
     (str "server", server_applet_about features)]
    (dispatcher_after_help features).

(** ** Names *)
Definition SLASH : Z := 47.

(** [OsStr::to_str]. *)
Definition to_str (text : bytes) : option bytes := if utf8_valid text then Some text else None.

(** [Path::file_name]: the last component, if it is a name. Empty parts and [.] are not
    components, but for a leading [.], which is no name. *)
Definition file_name (path : bytes) : option bytes :=
  match last (filter (λ part, part ≠ [] ∧ part ≠ str ".") (split_on SLASH [] path)) with
  | Some part => if bool_decide (part = str "..") then None else Some part
  | None => None
  end.

Definition ascii_lowercase (c : Z) : Z := if (65 <=? c) && (c <=? 90) then c + 32 else c.
Definition eq_ignore_ascii_case (a b : bytes) : bool := bool_decide (ascii_lowercase <$> a = ascii_lowercase <$> b).

(** [name.get(..split)] and [name.get(split..)]. *)
Definition is_char_boundary (text : bytes) (at_ : nat) : bool :=
  match text !! at_ with Some b => negb (utf8_cont b) | None => bool_decide (at_ = length text) end.
Definition str_split (text : bytes) (at_ : nat) : option (bytes * bytes) :=
  if is_char_boundary text at_ then Some (take at_ text, drop at_ text) else None.

Definition strip_suffix_ignoring_case (name suffix : bytes) : bytes :=
  if bool_decide (suffix = []) || (len name <=? len suffix) then name
  else
    match str_split name (length name - length suffix) with
    | Some (stem, tail) => if eq_ignore_ascii_case tail suffix then stem else name
    | None => name
    end.

(** [std::env::consts::EXE_SUFFIX], on Linux. *)
Definition EXE_SUFFIX : bytes := [].

Definition applet_basename (argv0 : bytes) : bytes :=
  strip_suffix_ignoring_case (default argv0 (file_name argv0 ≫= to_str)) EXE_SUFFIX.

Definition detect_applet_from_argv0 (argv0 : bytes) : option RequestedApplet :=
  let name := applet_basename argv0 in
  if bool_decide (name = str "irtt-client") then Some Client
  else if bool_decide (name = str "irtt-tui") then Some Tui
  else if bool_decide (name = str "irtt-server") then Some Server
  else None.

(** ** Dispatch *)
Definition applet_argv (applet_name : bytes) (args : list bytes) : list bytes := applet_name :: args.

Section dispatch.
Context `{DispatcherClap} (features : Features.t).

Definition run_command (applet : RequestedApplet) (applet_name : bytes) (argv : list bytes) : Result bytes AppletDispatch :=
  args ← slice_from 2 argv; Ok (RunApplet applet (applet_argv applet_name args)).

Definition dispatch_from_argv (argv : list bytes) : Result bytes AppletDispatch :=
  let argv0 := default (str "irtt-rs") (head argv ≫= to_str) in
  match detect_applet_from_argv0 argv0 with
  | Some applet => Ok (RunApplet applet argv)
  | None =>
      let basename := applet_basename argv0 in
      if starts_with (str "irtt-") basename && negb (bool_decide (basename = str "irtt-rs")) then
        Err (str "unknown applet name '" ++ basename ++ str "'. Known applet names: " ++ known_applet_binary_names)
      else
        match argv !! 1%nat ≫= to_str with
        | None => Err (str "choose an applet: " ++ applet_command_names ++ [10; 10] ++ dispatcher_help features)
        | Some command =>
            if bool_decide (command ∈ [str "-V"; str "--version"]) then Ok (Help render_version)
            else if bool_decide (command ∈ [str "-h"; str "--help"]) then Ok (Help (dispatcher_help features))
            else if bool_decide (command = str "client") then run_command Client (str "irtt-client") argv
            else if bool_decide (command = str "tui") then run_command Tui (str "irtt-tui") argv
            else if bool_decide (command = str "server") then run_command Server (str "irtt-server") argv
            else Err (str "unknown applet '" ++ command ++ str "'. Choose one of: " ++ applet_command_names
                      ++ [10; 10] ++ dispatcher_help features)
        end
  end.

(** ** The process *)
(** [run] is what an applet that is built in comes to. *)
Definition run_applet (run : RequestedApplet → list bytes → Result bytes unit) (applet : RequestedApplet)
    (argv : list bytes) : Result bytes unit :=
  match applet with
  | Client => if Features.client features then run Client argv
              else Err (str "client applet is not available; rebuild with the client feature")
  | Tui => if Features.tui features then run Tui argv
           else Err (str "TUI applet is not available; rebuild with the tui feature")
  | Server => if Features.server features then run Server argv
              else Err (str "server applet is not available; rebuild with the server feature")
  end.

(** What is printed on standard output, and the result. *)
Definition run_dispatcher (run : RequestedApplet → list bytes → Result bytes unit) (argv : list bytes)
    : bytes * Result bytes unit :=
  match dispatch_from_argv argv with
  | Ok (RunApplet applet argv) => ([], run_applet run applet argv)
  | Ok (Help help) => (help, Ok tt)
  | Err message => ([], Err message)
  | Panic => ([], Panic)
  end.
End dispatch.

Inductive ExitCode : Type := SUCCESS | FAILURE.

(** The line on standard error, if any, and the exit code; a panic has neither. *)
Definition run_with_exit_code (program : bytes) (result : Result bytes unit) : option (option bytes * ExitCode) :=
  match result with
  | Ok _ => Some (None, SUCCESS)
  | Err err => Some (Some (program ++ str ": " ++ err), FAILURE)
  | Panic => None
  end.
Definition dispatcher_main `{DispatcherClap} (features : Features.t) run (argv : list bytes) :=
  let '(printed, result) := run_dispatcher features run argv in (printed, run_with_exit_code (str "irtt-rs") result).

(** ** Names of applets *)
Definition command_name (applet : RequestedApplet) : bytes :=
  match applet with Client => str "client" | Tui => str "tui" | Server => str "server" end.
Definition binary_name (applet : RequestedApplet) : bytes := str "irtt-" ++ command_name applet.
Definition enabled (features : Features.t) (applet : RequestedApplet) : bool :=
  match applet with
  | Client => Features.client features | Tui => Features.tui features | Server => Features.server features
  end.

Lemma split_on_last part dir name :
  SLASH ∉ name → ∃ parts, split_on SLASH part (dir ++ SLASH :: name) = parts ++ [name].
Proof.
  intros Hn. assert (∀ part, split_on SLASH part name = [part ++ name]) as Hname
    by (intros part'; rewrite <- (app_nil_r name) at 1; by rewrite split_skip).
  revert part. induction dir as [|c dir IH]; intros part; cbn.
  - rewrite Hname. by exists [part].
  - destruct (c =? SLASH); [|apply IH]. destruct (IH []) as (parts & ->). by exists (part :: parts).
Qed.

(** A name in any directory. *)
Lemma file_name_in dir name :
  SLASH ∉ name → name ≠ [] → name ≠ str "." → name ≠ str ".." → file_name (dir ++ SLASH :: name) = Some name.
Proof.
  intros Hs Hne Hdot Hdots. unfold file_name. destruct (split_on_last [] dir name Hs) as (parts & ->).
  rewrite filter_app, filter_cons_True, filter_nil by done. by rewrite last_snoc, bool_decide_eq_false_2.
Qed.

Lemma detect_binary applet : detect_applet_from_argv0 (binary_name applet) = Some applet.
Proof. destruct applet; vm_compute; reflexivity. Qed.
Lemma detect_in dir applet : detect_applet_from_argv0 (dir ++ SLASH :: binary_name applet) = Some applet.
Proof.
  assert (applet_basename (dir ++ SLASH :: binary_name applet) = binary_name applet) as Hb.
  { unfold applet_basename. rewrite file_name_in by (destruct applet; try done; apply (bool_decide_unpack _); vm_compute; exact I).
    destruct applet; vm_compute; reflexivity. }
  unfold detect_applet_from_argv0. rewrite Hb. destruct applet; vm_compute; reflexivity.
Qed.
Lemma detected argv0 applet : detect_applet_from_argv0 argv0 = Some applet → applet_basename argv0 = binary_name applet.
Proof. unfold detect_applet_from_argv0. repeat case_bool_decide; intros [= <-]; done. Qed.

(** The suffix of an executable comes off whatever its case, and nothing else does. *)
Theorem suffix_stripped stem tail suffix :
  suffix ≠ [] → stem ≠ [] → utf8_cont (default 0 (head tail)) = false →
  eq_ignore_ascii_case tail suffix = true → strip_suffix_ignoring_case (stem ++ tail) suffix = stem.
Proof.
  intros Hs Hst Hc He. unfold strip_suffix_ignoring_case. rewrite bool_decide_eq_false_2 by done. cbn [orb].
  assert (length tail = length suffix) as Hl.
  { unfold eq_ignore_ascii_case in He. apply bool_decide_eq_true in He. apply (f_equal length) in He.
    by rewrite !length_fmap in He. }
  unfold len. rewrite length_app, Hl, (proj2 (Z.leb_gt _ _)) by (destruct stem; [done|cbn; lia]).
  replace (length stem + length suffix - length suffix)%nat with (length stem) by lia.
  unfold str_split, is_char_boundary. rewrite lookup_app_r, Nat.sub_diag, take_app_length, drop_app_length by lia.
  destruct tail as [|c tail]; [by destruct suffix|]. change (utf8_cont c = false) in Hc. assert ((c :: tail) !! 0%nat = Some c) as -> by done. rewrite Hc. cbn [negb]. by rewrite He.
Qed.

Section properties.
Context `{DispatcherClap}.
Implicit Types (features : Features.t).

(** Starting a link to the program under an applet's name, from any directory, or giving
    the applet's command to the dispatcher, runs that applet, with the same arguments. *)
Theorem multicall features applet dir rest :
  utf8_valid (dir ++ SLASH :: binary_name applet) = true →
  dispatch_from_argv features ((dir ++ SLASH :: binary_name applet) :: rest)
    = Ok (RunApplet applet ((dir ++ SLASH :: binary_name applet) :: rest)) ∧
  dispatch_from_argv features (binary_name applet :: rest) = Ok (RunApplet applet (binary_name applet :: rest)) ∧
  dispatch_from_argv features (str "irtt-rs" :: command_name applet :: rest)
    = Ok (RunApplet applet (binary_name applet :: rest)).
Proof.
  intros Hu. split; [|split].
  - unfold dispatch_from_argv. cbn [head mbind option_bind]. unfold to_str. rewrite Hu. cbn [default from_option id].
    by rewrite detect_in.
  - by destruct applet.
  - destruct applet; unfold dispatch_from_argv, run_command, slice_from; cbn;
      (rewrite decide_True by (unfold len; cbn [length]; lia)); done.
Qed.

(** What is chosen is what was named: the applet of the name the process was started
    under, with its arguments as they are, or the one of the first argument, with those
    after it; and nothing panics. *)
Theorem dispatch_chosen features argv :
  match dispatch_from_argv features argv with
  | Ok (RunApplet applet args) =>
      (∃ argv0 rest, argv = argv0 :: rest ∧ applet_basename argv0 = binary_name applet ∧ args = argv) ∨
      (∃ argv0 rest, argv = argv0 :: command_name applet :: rest ∧ args = binary_name applet :: rest)
  | Ok (Help _) =>
      ∃ argv0 flag rest, argv = argv0 :: flag :: rest ∧ flag ∈ [str "-V"; str "--version"; str "-h"; str "--help"]
  | Err _ => True
  | Panic => False
  end.
Proof.
  unfold dispatch_from_argv. destruct (detect_applet_from_argv0 _) as [applet|] eqn:Hd.
  { left. unfold to_str in Hd. destruct argv as [|argv0 rest]; [done|]. cbn in Hd. destruct (utf8_valid argv0); [|done].
    apply detected in Hd. by exists argv0, rest. }
  destruct (starts_with _ _ && _); [done|]. unfold to_str.
  destruct argv as [|argv0 [|command rest]]; [done..|]. cbn. destruct (utf8_valid command); [|done].
  assert (∀ applet, run_command applet (binary_name applet) (argv0 :: command :: rest)
    = Ok (RunApplet applet (binary_name applet :: rest))) as Hrun.
  { intros applet. unfold run_command, slice_from. by rewrite decide_True by (unfold len; cbn [length]; lia). }
  change (str "irtt-client") with (binary_name Client). change (str "irtt-tui") with (binary_name Tui).
  change (str "irtt-server") with (binary_name Server). rewrite !Hrun.
  repeat case_bool_decide; try done; [exists argv0, command, rest; (split; [done|]); set_solver..| | |];
    right; exists argv0, rest; split; [by subst command|done|by subst command|done|by subst command|done].
Qed.

(** The exit code tells whether the applet that was chosen, if it is built in, succeeded. *)
Theorem exit_code features run argv printed err code :
  dispatcher_main features run argv = (printed, Some (err, code)) →
  code = SUCCESS ↔
    (∃ help, dispatch_from_argv features argv = Ok (Help help)) ∨
    ∃ applet args, dispatch_from_argv features argv = Ok (RunApplet applet args) ∧ enabled features applet = true ∧
      run applet args = Ok tt.
Proof.
  unfold dispatcher_main, run_dispatcher, run_with_exit_code.
  destruct (dispatch_from_argv features argv) as [[applet args|help]|message|]; cbn; [| | |done].
  - intros [= _ Hr]. split.
    + intros ->. right. exists applet, args. split; [done|].
      destruct applet; cbn in *; destruct (_ features); try done; destruct (run _ args) as [[]| |]; done.
    + intros [(? & [=])|(? & ? & [= <- <-] & He & Hok)].
      assert (run_applet features run applet args = Ok tt) as Ha by (destruct applet; cbn in *; by rewrite He).
      rewrite Ha in Hr. by injection Hr.
  - intros [= _ _ <-]. split; [|done]. intros _. left. by exists help.
  - intros [= _ _ <-]. split; [done|]. intros [(? & [=])|(? & ? & [=] & _)].
Qed.
End properties.

(** ** Examples *)
Section example.
#[local] Instance plain_clap : DispatcherClap := {|
  render_help commands after := join [10] (commands.*1) ++ [10] ++ after;
  render_version := str "irtt-rs";
|}.
Definition all_features : Features.t := Features.mk true true true.

Lemma multicall_witness :
  dispatch_from_argv all_features [str "/usr/bin/irtt-server"; str "--burst"; str "3"]
  = Ok (RunApplet Server [str "/usr/bin/irtt-server"; str "--burst"; str "3"]).
Proof. apply (multicall all_features Server (str "/usr/bin")). vm_compute. reflexivity. Defined.

Example unknown_name :
  dispatch_from_argv all_features [str "bin/irtt-ping/."; str "client"]
  = Err (str "unknown applet name 'irtt-ping'. Known applet names: irtt-rs, irtt-client, irtt-tui, irtt-server").
Proof. vm_compute. reflexivity. Qed.

Example missing_applet :
  dispatcher_main (Features.mk true false true) (λ _ _, Ok tt) [str "renamed"; str "tui"]
  = ([], Some (Some (str "irtt-rs: TUI applet is not available; rebuild with the tui feature"), FAILURE)).
Proof. vm_compute. reflexivity. Qed.

Example on_windows : strip_suffix_ignoring_case (str "irtt-client.EXE") (str ".exe") = str "irtt-client".
Proof. vm_compute. reflexivity. Qed.
End example.
